(* ===== verification/_CoqProject ===== *)
-Q . S2P
Prelude.v
APInt.v
APIntOps.v
APIntFacts.v
APIntArith.v
APIntBits.v
APIntDiv.v
APIntExt.v
Intrinsics.v
IntrinsicsFacts.v
IntrinsicsCorrect.v
Utf8.v
Utf8Facts.v
Utf8Correct.v
Crc32cTables.v
Crc32c.v
Crc32cFacts.v
Crc32cCorrect.v
Half.v
HalfFacts.v
HalfCorrect.v
Hashing.v
HashingFacts.v
Int2str.v
Symbol.v
SymbolFacts.v
SymbolThreads.v
SymbolCorrect.v
SymbolGensym.v
Objects.v
WsQueue.v
WsQueueInv.v
WsQueueSim.v
WsQueueMain.v
Probe.v
SmallIntSet.v
SmallIntSetCorrect.v
ObjectId.v
IdSet.v
IdSetFacts.v
IdDict.v
IdDictCorrect.v
Htable.v
HtableFacts.v
HtableCorrect.v
Eytzinger.v
EytzingerFacts.v
EytzingerCorrect.v
Ios.v
IosMemSpec.v
IosMemCorrect.v
IosLines.v
IosFile.v
IosFileCorrect.v
GcProg.v
GcScan.v
GcLogic.v
GcScanFacts.v
GcChildren.v
GcScanRoutines.v
GcScanMain.v
GcMark.v
GcMarkProtocol.v
GcMarkTri.v
GcMarkRun.v
GcMarkMain.v
Layout.v
LayoutFacts.v
Datatype.v
LayoutWorld.v
LayoutFields.v
LayoutStruct.v
LayoutMain.v
LayoutCorrect.v
LayoutMemory.v
LayoutTheorems.v
Egal.v
EgalFacts.v
EgalCorrect.v
EgalTheorems.v
