(* ===== verification/Prelude.v ===== *)
(** * Verification of the joolia runtime

    joolia is an implementation of Julia. Its runtime, the C sources under
    [src/src] of the repository, has many parts that other code relies on
    without looking inside: integer arithmetic, text, hashing, tables, streams,
    symbols, the layouts of data types, egality, the garbage collector. This library
    models a number of them as executable definitions that keep the names, the
    branches and the machine integers of the C code, and proves what each one
    promises.

    ** Reading the library

    A C function becomes a [Definition] or [Fixpoint] of the same name. An
    unsigned [w]-bit integer is a [Z] in [0, 2^w) and arithmetic on it is
    followed by [uw w] where the C code can wrap; [sw w] reads it as signed. A
    buffer is a list, a pointer an index or the list from it on, and an access
    outside a buffer, a failed assertion and undefined behaviour make the result
    [None] (or leave a thread without a next step), so that a theorem that a
    result is [Some] says that none of them happens. (Two exceptions: the
    scanner of the collector, [GcScan], is that of a release build, without its
    assertions; and [byte << 24] in [MurmurHash3_x86_128], which can overflow an
    [int], shifts the bits, as compilers do.) A loop whose recursion is
    not structural takes fuel; its theorems prove that the fuel given always is
    enough (see Bounds).

    The files come in groups. The first file of a group has the definitions, the
    others their theory; the last one has the properties.

    ** The parts, their sources and what is proved

    - [Prelude]: words, byte and list access, loops with fuel, automation.

    - Integer arithmetic. [APInt], [APIntOps] are APInt.c: integers of any bit
      width in little-endian byte buffers, worked on as 64-bit words.
      [Intrinsics] is the integer part of runtime_intrinsics.c: the run-time
      dispatch of [add_int] and the like, with a fast C operation at 8, 16, 32,
      64 bits and APInt.c at the others. [APIntFacts], [APIntArith],
      [APIntBits], [APIntDiv], [APIntExt] prove that each word routine computes
      the mathematical operation; [IntrinsicsFacts] that both paths implement one
      specification; [IntrinsicsCorrect] states the intrinsics end to end, from
      boxed operands to the boxed result, flag or error.

    - Text. [Utf8] is support/utf8.c; [Utf8Facts], [Utf8Correct]
      prove validation against the Unicode definition, conversion round trips
      with truncation at character boundaries, and the escapes. [Int2str] is
      support/int2str.c.

    - Checksums and hashes. [Crc32cTables], [Crc32c] are crc32c-tables.c and
      crc32c.c; the tables are proved to be what the generator computes and the
      three implementations to be the bitwise CRC ([Crc32cFacts],
      [Crc32cCorrect]). [Hashing], [HashingFacts] are support/hashing.c,
      hashing.h and MurmurHash3.c.

    - Half precision. [Half], [HalfFacts], [HalfCorrect]: the conversions of
      runtime_intrinsics.c round to nearest even; where [double_to_bfloat] rounds
      twice, and when that goes wrong, is proved, and shown for [double_to_half].

    - Symbols. [Symbol] is symbol.c, sequentially; [SymbolThreads] its threads as
      interleaved accesses. [SymbolFacts], [SymbolCorrect],
      [SymbolGensym]: equal names give one symbol under every interleaving, and
      generated names.

    - Tables by identity. [Probe] is the probing loop of smallintset.c and
      iddict.c; [SmallIntSet] is smallintset.c, an index over other arrays;
      [IdSet] is idset.c, which uses it; [IdDict] is iddict.c. [ObjectId] is the
      class of the two functions on objects they call, which [Egal] implements;
      [SmallIntSetCorrect], [IdSetFacts], [IdDictCorrect] have the theorems.
      Insertion ends, growth loses nothing, and the tables implement sets and maps
      up to [===].

    - Pointer hash tables. [Htable] is support/htable.c, htable.h, htable.inc and
      ptrhash.c: the tables that the macros define, over any functions that hash
      and compare keys. [HtableFacts], [HtableCorrect]: they refine a map up to
      the equality of keys, through growth and deletion.

    - Address ranges. [Eytzinger], [EytzingerFacts], [EytzingerCorrect]:
      support/eytzinger.c, rebuilding and queries.

    - Streams. [Ios] is support/ios.c. [IosMemSpec], [IosMemCorrect],
      [IosLines]: memory streams are a list of bytes with a position, under
      every sequence of operations. [IosFile], [IosFileCorrect]: streams over a
      descriptor lose, duplicate and reorder nothing, whatever the system calls
      answer within their documented behaviour.

    - Work-stealing queues. [Objects] has shared objects as labelled transition
      systems, forward simulation, and a client that calls an array of objects.
      [WsQueue] is work-stealing-queue.h, one access to shared memory a step;
      [WsQueueInv] its invariant; [WsQueueSim],
      [WsQueueMain]: it is linearizable to a deque, and wait-free.

    - Marking (gc-stock.c). [GcProg] has chunks, mark bits and the programs of
      the marking threads over the accesses others can see. [GcScan] is
      [gc_mark_outrefs] with every routine it calls. [GcLogic] reasons about
      such programs while the other threads run; [GcScanFacts],
      [GcScanRoutines], [GcScanMain] prove that scanning claims exactly what the object refers to,
      which [GcChildren] describes. [GcMark] is the loop of the marking
      threads, as a client of an array of work-stealing queues;
      [GcMarkProtocol], [GcMarkTri] are its invariant (who may
      mark, where work is, the tri-colour invariant), [GcMarkRun] executes it,
      and [GcMarkMain] has the theorems: nothing reachable is left unmarked when
      marking ends, nothing else is marked, and the end is final. They are
      proved over the specification of the queues and transported to the real
      ones by [Objects.simulates_client].

    - Layouts of data types. [Layout] has the bytes of a layout, its accessors
      (julia.h) and the functions by which layouts are compared and interned;
      [LayoutFacts]: encoding, and that the accessors read it back. [Datatype]
      is the layout part of datatype.c: data types are a heap of records, and
      [jl_compute_field_offsets], [jl_get_genericmemory_layout],
      [jl_struct_try_layout] and what they call are programs of a monad of this
      world and of errors. [LayoutWorld]: the cache of layouts (over [Htable]) and
      the invariant of the world, a calculus for the programs, and which types are
      stored inline; [LayoutFields]: where fields are placed,
      apart from the code; [LayoutStruct]: that the loop over the fields places
      them so; [LayoutMain], [LayoutCorrect]: one type, and by induction on ranks
      all types it needs; [LayoutMemory]: memories. [LayoutTheorems] states:
      every type whose layout is fixed gets one, without an error: that of its
      wrapper, an opaque one, or one of its fields (in order, apart, aligned, the
      pointer table exact, padding told), and wrappers with free variables get
      none; layouts are encoded in the narrowest descriptors and interned
      faithfully; memories get layouts that satisfy what the collector's scanner
      ([GcChildren.memory_type_ok]) relies on; and when the check of a field
      against 32-bit offsets throws, and which case it misses.

    - Egality and object ids. [Egal] is the part of builtins.c from [bits_equal]
      to [jl_object_id], with the tags, headers and accessors of julia.h, over
      the bytes of memory (layouts are read with the accessors of [Layout]).
      [EgalFacts] defines the value of an object, one object at a time, and
      proves that the comparison decides equality of values; [EgalCorrect], for a
      memory whose types are in order ([heap_ok]), that the id depends on the
      value only. [EgalTheorems] states both, makes the runtime's objects an
      instance of [ObjectId.ObjectId], and checks an example memory. Types with
      [where] have no value here; the last theorem says what the comparison makes
      of them when they share a body, which is no equivalence. A memory shows
      that ids fail for a [Vararg] without element type, which [heap_ok] excludes
      from the parameters of data types whose hash is 0.

    ** Interfaces

    - [ObjectId.ObjectId]: [jl_egal] is an equivalence and egal objects have one
      id. [IdSet] and [IdDict] are proved against it;
      [EgalTheorems.object_id_instance] implements it for objects in memory.
    - [Ios.OS]: the system calls a stream makes, over a state of the world; the
      laws that a theorem needs (a sink that appends what it accepts, a source
      that gives its bytes in order, interruptions included) are its hypotheses.
    - [Htable]'s hash and comparison of keys, a section's parameters, for which
      [LayoutWorld] proves the laws that the layout cache needs.
    - [Objects]: a shared object and [simulates], which [WsQueueSim] proves for
      the queue and [GcMarkMain] uses.
    - The index of [SmallIntSet] over its client's data is by two functions,
      [hash] and [eq], as in the C code.

    ** Bounds and fuel

    - APInt: a bit width n has ceil(n/64) words; no loop needs more. Division
      takes one round a bit.
    - [Prelude.while] takes fuel that each use gives as a bound of its rounds:
      one a byte in scans, one a character or escape in utf8.c, 64 in loops that
      halve a word, 20 digits in int2str.c.
    - Probing visits at most max_probe + 1 cells. Tables have up to 2^37 cells
      and fewer than 2^31 entries; a growth loop ends because the table doubles.
    - [Htable]: growth may insert again and grow again; its fuel of 128 is two
      levels for each doubling, which fewer than 2^31 operations cannot exhaust.
    - Types have ranks: a type that is stored inline has a smaller rank than the
      type it is a field of. Fuel above the rank of a type is enough for its
      layout. [world_ok] also bounds the sizes of types below 2^31 and their
      alignments below 2^16; beyond, the code throws, truncates or wraps.
    - [Egal]: each call of one of the mutually recursive functions takes a unit of
      fuel. An object whose value is found with some fuel is compared with the
      same fuel; [union_fuel] bounds the nesting of unions of inline fields.
    - A walk in the symbol tree has at most one step a symbol.
    - Streams and the sizes in them are below 2^60. [ios_write] recurses at
      most twice through [ios_flush]; its fuel of 4 is proved to be enough.
      System calls that say EAGAIN are repeated as often as the world says
      ([patience]).
    - Queue counters stay below 2^63 - 1 and capacities below 2^30; a thread that
      would pass these bounds is stuck, and the theorems say so.
    - Marking: a type has fewer than 2^32 bits; a chain of stack frames ends
      within [frames]; loops over a range take its length. The loop of the
      marking threads itself is a step relation and has no fuel.

    ** Assumptions

    - A little-endian machine with 64-bit pointers, a [char] with sign, and
      [MAX_ALIGN] and [MAX_ATOMIC_SIZE] 16 (x86-64 and AArch64).
    - Threads interleave on sequentially consistent memory, in the symbol table,
      the queues and marking; everything else is modelled sequentially, locks and
      atomics included.
    - Memory allocation succeeds, except in [Ios], where a parameter decides.
    - The crc instructions, the system calls,
      [iswprint] and [utf8proc_charwidth], and the callbacks of foreign types
      are parameters; what is assumed of them is a hypothesis with a witness.
    - Layouts: whether a type that is not concrete has a fixed layout, and
      whether a type has free variables, are answers of jltypes.c that the model
      takes as parameters. The theorems exclude tuples of [VecElement], whose
      alignment the code takes from LLVM's rules and does not bound.
    - Egality: memory does not change while objects are compared, their types
      have layouts of their own, and [heap_ok] says of the types in memory what
      [LayoutTheorems] proves of computed layouts, that data types of one value
      have one hash (jltypes.c; 0 for some tuple types), and that no data type
      with hash 0 has a parameter [Vararg] without an element type.
    - Integer intrinsics: the padding bits of the first operand of
      [flipsign_int] are zero; shift counts are read at the width of the shifted
      operand, as the code does.
    - Marking: the world is stopped, so that object contents are constant and
      separate from their headers; buffers that a queue has outgrown are not
      freed; what the threads' roots are is given, and the marked objects that
      no queue holds at the start refer to marked objects only ([mark_ready],
      the invariant of the write barrier). The answers of the random generator
      and of the load of other threads' queues are arbitrary.

    ** Not modelled

    The subtyping algorithm and type intersection (subtype.c), instantiation,
    normalisation and the cache of types (jltypes.c), method tables and dispatch
    (gf.c, typemap.c), modules and bindings, serialisation and system images, and
    the scheduler work on the whole object graph of a running system, mostly
    through one another; each would need the others first. Code generation is
    C++ over LLVM; the front end is written in another language (flisp); stream
    I/O is libuv's. Of the collector, allocation, sweeping, root queueing and heap
    snapshots are not modelled, and of datatype.c the construction of type names
    and types, foreign types, and access to fields. Of the other files: the
    floating-point intrinsics (their arithmetic is the C compiler's), formatted
    output and file opening in ios.c, and printing functions with variable
    arguments. The vendored libraries (libuv, utf8proc, LLVM) are parameters
    where called. *)
From stdpp Require Export base list numbers option strings.
From Stdlib Require Export ZArith Lia.
#[global] Open Scope Z_scope.

(** ** Machine words

    A [w]-bit unsigned C integer is a [Z] in [0, 2^w); arithmetic is done in
    [Z] and brought back by [uw]. [sw] reads the same bits as two's
    complement. *)

Definition uw (w z : Z) : Z := z `mod` 2 ^ w.
Definition sw (w z : Z) : Z :=
  if uw w z <? 2 ^ (w - 1) then uw w z else uw w z - 2 ^ w.

Abbreviation u8 := (uw 8).
Abbreviation u16 := (uw 16).
Abbreviation u32 := (uw 32).
Abbreviation u64 := (uw 64).

Definition in_range (w x : Z) : Prop := 0 <= x < 2 ^ w.
Definition in_rangeb (w x : Z) : bool := (0 <=? x) && (x <? 2 ^ w).

(** C truth values. *)
Definition b2z (b : bool) : Z := if b then 1 else 0.

(** [get l i] is the C read [l[i]] of an array of integers; every model reads
    inside the array, where the default is not used. *)
Definition get (l : list Z) (i : nat) : Z := nth i l 0.

(** ** Little-endian values of word arrays *)

(** [val w l]: the number whose base [2^w] digits are [l], least first. *)
Fixpoint val (w : Z) (l : list Z) : Z :=
  match l with
  | [] => 0
  | x :: t => x + 2 ^ w * val w t
  end.

(** [digits w n z]: the [n] low base [2^w] digits of [z], least first. *)
Fixpoint digits (w : Z) (n : nat) (z : Z) : list Z :=
  match n with
  | O => []
  | S n => z `mod` 2 ^ w :: digits w n (z / 2 ^ w)
  end.

Definition words (w : Z) (l : list Z) : Prop := Forall (in_range w) l.

(** ** Arithmetic lemmas *)

Lemma pow2_pos w : 0 <= w -> 0 < 2 ^ w.
Proof. intros. apply Z.pow_pos_nonneg; lia. Qed.

Lemma pow2_ge1 w : 0 <= w -> 1 <= 2 ^ w.
Proof. intros. pose proof (pow2_pos w). lia. Qed.

Lemma uw_range w z : 0 <= w -> in_range w (uw w z).
Proof. intros. apply Z.mod_pos_bound, pow2_pos; lia. Qed.

Lemma uw_small w z : in_range w z -> uw w z = z.
Proof. apply Z.mod_small. Qed.

Lemma uw_uw w z : uw w (uw w z) = uw w z.
Proof. apply Zmod_mod. Qed.

Lemma uw_add_l w a b : uw w (uw w a + b) = uw w (a + b).
Proof. apply Zplus_mod_idemp_l. Qed.
Lemma uw_add_r w a b : uw w (a + uw w b) = uw w (a + b).
Proof. apply Zplus_mod_idemp_r. Qed.
Lemma uw_mul_l w a b : uw w (uw w a * b) = uw w (a * b).
Proof. apply Zmult_mod_idemp_l. Qed.
Lemma uw_mul_r w a b : uw w (a * uw w b) = uw w (a * b).
Proof. apply Zmult_mod_idemp_r. Qed.
Lemma uw_sub_l w a b : uw w (uw w a - b) = uw w (a - b).
Proof. apply Zminus_mod_idemp_l. Qed.
Lemma uw_sub_r w a b : uw w (a - uw w b) = uw w (a - b).
Proof. apply Zminus_mod_idemp_r. Qed.

Lemma uw_opp w a : uw w (- uw w a) = uw w (- a).
Proof. rewrite <- !Z.sub_0_l. apply uw_sub_r. Qed.

Lemma uw_lnot w x : in_range w x -> uw w (Z.lnot x) = 2 ^ w - 1 - x.
Proof.
  intros [? ?]. unfold uw, Z.lnot. replace (Z.pred (- x)) with (2 ^ w - 1 - x + (-1) * 2 ^ w) by lia.
  rewrite Z_mod_plus_full, Z.mod_small; lia.
Qed.

Lemma uw_mod_eq w a b k : a = b + k * 2 ^ w -> uw w a = uw w b.
Proof. intros ->. unfold uw. apply Z_mod_plus_full. Qed.

Lemma uw_div_mod w z : 0 <= w -> z = uw w z + 2 ^ w * (z / 2 ^ w).
Proof.
  intros. unfold uw. pose proof (pow2_pos w). pose proof (Z.div_mod z (2 ^ w)). lia.
Qed.

Lemma uw_unique w z r : in_range w r -> (exists k, z = r + k * 2 ^ w) -> uw w z = r.
Proof. intros Hr [k ->]. rewrite (uw_mod_eq w _ r k) by lia. by apply uw_small. Qed.

Lemma uw_narrow v w z : 0 <= v <= w -> uw v (uw w z) = uw v z.
Proof.
  intros. unfold uw. rewrite <- (Z.mod_mod_divide z (2 ^ w) (2 ^ v)); [done|].
  exists (2 ^ (w - v)). rewrite <- Z.pow_add_r by lia. f_equal; lia.
Qed.

Lemma sw_small w z : 0 < w -> - 2 ^ (w - 1) <= z < 2 ^ (w - 1) -> sw w z = z.
Proof.
  intros. assert (2 ^ w = 2 * 2 ^ (w - 1)) by (rewrite <- Z.pow_succ_r by lia; f_equal; lia).
  unfold sw. destruct (Z.le_gt_cases 0 z).
  - rewrite uw_small by (unfold in_range; lia). destruct (Z.ltb_spec z (2 ^ (w - 1))); lia.
  - assert (uw w z = z + 2 ^ w) as ->.
    { apply uw_unique; [unfold in_range; lia|]. exists (-1). lia. }
    destruct (Z.ltb_spec (z + 2 ^ w) (2 ^ (w - 1))); lia.
Qed.

Lemma sw_range w z : 0 < w -> - 2 ^ (w - 1) <= sw w z < 2 ^ (w - 1).
Proof.
  intros. assert (2 ^ w = 2 * 2 ^ (w - 1)) by (rewrite <- Z.pow_succ_r by lia; f_equal; lia).
  unfold sw. pose proof (uw_range w z ltac:(lia)) as [? ?].
  destruct (Z.ltb_spec (uw w z) (2 ^ (w - 1))); lia.
Qed.

Lemma uw_sw w z : 0 < w -> uw w (sw w z) = uw w z.
Proof.
  intros. unfold sw. case_match; [apply uw_uw|].
  rewrite (uw_mod_eq w (uw w z - 2 ^ w) (uw w z) (-1)) by lia. apply uw_uw.
Qed.

Lemma sw_uw w z : sw w (uw w z) = sw w z.
Proof. unfold sw. by rewrite uw_uw. Qed.

Lemma sw_eq_mod w a b : uw w a = uw w b -> sw w a = sw w b.
Proof. unfold sw. by intros ->. Qed.

(** ** Values of digit lists *)

Lemma val_range w l : 0 <= w -> words w l -> 0 <= val w l < 2 ^ (w * Z.of_nat (length l)).
Proof.
  intros Hw. induction 1 as [|x l [Hx1 Hx2] Hl IH]; simpl.
  - rewrite Z.mul_0_r. simpl. lia.
  - rewrite Nat2Z.inj_succ, Z.mul_succ_r, Z.pow_add_r by lia. nia.
Qed.

Lemma val_app w l k : 0 <= w -> val w (l ++ k) = val w l + 2 ^ (w * Z.of_nat (length l)) * val w k.
Proof.
  intros Hw. induction l as [|x l IH]; simpl.
  - rewrite Z.mul_0_r. simpl. lia.
  - rewrite IH, Nat2Z.inj_succ, Z.mul_succ_r, Z.pow_add_r by lia. ring.
Qed.

Lemma val_repeat0 w n : val w (replicate n 0) = 0.
Proof. induction n; simpl; lia. Qed.

Lemma digits_length w n z : length (digits w n z) = n.
Proof. revert z. induction n; intros; simpl; auto. Qed.

Lemma digits_words w n z : 0 <= w -> words w (digits w n z).
Proof.
  intros Hw. revert z. induction n as [|n IH]; intros z; simpl; constructor.
  - apply (uw_range w); lia.
  - apply IH.
Qed.

Lemma val_digits w n z : 0 <= w -> val w (digits w n z) = uw (w * Z.of_nat n) z.
Proof.
  intros Hw. revert z. induction n as [|n IH]; intros z.
  - simpl. unfold uw. rewrite Z.mul_0_r, Z.pow_0_r, Z.mod_1_r. done.
  - cbn [digits val]. rewrite IH. unfold uw.
    rewrite Nat2Z.inj_succ, Z.mul_succ_r, Z.add_comm, (Z.add_comm _ w), Z.pow_add_r by lia.
    pose proof (pow2_pos w Hw). pose proof (pow2_pos (w * Z.of_nat n)).
    rewrite Z.rem_mul_r by lia. lia.
Qed.

Lemma digits_val w l : 0 <= w -> words w l -> digits w (length l) (val w l) = l.
Proof.
  intros Hw. induction 1 as [|x l [Hx1 Hx2] Hl IH]; simpl; [done|].
  rewrite (Z.mul_comm (2 ^ w)).
  rewrite Z_mod_plus_full, Z.mod_small, Z_div_plus_full, Z.div_small, Z.add_0_l, IH by lia. done.
Qed.

Lemma val_inj w l k :
  0 <= w -> words w l -> words w k -> length l = length k -> val w l = val w k -> l = k.
Proof.
  intros Hw Hl Hk Hlen Hv. rewrite <- (digits_val w l), <- (digits_val w k) by done. by rewrite Hv, Hlen.
Qed.

Lemma digits_uw w n z : 0 <= w -> digits w n (uw (w * Z.of_nat n) z) = digits w n z.
Proof.
  intros Hw. apply (val_inj w); rewrite ?digits_length; auto using digits_words.
  rewrite !val_digits by done. apply uw_uw.
Qed.

Lemma val_take w l n : 0 <= w -> words w l -> val w (take n l) = uw (w * Z.of_nat n) (val w l).
Proof.
  intros Hw Hl. rewrite <- (take_drop n l) at 2. rewrite val_app by done.
  assert (words w (take n l)) as Ht by by apply Forall_take.
  destruct (decide (length l <= n)%nat).
  - rewrite drop_ge, take_ge by lia. simpl. rewrite Z.mul_0_r, Z.add_0_r.
    symmetry. apply uw_small. pose proof (val_range w l Hw Hl). unfold in_range.
    split; [lia|]. eapply Z.lt_le_trans; [apply H|]. apply Z.pow_le_mono_r; nia.
  - rewrite length_take_le by lia.
    rewrite (uw_mod_eq _ _ (val w (take n l)) (val w (drop n l))) by ring.
    symmetry. apply uw_small. pose proof (val_range w (take n l) Hw Ht).
    rewrite length_take_le in H by lia. done.
Qed.

Lemma val_testbit w l i j :
  0 < w -> words w l -> 0 <= j < w ->
  Z.testbit (val w l) (w * Z.of_nat i + j) = Z.testbit (get l i) j.
Proof.
  intros Hw Hl Hj. revert i. induction Hl as [|x l [Hx1 Hx2] Hl IH]; intros i.
  - simpl. unfold get. destruct i; by rewrite !Z.testbit_0_l.
  - cbn [val]. destruct i as [|i]; unfold get; simpl nth.
    + rewrite Z.mul_0_r, Z.add_0_l.
      rewrite <- (Z.mod_pow2_bits_low _ w) by lia.
      rewrite (Z.mul_comm (2 ^ w)), Z_mod_plus_full, Z.mod_small by lia. done.
    + rewrite Nat2Z.inj_succ. replace (w * Z.succ (Z.of_nat i) + j) with (w * Z.of_nat i + j + w) by lia.
      rewrite <- Z.div_pow2_bits by lia.
      rewrite (Z.mul_comm (2 ^ w)), Z_div_plus_full, Z.div_small, Z.add_0_l by lia. apply IH.
Qed.

Lemma words_get w l i : 0 <= w -> words w l -> in_range w (get l i).
Proof.
  intros Hw Hl. unfold get. destruct (decide (i < length l)%nat).
  - eapply Forall_nth; eauto.
  - rewrite nth_overflow by lia. unfold in_range. pose proof (pow2_pos w). lia.
Qed.

(** ** Bits of a bounded number *)

Lemma testbit_high w x i : in_range w x -> w <= i -> Z.testbit x i = false.
Proof.
  intros [H1 H2] Hi. destruct (Z.lt_ge_cases i 0). { by apply Z.testbit_neg_r. }
  destruct (Z.eq_dec x 0) as [->|]; [apply Z.testbit_0_l|].
  apply Z.bits_above_log2; [done|].
  apply Z.log2_lt_pow2; [lia|]. eapply Z.lt_le_trans; [apply H2|]. apply Z.pow_le_mono_r; lia.
Qed.

Lemma testbit_uw w x i : 0 <= w -> Z.testbit (uw w x) i = (i <? w) && Z.testbit x i.
Proof.
  intros. unfold uw. destruct (Z.lt_ge_cases i 0).
  { rewrite !Z.testbit_neg_r by lia. by rewrite andb_false_r. }
  destruct (Z.ltb_spec i w); [by rewrite Z.mod_pow2_bits_low by lia | by rewrite Z.mod_pow2_bits_high by lia].
Qed.

Lemma in_range_testbit w x :
  0 <= w -> 0 <= x -> (forall i, w <= i -> Z.testbit x i = false) -> in_range w x.
Proof.
  intros Hw Hx Hb. split; [done|].
  destruct (Z.eq_dec x 0) as [->|]; [apply pow2_pos; lia|].
  apply Z.log2_lt_pow2; [lia|]. apply Z.nle_gt. intros Hle.
  specialize (Hb (Z.log2 x) Hle). rewrite Z.bit_log2 in Hb by lia. done.
Qed.

Lemma in_range_lor w a b : 0 <= w -> in_range w a -> in_range w b -> in_range w (Z.lor a b).
Proof.
  intros ? Ha Hb. apply in_range_testbit; [done|apply Z.lor_nonneg; split; [apply Ha|apply Hb]|].
  intros. rewrite Z.lor_spec, (testbit_high w a), (testbit_high w b); auto.
Qed.
Lemma in_range_lxor w a b : 0 <= w -> in_range w a -> in_range w b -> in_range w (Z.lxor a b).
Proof.
  intros ? Ha Hb. apply in_range_testbit; [done|apply Z.lxor_nonneg; split; intros; [apply Hb|apply Ha]|].
  intros. rewrite Z.lxor_spec, (testbit_high w a), (testbit_high w b); auto.
Qed.
Lemma in_range_land w a b : 0 <= w -> in_range w a -> in_range w b -> in_range w (Z.land a b).
Proof.
  intros ? Ha Hb. apply in_range_testbit; [done|apply Z.land_nonneg; left; apply Ha|].
  intros. rewrite Z.land_spec, (testbit_high w a), (testbit_high w b); auto.
Qed.
Lemma in_range_shiftr w a n : 0 <= w -> 0 <= n -> in_range w a -> in_range w (Z.shiftr a n).
Proof.
  intros ? ? [H1 H2]. split; [by apply Z.shiftr_nonneg|].
  rewrite Z.shiftr_div_pow2 by lia.
  pose proof (pow2_ge1 n). apply Z.div_lt_upper_bound; [lia|]. nia.
Qed.

(** Disjoint bits: [lor] is addition. *)
Lemma lor_add a b n : in_range n a -> 0 <= n -> Z.lor a (Z.shiftl b n) = a + b * 2 ^ n.
Proof.
  intros Ha Hn. rewrite <- Z.shiftl_mul_pow2 by lia. symmetry.
  rewrite <- Z.lxor_lor, <- Z.add_nocarry_lxor; [done| |];
    apply Z.bits_inj'; intros i Hi; rewrite Z.land_spec, Z.testbit_0_l, Z.shiftl_spec by lia;
    (destruct (Z.lt_ge_cases i n);
      [rewrite (Z.testbit_neg_r b) by lia; by rewrite andb_false_r
      | by rewrite (testbit_high n a)]).
Qed.

(** Masking the low bits. *)
Lemma land_mod a n : 0 <= n -> Z.land a (2 ^ n - 1) = a mod 2 ^ n.
Proof. intros. replace (2 ^ n - 1) with (Z.ones n) by (rewrite Z.ones_equiv; lia). by apply Z.land_ones. Qed.

(** Bitwise extensionality below a width. *)
Lemma bits_ext w a b :
  0 <= w -> in_range w a -> in_range w b ->
  (forall i, 0 <= i < w -> Z.testbit a i = Z.testbit b i) -> a = b.
Proof.
  intros ? Ha Hb Hi. apply Z.bits_inj'. intros i ?. destruct (Z.lt_ge_cases i w); [auto with lia|].
  rewrite (testbit_high w a), (testbit_high w b); auto.
Qed.

Create HintDb word.
#[export] Hint Resolve uw_range in_range_lor in_range_lxor in_range_land in_range_shiftr
  digits_words words_get : word.
#[export] Hint Extern 1 (0 <= _) => lia : word.
#[export] Hint Extern 1 (0 < _) => lia : word.

Create Rewrite HintDb uw.
#[export] Hint Rewrite uw_uw uw_add_l uw_add_r uw_mul_l uw_mul_r uw_sub_l uw_sub_r uw_opp : uw.

(** [push_uw] removes truncations nested under arithmetic of the same width. *)
Ltac push_uw := autorewrite with uw.

(** Case analysis on the integer comparisons of the goal. *)
Ltac zcases :=
  repeat match goal with
  | |- context [Z.ltb ?a ?b] => destruct (Z.ltb_spec a b)
  | |- context [Z.leb ?a ?b] => destruct (Z.leb_spec a b)
  | |- context [Z.eqb ?a ?b] => destruct (Z.eqb_spec a b)
  end.

(** ** More on digit lists *)

Lemma val_drop w l n : 0 < w -> words w l -> val w (drop n l) = val w l / 2 ^ (w * Z.of_nat n).
Proof.
  intros Hw. revert n. induction l as [|x l IH]; intros n Hl.
  - rewrite drop_nil. simpl. by rewrite Z.div_0_l by (pose proof (pow2_pos (w * Z.of_nat n)); lia).
  - apply Forall_cons in Hl as [[Hx1 Hx2] Hl]. destruct n as [|n].
    + rewrite drop_0, Z.mul_0_r, Z.pow_0_r, Z.div_1_r. done.
    + cbn [drop val]. rewrite IH by done.
      rewrite Nat2Z.inj_succ, Z.mul_succ_r, (Z.add_comm _ w), Z.pow_add_r by lia.
      pose proof (pow2_pos w). pose proof (pow2_pos (w * Z.of_nat n)).
      rewrite <- Z.div_div by lia.
      rewrite (Z.mul_comm (2 ^ w)). rewrite Z_div_plus_full, (Z.div_small x), Z.add_0_l by lia. done.
Qed.

Lemma digits_app w n m z :
  0 <= w -> digits w (n + m) z = digits w n z ++ digits w m (z / 2 ^ (w * Z.of_nat n)).
Proof.
  intros Hw. revert z. induction n as [|n IH]; intros z.
  - simpl. by rewrite Z.mul_0_r, Z.pow_0_r, Z.div_1_r.
  - cbn [digits Nat.add app]. rewrite IH. f_equal. f_equal. f_equal.
    rewrite Z.div_div by (pose proof (pow2_pos w); pose proof (pow2_pos (w * Z.of_nat n)); lia).
    f_equal. rewrite <- Z.pow_add_r by lia. f_equal. lia.
Qed.

Lemma take_digits w n m z : (n <= m)%nat -> 0 <= w -> take n (digits w m z) = digits w n z.
Proof.
  intros ? ?. replace m with (n + (m - n))%nat by lia.
  rewrite digits_app, take_app_length' by (rewrite ?digits_length; lia). done.
Qed.

Lemma get_lookup l i : (i < length l)%nat -> l !! i = Some (get l i).
Proof. intros. unfold get. destruct (nth_lookup_or_length l i 0); [done|lia]. Qed.

Lemma lookup_get l i x : l !! i = Some x -> get l i = x.
Proof. intros. unfold get. by apply nth_lookup_Some. Qed.

Lemma words_lookup w l i x : words w l -> l !! i = Some x -> in_range w x.
Proof. intros Hl Hi. exact (Forall_lookup_1 _ _ _ _ Hl Hi). Qed.

Lemma last_split (l : list Z) k : length l = S k -> exists l0, l = l0 ++ [get l k] /\ length l0 = k.
Proof.
  intros Hl. exists (take k l). split; [|rewrite length_take_le; lia].
  rewrite <- (take_drop k l) at 1. f_equal.
  rewrite (drop_S l (get l k) k) by (apply get_lookup; lia).
  rewrite drop_ge by lia. done.
Qed.

Lemma insert_last (l : list Z) x y : <[length l := y]> (l ++ [x]) = l ++ [y].
Proof. rewrite insert_app_r_alt by lia. by rewrite Nat.sub_diag. Qed.

Lemma words_app w l k : words w (l ++ k) <-> words w l /\ words w k.
Proof. apply Forall_app. Qed.

Lemma words_replicate w n x : in_range w x -> words w (replicate n x).
Proof. intros. by apply Forall_replicate. Qed.

Lemma in_range_0 w : 0 <= w -> in_range w 0.
Proof. intros. pose proof (pow2_pos w). unfold in_range. lia. Qed.

#[export] Hint Resolve words_replicate in_range_0 : word.

(** ** Bounded enumeration, for facts decided by computation *)

Fixpoint zall (f : Z -> bool) (n : nat) (x : Z) : bool :=
  match n with
  | O => true
  | S n => if f x then zall f n (x + 1) else false
  end.

Lemma zall_from f n x : zall f n x = true -> forall y, x <= y < x + Z.of_nat n -> f y = true.
Proof.
  revert x. induction n as [|n IH]; intros x H y Hy; [lia|]. cbn [zall] in H.
  destruct (f x) eqn:E; [|done]. destruct (Z.eq_dec x y) as [->|]; [done|]. apply (IH (x + 1)); [done|lia].
Qed.

Lemma zall_spec f n : zall f (Z.to_nat n) 0 = true -> forall y, 0 <= y < n -> f y = true.
Proof. intros H y Hy. apply (zall_from f _ 0 H). lia. Qed.

(** ** Loops

    [while fuel cond body s]: the C loop [while (cond) body] on the state [s];
    [None] when the body fails or the fuel runs out. [while_rule] is the rule
    for total correctness: an invariant that the body keeps and a measure that
    it decreases give a result. *)
Section While.
Context {S : Type}.

Fixpoint while (fuel : nat) (cond : S -> bool) (body : S -> option S) (s : S) : option S :=
  match fuel with
  | O => None
  | Datatypes.S fuel => if cond s then body s ≫= while fuel cond body else Some s
  end.

Definition do_while (fuel : nat) (body : S -> option S) (cond : S -> bool) (s : S) : option S :=
  body s ≫= while fuel cond body.

Lemma while_rule (I : S -> Prop) (measure : S -> nat) cond body :
  (forall s, I s -> cond s = true -> exists s', body s = Some s' /\ I s' /\ (measure s' < measure s)%nat) ->
  forall fuel s, I s -> (measure s < fuel)%nat ->
  exists s', while fuel cond body s = Some s' /\ I s' /\ cond s' = false.
Proof.
  intros Hbody. induction fuel as [|fuel IH]; intros s Hs Hf; [lia|]. simpl.
  destruct (cond s) eqn:Hc; [|by eauto].
  destruct (Hbody s Hs Hc) as (s1 & -> & H1 & Hm). simpl. apply IH; [done|lia].
Qed.
End While.

(** A loop that counts: [idx j] is the counter of the [j]-th iteration. *)
Lemma while_count {T A} (idx : nat -> T) (f : nat -> A -> A) (cond : T * A -> bool) body n :
  (forall j h, (j < n)%nat -> cond (idx j, h) = true /\ body (idx j, h) = Some (idx (S j), f j h)) ->
  (forall h, cond (idx n, h) = false) ->
  forall h, while (S n) cond body (idx O, h) = Some (idx n, foldl (fun h j => f j h) h (seq 0 n)).
Proof.
  intros Hbody Hend. assert (forall m j h, (j + m = n)%nat ->
    while (S m) cond body (idx j, h) = Some (idx n, foldl (fun h j => f j h) h (seq j m))) as H.
  { induction m as [|m IH]; intros j h Hj.
    - replace j with n by lia. simpl. by rewrite Hend.
    - destruct (Hbody j h ltac:(lia)) as [Hc Hb]. cbn [while]. rewrite Hc, Hb. cbn [mbind option_bind seq foldl]. apply IH. lia. }
  intros h. by apply H.
Qed.

(** ** src/src/support/dtypes.h *)
Definition next_power_of_two (val : Z) : Z :=
  let val := u32 (val - 1) in
  let val := Z.lor val (Z.shiftr val 1) in
  let val := Z.lor val (Z.shiftr val 2) in
  let val := Z.lor val (Z.shiftr val 4) in
  let val := Z.lor val (Z.shiftr val 8) in
  let val := Z.lor val (Z.shiftr val 16) in
  u32 (val + 1).

(** After the shifts by 1, 2, 4, ..., [2^s / 2], bit [i] is the disjunction of
    the bits [i] to [i + 2^s - 1] of the argument. *)
Lemma smear_step x y s : 0 <= s -> (forall i, 0 <= i -> Z.testbit y i = true <-> exists d, 0 <= d < s /\ Z.testbit x (i + d) = true) ->
  forall i, 0 <= i -> Z.testbit (Z.lor y (Z.shiftr y s)) i = true <-> exists d, 0 <= d < s + s /\ Z.testbit x (i + d) = true.
Proof.
  intros Hs Hy i Hi. rewrite Z.lor_spec, Z.shiftr_spec, orb_true_iff, !Hy by lia. split.
  - intros [(d & Hd & E)|(d & Hd & E)]; [exists d; split; [lia|done]|].
    exists (d + s). split; [lia|]. by replace (i + (d + s)) with (i + s + d) by lia.
  - intros (d & Hd & E). destruct (Z.lt_ge_cases d s); [left; exists d; split; [lia|done]|right].
    exists (d - s). split; [lia|]. by replace (i + s + (d - s)) with (i + d) by lia.
Qed.

Lemma next_power_of_two_spec val : 1 <= val <= 2 ^ 31 ->
  exists k, 0 <= k <= 31 /\ next_power_of_two val = 2 ^ k /\ val <= 2 ^ k < 2 * val.
Proof.
  intros Hv. destruct (Z.eq_dec val 1) as [->|]; [exists 0; split; [lia|]; split; [reflexivity|lia]|]. unfold next_power_of_two.
  rewrite (uw_small 32 (val - 1)) by (unfold in_range; lia). set (x := val - 1). cbv zeta.
  assert (forall i, 0 <= i -> Z.testbit x i = true <-> exists d, 0 <= d < 1 /\ Z.testbit x (i + d) = true) as H0.
  { intros i Hi. split; [intros H; exists 0; rewrite Z.add_0_r; by split|].
    intros (d & Hd & H). assert (d = 0) as -> by lia. by rewrite Z.add_0_r in H. }
  pose proof (smear_step _ _ 1 ltac:(lia) H0) as H1. change (1 + 1) with 2 in H1.
  pose proof (smear_step _ _ 2 ltac:(lia) H1) as H2. change (2 + 2) with 4 in H2.
  pose proof (smear_step _ _ 4 ltac:(lia) H2) as H3. change (4 + 4) with 8 in H3.
  pose proof (smear_step _ _ 8 ltac:(lia) H3) as H4. change (8 + 8) with 16 in H4.
  pose proof (smear_step _ _ 16 ltac:(lia) H4) as H5. change (16 + 16) with 32 in H5.
  clear H0 H1 H2 H3 H4. set (y := Z.lor _ _) in *.
  set (m := Z.log2 x). assert (0 <= m < 31) as Hm by (split; [apply Z.log2_nonneg|apply Z.log2_lt_pow2; lia]).
  pose proof (Z.log2_spec x ltac:(lia)) as Hl. fold m in Hl.
  assert (y = 2 ^ (m + 1) - 1) as Ey.
  { replace (2 ^ (m + 1) - 1) with (Z.ones (m + 1)) by (rewrite Z.ones_equiv; lia).
    apply Z.bits_inj'. intros i Hi. rewrite Z.testbit_ones_nonneg by lia.
    destruct (Z.ltb_spec i (m + 1)).
    - apply H5; [done|]. exists (m - i). split; [lia|]. replace (i + (m - i)) with m by lia. apply Z.bit_log2. lia.
    - apply not_true_iff_false. intros (d & Hd & E)%H5; [|done]. rewrite Z.bits_above_log2 in E; [done|lia|fold m; lia]. }
  exists (m + 1). rewrite Ey, Z.sub_add. rewrite Z.pow_succ_r in Hl by lia. rewrite Z.add_1_r, Z.pow_succ_r by lia.
  split; [lia|]. split; [|lia]. apply uw_small. unfold in_range.
  assert (2 ^ m <= 2 ^ 30) by (apply Z.pow_le_mono_r; lia). lia.
Qed.
