(* ===== verification/APInt.v ===== *)
(** * Arbitrary-width integers: the definitions of src/src/APInt.c

    A value is a little-endian byte buffer ([list Z] of bytes); inside an
    operation it is a list of [APINT_NWORDS n] 64-bit words. Every exported
    function takes the bit width, the operand buffers and the old contents of
    the result buffer, and returns the new contents of the result buffer (with
    the returned flag or error when the C function returns one). *)
From S2P Require Import Prelude.

(** ** Word helpers *)

Definition WORD_SIZE : Z := 64.
Definition UINT64_MAX : Z := 2 ^ 64 - 1.
Definition APINT_NWORDS (nbits : Z) : nat := Z.to_nat ((nbits + 63) / 64).
Definition APINT_NBYTES (nbits : Z) : nat := Z.to_nat ((nbits + 7) / 8).

Definition top_word_mask (numbits : Z) : Z :=
  let r := numbits `mod` WORD_SIZE in
  if r =? 0 then UINT64_MAX else u64 (Z.shiftl 1 r) - 1.

(** The words a little-endian machine reads from a byte array, and back. *)
Fixpoint words_of_bytes (nw : nat) (bs : list Z) : list Z :=
  match nw with
  | O => []
  | S k => val 8 (take 8 bs) :: words_of_bytes k (drop 8 bs)
  end.
Definition bytes_of_words (ws : list Z) : list Z := concat (map (digits 8 8) ws).

(** [memcpy(dst, src, n)] *)
Definition memcpy (dst src : list Z) (n : nat) : list Z := take n src ++ drop n dst.

Definition mask_top (a : list Z) (nw : nat) (numbits : Z) : list Z :=
  <[(nw - 1)%nat := Z.land (get a (nw - 1)) (top_word_mask numbits)]> a.

Definition load (src : list Z) (numbits : Z) : list Z :=
  let nw := APINT_NWORDS numbits in
  let nb := APINT_NBYTES numbits in
  let dst := memcpy (replicate (nw * 8) 0) src nb in
  let dst := words_of_bytes nw dst in
  <[(nw - 1)%nat := Z.land (get dst (nw - 1)) (top_word_mask numbits)]> dst.

Definition store (dst : list Z) (src : list Z) (numbits : Z) : list Z :=
  memcpy dst (bytes_of_words src) (APINT_NBYTES numbits).

Fixpoint is_zero (a : list Z) : bool :=
  match a with
  | [] => true
  | x :: a => if negb (x =? 0) then false else is_zero a
  end.

Definition is_negative (a : list Z) (numbits : Z) : bool :=
  let nw := APINT_NWORDS numbits in
  let signbit := (numbits - 1) `mod` WORD_SIZE in
  negb (Z.land (Z.shiftr (get a (nw - 1)) signbit) 1 =? 0).

(** The loop of [compare_words], from word [i - 1] down to word 0. *)
Fixpoint compare_words (a b : list Z) (i : nat) : Z :=
  match i with
  | O => 0
  | S i => if get a i <? get b i then -1
           else if get b i <? get a i then 1
           else compare_words a b i
  end.

(** [addsub_words]: one step of the carry loop per word. *)
Fixpoint addsub_loop (a b : list Z) (negate_b : bool) (carry : Z) : list Z * Z :=
  match a, b with
  | x :: a, y :: b =>
      let bw := if negate_b then u64 (Z.lnot y) else y in
      let s := u64 (x + bw) in
      let c1 := b2z (s <? x) in
      let s2 := u64 (s + carry) in
      let c2 := b2z (s2 <? s) in
      let '(r, c) := addsub_loop a b negate_b (Z.lor c1 c2) in
      (s2 :: r, c)
  | _, _ => ([], carry)
  end.
Definition addsub_words (a b : list Z) (negate_b : bool) : list Z * Z :=
  addsub_loop a b negate_b (b2z negate_b).
Definition add_words (a b : list Z) : list Z := (addsub_words a b false).1.
Definition sub_words (a b : list Z) : list Z := (addsub_words a b true).1.

Fixpoint negate_loop (a : list Z) (carry : Z) : list Z :=
  match a with
  | [] => []
  | x :: a =>
      let v := u64 (u64 (Z.lnot x) + carry) in
      v :: negate_loop a (Z.land (b2z (x =? 0)) carry)
  end.
Definition negate_words (a : list Z) : list Z := negate_loop a 1.

(** ** Multiplication *)

(** 64x64->128 multiplication from 32-bit halves (the fallback used when the
    compiler has no 128-bit integer): the pair (low, high). *)
Definition mul64 (a b : Z) : Z * Z :=
  let a0 := u32 a in let a1 := u32 (Z.shiftr a 32) in
  let b0 := u32 b in let b1 := u32 (Z.shiftr b 32) in
  let p00 := u64 (a0 * b0) in
  let p01 := u64 (a0 * b1) in
  let p10 := u64 (a1 * b0) in
  let p11 := u64 (a1 * b1) in
  let mid := u64 (p01 + p10) in
  let mid_carry := if mid <? p01 then 1 else 0 in
  let lo_result := u64 (p00 + u64 (Z.shiftl mid 32)) in
  let lo_carry := if lo_result <? p00 then 1 else 0 in
  (lo_result, u64 (u64 (u64 (p11 + Z.shiftr mid 32) + u64 (Z.shiftl mid_carry 32)) + lo_carry)).

(** Multiply-accumulate of one limb pair: ([*rword], [*carry]) after the call,
    with 128-bit arithmetic. *)
Definition mac_limb (rword carry a b : Z) : Z * Z :=
  let prod := uw 128 (uw 128 (uw 128 (a * b) + rword) + carry) in
  (u64 prod, u64 (Z.shiftr prod 64)).

(** The same helper without 128-bit arithmetic. *)
Definition mac_limb_portable (rword carry a b : Z) : Z * Z :=
  let '(plo, phi) := mul64 a b in
  let s1 := u64 (plo + rword) in
  let c1 := b2z (s1 <? plo) in
  let s2 := u64 (s1 + carry) in
  let c2 := b2z (s2 <? s1) in
  (s2, u64 (u64 (phi + c1) + c2)).

(** The inner loop of [mul_words]: accumulate [ai * b] into the words [rs]. *)
Fixpoint mac_row (ai carry : Z) (rs bs : list Z) : list Z :=
  match rs, bs with
  | r :: rs, b :: bs =>
      let '(r', carry') := mac_limb r carry ai b in
      r' :: mac_row ai carry' rs bs
  | _, _ => rs
  end.
Definition mul_step (a b : list Z) (r : list Z) (i : nat) : list Z :=
  if get a i =? 0 then r
  else take i r ++ mac_row (get a i) 0 (drop i r) b.
Definition mul_words (a b : list Z) (nw : nat) : list Z :=
  foldl (mul_step a b) (replicate nw 0) (seq 0 nw).

(** ** Division *)

Fixpoint shl1_tail (prev : Z) (l : list Z) : list Z :=
  match l with
  | [] => []
  | x :: t => Z.lor (u64 (Z.shiftl x 1)) (Z.shiftr prev 63) :: shl1_tail x t
  end.
(** [rem <<= 1], word by word. *)
Definition shl1_words (l : list Z) : list Z :=
  match l with
  | [] => []
  | x :: t => u64 (Z.shiftl x 1) :: shl1_tail x t
  end.

(** One iteration, for bit [i], of the long division. *)
Definition udivrem_step (a b : list Z) (nw : nat) (i : nat) (st : list Z * list Z) : list Z * list Z :=
  let '(q, rem) := st in
  let rem := shl1_words rem in
  let abit := Z.land (Z.shiftr (get a (i / 64)) (Z.of_nat (i `mod` 64))) 1 in
  let rem := <[0%nat := Z.lor (get rem 0) abit]> rem in
  if 0 <=? compare_words rem b nw then
    (<[(i / 64)%nat := Z.lor (get q (i / 64)) (u64 (Z.shiftl 1 (Z.of_nat (i `mod` 64))))]> q,
     sub_words rem b)
  else (q, rem).
Fixpoint udivrem_loop (a b : list Z) (nw : nat) (i : nat) (st : list Z * list Z) : list Z * list Z :=
  match i with
  | O => st
  | S i => udivrem_loop a b nw i (udivrem_step a b nw i st)
  end.
(** The pair (quotient, remainder). *)
Definition udivrem (a b : list Z) (numbits : Z) (nw : nat) : list Z * list Z :=
  udivrem_loop a b nw (Z.to_nat numbits) (replicate nw 0, replicate nw 0).

(** ** Shifts *)

Definition extract_shift (b : list Z) (numbits : Z) : Z :=
  match b with
  | [] => 0
  | b0 :: bs => if is_zero bs then (if numbits <=? b0 then numbits else u32 b0) else numbits
  end.

Definition shl_n (a : list Z) (shift : Z) (nw : nat) : list Z :=
  let ws := Z.to_nat (shift / WORD_SIZE) in
  let bs := shift `mod` WORD_SIZE in
  map (fun i =>
    let lo := if (ws <=? i)%nat then get a (i - ws) else 0 in
    let hi := if (ws <? i)%nat then get a (i - ws - 1) else 0 in
    if bs =? 0 then lo else Z.lor (u64 (Z.shiftl lo bs)) (Z.shiftr hi (WORD_SIZE - bs)))
  (seq 0 nw).

Definition shr_n (a : list Z) (shift : Z) (nw : nat) (fill : Z) : list Z :=
  let ws := Z.to_nat (shift / WORD_SIZE) in
  let bs := shift `mod` WORD_SIZE in
  map (fun i =>
    let hi := if (i + ws <? nw)%nat then get a (i + ws) else fill in
    let lo := if (i + ws + 1 <? nw)%nat then get a (i + ws + 1) else fill in
    if bs =? 0 then hi else Z.lor (Z.shiftr hi bs) (u64 (Z.shiftl lo (WORD_SIZE - bs))))
  (seq 0 nw).

Definition extend (a : list Z) (numbits : Z) (total_nw : nat) (is_sign : bool) : list Z :=
  let orig_nw := APINT_NWORDS numbits in
  let fill := if is_sign && is_negative a numbits then UINT64_MAX else 0 in
  let top_bits := numbits `mod` WORD_SIZE in
  let a := if (0 <? top_bits) && negb (fill =? 0)
           then <[(orig_nw - 1)%nat := Z.lor (get a (orig_nw - 1)) (u64 (Z.lnot (top_word_mask numbits)))]> a
           else a in
  take orig_nw a ++ replicate (total_nw - orig_nw) fill.

Definition check_overflow (r : list Z) (numbits : Z) (total_nw : nat) (expected : Z) : bool :=
  let nw := APINT_NWORDS numbits in
  let top_bits := numbits `mod` WORD_SIZE in
  let high := Z.shiftr (get r (nw - 1)) top_bits in
  let exp_high := if negb (expected =? 0) then Z.shiftr UINT64_MAX top_bits else 0 in
  if negb (top_bits =? 0) && negb (high =? exp_high) then true
  else existsb (fun i => negb (get r i =? expected)) (seq nw (total_nw - nw)).

(** ** Signed division and bit counting *)

Definition abs_words (a : list Z) (numbits : Z) (nw : nat) (neg : bool) : list Z :=
  if neg then mask_top (negate_words a) nw numbits else a.

Definition sdivrem (a b : list Z) (numbits : Z) (nw : nat) : list Z * list Z :=
  let neg_a := is_negative a numbits in
  let neg_b := is_negative b numbits in
  let abs_a := abs_words a numbits nw neg_a in
  let abs_b := abs_words b numbits nw neg_b in
  let '(q, rem) := udivrem abs_a abs_b numbits nw in
  let q := if negb (eqb neg_a neg_b) then mask_top (negate_words q) nw numbits else q in
  let rem := if neg_a then mask_top (negate_words rem) nw numbits else rem in
  (q, rem).

(** [__builtin_ctzll] / [__builtin_clzll] on a nonzero 64-bit word. *)
Fixpoint ctz_loop (fuel : nat) (v : Z) : Z :=
  match fuel with
  | O => 0
  | S f => if Z.land v 1 =? 0 then 1 + ctz_loop f (Z.shiftr v 1) else 0
  end.
Definition ctzll (v : Z) : Z := ctz_loop 64 v.
Definition clzll (v : Z) : Z := 63 - Z.log2 v.

Fixpoint countr_loop (a : list Z) (count numbits : Z) (count_ones : bool) : Z :=
  match a with
  | [] => numbits
  | x :: a =>
      let v := if count_ones then u64 (Z.lnot x) else x in
      if negb (v =? 0) then count + ctzll v
      else countr_loop a (count + 64) numbits count_ones
  end.
Definition countr (a : list Z) (numbits : Z) (count_ones : bool) : Z :=
  countr_loop a 0 numbits count_ones.

Fixpoint countl_loop (a : list Z) (nw : nat) (numbits count : Z) (count_ones : bool) (i : nat) : Z :=
  match i with
  | O => numbits
  | S i =>
      let top_bits := numbits `mod` WORD_SIZE in
      let top := (i =? nw - 1)%nat && (0 <? top_bits) in
      let v0 := get a i in
      let v0 := if top && count_ones then Z.lor v0 (u64 (Z.lnot (top_word_mask numbits))) else v0 in
      let v := if count_ones then u64 (Z.lnot v0) else v0 in
      if negb (v =? 0) then
        if top then count + clzll v - (WORD_SIZE - top_bits) else count + clzll v
      else countl_loop a nw numbits (count + if top then top_bits else WORD_SIZE) count_ones i
  end.
Definition countl (a : list Z) (nw : nat) (numbits : Z) (count_ones : bool) : Z :=
  countl_loop a nw numbits 0 count_ones nw.

Definition is_min_int (a : list Z) (numbits : Z) : bool :=
  is_negative a numbits && (countr a numbits false =? numbits - 1).

Definition is_neg_one (a : list Z) (numbits : Z) (nw : nat) : bool :=
  forallb (fun i => get a i =? UINT64_MAX) (seq 0 (nw - 1))
  && (get a (nw - 1) =? top_word_mask numbits).
