(* ===== verification/APIntOps.v ===== *)
(** * The exported integer operations of src/src/APInt.c *)
From S2P Require Import Prelude APInt.

(** [jl_error] and [jl_throw] end an operation. *)
Inductive jl_exn : Type :=
| ErrorException (msg : string)
| DivideError.

Definition APInt_neg (numbits : Z) (pa pr : list Z) : list Z :=
  let nw := APINT_NWORDS numbits in
  let a := load pa numbits in
  let r := negate_words a in
  let r := mask_top r nw numbits in
  store pr r numbits.

(** Result buffer and overflow flag. *)
Definition APInt_addsub_ov (numbits : Z) (pa pb pr : list Z) (is_sub is_signed : bool) : list Z * bool :=
  let nw := APINT_NWORDS numbits in
  let a := load pa numbits in
  let b := load pb numbits in
  let neg_a := is_negative a numbits in
  let neg_b := is_negative b numbits in
  let neg_b := if is_sub then negb neg_b else neg_b in
  let '(r, _) := addsub_words a b is_sub in
  let r := mask_top r nw numbits in
  let pr := store pr r numbits in
  let neg_r := is_negative r numbits in
  if is_signed then (pr, eqb neg_a neg_b && negb (eqb neg_a neg_r))
  else
    let carry := (neg_a && neg_b) || ((neg_a || neg_b) && negb neg_r) in
    (pr, if is_sub then negb carry else carry).

Definition APInt_add n pa pb pr := (APInt_addsub_ov n pa pb pr false false).1.
Definition APInt_sub n pa pb pr := (APInt_addsub_ov n pa pb pr true false).1.

Definition APInt_mul (numbits : Z) (pa pb pr : list Z) : list Z :=
  let nw := APINT_NWORDS numbits in
  let a := load pa numbits in
  let b := load pb numbits in
  let r := mul_words a b nw in
  let r := mask_top r nw numbits in
  store pr r numbits.

(** ** Comparisons *)

Definition APInt_cmp (numbits : Z) (pa pb : list Z) (is_signed : bool) : Z :=
  let nw := APINT_NWORDS numbits in
  let a := load pa numbits in
  let b := load pb numbits in
  let neg_a := is_negative a numbits in
  let neg_b := is_negative b numbits in
  if is_signed && negb (eqb neg_a neg_b) then (if neg_a then -1 else 1)
  else compare_words a b nw.

Definition APInt_eq n pa pb : bool := APInt_cmp n pa pb false =? 0.
Definition APInt_ne n pa pb : bool := negb (APInt_cmp n pa pb false =? 0).
Definition APInt_slt n pa pb : bool := APInt_cmp n pa pb true <? 0.
Definition APInt_ult n pa pb : bool := APInt_cmp n pa pb false <? 0.
Definition APInt_sle n pa pb : bool := APInt_cmp n pa pb true <=? 0.
Definition APInt_ule n pa pb : bool := APInt_cmp n pa pb false <=? 0.

(** ** Bitwise operations *)

Definition APInt_and (numbits : Z) (pa pb pr : list Z) : list Z :=
  store pr (zip_with Z.land (load pa numbits) (load pb numbits)) numbits.
Definition APInt_or (numbits : Z) (pa pb pr : list Z) : list Z :=
  store pr (zip_with Z.lor (load pa numbits) (load pb numbits)) numbits.
Definition APInt_xor (numbits : Z) (pa pb pr : list Z) : list Z :=
  store pr (zip_with Z.lxor (load pa numbits) (load pb numbits)) numbits.
Definition APInt_not (numbits : Z) (pa pr : list Z) : list Z :=
  let nw := APINT_NWORDS numbits in
  let r := map (fun x => u64 (Z.lnot x)) (load pa numbits) in
  store pr (mask_top r nw numbits) numbits.

(** ** Shifts *)

Definition APInt_shl (numbits : Z) (pa pb pr : list Z) : list Z :=
  let nw := APINT_NWORDS numbits in
  let a := load pa numbits in
  let b := load pb numbits in
  let shift := extract_shift b numbits in
  let r := shl_n a shift nw in
  store pr (mask_top r nw numbits) numbits.

Definition APInt_shr (numbits : Z) (pa pb pr : list Z) (is_signed : bool) : list Z :=
  let nw := APINT_NWORDS numbits in
  let a := load pa numbits in
  let b := load pb numbits in
  let shift := extract_shift b numbits in
  let neg := is_signed && is_negative a numbits in
  let a := if neg then extend a numbits nw is_signed else a in
  let r := shr_n a shift nw (if neg then UINT64_MAX else 0) in
  store pr (mask_top r nw numbits) numbits.
Definition APInt_lshr n pa pb pr := APInt_shr n pa pb pr false.
Definition APInt_ashr n pa pb pr := APInt_shr n pa pb pr true.

(** ** Overflow-checked arithmetic *)

Definition APInt_add_uov n pa pb pr := APInt_addsub_ov n pa pb pr false false.
Definition APInt_add_sov n pa pb pr := APInt_addsub_ov n pa pb pr false true.
Definition APInt_sub_uov n pa pb pr := APInt_addsub_ov n pa pb pr true false.
Definition APInt_sub_sov n pa pb pr := APInt_addsub_ov n pa pb pr true true.

Definition APInt_mul_ov (numbits : Z) (pa pb pr : list Z) (is_signed : bool) : list Z * bool :=
  let nw := APINT_NWORDS numbits in
  let nw2 := (2 * nw)%nat in
  let a := extend (load pa numbits) numbits nw2 is_signed in
  let b := extend (load pb numbits) numbits nw2 is_signed in
  let r := mul_words a b nw2 in
  let expected := if is_signed && is_negative r numbits then UINT64_MAX else 0 in
  let overflow := check_overflow r numbits nw2 expected in
  let r := mask_top r nw numbits in
  (store pr r numbits, overflow).
Definition APInt_mul_uov n pa pb pr := APInt_mul_ov n pa pb pr false.
Definition APInt_mul_sov n pa pb pr := APInt_mul_ov n pa pb pr true.

(** Which of [pq] and [pr] is not NULL: every caller passes exactly one. *)
Inductive divrem_out : Type := WantQuot | WantRem.

(** The result buffer (unchanged when the divisor is 0) and the flag. *)
Definition APInt_divrem (numbits : Z) (pa pb out : list Z) (want : divrem_out) (is_signed : bool)
    : list Z * bool :=
  let nw := APINT_NWORDS numbits in
  let a := load pa numbits in
  let b := load pb numbits in
  if is_zero b then (out, true) else
  let overflow := is_signed && (match want with WantQuot => true | WantRem => false end)
                  && is_min_int a numbits && is_neg_one b numbits nw in
  let '(q, rem) := if is_signed then sdivrem a b numbits nw else udivrem a b numbits nw in
  let q := mask_top q nw numbits in
  let rem := mask_top rem nw numbits in
  (match want with
   | WantQuot => store out q numbits
   | WantRem => store out rem numbits
   end, overflow).

Definition APInt_div_sov n pa pb pr := APInt_divrem n pa pb pr WantQuot true.
Definition APInt_div_uov n pa pb pr := APInt_divrem n pa pb pr WantQuot false.
Definition APInt_rem_sov n pa pb pr := APInt_divrem n pa pb pr WantRem true.
Definition APInt_rem_uov n pa pb pr := APInt_divrem n pa pb pr WantRem false.

(** [if (ov) jl_throw(jl_diverror_exception)] *)
Definition or_diverror (r : list Z * bool) : list Z + jl_exn :=
  if r.2 then inr DivideError else inl r.1.
Definition APInt_sdiv n pa pb pr := or_diverror (APInt_div_sov n pa pb pr).
Definition APInt_udiv n pa pb pr := or_diverror (APInt_div_uov n pa pb pr).
Definition APInt_srem n pa pb pr := or_diverror (APInt_rem_sov n pa pb pr).
Definition APInt_urem n pa pb pr := or_diverror (APInt_rem_uov n pa pb pr).

(** ** Byte swap and bit counts *)

(** [dst[nb - 1 - i] = src[i]] for i < nb, in a zeroed array of 8 * nw bytes. *)
Definition APInt_bswap (numbits : Z) (pa pr : list Z) : list Z :=
  let nb := APINT_NBYTES numbits in
  let nw := APINT_NWORDS numbits in
  let dst := foldl (fun d i => <[(nb - 1 - i)%nat := get pa i]> d) (replicate (nw * 8) 0) (seq 0 nb) in
  let r := words_of_bytes nw dst in
  store pr r numbits.

(** [__builtin_popcountll] *)
Fixpoint popcount_pos (p : positive) : Z :=
  match p with
  | xH => 1
  | xO p => popcount_pos p
  | xI p => 1 + popcount_pos p
  end.
Definition popcountll (v : Z) : Z := match v with Zpos p => popcount_pos p | _ => 0 end.

Definition APInt_popcount (numbits : Z) (pa : list Z) : Z :=
  foldl (fun count x => count + popcountll x) 0 (load pa numbits).

Definition APInt_countr (numbits : Z) (pa : list Z) (count_ones : bool) : Z :=
  countr (load pa numbits) numbits count_ones.
Definition APInt_countl (numbits : Z) (pa : list Z) (count_ones : bool) : Z :=
  countl (load pa numbits) (APINT_NWORDS numbits) numbits count_ones.
Definition APInt_countr_zero n pa := APInt_countr n pa false.
Definition APInt_countr_one n pa := APInt_countr n pa true.
Definition APInt_countl_zero n pa := APInt_countl n pa false.
Definition APInt_countl_one n pa := APInt_countl n pa true.

(** ** Extension and truncation *)

(** The two facts of a primitive type these functions ask for. *)
Record datatype := { jl_datatype_nbits : Z; jl_datatype_size : nat }.

Definition APInt_sext (ty : datatype) (pa : list Z) (otys : datatype) (pr : list Z) : list Z + jl_exn :=
  let inumbits := jl_datatype_nbits ty in
  let onumbits := jl_datatype_nbits otys in
  let inumbytes := APINT_NBYTES inumbits in
  let onumbytes := jl_datatype_size otys in
  if negb (inumbits <? onumbits) then inr (ErrorException "SExt: output bitsize must be > input bitsize") else
  let bits := (8 - inumbits `mod` 8) `mod` 8 in
  let signbit := (inumbits - 1) `mod` 8 in
  let sign := negb (Z.land (get pa (inumbytes - 1)) (Z.shiftl 1 signbit) =? 0) in
  let pr := memcpy pr pa inumbytes in
  let pr := if negb (bits =? 0) then
              let byte := get pa (inumbytes - 1) in
              <[(inumbytes - 1)%nat :=
                 if sign then Z.lor byte (u8 (Z.shiftl 0xFF (8 - bits)))
                 else Z.land byte (u8 (Z.shiftr 0xFF bits))]> pr
            else pr in
  inl (take inumbytes pr ++ replicate (onumbytes - inumbytes) (if sign then 0xFF else 0)
       ++ drop onumbytes pr).

Definition APInt_zext (ty : datatype) (pa : list Z) (otys : datatype) (pr : list Z) : list Z + jl_exn :=
  let inumbits := jl_datatype_nbits ty in
  let onumbits := jl_datatype_nbits otys in
  let inumbytes := APINT_NBYTES inumbits in
  let onumbytes := jl_datatype_size otys in
  if negb (inumbits <? onumbits) then inr (ErrorException "ZExt: output bitsize must be > input bitsize") else
  let bits := (8 - inumbits `mod` 8) `mod` 8 in
  let pr := memcpy pr pa inumbytes in
  let pr := if negb (bits =? 0) then
              <[(inumbytes - 1)%nat := Z.land (get pa (inumbytes - 1)) (u8 (Z.shiftr 0xFF bits))]> pr
            else pr in
  inl (take inumbytes pr ++ replicate (onumbytes - inumbytes) 0 ++ drop onumbytes pr).

Definition APInt_trunc (ty : datatype) (pa : list Z) (otys : datatype) (pr : list Z) : list Z + jl_exn :=
  let inumbits := jl_datatype_nbits ty in
  let onumbits := jl_datatype_nbits otys in
  let onumbytes_storage := jl_datatype_size otys in
  let onumbytes_value := APINT_NBYTES onumbits in
  if negb (onumbits <? inumbits) then inr (ErrorException "Trunc: output bitsize must be < input bitsize") else
  let pr := memcpy pr pa onumbytes_value in
  let pr := if negb (onumbits `mod` 8 =? 0) then
              <[(onumbytes_value - 1)%nat :=
                  Z.land (get pr (onumbytes_value - 1)) (Z.shiftl 1 (onumbits `mod` 8) - 1)]> pr
            else pr in
  inl (if (onumbytes_value <? onumbytes_storage)%nat
       then take onumbytes_value pr ++ replicate (onumbytes_storage - onumbytes_value) 0
            ++ drop onumbytes_storage pr
       else pr).

Definition APInt_flipsign (numbits : Z) (pa pb pr : list Z) : list Z :=
  let numbytes := APINT_NBYTES numbits in
  let signbit := (numbits - 1) `mod` 8 in
  let sign := Z.land (get pb (numbytes - 1)) (Z.shiftl 1 signbit) in
  if negb (sign =? 0) then APInt_neg numbits pa pr
  else memcpy pr pa numbytes.
