(* ===== verification/APIntFacts.v ===== *)
(** * Facts about the word layer of src/src/APInt.c *)
From S2P Require Import Prelude APInt.

(** The [n]-bit number stored in a buffer, unsigned and signed, and the buffer
    in which the bytes of an [n]-bit value have been overwritten by [v]. *)
Definition rd (n : Z) (bs : list Z) : Z := uw n (val 8 bs).
Definition rds (n : Z) (bs : list Z) : Z := sw n (val 8 bs).
Definition put (n : Z) (dst : list Z) (v : Z) : list Z :=
  digits 8 (APINT_NBYTES n) v ++ drop (APINT_NBYTES n) dst.

(** A buffer that holds an [n]-bit value. *)
Definition buf (n : Z) (bs : list Z) : Prop :=
  words 8 bs /\ (APINT_NBYTES n <= length bs)%nat.

(** ** Sizes *)

Lemma nwords_bounds n : 0 < n ->
  (0 < APINT_NWORDS n)%nat /\
  64 * Z.of_nat (APINT_NWORDS n - 1) < n <= 64 * Z.of_nat (APINT_NWORDS n).
Proof.
  intros. unfold APINT_NWORDS.
  pose proof (Z.div_mod (n + 63) 64 ltac:(lia)). pose proof (Z.mod_pos_bound (n + 63) 64 ltac:(lia)).
  assert (0 < (n + 63) / 64) by (apply Z.div_str_pos; lia). lia.
Qed.

Lemma nbytes_bounds n : 0 < n ->
  (0 < APINT_NBYTES n)%nat /\
  8 * Z.of_nat (APINT_NBYTES n - 1) < n <= 8 * Z.of_nat (APINT_NBYTES n).
Proof.
  intros. unfold APINT_NBYTES.
  pose proof (Z.div_mod (n + 7) 8 ltac:(lia)). pose proof (Z.mod_pos_bound (n + 7) 8 ltac:(lia)).
  assert (0 < (n + 7) / 8) by (apply Z.div_str_pos; lia). lia.
Qed.

Lemma nbytes_le_nwords n : 0 < n -> (APINT_NBYTES n <= APINT_NWORDS n * 8)%nat.
Proof. intros. pose proof (nwords_bounds n). pose proof (nbytes_bounds n). lia. Qed.

(** [numbits % 64] in terms of the top word. *)
Lemma top_bits_spec n : 0 < n ->
  let r := n - 64 * Z.of_nat (APINT_NWORDS n - 1) in
  0 < r <= 64 /\ n `mod` 64 = (if r =? 64 then 0 else r) /\ (n - 1) `mod` 64 = r - 1.
Proof.
  intros H r. pose proof (nwords_bounds n H). subst r.
  set (k := Z.of_nat (APINT_NWORDS n - 1)) in *. split; [lia|]. split.
  - destruct (Z.eqb_spec (n - 64 * k) 64).
    + replace n with (0 + (k + 1) * 64) by lia. rewrite Z_mod_plus_full. done.
    + replace n with ((n - 64 * k) + k * 64) at 1 by lia. rewrite Z_mod_plus_full, Z.mod_small; lia.
  - replace (n - 1) with ((n - 64 * k - 1) + k * 64) at 1 by lia. rewrite Z_mod_plus_full, Z.mod_small; lia.
Qed.

Lemma top_word_mask_ones n : 0 < n ->
  top_word_mask n = Z.ones (n - 64 * Z.of_nat (APINT_NWORDS n - 1)).
Proof.
  intros H. pose proof (top_bits_spec n H) as (Hr & Hm & _). unfold top_word_mask, WORD_SIZE.
  rewrite Hm. set (r := n - _) in *. destruct (Z.eqb_spec r 64) as [->|]; [done|].
  destruct (Z.eqb_spec r 0); [lia|]. rewrite Z.shiftl_1_l, Z.ones_equiv, uw_small; [lia|].
  split; [apply Z.lt_le_incl, pow2_pos; lia|]. apply Z.pow_lt_mono_r; lia.
Qed.

(** ** Loading and storing *)

Lemma words_of_bytes_length nw bs : length (words_of_bytes nw bs) = nw.
Proof. revert bs. induction nw; intros; simpl; auto. Qed.

Lemma words_of_bytes_words nw bs : words 8 bs -> words 64 (words_of_bytes nw bs).
Proof.
  revert bs. induction nw as [|nw IH]; intros bs Hbs; simpl; constructor.
  - rewrite val_take by (done || lia). apply (uw_range 64). lia.
  - apply IH. by apply Forall_drop.
Qed.

Lemma words_of_bytes_val nw bs :
  words 8 bs -> val 64 (words_of_bytes nw bs) = uw (64 * Z.of_nat nw) (val 8 bs).
Proof.
  revert bs. induction nw as [|nw IH]; intros bs Hbs.
  - unfold uw. by rewrite Z.mul_0_r, Z.mod_1_r.
  - cbn [words_of_bytes val]. rewrite IH, val_take, val_drop by (lia || done || by apply Forall_drop).
    change (8 * Z.of_nat 8) with 64. unfold uw.
    replace (64 * Z.of_nat (S nw)) with (64 + 64 * Z.of_nat nw) by lia.
    rewrite (Z.pow_add_r 2 64) by lia. pose proof (pow2_pos (64 * Z.of_nat nw)).
    rewrite Z.rem_mul_r by lia. lia.
Qed.

Lemma bytes_of_words_digits ws :
  words 64 ws -> bytes_of_words ws = digits 8 (length ws * 8) (val 64 ws).
Proof.
  unfold bytes_of_words. induction 1 as [|x ws [Hx1 Hx2] Hws IH]; [done|].
  cbn [map concat length val]. rewrite IH.
  change (S (length ws) * 8)%nat with (8 + length ws * 8)%nat.
  rewrite digits_app by lia. change (8 * Z.of_nat 8) with 64. f_equal.
  - rewrite <- (digits_uw 8 8 (x + _)) by lia. change (8 * Z.of_nat 8) with 64.
    rewrite (uw_mod_eq 64 _ x (val 64 ws)), uw_small by (lia || done). done.
  - rewrite (Z.mul_comm (2 ^ 64)), Z_div_plus_full, Z.div_small by lia. done.
Qed.

Lemma mask_top_length a nw n : length (mask_top a nw n) = length a.
Proof. apply length_insert. Qed.

(** [mask_top] keeps the low [n] bits. *)
Lemma mask_top_spec a n : 0 < n -> length a = APINT_NWORDS n -> words 64 a ->
  words 64 (mask_top a (APINT_NWORDS n) n) /\
  val 64 (mask_top a (APINT_NWORDS n) n) = uw n (val 64 a).
Proof.
  intros Hn Hl Ha. pose proof (nwords_bounds n Hn) as [Hw0 Hw].
  destruct (last_split a (APINT_NWORDS n - 1)) as (l0 & Heq & Hl0); [lia|].
  unfold mask_top. set (x := get a _) in *.
  rewrite top_word_mask_ones by done. set (r := n - _) in *.
  rewrite Heq at 1 2. rewrite <- Hl0, insert_last.
  rewrite Z.land_ones by (subst r; lia).
  rewrite Heq in Ha. apply words_app in Ha as [Ha0 Hx]. apply Forall_cons in Hx as [Hx _].
  split.
  - apply words_app. split; [done|]. constructor; [|constructor].
    pose proof (uw_range r x ltac:(subst r; lia)) as [H1 H2]. split; [done|].
    eapply Z.lt_le_trans; [apply H2|]. apply Z.pow_le_mono_r; subst r; lia.
  - rewrite Heq, !val_app by lia. cbn [val]. rewrite !Z.mul_0_r, !Z.add_0_r, Hl0.
    set (k := 64 * Z.of_nat (APINT_NWORDS n - 1)) in *. unfold uw.
    assert (2 ^ n = 2 ^ k * 2 ^ r) as ->.
    { rewrite <- Z.pow_add_r by (subst r; lia). f_equal. subst r. lia. }
    pose proof (pow2_pos k). pose proof (pow2_pos r ltac:(subst r; lia)).
    pose proof (val_range 64 l0 ltac:(lia) Ha0) as Hv. rewrite Hl0 in Hv. fold k in Hv.
    rewrite Z.rem_mul_r by lia.
    rewrite (Z.mul_comm (2 ^ k) x), Z_mod_plus_full, (Z.mod_small (val 64 l0)) by lia.
    by rewrite Z_div_plus_full, (Z.div_small (val 64 l0)), Z.add_0_l by lia.
Qed.

Lemma load_spec src n : 0 < n -> buf n src ->
  length (load src n) = APINT_NWORDS n /\ words 64 (load src n) /\
  val 64 (load src n) = rd n src.
Proof.
  intros Hn [Hs Hlen]. pose proof (nwords_bounds n Hn). pose proof (nbytes_bounds n Hn).
  pose proof (nbytes_le_nwords n Hn). unfold load, memcpy.
  set (nw := APINT_NWORDS n) in *. set (nb := APINT_NBYTES n) in *.
  rewrite drop_replicate. set (bs := take nb src ++ _).
  assert (words 8 bs) as Hbs.
  { apply words_app. split; [by apply Forall_take|]. apply words_replicate, in_range_0. lia. }
  change (<[(nw - 1)%nat := _]> _) with (mask_top (words_of_bytes nw bs) nw n).
  destruct (mask_top_spec (words_of_bytes nw bs) n) as [H2 H3];
    auto using words_of_bytes_length, words_of_bytes_words.
  split; [by rewrite mask_top_length, words_of_bytes_length|]. split; [done|].
  fold nw in H3. rewrite H3, words_of_bytes_val by done. unfold bs, rd.
  rewrite val_app, val_repeat0, Z.mul_0_r, Z.add_0_r, val_take by (done || lia).
  rewrite !uw_narrow by lia. done.
Qed.

Lemma store_spec dst src n : 0 < n -> length src = APINT_NWORDS n -> words 64 src ->
  store dst src n = put n dst (val 64 src).
Proof.
  intros Hn Hl Hs. unfold store, memcpy, put. rewrite bytes_of_words_digits by done.
  rewrite take_digits; [done| |lia]. rewrite Hl. by apply nbytes_le_nwords.
Qed.

Lemma store_masked dst r n : 0 < n -> length r = APINT_NWORDS n -> words 64 r ->
  store dst (mask_top r (APINT_NWORDS n) n) n = put n dst (uw n (val 64 r)).
Proof.
  intros Hn Hl Hr. destruct (mask_top_spec r n) as [H1 H2]; auto.
  rewrite store_spec by (rewrite ?mask_top_length; auto). by rewrite H2.
Qed.

(** Reading back what was stored. *)
Lemma rd_put n dst v : 0 < n -> rd n (put n dst v) = uw n v.
Proof.
  intros Hn. pose proof (nbytes_bounds n Hn). unfold rd, put.
  rewrite val_app, digits_length, val_digits by lia.
  rewrite <- (uw_narrow n (8 * Z.of_nat (APINT_NBYTES n))) by lia.
  rewrite (uw_mod_eq _ (uw _ v + _) (uw (8 * Z.of_nat (APINT_NBYTES n)) v) (val 8 (drop (APINT_NBYTES n) dst))) by ring.
  rewrite uw_uw, uw_narrow by lia. done.
Qed.

Lemma put_buf n dst v : 0 < n -> buf n dst -> buf n (put n dst v).
Proof.
  intros Hn [H1 H2]. split.
  - apply words_app. split; [apply digits_words; lia|by apply Forall_drop].
  - unfold put. rewrite length_app, digits_length. lia.
Qed.

Lemma put_length n dst v : buf n dst -> length (put n dst v) = length dst.
Proof. intros [_ H]. unfold put. rewrite length_app, digits_length, length_drop. lia. Qed.

Lemma rd_range n bs : 0 <= n -> in_range n (rd n bs).
Proof. apply uw_range. Qed.

Lemma rds_rd n bs : rds n bs = if rd n bs <? 2 ^ (n - 1) then rd n bs else rd n bs - 2 ^ n.
Proof. done. Qed.

Lemma rds_range n bs : 0 < n -> - 2 ^ (n - 1) <= rds n bs < 2 ^ (n - 1).
Proof. apply sw_range. Qed.

Lemma rd_rds n bs : 0 < n -> uw n (rds n bs) = rd n bs.
Proof. apply uw_sw. Qed.

(** ** Sign bit and comparison *)

Lemma pow2_half n : 0 < n -> 2 ^ n = 2 * 2 ^ (n - 1).
Proof. intros. rewrite <- Z.pow_succ_r by lia. f_equal; lia. Qed.

Lemma testbit_top n v : 0 < n -> in_range n v -> Z.testbit v (n - 1) = (2 ^ (n - 1) <=? v).
Proof.
  intros Hn [H1 H2]. pose proof (pow2_half n Hn). pose proof (pow2_pos (n - 1)).
  destruct (Z.leb_spec (2 ^ (n - 1)) v).
  - apply Z.testbit_true; [lia|]. replace (v / 2 ^ (n - 1)) with 1; [done|].
    apply Z.div_unique with (v - 2 ^ (n - 1)); lia.
  - apply (testbit_high (n - 1)); [split; lia|lia].
Qed.

Lemma is_negative_testbit a n : 0 < n -> words 64 a ->
  is_negative a n = Z.testbit (val 64 a) (n - 1).
Proof.
  intros Hn Ha. pose proof (nwords_bounds n Hn). pose proof (top_bits_spec n Hn) as (Hr & _ & Hs).
  unfold is_negative, WORD_SIZE. rewrite Hs. set (r := n - _) in *.
  replace (n - 1) with (64 * Z.of_nat (APINT_NWORDS n - 1) + (r - 1)) by (subst r; lia).
  rewrite val_testbit by (lia || done).
  set (x := get a _). change 1 with (Z.ones 1) at 2. rewrite Z.land_ones, Z.shiftr_div_pow2 by lia.
  change (2 ^ 1) with 2. destruct (Z.testbit x (r - 1)) eqn:E.
  - apply Z.testbit_true in E; [|lia]. by rewrite E.
  - apply Z.testbit_false in E; [|lia]. by rewrite E.
Qed.

Lemma is_negative_spec a n : 0 < n -> words 64 a -> in_range n (val 64 a) ->
  is_negative a n = (2 ^ (n - 1) <=? val 64 a).
Proof. intros. rewrite is_negative_testbit by done. by apply testbit_top. Qed.

(** The sign of a loaded operand. *)
Lemma is_negative_load n bs : 0 < n -> buf n bs -> is_negative (load bs n) n = (rds n bs <? 0).
Proof.
  intros Hn Hb. destruct (load_spec bs n) as (_ & Hw & Hv); auto.
  rewrite is_negative_spec, Hv by (rewrite ?Hv; auto; apply rd_range; lia).
  rewrite rds_rd. pose proof (rd_range n bs ltac:(lia)) as [? ?].
  pose proof (pow2_half n Hn).
  destruct (Z.ltb_spec (rd n bs) (2 ^ (n - 1))); symmetry;
    destruct (Z.leb_spec (2 ^ (n - 1)) (rd n bs)); try lia; zcases; lia.
Qed.

Lemma compare_words_spec a b i : words 64 a -> words 64 b ->
  (i <= length a)%nat -> (i <= length b)%nat ->
  compare_words a b i = match val 64 (take i a) ?= val 64 (take i b) with Lt => -1 | Eq => 0 | Gt => 1 end.
Proof.
  intros Ha Hb. induction i as [|i IH]; intros Hi Hj; [by rewrite !take_0|].
  cbn [compare_words].
  rewrite (take_S_r a i (get a i)), (take_S_r b i (get b i)) by (apply get_lookup; lia).
  rewrite !val_app, !length_take_le by lia. cbn [val]. rewrite !Z.mul_0_r, !Z.add_0_r.
  pose proof (val_range 64 (take i a) ltac:(lia) ltac:(by apply Forall_take)) as H1.
  pose proof (val_range 64 (take i b) ltac:(lia) ltac:(by apply Forall_take)) as H2.
  rewrite length_take_le in H1, H2 by lia. rewrite IH by lia.
  pose proof (pow2_pos (64 * Z.of_nat i)). set (P := 2 ^ _) in *.
  symmetry. destruct (Z.ltb_spec (get a i) (get b i)).
  { destruct (Z.compare_spec (val 64 (take i a) + P * get a i) (val 64 (take i b) + P * get b i)); nia. }
  destruct (Z.ltb_spec (get b i) (get a i)).
  { destruct (Z.compare_spec (val 64 (take i a) + P * get a i) (val 64 (take i b) + P * get b i)); nia. }
  replace (get b i) with (get a i) by lia.
  by rewrite !(Z.add_comm _ (P * _)), Z.add_compare_mono_l.
Qed.

Lemma compare_words_all a b nw : words 64 a -> words 64 b -> length a = nw -> length b = nw ->
  compare_words a b nw = match val 64 a ?= val 64 b with Lt => -1 | Eq => 0 | Gt => 1 end.
Proof. intros. rewrite compare_words_spec by (done || lia). by rewrite !take_ge by lia. Qed.

Lemma is_zero_spec a : words 64 a -> is_zero a = (val 64 a =? 0).
Proof.
  induction 1 as [|x a [Hx1 Hx2] Ha IH]; [done|]. cbn [is_zero val].
  pose proof (val_range 64 a ltac:(lia) Ha) as [? _].
  destruct (Z.eqb_spec x 0) as [->|]; simpl.
  - rewrite IH. zcases; lia.
  - zcases; lia.
Qed.
