(* ===== verification/APIntArith.v ===== *)
(** * Addition, subtraction, negation, multiplication and comparison of
    src/src/APInt.c compute the mathematical operation at every width. *)
From S2P Require Import Prelude APInt APIntFacts APIntOps.

(** The integer a buffer denotes, by signedness, and whether an integer is
    representable. *)
Definition ival (is_signed : bool) (n : Z) (bs : list Z) : Z :=
  if is_signed then rds n bs else rd n bs.
Definition fits (is_signed : bool) (n v : Z) : bool :=
  if is_signed then (- 2 ^ (n - 1) <=? v) && (v <? 2 ^ (n - 1)) else in_rangeb n v.

(** ** Word-level addition *)

Lemma carry_step x y c :
  in_range 64 x -> in_range 64 y -> 0 <= c <= 1 ->
  let s := u64 (x + y) in
  let s2 := u64 (s + c) in
  let c' := Z.lor (b2z (s <? x)) (b2z (s2 <? s)) in
  in_range 64 s2 /\ 0 <= c' <= 1 /\ s2 + 2 ^ 64 * c' = x + y + c.
Proof.
  intros Hx Hy Hc s s2 c'. unfold in_range in *.
  assert (s = x + y \/ s = x + y - 2 ^ 64 /\ x + y >= 2 ^ 64) as Hs.
  { subst s. destruct (Z.lt_ge_cases (x + y) (2 ^ 64)); [left; apply uw_small; unfold in_range; lia|right].
    split; [|lia]. apply uw_unique; [unfold in_range; lia|exists 1; lia]. }
  assert (0 <= s < 2 ^ 64) by (apply (uw_range 64); lia).
  assert (s2 = s + c \/ s2 = s + c - 2 ^ 64 /\ s + c >= 2 ^ 64) as Hs2.
  { subst s2. destruct (Z.lt_ge_cases (s + c) (2 ^ 64)); [left; apply uw_small; unfold in_range; lia|right].
    split; [|lia]. apply uw_unique; [unfold in_range; lia|exists 1; lia]. }
  assert (0 <= s2 < 2 ^ 64) by (apply (uw_range 64); lia).
  subst c'. clearbody s s2. change (2 ^ 64) with 18446744073709551616 in *. split; [lia|].
  unfold b2z. zcases; rewrite ?Z.lor_0_r, ?Z.lor_0_l, ?Z.lor_diag; lia.
Qed.

Definition addend (negate_b : bool) (b : list Z) : list Z :=
  if negate_b then map (fun y => u64 (Z.lnot y)) b else b.

Lemma addend_words neg b : words 64 b -> words 64 (addend neg b).
Proof.
  intros Hb. destruct neg; [|done]. apply Forall_fmap. eapply Forall_impl; [exact Hb|].
  intros x Hx. apply uw_range. lia.
Qed.

Lemma lnot_words_val b : words 64 b ->
  val 64 (map (fun y => u64 (Z.lnot y)) b) = 2 ^ (64 * Z.of_nat (length b)) - 1 - val 64 b.
Proof.
  induction 1 as [|y b Hy Hb IH]; [done|].
  cbn [map val length]. rewrite IH, uw_lnot by done.
  rewrite Nat2Z.inj_succ, Z.mul_succ_r, Z.pow_add_r by lia. ring.
Qed.

Lemma addsub_loop_spec neg a b c :
  length a = length b -> words 64 a -> words 64 b -> 0 <= c <= 1 ->
  let '(r, c') := addsub_loop a b neg c in
  words 64 r /\ length r = length a /\ 0 <= c' <= 1 /\
  val 64 r + 2 ^ (64 * Z.of_nat (length a)) * c' = val 64 a + val 64 (addend neg b) + c.
Proof.
  intros Hl Ha. revert b c Hl. induction Ha as [|x a Hx Ha IH]; intros [|y b] c Hl Hb Hc; try done.
  - simpl. destruct neg; repeat split; try apply Forall_nil; simpl; lia.
  - apply Forall_cons in Hb as [Hy Hb]. cbn [addsub_loop].
    set (bw := if neg then _ else _).
    assert (in_range 64 bw) as Hbw by (subst bw; destruct neg; [apply uw_range; lia|done]).
    pose proof (carry_step x bw c Hx Hbw Hc) as (H1 & H2 & H3).
    set (s := u64 (x + bw)) in *. set (s2 := u64 (s + c)) in *. set (c' := Z.lor _ _) in *.
    specialize (IH b c' ltac:(simpl in Hl; lia) Hb H2).
    destruct (addsub_loop a b neg c') as [r c'']. destruct IH as (I1 & I2 & I3 & I4).
    repeat split; [by constructor|cbn; lia|lia|lia|].
    cbn [val length]. rewrite Nat2Z.inj_succ, Z.mul_succ_r, Z.pow_add_r by lia.
    replace (val 64 (addend neg (y :: b))) with (bw + 2 ^ 64 * val 64 (addend neg b)) by (by subst bw; destruct neg).
    nia.
Qed.

Lemma addsub_words_spec neg a b :
  length a = length b -> words 64 a -> words 64 b ->
  let r := (addsub_words a b neg).1 in
  words 64 r /\ length r = length a /\
  val 64 r = uw (64 * Z.of_nat (length a)) (if neg then val 64 a - val 64 b else val 64 a + val 64 b).
Proof.
  intros Hl Ha Hb r. unfold r, addsub_words.
  pose proof (addsub_loop_spec neg a b (b2z neg) Hl Ha Hb ltac:(destruct neg; cbn; lia)) as H.
  destruct (addsub_loop a b neg (b2z neg)) as [r' c']. destruct H as (H1 & H2 & H3 & H4).
  split; [done|]. split; [done|]. cbn [fst]. symmetry. apply uw_unique.
  - rewrite <- H2. by apply val_range.
  - destruct neg; cbn [addend b2z] in H4.
    + rewrite lnot_words_val, <- Hl in H4 by done. exists (c' - 1). lia.
    + exists c'. lia.
Qed.

(** ** Negation *)

Lemma negate_loop_spec a c : words 64 a -> 0 <= c <= 1 ->
  words 64 (negate_loop a c) /\ length (negate_loop a c) = length a /\
  val 64 (negate_loop a c) = uw (64 * Z.of_nat (length a)) (c - 1 - val 64 a).
Proof.
  intros Ha. revert c. induction Ha as [|x a Hx Ha IH]; intros c Hc.
  - simpl. split; [constructor|]. split; [done|]. unfold uw. by rewrite Z.mod_1_r.
  - cbn [negate_loop length val].
    assert (0 <= Z.land (b2z (x =? 0)) c <= 1) as Hc'.
    { unfold b2z. assert (c = 0 \/ c = 1) as [-> | ->] by lia; destruct (x =? 0); rewrite ?Z.land_0_r, ?Z.land_0_l, ?Z.land_diag; lia. }
    destruct (IH _ Hc') as (I1 & I2 & I3). split.
    { constructor; [apply uw_range; lia|done]. }
    split; [lia|]. rewrite I3, uw_lnot by done.
    rewrite Nat2Z.inj_succ, Z.mul_succ_r.
    replace (64 * Z.of_nat (length a) + 64) with (64 + 64 * Z.of_nat (length a)) by lia.
    set (m := 64 * Z.of_nat (length a)).
    assert (0 <= m) by (subst m; lia). destruct Hx as [Hx1 Hx2].
    unfold uw. rewrite (Z.pow_add_r 2 64 m) by lia. pose proof (pow2_pos m).
    rewrite Z.rem_mul_r by lia. f_equal.
    + rewrite <- (Z_mod_plus_full (c - 1 - _) (val 64 a + 1) (2 ^ 64)). f_equal. ring.
    + do 2 f_equal.
      set (d := c - 1 - x). assert (d / 2 ^ 64 = Z.land (b2z (x =? 0)) c - 1) as Hd.
      { symmetry. apply (Z.div_unique_pos d (2 ^ 64) _ (d - 2 ^ 64 * (Z.land (b2z (x =? 0)) c - 1))); [|ring].
        subst d. change (2 ^ 64) with 18446744073709551616 in *.
        assert (c = 0 \/ c = 1) as [-> | ->] by lia; unfold b2z; destruct (Z.eqb_spec x 0);
          rewrite ?Z.land_0_r, ?Z.land_0_l, ?Z.land_diag; lia. }
      replace (c - 1 - (x + 2 ^ 64 * val 64 a)) with (d + (- val 64 a) * 2 ^ 64) by (subst d; ring).
      rewrite Z_div_plus_full, Hd by lia. ring.
Qed.

Lemma negate_words_spec a : words 64 a ->
  words 64 (negate_words a) /\ length (negate_words a) = length a /\
  val 64 (negate_words a) = uw (64 * Z.of_nat (length a)) (- val 64 a).
Proof.
  intros Ha. destruct (negate_loop_spec a 1 Ha ltac:(lia)) as (H1 & H2 & H3).
  unfold negate_words. rewrite H3. done.
Qed.

(** ** Multiplication *)

Lemma mac_limb_spec r c a b :
  in_range 64 r -> in_range 64 c -> in_range 64 a -> in_range 64 b ->
  let '(r', c') := mac_limb r c a b in
  in_range 64 r' /\ in_range 64 c' /\ r' + 2 ^ 64 * c' = a * b + r + c.
Proof.
  intros [Hr1 Hr2] [Hc1 Hc2] [Ha1 Ha2] [Hb1 Hb2]. unfold mac_limb.
  assert (0 <= a * b <= (2 ^ 64 - 1) * (2 ^ 64 - 1)) by nia.
  change (2 ^ 64) with 18446744073709551616 in *.
  rewrite (uw_small 128 (a * b)) by (unfold in_range; change (2 ^ 128) with (18446744073709551616 * 18446744073709551616); nia).
  rewrite (uw_small 128 (a * b + r)) by (unfold in_range; change (2 ^ 128) with (18446744073709551616 * 18446744073709551616); nia).
  rewrite (uw_small 128 (a * b + r + c)) by (unfold in_range; change (2 ^ 128) with (18446744073709551616 * 18446744073709551616); nia).
  set (p := a * b + r + c). rewrite Z.shiftr_div_pow2 by lia.
  assert (0 <= p < 2 ^ 64 * 2 ^ 64) by (subst p; change (2 ^ 64) with 18446744073709551616; nia).
  split; [apply uw_range; lia|]. split; [apply uw_range; lia|].
  rewrite (uw_small 64 (p / 2 ^ 64)).
  - change 18446744073709551616 with (2 ^ 64). pose proof (uw_div_mod 64 p ltac:(lia)). lia.
  - split; [apply Z.div_pos; lia|]. apply Z.div_lt_upper_bound; lia.
Qed.

(** The portable multiply-accumulate (32-bit halves) computes the same limbs. *)
Lemma mul64_spec a b : in_range 64 a -> in_range 64 b ->
  let '(lo, hi) := mul64 a b in
  in_range 64 lo /\ in_range 64 hi /\ lo + 2 ^ 64 * hi = a * b.
Proof.
  intros [Ha1 Ha2] [Hb1 Hb2]. unfold mul64. rewrite !Z.shiftr_div_pow2, !Z.shiftl_mul_pow2 by lia.
  pose proof (uw_div_mod 32 a ltac:(lia)) as Da. pose proof (uw_div_mod 32 b ltac:(lia)) as Db.
  pose proof (uw_range 32 a ltac:(lia)) as [? ?]. pose proof (uw_range 32 b ltac:(lia)) as [? ?].
  assert (0 <= a / 2 ^ 32 < 2 ^ 32) by (split; [apply Z.div_pos; lia|apply Z.div_lt_upper_bound; lia]).
  assert (0 <= b / 2 ^ 32 < 2 ^ 32) by (split; [apply Z.div_pos; lia|apply Z.div_lt_upper_bound; lia]).
  rewrite (uw_small 32 (a / 2 ^ 32)), (uw_small 32 (b / 2 ^ 32)) by (unfold in_range; lia).
  set (a0 := u32 a) in *. set (a1 := a / 2 ^ 32) in *. set (b0 := u32 b) in *. set (b1 := b / 2 ^ 32) in *.
  clearbody a0 a1 b0 b1. change (2 ^ 32) with 4294967296 in *. change (2 ^ 64) with 18446744073709551616 in *.
  assert (forall u v, 0 <= u < 4294967296 -> 0 <= v < 4294967296 -> 0 <= u * v <= 4294967295 * 4294967295) as Hm by nia.
  pose proof (Hm a0 b0). pose proof (Hm a0 b1). pose proof (Hm a1 b0). pose proof (Hm a1 b1). clear Hm.
  assert (a * b = a0 * b0 + 4294967296 * (a0 * b1 + a1 * b0) + 18446744073709551616 * (a1 * b1)) as -> by (subst a b; ring).
  set (p00 := a0 * b0) in *. set (p01 := a0 * b1) in *. set (p10 := a1 * b0) in *. set (p11 := a1 * b1) in *.
  clearbody p00 p01 p10 p11. clear Da Db Ha1 Ha2 Hb1 Hb2.
  assert (forall z, 0 <= z < 18446744073709551616 -> u64 z = z) as Hs by (intros; apply uw_small; done).
  rewrite (Hs p00), (Hs p01), (Hs p10), (Hs p11) by lia. unfold uw.
  change (2 ^ 64) with 18446744073709551616. clear Hs.
  split; [apply Z.mod_pos_bound; lia|]. split; [apply Z.mod_pos_bound; lia|].
  set (mid := (p01 + p10) mod _). set (ml := (mid * _) mod _). set (lo := (p00 + ml) mod _).
  assert (mid = p01 + p10 - 18446744073709551616 * (if mid <? p01 then 1 else 0)) by (subst mid; clear ml lo; zcases; Z.div_mod_to_equations; lia).
  assert (0 <= mid < 18446744073709551616) by (apply Z.mod_pos_bound; lia). clearbody mid.
  assert (ml = 4294967296 * mid - 18446744073709551616 * (mid / 4294967296)) by (subst ml; clear lo; Z.div_mod_to_equations; lia).
  assert (0 <= ml < 18446744073709551616) by (apply Z.mod_pos_bound; lia). clearbody ml.
  assert (lo = p00 + ml - 18446744073709551616 * (if lo <? p00 then 1 else 0)) by (subst lo; zcases; Z.div_mod_to_equations; lia).
  assert (0 <= lo) by (apply Z.mod_pos_bound; lia). clearbody lo.
  set (mc := if mid <? p01 then 1 else 0) in *. set (lc := if lo <? p00 then 1 else 0) in *.
  assert (0 <= mc <= 1) by (subst mc; case_match; lia). assert (0 <= lc <= 1) by (subst lc; case_match; lia).
  clearbody mc lc. assert (0 <= mid / 4294967296 < 4294967296) by (Z.div_mod_to_equations; lia).
  set (mh := mid / 4294967296) in *. clearbody mh.
  specialize (H5 (conj H H0) (conj H1 H2)). specialize (H6 (conj H H0) H4).
  specialize (H7 H3 (conj H1 H2)). specialize (H8 H3 H4).
  assert (lo + 18446744073709551616 * (p11 + mh + mc * 4294967296 + lc)
          = p00 + 4294967296 * (p01 + p10) + 18446744073709551616 * p11) as Hsum by lia.
  rewrite (Z.mod_small (p11 + mh)), (Z.mod_small (mc * _)), (Z.mod_small (p11 + mh + _)),
    (Z.mod_small (_ + lc)) by lia. lia.
Qed.

Lemma mac_limb_portable_eq r c a b :
  in_range 64 r -> in_range 64 c -> in_range 64 a -> in_range 64 b ->
  mac_limb_portable r c a b = mac_limb r c a b.
Proof.
  intros Hr Hc Ha Hb. pose proof (mac_limb_spec r c a b Hr Hc Ha Hb) as H. unfold mac_limb_portable.
  pose proof (mul64_spec a b Ha Hb) as Hm. destruct (mul64 a b) as [plo phi].
  destruct (mac_limb r c a b) as [r' c'] eqn:E. destruct H as (H1 & H2 & H3). destruct Hm as (M1 & M2 & M3).
  pose proof (carry_step plo r 0 M1 Hr ltac:(lia)) as (_ & _ & S1).
  pose proof (uw_range 64 (plo + r) ltac:(lia)) as R1. set (s1 := u64 (plo + r)) in *.
  pose proof (carry_step s1 c 0 R1 Hc ltac:(lia)) as (_ & _ & S2).
  pose proof (uw_range 64 (s1 + c) ltac:(lia)) as R2. set (s2 := u64 (s1 + c)) in *.
  rewrite Z.add_0_r, (uw_small 64 s1) in S1 by done. rewrite Z.add_0_r, (uw_small 64 s2) in S2 by done.
  rewrite Z.ltb_irrefl, Z.lor_0_r in S1, S2. set (c1 := b2z (s1 <? plo)) in *. set (c2 := b2z (s2 <? s1)) in *.
  assert (0 <= c1 <= 1) by (subst c1; unfold b2z; case_match; lia).
  assert (0 <= c2 <= 1) by (subst c2; unfold b2z; case_match; lia).
  clearbody s1 s2 c1 c2. unfold in_range in *. change (2 ^ 64) with 18446744073709551616 in *.
  assert (s2 = r' /\ phi + c1 + c2 = c') as [-> Hc'] by lia.
  rewrite (uw_small 64 (phi + c1)), (uw_small 64 (phi + c1 + c2)), Hc'
    by (unfold in_range; change (2 ^ 64) with 18446744073709551616; lia). done.
Qed.

Lemma mac_row_spec ai c rs bs :
  in_range 64 ai -> in_range 64 c -> words 64 rs -> words 64 bs -> (length rs <= length bs)%nat ->
  words 64 (mac_row ai c rs bs) /\ length (mac_row ai c rs bs) = length rs /\
  val 64 (mac_row ai c rs bs) = uw (64 * Z.of_nat (length rs)) (val 64 rs + ai * val 64 bs + c).
Proof.
  intros Hai Hc Hrs. revert c bs Hc. induction Hrs as [|r rs Hr Hrs IH]; intros c [|b bs] Hc Hbs Hl; cbn in Hl; try lia.
  1-2: simpl; split; [constructor|]; split; [done|]; unfold uw; by rewrite Z.mod_1_r.
  apply Forall_cons in Hbs as [Hb Hbs]. cbn [mac_row].
  pose proof (mac_limb_spec r c ai b Hr Hc Hai Hb) as Hm.
  destruct (mac_limb r c ai b) as [r' c']. destruct Hm as (M1 & M2 & M3).
  destruct (IH c' bs M2 Hbs ltac:(lia)) as (I1 & I2 & I3).
  split; [by constructor|]. cbn [length val]. split; [lia|]. rewrite I3.
  rewrite Nat2Z.inj_succ, Z.mul_succ_r.
  replace (64 * Z.of_nat (length rs) + 64) with (64 + 64 * Z.of_nat (length rs)) by lia.
  unfold uw. rewrite (Z.pow_add_r 2 64) by lia. pose proof (pow2_pos (64 * Z.of_nat (length rs)) ltac:(lia)).
  rewrite Z.rem_mul_r by lia.
  replace (r + 2 ^ 64 * val 64 rs + ai * (b + 2 ^ 64 * val 64 bs) + c)
    with (r' + (val 64 rs + ai * val 64 bs + c') * 2 ^ 64) by lia.
  destruct M1 as [M1a M1b].
  rewrite Z_mod_plus_full, Z_div_plus_full, (Z.mod_small r'), (Z.div_small r') by lia.
  by rewrite Z.add_0_l.
Qed.

Lemma mul_step_spec a b r i nw :
  words 64 a -> words 64 b -> words 64 r -> length a = nw -> length b = nw -> length r = nw -> (i < nw)%nat ->
  words 64 (mul_step a b r i) /\ length (mul_step a b r i) = nw /\
  uw (64 * Z.of_nat nw) (val 64 (mul_step a b r i))
  = uw (64 * Z.of_nat nw) (val 64 r + get a i * 2 ^ (64 * Z.of_nat i) * val 64 b).
Proof.
  intros Ha Hb Hr Hla Hlb Hlr Hi. unfold mul_step. destruct (Z.eqb_spec (get a i) 0) as [->|].
  { split; [done|]. split; [done|]. f_equal. lia. }
  pose proof (words_get 64 a i ltac:(lia) Ha) as Hai.
  destruct (mac_row_spec (get a i) 0 (drop i r) b) as (M1 & M2 & M3);
    auto using in_range_0, Forall_drop with lia word.
  { by apply Forall_drop. } { rewrite length_drop. lia. }
  split; [apply words_app; split; [by apply Forall_take|done]|].
  split; [rewrite length_app, M2, length_take_le, length_drop; lia|].
  rewrite val_app, M3, length_take_le, length_drop, Z.add_0_r by lia.
  assert (val 64 r = val 64 (take i r) + 2 ^ (64 * Z.of_nat i) * val 64 (drop i r)) as ->.
  { rewrite <- (take_drop i r) at 1. rewrite val_app, length_take_le by lia. done. }
  replace (64 * Z.of_nat nw) with (64 * Z.of_nat i + 64 * Z.of_nat (length r - i)) by lia.
  set (k := 64 * Z.of_nat i). set (m := 64 * Z.of_nat (length r - i)).
  set (X := val 64 (drop i r) + get a i * val 64 b).
  apply uw_mod_eq with (k := - (X / 2 ^ m)).
  rewrite (Z.pow_add_r 2 k m) by lia.
  pose proof (uw_div_mod m X ltac:(lia)) as HX. subst X.
  set (q := _ / 2 ^ m) in *. clearbody q.
  replace (uw m (val 64 (drop i r) + get a i * val 64 b)) with (val 64 (drop i r) + get a i * val 64 b - 2 ^ m * q) by lia.
  ring.
Qed.

Lemma mul_words_spec a b nw :
  words 64 a -> words 64 b -> length a = nw -> length b = nw ->
  words 64 (mul_words a b nw) /\ length (mul_words a b nw) = nw /\
  val 64 (mul_words a b nw) = uw (64 * Z.of_nat nw) (val 64 a * val 64 b).
Proof.
  intros Ha Hb Hla Hlb. unfold mul_words.
  assert (forall k, (k <= nw)%nat ->
    let r := foldl (mul_step a b) (replicate nw 0) (seq 0 k) in
    words 64 r /\ length r = nw /\
    uw (64 * Z.of_nat nw) (val 64 r) = uw (64 * Z.of_nat nw) (val 64 (take k a) * val 64 b)) as Hk.
  { induction k as [|k IH]; intros Hk.
    - simpl. split; [apply words_replicate, in_range_0; lia|]. rewrite length_replicate, val_repeat0. done.
    - rewrite seq_S, foldl_app. cbn [foldl]. destruct (IH ltac:(lia)) as (I1 & I2 & I3).
      set (r := foldl _ _ (seq 0 k)) in *. rewrite Nat.add_0_l.
      destruct (mul_step_spec a b r k nw) as (S1 & S2 & S3); auto with lia.
      split; [done|]. split; [done|]. rewrite S3.
      rewrite <- uw_add_l, I3, uw_add_l.
      rewrite (take_S_r a k (get a k)) by (apply get_lookup; lia).
      rewrite val_app, length_take_le by lia. cbn [val]. f_equal. ring. }
  destruct (Hk nw ltac:(lia)) as (H1 & H2 & H3). rewrite (take_ge a) in H3 by lia.
  split; [done|]. split; [done|]. rewrite <- H3. symmetry. apply uw_small.
  rewrite <- H2 at 1. by apply val_range.
Qed.

(** ** The exported operations *)

Lemma mask_top_negative r n : 0 < n -> length r = APINT_NWORDS n -> words 64 r ->
  is_negative (mask_top r (APINT_NWORDS n) n) n = (2 ^ (n - 1) <=? uw n (val 64 r)).
Proof.
  intros Hn Hl Hr. destruct (mask_top_spec r n) as [H1 H2]; auto.
  rewrite is_negative_spec, H2 by (rewrite ?H2; auto with word). done.
Qed.

Lemma narrow_words n z : 0 < n -> uw n (uw (64 * Z.of_nat (APINT_NWORDS n)) z) = uw n z.
Proof. intros Hn. apply uw_narrow. pose proof (nwords_bounds n Hn). lia. Qed.

Lemma ival_uw s n bs : 0 < n -> uw n (ival s n bs) = rd n bs.
Proof. intros Hn. destruct s; [by apply rd_rds|apply uw_uw]. Qed.

Lemma uw_cong_sub n a b c d : uw n a = uw n c -> uw n b = uw n d -> uw n (a - b) = uw n (c - d).
Proof. intros H1 H2. by rewrite <- uw_sub_l, <- uw_sub_r, H1, H2, uw_sub_l, uw_sub_r. Qed.
Lemma uw_cong_add n a b c d : uw n a = uw n c -> uw n b = uw n d -> uw n (a + b) = uw n (c + d).
Proof. intros H1 H2. by rewrite <- uw_add_l, <- uw_add_r, H1, H2, uw_add_l, uw_add_r. Qed.
Lemma uw_cong_mul n a b c d : uw n a = uw n c -> uw n b = uw n d -> uw n (a * b) = uw n (c * d).
Proof. intros H1 H2. by rewrite <- uw_mul_l, <- uw_mul_r, H1, H2, uw_mul_l, uw_mul_r. Qed.

(** [u] reduced modulo [2H] when it is within one period of the range. *)
Lemma uw_cases n u : 0 < n -> - 2 ^ n <= u < 2 * 2 ^ n ->
  0 <= u < 2 ^ n /\ uw n u = u \/
  u < 0 /\ uw n u = u + 2 ^ n \/ 2 ^ n <= u /\ uw n u = u - 2 ^ n.
Proof.
  intros Hn Hu. destruct (Z.lt_ge_cases u 0).
  { right; left. split; [done|]. apply uw_unique; [unfold in_range; lia|]. exists (-1). lia. }
  destruct (Z.lt_ge_cases u (2 ^ n)).
  { left. split; [done|]. by apply uw_small. }
  right; right. split; [done|]. apply uw_unique; [unfold in_range; lia|]. exists 1. lia.
Qed.

(** The exact result of an addition or subtraction of the operands. *)
Definition addsub_exact (is_sub is_signed : bool) (n : Z) (pa pb : list Z) : Z :=
  if is_sub then ival is_signed n pa - ival is_signed n pb else ival is_signed n pa + ival is_signed n pb.

Theorem APInt_addsub_ov_correct n pa pb pr is_sub is_signed :
  0 < n -> buf n pa -> buf n pb ->
  let v := addsub_exact is_sub is_signed n pa pb in
  APInt_addsub_ov n pa pb pr is_sub is_signed = (put n pr (uw n v), negb (fits is_signed n v)).
Proof.
  intros Hn Hpa Hpb v.
  destruct (load_spec pa n) as (La & Wa & Va); auto. destruct (load_spec pb n) as (Lb & Wb & Vb); auto.
  unfold APInt_addsub_ov. rewrite !is_negative_load by done.
  destruct (addsub_words_spec is_sub (load pa n) (load pb n)) as (R1 & R2 & R3); auto; [congruence|].
  destruct (addsub_words _ _ is_sub) as [r c]. cbn [fst] in *. rewrite La in R2, R3.
  rewrite store_masked, mask_top_negative by done. rewrite R3, narrow_words, Va, Vb by done.
  set (w := if is_sub then rd n pa - rd n pb else rd n pa + rd n pb).
  assert (uw n w = uw n v) as Hwv.
  { subst w v. unfold addsub_exact. destruct is_sub; [apply uw_cong_sub|apply uw_cong_add];
      rewrite ival_uw by done; apply uw_uw. }
  rewrite <- Hwv. clear Hwv R1 R2 R3.
  pose proof (rd_range n pa ltac:(lia)) as [? ?]. pose proof (rd_range n pb ltac:(lia)) as [? ?].
  pose proof (pow2_half n Hn). pose proof (pow2_pos (n - 1) ltac:(lia)).
  pose proof (uw_cases n w Hn ltac:(subst w; destruct is_sub; lia)) as Hc.
  subst v w. unfold addsub_exact, fits, ival, in_rangeb. rewrite !rds_rd.
  set (A := rd n pa) in *. set (B := rd n pb) in *. clearbody A B.
  set (HH := 2 ^ (n - 1)) in *. clearbody HH.
  destruct is_sub, is_signed; cbn [negb];
    match type of Hc with context [uw n ?u] => set (R := uw n u) in *; clearbody R end;
    f_equal; 
    destruct (Z.ltb_spec A HH), (Z.ltb_spec B HH); zcases; cbn; lia.
Qed.

Theorem APInt_neg_correct n pa pr : 0 < n -> buf n pa ->
  APInt_neg n pa pr = put n pr (uw n (- rd n pa)).
Proof.
  intros Hn Hpa. destruct (load_spec pa n) as (La & Wa & Va); auto.
  destruct (negate_words_spec _ Wa) as (H1 & H2 & H3). unfold APInt_neg.
  rewrite store_masked by (done || congruence). by rewrite H3, La, narrow_words, Va.
Qed.

Theorem APInt_mul_correct n pa pb pr : 0 < n -> buf n pa -> buf n pb ->
  APInt_mul n pa pb pr = put n pr (uw n (rd n pa * rd n pb)).
Proof.
  intros Hn Hpa Hpb. destruct (load_spec pa n) as (La & Wa & Va); auto.
  destruct (load_spec pb n) as (Lb & Wb & Vb); auto.
  destruct (mul_words_spec _ _ _ Wa Wb La Lb) as (H1 & H2 & H3). unfold APInt_mul.
  rewrite store_masked by done. by rewrite H3, narrow_words, Va, Vb.
Qed.

(** ** Sign extension to more words and the overflow test of [APInt_mul_ov] *)

Lemma val_replicate_max k : val 64 (replicate k UINT64_MAX) = 2 ^ (64 * Z.of_nat k) - 1.
Proof.
  induction k as [|k IH]; [done|]. cbn [replicate val]. rewrite IH.
  rewrite Nat2Z.inj_succ, Z.mul_succ_r, Z.pow_add_r by lia. unfold UINT64_MAX. ring.
Qed.

Lemma UINT64_MAX_range : in_range 64 UINT64_MAX.
Proof. unfold in_range, UINT64_MAX. lia. Qed.
#[local] Hint Resolve UINT64_MAX_range : word.

(** Filling the bits of a word above the lowest [r]. *)
Lemma lor_high_ones x r : 0 <= r <= 64 -> in_range r x ->
  Z.lor x (u64 (Z.lnot (Z.ones r))) = x + (2 ^ 64 - 2 ^ r).
Proof.
  intros Hr Hx. pose proof (pow2_pos r ltac:(lia)).
  assert (2 ^ r <= 2 ^ 64) by (apply Z.pow_le_mono_r; lia).
  rewrite uw_lnot by (rewrite Z.ones_equiv; unfold in_range; lia). rewrite Z.ones_equiv.
  replace (2 ^ 64 - 1 - Z.pred (2 ^ r)) with ((2 ^ (64 - r) - 1) * 2 ^ r).
  2: { replace (2 ^ 64) with (2 ^ (64 - r) * 2 ^ r) by (rewrite <- Z.pow_add_r by lia; f_equal; lia). lia. }
  rewrite <- Z.shiftl_mul_pow2, lor_add by (done || lia).
  replace (2 ^ 64) with (2 ^ (64 - r) * 2 ^ r) by (rewrite <- Z.pow_add_r by lia; f_equal; lia). lia.
Qed.

(** The top word of a negative operand filled with ones. *)
Definition extend_top (a : list Z) (numbits : Z) : list Z :=
  if 0 <? numbits `mod` WORD_SIZE
  then <[(APINT_NWORDS numbits - 1)%nat :=
           Z.lor (get a (APINT_NWORDS numbits - 1)) (u64 (Z.lnot (top_word_mask numbits)))]> a
  else a.

Lemma extend_top_spec a n :
  0 < n -> length a = APINT_NWORDS n -> words 64 a -> in_range n (val 64 a) ->
  length (extend_top a n) = APINT_NWORDS n /\ words 64 (extend_top a n) /\
  val 64 (extend_top a n) = val 64 a + 2 ^ (64 * Z.of_nat (APINT_NWORDS n)) - 2 ^ n.
Proof.
  intros Hn Hl Ha Hv. pose proof (nwords_bounds n Hn) as [Hw0 Hw].
  pose proof (top_bits_spec n Hn) as (Hr & Hm & _). unfold extend_top, WORD_SIZE.
  rewrite Hm. set (r := n - _) in *. destruct (Z.eqb_spec r 64).
  - replace (64 * Z.of_nat (APINT_NWORDS n)) with n by (subst r; lia). cbn. repeat split; auto. lia.
  - destruct (Z.ltb_spec 0 r); [|lia]. rewrite length_insert. split; [done|].
    destruct (last_split a (APINT_NWORDS n - 1)) as (l0 & Heq & Hl0); [lia|].
    set (x := get a _) in *. rewrite top_word_mask_ones by done. fold r.
    rewrite Heq in Ha. apply words_app in Ha as [Ha0 Hx]. apply Forall_cons in Hx as [[Hx1 Hx2] _].
    assert (2 ^ n = 2 ^ (64 * Z.of_nat (APINT_NWORDS n - 1)) * 2 ^ r) as Hpn
      by (rewrite <- Z.pow_add_r by (subst r; lia); f_equal; subst r; lia).
    assert (2 ^ (64 * Z.of_nat (APINT_NWORDS n)) = 2 ^ (64 * Z.of_nat (APINT_NWORDS n - 1)) * 2 ^ 64) as Hpw
      by (rewrite <- Z.pow_add_r by lia; f_equal; lia).
    pose proof (pow2_pos (64 * Z.of_nat (APINT_NWORDS n - 1)) ltac:(lia)).
    assert (val 64 a = val 64 l0 + 2 ^ (64 * Z.of_nat (APINT_NWORDS n - 1)) * x) as Hva.
    { rewrite Heq, val_app, Hl0 by lia. cbn [val]. lia. }
    pose proof (val_range 64 l0 ltac:(lia) Ha0) as Hv0. rewrite Hl0 in Hv0.
    assert (in_range r x) as Hxr. { destruct Hv as [? Hv]. split; [done|]. rewrite Hva, Hpn in Hv. nia. }
    rewrite Heq at 1 2. rewrite <- Hl0, insert_last, lor_high_ones by (done || lia). split.
    + apply words_app. split; [done|]. constructor; [|constructor]. destruct Hxr.
      pose proof (pow2_pos r ltac:(lia)). assert (2 ^ r <= 2 ^ 64) by (apply Z.pow_le_mono_r; lia).
      unfold in_range. lia.
    + rewrite val_app, Hl0, Hva, Hpw, Hpn by lia. cbn [val]. ring.
Qed.

Lemma extend_spec a n total (s : bool) :
  0 < n -> length a = APINT_NWORDS n -> words 64 a -> in_range n (val 64 a) ->
  (APINT_NWORDS n <= total)%nat ->
  let v := if s then sw n (val 64 a) else val 64 a in
  words 64 (extend a n total s) /\ length (extend a n total s) = total /\
  val 64 (extend a n total s) = uw (64 * Z.of_nat total) v.
Proof.
  intros Hn Hl Ha Hv Ht v. pose proof (nwords_bounds n Hn) as [Hw0 Hw].
  pose proof (top_bits_spec n Hn) as (Hr & Hm & _).
  assert (2 ^ n <= 2 ^ (64 * Z.of_nat total)) by (apply Z.pow_le_mono_r; lia).
  pose proof (pow2_half n Hn). pose proof (pow2_pos (n - 1) ltac:(lia)).
  unfold extend. rewrite is_negative_spec by done.
  set (neg := s && _). destruct neg eqn:Eneg; subst neg.
  2: { cbn. rewrite andb_false_r, take_ge by lia.
    split; [auto using words_app; apply words_app; split; auto with word|].
    split; [rewrite length_app, length_replicate; lia|].
    rewrite val_app, val_repeat0 by lia.
    assert (v = val 64 a) as ->; [|rewrite uw_small; [lia|]; unfold in_range in *; lia].
    subst v. destruct s; [|done]. cbn in Eneg. unfold sw. rewrite uw_small by done.
    destruct (Z.leb_spec (2 ^ (n - 1)) (val 64 a)); [done|]. zcases; lia. }
  apply andb_true_iff in Eneg as [-> Eneg]. apply Z.leb_le in Eneg.
  change (negb (UINT64_MAX =? 0)) with true. rewrite andb_true_r. cbn [negb andb].
  destruct (extend_top_spec a n Hn Hl Ha Hv) as (La' & Wa' & Va'). fold (extend_top a n).
  set (a' := extend_top a n) in *.
  rewrite take_ge by lia. split; [apply words_app; auto with word|].
  split; [rewrite length_app, length_replicate; lia|].
  rewrite val_app, val_replicate_max, La', Va' by lia.
  assert (v = val 64 a - 2 ^ n) as ->.
  { subst v. unfold sw. rewrite uw_small by done. zcases; lia. }
  set (k := (total - _)%nat). rewrite Z.mul_sub_distr_l, <- Z.pow_add_r by lia.
  replace (64 * Z.of_nat (APINT_NWORDS n) + 64 * Z.of_nat k) with (64 * Z.of_nat total) by (subst k; lia).
  symmetry. apply uw_unique; [unfold in_range in *; lia|]. exists (-1). lia.
Qed.

Lemma existsb_seq (f : Z -> bool) (l : list Z) k m : (k + m <= length l)%nat ->
  existsb (fun i => f (get l i)) (seq k m) = existsb f (take m (drop k l)).
Proof.
  revert k. induction m as [|m IH]; intros k Hk; [by rewrite take_0|].
  rewrite (drop_S l (get l k) k) by (apply get_lookup; lia).
  cbn [seq existsb take]. by rewrite IH by lia.
Qed.

Lemma existsb_all_eq e l : in_range 64 e -> words 64 l ->
  existsb (fun x => negb (x =? e)) l = negb (val 64 l =? val 64 (replicate (length l) e)).
Proof.
  intros He. induction 1 as [|x l Hx Hl IH]; [done|]. cbn [existsb length replicate val].
  rewrite IH. pose proof (val_range 64 l ltac:(lia) Hl) as H1.
  pose proof (val_range 64 (replicate (length l) e) ltac:(lia) ltac:(auto with word)) as H2.
  set (v := val 64 l) in *. set (w := val 64 (replicate _ _)) in *. unfold in_range in *.
  change (2 ^ 64) with 18446744073709551616 in *. zcases; cbn; lia.
Qed.

Lemma ones_shiftr_64 t : 0 <= t < 64 -> Z.shiftr UINT64_MAX t = 2 ^ (64 - t) - 1.
Proof.
  intros Ht. rewrite Z.shiftr_div_pow2 by lia. unfold UINT64_MAX. symmetry.
  pose proof (pow2_pos t ltac:(lia)).
  assert (2 ^ 64 = 2 ^ (64 - t) * 2 ^ t) as -> by (rewrite <- Z.pow_add_r by lia; f_equal; lia).
  apply (Z.div_unique_pos _ _ _ (2 ^ t - 1)); lia.
Qed.

(** The bits of [r] above the lowest [n] in terms of its words. *)
Lemma val_high r n total : 0 < n -> words 64 r -> length r = total -> (APINT_NWORDS n <= total)%nat ->
  let t := n `mod` 64 in
  let V := val 64 (drop (APINT_NWORDS n) r) in
  val 64 r / 2 ^ n
  = if t =? 0 then V else Z.shiftr (get r (APINT_NWORDS n - 1)) t + 2 ^ (64 - t) * V.
Proof.
  intros Hn Hr Hl Ht t V. pose proof (nwords_bounds n Hn) as [Hw0 Hw].
  pose proof (top_bits_spec n Hn) as (Htb & Hm & _). subst t V. rewrite Hm.
  set (q := n - _) in *. destruct (Z.eqb_spec q 64).
  - cbn. rewrite val_drop by (done || lia). do 2 f_equal. lia.
  - destruct (Z.eqb_spec q 0); [lia|].
    replace n with (64 * Z.of_nat (APINT_NWORDS n - 1) + q) at 1 by lia.
    pose proof (pow2_pos (64 * Z.of_nat (APINT_NWORDS n - 1)) ltac:(lia)). pose proof (pow2_pos q ltac:(lia)).
    rewrite Z.pow_add_r, <- Z.div_div by lia.
    rewrite <- val_drop by (done || lia).
    rewrite (drop_S r (get r (APINT_NWORDS n - 1)) (APINT_NWORDS n - 1)) by (apply get_lookup; lia).
    replace (S (APINT_NWORDS n - 1)) with (APINT_NWORDS n) by lia. cbn [val].
    replace (2 ^ 64) with (2 ^ (64 - q) * 2 ^ q) by (rewrite <- Z.pow_add_r by lia; f_equal; lia).
    rewrite <- Z.mul_assoc, (Z.mul_comm (2 ^ q)), Z.mul_assoc, Z_div_plus_full by (pose proof (pow2_pos q); lia).
    by rewrite Z.shiftr_div_pow2 by lia.
Qed.

Lemma check_overflow_spec r n total (e : bool) :
  0 < n -> words 64 r -> length r = total -> (APINT_NWORDS n <= total)%nat ->
  check_overflow r n total (if e then UINT64_MAX else 0)
  = negb (val 64 r / 2 ^ n =? (if e then 2 ^ (64 * Z.of_nat total - n) - 1 else 0)).
Proof.
  intros Hn Hr Hl Ht. pose proof (nwords_bounds n Hn) as [Hw0 Hw]. unfold check_overflow, WORD_SIZE.
  rewrite (val_high r n total) by done.
  rewrite (existsb_seq (fun x => negb (x =? _))) by lia.
  rewrite (take_ge (drop _ _)) by (rewrite length_drop; lia).
  rewrite existsb_all_eq by first [by apply Forall_drop | by destruct e; auto with word].
  rewrite length_drop, Hl. pose proof (top_bits_spec n Hn) as (Htb & Hm & _).
  set (t := n `mod` 64) in *. set (V := val 64 (drop _ _)). set (k := (total - _)%nat).
  assert (val 64 (replicate k (if e then UINT64_MAX else 0)) = if e then 2 ^ (64 * Z.of_nat k) - 1 else 0) as ->
    by (destruct e; [apply val_replicate_max|apply val_repeat0]).
  replace (64 * Z.of_nat total - n) with (64 * Z.of_nat k + (64 * Z.of_nat (APINT_NWORDS n) - n)) by lia.
  assert ((t = 0 /\ 64 * Z.of_nat (APINT_NWORDS n) - n = 0) \/
          (0 < t < 64 /\ 64 * Z.of_nat (APINT_NWORDS n) - n = 64 - t)) as Hcase
    by (destruct (Z.eqb_spec (n - 64 * Z.of_nat (APINT_NWORDS n - 1)) 64); lia).
  clearbody t. destruct (Z.eqb_spec t 0) as [Ht0|Ht0]; cbn [negb andb].
  - replace (64 * Z.of_nat (APINT_NWORDS n) - n) with 0 by lia. by rewrite Z.add_0_r.
  - assert (64 * Z.of_nat (APINT_NWORDS n) - n = 64 - t /\ 0 <= t < 64) as [-> Ht1] by lia.
    assert ((if negb ((if e then UINT64_MAX else 0) =? 0) then Z.shiftr UINT64_MAX t else 0)
            = if e then 2 ^ (64 - t) - 1 else 0) as -> by (destruct e; [by apply ones_shiftr_64|done]).
    pose proof (words_get 64 r (APINT_NWORDS n - 1) ltac:(lia) Hr) as [Hx1 Hx2].
    assert (0 <= Z.shiftr (get r (APINT_NWORDS n - 1)) t < 2 ^ (64 - t)) as Hx.
    { rewrite Z.shiftr_div_pow2 by lia. split; [apply Z.div_pos; [lia|apply pow2_pos; lia]|].
      apply Z.div_lt_upper_bound; [apply pow2_pos; lia|]. rewrite <- Z.pow_add_r by lia.
      by replace (t + (64 - t)) with 64 by lia. }
    set (x := Z.shiftr _ _) in *. clearbody x. rewrite Z.pow_add_r by lia. set (P := 2 ^ (64 - t)) in *.
    set (Q := 2 ^ (64 * Z.of_nat k)). assert (0 <= V) by (apply (val_range 64); [lia|by apply Forall_drop]).
    clearbody P Q V. destruct e; zcases; cbn; try done; nia.
Qed.

Lemma signed_high_bits W n v : 0 < n -> 2 * n <= W -> - (2 ^ (n - 1) * 2 ^ (n - 1)) <= v <= 2 ^ (n - 1) * 2 ^ (n - 1) ->
  (uw W v / 2 ^ n =? (if Z.testbit (uw W v) (n - 1) then 2 ^ (W - n) - 1 else 0)) = fits true n v.
Proof.
  intros Hn HW Hv. pose proof (uw_div_mod n (uw W v) ltac:(lia)) as Hd.
  replace (Z.testbit (uw W v) (n - 1)) with (Z.testbit (uw n (uw W v)) (n - 1))
    by (rewrite (testbit_uw n) by lia; by destruct (Z.ltb_spec (n - 1) n); [|lia]).
  rewrite testbit_top by (auto with word; lia).
  pose proof (uw_range n (uw W v) ltac:(lia)) as [? ?].
  pose proof (pow2_half n Hn). pose proof (pow2_pos (n - 1) ltac:(lia)).
  pose proof (pow2_ge1 (W - n) ltac:(lia)).
  assert (2 ^ W = 2 ^ n * 2 ^ (W - n)) as HWn by (rewrite <- Z.pow_add_r by lia; f_equal; lia).
  assert (2 ^ n <= 2 ^ (W - n)) by (apply Z.pow_le_mono_r; lia).
  pose proof (uw_cases W v ltac:(lia)) as Hc.
  set (lo := uw n _) in *. set (q := _ / _) in *. set (u := uw W v) in *. clearbody lo q u.
  rewrite HWn in Hc. clear HWn. set (Q := 2 ^ (W - n)) in *. clearbody Q.
  rewrite H1 in *.
  unfold fits. set (h := 2 ^ (n - 1)) in *. clearbody h.
  assert (h * h <= h * Q - h * h) by nia. assert (h <= h * Q - h) by nia.
  specialize (Hc ltac:(lia)).
  assert (0 <= u < 2 * h * Q) by lia. 
  assert (-1 < q) by (apply (Z.mul_lt_mono_pos_l (2 * h)); lia).
  assert (q < Q) by (apply (Z.mul_lt_mono_pos_l (2 * h)); lia).
  assert (q = 0 /\ h * q = 0 \/ 0 < q /\ h <= h * q) as Hq0
    by (destruct (Z.eq_dec q 0) as [->|]; [left; lia|right; nia]).
  assert (q = Q - 1 /\ h * q = h * Q - h \/ q <> Q - 1 /\ h * q <= h * Q - 2 * h) as Hq
    by (destruct (Z.eq_dec q (Q - 1)) as [->|]; [left; lia|right; split; [done|]; assert (q <= Q - 2) by lia; nia]).
  zcases; cbn; lia.
Qed.

(** [store] of a masked buffer that has more words than the value. *)
Lemma store_masked_long dst r n : 0 < n -> (APINT_NWORDS n <= length r)%nat -> words 64 r ->
  store dst (mask_top r (APINT_NWORDS n) n) n = put n dst (uw n (val 64 r)).
Proof.
  intros Hn Hl Hr. pose proof (nwords_bounds n Hn) as [Hw0 Hw]. pose proof (nbytes_le_nwords n Hn).
  assert (words 64 (take (APINT_NWORDS n) r)) as Ht by by apply Forall_take.
  transitivity (store dst (mask_top (take (APINT_NWORDS n) r) (APINT_NWORDS n) n) n).
  2: { rewrite store_masked, val_take, narrow_words by (rewrite ?length_take_le; auto with lia). done. }
  unfold store, memcpy. f_equal.
  rewrite <- (take_drop (APINT_NWORDS n) (mask_top r _ n)).
  unfold bytes_of_words. rewrite map_app, concat_app.
  assert (take (APINT_NWORDS n) (mask_top r (APINT_NWORDS n) n)
          = mask_top (take (APINT_NWORDS n) r) (APINT_NWORDS n) n) as ->.
  { unfold mask_top, get. rewrite take_insert_lt by lia. do 2 f_equal.
    rewrite <- (take_drop (APINT_NWORDS n) r) at 1. apply app_nth1. rewrite length_take_le; lia. }
  set (m := mask_top _ _ n). rewrite take_app_le; [done|].
  assert (forall l, length (concat (map (digits 8 8) l)) = (length l * 8)%nat) as ->.
  { induction l; [done|]. cbn [map concat length]. rewrite length_app, digits_length. lia. }
  subst m. rewrite mask_top_length, length_take_le by lia. lia.
Qed.

(** The exact product of the operands. *)
Definition mul_exact (is_signed : bool) (n : Z) (pa pb : list Z) : Z :=
  ival is_signed n pa * ival is_signed n pb.

Lemma mul_fits n pa pb (s : bool) W : 0 < n -> 2 * n <= W -> 
  let v := mul_exact s n pa pb in
  negb (uw W v / 2 ^ n =? if s && Z.testbit (uw W v) (n - 1) then 2 ^ (W - n) - 1 else 0) = negb (fits s n v).
Proof.
  intros Hn HW v. f_equal. subst v. unfold mul_exact, ival.
  pose proof (rds_range n pa Hn). pose proof (rds_range n pb Hn).
  pose proof (rd_range n pa ltac:(lia)) as Ra. pose proof (rd_range n pb ltac:(lia)) as Rb.
  destruct s; cbn [andb].
  - apply signed_high_bits; [done|lia|]. set (h := 2 ^ (n - 1)) in *.
    set (A := rds n pa) in *. set (B := rds n pb) in *.
    pose proof (Z.mul_nonneg_nonneg (h - A) (h + B) ltac:(lia) ltac:(lia)).
    pose proof (Z.mul_nonneg_nonneg (h + A) (h - B) ltac:(lia) ltac:(lia)).
    pose proof (Z.mul_nonneg_nonneg (h - A) (h - B) ltac:(lia) ltac:(lia)).
    pose proof (Z.mul_nonneg_nonneg (h + A) (h + B) ltac:(lia) ltac:(lia)). lia.
  - pose proof (pow2_pos n ltac:(lia)). unfold in_range in *.
    assert (2 ^ n * 2 ^ n <= 2 ^ W) by (rewrite <- Z.pow_add_r by lia; apply Z.pow_le_mono_r; lia).
    rewrite uw_small by (unfold in_range; nia). unfold fits, in_rangeb.
    assert (0 <= rd n pa * rd n pb) by nia. set (p := rd n pa * rd n pb) in *.
    destruct (Z.ltb_spec p (2 ^ n)).
    + rewrite Z.div_small by lia. zcases; cbn; lia.
    + assert (1 <= p / 2 ^ n) by (apply Z.div_le_lower_bound; lia). zcases; cbn; lia.
Qed.

Theorem APInt_mul_ov_correct n pa pb pr is_signed :
  0 < n -> buf n pa -> buf n pb ->
  let v := mul_exact is_signed n pa pb in
  APInt_mul_ov n pa pb pr is_signed = (put n pr (uw n v), negb (fits is_signed n v)).
Proof.
  intros Hn Hpa Hpb v. pose proof (nwords_bounds n Hn) as [Hw0 Hw].
  destruct (load_spec pa n) as (La & Wa & Va); auto. destruct (load_spec pb n) as (Lb & Wb & Vb); auto.
  pose proof (rd_range n pa ltac:(lia)) as Ra. pose proof (rd_range n pb ltac:(lia)) as Rb.
  unfold APInt_mul_ov. set (nw2 := (2 * APINT_NWORDS n)%nat).
  destruct (extend_spec (load pa n) n nw2 is_signed) as (A1 & A2 & A3); rewrite ?Va; auto; [lia|].
  destruct (extend_spec (load pb n) n nw2 is_signed) as (B1 & B2 & B3); rewrite ?Vb; auto; [lia|].
  destruct (mul_words_spec _ _ nw2 A1 B1 A2 B2) as (R1 & R2 & R3).
  set (r := mul_words _ _ nw2) in *. set (W := 64 * Z.of_nat nw2) in *.
  assert (val 64 r = uw W v) as Hr.
  { rewrite R3, A3, B3, Va, Vb. apply uw_cong_mul; rewrite uw_uw; f_equal;
      unfold ival, rds, rd; (destruct is_signed; [by rewrite sw_uw|done]). }
  rewrite (check_overflow_spec r n nw2 (is_signed && is_negative r n)) by (done || lia).
  rewrite store_masked_long by (done || lia). fold W. rewrite is_negative_testbit, Hr by done.
  rewrite uw_narrow by lia. f_equal. apply mul_fits; lia.
Qed.

Theorem APInt_cmp_correct n pa pb is_signed : 0 < n -> buf n pa -> buf n pb ->
  APInt_cmp n pa pb is_signed
  = match ival is_signed n pa ?= ival is_signed n pb with Lt => -1 | Eq => 0 | Gt => 1 end.
Proof.
  intros Hn Hpa Hpb. destruct (load_spec pa n) as (La & Wa & Va); auto.
  destruct (load_spec pb n) as (Lb & Wb & Vb); auto.
  unfold APInt_cmp. rewrite !is_negative_load, compare_words_all, Va, Vb by done.
  pose proof (rd_range n pa ltac:(lia)) as [? ?]. pose proof (rd_range n pb ltac:(lia)) as [? ?].
  pose proof (pow2_half n Hn). unfold ival. destruct is_signed; [|done]. rewrite !rds_rd.
  set (A := rd n pa) in *. set (B := rd n pb) in *.
  destruct (Z.ltb_spec A (2 ^ (n - 1))), (Z.ltb_spec B (2 ^ (n - 1))); zcases; cbn;
    repeat match goal with |- context [?x ?= ?y] => destruct (Z.compare_spec x y) end; lia.
Qed.
