(* ===== verification/APIntBits.v ===== *)
(** * Shifts, bit counts and bitwise operations of src/src/APInt.c *)
From S2P Require Import Prelude APInt APIntFacts APIntOps APIntArith.

(** ** Specifications *)

(** [k] trailing bits of the [n]-bit number [v] are [c], and the next is not. *)
Definition trailing (n : Z) (c : bool) (v k : Z) : Prop :=
  0 <= k <= n /\ (forall i, 0 <= i < k -> Z.testbit v i = c) /\ (k < n -> Z.testbit v k = negb c).
(** [k] leading bits of the [n]-bit number [v] are [c], and the next is not. *)
Definition leading (n : Z) (c : bool) (v k : Z) : Prop :=
  0 <= k <= n /\ (forall i, n - k <= i < n -> Z.testbit v i = c) /\ (k < n -> Z.testbit v (n - 1 - k) = negb c).
(** The number of ones among the [m] lowest bits. *)
Fixpoint ones_below (v : Z) (m : nat) : Z :=
  match m with
  | O => 0
  | S m => b2z (Z.testbit v (Z.of_nat m)) + ones_below v m
  end.

(** ** Single words *)

Lemma testbit_lnot64 x j : 0 <= j < 64 -> Z.testbit (u64 (Z.lnot x)) j = negb (Z.testbit x j).
Proof. intros Hj. rewrite testbit_uw, Z.lnot_spec by lia. by destruct (Z.ltb_spec j 64); [|lia]. Qed.

Lemma ctz_loop_spec f v : 0 < v < 2 ^ Z.of_nat f ->
  0 <= ctz_loop f v < Z.of_nat f /\ Z.testbit v (ctz_loop f v) = true /\
  forall i, 0 <= i < ctz_loop f v -> Z.testbit v i = false.
Proof.
  revert v. induction f as [|f IH]; intros v Hv; [change (2 ^ Z.of_nat 0) with 1 in Hv; lia|].
  cbn [ctz_loop].
  assert (Z.land v 1 = Z.b2z (Z.testbit v 0)) as ->
    by (rewrite Z.bit0_mod; change 1 with (Z.ones 1); by rewrite Z.land_ones by lia).
  destruct (Z.testbit v 0) eqn:E; cbn [Z.b2z Z.eqb].
  { split; [lia|]. split; [done|]. intros; lia. }
  rewrite Nat2Z.inj_succ, Z.pow_succ_r in Hv by lia.
  assert (v mod 2 = 0) as Hm by (rewrite <- Z.bit0_mod, E; done).
  pose proof (Z.div_mod v 2 ltac:(lia)) as Hd. rewrite Hm in Hd.
  rewrite Z.shiftr_div_pow2 by lia. change (2 ^ 1) with 2.
  destruct (IH (v / 2) ltac:(lia)) as (I1 & I2 & I3). set (k := ctz_loop f (v / 2)) in *.
  assert (forall i, 0 <= i -> Z.testbit v (1 + i) = Z.testbit (v / 2) i) as Hb.
  { intros i Hi. rewrite (Z.add_comm 1 i). rewrite <- Z.div_pow2_bits by lia. done. }
  split; [lia|]. split; [rewrite Hb by lia; done|].
  intros i Hi. destruct (Z.eq_dec i 0) as [->|]; [done|].
  replace i with (1 + (i - 1)) by lia. rewrite Hb by lia. apply I3. lia.
Qed.

Lemma ctzll_spec v : in_range 64 v -> v <> 0 ->
  0 <= ctzll v < 64 /\ Z.testbit v (ctzll v) = true /\ forall i, 0 <= i < ctzll v -> Z.testbit v i = false.
Proof. intros [H1 H2] Hv. apply (ctz_loop_spec 64). change (Z.of_nat 64) with 64. lia. Qed.

Lemma log2_bits v : 0 < v ->
  Z.testbit v (Z.log2 v) = true /\ forall i, Z.log2 v < i -> Z.testbit v i = false.
Proof. intros Hv. split; [by apply Z.bit_log2|]. intros. apply Z.bits_above_log2; lia. Qed.

(** ** Trailing counts *)

Lemma countr_word x (c : bool) j : in_range 64 x -> 0 <= j < 64 ->
  Z.testbit (if c then u64 (Z.lnot x) else x) j = xorb c (Z.testbit x j).
Proof. intros. destruct c; [by rewrite testbit_lnot64|by destruct (Z.testbit x j)]. Qed.

Lemma testbit_cons x l i : in_range 64 x -> 0 <= i -> words 64 l ->
  Z.testbit (val 64 (x :: l)) i = if i <? 64 then Z.testbit x i else Z.testbit (val 64 l) (i - 64).
Proof.
  intros [Hx1 Hx2] Hi Hl. cbn [val]. rewrite (Z.mul_comm (2 ^ 64)). destruct (Z.ltb_spec i 64).
  - rewrite <- (Z.mod_pow2_bits_low _ 64), Z_mod_plus_full, Z.mod_small by lia. done.
  - replace i with (i - 64 + 64) at 1 by lia. rewrite <- Z.div_pow2_bits by lia.
    by rewrite Z_div_plus_full, Z.div_small, Z.add_0_l by lia.
Qed.

Lemma zero_bits x : in_range 64 x -> (forall j, 0 <= j < 64 -> Z.testbit x j = false) -> x = 0.
Proof.
  intros Hx Hj. apply (bits_ext 64); auto with word lia. intros. rewrite Z.testbit_0_l. auto.
Qed.

Lemma xorb_false c b : xorb c b = false -> b = c.
Proof. by destruct c, b. Qed.
Lemma xorb_true c b : xorb c b = true -> b = negb c.
Proof. by destruct c, b. Qed.

Lemma countr_loop_spec a count n c : words 64 a ->
  (exists k, countr_loop a count n c = count + k /\ 0 <= k < 64 * Z.of_nat (length a) /\
     Z.testbit (val 64 a) k = negb c /\ forall i, 0 <= i < k -> Z.testbit (val 64 a) i = c) \/
  (countr_loop a count n c = n /\
     forall i, 0 <= i < 64 * Z.of_nat (length a) -> Z.testbit (val 64 a) i = c).
Proof.
  intros Ha. revert count. induction Ha as [|x a Hx Ha IH]; intros count; cbn [countr_loop length].
  { right. split; [done|]. intros; lia. }
  set (v := if c then u64 (Z.lnot x) else x).
  assert (in_range 64 v) as Hv by (subst v; destruct c; auto with word).
  assert (forall j, 0 <= j < 64 -> Z.testbit v j = xorb c (Z.testbit x j)) as Hb by (intros; by apply countr_word).
  destruct (Z.eqb_spec v 0) as [Ev|Ev]; cbn [negb].
  - assert (forall j, 0 <= j < 64 -> Z.testbit x j = c) as Hc.
    { intros j Hj. apply xorb_false. by rewrite <- Hb, Ev, Z.testbit_0_l. }
    clearbody v. destruct (IH (count + 64)) as [(k & K1 & K2 & K3 & K4)|(K1 & K2)].
    + left. exists (64 + k). split; [lia|]. split; [lia|].
      rewrite testbit_cons by (done || lia). destruct (Z.ltb_spec (64 + k) 64); [lia|].
      replace (64 + k - 64) with k by lia. split; [done|]. intros i Hi.
      rewrite testbit_cons by (done || lia). destruct (Z.ltb_spec i 64); [apply Hc; lia|apply K4; lia].
    + right. split; [done|]. intros i Hi. rewrite testbit_cons by (done || lia).
      destruct (Z.ltb_spec i 64); [apply Hc; lia|apply K2; lia].
  - left. destruct (ctzll_spec v Hv Ev) as (C1 & C2 & C3). exists (ctzll v).
    split; [done|]. split; [lia|]. rewrite testbit_cons by (done || lia).
    destruct (Z.ltb_spec (ctzll v) 64); [|lia]. rewrite Hb in C2 by lia.
    split; [by apply xorb_true|]. intros i Hi. rewrite testbit_cons by (done || lia).
    destruct (Z.ltb_spec i 64); [|lia]. apply xorb_false. rewrite <- Hb by lia. apply C3. lia.
Qed.

Lemma countr_spec a n c : 0 < n -> words 64 a -> length a = APINT_NWORDS n -> in_range n (val 64 a) ->
  trailing n c (val 64 a) (countr a n c).
Proof.
  intros Hn Ha Hl Hv. pose proof (nwords_bounds n Hn) as [Hw0 Hw].
  unfold countr, trailing. destruct (countr_loop_spec a 0 n c Ha) as [(k & K1 & K2 & K3 & K4)|(K1 & K2)]; rewrite K1.
  - rewrite Z.add_0_l. destruct (Z.le_gt_cases k n); [by auto with lia|]. exfalso.
    pose proof (testbit_high n _ n Hv ltac:(lia)) as Hz. pose proof (testbit_high n _ k Hv ltac:(lia)) as Hk.
    rewrite K4 in Hz by lia. subst c. by rewrite Hk in K3.
  - split; [lia|]. split; [intros; apply K2; lia|lia].
Qed.

(** ** Leading counts *)

(** The number of bits of word [i] that belong to the value. *)
Lemma countl_loop_spec a n c i count : 0 < n -> words 64 a -> length a = APINT_NWORDS n -> in_range n (val 64 a) ->
  (i <= APINT_NWORDS n)%nat -> count = n - Z.min n (64 * Z.of_nat i) ->
  (forall j, Z.min n (64 * Z.of_nat i) <= j < n -> Z.testbit (val 64 a) j = c) ->
  leading n c (val 64 a) (countl_loop a (APINT_NWORDS n) n count c i).
Proof.
  intros Hn Ha Hl Hv. pose proof (nwords_bounds n Hn) as [Hw0 Hw].
  pose proof (top_bits_spec n Hn) as (Htb & Hm & _).
  revert count. induction i as [|i IH]; intros count Hi Hcount Hc; cbn [countl_loop].
  { split; [lia|]. split; [|lia]. intros j Hj. apply Hc. lia. }
  unfold WORD_SIZE. rewrite Hm. set (r := n - _) in *.
  set (top := (i =? APINT_NWORDS n - 1)%nat && _).
  set (w := Z.min n (64 * Z.of_nat (S i)) - 64 * Z.of_nat i).
  assert (top = true /\ (i = APINT_NWORDS n - 1)%nat /\ w = r /\ r < 64 /\ (if r =? 64 then 0 else r) = r \/
          top = false /\ w = 64) as Htop.
  { subst top w. destruct (Nat.eqb_spec i (APINT_NWORDS n - 1)); cbn [andb];
      destruct (Z.eqb_spec r 64); cbn; zcases; try lia. }
  pose proof (words_get 64 a i ltac:(lia) Ha) as Hx. set (x := get a i) in *.
  assert (forall j, 0 <= j < 64 -> Z.testbit (val 64 a) (64 * Z.of_nat i + j) = Z.testbit x j) as Hxb
    by (intros; by apply val_testbit; [lia| |]).
  set (v := if c then u64 (Z.lnot _) else _).
  assert (0 < w <= 64) as Hw64 by lia.
  assert (in_range 64 v /\ forall j, 0 <= j < 64 -> Z.testbit v j = if j <? w then xorb c (Z.testbit x j) else false) as [Hvr Hvb].
  { subst v. destruct Htop as [(-> & Hi' & Hwr & Hr64 & _)|(-> & ->)]; cbn [andb].
    - destruct c; cbn [xorb].
      + split; [auto with word|]. intros j Hj. rewrite testbit_lnot64, Z.lor_spec, testbit_lnot64 by lia.
        rewrite top_word_mask_ones, Z.testbit_ones by lia. fold r. rewrite <- Hwr.
        destruct (Z.leb_spec 0 j), (Z.ltb_spec j w); try lia; cbn; by rewrite ?orb_false_r, ?orb_true_r.
      + split; [done|]. intros j Hj. destruct (Z.ltb_spec j w); [by destruct (Z.testbit x j)|].
        rewrite <- Hxb by lia. apply (testbit_high n); [done|lia].
    - split; [destruct c; auto with word|]. intros j Hj. destruct (Z.ltb_spec j 64); [|lia].
      by apply countr_word. }
  clearbody v. destruct (Z.eqb_spec v 0) as [Ev|Ev]; cbn [negb].
  - apply IH; [lia|destruct Htop as [(-> & ? & ? & ? & ->)|(-> & ?)]; lia|].
    intros j Hj. destruct (Z.lt_ge_cases j (64 * Z.of_nat i + w)); [|apply Hc; lia].
    replace j with (64 * Z.of_nat i + (j - 64 * Z.of_nat i)) by lia. rewrite Hxb by lia.
    apply xorb_false. specialize (Hvb (j - 64 * Z.of_nat i) ltac:(lia)).
    rewrite Ev, Z.testbit_0_l in Hvb. by destruct (Z.ltb_spec (j - 64 * Z.of_nat i) w); [|lia].
  - destruct Hvr as [Hv1 Hv2]. destruct (log2_bits v ltac:(lia)) as [L1 L2].
    assert (Z.log2 v < 64) as L3 by (apply Z.log2_lt_pow2; lia).
    pose proof (Z.log2_nonneg v) as L0. set (l := Z.log2 v) in *.
    assert ((if top then count + clzll v - (64 - (if r =? 64 then 0 else r)) else count + clzll v)
            = count + w - 1 - l) as -> by (unfold clzll; fold l; destruct Htop as [(-> & ? & ? & ? & ->)|(-> & ?)]; lia).
    rewrite Hvb in L1 by lia. destruct (Z.ltb_spec l w) as [Hlw|]; [|done].
    assert (64 * Z.of_nat i + l = n - 1 - (count + w - 1 - l)) as Hpos by lia.
    split; [lia|]. split.
    + intros j Hj. destruct (Z.lt_ge_cases j (64 * Z.of_nat i + w)); [|apply Hc; lia].
      replace j with (64 * Z.of_nat i + (j - 64 * Z.of_nat i)) by lia. rewrite Hxb by lia.
      apply xorb_false. specialize (Hvb (j - 64 * Z.of_nat i) ltac:(lia)).
      rewrite (L2 (j - _)) in Hvb by lia. by destruct (Z.ltb_spec (j - 64 * Z.of_nat i) w); [|lia].
    + intros _. rewrite <- Hpos, Hxb by lia. by apply xorb_true.
Qed.

Lemma countl_spec a n c : 0 < n -> words 64 a -> length a = APINT_NWORDS n -> in_range n (val 64 a) ->
  leading n c (val 64 a) (countl a (APINT_NWORDS n) n c).
Proof.
  intros. pose proof (nwords_bounds n). apply countl_loop_spec; auto; [lia|]. intros; lia.
Qed.

(** ** Population count *)

Lemma ones_below_0 v m : (forall i, 0 <= i < Z.of_nat m -> Z.testbit v i = false) -> ones_below v m = 0.
Proof.
  induction m as [|m IH]; intros H; [done|]. cbn [ones_below]. rewrite H, IH by (intros; try apply H; lia). done.
Qed.

Lemma ones_below_ext v w m : (forall i, 0 <= i < Z.of_nat m -> Z.testbit v i = Z.testbit w i) ->
  ones_below v m = ones_below w m.
Proof.
  induction m as [|m IH]; intros H; [done|]. cbn [ones_below]. rewrite H, IH by (intros; try apply H; lia). done.
Qed.

Lemma ones_below_shift v k m : 
  ones_below v (k + m) = ones_below v k + ones_below (Z.shiftr v (Z.of_nat k)) m.
Proof.
  induction m as [|m IH]; [cbn; rewrite Nat.add_0_r; lia|].
  rewrite Nat.add_succ_r. cbn [ones_below]. rewrite IH, Z.shiftr_spec by lia.
  replace (Z.of_nat m + Z.of_nat k) with (Z.of_nat (k + m)) by lia. lia.
Qed.

Lemma popcount_pos_spec p m : Zpos p < 2 ^ Z.of_nat m -> popcount_pos p = ones_below (Zpos p) m.
Proof.
  revert m. induction p as [p IH|p IH|]; intros m Hm; (destruct m as [|m]; [cbn in Hm; lia|]).
  all: change (S m) with (1 + m)%nat; rewrite ones_below_shift; cbn [ones_below popcount_pos].
  1,2: rewrite (IH m) by (rewrite Nat2Z.inj_succ, Z.pow_succ_r in Hm; lia); done.
  rewrite (ones_below_0 _ m); [done|]. intros. by rewrite Z.testbit_0_l.
Qed.

Lemma popcountll_spec v : in_range 64 v -> popcountll v = ones_below v 64.
Proof.
  intros [H1 H2]. destruct v as [|p|p]; [|by apply popcount_pos_spec|lia].
  symmetry. apply ones_below_0. intros. apply Z.testbit_0_l.
Qed.

Lemma popcount_words a m : words 64 a -> 64 * Z.of_nat (length a) <= Z.of_nat m ->
  foldl (fun count x => count + popcountll x) 0 a = ones_below (val 64 a) m.
Proof.
  intros Ha. assert (forall c l, foldl (fun count x => count + popcountll x) c l
    = c + foldl (fun count x => count + popcountll x) 0 l) as Hf.
  { intros c l. revert c. induction l as [|x l IH]; intros c; cbn [foldl]; [lia|].
    rewrite IH, (IH (0 + _)). lia. }
  revert m. induction Ha as [|x a Hx Ha IH]; intros m Hm; cbn [foldl length] in *.
  { symmetry. apply ones_below_0. intros. apply Z.testbit_0_l. }
  rewrite Hf. replace m with (64 + (m - 64))%nat by lia. rewrite ones_below_shift.
  rewrite (IH (m - 64)%nat) by lia. rewrite Z.add_0_l, popcountll_spec by done. f_equal.
  - apply ones_below_ext. intros i Hi. rewrite testbit_cons by (done || lia). by destruct (Z.ltb_spec i 64); [|lia].
  - apply ones_below_ext. intros i Hi. rewrite Z.shiftr_spec, testbit_cons by (done || lia).
    destruct (Z.ltb_spec (i + Z.of_nat 64) 64); [lia|]. f_equal. lia.
Qed.

(** ** Shifts *)

Lemma extract_shift_spec b n : 0 < n < 2 ^ 32 -> words 64 b -> (0 < length b)%nat ->
  extract_shift b n = Z.min (val 64 b) n.
Proof.
  intros Hn Hb Hl. destruct Hb as [|x l [Hx1 Hx2] Hb]; [cbn in Hl; lia|]. cbn [extract_shift val].
  rewrite is_zero_spec by done. pose proof (val_range 64 l ltac:(lia) Hb) as [Hv _].
  change (2 ^ 64) with 18446744073709551616 in *. change (2 ^ 32) with 4294967296 in *.
  destruct (Z.eqb_spec (val 64 l) 0) as [->|]; [|lia].
  destruct (Z.leb_spec n x); [lia|]. rewrite uw_small; [lia|]. split; [done|]. change (2 ^ 32) with 4294967296. lia.
Qed.

Lemma map_seq_words (f : nat -> Z) nw : (forall k, (k < nw)%nat -> in_range 64 (f k)) ->
  words 64 (map f (seq 0 nw)) /\ length (map f (seq 0 nw)) = nw.
Proof.
  intros Hf. split; [|by rewrite length_map, length_seq].
  apply Forall_forall. intros y Hy. apply list_elem_of_fmap in Hy as (k & -> & Hk).
  apply elem_of_seq in Hk. apply Hf. lia.
Qed.

(** Bits of a list of words given by its elements. *)
Lemma val_map_testbit (f : nat -> Z) nw i : (forall k, (k < nw)%nat -> in_range 64 (f k)) ->
  0 <= i < 64 * Z.of_nat nw ->
  Z.testbit (val 64 (map f (seq 0 nw))) i = Z.testbit (f (Z.to_nat (i / 64))) (i mod 64).
Proof.
  intros Hf Hi. pose proof (Z.div_mod i 64 ltac:(lia)) as Hd. pose proof (Z.mod_pos_bound i 64 ltac:(lia)).
  assert (0 <= i / 64 < Z.of_nat nw) by (split; [apply Z.div_pos; lia|apply Z.div_lt_upper_bound; lia]).
  rewrite Hd at 1. rewrite <- (Z2Nat.id (i / 64)) at 1 by lia. rewrite val_testbit; [|lia| |lia].
  - f_equal. unfold get. rewrite (nth_indep _ 0 (f 0%nat)) by (rewrite length_map, length_seq; lia).
    rewrite map_nth, seq_nth by lia. f_equal.
  - by apply map_seq_words.
Qed.

Lemma get_bit a i j : words 64 a -> 0 <= i -> 0 <= j < 64 ->
  Z.testbit (get a (Z.to_nat i)) j = Z.testbit (val 64 a) (64 * i + j).
Proof. intros. rewrite <- (val_testbit 64) by (done || lia). do 2 f_equal. lia. Qed.

(** The word funnels of the two shift loops. *)
Lemma funnel_left lo hi s j : 0 < s < 64 -> 0 <= j < 64 -> in_range 64 hi ->
  Z.testbit (Z.lor (u64 (Z.shiftl lo s)) (Z.shiftr hi (64 - s))) j
  = if s <=? j then Z.testbit lo (j - s) else Z.testbit hi (64 - s + j).
Proof.
  intros Hs Hj Hhi. rewrite Z.lor_spec, testbit_uw, Z.shiftl_spec, Z.shiftr_spec by lia.
  destruct (Z.ltb_spec j 64); [|lia]. cbn [andb]. destruct (Z.leb_spec s j).
  - rewrite (testbit_high 64 hi) by (done || lia). apply orb_false_r.
  - rewrite (Z.testbit_neg_r lo) by lia. cbn [orb]. f_equal. lia.
Qed.
Lemma funnel_right lo hi s j : 0 < s < 64 -> 0 <= j < 64 -> in_range 64 hi ->
  Z.testbit (Z.lor (Z.shiftr hi s) (u64 (Z.shiftl lo (64 - s)))) j
  = if j + s <? 64 then Z.testbit hi (j + s) else Z.testbit lo (j + s - 64).
Proof.
  intros Hs Hj Hhi. rewrite Z.lor_spec, testbit_uw, Z.shiftl_spec, Z.shiftr_spec by lia.
  destruct (Z.ltb_spec j 64); [|lia]. cbn [andb]. destruct (Z.ltb_spec (j + s) 64).
  - rewrite (Z.testbit_neg_r lo) by lia. apply orb_false_r.
  - rewrite (testbit_high 64 hi) by (done || lia). cbn [orb]. f_equal. lia.
Qed.

Lemma shl_n_spec a s nw : words 64 a -> length a = nw -> 0 <= s ->
  words 64 (shl_n a s nw) /\ length (shl_n a s nw) = nw /\
  val 64 (shl_n a s nw) = uw (64 * Z.of_nat nw) (Z.shiftl (val 64 a) s).
Proof.
  intros Ha Hl Hs. unfold shl_n, WORD_SIZE. set (f := fun i : nat => _).
  pose proof (Z.div_mod s 64 ltac:(lia)) as Hd. pose proof (Z.mod_pos_bound s 64 ltac:(lia)) as Hm.
  assert (0 <= s / 64) by (apply Z.div_pos; lia). set (q := s / 64) in *. set (r := s mod 64) in *.
  assert (forall b k, in_range 64 (if b : bool then get a k else 0)) as Hg by (intros [] ?; auto with word).
  assert (forall k, (k < nw)%nat -> in_range 64 (f k)) as Hf.
  { intros k Hk. subst f. cbn beta zeta. destruct (Z.eqb_spec r 0); auto with word. }
  destruct (map_seq_words f nw Hf) as [W L]. split; [done|]. split; [done|].
  apply (bits_ext (64 * Z.of_nat nw)); [lia| |apply uw_range; lia|].
  { rewrite <- L at 1. by apply val_range. }
  intros i Hi. rewrite val_map_testbit, testbit_uw, Z.shiftl_spec by (done || lia).
  destruct (Z.ltb_spec i (64 * Z.of_nat nw)); [|lia]. cbn [andb]. subst f. cbn beta zeta.
  pose proof (Z.div_mod i 64 ltac:(lia)) as Hdi. pose proof (Z.mod_pos_bound i 64 ltac:(lia)) as Hmi.
  assert (0 <= i / 64) by (apply Z.div_pos; lia). set (iq := i / 64) in *. set (ir := i mod 64) in *.
  assert (forall k t, 0 <= t < 64 -> Z.testbit (if (0 <=? k) then get a (Z.to_nat k) else 0) t
                      = Z.testbit (val 64 a) (64 * k + t)) as Hbit.
  { intros k t Ht. destruct (Z.leb_spec 0 k); [by rewrite get_bit|].
    by rewrite Z.testbit_0_l, Z.testbit_neg_r by lia. }
  replace (if (Z.to_nat q <=? Z.to_nat iq)%nat then _ else 0)
    with (if 0 <=? iq - q then get a (Z.to_nat (iq - q)) else 0).
  2: { destruct (Z.leb_spec 0 (iq - q)), (Nat.leb_spec (Z.to_nat q) (Z.to_nat iq)); try lia; try done; f_equal; lia. }
  replace (if (Z.to_nat q <? Z.to_nat iq)%nat then _ else 0)
    with (if 0 <=? iq - q - 1 then get a (Z.to_nat (iq - q - 1)) else 0).
  2: { destruct (Z.leb_spec 0 (iq - q - 1)), (Nat.ltb_spec (Z.to_nat q) (Z.to_nat iq)); try lia; try done; f_equal; lia. }
  destruct (Z.eqb_spec r 0).
  - rewrite Hbit by lia. f_equal. lia.
  - rewrite funnel_left by (auto with word; lia). destruct (Z.leb_spec r ir); rewrite Hbit by lia; f_equal; lia.
Qed.

(** [shr_n] shifts the words followed by infinitely many [fill] words. *)
Lemma shr_n_spec a s nw (neg : bool) : words 64 a -> length a = nw -> 0 <= s ->
  let r := shr_n a s nw (if neg then UINT64_MAX else 0) in
  words 64 r /\ length r = nw /\
  forall i, 0 <= i < 64 * Z.of_nat nw ->
    Z.testbit (val 64 r) i = if i + s <? 64 * Z.of_nat nw then Z.testbit (val 64 a) (i + s) else neg.
Proof.
  intros Ha Hl Hs. unfold shr_n, WORD_SIZE. set (fill := if neg then _ else 0). set (f := fun i : nat => _).
  assert (in_range 64 fill) as Hfr by (subst fill; destruct neg; [apply UINT64_MAX_range|auto with word]).
  assert (forall t, 0 <= t < 64 -> Z.testbit fill t = neg) as Hfill.
  { intros t Ht. subst fill. destruct neg; [|apply Z.testbit_0_l].
    change UINT64_MAX with (Z.ones 64). by apply Z.ones_spec_low. }
  pose proof (Z.div_mod s 64 ltac:(lia)) as Hd. pose proof (Z.mod_pos_bound s 64 ltac:(lia)) as Hm.
  assert (0 <= s / 64) by (apply Z.div_pos; lia). set (q := s / 64) in *. set (r := s mod 64) in *.
  assert (forall b k, in_range 64 (if b : bool then get a k else fill)) as Hg by (intros [] ?; auto with word).
  assert (forall k, (k < nw)%nat -> in_range 64 (f k)) as Hf.
  { intros k Hk. subst f. cbn beta zeta. destruct (Z.eqb_spec r 0); auto with word. }
  destruct (map_seq_words f nw Hf) as [W L]. split; [done|]. split; [done|].
  intros i Hi. rewrite val_map_testbit by (done || lia). subst f. cbn beta zeta.
  pose proof (Z.div_mod i 64 ltac:(lia)) as Hdi. pose proof (Z.mod_pos_bound i 64 ltac:(lia)) as Hmi.
  assert (0 <= i / 64) by (apply Z.div_pos; lia). set (iq := i / 64) in *. set (ir := i mod 64) in *.
  assert (forall k t, 0 <= t < 64 -> 0 <= k -> Z.testbit (if (Z.to_nat k <? nw)%nat then get a (Z.to_nat k) else fill) t
            = if 64 * k + t <? 64 * Z.of_nat nw then Z.testbit (val 64 a) (64 * k + t) else neg) as Hbit.
  { intros k t Ht Hk. destruct (Nat.ltb_spec (Z.to_nat k) nw), (Z.ltb_spec (64 * k + t) (64 * Z.of_nat nw)); try lia; [by rewrite get_bit|by apply Hfill]. }
  replace (Z.to_nat iq + Z.to_nat q)%nat with (Z.to_nat (iq + q)) by lia.
  replace (Z.to_nat (iq + q) + 1)%nat with (Z.to_nat (iq + q + 1)) by lia.
  destruct (Z.eqb_spec r 0).
  - rewrite Hbit by lia. replace (i + s) with (64 * (iq + q) + ir) by lia. done.
  - rewrite funnel_right by (auto with word; lia). destruct (Z.ltb_spec (ir + r) 64).
    + rewrite Hbit by lia. replace (i + s) with (64 * (iq + q) + (ir + r)) by lia. done.
    + rewrite Hbit by lia. replace (i + s) with (64 * (iq + q + 1) + (ir + r - 64)) by lia. done.
Qed.

(** ** The exported operations *)

Lemma shiftl_clip n v k : 0 < n -> 0 <= k -> uw n (Z.shiftl v (Z.min k n)) = uw n (Z.shiftl v k).
Proof.
  intros Hn Hk. destruct (Z.le_gt_cases k n); [by rewrite Z.min_l by lia|]. rewrite Z.min_r by lia.
  rewrite !Z.shiftl_mul_pow2 by lia.
  transitivity 0; [|symmetry]; apply uw_unique; auto with word.
  - exists v. lia.
  - exists (v * 2 ^ (k - n)). replace k with (k - n + n) at 1 by lia. rewrite Z.pow_add_r by lia. lia.
Qed.

(** The bits of a small integer above its width are its sign. *)
Lemma sign_bits n v i : 0 <= n -> - 2 ^ n <= v < 2 ^ n -> n <= i -> Z.testbit v i = (v <? 0).
Proof.
  intros Hn Hv Hi. destruct (Z.ltb_spec v 0).
  - rewrite <- (Z.lnot_involutive v), Z.lnot_spec by lia.
    rewrite (testbit_high n); [done| |done]. unfold in_range, Z.lnot. lia.
  - apply (testbit_high n); [split; lia|done].
Qed.

Lemma shiftr_clip n v k : 0 < n -> 0 <= k -> - 2 ^ n <= v < 2 ^ n ->
  uw n (Z.shiftr v (Z.min k n)) = uw n (Z.shiftr v k).
Proof.
  intros Hn Hk Hv. destruct (Z.le_gt_cases k n); [by rewrite Z.min_l by lia|]. rewrite Z.min_r by lia.
  f_equal. apply Z.bits_inj'. intros i Hi. rewrite !Z.shiftr_spec by lia.
  by rewrite !(sign_bits n) by lia.
Qed.

Lemma ival_range s n bs : 0 < n -> - 2 ^ n <= ival s n bs < 2 ^ n.
Proof.
  intros Hn. pose proof (pow2_half n Hn). pose proof (pow2_pos (n - 1) ltac:(lia)).
  destruct s; cbn [ival].
  - pose proof (rds_range n bs Hn). lia.
  - pose proof (rd_range n bs ltac:(lia)) as [? ?]. lia.
Qed.

Theorem APInt_shl_correct n pa pb pr : 0 < n < 2 ^ 32 -> buf n pa -> buf n pb ->
  APInt_shl n pa pb pr = put n pr (uw n (Z.shiftl (rd n pa) (rd n pb))).
Proof.
  intros Hn Hpa Hpb. destruct (load_spec pa n) as (La & Wa & Va); auto; [lia|].
  destruct (load_spec pb n) as (Lb & Wb & Vb); auto; [lia|]. pose proof (nwords_bounds n ltac:(lia)).
  pose proof (rd_range n pb ltac:(lia)) as [? ?].
  unfold APInt_shl. rewrite extract_shift_spec, Vb by (done || lia).
  destruct (shl_n_spec (load pa n) (Z.min (rd n pb) n) _ Wa La ltac:(lia)) as (S1 & S2 & S3).
  rewrite store_masked by (done || lia). rewrite S3, narrow_words, Va by lia. f_equal. apply shiftl_clip; lia.
Qed.

Theorem APInt_shr_correct n pa pb pr is_signed : 0 < n < 2 ^ 32 -> buf n pa -> buf n pb ->
  APInt_shr n pa pb pr is_signed = put n pr (uw n (Z.shiftr (ival is_signed n pa) (rd n pb))).
Proof.
  intros Hn Hpa Hpb. destruct (load_spec pa n) as (La & Wa & Va); auto; [lia|].
  destruct (load_spec pb n) as (Lb & Wb & Vb); auto; [lia|]. pose proof (nwords_bounds n ltac:(lia)) as [? Hnw].
  pose proof (rd_range n pb ltac:(lia)) as [? ?]. pose proof (rd_range n pa ltac:(lia)) as Ra.
  unfold APInt_shr. rewrite extract_shift_spec, Vb by (done || lia).
  rewrite <- shiftr_clip by (try apply ival_range; lia). set (s := Z.min (rd n pb) n).
  rewrite is_negative_load by (done || lia). set (neg := is_signed && _).
  set (a := if neg then extend (load pa n) n _ _ else _).
  assert (words 64 a /\ length a = APINT_NWORDS n /\ val 64 a = uw (64 * Z.of_nat (APINT_NWORDS n)) (ival is_signed n pa)
          /\ neg = (ival is_signed n pa <? 0)) as (A1 & A2 & A3 & A4).
  { subst a neg. destruct is_signed; cbn [andb ival].
    - destruct (Z.ltb_spec (rds n pa) 0).
      + destruct (extend_spec (load pa n) n (APINT_NWORDS n) true) as (E1 & E2 & E3); rewrite ?Va; auto; [lia|].
        split; [done|]. split; [done|]. split; [|done]. rewrite E3, Va. unfold rd. by rewrite sw_uw.
      + split; [done|]. split; [done|]. split; [|done]. rewrite Va, <- (rd_rds n pa) by lia.
        rewrite rds_rd in *. destruct (Z.ltb_spec (rd n pa) (2 ^ (n - 1))); [|unfold in_range in Ra; lia].
        rewrite !uw_small; [done| |exact Ra]. destruct Ra. split; [done|]. eapply Z.lt_le_trans; [done|].
        apply Z.pow_le_mono_r; lia.
    - split; [done|]. split; [done|]. split; [|destruct Ra; destruct (Z.ltb_spec (rd n pa) 0); [lia|done]].
      rewrite Va, uw_small; [done|]. destruct Ra. split; [done|]. eapply Z.lt_le_trans; [done|].
      apply Z.pow_le_mono_r; lia. }
  destruct (shr_n_spec a s _ neg A1 A2 ltac:(lia)) as (S1 & S2 & S3).
  rewrite store_masked by (done || lia). f_equal. apply (bits_ext n); [lia|auto with word|auto with word|].
  intros i Hi. rewrite !testbit_uw, S3, Z.shiftr_spec, A3, A4, testbit_uw by lia. f_equal.
  destruct (Z.ltb_spec (i + s) (64 * Z.of_nat (APINT_NWORDS n))); [done|].
  symmetry. apply (sign_bits n); [lia|apply ival_range; lia|lia].
Qed.

Lemma count_rd n pa c : 0 < n -> buf n pa ->
  trailing n c (rd n pa) (APInt_countr n pa c) /\ leading n c (rd n pa) (APInt_countl n pa c).
Proof.
  intros Hn Hpa. destruct (load_spec pa n) as (La & Wa & Va); auto.
  pose proof (rd_range n pa ltac:(lia)). rewrite <- Va in *. split; [by apply countr_spec|by apply countl_spec].
Qed.

Theorem APInt_countr_correct n pa count_ones : 0 < n -> buf n pa ->
  trailing n count_ones (rd n pa) (APInt_countr n pa count_ones).
Proof. intros. by apply count_rd. Qed.

Theorem APInt_countl_correct n pa count_ones : 0 < n -> buf n pa ->
  leading n count_ones (rd n pa) (APInt_countl n pa count_ones).
Proof. intros. by apply count_rd. Qed.

Theorem APInt_popcount_correct n pa : 0 < n -> buf n pa ->
  APInt_popcount n pa = ones_below (rd n pa) (Z.to_nat n).
Proof.
  intros Hn Hpa. destruct (load_spec pa n) as (La & Wa & Va); auto. pose proof (nwords_bounds n Hn).
  unfold APInt_popcount. rewrite (popcount_words _ (64 * APINT_NWORDS n)), Va by (done || lia).
  replace (64 * APINT_NWORDS n)%nat with (Z.to_nat n + (64 * APINT_NWORDS n - Z.to_nat n))%nat by lia.
  rewrite ones_below_shift, (ones_below_0 (Z.shiftr _ _)); [lia|]. intros i Hi.
  rewrite Z.shiftr_spec by lia. apply (testbit_high n); [apply rd_range; lia|lia].
Qed.

(** ** Bitwise operations *)

Lemma zip_words (f : Z -> Z -> Z) (g : bool -> bool -> bool) a b :
  (forall x y i, Z.testbit (f x y) i = g (Z.testbit x i) (Z.testbit y i)) ->
  (forall x y, in_range 64 x -> in_range 64 y -> in_range 64 (f x y)) ->
  (forall x y w, 0 <= w -> in_range w x -> in_range w y -> in_range w (f x y)) ->
  words 64 a -> words 64 b -> length a = length b ->
  words 64 (zip_with f a b) /\ length (zip_with f a b) = length a /\ val 64 (zip_with f a b) = f (val 64 a) (val 64 b).
Proof.
  intros Hf Hr Hrw Ha Hb Hl. assert (words 64 (zip_with f a b)) as Hw.
  { clear Hl. revert b Hb. induction Ha as [|x a Hx Ha IH]; intros b Hb; [constructor|].
    destruct Hb as [|y b Hy Hb]; [constructor|]. cbn. constructor; [by apply Hr|by apply IH]. }
  split; [done|]. assert (length (zip_with f a b) = length a) as Hlen by (rewrite length_zip_with; lia).
  split; [done|]. pose proof (val_range 64 _ ltac:(lia) Ha). pose proof (val_range 64 _ ltac:(lia) Hb) as Hvb.
  rewrite <- Hl in Hvb. pose proof (val_range 64 _ ltac:(lia) Hw) as Hvw. rewrite Hlen in Hvw.
  apply (bits_ext (64 * Z.of_nat (length a))); [lia|done|by apply Hrw; [lia| |]|]. intros i Hi.
  pose proof (Z.div_mod i 64 ltac:(lia)) as Hd. pose proof (Z.mod_pos_bound i 64 ltac:(lia)).
  assert (0 <= i / 64 < Z.of_nat (length a)) by (split; [apply Z.div_pos; lia|apply Z.div_lt_upper_bound; lia]).
  rewrite Hf, Hd. rewrite <- !(get_bit _ (i / 64)) by (done || lia). rewrite <- Hf. f_equal.
  apply lookup_get. rewrite lookup_zip_with, !get_lookup by lia. done.
Qed.

Definition bitop_spec (n : Z) (pa pb pr : list Z) (out : list Z) (f : Z -> Z -> Z) : Prop :=
  out = put n pr (f (rd n pa) (rd n pb)) /\ rd n out = f (rd n pa) (rd n pb).

Lemma bitop_correct (f : Z -> Z -> Z) (g : bool -> bool -> bool) n pa pb pr : 0 < n -> buf n pa -> buf n pb ->
  (forall x y i, Z.testbit (f x y) i = g (Z.testbit x i) (Z.testbit y i)) ->
  (forall x y w, 0 <= w -> in_range w x -> in_range w y -> in_range w (f x y)) ->
  bitop_spec n pa pb pr (store pr (zip_with f (load pa n) (load pb n)) n) f.
Proof.
  intros Hn Hpa Hpb Hf Hr. destruct (load_spec pa n) as (La & Wa & Va); auto.
  destruct (load_spec pb n) as (Lb & Wb & Vb); auto.
  destruct (zip_words f g _ _ Hf ltac:(intros; by apply Hr; [lia| |]) Hr Wa Wb ltac:(congruence)) as (Z1 & Z2 & Z3).
  assert (store pr (zip_with f (load pa n) (load pb n)) n = put n pr (f (rd n pa) (rd n pb))) as E
    by (rewrite store_spec by (done || congruence); by rewrite Z3, Va, Vb).
  split; [done|]. rewrite E, rd_put by done. apply uw_small, Hr; [lia|apply rd_range; lia|apply rd_range; lia].
Qed.

Lemma APInt_bitwise_correct n pa pb pr : 0 < n -> buf n pa -> buf n pb ->
  bitop_spec n pa pb pr (APInt_and n pa pb pr) Z.land /\
  bitop_spec n pa pb pr (APInt_or n pa pb pr) Z.lor /\
  bitop_spec n pa pb pr (APInt_xor n pa pb pr) Z.lxor.
Proof.
  intros. split; [|split].
  - apply (bitop_correct Z.land andb); auto using Z.land_spec, in_range_land.
  - apply (bitop_correct Z.lor orb); auto using Z.lor_spec, in_range_lor.
  - apply (bitop_correct Z.lxor xorb); auto using Z.lxor_spec, in_range_lxor.
Qed.

Theorem APInt_not_correct n pa pr : 0 < n -> buf n pa ->
  APInt_not n pa pr = put n pr (uw n (Z.lnot (rd n pa))).
Proof.
  intros Hn Hpa. destruct (load_spec pa n) as (La & Wa & Va); auto. pose proof (nwords_bounds n Hn).
  pose proof (addend_words true _ Wa) as Wn. unfold APInt_not. 
  rewrite store_masked; [|done|by rewrite length_map|done].
  rewrite lnot_words_val, Va, La by done. f_equal.
  rewrite uw_lnot by (apply rd_range; lia). pose proof (rd_range n pa ltac:(lia)) as [? ?].
  apply uw_unique; [unfold in_range; lia|]. exists (2 ^ (64 * Z.of_nat (APINT_NWORDS n) - n) - 1).
  rewrite Z.mul_sub_distr_r, <- Z.pow_add_r by lia. replace (64 * _ - n + n) with (64 * Z.of_nat (APINT_NWORDS n)) by lia. lia.
Qed.
