(* ===== verification/APIntDiv.v ===== *)
(** * Division of src/src/APInt.c: the shift-and-subtract loop computes the
    quotient and remainder, unsigned and signed, and division errors are
    raised exactly when Julia's are. *)
From S2P Require Import Prelude APInt APIntFacts APIntOps APIntArith APIntBits.

(** ** Word-level steps *)

Lemma land1_testbit x j : 0 <= j -> Z.land (Z.shiftr x j) 1 = b2z (Z.testbit x j).
Proof.
  intros Hj. change 1 with (Z.ones 1). rewrite Z.land_ones, Z.shiftr_div_pow2 by lia.
  change (2 ^ 1) with 2. rewrite <- Z.testbit_spec' by lia. by destruct (Z.testbit x j).
Qed.

Lemma lor_bit x j : 0 <= j -> Z.testbit x j = false -> Z.lor x (2 ^ j) = x + 2 ^ j.
Proof.
  intros Hj Hx. rewrite <- Z.shiftl_1_l. symmetry.
  rewrite <- Z.lxor_lor, <- Z.add_nocarry_lxor; [done| |];
    apply Z.bits_inj'; intros i Hi; rewrite Z.land_spec, Z.testbit_0_l, Z.shiftl_1_l, Z.pow2_bits_eqb by lia;
    (destruct (Z.eqb_spec j i) as [->|]; [by rewrite Hx|by rewrite andb_false_r]).
Qed.

Lemma val_insert l k y : (k < length l)%nat ->
  val 64 (<[k := y]> l) = val 64 l + (y - get l k) * 2 ^ (64 * Z.of_nat k).
Proof.
  revert k. induction l as [|x l IH]; intros [|k] Hk; cbn in Hk; try lia.
  - cbn. lia.
  - change (<[S k := y]> (x :: l)) with (x :: <[k := y]> l). cbn [val]. rewrite IH by lia.
    rewrite Nat2Z.inj_succ, Z.mul_succ_r, Z.pow_add_r by lia. unfold get. cbn [nth]. ring.
Qed.

Lemma words_insert w l k y : words w l -> in_range w y -> words w (<[k := y]> l).
Proof. intros. by apply Forall_insert. Qed.

(** Splitting a bit index into word and bit. *)
Lemma bit_index i : Z.of_nat i = 64 * Z.of_nat (i / 64) + Z.of_nat (i mod 64) /\ 0 <= Z.of_nat (i mod 64) < 64.
Proof. pose proof (Nat.div_mod_eq i 64). pose proof (Nat.mod_upper_bound i 64). lia. Qed.

(** Setting a bit that is clear adds its weight. *)
Lemma set_bit_spec q i : words 64 q -> (i < 64 * length q)%nat -> Z.testbit (val 64 q) (Z.of_nat i) = false ->
  let q' := <[(i / 64)%nat := Z.lor (get q (i / 64)) (u64 (Z.shiftl 1 (Z.of_nat (i `mod` 64))))]> q in
  words 64 q' /\ length q' = length q /\ val 64 q' = val 64 q + 2 ^ Z.of_nat i.
Proof.
  intros Hq Hi Hb q'. subst q'. pose proof (bit_index i) as [Hs Hj].
  assert (i / 64 < length q)%nat by (apply Nat.Div0.div_lt_upper_bound; lia).
  rewrite Hs, val_testbit in Hb by (done || lia).
  set (j := Z.of_nat (i mod 64)) in *. pose proof (pow2_pos j ltac:(lia)).
  assert (2 ^ j < 2 ^ 64) by (apply Z.pow_lt_mono_r; lia).
  rewrite Z.shiftl_1_l, (uw_small 64 (2 ^ j)) by (unfold in_range; lia).
  split; [|split; [apply length_insert|]].
  - apply words_insert; [done|]. apply in_range_lor; [lia|auto with word|unfold in_range; lia].
  - rewrite val_insert, lor_bit by (done || lia). rewrite Hs. rewrite Z.pow_add_r by lia. ring.
Qed.

(** [rem <<= 1] *)
Lemma shl1_word x c : in_range 64 x -> 0 <= c <= 1 ->
  let y := Z.lor (u64 (Z.shiftl x 1)) c in
  in_range 64 y /\ y = 2 * x + c - 2 ^ 64 * (x / 2 ^ 63).
Proof.
  intros [Hx1 Hx2] Hc y.
  assert (u64 (Z.shiftl x 1) = Z.shiftl (uw 63 x) 1) as E.
  { rewrite !Z.shiftl_mul_pow2 by lia. unfold uw. change (2 ^ 64) with (2 ^ 63 * 2 ^ 1).
    by rewrite Z.mul_mod_distr_r by lia. }
  subst y. rewrite E, Z.lor_comm, lor_add by (unfold in_range; lia).
  pose proof (uw_div_mod 63 x ltac:(lia)) as D. pose proof (uw_range 63 x ltac:(lia)) as [R1 R2].
  set (r := uw 63 x) in *. set (d := x / 2 ^ 63) in *. clearbody r d.
  change (2 ^ 63) with 9223372036854775808 in *. unfold in_range.
  change (2 ^ 64) with 18446744073709551616 in *. change (2 ^ 1) with 2. lia.
Qed.

Lemma shl1_tail_spec p l : in_range 64 p -> words 64 l ->
  words 64 (shl1_tail p l) /\ length (shl1_tail p l) = length l /\
  val 64 (shl1_tail p l) = uw (64 * Z.of_nat (length l)) (2 * val 64 l + p / 2 ^ 63).
Proof.
  intros Hp Hl. revert p Hp. induction Hl as [|x l Hx Hl IH]; intros p Hp.
  - split; [constructor|]. split; [done|]. unfold uw. by rewrite Z.mod_1_r.
  - cbn [shl1_tail length val]. destruct (IH x Hx) as (I1 & I2 & I3).
    rewrite Z.shiftr_div_pow2 by lia.
    assert (0 <= p / 2 ^ 63 <= 1) as Hc.
    { destruct Hp. split; [apply Z.div_pos; lia|]. apply Z.lt_succ_r, Z.div_lt_upper_bound; lia. }
    destruct (shl1_word x (p / 2 ^ 63) Hx Hc) as [Y1 Y2]. set (y := Z.lor _ _) in *.
    split; [by constructor|]. split; [lia|]. rewrite I3.
    replace (64 * Z.of_nat (S (length l))) with (64 + 64 * Z.of_nat (length l)) by lia.
    unfold uw. rewrite (Z.pow_add_r 2 64) by lia. pose proof (pow2_pos (64 * Z.of_nat (length l)) ltac:(lia)).
    rewrite Z.rem_mul_r by lia.
    replace (2 * (x + 2 ^ 64 * val 64 l) + p / 2 ^ 63) with (y + (2 * val 64 l + x / 2 ^ 63) * 2 ^ 64) by lia.
    destruct Y1. by rewrite Z_mod_plus_full, Z_div_plus_full, (Z.mod_small y), (Z.div_small y), Z.add_0_l by lia.
Qed.

(** Shift left by one and bring in the low bit. *)
Lemma shl1_in_spec rem c : words 64 rem -> (0 < length rem)%nat -> 0 <= c <= 1 ->
  2 * val 64 rem + 1 < 2 ^ (64 * Z.of_nat (length rem)) ->
  let rem1 := shl1_words rem in
  let rem2 := <[0%nat := Z.lor (get rem1 0) c]> rem1 in
  words 64 rem2 /\ length rem2 = length rem /\ val 64 rem2 = 2 * val 64 rem + c.
Proof.
  intros Hr Hl Hc Hb. cbv zeta. destruct Hr as [|x l Hx Hr]; [cbn in Hl; lia|].
  cbn [shl1_words get nth]. change (<[0%nat := ?y]> (?z :: ?t)) with (y :: t).
  destruct (shl1_word x c Hx Hc) as [Y1 Y2]. cbn [get nth].
  destruct (shl1_tail_spec x l Hx Hr) as (I1 & I2 & I3).
  set (y := Z.lor _ _) in *. split; [by constructor|]. cbn [val length] in *. split; [lia|]. rewrite I3.
  pose proof (pow2_pos (64 * Z.of_nat (length l)) ltac:(lia)).
  replace (64 * Z.of_nat (S (length l))) with (64 + 64 * Z.of_nat (length l)) in Hb by lia.
  rewrite Z.pow_add_r in Hb by lia. pose proof (val_range 64 l ltac:(lia) Hr).
  set (P := 2 ^ (64 * Z.of_nat (length l))) in *. set (d := x / 2 ^ 63) in *. destruct Hx.
  assert (0 <= d) by (apply Z.div_pos; lia). destruct Y1.
  change (2 ^ 64) with 18446744073709551616 in *.
  rewrite uw_small; [lia|]. unfold in_range. fold P. lia.
Qed.

Lemma compare_le x y : (0 <=? match x ?= y with Lt => -1 | Eq => 0 | Gt => 1 end) = (y <=? x).
Proof. destruct (Z.compare_spec x y); destruct (Z.leb_spec y x); try lia; done. Qed.

(** ** The long-division loop *)

Section Udivrem.
Context (a b : list Z) (n : Z) (nw : nat).
Context (Hn : 0 < n) (Hnw : n <= 64 * Z.of_nat nw) (Hnw0 : (0 < nw)%nat).
Context (Ha : words 64 a) (Hb : words 64 b) (La : length a = nw) (Lb : length b = nw).
Context (HA : val 64 a < 2 ^ n) (HB : 0 < val 64 b < 2 ^ n).

Let A := val 64 a.
Let B := val 64 b.

(** After the bits from [i] up have been processed: the remainder and the
    quotient of the processed prefix of the dividend. *)
Definition udivrem_inv (i : nat) (st : list Z * list Z) : Prop :=
  words 64 st.1 /\ length st.1 = nw /\ words 64 st.2 /\ length st.2 = nw /\
  val 64 st.2 = (A / 2 ^ Z.of_nat i) mod B /\
  val 64 st.1 = A / 2 ^ Z.of_nat i / B * 2 ^ Z.of_nat i.

Lemma prefix_bit i : A / 2 ^ Z.of_nat i = 2 * (A / 2 ^ Z.of_nat (S i)) + b2z (Z.testbit A (Z.of_nat i)).
Proof.
  replace (2 ^ Z.of_nat (S i)) with (2 ^ Z.of_nat i * 2) by (rewrite Nat2Z.inj_succ, Z.pow_succ_r; lia).
  rewrite <- Z.div_div by (pose proof (pow2_pos (Z.of_nat i) ltac:(lia)); lia).
  pose proof (Z.div_mod (A / 2 ^ Z.of_nat i) 2 ltac:(lia)) as H.
  rewrite <- Z.testbit_spec' in H by lia. destruct (Z.testbit A (Z.of_nat i)); cbn in *; lia.
Qed.

Lemma abit_spec i : Z.land (Z.shiftr (get a (i / 64)) (Z.of_nat (i `mod` 64))) 1 = b2z (Z.testbit A (Z.of_nat i)).
Proof.
  pose proof (bit_index i) as [Hs Hj]. rewrite land1_testbit by lia.
  unfold A. rewrite Hs. by rewrite val_testbit by (done || lia).
Qed.

(** A multiple of [2^(i+1)] has bit [i] clear. *)
Lemma multiple_bit x i : Z.testbit (x * 2 ^ Z.of_nat (S i)) (Z.of_nat i) = false.
Proof. apply Z.mul_pow2_bits_low. lia. Qed.

Lemma div_bit p B' c : 0 < B' -> 0 <= p -> 0 <= c <= 1 ->
  let r := 2 * (p mod B') + c in
  (2 * p + c) mod B' = (if B' <=? r then r - B' else r) /\
  (2 * p + c) / B' = 2 * (p / B') + (if B' <=? r then 1 else 0).
Proof.
  intros HB' Hp Hc r. pose proof (Z.div_mod p B' ltac:(lia)). pose proof (Z.mod_pos_bound p B' HB').
  subst r. set (m := p mod B') in *. set (q := p / B') in *. clearbody m q.
  split; symmetry; zcases.
  - apply (Z.mod_unique_pos _ _ (2 * q + 1)); lia.
  - apply (Z.mod_unique_pos _ _ (2 * q)); lia.
  - apply (Z.div_unique_pos _ _ _ (2 * m + c - B')); lia.
  - apply (Z.div_unique_pos _ _ _ (2 * m + c)); lia.
Qed.

Lemma udivrem_step_inv i st : Z.of_nat (S i) <= n ->
  udivrem_inv (S i) st -> udivrem_inv i (udivrem_step a b nw i st).
Proof.
  intros Hi (Wq & Lq & Wr & Lr & Vr & Vq). destruct st as [q rem]. cbn [fst snd] in *.
  unfold udivrem_inv, udivrem_step. rewrite abit_spec, prefix_bit.
  assert (0 <= b2z (Z.testbit A (Z.of_nat i)) <= 1) as Hc by (destruct (Z.testbit _ _); cbn; lia).
  set (c := b2z _) in *. set (p := A / 2 ^ Z.of_nat (S i)) in *.
  assert (0 <= A) by (apply (val_range 64); [lia|done]).
  assert (0 <= p < 2 ^ (n - Z.of_nat (S i))) as Hp.
  { split; [apply Z.div_pos; [done|apply pow2_pos; lia]|].
    apply Z.div_lt_upper_bound; [apply pow2_pos; lia|]. rewrite <- Z.pow_add_r by lia.
    by replace (Z.of_nat (S i) + _) with n by lia. }
  destruct (div_bit p B c ltac:(lia) ltac:(lia) Hc) as [Dm Dd].
  pose proof (Z.mod_le p B ltac:(lia) ltac:(subst B; lia)).
  destruct (shl1_in_spec rem c Wr ltac:(lia) Hc) as (S1 & S2 & S3).
  { rewrite Lr, Vr. fold p. assert (2 ^ n <= 2 ^ (64 * Z.of_nat nw)) by (apply Z.pow_le_mono_r; lia).
    assert (2 * 2 ^ (n - Z.of_nat (S i)) <= 2 ^ n); [|lia].
    rewrite <- Z.pow_succ_r by lia. apply Z.pow_le_mono_r; lia. }
  rewrite Vr in S3. fold p in S3. set (rem2 := <[0%nat := _]> _) in *. rewrite Lr in S2.
  assert (0 <= 2 * (p mod B) + c) by (pose proof (Z.mod_pos_bound p B ltac:(subst B; lia)); lia).
  rewrite compare_words_all, S3, compare_le by done. fold B.
  rewrite Nat2Z.inj_succ, Z.pow_succ_r in Vq by lia.
  destruct (Z.leb_spec B (2 * (p mod B) + c)) as [Hle|Hle]; cbn [fst snd]; rewrite Dm, Dd.
  2: { repeat (split; [done|]). rewrite Vq. ring. }
  destruct (addsub_words_spec true rem2 b ltac:(congruence) S1 Hb) as (T1 & T2 & T3).
  destruct (set_bit_spec q i Wq) as (Q1 & Q2 & Q3); [rewrite Lq; lia| |].
  { rewrite Vq, Z.mul_assoc, <- Z.mul_assoc, <- Z.pow_succ_r, <- Nat2Z.inj_succ by lia. apply multiple_bit. }
  split; [done|]. split; [congruence|]. split; [done|]. split; [unfold sub_words; congruence|].
  unfold sub_words. rewrite T3, S3, S2, Q3, Vq. fold B. split; [|ring].
  apply uw_small. unfold in_range. pose proof (Z.mod_pos_bound p B ltac:(unfold B; lia)).
  pose proof (val_range 64 b ltac:(lia) Hb) as Hbr. rewrite Lb in Hbr. fold B in Hbr. lia.
Qed.

Lemma udivrem_loop_inv i st : Z.of_nat i <= n ->
  udivrem_inv i st -> udivrem_inv 0 (udivrem_loop a b nw i st).
Proof.
  revert st. induction i as [|i IH]; intros st Hi Hst; [done|]. cbn [udivrem_loop].
  apply IH; [lia|]. by apply udivrem_step_inv.
Qed.

Lemma udivrem_spec :
  let '(q, r) := udivrem a b n nw in
  words 64 q /\ length q = nw /\ words 64 r /\ length r = nw /\
  val 64 q = A / B /\ val 64 r = A mod B.
Proof.
  assert (0 <= A) by (apply (val_range 64); [lia|done]).
  destruct (udivrem_loop_inv (Z.to_nat n) (replicate nw 0, replicate nw 0)) as (H1 & H2 & H3 & H4 & H5 & H6); [lia| |].
  { unfold udivrem_inv. cbn [fst snd]. rewrite !length_replicate, val_repeat0, Z2Nat.id by lia.
    rewrite (Z.div_small A) by (unfold A in *; lia). rewrite Z.mod_0_l, Z.div_0_l by (unfold B; lia).
    auto 10 with word. }
  unfold udivrem. destruct (udivrem_loop _ _ _ _ _) as [q r]. cbn [fst snd] in *.
  rewrite Z.pow_0_r, Z.div_1_r in H5, H6. rewrite Z.mul_1_r in H6. auto 10.
Qed.
End Udivrem.

(** ** Signed operands *)

Lemma is_min_int_spec a n : 0 < n -> words 64 a -> length a = APINT_NWORDS n -> in_range n (val 64 a) ->
  is_min_int a n = (val 64 a =? 2 ^ (n - 1)).
Proof.
  intros Hn Ha Hl Hv. unfold is_min_int. rewrite is_negative_testbit by done.
  destruct (countr_spec a n false Hn Ha Hl Hv) as (T1 & T2 & T3). set (k := countr a n false) in *.
  pose proof (pow2_half n Hn). pose proof (pow2_pos (n - 1) ltac:(lia)).
  destruct (Z.eqb_spec (val 64 a) (2 ^ (n - 1))) as [E|E].
  - rewrite E in *. rewrite Z.pow2_bits_true by lia. cbn [andb]. apply Z.eqb_eq.
    destruct (Z.lt_trichotomy k (n - 1)) as [Hk|[Hk|Hk]]; [exfalso|done|exfalso].
    + specialize (T3 ltac:(lia)). rewrite Z.pow2_bits_false in T3 by lia. done.
    + specialize (T2 (n - 1) ltac:(lia)). rewrite Z.pow2_bits_true in T2 by lia. done.
  - destruct (Z.testbit (val 64 a) (n - 1)) eqn:Et; [|done]. cbn [andb]. apply Z.eqb_neq. intros Hk. apply E.
    apply (bits_ext n); [lia|done|unfold in_range; lia|]. intros i Hi.
    rewrite Z.pow2_bits_eqb by lia. destruct (Z.eqb_spec (n - 1) i) as [<-|]; [done|]. apply T2. lia.
Qed.

Lemma is_neg_one_spec a n : 0 < n -> words 64 a -> length a = APINT_NWORDS n -> in_range n (val 64 a) ->
  is_neg_one a n (APINT_NWORDS n) = (val 64 a =? 2 ^ n - 1).
Proof.
  intros Hn Ha Hl Hv. pose proof (nwords_bounds n Hn) as [Hw0 Hw].
  destruct (last_split a (APINT_NWORDS n - 1)) as (l0 & Heq & Hl0); [lia|].
  unfold is_neg_one. rewrite top_word_mask_ones by done. set (x := get a (_ - 1)) in *.
  set (r := n - _). set (k := (APINT_NWORDS n - 1)%nat) in *.
  assert (forallb (fun i => get a i =? UINT64_MAX) (seq 0 k) = (val 64 l0 =? 2 ^ (64 * Z.of_nat k) - 1)) as ->.
  { rewrite Heq in Ha. apply words_app in Ha as [Ha0 _].
    pose proof (existsb_all_eq UINT64_MAX l0 UINT64_MAX_range Ha0) as H.
    rewrite Hl0, val_replicate_max in H. rewrite <- (negb_involutive (val 64 l0 =? _)), <- H.
    pose proof (existsb_seq (fun x => negb (x =? UINT64_MAX)) a 0 k ltac:(lia)) as Hs.
    rewrite drop_0 in Hs. replace (take k a) with l0 in Hs by (rewrite Heq, take_app_length' by lia; done).
    rewrite <- Hs. generalize (seq 0 k). intros l. induction l as [|y l IH]; [done|]. cbn [forallb existsb].
    rewrite IH. by destruct (get a y =? UINT64_MAX). }
  assert (val 64 a = val 64 l0 + 2 ^ (64 * Z.of_nat k) * x) as Hva by (rewrite Heq, val_app, Hl0 by lia; cbn [val]; lia).
  assert (2 ^ n = 2 ^ (64 * Z.of_nat k) * 2 ^ r) as Hpn by (rewrite <- Z.pow_add_r by (subst r; lia); f_equal; subst r; lia).
  rewrite Heq in Ha. apply words_app in Ha as [Ha0 Hx]. apply Forall_cons in Hx as [[Hx1 Hx2] _].
  pose proof (val_range 64 l0 ltac:(lia) Ha0) as Hv0. rewrite Hl0 in Hv0.
  rewrite Z.ones_equiv. pose proof (pow2_pos (64 * Z.of_nat k) ltac:(lia)). rewrite Hva, Hpn.
  set (P := 2 ^ (64 * Z.of_nat k)) in *. set (R := 2 ^ r) in *. set (y := val 64 l0) in *.
  destruct (Z.eqb_spec y (P - 1)), (Z.eqb_spec x (Z.pred R)), (Z.eqb_spec (y + P * x) (P * R - 1)); try done; exfalso; nia.
Qed.

Lemma abs_words_spec n bs : 0 < n -> buf n bs ->
  let a := abs_words (load bs n) n (APINT_NWORDS n) (rds n bs <? 0) in
  words 64 a /\ length a = APINT_NWORDS n /\ val 64 a = Z.abs (rds n bs).
Proof.
  intros Hn Hb a. destruct (load_spec bs n) as (L & W & V); auto. subst a. unfold abs_words.
  pose proof (rd_range n bs ltac:(lia)) as [? ?]. pose proof (pow2_half n Hn).
  destruct (Z.ltb_spec (rds n bs) 0).
  - destruct (negate_words_spec _ W) as (N1 & N2 & N3).
    destruct (mask_top_spec (negate_words (load bs n)) n) as [M1 M2]; auto; [congruence|].
    split; [done|]. split; [by rewrite mask_top_length, N2|]. rewrite M2, N3, L, narrow_words, V by done.
    rewrite Z.abs_neq by lia. rewrite rds_rd in *. destruct (Z.ltb_spec (rd n bs) (2 ^ (n - 1))); [lia|].
    apply uw_unique; [unfold in_range; lia|]. exists (-1). lia.
  - split; [done|]. split; [done|]. rewrite V, rds_rd in *. destruct (Z.ltb_spec (rd n bs) (2 ^ (n - 1))); lia.
Qed.

(** Conditional negation of a masked result. *)
Lemma negate_if_spec x n (neg : bool) : 0 < n -> words 64 x -> length x = APINT_NWORDS n -> in_range n (val 64 x) ->
  let y := if neg then mask_top (negate_words x) (APINT_NWORDS n) n else x in
  words 64 y /\ length y = APINT_NWORDS n /\ val 64 y = uw n (if neg then - val 64 x else val 64 x).
Proof.
  intros Hn W L V y. subst y. destruct neg; [|by rewrite uw_small].
  destruct (negate_words_spec _ W) as (N1 & N2 & N3).
  destruct (mask_top_spec (negate_words x) n) as [M1 M2]; auto; [congruence|].
  split; [done|]. split; [by rewrite mask_top_length, N2|]. by rewrite M2, N3, L, narrow_words.
Qed.

Lemma quot_abs a b : b <> 0 ->
  Z.quot a b = if negb (eqb (a <? 0) (b <? 0)) then - (Z.abs a / Z.abs b) else Z.abs a / Z.abs b.
Proof.
  intros Hb. rewrite Z.quot_div by done.
  destruct (Z.ltb_spec a 0), (Z.ltb_spec b 0); cbn [eqb negb];
    rewrite ?(Z.sgn_neg a), ?(Z.sgn_neg b), ?(Z.sgn_pos b) by lia; try lia.
  all: destruct (Z.eq_dec a 0) as [->|]; [rewrite Z.abs_0, Z.div_0_l by lia; lia|]; rewrite Z.sgn_pos by lia; lia.
Qed.

Lemma rem_abs a b : b <> 0 ->
  Z.rem a b = if a <? 0 then - (Z.abs a mod Z.abs b) else Z.abs a mod Z.abs b.
Proof.
  intros Hb. rewrite Z.rem_mod by done. destruct (Z.ltb_spec a 0); [rewrite Z.sgn_neg by lia; lia|].
  destruct (Z.eq_dec a 0) as [->|]; [rewrite Z.abs_0, Z.mod_0_l by lia; lia|]. rewrite Z.sgn_pos by lia. lia.
Qed.

Lemma sdivrem_spec n pa pb : 0 < n -> buf n pa -> buf n pb -> rds n pb <> 0 ->
  let '(q, r) := sdivrem (load pa n) (load pb n) n (APINT_NWORDS n) in
  words 64 q /\ length q = APINT_NWORDS n /\ words 64 r /\ length r = APINT_NWORDS n /\
  val 64 q = uw n (Z.quot (rds n pa) (rds n pb)) /\ val 64 r = uw n (Z.rem (rds n pa) (rds n pb)).
Proof.
  intros Hn Hpa Hpb Hb. unfold sdivrem. rewrite !is_negative_load by done.
  destruct (abs_words_spec n pa Hn Hpa) as (A1 & A2 & A3). destruct (abs_words_spec n pb Hn Hpb) as (B1 & B2 & B3).
  set (a := abs_words (load pa n) _ _ _) in *. set (b := abs_words (load pb n) _ _ _) in *.
  pose proof (rds_range n pa Hn). pose proof (rds_range n pb Hn). pose proof (pow2_half n Hn).
  pose proof (nwords_bounds n Hn).
  pose proof (udivrem_spec a b n (APINT_NWORDS n) ltac:(lia) ltac:(lia) ltac:(lia) A1 B1 A2 B2 ltac:(lia) ltac:(lia)) as U.
  destruct (udivrem a b n (APINT_NWORDS n)) as [q r]. destruct U as (Q1 & Q2 & R1 & R2 & Q3 & R3).
  rewrite A3, B3 in Q3, R3.
  set (X := rds n pa) in *. set (Y := rds n pb) in *.
  assert (0 <= Z.abs X / Z.abs Y <= Z.abs X) by (split; [apply Z.div_pos; lia|apply Z.div_le_upper_bound; nia]).
  pose proof (Z.mod_pos_bound (Z.abs X) (Z.abs Y) ltac:(lia)).
  destruct (negate_if_spec q n (negb (eqb (X <? 0) (Y <? 0))) Hn Q1 Q2 ltac:(unfold in_range; lia)) as (N1 & N2 & N3).
  destruct (negate_if_spec r n (X <? 0) Hn R1 R2 ltac:(unfold in_range; lia)) as (M1 & M2 & M3).
  rewrite quot_abs, rem_abs by done. rewrite Q3 in N3. rewrite R3 in M3.
  split; [exact N1|]. split; [exact N2|]. split; [exact M1|]. split; [exact M2|]. split; [exact N3|exact M3].
Qed.

(** ** The exported operations *)

(** The exact quotient or remainder, rounded toward zero. *)
Definition divrem_exact (want : divrem_out) (is_signed : bool) (n : Z) (pa pb : list Z) : Z :=
  match want with
  | WantQuot => Z.quot (ival is_signed n pa) (ival is_signed n pb)
  | WantRem => Z.rem (ival is_signed n pa) (ival is_signed n pb)
  end.

Lemma ival_zero s n bs : 0 < n -> (ival s n bs =? 0) = (rd n bs =? 0).
Proof.
  intros Hn. destruct s; [|done]. cbn [ival]. rewrite rds_rd.
  pose proof (rd_range n bs ltac:(lia)) as [? ?]. pose proof (pow2_half n Hn). pose proof (pow2_pos (n - 1) ltac:(lia)).
  destruct (Z.ltb_spec (rd n bs) (2 ^ (n - 1))); zcases; lia.
Qed.

Lemma quot_fits n (s : bool) x y : 0 < n -> y <> 0 ->
  (if s then - 2 ^ (n - 1) <= x < 2 ^ (n - 1) else 0 <= x < 2 ^ n) ->
  (if s then - 2 ^ (n - 1) <= y < 2 ^ (n - 1) else 0 <= y < 2 ^ n) ->
  fits s n (Z.quot x y) = negb (s && (x =? - 2 ^ (n - 1)) && (y =? -1)).
Proof.
  intros Hn Hy Hx Hyr. pose proof (pow2_half n Hn). pose proof (pow2_pos (n - 1) ltac:(lia)).
  rewrite quot_abs by done.
  assert (0 <= Z.abs x / Z.abs y <= Z.abs x) as Hq by (split; [apply Z.div_pos; lia|apply Z.div_le_upper_bound; nia]).
  assert (Z.abs y = 1 \/ x = 0 \/ Z.abs x / Z.abs y < Z.abs x) as Hlt.
  { destruct (Z.eq_dec (Z.abs y) 1); [auto|]. destruct (Z.eq_dec x 0); [auto|]. right; right. apply Z.div_lt; lia. }
  assert (Z.abs y = 1 -> Z.abs x / Z.abs y = Z.abs x) as H1 by (intros ->; apply Z.div_1_r).
  set (d := Z.abs x / Z.abs y) in *. clearbody d. unfold fits, in_rangeb.
  destruct s; cbn [andb negb]; destruct (Z.ltb_spec x 0), (Z.ltb_spec y 0); cbn [eqb negb]; zcases; cbn; lia.
Qed.

Lemma rem_fits n (s : bool) x y : 0 < n -> y <> 0 ->
  (if s then - 2 ^ (n - 1) <= x < 2 ^ (n - 1) else 0 <= x < 2 ^ n) ->
  fits s n (Z.rem x y) = true.
Proof.
  intros Hn Hy Hx. pose proof (pow2_half n Hn). rewrite rem_abs by done.
  pose proof (Z.mod_pos_bound (Z.abs x) (Z.abs y) ltac:(lia)). pose proof (Z.mod_le (Z.abs x) (Z.abs y) ltac:(lia) ltac:(lia)).
  unfold fits, in_rangeb. destruct s, (Z.ltb_spec x 0); zcases; cbn; lia.
Qed.

Lemma ival_bounds (s : bool) n bs : 0 < n ->
  if s then - 2 ^ (n - 1) <= ival s n bs < 2 ^ (n - 1) else 0 <= ival s n bs < 2 ^ n.
Proof. intros Hn. destruct s; [by apply rds_range|apply rd_range; lia]. Qed.

Lemma divrem_words n pa pb (s : bool) : 0 < n -> buf n pa -> buf n pb -> ival s n pb <> 0 ->
  let '(q, r) := if s then sdivrem (load pa n) (load pb n) n (APINT_NWORDS n)
                 else udivrem (load pa n) (load pb n) n (APINT_NWORDS n) in
  words 64 q /\ length q = APINT_NWORDS n /\ words 64 r /\ length r = APINT_NWORDS n /\
  val 64 q = uw n (Z.quot (ival s n pa) (ival s n pb)) /\ val 64 r = uw n (Z.rem (ival s n pa) (ival s n pb)).
Proof.
  intros Hn Hpa Hpb Hb. destruct s; [by apply sdivrem_spec|]. cbn [ival] in *.
  destruct (load_spec pa n) as (La & Wa & Va); auto. destruct (load_spec pb n) as (Lb & Wb & Vb); auto.
  pose proof (nwords_bounds n Hn). pose proof (rd_range n pa ltac:(lia)) as [? ?].
  pose proof (rd_range n pb ltac:(lia)) as [? ?].
  pose proof (udivrem_spec (load pa n) (load pb n) n (APINT_NWORDS n) ltac:(lia) ltac:(lia) ltac:(lia) Wa Wb La Lb
    ltac:(lia) ltac:(lia)) as U.
  destruct (udivrem _ _ _ _) as [q r]. destruct U as (Q1 & Q2 & R1 & R2 & Q3 & R3).
  rewrite Va, Vb in Q3, R3. rewrite Z.quot_div_nonneg, Z.rem_mod_nonneg by lia.
  rewrite !uw_small; auto 10.
  - pose proof (Z.mod_pos_bound (rd n pa) (rd n pb) ltac:(lia)). unfold in_range. lia.
  - split; [apply Z.div_pos; lia|]. eapply Z.le_lt_trans; [apply (Z.div_le_upper_bound _ _ (rd n pa)); nia|done].
Qed.

Theorem APInt_divrem_correct n pa pb out want is_signed : 0 < n -> buf n pa -> buf n pb ->
  let v := divrem_exact want is_signed n pa pb in
  APInt_divrem n pa pb out want is_signed
  = if ival is_signed n pb =? 0 then (out, true) else (put n out (uw n v), negb (fits is_signed n v)).
Proof.
  intros Hn Hpa Hpb v. destruct (load_spec pa n) as (La & Wa & Va); auto.
  destruct (load_spec pb n) as (Lb & Wb & Vb); auto.
  unfold APInt_divrem. rewrite is_zero_spec, Vb, <- (ival_zero is_signed) by done.
  destruct (Z.eqb_spec (ival is_signed n pb) 0) as [|Hb]; [done|].
  pose proof (divrem_words n pa pb is_signed Hn Hpa Hpb Hb) as D.
  destruct (if is_signed then _ else _) as [q r]. destruct D as (Q1 & Q2 & R1 & R2 & Q3 & R3).
  rewrite is_min_int_spec, is_neg_one_spec by (rewrite ?Va, ?Vb; auto; apply rd_range; lia).
  pose proof (ival_bounds is_signed n pa Hn) as Bx. pose proof (ival_bounds is_signed n pb Hn) as By.
  rewrite !store_masked by done. rewrite Q3, R3, !uw_uw. f_equal; [by destruct want|].
  subst v. unfold divrem_exact. destruct want; [|rewrite rem_fits by done; by rewrite andb_false_r].
  rewrite quot_fits, negb_involutive, andb_true_r by done. rewrite Va, Vb.
  destruct is_signed; [|done]. cbn [andb ival] in *. rewrite !rds_rd.
  pose proof (rd_range n pa ltac:(lia)) as [? ?]. pose proof (rd_range n pb ltac:(lia)) as [? ?].
  pose proof (pow2_half n Hn). pose proof (pow2_pos (n - 1) ltac:(lia)).
  destruct (Z.ltb_spec (rd n pa) (2 ^ (n - 1))), (Z.ltb_spec (rd n pb) (2 ^ (n - 1))); zcases; cbn; lia.
Qed.
