(* ===== verification/APIntExt.v ===== *)
(** * Sign and zero extension, truncation, byte swapping and [flipsign] of
    src/src/APInt.c *)
From S2P Require Import Prelude APInt APIntFacts APIntOps APIntArith.

(** ** The last byte of a value *)

Lemma last_byte_spec byte r : in_range 8 byte -> 0 < r <= 8 ->
  (negb (Z.land byte (Z.shiftl 1 (r - 1)) =? 0) = (2 ^ (r - 1) <=? uw r byte)) /\
  (r < 8 -> Z.lor byte (u8 (Z.shiftl 0xFF r)) = uw r byte + (2 ^ 8 - 2 ^ r)) /\
  (r < 8 -> Z.land byte (u8 (Z.shiftr 0xFF (8 - r))) = uw r byte).
Proof.
  intros Hb Hr.
  assert (forall r, 0 <= r < 9 -> forall b, 0 <= b < 256 ->
    (r =? 0) || (eqb (negb (Z.land b (Z.shiftl 1 (r - 1)) =? 0)) (2 ^ (r - 1) <=? uw r b)
    && ((r =? 8) || (Z.lor b (u8 (Z.shiftl 0xFF r)) =? uw r b + (2 ^ 8 - 2 ^ r)))
    && ((r =? 8) || (Z.land b (u8 (Z.shiftr 0xFF (8 - r))) =? uw r b))) = true) as H.
  { intros r' Hr'. apply (zall_spec _ 256). revert r' Hr'. apply (zall_spec (fun r => zall _ (Z.to_nat 256) 0) 9).
    vm_compute. reflexivity. }
  specialize (H r ltac:(lia) byte Hb). destruct (Z.eqb_spec r 0); [lia|]. cbn [orb] in H.
  apply andb_true_iff in H as [H H3]. apply andb_true_iff in H as [H1 H2]. apply eqb_prop in H1.
  split; [done|]. destruct (Z.eqb_spec r 8); [lia|]. cbn [orb] in *. by split; intros; apply Z.eqb_eq.
Qed.

Lemma top_byte_bits n : 0 < n ->
  let r := n - 8 * Z.of_nat (APINT_NBYTES n - 1) in
  0 < r <= 8 /\ (8 - n mod 8) mod 8 = 8 - r /\ (n - 1) mod 8 = r - 1.
Proof.
  intros H r. pose proof (nbytes_bounds n H). subst r.
  set (k := Z.of_nat (APINT_NBYTES n - 1)) in *. split; [lia|]. Z.div_mod_to_equations. lia.
Qed.

(** An [n]-bit number is its bytes below the top one and the low bits of the top one. *)
Lemma rd_split n pa : 0 < n -> buf n pa ->
  let k := (APINT_NBYTES n - 1)%nat in
  let r := n - 8 * Z.of_nat k in
  words 8 (take k pa) /\ in_range 8 (get pa k) /\
  take (APINT_NBYTES n) pa = take k pa ++ [get pa k] /\ length (take k pa) = k /\
  rd n pa = val 8 (take k pa) + 2 ^ (8 * Z.of_nat k) * uw r (get pa k).
Proof.
  intros Hn [Hw Hl] k r. pose proof (nbytes_bounds n Hn) as [H0 H1].
  assert (k < length pa)%nat as Hk by lia.
  split; [by apply Forall_take|]. split; [auto with word|].
  split. { replace (APINT_NBYTES n) with (S k) by lia. apply take_S_r. by apply get_lookup. }
  split; [rewrite length_take; lia|].
  unfold rd. rewrite <- (take_drop (S k) pa) at 1.
  rewrite (take_S_r _ k (get pa k)) by by apply get_lookup.
  rewrite !val_app, length_app, !length_take_le by lia. cbn [val length].
  pose proof (val_range 8 (take k pa) ltac:(lia) ltac:(by apply Forall_take)) as Hv.
  rewrite length_take_le in Hv by lia.
  pose proof (pow2_pos (8 * Z.of_nat k) ltac:(lia)). pose proof (uw_range r (get pa k) ltac:(lia)) as [U1 U2].
  pose proof (uw_div_mod r (get pa k) ltac:(lia)) as D.
  assert (2 ^ n = 2 ^ (8 * Z.of_nat k) * 2 ^ r) as Hpn by (rewrite <- Z.pow_add_r by lia; f_equal; lia).
  assert (2 ^ (8 * Z.of_nat (k + 1)) = 2 ^ n * 2 ^ (8 - r)) as -> by (rewrite <- Z.pow_add_r by lia; f_equal; lia).
  apply uw_unique; [unfold in_range; rewrite Hpn; nia|].
  exists (get pa k / 2 ^ r + 2 ^ (8 - r) * val 8 (drop (S k) pa)). rewrite Hpn.
  set (q := get pa k / 2 ^ r) in *. set (u := uw r (get pa k)) in *. rewrite D. ring.
Qed.

Lemma val8_replicate_max k : val 8 (replicate k 255) = 2 ^ (8 * Z.of_nat k) - 1.
Proof.
  induction k as [|k IH]; [done|]. cbn [replicate val]. rewrite IH.
  rewrite Nat2Z.inj_succ, Z.mul_succ_r, Z.pow_add_r by lia. change (2 ^ 8) with 256. ring.
Qed.

(** Rebuilding the bytes of a value from its parts. *)
Lemma digits_of_parts l k v : words 8 l -> length l = k -> val 8 l = uw (8 * Z.of_nat k) v -> l = digits 8 k v.
Proof.
  intros Hw Hl Hv. apply (val_inj 8); rewrite ?digits_length; auto using digits_words with lia.
  rewrite val_digits by lia. done.
Qed.

(** Writing the last of [k] copied bytes. *)
Lemma memcpy_last pr pa k x : (k < length pa)%nat -> (k < length pr)%nat ->
  <[k := x]> (memcpy pr pa (S k)) = take k pa ++ [x] ++ drop (S k) pr.
Proof.
  intros Ha Hr. unfold memcpy. rewrite (take_S_r pa k (get pa k)) by by apply get_lookup.
  rewrite <- app_assoc. rewrite insert_app_r_alt by (rewrite length_take; lia).
  rewrite length_take_le, Nat.sub_diag by lia. done.
Qed.

Lemma memcpy_same pr pa k : (k < length pa)%nat ->
  memcpy pr pa (S k) = take k pa ++ [get pa k] ++ drop (S k) pr.
Proof.
  intros Ha. unfold memcpy. rewrite (take_S_r pa k (get pa k)) by by apply get_lookup. by rewrite <- app_assoc.
Qed.

Lemma parts_take_drop (l : list Z) y m (pr : list Z) : (S (length l) <= m)%nat ->
  take (S (length l)) (l ++ [y] ++ drop (S (length l)) pr) = l ++ [y] /\
  drop m (l ++ [y] ++ drop (S (length l)) pr) = drop m pr.
Proof.
  intros Hm. rewrite app_assoc. assert (length (l ++ [y]) = S (length l)) as Hl by (rewrite length_app; cbn; lia).
  split; [by rewrite take_app_length'|]. rewrite drop_app_ge, Hl, drop_drop by lia. f_equal. lia.
Qed.

(** The common body of the two extensions: copy, fix the last byte, fill. *)
Lemma ext_body n pa pr os x y (changed : bool) (fill : Z) : 0 < n -> buf n pa ->
  (APINT_NBYTES n <= os)%nat -> (os <= length pr)%nat -> y = (if changed then x else get pa (APINT_NBYTES n - 1)) ->
  let pr1 := memcpy pr pa (APINT_NBYTES n) in
  let pr2 := if changed then <[(APINT_NBYTES n - 1)%nat := x]> pr1 else pr1 in
  take (APINT_NBYTES n) pr2 ++ replicate (os - APINT_NBYTES n) fill ++ drop os pr2
  = (take (APINT_NBYTES n - 1) pa ++ [y] ++ replicate (os - APINT_NBYTES n) fill) ++ drop os pr.
Proof.
  intros Hn [Hw Hl] Hos Hpr -> pr1 pr2. pose proof (nbytes_bounds n Hn) as [H0 _].
  subst pr2 pr1. set (k := (APINT_NBYTES n - 1)%nat) in *. assert (APINT_NBYTES n = S k) as E by lia.
  clearbody k. rewrite E in *. clear E.
  assert (length (take k pa) = k) as Hk by (rewrite length_take; lia).
  set (pr2 := if changed then _ else memcpy _ _ _).
  assert (pr2 = take k pa ++ [if changed then x else get pa k] ++ drop (S k) pr) as ->.
  { subst pr2. destruct changed; [rewrite memcpy_last by lia; done|rewrite memcpy_same by lia; done]. }
  destruct (parts_take_drop (take k pa) (if changed then x else get pa k) os pr) as [P1 P2]; [lia|].
  rewrite Hk in P1, P2. rewrite P1, P2. by rewrite <- !app_assoc.
Qed.

Lemma nbytes_mono a b : a <= b -> (APINT_NBYTES a <= APINT_NBYTES b)%nat.
Proof. intros. unfold APINT_NBYTES. assert ((a + 7) / 8 <= (b + 7) / 8) by (apply Z.div_le_mono; lia). lia. Qed.

Lemma top_half P v u h : 0 <= v < P -> P * h <= v + P * u <-> h <= u.
Proof. intros. split; intros; nia. Qed.

(** The digits of an [n]-bit number in a storage of [os] bytes, from the parts
    of its buffer. *)
Lemma digits_rd k' pa' os' : 0 < k' -> buf k' pa' -> (APINT_NBYTES k' <= os')%nat ->
  take (APINT_NBYTES k' - 1) pa' ++ [uw (k' - 8 * Z.of_nat (APINT_NBYTES k' - 1)) (get pa' (APINT_NBYTES k' - 1))]
    ++ replicate (os' - APINT_NBYTES k') 0 = digits 8 os' (rd k' pa').
Proof.
  intros Hk Hb Ho. destruct (rd_split k' pa' Hk Hb) as (W & B & T & L & V).
  set (r := k' - _) in *. set (k := (APINT_NBYTES k' - 1)%nat) in *. pose proof (nbytes_bounds k' Hk).
  pose proof (uw_range r (get pa' k) ltac:(lia)) as [U1 U2].
  assert (2 ^ r <= 2 ^ 8) by (apply Z.pow_le_mono_r; lia).
  apply digits_of_parts.
  - apply words_app. split; [done|]. constructor; [unfold in_range; lia|]. apply words_replicate, in_range_0. lia.
  - rewrite !length_app, length_replicate, L. cbn [length]. lia.
  - rewrite !val_app, val_repeat0, L by lia. cbn [val length].
    rewrite !Z.mul_0_r, !Z.add_0_r, <- V. symmetry. apply uw_small.
    pose proof (rd_range k' pa' ltac:(lia)) as [? ?]. split; [done|]. eapply Z.lt_le_trans; [done|].
    apply Z.pow_le_mono_r; lia.
Qed.

Section Ext.
Context (ity oty : datatype) (pa pr : list Z).
Let n := jl_datatype_nbits ity.
Let m := jl_datatype_nbits oty.
Let os := jl_datatype_size oty.
Context (Hn : 0 < n) (Ha : buf n pa) (Hos : (APINT_NBYTES m <= os <= length pr)%nat).

Lemma APInt_zext_eq :
  APInt_zext ity pa oty pr
  = if n <? m then inl (digits 8 os (rd n pa) ++ drop os pr)
    else inr (ErrorException "ZExt: output bitsize must be > input bitsize").
Proof.
  unfold APInt_zext. fold n m os. destruct (Z.ltb_spec n m) as [Hnm|]; [|done]. cbn [negb]. f_equal.
  destruct (top_byte_bits n Hn) as (Hr & Hbits & Hsb). rewrite Hbits.
  destruct (rd_split n pa Hn Ha) as (W & B & T & L & V). pose proof (nbytes_mono n m ltac:(lia)).
  set (r := n - _) in *. set (k := (APINT_NBYTES n - 1)%nat) in *. pose proof (nbytes_bounds n Hn).
  destruct (last_byte_spec (get pa k) r B Hr) as (_ & _ & B3).
  rewrite (ext_body n pa pr os _ (uw r (get pa k)) (negb (8 - r =? 0)) 0); [|done|done|lia|lia|].
  2: { fold k. destruct (Z.eqb_spec (8 - r) 0); cbn [negb]; [|by rewrite B3 by lia].
    replace r with 8 by lia. by apply uw_small. }
  f_equal. pose proof (uw_range r (get pa k) ltac:(lia)) as [U1 U2].
  assert (2 ^ r <= 2 ^ 8) by (apply Z.pow_le_mono_r; lia).
  apply digits_of_parts.
  - apply words_app. split; [done|]. constructor; [unfold in_range; lia|]. apply words_replicate, in_range_0. lia.
  - fold k. rewrite !length_app, length_replicate, L. cbn [length]. lia.
  - fold k. rewrite !val_app, val_repeat0, L by lia. cbn [val length].
    rewrite !Z.mul_0_r, !Z.add_0_r, <- V. symmetry. apply uw_small.
    pose proof (rd_range n pa ltac:(lia)) as [? ?]. split; [done|]. eapply Z.lt_le_trans; [done|].
    apply Z.pow_le_mono_r; lia.
Qed.

Lemma APInt_sext_eq :
  APInt_sext ity pa oty pr
  = if n <? m then inl (digits 8 os (rds n pa) ++ drop os pr)
    else inr (ErrorException "SExt: output bitsize must be > input bitsize").
Proof.
  unfold APInt_sext. fold n m os. destruct (Z.ltb_spec n m) as [Hnm|]; [|done]. cbn [negb]. f_equal.
  destruct (top_byte_bits n Hn) as (Hr & Hbits & Hsb). rewrite Hbits, Hsb.
  destruct (rd_split n pa Hn Ha) as (W & B & T & L & V). pose proof (nbytes_mono n m ltac:(lia)).
  set (r := n - _) in *. set (k := (APINT_NBYTES n - 1)%nat) in *. pose proof (nbytes_bounds n Hn).
  destruct (last_byte_spec (get pa k) r B Hr) as (B1 & B2 & B3). rewrite B1.
  replace (8 - (8 - r)) with r by lia. set (u := uw r (get pa k)) in *. set (sign := 2 ^ (r - 1) <=? u).
  rewrite (ext_body n pa pr os _ (if sign then u + (2 ^ 8 - 2 ^ r) else u) (negb (8 - r =? 0)) (if sign then 255 else 0)); [|done|done|lia|lia|].
  2: { fold k. destruct (Z.eqb_spec (8 - r) 0) as [E|]; cbn [negb]; [|by rewrite B2, B3 by lia].
    clearbody sign. subst u. replace r with 8 by lia. rewrite uw_small, Z.sub_diag, Z.add_0_r by done. by destruct sign. }
  f_equal. pose proof (uw_range r (get pa k) ltac:(lia)) as [U1 U2]. fold u in U1, U2.
  pose proof (pow2_half r ltac:(lia)). pose proof (pow2_pos (r - 1) ltac:(lia)).
  assert (2 ^ r <= 2 ^ 8) by (apply Z.pow_le_mono_r; lia).
  apply digits_of_parts.
  - apply words_app. split; [done|]. constructor; [destruct sign; unfold in_range; lia|].
    apply words_replicate. destruct sign; unfold in_range; lia.
  - fold k. rewrite !length_app, length_replicate, L. cbn [length]. lia.
  - fold k. pose proof (rd_range n pa ltac:(lia)) as [? ?].
    set (P := 2 ^ (8 * Z.of_nat k)) in *. assert (0 < P) by (apply pow2_pos; lia).
    assert (2 ^ n = P * 2 ^ r) as Hpn by (unfold P; rewrite <- Z.pow_add_r by lia; f_equal; lia).
    assert (2 ^ n <= 2 ^ (8 * Z.of_nat os)) by (apply Z.pow_le_mono_r; lia).
    assert (2 ^ (8 * Z.of_nat os) = P * 2 ^ 8 * 2 ^ (8 * Z.of_nat (os - APINT_NBYTES n))) as Hpo
      by (unfold P; rewrite <- !Z.pow_add_r by lia; f_equal; lia).
    pose proof (val_range 8 (take k pa) ltac:(lia) W) as Hv. rewrite L in Hv. fold P in Hv.
    assert (2 ^ (n - 1) = P * 2 ^ (r - 1)) as Hph by (unfold P; rewrite <- Z.pow_add_r by lia; f_equal; lia).
    pose proof (top_half P (val 8 (take k pa)) u (2 ^ (r - 1)) Hv) as Hth. rewrite <- V, <- Hph in Hth.
    rewrite rds_rd, !val_app, L by lia. cbn [val length].
    destruct (Z.leb_spec (2 ^ (r - 1)) u) as [Hs|Hs]; subst sign;
      destruct (Z.ltb_spec (rd n pa) (2 ^ (n - 1))) as [Ht|Ht]; try (exfalso; lia).
    + rewrite val8_replicate_max. change (2 ^ (8 * Z.of_nat 1)) with (2 ^ 8). fold P.
      match goal with |- ?R = _ => replace R with (rd n pa - 2 ^ n + 2 ^ (8 * Z.of_nat os)) end;
        [|rewrite Hpo, V, Hpn; ring].
      symmetry. apply uw_unique; [unfold in_range; lia|]. exists (-1). lia.
    + rewrite val_repeat0, !Z.mul_0_r, !Z.add_0_r. fold P. rewrite <- V. symmetry. apply uw_small. unfold in_range. lia.
Qed.

Lemma APInt_trunc_eq : 0 < m ->
  APInt_trunc ity pa oty pr
  = if m <? n then inl (digits 8 os (rd m pa) ++ drop os pr)
    else inr (ErrorException "Trunc: output bitsize must be < input bitsize").
Proof.
  intros Hm. unfold APInt_trunc. fold n m os. destruct (Z.ltb_spec m n) as [Hnm|]; [|done]. cbn [negb]. f_equal.
  assert (buf m pa) as Hb by (destruct Ha; split; [done|]; pose proof (nbytes_mono m n ltac:(lia)); lia).
  destruct (top_byte_bits m Hm) as (Hr & Hbits & Hsb).
  destruct (rd_split m pa Hm Hb) as (W & B & T & L & V). pose proof (nbytes_bounds m Hm).
  rewrite <- digits_rd by (done || lia).
  set (r := m - _) in *. set (k := (APINT_NBYTES m - 1)%nat) in *.
  assert (m mod 8 = if r =? 8 then 0 else r) as -> by (Z.div_mod_to_equations; zcases; lia).
  set (x := Z.land _ _).
  assert (r < 8 -> x = uw r (get pa k)) as Hx.
  { intros. subst x. destruct (Z.eqb_spec r 8); [lia|]. rewrite Z.shiftl_1_l.
    replace (2 ^ r - 1) with (Z.ones r) by (rewrite Z.ones_equiv; lia). rewrite Z.land_ones by lia.
    unfold uw. f_equal. destruct Hb. unfold memcpy. fold m. replace (APINT_NBYTES m) with (S k) by lia.
    rewrite (take_S_r pa k (get pa k)) by (apply get_lookup; lia). apply lookup_get.
    rewrite lookup_app_l, lookup_app_r, length_take_le, Nat.sub_diag by (rewrite ?length_app, ?length_take; cbn; lia). done. }
  pose proof (ext_body m pa pr os x (uw r (get pa k)) (negb ((if r =? 8 then 0 else r) =? 0)) 0 Hm Hb) as Hext.
  fold k in Hext. rewrite <- !app_assoc in Hext. rewrite <- !app_assoc, <- Hext; clear Hext; [|lia|lia|].
  - destruct (Nat.ltb_spec (APINT_NBYTES m) os); [done|]. replace os with (APINT_NBYTES m) by lia.
    rewrite Nat.sub_diag. cbn [replicate app]. by rewrite take_drop.
  - destruct (Z.eqb_spec r 8) as [E|]; cbn [negb Z.eqb].
    + rewrite E. apply uw_small. done.
    + destruct (Z.eqb_spec r 0); [lia|]. cbn [negb]. rewrite Hx by lia. done.
Qed.
End Ext.

Lemma digits_take_rd k os v rest : 0 < k -> (APINT_NBYTES k <= os)%nat -> rd k (digits 8 os v ++ rest) = uw k v.
Proof.
  intros Hk Ho. unfold rd. pose proof (nbytes_bounds k Hk).
  rewrite val_app, digits_length, val_digits by lia. rewrite <- (uw_narrow k (8 * Z.of_nat os)) by lia.
  rewrite (uw_mod_eq (8 * Z.of_nat os) (uw _ v + _) (uw (8 * Z.of_nat os) v) (val 8 rest)) by ring.
  by rewrite uw_uw, uw_narrow by lia.
Qed.

(** A destination type is well formed when its storage holds its bits. *)
Definition storage_ok (ty : datatype) : Prop :=
  0 < jl_datatype_nbits ty /\ (APINT_NBYTES (jl_datatype_nbits ty) <= jl_datatype_size ty)%nat.

(** Truncating a sign- or zero-extension gives the value back, for every
    pair of widths, and the extension has the operand's value. *)
Lemma APInt_trunc_ext (sign : bool) ity oty pa pr pr' :
  storage_ok ity -> storage_ok oty -> jl_datatype_nbits ity < jl_datatype_nbits oty ->
  buf (jl_datatype_nbits ity) pa -> words 8 pr ->
  (jl_datatype_size oty <= length pr)%nat -> (jl_datatype_size ity <= length pr')%nat ->
  exists r, (if sign then APInt_sext ity pa oty pr else APInt_zext ity pa oty pr) = inl r /\
  ival sign (jl_datatype_nbits oty) r = ival sign (jl_datatype_nbits ity) pa /\
  exists r', APInt_trunc oty r ity pr' = inl r' /\
  take (jl_datatype_size ity) r' = digits 8 (jl_datatype_size ity) (rd (jl_datatype_nbits ity) pa).
Proof.
  intros [Hi1 Hi2] [Ho1 Ho2] Hlt Hpa Wpr Hpr Hpr'.
  set (n := jl_datatype_nbits ity) in *. set (m := jl_datatype_nbits oty) in *.
  pose proof (rds_range n pa Hi1) as Rs. pose proof (rd_range n pa ltac:(lia)) as [R1 R2].
  set (r := digits 8 (jl_datatype_size oty) (ival sign n pa) ++ drop (jl_datatype_size oty) pr).
  assert (buf m r) as Hr.
  { split; [apply words_app; split; [apply digits_words; lia|by apply Forall_drop]|].
    unfold r. rewrite length_app, digits_length. lia. }
  exists r. split; [|split].
  - unfold r. destruct sign; cbn [ival]; [rewrite APInt_sext_eq|rewrite APInt_zext_eq]; try done; fold n m;
      by destruct (Z.ltb_spec n m); [|lia].
  - assert (2 ^ n <= 2 ^ (m - 1)) by (apply Z.pow_le_mono_r; lia). pose proof (pow2_half m ltac:(lia)).
    assert (2 ^ (n - 1) <= 2 ^ n) by (apply Z.pow_le_mono_r; lia).
    unfold r. destruct sign; cbn [ival].
    + transitivity (sw m (rd m (digits 8 (jl_datatype_size oty) (rds n pa) ++ drop (jl_datatype_size oty) pr))).
      { unfold rds, rd. by rewrite sw_uw. }
      rewrite digits_take_rd, sw_uw by done. apply sw_small; lia.
    + rewrite digits_take_rd by done. apply uw_small. unfold in_range. lia.
  - eexists. rewrite APInt_trunc_eq by (fold n m; done || lia). fold n m.
    destruct (Z.ltb_spec n m); [|lia]. split; [done|].
    rewrite take_app_length' by (by rewrite digits_length). f_equal. unfold r.
    pose proof (nbytes_mono n m ltac:(lia)). rewrite digits_take_rd by lia.
    by apply ival_uw.
Qed.

(** ** Byte swap *)

Lemma bytes_roundtrip nw bs : words 8 bs -> length bs = (nw * 8)%nat ->
  bytes_of_words (words_of_bytes nw bs) = bs.
Proof.
  intros Hw Hl. rewrite bytes_of_words_digits, words_of_bytes_length, words_of_bytes_val by
    auto using words_of_bytes_words.
  rewrite <- (digits_val 8 bs) at 2 by (done || lia). rewrite Hl.
  rewrite <- (digits_uw 8 (nw * 8) (val 8 bs)) by lia. f_equal. f_equal. lia.
Qed.

Lemma bswap_loop nb pa d k : (k <= nb)%nat -> (nb <= length pa)%nat -> (nb <= length d)%nat ->
  foldl (fun d i => <[(nb - 1 - i)%nat := get pa i]> d) d (seq 0 k)
  = take (nb - k) d ++ rev (take k pa) ++ drop nb d.
Proof.
  intros Hk Hp Hd. induction k as [|k IH].
  - rewrite Nat.sub_0_r, take_0. cbn [seq foldl rev app]. by rewrite take_drop.
  - rewrite seq_S, foldl_app, IH by lia. cbn [foldl Nat.add].
    rewrite (take_S_r pa k (get pa k)) by (apply get_lookup; lia). rewrite rev_app_distr. cbn [rev app].
    replace (nb - k)%nat with (S (nb - 1 - k)) by lia.
    rewrite (take_S_r d (nb - 1 - k) (get d (nb - 1 - k))) by (apply get_lookup; lia).
    rewrite <- app_assoc, insert_app_r_alt by (rewrite length_take; lia).
    rewrite length_take_le, Nat.sub_diag by lia. cbn.
    replace (nb - S k)%nat with (nb - 1 - k)%nat by lia. done.
Qed.

(** [APInt_bswap] reverses the operand's bytes, whatever the width, and
    writes no byte after them. *)
Theorem APInt_bswap_correct n pa pr : 0 < n -> buf n pa ->
  APInt_bswap n pa pr = rev (take (APINT_NBYTES n) pa) ++ drop (APINT_NBYTES n) pr.
Proof.
  intros Hn [Hw Hl]. pose proof (nbytes_le_nwords n Hn). unfold APInt_bswap.
  rewrite bswap_loop by (rewrite ?length_replicate; lia). rewrite Nat.sub_diag, take_0, drop_replicate. cbn [app].
  unfold store, memcpy. rewrite bytes_roundtrip.
  - rewrite take_app_length' by (rewrite length_rev, length_take; lia). done.
  - apply words_app. split; [|apply words_replicate, in_range_0; lia].
    apply Forall_rev. by apply Forall_take.
  - rewrite length_app, length_rev, length_replicate, length_take. lia.
Qed.

(** ** Flipping the sign *)

Lemma APInt_flipsign_eq n pa pb pr : 0 < n -> buf n pb ->
  APInt_flipsign n pa pb pr = if rds n pb <? 0 then APInt_neg n pa pr else memcpy pr pa (APINT_NBYTES n).
Proof.
  intros Hn Hpb. unfold APInt_flipsign.
  destruct (top_byte_bits n Hn) as (Hr & Hbits & Hsb). rewrite Hsb.
  destruct (rd_split n pb Hn Hpb) as (W & B & T & L & V). pose proof (nbytes_bounds n Hn).
  set (r := n - _) in *. set (k := (APINT_NBYTES n - 1)%nat) in *.
  destruct (last_byte_spec (get pb k) r B Hr) as (B1 & _ & _). rewrite B1.
  assert ((2 ^ (r - 1) <=? uw r (get pb k)) = (rds n pb <? 0)) as ->.
  { pose proof (val_range 8 (take k pb) ltac:(lia) W) as Hv. rewrite L in Hv.
    pose proof (top_half _ (val 8 (take k pb)) (uw r (get pb k)) (2 ^ (r - 1)) Hv) as Hth. rewrite <- V in Hth.
    rewrite <- Z.pow_add_r in Hth by lia. replace (8 * Z.of_nat k + (r - 1)) with (n - 1) in Hth by lia.
    rewrite rds_rd. pose proof (rd_range n pb ltac:(lia)) as [? ?]. pose proof (pow2_half n Hn).
    destruct (Z.ltb_spec (rd n pb) (2 ^ (n - 1))); zcases; lia. }
  done.
Qed.

Theorem APInt_flipsign_correct n pa pb pr : 0 < n -> buf n pa -> buf n pb ->
  let r := APInt_flipsign n pa pb pr in
  rd n r = uw n (if rds n pb <? 0 then - rds n pa else rds n pa) /\ drop (APINT_NBYTES n) r = drop (APINT_NBYTES n) pr.
Proof.
  intros Hn Hpa Hpb r. subst r. rewrite APInt_flipsign_eq by done. pose proof (nbytes_bounds n Hn).
  destruct (rds n pb <? 0).
  - rewrite APInt_neg_correct by done. rewrite rd_put, uw_uw by done. split.
    + rewrite <- (rd_rds n pa) by done. apply uw_opp.
    + unfold put. by rewrite drop_app_length' by by rewrite digits_length.
  - destruct Hpa as [Ha1 Ha2]. unfold memcpy. split; [|by rewrite drop_app_length' by (rewrite length_take; lia)].
    rewrite rd_rds by done. unfold rd. rewrite val_app, val_take, length_take_le by (done || lia).
    rewrite <- (uw_narrow n (8 * Z.of_nat (APINT_NBYTES n)) (_ + _)) by lia.
    rewrite (uw_mod_eq (8 * Z.of_nat (APINT_NBYTES n)) (uw _ _ + _) (uw (8 * Z.of_nat (APINT_NBYTES n)) (val 8 pa)) (val 8 (drop (APINT_NBYTES n) pr))) by ring.
    by rewrite uw_uw, uw_narrow by lia.
Qed.

Lemma APInt_bswap_correct_witness : APInt_bswap 24 [1; 2; 3] [9; 9; 9; 7] = [3; 2; 1; 7].
Proof.
  rewrite APInt_bswap_correct; [vm_compute; reflexivity|lia|].
  split; [repeat constructor; unfold in_range; lia|apply Nat.leb_le; reflexivity].
Defined.
