(* ===== verification/Intrinsics.v ===== *)
(** * Integer intrinsics: src/src/runtime_intrinsics.c over src/src/APInt.c

    The dispatch of an integer intrinsic (padding of the operands to a C type,
    choice between the fast C operation and the arbitrary-width function,
    boxing of the result), the fast C operations with C's integer promotions,
    and the operation tables. *)
From S2P Require Import Prelude APInt APIntFacts APIntOps APIntArith APIntBits APIntDiv APIntExt.

(** ** Outcomes

    [Undefined] marks an evaluation the C standard gives no meaning to. *)
Inductive outcome (A : Type) : Type :=
| Ok (x : A)
| Throw (e : jl_exn)
| Undefined.
Arguments Ok {A} _.
Arguments Throw {A} _.
Arguments Undefined {A}.

Definition obind {A B} (m : outcome A) (f : A -> outcome B) : outcome B :=
  match m with
  | Ok x => f x
  | Throw e => Throw e
  | Undefined => Undefined
  end.
Definition of_sum {A} (m : A + jl_exn) : outcome A :=
  match m with inl x => Ok x | inr e => Throw e end.
Notation "'let!' x := m 'in' k" := (obind m (fun x => k)) (at level 10, x pattern, k at level 200).

(** ** Types and values *)

Record jltype := { layout :> datatype; ty_id : Z; is_primitivetype : bool; is_bool_type : bool }.
Record jlvalue := { jl_typeof : jltype; jl_data_ptr : list Z }.

(** What an intrinsic returns: a boxed value, [jl_true]/[jl_false], or the
    (value, overflow) tuple of a checked operation. *)
Inductive boxed : Type :=
| Bits (v : jlvalue)
| JBool (b : bool)
| Checked (ty : jltype) (bytes : list Z) (overflow : bool).

Definition jl_new_bits (ty : jltype) (pr : list Z) : boxed :=
  if is_bool_type ty then JBool (negb (Z.land 1 (get pr 0) =? 0))
  else Bits {| jl_typeof := ty; jl_data_ptr := take (jl_datatype_size ty) pr |}.

(** ** Padding and selection *)

Definition signbitbyte (a : list Z) (bytes : nat) (nbits : Z) : Z :=
  let signbit := (nbits - 1) `mod` 8 in
  if negb (Z.land (get a (bytes - 1)) (Z.shiftl 1 signbit) =? 0) then 255 else 0.
Definition usignbitbyte (a : list Z) (bytes : nat) (nbits : Z) : Z := 0.
Definition getsign (signed : bool) := if signed then signbitbyte else usignbitbyte.

(** [memcpy(p2, p, sz); memset(p2 + sz, fill, sz2 - sz)] *)
Definition pad (p : list Z) (sz sz2 : nat) (fill : Z) : list Z :=
  take sz p ++ replicate (sz2 - sz) fill.

Definition select_by_size (sz : Z) : nat :=
  if sz =? 1 then 1%nat else if sz =? 2 then 2%nat else if sz =? 4 then 3%nat
  else if sz =? 8 then 4%nat else if sz =? 16 then 5%nat else 0%nat.

(** A table: the arbitrary-width function, then those of 8, 16, 32 and 64 bits
    (the array has six entries, the missing ones are NULL). *)
Record op_list (F : Type) := { slow : F; sized : list F }.
Arguments slow {F}.
Arguments sized {F}.

Definition select {F} (sz runtime_nbits : Z) (l : op_list F) : F :=
  let thunk := if runtime_nbits =? sz * 8 then (Some (slow l) :: map Some (sized l)) !! select_by_size sz else None in
  match thunk with
  | Some (Some f) => f
  | _ => slow l
  end.

Definition intrinsic_1_t := Z -> list Z -> list Z -> outcome (list Z).
Definition intrinsic_u1_t := Z -> list Z -> outcome Z.
Definition intrinsic_2_t := Z -> list Z -> list Z -> list Z -> outcome (list Z).
Definition intrinsic_cmp_t := Z -> list Z -> list Z -> outcome bool.
Definition intrinsic_checked_t := Z -> list Z -> list Z -> list Z -> outcome (list Z * bool).

Definition errorf (name msg : string) : jl_exn := ErrorException (name ++ msg).

(** ** Dispatch *)

Section Dispatch.
(** The contents of the [alloca]'d result buffer before the operation. *)
Context (junk : nat -> list Z).

Definition jl_intrinsiclambda_ty1 (l : op_list intrinsic_1_t) (ty : jltype) (pa : list Z) (osize osize2 : nat)
    : outcome boxed :=
  let! pr := select (Z.of_nat osize2) (jl_datatype_nbits ty) l (jl_datatype_nbits ty) pa (junk osize2) in
  Ok (jl_new_bits ty pr).

Definition jl_intrinsiclambda_u1 (l : op_list intrinsic_u1_t) (ty : jltype) (pa : list Z) (osize osize2 : nat)
    : outcome boxed :=
  let! cnt := select (Z.of_nat osize2) (jl_datatype_nbits ty) l (jl_datatype_nbits ty) pa in
  if (osize <=? 8)%nat then Ok (jl_new_bits ty (digits 8 8 (u32 cnt)))
  else Ok (Bits {| jl_typeof := ty; jl_data_ptr := digits 8 8 (u32 cnt) ++ replicate (osize - 8) 0 |}).

Definition jl_iintrinsic_1 (a : jlvalue) (name : string) (signed : bool)
    (lambda1 : jltype -> list Z -> nat -> nat -> outcome boxed) : outcome boxed :=
  let ty := jl_typeof a in
  if negb (is_primitivetype ty) then Throw (errorf name ": value is not a primitive type") else
  let isize := jl_datatype_size ty in
  let isize2 := Z.to_nat (next_power_of_two (Z.of_nat isize)) in
  let osize := jl_datatype_size ty in
  let osize2 := Z.to_nat (next_power_of_two (Z.of_nat osize)) in
  let osize2 := if (osize2 <? isize2)%nat then isize2 else osize2 in
  let pa := if (isize <? osize2)%nat || (isize <? isize2)%nat
            then pad (jl_data_ptr a) isize osize2 (getsign signed (jl_data_ptr a) isize (jl_datatype_nbits ty))
            else jl_data_ptr a in
  let! newv := lambda1 ty pa osize osize2 in
  Ok (if is_bool_type ty
      then match newv with
           | Bits v => JBool (negb (Z.land (get (jl_data_ptr v) 0) 1 =? 0))
           | b => b
           end
      else newv).

Definition jl_intrinsiclambda_2 (l : op_list intrinsic_2_t) (ty : jltype) (pa pb : list Z) (sz sz2 : nat)
    : outcome boxed :=
  let! pr := select (Z.of_nat sz2) (jl_datatype_nbits ty) l (jl_datatype_nbits ty) pa pb (junk sz2) in
  Ok (jl_new_bits ty pr).

Definition jl_intrinsiclambda_cmp (l : op_list intrinsic_cmp_t) (ty : jltype) (pa pb : list Z) (sz sz2 : nat)
    : outcome boxed :=
  let! cmp := select (Z.of_nat sz2) (jl_datatype_nbits ty) l (jl_datatype_nbits ty) pa pb in
  Ok (JBool cmp).

Definition jl_intrinsiclambda_checked (l : op_list intrinsic_checked_t) (ty : jltype) (pa pb : list Z) (sz sz2 : nat)
    : outcome boxed :=
  let! (newv, ovflw) :=
    select (Z.of_nat sz2) (jl_datatype_nbits ty) l (jl_datatype_nbits ty) pa pb (junk sz) in
  Ok (Checked ty (take sz newv) ovflw).

Definition jl_intrinsiclambda_checkeddiv (l : op_list intrinsic_checked_t) (ty : jltype) (pa pb : list Z)
    (sz sz2 : nat) : outcome boxed :=
  let! (pr, ovflw) :=
    select (Z.of_nat sz2) (jl_datatype_nbits ty) l (jl_datatype_nbits ty) pa pb (junk sz2) in
  if ovflw : bool then Throw DivideError else Ok (jl_new_bits ty pr).

Definition jl_iintrinsic_2 (a b : jlvalue) (name : string) (signed : bool)
    (lambda2 : jltype -> list Z -> list Z -> nat -> nat -> outcome boxed) (cvtb : bool) : outcome boxed :=
  let ty := jl_typeof a in
  let tyb := jl_typeof b in
  let differ := negb (ty_id tyb =? ty_id ty) in
  if differ && negb cvtb then Throw (errorf name ": types of a and b must match") else
  if differ && negb (is_primitivetype tyb) then Throw (errorf name ": b is not a primitive type") else
  if negb (is_primitivetype ty) then Throw (errorf name ": a is not a primitive type") else
  let pa := jl_data_ptr a in
  let pb := jl_data_ptr b in
  let runtime_nbits := jl_datatype_nbits ty in
  let sz := jl_datatype_size ty in
  let sz2 := Z.to_nat (next_power_of_two (Z.of_nat sz)) in
  let szb := if cvtb then jl_datatype_size tyb else sz in
  let pa' := if (sz <? sz2)%nat then pad pa sz sz2 (getsign signed pa sz runtime_nbits) else pa in
  let pb' := if (szb <? sz2)%nat
             then pad pb szb sz2 (if cvtb then 0 else getsign signed pb szb runtime_nbits) else pb in
  lambda2 ty pa' pb' sz sz2.

(** Conversions. The source's type checks come first. *)
Definition jl_intrinsic_cvt (ty : jltype) (concrete : bool) (a : jlvalue) (name : string)
    (op : datatype -> list Z -> datatype -> list Z -> list Z + jl_exn) : outcome boxed :=
  if negb concrete || negb (is_primitivetype ty) then Throw (errorf name ": target type not a leaf primitive type") else
  let aty := jl_typeof a in
  if negb (is_primitivetype aty) then Throw (errorf name ": value is not a primitive type") else
  let! pr := of_sum (op aty (jl_data_ptr a) ty (junk (jl_datatype_size ty))) in
  Ok (jl_new_bits ty pr).
End Dispatch.

(** ** C integer arithmetic

    An operand of a type narrower than [int] is promoted to [int]; arithmetic
    on an unsigned type wraps; signed overflow is undefined unless [wrapv]
    (the compiler's -fwrapv). *)

Section CArith.
Context (wrapv : bool).

Definition promote (w : Z) (signed : bool) : Z * bool := if w <? 32 then (32, true) else (w, signed).
Definition arith (w : Z) (signed : bool) (v : Z) : outcome Z :=
  let '(w', s) := promote w signed in
  if s then (if fits true w' v || wrapv then Ok (sw w' v) else Undefined) else Ok (uw w' v).

(** The operator macros, on operands of a [w]-bit C type. *)
Definition neg (w : Z) (s : bool) (a : Z) := arith w s (- a).
Definition not_op (w : Z) (s : bool) (a : Z) := arith w s (Z.lnot a).
Definition add (w : Z) (s : bool) (a b : Z) := arith w s (a + b).
Definition sub (w : Z) (s : bool) (a b : Z) := arith w s (a - b).
Definition mul (w : Z) (s : bool) (a b : Z) := arith w s (a * b).
(** Division by zero, and a quotient that does not fit, trap. *)
Definition div (w : Z) (s : bool) (a b : Z) : outcome Z :=
  if b =? 0 then Undefined else
  let '(w', s') := promote w s in if fits s' w' (Z.quot a b) then Ok (Z.quot a b) else Undefined.
Definition rem (w : Z) (s : bool) (a b : Z) : outcome Z :=
  if b =? 0 then Undefined else
  let '(w', s') := promote w s in if fits s' w' (Z.quot a b) then Ok (Z.rem a b) else Undefined.
Definition and_op (w : Z) (s : bool) (a b : Z) : outcome Z := Ok (Z.land a b).
Definition or_op (w : Z) (s : bool) (a b : Z) : outcome Z := Ok (Z.lor a b).
Definition xor_op (w : Z) (s : bool) (a b : Z) : outcome Z := Ok (Z.lxor a b).
Definition shl_op (w : Z) (s : bool) (a b : Z) : outcome Z :=
  if w <=? b then Ok 0 else arith w s (Z.shiftl a b).
Definition lshr_op (w : Z) (s : bool) (a b : Z) : outcome Z :=
  if w <=? b then Ok 0 else Ok (Z.shiftr a b).
Definition ashr_op (w : Z) (s : bool) (a b : Z) : outcome Z :=
  if (b <? 0) || (w <=? b) then Ok (Z.shiftr a (w - 1)) else Ok (Z.shiftr a b).
Definition flipsign (w : Z) (s : bool) (a b : Z) : outcome Z :=
  if 0 <=? b then Ok a else arith w s (- a).

(** The overflow tests ([8 * sizeof(a)] is the width [w] of the C type). *)
Definition sTYPEMAX (w runtime_nbits : Z) : Z :=
  if w =? runtime_nbits then Z.shiftl (Z.shiftl 1 (w - 2) - 1) 1 + 1 else Z.shiftl 1 (runtime_nbits - 1) - 1.
Definition sTYPEMIN (w runtime_nbits : Z) : Z := - sTYPEMAX w runtime_nbits - 1.
Definition uTYPEMAX (w runtime_nbits : Z) : Z :=
  if w =? runtime_nbits then uw w (Z.lnot 0)
  else uw w (Z.lnot (Z.shiftl (uw w (Z.lnot 0)) runtime_nbits)).
Definition uTYPEMIN : Z := 0.

Definition check_sadd_int (w nb a b : Z) : outcome bool :=
  if 0 <=? b then (let! t := arith w true (sTYPEMAX w nb - b) in Ok (t <? a))
  else (let! t := arith w true (sTYPEMIN w nb - b) in Ok (a <? t)).
Definition check_uadd_int (w nb a b : Z) : outcome bool :=
  let! t := arith w false (uTYPEMAX w nb - b) in Ok (t <? a).
Definition check_ssub_int (w nb a b : Z) : outcome bool :=
  if 0 <=? b then (let! t := arith w true (sTYPEMIN w nb + b) in Ok (a <? t))
  else (let! t := arith w true (sTYPEMAX w nb + b) in Ok (t <? a)).
Definition check_usub_int (w nb a b : Z) : outcome bool :=
  let! t := arith w false (uTYPEMIN + b) in Ok (a <? t).

(** The fast-function generators: read the C type, store the converted result. *)
Definition un_iintrinsic_ctype (op : Z -> bool -> Z -> outcome Z) (s : bool) (w : Z) : intrinsic_1_t :=
  fun _ pa pr => let! r := op w s (ival s w pa) in Ok (put w pr (uw w r)).
Definition bi_intrinsic_ctype (op : Z -> bool -> Z -> Z -> outcome Z) (s : bool) (w : Z) : intrinsic_2_t :=
  fun _ pa pb pr => let! r := op w s (ival s w pa) (ival s w pb) in Ok (put w pr (uw w r)).
Definition bool_intrinsic_ctype (op : Z -> Z -> bool) (s : bool) (w : Z) : intrinsic_cmp_t :=
  fun _ pa pb => Ok (op (ival s w pa) (ival s w pb)).
(** The result is computed before the test. *)
Definition checked_intrinsic_ctype (check : Z -> Z -> Z -> Z -> outcome bool) (op : Z -> bool -> Z -> Z -> outcome Z)
    (s : bool) (w : Z) : intrinsic_checked_t :=
  fun nb pa pb pr =>
    let a := ival s w pa in
    let b := ival s w pb in
    let! r := op w s a b in
    let pr := put w pr (uw w r) in
    let! o := check w nb a b in
    Ok (pr, o).

Definition ctypes : list Z := [8; 16; 32; 64].
Definition un_iintrinsic_fast (f : Z -> list Z -> list Z -> list Z) (op : Z -> bool -> Z -> outcome Z) (s : bool) :=
  {| slow := fun n pa pr => Ok (f n pa pr); sized := map (un_iintrinsic_ctype op s) ctypes |}.
Definition bi_iintrinsic_fast (f : Z -> list Z -> list Z -> list Z -> list Z + jl_exn)
    (op : Z -> bool -> Z -> Z -> outcome Z) (s : bool) : op_list intrinsic_2_t :=
  {| slow := fun n pa pb pr => of_sum (f n pa pb pr); sized := map (bi_intrinsic_ctype op s) ctypes |}.
Definition bool_iintrinsic_fast (f : Z -> list Z -> list Z -> bool) (op : Z -> Z -> bool) (s : bool)
    : op_list intrinsic_cmp_t :=
  {| slow := fun n pa pb => Ok (f n pa pb); sized := map (bool_intrinsic_ctype op s) ctypes |}.
Definition checked_iintrinsic_fast (f : Z -> list Z -> list Z -> list Z -> list Z * bool)
    (check : Z -> Z -> Z -> Z -> outcome bool) (op : Z -> bool -> Z -> Z -> outcome Z) (s : bool)
    : op_list intrinsic_checked_t :=
  {| slow := fun n pa pb pr => Ok (f n pa pb pr); sized := map (checked_intrinsic_ctype check op s) ctypes |}.
Definition checked_iintrinsic_slow (f : Z -> list Z -> list Z -> list Z -> list Z * bool)
    : op_list intrinsic_checked_t :=
  {| slow := fun n pa pb pr => Ok (f n pa pb pr); sized := [] |}.
Definition uu_iintrinsic_slow (f : Z -> list Z -> Z) : op_list intrinsic_u1_t :=
  {| slow := fun n pa => Ok (f n pa); sized := [] |}.

(** The operation tables. *)
Definition pure4 (f : Z -> list Z -> list Z -> list Z -> list Z) n pa pb pr : list Z + jl_exn := inl (f n pa pb pr).
Definition neg_int_list := un_iintrinsic_fast APInt_neg neg false.
Definition not_int_list := un_iintrinsic_fast APInt_not not_op false.
Definition add_int_list := bi_iintrinsic_fast (pure4 APInt_add) add false.
Definition sub_int_list := bi_iintrinsic_fast (pure4 APInt_sub) sub false.
Definition mul_int_list := bi_iintrinsic_fast (pure4 APInt_mul) mul false.
Definition sdiv_int_list := bi_iintrinsic_fast APInt_sdiv div true.
Definition udiv_int_list := bi_iintrinsic_fast APInt_udiv div false.
Definition srem_int_list := bi_iintrinsic_fast APInt_srem rem true.
Definition urem_int_list := bi_iintrinsic_fast APInt_urem rem false.
Definition and_int_list := bi_iintrinsic_fast (pure4 APInt_and) and_op false.
Definition or_int_list := bi_iintrinsic_fast (pure4 APInt_or) or_op false.
Definition xor_int_list := bi_iintrinsic_fast (pure4 APInt_xor) xor_op false.
Definition shl_int_list := bi_iintrinsic_fast (pure4 APInt_shl) shl_op false.
Definition lshr_int_list := bi_iintrinsic_fast (pure4 APInt_lshr) lshr_op false.
Definition ashr_int_list := bi_iintrinsic_fast (pure4 APInt_ashr) ashr_op true.
Definition flipsign_int_list := bi_iintrinsic_fast (pure4 APInt_flipsign) flipsign true.
Definition eq_int_list := bool_iintrinsic_fast APInt_eq Z.eqb false.
Definition ne_int_list := bool_iintrinsic_fast APInt_ne (fun a b => negb (a =? b)) false.
Definition slt_int_list := bool_iintrinsic_fast APInt_slt Z.ltb true.
Definition ult_int_list := bool_iintrinsic_fast APInt_ult Z.ltb false.
Definition sle_int_list := bool_iintrinsic_fast APInt_sle Z.leb true.
Definition ule_int_list := bool_iintrinsic_fast APInt_ule Z.leb false.
Definition checked_sadd_int_list := checked_iintrinsic_fast APInt_add_sov check_sadd_int add true.
Definition checked_uadd_int_list := checked_iintrinsic_fast APInt_add_uov check_uadd_int add false.
Definition checked_ssub_int_list := checked_iintrinsic_fast APInt_sub_sov check_ssub_int sub true.
Definition checked_usub_int_list := checked_iintrinsic_fast APInt_sub_uov check_usub_int sub false.
Definition checked_smul_int_list := checked_iintrinsic_slow APInt_mul_sov.
Definition checked_umul_int_list := checked_iintrinsic_slow APInt_mul_uov.
Definition checked_sdiv_int_list := checked_iintrinsic_slow APInt_div_sov.
Definition checked_udiv_int_list := checked_iintrinsic_slow APInt_div_uov.
Definition checked_srem_int_list := checked_iintrinsic_slow APInt_rem_sov.
Definition checked_urem_int_list := checked_iintrinsic_slow APInt_rem_uov.
Definition bswap_int_list : op_list intrinsic_1_t := {| slow := fun n pa pr => Ok (APInt_bswap n pa pr); sized := [] |}.
Definition ctpop_int_list := uu_iintrinsic_slow APInt_popcount.
Definition ctlz_int_list := uu_iintrinsic_slow APInt_countl_zero.
Definition cttz_int_list := uu_iintrinsic_slow APInt_countr_zero.

(** ** The exported intrinsics *)

(** bi_iintrinsic_fast / bi_iintrinsic_cnvtb_fast *)
Inductive bi_op : Type :=
| add_int | sub_int | mul_int | sdiv_int | udiv_int | srem_int | urem_int
| and_int | or_int | xor_int | shl_int | lshr_int | ashr_int | flipsign_int.
Definition bi_list (op : bi_op) : op_list intrinsic_2_t :=
  match op with
  | add_int => add_int_list | sub_int => sub_int_list | mul_int => mul_int_list
  | sdiv_int => sdiv_int_list | udiv_int => udiv_int_list
  | srem_int => srem_int_list | urem_int => urem_int_list
  | and_int => and_int_list | or_int => or_int_list | xor_int => xor_int_list
  | shl_int => shl_int_list | lshr_int => lshr_int_list | ashr_int => ashr_int_list
  | flipsign_int => flipsign_int_list
  end.
Definition bi_name (op : bi_op) : string :=
  match op with
  | add_int => "add_int" | sub_int => "sub_int" | mul_int => "mul_int"
  | sdiv_int => "sdiv_int" | udiv_int => "udiv_int" | srem_int => "srem_int" | urem_int => "urem_int"
  | and_int => "and_int" | or_int => "or_int" | xor_int => "xor_int"
  | shl_int => "shl_int" | lshr_int => "lshr_int" | ashr_int => "ashr_int" | flipsign_int => "flipsign_int"
  end.
Definition bi_signed (op : bi_op) : bool :=
  match op with sdiv_int | srem_int | ashr_int | flipsign_int => true | _ => false end.
Definition bi_cvtb (op : bi_op) : bool :=
  match op with shl_int | lshr_int | ashr_int => true | _ => false end.
Definition bi_iintrinsic (junk : nat -> list Z) (op : bi_op) (a b : jlvalue) : outcome boxed :=
  jl_iintrinsic_2 a b (bi_name op) (bi_signed op) (jl_intrinsiclambda_2 junk (bi_list op)) (bi_cvtb op).

(** bool_iintrinsic_fast *)
Inductive cmp_op : Type := eq_int | ne_int | slt_int | ult_int | sle_int | ule_int.
Definition cmp_list (op : cmp_op) : op_list intrinsic_cmp_t :=
  match op with
  | eq_int => eq_int_list | ne_int => ne_int_list | slt_int => slt_int_list
  | ult_int => ult_int_list | sle_int => sle_int_list | ule_int => ule_int_list
  end.
Definition cmp_name (op : cmp_op) : string :=
  match op with
  | eq_int => "eq_int" | ne_int => "ne_int" | slt_int => "slt_int"
  | ult_int => "ult_int" | sle_int => "sle_int" | ule_int => "ule_int"
  end.
Definition cmp_signed (op : cmp_op) : bool := match op with slt_int | sle_int => true | _ => false end.
Definition cmp_iintrinsic (op : cmp_op) (a b : jlvalue) : outcome boxed :=
  jl_iintrinsic_2 a b (cmp_name op) (cmp_signed op) (jl_intrinsiclambda_cmp (cmp_list op)) false.

(** checked_iintrinsic_fast / _slow / _div *)
Inductive checked_op : Type :=
| checked_sadd_int | checked_uadd_int | checked_ssub_int | checked_usub_int
| checked_smul_int | checked_umul_int
| checked_sdiv_int | checked_udiv_int | checked_srem_int | checked_urem_int.
Definition checked_list (op : checked_op) : op_list intrinsic_checked_t :=
  match op with
  | checked_sadd_int => checked_sadd_int_list | checked_uadd_int => checked_uadd_int_list
  | checked_ssub_int => checked_ssub_int_list | checked_usub_int => checked_usub_int_list
  | checked_smul_int => checked_smul_int_list | checked_umul_int => checked_umul_int_list
  | checked_sdiv_int => checked_sdiv_int_list | checked_udiv_int => checked_udiv_int_list
  | checked_srem_int => checked_srem_int_list | checked_urem_int => checked_urem_int_list
  end.
Definition checked_name (op : checked_op) : string :=
  match op with
  | checked_sadd_int => "checked_sadd_int" | checked_uadd_int => "checked_uadd_int"
  | checked_ssub_int => "checked_ssub_int" | checked_usub_int => "checked_usub_int"
  | checked_smul_int => "checked_smul_int" | checked_umul_int => "checked_umul_int"
  | checked_sdiv_int => "checked_sdiv_int" | checked_udiv_int => "checked_udiv_int"
  | checked_srem_int => "checked_srem_int" | checked_urem_int => "checked_urem_int"
  end.
Definition checked_signed (op : checked_op) : bool :=
  match op with
  | checked_sadd_int | checked_ssub_int | checked_smul_int | checked_sdiv_int | checked_srem_int => true
  | _ => false
  end.
Definition checked_div (op : checked_op) : bool :=
  match op with checked_sdiv_int | checked_udiv_int | checked_srem_int | checked_urem_int => true | _ => false end.
Definition checked_iintrinsic (junk : nat -> list Z) (op : checked_op) (a b : jlvalue) : outcome boxed :=
  jl_iintrinsic_2 a b (checked_name op) (checked_signed op)
    (if checked_div op then jl_intrinsiclambda_checkeddiv junk (checked_list op)
     else jl_intrinsiclambda_checked junk (checked_list op)) false.

(** un_iintrinsic_fast, uu_iintrinsic_slow *)
Definition jl_neg_int (junk : nat -> list Z) (a : jlvalue) : outcome boxed :=
  jl_iintrinsic_1 a "neg_int" false (jl_intrinsiclambda_ty1 junk neg_int_list).
Definition jl_not_int (junk : nat -> list Z) (a : jlvalue) : outcome boxed :=
  jl_iintrinsic_1 a "not_int" false (jl_intrinsiclambda_ty1 junk not_int_list).
Definition jl_ctpop_int (a : jlvalue) : outcome boxed :=
  jl_iintrinsic_1 a "ctpop_int" false (jl_intrinsiclambda_u1 ctpop_int_list).
Definition jl_ctlz_int (a : jlvalue) : outcome boxed :=
  jl_iintrinsic_1 a "ctlz_int" false (jl_intrinsiclambda_u1 ctlz_int_list).
Definition jl_cttz_int (a : jlvalue) : outcome boxed :=
  jl_iintrinsic_1 a "cttz_int" false (jl_intrinsiclambda_u1 cttz_int_list).
Definition jl_bswap_int (junk : nat -> list Z) (a : jlvalue) : outcome boxed :=
  let ty := jl_typeof a in
  if negb (is_primitivetype ty) then Throw (ErrorException "bswap_int: value is not a primitive type") else
  if negb (jl_datatype_nbits ty `mod` 16 =? 0) then Throw (ErrorException "bswap_int: argument bitsize must be a multiple of 16") else
  jl_iintrinsic_1 a "bswap_int" false (jl_intrinsiclambda_ty1 junk bswap_int_list).
End CArith.
