(* ===== verification/IntrinsicsFacts.v ===== *)
(** * The integer intrinsics of src/src/runtime_intrinsics.c: the fast C path
    and the arbitrary-width path implement one specification *)
From S2P Require Import Prelude APInt APIntFacts APIntOps APIntArith APIntBits APIntDiv APIntExt Intrinsics.

(** ** Rounding sizes up *)

Lemma next_power_of_two_ge v : 0 < v <= 2 ^ 31 -> v <= next_power_of_two v.
Proof.
  intros Hv. destruct (next_power_of_two_spec v) as (k & _ & -> & Hk); lia.
Qed.

(** ** Tables *)

(** [P n f]: the function [f] is right at width [n]. A table is right when its
    arbitrary-width function is right at every width that has no C type, and
    each C function at its own width. *)
Class Table {F} (P : Z -> F -> Prop) (l : op_list F) : Prop := {
  table_slow n : 0 < n < 2 ^ 32 -> n ∉ ctypes \/ sized l = [] -> P n (slow l);
  table_sized : sized l = [] \/ Forall2 P ctypes (sized l)
}.

Lemma ctypes_sized {F} (P : Z -> F -> Prop) l : Forall2 P ctypes l ->
  exists f1 f2 f3 f4, l = [f1; f2; f3; f4] /\ P 8 f1 /\ P 16 f2 /\ P 32 f3 /\ P 64 f4.
Proof.
  intros H. apply Forall2_cons_inv_l in H as (f1 & l1 & H1 & H & ->).
  apply Forall2_cons_inv_l in H as (f2 & l2 & H2 & H & ->).
  apply Forall2_cons_inv_l in H as (f3 & l3 & H3 & H & ->).
  apply Forall2_cons_inv_l in H as (f4 & l4 & H4 & H & ->).
  apply Forall2_nil_inv_l in H as ->. by exists f1, f2, f3, f4.
Qed.

Lemma elem_of_ctypes n : n ∈ ctypes <-> n = 8 \/ n = 16 \/ n = 32 \/ n = 64.
Proof. unfold ctypes. rewrite !elem_of_cons, elem_of_nil. tauto. Qed.

Lemma select_right {F} (P : Z -> F -> Prop) l `{!Table P l} n sz : 0 < n < 2 ^ 32 ->
  (n ∈ ctypes -> n = sz * 8) -> P n (select sz n l).
Proof.
  intros Hn Hct. destruct table_sized as [E|HF].
  { assert (select sz n l = slow l) as -> by
      (unfold select; rewrite E; destruct (n =? sz * 8); [|done]; destruct (select_by_size sz) as [|[|]]; done).
    apply table_slow; auto. }
  destruct (ctypes_sized P _ HF) as (f1 & f2 & f3 & f4 & E & H1 & H2 & H3 & H4).
  destruct (decide (n ∈ ctypes)) as [Hin|Hin].
  - assert (n = sz * 8) as En by auto. unfold select. rewrite En, Z.eqb_refl, <- En, E.
    apply elem_of_ctypes in Hin.
    assert (sz = 1 \/ sz = 2 \/ sz = 4 \/ sz = 8) as Hsz by lia.
    destruct Hsz as [->|[->|[->| ->]]]; subst n; done.
  - assert (select sz n l = slow l) as ->; [|by apply table_slow; auto].
    unfold select. destruct (Z.eqb_spec n (sz * 8)) as [En|]; [|done].
    rewrite elem_of_ctypes in Hin. unfold select_by_size. rewrite E. zcases; try lia; done.
Qed.

Definition omap {A B} (f : A -> B) (m : outcome A) : outcome B := obind m (fun x => Ok (f x)).

(** The properties of the entries of a table, from a specification on the
    unsigned values of the operands. *)
Definition computes1 (f : Z -> Z -> outcome Z) (n : Z) (g : intrinsic_1_t) : Prop :=
  forall pa pr, buf n pa -> g n pa pr = omap (put n pr) (f n (rd n pa)).
Definition computes2 (f : Z -> Z -> Z -> outcome Z) (n : Z) (g : intrinsic_2_t) : Prop :=
  forall pa pb pr, buf n pa -> buf n pb -> g n pa pb pr = omap (put n pr) (f n (rd n pa) (rd n pb)).
Definition computes_cmp (f : Z -> Z -> Z -> bool) (n : Z) (g : intrinsic_cmp_t) : Prop :=
  forall pa pb, buf n pa -> buf n pb -> g n pa pb = Ok (f n (rd n pa) (rd n pb)).
Definition computes_checked (f : Z -> Z -> Z -> outcome (Z * bool)) (n : Z) (g : intrinsic_checked_t) : Prop :=
  forall pa pb pr, buf n pa -> buf n pb ->
    g n pa pb pr = omap (fun r => (put n pr r.1, r.2)) (f n (rd n pa) (rd n pb)).

Lemma table_ctypes {F} (P : Z -> F -> Prop) f (gen : Z -> F) :
  (forall n, 0 < n < 2 ^ 32 -> n ∉ ctypes -> P n f) ->
  (forall w, w = 8 \/ w = 16 \/ w = 32 \/ w = 64 -> P w (gen w)) ->
  Table P {| slow := f; sized := map gen ctypes |}.
Proof.
  intros Hs Hg. constructor.
  - intros n Hn [Hin|E]; [by apply Hs|done].
  - right. unfold ctypes. cbn [sized map]. repeat constructor; apply Hg; lia.
Qed.

Lemma table_slow_only {F} (P : Z -> F -> Prop) f :
  (forall n, 0 < n < 2 ^ 32 -> P n f) -> Table P {| slow := f; sized := [] |}.
Proof. intros Hs. constructor; [|by left]. intros n Hn _. by apply Hs. Qed.

(** ** Promoted arithmetic *)

Section Spec.
Context (wrapv : bool).

(** Is the C evaluation of [v] in a [w]-bit type undefined? *)
Definition ub (w : Z) (s : bool) (v : Z) : bool :=
  let '(w', s') := promote w s in s' && negb (fits true w' v || wrapv).

Lemma arith_spec w s v : w = 8 \/ w = 16 \/ w = 32 \/ w = 64 ->
  omap (uw w) (arith wrapv w s v) = if ub w s v then Undefined else Ok (uw w v).
Proof.
  intros Hw. unfold arith, ub, promote. destruct (Z.ltb_spec w 32).
  - cbn [andb]. destruct (_ || wrapv) eqn:E; cbn; [|done]. f_equal. 
    rewrite <- (uw_narrow w 32 (sw 32 v)), uw_sw, uw_narrow by lia. done.
  - destruct s; cbn; [|by rewrite uw_uw]. destruct (_ || wrapv); cbn; [|done]. by rewrite uw_sw by lia.
Qed.

(** A value of a C type in range is evaluated exactly. *)
Lemma arith_exact w s v : w = 8 \/ w = 16 \/ w = 32 \/ w = 64 ->
  (let '(w', s') := promote w s in fits s' w' v = true) -> arith wrapv w s v = Ok v.
Proof.
  intros Hw. unfold arith, promote. destruct (Z.ltb_spec w 32); [|destruct s].
  1,2: intros Hf; rewrite Hf; cbn [orb]; unfold fits in Hf; apply andb_true_iff in Hf as [H1 H2];
    apply Z.leb_le in H1; apply Z.ltb_lt in H2; by rewrite sw_small by lia.
  intros Hf. unfold fits, in_rangeb in Hf. apply andb_true_iff in Hf as [H1 H2].
  by rewrite uw_small by (unfold in_range; lia).
Qed.

Definition is_ctype (n : Z) : bool := bool_decide (n ∈ ctypes).

Lemma is_ctype_true n : n = 8 \/ n = 16 \/ n = 32 \/ n = 64 -> is_ctype n = true.
Proof. intros H. by apply bool_decide_eq_true, elem_of_ctypes. Qed.
Lemma is_ctype_false n : n ∉ ctypes -> is_ctype n = false.
Proof. apply bool_decide_eq_false. Qed.

(** ** Specifications of the integer intrinsics *)

Definition undef_if (c : bool) (m : outcome Z) : outcome Z := if c then Undefined else m.

(** Division: by zero, or (quotient) not representable. *)
Definition div_spec (s : bool) (n a b : Z) : outcome Z :=
  let x := if s then sw n a else a in
  let y := if s then sw n b else b in
  if y =? 0 then (if is_ctype n then Undefined else Throw DivideError)
  else if fits s n (Z.quot x y) then Ok (uw n (Z.quot x y))
  else if is_ctype n then undef_if (32 <=? n) (Ok (uw n (Z.quot x y)))
  else Throw DivideError.
Definition rem_spec (s : bool) (n a b : Z) : outcome Z :=
  let x := if s then sw n a else a in
  let y := if s then sw n b else b in
  if y =? 0 then (if is_ctype n then Undefined else Throw DivideError)
  else undef_if (is_ctype n && (32 <=? n) && negb (fits s n (Z.quot x y))) (Ok (uw n (Z.rem x y))).

Definition bi_spec (op : bi_op) (n a b : Z) : outcome Z :=
  match op with
  | add_int => Ok (uw n (a + b))
  | sub_int => Ok (uw n (a - b))
  | mul_int => undef_if (negb wrapv && (n =? 16) && (2 ^ 31 <=? a * b)) (Ok (uw n (a * b)))
  | sdiv_int => div_spec true n a b
  | udiv_int => div_spec false n a b
  | srem_int => rem_spec true n a b
  | urem_int => rem_spec false n a b
  | and_int => Ok (Z.land a b)
  | or_int => Ok (Z.lor a b)
  | xor_int => Ok (Z.lxor a b)
  | shl_int => Ok (uw n (Z.shiftl a b))
  | lshr_int => Ok (Z.shiftr a b)
  | ashr_int => Ok (uw n (Z.shiftr (sw n a) b))
  | flipsign_int =>
      if sw n b <? 0
      then undef_if (negb wrapv && ((n =? 32) || (n =? 64)) && (sw n a =? - 2 ^ (n - 1))) (Ok (uw n (- sw n a)))
      else Ok (uw n a)
  end.

Definition cmp_spec (op : cmp_op) (n a b : Z) : bool :=
  match op with
  | eq_int => a =? b
  | ne_int => negb (a =? b)
  | slt_int => sw n a <? sw n b
  | ult_int => a <? b
  | sle_int => sw n a <=? sw n b
  | ule_int => a <=? b
  end.

(** The exact result of a checked operation. *)
Definition checked_exact (op : checked_op) (n a b : Z) : Z :=
  match op with
  | checked_sadd_int => sw n a + sw n b
  | checked_uadd_int => a + b
  | checked_ssub_int => sw n a - sw n b
  | checked_usub_int => a - b
  | checked_smul_int => sw n a * sw n b
  | checked_umul_int => a * b
  | checked_sdiv_int => Z.quot (sw n a) (sw n b)
  | checked_udiv_int => Z.quot a b
  | checked_srem_int => Z.rem (sw n a) (sw n b)
  | checked_urem_int => Z.rem a b
  end.

(** The fast signed addition and subtraction of [int32_t] and [int64_t] are
    evaluated before the overflow test: undefined when they overflow. *)
Definition checked_ub (op : checked_op) (n a b : Z) : bool :=
  match op with
  | checked_sadd_int | checked_ssub_int =>
      negb wrapv && ((n =? 32) || (n =? 64)) && negb (fits true n (checked_exact op n a b))
  | _ => false
  end.
Definition checked_spec (op : checked_op) (n a b : Z) : outcome (Z * bool) :=
  let v := checked_exact op n a b in
  if checked_ub op n a b then Undefined
  else Ok (uw n v, negb (fits (checked_signed op) n v)).
End Spec.

(** ** The tables implement the specifications *)

Section Tables.
Context (wrapv : bool).

Lemma rd_bounds n bs : 0 < n -> 0 <= rd n bs < 2 ^ n.
Proof. intros. apply rd_range. lia. Qed.

Lemma sw_rd n bs : sw n (rd n bs) = rds n bs.
Proof. apply sw_uw. Qed.

Lemma ival_sw s n bs : ival s n bs = if s then sw n (rd n bs) else rd n bs.
Proof. destruct s; [by rewrite sw_rd|done]. Qed.

Lemma fast2 op s w (v : Z) pa pb pr : w = 8 \/ w = 16 \/ w = 32 \/ w = 64 ->
  op w s (ival s w pa) (ival s w pb) = arith wrapv w s v ->
  bi_intrinsic_ctype op s w w pa pb pr = if ub wrapv w s v then Undefined else Ok (put w pr (uw w v)).
Proof.
  intros Hw E. unfold bi_intrinsic_ctype. rewrite E.
  pose proof (arith_spec wrapv w s v Hw) as H.
  destruct (arith wrapv w s v) as [x|e|]; cbn in *; destruct (ub wrapv w s v); try done.
  by inversion H as [H1]; rewrite H1.
Qed.

Lemma bi_exact op s w v pa pb pr : op w s (ival s w pa) (ival s w pb) = Ok v ->
  bi_intrinsic_ctype op s w w pa pb pr = Ok (put w pr (uw w v)).
Proof. intros E. unfold bi_intrinsic_ctype. by rewrite E. Qed.

(** Unsigned operands: only a product of 16-bit operands can overflow [int]. *)
Lemma ub_unsigned w v : w = 8 \/ w = 16 \/ w = 32 \/ w = 64 -> - 2 ^ 31 <= v < 2 ^ 31 \/ 32 <= w -> ub wrapv w false v = false.
Proof.
  intros Hw Hv. unfold ub, promote. destruct (Z.ltb_spec w 32); [|done]. unfold fits.
  change (2 ^ (32 - 1)) with (2 ^ 31). destruct Hv; [|lia]. zcases; cbn; try lia; by rewrite ?andb_false_r.
Qed.

Lemma ctype_pow w : w = 8 \/ w = 16 \/ w = 32 \/ w = 64 ->
  w = 8 /\ 2 ^ w = 256 \/ w = 16 /\ 2 ^ w = 65536 \/ w = 32 /\ 2 ^ w = 4294967296 \/ w = 64 /\ 2 ^ w = 18446744073709551616.
Proof. intros [->|[->|[->| ->]]]; auto 10. Qed.

Ltac c_range Hw pa pb :=
  pose proof (rd_bounds _ pa (ltac:(lia) : 0 < _)); pose proof (rd_bounds _ pb (ltac:(lia) : 0 < _)).

Lemma unsigned_small w pa pb : w = 8 \/ w = 16 \/ w = 32 \/ w = 64 ->
  32 <= w \/ (0 <= rd w pa < 2 ^ 16 /\ 0 <= rd w pb < 2 ^ 16).
Proof.
  intros Hw. pose proof (rd_bounds w pa ltac:(lia)). pose proof (rd_bounds w pb ltac:(lia)).
  destruct (ctype_pow w Hw) as [[? E]|[[? E]|[[? E]|[? E]]]]; rewrite E in *; change (2 ^ 16) with 65536; lia.
Qed.

#[global] Instance add_table : Table (computes2 (bi_spec wrapv add_int)) (add_int_list wrapv).
Proof.
  apply table_ctypes.
  - intros n Hn _ pa pb pr Ha Hb. unfold pure4, APInt_add. cbn [of_sum].
    rewrite APInt_addsub_ov_correct by (done || lia). done.
  - intros w Hw pa pb pr Ha Hb. rewrite (fast2 _ _ _ (rd w pa + rd w pb)) by done.
    rewrite ub_unsigned; [done|done|]. destruct (unsigned_small w pa pb Hw); [by right|left].
    change (2 ^ 16) with 65536 in *. lia.
Qed.

#[global] Instance sub_table : Table (computes2 (bi_spec wrapv sub_int)) (sub_int_list wrapv).
Proof.
  apply table_ctypes.
  - intros n Hn _ pa pb pr Ha Hb. unfold pure4, APInt_sub. cbn [of_sum].
    rewrite APInt_addsub_ov_correct by (done || lia). done.
  - intros w Hw pa pb pr Ha Hb. rewrite (fast2 _ _ _ (rd w pa - rd w pb)) by done.
    rewrite ub_unsigned; [done|done|]. destruct (unsigned_small w pa pb Hw); [by right|left].
    change (2 ^ 16) with 65536 in *. lia.
Qed.

#[global] Instance mul_table : Table (computes2 (bi_spec wrapv mul_int)) (mul_int_list wrapv).
Proof.
  apply table_ctypes.
  - intros n Hn Hc pa pb pr Ha Hb. unfold pure4. cbn [of_sum]. rewrite APInt_mul_correct by (done || lia).
    cbn [bi_spec]. unfold undef_if. destruct (Z.eqb_spec n 16) as [->|]; [|by rewrite andb_false_r].
    destruct Hc. apply elem_of_ctypes. auto.
  - intros w Hw pa pb pr Ha Hb. rewrite (fast2 _ _ _ (rd w pa * rd w pb)) by done. cbn [bi_spec].
    pose proof (rd_bounds w pa ltac:(lia)). pose proof (rd_bounds w pb ltac:(lia)).
    set (p := rd w pa * rd w pb). assert (0 <= p < 2 ^ w * 2 ^ w) by (subst p; nia). clearbody p.
    unfold ub, undef_if, promote, fits. change (2 ^ (32 - 1)) with (2 ^ 31).
    destruct (ctype_pow w Hw) as [[-> E]|[[-> E]|[[-> E]|[-> E]]]]; rewrite E in *;
      change (2 ^ 31) with 2147483648; destruct wrapv; cbn -[Z.mul]; zcases; cbn; try done; lia.
Qed.

Lemma quot_le x y : y <> 0 -> - Z.abs x <= Z.quot x y <= Z.abs x.
Proof.
  intros Hy. rewrite quot_abs by done.
  assert (0 <= Z.abs x / Z.abs y <= Z.abs x) by (split; [apply Z.div_pos; lia|apply Z.div_le_upper_bound; nia]).
  case_match; lia.
Qed.

(** Promoted to [int], the quotient of narrow operands always fits. *)
Lemma fits_promoted (s : bool) w pa pb : w = 8 \/ w = 16 -> ival s w pb <> 0 ->
  fits true 32 (Z.quot (ival s w pa) (ival s w pb)) = true.
Proof.
  intros Hw Hy. pose proof (quot_le (ival s w pa) _ Hy). pose proof (ival_range s w pa ltac:(lia)) as B.
  assert (2 ^ w <= 65536) by (destruct Hw as [-> | ->]; lia).
  unfold fits. change (2 ^ (32 - 1)) with 2147483648. zcases; cbn; lia.
Qed.

Lemma fast_div (s : bool) w pa pb pr : w = 8 \/ w = 16 \/ w = 32 \/ w = 64 -> buf w pa -> buf w pb ->
  bi_intrinsic_ctype div s w w pa pb pr = omap (put w pr) (div_spec s w (rd w pa) (rd w pb)).
Proof.
  intros Hw Ha Hb. unfold bi_intrinsic_ctype, div, div_spec. rewrite (is_ctype_true w) by done.
  rewrite <- !ival_sw. destruct (Z.eqb_spec (ival s w pb) 0) as [|Hy]; [done|]. unfold promote.
  destruct (Z.ltb_spec w 32), (Z.leb_spec 32 w); try lia; cbn [undef_if].
  - rewrite fits_promoted by (done || lia). by case_match.
  - by case_match.
Qed.

Lemma fast_rem (s : bool) w pa pb pr : w = 8 \/ w = 16 \/ w = 32 \/ w = 64 -> buf w pa -> buf w pb ->
  bi_intrinsic_ctype rem s w w pa pb pr = omap (put w pr) (rem_spec s w (rd w pa) (rd w pb)).
Proof.
  intros Hw Ha Hb. unfold bi_intrinsic_ctype, rem, rem_spec. rewrite (is_ctype_true w) by done.
  rewrite <- !ival_sw. destruct (Z.eqb_spec (ival s w pb) 0) as [|Hy]; [done|]. unfold promote, undef_if.
  destruct (Z.ltb_spec w 32), (Z.leb_spec 32 w); try lia; cbn [andb negb].
  - by rewrite fits_promoted by (done || lia).
  - by destruct (fits _ _ _).
Qed.

Lemma slow_div s n pa pb pr : 0 < n -> n ∉ ctypes -> buf n pa -> buf n pb ->
  of_sum (or_diverror (APInt_divrem n pa pb pr WantQuot s)) = omap (put n pr) (div_spec s n (rd n pa) (rd n pb)).
Proof.
  intros Hn Hc Ha Hb. rewrite APInt_divrem_correct by done. unfold div_spec, divrem_exact.
  rewrite (is_ctype_false n), <- !ival_sw by done.
  destruct (ival s n pb =? 0); [done|]. cbn. unfold or_diverror. cbn. by destruct (fits _ _ _).
Qed.

Lemma slow_rem s n pa pb pr : 0 < n -> n ∉ ctypes -> buf n pa -> buf n pb ->
  of_sum (or_diverror (APInt_divrem n pa pb pr WantRem s)) = omap (put n pr) (rem_spec s n (rd n pa) (rd n pb)).
Proof.
  intros Hn Hc Ha Hb. rewrite APInt_divrem_correct by done. unfold rem_spec, divrem_exact.
  rewrite (is_ctype_false n), <- !ival_sw by done.
  destruct (Z.eqb_spec (ival s n pb) 0); [done|]. rewrite rem_fits; [done|lia|done|apply ival_bounds; lia].
Qed.

#[global] Instance sdiv_table : Table (computes2 (bi_spec wrapv sdiv_int)) sdiv_int_list.
Proof.
  apply table_ctypes.
  - intros n Hn Hc pa pb pr Ha Hb. apply slow_div; auto. lia.
  - intros w Hw pa pb pr Ha Hb. by apply fast_div.
Qed.
#[global] Instance udiv_table : Table (computes2 (bi_spec wrapv udiv_int)) udiv_int_list.
Proof.
  apply table_ctypes.
  - intros n Hn Hc pa pb pr Ha Hb. apply slow_div; auto. lia.
  - intros w Hw pa pb pr Ha Hb. by apply fast_div.
Qed.
#[global] Instance srem_table : Table (computes2 (bi_spec wrapv srem_int)) srem_int_list.
Proof.
  apply table_ctypes.
  - intros n Hn Hc pa pb pr Ha Hb. apply slow_rem; auto. lia.
  - intros w Hw pa pb pr Ha Hb. by apply fast_rem.
Qed.
#[global] Instance urem_table : Table (computes2 (bi_spec wrapv urem_int)) urem_int_list.
Proof.
  apply table_ctypes.
  - intros n Hn Hc pa pb pr Ha Hb. apply slow_rem; auto. lia.
  - intros w Hw pa pb pr Ha Hb. by apply fast_rem.
Qed.

Lemma bitop_table (f : Z -> Z -> Z) (g : bool -> bool -> bool) slowf op :
  (forall n pa pb pr, 0 < n -> buf n pa -> buf n pb -> bitop_spec n pa pb pr (slowf n pa pb pr) f) ->
  (forall w s a b, op w s a b = Ok (f a b)) ->
  (forall x y w, 0 <= w -> in_range w x -> in_range w y -> in_range w (f x y)) ->
  Table (computes2 (fun _ a b => Ok (f a b))) (bi_iintrinsic_fast (pure4 slowf) op false).
Proof.
  intros Hs Hf Hr. apply table_ctypes.
  - intros n Hn Hc pa pb pr Ha Hb. unfold pure4. cbn. f_equal. apply Hs; auto. lia.
  - intros w Hw pa pb pr Ha Hb. rewrite (bi_exact _ _ _ (f (rd w pa) (rd w pb))) by (cbn [ival]; by rewrite Hf).
    cbn. rewrite uw_small; [done|]. apply Hr; [lia|apply rd_range; lia|apply rd_range; lia].
Qed.

#[global] Instance and_table : Table (computes2 (bi_spec wrapv and_int)) and_int_list.
Proof. apply (bitop_table Z.land andb); auto using in_range_land. intros. by apply APInt_bitwise_correct. Qed.
#[global] Instance or_table : Table (computes2 (bi_spec wrapv or_int)) or_int_list.
Proof. apply (bitop_table Z.lor orb); auto using in_range_lor. intros. by apply APInt_bitwise_correct. Qed.
#[global] Instance xor_table : Table (computes2 (bi_spec wrapv xor_int)) xor_int_list.
Proof. apply (bitop_table Z.lxor xorb); auto using in_range_lxor. intros. by apply APInt_bitwise_correct. Qed.

Lemma shiftl_zero w v k : 0 < w <= k -> uw w (Z.shiftl v k) = 0.
Proof.
  intros Hk. rewrite <- shiftl_clip, Z.min_r by lia. apply uw_unique; auto with word.
  exists v. rewrite Z.shiftl_mul_pow2 by lia. lia.
Qed.

#[global] Instance shl_table : Table (computes2 (bi_spec wrapv shl_int)) (shl_int_list wrapv).
Proof.
  apply table_ctypes.
  - intros n Hn Hc pa pb pr Ha Hb. unfold pure4. cbn. by rewrite APInt_shl_correct.
  - intros w Hw pa pb pr Ha Hb. pose proof (rd_bounds w pa ltac:(lia)). pose proof (rd_bounds w pb ltac:(lia)).
    cbn [bi_spec]. destruct (Z.leb_spec w (rd w pb)) as [Hle|Hlt].
    + rewrite shiftl_zero by lia. rewrite (bi_exact _ _ _ 0); [done|].
      unfold shl_op. cbn [ival]. by destruct (Z.leb_spec w (rd w pb)); [|lia].
    + rewrite (fast2 _ _ _ (Z.shiftl (rd w pa) (rd w pb))) by
        (try done; unfold shl_op; cbn [ival]; by destruct (Z.leb_spec w (rd w pb)); [lia|]).
      rewrite ub_unsigned; [done|done|]. destruct (Z.le_gt_cases 32 w); [by right|left].
      rewrite Z.shiftl_mul_pow2 by lia.
      assert (0 < 2 ^ rd w pb <= 2 ^ 15) by (split; [apply pow2_pos; lia|apply Z.pow_le_mono_r; lia]).
      assert (2 ^ w <= 2 ^ 16) by (apply Z.pow_le_mono_r; lia).
      change (2 ^ 15) with 32768 in *. change (2 ^ 16) with 65536 in *. change (2 ^ 31) with 2147483648. nia.
Qed.

#[global] Instance lshr_table : Table (computes2 (bi_spec wrapv lshr_int)) lshr_int_list.
Proof.
  assert (forall n v k, 0 <= n -> 0 <= k -> 0 <= v < 2 ^ n -> uw n (Z.shiftr v k) = Z.shiftr v k) as Hsm.
  { intros. apply uw_small, in_range_shiftr; done. }
  apply table_ctypes.
  - intros n Hn Hc pa pb pr Ha Hb. pose proof (rd_bounds n pa ltac:(lia)). pose proof (rd_bounds n pb ltac:(lia)).
    unfold pure4, APInt_lshr. cbn. rewrite APInt_shr_correct by done. cbn [ival]. by rewrite Hsm by lia.
  - intros w Hw pa pb pr Ha Hb. pose proof (rd_bounds w pa ltac:(lia)). pose proof (rd_bounds w pb ltac:(lia)).
    rewrite (bi_exact _ _ _ (Z.shiftr (rd w pa) (rd w pb))); [cbn; by rewrite Hsm by lia|].
    unfold lshr_op. cbn [ival]. destruct (Z.leb_spec w (rd w pb)); [|done]. f_equal. symmetry.
    rewrite Z.shiftr_div_pow2 by lia. apply Z.div_small. split; [lia|]. eapply Z.lt_le_trans; [apply H|].
    apply Z.pow_le_mono_r; lia.
Qed.

(** A shift by at least the width leaves the sign. *)
Lemma shiftr_sign w v k : 0 < w -> - 2 ^ (w - 1) <= v < 2 ^ (w - 1) -> w - 1 <= k -> Z.shiftr v k = Z.shiftr v (w - 1).
Proof.
  intros Hw Hv Hk. apply Z.bits_inj'. intros i Hi. rewrite !Z.shiftr_spec by lia.
  by rewrite !(sign_bits (w - 1)) by lia.
Qed.

#[global] Instance ashr_table : Table (computes2 (bi_spec wrapv ashr_int)) ashr_int_list.
Proof.
  apply table_ctypes.
  - intros n Hn Hc pa pb pr Ha Hb. unfold pure4, APInt_ashr. cbn. rewrite APInt_shr_correct by done.
    cbn [ival]. by rewrite sw_rd.
  - intros w Hw pa pb pr Ha Hb. pose proof (rds_range w pa ltac:(lia)). pose proof (rd_bounds w pb ltac:(lia)).
    cbn [bi_spec]. rewrite sw_rd. apply bi_exact.
    unfold ashr_op. cbn [ival]. rewrite (rds_rd w pb). pose proof (pow2_half w ltac:(lia)).
    assert (w <= 2 ^ (w - 1)) by (destruct Hw as [->|[->|[->| ->]]]; lia).
    destruct (Z.ltb_spec (rd w pb) (2 ^ (w - 1))); zcases; cbn [orb]; try lia; try done; f_equal; symmetry;
      apply shiftr_sign; lia.
Qed.

(** Flipping the sign copies a non-negative first operand as it is, unused
    bits of its last byte included: the operand must have them clear. *)
Definition canonical (n : Z) (bs : list Z) : Prop := take (APINT_NBYTES n) bs = digits 8 (APINT_NBYTES n) (rd n bs).
Definition computes2c (canon : bool) (f : Z -> Z -> Z -> outcome Z) (n : Z) (g : intrinsic_2_t) : Prop :=
  forall pa pb pr, buf n pa -> buf n pb -> (canon = true -> canonical n pa) ->
    g n pa pb pr = omap (put n pr) (f n (rd n pa) (rd n pb)).
Definition needs_canonical (op : bi_op) : bool := match op with flipsign_int => true | _ => false end.

Lemma table_mono {F} (P Q : Z -> F -> Prop) l : (forall n f, P n f -> Q n f) -> Table P l -> Table Q l.
Proof.
  intros HPQ [Hs Hz]. constructor; [intros; apply HPQ; by apply Hs|].
  destruct Hz as [E|HF]; [by left|right]. eapply Forall2_impl; [exact HF|]. intros. by apply HPQ.
Qed.

#[global] Instance flipsign_table : Table (computes2c true (bi_spec wrapv flipsign_int)) (flipsign_int_list wrapv).
Proof.
  apply table_ctypes.
  - intros n Hn Hc pa pb pr Ha Hb Hcan. cbn. rewrite !sw_rd. unfold canonical in Hcan. specialize (Hcan eq_refl).
    assert (negb wrapv && ((n =? 32) || (n =? 64)) = false) as Hnw.
    { rewrite elem_of_ctypes in Hc. zcases; subst; cbn; try by rewrite andb_false_r. all: destruct Hc; lia. }
    rewrite Hnw. cbn [andb undef_if]. rewrite (APInt_flipsign_eq n pa pb pr) by (done || lia).
    destruct (rds n pb <? 0); cbn.
    { rewrite APInt_neg_correct by (done || lia). by rewrite <- (rd_rds n pa), uw_opp by lia. }
    unfold put, memcpy. rewrite Hcan.
    rewrite uw_small by (apply rd_range; lia). done.
  - intros w Hw pa pb pr Ha Hb _. cbn [bi_spec]. rewrite !sw_rd.
    pose proof (rds_range w pa ltac:(lia)). pose proof (rds_range w pb ltac:(lia)).
    destruct (Z.ltb_spec (rds w pb) 0).
    + rewrite (fast2 _ _ _ (- rds w pa)) by (try done; unfold flipsign; cbn [ival]; by destruct (Z.leb_spec 0 (rds w pb)); [lia|]).
      unfold ub, undef_if, promote, fits. change (2 ^ (32 - 1)) with 2147483648.
      destruct Hw as [->|[->|[->| ->]]];
        [change (2 ^ (8 - 1)) with 128 in *|change (2 ^ (16 - 1)) with 32768 in *|change (2 ^ (32 - 1)) with 2147483648 in *
        |change (2 ^ (64 - 1)) with 9223372036854775808 in *];
        destruct wrapv; cbn -[Z.opp rds]; zcases; cbn; try done; lia.
    + rewrite (bi_exact _ _ _ (rds w pa)).
      * cbn. by rewrite rd_rds, (uw_small w (rd w pa)) by (apply rd_range || idtac; lia).
      * unfold flipsign. cbn [ival]. by destruct (Z.leb_spec 0 (rds w pb)); [|lia].
Qed.

Lemma bi_table op : Table (computes2c (needs_canonical op) (bi_spec wrapv op)) (bi_list wrapv op).
Proof.
  destruct op; cbn [needs_canonical bi_list]; [..|exact _];
    match goal with |- Table (computes2c _ ?f) _ =>
      apply (table_mono (computes2 f)); [intros ? ? H ? ? ? ? ? ?; by apply H|exact _] end.
Qed.

(** Comparisons. *)
Lemma cmp_table op : Table (computes_cmp (cmp_spec op)) (cmp_list op).
Proof.
  destruct op; apply table_ctypes;
    try (intros n Hn Hc pa pb Ha Hb; unfold cmp_spec; rewrite ?sw_rd;
         unfold APInt_eq, APInt_ne, APInt_slt, APInt_ult, APInt_sle, APInt_ule;
         rewrite APInt_cmp_correct by (done || lia); cbn [ival]; f_equal;
         match goal with |- context [?x ?= ?y] => destruct (Z.compare_spec x y) end; zcases; cbn; lia).
  all: intros w Hw pa pb Ha Hb; unfold bool_intrinsic_ctype, cmp_spec; cbn [ival]; by rewrite ?sw_rd.
Qed.

(** Unary operations. *)
Lemma fast1 op w (v : Z) pa pr : w = 8 \/ w = 16 \/ w = 32 \/ w = 64 ->
  op w false (rd w pa) = arith wrapv w false v -> - 2 ^ 31 <= v < 2 ^ 31 \/ 32 <= w ->
  un_iintrinsic_ctype op false w w pa pr = Ok (put w pr (uw w v)).
Proof.
  intros Hw E Hv. unfold un_iintrinsic_ctype. cbn [ival]. rewrite E.
  pose proof (arith_spec wrapv w false v Hw) as H. rewrite ub_unsigned in H by done.
  destruct (arith wrapv w false v) as [x|e|]; cbn in *; try done. by inversion H as [H1]; rewrite H1.
Qed.

Lemma rd_small w pa : w = 8 \/ w = 16 \/ w = 32 \/ w = 64 -> 32 <= w \/ 0 <= rd w pa < 65536.
Proof. intros Hw. destruct (unsigned_small w pa pa Hw) as [?|[? _]]; auto. Qed.

#[global] Instance neg_table : Table (computes1 (fun n a => Ok (uw n (- a)))) (neg_int_list wrapv).
Proof.
  apply table_ctypes.
  - intros n Hn Hc pa pr Ha. cbn. by rewrite APInt_neg_correct by (done || lia).
  - intros w Hw pa pr Ha. rewrite (fast1 _ _ (- rd w pa)); try done.
    destruct (rd_small w pa Hw); [by right|left]. change (2 ^ 31) with 2147483648. lia.
Qed.

#[global] Instance not_table : Table (computes1 (fun n a => Ok (uw n (Z.lnot a)))) (not_int_list wrapv).
Proof.
  apply table_ctypes.
  - intros n Hn Hc pa pr Ha. cbn. by rewrite APInt_not_correct by (done || lia).
  - intros w Hw pa pr Ha. rewrite (fast1 _ _ (Z.lnot (rd w pa))); try done.
    destruct (rd_small w pa Hw); [by right|left]. change (2 ^ 31) with 2147483648. unfold Z.lnot. lia.
Qed.
(** ** Checked arithmetic *)

Lemma arith_in_type w s v : w = 8 \/ w = 16 \/ w = 32 \/ w = 64 ->
  (if s : bool then - 2 ^ (w - 1) <= v < 2 ^ (w - 1) else 0 <= v < 2 ^ w) -> arith wrapv w s v = Ok v.
Proof.
  intros Hw Hv. apply arith_exact; [done|]. unfold promote, fits, in_rangeb. change (2 ^ (32 - 1)) with 2147483648.
  destruct Hw as [->|[->|[->| ->]]]; cbn [Z.ltb Z.compare Pos.compare Pos.compare_cont]; destruct s; cbn -[Z.pow] in *;
    try change (2 ^ 7) with 128 in *; try change (2 ^ 8) with 256 in *;
    try change (2 ^ 15) with 32768 in *; try change (2 ^ 16) with 65536 in *;
    try change (2 ^ 31) with 2147483648 in *;
    try change (2 ^ 32) with 4294967296 in *; zcases; cbn; try done; lia.
Qed.

Lemma sTYPEMAX_eq w : w = 8 \/ w = 16 \/ w = 32 \/ w = 64 -> sTYPEMAX w w = 2 ^ (w - 1) - 1.
Proof. by intros [->|[->|[->| ->]]]. Qed.
Lemma uTYPEMAX_eq w : w = 8 \/ w = 16 \/ w = 32 \/ w = 64 -> uTYPEMAX w w = 2 ^ w - 1.
Proof. by intros [->|[->|[->| ->]]]. Qed.

Lemma check_sadd_spec w a b : w = 8 \/ w = 16 \/ w = 32 \/ w = 64 ->
  - 2 ^ (w - 1) <= a < 2 ^ (w - 1) -> - 2 ^ (w - 1) <= b < 2 ^ (w - 1) ->
  check_sadd_int wrapv w w a b = Ok (negb (fits true w (a + b))).
Proof.
  intros Hw Ha Hb. unfold check_sadd_int, sTYPEMIN. rewrite sTYPEMAX_eq by done.
  destruct (Z.leb_spec 0 b); rewrite arith_in_type by (done || lia); cbn [obind]; unfold fits; f_equal; zcases; cbn; lia.
Qed.
Lemma check_ssub_spec w a b : w = 8 \/ w = 16 \/ w = 32 \/ w = 64 ->
  - 2 ^ (w - 1) <= a < 2 ^ (w - 1) -> - 2 ^ (w - 1) <= b < 2 ^ (w - 1) ->
  check_ssub_int wrapv w w a b = Ok (negb (fits true w (a - b))).
Proof.
  intros Hw Ha Hb. unfold check_ssub_int, sTYPEMIN. rewrite sTYPEMAX_eq by done.
  destruct (Z.leb_spec 0 b); rewrite arith_in_type by (done || lia); cbn [obind]; unfold fits; f_equal; zcases; cbn; lia.
Qed.
Lemma check_uadd_spec w a b : w = 8 \/ w = 16 \/ w = 32 \/ w = 64 -> 0 <= a < 2 ^ w -> 0 <= b < 2 ^ w ->
  check_uadd_int wrapv w w a b = Ok (negb (fits false w (a + b))).
Proof.
  intros Hw Ha Hb. unfold check_uadd_int. rewrite uTYPEMAX_eq by done.
  rewrite arith_in_type by (done || lia). cbn [obind]. unfold fits, in_rangeb. f_equal. zcases; cbn; lia.
Qed.
Lemma check_usub_spec w a b : w = 8 \/ w = 16 \/ w = 32 \/ w = 64 -> 0 <= a < 2 ^ w -> 0 <= b < 2 ^ w ->
  check_usub_int wrapv w w a b = Ok (negb (fits false w (a - b))).
Proof.
  intros Hw Ha Hb. unfold check_usub_int, uTYPEMIN.
  rewrite arith_in_type by (done || lia). cbn [obind]. unfold fits, in_rangeb. f_equal. zcases; cbn; lia.
Qed.

Lemma fast_checked check op (s : bool) w (v : Z) pa pb pr : w = 8 \/ w = 16 \/ w = 32 \/ w = 64 ->
  op w s (ival s w pa) (ival s w pb) = arith wrapv w s v ->
  check w w (ival s w pa) (ival s w pb) = Ok (negb (fits s w v)) ->
  checked_intrinsic_ctype check op s w w pa pb pr
  = if ub wrapv w s v then Undefined else Ok (put w pr (uw w v), negb (fits s w v)).
Proof.
  intros Hw E C. unfold checked_intrinsic_ctype. rewrite E, C.
  pose proof (arith_spec wrapv w s v Hw) as H.
  destruct (arith wrapv w s v) as [x|e|]; cbn in *; destruct (ub wrapv w s v); try done.
  by inversion H as [H1]; rewrite H1.
Qed.

(** Signed addition and subtraction are undefined exactly on the overflow of a
    32- or 64-bit type. *)
Lemma ub_signed w v : w = 8 \/ w = 16 \/ w = 32 \/ w = 64 -> - 2 ^ w <= v < 2 ^ w ->
  ub wrapv w true v = negb wrapv && ((w =? 32) || (w =? 64)) && negb (fits true w v).
Proof.
  intros Hw Hv. unfold ub, promote.
  destruct Hw as [->|[->|[->| ->]]]; cbn [Z.ltb Z.compare Pos.compare Pos.compare_cont Z.eqb Pos.eqb andb orb];
    rewrite ?negb_orb, ?andb_true_r, ?andb_false_r; cbn [andb]; try (by rewrite andb_comm).
  all: assert (fits true 32 v = true) as -> by
    (unfold fits; change (2 ^ (32 - 1)) with 2147483648; change (2 ^ 8) with 256 in *; change (2 ^ 16) with 65536 in *; zcases; cbn; lia);
    done.
Qed.

Lemma checked_slow_spec (f : Z -> list Z -> list Z -> list Z -> list Z * bool) op n pa pb pr :
  checked_ub wrapv op n (rd n pa) (rd n pb) = false ->
  (let v := checked_exact op n (rd n pa) (rd n pb) in f n pa pb pr = (put n pr (uw n v), negb (fits (checked_signed op) n v))) ->
  Ok (f n pa pb pr) = omap (fun r => (put n pr r.1, r.2)) (checked_spec wrapv op n (rd n pa) (rd n pb)).
Proof. intros Hub ->. unfold checked_spec. by rewrite Hub. Qed.

Lemma not_c3264 n : n ∉ ctypes -> (n =? 32) || (n =? 64) = false.
Proof. rewrite elem_of_ctypes. intros. zcases; try lia; done. Qed.

(** The operations that return the overflow flag. *)
Definition flag_op (op : checked_op) : bool := negb (checked_div op).

Lemma checked_table op : flag_op op = true -> Table (computes_checked (checked_spec wrapv op)) (checked_list wrapv op).
Proof.
  assert (forall s n pa pb pr, 0 < n < 2 ^ 32 -> buf n pa -> buf n pb ->
    let v := mul_exact s n pa pb in APInt_mul_ov n pa pb pr s = (put n pr (uw n v), negb (fits s n v))) as Hmul
    by (intros; apply APInt_mul_ov_correct; auto; lia).
  assert (forall is_sub s n pa pb pr, 0 < n < 2 ^ 32 -> buf n pa -> buf n pb ->
    let v := addsub_exact is_sub s n pa pb in
    APInt_addsub_ov n pa pb pr is_sub s = (put n pr (uw n v), negb (fits s n v))) as Hadd
    by (intros; apply APInt_addsub_ov_correct; auto; lia).
  intros Hop. destruct op; try done; cbn [checked_list]; try apply table_ctypes; try apply table_slow_only.
  1,3,5,7,9,10: intros n Hn; intros; intros pa pb pr Ha Hb; cbv beta; apply checked_slow_spec;
    [cbn [checked_ub]; rewrite ?not_c3264, ?andb_false_r by done; done|
     cbn [checked_exact checked_signed]; rewrite ?sw_rd; first [by apply Hmul | by apply (Hadd false) | by apply (Hadd true)]].
  all: intros w Hw pa pb pr Ha Hb; pose proof (rds_range w pa ltac:(lia)); pose proof (rds_range w pb ltac:(lia));
    pose proof (rd_bounds w pa ltac:(lia)); pose proof (rd_bounds w pb ltac:(lia)); pose proof (pow2_half w ltac:(lia));
    unfold checked_spec; cbn [checked_ub checked_exact checked_signed]; rewrite ?sw_rd.
  - rewrite (fast_checked _ _ _ _ (rds w pa + rds w pb)) by (try done; by apply check_sadd_spec).
    rewrite ub_signed by (done || lia). by case_match.
  - rewrite (fast_checked _ _ _ _ (rd w pa + rd w pb)) by (try done; by apply check_uadd_spec).
    rewrite ub_unsigned; [done|done|]. destruct (unsigned_small w pa pb Hw); [by right|left].
    change (2 ^ 16) with 65536 in *. change (2 ^ 31) with 2147483648. lia.
  - rewrite (fast_checked _ _ _ _ (rds w pa - rds w pb)) by (try done; by apply check_ssub_spec).
    rewrite ub_signed by (done || lia). by case_match.
  - rewrite (fast_checked _ _ _ _ (rd w pa - rd w pb)) by (try done; by apply check_usub_spec).
    rewrite ub_unsigned; [done|done|]. destruct (unsigned_small w pa pb Hw); [by right|left].
    change (2 ^ 16) with 65536 in *. change (2 ^ 31) with 2147483648. lia.
Qed.

(** The checked divisions. *)
Definition computes_div (op : checked_op) (n : Z) (g : intrinsic_checked_t) : Prop :=
  forall pa pb pr, buf n pa -> buf n pb ->
    let v := checked_exact op n (rd n pa) (rd n pb) in
    g n pa pb pr = Ok (if (if checked_signed op then sw n (rd n pb) else rd n pb) =? 0 then (pr, true)
                       else (put n pr (uw n v), negb (fits (checked_signed op) n v))).

Lemma checked_div_table op : checked_div op = true -> Table (computes_div op) (checked_list wrapv op).
Proof.
  intros Hop. destruct op; try done; apply table_slow_only; intros n Hn pa pb pr Ha Hb v; f_equal;
    unfold APInt_div_sov, APInt_div_uov, APInt_rem_sov, APInt_rem_uov;
    rewrite APInt_divrem_correct by (done || lia); subst v;
    cbn [checked_exact checked_signed]; unfold divrem_exact; cbn [ival]; rewrite ?sw_rd; done.
Qed.
End Tables.
