(* ===== verification/IntrinsicsCorrect.v ===== *)
(** * The integer intrinsics, end to end

    From boxed operands to the boxed result, for every primitive type: type
    checks, padding, selection of the C operation or of the arbitrary-width
    one, and the value. *)
From S2P Require Import Prelude APInt APIntFacts APIntOps APIntArith APIntBits APIntDiv APIntExt Intrinsics IntrinsicsFacts.

(** A primitive type as jl_new_primitivetype (src/src/datatype.c) lays it out,
    and a value of it. *)
Definition wf_type (ty : jltype) : Prop :=
  is_primitivetype ty = true /\ 0 < jl_datatype_nbits ty < 2 ^ 32 /\
  jl_datatype_size ty = APINT_NBYTES (jl_datatype_nbits ty).
Definition wf_value (a : jlvalue) : Prop :=
  wf_type (jl_typeof a) /\ words 8 (jl_data_ptr a) /\ length (jl_data_ptr a) = jl_datatype_size (jl_typeof a).

(** The bits of an operand as an unsigned integer of [n] bits. *)
Definition arg (n : Z) (a : jlvalue) : Z := uw n (val 8 (jl_data_ptr a)).
Definition nbits_of (a : jlvalue) : Z := jl_datatype_nbits (jl_typeof a).
(** The boxed value of type [ty] with the bits of [v]. *)
Definition box (ty : jltype) (v : Z) : boxed := jl_new_bits ty (digits 8 (jl_datatype_size ty) v).

Lemma wf_buf a : wf_value a -> buf (nbits_of a) (jl_data_ptr a).
Proof. intros ((_ & _ & Hs) & Hw & Hl). split; [done|]. unfold nbits_of. lia. Qed.

Lemma wf_size ty : wf_type ty -> 0 < Z.of_nat (jl_datatype_size ty) <= 2 ^ 31.
Proof.
  intros (_ & Hn & ->). pose proof (nbytes_bounds (jl_datatype_nbits ty) ltac:(lia)).
  change (2 ^ 31) with 2147483648. change (2 ^ 32) with 4294967296 in *. lia.
Qed.

Lemma pow2_size_ge ty : wf_type ty ->
  (jl_datatype_size ty <= Z.to_nat (next_power_of_two (Z.of_nat (jl_datatype_size ty))))%nat.
Proof. intros H. pose proof (next_power_of_two_ge _ (wf_size ty H)). lia. Qed.

Lemma ctype_size ty : wf_type ty -> jl_datatype_nbits ty ∈ ctypes ->
  jl_datatype_nbits ty = Z.of_nat (Z.to_nat (next_power_of_two (Z.of_nat (jl_datatype_size ty)))) * 8.
Proof.
  intros (_ & _ & Hs) Hc. rewrite Hs. unfold APINT_NBYTES. apply elem_of_ctypes in Hc.
  by destruct Hc as [->|[->|[->| ->]]].
Qed.

Lemma getsign_range s a k n : in_range 8 (getsign s a k n).
Proof. destruct s; cbn [getsign]; unfold signbitbyte, usignbitbyte, in_range; [destruct (negb _)|]; lia. Qed.

Lemma pad_buf n p sz sz2 fill : words 8 p -> in_range 8 fill -> (APINT_NBYTES n <= sz2)%nat ->
  (sz <= length p)%nat -> buf n (pad p sz sz2 fill).
Proof.
  intros Hw Hf Hn Hs. split.
  - apply words_app. split; [by apply Forall_take|by apply words_replicate].
  - unfold pad. rewrite length_app, length_take, length_replicate. lia.
Qed.

Lemma rd_take_app n p k r : 0 < n -> words 8 p -> (APINT_NBYTES n <= k)%nat -> (k <= length p)%nat ->
  rd n (take k p ++ r) = rd n p.
Proof.
  intros Hn Hw Hk Hl. pose proof (nbytes_bounds n Hn). unfold rd.
  rewrite val_app, val_take, length_take_le by (done || lia).
  rewrite <- (uw_narrow n (8 * Z.of_nat k)) by lia.
  rewrite (uw_mod_eq (8 * Z.of_nat k) (uw _ _ + _) (uw (8 * Z.of_nat k) (val 8 p)) (val 8 r)) by ring.
  by rewrite uw_uw, uw_narrow by lia.
Qed.

(** The padded copy of an operand holds the same value. *)
Lemma pad_value a s sz2 : wf_value a -> (jl_datatype_size (jl_typeof a) <= sz2)%nat ->
  let n := nbits_of a in let sz := jl_datatype_size (jl_typeof a) in
  let p := if (sz <? sz2)%nat then pad (jl_data_ptr a) sz sz2 (getsign s (jl_data_ptr a) sz n) else jl_data_ptr a in
  buf n p /\ rd n p = arg n a /\ take (APINT_NBYTES n) p = take (APINT_NBYTES n) (jl_data_ptr a).
Proof.
  intros Ha Hsz n sz p. pose proof (wf_buf a Ha) as Hb. destruct Ha as ((Hp & Hn & Hs) & Hw & Hl).
  fold n in Hb. fold sz in Hs, Hl, Hsz. subst p. destruct (Nat.ltb_spec sz sz2); [|done].
  split; [apply pad_buf; [done|apply getsign_range|unfold n, nbits_of; lia|lia]|].
  split; [unfold pad; apply rd_take_app; (unfold n, nbits_of; done || lia)|].
  unfold pad. rewrite take_app_le by (rewrite length_take; unfold n, nbits_of; lia).
  rewrite take_take. f_equal. unfold n, nbits_of. lia.
Qed.

Lemma new_bits_put ty pr v : wf_type ty ->
  jl_new_bits ty (put (jl_datatype_nbits ty) pr v) = box ty v.
Proof.
  intros (_ & Hn & Hs). pose proof (nbytes_bounds (jl_datatype_nbits ty) ltac:(lia)).
  unfold box, jl_new_bits, put. rewrite Hs. destruct (is_bool_type ty).
  - do 4 f_equal. destruct (APINT_NBYTES _) as [|k]; [lia|done].
  - rewrite take_app_length' by (by rewrite digits_length).
    by rewrite (take_ge (digits _ _ _)) by (rewrite digits_length; lia).
Qed.

(** The second operand: same type, or any primitive type when the operation
    converts it (zero-extended, or cut to the bits of the first). *)
Lemma pad_second (cvtb s : bool) a b sz2 : wf_value a -> wf_value b ->
  (cvtb = false -> jl_typeof b = jl_typeof a) -> (jl_datatype_size (jl_typeof a) <= sz2)%nat ->
  let n := nbits_of a in
  let szb := if cvtb then jl_datatype_size (jl_typeof b) else jl_datatype_size (jl_typeof a) in
  let p := if (szb <? sz2)%nat
           then pad (jl_data_ptr b) szb sz2 (if cvtb then 0 else getsign s (jl_data_ptr b) szb n) else jl_data_ptr b in
  buf n p /\ rd n p = arg n b.
Proof.
  intros Ha Hb Hty Hsz n szb p. destruct cvtb.
  - destruct Ha as ((Hp & Hn & Hs) & Hw & Hl), Hb as ((Hpb & Hnb & Hsb) & Hwb & Hlb). subst p szb.
    destruct (Nat.ltb_spec (jl_datatype_size (jl_typeof b)) sz2).
    + split; [apply pad_buf; [done|apply in_range_0; lia|unfold n, nbits_of; lia|lia]|].
      unfold rd, arg, pad. rewrite val_app, val_repeat0, Z.mul_0_r, Z.add_0_r, take_ge by lia. done.
    + split; [split; [done|unfold n, nbits_of; lia]|done].
  - specialize (Hty eq_refl). destruct (pad_value b s sz2 Hb) as (P1 & P2 & _); [by rewrite Hty|].
    unfold nbits_of in P1, P2. rewrite Hty in P1, P2. done.
Qed.

Section Correct.
Context (wrapv : bool) (junk : nat -> list Z).

(** The type test of a binary intrinsic on well-formed operands. *)
Lemma iintrinsic_2_dispatch a b name s lambda cvtb : wf_value a -> wf_value b ->
  (ty_id (jl_typeof b) = ty_id (jl_typeof a) -> jl_typeof b = jl_typeof a) ->
  jl_iintrinsic_2 a b name s lambda cvtb
  = if negb (ty_id (jl_typeof b) =? ty_id (jl_typeof a)) && negb cvtb
    then Throw (errorf name ": types of a and b must match")
    else
      let sz := jl_datatype_size (jl_typeof a) in
      let sz2 := Z.to_nat (next_power_of_two (Z.of_nat sz)) in
      let szb := if cvtb then jl_datatype_size (jl_typeof b) else sz in
      lambda (jl_typeof a)
        (if (sz <? sz2)%nat then pad (jl_data_ptr a) sz sz2 (getsign s (jl_data_ptr a) sz (nbits_of a)) else jl_data_ptr a)
        (if (szb <? sz2)%nat then pad (jl_data_ptr b) szb sz2 (if cvtb then 0 else getsign s (jl_data_ptr b) szb (nbits_of a)) else jl_data_ptr b)
        sz sz2.
Proof.
  intros ((Ha & _) & _) ((Hb & _) & _) Hid. unfold jl_iintrinsic_2. rewrite Ha, Hb. cbn [negb].
  rewrite andb_false_r. destruct (_ && negb cvtb); done.
Qed.

(** What the operands of a binary intrinsic must satisfy. *)
Definition operands (a b : jlvalue) : Prop :=
  wf_value a /\ wf_value b /\ (ty_id (jl_typeof b) = ty_id (jl_typeof a) -> jl_typeof b = jl_typeof a).

Definition type_mismatch (cvtb : bool) (a b : jlvalue) : bool :=
  negb (ty_id (jl_typeof b) =? ty_id (jl_typeof a)) && negb cvtb.

Lemma matched cvtb a b : operands a b -> type_mismatch cvtb a b = false ->
  cvtb = false -> jl_typeof b = jl_typeof a.
Proof.
  intros (_ & _ & Hid) Hm ->. unfold type_mismatch in Hm. cbn in Hm. rewrite andb_true_r in Hm.
  apply negb_false_iff in Hm. apply Z.eqb_eq in Hm. auto.
Qed.

(** A right table gives a right intrinsic: the operands reach the selected
    operation with their values. *)
Lemma iintrinsic_2_table {F} (P : Z -> F -> Prop) (l : op_list F) `{!Table P l} a : wf_value a ->
  P (nbits_of a) (select (Z.of_nat (Z.to_nat (next_power_of_two (Z.of_nat (jl_datatype_size (jl_typeof a))))))
    (nbits_of a) l).
Proof.
  intros Ha. apply select_right; [done|apply Ha|]. intros Hc. apply ctype_size; [apply Ha|done].
Qed.

(** The shape of the unary dispatch on a well-formed operand. *)
Lemma iintrinsic_1_dispatch a name (lambda : jltype -> list Z -> nat -> nat -> outcome boxed) v :
  wf_value a ->
  (forall p sz2, buf (nbits_of a) p -> rd (nbits_of a) p = arg (nbits_of a) a ->
     (nbits_of a ∈ ctypes -> nbits_of a = Z.of_nat sz2 * 8) ->
     take (APINT_NBYTES (nbits_of a)) p = take (APINT_NBYTES (nbits_of a)) (jl_data_ptr a) ->
     lambda (jl_typeof a) p (jl_datatype_size (jl_typeof a)) sz2 = Ok (box (jl_typeof a) v) \/
     (is_bool_type (jl_typeof a) = true /\
      lambda (jl_typeof a) p (jl_datatype_size (jl_typeof a)) sz2
      = Ok (Bits {| jl_typeof := jl_typeof a; jl_data_ptr := digits 8 (jl_datatype_size (jl_typeof a)) v |}))) ->
  jl_iintrinsic_1 a name false lambda = Ok (box (jl_typeof a) v).
Proof.
  intros Ha Hl. pose proof (pow2_size_ge _ (proj1 Ha)) as Hsz. pose proof (ctype_size _ (proj1 Ha)) as Hct.
  unfold jl_iintrinsic_1. rewrite (proj1 (proj1 Ha)). cbn [negb].
  set (sz := jl_datatype_size (jl_typeof a)) in *. set (sz2 := Z.to_nat (next_power_of_two (Z.of_nat sz))) in *.
  rewrite Nat.ltb_irrefl. destruct (pad_value a false sz2 Ha Hsz) as (A1 & A2 & A3). fold sz in A1, A2, A3.
  rewrite orb_diag.
  destruct (Hl _ sz2 A1 A2 Hct A3) as [E|[Hb E]]; unfold nbits_of in E; rewrite E; cbn [obind].
  - unfold box, jl_new_bits. by destruct (is_bool_type (jl_typeof a)).
  - unfold box, jl_new_bits. rewrite Hb. cbn [jl_data_ptr]. fold sz. by rewrite Z.land_comm.
Qed.

Lemma lambda_ty1_eq f l a p sz sz2 v : wf_value a -> Table (computes1 f) l ->
  buf (nbits_of a) p -> (nbits_of a ∈ ctypes -> nbits_of a = Z.of_nat sz2 * 8) ->
  f (nbits_of a) (rd (nbits_of a) p) = Ok v ->
  jl_intrinsiclambda_ty1 junk l (jl_typeof a) p sz sz2 = Ok (box (jl_typeof a) v).
Proof.
  intros Ha T Hb Hc Hf. unfold jl_intrinsiclambda_ty1.
  pose proof (select_right (computes1 f) l (nbits_of a) (Z.of_nat sz2) ltac:(apply Ha) Hc) as S.
  fold (nbits_of a). rewrite S by done. rewrite Hf. cbn. f_equal. apply new_bits_put, Ha.
Qed.

(** The result of a counting operation, boxed in the operand's type. *)
Lemma lambda_u1_eq (f : Z -> list Z -> Z) a p sz2 c : wf_value a -> 0 <= c < 2 ^ 32 ->
  f (nbits_of a) p = c ->
  let r := jl_intrinsiclambda_u1 (uu_iintrinsic_slow f) (jl_typeof a) p (jl_datatype_size (jl_typeof a)) sz2 in
  r = Ok (box (jl_typeof a) c) \/
  (is_bool_type (jl_typeof a) = true /\
   r = Ok (Bits {| jl_typeof := jl_typeof a; jl_data_ptr := digits 8 (jl_datatype_size (jl_typeof a)) c |})).
Proof.
  intros Ha Hc Hf r. subst r. unfold jl_intrinsiclambda_u1.
  assert (select (Z.of_nat sz2) (jl_datatype_nbits (jl_typeof a)) (uu_iintrinsic_slow f)
          = fun n pa => Ok (f n pa)) as ->.
  { unfold select. destruct (_ =? _); [|done]. by destruct (select_by_size _) as [|[|?]]. }
  cbn [obind]. fold (nbits_of a). rewrite Hf, (uw_small 32 c) by done.
  pose proof (wf_size _ (proj1 Ha)). set (sz := jl_datatype_size (jl_typeof a)) in *.
  destruct (Nat.leb_spec sz 8).
  - left. unfold box, jl_new_bits. fold sz. f_equal. destruct (is_bool_type (jl_typeof a)).
    + do 4 f_equal. destruct sz; [lia|done].
    + f_equal. f_equal. rewrite take_digits, (take_ge (digits _ _ _)) by (rewrite ?digits_length; lia). done.
  - assert (digits 8 8 c ++ replicate (sz - 8) 0 = digits 8 sz c) as ->.
    { replace sz with (8 + (sz - 8))%nat at 2 by lia. rewrite digits_app by lia. f_equal.
      change (8 * Z.of_nat 8) with 64. rewrite Z.div_small by lia.
      clear. induction (sz - 8)%nat as [|k IH]; [done|]. cbn [replicate digits]. by rewrite IH. }
    destruct (is_bool_type (jl_typeof a)) eqn:Eb; [by right|left].
    unfold box, jl_new_bits. rewrite Eb. fold sz. by rewrite (take_ge (digits _ _ _)) by (rewrite digits_length; lia).
Qed.

(** ** The theorems *)

(** C5: every two-operand integer intrinsic (add, sub, mul, div, rem, and, or,
    xor, shifts, flipsign) returns, for every primitive type of less than 2^32
    bits, the boxed result [bi_spec] gives for the operands' bits, or throws what
    it says, or is undefined in C exactly where it says; operands of different
    types are refused unless the second is a shift count. Both operands are read
    at the n bits of the first: a shift count of a wider type is reduced modulo
    2^n (see [wide_shift_count]), and then a count of n or more gives 0, or the
    sign for [ashr_int]. For [flipsign_int] the padding bits of the first operand
    must be zero ([canonical]; the function returns all its bytes). *)
Theorem bi_iintrinsic_correct op a b : operands a b ->
  (op = flipsign_int -> canonical (nbits_of a) (jl_data_ptr a)) ->
  bi_iintrinsic wrapv junk op a b
  = if type_mismatch (bi_cvtb op) a b then Throw (errorf (bi_name op) ": types of a and b must match")
    else omap (box (jl_typeof a)) (bi_spec wrapv op (nbits_of a) (arg (nbits_of a) a) (arg (nbits_of a) b)).
Proof.
  intros Hab Hcan. pose proof Hab as (Ha & Hb & Hid). unfold bi_iintrinsic.
  rewrite iintrinsic_2_dispatch by done. fold (type_mismatch (bi_cvtb op) a b).
  destruct (type_mismatch _ _ _) eqn:Hm; [done|]. cbv zeta.
  pose proof (pow2_size_ge (jl_typeof a) (proj1 Ha)) as Hsz.
  destruct (pad_value a (bi_signed op) _ Ha Hsz) as (A1 & A2 & A3).
  destruct (pad_second (bi_cvtb op) (bi_signed op) a b _ Ha Hb (matched _ _ _ Hab Hm) Hsz) as (B1 & B2).
  unfold jl_intrinsiclambda_2.
  pose proof (iintrinsic_2_table _ _ (Table0 := bi_table wrapv op) a Ha) as T. unfold nbits_of in T at 2.
  fold (nbits_of a). rewrite T; [|done|done|].
  - rewrite A2, B2. destruct (bi_spec _ _ _ _ _); cbn; [|done|done]. f_equal. apply new_bits_put, Ha.
  - intros Hc. unfold canonical. rewrite A3, A2. apply Hcan. by destruct op.
Qed.

(** the comparison intrinsics compare the operands as signed or unsigned
    integers of their type's width, and refuse operands of different types. *)
Lemma cmp_iintrinsic_correct op a b : operands a b ->
  cmp_iintrinsic op a b
  = if type_mismatch false a b then Throw (errorf (cmp_name op) ": types of a and b must match")
    else Ok (JBool (cmp_spec op (nbits_of a) (arg (nbits_of a) a) (arg (nbits_of a) b))).
Proof.
  intros Hab. pose proof Hab as (Ha & Hb & Hid). unfold cmp_iintrinsic.
  rewrite iintrinsic_2_dispatch by done. fold (type_mismatch false a b).
  destruct (type_mismatch _ _ _) eqn:Hm; [done|]. cbv zeta.
  pose proof (pow2_size_ge (jl_typeof a) (proj1 Ha)) as Hsz.
  destruct (pad_value a (cmp_signed op) _ Ha Hsz) as (A1 & A2 & A3).
  destruct (pad_second false (cmp_signed op) a b _ Ha Hb (matched _ _ _ Hab Hm) Hsz) as (B1 & B2).
  unfold jl_intrinsiclambda_cmp. pose proof (iintrinsic_2_table _ _ (Table0 := cmp_table op) a Ha) as T.
  unfold nbits_of in T at 2. fold (nbits_of a). rewrite T by done. by rewrite A2, B2.
Qed.

(** C10: the checked intrinsics return the result modulo 2^n with the flag
    that says whether the exact result does not fit; the signed additions and
    subtractions of 32 and 64 bits are undefined in C exactly when they overflow
    and the build does not wrap. *)
Theorem checked_iintrinsic_correct op a b : operands a b -> flag_op op = true ->
  checked_iintrinsic wrapv junk op a b
  = if type_mismatch false a b then Throw (errorf (checked_name op) ": types of a and b must match")
    else omap (fun r => Checked (jl_typeof a) (digits 8 (jl_datatype_size (jl_typeof a)) r.1) r.2)
           (checked_spec wrapv op (nbits_of a) (arg (nbits_of a) a) (arg (nbits_of a) b)).
Proof.
  intros Hab Hop. pose proof Hab as (Ha & Hb & Hid). unfold checked_iintrinsic.
  rewrite iintrinsic_2_dispatch by done. fold (type_mismatch false a b).
  destruct (type_mismatch _ _ _) eqn:Hm; [done|]. cbv zeta.
  pose proof (pow2_size_ge (jl_typeof a) (proj1 Ha)) as Hsz.
  destruct (pad_value a (checked_signed op) _ Ha Hsz) as (A1 & A2 & A3).
  destruct (pad_second false (checked_signed op) a b _ Ha Hb (matched _ _ _ Hab Hm) Hsz) as (B1 & B2).
  unfold flag_op in Hop. apply negb_true_iff in Hop. rewrite Hop. unfold jl_intrinsiclambda_checked.
  pose proof (iintrinsic_2_table _ _ (Table0 := checked_table wrapv op ltac:(unfold flag_op; by rewrite Hop)) a Ha) as T.
  unfold nbits_of in T at 2. fold (nbits_of a). rewrite T by done. rewrite A2, B2.
  destruct (checked_spec _ _ _ _ _) as [[v o]|e|]; cbn; [|done|done]. do 2 f_equal.
  destruct Ha as ((_ & _ & Hs) & _). rewrite Hs. unfold put, nbits_of. by rewrite take_app_length' by (by rewrite digits_length).
Qed.

(** C21: at every width, the checked divisions throw DivideError exactly for a
    zero divisor or a quotient that does not fit, the checked remainders exactly
    for a zero divisor ([checked_srem_int] of the least number and -1 is 0); and
    they return the truncated quotient or the remainder otherwise. *)
Theorem checked_div_correct op a b : operands a b -> checked_div op = true ->
  let n := nbits_of a in
  let v := checked_exact op n (arg n a) (arg n b) in
  checked_iintrinsic wrapv junk op a b
  = if type_mismatch false a b then Throw (errorf (checked_name op) ": types of a and b must match")
    else if ((if checked_signed op then sw n (arg n b) else arg n b) =? 0) || negb (fits (checked_signed op) n v)
    then Throw DivideError
    else Ok (box (jl_typeof a) (uw n v)).
Proof.
  intros Hab Hop n v. pose proof Hab as (Ha & Hb & Hid). unfold checked_iintrinsic.
  rewrite iintrinsic_2_dispatch by done. fold (type_mismatch false a b).
  destruct (type_mismatch _ _ _) eqn:Hm; [done|]. cbv zeta.
  pose proof (pow2_size_ge (jl_typeof a) (proj1 Ha)) as Hsz.
  destruct (pad_value a (checked_signed op) _ Ha Hsz) as (A1 & A2 & A3).
  destruct (pad_second false (checked_signed op) a b _ Ha Hb (matched _ _ _ Hab Hm) Hsz) as (B1 & B2).
  rewrite Hop. unfold jl_intrinsiclambda_checkeddiv.
  pose proof (iintrinsic_2_table _ _ (Table0 := checked_div_table wrapv op Hop) a Ha) as T.
  unfold nbits_of in T at 2. fold (nbits_of a). rewrite T by done. rewrite A2, B2. fold n.
  destruct (_ =? 0); cbn [orb obind]; [done|]. fold v. destruct (negb (fits _ n v)); [done|].
  f_equal. apply new_bits_put, Ha.
Qed.

(** Negation and complement are modulo 2^n for every primitive type. *)
Lemma unary_correct a : wf_value a ->
  let n := nbits_of a in
  jl_neg_int wrapv junk a = Ok (box (jl_typeof a) (uw n (- arg n a))) /\
  jl_not_int wrapv junk a = Ok (box (jl_typeof a) (uw n (Z.lnot (arg n a)))).
Proof.
  intros Ha n. split; apply iintrinsic_1_dispatch; [done| |done|]; intros p sz2 Hp Hr Hc _; left;
    (eapply lambda_ty1_eq; [done|exact _|done|done|by rewrite Hr]).
Qed.

(** Population count, leading zeros and trailing zeros are those of the
    operand's n bits, whatever the padding bits hold. *)
Lemma counts_correct a : wf_value a ->
  let n := nbits_of a in
  jl_ctpop_int a = Ok (box (jl_typeof a) (ones_below (arg n a) (Z.to_nat n))) /\
  (exists k, leading n false (arg n a) k /\ jl_ctlz_int a = Ok (box (jl_typeof a) k)) /\
  (exists k, trailing n false (arg n a) k /\ jl_cttz_int a = Ok (box (jl_typeof a) k)).
Proof.
  intros Ha n. pose proof (wf_buf a Ha) as Hb. pose proof (proj1 (proj2 (proj1 Ha))) as Hn. fold (nbits_of a) in Hn. fold n in Hn, Hb.
  assert (forall p, buf n p -> rd n p = arg n a -> 0 <= ones_below (arg n a) (Z.to_nat n) <= n) as Hpop.
  { intros _ _ _. assert (forall v m, 0 <= ones_below v m <= Z.of_nat m) as H; [|specialize (H (arg n a) (Z.to_nat n)); lia].
    intros v m. induction m as [|m IH]; cbn [ones_below]; [lia|]. unfold b2z. case_match; lia. }
  split; [|split].
  - apply iintrinsic_1_dispatch; [done|]. intros p sz2 Hp Hr Hc _. apply lambda_u1_eq; [done| |].
    + specialize (Hpop p Hp Hr). fold n. lia.
    + fold n. rewrite APInt_popcount_correct by (done || lia). fold n in Hr. by rewrite Hr.
  - exists (APInt_countl n (jl_data_ptr a) false).
    destruct (count_rd n (jl_data_ptr a) false ltac:(lia) Hb) as [_ H2]. split; [exact H2|].
    apply iintrinsic_1_dispatch; [done|]. intros p sz2 Hp Hr Hc Ht. apply lambda_u1_eq; [done|destruct H2; lia|].
    fold n in Hp, Hr, Ht. fold n. unfold APInt_countl_zero, APInt_countl, load, memcpy. by rewrite Ht.
  - exists (APInt_countr n (jl_data_ptr a) false).
    destruct (count_rd n (jl_data_ptr a) false ltac:(lia) Hb) as [H1 _]. split; [exact H1|].
    apply iintrinsic_1_dispatch; [done|]. intros p sz2 Hp Hr Hc Ht. apply lambda_u1_eq; [done|destruct H1; lia|].
    fold n in Hp, Hr, Ht. fold n. unfold APInt_countr_zero, APInt_countr, load, memcpy. by rewrite Ht.
Qed.
End Correct.

(** ** Examples

    A 24-bit type takes the arbitrary-width path, a 32-bit one the C path. *)
Definition Int (id n : Z) : jltype :=
  {| layout := {| jl_datatype_nbits := n; jl_datatype_size := APINT_NBYTES n |};
     ty_id := id; is_primitivetype := true; is_bool_type := false |}.
Definition int_value (id n v : Z) : jlvalue :=
  {| jl_typeof := Int id n; jl_data_ptr := digits 8 (APINT_NBYTES n) v |}.

Lemma wf_int_value id n v : 0 < n < 2 ^ 32 -> wf_value (int_value id n v).
Proof.
  intros Hn. split; [split; [done|split; [done|done]]|split]; cbn; [apply digits_words; lia|apply digits_length].
Qed.
Lemma operands_int id id' n m v w : 0 < n < 2 ^ 32 -> 0 < m < 2 ^ 32 -> (id' = id -> m = n) ->
  operands (int_value id n v) (int_value id' m w).
Proof.
  intros Hn Hm He. split; [by apply wf_int_value|]. split; [by apply wf_int_value|].
  cbn. intros E. by rewrite E, (He E).
Qed.

Lemma bi_iintrinsic_correct_witness :
  bi_iintrinsic false (fun _ => []) mul_int (int_value 1 24 0x800001) (int_value 1 24 3)
  = Ok (box (Int 1 24) 0x800003).
Proof.
  assert (operands (int_value 1 24 0x800001) (int_value 1 24 3)) as H by (apply operands_int; lia).
  rewrite (bi_iintrinsic_correct false (fun _ => []) mul_int _ _ H ltac:(discriminate)). vm_compute. reflexivity.
Defined.


(** A shift count of 256 in 16 bits, by which an 8-bit number is not shifted: its
    low byte is 0. *)
Example wide_shift_count : bi_iintrinsic false (fun _ => []) shl_int (int_value 1 8 1) (int_value 2 16 256) = Ok (box (Int 1 8) 1).
Proof. vm_compute. reflexivity. Qed.

(** The remainder of the least number and -1 is 0; the quotient does not fit. *)
Example remainder_fits : checked_iintrinsic false (fun _ => []) checked_srem_int (int_value 1 8 0x80) (int_value 1 8 0xff) = Ok (box (Int 1 8) 0) /\
  checked_iintrinsic false (fun _ => []) checked_sdiv_int (int_value 1 8 0x80) (int_value 1 8 0xff) = Throw DivideError.
Proof. split; vm_compute; reflexivity. Qed.

Lemma checked_iintrinsic_correct_witness :
  checked_iintrinsic false (fun _ => []) checked_sadd_int (int_value 1 24 0x7fffff) (int_value 1 24 1)
  = Ok (Checked (Int 1 24) [0; 0; 128] true).
Proof.
  assert (operands (int_value 1 24 0x7fffff) (int_value 1 24 1)) as H by (apply operands_int; lia).
  rewrite (checked_iintrinsic_correct false (fun _ => []) checked_sadd_int _ _ H eq_refl). vm_compute. reflexivity.
Defined.

Lemma checked_div_correct_witness :
  checked_iintrinsic false (fun _ => []) checked_sdiv_int (int_value 1 24 0x800000) (int_value 1 24 0xffffff)
  = Throw DivideError.
Proof.
  assert (operands (int_value 1 24 0x800000) (int_value 1 24 0xffffff)) as H by (apply operands_int; lia).
  rewrite (checked_div_correct false (fun _ => []) checked_sdiv_int _ _ H eq_refl). vm_compute. reflexivity.
Defined.

