(* ===== verification/Utf8.v ===== *)
(** * UTF-8 routines: the definitions of src/src/support/utf8.c

    A C string is a list of bytes (each in [0, 256)); reading at or after its
    end gives the terminating 0. An index is a [nat]; a [uint32_t] is a [Z]
    with its wrap-around written. *)
From S2P Require Import Prelude.

(** utf8.h *)
Definition isutf (c : Z) : bool := negb (Z.land c 0xC0 =? 0x80).

Definition offsetsFromUTF8 : list Z :=
  [0x00000000; 0x00003080; 0x000E2080; 0x03C82080; 0xFA082080; 0x82082080].

Definition trailingBytesForUTF8 : list Z :=
  replicate 192 0 ++ replicate 32 1 ++ replicate 16 2 ++ replicate 8 3 ++ replicate 4 4 ++ replicate 4 5.

Definition trailing_bytes (c : Z) : nat := Z.to_nat (get trailingBytesForUTF8 (Z.to_nat c)).

Definition u8_seqlen (s : list Z) : nat := trailing_bytes (get s 0) + 1.

Definition u8_charlen (ch : Z) : nat :=
  if ch <? 0x80 then 1%nat else if ch <? 0x800 then 2%nat else if ch <? 0x10000 then 3%nat
  else if ch <? 0x110000 then 4%nat else 0%nat.

(** [ch <<= 6; ch += s[i++]], [n] times. *)
Fixpoint read_bytes (s : list Z) (i n : nat) (ch : Z) : Z * nat :=
  match n with
  | O => (ch, i)
  | S n => read_bytes s (S i) n (u32 (u32 (Z.shiftl ch 6) + get s i))
  end.

(** The switch with fall-through cases, from case [nb]. *)
Fixpoint fall_through (s : list Z) (i nb : nat) (ch : Z) : Z * nat :=
  match nb with
  | O => (u32 (ch + get s i), S i)
  | S nb => fall_through s (S i) nb (u32 (Z.shiftl (u32 (ch + get s i)) 6))
  end.

(** The characters stored in [dest], [rem] places being left in it. *)
Fixpoint toucs_loop (rem : nat) (src : list Z) (srcsz p : nat) : list Z :=
  match rem with
  | O => []
  | S rem =>
      if negb (isutf (get src p)) then
        0xFFFD :: (if (srcsz <=? S p)%nat then [] else toucs_loop rem src srcsz (S p))
      else
        let nb := trailing_bytes (get src p) in
        if (srcsz <=? p + nb)%nat then [] else
        let '(ch, p') := fall_through src p nb 0 in
        u32 (ch - get offsetsFromUTF8 nb) :: toucs_loop rem src srcsz p'
  end.
Definition u8_toucs (sz : nat) (src : list Z) (srcsz : nat) : list Z :=
  if (sz =? 0)%nat || (srcsz =? 0)%nat then [] else toucs_loop sz src srcsz 0.

(** The bytes of one character, as [u8_toutf8] and [u8_wc_toutf8] store them
    (a store to [char] keeps the low 8 bits). *)
Definition u8_wc_toutf8 (ch : Z) : list Z :=
  if ch <? 0x80 then [u8 ch]
  else if ch <? 0x800 then [u8 (Z.lor (Z.shiftr ch 6) 0xC0); u8 (Z.lor (Z.land ch 0x3F) 0x80)]
  else if ch <? 0x10000 then
    [u8 (Z.lor (Z.shiftr ch 12) 0xE0); u8 (Z.lor (Z.land (Z.shiftr ch 6) 0x3F) 0x80); u8 (Z.lor (Z.land ch 0x3F) 0x80)]
  else if ch <? 0x110000 then
    [u8 (Z.lor (Z.shiftr ch 18) 0xF0); u8 (Z.lor (Z.land (Z.shiftr ch 12) 0x3F) 0x80);
     u8 (Z.lor (Z.land (Z.shiftr ch 6) 0x3F) 0x80); u8 (Z.lor (Z.land ch 0x3F) 0x80)]
  else [0xef; 0xbf; 0xbd].

(** [avail] is [dest_end - dest]; the loop stops at the first character that
    does not fit. *)
Fixpoint u8_toutf8 (avail : nat) (src : list Z) : list Z :=
  match src with
  | [] => []
  | ch :: src =>
      let need := if ch <? 0x80 then 0%nat else if ch <? 0x800 then 1%nat else if ch <? 0x10000 then 2%nat
                  else if ch <? 0x110000 then 3%nat else 2%nat in
      if (avail <=? need)%nat then []
      else let bytes :=
        if ch <? 0x80 then [u8 ch]
        else if ch <? 0x800 then [u8 (Z.lor (Z.shiftr ch 6) 0xC0); u8 (Z.lor (Z.land ch 0x3F) 0x80)]
        else if ch <? 0x10000 then
          [u8 (Z.lor (Z.shiftr ch 12) 0xE0); u8 (Z.lor (Z.land (Z.shiftr ch 6) 0x3F) 0x80);
           u8 (Z.lor (Z.land ch 0x3F) 0x80)]
        else if ch <? 0x110000 then
          [u8 (Z.lor (Z.shiftr ch 18) 0xF0); u8 (Z.lor (Z.land (Z.shiftr ch 12) 0x3F) 0x80);
           u8 (Z.lor (Z.land (Z.shiftr ch 6) 0x3F) 0x80); u8 (Z.lor (Z.land ch 0x3F) 0x80)]
        else [0xef; 0xbf; 0xbd] in
        bytes ++ u8_toutf8 (avail - length bytes) src
  end.

(** Character number to byte offset. *)
Fixpoint offset_loop (s : list Z) (charnum i : nat) : nat :=
  match charnum with
  | O => i
  | S charnum =>
      let c := get s i in
      let i := S i in
      let i := if negb (Z.land c 0x80 =? 0) then
                 let i := S i in
                 if isutf (get s i) then i else
                 let i := S i in
                 if isutf (get s i) then i else S i
               else i in
      offset_loop s charnum i
  end.
Definition u8_offset (s : list Z) (charnum : nat) : nat := offset_loop s charnum 0.

(** Byte offset to character number. *)
Fixpoint charnum_loop (s : list Z) (p offset : nat) (charnum : nat) : nat :=
  match offset with
  | O => charnum
  | S offset =>
      charnum_loop s (S p) offset (if negb (Z.land (get s p) 0xc0 =? 0x80) then S charnum else charnum)
  end.
Definition u8_charnum (s : list Z) (offset : nat) : nat := charnum_loop s 0 offset 0.

Definition u8_nextchar (s : list Z) (i : nat) : Z * nat :=
  let sz := u8_seqlen (drop i s) in
  let '(ch, i) := read_bytes s i sz 0 in
  (u32 (ch - get offsetsFromUTF8 (sz - 1)), i).
Definition u8_nextmemchar (s : list Z) (i : nat) : Z * nat := u8_nextchar s i.

Definition u8_inc (s : list Z) (i : nat) : nat :=
  if isutf (get s (S i)) then S i
  else if isutf (get s (S (S i))) then S (S i)
  else if isutf (get s (S (S (S i)))) then S (S (S i))
  else S (S (S (S i))).

(** Indices before the string ([size_t] wraps) are outside the model: [None]
    when the code would read one. *)
Definition u8_dec (s : list Z) (i : nat) : option nat :=
  match i with
  | O => None
  | S i => if isutf (get s i) then Some i else
    match i with
    | O => None
    | S i => if isutf (get s i) then Some i else
      match i with
      | O => None
      | S i => if isutf (get s i) then Some i else
        match i with O => None | S i => Some i end
      end
    end
  end.

(** ** Display width *)

Section Width.
(** utf8proc's character width (a library the source calls). *)
Context (utf8proc_charwidth : Z -> Z).

(** [fuel]: the length of the string bounds the iterations. *)
Fixpoint strwidth_loop (fuel : nat) (s : list Z) (i : nat) (tot : Z) : Z :=
  match fuel with
  | O => tot
  | S fuel =>
      let c := get s i in
      if c =? 0 then tot
      else if c <? 0x80 then strwidth_loop fuel s (S i) (tot + 1)
      else if negb (isutf c) then strwidth_loop fuel s (S i) (tot + 1)
      else let nb := trailing_bytes c in
           let '(ch, i) := fall_through s i nb 0 in
           strwidth_loop fuel s i (tot + utf8proc_charwidth (u32 (ch - get offsetsFromUTF8 nb)))
  end.
Definition u8_strwidth (s : list Z) : Z := strwidth_loop (S (length s)) s 0 0.
End Width.

(** ** Escapes *)

Definition octal_digit (c : Z) : bool := (0x30 <=? c) && (c <=? 0x37).
Definition hex_digit (c : Z) : bool :=
  ((0x30 <=? c) && (c <=? 0x39)) || ((0x41 <=? c) && (c <=? 0x46)) || ((0x61 <=? c) && (c <=? 0x66)).

Definition read_escape_control_char (c : Z) : Z :=
  if c =? 0x6e then 10 else if c =? 0x74 then 9 else if c =? 0x72 then 13 else if c =? 0x65 then 0x1B
  else if c =? 0x62 then 8 else if c =? 0x66 then 12 else if c =? 0x76 then 11 else if c =? 0x61 then 7
  else c.

(** [strtol] on a string of digits. *)
Definition digit_value (c : Z) : Z :=
  if c <=? 0x39 then c - 0x30 else if c <=? 0x46 then c - 0x41 + 10 else c - 0x61 + 10.
Definition strtol (base : Z) (digs : list Z) : Z := foldl (fun v c => v * base + digit_value c) 0 digs.

(** The digits taken: at most [n], while they satisfy [p] and are in the first
    [ssz] bytes. *)
Fixpoint take_digits (p : Z -> bool) (str : list Z) (ssz i n : nat) : list Z :=
  match n with
  | O => []
  | S n => if (i <? ssz)%nat && p (get str i) then get str i :: take_digits p str ssz (S i) n else []
  end.

(** Characters read and the code point; [None] is the return value 0. *)
Definition u8_read_escape_sequence (str : list Z) (ssz : nat) : option (nat * Z) :=
  let c0 := get str 0 in
  if octal_digit c0 then
    let digs := c0 :: take_digits octal_digit str ssz 1 2 in
    Some (length digs, u32 (strtol 8 digs))
  else
    let ndig := if c0 =? 0x78 then 2%nat else if c0 =? 0x75 then 4%nat else if c0 =? 0x55 then 8%nat else 0%nat in
    if negb (ndig =? 0)%nat then
      let digs := take_digits hex_digit str ssz 1 ndig in
      if (length digs =? 0)%nat then None else Some (S (length digs), u32 (strtol 16 digs))
    else
      (* [(uint32_t)read_escape_control_char(c0)]: a [char] is signed *)
      Some (1%nat, u32 (sw 8 (read_escape_control_char c0))).

(** [snprintf] of [n] lower-case hexadecimal digits. *)
Definition hex_char (d : Z) : Z := if d <? 10 then 0x30 + d else 0x61 + (d - 10).
Fixpoint hex_digits (n : nat) (v : Z) : list Z :=
  match n with
  | O => []
  | S n => hex_digits n (v / 16) ++ [hex_char (v mod 16)]
  end.

Definition u8_escape_wchar (ch : Z) : list Z :=
  if ch =? 10 then [0x5c; 0x6e] else if ch =? 9 then [0x5c; 0x74] else if ch =? 13 then [0x5c; 0x72]
  else if ch =? 0x1B then [0x5c; 0x65] else if ch =? 8 then [0x5c; 0x62] else if ch =? 12 then [0x5c; 0x66]
  else if ch =? 11 then [0x5c; 0x76] else if ch =? 7 then [0x5c; 0x61] else if ch =? 0x5c then [0x5c; 0x5c]
  else if (ch <? 32) || (ch =? 0x7f) then [0x5c; 0x78] ++ hex_digits 2 (u8 ch)
  else if 0xFFFF <? ch then [0x5c; 0x55] ++ hex_digits 8 ch
  else if 0x80 <=? ch then [0x5c; 0x75] ++ hex_digits 4 (u16 ch)
  else [ch].

Section Escape.
(** The C library's [iswprint]. *)
Context (iswprint : Z -> bool).

(** The do-while that copies one character: (bytes, index after). *)
Fixpoint copy_char (fuel : nat) (src : list Z) (i : nat) : list Z * nat :=
  match fuel with
  | O => ([], i)
  | S fuel =>
      if isutf (get src (S i)) then ([get src i], S i)
      else let '(bs, i') := copy_char fuel src (S i) in (get src i :: bs, i')
  end.

(** [strchr(escapes, c)]: the terminator is part of the string. *)
Definition strchr (escapes : list Z) (c : Z) : bool := existsb (Z.eqb c) escapes || (c =? 0).

(** [used] is [buf - start]; every iteration advances [i], so [fuel] = the
    number of bytes left is enough. The result is the bytes stored before the
    final NUL, and the index reached. *)
Fixpoint escape_loop (fuel : nat) (src : list Z) (i endp : nat) (used sz : nat)
    (escapes : option (list Z)) (ascii : bool) : list Z * nat :=
  match fuel with
  | O => ([], i)
  | S fuel =>
      if (i <? endp)%nat && (used <? sz - 11)%nat then
        let '(bs, i') :=
          if (get src i =? 0x5c) || (match escapes with Some e => strchr e (get src i) | None => false end) then
            ([0x5c; get src i], S i)
          else
            let '(ch, i1) := u8_nextmemchar src i in
            if ascii || negb (iswprint ch) then (u8_escape_wchar ch, i1)
            else copy_char (S (length src)) src i in
        let '(out, i'') := escape_loop fuel src i' endp (used + length bs) sz escapes ascii in
        (bs ++ out, i'')
      else ([], i)
  end.
(** (bytes stored with the final NUL, new [*pi]); the C function returns the
    number of bytes stored. *)
Definition u8_escape (sz : nat) (src : list Z) (pi endp : nat) (escapes : option (list Z)) (ascii : bool)
    : list Z * nat :=
  let '(out, i) := escape_loop (S (endp - pi)) src pi endp 0 sz escapes ascii in
  (out ++ [0], i).
End Escape.

(** ** Searching *)

(** The inner do-while of [u8_memchr]: (c, csz, i). *)
Fixpoint memchr_char (fuel : nat) (s : list Z) (sz i : nat) (c : Z) (csz : nat) : Z * nat * nat :=
  match fuel with
  | O => (c, csz, i)
  | S fuel =>
      let c := u32 (u32 (Z.shiftl c 6) + get s i) in
      let i := S i in
      let csz := S csz in
      if (i <? sz)%nat && negb (isutf (get s i)) then memchr_char fuel s sz i c csz else (c, csz, i)
  end.
(** The pair (index of the match, [*charn]). *)
Fixpoint memchr_loop (fuel : nat) (s : list Z) (ch : Z) (sz i : nat) (charn : nat) : option nat * nat :=
  match fuel with
  | O => (None, charn)
  | S fuel =>
      if (i <? sz)%nat then
        let '(c, csz, i') := memchr_char (sz - i) s sz i 0 0 in
        let c := u32 (c - get offsetsFromUTF8 (csz - 1)) in
        if c =? ch then (Some i, charn) else memchr_loop fuel s ch sz i' (S charn)
      else (None, charn)
  end.
Definition u8_memchr (s : list Z) (ch : Z) (sz : nat) : option nat * nat := memchr_loop (S sz) s ch sz 0 0.

(** [while (i && !isutf(s[i])) i--] *)
Fixpoint back_to_start (s : list Z) (i : nat) : nat :=
  match i with
  | O => O
  | S i' => if isutf (get s i) then i else back_to_start s i'
  end.
(** [None]: the code reads before the string. *)
Fixpoint memrchr_loop (fuel : nat) (s : list Z) (ch : Z) (i : nat) : option (option nat) :=
  match fuel with
  | O => Some None
  | S fuel =>
      let '(c, _) := u8_nextmemchar s i in
      if c =? ch then Some (Some i)
      else if (i =? 0)%nat then Some None
      else match u8_dec s i with
           | None => None
           | Some i => memrchr_loop fuel s ch i
           end
  end.
Definition u8_memrchr (s : list Z) (ch : Z) (sz : nat) : option (option nat) :=
  if (sz =? 0)%nat then Some None else memrchr_loop (S sz) s ch (back_to_start s (sz - 1)).

(** ** Validation *)

Definition is_cont (c : Z) : bool := negb (negb (Z.land c 0xc0 =? 0x80)).

(** The scan from [pnt]; [ret] is what the end of the string returns (1 while
    only ASCII was seen, 2 after). The label [chkutf8] is reached on a byte
    with its high bit set. *)
Fixpoint isvalid_scan (ret : Z) (pnt : list Z) : Z :=
  match pnt with
  | [] => ret
  | byt :: pnt =>
      if negb (Z.land byt 0x80 =? 0) then
        match pnt with
        | [] => 0
        | p0 :: r0 =>
            if 0xf4 - 0xc2 <? u32 (byt - 0xc2) then 0
            else if byt <? 0xe0 then
              if negb (Z.land p0 0xc0 =? 0x80) then 0 else isvalid_scan 2 r0
            else if byt <? 0xf0 then
              match r0 with
              | [] => 0
              | p1 :: r1 =>
                  if negb (Z.land p0 0xc0 =? 0x80) || negb (Z.land p1 0xc0 =? 0x80) then 0
                  else if (byt =? 0xed) && (0x9f <? p0) then 0
                  else if (byt =? 0xe0) && (p0 <? 0xa0) then 0
                  else isvalid_scan 2 r1
              end
            else
              match r0 with
              | p1 :: p2 :: r2 =>
                  if negb (Z.land p0 0xc0 =? 0x80) || negb (Z.land p1 0xc0 =? 0x80) || negb (Z.land p2 0xc0 =? 0x80)
                  then 0
                  else if byt =? 0xf0 then (if p0 <? 0x90 then 0 else isvalid_scan 2 r2)
                  else if byt =? 0xf4 then (if 0x8f <? p0 then 0 else isvalid_scan 2 r2)
                  else isvalid_scan 2 r2
              | _ => 0
              end
        end
      else isvalid_scan ret pnt
  end.
Definition u8_isvalid (str : list Z) : Z := if (length str =? 0)%nat then 1 else isvalid_scan 1 str.
