(* ===== verification/Utf8Facts.v ===== *)
(** * UTF-8: validation, encoding and decoding of src/src/support/utf8.c
    against the Unicode definition *)
From S2P Require Import Prelude Utf8.

(** ** Specification *)

(** Unicode scalar values, and their encoding as arithmetic. *)
Definition scalar (ch : Z) : Prop := 0 <= ch < 0xD800 \/ 0xE000 <= ch < 0x110000.
Definition enc (ch : Z) : list Z :=
  if ch <? 0x80 then [ch]
  else if ch <? 0x800 then [192 + ch / 64; 128 + ch mod 64]
  else if ch <? 0x10000 then [224 + ch / 4096; 128 + ch / 64 mod 64; 128 + ch mod 64]
  else [240 + ch / 262144; 128 + ch / 4096 mod 64; 128 + ch / 64 mod 64; 128 + ch mod 64].
Definition encode (cs : list Z) : list Z := concat (map enc cs).

(** Well-formed byte sequences (the Unicode Standard's table of well-formed
    UTF-8 byte sequences). *)
Definition cont (b : Z) : Prop := 0x80 <= b <= 0xBF.
Inductive wf_utf8 : list Z -> Prop :=
| wf_nil : wf_utf8 []
| wf_1 b0 s : 0 <= b0 < 0x80 -> wf_utf8 s -> wf_utf8 (b0 :: s)
| wf_2 b0 b1 s : 0xC2 <= b0 <= 0xDF -> cont b1 -> wf_utf8 s -> wf_utf8 (b0 :: b1 :: s)
| wf_3 b0 b1 b2 s :
    (b0 = 0xE0 /\ 0xA0 <= b1 <= 0xBF) \/ (0xE1 <= b0 <= 0xEC /\ cont b1) \/
    (b0 = 0xED /\ 0x80 <= b1 <= 0x9F) \/ (0xEE <= b0 <= 0xEF /\ cont b1) ->
    cont b2 -> wf_utf8 s -> wf_utf8 (b0 :: b1 :: b2 :: s)
| wf_4 b0 b1 b2 b3 s :
    (b0 = 0xF0 /\ 0x90 <= b1 <= 0xBF) \/ (0xF1 <= b0 <= 0xF3 /\ cont b1) \/
    (b0 = 0xF4 /\ 0x80 <= b1 <= 0x8F) ->
    cont b2 -> cont b3 -> wf_utf8 s -> wf_utf8 (b0 :: b1 :: b2 :: b3 :: s).

(** ** Byte tests, by computation *)

Lemma cont_test b : 0 <= b < 256 -> (Z.land b 0xc0 =? 0x80) = (0x80 <=? b) && (b <=? 0xBF).
Proof.
  intros Hb. apply eqb_prop. revert b Hb. apply (zall_spec (fun b => eqb (Z.land b 0xc0 =? 0x80) ((0x80 <=? b) && (b <=? 0xBF)))).
  vm_compute. reflexivity.
Qed.
Lemma high_test b : 0 <= b < 256 -> (Z.land b 0x80 =? 0) = (b <? 128).
Proof.
  intros Hb. apply eqb_prop. revert b Hb. apply (zall_spec (fun b => eqb (Z.land b 0x80 =? 0) (b <? 128))).
  vm_compute. reflexivity.
Qed.
Lemma lead_test b : 0 <= b < 256 -> (0xf4 - 0xc2 <? u32 (b - 0xc2)) = negb ((0xc2 <=? b) && (b <=? 0xf4)).
Proof.
  intros Hb. apply eqb_prop. revert b Hb.
  apply (zall_spec (fun b => eqb (0xf4 - 0xc2 <? u32 (b - 0xc2)) (negb ((0xc2 <=? b) && (b <=? 0xf4))))).
  vm_compute. reflexivity.
Qed.
Lemma trailing_test b : 0 <= b < 256 ->
  Z.of_nat (trailing_bytes b) = if b <? 192 then 0 else if b <? 224 then 1 else if b <? 240 then 2 else if b <? 248 then 3
                     else if b <? 252 then 4 else 5.
Proof.
  intros Hb. apply Z.eqb_eq. revert b Hb.
  apply (zall_spec (fun b => Z.of_nat (trailing_bytes b) =? if b <? 192 then 0 else if b <? 224 then 1 else if b <? 240 then 2
    else if b <? 248 then 3 else if b <? 252 then 4 else 5)).
  vm_compute. reflexivity.
Qed.
Lemma isutf_test b : 0 <= b < 256 -> isutf b = negb ((0x80 <=? b) && (b <=? 0xBF)).
Proof. intros Hb. unfold isutf. by rewrite cont_test. Qed.

(** ** Validation *)

Definition ascii (s : list Z) : bool := forallb (fun b => b <? 128) s.

Lemma isvalid_complete s : wf_utf8 s -> forall ret, isvalid_scan ret s = if ascii s then ret else 2.
Proof.
  induction 1 as [|b0 s H0 Hs IH|b0 b1 s H0 H1 Hs IH|b0 b1 b2 s H0 H2 Hs IH|b0 b1 b2 b3 s H0 H2 H3 Hs IH];
    intros ret; unfold cont in *; cbn [isvalid_scan ascii forallb]; [done|..].
  all: rewrite high_test by lia; destruct (Z.ltb_spec b0 128); try lia; cbn [negb andb]; fold (ascii s).
  1: apply IH.
  all: rewrite lead_test by lia; destruct (Z.leb_spec 0xc2 b0), (Z.leb_spec b0 0xf4); try lia; cbn [andb negb].
  all: rewrite ?cont_test by lia; destruct (Z.ltb_spec b0 0xe0); try lia.
  2,3: destruct (Z.ltb_spec b0 0xf0); try lia.
  - destruct (Z.leb_spec 0x80 b1), (Z.leb_spec b1 0xBF); try lia. cbn [andb negb]. rewrite IH. by destruct (ascii s).
  - destruct (Z.leb_spec 0x80 b1), (Z.leb_spec b1 0xBF), (Z.leb_spec 0x80 b2), (Z.leb_spec b2 0xBF); try lia.
    cbn [andb negb orb]. destruct (Z.eqb_spec b0 0xed), (Z.ltb_spec 0x9f b1); try lia; cbn [andb];
      (destruct (Z.eqb_spec b0 0xe0), (Z.ltb_spec b1 0xa0); try lia; cbn [andb]; rewrite IH; by destruct (ascii s)).
  - destruct (Z.leb_spec 0x80 b1), (Z.leb_spec b1 0xBF), (Z.leb_spec 0x80 b2), (Z.leb_spec b2 0xBF),
      (Z.leb_spec 0x80 b3), (Z.leb_spec b3 0xBF); try lia.
    cbn [andb negb orb]. destruct (Z.eqb_spec b0 0xf0), (Z.ltb_spec b1 0x90); try lia; try (rewrite IH; by destruct (ascii s)).
    all: destruct (Z.eqb_spec b0 0xf4), (Z.ltb_spec 0x8f b1); try lia; rewrite IH; by destruct (ascii s).
Qed.

Lemma isvalid_sound n s ret : (length s <= n)%nat -> words 8 s -> isvalid_scan ret s <> 0 -> wf_utf8 s.
Proof.
  revert s ret. induction n as [|n IH]; intros s ret Hl Hw Hv.
  { destruct s; [constructor|cbn in Hl; lia]. }
  destruct s as [|b0 s]; [constructor|]. apply Forall_cons in Hw as [Hb0 Hw]. unfold in_range in Hb0.
  change (2 ^ 8) with 256 in Hb0. cbn [isvalid_scan length] in *. rewrite high_test in Hv by done.
  destruct (Z.ltb_spec b0 128); cbn [negb] in Hv; [apply wf_1; [lia|]; by apply (IH s ret); [lia| |]|].
  destruct s as [|b1 s]; [done|]. apply Forall_cons in Hw as [Hb1 Hw]. unfold in_range in Hb1.
  change (2 ^ 8) with 256 in Hb1. rewrite lead_test, (cont_test b1) in Hv by done. cbn [length] in Hl.
  destruct (Z.leb_spec 0xc2 b0), (Z.leb_spec b0 0xf4); cbn [andb negb] in Hv; try done.
  destruct (Z.leb_spec 0x80 b1), (Z.leb_spec b1 0xBF); cbn [andb negb orb] in Hv;
    try (destruct (b0 <? 0xe0); [done|]; destruct (b0 <? 0xf0); destruct s as [|? [|? ?]]; done).
  destruct (Z.ltb_spec b0 0xe0).
  { apply wf_2; [lia|unfold cont; lia|]. by apply (IH s 2); [lia| |]. }
  destruct s as [|b2 s]; [by destruct (b0 <? 0xf0)|]. apply Forall_cons in Hw as [Hb2 Hw]. unfold in_range in Hb2.
  change (2 ^ 8) with 256 in Hb2. rewrite (cont_test b2) in Hv by done. cbn [length] in Hl.
  destruct (Z.leb_spec 0x80 b2), (Z.leb_spec b2 0xBF); cbn [andb negb orb] in Hv;
    try (destruct (b0 <? 0xf0); [done|]; by destruct s).
  destruct (Z.ltb_spec b0 0xf0).
  { destruct (Z.eqb_spec b0 0xed), (Z.ltb_spec 0x9f b1); cbn [andb] in Hv; try done;
      destruct (Z.eqb_spec b0 0xe0), (Z.ltb_spec b1 0xa0); cbn [andb] in Hv; try done;
      (apply wf_3; [unfold cont; lia|unfold cont; lia|]; by apply (IH s 2); [lia| |]). }
  destruct s as [|b3 s]; [done|]. apply Forall_cons in Hw as [Hb3 Hw]. unfold in_range in Hb3.
  change (2 ^ 8) with 256 in Hb3. rewrite (cont_test b3) in Hv by done. cbn [length] in Hl.
  destruct (Z.leb_spec 0x80 b3), (Z.leb_spec b3 0xBF); cbn [andb negb orb] in Hv; try done.
  destruct (Z.eqb_spec b0 0xf0); [destruct (Z.ltb_spec b1 0x90); [done|]
    |destruct (Z.eqb_spec b0 0xf4); [destruct (Z.ltb_spec 0x8f b1); [done|]|]];
    (apply wf_4; [unfold cont; lia|unfold cont; lia|unfold cont; lia|]; by apply (IH s 2); [lia| |]).
Qed.

Lemma u8_isvalid_spec s : words 8 s ->
  (wf_utf8 s /\ u8_isvalid s = if ascii s then 1 else 2) \/ (~ wf_utf8 s /\ u8_isvalid s = 0).
Proof.
  intros Hw. assert (u8_isvalid s = isvalid_scan 1 s) as -> by by destruct s.
  destruct (Z.eq_dec (isvalid_scan 1 s) 0) as [E|E].
  - right. split; [|done]. intros Hwf. pose proof (isvalid_complete s Hwf 1) as H. rewrite E in H. by destruct (ascii s).
  - left. assert (wf_utf8 s) as Hwf by by apply (isvalid_sound (length s) s 1). split; [done|]. by apply isvalid_complete.
Qed.

(** ** Encoding *)

Lemma lor_80 x : 0 <= x < 64 -> Z.lor x 0x80 = 128 + x.
Proof. intros. change 0x80 with (Z.shiftl 2 6) at 1. rewrite lor_add by (unfold in_range; lia). lia. Qed.
Lemma lor_C0 x : 0 <= x < 64 -> Z.lor x 0xC0 = 192 + x.
Proof. intros. change 0xC0 with (Z.shiftl 3 6) at 1. rewrite lor_add by (unfold in_range; lia). lia. Qed.
Lemma lor_E0 x : 0 <= x < 32 -> Z.lor x 0xE0 = 224 + x.
Proof. intros. change 0xE0 with (Z.shiftl 7 5) at 1. rewrite lor_add by (unfold in_range; lia). lia. Qed.
Lemma lor_F0 x : 0 <= x < 16 -> Z.lor x 0xF0 = 240 + x.
Proof. intros. change 0xF0 with (Z.shiftl 15 4) at 1. rewrite lor_add by (unfold in_range; lia). lia. Qed.
Lemma u8_small x : 0 <= x < 256 -> u8 x = x.
Proof. intros. apply uw_small. unfold in_range. lia. Qed.
Lemma land_3F x : Z.land x 0x3F = x mod 64.
Proof. change 0x3F with (Z.ones 6). by rewrite Z.land_ones by lia. Qed.

Lemma u8_wc_toutf8_enc ch : 0 <= ch < 0x110000 -> u8_wc_toutf8 ch = enc ch.
Proof.
  intros Hch. unfold u8_wc_toutf8, enc. rewrite !land_3F, !Z.shiftr_div_pow2 by lia.
  change (2 ^ 6) with 64. change (2 ^ 12) with 4096. change (2 ^ 18) with 262144.
  pose proof (Z.mod_pos_bound ch 64 ltac:(lia)). pose proof (Z.mod_pos_bound (ch / 64) 64 ltac:(lia)).
  pose proof (Z.mod_pos_bound (ch / 4096) 64 ltac:(lia)).
  destruct (Z.ltb_spec ch 0x80); [by rewrite u8_small by lia|].
  destruct (Z.ltb_spec ch 0x800); [|destruct (Z.ltb_spec ch 0x10000); [|destruct (Z.ltb_spec ch 0x110000); [|lia]]].
  - assert (ch / 64 < 64 /\ 0 <= ch / 64 < 32) by (Z.div_mod_to_equations; lia).
    by rewrite lor_C0, lor_80, !u8_small by lia.
  - assert (0 <= ch / 4096 < 16) by (Z.div_mod_to_equations; lia).
    by rewrite lor_E0, !lor_80, !u8_small by lia.
  - assert (0 <= ch / 262144 < 8) by (Z.div_mod_to_equations; lia).
    by rewrite lor_F0, !lor_80, !u8_small by lia.
Qed.

(** The well-formed sequences are the encodings of scalar values. *)
Lemma enc_wf ch s : scalar ch -> wf_utf8 s -> wf_utf8 (enc ch ++ s).
Proof.
  intros Hch Hs. unfold scalar in Hch. unfold enc.
  destruct (Z.ltb_spec ch 0x80); [apply wf_1; [lia|done]|].
  destruct (Z.ltb_spec ch 0x800); [apply wf_2; [| |done]; unfold cont; Z.div_mod_to_equations; lia|].
  destruct (Z.ltb_spec ch 0x10000); [apply wf_3; [| |done]; unfold cont; Z.div_mod_to_equations; lia|].
  apply wf_4; [| | |done]; unfold cont; Z.div_mod_to_equations; lia.
Qed.

Lemma wf_encode s : wf_utf8 s <-> exists cs, Forall scalar cs /\ s = encode cs.
Proof.
  split.
  - induction 1 as [|b0 s H0 Hs IH|b0 b1 s H0 H1 Hs IH|b0 b1 b2 s H0 H2 Hs IH|b0 b1 b2 b3 s H0 H2 H3 Hs IH];
      [by exists []|..]; destruct IH as (cs & Hcs & ->); unfold cont in *.
    + exists (b0 :: cs). split; [constructor; [unfold scalar; lia|done]|]. unfold encode. cbn [map concat].
      unfold enc at 2. by destruct (Z.ltb_spec b0 0x80); [|lia].
    + exists ((b0 - 192) * 64 + (b1 - 128) :: cs). split; [constructor; [unfold scalar; lia|done]|].
      unfold encode. cbn [map concat]. unfold enc at 2. set (ch := _ * 64 + _).
      destruct (Z.ltb_spec ch 0x80); [lia|]. destruct (Z.ltb_spec ch 0x800); [|lia].
      assert (192 + ch / 64 = b0 /\ 128 + ch mod 64 = b1) as [-> ->]; [|done]. Z.div_mod_to_equations. lia.
    + exists ((b0 - 224) * 4096 + (b1 - 128) * 64 + (b2 - 128) :: cs). split; [constructor; [unfold scalar; lia|done]|].
      unfold encode. cbn [map concat]. unfold enc at 2. set (ch := _ + _).
      destruct (Z.ltb_spec ch 0x80); [lia|]. destruct (Z.ltb_spec ch 0x800); [lia|].
      destruct (Z.ltb_spec ch 0x10000); [|lia].
      assert (224 + ch / 4096 = b0 /\ 128 + ch / 64 mod 64 = b1 /\ 128 + ch mod 64 = b2) as (-> & -> & ->); [|done].
      Z.div_mod_to_equations. lia.
    + exists ((b0 - 240) * 262144 + (b1 - 128) * 4096 + (b2 - 128) * 64 + (b3 - 128) :: cs).
      split; [constructor; [unfold scalar; lia|done]|].
      unfold encode. cbn [map concat]. unfold enc at 2. set (ch := _ + _).
      destruct (Z.ltb_spec ch 0x80); [lia|]. destruct (Z.ltb_spec ch 0x800); [lia|].
      destruct (Z.ltb_spec ch 0x10000); [lia|].
      assert (240 + ch / 262144 = b0 /\ 128 + ch / 4096 mod 64 = b1 /\ 128 + ch / 64 mod 64 = b2 /\ 128 + ch mod 64 = b3)
        as (-> & -> & -> & ->); [|done].
      Z.div_mod_to_equations. lia.
  - intros (cs & Hcs & ->). induction Hcs as [|ch cs Hch Hcs IH]; [constructor|].
    unfold encode. cbn [map concat]. by apply enc_wf.
Qed.

(** ** Decoding one character *)

Lemma get_app_r (l k : list Z) i : get (l ++ k) (length l + i) = get k i.
Proof. unfold get. rewrite app_nth2 by lia. f_equal. lia. Qed.
Lemma get_app_0 (l k : list Z) : get (l ++ k) (length l) = get k 0.
Proof. rewrite <- (get_app_r l k 0). f_equal. lia. Qed.

Lemma read_step ch b : 0 <= ch < 2 ^ 25 -> 0 <= b < 256 -> u32 (u32 (Z.shiftl ch 6) + b) = ch * 64 + b.
Proof.
  intros Hc Hb. change (2 ^ 25) with 33554432 in Hc. rewrite Z.shiftl_mul_pow2 by lia. change (2 ^ 6) with 64.
  rewrite (uw_small 32 (ch * 64)), uw_small; unfold in_range; change (2 ^ 32) with 4294967296; lia.
Qed.

(** What the encoding of a code point looks like. *)
Inductive enc_shape (ch : Z) : list Z -> Prop :=
| enc1 : 0 <= ch < 0x80 -> enc_shape ch [ch]
| enc2 a b : ch = a * 64 + b -> 2 <= a < 32 -> 0 <= b < 64 -> enc_shape ch [192 + a; 128 + b]
| enc3 a b c : ch = a * 4096 + b * 64 + c -> 0 <= a < 16 -> 0 <= b < 64 -> 0 <= c < 64 -> 2048 <= ch ->
    enc_shape ch [224 + a; 128 + b; 128 + c]
| enc4 a b c d : ch = a * 262144 + b * 4096 + c * 64 + d -> 0 <= a <= 4 -> 0 <= b < 64 -> 0 <= c < 64 -> 0 <= d < 64 ->
    65536 <= ch -> enc_shape ch [240 + a; 128 + b; 128 + c; 128 + d].

Lemma enc_shaped ch : 0 <= ch < 0x110000 -> enc_shape ch (enc ch).
Proof.
  intros Hch. unfold enc. destruct (Z.ltb_spec ch 0x80); [by apply enc1; lia|].
  destruct (Z.ltb_spec ch 0x800); [apply enc2; Z.div_mod_to_equations; lia|].
  destruct (Z.ltb_spec ch 0x10000); [apply enc3; Z.div_mod_to_equations; lia|].
  apply enc4; Z.div_mod_to_equations; lia.
Qed.

Lemma trailing_enc ch s : 0 <= ch < 0x110000 ->
  trailing_bytes (get (enc ch ++ s) 0) = (length (enc ch) - 1)%nat /\ isutf (get (enc ch ++ s) 0) = true.
Proof.
  intros Hch. destruct (enc_shaped ch Hch) as [H|a b -> Ha Hb|a b c -> Ha Hb Hc H|a b c d -> Ha Hb Hc Hd H];
    cbn [app get nth length]; rewrite isutf_test by lia; (split; [|zcases; cbn; lia]).
  all: apply Nat2Z.inj; rewrite trailing_test by lia; zcases; lia.
Qed.

Lemma u32_small x : 0 <= x < 4294967296 -> u32 x = x.
Proof. intros. by apply uw_small. Qed.

Definition acc (ch b : Z) : Z := u32 (u32 (Z.shiftl ch 6) + b).

Lemma read_bytes_app pre bs post ch :
  read_bytes (pre ++ bs ++ post) (length pre) (length bs) ch = (foldl acc ch bs, (length pre + length bs)%nat).
Proof.
  revert pre ch. induction bs as [|b bs IH]; intros pre ch; cbn [read_bytes length foldl]; [f_equal; lia|].
  rewrite get_app_0. replace (pre ++ (b :: bs) ++ post) with ((pre ++ [b]) ++ bs ++ post) by by rewrite <- app_assoc.
  specialize (IH (pre ++ [b]) (acc ch b)). rewrite length_app in IH. cbn [length] in IH.
  replace (length pre + 1)%nat with (S (length pre)) in IH by lia. cbn [app get nth]. fold (acc ch b).
  rewrite IH. f_equal. lia.
Qed.

(** Accumulating the bytes of a character and subtracting the offset. *)
Lemma acc_enc ch : 0 <= ch < 0x110000 ->
  u32 (foldl acc 0 (enc ch) - get offsetsFromUTF8 (length (enc ch) - 1)) = ch.
Proof.
  intros Hch. assert (forall v b, 0 <= v < 33554432 -> 0 <= b < 256 -> acc v b = v * 64 + b) as Ha
    by (intros; by apply read_step).
  destruct (enc_shaped ch Hch) as [H|a b -> H1 H2|a b c -> H1 H2 H3 H|a b c d -> H1 H2 H3 H4 H];
    cbn [foldl length Nat.sub offsetsFromUTF8 get nth].
  - rewrite (Ha 0), u32_small; lia.
  - rewrite (Ha 0), (Ha (0 * 64 + _)), u32_small; lia.
  - rewrite (Ha 0), (Ha (0 * 64 + _)), (Ha (_ * 64 + _)), u32_small; lia.
  - rewrite (Ha 0), (Ha (0 * 64 + _)), (Ha ((0 * 64 + _) * 64 + _)), (Ha (_ * 64 + _)), u32_small; lia.
Qed.

Lemma u8_nextchar_enc pre ch post : 0 <= ch < 0x110000 ->
  u8_nextchar (pre ++ enc ch ++ post) (length pre) = (ch, (length pre + length (enc ch))%nat).
Proof.
  intros Hch. unfold u8_nextchar, u8_seqlen. rewrite drop_app_length.
  destruct (trailing_enc ch post Hch) as [Ht _]. rewrite Ht.
  assert (0 < length (enc ch))%nat by by destruct (enc_shaped ch Hch); cbn; lia.
  replace (length (enc ch) - 1 + 1)%nat with (length (enc ch)) by lia.
  rewrite read_bytes_app. by rewrite acc_enc.
Qed.

Lemma fall_through_app pre b bs post ch :
  fall_through (pre ++ (b :: bs) ++ post) (length pre) (length bs) ch
  = (foldl acc (u32 (ch + b)) bs, (length pre + S (length bs))%nat).
Proof.
  revert pre b ch. induction bs as [|b' bs IH]; intros pre b ch; cbn [fall_through length foldl];
    rewrite get_app_0; cbn [app get nth]; [f_equal; lia|].
  replace (pre ++ b :: b' :: bs ++ post) with ((pre ++ [b]) ++ (b' :: bs) ++ post) by by rewrite <- app_assoc.
  specialize (IH (pre ++ [b]) b' (u32 (Z.shiftl (u32 (ch + b)) 6))). rewrite length_app in IH. cbn [length] in IH.
  replace (length pre + 1)%nat with (S (length pre)) in IH by lia. rewrite IH. f_equal. lia.
Qed.

Lemma enc_nonempty ch : 0 <= ch < 0x110000 -> (0 < length (enc ch))%nat.
Proof. intros Hch. destruct (enc_shaped ch Hch); cbn; lia. Qed.

Lemma fall_through_enc pre ch post : 0 <= ch < 0x110000 ->
  let '(v, p) := fall_through (pre ++ enc ch ++ post) (length pre) (length (enc ch) - 1) 0 in
  u32 (v - get offsetsFromUTF8 (length (enc ch) - 1)) = ch /\ p = (length pre + length (enc ch))%nat.
Proof.
  intros Hch. pose proof (enc_nonempty ch Hch) as Hne. pose proof (acc_enc ch Hch) as Ha.
  destruct (enc ch) as [|b bs] eqn:E; [cbn in Hne; lia|].
  cbn [length] in *. rewrite Nat.sub_succ, Nat.sub_0_r in *. rewrite fall_through_app. split; [|lia].
  exact Ha.
Qed.

Lemma scalar_range ch : scalar ch -> 0 <= ch < 0x110000.
Proof. unfold scalar. lia. Qed.

Lemma encode_cons ch cs : encode (ch :: cs) = enc ch ++ encode cs.
Proof. done. Qed.
Lemma encode_app cs ds : encode (cs ++ ds) = encode cs ++ encode ds.
Proof. unfold encode. by rewrite map_app, concat_app. Qed.

(** A string continues with the first byte of a character, or ends. *)
Lemma boundary cs : Forall scalar cs -> isutf (get (encode cs) 0) = true.
Proof.
  destruct 1 as [|ch cs Hch Hcs]; [done|]. rewrite encode_cons. apply trailing_enc. by apply scalar_range.
Qed.

(** ** Conversions of whole strings *)

Lemma toucs_loop_encode rem pre cs : Forall scalar cs ->
  toucs_loop rem (pre ++ encode cs) (length pre + length (encode cs)) (length pre) = take rem cs.
Proof.
  intros Hcs. revert pre rem. induction Hcs as [|ch cs Hch Hcs IH]; intros pre rem.
  - rewrite take_nil. destruct rem as [|rem]; [done|]. cbn [toucs_loop].
    rewrite app_nil_r. unfold get at 1 2. rewrite nth_overflow by lia. cbn [isutf].
    change (negb (isutf 0)) with false. cbn iota. change (trailing_bytes 0) with 0%nat.
    by destruct (Nat.leb_spec (length pre + length (encode [])) (length pre + 0)); [|cbn in *; lia].
  - destruct rem as [|rem]; [done|]. cbn [toucs_loop take]. rewrite encode_cons.
    apply scalar_range in Hch. destruct (trailing_enc ch (encode cs) Hch) as [Ht Hu].
    rewrite !get_app_0, Hu, Ht. cbn [negb]. pose proof (enc_nonempty ch Hch).
    destruct (Nat.leb_spec (length pre + length (enc ch ++ encode cs)) (length pre + (length (enc ch) - 1)));
      [rewrite length_app in *; lia|].
    pose proof (fall_through_enc pre ch (encode cs) Hch) as Hf.
    destruct (fall_through _ _ _ _) as [v p]. destruct Hf as [-> ->]. f_equal.
    specialize (IH (pre ++ enc ch) rem). rewrite <- app_assoc, length_app in IH. rewrite <- IH. f_equal.
    rewrite length_app. lia.
Qed.

Lemma u8_toucs_encode sz cs : Forall scalar cs ->
  u8_toucs sz (encode cs) (length (encode cs)) = take sz cs.
Proof.
  intros Hcs. unfold u8_toucs. destruct (Nat.eqb_spec sz 0) as [->|]; [done|]. cbn [orb].
  destruct (Nat.eqb_spec (length (encode cs)) 0) as [E|].
  - destruct Hcs as [|ch cs Hch Hcs]; [by rewrite take_nil|]. apply scalar_range in Hch.
    rewrite encode_cons, length_app in E. pose proof (enc_nonempty ch Hch). lia.
  - apply (toucs_loop_encode sz [] cs Hcs).
Qed.

Lemma toutf8_step avail ch cs : 0 <= ch < 0x110000 ->
  u8_toutf8 avail (ch :: cs)
  = if (avail <? length (enc ch))%nat then [] else enc ch ++ u8_toutf8 (avail - length (enc ch)) cs.
Proof.
  intros Hch. pose proof (u8_wc_toutf8_enc ch Hch) as E. unfold u8_wc_toutf8 in E.
  cbn [u8_toutf8]. rewrite E. unfold enc.
  destruct (Z.ltb_spec ch 0x80); [|destruct (Z.ltb_spec ch 0x800); [|destruct (Z.ltb_spec ch 0x10000);
    [|destruct (Z.ltb_spec ch 0x110000); [|lia]]]]; cbn [length];
    match goal with |- (if (?x <=? ?k)%nat then _ else _) = (if (?x <? ?m)%nat then _ else _) =>
      replace (x <=? k)%nat with (x <? m)%nat; [done|destruct (Nat.leb_spec x k), (Nat.ltb_spec x m); try lia; done] end.
Qed.

(** The output is the encoding of the longest prefix that fits. *)
Lemma u8_toutf8_encode avail cs : Forall scalar cs ->
  exists k, (k <= length cs)%nat /\ u8_toutf8 avail cs = encode (take k cs) /\
    (length (encode (take k cs)) <= avail)%nat /\
    ((k < length cs)%nat -> (avail < length (encode (take (S k) cs)))%nat).
Proof.
  intros Hcs. revert avail. induction Hcs as [|ch cs Hch Hcs IH]; intros avail.
  { exists 0%nat. cbn. repeat split; lia. }
  apply scalar_range in Hch. rewrite toutf8_step by done. destruct (Nat.ltb_spec avail (length (enc ch))).
  - exists 0%nat. cbn [take length]. split; [lia|]. split; [done|]. split; [cbn; lia|]. intros _.
    rewrite encode_cons, length_app. lia.
  - destruct (IH (avail - length (enc ch))%nat) as (k & K1 & K2 & K3 & K4). exists (S k). cbn [take length].
    rewrite encode_cons, length_app, K2. split; [lia|]. split; [done|]. split; [lia|]. intros Hk.
    change (take (S (S k)) (ch :: cs)) with (ch :: take (S k) cs).
    rewrite encode_cons, length_app. specialize (K4 ltac:(lia)). lia.
Qed.

(** ** Offsets and character numbers *)

Definition bytes_before (cs : list Z) (k : nat) : nat := length (encode (take k cs)).

Lemma get_cons x l i : get (x :: l) (S i) = get l i.
Proof. done. Qed.

(** The continuation bytes of a character, then the next boundary. *)
Lemma enc_conts ch cs i : 0 <= ch < 0x110000 -> Forall scalar cs -> (0 < i <= length (enc ch))%nat ->
  isutf (get (enc ch ++ encode cs) i) = (i =? length (enc ch))%nat.
Proof.
  intros Hch Hcs Hi. destruct (Nat.eqb_spec i (length (enc ch))) as [->|Hne].
  - rewrite get_app_0. by apply boundary.
  - destruct (enc_shaped ch Hch) as [H|a b -> H1 H2|a b c -> H1 H2 H3 H|a b c d -> H1 H2 H3 H4 H]; cbn [length] in *; [lia|..].
    + assert (i = 1%nat) as -> by lia. cbn [app get nth]. rewrite isutf_test by lia. zcases; try lia; done.
    + assert (i = 1%nat \/ i = 2%nat) as [-> | ->] by lia; cbn [app get nth]; rewrite isutf_test by lia; zcases; try lia; done.
    + assert (i = 1%nat \/ i = 2%nat \/ i = 3%nat) as [-> |[-> | ->]] by lia; cbn [app get nth]; rewrite isutf_test by lia; zcases; try lia; done.
Qed.

Lemma enc_length_le ch : 0 <= ch < 0x110000 -> (1 <= length (enc ch) <= 4)%nat.
Proof. intros Hch. destruct (enc_shaped ch Hch); cbn; lia. Qed.

Lemma u8_inc_enc pre ch cs : 0 <= ch < 0x110000 -> Forall scalar cs ->
  u8_inc (pre ++ enc ch ++ encode cs) (length pre) = (length pre + length (enc ch))%nat.
Proof.
  intros Hch Hcs. unfold u8_inc. pose proof (enc_length_le ch Hch) as Hl.
  assert (forall k, (0 < k <= length (enc ch))%nat ->
    isutf (get (pre ++ enc ch ++ encode cs) (length pre + k)) = (k =? length (enc ch))%nat) as H.
  { intros k Hk. rewrite get_app_r. by apply enc_conts. }
  replace (S (S (S (length pre)))) with (length pre + 3)%nat by lia.
  replace (S (S (length pre))) with (length pre + 2)%nat by lia.
  replace (S (length pre)) with (length pre + 1)%nat by lia.
  rewrite (H 1%nat) by lia. destruct (Nat.eqb_spec 1 (length (enc ch))); [lia|].
  rewrite (H 2%nat) by lia. destruct (Nat.eqb_spec 2 (length (enc ch))); [lia|].
  rewrite (H 3%nat) by lia. destruct (Nat.eqb_spec 3 (length (enc ch))); lia.
Qed.

Lemma u8_dec_enc pre ch cs : 0 <= ch < 0x110000 -> Forall scalar cs ->
  u8_dec (pre ++ enc ch ++ encode cs) (length pre + length (enc ch)) = Some (length pre).
Proof.
  intros Hch Hcs. pose proof (enc_length_le ch Hch) as Hl.
  assert (forall k, (0 < k < length (enc ch))%nat -> isutf (get (pre ++ enc ch ++ encode cs) (length pre + k)) = false) as H.
  { intros k Hk. rewrite get_app_r, enc_conts by (done || lia). destruct (Nat.eqb_spec k (length (enc ch))); [lia|done]. }
  assert (isutf (get (pre ++ enc ch ++ encode cs) (length pre)) = true) as H0 by (rewrite get_app_0; by apply trailing_enc).
  assert (length (enc ch) = 1 \/ length (enc ch) = 2 \/ length (enc ch) = 3 \/ length (enc ch) = 4)%nat as Hc by lia.
  unfold u8_dec. destruct Hc as [E|[E|[E|E]]]; rewrite E in *.
  - rewrite Nat.add_1_r. by rewrite H0.
  - replace (length pre + 2)%nat with (S (S (length pre))) by lia. 
    pose proof (H 1%nat ltac:(lia)) as H1. rewrite Nat.add_1_r in H1. by rewrite H1, H0.
  - replace (length pre + 3)%nat with (S (S (S (length pre)))) by lia.
    pose proof (H 1%nat ltac:(lia)) as H1. pose proof (H 2%nat ltac:(lia)) as H2.
    replace (length pre + 1)%nat with (S (length pre)) in H1 by lia.
    replace (length pre + 2)%nat with (S (S (length pre))) in H2 by lia. by rewrite H2, H1, H0.
  - replace (length pre + 4)%nat with (S (S (S (S (length pre))))) by lia.
    pose proof (H 1%nat ltac:(lia)) as H1. pose proof (H 2%nat ltac:(lia)) as H2. pose proof (H 3%nat ltac:(lia)) as H3.
    replace (length pre + 1)%nat with (S (length pre)) in H1 by lia.
    replace (length pre + 2)%nat with (S (S (length pre))) in H2 by lia.
    replace (length pre + 3)%nat with (S (S (S (length pre)))) in H3 by lia. by rewrite H3, H2, H1.
Qed.

Lemma high_enc ch cs : 0 <= ch < 0x110000 ->
  (Z.land (get (enc ch ++ cs) 0) 0x80 =? 0) = (length (enc ch) =? 1)%nat.
Proof.
  intros Hch. destruct (enc_shaped ch Hch) as [H|a b -> H1 H2|a b c -> H1 H2 H3 H|a b c d -> H1 H2 H3 H4 H];
    cbn [app get nth length Nat.eqb]; rewrite high_test by lia; zcases; try lia; done.
Qed.

Lemma offset_step pre ch cs k : 0 <= ch < 0x110000 -> Forall scalar cs ->
  offset_loop (pre ++ enc ch ++ encode cs) (S k) (length pre)
  = offset_loop (pre ++ enc ch ++ encode cs) k (length pre + length (enc ch)).
Proof.
  intros Hch Hcs. cbn [offset_loop]. rewrite get_app_0, high_enc by done. pose proof (enc_length_le ch Hch) as Hl.
  assert (forall j, (0 < j <= length (enc ch))%nat ->
    isutf (get (pre ++ enc ch ++ encode cs) (length pre + j)) = (j =? length (enc ch))%nat) as H.
  { intros j Hj. rewrite get_app_r. by apply enc_conts. }
  f_equal. destruct (Nat.eqb_spec (length (enc ch)) 1) as [E|]; cbn [negb]; [lia|].
  replace (S (S (S (length pre)))) with (length pre + 3)%nat by lia.
  replace (S (S (length pre))) with (length pre + 2)%nat by lia.
  rewrite (H 2%nat) by lia. destruct (Nat.eqb_spec 2 (length (enc ch))); [lia|].
  rewrite (H 3%nat) by lia. destruct (Nat.eqb_spec 3 (length (enc ch))); lia.
Qed.

Lemma offset_loop_encode pre cs k : Forall scalar cs -> (k <= length cs)%nat ->
  offset_loop (pre ++ encode cs) k (length pre) = (length pre + bytes_before cs k)%nat.
Proof.
  intros Hcs. revert pre k. induction Hcs as [|ch cs Hch Hcs IH]; intros pre k Hk; cbn [length] in Hk.
  { assert (k = 0%nat) as -> by lia. cbn. lia. }
  destruct k as [|k]; [cbn; lia|]. rewrite encode_cons. apply scalar_range in Hch. rewrite offset_step by done.
  specialize (IH (pre ++ enc ch) k ltac:(lia)). rewrite <- app_assoc, length_app in IH. rewrite IH.
  unfold bytes_before. change (take (S k) (ch :: cs)) with (ch :: take k cs). rewrite encode_cons, length_app. lia.
Qed.

Definition count_utf (bs : list Z) : nat := length (filter (fun b => isutf b = true) bs).

Lemma charnum_loop_app pre bs post n :
  charnum_loop (pre ++ bs ++ post) (length pre) (length bs) n = (n + count_utf bs)%nat.
Proof.
  revert pre n. induction bs as [|b bs IH]; intros pre n; cbn [length charnum_loop]; [cbn; lia|].
  rewrite get_app_0. cbn [app get nth]. specialize (IH (pre ++ [b])). rewrite <- app_assoc, length_app in IH.
  cbn [length app] in IH. replace (length pre + 1)%nat with (S (length pre)) in IH by lia. rewrite IH.
  unfold count_utf. rewrite filter_cons. fold (isutf b). destruct (isutf b); destruct (decide _); try done; cbn [length]; lia.
Qed.

Lemma count_enc ch : 0 <= ch < 0x110000 -> count_utf (enc ch) = 1%nat.
Proof.
  intros Hch. unfold count_utf.
  destruct (enc_shaped ch Hch) as [H|a b -> H1 H2|a b c -> H1 H2 H3 H|a b c d -> H1 H2 H3 H4 H];
    rewrite !filter_cons, filter_nil, !isutf_test by lia; zcases; try lia; cbn [andb negb];
    repeat (destruct (decide _); try done).
Qed.

Lemma count_encode cs : Forall scalar cs -> count_utf (encode cs) = length cs.
Proof.
  induction 1 as [|ch cs Hch Hcs IH]; [done|]. rewrite encode_cons. unfold count_utf in *.
  rewrite filter_app, length_app, IH. apply scalar_range in Hch. pose proof (count_enc ch Hch) as H. unfold count_utf in H.
  cbn [length]. lia.
Qed.

Lemma u8_charnum_encode cs k : Forall scalar cs -> (k <= length cs)%nat -> u8_charnum (encode cs) (bytes_before cs k) = k.
Proof.
  intros Hcs Hk. unfold u8_charnum, bytes_before. rewrite <- (take_drop k cs) at 1. rewrite encode_app.
  pose proof (charnum_loop_app [] (encode (take k cs)) (encode (drop k cs)) 0) as H. cbn [app length] in H. rewrite H.
  rewrite count_encode by by apply Forall_take. rewrite length_take. lia.
Qed.

(** ** Searching *)

Lemma memchr_char_app fuel pre bs post sz c n : (length bs < fuel)%nat ->
  (length pre + length bs < sz)%nat ->
  Forall (fun b => isutf b = false) bs ->
  (sz = length pre + S (length bs) \/ isutf (get post 0) = true)%nat -> forall b,
  memchr_char fuel (pre ++ (b :: bs) ++ post) sz (length pre) c n
  = (foldl acc (acc c b) bs, (n + S (length bs))%nat, (length pre + S (length bs))%nat).
Proof.
  intros Hf Hsz Hbs Hend. revert fuel pre c n Hf Hsz Hend. induction Hbs as [|b1 bs Hb1 Hbs IH];
    intros fuel pre c n Hf Hsz Hend b; (destruct fuel as [|fuel]; [cbn in Hf; lia|]); cbn [memchr_char];
    rewrite get_app_0; cbn [app length foldl] in *;
    match goal with |- context [get (b :: ?l) 0] => change (get (b :: l) 0) with b end; fold (acc c b).
  - replace (S (length pre)) with (length pre + 1)%nat by lia. rewrite get_app_r, get_cons.
    replace ((length pre + 1 <? sz)%nat && negb (isutf (get post 0))) with false; [repeat (f_equal; try lia)|].
    destruct Hend as [-> | ->]; [|by rewrite andb_false_r]. destruct (Nat.ltb_spec (length pre + 1) (length pre + 1)); [lia|done].
  - replace (S (length pre)) with (length pre + 1)%nat at 1 2 by lia. rewrite get_app_r, get_cons.
    change (get (b1 :: bs ++ post) 0) with b1. rewrite Hb1.
    destruct (Nat.ltb_spec (length pre + 1) sz); [|lia]. cbn [andb negb].
    assert (length (pre ++ [b]) = S (length pre)) as Hlen by (rewrite length_app; cbn; lia).
    replace (pre ++ b :: b1 :: bs ++ post) with ((pre ++ [b]) ++ b1 :: bs ++ post) by by rewrite <- app_assoc.
    replace (length pre + 1)%nat with (S (length pre)) by lia. rewrite <- Hlen.
    rewrite IH by first [lia | destruct Hend; [left; lia|by right]]. rewrite Hlen. repeat (f_equal; try lia).
Qed.

Lemma enc_tail_conts ch : 0 <= ch < 0x110000 -> exists b bs, enc ch = b :: bs /\ Forall (fun b => isutf b = false) bs.
Proof.
  intros Hch. destruct (enc_shaped ch Hch) as [H|a b -> H1 H2|a b c -> H1 H2 H3 H|a b c d -> H1 H2 H3 H4 H];
    eexists _, _; (split; [done|]); repeat constructor; rewrite isutf_test by lia; zcases; try lia; done.
Qed.

(** The position of the first match, in characters. *)
Fixpoint first_index (ch : Z) (cs : list Z) : option nat :=
  match cs with
  | [] => None
  | c :: cs => if c =? ch then Some 0%nat else S <$> first_index ch cs
  end.

Lemma memchr_loop_encode fuel pre cs ch n : Forall scalar cs -> (length cs < fuel)%nat ->
  memchr_loop fuel (pre ++ encode cs) ch (length pre + length (encode cs)) (length pre) n
  = match first_index ch cs with
    | Some k => (Some (length pre + bytes_before cs k)%nat, (n + k)%nat)
    | None => (None, (n + length cs)%nat)
    end.
Proof.
  intros Hcs. revert fuel pre n. induction Hcs as [|c cs Hc Hcs IH]; intros fuel pre n Hf;
    (destruct fuel as [|fuel]; [cbn in Hf; lia|]); cbn [memchr_loop].
  { cbn [encode map concat length]. rewrite Nat.add_0_r, Nat.ltb_irrefl. cbn. f_equal. lia. }
  apply scalar_range in Hc. pose proof (enc_length_le c Hc) as Hl. rewrite encode_cons, length_app.
  destruct (Nat.ltb_spec (length pre) (length pre + (length (enc c) + length (encode cs)))); [|lia].
  destruct (enc_tail_conts c Hc) as (b & bs & E & Hbs).
  pose proof (memchr_char_app (length pre + (length (enc c) + length (encode cs)) - length pre) pre bs (encode cs)
    (length pre + (length (enc c) + length (encode cs))) 0 0) as Hm.
  rewrite E in *. cbn [length] in *. rewrite Hm; clear Hm; [|lia|lia|done|right; by apply boundary].
  pose proof (acc_enc c Hc) as Ha. rewrite E in Ha. cbn [foldl length] in Ha.
  replace (0 + S (length bs) - 1)%nat with (S (length bs) - 1)%nat by lia. rewrite Ha. cbn [first_index].
  destruct (Z.eqb_spec c ch) as [->|].
  - f_equal; [f_equal; unfold bytes_before; cbn; lia|lia].
  - specialize (IH fuel (pre ++ b :: bs) (S n) ltac:(cbn in Hf; lia)). rewrite <- app_assoc, length_app in IH. cbn [length] in IH.
    replace (length pre + (S (length bs) + length (encode cs)))%nat
      with (length pre + S (length bs) + length (encode cs))%nat by lia.
    rewrite IH. destruct (first_index ch cs) as [k|]; cbn [fmap option_fmap option_map].
    + f_equal; [f_equal|lia]. unfold bytes_before. change (take (S k) (c :: cs)) with (c :: take k cs).
      rewrite encode_cons, length_app, E. cbn [length]. lia.
    + f_equal. cbn [length]. lia.
Qed.

Lemma encode_length_ge cs : Forall scalar cs -> (length cs <= length (encode cs))%nat.
Proof.
  induction 1 as [|c cs Hc Hcs IH]; [cbn; lia|]. rewrite encode_cons, length_app. apply scalar_range in Hc.
  pose proof (enc_length_le c Hc). cbn [length]. lia.
Qed.

Lemma u8_memchr_encode cs ch : Forall scalar cs ->
  u8_memchr (encode cs) ch (length (encode cs))
  = match first_index ch cs with
    | Some k => (Some (bytes_before cs k), k)
    | None => (None, length cs)
    end.
Proof.
  intros Hcs. unfold u8_memchr. pose proof (encode_length_ge cs Hcs).
  apply (memchr_loop_encode (S (length (encode cs))) [] cs ch 0 Hcs). lia.
Qed.
