(* ===== verification/Utf8Correct.v ===== *)
(** * UTF-8 routines: the properties

    [encode cs] is the UTF-8 encoding of the scalar values [cs];
    [bytes_before cs k] is the offset of its [k]-th character. *)
From S2P Require Import Prelude Utf8 Utf8Facts.

(** ** Escape sequences and the remaining string scans of src/src/support/utf8.c *)

(** ** Hexadecimal digits *)

Lemma hex_char_facts d : 0 <= d < 16 ->
  hex_digit (hex_char d) = true /\ digit_value (hex_char d) = d /\ 0 <= hex_char d < 256.
Proof.
  intros Hd. unfold hex_char, hex_digit, digit_value. destruct (Z.ltb_spec d 10); zcases; cbn; try lia; repeat split; lia.
Qed.

Lemma hex_digits_length n v : length (hex_digits n v) = n.
Proof. revert v. induction n; intros v; cbn [hex_digits]; [done|]. rewrite length_app, IHn. cbn. lia. Qed.

Lemma hex_digits_hex n v : Forall (fun c => hex_digit c = true) (hex_digits n v).
Proof.
  revert v. induction n; intros v; cbn [hex_digits]; [constructor|]. apply Forall_app. split; [done|].
  constructor; [|constructor]. apply hex_char_facts, Z.mod_pos_bound. lia.
Qed.

Lemma strtol_app base l c : strtol base (l ++ [c]) = strtol base l * base + digit_value c.
Proof. unfold strtol. by rewrite foldl_app. Qed.

Lemma strtol_hex n v : 0 <= v < 16 ^ Z.of_nat n -> strtol 16 (hex_digits n v) = v.
Proof.
  revert v. induction n as [|n IH]; intros v Hv; cbn [hex_digits].
  - change (16 ^ Z.of_nat 0) with 1 in Hv. cbn. lia.
  - rewrite Nat2Z.inj_succ, Z.pow_succ_r in Hv by lia. rewrite strtol_app, IH.
    + rewrite (proj1 (proj2 (hex_char_facts (v mod 16) ltac:(apply Z.mod_pos_bound; lia)))).
      pose proof (Z.div_mod v 16 ltac:(lia)). lia.
    + split; [apply Z.div_pos; lia|]. apply Z.div_lt_upper_bound; lia.
Qed.

Lemma take_digits_all p pre ds post ssz :
  Forall (fun c => p c = true) ds -> (length pre + length ds <= ssz)%nat ->
  take_digits p (pre ++ ds ++ post) ssz (length pre) (length ds) = ds.
Proof.
  intros Hds. revert pre. induction Hds as [|d ds Hd Hds IH]; intros pre Hl; [done|]. cbn [length take_digits] in *.
  rewrite get_app_0. change (get ((d :: ds) ++ post) 0) with d. rewrite Hd.
  destruct (Nat.ltb_spec (length pre) ssz); [|lia]. cbn [andb]. f_equal.
  specialize (IH (pre ++ [d])). rewrite length_app, <- app_assoc in IH. cbn [length app] in IH.
  replace (length pre + 1)%nat with (S (length pre)) in IH by lia. apply IH. lia.
Qed.

Lemma read_hex c0 n ds post ssz :
  (c0 = 0x78 /\ n = 2%nat) \/ (c0 = 0x75 /\ n = 4%nat) \/ (c0 = 0x55 /\ n = 8%nat) ->
  length ds = n -> Forall (fun c => hex_digit c = true) ds -> (S n <= ssz)%nat ->
  u8_read_escape_sequence (c0 :: ds ++ post) ssz = Some (S n, u32 (strtol 16 ds)).
Proof.
  intros Hc Hl Hds Hs. unfold u8_read_escape_sequence. change (get (c0 :: ds ++ post) 0) with c0.
  pose proof (take_digits_all hex_digit [c0] ds post ssz Hds) as Ht. cbn [length app] in Ht. rewrite Hl in Ht.
  destruct Hc as [[-> ->]|[[-> ->]|[-> ->]]]; cbn [octal_digit Z.leb Z.compare Pos.compare Pos.compare_cont andb Z.eqb Pos.eqb];
    cbn [negb Nat.eqb]; rewrite Ht, Hl by lia; done.
Qed.

(** Reading back what [u8_escape_wchar] wrote after the backslash. *)
Lemma escape_read ch post ssz : 0 <= ch < 2 ^ 32 ->
  match u8_escape_wchar ch with
  | c :: rest =>
      if c =? 0x5c
      then (length rest <= ssz)%nat -> (0 < ssz)%nat -> u8_read_escape_sequence (rest ++ post) ssz = Some (length rest, ch)
      else rest = [] /\ c = ch /\ 32 <= ch < 127
  | [] => False
  end.
Proof.
  intros Hch. unfold u8_escape_wchar.
  destruct (Z.eqb_spec ch 10) as [->|]; [done|]. destruct (Z.eqb_spec ch 9) as [->|]; [done|].
  destruct (Z.eqb_spec ch 13) as [->|]; [done|]. destruct (Z.eqb_spec ch 0x1B) as [->|]; [done|].
  destruct (Z.eqb_spec ch 8) as [->|]; [done|]. destruct (Z.eqb_spec ch 12) as [->|]; [done|].
  destruct (Z.eqb_spec ch 11) as [->|]; [done|]. destruct (Z.eqb_spec ch 7) as [->|]; [done|].
  destruct (Z.eqb_spec ch 0x5c) as [->|]; [done|].
  change (2 ^ 32) with 4294967296 in Hch.
  destruct ((ch <? 32) || (ch =? 0x7f)) eqn:E1; [|destruct (Z.ltb_spec 0xFFFF ch); [|destruct (Z.leb_spec 0x80 ch)]].
  - assert (ch < 128) by (apply orb_true_iff in E1 as [E|E]; [apply Z.ltb_lt in E|apply Z.eqb_eq in E]; lia).
    cbn [app]. change (0x5c =? 0x5c) with true. cbn iota. intros Hs _. rewrite u8_small by lia. cbn [length] in *.
    rewrite hex_digits_length in *. cbn [app].
    rewrite (read_hex _ 2) by (rewrite ?hex_digits_length; auto using hex_digits_hex).
    by rewrite strtol_hex, u32_small by (change (16 ^ Z.of_nat 2) with 256; lia).
  - cbn [app]. change (0x5c =? 0x5c) with true. cbn iota. intros Hs _. cbn [length] in *.
    rewrite hex_digits_length in *. cbn [app].
    rewrite (read_hex _ 8) by (rewrite ?hex_digits_length; auto using hex_digits_hex).
    by rewrite strtol_hex, u32_small by (change (16 ^ Z.of_nat 8) with 4294967296; lia).
  - cbn [app]. change (0x5c =? 0x5c) with true. cbn iota. intros Hs _. cbn [length] in *.
    rewrite (uw_small 16) by (unfold in_range; change (2 ^ 16) with 65536; lia).
    rewrite hex_digits_length in *. cbn [app].
    rewrite (read_hex _ 4) by (rewrite ?hex_digits_length; auto using hex_digits_hex).
    by rewrite strtol_hex, u32_small by (change (16 ^ Z.of_nat 4) with 65536; lia).
  - destruct (Z.eqb_spec ch 0x5c); [lia|]. apply orb_false_iff in E1 as [E1 E2].
    apply Z.ltb_ge in E1. apply Z.eqb_neq in E2. repeat split; lia.
Qed.

(** ** Escaping a string *)

Section Escape.
Context (iswprint : Z -> bool).

(** How one character is written. *)
Definition esc1 (escapes : option (list Z)) (ascii : bool) (ch : Z) : list Z :=
  if (ch =? 0x5c) || (match escapes with Some e => strchr e ch | None => false end) then [0x5c; ch]
  else if ascii || negb (iswprint ch) then u8_escape_wchar ch
  else enc ch.

Lemma escape_wchar_length ch : (length (u8_escape_wchar ch) <= 10)%nat.
Proof. unfold u8_escape_wchar. repeat case_match; cbn [length app]; rewrite ?hex_digits_length; cbn; lia. Qed.

Lemma esc1_length escapes a ch : 0 <= ch < 0x110000 -> (length (esc1 escapes a ch) <= 10)%nat.
Proof.
  intros Hch. unfold esc1. pose proof (escape_wchar_length ch). pose proof (enc_length_le ch Hch).
  repeat case_match; cbn [length]; lia.
Qed.

Lemma copy_char_app fuel pre bs b post : (length bs < fuel)%nat ->
  Forall (fun b => isutf b = false) bs -> isutf (get post 0) = true ->
  copy_char fuel (pre ++ (b :: bs) ++ post) (length pre) = (b :: bs, (length pre + S (length bs))%nat).
Proof.
  intros Hf Hbs Hp. revert fuel pre b Hf. induction Hbs as [|b1 bs Hb1 Hbs IH]; intros fuel pre b Hf;
    (destruct fuel as [|fuel]; [cbn in Hf; lia|]); cbn [copy_char length] in *.
  - replace (S (length pre)) with (length pre + 1)%nat by lia. rewrite (get_app_r pre), (get_app_0 pre). cbn [app]. rewrite get_cons, Hp.
    change (get (b :: post) 0) with b. f_equal.
  - replace (S (length pre)) with (length pre + 1)%nat by lia. rewrite (get_app_r pre), (get_app_0 pre). cbn [app]. rewrite get_cons.
    change (get (b1 :: bs ++ post) 0) with b1. change (get (b :: b1 :: bs ++ post) 0) with b. rewrite Hb1.
    assert (length (pre ++ [b]) = (length pre + 1)%nat) as Hlen by (rewrite length_app; cbn; lia).
    replace (pre ++ b :: b1 :: bs ++ post) with ((pre ++ [b]) ++ b1 :: bs ++ post) by by rewrite <- app_assoc.
    rewrite <- Hlen. specialize (IH fuel (pre ++ [b]) b1 ltac:(lia)). cbn [app] in IH. rewrite IH, Hlen. f_equal. lia.
Qed.

(** The escapes are ASCII characters. *)
Definition ascii_escapes (escapes : option (list Z)) : Prop :=
  match escapes with Some e => Forall (fun c => 0 <= c < 128) e | None => True end.

Lemma lead_of_enc ch post : 0 <= ch < 0x110000 -> get (enc ch ++ post) 0 = ch \/ (128 <= ch /\ 128 <= get (enc ch ++ post) 0).
Proof. intros Hch. destruct (enc_shaped ch Hch); cbn [app get nth]; lia. Qed.

Lemma existsb_high c e : 128 <= c -> Forall (fun c => 0 <= c < 128) e -> existsb (Z.eqb c) e = false.
Proof. intros Hc. induction 1 as [|x e Hx He IH]; [done|]. cbn. rewrite IH. zcases; [lia|done]. Qed.

(** The test on the first byte is the test on the character. *)
Lemma escape_test escapes ch post : 0 <= ch < 0x110000 -> ascii_escapes escapes ->
  (get (enc ch ++ post) 0 =? 0x5c) || (match escapes with Some e => strchr e (get (enc ch ++ post) 0) | None => false end)
  = (ch =? 0x5c) || (match escapes with Some e => strchr e ch | None => false end).
Proof.
  intros Hch He. destruct (lead_of_enc ch post Hch) as [->|[H1 H2]]; [done|]. unfold strchr.
  destruct escapes as [e|]; [rewrite !existsb_high by done|]; zcases; cbn; lia.
Qed.

Lemma escaped_ascii escapes ch : ascii_escapes escapes -> 0 <= ch < 0x110000 ->
  (ch =? 0x5c) || (match escapes with Some e => strchr e ch | None => false end) = true -> ch < 128.
Proof.
  intros He Hch Ht. destruct (Z.lt_ge_cases ch 128); [done|exfalso]. unfold strchr in Ht.
  destruct escapes as [e|]; [rewrite existsb_high in Ht by done|]; destruct (Z.eqb_spec ch 0x5c); try lia; cbn in Ht;
    try done; apply Z.eqb_eq in Ht; lia.
Qed.

Lemma escape_loop_step fuel pre ch cs endp used sz escapes a :
  0 <= ch < 0x110000 -> Forall scalar cs -> ascii_escapes escapes -> (length pre < endp)%nat -> (used < sz - 11)%nat ->
  escape_loop iswprint (S fuel) (pre ++ enc ch ++ encode cs) (length pre) endp used sz escapes a
  = let '(out, i) := escape_loop iswprint fuel (pre ++ enc ch ++ encode cs) (length pre + length (enc ch)) endp
                      (used + length (esc1 escapes a ch)) sz escapes a in
    (esc1 escapes a ch ++ out, i).
Proof.
  intros Hch Hcs He Hi Hu. cbn [escape_loop].
  destruct (Nat.ltb_spec (length pre) endp); [|lia]. destruct (Nat.ltb_spec used (sz - 11)); [|lia]. cbn [andb].
  rewrite get_app_0, escape_test by done. unfold esc1.
  destruct ((ch =? 0x5c) || _) eqn:Et.
  - apply escaped_ascii in Et; [|done|done]. unfold enc. destruct (Z.ltb_spec ch 0x80); [|lia].
    cbn [length app]. change (get (ch :: encode cs) 0) with ch.
    replace (S (length pre)) with (length pre + 1)%nat by lia. done.
  - unfold u8_nextmemchar. rewrite u8_nextchar_enc by done. destruct (a || negb (iswprint ch)); [done|].
    destruct (enc_tail_conts ch Hch) as (b & bs & E & Hbs). rewrite E.
    rewrite copy_char_app; [done| |done|by apply boundary]. rewrite !length_app. cbn [length]. lia.
Qed.

Lemma escape_loop_spec fuel pre cs used sz escapes a :
  Forall scalar cs -> ascii_escapes escapes -> (11 < sz)%nat -> (used <= sz - 2)%nat -> (length cs < fuel)%nat ->
  exists k, (k <= length cs)%nat /\
    escape_loop iswprint fuel (pre ++ encode cs) (length pre) (length pre + length (encode cs)) used sz escapes a
    = (concat (map (esc1 escapes a) (take k cs)), (length pre + bytes_before cs k)%nat) /\
    (used + length (concat (map (esc1 escapes a) (take k cs))) <= sz - 2)%nat /\
    ((k < length cs)%nat -> (sz - 11 <= used + length (concat (map (esc1 escapes a) (take k cs))))%nat).
Proof.
  intros Hcs He Hsz. revert fuel pre used. induction Hcs as [|ch cs Hch Hcs IH]; intros fuel pre used Hu Hf;
    (destruct fuel as [|fuel]; [cbn in Hf; lia|]).
  { exists 0%nat. cbn [escape_loop encode map concat length take]. rewrite !Nat.add_0_r, Nat.ltb_irrefl. cbn.
    repeat split; lia. }
  apply scalar_range in Hch. pose proof (enc_length_le ch Hch).
  destruct (Nat.lt_ge_cases used (sz - 11)).
  - rewrite encode_cons, escape_loop_step; [|done|done|done|rewrite length_app; lia|done].
    pose proof (esc1_length escapes a ch Hch) as Hl.
    destruct (IH fuel (pre ++ enc ch) (used + length (esc1 escapes a ch))%nat ltac:(lia) ltac:(cbn in Hf; lia)) as (k & K1 & K2 & K3 & K4).
    exists (S k). rewrite <- app_assoc, length_app in K2.
    replace (length pre + length (enc ch ++ encode cs))%nat with (length pre + length (enc ch) + length (encode cs))%nat
      by (rewrite length_app; lia).
    rewrite K2. cbn [length take map concat]. rewrite length_app. split; [lia|]. split; [|split; [lia|lia]].
    f_equal. unfold bytes_before. change (take (S k) (ch :: cs)) with (ch :: take k cs). rewrite encode_cons, length_app. lia.
  - exists 0%nat. cbn [escape_loop take map concat length]. destruct (Nat.ltb_spec used (sz - 11)); [lia|].
    rewrite andb_false_r. split; [lia|]. split; [f_equal; cbn; lia|]. split; [lia|lia].
Qed.

(** The output fits, is the concatenation of escaped characters, stops on a
    character boundary, and at least one character is consumed. *)
Lemma u8_escape_spec pre cs sz escapes a :
  Forall scalar cs -> ascii_escapes escapes -> (11 < sz)%nat ->
  exists k, (k <= length cs)%nat /\ (cs <> [] -> (0 < k)%nat) /\
    u8_escape iswprint sz (pre ++ encode cs) (length pre) (length pre + length (encode cs)) escapes a
    = (concat (map (esc1 escapes a) (take k cs)) ++ [0], (length pre + bytes_before cs k)%nat) /\
    (length (concat (map (esc1 escapes a) (take k cs)) ++ [0%Z]) < sz)%nat.
Proof.
  intros Hcs He Hsz. unfold u8_escape. pose proof (encode_length_ge cs Hcs).
  destruct (escape_loop_spec (S (length pre + length (encode cs) - length pre)) pre cs 0 sz escapes a Hcs He Hsz
    ltac:(lia) ltac:(lia)) as (k & K1 & K2 & K3 & K4).
  exists k. split; [done|]. split.
  - intros Hne. destruct k; [|lia]. destruct cs; [done|]. cbn in K4. specialize (K4 ltac:(lia)). lia.
  - rewrite K2. split; [done|]. rewrite length_app. cbn [length]. lia.
Qed.
End Escape.

(** A NUL is matched by [strchr] as a member of any escape set. *)
Lemma escape_nul iswprint e : u8_escape iswprint 512 [0] 0 1 (Some e) false = ([0x5c; 0; 0], 1%nat).
Proof. unfold u8_escape. cbn [escape_loop Nat.sub]. unfold strchr. cbn. rewrite orb_true_r. done. Qed.

(** ** Searching backwards *)

Lemma rev_case {A} (l : list A) : l = [] \/ exists x l', l = l' ++ [x].
Proof. induction l as [|x l _] using rev_ind; [by left|right; by exists x, l]. Qed.

Fixpoint last_index (ch : Z) (cs : list Z) : option nat :=
  match cs with
  | [] => None
  | c :: cs => match last_index ch cs with Some k => Some (S k) | None => if c =? ch then Some 0%nat else None end
  end.

Lemma last_index_snoc ch cs c : last_index ch (cs ++ [c]) = if c =? ch then Some (length cs) else last_index ch cs.
Proof.
  induction cs as [|x cs IH]; cbn [app last_index length]; [done|]. rewrite IH. destruct (c =? ch); [done|].
  done.
Qed.

Lemma back_to_start_enc pre ch : 0 <= ch < 0x110000 ->
  back_to_start (pre ++ enc ch) (length pre + length (enc ch) - 1) = length pre.
Proof.
  intros Hch. destruct (trailing_enc ch [] Hch) as [_ H0].
  assert (isutf (get (pre ++ enc ch) (length pre)) = true) as Hlead by (rewrite get_app_0; by rewrite app_nil_r in H0).
  assert (forall k, (k < length (enc ch))%nat -> back_to_start (pre ++ enc ch) (length pre + k) = length pre) as H.
  2: { pose proof (enc_nonempty ch Hch). replace (length pre + length (enc ch) - 1)%nat
         with (length pre + (length (enc ch) - 1))%nat by lia. apply H. lia. }
  induction k as [|k IH]; intros Hk.
  - rewrite Nat.add_0_r. destruct (length pre) eqn:E; [done|]. cbn [back_to_start]. rewrite <- E in *. by rewrite Hlead.
  - replace (length pre + S k)%nat with (S (length pre + k)) by lia. cbn [back_to_start].
    pose proof (enc_conts ch [] (S k) Hch ltac:(constructor) ltac:(lia)) as Hc. cbn [encode map concat] in Hc. rewrite app_nil_r in Hc.
    replace (S (length pre + k)) with (length pre + S k)%nat by lia. rewrite get_app_r, Hc.
    destruct (Nat.eqb_spec (S k) (length (enc ch))); [lia|]. apply IH. lia.
Qed.

Lemma last_index_lt ch cs k : last_index ch cs = Some k -> (k < length cs)%nat.
Proof.
  revert k. induction cs as [|c cs IH]; intros k H; [done|]. cbn [last_index length] in *.
  destruct (last_index ch cs) as [j|].
  - injection H as <-. specialize (IH j eq_refl). lia.
  - destruct (c =? ch); [injection H as <-; lia|done].
Qed.

Lemma bytes_before_app cs ds k : (k <= length cs)%nat -> bytes_before (cs ++ ds) k = bytes_before cs k.
Proof. intros. unfold bytes_before. by rewrite take_app_le. Qed.

Lemma memrchr_loop_encode n fuel cs c post ch : (length cs <= n)%nat -> (n < fuel)%nat ->
  Forall scalar cs -> scalar c -> Forall scalar post ->
  memrchr_loop fuel (encode cs ++ enc c ++ encode post) ch (length (encode cs))
  = Some (bytes_before (cs ++ [c]) <$> last_index ch (cs ++ [c])).
Proof.
  revert fuel cs c post. induction n as [|n IH]; intros fuel cs c post Hn Hf Hcs Hc Hp;
    (destruct fuel as [|fuel]; [lia|]); cbn [memrchr_loop]; unfold u8_nextmemchar; pose proof (scalar_range c Hc) as Hcr;
    rewrite u8_nextchar_enc by done; rewrite last_index_snoc; destruct (Z.eqb_spec c ch) as [->|].
  1,3: cbn; unfold bytes_before; by rewrite take_app_length.
  - destruct cs; [|cbn in Hn; lia]. done.
  - destruct (rev_case cs) as [->|(x & cs' & ->)]; [done|].
    apply Forall_app in Hcs as [Hcs' Hx]. apply Forall_cons in Hx as [Hx _]. pose proof (scalar_range x Hx) as Hxr.
    pose proof (enc_nonempty x Hxr).
    assert (encode (cs' ++ [x]) = encode cs' ++ enc x) as E by (rewrite encode_app; cbn; by rewrite app_nil_r).
    rewrite E, length_app. destruct (Nat.eqb_spec (length (encode cs') + length (enc x)) 0); [lia|].
    rewrite <- app_assoc. change (enc c ++ encode post) with (encode (c :: post)).
    rewrite u8_dec_enc by (done || by constructor).
    rewrite length_app in Hn. cbn [length] in Hn.
    rewrite (IH fuel cs' x (c :: post)); [|lia|lia|done|done|by constructor].
    f_equal. destruct (last_index ch (cs' ++ [x])) as [k|] eqn:Ek; [|done]. cbn. f_equal.
    apply last_index_lt in Ek. by rewrite (bytes_before_app (cs' ++ [x])) by lia.
Qed.

Lemma u8_memrchr_encode cs ch : Forall scalar cs ->
  u8_memrchr (encode cs) ch (length (encode cs)) = Some (bytes_before cs <$> last_index ch cs).
Proof.
  intros Hcs. destruct (rev_case cs) as [->|(c & cs' & ->)]; [done|].
  apply Forall_app in Hcs as [Hcs' Hc]. apply Forall_cons in Hc as [Hc _]. pose proof (scalar_range c Hc) as Hcr.
  pose proof (enc_nonempty c Hcr). pose proof (encode_length_ge cs' Hcs').
  assert (encode (cs' ++ [c]) = encode cs' ++ enc c) as E by (rewrite encode_app; cbn; by rewrite app_nil_r).
  unfold u8_memrchr. rewrite E, length_app. destruct (Nat.eqb_spec (length (encode cs') + length (enc c)) 0); [lia|].
  rewrite back_to_start_enc by done.
  pose proof (memrchr_loop_encode (length cs') (S (length (encode cs') + length (enc c))) cs' c [] ch) as Hm.
  cbn [encode map concat] in Hm. rewrite app_nil_r in Hm. apply Hm; [lia|lia|done|done|constructor].
Qed.

(** ** Display width *)

(** The width of a string without NULs is the sum of the widths of its
    characters, every ASCII character counting 1. *)
Definition width1 (charwidth : Z -> Z) (ch : Z) : Z := if ch <? 128 then 1 else charwidth ch.

Lemma strwidth_loop_encode w fuel pre cs tot : Forall scalar cs -> Forall (fun c => c <> 0) cs -> (length cs < fuel)%nat ->
  strwidth_loop w fuel (pre ++ encode cs) (length pre) tot = tot + foldr Z.add 0 (map (width1 w) cs).
Proof.
  intros Hcs Hnz. revert fuel pre tot. induction Hcs as [|ch cs Hch Hcs IH]; intros fuel pre tot Hf;
    (destruct fuel as [|fuel]; [cbn in Hf; lia|]); cbn [strwidth_loop].
  { rewrite app_nil_r. unfold get. rewrite nth_overflow by lia. cbn. lia. }
  apply Forall_cons in Hnz as [Hz Hnz]. apply scalar_range in Hch. rewrite encode_cons, get_app_0. cbn [map foldr].
  specialize (IH Hnz fuel (pre ++ enc ch)). rewrite <- app_assoc, length_app in IH.
  destruct (trailing_enc ch (encode cs) Hch) as [Ht Hu].
  destruct (Z.lt_ge_cases ch 128) as [Hlt|Hge].
  - assert (enc ch = [ch]) as E by (unfold enc; by destruct (Z.ltb_spec ch 0x80); [|lia]). rewrite E in *.
    change (get ([ch] ++ encode cs) 0) with ch. destruct (Z.eqb_spec ch 0); [done|].
    destruct (Z.ltb_spec ch 0x80); [|lia]. cbn [length] in IH. replace (S (length pre)) with (length pre + 1)%nat by lia.
    rewrite IH by (cbn in Hf; lia). unfold width1 at 2. destruct (Z.ltb_spec ch 128); [lia|lia].
  - assert (128 <= get (enc ch ++ encode cs) 0) by (destruct (lead_of_enc ch (encode cs) Hch) as [->|[_ ?]]; lia).
    destruct (Z.eqb_spec (get (enc ch ++ encode cs) 0) 0); [lia|].
    destruct (Z.ltb_spec (get (enc ch ++ encode cs) 0) 0x80); [lia|]. rewrite Hu, Ht. cbn [negb].
    pose proof (fall_through_enc pre ch (encode cs) Hch) as Hft. destruct (fall_through _ _ _ _) as [v p].
    destruct Hft as [-> ->]. rewrite IH by (cbn in Hf; lia). unfold width1 at 2. destruct (Z.ltb_spec ch 128); lia.
Qed.

Lemma u8_strwidth_encode w cs : Forall scalar cs -> Forall (fun c => c <> 0) cs ->
  u8_strwidth w (encode cs) = foldr Z.add 0 (map (width1 w) cs).
Proof.
  intros Hcs Hnz. unfold u8_strwidth. pose proof (encode_length_ge cs Hcs).
  rewrite (strwidth_loop_encode w _ [] cs 0) by (done || lia). lia.
Qed.

(** * UTF-8 routines: the properties *)

(** C15: [u8_isvalid] accepts exactly the UTF-8 encodings of sequences of
    Unicode scalar values (no overlong form, surrogate, truncated or stray
    byte), and tells the ASCII ones (1) from the others (2). *)
Theorem u8_isvalid_correct s : words 8 s ->
  (u8_isvalid s <> 0 <-> exists cs, Forall scalar cs /\ s = encode cs) /\
  (u8_isvalid s <> 0 -> u8_isvalid s = if ascii s then 1 else 2).
Proof.
  intros Hs. rewrite <- wf_encode.
  destruct (u8_isvalid_spec s Hs) as [[Hwf ->]|[Hwf ->]]; split; try done; destruct (ascii s); done.
Qed.
(** U+20AC, then a stray continuation byte. *)
Lemma u8_isvalid_correct_witness :
  words 8 [0xe2; 0x82; 0xac; 0x80] /\ ~ (exists cs, Forall scalar cs /\ [0xe2; 0x82; 0xac; 0x80] = encode cs).
Proof.
  assert (words 8 [0xe2; 0x82; 0xac; 0x80]) as H by (repeat constructor; unfold in_range; lia).
  split; [exact H|]. intros Hcs. apply (proj1 (u8_isvalid_correct _ H)) in Hcs. apply Hcs. vm_compute. reflexivity.
Defined.


(** Character numbers and byte offsets are converted into each other:
    [u8_offset] gives the offset of the [k]-th character and [u8_charnum] the
    number of the character at that offset. *)
Theorem u8_offset_charnum cs k : Forall scalar cs -> (k <= length cs)%nat ->
  u8_offset (encode cs) k = bytes_before cs k /\ u8_charnum (encode cs) (u8_offset (encode cs) k) = k.
Proof.
  intros Hcs Hk. assert (u8_offset (encode cs) k = bytes_before cs k) as ->
    by exact (offset_loop_encode [] cs k Hcs Hk).
  split; [done|by apply u8_charnum_encode].
Qed.
Lemma u8_offset_charnum_witness :
  u8_offset (encode [0x41; 0x20ac; 0x42]) 2 = 4%nat /\ u8_charnum (encode [0x41; 0x20ac; 0x42]) 4 = 2%nat.
Proof.
  assert (Forall scalar [0x41; 0x20ac; 0x42]) as H by (repeat constructor; unfold scalar; lia).
  destruct (u8_offset_charnum _ 2 H ltac:(cbn; lia)) as [E1 E2]. rewrite E1 in E2. exact (conj E1 E2).
Defined.

(** on a valid string the iterators agree: from the start of a character
    [u8_nextchar] reads it and advances over it, [u8_inc] advances over it, and
    [u8_dec] comes back, without leaving the string. *)
Theorem u8_iteration pre ch cs : Forall scalar pre -> scalar ch -> Forall scalar cs ->
  let s := encode (pre ++ ch :: cs) in
  let i := length (encode pre) in
  let j := length (encode (pre ++ [ch])) in
  u8_nextchar s i = (ch, j) /\ u8_inc s i = j /\ u8_dec s j = Some i.
Proof.
  intros Hpre Hch Hcs s i j. subst s i j. apply scalar_range in Hch as Hr.
  assert (encode [ch] = enc ch) as E by (unfold encode; cbn [map concat]; apply app_nil_r).
  rewrite !encode_app, length_app, encode_cons, E.
  split_and!; [by apply u8_nextchar_enc|by apply u8_inc_enc|by apply u8_dec_enc].
Qed.
Lemma u8_iteration_witness :
  u8_nextchar (encode [0x41; 0x20ac; 0x42]) 1 = (0x20ac, 4%nat) /\
  u8_inc (encode [0x41; 0x20ac; 0x42]) 1 = 4%nat /\ u8_dec (encode [0x41; 0x20ac; 0x42]) 4 = Some 1%nat.
Proof.
  apply (u8_iteration [0x41] 0x20ac [0x42]); repeat constructor; unfold scalar; lia.
Defined.

(** [u8_memchr] finds the first occurrence of a character and
    [u8_memrchr] the last, as byte offsets (and [u8_memchr] as a character
    number), reading inside the string only. *)
Theorem u8_search cs ch : Forall scalar cs ->
  let s := encode cs in
  u8_memchr s ch (length s)
  = match first_index ch cs with
    | Some k => (Some (bytes_before cs k), k)
    | None => (None, length cs)
    end /\
  u8_memrchr s ch (length s) = Some (bytes_before cs <$> last_index ch cs).
Proof. intros Hcs s. split; [by apply u8_memchr_encode|by apply u8_memrchr_encode]. Qed.
Lemma u8_search_witness :
  u8_memchr (encode [0x20ac; 0x41; 0x41]) 0x41 5 = (Some 3%nat, 1%nat) /\
  u8_memrchr (encode [0x20ac; 0x41; 0x41]) 0x41 5 = Some (Some 4%nat).
Proof.
  assert (Forall scalar [0x20ac; 0x41; 0x41]) as H by (repeat constructor; unfold scalar; lia).
  exact (u8_search _ 0x41 H).
Defined.


(** C26: reading back an escape gives the character: for every 32-bit
    character [u8_escape_wchar] writes either the character itself, a printable
    ASCII one, or a backslash and a sequence that [u8_read_escape_sequence]
    reads entirely and turns into it, whatever follows. *)
Theorem u8_escape_roundtrip ch post ssz : 0 <= ch < 2 ^ 32 ->
  match u8_escape_wchar ch with
  | c :: rest =>
      if c =? 0x5c
      then (length rest <= ssz)%nat -> (0 < ssz)%nat -> u8_read_escape_sequence (rest ++ post) ssz = Some (length rest, ch)
      else rest = [] /\ c = ch /\ 32 <= ch < 127
  | [] => False
  end.
Proof. apply escape_read. Qed.
Lemma u8_escape_roundtrip_witness :
  u8_read_escape_sequence [0x75; 0x32; 0x30; 0x61; 0x63; 0x21] 6 = Some (5%nat, 0x20ac).
Proof.
  exact (u8_escape_roundtrip 0x20ac [0x21] 6 ltac:(lia) ltac:(vm_compute; lia) ltac:(lia)).
Defined.

(** The display width of a string is the sum of its characters' widths. *)
Theorem u8_strwidth_correct charwidth cs : Forall scalar cs -> Forall (fun c => c <> 0) cs ->
  u8_strwidth charwidth (encode cs) = foldr Z.add 0 (map (width1 charwidth) cs).
Proof. apply u8_strwidth_encode. Qed.
Lemma u8_strwidth_correct_witness : u8_strwidth (fun _ => 2) (encode [0x41; 0x4e2d]) = 3.
Proof.
  apply (u8_strwidth_correct (fun _ => 2) [0x41; 0x4e2d]); repeat constructor; unfold scalar; lia.
Defined.
