(* ===== verification/Crc32c.v ===== *)
(** * CRC-32C: the definitions of src/src/crc32c.c

    The table-driven software routine, the SSE4.2 and ARMv8 routines over the
    processor's crc instructions, and the generator of the tables. A pointer is
    the list of the bytes from it on, with its address where the code looks at
    the alignment; a read past the end of the list is [None]. The machine is
    little-endian with 64-bit pointers. *)
From S2P Require Import Prelude Crc32cTables.

Definition POLY : Z := 0x82f63b78.
Definition LONG : Z := 8192.
Definition SHORT : Z := 256.

(** [load n p]: the [n]-byte little-endian word at [p]. *)
Fixpoint load (n : nat) (p : list Z) : option Z :=
  match n with
  | O => Some 0
  | S n => match p with [] => None | b :: p => (fun v => b + 2 ^ 8 * v) <$> load n p end
  end.

(** [tab[k][i]]. *)
Definition entry (tab : list (list Z)) (k : nat) (i : Z) : Z := get (nth k tab []) (Z.to_nat i).

Definition crc32c_shift (zeros : list (list Z)) (crc : Z) : Z :=
  Z.lxor (Z.lxor (Z.lxor
    (entry zeros 0 (Z.land crc 0xff))
    (entry zeros 1 (Z.land (Z.shiftr crc 8) 0xff)))
    (entry zeros 2 (Z.land (Z.shiftr crc 16) 0xff)))
    (entry zeros 3 (Z.shiftr crc 24)).

(** The variables of the routines: [crc], [buf] (its address and the bytes
    there) and [len]. *)
Record cursor := { crc : Z; addr : Z; buf : list Z; len : Z }.

Definition advance (s : cursor) (crc' : Z) (n : Z) : cursor :=
  {| crc := crc'; addr := addr s + n; buf := drop (Z.to_nat n) (buf s); len := len s - n |}.

Definition unaligned (s : cursor) : bool := negb (len s =? 0) && negb (Z.land (addr s) 7 =? 0).
Definition nonempty (s : cursor) : bool := negb (len s =? 0).

(** ** Software *)

Definition sw_byte (s : cursor) : option cursor :=
  b ← load 1 (buf s);
  Some (advance s (Z.lxor (entry crc32c_table 0 (Z.land (Z.lxor (crc s) (u64 (sw 8 b))) 0xff))
                          (Z.shiftr (crc s) 8)) 1).

Definition sw_quad (s : cursor) : option cursor :=
  w ← load 8 (buf s);
  let crc := Z.lxor (crc s) w in
  Some (advance s (Z.lxor (Z.lxor (Z.lxor (Z.lxor (Z.lxor (Z.lxor (Z.lxor
    (entry crc32c_table 7 (Z.land crc 0xff))
    (entry crc32c_table 6 (Z.land (Z.shiftr crc 8) 0xff)))
    (entry crc32c_table 5 (Z.land (Z.shiftr crc 16) 0xff)))
    (entry crc32c_table 4 (Z.land (Z.shiftr crc 24) 0xff)))
    (entry crc32c_table 3 (Z.land (Z.shiftr crc 32) 0xff)))
    (entry crc32c_table 2 (Z.land (Z.shiftr crc 40) 0xff)))
    (entry crc32c_table 1 (Z.land (Z.shiftr crc 48) 0xff)))
    (entry crc32c_table 0 (Z.shiftr crc 56))) 8).

Definition jl_crc32c_sw (crci addr : Z) (buf : list Z) (len : Z) : option Z :=
  let fuel := S (Z.to_nat len) in
  s ← while fuel unaligned sw_byte
        {| crc := Z.lxor crci 0xffffffff; addr := addr; buf := buf; len := len |};
  s ← while fuel (fun s => 8 <=? Crc32c.len s) sw_quad s;
  s ← while fuel nonempty sw_byte s;
  Some (Z.lxor (u32 (crc s)) 0xffffffff).

(** ** SSE4.2 *)

Section Sse42.
(** The instructions [crc32b] and [crc32q]: accumulator, then source operand. *)
Context (crc32b crc32q : Z -> Z -> Z).

Definition sse_byte (s : cursor) : option cursor :=
  b ← load 1 (buf s); Some (advance s (crc32b (crc s) b) 1).

(** [crc0], [crc1], [crc2], [buf] and [end - buf]. *)
Record lanes := { crc0 : Z; crc1 : Z; crc2 : Z; lbuf : list Z; lrem : Z }.

Definition sse_lane (size : Z) (l : lanes) : option lanes :=
  w0 ← load 8 (lbuf l);
  w1 ← load 8 (drop (Z.to_nat size) (lbuf l));
  w2 ← load 8 (drop (Z.to_nat (size * 2)) (lbuf l));
  Some {| crc0 := crc32q (crc0 l) w0; crc1 := crc32q (crc1 l) w1; crc2 := crc32q (crc2 l) w2;
          lbuf := drop 8 (lbuf l); lrem := lrem l - 8 |}.

Definition sse_block (size : Z) (zeros : list (list Z)) (s : cursor) : option cursor :=
  l ← do_while (Z.to_nat size) (sse_lane size) (fun l => 0 <? lrem l)
        {| crc0 := crc s; crc1 := 0; crc2 := 0; lbuf := buf s; lrem := size |};
  let crc0 := Z.lxor (crc32c_shift zeros (u32 (crc0 l))) (crc1 l) in
  let crc0 := Z.lxor (crc32c_shift zeros (u32 crc0)) (crc2 l) in
  Some {| crc := crc0; addr := addr s + size * 3; buf := drop (Z.to_nat (size * 2)) (lbuf l);
          len := len s - size * 3 |}.

(** [buf < end] where [end] is [buf] rounded down to whole words. *)
Definition sse_quad (sn : cursor * Z) : option (cursor * Z) :=
  let '(s, n) := sn in
  w ← load 8 (buf s);
  Some ({| crc := crc32q (crc s) w; addr := addr s + 8; buf := drop 8 (buf s); len := len s |}, n - 8).

Definition crc32c_sse42 (crci addr : Z) (buf : list Z) (len : Z) : option Z :=
  let fuel := S (Z.to_nat len) in
  s ← while fuel unaligned sse_byte
        {| crc := Z.lxor crci 0xffffffff; addr := addr; buf := buf; len := len |};
  s ← while fuel (fun s => LONG * 3 <=? Crc32c.len s) (sse_block LONG crc32c_long) s;
  s ← while fuel (fun s => SHORT * 3 <=? Crc32c.len s) (sse_block SHORT crc32c_short) s;
  '(s, _) ← while fuel (fun sn => 0 <? snd sn) sse_quad (s, Crc32c.len s - Z.land (Crc32c.len s) 7);
  let s := {| crc := crc s; addr := Crc32c.addr s; buf := Crc32c.buf s; len := Z.land (Crc32c.len s) 7 |} in
  s ← while fuel nonempty sse_byte s;
  Some (Z.lxor (u32 (crc s)) 0xffffffff).
End Sse42.

(** ** ARMv8 *)

Section Armv8.
(** The instructions [crc32cx], [crc32cw], [crc32ch] and [crc32cb]. *)
Context (crc32cx crc32cw crc32ch crc32cb : Z -> Z -> Z).

(** [crc], [crc1], [crc2], [buf], [buf2], [buf3] and [end - buf]. *)
Record arm3 := { a0 : Z; a1 : Z; a2 : Z; p0 : list Z; p1 : list Z; p2 : list Z; arem : Z }.

Definition arm_lane3 (l : arm3) : option arm3 :=
  w0 ← load 8 (p0 l);
  w1 ← load 8 (p1 l);
  w2 ← load 8 (p2 l);
  Some {| a0 := crc32cx (a0 l) w0; a1 := crc32cx (a1 l) w1; a2 := crc32cx (a2 l) w2;
          p0 := drop 8 (p0 l); p1 := drop 8 (p1 l); p2 := drop 8 (p2 l); arem := arem l - 8 |}.

Definition arm_block3 (size : Z) (zeros : list (list Z)) (s : cursor) : option cursor :=
  let buf2 := drop (Z.to_nat size) (buf s) in
  let buf3 := drop (Z.to_nat size) buf2 in
  l ← do_while (Z.to_nat size) arm_lane3 (fun l => 0 <? arem l)
        {| a0 := crc s; a1 := 0; a2 := 0; p0 := buf s; p1 := buf2; p2 := buf3; arem := size |};
  let crc := Z.lxor (crc32c_shift zeros (a0 l)) (a1 l) in
  let crc := Z.lxor (crc32c_shift zeros crc) (a2 l) in
  Some {| crc := crc; addr := addr s + size * 3; buf := drop (Z.to_nat (size * 2)) (p0 l);
          len := len s - size * 3 |}.

Record arm2 := { b0 : Z; b1 : Z; q0 : list Z; q1 : list Z; brem : Z }.

Definition arm_lane2 (l : arm2) : option arm2 :=
  w0 ← load 8 (q0 l);
  w1 ← load 8 (q1 l);
  Some {| b0 := crc32cx (b0 l) w0; b1 := crc32cx (b1 l) w1;
          q0 := drop 8 (q0 l); q1 := drop 8 (q1 l); brem := brem l - 8 |}.

Definition arm_block2 (s : cursor) : option cursor :=
  l ← do_while (Z.to_nat SHORT) arm_lane2 (fun l => 0 <? brem l)
        {| b0 := crc s; b1 := 0; q0 := buf s; q1 := drop (Z.to_nat SHORT) (buf s); brem := SHORT |};
  Some {| crc := Z.lxor (crc32c_shift crc32c_short (b0 l)) (b1 l); addr := addr s + SHORT * 2;
          buf := drop (Z.to_nat SHORT) (q0 l); len := len s - SHORT * 2 |}.

(** [end - buf], which starts at [len - 8] and may be negative. *)
Definition arm_quad (sn : cursor * Z) : option (cursor * Z) :=
  let '(s, n) := sn in
  w ← load 8 (buf s);
  Some ({| crc := crc32cx (crc s) w; addr := addr s + 8; buf := drop 8 (buf s); len := len s |}, n - 8).

(** [if (len & n) { crc = step(crc, load n); buf += n; }] *)
Definition arm_tail (n : Z) (step : Z -> Z -> Z) (s : cursor) : option cursor :=
  if Z.land (len s) n =? 0 then Some s else
  w ← load (Z.to_nat n) (buf s);
  Some {| crc := step (crc s) w; addr := addr s + n; buf := drop (Z.to_nat n) (buf s); len := len s |}.

Definition crc32c_armv8 (crci addr : Z) (buf : list Z) (len : Z) : option Z :=
  let fuel := S (Z.to_nat len) in
  s ← while fuel (fun s => LONG * 3 <=? Crc32c.len s) (arm_block3 LONG crc32c_long)
        {| crc := u32 (Z.lnot crci); addr := addr; buf := buf; len := len |};
  s ← while fuel (fun s => SHORT * 3 <=? Crc32c.len s) (arm_block3 SHORT crc32c_short) s;
  s ← (if SHORT * 2 <=? Crc32c.len s then arm_block2 s else Some s);
  '(s, _) ← while fuel (fun sn => 0 <=? snd sn) arm_quad (s, Crc32c.len s - 8);
  s ← arm_tail 4 crc32cw s;
  s ← arm_tail 2 crc32ch s;
  s ← arm_tail 1 crc32cb s;
  Some (u32 (Z.lnot (crc s))).
End Armv8.

(** ** The generator of the tables *)

(** One statement [crc = crc & 1 ? (crc >> 1) ^ POLY : crc >> 1]. *)
Definition crc_bit (crc : Z) : Z :=
  if negb (Z.land crc 1 =? 0) then Z.lxor (Z.shiftr crc 1) POLY else Z.shiftr crc 1.

(** [0, 1, ..., n-1]. *)
Definition zseq (n : nat) : list Z := map Z.of_nat (seq 0 n).

Definition init_sw_row0 : list Z :=
  map (fun n => crc_bit (crc_bit (crc_bit (crc_bit (crc_bit (crc_bit (crc_bit (crc_bit n)))))))) (zseq 256).

(** Row [k] from row [k - 1], with row 0. *)
Definition init_sw_next (row0 row : list Z) : list Z :=
  map (fun crc => Z.lxor (get row0 (Z.to_nat (Z.land crc 0xff))) (Z.shiftr crc 8)) row.

Fixpoint init_sw_rows (row0 row : list Z) (k : nat) : list (list Z) :=
  match k with O => [] | S k => row :: init_sw_rows row0 (init_sw_next row0 row) k end.

Definition crc32c_init_sw : list (list Z) := init_sw_rows init_sw_row0 init_sw_row0 8.

(** [mat] is the rows from the one the pointer is at; [fuel] bounds the bits
    of [vec]. *)
Fixpoint gf2_times_loop (fuel : nat) (mat : list Z) (vec sum : Z) : Z :=
  match fuel with
  | O => sum
  | S fuel =>
      if vec =? 0 then sum else
      gf2_times_loop fuel (tail mat) (Z.shiftr vec 1) (if negb (Z.land vec 1 =? 0) then Z.lxor sum (hd 0 mat) else sum)
  end.
Definition gf2_matrix_times (mat : list Z) (vec : Z) : Z := gf2_times_loop 32 mat vec 0.

Definition gf2_matrix_square (mat : list Z) : list Z :=
  map (fun n => gf2_matrix_times mat (get mat n)) (seq 0 32).

(** The rows [1, 1 << 1, ..., 1 << 30] after the first. *)
Fixpoint zeros_rows (n : nat) (row : Z) : list Z :=
  match n with O => [] | S n => row :: zeros_rows n (u32 (Z.shiftl row 1)) end.
Definition zeros_op_init : list Z := POLY :: zeros_rows 31 1.

(** The do-while loop; [fuel] bounds the bits of [len]. *)
Fixpoint zeros_op_loop (fuel : nat) (odd : list Z) (len : Z) : list Z :=
  match fuel with
  | O => odd
  | S fuel =>
      let even := gf2_matrix_square odd in
      let len := Z.shiftr len 1 in
      if len =? 0 then even else
      let odd := gf2_matrix_square even in
      let len := Z.shiftr len 1 in
      if len =? 0 then odd else zeros_op_loop fuel odd len
  end.

Definition crc32c_zeros_op (len : Z) : list Z :=
  let odd := zeros_op_init in
  let even := gf2_matrix_square odd in
  let odd := gf2_matrix_square even in
  zeros_op_loop 32 odd len.

Definition crc32c_zeros (len : Z) : list (list Z) :=
  let op := crc32c_zeros_op len in
  map (fun k => map (fun n => gf2_matrix_times op (u32 (Z.shiftl n k))) (zseq 256)) [0; 8; 16; 24].

Definition crc32c_init_hw : list (list Z) * list (list Z) := (crc32c_zeros LONG, crc32c_zeros SHORT).
