(* ===== verification/Crc32cFacts.v ===== *)
(** * CRC-32C: every implementation computes the bitwise CRC

    [crc32c bytes] is the reference: one bit at a time, one byte after the
    other. The generated tables are proved to hold what their generator
    computes; the software, SSE4.2 and ARMv8 routines are proved to return the
    reference value of exactly the [len] bytes at [buf], reading no byte past
    them, at every alignment. *)
From S2P Require Import Prelude Crc32cTables Crc32c.

(** ** The reference *)

Fixpoint crc_bits (n : nat) (crc : Z) : Z :=
  match n with O => crc | S n => crc_bits n (crc_bit crc) end.

Definition crc_byte (crc b : Z) : Z := crc_bits 8 (Z.lxor crc b).
Definition crc_bytes (crc : Z) (bs : list Z) : Z := fold_left crc_byte bs crc.

Definition crc32c (crc : Z) (bs : list Z) : Z :=
  Z.lxor (crc_bytes (Z.lxor crc 0xffffffff) bs) 0xffffffff.

(** ** Linearity *)

Lemma crc_bit_alt c : crc_bit c = Z.lxor (Z.shiftr c 1) (if Z.testbit c 0 then POLY else 0).
Proof.
  unfold crc_bit. replace (Z.land c 1) with (Z.b2z (Z.testbit c 0)).
  - destruct (Z.testbit c 0); simpl; [done|]. by rewrite Z.lxor_0_r.
  - change 1 with (Z.ones 1) at 1. rewrite Z.land_ones, Z.bit0_mod by lia. done.
Qed.

Lemma crc_bit_lxor a b : crc_bit (Z.lxor a b) = Z.lxor (crc_bit a) (crc_bit b).
Proof.
  rewrite !crc_bit_alt, Z.shiftr_lxor, Z.lxor_spec.
  destruct (Z.testbit a 0), (Z.testbit b 0); simpl; apply Z.bits_inj; intros i;
    rewrite !Z.lxor_spec, ?Z.bits_0;
    destruct (Z.testbit (Z.shiftr a 1) i), (Z.testbit (Z.shiftr b 1) i), (Z.testbit POLY i); done.
Qed.

Lemma crc_bits_lxor n a b : crc_bits n (Z.lxor a b) = Z.lxor (crc_bits n a) (crc_bits n b).
Proof. revert a b. induction n as [|n IH]; intros a b; simpl; [done|]. by rewrite crc_bit_lxor, IH. Qed.

Lemma crc_bits_0 n : crc_bits n 0 = 0.
Proof. by induction n. Qed.

Lemma crc_bits_add n m c : crc_bits (n + m) c = crc_bits m (crc_bits n c).
Proof. revert c. by induction n as [|n IH]; intros c; simpl; [|rewrite IH]. Qed.

Lemma crc_bit_even c : crc_bit (2 * c) = c.
Proof.
  rewrite crc_bit_alt, Z.testbit_even_0, Z.lxor_0_r.
  rewrite Z.shiftr_div_pow2, Z.mul_comm by lia. apply Z.div_mul. lia.
Qed.

Lemma crc_bits_shift n c : crc_bits n (c * 2 ^ Z.of_nat n) = c.
Proof.
  revert c. induction n as [|n IH]; intros c; [simpl; lia|].
  rewrite Nat2Z.inj_succ, Z.pow_succ_r by lia. cbn [crc_bits].
  replace (c * (2 * 2 ^ Z.of_nat n)) with (2 * (c * 2 ^ Z.of_nat n)) by ring.
  by rewrite crc_bit_even, IH.
Qed.

Lemma crc_bits_shift_le n m c : (m <= n)%nat ->
  crc_bits n (c * 2 ^ Z.of_nat m) = crc_bits (n - m) c.
Proof.
  intros. replace n with (m + (n - m))%nat at 1 by lia. by rewrite crc_bits_add, crc_bits_shift.
Qed.

Lemma crc_bit_range w c : 32 <= w -> in_range w c -> in_range w (crc_bit c).
Proof.
  intros. rewrite crc_bit_alt. apply in_range_lxor; [lia| |].
  - apply in_range_shiftr; try lia; done.
  - assert (2 ^ 32 <= 2 ^ w) by (apply Z.pow_le_mono_r; lia).
    destruct (Z.testbit c 0); unfold in_range, POLY; lia.
Qed.

Lemma crc_bits_range w n c : 32 <= w -> in_range w c -> in_range w (crc_bits n c).
Proof. intros Hw. revert c. induction n; intros; simpl; [done|]. by apply IHn, crc_bit_range. Qed.

Lemma lxor_add a b n : in_range n a -> 0 <= n -> Z.lxor a (b * 2 ^ n) = a + b * 2 ^ n.
Proof.
  intros Ha Hn. rewrite <- (lor_add a b n) by (done || lia).
  rewrite <- Z.shiftl_mul_pow2 by lia. apply Z.lxor_lor. apply Z.bits_inj'; intros i Hi. rewrite Z.land_spec, Z.bits_0.
  destruct (Z.lt_ge_cases i n).
  - rewrite Z.shiftl_spec_low by lia. by rewrite andb_false_r.
  - by rewrite (testbit_high n a i).
Qed.

(** The low [n] bits and the rest. *)
Lemma lxor_split c n : 0 <= n -> c = Z.lxor (uw n c) (c / 2 ^ n * 2 ^ n).
Proof.
  intros. rewrite lxor_add by first [lia | by apply uw_range]. rewrite (uw_div_mod n c) at 1 by lia. lia.
Qed.

Lemma crc_bits_split n c : crc_bits n c = Z.lxor (crc_bits n (uw (Z.of_nat n) c)) (c / 2 ^ Z.of_nat n).
Proof.
  rewrite (lxor_split c (Z.of_nat n)) at 1 by lia. by rewrite crc_bits_lxor, crc_bits_shift.
Qed.

(** The accumulator of a byte sequence is the bits of its little-endian value. *)
Lemma crc_bytes_val bs : forall c, words 8 bs ->
  crc_bytes c bs = crc_bits (8 * length bs) (Z.lxor c (val 8 bs)).
Proof.
  unfold crc_bytes. induction bs as [|b bs IH]; intros c Hw; simpl fold_left.
  - simpl. by rewrite Z.lxor_0_r.
  - inversion_clear Hw as [|? ? Hb Hbs]. rewrite IH by done. unfold crc_byte.
    cbn [length]. replace (8 * S (length bs))%nat with (8 + 8 * length bs)%nat by lia.
    rewrite crc_bits_add. f_equal. cbn [val].
    rewrite (Z.mul_comm (2 ^ 8)), <- (lxor_add b _ 8) by (done || lia).
    rewrite <- Z.lxor_assoc, (crc_bits_lxor 8 (Z.lxor c b)). f_equal. symmetry.
    exact (crc_bits_shift 8 _).
Qed.

Lemma crc_bytes_app c xs ys : crc_bytes c (xs ++ ys) = crc_bytes (crc_bytes c xs) ys.
Proof. apply fold_left_app. Qed.

Lemma crc_bytes_lxor c xs : words 8 xs ->
  crc_bytes c xs = Z.lxor (crc_bits (8 * length xs) c) (crc_bytes 0 xs).
Proof. intros. by rewrite !crc_bytes_val, Z.lxor_0_l, crc_bits_lxor. Qed.

Lemma crc_bytes_range c bs : in_range 32 c -> words 8 bs -> in_range 32 (crc_bytes c bs).
Proof.
  intros Hc Hb. revert c Hc. induction Hb as [|b bs Hb _ IH]; intros c Hc; [done|].
  simpl. apply IH. apply crc_bits_range; [lia|]. apply in_range_lxor; [lia|done|].
  unfold in_range in *. lia.
Qed.

(** ** Matrices over GF(2) *)

Definition linear (f : Z -> Z) : Prop := forall a b, f (Z.lxor a b) = Z.lxor (f a) (f b).

(** The rows of the operator [f] from row [k] on. *)
Definition rows (f : Z -> Z) (k n : nat) : list Z := map (fun i => f (2 ^ Z.of_nat i)) (seq k n).

Lemma linear_0 f : linear f -> f 0 = 0.
Proof. intros Hf. specialize (Hf 0 0). rewrite !Z.lxor_nilpotent in Hf. done. Qed.

Lemma gf2_times_loop_rows f : linear f -> forall fuel n k vec sum,
  (n <= fuel)%nat -> in_range (Z.of_nat n) vec ->
  gf2_times_loop fuel (rows f k n) vec sum = Z.lxor sum (f (vec * 2 ^ Z.of_nat k)).
Proof.
  intros Hf. induction fuel as [|fuel IH]; intros n k vec sum Hn Hv.
  - assert (vec = 0) as -> by (destruct n; [unfold in_range in Hv; simpl in Hv; lia|lia]).
    cbn [gf2_times_loop]. by rewrite Z.mul_0_l, (linear_0 f Hf), Z.lxor_0_r.
  - cbn [gf2_times_loop]. destruct (Z.eqb_spec vec 0) as [->|Hz].
    { rewrite Z.mul_0_l, (linear_0 f Hf). by rewrite Z.lxor_0_r. }
    destruct n as [|n]; [unfold in_range in Hv; simpl in Hv; lia|].
    unfold rows. cbn [seq map tail hd]. fold (rows f (S k) n).
    rewrite Nat2Z.inj_succ in Hv. unfold in_range in Hv. rewrite Z.pow_succ_r in Hv by lia.
    rewrite IH by (rewrite ?Z.shiftr_div_pow2 by lia; change (2 ^ 1) with 2; unfold in_range;
                   first [lia | split; [apply Z.div_pos; lia|apply Z.div_lt_upper_bound; lia]]).
    rewrite (lxor_split vec 1) at 3 by lia.
    replace (Z.lxor (uw 1 vec) (vec / 2 ^ 1 * 2 ^ 1) * 2 ^ Z.of_nat k)
      with (Z.lxor (uw 1 vec * 2 ^ Z.of_nat k) (Z.shiftr vec 1 * 2 ^ Z.of_nat (S k))).
    2:{ rewrite Nat2Z.inj_succ, Z.pow_succ_r, Z.shiftr_div_pow2 by lia.
        replace (vec / 2 ^ 1 * (2 * 2 ^ Z.of_nat k)) with (vec / 2 ^ 1 * 2 ^ 1 * 2 ^ Z.of_nat k) by (change (2^1) with 2; ring).
        rewrite <- !Z.shiftl_mul_pow2 by lia. by rewrite Z.shiftl_lxor. }
    rewrite Hf. change 1 with (Z.ones 1) at 1. rewrite Z.land_ones by lia. fold (uw 1 vec).
    assert (uw 1 vec = 0 \/ uw 1 vec = 1) as [-> | ->]
      by (pose proof (uw_range 1 vec ltac:(lia)) as Hr; unfold in_range in Hr; lia).
    + simpl negb. rewrite Z.mul_0_l, (linear_0 f Hf), Z.lxor_0_l. done.
    + simpl negb. rewrite Z.mul_1_l. by rewrite Z.lxor_assoc.
Qed.

Lemma gf2_times_rows f vec : linear f -> in_range 32 vec ->
  gf2_matrix_times (rows f 0 32) vec = f vec.
Proof.
  intros. unfold gf2_matrix_times. rewrite gf2_times_loop_rows by (done || lia).
  rewrite Z.lxor_0_l. f_equal. simpl. lia.
Qed.

Lemma rows_ext f g k n : (forall i, (k <= i < k + n)%nat -> f (2 ^ Z.of_nat i) = g (2 ^ Z.of_nat i)) ->
  rows f k n = rows g k n.
Proof. intros H. apply map_ext_in. intros i Hi. apply in_seq in Hi. apply H. lia. Qed.

Lemma gf2_square_rows f : linear f -> (forall c, in_range 32 c -> in_range 32 (f c)) ->
  gf2_matrix_square (rows f 0 32) = rows (fun c => f (f c)) 0 32.
Proof.
  intros Hf Hr. unfold gf2_matrix_square, rows at 3. apply map_ext_in. intros n Hn. apply in_seq in Hn.
  replace (get (rows f 0 32) n) with (f (2 ^ Z.of_nat n)).
  - apply gf2_times_rows; [done|]. apply Hr. unfold in_range.
    split; [lia|]. apply Z.pow_lt_mono_r; lia.
  - unfold get, rows. rewrite nth_indep with (d' := f (2 ^ Z.of_nat 0)) by (rewrite length_map, length_seq; lia).
    rewrite (map_nth (fun i => f (2 ^ Z.of_nat i))). rewrite seq_nth by lia. done.
Qed.

(** The operator of [n] zero bits. *)
Lemma crc_bits_linear n : linear (crc_bits n).
Proof. intros a b. apply crc_bits_lxor. Qed.

Lemma gf2_square_bits n : gf2_matrix_square (rows (crc_bits n) 0 32) = rows (crc_bits (2 * n)) 0 32.
Proof.
  rewrite gf2_square_rows; [|apply crc_bits_linear|intros; apply crc_bits_range; [lia|done]].
  apply rows_ext. intros i _. rewrite <- crc_bits_add. f_equal. lia.
Qed.

Lemma zeros_op_init_rows : zeros_op_init = rows (crc_bits 1) 0 32.
Proof. vm_compute. reflexivity. Qed.

Lemma log2_shiftr len : 0 <= len -> Z.shiftr len 1 <> 0 -> Z.log2 len = Z.log2 (Z.shiftr len 1) + 1.
Proof.
  intros H1 H2. assert (Z.shiftr len 1 = Z.div2 len) as E by done. rewrite E in *.
  assert (len <> 0) by (intros ->; done). assert (1 < len).
  { destruct (Z.le_gt_cases len 1); [|lia]. assert (len = 1) by lia. subst. done. }
  rewrite (Z.log2_shiftr len 1 ltac:(lia)) in * || rewrite <- E, (Z.log2_shiftr len 1) by lia.
  pose proof (Z.log2_pos len ltac:(lia)). lia.
Qed.

Lemma log2_shiftr_0 len : 0 <= len -> Z.shiftr len 1 = 0 -> Z.log2 len = 0.
Proof.
  intros H1 H2. rewrite Z.shiftr_div_pow2 in H2 by lia. change (2 ^ 1) with 2 in H2.
  apply Z.div_small_iff in H2; [|lia].
  assert (len = 0 \/ len = 1) as [-> | ->] by lia; done.
Qed.

Lemma zeros_op_loop_rows fuel : forall n len, 0 <= len < 2 ^ (2 * Z.of_nat fuel) -> (0 < fuel)%nat ->
  zeros_op_loop fuel (rows (crc_bits n) 0 32) len = rows (crc_bits (2 * n * 2 ^ Z.to_nat (Z.log2 len))) 0 32.
Proof.
  induction fuel as [|fuel IH]; intros n len Hl Hf; [lia|].
  cbn [zeros_op_loop]. rewrite gf2_square_bits.
  destruct (Z.eqb_spec (Z.shiftr len 1) 0) as [Hz|Hz].
  { rewrite (log2_shiftr_0 len) by (done || lia). simpl (2 ^ _)%nat. by rewrite Nat.mul_1_r. }
  rewrite (log2_shiftr len) by (done || lia).
  assert (0 <= Z.shiftr len 1) by (apply Z.shiftr_nonneg; lia).
  destruct (Z.eqb_spec (Z.shiftr (Z.shiftr len 1) 1) 0) as [Hz2|Hz2].
  { rewrite gf2_square_bits, (log2_shiftr_0 (Z.shiftr len 1)) by (done || lia).
    simpl Z.to_nat. simpl (2 ^ _)%nat. do 2 f_equal. lia. }
  rewrite (log2_shiftr (Z.shiftr len 1)) by (done || lia).
  rewrite gf2_square_bits.
  pose proof (Z.log2_nonneg (Z.shiftr (Z.shiftr len 1) 1)).
  assert (0 <= Z.shiftr (Z.shiftr len 1) 1) by (apply Z.shiftr_nonneg; lia).
  assert (Z.shiftr (Z.shiftr len 1) 1 < 2 ^ (2 * Z.of_nat fuel)) as Hlt.
  { rewrite Z.shiftr_shiftr, Z.shiftr_div_pow2 by lia. apply Z.div_lt_upper_bound; [lia|].
    rewrite <- Z.pow_add_r by lia. replace (1 + 1 + 2 * Z.of_nat fuel) with (2 * Z.of_nat (S fuel)) by lia. lia. }
  rewrite IH; [|lia|].
  - do 2 f_equal. replace (Z.to_nat (Z.log2 (Z.shiftr (Z.shiftr len 1) 1) + 1 + 1))
      with (S (S (Z.to_nat (Z.log2 (Z.shiftr (Z.shiftr len 1) 1))))) by lia.
    rewrite !Nat.pow_succ_r'. lia.
  - destruct fuel; [|lia]. simpl in Hlt. lia.
Qed.

(** ** The tables *)

Lemma get_map_zseq f n i : 0 <= i < Z.of_nat n -> get (map f (zseq n)) (Z.to_nat i) = f i.
Proof.
  intros. unfold get, zseq. rewrite map_map.
  rewrite nth_indep with (d' := f (Z.of_nat 0)) by (rewrite length_map, length_seq; lia).
  rewrite (map_nth (fun x => f (Z.of_nat x))), seq_nth by lia. f_equal. lia.
Qed.

Lemma crc32c_init_sw_table : crc32c_init_sw = crc32c_table.
Proof. vm_compute. reflexivity. Qed.
Lemma crc32c_init_hw_tables : crc32c_init_hw = (crc32c_long, crc32c_short).
Proof. vm_compute. reflexivity. Qed.

Lemma crc32c_table_spec k i : (k < 8)%nat -> 0 <= i < 256 ->
  entry crc32c_table k i = crc_bits (8 * (k + 1)) i.
Proof.
  intros Hk Hi. apply Z.eqb_eq. revert i Hi.
  apply (zall_spec (fun i => entry crc32c_table k i =? crc_bits (8 * (k + 1)) i)).
  do 8 (destruct k as [|k]; [vm_compute; reflexivity|]). lia.
Qed.

(** A linear function, a byte at a time. *)
Lemma linear_peel f c k : linear f -> 0 <= k ->
  f (c * 2 ^ k) = Z.lxor (f (Z.land c 0xff * 2 ^ k)) (f (Z.shiftr c 8 * 2 ^ (k + 8))).
Proof.
  intros Hf Hk. rewrite <- Hf. f_equal. change 0xff with (Z.ones 8).
  rewrite Z.land_ones, Z.shiftr_div_pow2, Z.pow_add_r by lia. fold (uw 8 c).
  rewrite (Z.mul_comm (2 ^ k)), Z.mul_assoc, <- !(Z.shiftl_mul_pow2 _ k), <- Z.shiftl_lxor by lia.
  f_equal. apply lxor_split. lia.
Qed.

Lemma land_ff_range c : 0 <= Z.land c 0xff < 256.
Proof. change 0xff with (Z.ones 8). rewrite Z.land_ones by lia. apply Z.mod_pos_bound. lia. Qed.

Lemma shiftr_top w n c : in_range w c -> 0 <= n <= w -> in_range (w - n) (Z.shiftr c n).
Proof.
  unfold in_range. intros. rewrite Z.shiftr_div_pow2 by lia. split; [apply Z.div_pos; lia|].
  apply Z.div_lt_upper_bound; [lia|]. rewrite <- Z.pow_add_r by lia. replace (n + (w - n)) with w by lia. lia.
Qed.

Lemma peel4 f c : linear f -> in_range 32 c ->
  f c = Z.lxor (Z.lxor (Z.lxor (f (Z.land c 0xff * 2 ^ 0)) (f (Z.land (Z.shiftr c 8) 0xff * 2 ^ 8)))
          (f (Z.land (Z.shiftr c 16) 0xff * 2 ^ 16))) (f (Z.shiftr c 24 * 2 ^ 24)).
Proof.
  intros Hf Hc. rewrite <- (Z.mul_1_r c) at 1. change 1 with (2 ^ 0).
  rewrite (linear_peel f c 0), (linear_peel f (Z.shiftr c 8) (0 + 8)),
    (linear_peel f (Z.shiftr (Z.shiftr c 8) 8) (0 + 8 + 8)) by (done || lia).
  rewrite !Z.shiftr_shiftr, <- !Z.lxor_assoc by lia. done.
Qed.

Lemma peel8 f c : linear f -> in_range 64 c ->
  f c = Z.lxor (Z.lxor (Z.lxor (Z.lxor (Z.lxor (Z.lxor (Z.lxor
          (f (Z.land c 0xff * 2 ^ 0)) (f (Z.land (Z.shiftr c 8) 0xff * 2 ^ 8)))
          (f (Z.land (Z.shiftr c 16) 0xff * 2 ^ 16))) (f (Z.land (Z.shiftr c 24) 0xff * 2 ^ 24)))
          (f (Z.land (Z.shiftr c 32) 0xff * 2 ^ 32))) (f (Z.land (Z.shiftr c 40) 0xff * 2 ^ 40)))
          (f (Z.land (Z.shiftr c 48) 0xff * 2 ^ 48))) (f (Z.shiftr c 56 * 2 ^ 56)).
Proof.
  intros Hf Hc. rewrite <- (Z.mul_1_r c) at 1. change 1 with (2 ^ 0).
  rewrite (linear_peel f (c) (0)),
    (linear_peel f (Z.shiftr c 8) (0 + 8)),
    (linear_peel f (Z.shiftr (Z.shiftr c 8) 8) (0 + 8 + 8)),
    (linear_peel f (Z.shiftr (Z.shiftr (Z.shiftr c 8) 8) 8) (0 + 8 + 8 + 8)),
    (linear_peel f (Z.shiftr (Z.shiftr (Z.shiftr (Z.shiftr c 8) 8) 8) 8) (0 + 8 + 8 + 8 + 8)),
    (linear_peel f (Z.shiftr (Z.shiftr (Z.shiftr (Z.shiftr (Z.shiftr c 8) 8) 8) 8) 8) (0 + 8 + 8 + 8 + 8 + 8)),
    (linear_peel f (Z.shiftr (Z.shiftr (Z.shiftr (Z.shiftr (Z.shiftr (Z.shiftr c 8) 8) 8) 8) 8) 8) (0 + 8 + 8 + 8 + 8 + 8 + 8))
    by (done || lia).
  rewrite !Z.shiftr_shiftr, <- !Z.lxor_assoc by lia. done.
Qed.

(** The number of zero bits an operator built for [len] bytes stands for. *)
Definition zero_bits (len : Z) : nat := 8 * Z.to_nat (2 ^ Z.log2 len).

Lemma zeros_op_rows len : 0 <= len < 2 ^ 64 ->
  crc32c_zeros_op len = rows (crc_bits (zero_bits len)) 0 32.
Proof.
  intros. unfold crc32c_zeros_op. rewrite zeros_op_init_rows, !gf2_square_bits.
  rewrite zeros_op_loop_rows by (simpl; lia). do 2 f_equal. unfold zero_bits.
  rewrite Z2Nat.inj_pow by (try apply Z.log2_nonneg; lia). done.
Qed.

Lemma crc32c_zeros_entry len k i : 0 <= len < 2 ^ 64 -> (k < 4)%nat -> 0 <= i < 256 ->
  entry (crc32c_zeros len) k i = crc_bits (zero_bits len) (i * 2 ^ (8 * Z.of_nat k)).
Proof.
  intros Hl Hk Hi. unfold crc32c_zeros, entry. rewrite zeros_op_rows by done.
  assert (forall n, 0 <= n <= 24 -> get (map (fun n0 => gf2_matrix_times (rows (crc_bits (zero_bits len)) 0 32)
             (u32 (Z.shiftl n0 n))) (zseq 256)) (Z.to_nat i) = crc_bits (zero_bits len) (i * 2 ^ n)) as Hn.
  { intros n Hn. rewrite get_map_zseq by (simpl; lia). rewrite Z.shiftl_mul_pow2 by lia.
    assert (in_range 32 (i * 2 ^ n)) as Hr.
    { unfold in_range. change (2 ^ 32) with (2 ^ 8 * 2 ^ 24).
      pose proof (Z.pow_le_mono_r 2 n 24 ltac:(lia) ltac:(lia)). pose proof (pow2_pos n ltac:(lia)). nia. }
    rewrite uw_small, gf2_times_rows by (done || apply crc_bits_linear). done. }
  do 4 (destruct k as [|k]; [apply Hn; lia|]). lia.
Qed.

Lemma crc32c_shift_zeros len c : 0 <= len < 2 ^ 64 -> in_range 32 c ->
  crc32c_shift (crc32c_zeros len) c = crc_bits (zero_bits len) c.
Proof.
  intros Hl Hc. rewrite (peel4 _ c (crc_bits_linear _) Hc). unfold crc32c_shift.
  pose proof (shiftr_top 32 24 c Hc ltac:(lia)) as Ht. unfold in_range in Ht. simpl in Ht.
  rewrite !crc32c_zeros_entry by (done || lia || apply land_ff_range). done.
Qed.

Lemma crc32c_shift_long c : in_range 32 c -> crc32c_shift crc32c_long c = crc_bits (8 * Z.to_nat LONG) c.
Proof.
  intros. rewrite <- (f_equal fst crc32c_init_hw_tables : crc32c_zeros LONG = crc32c_long).
  rewrite crc32c_shift_zeros by (done || (unfold LONG; lia)). unfold zero_bits.
  by replace (2 ^ Z.log2 LONG) with LONG by (vm_compute; reflexivity).
Qed.

Lemma crc32c_shift_short c : in_range 32 c -> crc32c_shift crc32c_short c = crc_bits (8 * Z.to_nat SHORT) c.
Proof.
  intros. rewrite <- (f_equal snd crc32c_init_hw_tables : crc32c_zeros SHORT = crc32c_short).
  rewrite crc32c_shift_zeros by (done || (unfold SHORT; lia)). unfold zero_bits.
  by replace (2 ^ Z.log2 SHORT) with SHORT by (vm_compute; reflexivity).
Qed.

(** ** The work left

    [pending T c p m]: from the accumulator [c], the [m] bytes at [p] lead to
    the accumulator [T]. Each statement of a routine keeps it. *)
Definition pending (T c : Z) (p : list Z) (m : Z) : Prop :=
  in_range 32 c /\ words 8 p /\ 0 <= m <= Z.of_nat (length p) /\ crc_bytes c (take (Z.to_nat m) p) = T.

Lemma words_take w n l : words w l -> words w (take n l).
Proof. apply Forall_take. Qed.
Lemma words_drop w n l : words w l -> words w (drop n l).
Proof. apply Forall_drop. Qed.

Lemma pending_step T c p m n : pending T c p m -> 0 <= n <= m ->
  pending T (crc_bytes c (take (Z.to_nat n) p)) (drop (Z.to_nat n) p) (m - n).
Proof.
  intros (Hc & Hp & Hm & <-) Hn. split; [|split; [|split]].
  - apply crc_bytes_range; [done|by apply words_take].
  - by apply words_drop.
  - rewrite length_drop. lia.
  - rewrite <- crc_bytes_app. f_equal.
    replace (Z.to_nat m) with (Z.to_nat n + Z.to_nat (m - n))%nat by lia. apply take_take_drop.
Qed.

Lemma pending_done T c p : pending T c p 0 -> c = T.
Proof. by intros (_ & _ & _ & <-). Qed.

Lemma load_take n p : (n <= length p)%nat -> load n p = Some (val 8 (take n p)).
Proof.
  revert p. induction n as [|n IH]; intros [|b p] H; simpl in *; try done; [lia|].
  by rewrite IH by lia.
Qed.

Lemma load_1 p : (1 <= length p)%nat -> load 1 p = Some (get p 0) /\ take 1 p = [get p 0].
Proof. destruct p as [|b p]; simpl; [lia|]. intros _. unfold get. simpl. by rewrite Z.add_0_r. Qed.

(** ** The software routine *)

Lemma land_ff_uw c : Z.land c 0xff = uw 8 c.
Proof. change 0xff with (Z.ones 8). apply Z.land_ones. lia. Qed.

Lemma sw_byte_value c b : in_range 32 c -> in_range 8 b ->
  Z.lxor (entry crc32c_table 0 (Z.land (Z.lxor c (u64 (sw 8 b))) 0xff)) (Z.shiftr c 8) = crc_byte c b.
Proof.
  intros Hc Hb. unfold crc_byte. rewrite crc32c_table_spec by (lia || apply land_ff_range).
  assert (Z.land (Z.lxor c (u64 (sw 8 b))) 0xff = uw 8 (Z.lxor c b)) as ->.
  { rewrite land_ff_uw. apply Z.bits_inj'; intros i Hi. rewrite !testbit_uw, !Z.lxor_spec by lia.
    destruct (Z.ltb_spec i 8); simpl; [|done]. f_equal.
    rewrite <- (uw_small 8 b Hb) at 2. rewrite <- (uw_sw 8 b), !testbit_uw by lia.
    destruct (Z.ltb_spec i 64), (Z.ltb_spec i 8); lia || done. }
  rewrite (crc_bits_split 8 (Z.lxor c b)). f_equal. simpl Z.of_nat.
  rewrite <- !Z.shiftr_div_pow2, Z.shiftr_lxor by lia.
  rewrite (Z.shiftr_div_pow2 b), (Z.div_small b), Z.lxor_0_r by (lia || done). done.
Qed.

Lemma sw_quad_value x : in_range 64 x ->
  Z.lxor (Z.lxor (Z.lxor (Z.lxor (Z.lxor (Z.lxor (Z.lxor
    (entry crc32c_table 7 (Z.land x 0xff))
    (entry crc32c_table 6 (Z.land (Z.shiftr x 8) 0xff)))
    (entry crc32c_table 5 (Z.land (Z.shiftr x 16) 0xff)))
    (entry crc32c_table 4 (Z.land (Z.shiftr x 24) 0xff)))
    (entry crc32c_table 3 (Z.land (Z.shiftr x 32) 0xff)))
    (entry crc32c_table 2 (Z.land (Z.shiftr x 40) 0xff)))
    (entry crc32c_table 1 (Z.land (Z.shiftr x 48) 0xff)))
    (entry crc32c_table 0 (Z.shiftr x 56)) = crc_bits 64 x.
Proof.
  intros Hx. rewrite (peel8 _ x (crc_bits_linear 64) Hx).
  pose proof (shiftr_top 64 56 x Hx ltac:(lia)) as Ht. unfold in_range in Ht. simpl in Ht.
  rewrite !crc32c_table_spec by (lia || apply land_ff_range).
  repeat apply (f_equal2 Z.lxor);
    match goal with |- _ = crc_bits 64 (_ * 2 ^ ?k) =>
      symmetry; refine (crc_bits_shift_le 64 (Z.to_nat k) _ _); lia end.
Qed.

Definition left (T : Z) (s : cursor) : Prop := pending T (crc s) (buf s) (len s).

(** A loop body that keeps [left] and consumes bytes. *)
Definition consumes (T : Z) (cond : cursor -> bool) (body : cursor -> option cursor) : Prop :=
  forall s, left T s -> cond s = true -> exists s', body s = Some s' /\ left T s' /\ len s' < len s.

Lemma consumes_while T cond body fuel s :
  consumes T cond body -> left T s -> (Z.to_nat (len s) < fuel)%nat ->
  exists s', while fuel cond body s = Some s' /\ left T s' /\ cond s' = false.
Proof.
  intros Hb Hs Hf. apply (while_rule (left T) (fun s => Z.to_nat (len s))); [|done..].
  intros s1 H1 Hc. destruct (Hb s1 H1 Hc) as (s2 & ? & H2 & ?). exists s2. split; [done|]. split; [done|].
  destruct H2 as (_ & _ & ? & _). lia.
Qed.

(** The same, with the bound the next loop needs. *)
Lemma consumes_while_len T cond body fuel s :
  consumes T cond body -> left T s -> (Z.to_nat (len s) < fuel)%nat ->
  exists s', while fuel cond body s = Some s' /\ left T s' /\ cond s' = false /\ (Z.to_nat (len s') < fuel)%nat.
Proof.
  intros Hb Hs Hf.
  destruct (while_rule (fun s' => left T s' /\ (Z.to_nat (len s') < fuel)%nat) (fun s => Z.to_nat (len s)) cond body)
    with (fuel := fuel) (s := s) as (s' & ? & [? ?] & ?); [|done..|by eauto].
  intros s1 [H1 ?] Hc. destruct (Hb s1 H1 Hc) as (s2 & ? & H2 & ?). exists s2.
  pose proof H2 as (_ & _ & ? & _). split_and!; try done; lia.
Qed.

Lemma left_advance T s c' n : left T s -> 0 <= n <= len s ->
  c' = crc_bytes (crc s) (take (Z.to_nat n) (buf s)) -> left T (advance s c' n).
Proof. intros Hs Hn ->. by apply pending_step. Qed.

Lemma sw_byte_consumes T cond : (forall s, cond s = true -> len s <> 0) -> consumes T cond sw_byte.
Proof.
  intros Hcond s Hs Hc. apply Hcond in Hc. pose proof Hs as (Hr & Hw & Hl & _).
  destruct (load_1 (buf s)) as [E1 E2]; [lia|]. unfold sw_byte. rewrite E1. simpl.
  eexists. split; [done|]. split; [|simpl; lia].
  apply left_advance; [done|lia|]. change (Z.to_nat 1) with 1%nat. rewrite E2.
  apply sw_byte_value; [done|]. apply words_get; [lia|done].
Qed.

Lemma quad_value c p : in_range 32 c -> words 8 p -> (8 <= length p)%nat ->
  in_range 64 (Z.lxor c (val 8 (take 8 p))) /\
  crc_bytes c (take 8 p) = crc_bits 64 (Z.lxor c (val 8 (take 8 p))).
Proof.
  intros Hc Hp Hl. pose proof (words_take 8 8 p Hp) as Ht.
  assert (length (take 8 p) = 8%nat) as E by (rewrite length_take; lia).
  split; [|rewrite crc_bytes_val by done; by rewrite E].
  apply in_range_lxor; [lia|unfold in_range in *; lia|].
  pose proof (val_range 8 (take 8 p) ltac:(lia) Ht) as Hv. rewrite E in Hv. exact Hv.
Qed.

Lemma sw_quad_consumes T : consumes T (fun s => 8 <=? len s) sw_quad.
Proof.
  intros s Hs Hc%Z.leb_le. pose proof Hs as (Hr & Hw & Hl & _).
  unfold sw_quad. rewrite load_take by lia. simpl.
  destruct (quad_value (crc s) (buf s)) as [E1 E2]; [done|done|lia|].
  eexists. split; [reflexivity|]. split; [|simpl; lia].
  apply left_advance; [done|lia|]. rewrite sw_quad_value by done. symmetry. exact E2.
Qed.

Lemma unaligned_len s : unaligned s = true -> len s <> 0.
Proof. unfold unaligned. destruct (Z.eqb_spec (len s) 0); simpl; [done|auto]. Qed.
Lemma nonempty_len s : nonempty s = true -> len s <> 0.
Proof. unfold nonempty. destruct (Z.eqb_spec (len s) 0); simpl; [done|auto]. Qed.

Lemma nonempty_done T s : left T s -> nonempty s = false -> u32 (crc s) = T.
Proof.
  unfold nonempty. intros (Hr & ? & ? & <-). destruct (Z.eqb_spec (len s) 0) as [E|]; [|done]. intros _.
  rewrite E. by apply uw_small.
Qed.

(** What a caller has to supply: an accumulator and [len] readable bytes. *)
Record readable (crci : Z) (buf : list Z) (len : Z) : Prop := {
  r_crc : in_range 32 crci;
  r_buf : words 8 buf;
  r_len : 0 <= len <= Z.of_nat (length buf);
}.

(** The bytes the call is about. *)
Definition message (buf : list Z) (len : Z) : list Z := take (Z.to_nat len) buf.

Lemma start_left crci addr buf len : readable crci buf len ->
  left (crc_bytes (Z.lxor crci 0xffffffff) (message buf len))
    {| crc := Z.lxor crci 0xffffffff; addr := addr; buf := buf; len := len |}.
Proof.
  intros [? ? ?]. split; [|done]. simpl. apply in_range_lxor; [lia|done|]. unfold in_range; lia.
Qed.

(** Runs the loops one after the other, each from what the last one left. *)
Ltac run_loop lem :=
  match goal with
  | Hs : left ?T ?s |- context [while ?fuel ?cond ?body ?s] =>
      let H := fresh "H" in let E := fresh "E" in let s' := fresh "s" in
      destruct (consumes_while_len T cond body fuel s) as (s' & -> & ? & E & ?);
      [apply lem; auto using unaligned_len, nonempty_len|done|done|]; cbn [mbind option_bind]
  end.

Lemma sw_correct crci addr buf len : readable crci buf len ->
  jl_crc32c_sw crci addr buf len = Some (crc32c crci (message buf len)).
Proof.
  intros Hr. pose proof (start_left crci addr buf len Hr) as Hs. unfold jl_crc32c_sw.
  assert (Z.to_nat (Crc32c.len {| crc := Z.lxor crci 0xffffffff; addr := addr; buf := buf; len := len |})
          < S (Z.to_nat len))%nat by (simpl; lia).
  run_loop sw_byte_consumes. run_loop sw_quad_consumes. run_loop sw_byte_consumes.
  unfold crc32c. by erewrite nonempty_done.
Qed.

(** ** The processor's instructions

    Intel SDM, CRC32 and Arm ARM, CRC32C*: the instruction accumulates the
    bytes of its operand, the least significant first. *)
Definition accumulates (n : nat) (insn : Z -> Z -> Z) : Prop :=
  forall c bs, in_range 32 c -> words 8 bs -> length bs = n -> insn c (val 8 bs) = crc_bytes c bs.

Lemma accumulates_load n insn T c p m : accumulates n insn -> pending T c p m -> Z.of_nat n <= m ->
  exists w, load n p = Some w /\ insn c w = crc_bytes c (take n p) /\
            pending T (insn c w) (drop n p) (m - Z.of_nat n).
Proof.
  intros Ha Hp Hn. pose proof Hp as (Hc & Hw & Hm & _).
  exists (val 8 (take n p)). rewrite load_take by lia.
  assert (insn c (val 8 (take n p)) = crc_bytes c (take n p)) as E.
  { apply Ha; [done|by apply words_take|rewrite length_take; lia]. }
  split; [done|]. split; [done|]. rewrite E.
  rewrite <- (Nat2Z.id n) at 1 2. apply pending_step; [done|lia].
Qed.

(** One of the parallel lanes after [d] bytes of [p0]. *)
Definition lane (c0 : Z) (p0 : list Z) (d : Z) (c : Z) (p : list Z) : Prop :=
  in_range 32 c0 /\ words 8 p0 /\ p = drop (Z.to_nat d) p0 /\ c = crc_bytes c0 (take (Z.to_nat d) p0).

Lemma lane_start c0 p0 : in_range 32 c0 -> words 8 p0 -> lane c0 p0 0 c0 p0.
Proof. intros. repeat split; done || apply H. Qed.

Lemma lane_step insn c0 p0 d c p : accumulates 8 insn -> lane c0 p0 d c p ->
  0 <= d -> d + 8 <= Z.of_nat (length p0) ->
  exists w, load 8 p = Some w /\ lane c0 p0 (d + 8) (insn c w) (drop 8 p).
Proof.
  intros Ha (Hc0 & Hp0 & -> & ->) Hd Hl.
  assert (pending (crc_bytes c0 p0) c0 p0 (Z.of_nat (length p0))) as Hp.
  { split_and!; [done|done|lia|lia|]. rewrite take_ge by lia. done. }
  pose proof (pending_step _ _ _ _ d Hp ltac:(lia)) as Hs.
  destruct (accumulates_load 8 insn _ _ _ _ Ha Hs ltac:(lia)) as (w & E1 & E2 & _).
  exists w. split; [done|]. split_and!; [done|done| |].
  - rewrite drop_drop. f_equal. lia.
  - rewrite E2, <- crc_bytes_app. f_equal. rewrite take_take_drop. f_equal. lia.
Qed.

(** Appending a block to an accumulator by the operator of its length. *)
Lemma lanes_join zeros size c B :
  (forall c, in_range 32 c -> crc32c_shift zeros c = crc_bits (8 * Z.to_nat size) c) ->
  in_range 32 c -> words 8 B -> length B = Z.to_nat size ->
  Z.lxor (crc32c_shift zeros c) (crc_bytes 0 B) = crc_bytes c B.
Proof. intros Hz Hc HB Hl. by rewrite Hz, (crc_bytes_lxor c), Hl. Qed.

Lemma crc_bytes_take_range c p n : in_range 32 c -> words 8 p -> in_range 32 (crc_bytes c (take n p)).
Proof. intros. apply crc_bytes_range; [done|by apply words_take]. Qed.

Create HintDb crc.
#[export] Hint Resolve words_take words_drop crc_bytes_take_range crc_bytes_range : crc.

(** Three accumulators, of [size] bytes each, make one of [3 * size] bytes. *)
Lemma join3 zeros size T c p m :
  (forall c, in_range 32 c -> crc32c_shift zeros c = crc_bits (8 * Z.to_nat size) c) ->
  pending T c p m -> 0 <= size -> size * 3 <= m ->
  let n := Z.to_nat size in
  let c' := Z.lxor (crc32c_shift zeros (crc_bytes c (take n p))) (crc_bytes 0 (take n (drop n p))) in
  in_range 32 c' /\
  pending T (Z.lxor (crc32c_shift zeros c') (crc_bytes 0 (take n (drop n (drop n p)))))
    (drop (n + n + n) p) (m - size * 3).
Proof.
  intros Hz Hp Hs Hm n. pose proof Hp as (Hc & Hw & Hl & _).
  rewrite (lanes_join zeros size) by (eauto with crc || (rewrite length_take, length_drop; lia)).
  intros c'. subst c'. split; [eauto with crc|].
  rewrite (lanes_join zeros size) by (eauto with crc || (rewrite length_take, !length_drop; lia)).
  rewrite <- !crc_bytes_app, ?app_assoc, !take_take_drop, ?drop_drop, ?take_take_drop.
  replace (n + n + n)%nat with (Z.to_nat (size * 3)) by lia. apply pending_step; [done|lia].
Qed.

Lemma join2 zeros size T c p m :
  (forall c, in_range 32 c -> crc32c_shift zeros c = crc_bits (8 * Z.to_nat size) c) ->
  pending T c p m -> 0 <= size -> size * 2 <= m ->
  let n := Z.to_nat size in
  pending T (Z.lxor (crc32c_shift zeros (crc_bytes c (take n p))) (crc_bytes 0 (take n (drop n p))))
    (drop (n + n) p) (m - size * 2).
Proof.
  intros Hz Hp Hs Hm n. pose proof Hp as (Hc & Hw & Hl & _).
  rewrite (lanes_join zeros size) by (eauto with crc || (rewrite length_take, length_drop; lia)).
  rewrite <- crc_bytes_app, take_take_drop.
  replace (n + n)%nat with (Z.to_nat (size * 2)) by lia. apply pending_step; [done|lia].
Qed.

Lemma do_while_while {S} fuel body cond (s : S) : cond s = true ->
  do_while fuel body cond s = while (Datatypes.S fuel) cond body s.
Proof. intros H. simpl. by rewrite H. Qed.
