(* ===== verification/Crc32cCorrect.v ===== *)
(** * CRC-32C: the properties

    [crc32c crc bs] is the bitwise CRC of [bs] continued from [crc];
    [message buf len] the bytes a call is about; [accumulates n insn] what the
    processor's manual says of an instruction on [n] bytes. *)
From S2P Require Import Prelude Crc32cTables Crc32c Crc32cFacts.

(** ** The SSE4.2 and ARMv8 routines compute the reference

    Both are proved over any instructions that accumulate the bytes of their
    operand ([accumulates]). *)

(** The hypotheses of a block's loop on [size] bytes per lane. *)
Record block_size (size : Z) (zeros : list (list Z)) : Prop := {
  bs_pos : 0 < size;
  bs_div : size `mod` 8 = 0;
  bs_shift : forall c, in_range 32 c -> crc32c_shift zeros c = crc_bits (8 * Z.to_nat size) c;
}.

Lemma block_long : block_size LONG crc32c_long.
Proof. constructor; [done|done|]. exact crc32c_shift_long. Qed.
Lemma block_short : block_size SHORT crc32c_short.
Proof. constructor; [done|done|]. exact crc32c_shift_short. Qed.

Lemma mod8_sub r : r `mod` 8 = 0 -> 0 < r -> 8 <= r /\ (r - 8) `mod` 8 = 0.
Proof. intros. split; Z.to_euclidean_division_equations; lia. Qed.

(** The words that are left, then at most seven bytes. *)
Lemma land7 m : 0 <= m -> 0 <= Z.land m 7 <= m /\ Z.land m 7 < 8 /\ (m - Z.land m 7) `mod` 8 = 0.
Proof.
  intros. change 7 with (Z.ones 3). rewrite Z.land_ones by lia. change (2 ^ 3) with 8.
  split_and!; Z.to_euclidean_division_equations; lia.
Qed.

Section Sse42.
Context (crc32b crc32q : Z -> Z -> Z).
Context (crc32b_acc : accumulates 1 crc32b) (crc32q_acc : accumulates 8 crc32q).

Lemma sse_byte_consumes T cond : (forall s, cond s = true -> len s <> 0) ->
  consumes T cond (sse_byte crc32b).
Proof.
  intros Hcond s Hs Hc. apply Hcond in Hc. pose proof Hs as (Hr & Hw & Hl & _).
  destruct (accumulates_load 1 crc32b T _ _ _ crc32b_acc Hs ltac:(lia)) as (w & E & _ & Hp).
  unfold sse_byte. rewrite E. cbn [mbind option_bind]. eexists. split; [done|]. split; [exact Hp|simpl; lia].
Qed.

Definition sse_inv (size : Z) (s : cursor) (l : lanes) : Prop :=
  0 <= lrem l <= size /\ lrem l `mod` 8 = 0 /\
  let d := size - lrem l in let n := Z.to_nat size in
  lane (crc s) (buf s) d (crc0 l) (lbuf l) /\
  lane 0 (drop n (buf s)) d (crc1 l) (drop n (lbuf l)) /\
  lane 0 (drop (n + n) (buf s)) d (crc2 l) (drop (n + n) (lbuf l)).

Lemma sse_lane_step size s l : 0 < size -> size * 3 <= Z.of_nat (length (buf s)) ->
  sse_inv size s l -> (0 <? lrem l) = true ->
  exists l', sse_lane crc32q size l = Some l' /\ sse_inv size s l' /\ (Z.to_nat (lrem l') < Z.to_nat (lrem l))%nat.
Proof.
  intros Hp Hl (Hr & Hm & L0 & L1 & L2) Hc%Z.ltb_lt. destruct (mod8_sub _ Hm Hc) as [H8 Hm'].
  apply (lane_step crc32q) in L0 as (w0 & E0 & L0); [|done|lia|lia].
  apply (lane_step crc32q) in L1 as (w1 & E1 & L1); [|done|lia|rewrite length_drop; lia].
  apply (lane_step crc32q) in L2 as (w2 & E2 & L2); [|done|lia|rewrite length_drop; lia].
  unfold sse_lane. replace (Z.to_nat (size * 2)) with (Z.to_nat size + Z.to_nat size)%nat by lia.
  rewrite E0, E1, E2. cbn [mbind option_bind].
  eexists. split; [done|]. split; [|simpl; lia]. unfold sse_inv. cbn [lrem crc0 crc1 crc2 lbuf].
  replace (size - (lrem l - 8)) with (size - lrem l + 8) by lia.
  rewrite !drop_drop in *. rewrite (Nat.add_comm 8 (Z.to_nat size)).
  rewrite (Nat.add_comm 8 (Z.to_nat size + Z.to_nat size)).
  split_and!; done || lia.
Qed.

Lemma sse_block_consumes T size zeros : block_size size zeros ->
  consumes T (fun s => size * 3 <=? len s) (sse_block crc32q size zeros).
Proof.
  intros [Hp Hd Hz] s Hs Hc%Z.leb_le. pose proof Hs as (Hr & Hw & Hl & _).
  unfold sse_block. rewrite do_while_while by (apply Z.ltb_lt; simpl; lia).
  destruct (while_rule (sse_inv size s) (fun l => Z.to_nat (lrem l)) (fun l => 0 <? lrem l) (sse_lane crc32q size))
    with (fuel := Datatypes.S (Z.to_nat size))
         (s := {| crc0 := crc s; crc1 := 0; crc2 := 0; lbuf := buf s; lrem := size |})
    as (l & -> & (Hrem & _ & L0 & L1 & L2) & Hend); [|..|simpl; lia|].
  { intros l Hi Hcl. apply sse_lane_step; done || lia. }
  { unfold sse_inv. cbn [lrem crc0 crc1 crc2 lbuf]. rewrite Z.sub_diag.
    split_and!; try lia; apply lane_start; try done; by apply words_drop. }
  apply Z.ltb_ge in Hend. assert (lrem l = 0) as E0 by lia. rewrite E0, Z.sub_0_r in *.
  cbn [mbind option_bind].
  destruct L0 as (_ & _ & -> & ->), L1 as (_ & _ & _ & ->), L2 as (_ & _ & _ & ->).
  destruct (join3 zeros size T (crc s) (buf s) (len s) Hz Hs ltac:(lia) Hc) as [H1 H2].
  eexists. split; [done|]. split; [|simpl; lia].
  unfold left. cbn [crc buf len]. rewrite (uw_small 32 (crc_bytes (crc s) _)) by eauto with crc.
  rewrite (uw_small 32 _ H1). rewrite !drop_drop in *.
  replace (Z.to_nat size + Z.to_nat (size * 2))%nat with (Z.to_nat size + Z.to_nat size + Z.to_nat size)%nat by lia.
  done.
Qed.

Lemma sse_quads T s fuel : left T s -> (Z.to_nat (len s) < fuel)%nat ->
  exists s' n, while fuel (fun sn => 0 <? snd sn) (sse_quad crc32q) (s, len s - Z.land (len s) 7) = Some (s', n) /\
               len s' = len s /\ 0 <= Z.land (len s) 7 <= len s /\ pending T (crc s') (buf s') (Z.land (len s) 7).
Proof.
  intros Hs Hf. pose proof Hs as (_ & _ & Hl & _). destruct (land7 (len s)) as (H1 & H2 & H3); [lia|].
  destruct (while_rule
    (fun sn => 0 <= snd sn /\ snd sn `mod` 8 = 0 /\ len (fst sn) = len s /\
               pending T (crc (fst sn)) (buf (fst sn)) (snd sn + Z.land (len s) 7))
    (fun sn => Z.to_nat (snd sn)) (fun sn => 0 <? snd sn) (sse_quad crc32q))
    with (fuel := fuel) (s := (s, len s - Z.land (len s) 7)) as ([s' n] & E & (? & ? & ? & Hp) & Hn).
  - intros [s1 n] (Hn & Hm & El & Hp) Hc%Z.ltb_lt. cbn [fst snd] in *.
    destruct (mod8_sub _ Hm Hc) as [H8 Hm'].
    destruct (accumulates_load 8 crc32q T _ _ _ crc32q_acc Hp ltac:(lia)) as (w & Ew & _ & Hp').
    unfold sse_quad. rewrite Ew. cbn [mbind option_bind]. eexists. split; [done|]. cbn [fst snd].
    split; [|lia]. split_and!; [lia|done|done|]. cbn [crc buf].
    by replace (n - 8 + Z.land (len s) 7) with (n + Z.land (len s) 7 - Z.of_nat 8) by lia.
  - cbn [fst snd]. split_and!; [lia|done|done|].
    replace (len s - Z.land (len s) 7 + Z.land (len s) 7) with (len s) by lia. exact Hs.
  - cbn [snd]. lia.
  - exists s', n. cbn [fst snd] in *. split_and!; [done|done|lia|lia|]. apply Z.ltb_ge in Hn.
    by replace n with 0 in Hp by lia.
Qed.

Lemma sse42_correct crci addr buf len : readable crci buf len ->
  crc32c_sse42 crc32b crc32q crci addr buf len = Some (crc32c crci (message buf len)).
Proof.
  intros Hr. pose proof (start_left crci addr buf len Hr) as Hs. unfold crc32c_sse42.
  assert (Z.to_nat (Crc32c.len {| crc := Z.lxor crci 0xffffffff; addr := addr; buf := buf; len := len |})
          < S (Z.to_nat len))%nat by (simpl; lia).
  run_loop sse_byte_consumes. run_loop sse_block_consumes; [apply block_long|].
  run_loop sse_block_consumes; [apply block_short|].
  match goal with |- context [Z.land (Crc32c.len ?s) 7] =>
    destruct (sse_quads _ s (S (Z.to_nat len)) ltac:(eassumption) ltac:(done)) as (s' & n & -> & El & H7 & Hp);
    rewrite <- El in H7, Hp; cbn [mbind option_bind]
  end.
  assert (left (crc_bytes (Z.lxor crci 4294967295) (message buf len))
    {| crc := crc s'; addr := Crc32c.addr s'; buf := Crc32c.buf s'; len := Z.land (Crc32c.len s') 7 |}) by exact Hp.
  assert (Z.to_nat (Crc32c.len {| crc := crc s'; addr := Crc32c.addr s'; buf := Crc32c.buf s';
            len := Z.land (Crc32c.len s') 7 |}) < S (Z.to_nat len))%nat.
  { simpl. lia. }
  run_loop sse_byte_consumes. unfold crc32c. by erewrite nonempty_done.
Qed.
End Sse42.

Section Armv8.
Context (crc32cx crc32cw crc32ch crc32cb : Z -> Z -> Z).
Context (crc32cx_acc : accumulates 8 crc32cx) (crc32cw_acc : accumulates 4 crc32cw).
Context (crc32ch_acc : accumulates 2 crc32ch) (crc32cb_acc : accumulates 1 crc32cb).

Definition arm3_inv (size : Z) (s : cursor) (l : arm3) : Prop :=
  0 <= arem l <= size /\ arem l `mod` 8 = 0 /\
  let d := size - arem l in let n := Z.to_nat size in
  lane (crc s) (buf s) d (a0 l) (p0 l) /\
  lane 0 (drop n (buf s)) d (a1 l) (p1 l) /\
  lane 0 (drop n (drop n (buf s))) d (a2 l) (p2 l).

Lemma arm_lane3_step size s l : 0 < size -> size * 3 <= Z.of_nat (length (buf s)) ->
  arm3_inv size s l -> (0 <? arem l) = true ->
  exists l', arm_lane3 crc32cx l = Some l' /\ arm3_inv size s l' /\ (Z.to_nat (arem l') < Z.to_nat (arem l))%nat.
Proof.
  intros Hp Hl (Hr & Hm & L0 & L1 & L2) Hc%Z.ltb_lt. destruct (mod8_sub _ Hm Hc) as [H8 Hm'].
  apply (lane_step crc32cx) in L0 as (w0 & E0 & L0); [|done|lia|lia].
  apply (lane_step crc32cx) in L1 as (w1 & E1 & L1); [|done|lia|rewrite length_drop; lia].
  apply (lane_step crc32cx) in L2 as (w2 & E2 & L2); [|done|lia|rewrite !length_drop; lia].
  unfold arm_lane3. rewrite E0, E1, E2. cbn [mbind option_bind].
  eexists. split; [done|]. split; [|simpl; lia]. unfold arm3_inv. cbn [arem a0 a1 a2 p0 p1 p2].
  replace (size - (arem l - 8)) with (size - arem l + 8) by lia.
  split_and!; done || lia.
Qed.

Lemma arm_block3_consumes T size zeros : block_size size zeros ->
  consumes T (fun s => size * 3 <=? len s) (arm_block3 crc32cx size zeros).
Proof.
  intros [Hp Hd Hz] s Hs Hc%Z.leb_le. pose proof Hs as (Hr & Hw & Hl & _).
  unfold arm_block3. rewrite do_while_while by (apply Z.ltb_lt; simpl; lia).
  match goal with |- context [while _ _ _ ?l0] =>
    destruct (while_rule (arm3_inv size s) (fun l => Z.to_nat (arem l)) (fun l => 0 <? arem l) (arm_lane3 crc32cx))
      with (fuel := Datatypes.S (Z.to_nat size)) (s := l0)
      as (l & -> & (Hrem & _ & L0 & L1 & L2) & Hend); [|..|simpl; lia|]
  end.
  { intros l Hi Hcl. apply (arm_lane3_step size); done || lia. }
  { unfold arm3_inv. cbn [arem a0 a1 a2 p0 p1 p2]. rewrite Z.sub_diag.
    split_and!; try lia; apply lane_start; auto with crc; done. }
  apply Z.ltb_ge in Hend. assert (arem l = 0) as E0 by lia. rewrite E0, Z.sub_0_r in *.
  cbn [mbind option_bind].
  destruct L0 as (_ & _ & -> & ->), L1 as (_ & _ & _ & ->), L2 as (_ & _ & _ & ->).
  destruct (join3 zeros size T (crc s) (buf s) (len s) Hz Hs ltac:(lia) Hc) as [H1 H2].
  eexists. split; [done|]. split; [|simpl; lia].
  unfold left. cbn [crc buf len]. rewrite !drop_drop in *.
  by replace (Z.to_nat size + Z.to_nat (size * 2))%nat
    with (Z.to_nat size + Z.to_nat size + Z.to_nat size)%nat by lia.
Qed.

Definition arm2_inv (s : cursor) (l : arm2) : Prop :=
  0 <= brem l <= SHORT /\ brem l `mod` 8 = 0 /\
  let d := SHORT - brem l in
  lane (crc s) (buf s) d (b0 l) (q0 l) /\ lane 0 (drop (Z.to_nat SHORT) (buf s)) d (b1 l) (q1 l).

Lemma arm_lane2_step s l : SHORT * 2 <= Z.of_nat (length (buf s)) ->
  arm2_inv s l -> (0 <? brem l) = true ->
  exists l', arm_lane2 crc32cx l = Some l' /\ arm2_inv s l' /\ (Z.to_nat (brem l') < Z.to_nat (brem l))%nat.
Proof.
  intros Hl (Hr & Hm & L0 & L1) Hc%Z.ltb_lt. destruct (mod8_sub _ Hm Hc) as [H8 Hm'].
  unfold SHORT in Hl, Hr. apply (lane_step crc32cx) in L0 as (w0 & E0 & L0); [|done|unfold SHORT; lia..].
  apply (lane_step crc32cx) in L1 as (w1 & E1 & L1); [|done|unfold SHORT; lia|rewrite length_drop; unfold SHORT; lia].
  unfold arm_lane2. rewrite E0, E1. cbn [mbind option_bind].
  eexists. split; [done|]. split; [|simpl; lia]. unfold arm2_inv. cbn [brem b0 b1 q0 q1].
  replace (SHORT - (brem l - 8)) with (SHORT - brem l + 8) by lia.
  split_and!; try done; unfold SHORT; lia.
Qed.

Lemma arm_block2_left T s : left T s -> SHORT * 2 <= len s ->
  exists s', arm_block2 crc32cx s = Some s' /\ left T s' /\ len s' < len s.
Proof.
  intros Hs Hc. pose proof Hs as (Hr & Hw & Hl & _).
  unfold arm_block2. rewrite do_while_while by done.
  match goal with |- context [while _ _ _ ?l0] =>
    destruct (while_rule (arm2_inv s) (fun l => Z.to_nat (brem l)) (fun l => 0 <? brem l) (arm_lane2 crc32cx))
      with (fuel := Datatypes.S (Z.to_nat SHORT)) (s := l0)
      as (l & -> & (Hrem & _ & L0 & L1) & Hend); [|..|simpl; lia|]
  end.
  { intros l Hi Hcl. apply arm_lane2_step; done || lia. }
  { unfold arm2_inv. cbn [brem b0 b1 q0 q1]. rewrite Z.sub_diag.
    split_and!; try done; apply lane_start; auto with crc; done. }
  apply Z.ltb_ge in Hend. assert (brem l = 0) as E0 by lia. rewrite E0, Z.sub_0_r in *.
  cbn [mbind option_bind].
  destruct L0 as (_ & _ & -> & ->), L1 as (_ & _ & _ & ->).
  pose proof (join2 crc32c_short SHORT T (crc s) (buf s) (len s) crc32c_shift_short Hs ltac:(done) Hc) as H1.
  eexists. split; [done|]. split; [|unfold SHORT; simpl; lia].
  unfold left. cbn [crc buf len]. by rewrite !drop_drop in *.
Qed.

(** The word loop leaves [len mod 8] bytes. *)
Lemma arm_quads T s fuel : left T s -> (Z.to_nat (len s) < fuel)%nat ->
  exists s' n, while fuel (fun sn => 0 <=? snd sn) (arm_quad crc32cx) (s, len s - 8) = Some (s', n) /\
               len s' = len s /\ pending T (crc s') (buf s') (len s `mod` 8).
Proof.
  intros Hs Hf. pose proof Hs as (_ & _ & Hl & _).
  destruct (while_rule
    (fun sn => -8 <= snd sn /\ snd sn `mod` 8 = len s `mod` 8 /\ len (fst sn) = len s /\
               pending T (crc (fst sn)) (buf (fst sn)) (snd sn + 8))
    (fun sn => Z.to_nat (snd sn + 8)) (fun sn => 0 <=? snd sn) (arm_quad crc32cx))
    with (fuel := fuel) (s := (s, len s - 8)) as ([s' n] & E & (H1 & H2 & ? & Hp) & Hn).
  - intros [s1 n] (Hn & Hm & El & Hp) Hc%Z.leb_le. cbn [fst snd] in *.
    destruct (accumulates_load 8 crc32cx T _ _ _ crc32cx_acc Hp ltac:(lia)) as (w & Ew & _ & Hp').
    unfold arm_quad. rewrite Ew. cbn [mbind option_bind]. eexists. split; [done|]. cbn [fst snd].
    split; [|lia]. split_and!; [lia| |done|].
    + rewrite <- Hm. Z.to_euclidean_division_equations; lia.
    + cbn [crc buf]. by replace (n - 8 + 8) with (n + 8 - Z.of_nat 8) by lia.
  - cbn [fst snd]. split_and!; [lia| |done|].
    + Z.to_euclidean_division_equations; lia.
    + by replace (len s - 8 + 8) with (len s) by lia.
  - cbn [snd]. lia.
  - exists s', n. cbn [fst snd] in *. split_and!; [done|done|]. apply Z.leb_gt in Hn.
    replace (len s `mod` 8) with (n + 8); [done|].
    rewrite <- H2. Z.to_euclidean_division_equations; lia.
Qed.

(** [if (len & n)] with [n = 2^k] bytes: the bits of [len] below [2 n] are left. *)
Lemma arm_tail_left T k insn s : 0 <= k -> accumulates (Z.to_nat (2 ^ k)) insn ->
  pending T (crc s) (buf s) (len s `mod` 2 ^ (k + 1)) ->
  exists s', arm_tail (2 ^ k) insn s = Some s' /\ len s' = len s /\
             pending T (crc s') (buf s') (len s `mod` 2 ^ k).
Proof.
  intros Hk Ha Hp. pose proof (pow2_pos k Hk).
  assert (len s `mod` 2 ^ (k + 1) = len s `mod` 2 ^ k + 2 ^ k * Z.b2z (Z.testbit (len s) k)) as E.
  { rewrite Z.pow_add_r, Z.rem_mul_r by lia. rewrite Z.testbit_spec' by lia. done. }
  assert (Z.land (len s) (2 ^ k) = 2 ^ k * Z.b2z (Z.testbit (len s) k)) as El.
  { apply Z.bits_inj'. intros i Hi. rewrite Z.land_spec, Z.pow2_bits_eqb by lia.
    destruct (Z.testbit (len s) k) eqn:Hb; simpl.
    - rewrite Z.mul_1_r, Z.pow2_bits_eqb by lia. destruct (Z.eqb_spec k i) as [<-|]; [by rewrite Hb|apply andb_false_r].
    - rewrite Z.mul_0_r, Z.bits_0. destruct (Z.eqb_spec k i) as [<-|]; [by rewrite Hb|apply andb_false_r]. }
  unfold arm_tail. rewrite El. rewrite E in Hp. destruct (Z.testbit (len s) k); simpl Z.b2z in *.
  - destruct (Z.eqb_spec (2 ^ k * 1) 0); [lia|].
    assert (0 <= len s `mod` 2 ^ k) by (apply Z.mod_pos_bound; lia).
    destruct (accumulates_load (Z.to_nat (2 ^ k)) insn T _ _ _ Ha Hp ltac:(lia)) as (w & Ew & _ & Hp').
    rewrite Ew. cbn [mbind option_bind]. eexists. split; [done|]. split; [done|]. cbn [crc buf].
    by replace (len s `mod` 2 ^ k) with (len s `mod` 2 ^ k + 2 ^ k * 1 - Z.of_nat (Z.to_nat (2 ^ k))) by lia.
  - rewrite Z.mul_0_r. simpl. exists s. split; [done|]. split; [done|].
    by replace (len s `mod` 2 ^ k) with (len s `mod` 2 ^ k + 2 ^ k * 0) by lia.
Qed.

Lemma lxor_ones x : in_range 32 x -> u32 (Z.lnot x) = Z.lxor x 0xffffffff.
Proof.
  intros Hx. apply Z.bits_inj'; intros i Hi. rewrite testbit_uw, Z.lnot_spec, Z.lxor_spec by lia.
  change 0xffffffff with (Z.ones 32). destruct (Z.ltb_spec i 32).
  - rewrite Z.ones_spec_low by lia. simpl. by destruct (Z.testbit x i).
  - rewrite Z.ones_spec_high by lia. by rewrite (testbit_high 32 x i).
Qed.

Lemma armv8_correct crci addr buf len : readable crci buf len ->
  crc32c_armv8 crc32cx crc32cw crc32ch crc32cb crci addr buf len = Some (crc32c crci (message buf len)).
Proof.
  intros Hr. pose proof (start_left crci addr buf len Hr) as Hs. unfold crc32c_armv8.
  rewrite (lxor_ones crci) by apply Hr.
  assert (Z.to_nat (Crc32c.len {| crc := Z.lxor crci 0xffffffff; addr := addr; buf := buf; len := len |})
          < S (Z.to_nat len))%nat by (simpl; lia).
  run_loop arm_block3_consumes; [apply block_long|]. run_loop arm_block3_consumes; [apply block_short|].
  match goal with H : left ?T ?s |- context [SHORT * 2 <=? Crc32c.len ?s] =>
    assert (exists s', (if SHORT * 2 <=? Crc32c.len s then arm_block2 crc32cx s else Some s) = Some s' /\
                       left T s' /\ (Z.to_nat (Crc32c.len s') < Datatypes.S (Z.to_nat len))%nat) as (s2 & -> & Hs2 & Hl2)
  end.
  { destruct (Z.leb_spec (SHORT * 2) (Crc32c.len s0)) as [Hc|]; [|by eauto].
    destruct (arm_block2_left _ s0 ltac:(eassumption) Hc) as (s2 & ? & ? & ?). exists s2. split_and!; [done|done|lia]. }
  cbn [mbind option_bind].
  destruct (arm_quads _ s2 _ Hs2 Hl2) as (s3 & n & -> & E3 & Hp). cbn [mbind option_bind]. rewrite <- E3 in Hp.
  destruct (arm_tail_left _ 2 crc32cw s3 ltac:(lia) crc32cw_acc Hp) as (s4 & F4 & E4 & Hp4).
  change 4 with (2 ^ 2). rewrite F4. cbn [mbind option_bind]. rewrite <- E4 in Hp4.
  destruct (arm_tail_left _ 1 crc32ch s4 ltac:(lia) crc32ch_acc Hp4) as (s5 & F5 & E5 & Hp5).
  change (arm_tail 2) with (arm_tail (2 ^ 1)). rewrite F5. cbn [mbind option_bind]. rewrite <- E5 in Hp5.
  destruct (arm_tail_left _ 0 crc32cb s5 ltac:(lia) crc32cb_acc Hp5) as (s6 & F6 & E6 & Hp6).
  change (arm_tail 1) with (arm_tail (2 ^ 0)). rewrite F6. cbn [mbind option_bind].
  change (2 ^ 0) with 1 in Hp6. rewrite Z.mod_1_r in Hp6. unfold crc32c. f_equal.
  rewrite lxor_ones by apply Hp6. f_equal. by apply pending_done in Hp6.
Qed.
End Armv8.

(** * CRC-32C: the properties *)

(** An instruction as the manuals describe it. *)
Definition insn (n : nat) (c w : Z) : Z := crc_bytes c (digits 8 n w).
Lemma insn_accumulates n : accumulates n (insn n).
Proof. intros c bs Hc Hb <-. unfold insn. by rewrite digits_val by (done || lia). Qed.

Definition check_string : list Z := [0x31; 0x32; 0x33; 0x34; 0x35; 0x36; 0x37; 0x38; 0x39].
Lemma check_readable : readable 0 check_string 9.
Proof.
  constructor; [unfold in_range; lia| |cbn; lia]. unfold check_string. repeat constructor; unfold in_range; lia.
Qed.

(** C11: the table-driven software routine returns the CRC-32C of the [len]
    bytes at [buf], at any alignment, and reads no other byte. *)
Theorem jl_crc32c_sw_correct crci addr buf len : readable crci buf len ->
  jl_crc32c_sw crci addr buf len = Some (crc32c crci (message buf len)).
Proof. apply sw_correct. Qed.
Lemma jl_crc32c_sw_correct_witness : Some (crc32c 0 (message check_string 9)) = Some 0xe3069283.
Proof. rewrite <- (jl_crc32c_sw_correct 0 3 check_string 9 check_readable). vm_compute. reflexivity. Defined.

(** C23: the SSE4.2 routine, with its three accumulators per block joined
    through the shift tables, returns the same CRC-32C for every length and
    alignment, given the crc instructions' documented meaning. *)
Theorem crc32c_sse42_correct crc32b crc32q crci addr buf len :
  accumulates 1 crc32b -> accumulates 8 crc32q -> readable crci buf len ->
  crc32c_sse42 crc32b crc32q crci addr buf len = Some (crc32c crci (message buf len)).
Proof. intros. by apply sse42_correct. Qed.
Lemma crc32c_sse42_correct_witness :
  accumulates 1 (insn 1) /\ accumulates 8 (insn 8) /\ readable 0 check_string 9 /\
  crc32c_sse42 (insn 1) (insn 8) 0 3 check_string 9 = Some (crc32c 0 (message check_string 9)).
Proof.
  split; [exact (insn_accumulates 1)|]. split; [exact (insn_accumulates 8)|]. split; [exact check_readable|].
  exact (crc32c_sse42_correct _ _ 0 3 check_string 9 (insn_accumulates 1) (insn_accumulates 8) check_readable).
Defined.

(** the ARMv8 routine, with its blocks of three and of two and its tail of
    four, two and one bytes, returns the same CRC-32C for every length. *)
Lemma crc32c_armv8_correct crc32cx crc32cw crc32ch crc32cb crci addr buf len :
  accumulates 8 crc32cx -> accumulates 4 crc32cw -> accumulates 2 crc32ch -> accumulates 1 crc32cb ->
  readable crci buf len ->
  crc32c_armv8 crc32cx crc32cw crc32ch crc32cb crci addr buf len = Some (crc32c crci (message buf len)).
Proof. intros. by apply armv8_correct. Qed.

Lemma crc32c_app crc xs ys : crc32c crc (xs ++ ys) = crc32c (crc32c crc xs) ys.
Proof.
  unfold crc32c. by rewrite crc_bytes_app, Z.lxor_assoc, Z.lxor_nilpotent, Z.lxor_0_r.
Qed.

(** a CRC can be computed piecewise: passing the CRC of the first [n]
    bytes on to a call on the rest gives the CRC of the whole. *)
Lemma jl_crc32c_piecewise crci addr buf len n : readable crci buf len -> 0 <= n <= len ->
  (c ← jl_crc32c_sw crci addr buf n; jl_crc32c_sw c (addr + n) (drop (Z.to_nat n) buf) (len - n))
  = jl_crc32c_sw crci addr buf len.
Proof.
  intros Hr Hn. pose proof Hr as [H1 H2 H3].
  rewrite (sw_correct crci addr buf n) by (constructor; done || lia). cbn [mbind option_bind].
  rewrite sw_correct.
  - rewrite sw_correct, <- crc32c_app by done. unfold message. rewrite take_take_drop.
    by replace (Z.to_nat n + Z.to_nat (len - n))%nat with (Z.to_nat len) by lia.
  - constructor; [|by apply words_drop|rewrite length_drop; lia].
    apply in_range_lxor; [lia| |unfold in_range; lia]. apply crc_bytes_take_range; [|done].
    apply in_range_lxor; [lia|done|unfold in_range; lia].
Qed.

(** crc32c-tables.c holds exactly what its generator computes, and each
    software table entry is the CRC of its index followed by [k] zero bytes. *)
Theorem crc32c_tables_correct :
  crc32c_init_sw = crc32c_table /\ crc32c_init_hw = (crc32c_long, crc32c_short) /\
  forall k i, (k < 8)%nat -> 0 <= i < 256 ->
    entry crc32c_table k i = crc_bytes 0 (i :: replicate k 0).
Proof.
  split; [apply crc32c_init_sw_table|]. split; [apply crc32c_init_hw_tables|]. intros k i Hk Hi.
  assert (words 8 (i :: replicate k 0)) as Hw
    by (constructor; [unfold in_range; lia|apply words_replicate; unfold in_range; lia]).
  rewrite crc32c_table_spec, crc_bytes_val, Z.lxor_0_l by done.
  cbn [length val]. rewrite length_replicate, val_repeat0. f_equal; lia.
Qed.

(** The operator [crc32c_zeros] builds for [len] appends zero bytes: as
    many as the largest power of two up to [len], and one for [len] = 0, as its
    comment says. *)
Theorem crc32c_zeros_correct len c : 0 <= len < 2 ^ 64 -> in_range 32 c ->
  crc32c_shift (crc32c_zeros len) c = crc_bytes c (replicate (Z.to_nat (2 ^ Z.log2 len)) 0).
Proof.
  intros Hl Hc. rewrite crc32c_shift_zeros by done. rewrite crc_bytes_val, val_repeat0, Z.lxor_0_r, length_replicate.
  - done.
  - apply words_replicate. unfold in_range; lia.
Qed.
Lemma crc32c_zeros_correct_witness :
  in_range 32 0x12345678 /\ crc32c_shift (crc32c_zeros 5) 0x12345678 = crc_bytes 0x12345678 [0; 0; 0; 0].
Proof.
  assert (in_range 32 0x12345678) as H by (unfold in_range; lia). split; [exact H|].
  exact (crc32c_zeros_correct 5 0x12345678 ltac:(lia) H).
Defined.
