(* ===== verification/Half.v ===== *)
(** * Half and bfloat conversions: src/src/runtime_intrinsics.c

    A [float], [double], half or bfloat is its bit pattern: a [Z] in
    [0, 2^32), [0, 2^64) or [0, 2^16). *)
From S2P Require Import Prelude.

(** [n_bit] and [bit] of the search for the leading one of a subnormal; [bit]
    has ten positions to go through. *)
Fixpoint leading_bit (fuel : nat) (sig n_bit bit : Z) : Z * Z :=
  match fuel with
  | O => (n_bit, bit)
  | S fuel => if Z.land bit sig =? 0 then leading_bit fuel sig (n_bit + 1) (Z.shiftr bit 1) else (n_bit, bit)
  end.

Definition half_to_float (ival : Z) : Z :=
  let sign := Z.shiftr (Z.land ival 0x8000) 15 in
  let exp := Z.shiftr (Z.land ival 0x7c00) 10 in
  let sig := Z.shiftr (Z.land ival 0x3ff) 0 in
  if exp =? 0 then
    if sig =? 0 then
      let sign := u32 (Z.shiftl sign 31) in
      Z.lor (Z.lor sign exp) sig
    else
      let '(n_bit, bit) := leading_bit 10 sig 1 0x0200 in
      let sign := u32 (Z.shiftl sign 31) in
      let exp := u32 (Z.shiftl (-14 - n_bit + 127) 23) in
      let sig := u32 (Z.shiftl (u32 (Z.shiftl (Z.land sig (u32 (Z.lnot bit))) n_bit)) (23 - 10)) in
      Z.lor (Z.lor sign exp) sig
  else if exp =? 0x1f then
    if sig =? 0 then (if sign =? 0 then 0x7f800000 else 0xff800000)
    else Z.lor (Z.lor 0x7fc00000 (u32 (Z.shiftl sign 31))) (u32 (Z.shiftl sig (23 - 10)))
  else
    let sign := u32 (Z.shiftl sign 31) in
    let exp := u32 (Z.shiftl (u32 (exp - 15 + 127)) 23) in
    let sig := u32 (Z.shiftl sig (23 - 10)) in
    Z.lor (Z.lor sign exp) sig.

Definition basetable : list Z :=
  replicate 113 0x0000 ++
  [0x0400; 0x0800; 0x0c00; 0x1000; 0x1400; 0x1800; 0x1c00; 0x2000; 0x2400; 0x2800; 0x2c00; 0x3000; 0x3400; 0x3800; 0x3c00;
   0x4000; 0x4400; 0x4800; 0x4c00; 0x5000; 0x5400; 0x5800; 0x5c00; 0x6000; 0x6400; 0x6800; 0x6c00; 0x7000; 0x7400; 0x7800] ++
  replicate 113 0x7c00 ++
  replicate 113 0x8000 ++
  [0x8400; 0x8800; 0x8c00; 0x9000; 0x9400; 0x9800; 0x9c00; 0xa000; 0xa400; 0xa800; 0xac00; 0xb000; 0xb400; 0xb800; 0xbc00;
   0xc000; 0xc400; 0xc800; 0xcc00; 0xd000; 0xd400; 0xd800; 0xdc00; 0xe000; 0xe400; 0xe800; 0xec00; 0xf000; 0xf400; 0xf800] ++
  replicate 113 0xfc00.

Definition shifttable : list Z :=
  replicate 102 0x19 ++
  [0x18; 0x17; 0x16; 0x15; 0x14; 0x13; 0x12; 0x11; 0x10; 0x0f; 0x0e] ++
  replicate 30 0x0d ++
  replicate 112 0x18 ++
  [0x0d] ++
  replicate 102 0x19 ++
  [0x18; 0x17; 0x16; 0x15; 0x14; 0x13; 0x12; 0x11; 0x10; 0x0f; 0x0e] ++
  replicate 30 0x0d ++
  replicate 112 0x18 ++
  [0x0d].

(** C's [isnan] on a [float] and on a [double]. *)
Definition isnan (f : Z) : bool := 0x7f800000 <? Z.land f 0x7fffffff.
Definition isnan64 (d : Z) : bool := 0x7ff0000000000000 <? Z.land d 0x7fffffffffffffff.

Definition float_to_half (param : Z) : Z :=
  let f := param in
  if isnan param then
    u16 (Z.lor (Z.lor (Z.lor (Z.land (Z.shiftr f 16) 0x8000) 0x7c00) 0x0200) (Z.land (Z.shiftr f 13) 0x03ff))
  else
    let i := Z.shiftr (Z.land f (u32 (Z.lnot 0x007fffff))) 23 in
    let sh := get shifttable (Z.to_nat i) in
    let f := Z.land f 0x007fffff in
    let f := Z.lor f (0x007fffff + 0x1) in
    let h := u16 (get basetable (Z.to_nat i) + Z.land (Z.shiftr f sh) 0x03ff) in
    let nextbit := Z.land (Z.shiftr f (sh - 1)) 1 in
    if negb (nextbit =? 0) && negb (Z.land h 0x7C00 =? 0x7C00) then
      if (Z.land h 1 =? 1) || negb (Z.land f (Z.shiftl 1 (sh - 1) - 1) =? 0) then u16 (h + 1) else h
    else h.

(** ** C's conversion between [double] and [float]

    [(float)d], rounding to nearest, ties to even: the language's conversion
    (a NaN keeps its sign and the top of its payload, and is quieted). *)
Definition shift_rne (m k : Z) : Z :=
  let q := Z.shiftr m k in
  let r := m - Z.shiftl q k in
  if (2 ^ (k - 1) <? r) || ((2 ^ (k - 1) =? r) && Z.odd q) then q + 1 else q.

Definition double_to_float (d : Z) : Z :=
  let sign := Z.shiftl (Z.shiftr d 63) 31 in
  let mag := Z.land d 0x7fffffffffffffff in
  let exp := Z.shiftr mag 52 in
  let sig := Z.land mag 0xfffffffffffff in
  if isnan64 d then Z.lor sign (Z.lor 0x7fc00000 (Z.shiftr sig 29))
  else
    let code :=
      if exp <? 897 then shift_rne (if exp =? 0 then sig else 2 ^ 52 + sig) (29 + 897 - Z.max exp 1)
      else (exp - 897) * 2 ^ 23 + shift_rne (2 ^ 52 + sig) 29 in
    sign + Z.min code 0x7f800000.

(** [value p c]: the number with the bits [c] of a format of [p] fraction bits,
    in units of its least positive number; the infinity of a format comes out
    as the power of two after its largest number. *)
Definition value (p c : Z) : Z :=
  if c <? 2 ^ p then c else (2 ^ p + c mod 2 ^ p) * 2 ^ (c / 2 ^ p - 1).

(** [fabs(temp)] and [fabs(param)] for the comparisons, both in units of
    2^-1074; [None] for a NaN, which compares false. *)
Definition fabs32 (f : Z) : option Z :=
  let mag := Z.land f 0x7fffffff in
  if isnan f then None
  else if mag =? 0x7f800000 then Some (value 52 0x7ff0000000000000)
  else Some (value 23 mag * 2 ^ 925).
Definition fabs64 (d : Z) : option Z :=
  if isnan64 d then None else Some (value 52 (Z.land d 0x7fffffffffffffff)).
Definition flt (a b : option Z) : Z :=
  match a, b with Some a, Some b => b2z (a <? b) | _, _ => 0 end.

Definition double_to_half (param : Z) : Z :=
  let temp := double_to_float param in
  let tempi := temp in
  let tempi :=
    if Z.land tempi 0x7fffffff <? 0x38800000 then
      let shift := u32 (113 - Z.shiftr (Z.land tempi 0x7f800000) 23) in
      if shift <? 23 then Z.shiftr (Z.lor tempi 0x00800000) shift else tempi
    else tempi in
  let temp :=
    if Z.land tempi 0x1fff =? 0x1000 then
      u32 (temp + (flt (fabs32 temp) (fabs64 param) - flt (fabs64 param) (fabs32 temp)))
    else temp in
  float_to_half temp.

Definition float_to_bfloat (param : Z) : Z :=
  if isnan param then 0x7fc0 else
  let bits := param in
  let bits := u32 (bits + (0x7fff + Z.land (Z.shiftr bits 16) 1)) in
  u16 (Z.shiftr bits 16).

Definition double_to_bfloat (param : Z) : Z :=
  let temp := double_to_float param in
  let tempi := temp in
  let temp :=
    if Z.land tempi 0x1ff =? 0x100 then
      u32 (tempi + (flt (fabs32 temp) (fabs64 param) - flt (fabs64 param) (fabs32 temp)))
    else temp in
  float_to_bfloat temp.

Definition bfloat_to_float (param : Z) : Z := u32 (Z.shiftl param 16).
