(* ===== verification/HalfFacts.v ===== *)
(** * Half and bfloat conversions: correct rounding and round trips *)
From S2P Require Import Prelude Half.

(** ** Formats

    The gap above [c], twice the midpoint above [c], and rounding to nearest
    with ties to even, for a quantity [x] in units [S] times smaller than the
    format's; [top] is the infinity. *)
Definition ulp (p c : Z) : Z := 2 ^ (Z.max (c / 2 ^ p) 1 - 1).
Definition mid2 (p c : Z) : Z := value p c + value p (c + 1).

Record nearest (p S top x c : Z) : Prop := {
  n_range : 0 <= c <= top;
  n_below : c = 0 \/ S * mid2 p (c - 1) < 2 * x \/ (S * mid2 p (c - 1) = 2 * x /\ Z.even c = true);
  n_above : c = top \/ 2 * x < S * mid2 p c \/ (2 * x = S * mid2 p c /\ Z.even c = true);
}.

Section Format.
Context (p : Z) (Hp : 0 <= p).

Lemma value_nonneg c : 0 <= c -> 0 <= value p c.
Proof.
  intros. unfold value. pose proof (pow2_pos p Hp). case_match; [done|].
  pose proof (Z.mod_pos_bound c (2 ^ p) ltac:(lia)). apply Z.mul_nonneg_nonneg; [lia|].
  apply Z.pow_nonneg. lia.
Qed.

Lemma value_succ c : 0 <= c -> value p (c + 1) = value p c + ulp p c.
Proof.
  intros Hc. unfold value, ulp. pose proof (pow2_pos p Hp) as HP. set (P := 2 ^ p) in *.
  pose proof (Z.div_mod c P ltac:(lia)). pose proof (Z.mod_pos_bound c P ltac:(lia)).
  assert (0 <= c / P) by (apply Z.div_pos; lia).
  destruct (Z.ltb_spec c P) as [Hlt|Hge].
  - rewrite (Z.div_small c P) by lia. simpl. destruct (Z.ltb_spec (c + 1) P); [done|].
    assert (c + 1 = P) as E by lia. rewrite E, Z.mod_same, Z.div_same by lia. change (2 ^ (1 - 1)) with 1. change (2 ^ (0 `max` 1 - 1)) with 1. lia.
  - assert (1 <= c / P) by (apply Z.div_le_lower_bound; lia). rewrite Z.max_l by lia.
    destruct (Z.ltb_spec (c + 1) P); [lia|].
    destruct (Z.eq_dec (c mod P) (P - 1)) as [E|E].
    + assert ((c + 1) mod P = 0) as ->.
      { symmetry. apply (Z.mod_unique_pos _ _ (c / P + 1)); lia. }
      assert ((c + 1) / P = c / P + 1) as ->.
      { symmetry. apply (Z.div_unique_pos _ _ _ 0); lia. }
      rewrite E. replace (c / P + 1 - 1) with (Z.succ (c / P - 1)) by lia. rewrite Z.pow_succ_r by lia. ring.
    + assert ((c + 1) mod P = c mod P + 1) as ->.
      { symmetry. apply (Z.mod_unique_pos _ _ (c / P)); lia. }
      assert ((c + 1) / P = c / P) as ->.
      { symmetry. apply (Z.div_unique_pos _ _ _ (c mod P + 1)); lia. }
      ring.
Qed.

Lemma ulp_pos c : 0 <= c -> 0 < ulp p c.
Proof. intros. apply Z.pow_pos_nonneg; lia. Qed.

Lemma value_lt a b : 0 <= a < b -> value p a < value p b.
Proof.
  intros [Ha Hab]. replace b with (a + 1 + Z.of_nat (Z.to_nat (b - a - 1))) by lia.
  induction (Z.to_nat (b - a - 1)) as [|n IH].
  - rewrite Z.add_0_r, value_succ by lia. pose proof (ulp_pos a). lia.
  - replace (a + 1 + Z.of_nat (S n)) with (a + 1 + Z.of_nat n + 1) by lia.
    rewrite value_succ by lia. pose proof (ulp_pos (a + 1 + Z.of_nat n)). lia.
Qed.

Lemma value_le a b : 0 <= a <= b -> value p a <= value p b.
Proof. intros. destruct (Z.eq_dec a b) as [->|]; [lia|]. pose proof (value_lt a b). lia. Qed.

Lemma value_eq e m : 0 <= m < 2 ^ p -> 0 <= e ->
  value p (e * 2 ^ p + m) = if e =? 0 then m else (2 ^ p + m) * 2 ^ (e - 1).
Proof.
  intros Hm He. unfold value. assert ((e * 2 ^ p + m) / 2 ^ p = e) as ->.
  { symmetry. apply (Z.div_unique_pos _ _ _ m); lia. }
  assert ((e * 2 ^ p + m) mod 2 ^ p = m) as ->.
  { symmetry. apply (Z.mod_unique_pos _ _ e); lia. }
  destruct (Z.eqb_spec e 0) as [->|].
  { rewrite Z.mul_0_l, Z.add_0_l. destruct (Z.ltb_spec m (2 ^ p)); [done|lia]. }
  destruct (Z.ltb_spec (e * 2 ^ p + m) (2 ^ p)); [nia|done].
Qed.

Context (S top : Z) (HS : 0 < S) (Htop : 0 <= top).

(** Rounding between two neighbours. *)
Lemma nearest_step x h : 0 <= h < top -> S * value p h <= x < S * value p (h + 1) ->
  nearest p S top x (h + b2z ((S * mid2 p h <? 2 * x) || ((S * mid2 p h =? 2 * x) && Z.odd h))).
Proof.
  intros Hh Hx. unfold mid2.
  pose proof (value_lt h (h + 1) ltac:(lia)). pose proof (value_lt (h + 1) (h + 2) ltac:(lia)).
  destruct (Z.ltb_spec (S * (value p h + value p (h + 1))) (2 * x)) as [Hlt|Hge]; simpl b2z.
  - constructor; unfold mid2; [lia| |].
    + right. left. replace (h + 1 - 1) with h by lia. done.
    + right. left. replace (h + 1 + 1) with (h + 2) by lia. nia.
  - destruct (Z.eqb_spec (S * (value p h + value p (h + 1))) (2 * x)) as [Heq|Hne]; simpl.
    + destruct (Z.odd h) eqn:Ho; simpl.
      * constructor; unfold mid2; [lia| |].
        -- right. right. replace (h + 1 - 1) with h by lia. split; [done|].
           by rewrite Z.even_add, <- Z.negb_odd, Ho.
        -- right. left. replace (h + 1 + 1) with (h + 2) by lia. nia.
      * rewrite Z.add_0_r. constructor; unfold mid2; [lia| |].
        -- destruct (Z.eq_dec h 0); [by left|right; left].
           replace (h - 1 + 1) with h by lia. pose proof (value_lt (h - 1) h ltac:(lia)). nia.
        -- right. right. split; [done|]. by rewrite <- Z.negb_odd, Ho.
    + rewrite Z.add_0_r. constructor; unfold mid2; [lia| |].
      * destruct (Z.eq_dec h 0); [by left|right; left].
        replace (h - 1 + 1) with h by lia. pose proof (value_lt (h - 1) h ltac:(lia)). nia.
      * right. left. lia.
Qed.

Lemma nearest_top x : S * value p top <= x -> nearest p S top x top.
Proof.
  intros. constructor; [lia| |by left].
  destruct (Z.eq_dec top 0); [by left|right; left]. unfold mid2.
  replace (top - 1 + 1) with top by lia. pose proof (value_lt (top - 1) top ltac:(lia)). nia.
Qed.

(** Dropping [k] bits of a significand [F] in units of [u], where the gap
    between the neighbours is [2^k u]. *)
Lemma nearest_scaled F k u w h : 0 < u -> 0 < k -> 0 <= h < top -> S * w = 2 ^ k * u ->
  value p h = F / 2 ^ k * w -> ulp p h = w ->
  nearest p S top (F * u)
    (h + b2z ((2 ^ (k - 1) <? F mod 2 ^ k) || ((2 ^ (k - 1) =? F mod 2 ^ k) && Z.odd h))).
Proof.
  intros Hu Hk Hh HSw Hv Hw. pose proof (pow2_pos k ltac:(lia)) as HP.
  pose proof (Z.div_mod F (2 ^ k) ltac:(lia)) as Hd. pose proof (Z.mod_pos_bound F (2 ^ k) ltac:(lia)) as Hm.
  assert (2 ^ k = 2 * 2 ^ (k - 1)) as E2
    by (replace k with (Z.succ (k - 1)) at 1 by lia; apply Z.pow_succ_r; lia).
  set (q := F / 2 ^ k) in *. set (r := F mod 2 ^ k) in *.
  assert (S * value p h = q * (2 ^ k * u)) as E3 by (rewrite Hv, <- HSw; ring).
  assert (S * value p (h + 1) = (q + 1) * (2 ^ k * u)) as E4
    by (rewrite value_succ, Hv, Hw, <- HSw by lia; ring).
  assert (S * mid2 p h = 2 * q * (2 ^ k * u) + 2 ^ k * u) as E5
    by (unfold mid2; rewrite Z.mul_add_distr_l, E3, E4; ring).
  assert (2 * (F * u) - S * mid2 p h = 2 * (r - 2 ^ (k - 1)) * u) as E6 by (rewrite E5, Hd, E2; ring).
  replace (2 ^ (k - 1) <? r) with (S * mid2 p h <? 2 * (F * u)).
  2:{ destruct (Z.ltb_spec (2 ^ (k - 1)) r), (Z.ltb_spec (S * mid2 p h) (2 * (F * u))); try done; nia. }
  replace (2 ^ (k - 1) =? r) with (S * mid2 p h =? 2 * (F * u)).
  2:{ destruct (Z.eqb_spec (2 ^ (k - 1)) r), (Z.eqb_spec (S * mid2 p h) (2 * (F * u))); try done; nia. }
  apply nearest_step; [done|]. rewrite E3, E4. rewrite Hd. nia.
Qed.

(** The specification determines the result. *)
Lemma nearest_unique x c c' : nearest p S top x c -> nearest p S top x c' -> c = c'.
Proof.
  assert (forall c c', nearest p S top x c -> nearest p S top x c' -> c < c' -> False) as Hlt.
  { intros a b [Ra _ Aa] [Rb Bb _] Hab. destruct Aa as [->|Aa]; [lia|]. destruct Bb as [->|Bb]; [lia|].
    assert (mid2 p a <= mid2 p (b - 1)) as Hm.
    { unfold mid2. pose proof (value_le a (b - 1) ltac:(lia)). pose proof (value_le (a + 1) (b - 1 + 1) ltac:(lia)). lia. }
    assert (S * mid2 p a <= S * mid2 p (b - 1)) by nia.
    destruct (Z.eq_dec (b - 1) a) as [E|E].
    - rewrite E in Bb. destruct Aa as [|[? Ea]]; [destruct Bb as [|[? Eb]]; lia|].
      destruct Bb as [|[? Eb]]; [lia|]. replace b with (a + 1) in Eb by lia.
      rewrite Z.even_add, Ea in Eb. done.
    - assert (mid2 p a < mid2 p (b - 1)).
      { unfold mid2. pose proof (value_lt a (b - 1) ltac:(lia)). pose proof (value_le (a + 1) (b - 1 + 1) ltac:(lia)). lia. }
      assert (S * mid2 p a < S * mid2 p (b - 1)) by nia. lia. }
  intros Hc Hc'. destruct (Z.lt_trichotomy c c') as [H|[H|H]]; [|done|].
  - destruct (Hlt c c'); done.
  - destruct (Hlt c' c); done.
Qed.
End Format.

(** ** [float_to_half] *)

Definition base (i : Z) : Z := if i <? 113 then 0 else if i <? 143 then (i - 112) * 1024 else 0x7c00.
Definition shift (i : Z) : Z :=
  if i <? 102 then 25 else if i <? 113 then 126 - i else if i <? 143 then 13 else if i <? 255 then 24 else 13.

Lemma tables_spec s i : 0 <= s <= 1 -> 0 <= i < 256 ->
  get basetable (Z.to_nat (s * 256 + i)) = s * 0x8000 + base i /\
  get shifttable (Z.to_nat (s * 256 + i)) = shift i.
Proof.
  intros Hs Hi.
  assert ((get basetable (Z.to_nat (s * 256 + i)) =? (s * 256 + i) / 256 * 0x8000 + base ((s * 256 + i) mod 256)) &&
          (get shifttable (Z.to_nat (s * 256 + i)) =? shift ((s * 256 + i) mod 256)) = true) as E.
  { assert (0 <= s * 256 + i < 512) as Hj by lia. revert Hj. generalize (s * 256 + i).
    apply (zall_spec (fun j => (get basetable (Z.to_nat j) =? j / 256 * 0x8000 + base (j mod 256)) &&
                               (get shifttable (Z.to_nat j) =? shift (j mod 256))) 512).
    vm_compute. reflexivity. }
  apply andb_true_iff in E as [E1%Z.eqb_eq E2%Z.eqb_eq].
  assert ((s * 256 + i) / 256 = s) as Ed by (symmetry; apply (Z.div_unique_pos _ _ _ i); lia).
  assert ((s * 256 + i) mod 256 = i) as Em by (symmetry; apply (Z.mod_unique_pos _ _ s); lia).
  by rewrite Ed, Em in *.
Qed.

(** The sign, exponent and fraction of a [float]. *)
Definition float_bits (s i sig : Z) : Z := s * 2 ^ 31 + i * 2 ^ 23 + sig.

Lemma float_bits_fields s i sig : 0 <= s <= 1 -> 0 <= i < 256 -> 0 <= sig < 2 ^ 23 ->
  Z.land (float_bits s i sig) 0x7fffffff = i * 2 ^ 23 + sig /\
  Z.land (float_bits s i sig) 0x007fffff = sig /\
  Z.shiftr (Z.land (float_bits s i sig) (u32 (Z.lnot 0x007fffff))) 23 = s * 256 + i /\
  Z.shiftr (float_bits s i sig) 31 = s.
Proof.
  intros Hs Hi Hg. unfold float_bits.
  change 0x7fffffff with (2 ^ 31 - 1). change 0x007fffff with (2 ^ 23 - 1). rewrite !land_mod by lia.
  split_and!.
  - symmetry. apply (Z.mod_unique_pos _ _ s); lia.
  - symmetry. apply (Z.mod_unique_pos _ _ (s * 256 + i)); lia.
  - rewrite Z.shiftr_land. change (Z.shiftr (u32 (Z.lnot (2 ^ 23 - 1))) 23) with (2 ^ 9 - 1).
    rewrite land_mod, Z.shiftr_div_pow2 by lia.
    assert ((s * 2 ^ 31 + i * 2 ^ 23 + sig) / 2 ^ 23 = s * 256 + i) as ->
      by (symmetry; apply (Z.div_unique_pos _ _ _ sig); lia).
    apply Z.mod_small. lia.
  - rewrite Z.shiftr_div_pow2 by lia. symmetry. apply (Z.div_unique_pos _ _ _ (i * 2 ^ 23 + sig)); lia.
Qed.

Lemma float_bits_split f : in_range 32 f ->
  exists s i sig, f = float_bits s i sig /\ 0 <= s <= 1 /\ 0 <= i < 256 /\ 0 <= sig < 2 ^ 23.
Proof.
  intros [H1 H2]. exists (f / 2 ^ 31), (f / 2 ^ 23 mod 2 ^ 8), (f mod 2 ^ 23). unfold float_bits.
  split; [|split_and!; Z.to_euclidean_division_equations; lia].
  Z.to_euclidean_division_equations; lia.
Qed.

Lemma isnan_bits s i sig : 0 <= s <= 1 -> 0 <= i < 256 -> 0 <= sig < 2 ^ 23 ->
  isnan (float_bits s i sig) = (i =? 255) && negb (sig =? 0).
Proof.
  intros. unfold isnan. destruct (float_bits_fields s i sig) as (-> & _); [done..|].
  destruct (Z.eqb_spec i 255) as [->|]; simpl.
  - destruct (Z.eqb_spec sig 0) as [->|]; [done|]. apply Z.ltb_lt. lia.
  - apply Z.ltb_ge. lia.
Qed.

(** A mask of [n] bits from [k] on. *)
Lemma land_field a n k : 0 <= n -> 0 <= k ->
  Z.land a ((2 ^ n - 1) * 2 ^ k) = a / 2 ^ k mod 2 ^ n * 2 ^ k.
Proof.
  intros Hn Hk. rewrite <- land_mod, <- Z.shiftr_div_pow2, <- !Z.shiftl_mul_pow2 by lia.
  apply Z.bits_inj'. intros i Hi. rewrite Z.land_spec. destruct (Z.lt_ge_cases i k).
  - rewrite !Z.shiftl_spec_low by lia. apply andb_false_r.
  - rewrite !Z.shiftl_spec, Z.land_spec, Z.shiftr_spec by lia. by replace (i - k + k) with i by lia.
Qed.

(** The bit tests on the table's half. *)
Lemma half_tests h : in_range 16 h ->
  (negb (Z.land h 0x7C00 =? 0x7C00) = (h mod 0x8000 <? 0x7C00)) /\ ((Z.land h 1 =? 1) = Z.odd h).
Proof.
  intros Hh. change (Z.land h 0x7C00) with (Z.land h ((2 ^ 5 - 1) * 2 ^ 10)). change (Z.land h 1) with (Z.land h (2 ^ 1 - 1)).
  rewrite land_field, land_mod by lia. change (2 ^ 1) with 2. rewrite Zmod_odd. split; [|by destruct (Z.odd h)].
  assert (0 <= h / 2 ^ 10 mod 2 ^ 5 < 32 /\ 0 <= h mod 0x8000 - h / 2 ^ 10 mod 2 ^ 5 * 2 ^ 10 < 1024) as [H1 H2].
  { unfold in_range in Hh. Z.to_euclidean_division_equations; lia. }
  destruct (Z.eqb_spec (h / 2 ^ 10 mod 2 ^ 5 * 2 ^ 10) 0x7C00), (Z.ltb_spec (h mod 0x8000) 0x7C00); simpl; lia.
Qed.

(** Round bit and sticky bits against the remainder. *)
Lemma round_bits F sh odd : 0 < sh ->
  negb (Z.land (Z.shiftr F (sh - 1)) 1 =? 0) && (odd || negb (Z.land F (Z.shiftl 1 (sh - 1) - 1) =? 0)) =
  (2 ^ (sh - 1) <? F mod 2 ^ sh) || ((2 ^ (sh - 1) =? F mod 2 ^ sh) && odd).
Proof.
  intros. rewrite Z.shiftl_mul_pow2, Z.mul_1_l, Z.shiftr_div_pow2, land_mod by lia.
  change 1 with (2 ^ 1 - 1) at 2. rewrite land_mod by lia. set (k := sh - 1).
  replace sh with (k + 1) by lia. rewrite Z.pow_add_r by lia. change (2 ^ 1) with 2.
  rewrite Z.rem_mul_r by (pose proof (pow2_pos k ltac:(lia)); lia).
  pose proof (pow2_pos k ltac:(lia)). pose proof (Z.mod_pos_bound F (2 ^ k) ltac:(lia)).
  assert ((F / 2 ^ k) mod 2 = 0 \/ (F / 2 ^ k) mod 2 = 1) as [-> | ->]
    by (pose proof (Z.mod_pos_bound (F / 2 ^ k) 2 ltac:(lia)); lia); simpl.
  - rewrite Z.mul_0_r, Z.add_0_r. destruct (Z.ltb_spec (2 ^ k) (F mod 2 ^ k)); [lia|].
    destruct (Z.eqb_spec (2 ^ k) (F mod 2 ^ k)); [lia|done].
  - rewrite Z.mul_1_r. destruct (Z.eqb_spec (F mod 2 ^ k) 0) as [->|]; simpl.
    + rewrite Z.add_0_l, Z.ltb_irrefl, Z.eqb_refl. by destruct odd.
    + rewrite orb_true_r. destruct (Z.ltb_spec (2 ^ k) (F mod 2 ^ k + 2 ^ k)); [done|lia].
Qed.

(** The result as arithmetic on the fields. *)
Definition half_trunc (i sig : Z) : Z := base i + ((2 ^ 23 + sig) / 2 ^ shift i) mod 1024.
Definition half_mag (i sig : Z) : Z :=
  let h := half_trunc i sig in
  let r := (2 ^ 23 + sig) mod 2 ^ shift i in
  h + b2z ((h <? 0x7c00) && ((2 ^ (shift i - 1) <? r) || ((2 ^ (shift i - 1) =? r) && Z.odd h))).

Lemma shift_pos i : 0 <= i < 256 -> 13 <= shift i <= 25.
Proof. intros. unfold shift. repeat case_match; lia. Qed.

(** Exponent 255 with a fraction is a NaN. *)
Definition number (i sig : Z) : Prop := 0 <= i < 256 /\ 0 <= sig < 2 ^ 23 /\ (i = 255 -> sig = 0).

Lemma half_trunc_range i sig : number i sig -> 0 <= half_trunc i sig <= 0x7c00.
Proof.
  intros (Hi & Hg & Hn). unfold half_trunc, base, shift.
  pose proof (Z.mod_pos_bound ((2 ^ 23 + sig) / 2 ^ shift i) 1024 ltac:(lia)) as Hb. unfold shift in Hb.
  destruct (Z.ltb_spec i 113); [lia|]. destruct (Z.ltb_spec i 143); [lia|].
  destruct (Z.ltb_spec i 102), (Z.ltb_spec i 255); try lia.
  - rewrite Z.div_small by lia. done.
  - rewrite Hn by lia. done.
Qed.

Lemma lor_hidden sig : 0 <= sig < 2 ^ 23 -> Z.lor sig (0x007fffff + 0x1) = 2 ^ 23 + sig.
Proof.
  intros. change (0x007fffff + 0x1) with (Z.shiftl 1 23). rewrite (lor_add sig 1 23) by (unfold in_range; lia). lia.
Qed.

Lemma float_to_half_mag s i sig : 0 <= s <= 1 -> number i sig ->
  float_to_half (float_bits s i sig) = s * 2 ^ 15 + half_mag i sig.
Proof.
  intros Hs (Hi & Hg & Hn). pose proof (half_trunc_range i sig ltac:(done)) as Hh. pose proof (shift_pos i Hi).
  unfold float_to_half. rewrite isnan_bits by done.
  replace ((i =? 255) && negb (sig =? 0)) with false
    by (destruct (Z.eqb_spec i 255); [rewrite Hn by done|]; done).
  destruct (float_bits_fields s i sig) as (_ & E1 & E2 & _); [done..|]. rewrite E1, E2. clear E1 E2.
  destruct (tables_spec s i Hs Hi) as [-> ->]. rewrite lor_hidden by done.
  assert (Z.land (Z.shiftr (2 ^ 23 + sig) (shift i)) 0x03ff = ((2 ^ 23 + sig) / 2 ^ shift i) mod 1024) as ->.
  { rewrite Z.shiftr_div_pow2 by lia. exact (land_mod _ 10 ltac:(lia)). }
  rewrite <- Z.add_assoc. fold (half_trunc i sig). cbv zeta.
  assert (in_range 16 (s * 0x8000 + half_trunc i sig)) as Hr by (unfold in_range; lia).
  rewrite (uw_small 16 (s * 0x8000 + half_trunc i sig)) by done.
  destruct (half_tests _ Hr) as [-> ->].
  assert ((s * 0x8000 + half_trunc i sig) mod 0x8000 = half_trunc i sig) as ->
    by (symmetry; apply (Z.mod_unique_pos _ _ s); lia).
  assert (Z.odd (s * 0x8000 + half_trunc i sig) = Z.odd (half_trunc i sig)) as ->
    by (rewrite Z.odd_add, Z.odd_mul, andb_false_r; by destruct (Z.odd _)).
  pose proof (round_bits (2 ^ 23 + sig) (shift i) (Z.odd (half_trunc i sig)) ltac:(lia)) as E.
  unfold half_mag. cbv zeta. rewrite <- E. clear E.
  destruct (negb (Z.land (Z.shiftr (2 ^ 23 + sig) (shift i - 1)) 1 =? 0)); simpl;
    [|rewrite andb_false_r; simpl; lia].
  destruct (Z.ltb_spec (half_trunc i sig) 0x7c00); simpl; [|lia].
  case_match; simpl; [|lia]. rewrite uw_small by (unfold in_range; lia). lia.
Qed.

(** The magnitude of a [float] in units of 2^-149. *)
Lemma value_float i sig : number i sig ->
  value 23 (i * 2 ^ 23 + sig) = if i =? 0 then sig else (2 ^ 23 + sig) * 2 ^ (i - 1).
Proof. intros (? & ? & ?). apply value_eq; lia. Qed.

Lemma half_mag_nearest i sig : number i sig ->
  nearest 10 (2 ^ 125) 0x7c00 (value 23 (i * 2 ^ 23 + sig)) (half_mag i sig).
Proof.
  intros Hn. pose proof Hn as (Hi & Hg & _). rewrite value_float by done.
  destruct (Z.lt_ge_cases i 102) as [H1|H1].
  { assert (half_mag i sig = 0) as ->.
    { unfold half_mag, half_trunc, base, shift. destruct (Z.ltb_spec i 113), (Z.ltb_spec i 102); try lia.
      rewrite Z.div_small, (Z.mod_small (2 ^ 23 + sig)) by lia. change (0 mod 1024) with 0.
      destruct (Z.ltb_spec (2 ^ (25 - 1)) (2 ^ 23 + sig)); [lia|].
      destruct (Z.eqb_spec (2 ^ (25 - 1)) (2 ^ 23 + sig)); [lia|done]. }
    constructor; [lia|by left|right; left]. change (2 ^ 125 * mid2 10 0) with (2 ^ 125).
    destruct (Z.eqb_spec i 0); [lia|].
    assert ((2 ^ 23 + sig) * 2 ^ (i - 1) < 2 ^ 24 * 2 ^ 100); [|lia].
    apply Z.lt_le_trans with (2 ^ 24 * 2 ^ (i - 1)).
    - apply Z.mul_lt_mono_pos_r; [apply pow2_pos; lia|lia].
    - apply Z.mul_le_mono_nonneg_l; [done|]. apply Z.pow_le_mono_r; lia. }
  destruct (Z.eqb_spec i 0); [lia|].
  destruct (Z.lt_ge_cases i 143) as [H2|H2].
  - assert (half_trunc i sig < 0x7c00 /\
            value 10 (half_trunc i sig) = (2 ^ 23 + sig) / 2 ^ shift i * 2 ^ (Z.max i 113 - 113) /\
            ulp 10 (half_trunc i sig) = 2 ^ (Z.max i 113 - 113) /\ shift i = 126 - Z.min i 113) as (Ht & Hv & Hw & Hs).
    { unfold half_trunc, base, shift, value, ulp. destruct (Z.ltb_spec i 102); [lia|].
      destruct (Z.ltb_spec i 113).
      - assert (0 <= (2 ^ 23 + sig) / 2 ^ (126 - i) < 1024) as Hq.
        { split; [apply Z.div_pos; lia|]. apply Z.div_lt_upper_bound; [lia|].
          pose proof (Z.pow_le_mono_r 2 14 (126 - i) ltac:(lia) ltac:(lia)). lia. }
        rewrite !Z.add_0_l, (Z.mod_small ((2 ^ 23 + sig) / _)) by lia. rewrite Z.max_r, Z.min_l by lia.
        change (2 ^ 10) with 1024. rewrite (Z.div_small _ 1024) by lia.
        destruct (Z.ltb_spec ((2 ^ 23 + sig) / 2 ^ (126 - i)) 1024); [|lia].
        split_and!; try done; lia.
      - destruct (Z.ltb_spec i 143); [|lia].
        assert (1024 <= (2 ^ 23 + sig) / 2 ^ 13 < 2048) as Hq by (Z.to_euclidean_division_equations; lia).
        assert (((2 ^ 23 + sig) / 2 ^ 13) mod 1024 = (2 ^ 23 + sig) / 2 ^ 13 - 1024) as ->
          by (symmetry; apply (Z.mod_unique_pos _ _ 1); lia).
        set (q := (2 ^ 23 + sig) / 2 ^ 13) in *. change (2 ^ 10) with 1024.
        assert (((i - 112) * 1024 + (q - 1024)) / 1024 = i - 112) as ->
          by (symmetry; apply (Z.div_unique_pos _ _ _ (q - 1024)); lia).
        assert (((i - 112) * 1024 + (q - 1024)) mod 1024 = q - 1024) as ->
          by (symmetry; apply (Z.mod_unique_pos _ _ (i - 112)); lia).
        destruct (Z.ltb_spec ((i - 112) * 1024 + (q - 1024)) 1024); [lia|].
        rewrite !Z.max_l, Z.min_r by lia. split_and!; [lia| |f_equal; lia|lia].
        replace (i - 112 - 1) with (i - 113) by lia. f_equal. lia. }
    unfold half_mag. cbv zeta. destruct (Z.ltb_spec (half_trunc i sig) 0x7c00); [|lia]. rewrite andb_true_l.
    apply (nearest_scaled 10 ltac:(lia) (2 ^ 125) 0x7c00 ltac:(lia) (2 ^ 23 + sig) (shift i) (2 ^ (i - 1)) (2 ^ (Z.max i 113 - 113)));
      [apply pow2_pos; lia|rewrite Hs; lia|pose proof (half_trunc_range i sig Hn); lia| |done|done].
    rewrite Hs, <- !Z.pow_add_r by lia. f_equal. lia.
  - assert (half_trunc i sig = 0x7c00) as E.
    { pose proof (half_trunc_range i sig Hn) as Hr. unfold half_trunc, base in *.
      destruct (Z.ltb_spec i 113), (Z.ltb_spec i 143); try lia.
      pose proof (Z.mod_pos_bound ((2 ^ 23 + sig) / 2 ^ shift i) 1024 ltac:(lia)). lia. }
    unfold half_mag. cbv zeta. rewrite E. simpl. rewrite Z.add_0_r. apply nearest_top; [lia|lia|lia|].
    change (2 ^ 125 * value 10 0x7c00) with (2 ^ 23 * 2 ^ 142).
    apply Z.mul_le_mono_nonneg; [done|lia|done|]. apply Z.pow_le_mono_r; lia.
Qed.

(** ** [double] to [float] *)

Definition double_bits (s e sig : Z) : Z := s * 2 ^ 63 + e * 2 ^ 52 + sig.
Definition number64 (e sig : Z) : Prop := 0 <= e < 2048 /\ 0 <= sig < 2 ^ 52 /\ (e = 2047 -> sig = 0).

Lemma double_bits_fields s e sig : 0 <= s <= 1 -> 0 <= e < 2048 -> 0 <= sig < 2 ^ 52 ->
  Z.land (double_bits s e sig) 0x7fffffffffffffff = e * 2 ^ 52 + sig /\
  Z.shiftr (double_bits s e sig) 63 = s /\
  Z.shiftr (e * 2 ^ 52 + sig) 52 = e /\ Z.land (e * 2 ^ 52 + sig) 0xfffffffffffff = sig.
Proof.
  intros Hs He Hg. unfold double_bits.
  change 0x7fffffffffffffff with (2 ^ 63 - 1). change 0xfffffffffffff with (2 ^ 52 - 1).
  rewrite !land_mod, !Z.shiftr_div_pow2 by lia. split_and!; symmetry.
  - apply (Z.mod_unique_pos _ _ s); lia.
  - apply (Z.div_unique_pos _ _ _ (e * 2 ^ 52 + sig)); lia.
  - apply (Z.div_unique_pos _ _ _ sig); lia.
  - apply (Z.mod_unique_pos _ _ e); lia.
Qed.

Lemma double_bits_split d : in_range 64 d ->
  exists s e sig, d = double_bits s e sig /\ 0 <= s <= 1 /\ 0 <= e < 2048 /\ 0 <= sig < 2 ^ 52.
Proof.
  intros [H1 H2]. exists (d / 2 ^ 63), (d / 2 ^ 52 mod 2 ^ 11), (d mod 2 ^ 52). unfold double_bits.
  split; [|split_and!; Z.to_euclidean_division_equations; lia].
  Z.to_euclidean_division_equations; lia.
Qed.

Lemma isnan64_bits s e sig : 0 <= s <= 1 -> 0 <= e < 2048 -> 0 <= sig < 2 ^ 52 ->
  isnan64 (double_bits s e sig) = (e =? 2047) && negb (sig =? 0).
Proof.
  intros. unfold isnan64. destruct (double_bits_fields s e sig) as (-> & _); [done..|].
  destruct (Z.eqb_spec e 2047) as [->|]; simpl.
  - destruct (Z.eqb_spec sig 0) as [->|]; [done|]. apply Z.ltb_lt. lia.
  - apply Z.ltb_ge. lia.
Qed.

Lemma shift_rne_eq m k : 0 < k ->
  shift_rne m k = m / 2 ^ k + b2z ((2 ^ (k - 1) <? m mod 2 ^ k) || ((2 ^ (k - 1) =? m mod 2 ^ k) && Z.odd (m / 2 ^ k))).
Proof.
  intros. unfold shift_rne. rewrite Z.shiftr_div_pow2, Z.shiftl_mul_pow2 by lia.
  replace (m - m / 2 ^ k * 2 ^ k) with (m mod 2 ^ k) by (rewrite Z.mod_eq by (pose proof (pow2_pos k); lia); lia).
  case_match; simpl; lia.
Qed.

(** The magnitude [double_to_float] computes. *)
Definition float_code (e sig : Z) : Z :=
  let code :=
    if e <? 897 then shift_rne (if e =? 0 then sig else 2 ^ 52 + sig) (29 + 897 - Z.max e 1)
    else (e - 897) * 2 ^ 23 + shift_rne (2 ^ 52 + sig) 29 in
  Z.min code 0x7f800000.

Lemma double_to_float_code s e sig : 0 <= s <= 1 -> number64 e sig ->
  double_to_float (double_bits s e sig) = s * 2 ^ 31 + float_code e sig.
Proof.
  intros Hs (He & Hg & Hn). unfold double_to_float. rewrite isnan64_bits by done.
  replace ((e =? 2047) && negb (sig =? 0)) with false
    by (destruct (Z.eqb_spec e 2047); [rewrite Hn by done|]; done).
  destruct (double_bits_fields s e sig) as (-> & -> & -> & ->); [done..|].
  rewrite Z.shiftl_mul_pow2 by lia. done.
Qed.

Lemma float_code_nearest e sig : number64 e sig ->
  nearest 23 (2 ^ 925) 0x7f800000 (value 52 (e * 2 ^ 52 + sig)) (float_code e sig).
Proof.
  intros (He & Hg & Hn). rewrite value_eq by lia. unfold float_code. cbv zeta.
  destruct (Z.ltb_spec e 897) as [H1|H1].
  - set (F := if e =? 0 then sig else 2 ^ 52 + sig). set (k := 29 + 897 - Z.max e 1).
    assert (0 <= F < 2 ^ 53) as HF by (unfold F; destruct (Z.eqb_spec e 0); lia).
    assert (30 <= k <= 925) as Hk by lia.
    assert (0 <= F / 2 ^ k < 2 ^ 23) as Hq.
    { split; [apply Z.div_pos; [lia|apply pow2_pos; lia]|]. apply Z.div_lt_upper_bound; [apply pow2_pos; lia|].
      apply Z.lt_le_trans with (2 ^ 30 * 2 ^ 23); [lia|]. apply Z.mul_le_mono_nonneg_r; [lia|].
      apply Z.pow_le_mono_r; lia. }
    rewrite shift_rne_eq by lia.
    replace (if e =? 0 then sig else (2 ^ 52 + sig) * 2 ^ (e - 1)) with (F * 2 ^ (Z.max e 1 - 1)).
    2:{ unfold F. destruct (Z.eqb_spec e 0) as [->|]; [change (2 ^ (0 `max` 1 - 1)) with 1; lia|]. by rewrite Z.max_l by lia. }
    rewrite Z.min_l by (destruct ((_ <? _) || _); simpl b2z; lia).
    apply (nearest_scaled 23 ltac:(lia) (2 ^ 925) 0x7f800000 ltac:(done) F k (2 ^ (Z.max e 1 - 1)) 1).
    + apply pow2_pos. lia.
    + lia.
    + lia.
    + rewrite Z.mul_1_r, <- Z.pow_add_r by lia. f_equal. lia.
    + unfold value. destruct (Z.ltb_spec (F / 2 ^ k) (2 ^ 23)); lia.
    + unfold ulp. by rewrite (Z.div_small (F / 2 ^ k)) by done.
  - destruct (Z.eqb_spec e 0); [lia|]. rewrite shift_rne_eq, Z.add_assoc by lia.
    set (F := 2 ^ 52 + sig). assert (2 ^ 23 <= F / 2 ^ 29 < 2 ^ 24) as Hq by (unfold F; Z.to_euclidean_division_equations; lia).
    set (q := F / 2 ^ 29) in *. set (h := (e - 897) * 2 ^ 23 + q).
    replace (Z.odd q) with (Z.odd h)
      by (unfold h; rewrite Z.odd_add, Z.odd_mul; change (Z.odd (2 ^ 23)) with false; by rewrite andb_false_r, xorb_false_l).
    assert (h = (e - 896) * 2 ^ 23 + (q - 2 ^ 23)) as Eh by (unfold h; lia).
    destruct (Z.lt_ge_cases h 0x7f800000) as [H2|H2].
    + rewrite Z.min_l by (destruct ((_ <? _) || _); simpl b2z; lia).
      apply (nearest_scaled 23 ltac:(lia) (2 ^ 925) 0x7f800000 ltac:(done) F 29 (2 ^ (e - 1)) (2 ^ (e - 897))).
      * apply pow2_pos. lia.
      * lia.
      * lia.
      * rewrite <- !Z.pow_add_r by lia. f_equal. lia.
      * fold q. rewrite Eh, value_eq by lia. destruct (Z.eqb_spec (e - 896) 0); [lia|].
        f_equal; [lia|f_equal; lia].
      * unfold ulp. assert (h / 2 ^ 23 = e - 896) as ->; [|f_equal; lia].
        symmetry. apply (Z.div_unique_pos _ _ _ (q - 2 ^ 23)); lia.
    + rewrite Z.min_r by (destruct ((_ <? _) || _); simpl b2z; lia).
      apply nearest_top; [lia|done|lia|].
      change (2 ^ 925 * value 23 0x7f800000) with (2 ^ 52 * 2 ^ 1150).
      apply Z.mul_le_mono_nonneg; [done|unfold F; lia|apply Z.pow_nonneg; lia|]. apply Z.pow_le_mono_r; lia.
Qed.

(** ** Rounding in two steps

    A quantity [x] rounded to a float [t] determines its rounding to a coarser
    format, unless [t] is half-way between two numbers of that format: then
    the side of [t] on which [x] lies does. The numbers of the coarser format
    from [hmin] on are the floats with [n] low bits zero, [B] codes later. *)
Section Through.
Context (p S S9 top B n hmin : Z).
Context (Hp : 0 <= p) (HS : 0 < S) (HS9 : 0 < S9) (Hn : 1 < n) (HB : 0 <= B) (Hmin : 0 <= hmin).
Context (Htop9 : (top + B) * 2 ^ n <= 0x7f800000).
Context (link : forall h, hmin <= h < top -> S * mid2 p h = 2 * S9 * value 23 ((h + B) * 2 ^ n + 2 ^ (n - 1))).
Context (edge : hmin = 0 \/ S * mid2 p (hmin - 1) < 2 * S9 * value 23 ((hmin + B) * 2 ^ n - 1)).

Lemma float_above x t : nearest 23 S9 0x7f800000 x t -> t < 0x7f800000 -> 2 * x < 2 * S9 * value 23 (t + 1).
Proof.
  intros [Hr _ Ha] Ht. unfold mid2 in Ha. pose proof (value_lt 23 ltac:(lia) t (t + 1) ltac:(lia)).
  destruct Ha as [|[|[Ha _]]]; [lia|nia|nia].
Qed.

Lemma float_below x t : nearest 23 S9 0x7f800000 x t -> 0 < t -> 2 * S9 * value 23 (t - 1) < 2 * x.
Proof.
  intros [Hr Hb _] Ht. unfold mid2 in Hb. replace (t - 1 + 1) with t in Hb by lia.
  pose proof (value_lt 23 ltac:(lia) (t - 1) t ltac:(lia)).
  destruct Hb as [|[|[Hb _]]]; [lia|nia|nia].
Qed.

Lemma scale_le a b : 0 <= a <= b -> 2 * S9 * value 23 a <= 2 * S9 * value 23 b.
Proof. intros. pose proof (value_le 23 ltac:(lia) a b ltac:(lia)). nia. Qed.
Lemma scale_lt a b : 0 <= a < b -> 2 * S9 * value 23 a < 2 * S9 * value 23 b.
Proof. intros. pose proof (value_lt 23 ltac:(lia) a b ltac:(lia)). nia. Qed.

Lemma half_gap : 2 ^ n = 2 * 2 ^ (n - 1) /\ 2 <= 2 ^ (n - 1).
Proof.
  split; [replace n with (Z.succ (n - 1)) at 1 by lia; apply Z.pow_succ_r; lia|].
  change 2 with (2 ^ 1) at 1. apply Z.pow_le_mono_r; lia.
Qed.

(** The midpoint below [h] is below all floats from just before [h] on. *)
Lemma mid_before h t : hmin <= h <= top -> h <> 0 -> (h + B) * 2 ^ n - 1 <= t ->
  S * mid2 p (h - 1) < 2 * S9 * value 23 t.
Proof.
  intros Hh Hz Ht. destruct half_gap as [E Hg].
  destruct (Z.eq_dec h hmin) as [->|].
  - destruct edge as [|He]; [lia|]. pose proof (scale_le ((hmin + B) * 2 ^ n - 1) t ltac:(nia)). lia.
  - rewrite link by lia. apply scale_lt. nia.
Qed.

Lemma mid_after h t : hmin <= h < top -> 0 <= t <= (h + B) * 2 ^ n ->
  2 * S9 * value 23 t < S * mid2 p h.
Proof. intros Hh Ht. destruct half_gap as [E Hg]. rewrite link by lia. apply scale_lt. lia. Qed.

Lemma through x t h low : nearest 23 S9 0x7f800000 x t ->
  hmin <= h < top -> 0 <= low < 2 ^ n -> t = (h + B) * 2 ^ n + low ->
  (low < 2 ^ (n - 1) \/ low = 2 ^ (n - 1) /\ (x < S9 * value 23 t \/ x = S9 * value 23 t /\ Z.even h = true) ->
   nearest p S top x h) /\
  (2 ^ (n - 1) < low \/ low = 2 ^ (n - 1) /\ (S9 * value 23 t < x \/ x = S9 * value 23 t /\ Z.even h = false) ->
   nearest p S top x (h + 1)).
Proof.
  intros Hx Hh Hlow Et. destruct half_gap as [E Hg]. pose proof Hx as [Hr _ _].
  assert (0 <= (h + B) * 2 ^ n) as Hc by nia.
  assert ((h + 1 + B) * 2 ^ n = (h + B) * 2 ^ n + 2 ^ n) as Hc1 by ring.
  assert ((h + 1 + B) * 2 ^ n <= (top + B) * 2 ^ n) as Hc2 by (apply Z.mul_le_mono_nonneg_r; lia).
  pose proof (float_above x t Hx ltac:(lia)) as Ha. pose proof (link h ltac:(lia)) as L.
  split; intros Hcase.
  - constructor; [lia| |].
    + destruct (Z.eq_dec h 0); [by left|right; left].
      destruct (Z.eq_dec t 0) as [->|]; [nia|].
      pose proof (float_below x t Hx ltac:(lia)). pose proof (mid_before h (t - 1) ltac:(lia) ltac:(lia) ltac:(lia)). lia.
    + right. destruct Hcase as [Hl|[El Hs]].
      * left. pose proof (scale_le (t + 1) ((h + B) * 2 ^ n + 2 ^ (n - 1)) ltac:(lia)). lia.
      * rewrite El in Et. rewrite <- Et in L. destruct Hs as [|[? ?]]; [left; lia|right; split; [lia|done]].
  - constructor; [lia| |].
    + right. replace (h + 1 - 1) with h by lia. destruct Hcase as [Hl|[El Hs]].
      * left. pose proof (float_below x t Hx ltac:(lia)).
        pose proof (scale_le ((h + B) * 2 ^ n + 2 ^ (n - 1)) (t - 1) ltac:(lia)). lia.
      * rewrite El in Et. rewrite <- Et in L. destruct Hs as [|[? He]]; [left; lia|right; split; [lia|]].
        by rewrite Z.even_add, He.
    + destruct (Z.eq_dec (h + 1) top); [by left|right; left].
      pose proof (mid_after (h + 1) (t + 1) ltac:(lia) ltac:(lia)). lia.
Qed.

Lemma through_top x t : nearest 23 S9 0x7f800000 x t -> hmin <= top -> 0 < top ->
  (top + B) * 2 ^ n <= t -> nearest p S top x top.
Proof.
  intros Hx Hh Hpos Ht. constructor; [lia| |by left]. right. left.
  assert (0 < (top + B) * 2 ^ n) by (pose proof half_gap; nia).
  pose proof (float_below x t Hx ltac:(lia)). pose proof (mid_before top (t - 1) ltac:(lia) ltac:(lia) ltac:(lia)). lia.
Qed.
End Through.

(** ** [double_to_half] *)

(** From the exponent of the least normal half on, a half is the float's code
    shifted. *)
Definition normal_half (t : Z) : Z :=
  Z.min 0x7c00 (t / 2 ^ 13 - 0x1c000 +
    b2z ((2 ^ 12 <? t mod 2 ^ 13) || ((2 ^ 12 =? t mod 2 ^ 13) && Z.odd (t / 2 ^ 13)))).

Lemma half_mag_normal i sig : number i sig -> 113 <= i -> half_mag i sig = normal_half (i * 2 ^ 23 + sig).
Proof.
  intros Hn Hi. pose proof Hn as (Hi' & Hg & Hz). unfold normal_half.
  assert ((i * 2 ^ 23 + sig) / 2 ^ 13 = i * 1024 + sig / 2 ^ 13) as Ed.
  { replace (i * 2 ^ 23 + sig) with (sig + i * 1024 * 2 ^ 13) by lia. rewrite Z.div_add by lia. lia. }
  assert ((i * 2 ^ 23 + sig) mod 2 ^ 13 = sig mod 2 ^ 13) as Em.
  { replace (i * 2 ^ 23 + sig) with (sig + i * 1024 * 2 ^ 13) by lia. by rewrite Z.mod_add by lia. }
  rewrite Ed, Em. assert (0 <= sig / 2 ^ 13 < 1024) as Hq by (Z.to_euclidean_division_equations; lia).
  destruct (Z.lt_ge_cases i 143) as [H1|H1].
  - assert (half_trunc i sig = i * 1024 + sig / 2 ^ 13 - 0x1c000) as Et.
    { unfold half_trunc, base, shift. destruct (Z.ltb_spec i 113), (Z.ltb_spec i 143), (Z.ltb_spec i 102); try lia.
      replace (2 ^ 23 + sig) with (sig + 1024 * 2 ^ 13) by lia. rewrite Z.div_add by lia.
      replace (sig / 2 ^ 13 + 1024) with (sig / 2 ^ 13 + 1 * 1024) by lia. rewrite Z.mod_add, Z.mod_small by lia. lia. }
    unfold half_mag. cbv zeta. rewrite Et.
    assert (shift i = 13) as -> by (unfold shift; destruct (Z.ltb_spec i 113), (Z.ltb_spec i 143), (Z.ltb_spec i 102); lia).
    destruct (Z.ltb_spec (i * 1024 + sig / 2 ^ 13 - 0x1c000) 0x7c00); [|lia]. rewrite andb_true_l.
    assert ((2 ^ 23 + sig) mod 2 ^ 13 = sig mod 2 ^ 13) as ->.
    { replace (2 ^ 23 + sig) with (sig + 1024 * 2 ^ 13) by lia. by rewrite Z.mod_add by lia. }
    assert (Z.odd (i * 1024 + sig / 2 ^ 13 - 0x1c000) = Z.odd (i * 1024 + sig / 2 ^ 13)) as ->
      by (rewrite Z.odd_sub; by rewrite xorb_false_r).
    change (13 - 1) with 12. destruct ((2 ^ 12 <? _) || _); simpl b2z; lia.
  - assert (half_trunc i sig = 0x7c00) as Et.
    { pose proof (half_trunc_range i sig Hn) as Hr. unfold half_trunc, base in *.
      destruct (Z.ltb_spec i 113), (Z.ltb_spec i 143); try lia.
      pose proof (Z.mod_pos_bound ((2 ^ 23 + sig) / 2 ^ shift i) 1024 ltac:(lia)). lia. }
    unfold half_mag. cbv zeta. rewrite Et. simpl. destruct ((2 ^ 12 <? _) || _); simpl b2z; lia.
Qed.

Lemma float_to_half_normal s t : 0 <= s <= 1 -> 0x38800000 <= t <= 0x7f800000 ->
  float_to_half (s * 2 ^ 31 + t) = s * 2 ^ 15 + normal_half t.
Proof.
  intros Hs Ht.
  assert (t = t / 2 ^ 23 * 2 ^ 23 + t mod 2 ^ 23) as E by (Z.to_euclidean_division_equations; lia).
  assert (113 <= t / 2 ^ 23 <= 255) by (split; [apply Z.div_le_lower_bound|apply Z.div_le_upper_bound]; lia).
  assert (number (t / 2 ^ 23) (t mod 2 ^ 23)) as Hn by (split_and!; Z.to_euclidean_division_equations; lia).
  rewrite E at 2. rewrite <- half_mag_normal by (done || lia). rewrite <- float_to_half_mag by done.
  unfold float_bits. f_equal. lia.
Qed.

Lemma link_half h : 0x400 <= h < 0x7c00 ->
  2 ^ 1050 * mid2 10 h = 2 * 2 ^ 925 * value 23 ((h + 0x1c000) * 2 ^ 13 + 2 ^ (13 - 1)).
Proof.
  intros Hh. unfold mid2. rewrite value_succ by lia. unfold ulp.
  assert (h = h / 1024 * 2 ^ 10 + h mod 1024) as E by (Z.to_euclidean_division_equations; lia).
  assert (1 <= h / 1024 < 31) by (split; [apply Z.div_le_lower_bound|apply Z.div_lt_upper_bound]; lia).
  pose proof (Z.mod_pos_bound h 1024 ltac:(lia)).
  change (h / 2 ^ 10) with (h / 1024). set (e := h / 1024) in *. set (m := h mod 1024) in *.
  rewrite Z.max_l by lia. rewrite E, value_eq by lia. destruct (Z.eqb_spec e 0); [lia|].
  replace ((e * 2 ^ 10 + m + 0x1c000) * 2 ^ 13 + 2 ^ (13 - 1)) with ((e + 112) * 2 ^ 23 + (m * 2 ^ 13 + 2 ^ 12)) by lia.
  rewrite value_eq by lia. destruct (Z.eqb_spec (e + 112) 0); [lia|].
  replace (2 ^ (e + 112 - 1)) with (2 ^ 112 * 2 ^ (e - 1)) by (rewrite <- Z.pow_add_r by lia; f_equal; lia).
  set (w := 2 ^ (e - 1)).
  replace (2 ^ 1050) with (2 ^ 925 * 2 ^ 112 * 2 ^ 13) by (rewrite <- !Z.pow_add_r by lia; done).
  replace (2 ^ 10) with 1024 by done. change (2 ^ 23) with (1024 * 2 ^ 13). change (2 ^ 13) with (2 * 2 ^ 12). ring.
Qed.

Lemma edge_half : 2 ^ 1050 * mid2 10 (0x400 - 1) < 2 * 2 ^ 925 * value 23 ((0x400 + 0x1c000) * 2 ^ 13 - 1).
Proof. apply Z.ltb_lt. vm_compute. reflexivity. Qed.

Lemma signed_mag s t : 0 <= s <= 1 -> 0 <= t < 2 ^ 31 ->
  Z.land (s * 2 ^ 31 + t) 0x7fffffff = t /\ isnan (s * 2 ^ 31 + t) = (0x7f800000 <? t) /\
  forall n, 0 <= n <= 31 -> Z.land (s * 2 ^ 31 + t) (2 ^ n - 1) = t mod 2 ^ n.
Proof.
  intros Hs Ht. assert (forall n, 0 <= n <= 31 -> Z.land (s * 2 ^ 31 + t) (2 ^ n - 1) = t mod 2 ^ n) as H.
  { intros n Hn. rewrite land_mod by lia. replace 31 with (31 - n + n) by lia.
    rewrite Z.pow_add_r, Z.mul_assoc, Z.add_comm by lia. apply Z.mod_add. pose proof (pow2_pos n). lia. }
  assert (Z.land (s * 2 ^ 31 + t) 0x7fffffff = t) as E.
  { change 0x7fffffff with (2 ^ 31 - 1). rewrite H by lia. apply Z.mod_small. lia. }
  split_and!; [done| |done]. unfold isnan. by rewrite E.
Qed.

(** The correction of a [float] [t] that stands for [x]: one unit in the last
    place towards [x]. *)
Definition toward (x t : Z) : Z := t + (b2z (2 ^ 925 * value 23 t <? x) - b2z (x <? 2 ^ 925 * value 23 t)).

Lemma adjusted s t e sig : 0 <= s <= 1 -> 0 < t < 0x7f800000 -> number64 e sig ->
  let temp := s * 2 ^ 31 + t in let param := double_bits s e sig in
  u32 (temp + (flt (fabs32 temp) (fabs64 param) - flt (fabs64 param) (fabs32 temp))) =
  s * 2 ^ 31 + toward (value 52 (e * 2 ^ 52 + sig)) t.
Proof.
  intros Hs Ht (He & Hg & Hn). cbv zeta. unfold fabs32, fabs64.
  destruct (signed_mag s t Hs ltac:(lia)) as (-> & -> & _).
  destruct (double_bits_fields s e sig Hs He Hg) as (-> & _). rewrite isnan64_bits by done.
  replace ((e =? 2047) && negb (sig =? 0)) with false
    by (destruct (Z.eqb_spec e 2047); [rewrite Hn by done|]; done).
  destruct (Z.ltb_spec 0x7f800000 t); [lia|]. destruct (Z.eqb_spec t 0x7f800000); [lia|]. unfold flt, toward.
  rewrite (Z.mul_comm (value 23 t)). rewrite Z.add_assoc. apply uw_small. unfold in_range.
  destruct (Z.ltb_spec (2 ^ 925 * value 23 t) (value 52 (e * 2 ^ 52 + sig))),
    (Z.ltb_spec (value 52 (e * 2 ^ 52 + sig)) (2 ^ 925 * value 23 t)); simpl b2z; lia.
Qed.

Lemma double_to_half_nearest s e sig : 0 <= s <= 1 -> number64 e sig -> 0x38800000 <= float_code e sig ->
  exists h, double_to_half (double_bits s e sig) = s * 2 ^ 15 + h /\
            nearest 10 (2 ^ 1050) 0x7c00 (value 52 (e * 2 ^ 52 + sig)) h.
Proof.
  intros Hs Hd Ht. pose proof (float_code_nearest e sig Hd) as Hx. pose proof Hx as [Hr _ _].
  unfold double_to_half. rewrite double_to_float_code by done. set (t := float_code e sig) in *. cbv zeta.
  destruct (signed_mag s t Hs ltac:(lia)) as (-> & _ & Hland).
  destruct (Z.ltb_spec t 0x38800000); [lia|].
  change 0x1fff with (2 ^ 13 - 1). rewrite (Hland 13) by lia.
  pose proof (fun h low : Z => through 10 (2 ^ 1050) (2 ^ 925) 0x7c00 0x1c000 13 0x400 ltac:(done) ltac:(done) ltac:(done)
    ltac:(done) ltac:(done) link_half (or_intror edge_half) _ t h low Hx) as Hth.
  assert (t = t / 2 ^ 13 * 2 ^ 13 + t mod 2 ^ 13) as Et by (Z.to_euclidean_division_equations; lia).
  pose proof (Z.mod_pos_bound t (2 ^ 13) ltac:(lia)) as Hlow.
  assert (0x1c400 <= t / 2 ^ 13) by (apply Z.div_le_lower_bound; lia).
  set (q := t / 2 ^ 13) in *. set (low := t mod 2 ^ 13) in *. set (x := value 52 (e * 2 ^ 52 + sig)) in *.
  assert (forall t', t' / 2 ^ 13 = q -> 0x38800000 <= t' <= 0x7f800000 ->
    float_to_half (s * 2 ^ 31 + t') = s * 2 ^ 15 + Z.min 0x7c00 (q - 0x1c000 +
      b2z ((2 ^ 12 <? t' mod 2 ^ 13) || ((2 ^ 12 =? t' mod 2 ^ 13) && Z.odd q)))) as Hf.
  { intros t' Eq Hr'. rewrite float_to_half_normal by done. unfold normal_half. by rewrite Eq. }
  assert (Z.even (q - 0x1c000) = negb (Z.odd q)) as Heven
    by (rewrite Z.even_sub, <- Z.negb_odd; by destruct (Z.odd q)).
  destruct (Z.lt_ge_cases (q - 0x1c000) 0x7c00) as [Hq|Hq].
  2:{ assert (nearest 10 (2 ^ 1050) 0x7c00 x 0x7c00) as Hinf.
      { apply (through_top 10 (2 ^ 1050) (2 ^ 925) 0x7c00 0x1c000 13 0x400 ltac:(done) ltac:(done) ltac:(done)
          ltac:(done) ltac:(done) link_half (or_intror edge_half) _ t Hx); lia. }
      exists 0x7c00. split; [|done]. destruct (Z.eqb_spec low 0x1000) as [El|El].
      - rewrite adjusted by (done || lia). fold x. rewrite Hf.
        + f_equal. destruct ((2 ^ 12 <? _) || _); simpl b2z; lia.
        + unfold toward. symmetry. apply (Z.div_unique_pos _ _ _ (low + (toward x t - t)));
            unfold toward; destruct (_ <? x), (x <? _); simpl b2z; lia.
        + unfold toward. destruct (_ <? x), (x <? _); simpl b2z; lia.
      - rewrite Hf by (done || lia). f_equal. destruct ((2 ^ 12 <? _) || _); simpl b2z; lia. }
  destruct (Hth (q - 0x1c000) low ltac:(lia) ltac:(lia) ltac:(lia)) as [Hdown Hup]. clear Hth.
  destruct (Z.eqb_spec low 0x1000) as [El|El].
  - rewrite adjusted by (done || lia). fold x.
    rewrite Hf.
    2:{ unfold toward. symmetry. apply (Z.div_unique_pos _ _ _ (low + (toward x t - t)));
          unfold toward; destruct (_ <? x), (x <? _); simpl b2z; lia. }
    2:{ unfold toward. destruct (_ <? x), (x <? _); simpl b2z; lia. }
    eexists. split; [done|].
    assert (toward x t mod 2 ^ 13 = 0x1000 + (toward x t - t)) as ->.
    { symmetry. apply (Z.mod_unique_pos _ _ q); unfold toward; destruct (_ <? x), (x <? _); simpl b2z; lia. }
    unfold toward. destruct (Z.ltb_spec (2 ^ 925 * value 23 t) x), (Z.ltb_spec x (2 ^ 925 * value 23 t)); try lia; simpl b2z.
    + replace (0x1000 + (t + (1 - 0) - t)) with 0x1001 by lia.
      change ((2 ^ 12 <? 0x1001) || ((2 ^ 12 =? 0x1001) && Z.odd q)) with true. simpl b2z.
      rewrite Z.min_r by lia. apply Hup. right. split; [done|]. by left.
    + replace (0x1000 + (t + (0 - 1) - t)) with 0xfff by lia.
      change ((2 ^ 12 <? 0xfff) || ((2 ^ 12 =? 0xfff) && Z.odd q)) with false. simpl b2z.
      rewrite Z.min_r by lia. rewrite Z.add_0_r. apply Hdown. right. split; [done|]. by left.
    + replace (0x1000 + (t + (0 - 0) - t)) with 0x1000 by lia.
      change ((2 ^ 12 <? 0x1000) || ((2 ^ 12 =? 0x1000) && Z.odd q)) with (Z.odd q).
      destruct (Z.odd q) eqn:Ho; simpl b2z; rewrite Z.min_r by lia.
      * apply Hup. right. split; [done|]. right. split; [lia|]. by rewrite Heven.
      * rewrite Z.add_0_r. apply Hdown. right. split; [done|]. right. split; [lia|]. by rewrite Heven.
  - rewrite Hf by (done || lia). eexists. split; [done|]. fold low.
    destruct (Z.ltb_spec (2 ^ 12) low); cbn [orb andb b2z]; [rewrite Z.min_r by lia; apply Hup; by left|].
    destruct (Z.eqb_spec (2 ^ 12) low); [lia|]. cbn [orb andb b2z]. rewrite Z.min_r by lia. rewrite Z.add_0_r.
    apply Hdown. left. change (2 ^ (13 - 1)) with (2 ^ 12). lia.
Qed.

(** ** bfloat16 *)

Definition bfloat_mag (t : Z) : Z :=
  t / 2 ^ 16 + b2z ((2 ^ 15 <? t mod 2 ^ 16) || ((2 ^ 15 =? t mod 2 ^ 16) && Z.odd (t / 2 ^ 16))).

Lemma float_to_bfloat_mag s t : 0 <= s <= 1 -> 0 <= t <= 0x7f800000 ->
  float_to_bfloat (s * 2 ^ 31 + t) = s * 2 ^ 15 + bfloat_mag t.
Proof.
  intros Hs Ht. unfold float_to_bfloat. destruct (signed_mag s t Hs ltac:(lia)) as (_ & -> & _).
  destruct (Z.ltb_spec 0x7f800000 t); [lia|]. cbv zeta.
  assert (t = t / 2 ^ 16 * 2 ^ 16 + t mod 2 ^ 16) as Et by (Z.to_euclidean_division_equations; lia).
  pose proof (Z.mod_pos_bound t (2 ^ 16) ltac:(lia)) as Hlow.
  assert (0 <= t / 2 ^ 16 <= 0x7f80) by (split; [apply Z.div_pos|apply Z.div_le_upper_bound]; lia).
  unfold bfloat_mag. set (q := t / 2 ^ 16) in *. set (low := t mod 2 ^ 16) in *.
  assert (Z.shiftr (s * 2 ^ 31 + t) 16 = s * 2 ^ 15 + q) as ->.
  { rewrite Z.shiftr_div_pow2 by lia. symmetry. apply (Z.div_unique_pos _ _ _ low); lia. }
  assert (Z.land (s * 2 ^ 15 + q) 1 = b2z (Z.odd q)) as ->.
  { change 1 with (2 ^ 1 - 1). rewrite land_mod by lia. change (2 ^ 1) with 2. rewrite Zmod_odd.
    rewrite Z.odd_add, Z.odd_mul. change (Z.odd (2 ^ 15)) with false. rewrite andb_false_r, xorb_false_l. done. }
  assert (0 <= b2z (Z.odd q) <= 1) by (destruct (Z.odd q); simpl; lia).
  assert (s = 1 /\ q = 0x7f80 -> low = 0) by lia.
  rewrite (uw_small 32) by (unfold in_range; lia). rewrite Z.shiftr_div_pow2 by lia.
  assert ((s * 2 ^ 31 + t + (0x7fff + b2z (Z.odd q))) / 2 ^ 16 =
          s * 2 ^ 15 + (q + b2z ((2 ^ 15 <? low) || ((2 ^ 15 =? low) && Z.odd q)))) as ->.
  { symmetry. destruct (Z.ltb_spec (2 ^ 15) low); cbn [orb b2z].
    - apply (Z.div_unique_pos _ _ _ (low + 0x7fff + b2z (Z.odd q) - 2 ^ 16)); lia.
    - destruct (Z.eqb_spec (2 ^ 15) low), (Z.odd q); cbn [andb b2z] in *;
        first [apply (Z.div_unique_pos _ _ _ 0); lia | apply (Z.div_unique_pos _ _ _ (low + 0x7fff)); lia
              | apply (Z.div_unique_pos _ _ _ (low + 0x8000)); lia]. }
  apply uw_small. unfold in_range. destruct ((2 ^ 15 <? low) || _) eqn:Eb; cbn [b2z]; [|lia].
  destruct (Z.ltb_spec (2 ^ 15) low); [lia|]. destruct (Z.eqb_spec (2 ^ 15) low); [lia|done].
Qed.

Lemma link_bfloat S9 h : 0 <= h < 0x7f80 ->
  S9 * 2 ^ 16 * mid2 7 h = 2 * S9 * value 23 ((h + 0) * 2 ^ 16 + 2 ^ (16 - 1)).
Proof.
  intros Hh. unfold mid2. rewrite value_succ by lia. unfold ulp.
  assert (h = h / 128 * 2 ^ 7 + h mod 128) as E by (Z.to_euclidean_division_equations; lia).
  assert (0 <= h / 128 < 255) by (split; [apply Z.div_pos|apply Z.div_lt_upper_bound]; lia).
  pose proof (Z.mod_pos_bound h 128 ltac:(lia)).
  change (h / 2 ^ 7) with (h / 128). set (e := h / 128) in *. set (m := h mod 128) in *.
  rewrite E, value_eq by lia.
  replace ((e * 2 ^ 7 + m + 0) * 2 ^ 16 + 2 ^ (16 - 1)) with (e * 2 ^ 23 + (m * 2 ^ 16 + 2 ^ 15)) by lia.
  rewrite value_eq by lia. destruct (Z.eqb_spec e 0) as [->|].
  - change (2 ^ (0 `max` 1 - 1)) with 1. lia.
  - rewrite Z.max_l by lia. set (w := 2 ^ (e - 1)).
    change (2 ^ 23) with (128 * 2 ^ 16). change (2 ^ 7) with 128. change (2 ^ 16) with (2 * 2 ^ 15). ring.
Qed.

(** Rounding [t], unless [t] is half-way and [x] is not [t]. *)
Lemma bfloat_mag_nearest S9 x t : 0 < S9 -> nearest 23 S9 0x7f800000 x t ->
  (t mod 2 ^ 16 = 2 ^ 15 -> x = S9 * value 23 t) ->
  nearest 7 (S9 * 2 ^ 16) 0x7f80 x (bfloat_mag t).
Proof.
  intros HS9 Hx Hhalf. pose proof Hx as [Hr _ _]. unfold bfloat_mag.
  assert (t = t / 2 ^ 16 * 2 ^ 16 + t mod 2 ^ 16) as Et by (Z.to_euclidean_division_equations; lia).
  pose proof (Z.mod_pos_bound t (2 ^ 16) ltac:(lia)) as Hlow.
  assert (0 <= t / 2 ^ 16 <= 0x7f80) by (split; [apply Z.div_pos|apply Z.div_le_upper_bound]; lia).
  set (q := t / 2 ^ 16) in *. set (low := t mod 2 ^ 16) in *.
  destruct (Z.eq_dec q 0x7f80) as [Eq|].
  { assert (low = 0) as -> by lia. rewrite Eq. simpl.
    apply (through_top 7 (S9 * 2 ^ 16) S9 0x7f80 0 16 0 HS9 ltac:(lia) ltac:(done) ltac:(done) ltac:(done)
      (link_bfloat S9) (or_introl eq_refl) x t Hx); lia. }
  destruct (through 7 (S9 * 2 ^ 16) S9 0x7f80 0 16 0 HS9 ltac:(lia) ltac:(done) ltac:(done) ltac:(done)
    (link_bfloat S9) (or_introl eq_refl) x t q low Hx) as [Hdown Hup]; [lia|lia|lia|].
  change (2 ^ (16 - 1)) with (2 ^ 15) in *.
  destruct (Z.ltb_spec (2 ^ 15) low); cbn [orb b2z]; [apply Hup; by left|].
  destruct (Z.eqb_spec (2 ^ 15) low) as [El|]; cbn [andb b2z]; [|rewrite Z.add_0_r; apply Hdown; left; lia].
  destruct (Z.odd q) eqn:Ho; cbn [b2z]; [apply Hup|rewrite Z.add_0_r; apply Hdown]; right; (split; [done|]);
    right; (split; [by apply Hhalf|]); by rewrite <- Z.negb_odd, Ho.
Qed.

(** A number of the format rounds to itself. *)
Lemma nearest_exact p S top t : 0 <= p -> 0 < S -> 0 <= t <= top -> nearest p S top (S * value p t) t.
Proof.
  intros Hp HS Ht. destruct (Z.eq_dec t top) as [->|]; [apply nearest_top; lia|].
  pose proof (value_lt p Hp t (t + 1) ltac:(lia)).
  pose proof (nearest_step p Hp S top HS (S * value p t) t ltac:(lia) ltac:(nia)) as Hx.
  unfold mid2 in Hx. destruct (Z.ltb_spec (S * (value p t + value p (t + 1))) (2 * (S * value p t))); [nia|].
  destruct (Z.eqb_spec (S * (value p t + value p (t + 1))) (2 * (S * value p t))); [nia|].
  simpl in Hx. by rewrite Z.add_0_r in Hx.
Qed.
