(* ===== verification/HalfCorrect.v ===== *)
(** * Half and bfloat conversions: the properties

    [nearest p S top x c]: [c] is the number of the format that [x] rounds to,
    to nearest and ties to even ([HalfFacts.nearest_unique]: there is one). *)
From S2P Require Import Prelude Half HalfFacts.

(** The sign, exponent and fraction of a half. *)
Definition half_bits (s e g : Z) : Z := s * 2 ^ 15 + e * 2 ^ 10 + g.

Lemma half_bits_split h : in_range 16 h ->
  exists s e g, h = half_bits s e g /\ 0 <= s <= 1 /\ 0 <= e < 32 /\ 0 <= g < 1024.
Proof.
  intros Hh. exists (h / 2 ^ 15), (h / 2 ^ 10 mod 2 ^ 5), (h mod 2 ^ 10). unfold half_bits, in_range in *.
  split_and!; Z.to_euclidean_division_equations; lia.
Qed.

Lemma half_bits_fields s e g : 0 <= s <= 1 -> 0 <= e < 32 -> 0 <= g < 1024 ->
  Z.shiftr (Z.land (half_bits s e g) 0x8000) 15 = s /\ Z.shiftr (Z.land (half_bits s e g) 0x7c00) 10 = e /\
  Z.land (half_bits s e g) 0x3ff = g /\ Z.land (half_bits s e g) 0x7fff = e * 2 ^ 10 + g /\
  Z.shiftr (half_bits s e g) 15 = s.
Proof.
  intros Hs He Hg. unfold half_bits.
  change 0x8000 with ((2 ^ 1 - 1) * 2 ^ 15). change 0x7c00 with ((2 ^ 5 - 1) * 2 ^ 10).
  change 0x3ff with (2 ^ 10 - 1). change 0x7fff with (2 ^ 15 - 1).
  rewrite !land_field, !land_mod, !Z.shiftr_div_pow2, !Z.div_mul by lia.
  split_and!; Z.to_euclidean_division_equations; lia.
Qed.

(** The float of a half with the exponent of a normal number. *)
Lemma half_to_float_normal s e g : 0 <= s <= 1 -> 1 <= e < 31 -> 0 <= g < 1024 ->
  half_to_float (half_bits s e g) = float_bits s (e + 112) (g * 2 ^ 13).
Proof.
  intros Hs He Hg. unfold half_to_float. destruct (half_bits_fields s e g) as (-> & -> & -> & _); [lia..|].
  rewrite Z.shiftr_0_r. destruct (Z.eqb_spec e 0); [lia|]. destruct (Z.eqb_spec e 0x1f); [lia|]. cbv zeta.
  rewrite !Z.shiftl_mul_pow2 by lia.
  replace (u32 (e - 15 + 127)) with (e + 112) by (rewrite uw_small; unfold in_range; lia).
  rewrite !uw_small by (unfold in_range; lia). change (23 - 10) with 13.
  assert (Z.lor (Z.lor (s * 2 ^ 31) ((e + 112) * 2 ^ 23)) (g * 2 ^ 13) = g * 2 ^ 13 + (e + 112) * 2 ^ 23 + s * 2 ^ 31) as ->;
    [|unfold float_bits; lia].
  replace (s * 2 ^ 31) with (Z.shiftl s 31) at 1 by (apply Z.shiftl_mul_pow2; lia).
  replace ((e + 112) * 2 ^ 23) with (Z.shiftl (e + 112) 23) at 1 by (apply Z.shiftl_mul_pow2; lia).
  rewrite Z.lor_comm, (Z.lor_comm (Z.shiftl s 31)), Z.lor_assoc.
  rewrite !lor_add by (unfold in_range; rewrite ?lor_add by (unfold in_range; lia); lia). done.
Qed.

(** The other exponents are few: by computation. *)
Definition special_ok (s m : Z) : bool :=
  let f := half_to_float (s * 2 ^ 15 + m) in let mag := Z.land f 0x7fffffff in
  in_rangeb 32 f && (Z.shiftr f 31 =? s) &&
  (if m <? 0x400 then (mag <? 0x7f800000) && (value 23 mag =? 2 ^ 125 * value 10 m)
   else if m =? 0x7c00 then mag =? 0x7f800000
   else (mag =? Z.lor 0x7fc00000 (Z.land m 0x3ff * 2 ^ 13)) &&
        (float_to_half f =? Z.lor (s * 2 ^ 15 + m) 0x0200)).

Lemma special_check s m : 0 <= s <= 1 -> 0 <= m < 0x400 \/ 0x7c00 <= m < 0x8000 -> special_ok s m = true.
Proof.
  intros Hs Hm. assert (zall (special_ok 0) 1024 0 && zall (special_ok 1) 1024 0 &&
    zall (special_ok 0) 1024 0x7c00 && zall (special_ok 1) 1024 0x7c00 = true) as E by (vm_compute; reflexivity).
  apply andb_true_iff in E as [[[E1 E2]%andb_true_iff E3]%andb_true_iff E4].
  assert (s = 0 \/ s = 1) as [-> | ->] by lia; destruct Hm;
    [apply (zall_from _ _ _ E1)|apply (zall_from _ _ _ E3)|apply (zall_from _ _ _ E2)|apply (zall_from _ _ _ E4)]; lia.
Qed.

Lemma value_half_float m : 0x400 <= m < 0x7c00 -> value 23 ((m + 0x1c000) * 2 ^ 13) = 2 ^ 125 * value 10 m.
Proof.
  intros Hh. assert (m = m / 1024 * 2 ^ 10 + m mod 1024) as E by (Z.to_euclidean_division_equations; lia).
  assert (1 <= m / 1024 < 31) by (split; [apply Z.div_le_lower_bound|apply Z.div_lt_upper_bound]; lia).
  pose proof (Z.mod_pos_bound m 1024 ltac:(lia)). set (e := m / 1024) in *. set (r := m mod 1024) in *.
  rewrite E, value_eq by lia. destruct (Z.eqb_spec e 0); [lia|].
  replace ((e * 2 ^ 10 + r + 0x1c000) * 2 ^ 13) with ((e + 112) * 2 ^ 23 + r * 2 ^ 13) by lia.
  rewrite value_eq by lia. destruct (Z.eqb_spec (e + 112) 0); [lia|].
  replace (2 ^ (e + 112 - 1)) with (2 ^ 112 * 2 ^ (e - 1)) by (rewrite <- Z.pow_add_r by lia; f_equal; lia).
  lia.
Qed.

(** [half_to_float] is exact: for every half that is not a NaN the float
    has the same sign and the same value (2^125 of the float's units are one of
    the half's), infinity to infinity; a NaN stays a NaN, quieted, with its
    payload. *)
Lemma half_to_float_exact h : in_range 16 h ->
  let f := half_to_float h in
  let mag := Z.land f 0x7fffffff in
  in_range 32 f /\ Z.shiftr f 31 = Z.shiftr h 15 /\
  (Z.land h 0x7fff < 0x7c00 -> mag < 0x7f800000 /\ value 23 mag = 2 ^ 125 * value 10 (Z.land h 0x7fff)) /\
  (Z.land h 0x7fff = 0x7c00 -> mag = 0x7f800000) /\
  (0x7c00 < Z.land h 0x7fff -> mag = Z.lor 0x7fc00000 (Z.land h 0x3ff * 2 ^ 13)).
Proof.
  intros Hh. cbv zeta.
  destruct (half_bits_split h Hh) as (s & e & g & -> & Hs & He & Hg).
  destruct (half_bits_fields s e g Hs He Hg) as (_ & _ & E3 & E4 & ->). rewrite E3, E4.
  destruct (decide (1 <= e < 31)) as [Hn|Hn].
  - rewrite half_to_float_normal by lia.
    destruct (float_bits_fields s (e + 112) (g * 2 ^ 13)) as (-> & _ & _ & ->); [lia..|].
    split; [unfold in_range, float_bits; lia|]. split; [done|]. split_and!; [|lia..]. intros _. split; [lia|].
    rewrite <- value_half_float by lia. f_equal. lia.
  - pose proof (special_check s (e * 2 ^ 10 + g) Hs ltac:(lia)) as HP. unfold special_ok, in_rangeb in HP. cbv zeta in HP.
    unfold half_bits. rewrite <- Z.add_assoc.
    apply andb_true_iff in HP as [[[H1%Z.leb_le H2%Z.ltb_lt]%andb_true_iff H3%Z.eqb_eq]%andb_true_iff HP].
    split; [done|]. split; [done|].
    destruct (Z.ltb_spec (e * 2 ^ 10 + g) 0x400).
    { apply andb_true_iff in HP as [H4%Z.ltb_lt H5%Z.eqb_eq]. split_and!; lia. }
    destruct (Z.eqb_spec (e * 2 ^ 10 + g) 0x7c00); [apply Z.eqb_eq in HP; split_and!; lia|].
    apply andb_true_iff in HP as [H4%Z.eqb_eq _]. split_and!; try lia. intros _. rewrite H4.
    assert (e = 31) as -> by lia. do 2 f_equal.
    change 0x3ff with (2 ^ 10 - 1). rewrite land_mod by lia. Z.to_euclidean_division_equations; lia.
Qed.

Lemma half_special_roundtrip s m : 0 <= s <= 1 -> 0 <= m < 0x400 \/ 0x7c00 <= m < 0x8000 ->
  float_to_half (half_to_float (s * 2 ^ 15 + m)) =
  if 0x7c00 <? m then Z.lor (s * 2 ^ 15 + m) 0x0200 else s * 2 ^ 15 + m.
Proof.
  intros Hs Hm. pose proof (special_check s m Hs Hm) as HP. unfold special_ok, in_rangeb in HP. cbv zeta in HP.
  apply andb_true_iff in HP as [[[H1%Z.leb_le H2%Z.ltb_lt]%andb_true_iff H3%Z.eqb_eq]%andb_true_iff HP].
  set (f := half_to_float (s * 2 ^ 15 + m)) in *.
  destruct (float_bits_split f (conj H1 H2)) as (s' & i & sig & Ef & Hs' & Hi & Hsig).
  destruct (float_bits_fields s' i sig Hs' Hi Hsig) as (Em & _ & _ & Es). rewrite <- Ef in Em, Es.
  assert (s' = s) as -> by lia. rewrite Em in HP.
  destruct (Z.ltb_spec m 0x400).
  - destruct (Z.ltb_spec 0x7c00 m); [lia|]. apply andb_true_iff in HP as [H4%Z.ltb_lt H5%Z.eqb_eq].
    assert (number i sig) as Hn by (split_and!; lia). rewrite Ef, float_to_half_mag by done. f_equal.
    pose proof (half_mag_nearest i sig Hn) as Hx. rewrite H5 in Hx.
    apply (nearest_unique 10 ltac:(lia) (2 ^ 125) 0x7c00 ltac:(lia) ltac:(lia) _ _ _ Hx).
    apply nearest_exact; lia.
  - destruct (Z.eqb_spec m 0x7c00) as [->|].
    + apply Z.eqb_eq in HP. simpl (0x7c00 <? 0x7c00). assert (i = 255 /\ sig = 0) as [-> ->] by lia.
      rewrite Ef, float_to_half_mag by (done || (split_and!; lia)). done.
    + apply andb_true_iff in HP as [_ H6%Z.eqb_eq]. destruct (Z.ltb_spec 0x7c00 m); [done|lia].
Qed.

(** converting a half to a float and back gives the half (a NaN comes back
    with its quiet bit set). *)
Lemma half_float_roundtrip h : in_range 16 h ->
  float_to_half (half_to_float h) = if 0x7c00 <? Z.land h 0x7fff then Z.lor h 0x0200 else h.
Proof.
  intros Hh. destruct (half_bits_split h Hh) as (s & e & g & -> & Hs & He & Hg).
  destruct (half_bits_fields s e g Hs He Hg) as (_ & _ & _ & -> & _).
  destruct (decide (1 <= e < 31)) as [Hn|Hn].
  - rewrite half_to_float_normal by lia. destruct (Z.ltb_spec 0x7c00 (e * 2 ^ 10 + g)); [lia|].
    assert (number (e + 112) (g * 2 ^ 13)) as Hnum by (split_and!; lia).
    rewrite float_to_half_mag, half_mag_normal by (done || lia). unfold normal_half.
    replace ((e + 112) * 2 ^ 23 + g * 2 ^ 13) with ((e * 2 ^ 10 + g + 0x1c000) * 2 ^ 13) by lia.
    rewrite Z.div_mul, Z.mod_mul by lia. simpl (_ || _). simpl b2z. unfold half_bits. lia.
  - unfold half_bits. rewrite <- Z.add_assoc. apply half_special_roundtrip; lia.
Qed.

(** The sign and the quiet bit of a NaN's half. *)
Lemma float_to_half_nan f : in_range 32 f -> isnan f = true ->
  Z.shiftr (float_to_half f) 15 = Z.shiftr f 31 /\ 0x7e00 <= Z.land (float_to_half f) 0x7fff.
Proof.
  intros Hf Hn. unfold float_to_half. rewrite Hn. cbv zeta.
  assert (0 <= Z.land (Z.shiftr f 13) 0x03ff < 1024) as Hx.
  { change 0x03ff with (2 ^ 10 - 1). rewrite land_mod by lia. apply Z.mod_pos_bound. lia. }
  assert (Z.shiftr f 31 = Z.shiftr (Z.shiftr f 16) 15) as -> by (by rewrite Z.shiftr_shiftr).
  pose proof (in_range_shiftr 32 f 16 ltac:(lia) ltac:(lia) Hf) as Hg.
  assert (0 <= Z.shiftr f 16 < 65536) as Hg'.
  { rewrite Z.shiftr_div_pow2 by lia. unfold in_range in Hf. split; [apply Z.div_pos|apply Z.div_lt_upper_bound]; lia. }
  assert (exists s, 0 <= s < 2 /\ Z.shiftr (Z.shiftr f 16) 15 = s /\ Z.land (Z.shiftr f 16) 0x8000 = s * 2 ^ 15)
    as (s & Hs & -> & ->).
  { exists (Z.shiftr (Z.shiftr f 16) 15). change 0x8000 with ((2 ^ 1 - 1) * 2 ^ 15).
    rewrite land_field, !Z.shiftr_div_pow2 in * by lia.
    split_and!; Z.to_euclidean_division_equations; lia. }
  revert Hx. generalize (Z.land (Z.shiftr f 13) 0x03ff). intros x Hx.
  set (P := fun s x => let h := u16 (Z.lor (Z.lor (Z.lor (s * 2 ^ 15) 0x7c00) 0x0200) x) in
                       (Z.shiftr h 15 =? s) && (0x7e00 <=? Z.land h 0x7fff)).
  assert (P s x = true) as E.
  { revert x Hx. assert (s = 0 \/ s = 1) as [-> | ->] by lia;
      [apply (zall_spec (P 0) 1024)|apply (zall_spec (P 1) 1024)]; vm_compute; reflexivity. }
  apply andb_true_iff in E as [?%Z.eqb_eq ?%Z.leb_le]. done.
Qed.

(** C16: [float_to_half] rounds every float to the nearest half, ties to even,
    subnormals and overflow to infinity included, and keeps the sign; a NaN
    gives a quiet NaN of the same sign. *)
Theorem float_to_half_correct f : in_range 32 f ->
  if isnan f then
    Z.shiftr (float_to_half f) 15 = Z.shiftr f 31 /\ 0x7e00 <= Z.land (float_to_half f) 0x7fff
  else exists h, float_to_half f = Z.shiftr f 31 * 2 ^ 15 + h /\
                 nearest 10 (2 ^ 125) 0x7c00 (value 23 (Z.land f 0x7fffffff)) h.
Proof.
  intros Hf. destruct (isnan f) eqn:En; [by apply float_to_half_nan|].
  destruct (float_bits_split f Hf) as (s & i & sig & -> & Hs & Hi & Hg).
  destruct (float_bits_fields s i sig Hs Hi Hg) as (-> & _ & _ & ->).
  assert (number i sig) as Hn.
  { split_and!; [lia..|]. intros ->. rewrite isnan_bits in En by done. simpl in En.
    by apply negb_false_iff, Z.eqb_eq in En. }
  exists (half_mag i sig). split; [by apply float_to_half_mag|by apply half_mag_nearest].
Qed.
Lemma float_to_half_correct_witness :
  in_range 32 0x3f801000 /\ exists h, float_to_half 0x3f801000 = 0 * 2 ^ 15 + h /\
    nearest 10 (2 ^ 125) 0x7c00 (value 23 0x3f801000) h.
Proof.
  assert (in_range 32 0x3f801000) as H by (unfold in_range; lia).
  split; [exact H|exact (float_to_half_correct 0x3f801000 H)].
Defined.

(** The sign, exponent and fraction of a double that is not a NaN. *)
Lemma number64_split d : in_range 64 d -> isnan64 d = false ->
  exists s e sig, d = double_bits s e sig /\ 0 <= s <= 1 /\ number64 e sig.
Proof.
  intros Hd Hn. destruct (double_bits_split d Hd) as (s & e & sig & -> & Hs & He & Hg).
  exists s, e, sig. split; [done|]. split; [lia|]. split; [lia|]. split; [lia|]. intros ->. rewrite isnan64_bits in Hn by done.
  simpl in Hn. by apply negb_false_iff, Z.eqb_eq in Hn.
Qed.

Lemma double_to_float_mag s e sig : 0 <= s <= 1 -> number64 e sig ->
  Z.land (double_to_float (double_bits s e sig)) 0x7fffffff = float_code e sig.
Proof.
  intros Hs Hd. rewrite double_to_float_code by done. pose proof (float_code_nearest e sig Hd) as [? _ _].
  by destruct (signed_mag s (float_code e sig) Hs ltac:(lia)) as (-> & _).
Qed.

(** C25: [double_to_half] does not round twice: when the double is at least the
    least normal half, the result is the half nearest to the double itself,
    although it goes through a float. *)
Theorem double_to_half_correct d : in_range 64 d -> isnan64 d = false ->
  0x38800000 <= Z.land (double_to_float d) 0x7fffffff ->
  exists h, double_to_half d = Z.shiftr d 63 * 2 ^ 15 + h /\
            nearest 10 (2 ^ 1050) 0x7c00 (value 52 (Z.land d 0x7fffffffffffffff)) h.
Proof.
  intros Hd Hn. destruct (number64_split d Hd Hn) as (s & e & sig & -> & Hs & Hnum).
  rewrite double_to_float_mag by done. pose proof Hnum as (He & Hg & _).
  destruct (double_bits_fields s e sig Hs He Hg) as (-> & -> & _). by apply double_to_half_nearest.
Qed.
(** 1 + 2^-11 + 2^-40, which a first rounding takes to a tie. *)
Lemma double_to_half_correct_witness :
  let d := 0x3ff0020000001000 in
  double_to_half d = 0x3c01 /\ exists h, double_to_half d = 0 * 2 ^ 15 + h /\
    nearest 10 (2 ^ 1050) 0x7c00 (value 52 d) h.
Proof.
  cbv zeta. split; [vm_compute; reflexivity|].
  apply (double_to_half_correct 0x3ff0020000001000);
    [unfold in_range; lia|vm_compute; reflexivity|apply Z.leb_le; vm_compute; reflexivity].
Defined.

(** Below the least normal half [double_to_half] can round twice: the
    shift that lines the significand up with the halfway pattern drops bits, so
    a float one unit off the tie is taken for the tie and moved onto it. Here
    2^-15 + 2^-25 + 2^-38 - 2^-40 gives 0x200 where 0x201 is the nearest. *)
Lemma double_to_half_subnormal_double_rounding :
  let d := 0x3f00040018000000 in
  double_to_half d = 0x0200 /\ nearest 10 (2 ^ 1050) 0x7c00 (value 52 d) 0x0201 /\
  ~ nearest 10 (2 ^ 1050) 0x7c00 (value 52 d) 0x0200.
Proof.
  cbv zeta. assert (nearest 10 (2 ^ 1050) 0x7c00 (value 52 0x3f00040018000000) 0x0201) as H.
  { constructor; [lia|right; left; apply Z.ltb_lt; vm_compute; reflexivity..]. }
  split; [vm_compute; reflexivity|]. split; [exact H|]. intros H'.
  discriminate (nearest_unique 10 ltac:(lia) (2 ^ 1050) 0x7c00 ltac:(apply pow2_pos; lia) ltac:(lia) _ _ _ H H').
Qed.

(** [float_to_bfloat] rounds every float to the nearest bfloat, ties to
    even, and keeps the sign; every NaN gives the same one; [bfloat_to_float]
    is its right inverse. *)
Lemma float_to_bfloat_correct f : in_range 32 f ->
  (isnan f = true -> float_to_bfloat f = 0x7fc0) /\
  (isnan f = false -> exists b, float_to_bfloat f = Z.shiftr f 31 * 2 ^ 15 + b /\
     nearest 7 (2 ^ 16) 0x7f80 (value 23 (Z.land f 0x7fffffff)) b) /\
  (forall b, in_range 16 b -> Z.land b 0x7fff <= 0x7f80 -> float_to_bfloat (bfloat_to_float b) = b).
Proof.
  intros Hf. split; [|split].
  - intros Hn. unfold float_to_bfloat. by rewrite Hn.
  - intros Hn. destruct (float_bits_split f Hf) as (s & i & sig & -> & Hs & Hi & Hg).
    destruct (float_bits_fields s i sig Hs Hi Hg) as (-> & _ & _ & ->).
    rewrite isnan_bits in Hn by done.
    assert (i * 2 ^ 23 + sig <= 0x7f800000) as Ht.
    { destruct (Z.eqb_spec i 255) as [->|]; [|lia]. apply negb_false_iff, Z.eqb_eq in Hn. lia. }
    exists (bfloat_mag (i * 2 ^ 23 + sig)). split.
    + unfold float_bits. rewrite <- Z.add_assoc. apply float_to_bfloat_mag; lia.
    + rewrite <- (Z.mul_1_l (2 ^ 16)), <- (Z.mul_1_l (value 23 _)).
      apply bfloat_mag_nearest; [lia|apply nearest_exact; lia|done].
  - intros b Hb Hm. change 0x7fff with (2 ^ 15 - 1) in Hm. rewrite land_mod in Hm by lia.
    unfold in_range in Hb. assert (b = b / 2 ^ 15 * 2 ^ 15 + b mod 2 ^ 15) as Eb by (Z.to_euclidean_division_equations; lia).
    assert (0 <= b / 2 ^ 15 <= 1 /\ 0 <= b mod 2 ^ 15) as [Hs Hm0] by (Z.to_euclidean_division_equations; lia).
    set (s := b / 2 ^ 15) in *. set (m := b mod 2 ^ 15) in *.
    assert (bfloat_to_float b = s * 2 ^ 31 + m * 2 ^ 16) as ->.
    { unfold bfloat_to_float. rewrite Z.shiftl_mul_pow2, uw_small by (unfold in_range; lia). lia. }
    rewrite float_to_bfloat_mag by lia. unfold bfloat_mag. rewrite Z.div_mul, Z.mod_mul by lia. simpl. lia.
Qed.

(** [double_to_bfloat] rounds its double's float: the correction by a unit in
    the last place never moves the float across a tie of the bfloats. *)
Lemma double_to_bfloat_mag s e sig : 0 <= s <= 1 -> number64 e sig -> double_to_bfloat (double_bits s e sig) = s * 2 ^ 15 + bfloat_mag (float_code e sig).
Proof.
  intros Hs Hnum. pose proof (float_code_nearest e sig Hnum) as [Hr _ _].
  unfold double_to_bfloat. rewrite double_to_float_code by done. cbv zeta.
  set (t := float_code e sig) in *. set (x := value 52 (e * 2 ^ 52 + sig)) in *.
  destruct (signed_mag s t Hs ltac:(lia)) as (_ & _ & Hland).
  change 0x1ff with (2 ^ 9 - 1). rewrite !Hland by lia.
  destruct (Z.eqb_spec (t mod 2 ^ 9) 0x100) as [E9|]; [|by apply float_to_bfloat_mag].
  assert (t <> 0x7f800000) by (intros E; rewrite E in E9; done).
  assert (t <> 0) by (intros E; rewrite E in E9; done).
  rewrite adjusted by (done || lia). fold x.
  assert (exists m, t = m * 2 ^ 9 + 0x100) as [m Em].
  { exists (t / 2 ^ 9). rewrite <- E9. Z.to_euclidean_division_equations; lia. }
  assert (-1 <= toward x t - t <= 1) as Hd1 by (unfold toward; destruct (_ <? x), (x <? _); simpl b2z; lia).
  rewrite float_to_bfloat_mag by lia. f_equal.
  set (t' := toward x t) in *. unfold bfloat_mag.
  assert (t' / 2 ^ 16 = t / 2 ^ 16) as -> by (Z.to_euclidean_division_equations; lia).
  f_equal. f_equal.
  assert (t' mod 2 ^ 16 = t mod 2 ^ 16 + (t' - t)) as -> by (Z.to_euclidean_division_equations; lia).
  assert (t mod 2 ^ 16 <= 2 ^ 15 - 0x100 \/ 2 ^ 15 + 0x100 <= t mod 2 ^ 16) as [|]
    by (Z.to_euclidean_division_equations; lia).
  - destruct (Z.ltb_spec (2 ^ 15) (t mod 2 ^ 16 + (t' - t))); [lia|].
    destruct (Z.ltb_spec (2 ^ 15) (t mod 2 ^ 16)); [lia|].
    destruct (Z.eqb_spec (2 ^ 15) (t mod 2 ^ 16 + (t' - t))); [lia|].
    destruct (Z.eqb_spec (2 ^ 15) (t mod 2 ^ 16)); [lia|done].
  - destruct (Z.ltb_spec (2 ^ 15) (t mod 2 ^ 16 + (t' - t))); [|lia].
    destruct (Z.ltb_spec (2 ^ 15) (t mod 2 ^ 16)); [done|lia].
Qed.

(** Rounding [x] by its float [t], half-way between two bfloats: to the even one
    of them, which is the nearest to [x] if [x] is not on the other's side. *)
Lemma bfloat_mag_tie S9 x t : 0 < S9 -> nearest 23 S9 0x7f800000 x t -> t mod 2 ^ 16 = 2 ^ 15 ->
  Z.even (bfloat_mag t) = true /\
  (nearest 7 (S9 * 2 ^ 16) 0x7f80 x (bfloat_mag t) <-> if Z.even (t / 2 ^ 16) then x <= S9 * value 23 t else S9 * value 23 t <= x).
Proof.
  intros HS9 Hx Hlow. pose proof Hx as [Hr _ _]. unfold bfloat_mag. rewrite Hlow.
  assert (t = t / 2 ^ 16 * 2 ^ 16 + 2 ^ 15) as Et by (rewrite <- Hlow; Z.to_euclidean_division_equations; lia).
  assert (0 <= t / 2 ^ 16 < 0x7f80) by (split; [apply Z.div_pos|apply Z.div_lt_upper_bound]; lia). set (q := t / 2 ^ 16) in *.
  destruct (through 7 (S9 * 2 ^ 16) S9 0x7f80 0 16 0 HS9 ltac:(lia) ltac:(done) ltac:(done) ltac:(done)
    (link_bfloat S9) (or_introl eq_refl) x t q (2 ^ 15) Hx) as [Hdown Hup]; [lia|done|lia|]. change (2 ^ (16 - 1)) with (2 ^ 15) in *.
  change ((2 ^ 15 <? 2 ^ 15) || ((2 ^ 15 =? 2 ^ 15) && Z.odd q)) with (Z.odd q).
  pose proof (nearest_unique 7 ltac:(lia) (S9 * 2 ^ 16) 0x7f80 ltac:(lia) ltac:(lia) x) as Huniq.
  rewrite <- (Z.negb_odd q). destruct (Z.odd q) eqn:Ho; cbn [negb b2z].
  - split; [by rewrite Z.even_add, <- Z.negb_odd, Ho|]. split.
    + intros Hn. destruct (Z.le_gt_cases (S9 * value 23 t) x) as [|Hlt]; [done|]. pose proof (Huniq _ _ Hn (Hdown (or_intror (conj eq_refl (or_introl Hlt))))). lia.
    + intros Hle. apply Hup. right. split; [done|]. destruct (Z.eq_dec x (S9 * value 23 t)); [right|left; lia]. by rewrite <- Z.negb_odd, Ho.
  - rewrite Z.add_0_r. split; [by rewrite <- Z.negb_odd, Ho|]. split.
    + intros Hn. destruct (Z.le_gt_cases x (S9 * value 23 t)) as [|Hlt]; [done|]. pose proof (Huniq _ _ Hn (Hup (or_intror (conj eq_refl (or_introl (Z.gt_lt _ _ (Z.lt_gt _ _ Hlt))))))). lia.
    + intros Hle. apply Hdown. right. split; [done|]. destruct (Z.eq_dec x (S9 * value 23 t)); [right|left; lia]. by rewrite <- Z.negb_odd, Ho.
Qed.

(** C28: When [double_to_bfloat] rounds correctly, and when it does not. For
    every double that is no NaN the sign is kept, and the bfloat is the nearest
    to the double itself, ties to even, unless the float it goes through is
    half-way between two bfloats. Then the result is the even one of the two
    (the comparison of the low 9 bits of the float, where a bfloat drops 16,
    never finds the tie), and it is the nearest exactly if the double is not on
    the other one's side of its float. *)
Theorem double_to_bfloat_rounding d : in_range 64 d -> isnan64 d = false ->
  let x := value 52 (Z.land d 0x7fffffffffffffff) in
  let t := Z.land (double_to_float d) 0x7fffffff in
  exists b, double_to_bfloat d = Z.shiftr d 63 * 2 ^ 15 + b /\
    if t mod 2 ^ 16 =? 2 ^ 15 then
      Z.even b = true /\ (b = t / 2 ^ 16 \/ b = t / 2 ^ 16 + 1) /\
      (nearest 7 (2 ^ 941) 0x7f80 x b <-> if Z.even (t / 2 ^ 16) then x <= 2 ^ 925 * value 23 t else 2 ^ 925 * value 23 t <= x)
    else nearest 7 (2 ^ 941) 0x7f80 x b.
Proof.
  intros Hd Hn. destruct (number64_split d Hd Hn) as (s & e & sig & -> & Hs & Hnum). cbv zeta.
  pose proof Hnum as (He & Hg & _). rewrite double_to_float_mag by done. destruct (double_bits_fields s e sig Hs He Hg) as (-> & -> & _).
  pose proof (float_code_nearest e sig Hnum) as Hx. set (t := float_code e sig) in *. exists (bfloat_mag t). split; [by apply double_to_bfloat_mag|].
  change (2 ^ 941) with (2 ^ 925 * 2 ^ 16). destruct (Z.eqb_spec (t mod 2 ^ 16) (2 ^ 15)) as [Hlow|Hlow].
  - destruct (bfloat_mag_tie (2 ^ 925) _ t ltac:(done) Hx Hlow) as [H1 H2]. split; [done|]. split; [|done]. unfold bfloat_mag. destruct (_ || _); cbn [b2z]; [right|left]; lia.
  - by apply bfloat_mag_nearest.
Qed.
(** 1 + 2^-8 + 2^-40: the float is the tie, the double above it. *)
Lemma double_to_bfloat_rounding_witness :
  let d := 0x3ff0100000001000 in
  double_to_float d = 0x3f808000 /\ 2 ^ 925 * value 23 0x3f808000 < value 52 d /\
  exists b, double_to_bfloat d = 0 * 2 ^ 15 + b /\
    (Z.even b = true /\ (b = 0x3f80 \/ b = 0x3f80 + 1) /\ (nearest 7 (2 ^ 941) 0x7f80 (value 52 d) b <-> value 52 d <= 2 ^ 925 * value 23 0x3f808000)).
Proof.
  cbv zeta. split; [vm_compute; reflexivity|]. split; [apply Z.ltb_lt; vm_compute; reflexivity|].
  apply (double_to_bfloat_rounding 0x3ff0100000001000); [unfold in_range; lia|vm_compute; reflexivity].
Defined.

(** So 1 + 2^-8 + 2^-40 gives 0x3f80 where 0x3f81 is the nearest. *)
Lemma double_to_bfloat_double_rounding :
  let d := 0x3ff0100000001000 in
  double_to_bfloat d = 0x3f80 /\ nearest 7 (2 ^ 941) 0x7f80 (value 52 d) 0x3f81 /\
  ~ nearest 7 (2 ^ 941) 0x7f80 (value 52 d) 0x3f80.
Proof.
  cbv zeta. assert (nearest 7 (2 ^ 941) 0x7f80 (value 52 0x3ff0100000001000) 0x3f81) as H.
  { constructor; [lia|right; left; apply Z.ltb_lt; vm_compute; reflexivity..]. }
  split; [vm_compute; reflexivity|]. split; [exact H|]. intros H'.
  discriminate (nearest_unique 7 ltac:(lia) (2 ^ 941) 0x7f80 ltac:(apply pow2_pos; lia) ltac:(lia) _ _ _ H H').
Qed.
