(* ===== verification/Hashing.v ===== *)
(** * Hash functions: src/src/support/hashing.c, MurmurHash3.c and hashing.h

    Words are [Z] in range; a buffer is its list of bytes. A read outside the
    buffer makes the whole function [None]. *)
From S2P Require Import Prelude.

(** ** Integer hashes *)

Definition int32hash (a : Z) : Z :=
  let a := u32 (u32 (a + 0x7ed55d16) + u32 (Z.shiftl a 12)) in
  let a := Z.lxor (Z.lxor a 0xc761c23c) (Z.shiftr a 19) in
  let a := u32 (u32 (a + 0x165667b1) + u32 (Z.shiftl a 5)) in
  let a := Z.lxor (u32 (a + 0xd3a2646c)) (u32 (Z.shiftl a 9)) in
  let a := u32 (u32 (a + 0xfd7046c5) + u32 (Z.shiftl a 3)) in
  Z.lxor (Z.lxor a 0xb55a4f09) (Z.shiftr a 16).

Definition int64hash (key : Z) : Z :=
  let key := u64 (u64 (Z.lnot key) + u64 (Z.shiftl key 21)) in
  let key := Z.lxor key (Z.shiftr key 24) in
  let key := u64 (u64 (key + u64 (Z.shiftl key 3)) + u64 (Z.shiftl key 8)) in
  let key := Z.lxor key (Z.shiftr key 14) in
  let key := u64 (u64 (key + u64 (Z.shiftl key 2)) + u64 (Z.shiftl key 4)) in
  let key := Z.lxor key (Z.shiftr key 28) in
  u64 (key + u64 (Z.shiftl key 31)).

Definition int64to32hash (key : Z) : Z :=
  let key := u64 (u64 (Z.lnot key) + u64 (Z.shiftl key 18)) in
  let key := Z.lxor key (Z.shiftr key 31) in
  let key := u64 (key * 21) in
  let key := Z.lxor key (Z.shiftr key 11) in
  let key := u64 (key + u64 (Z.shiftl key 6)) in
  let key := Z.lxor key (Z.shiftr key 22) in
  u32 key.

(** [bswap_64] is the compiler's byte swap. *)
Definition bswap_64 (x : Z) : Z := val 8 (rev (digits 8 8 x)).
Definition bitmix (a b : Z) : Z := int64hash (Z.lxor a (bswap_64 b)).

(** ** MurmurHash3 *)

Definition rotl32 (x r : Z) : Z := Z.lor (u32 (Z.shiftl x r)) (Z.shiftr x (32 - r)).
Definition rotl64 (x r : Z) : Z := Z.lor (u64 (Z.shiftl x r)) (Z.shiftr x (64 - r)).

Definition fmix32 (h : Z) : Z :=
  let h := Z.lxor h (Z.shiftr h 16) in
  let h := u32 (h * 0x85ebca6b) in
  let h := Z.lxor h (Z.shiftr h 13) in
  let h := u32 (h * 0xc2b2ae35) in
  Z.lxor h (Z.shiftr h 16).

Definition fmix64 (k : Z) : Z :=
  let k := Z.lxor k (Z.shiftr k 33) in
  let k := u64 (k * 0xff51afd7ed558ccd) in
  let k := Z.lxor k (Z.shiftr k 33) in
  let k := u64 (k * 0xc4ceb9fe1a85ec53) in
  Z.lxor k (Z.shiftr k 33).

(** Little-endian loads at a byte offset. *)
Definition jl_load_unaligned_i32 (p : list Z) (off : Z) : option Z :=
  if off + 4 <=? Z.of_nat (length p) then Some (val 8 (take 4 (drop (Z.to_nat off) p))) else None.
Definition jl_load_unaligned_i64 (p : list Z) (off : Z) : option Z :=
  if off + 8 <=? Z.of_nat (length p) then Some (val 8 (take 8 (drop (Z.to_nat off) p))) else None.

(** [k ^= tail[i] << s], the body of a [case c:] that the switch on [rem]
    enters, or falls into, when [c <= rem]. In [MurmurHash3_x86_128] a byte from
    0x80 on that is shifted by 24 leaves the [int] it was promoted to, for which
    the C standard gives no result; GCC and Clang shift the bits of the word, and
    so does this definition. ([x64_128] casts to [uint64_t] first, and [x86_32]
    shifts by 16 at most.) *)
Definition tail_byte (p : list Z) (tail rem c s k : Z) : option Z :=
  if c <=? rem then
    x ← p !! Z.to_nat (tail + (c - 1)); Some (Z.lxor k (Z.shiftl x s))
  else Some k.

(** [k *= a; k = rotl(k, r); k *= b], and the [h ^= k] after the tail of a lane. *)
Definition mix32 (a r b k : Z) : Z := u32 (rotl32 (u32 (k * a)) r * b).
Definition mix64 (a r b k : Z) : Z := u64 (rotl64 (u64 (k * a)) r * b).
Definition tail_mix (rem c : Z) (mix : Z -> Z) (h k : Z) : Z :=
  if c <=? rem then Z.lxor h (mix k) else h.

(** *** 32 bits *)
Definition x86_32_c1 : Z := 0xcc9e2d51.
Definition x86_32_c2 : Z := 0x1b873593.

Definition x86_32_body (data : list Z) (tail : Z) (st : Z * Z) : option (Z * Z) :=
  let '(i, h1) := st in
  k1 ← jl_load_unaligned_i32 data (u64 (tail + 4 * i));
  let h1 := Z.lxor h1 (mix32 x86_32_c1 15 x86_32_c2 k1) in
  let h1 := rotl32 h1 13 in
  let h1 := u32 (h1 * 5 + 0xe6546b64) in
  Some (u64 (i + 1), h1).

Definition MurmurHash3_x86_32 (key : list Z) (len seed : Z) : option Z :=
  let data := key in
  let nblocks := len / 4 in
  let h1 := seed in
  let tail := nblocks * 4 in
  '(_, h1) ← while (S (Z.to_nat nblocks)) (fun st => negb (st.1 =? 0)) (x86_32_body data tail) (u64 (- nblocks), h1);
  let rem := Z.land len 3 in
  let k1 := 0 in
  k1 ← tail_byte data tail rem 3 16 k1;
  k1 ← tail_byte data tail rem 2 8 k1;
  k1 ← tail_byte data tail rem 1 0 k1;
  let h1 := tail_mix rem 1 (mix32 x86_32_c1 15 x86_32_c2) h1 k1 in
  let h1 := u32 (Z.lxor h1 len) in
  Some (fmix32 h1).

(** *** 128 bits, 32-bit words *)
Definition x86_128_c1 : Z := 0x239b961b.
Definition x86_128_c2 : Z := 0xab0e9789.
Definition x86_128_c3 : Z := 0x38b34ae5.
Definition x86_128_c4 : Z := 0xa1e38b93.

Definition x86_128_mix1 : Z -> Z := mix32 x86_128_c1 15 x86_128_c2.
Definition x86_128_mix2 : Z -> Z := mix32 x86_128_c2 16 x86_128_c3.
Definition x86_128_mix3 : Z -> Z := mix32 x86_128_c3 17 x86_128_c4.
Definition x86_128_mix4 : Z -> Z := mix32 x86_128_c4 18 x86_128_c1.

Definition lanes : Type := Z * Z * Z * Z.

Definition x86_128_block (k1 k2 k3 k4 : Z) (h : lanes) : lanes :=
  let '(h1, h2, h3, h4) := h in
  let h1 := Z.lxor h1 (x86_128_mix1 k1) in
  let h1 := rotl32 h1 19 in let h1 := u32 (h1 + h2) in let h1 := u32 (h1 * 5 + 0x561ccd1b) in
  let h2 := Z.lxor h2 (x86_128_mix2 k2) in
  let h2 := rotl32 h2 17 in let h2 := u32 (h2 + h3) in let h2 := u32 (h2 * 5 + 0x0bcaa747) in
  let h3 := Z.lxor h3 (x86_128_mix3 k3) in
  let h3 := rotl32 h3 15 in let h3 := u32 (h3 + h4) in let h3 := u32 (h3 * 5 + 0x96cd1c35) in
  let h4 := Z.lxor h4 (x86_128_mix4 k4) in
  let h4 := rotl32 h4 13 in let h4 := u32 (h4 + h1) in let h4 := u32 (h4 * 5 + 0x32ac3b17) in
  (h1, h2, h3, h4).

Definition x86_128_body (data : list Z) (tail : Z) (st : Z * lanes) : option (Z * lanes) :=
  let '(i, h) := st in
  k1 ← jl_load_unaligned_i32 data (u64 (tail + 4 * (i * 4 + 0)));
  k2 ← jl_load_unaligned_i32 data (u64 (tail + 4 * (i * 4 + 1)));
  k3 ← jl_load_unaligned_i32 data (u64 (tail + 4 * (i * 4 + 2)));
  k4 ← jl_load_unaligned_i32 data (u64 (tail + 4 * (i * 4 + 3)));
  Some (u64 (i + 1), x86_128_block k1 k2 k3 k4 h).

(** [h1 += h2; h1 += h3; h1 += h4; h2 += h1; h3 += h1; h4 += h1;] *)
Definition x86_128_spread (h : lanes) : lanes :=
  let '(h1, h2, h3, h4) := h in
  let h1 := u32 (h1 + h2) in let h1 := u32 (h1 + h3) in let h1 := u32 (h1 + h4) in
  (h1, u32 (h2 + h1), u32 (h3 + h1), u32 (h4 + h1)).

Definition x86_128_final (len : Z) (h : lanes) : lanes :=
  let '(h1, h2, h3, h4) := h in
  let h := (u32 (Z.lxor h1 len), u32 (Z.lxor h2 len), u32 (Z.lxor h3 len), u32 (Z.lxor h4 len)) in
  let '(h1, h2, h3, h4) := x86_128_spread h in
  x86_128_spread (fmix32 h1, fmix32 h2, fmix32 h3, fmix32 h4).

Definition x86_128_tail (data : list Z) (tail rem : Z) (h : lanes) : option lanes :=
  let '(h1, h2, h3, h4) := h in
  k4 ← tail_byte data tail rem 15 16 0;
  k4 ← tail_byte data tail rem 14 8 k4;
  k4 ← tail_byte data tail rem 13 0 k4;
  let h4 := tail_mix rem 13 x86_128_mix4 h4 k4 in
  k3 ← tail_byte data tail rem 12 24 0;
  k3 ← tail_byte data tail rem 11 16 k3;
  k3 ← tail_byte data tail rem 10 8 k3;
  k3 ← tail_byte data tail rem 9 0 k3;
  let h3 := tail_mix rem 9 x86_128_mix3 h3 k3 in
  k2 ← tail_byte data tail rem 8 24 0;
  k2 ← tail_byte data tail rem 7 16 k2;
  k2 ← tail_byte data tail rem 6 8 k2;
  k2 ← tail_byte data tail rem 5 0 k2;
  let h2 := tail_mix rem 5 x86_128_mix2 h2 k2 in
  k1 ← tail_byte data tail rem 4 24 0;
  k1 ← tail_byte data tail rem 3 16 k1;
  k1 ← tail_byte data tail rem 2 8 k1;
  k1 ← tail_byte data tail rem 1 0 k1;
  let h1 := tail_mix rem 1 x86_128_mix1 h1 k1 in
  Some (h1, h2, h3, h4).

Definition MurmurHash3_x86_128 (key : list Z) (len seed : Z) : option lanes :=
  let data := key in
  let nblocks := len / 16 in
  let tail := nblocks * 16 in
  '(_, h) ← while (S (Z.to_nat nblocks)) (fun st => negb (st.1 =? 0)) (x86_128_body data tail)
              (u64 (- nblocks), (seed, seed, seed, seed));
  h ← x86_128_tail data tail (Z.land len 15) h;
  Some (x86_128_final len h).

(** *** 128 bits, 64-bit words *)
Definition x64_128_c1 : Z := 0x87c37b91114253d5.
Definition x64_128_c2 : Z := 0x4cf5ad432745937f.
Definition x64_128_mix1 : Z -> Z := mix64 x64_128_c1 31 x64_128_c2.
Definition x64_128_mix2 : Z -> Z := mix64 x64_128_c2 33 x64_128_c1.

Definition x64_128_block (k1 k2 : Z) (h : Z * Z) : Z * Z :=
  let '(h1, h2) := h in
  let h1 := Z.lxor h1 (x64_128_mix1 k1) in
  let h1 := rotl64 h1 27 in let h1 := u64 (h1 + h2) in let h1 := u64 (h1 * 5 + 0x52dce729) in
  let h2 := Z.lxor h2 (x64_128_mix2 k2) in
  let h2 := rotl64 h2 31 in let h2 := u64 (h2 + h1) in let h2 := u64 (h2 * 5 + 0x38495ab5) in
  (h1, h2).

Definition x64_128_body (data : list Z) (st : Z * (Z * Z)) : option (Z * (Z * Z)) :=
  let '(i, h) := st in
  k1 ← jl_load_unaligned_i64 data (8 * (i * 2 + 0));
  k2 ← jl_load_unaligned_i64 data (8 * (i * 2 + 1));
  Some (u64 (i + 1), x64_128_block k1 k2 h).

Definition x64_128_tail (data : list Z) (tail rem : Z) (h : Z * Z) : option (Z * Z) :=
  let '(h1, h2) := h in
  k2 ← tail_byte data tail rem 15 48 0;
  k2 ← tail_byte data tail rem 14 40 k2;
  k2 ← tail_byte data tail rem 13 32 k2;
  k2 ← tail_byte data tail rem 12 24 k2;
  k2 ← tail_byte data tail rem 11 16 k2;
  k2 ← tail_byte data tail rem 10 8 k2;
  k2 ← tail_byte data tail rem 9 0 k2;
  let h2 := tail_mix rem 9 x64_128_mix2 h2 k2 in
  k1 ← tail_byte data tail rem 8 56 0;
  k1 ← tail_byte data tail rem 7 48 k1;
  k1 ← tail_byte data tail rem 6 40 k1;
  k1 ← tail_byte data tail rem 5 32 k1;
  k1 ← tail_byte data tail rem 4 24 k1;
  k1 ← tail_byte data tail rem 3 16 k1;
  k1 ← tail_byte data tail rem 2 8 k1;
  k1 ← tail_byte data tail rem 1 0 k1;
  let h1 := tail_mix rem 1 x64_128_mix1 h1 k1 in
  Some (h1, h2).

Definition x64_128_final (len : Z) (h : Z * Z) : Z * Z :=
  let '(h1, h2) := h in
  let h1 := Z.lxor h1 len in let h2 := Z.lxor h2 len in
  let h1 := u64 (h1 + h2) in let h2 := u64 (h2 + h1) in
  let h1 := fmix64 h1 in let h2 := fmix64 h2 in
  let h1 := u64 (h1 + h2) in let h2 := u64 (h2 + h1) in
  (h1, h2).

Definition MurmurHash3_x64_128 (key : list Z) (len seed : Z) : option (Z * Z) :=
  let data := key in
  let nblocks := len / 16 in
  '(_, h) ← while (S (Z.to_nat nblocks)) (fun st => st.1 <? nblocks) (x64_128_body data) (0, (seed, seed));
  let tail := nblocks * 16 in
  h ← x64_128_tail data tail (Z.land len 15) h;
  Some (x64_128_final len h).

(** ** Buffers *)
Definition MHASH_SEED_ : Z := 0xcafe8881.

(** On a 64-bit platform ([_P64]). *)
Definition memhash (buf : list Z) (n : Z) : option Z :=
  out ← MurmurHash3_x64_128 buf n MHASH_SEED_; Some out.2.
Definition memhash_seed (buf : list Z) (n seed : Z) : option Z :=
  out ← MurmurHash3_x64_128 buf n seed; Some out.2.
Definition memhash32 (buf : list Z) (n : Z) : option Z := MurmurHash3_x86_32 buf n MHASH_SEED_.
Definition memhash32_seed (buf : list Z) (n seed : Z) : option Z := MurmurHash3_x86_32 buf n seed.

Example hello : MurmurHash3_x86_32 [0x68; 0x65; 0x6c; 0x6c; 0x6f] 5 0 = Some 0x248bfa47.
Proof. vm_compute. reflexivity. Qed.
