(* ===== verification/HashingFacts.v ===== *)
(** * Hash functions: permutations, and MurmurHash3 against its definition *)
From S2P Require Import Prelude Hashing.

(** ** The steps of the integer hashes are permutations of the words *)

Definition perm (w : Z) (f : Z -> Z) : Prop :=
  (forall x, in_range w x -> in_range w (f x)) /\
  (forall x y, in_range w x -> in_range w y -> f x = f y -> x = y).

Lemma perm_compose w f g : perm w f -> perm w g -> perm w (fun x => g (f x)).
Proof. intros [Hf1 Hf2] [Hg1 Hg2]. split; eauto. Qed.

Lemma perm_ext w f g : (forall x, in_range w x -> f x = g x) -> perm w f -> perm w g.
Proof.
  intros E [H1 H2]. split; intros x.
  - intros Hx. rewrite <- E by done. auto.
  - intros y Hx Hy. rewrite <- !E by done. auto.
Qed.

(** [x ^ (x >> r)]. *)
Lemma perm_xorshift w r : 0 <= w -> 0 < r -> perm w (fun x => Z.lxor x (Z.shiftr x r)).
Proof.
  intros Hw Hr. split; [intros; auto with word|]. intros x y Hx Hy E.
  set (d := Z.lxor x y).
  assert (0 <= d) by (apply Z.lxor_nonneg; unfold in_range in *; lia).
  assert (d = Z.shiftr d r) as Hd.
  { unfold d. rewrite Z.shiftr_lxor. apply Z.bits_inj'. intros i Hi.
    apply (f_equal (fun z => Z.testbit z i)) in E. rewrite !Z.lxor_spec in *.
    destruct (Z.testbit x i), (Z.testbit y i), (Z.testbit (Z.shiftr x r) i), (Z.testbit (Z.shiftr y r) i); done. }
  apply Z.lxor_eq. change (d = 0). rewrite Z.shiftr_div_pow2 in Hd by lia.
  destruct (Z.eq_dec d 0); [done|]. pose proof (Z.div_lt d (2 ^ r) ltac:(lia) ltac:(apply Z.pow_gt_1; lia)). lia.
Qed.

Lemma perm_xor w c : 0 <= w -> in_range w c -> perm w (fun x => Z.lxor x c).
Proof.
  intros Hw Hc. split; [intros; auto with word|]. intros x y _ _ E.
  apply (f_equal (fun z => Z.lxor z c)) in E. by rewrite !Z.lxor_assoc, Z.lxor_nilpotent, !Z.lxor_0_r in E.
Qed.

(** [a * x + b] with an inverse of [a]. *)
Lemma perm_affine w a b a' : 0 <= w -> uw w (a * a') = uw w 1 -> perm w (fun x => uw w (a * x + b)).
Proof.
  intros Hw Ha. split; [intros; auto with word|]. intros x y Hx Hy E.
  assert (forall z, in_range w z -> uw w (a' * (uw w (a * z + b) - b)) = z) as Hinv.
  { intros z Hz. rewrite <- uw_mul_r, uw_sub_l, uw_mul_r. replace (a' * (a * z + b - b)) with (a * a' * z) by lia.
    rewrite <- uw_mul_l, Ha, uw_mul_l, Z.mul_1_l. by apply uw_small. }
  rewrite <- (Hinv x Hx), <- (Hinv y Hy), E. done.
Qed.

(** [(x + c) ^ (x << r)]: each bit of the result determines one more bit of [x]. *)
Lemma perm_addxor w c r : 0 <= w -> 0 < r ->
  perm w (fun x => Z.lxor (uw w (x + c)) (uw w (Z.shiftl x r))).
Proof.
  intros Hw Hr. split; [intros; auto with word|]. intros x y Hx Hy E.
  assert (forall n : nat, Z.of_nat n <= w -> uw (Z.of_nat n) x = uw (Z.of_nat n) y) as H.
  { induction n as [|n IH]; intros Hn; [unfold uw; by rewrite !Z.mod_1_r|].
    specialize (IH ltac:(lia)). set (v := Z.of_nat (S n)) in *.
    assert (uw v (Z.shiftl x r) = uw v (Z.shiftl y r)) as Es.
    { apply Z.bits_inj'. intros i Hi. rewrite !testbit_uw by lia. destruct (Z.ltb_spec i v); [|done].
      rewrite !andb_true_l, !Z.shiftl_spec by lia.
      apply (f_equal (fun z => Z.testbit z (i - r))) in IH. rewrite !testbit_uw in IH by lia.
      destruct (Z.ltb_spec (i - r) (Z.of_nat n)); [done|lia]. }
    assert (uw v (x + c) = uw v (y + c)) as Ea.
    { apply Z.bits_inj'. intros i Hi.
      apply (f_equal (fun z => Z.testbit z i)) in E, Es. rewrite !Z.lxor_spec in E.
      rewrite !testbit_uw in * by lia.
      destruct (Z.ltb_spec i v); [|done]. destruct (Z.ltb_spec i w); [|lia]. rewrite !andb_true_l in *.
      rewrite Es in E. destruct (Z.testbit (x + c) i), (Z.testbit (y + c) i), (Z.testbit (Z.shiftl y r) i); done. }
    rewrite <- (Z.add_simpl_r x c), <- (Z.add_simpl_r y c), <- uw_sub_l, Ea, uw_sub_l. done. }
  specialize (H (Z.to_nat w) ltac:(lia)). rewrite Z2Nat.id in H by lia. by rewrite !uw_small in H.
Qed.

(** [(x + c) + (x << r)] is affine, so is [~x + (x << r)]. *)
Lemma add_shl w c r x : 0 <= r -> uw w (uw w (x + c) + uw w (Z.shiftl x r)) = uw w ((1 + 2 ^ r) * x + c).
Proof. intros. rewrite Z.shiftl_mul_pow2 by done. push_uw. f_equal. lia. Qed.
Lemma not_shl w r x : 0 <= r -> uw w (uw w (Z.lnot x) + uw w (Z.shiftl x r)) = uw w ((2 ^ r - 1) * x + -1).
Proof. intros. unfold Z.lnot. rewrite Z.shiftl_mul_pow2 by done. push_uw. f_equal. lia. Qed.

(** [(x ^ c) ^ (x >> r)]. *)
Lemma perm_xorshift_c w c r : 0 <= w -> 0 < r -> in_range w c ->
  perm w (fun x => Z.lxor (Z.lxor x c) (Z.shiftr x r)).
Proof.
  intros. apply (perm_ext _ (fun x => Z.lxor (Z.lxor x (Z.shiftr x r)) c)).
  - intros. rewrite !Z.lxor_assoc. f_equal. apply Z.lxor_comm.
  - apply (perm_compose w _ (fun x => Z.lxor x c)); [by apply perm_xorshift|by apply perm_xor].
Qed.

Lemma perm_mul w c c' : 0 <= w -> uw w (c * c') = uw w 1 -> perm w (fun x => uw w (x * c)).
Proof.
  intros. apply (perm_ext _ (fun x => uw w (c * x + 0))); [intros; f_equal; lia|by apply (perm_affine _ _ _ c')].
Qed.

(** One step of a hash written as a chain of [let]s. *)
Ltac next_step :=
  match goal with |- perm ?w (fun x => let y := @?F x in @?G x y) => apply (perm_compose w F (G 0)) end.
Ltac affine i :=
  apply (perm_affine _ _ _ i); [lia|vm_compute; reflexivity].

Lemma perm_int32hash : perm 32 int32hash.
Proof.
  cbv delta [int32hash].
  next_step; [eapply perm_ext; [intros; symmetry; apply add_shl; lia|affine 0xfff001]|].
  next_step; [apply perm_xorshift_c; unfold in_range; lia|].
  next_step; [eapply perm_ext; [intros; symmetry; apply add_shl; lia|affine 0x3e0f83e1]|].
  next_step; [by apply perm_addxor|].
  next_step; [eapply perm_ext; [intros; symmetry; apply add_shl; lia|affine 0x38e38e39]|].
  apply perm_xorshift_c; unfold in_range; lia.
Qed.

Lemma add_shl2 w r s x : 0 <= r -> 0 <= s ->
  uw w (uw w (x + uw w (Z.shiftl x r)) + uw w (Z.shiftl x s)) = uw w ((1 + 2 ^ r + 2 ^ s) * x + 0).
Proof. intros. rewrite !Z.shiftl_mul_pow2 by done. push_uw. f_equal. lia. Qed.

Lemma perm_int64hash : perm 64 int64hash.
Proof.
  cbv delta [int64hash].
  next_step; [eapply perm_ext; [intros; symmetry; apply not_shl; lia|affine 0x7ffffbffffdfffff]|].
  next_step; [by apply perm_xorshift|].
  next_step; [eapply perm_ext; [intros; symmetry; apply add_shl2; lia|affine 0xd38ff08b1c03dd39]|].
  next_step; [by apply perm_xorshift|].
  next_step; [eapply perm_ext; [intros; symmetry; apply add_shl2; lia|affine 0xcf3cf3cf3cf3cf3d]|].
  next_step; [by apply perm_xorshift|].
  apply (perm_ext _ (fun x => u64 ((1 + 2 ^ 31) * x + 0))); [|affine 0x3fffffff80000001].
  intros x _. rewrite Z.shiftl_mul_pow2 by done. push_uw. f_equal. lia.
Qed.

Lemma perm_fmix32 : perm 32 fmix32.
Proof.
  cbv delta [fmix32]. next_step; [by apply perm_xorshift|].
  next_step; [apply (perm_mul _ _ 0xa5cb9243); [done|vm_compute; reflexivity]|].
  next_step; [by apply perm_xorshift|].
  next_step; [apply (perm_mul _ _ 0x7ed1b41d); [done|vm_compute; reflexivity]|].
  by apply perm_xorshift.
Qed.

Lemma perm_fmix64 : perm 64 fmix64.
Proof.
  cbv delta [fmix64]. next_step; [by apply perm_xorshift|].
  next_step; [apply (perm_mul _ _ 0x4f74430c22a54005); [done|vm_compute; reflexivity]|].
  next_step; [by apply perm_xorshift|].
  next_step; [apply (perm_mul _ _ 0x9cb4b2f8129337db); [done|vm_compute; reflexivity]|].
  by apply perm_xorshift.
Qed.

(** [bswap_64] is a permutation, of period two. *)
Lemma bswap_64_involutive x : in_range 64 x -> bswap_64 (bswap_64 x) = x.
Proof.
  intros Hx. unfold bswap_64.
  assert (digits 8 8 (val 8 (rev (digits 8 8 x))) = rev (digits 8 8 x)) as ->.
  { rewrite <- (digits_length 8 8 x), <- length_rev at 1. apply digits_val; [done|].
    by apply List.Forall_rev, digits_words. }
  rewrite rev_involutive, val_digits by done. by apply uw_small.
Qed.

Lemma bswap_64_range x : in_range 64 (bswap_64 x).
Proof.
  unfold bswap_64. pose proof (val_range 8 (rev (digits 8 8 x)) ltac:(done)) as H.
  rewrite length_rev, digits_length in H. apply H. by apply List.Forall_rev, digits_words.
Qed.

(** ** MurmurHash3: its definition on whole blocks

    The tail is the last block padded with zeros, mixed into the lanes without
    the rotations that follow a full block. *)

(** The [j]-th little-endian word of [w] bytes. *)
Definition word (w j : nat) (l : list Z) : Z := val 8 (take w (drop (w * j) l)).

Definition murmur_x86_32 (l : list Z) (seed : Z) : Z :=
  let n := (length l / 4)%nat in
  let h := foldl (fun h j => u32 (rotl32 (Z.lxor h (mix32 x86_32_c1 15 x86_32_c2 (word 4 j l))) 13 * 5 + 0xe6546b64))
                 seed (seq 0 n) in
  let h := Z.lxor h (mix32 x86_32_c1 15 x86_32_c2 (word 4 n l)) in
  fmix32 (u32 (Z.lxor h (Z.of_nat (length l)))).

Definition murmur_x86_128 (l : list Z) (seed : Z) : lanes :=
  let n := (length l / 16)%nat in
  let '(h1, h2, h3, h4) :=
    foldl (fun h j => x86_128_block (word 4 (4 * j) l) (word 4 (4 * j + 1) l) (word 4 (4 * j + 2) l) (word 4 (4 * j + 3) l) h)
          (seed, seed, seed, seed) (seq 0 n) in
  x86_128_final (Z.of_nat (length l))
    (Z.lxor h1 (x86_128_mix1 (word 4 (4 * n) l)), Z.lxor h2 (x86_128_mix2 (word 4 (4 * n + 1) l)),
     Z.lxor h3 (x86_128_mix3 (word 4 (4 * n + 2) l)), Z.lxor h4 (x86_128_mix4 (word 4 (4 * n + 3) l))).

Definition murmur_x64_128 (l : list Z) (seed : Z) : Z * Z :=
  let n := (length l / 16)%nat in
  let '(h1, h2) :=
    foldl (fun h j => x64_128_block (word 8 (2 * j) l) (word 8 (2 * j + 1) l) h) (seed, seed) (seq 0 n) in
  x64_128_final (Z.of_nat (length l))
    (Z.lxor h1 (x64_128_mix1 (word 8 (2 * n) l)), Z.lxor h2 (x64_128_mix2 (word 8 (2 * n + 1) l))).

Section Murmur.
Context (l : list Z) (Hl : words 8 l) (Hlen : Z.of_nat (length l) < 2 ^ 64).

Lemma load32 j off : off = 4 * Z.of_nat j -> off + 4 <= Z.of_nat (length l) ->
  jl_load_unaligned_i32 l off = Some (word 4 j l).
Proof using. 
  intros -> H. unfold jl_load_unaligned_i32, word. destruct (Z.leb_spec (4 * Z.of_nat j + 4) (Z.of_nat (length l))); [|lia].
  do 4 f_equal. lia.
Qed.
Lemma load64 j off : off = 8 * Z.of_nat j -> off + 8 <= Z.of_nat (length l) ->
  jl_load_unaligned_i64 l off = Some (word 8 j l).
Proof using.
  intros -> H. unfold jl_load_unaligned_i64, word. destruct (Z.leb_spec (8 * Z.of_nat j + 8) (Z.of_nat (length l))); [|lia].
  do 4 f_equal. lia.
Qed.

(** *** The fall-through switch *)

Variables (tail : nat).
Let t := drop tail l.
Let rem := Z.of_nat (length t).

Lemma tail_first c s : 1 <= c -> 0 <= s ->
  tail_byte l (Z.of_nat tail) rem c s 0 = Some (Z.shiftl (val 8 (take 1 (drop (Z.to_nat (c - 1)) t))) s).
Proof using.
  intros Hc Hs. unfold tail_byte. destruct (Z.leb_spec c rem) as [H|H].
  - destruct (lookup_lt_is_Some_2 t (Z.to_nat (c - 1))) as [x Hx]; [lia|].
    replace (Z.to_nat (Z.of_nat tail + (c - 1))) with (tail + Z.to_nat (c - 1))%nat by lia.
    rewrite <- lookup_drop. fold t. rewrite Hx. cbn [mbind option_bind].
    rewrite (drop_S _ _ _ Hx). cbn [take val]. by rewrite Z.mul_0_r, Z.add_0_r, Z.lxor_0_l.
  - rewrite drop_ge by lia. by rewrite take_nil, Z.shiftl_0_l.
Qed.

Lemma tail_next c s s' m : 1 <= c -> 0 <= s -> s' = s + 8 ->
  tail_byte l (Z.of_nat tail) rem c s (Z.shiftl (val 8 (take m (drop (Z.to_nat (c + 1 - 1)) t))) s') =
  Some (Z.shiftl (val 8 (take (S m) (drop (Z.to_nat (c - 1)) t))) s).
Proof using Hl.
  intros Hc Hs ->. unfold tail_byte. destruct (Z.leb_spec c rem) as [H|H].
  - destruct (lookup_lt_is_Some_2 t (Z.to_nat (c - 1))) as [x Hx]; [lia|].
    replace (Z.to_nat (Z.of_nat tail + (c - 1))) with (tail + Z.to_nat (c - 1))%nat by lia.
    rewrite <- lookup_drop. fold t. rewrite Hx. cbn [mbind option_bind]. f_equal.
    rewrite (drop_S _ _ _ Hx). cbn [take val].
    replace (Z.to_nat (c + 1 - 1)) with (S (Z.to_nat (c - 1))) by lia.
    set (v := val 8 _). rewrite (Z.mul_comm (2 ^ 8)), <- Z.shiftl_mul_pow2 by lia.
    rewrite (Z.add_comm s 8), <- Z.shiftl_shiftl by lia.
    assert (in_range 8 x) as Hx8 by (apply (words_lookup 8 t (Z.to_nat (c - 1))); [by apply Forall_drop|done]).
    rewrite <- Z.shiftl_lxor. f_equal. rewrite Z.lxor_comm.
    rewrite Z.shiftl_mul_pow2, <- (lor_add x v 8), <- Z.shiftl_mul_pow2 by (done || lia).
    apply Z.bits_inj'. intros i Hi. rewrite Z.lxor_spec, Z.lor_spec, Z.shiftl_spec by lia.
    destruct (Z.lt_ge_cases i 8); [rewrite (Z.testbit_neg_r v) by lia; by destruct (Z.testbit x i)|].
    rewrite (testbit_high 8 x) by done. by destruct (Z.testbit v _).
  - rewrite !drop_ge by lia. rewrite !take_nil. cbn [val]. by rewrite !Z.shiftl_0_l.
Qed.

Lemma tail_mix_word c mix h v m : 1 <= c -> mix 0 = 0 -> v = val 8 (take m (drop (Z.to_nat (c - 1)) t)) ->
  tail_mix rem c mix h v = Z.lxor h (mix v).
Proof using.
  intros Hc Hm ->. unfold tail_mix. destruct (Z.leb_spec c rem); [done|].
  rewrite drop_ge by lia. rewrite take_nil. cbn [val]. by rewrite Hm, Z.lxor_0_r.
Qed.
End Murmur.

Lemma tail_word l tail c m w j : (tail + Z.to_nat (c - 1) = w * j)%nat ->
  (m = w \/ (length l < tail + Z.to_nat (c - 1) + w)%nat /\ S m = w) ->
  val 8 (take m (drop (Z.to_nat (c - 1)) (drop tail l))) = word w j l.
Proof.
  intros Hj Hm. unfold word. rewrite drop_drop, Hj. destruct Hm as [->|[Hm <-]]; [done|].
  rewrite !take_ge; [done|rewrite length_drop; lia..].
Qed.

(** The counter that starts at [-nblocks]. *)
Lemma up_counter n j : 0 <= n < 2 ^ 64 -> 0 <= j <= n ->
  u64 (u64 (j - n) + 1) = u64 (j + 1 - n) /\ (u64 (j - n) =? 0) = (j =? n).
Proof.
  intros Hn Hj. split; [rewrite uw_add_l; f_equal; lia|].
  destruct (Z.eqb_spec j n) as [->|]; [by rewrite Z.sub_diag|].
  assert (u64 (j - n) = j - n + 2 ^ 64) as ->.
  { apply uw_unique; [unfold in_range; lia|exists (-1); lia]. }
  apply Z.eqb_neq. lia.
Qed.

Lemma up_offset n j k m off : 0 <= m * n < 2 ^ 64 -> 0 <= j < n -> 0 <= k < m ->
  off = m * n + (m * u64 (j - n) + k) -> u64 off = m * j + k.
Proof.
  intros Hm Hj Hk ->. pose proof (uw_div_mod 64 (j - n) ltac:(done)) as E.
  apply uw_unique; [unfold in_range; nia|]. exists (- m * ((j - n) / 2 ^ 64)). nia.
Qed.

Section MurmurCorrect.
Context (l : list Z) (seed : Z) (Hl : words 8 l) (Hlen : Z.of_nat (length l) < 2 ^ 64).

Ltac first_byte c s := rewrite (tail_first l _ c s ltac:(done) ltac:(done)); cbn [mbind option_bind].
Ltac next_byte c s m := rewrite (tail_next l Hl _ c s _ m ltac:(done) ltac:(done) eq_refl); cbn [mbind option_bind].

Lemma x86_32_correct : MurmurHash3_x86_32 l (Z.of_nat (length l)) seed = Some (murmur_x86_32 l seed).
Proof using Hl Hlen.
  unfold MurmurHash3_x86_32, murmur_x86_32. set (n := (length l / 4)%nat).
  assert (Z.of_nat (length l) / 4 = Z.of_nat n) as -> by (unfold n; by rewrite Nat2Z.inj_div).
  assert (4 * n <= length l < 4 * n + 4)%nat as Hn by (unfold n; pose proof (Nat.div_mod_eq (length l) 4);
    pose proof (Nat.mod_upper_bound (length l) 4); lia).
  rewrite Nat2Z.id.
  replace (u64 (- Z.of_nat n)) with (u64 (Z.of_nat 0 - Z.of_nat n)) by done.
  rewrite (while_count (fun j => u64 (Z.of_nat j - Z.of_nat n)) (fun j h => u32 (rotl32 (Z.lxor h (mix32 x86_32_c1 15 x86_32_c2 (word 4 j l))) 13 * 5 + 0xe6546b64))).
  2:{ intros j h Hj. destruct (up_counter (Z.of_nat n) (Z.of_nat j)) as [E1 E2]; [lia..|]. cbn [fst].
      rewrite E2. split; [apply negb_true_iff, Z.eqb_neq; lia|]. unfold x86_32_body.
      rewrite (load32 l j); [|rewrite (up_offset (Z.of_nat n) (Z.of_nat j) 0 4) by lia; lia..].
      cbn [mbind option_bind]. rewrite E1. do 2 f_equal. f_equal. lia. }
  2:{ intros h. cbn [fst]. by rewrite Z.sub_diag. }
  cbn [mbind option_bind]. set (h := foldl _ _ _).
  replace (Z.of_nat n * 4) with (Z.of_nat (4 * n)) by lia.
  assert (Z.land (Z.of_nat (length l)) 3 = Z.of_nat (length (drop (4 * n) l))) as ->.
  { rewrite (land_mod _ 2), length_drop by done. change (2 ^ 2) with 4. Z.to_euclidean_division_equations; lia. }
  first_byte 3 16. next_byte 2 8 1%nat. next_byte 1 0 2%nat. rewrite Z.shiftl_0_r.
  rewrite (tail_mix_word l _ 1 _ _ _ 3) by done.
  rewrite (tail_word _ _ _ _ 4 n) by lia. done.
Qed.

(** The number of 16-byte blocks and the length of the tail. *)
Lemma blocks_16 : let n := (length l / 16)%nat in
  Z.of_nat (length l) / 16 = Z.of_nat n /\ (16 * n <= length l < 16 * n + 16)%nat /\
  Z.of_nat n * 16 = Z.of_nat (16 * n) /\ Z.land (Z.of_nat (length l)) 15 = Z.of_nat (length (drop (16 * n) l)).
Proof using.
  cbv zeta. set (n := (length l / 16)%nat).
  assert (16 * n <= length l < 16 * n + 16)%nat as Hn by (unfold n; pose proof (Nat.div_mod_eq (length l) 16);
    pose proof (Nat.mod_upper_bound (length l) 16); lia).
  split_and!; [unfold n; by rewrite Nat2Z.inj_div|lia..|].
  rewrite (land_mod _ 4), length_drop by done. change (2 ^ 4) with 16. Z.to_euclidean_division_equations; lia.
Qed.

Lemma x86_128_tail_correct n h : (16 * n <= length l < 16 * n + 16)%nat ->
  let '(h1, h2, h3, h4) := h in
  x86_128_tail l (Z.of_nat (16 * n)) (Z.of_nat (length (drop (16 * n) l))) h = Some
  (Z.lxor h1 (x86_128_mix1 (word 4 (4 * n) l)), Z.lxor h2 (x86_128_mix2 (word 4 (4 * n + 1) l)),
   Z.lxor h3 (x86_128_mix3 (word 4 (4 * n + 2) l)), Z.lxor h4 (x86_128_mix4 (word 4 (4 * n + 3) l))).
Proof using Hl.
  intros Hn. destruct h as [[[h1 h2] h3] h4]. unfold x86_128_tail.
  first_byte 15 16. next_byte 14 8 1%nat. next_byte 13 0 2%nat. rewrite Z.shiftl_0_r.
  rewrite (tail_mix_word l _ 13 _ _ _ 3), (tail_word _ _ _ _ 4 (4 * n + 3)) by (done || lia).
  first_byte 12 24. next_byte 11 16 1%nat. next_byte 10 8 2%nat. next_byte 9 0 3%nat. rewrite Z.shiftl_0_r.
  rewrite (tail_mix_word l _ 9 _ _ _ 4), (tail_word _ _ _ _ 4 (4 * n + 2)) by (done || lia).
  first_byte 8 24. next_byte 7 16 1%nat. next_byte 6 8 2%nat. next_byte 5 0 3%nat. rewrite Z.shiftl_0_r.
  rewrite (tail_mix_word l _ 5 _ _ _ 4), (tail_word _ _ _ _ 4 (4 * n + 1)) by (done || lia).
  first_byte 4 24. next_byte 3 16 1%nat. next_byte 2 8 2%nat. next_byte 1 0 3%nat. rewrite Z.shiftl_0_r.
  rewrite (tail_mix_word l _ 1 _ _ _ 4), (tail_word _ _ _ _ 4 (4 * n)) by (done || lia). done.
Qed.

Lemma x64_128_tail_correct n h : (16 * n <= length l < 16 * n + 16)%nat ->
  let '(h1, h2) := h in
  x64_128_tail l (Z.of_nat (16 * n)) (Z.of_nat (length (drop (16 * n) l))) h = Some
  (Z.lxor h1 (x64_128_mix1 (word 8 (2 * n) l)), Z.lxor h2 (x64_128_mix2 (word 8 (2 * n + 1) l))).
Proof using Hl.
  intros Hn. destruct h as [h1 h2]. unfold x64_128_tail.
  first_byte 15 48. next_byte 14 40 1%nat. next_byte 13 32 2%nat. next_byte 12 24 3%nat.
  next_byte 11 16 4%nat. next_byte 10 8 5%nat. next_byte 9 0 6%nat. rewrite Z.shiftl_0_r.
  rewrite (tail_mix_word l _ 9 _ _ _ 7), (tail_word _ _ _ _ 8 (2 * n + 1)) by (done || lia).
  first_byte 8 56. next_byte 7 48 1%nat. next_byte 6 40 2%nat. next_byte 5 32 3%nat. next_byte 4 24 4%nat.
  next_byte 3 16 5%nat. next_byte 2 8 6%nat. next_byte 1 0 7%nat. rewrite Z.shiftl_0_r.
  rewrite (tail_mix_word l _ 1 _ _ _ 8), (tail_word _ _ _ _ 8 (2 * n)) by (done || lia). done.
Qed.

Lemma x86_128_correct : MurmurHash3_x86_128 l (Z.of_nat (length l)) seed = Some (murmur_x86_128 l seed).
Proof using Hl Hlen.
  unfold MurmurHash3_x86_128, murmur_x86_128. destruct blocks_16 as (-> & Hn & -> & ->).
  set (n := (length l / 16)%nat) in *. rewrite Nat2Z.id.
  replace (u64 (- Z.of_nat n)) with (u64 (Z.of_nat 0 - Z.of_nat n)) by done.
  rewrite (while_count (fun j => u64 (Z.of_nat j - Z.of_nat n)) (fun j => x86_128_block (word 4 (4 * j) l)
    (word 4 (4 * j + 1) l) (word 4 (4 * j + 2) l) (word 4 (4 * j + 3) l))).
  2:{ intros j h Hj. destruct (up_counter (Z.of_nat n) (Z.of_nat j)) as [E1 E2]; [lia..|]. cbn [fst].
      rewrite E2. split; [apply negb_true_iff, Z.eqb_neq; lia|]. unfold x86_128_body.
      assert (forall k, 0 <= k < 4 -> u64 (Z.of_nat (16 * n) + 4 * (u64 (Z.of_nat j - Z.of_nat n) * 4 + k)) =
                               16 * Z.of_nat j + 4 * k) as Ho by (intros; apply (up_offset (Z.of_nat n)); lia).
      rewrite !Ho by lia.
      rewrite (load32 l (4 * j) (16 * Z.of_nat j + 4 * 0)), (load32 l (4 * j + 1) (16 * Z.of_nat j + 4 * 1)),
        (load32 l (4 * j + 2) (16 * Z.of_nat j + 4 * 2)), (load32 l (4 * j + 3) (16 * Z.of_nat j + 4 * 3)) by lia.
      cbn [mbind option_bind]. rewrite E1. do 3 f_equal. lia. }
  2:{ intros h. cbn [fst]. by rewrite Z.sub_diag. }
  cbn [mbind option_bind]. set (h := foldl _ _ _). pose proof (x86_128_tail_correct n h Hn) as Ht.
  destruct h as [[[h1 h2] h3] h4]. by rewrite Ht.
Qed.

Lemma x64_128_correct : MurmurHash3_x64_128 l (Z.of_nat (length l)) seed = Some (murmur_x64_128 l seed).
Proof using Hl Hlen.
  unfold MurmurHash3_x64_128, murmur_x64_128. destruct blocks_16 as (-> & Hn & -> & ->).
  set (n := (length l / 16)%nat) in *. rewrite Nat2Z.id.
  rewrite (while_count Z.of_nat (fun j => x64_128_block (word 8 (2 * j) l) (word 8 (2 * j + 1) l))).
  2:{ intros j h Hj. cbn [fst]. split; [apply Z.ltb_lt; lia|]. unfold x64_128_body.
      rewrite (load64 l (2 * j) (8 * (Z.of_nat j * 2 + 0))), (load64 l (2 * j + 1)) by lia. cbn [mbind option_bind].
      rewrite uw_small by (unfold in_range; lia). do 3 f_equal. lia. }
  2:{ intros h. cbn [fst]. apply Z.ltb_irrefl. }
  cbn [mbind option_bind]. set (h := foldl _ _ _). pose proof (x64_128_tail_correct n h Hn) as Ht.
  destruct h as [h1 h2]. by rewrite Ht.
Qed.
End MurmurCorrect.

(** C29: the integer hashes and MurmurHash3's finalisers permute the 32- or
    64-bit words (in range and injective), and [bitmix] does in each argument
    when the other is fixed: distinct words never collide. *)
Theorem hashes_injective :
  perm 32 int32hash /\ perm 64 int64hash /\ perm 32 fmix32 /\ perm 64 fmix64 /\
  (forall b, in_range 64 b -> perm 64 (fun a => bitmix a b)) /\
  (forall a, in_range 64 a -> perm 64 (fun b => bitmix a b)).
Proof.
  split_and!; [apply perm_int32hash|apply perm_int64hash|apply perm_fmix32|apply perm_fmix64|..].
  - intros b Hb. apply (perm_compose 64 (fun a => Z.lxor a (bswap_64 b)) int64hash); [|apply perm_int64hash].
    apply perm_xor; [done|apply bswap_64_range].
  - intros a Ha. apply (perm_compose 64 (fun b => Z.lxor a (bswap_64 b)) int64hash); [|apply perm_int64hash].
    apply (perm_compose 64 bswap_64 (fun x => Z.lxor a x)).
    + split; [intros; apply bswap_64_range|]. intros x y Hx Hy E.
      by rewrite <- (bswap_64_involutive x), <- (bswap_64_involutive y), E.
    + apply (perm_ext _ (fun x => Z.lxor x a)); [intros; apply Z.lxor_comm|]. by apply perm_xor.
Qed.

(** C30: the three MurmurHash3 routines, and the [memhash] family over them,
    read no byte outside the [n] of the buffer, end, and compute the hash of the
    little-endian words of its whole blocks followed by its tail padded with
    zeros (the fall-through switch over the tail's length assembles it). *)
Theorem memhash_correct buf seed : words 8 buf -> Z.of_nat (length buf) < 2 ^ 64 ->
  let n := Z.of_nat (length buf) in
  MurmurHash3_x86_32 buf n seed = Some (murmur_x86_32 buf seed) /\
  MurmurHash3_x86_128 buf n seed = Some (murmur_x86_128 buf seed) /\
  MurmurHash3_x64_128 buf n seed = Some (murmur_x64_128 buf seed) /\
  memhash buf n = Some (murmur_x64_128 buf 0xcafe8881).2 /\ memhash_seed buf n seed = Some (murmur_x64_128 buf seed).2 /\
  memhash32 buf n = Some (murmur_x86_32 buf 0xcafe8881) /\ memhash32_seed buf n seed = Some (murmur_x86_32 buf seed).
Proof.
  intros Hb Hn. cbv zeta. unfold memhash, memhash_seed, memhash32, memhash32_seed, MHASH_SEED_.
  rewrite !x86_32_correct, !x86_128_correct, !x64_128_correct by done. done.
Qed.
Lemma memhash_correct_witness :
  words 8 [0x68; 0x65; 0x6c; 0x6c; 0x6f] /\ murmur_x86_32 [0x68; 0x65; 0x6c; 0x6c; 0x6f] 0 = 0x248bfa47.
Proof.
  assert (words 8 [0x68; 0x65; 0x6c; 0x6c; 0x6f]) as H
    by (repeat (apply Forall_cons_2; [unfold in_range; lia|]); apply Forall_nil_2).
  split; [exact H|]. apply (inj Some). rewrite <- (proj1 (memhash_correct _ 0 H eq_refl)). vm_compute. reflexivity.
Defined.
