(* ===== verification/Int2str.v ===== *)
(** * Numbers as text: src/src/support/int2str.c

    [uint2str] writes the digits of a number from the end of a buffer; a [char]
    is the byte that holds it. *)
From S2P Require Import Prelude.

(** [dest[i] = c]; [None] outside the buffer. *)
Definition store (dest : list Z) (i c : Z) : option (list Z) :=
  if (0 <=? i) && (i <? Z.of_nat (length dest)) then Some (<[Z.to_nat i := u8 c]> dest) else None.

(** The loop writes one character per round: at most [i + 1] rounds. *)
Fixpoint uint2str_loop (fuel : nat) (dest : list Z) (i num b : Z) : option (list Z * Z) :=
  match fuel with
  | O => None
  | S fuel =>
      if 0 <=? i then
        if b =? 0 then None else
        let ch := sw 8 (num mod b) in
        let ch := if ch <? 10 then sw 8 (ch + 48) else sw 8 (ch - 10 + 97) in
        dest ← store dest i ch;
        let num := num / b in
        if num =? 0 then Some (dest, i - 1) else uint2str_loop fuel dest (i - 1) num b
      else Some (dest, i)
  end.

(** The new buffer and the index of the first character. *)
Definition uint2str (dest : list Z) (len num base : Z) : option (list Z * Z) :=
  let i := sw 32 (len - 1) in
  dest ← store dest i 0;
  r ← uint2str_loop (S (Z.to_nat i)) dest (i - 1) num base;
  Some (r.1, r.2 + 1).

Definition isdigit_base (c base : Z) : bool :=
  let c := sw 8 c in
  if base <? 11 then (48 <=? c) && (c <? 48 + base)
  else ((48 <=? c) && (c <=? 57)) || ((97 <=? c) && (c <? 97 + base - 10)) || ((65 <=? c) && (c <? 65 + base - 10)).

(** The C string at [p]: the bytes before the first NUL. *)
Fixpoint cstr (l : list Z) : list Z :=
  match l with [] => [] | c :: l => if c =? 0 then [] else c :: cstr l end.
Definition string_at (buf : list Z) (p : Z) : list Z := cstr (drop (Z.to_nat p) buf).

Example base_10 : (r ← uint2str (replicate 14 0xff) 14 4294967295 10; Some (string_at r.1 r.2)) =
  Some [52; 50; 57; 52; 57; 54; 55; 50; 57; 53].
Proof. reflexivity. Qed.

(** ** What a string of digits stands for *)

Definition digit_value (c : Z) : Z := if c <? 58 then c - 48 else if c <? 91 then c - 65 + 10 else c - 97 + 10.
Definition parse (base : Z) (s : list Z) : Z := foldl (fun v c => v * base + digit_value c) 0 s.

(** The character of a digit. *)
Definition digit_char (d : Z) : Z := if d <? 10 then d + 48 else d - 10 + 97.

Lemma parse_snoc base s c : parse base (s ++ [c]) = parse base s * base + digit_value c.
Proof. unfold parse. by rewrite foldl_app. Qed.

Lemma digit_char_value d base : 0 <= d < base -> base <= 36 ->
  isdigit_base (digit_char d) base = true /\ digit_value (digit_char d) = d /\ 48 <= digit_char d < 123 /\
  (digit_char d = 48 <-> d = 0).
Proof.
  intros Hd Hb. unfold isdigit_base, digit_value, digit_char. destruct (Z.ltb_spec d 10).
  - rewrite sw_small by lia. split_and!; [|zcases; lia|lia..].
    destruct (Z.ltb_spec base 11); [apply andb_true_iff; lia|]. do 2 (apply orb_true_iff; left). apply andb_true_iff; lia.
  - rewrite sw_small by lia. split_and!; [|zcases; lia|lia..].
    destruct (Z.ltb_spec base 11); [lia|]. apply orb_true_iff; left. apply orb_true_iff; right. apply andb_true_iff; lia.
Qed.

Lemma store_in dest i c : 0 <= i < Z.of_nat (length dest) -> in_range 8 c -> store dest i c = Some (<[Z.to_nat i := c]> dest).
Proof.
  intros Hi Hc. unfold store. rewrite (uw_small 8 c) by done.
  destruct (Z.leb_spec 0 i), (Z.ltb_spec i (Z.of_nat (length dest))); try lia. done.
Qed.

(** The characters that the loop writes when it starts at [i]. *)
Record digits_of (base num i : Z) (s : list Z) : Prop := {
  digits_fit : Z.of_nat (length s) <= i + 1;
  digits_ok : Forall (fun c => isdigit_base c base = true /\ 48 <= c < 123) s;
  digits_value : parse base s = num mod base ^ (i + 1);
  digits_lead : 0 <= i -> num < base ^ (i + 1) -> s <> [] /\ (num = 0 -> s = [48]) /\ (num <> 0 -> get s 0 <> 48);
}.

Lemma digits_of_one base num i : 2 <= base <= 36 -> 0 <= i -> 0 <= num < base ->
  digits_of base num i [digit_char num].
Proof.
  intros Hb Hi Hn. destruct (digit_char_value num base) as (D1 & D2 & D3 & D4); [lia..|]. split.
  - simpl. lia.
  - apply Forall_singleton. by split.
  - unfold parse. simpl. rewrite D2. symmetry. apply Z.mod_small. rewrite Z.pow_add_r, Z.pow_1_r by lia.
    assert (0 < base ^ i) by (apply Z.pow_pos_nonneg; lia). nia.
  - intros _ _. split_and!; [done|intros ->; done|]. unfold get. simpl. lia.
Qed.

Lemma digits_of_snoc base num i s : 2 <= base <= 36 -> 0 <= i -> base <= num ->
  digits_of base (num / base) (i - 1) s -> digits_of base num i (s ++ [digit_char (num mod base)]).
Proof.
  intros Hb Hi Hn [L O V F]. assert (0 <= num mod base < base) as Hm by (apply Z.mod_pos_bound; lia).
  destruct (digit_char_value (num mod base) base) as (D1 & D2 & D3 & D4); [lia..|].
  rewrite Z.sub_add in *. split.
  - rewrite length_app. simpl. lia.
  - apply Forall_app. split; [done|]. apply Forall_singleton. by split.
  - rewrite parse_snoc, V, D2, Z.pow_add_r, Z.pow_1_r, (Z.mul_comm (base ^ i)) by lia.
    assert (0 < base ^ i) by (apply Z.pow_pos_nonneg; lia). rewrite Z.rem_mul_r by lia. lia.
  - intros _ Hlt. rewrite Z.pow_add_r, Z.pow_1_r in Hlt by lia.
    assert (num / base < base ^ i) as Hq by (apply Z.div_lt_upper_bound; lia).
    assert (1 <= num / base) as Hq1 by (apply Z.div_le_lower_bound; lia).
    destruct (Z.eq_dec i 0) as [->|]; [rewrite Z.pow_0_r in Hq; lia|].
    destruct (F ltac:(lia) Hq) as (F1 & _ & F3). split; [by destruct s|]. split; [lia|]. intros _.
    destruct s as [|c s]; [done|]. unfold get in *. simpl in *. apply F3. lia.
Qed.

Lemma insert_segment (dest s : list Z) p i c : (p + length s = i)%nat -> (i < length dest)%nat ->
  take p (<[i := c]> dest) ++ s ++ drop i (<[i := c]> dest) = take p dest ++ (s ++ [c]) ++ drop (S i) dest.
Proof.
  intros Hp Hi. rewrite take_insert_ge by lia. rewrite (drop_S _ c) by (apply list_lookup_insert_eq; lia).
  rewrite drop_insert_lt by lia. by rewrite <- !app_assoc.
Qed.

Lemma uint2str_loop_correct base : 2 <= base <= 36 ->
  forall fuel dest i num, -1 <= i < Z.of_nat (length dest) -> i + 1 < Z.of_nat fuel -> 0 <= num ->
  exists s, digits_of base num i s /\ uint2str_loop fuel dest i num base =
    Some (take (Z.to_nat (i + 1) - length s) dest ++ s ++ drop (Z.to_nat (i + 1)) dest, i - Z.of_nat (length s)).
Proof.
  intros Hb. induction fuel as [|fuel IH]; intros dest i num Hi Hf Hn; cbn [uint2str_loop]; [lia|].
  destruct (Z.leb_spec 0 i) as [Hi0|Hi0]; [|assert (i = -1) as -> by lia].
  2: exists []; split; [split; [done|done|by rewrite Z.mod_1_r|lia]|]; simpl; by rewrite drop_0.
  destruct (Z.eqb_spec base 0); [lia|]. assert (0 <= num mod base < base) as Hm by (apply Z.mod_pos_bound; lia).
  destruct (digit_char_value (num mod base) base) as (_ & _ & D3 & _); [lia..|].
  assert (sw 8 (num mod base) = num mod base) as -> by (apply sw_small; lia).
  assert ((if num mod base <? 10 then sw 8 (num mod base + 48) else sw 8 (num mod base - 10 + 97)) = digit_char (num mod base)) as ->
    by (unfold digit_char in *; destruct (num mod base <? 10); apply sw_small; lia).
  rewrite store_in by (unfold in_range; lia). cbn [mbind option_bind].
  destruct (Z.eqb_spec (num / base) 0) as [Hq|Hq].
  - assert (num < base) as Hlt by (apply Z.div_small_iff in Hq; lia). rewrite Z.mod_small in * by lia.
    exists [digit_char num]. split; [by apply digits_of_one|].
    pose proof (insert_segment dest [] (Z.to_nat i) (Z.to_nat i) (digit_char num) ltac:(simpl; lia) ltac:(lia)) as E.
    cbn [app] in E. rewrite take_drop in E. rewrite E. cbn [app length].
    replace (Z.to_nat (i + 1) - 1)%nat with (Z.to_nat i) by lia. by replace (Z.to_nat (i + 1)) with (S (Z.to_nat i)) by lia.
  - assert (base <= num) as Hge by (apply Z.nlt_ge; intros ?; apply Hq, Z.div_small; lia).
    destruct (IH (<[Z.to_nat i := digit_char (num mod base)]> dest) (i - 1) (num / base)) as (s & Hs & E);
      [rewrite length_insert; lia|lia|apply Z.div_pos; lia|].
    exists (s ++ [digit_char (num mod base)]). split; [by apply digits_of_snoc|]. rewrite Z.sub_add in E. rewrite E.
    pose proof (digits_fit _ _ _ _ Hs). rewrite insert_segment by lia. rewrite length_app. simpl.
    do 2 f_equal; [|lia]. f_equal; [f_equal; lia|]. do 2 f_equal. lia.
Qed.

(** [uint2str] fills the end of its buffer: the digits of the number, most
    significant first, then a NUL. When the buffer is too short it keeps the low
    digits. *)
Theorem uint2str_correct dest len num base :
  2 <= base <= 36 -> 0 <= num -> 2 <= len <= Z.of_nat (length dest) -> len <= 2 ^ 31 ->
  exists s, digits_of base num (len - 2) s /\ uint2str dest len num base =
    Some (take (Z.to_nat (len - 1) - length s) dest ++ s ++ 0 :: drop (Z.to_nat len) dest, len - 1 - Z.of_nat (length s)).
Proof.
  intros Hb Hn Hl Hl31. unfold uint2str. rewrite sw_small by lia. rewrite store_in by (unfold in_range; lia). cbn [mbind option_bind].
  replace (len - 1 - 1) with (len - 2) by lia.
  destruct (uint2str_loop_correct base Hb (S (Z.to_nat (len - 1))) (<[Z.to_nat (len - 1) := 0]> dest) (len - 2) num) as (s & Hs & E);
    [rewrite length_insert; lia|lia|done|].
  exists s. split; [done|]. rewrite E. cbn [mbind option_bind fst snd]. pose proof (digits_fit _ _ _ _ Hs).
  replace (len - 2 + 1) with (len - 1) by lia. rewrite insert_segment by lia. rewrite <- app_assoc.
  replace (S (Z.to_nat (len - 1))) with (Z.to_nat len) by lia. do 2 f_equal. lia.
Qed.

(** The string that the caller sees. *)
Corollary uint2str_string dest len num base :
  2 <= base <= 36 -> 0 <= num -> 2 <= len <= Z.of_nat (length dest) -> len <= 2 ^ 31 ->
  exists buf p s, uint2str dest len num base = Some (buf, p) /\ 0 <= p < len /\ string_at buf p = s /\ p = len - 1 - Z.of_nat (length s) /\
    digits_of base num (len - 2) s.
Proof.
  intros Hb Hn Hl Hl31. destruct (uint2str_correct dest len num base) as (s & Hs & E); [done..|].
  pose proof (digits_fit _ _ _ _ Hs). eexists _, _, s. split; [exact E|]. split; [lia|]. split_and!; [|done|done].
  unfold string_at. rewrite drop_app_length' by (rewrite length_take; lia).
  pose proof (digits_ok _ _ _ _ Hs) as Ho. clear - Ho. induction Ho as [|c s [_ Hc] _ IH]; [done|]. cbn [app cstr].
  destruct (Z.eqb_spec c 0); [lia|]. by rewrite IH.
Qed.
