(* ===== verification/Symbol.v ===== *)
(** * Symbols: src/src/symbol.c

    A symbol is an index of [heap], where allocation appends; its [name] leaves
    out the terminating NUL. A [slot] points to an atomic
    [jl_sym_t] pointer: the root or a child. A C string is
    the list of its bytes, none of them 0. *)
From S2P Require Import Prelude Hashing HashingFacts Int2str.

Record jl_sym_t := { left : option nat; right : option nat; hash : Z; name : list Z }.
Inductive slot := symtab | slot_left (node : nat) | slot_right (node : nat).
#[export] Instance slot_eq_dec : EqDecision slot.
Proof. solve_decision. Defined.

(** The symbol table: its root and the permanent allocations. *)
Record table := { root : option nat; heap : list jl_sym_t }.
Definition empty_table : table := {| root := None; heap := [] |}.

(** [jl_atomic_load_relaxed] and [jl_atomic_store_release]; the outer [option]
    is an access outside the heap. *)
Definition load (t : table) (p : slot) : option (option nat) :=
  match p with
  | symtab => Some (root t)
  | slot_left n => left <$> heap t !! n
  | slot_right n => right <$> heap t !! n
  end.

Definition set_left (p : option nat) (s : jl_sym_t) := {| left := p; right := right s; hash := hash s; name := name s |}.
Definition set_right (p : option nat) (s : jl_sym_t) := {| left := left s; right := p; hash := hash s; name := name s |}.
Definition write (t : table) (p : slot) (v : nat) : table :=
  match p with
  | symtab => {| root := Some v; heap := heap t |}
  | slot_left n => {| root := root t; heap := alter (set_left (Some v)) n (heap t) |}
  | slot_right n => {| root := root t; heap := alter (set_right (Some v)) n (heap t) |}
  end.

Definition INTPTR_MAX : Z := 0x7fffffffffffffff.
(** [sizeof(jl_taggedvalue_t)] is 8 and [sizeof(jl_sym_t)] is 24. *)
Definition MAX_SYM_LEN : Z := INTPTR_MAX - 8 - 24 - 1.

Definition len (str : list Z) : Z := Z.of_nat (length str).

Definition hash_symbol (str : list Z) : option Z :=
  h ← memhash str (len str);
  let oid := Z.lxor h (u64 (Z.lnot 0) / 3 * 2) in
  Some (int64hash (u64 (- oid))).

Definition symbol_nbytes (len : Z) : Z := Z.land (u64 (24 + len + 1 + 7)) (u64 (-8)).

(** The new symbol is the last cell of the heap. *)
Definition mk_symbol (t : table) (str : list Z) : option (table * nat) :=
  h ← hash_symbol str;
  Some ({| root := root t; heap := heap t ++ [{| left := None; right := None; hash := h; name := str |}] |}, length (heap t)).

(** C's [strncmp], up to its sign. *)
Fixpoint strncmp (a b : list Z) (n : nat) : Z :=
  match n with
  | O => 0
  | S n => let x := get a 0 in let y := get b 0 in
           if negb (x =? y) then x - y else if x =? 0 then 0 else strncmp (tail a) (tail b) n
  end.

(** One round at a [node] that is not NULL: [Some None] returns it, [Some (Some
    ptree)] goes on. *)
Definition symtab_visit (t : table) (str : list Z) (h : Z) (node : nat) : option (option slot) :=
  n ← heap t !! node;
  let cname := name n ++ [0] in
  let x := sw 64 (h - hash n) in
  let x' := if x =? 0 then strncmp str cname (length str) else x in
  if (x =? 0) && (x' =? 0) && (get cname (length str) =? 0) then Some None
  else Some (Some (if x' <? 0 then slot_left node else slot_right node)).

Fixpoint symtab_walk (fuel : nat) (t : table) (ptree : slot) (str : list Z) (h : Z) : option (option nat * slot) :=
  match fuel with
  | O => None
  | S fuel =>
      node ← load t ptree;
      match node with
      | None => Some (None, ptree)
      | Some node =>
          r ← symtab_visit t str h node;
          match r with None => Some (Some node, ptree) | Some ptree => symtab_walk fuel t ptree str h end
      end
  end.

(** The node and [*slot]; the walk goes down the tree, whose depth is at most
    the number of symbols. *)
Definition symtab_lookup (t : table) (ptree : slot) (str : list Z) : option (option nat * slot) :=
  h ← hash_symbol str;
  symtab_walk (S (length (heap t))) t ptree str h.

Inductive jl_exn := ArgumentError (msg : string).

Definition _jl_symbol (t : table) (str : list Z) : option ((table * nat) + jl_exn) :=
  if MAX_SYM_LEN <? len str then Some (inr (ArgumentError "Symbol name too long")) else
  '(node, slot) ← symtab_lookup t symtab str;
  match node with
  | Some node => Some (inl (t, node))
  | None =>
      (* the lock is taken *)
      again ← load t slot;
      r ← (match again with None => Some (None, slot) | Some _ => symtab_lookup t slot str end);
      match r with
      | (Some node, _) => Some (inl (t, node))
      | (None, slot) =>
          '(t, node) ← mk_symbol t str;
          Some (inl (write t slot node, node))
      end
  end.

Definition jl_symbol (t : table) (str : list Z) := _jl_symbol t str.
(** [Some None] is NULL. *)
Definition jl_symbol_lookup (t : table) (str : list Z) : option (option nat) := r ← symtab_lookup t symtab str; Some r.1.
(** [memchr(str, 0, len)] *)
Definition has_nul (str : list Z) : bool := existsb (Z.eqb 0) str.
Definition jl_symbol_n (t : table) (str : list Z) : option ((table * nat) + jl_exn) :=
  if has_nul str then Some (inr (ArgumentError "Symbol name may not contain \0")) else _jl_symbol t str.
Definition jl_get_root_symbol (t : table) : option nat := root t.

(** ** Generated symbols *)

(** The state is the counter. *)
Definition jl_get_gs_ctr (gs_ctr : Z) : Z := gs_ctr.
Definition jl_set_gs_ctr (gs_ctr ctr : Z) : Z := u32 ctr.
(** [jl_atomic_fetch_add_relaxed(&gs_ctr, 1)] *)
Definition next_ctr (ctr : Z) : Z := u32 (ctr + 1).

(** [junk]: the contents of the uninitialised [name]. *)
Definition gensym_name (junk : list Z) (ctr : Z) : option (list Z) :=
  '(dest, n) ← uint2str (drop 2 junk) 14 ctr 10;
  let name := take 2 junk ++ dest in
  let n := n + 2 in
  name ← store name (n - 1) 35;
  name ← store name (n - 2) 35;
  Some (string_at name (n - 2)).

Definition jl_gensym (junk : list Z) (t : table) (gs_ctr : Z) : option (((table * nat) + jl_exn) * Z) :=
  str ← gensym_name junk gs_ctr;
  r ← jl_symbol t str;
  Some (r, next_ctr gs_ctr).

(** The string that [name] holds up to the length passed on. *)
Definition tagged_name (junk : list Z) (ctr : Z) (str : list Z) : option (list Z) :=
  let alloc_len := u64 (14 + len str + 3) in
  '(gs_name, n) ← uint2str junk 14 ctr 10;
  let name := [35; 35] ++ str ++ [35] ++ drop (Z.to_nat n) gs_name in
  Some (take (Z.to_nat (u64 (alloc_len - n - 1))) name).

(** [str] with its length; [given_len] is false for [len == (size_t)-1]. *)
Definition jl_tagged_gensym (junk : list Z) (t : table) (gs_ctr : Z) (str : list Z) (given_len : bool) :
  option (((table * nat) + jl_exn) * Z) :=
  let str := if given_len then str else cstr str in
  if given_len && has_nul str then Some (inr (ArgumentError "Symbol name may not contain \0"), gs_ctr) else
  let alloc_len := u64 (14 + len str + 3) in
  if (MAX_SYM_LEN <? len str) || (MAX_SYM_LEN <? alloc_len) then Some (inr (ArgumentError "Symbol name too long"), gs_ctr) else
  name ← tagged_name junk gs_ctr str;
  r ← _jl_symbol t name;
  Some (r, next_ctr gs_ctr).

Example interned :
  (r ← jl_symbol empty_table [97]; match r with inl (t, n) => r ← jl_symbol t [98]; match r with inl (t, n') => r ← jl_symbol t [97];
   match r with inl (t, n'') => Some (n, n', n'', length (heap t)) | _ => None end | _ => None end | _ => None end) = Some (0, 1, 0, 2)%nat.
Proof. vm_compute. reflexivity. Qed.

Example gensym_7 : gensym_name (replicate 16 0xff) 7 = Some [35; 35; 55].
Proof. reflexivity. Qed.
