(* ===== verification/SymbolFacts.v ===== *)
(** * Symbols: the shape of the tree, and the walk in it

    The tree is not searched by an order: the comparison of the hashes is that of
    their difference modulo 2^64, which is not transitive. What makes the walk
    find a symbol is that each node sends a string the same way each time, and
    that insertion only replaces a NULL at the end of a walk. *)
From stdpp Require Import relations.
From S2P Require Import Prelude Hashing HashingFacts Int2str Symbol.

(** * Symbols: the shape of the tree, and the walk in it *)

(** The strings that name symbols: bytes other than NUL, of a [size_t] length. *)
Definition c_name (str : list Z) : Prop := words 8 str /\ (0 ∉ str) /\ len str < 2 ^ 64.

Lemma hash_symbol_total str : c_name str -> exists h, hash_symbol str = Some h.
Proof.
  intros (Hw & _ & Hl). unfold hash_symbol, len.
  unfold memhash. rewrite x64_128_correct by done. by eexists.
Qed.

(** ** One node *)

Lemma strncmp_prefix a b : strncmp a (a ++ b) (length a) = 0.
Proof.
  induction a as [|x a IH]; [done|]. cbn [app length strncmp]. unfold get. cbn [nth]. rewrite Z.eqb_refl. cbn [negb tail].
  destruct (Z.eqb_spec x 0); [done|]. exact IH.
Qed.

Lemma strncmp_eq a b : 0 ∉ a -> strncmp a (b ++ [0]) (length a) = 0 -> exists c, b = a ++ c.
Proof.
  revert b. induction a as [|x a IH]; intros b Ha; [by exists b|]. apply not_elem_of_cons in Ha as [Hx Ha].
  destruct b as [|y b]; cbn [app length strncmp]; unfold get; cbn [nth tail].
  - destruct (Z.eqb_spec x 0); [lia|]. cbn [negb]. lia.
  - destruct (Z.eqb_spec x y) as [->|]; cbn [negb]; [|lia]. destruct (Z.eqb_spec y 0); [lia|].
    intros E. destruct (IH b Ha E) as [c ->]. by exists c.
Qed.

Lemma sw_diff_0 a b : in_range 64 a -> in_range 64 b -> sw 64 (a - b) = 0 -> a = b.
Proof.
  unfold in_range. intros Ha Hb E. assert (uw 64 (a - b) = 0) as E' by (rewrite <- uw_sw, E by lia; done).
  unfold uw in E'. apply Z.mod_divide in E' as [k Hk]; lia.
Qed.

Section Node.
Context (t : table) (str : list Z) (h : Z) (n : nat) (s : jl_sym_t).
Context (Hn : heap t !! n = Some s).

(** A visit reads the name and the hash only, and goes to a child. *)
Lemma visit_cases : symtab_visit t str h n = Some None \/
  symtab_visit t str h n = Some (Some (slot_left n)) \/ symtab_visit t str h n = Some (Some (slot_right n)).
Proof using Hn.
  unfold symtab_visit. rewrite Hn. cbn [mbind option_bind]. cbv zeta. destruct (_ && _); [by left|right]. destruct (_ <? 0); [by left|by right].
Qed.

Lemma visit_match : c_name str -> 0 ∉ name s -> hash_symbol str = Some h -> hash_symbol (name s) = Some (hash s) ->
  symtab_visit t str h n = Some None <-> name s = str.
Proof using Hn.
  intros (_ & Hs & _) Hns Hh Hhs. unfold symtab_visit. rewrite Hn. cbn [mbind option_bind]. cbv zeta. split.
  - destruct (Z.eqb_spec (sw 64 (h - hash s)) 0); cbn [andb]; [|done].
    destruct (Z.eqb_spec (strncmp str (name s ++ [0]) (length str)) 0) as [E|]; cbn [andb]; [|done].
    destruct (Z.eqb_spec (get (name s ++ [0]) (length str)) 0) as [G|]; [|done]. intros _.
    destruct (strncmp_eq _ _ Hs E) as [c Ec]. rewrite Ec in *. destruct c as [|x c]; [by rewrite app_nil_r|].
    unfold get in G. rewrite <- app_assoc, app_nth2, Nat.sub_diag in G by lia. cbn in G.
    exfalso. apply Hns. subst x. apply elem_of_app. right. by left.
  - intros E. rewrite E in *. rewrite Hh in Hhs. injection Hhs as ->.
    rewrite Z.sub_diag, strncmp_prefix. unfold get. rewrite app_nth2, Nat.sub_diag by lia. done.
Qed.
End Node.

(** ** Walks *)

(** The walk for [str] goes on from slot [p] to slot [q]. *)
Definition next (t : table) (str : list Z) (h : Z) (p q : slot) : Prop :=
  exists n, load t p = Some (Some n) /\ symtab_visit t str h n = Some (Some q).
Definition on_path (t : table) (str : list Z) (h : Z) : slot -> Prop := rtc (next t str h) symtab.

Lemma next_det t str h p q q' : next t str h p q -> next t str h p q' -> q = q'.
Proof. intros (n & E1 & E2) (n' & E1' & E2'). congruence. Qed.

(** A walk has one end. *)
Lemma path_end t str h p q : on_path t str h p -> on_path t str h q -> nf (next t str h) p -> nf (next t str h) q -> p = q.
Proof.
  unfold on_path. generalize symtab. intros o Hp. revert q. induction Hp as [o|o o' p Hs Hp IH]; intros q Hq N1 N2.
  - inversion Hq as [|? ? ? Hs ?]; subst; [done|]. exfalso. apply N1. by eexists.
  - inversion Hq as [|? o'' ? Hs' Hq']; subst; [exfalso; apply N2; by eexists|].
    rewrite (next_det _ _ _ _ _ _ Hs' Hs) in Hq'. by apply IH.
Qed.

(** ** Growth *)

(** Later tables keep the names, the hashes and the links. *)
Record grows (t t' : table) : Prop := {
  grows_node n s : heap t !! n = Some s -> exists s', heap t' !! n = Some s' /\ name s' = name s /\ hash s' = hash s;
  grows_load p n : load t p = Some (Some n) -> load t' p = Some (Some n);
}.

#[export] Instance grows_preorder : PreOrder grows.
Proof.
  split.
  - intros t. split; [intros n s H; by exists s|done].
  - intros t1 t2 t3 [A1 B1] [A2 B2]. split; [|auto]. intros n s (s' & H & E1 & E2)%A1.
    destruct (A2 _ _ H) as (s'' & H' & E3 & E4). exists s''. split_and!; congruence.
Qed.

Lemma visit_grows t t' str h n : grows t t' -> is_Some (heap t !! n) -> symtab_visit t' str h n = symtab_visit t str h n.
Proof.
  intros [G _] [s Hs]. destruct (G _ _ Hs) as (s' & Hs' & E1 & E2). unfold symtab_visit. rewrite Hs, Hs'. cbn [mbind option_bind]. by rewrite E1, E2.
Qed.

Lemma visit_in t str h n r : symtab_visit t str h n = Some r -> is_Some (heap t !! n).
Proof. unfold symtab_visit. by destruct (heap t !! n). Qed.

Lemma next_grows t t' str h p q : grows t t' -> next t str h p q -> next t' str h p q.
Proof.
  intros G (n & E1 & E2). exists n. split; [by apply (grows_load _ _ G)|]. rewrite (visit_grows t) by eauto using visit_in. done.
Qed.

Lemma path_grows t t' str h p : grows t t' -> on_path t str h p -> on_path t' str h p.
Proof. intros G. apply (rtc_subrel (next t str h)). intros ? ?. by apply next_grows. Qed.

(** ** Well-formed tables *)

(** The index of the symbol whose child a slot is. *)
Definition parent (p : slot) : Z := match p with symtab => -1 | slot_left n | slot_right n => Z.of_nat n end.

Record wf (t : table) : Prop := {
  wf_name n s : heap t !! n = Some s -> c_name (name s) /\ hash_symbol (name s) = Some (hash s);
  wf_path n s : heap t !! n = Some s -> exists p, on_path t (name s) (hash s) p /\ load t p = Some (Some n);
  wf_order p n : load t p = Some (Some n) -> parent p < Z.of_nat n < Z.of_nat (length (heap t));
}.

Lemma wf_empty_table : wf empty_table.
Proof. split; [done..|]. intros [] n; done. Qed.

Definition names (t : table) : list (list Z) := map name (heap t).

Section Wf.
Context (t : table) (Hwf : wf t).

Lemma visit_eq str h n s : heap t !! n = Some s -> c_name str -> hash_symbol str = Some h ->
  symtab_visit t str h n = Some None <-> name s = str.
Proof using Hwf. intros Hn Hs Hh. destruct (wf_name _ Hwf _ _ Hn) as [(? & ? & ?) ?]. by apply visit_match. Qed.

(** The slots that end a walk: the empty one, and the one of the symbol. *)
Lemma end_null str h p : load t p = Some None -> nf (next t str h) p.
Proof using. intros E [q (n & E' & _)]. congruence. Qed.
Lemma end_match str h p n : load t p = Some (Some n) -> symtab_visit t str h n = Some None -> nf (next t str h) p.
Proof using. intros E V [q (n' & E' & V')]. congruence. Qed.

(** A string is interned once. *)
Lemma wf_unique n m s s' : heap t !! n = Some s -> heap t !! m = Some s' -> name s = name s' -> n = m.
Proof using Hwf.
  intros Hn Hm E. destruct (wf_name _ Hwf _ _ Hn) as [Cn Hh], (wf_name _ Hwf _ _ Hm) as [Cm Hh'].
  rewrite E in Hh. assert (hash s = hash s') as Eh by congruence.
  destruct (wf_path _ Hwf _ _ Hn) as (p & P1 & P2), (wf_path _ Hwf _ _ Hm) as (q & Q1 & Q2). rewrite E, Eh in P1.
  assert (p = q) as ->; [|congruence].
  apply (path_end _ _ _ _ _ P1 Q1); eapply end_match; try eassumption; eapply visit_eq; eauto.
Qed.

Lemma names_NoDup : NoDup (names t).
Proof using Hwf.
  apply NoDup_alt. intros i j x Hi Hj. unfold names in *. rewrite list_lookup_fmap in Hi, Hj.
  destruct (heap t !! i) as [s|] eqn:Ei; [|done]. destruct (heap t !! j) as [s'|] eqn:Ej; [|done]. cbn in Hi, Hj.
  eapply wf_unique; [done..|congruence].
Qed.

(** A walk stays in the heap. *)
Lemma next_load str h p q : next t str h p q -> is_Some (load t q) /\ parent p < parent q.
Proof using Hwf.
  intros (n & E & V). pose proof (wf_order _ Hwf _ _ E). destruct (visit_in _ _ _ _ _ V) as [s Hs].
  destruct (visit_cases t str h n s Hs) as [V'|[V'|V']]; rewrite V in V'; [done|injection V' as ->..];
    (split; [cbn; rewrite Hs; by eexists|cbn; lia]).
Qed.

Lemma path_load str h p : on_path t str h p -> is_Some (load t p).
Proof using Hwf. intros H. apply rtc_inv_r in H as [<-|(q & _ & Hq)]; [by eexists|]. by apply next_load in Hq as []. Qed.

(** ** The walk ends, and what it finds *)

Lemma walk_correct str h fuel p : c_name str -> hash_symbol str = Some h -> on_path t str h p ->
  Z.of_nat (length (heap t)) < Z.of_nat fuel + parent p + 1 ->
  exists q, on_path t str h q /\
    ((symtab_walk fuel t p str h = Some (None, q) /\ load t q = Some None) \/
     (exists n s, symtab_walk fuel t p str h = Some (Some n, q) /\ load t q = Some (Some n) /\ heap t !! n = Some s /\ name s = str)).
Proof using Hwf.
  intros Hs Hh. revert p. induction fuel as [|fuel IH]; intros p Hp Hf.
  - exfalso. unfold parent in Hf. pose proof (path_load _ _ _ Hp) as [r Hr].
    destruct p as [|n|n]; cbn in Hr; [lia|..]; destruct (heap t !! n) eqn:E; try done; apply lookup_lt_Some in E; lia.
  - cbn [symtab_walk]. destruct (path_load _ _ _ Hp) as [[n|] Hr]; rewrite Hr; cbn [mbind option_bind].
    2: { exists p. split; [done|]. by left. }
    pose proof (wf_order _ Hwf _ _ Hr) as Ho. destruct (lookup_lt_is_Some_2 (heap t) n) as [s Hn]; [lia|].
    destruct (visit_cases t str h n s Hn) as [V|V].
    + rewrite V. cbn [mbind option_bind]. exists p. split; [done|]. right. exists n, s. split_and!; try done. by apply (visit_eq str h n s).
    + assert (exists q, symtab_visit t str h n = Some (Some q) /\ parent q = Z.of_nat n) as (q & Vq & Eq)
        by (destruct V as [V|V]; rewrite V; by eexists).
      rewrite Vq. cbn [mbind option_bind]. apply IH; [|lia]. eapply rtc_r; [exact Hp|]. by exists n.
Qed.

Lemma lookup_correct str p h : c_name str -> hash_symbol str = Some h -> on_path t str h p ->
  exists q, on_path t str h q /\
    ((symtab_lookup t p str = Some (None, q) /\ load t q = Some None /\ str ∉ names t) \/
     (exists n s, symtab_lookup t p str = Some (Some n, q) /\ heap t !! n = Some s /\ name s = str)).
Proof using Hwf.
  intros Hs Hh Hp. unfold symtab_lookup. rewrite Hh. cbn [mbind option_bind].
  destruct (walk_correct str h (S (length (heap t))) p Hs Hh Hp) as (q & Hq & [(E & L)|(n & s & E & L & Hn & En)]).
  - destruct p; cbn; lia.
  - exists q. split; [done|]. left. split_and!; [done..|]. intros Hin. apply list_elem_of_fmap in Hin as (s & -> & Hin).
    apply list_elem_of_lookup in Hin as [n Hn]. destruct (wf_path _ Hwf _ _ Hn) as (q' & Hq' & L').
    destruct (wf_name _ Hwf _ _ Hn) as [_ Hh']. assert (hash s = h) as Eh by congruence. rewrite Eh in Hq'.
    assert (q = q') as ->; [|congruence]. apply (path_end _ _ _ _ _ Hq Hq'); [by apply end_null|].
    eapply end_match; [exact L'|]. by apply (visit_eq _ _ _ s).
  - exists q. split; [done|]. right. by exists n, s.
Qed.
End Wf.

(** * Symbols: insertion at the end of a walk, and [_jl_symbol] *)

Definition new_symbol (str : list Z) (h : Z) : jl_sym_t := {| left := None; right := None; hash := h; name := str |}.

(** [mk_symbol] and the store to the slot. *)
Definition insert_symbol (t : table) (p : slot) (str : list Z) (h : Z) : table :=
  write {| root := root t; heap := heap t ++ [new_symbol str h] |} p (length (heap t)).

Lemma mk_symbol_write t p str h : hash_symbol str = Some h ->
  ('(t, node) ← mk_symbol t str; Some (write t p node, node)) = Some (insert_symbol t p str h, length (heap t)).
Proof. intros E. unfold mk_symbol. by rewrite E. Qed.

Section Insert.
Context (t : table) (p : slot) (str : list Z) (h : Z).
Context (Hp : load t p = Some None).
Local Abbreviation v := (length (heap t)).
Local Abbreviation t' := (insert_symbol t p str h).

(** The symbols of the new table, but for their links. *)
Lemma insert_node n : (fun s => (name s, hash s)) <$> heap t' !! n = (fun s => (name s, hash s)) <$> (heap t ++ [new_symbol str h]) !! n.
Proof using Hp.
  unfold insert_symbol. destruct p as [|m|m]; cbn [write heap]; [done|..];
    (destruct (decide (n = m)) as [->|]; [rewrite list_lookup_alter_eq|by rewrite list_lookup_alter_ne]);
    by destruct ((heap t ++ [new_symbol str h]) !! m).
Qed.

Lemma insert_old n s : heap t !! n = Some s -> exists s', heap t' !! n = Some s' /\ name s' = name s /\ hash s' = hash s.
Proof using Hp.
  intros Hn. pose proof (insert_node n) as E. rewrite (lookup_app_l_Some _ _ _ _ Hn) in E. cbn in E.
  destruct (heap t' !! n) as [s'|]; [|done]. cbn in E. injection E as E1 E2. by exists s'.
Qed.

Lemma insert_inv n s : heap t' !! n = Some s ->
  (exists s0, heap t !! n = Some s0 /\ name s0 = name s /\ hash s0 = hash s) \/ (n = v /\ name s = str /\ hash s = h).
Proof using Hp.
  intros Hn. pose proof (insert_node n) as E. rewrite Hn in E. destruct (decide (n < v)%nat).
  - left. destruct (lookup_lt_is_Some_2 (heap t) n) as [s0 Hs0]; [done|]. rewrite (lookup_app_l_Some _ _ _ _ Hs0) in E. cbn in E.
    injection E as E1 E2. by exists s0.
  - right. rewrite lookup_app_r in E by lia. destruct (n - v)%nat eqn:En; cbn in E; [|done]. injection E as E1 E2. split; [lia|done].
Qed.

Lemma insert_length : length (heap t') = S v.
Proof using Hp. unfold insert_symbol. destruct p; cbn [write heap]; rewrite ?length_alter, length_app; simpl; lia. Qed.

Lemma insert_names : names t' = names t ++ [str].
Proof using Hp.
  unfold names. apply list_eq. intros i. rewrite !list_lookup_fmap.
  transitivity (fst <$> ((fun s => (name s, hash s)) <$> heap t' !! i)); [by destruct (heap t' !! i)|]. rewrite insert_node.
  destruct (decide (i < v)%nat).
  - rewrite !lookup_app_l by (rewrite ?length_map; lia). rewrite list_lookup_fmap. by destruct (heap t !! i).
  - rewrite !lookup_app_r by (rewrite ?length_map; lia). rewrite length_map. by destruct (i - v)%nat as [|[|]].
Qed.

(** ** The links of the new table *)

Lemma insert_here : load t' p = Some (Some v).
Proof using Hp.
  unfold insert_symbol. destruct p as [|m|m]; cbn [load write heap root] in *; [done|..];
    (destruct (heap t !! m) as [s|] eqn:E; [|done]);
    by rewrite list_lookup_alter_eq, (lookup_app_l_Some _ _ _ _ E).
Qed.

Lemma insert_elsewhere q x : q <> p -> load t q = Some x -> load t' q = Some x.
Proof using Hp.
  intros Hq. unfold insert_symbol. destruct q as [|m|m]; cbn [load]; [by destruct p|..];
    (destruct (heap t !! m) as [s|] eqn:E; [|done]); intros Hx; injection Hx as <-;
    (destruct p as [|m'|m']; cbn [write heap];
      [by rewrite (lookup_app_l_Some _ _ _ _ E)|..]);
    (destruct (decide (m = m')) as [->|]; [rewrite list_lookup_alter_eq|rewrite list_lookup_alter_ne by done]);
    by rewrite (lookup_app_l_Some _ _ _ _ E).
Qed.

Lemma insert_load_inv q n : load t' q = Some (Some n) -> (q = p /\ n = v) \/ load t q = Some (Some n).
Proof using Hp.
  intros H. destruct (decide (q = p)) as [->|Hq]; [rewrite insert_here in H; left; split; congruence|]. right.
  destruct (load t q) as [x|] eqn:E; [rewrite (insert_elsewhere q x) in H; congruence|]. exfalso.
  assert (forall m, heap t !! m = None -> heap t' !! m = (heap t ++ [new_symbol str h]) !! m) as Hnew.
  { intros m Em. unfold insert_symbol. destruct p as [|m'|m']; cbn [write heap]; [done|..];
      (rewrite list_lookup_alter_ne; [done|]); intros ->; cbn in Hp; by rewrite Em in Hp. }
  destruct q as [|m|m]; cbn [load] in E, H; [done|..];
    (destruct (heap t !! m) eqn:Em; [done|]); rewrite (Hnew m Em) in H; apply lookup_ge_None in Em;
    rewrite lookup_app_r in H by lia; by destruct (m - v)%nat.
Qed.

(** ** The new table *)

Lemma insert_grows : grows t t'.
Proof using Hp.
  split; [exact insert_old|]. intros q n E. apply insert_elsewhere; [congruence|done].
Qed.

Context (Hwf : wf t) (Hs : c_name str) (Hh : hash_symbol str = Some h) (Hpath : on_path t str h p).

Lemma insert_wf : wf t'.
Proof using Hp Hwf Hs Hh Hpath.
  split.
  - intros n s Hn. destruct (insert_inv n s Hn) as [(s0 & H0 & <- & <-)|(-> & -> & ->)]; [by apply (wf_name _ Hwf n)|done].
  - intros n s Hn. destruct (insert_inv n s Hn) as [(s0 & H0 & E1 & E2)|(-> & -> & ->)].
    + destruct (wf_path _ Hwf _ _ H0) as (q & Hq & L). rewrite E1, E2 in Hq. exists q.
      split; [apply (path_grows t), Hq; apply insert_grows|by apply insert_grows].
    + exists p. split; [apply (path_grows t), Hpath; apply insert_grows|apply insert_here].
  - intros q n Hq. rewrite insert_length. destruct (insert_load_inv q n Hq) as [[-> ->]|L].
    + split; [|lia]. destruct p as [|m|m]; cbn in *; [lia|..]; (destruct (heap t !! m) eqn:E; [|done]); apply lookup_lt_Some in E; lia.
    + pose proof (wf_order _ Hwf _ _ L). lia.
Qed.
End Insert.

(** ** Sequential use *)

(** [_jl_symbol]: the only error is that of a name too long; otherwise the
    result is the symbol of the name, the old one or a new one. *)
Lemma jl_symbol_ok t str : wf t -> c_name str -> len str <= MAX_SYM_LEN ->
  exists t' n s, _jl_symbol t str = Some (inl (t', n)) /\ wf t' /\ grows t t' /\ heap t' !! n = Some s /\ name s = str /\
    names t' = (if decide (str ∈ names t) then names t else names t ++ [str]).
Proof.
  intros Hwf Hs Hl. unfold _jl_symbol. destruct (Z.ltb_spec MAX_SYM_LEN (len str)); [lia|].
  destruct (hash_symbol_total str Hs) as [h Hh].
  destruct (lookup_correct t Hwf str symtab h Hs Hh) as (q & Hq & [(E & L & Hin)|(n & s & E & Hn & En)]); [apply rtc_refl|..];
    rewrite E; cbn [mbind option_bind].
  - rewrite L. cbn [mbind option_bind]. unfold mk_symbol. rewrite Hh. cbn [mbind option_bind]. fold (insert_symbol t q str h).
    pose proof (insert_wf t q str h L Hwf Hs Hh Hq) as Hwf'. rewrite decide_False by done.
    destruct (lookup_lt_is_Some_2 (heap (insert_symbol t q str h)) (length (heap t))) as [s Hn]; [rewrite insert_length by done; lia|].
    exists (insert_symbol t q str h), (length (heap t)), s. split; [done|]. split_and!; [done|by apply insert_grows|done| |by apply insert_names].
    destruct (insert_inv t q str h L _ _ Hn) as [(s0 & H0 & _)|(_ & ? & _)]; [|done]. apply lookup_lt_Some in H0. lia.
  - assert (str ∈ names t) as Hin by (apply list_elem_of_fmap; exists s; split; [done|by apply list_elem_of_lookup_2 in Hn]).
    exists t, n, s. rewrite decide_True by done. by split_and!.
Qed.

Lemma jl_symbol_lookup_ok t str : wf t -> c_name str ->
  (exists n s, jl_symbol_lookup t str = Some (Some n) /\ heap t !! n = Some s /\ name s = str) \/
  (jl_symbol_lookup t str = Some None /\ str ∉ names t).
Proof.
  intros Hwf Hs. destruct (hash_symbol_total str Hs) as [h Hh]. unfold jl_symbol_lookup.
  destruct (lookup_correct t Hwf str symtab h Hs Hh) as (q & _ & [(E & _ & Hin)|(n & s & E & Hn & En)]); [apply rtc_refl|..];
    rewrite E; [by right|left; by exists n, s].
Qed.
