(* ===== verification/SymbolThreads.v ===== *)
(** * Symbols: threads that intern at the same time

    [_jl_symbol] looks a name up without the lock and takes [symtab_lock] to
    insert. A thread's step is one access to shared memory: a load of a slot, the
    lock, the store that publishes a symbol (its allocation and initialisation
    are private until then), the unlock. Memory is sequentially consistent. *)
From stdpp Require Import relations.
From S2P Require Import Prelude Hashing HashingFacts Int2str Symbol SymbolFacts.

(** Where a thread is in [_jl_symbol]. *)
Inductive pc :=
| Idle
| Look (str : list Z) (h : Z) (ptree : slot)      (* in symtab_lookup, before the load of the slot *)
| Lock (str : list Z) (h : Z) (slot : slot)       (* before uv_mutex_lock *)
| Check (str : list Z) (h : Z) (slot : slot)      (* before the load of the slot under the lock *)
| Look_locked (str : list Z) (h : Z) (ptree : slot)
| Make (str : list Z) (h : Z) (slot : slot)       (* before mk_symbol *)
| Unlock (str : list Z) (node : nat)
| Done (str : list Z) (node : nat).

Definition thread_step (i : nat) (t : table) (symtab_lock : option nat) (c : pc) : option (table * option nat * pc) :=
  match c with
  | Idle | Done _ _ => None
  | Look str h ptree =>
      node ← load t ptree;
      match node with
      | None => Some (t, symtab_lock, Lock str h ptree)
      | Some node =>
          r ← symtab_visit t str h node;
          match r with None => Some (t, symtab_lock, Done str node) | Some ptree => Some (t, symtab_lock, Look str h ptree) end
      end
  | Lock str h slot => match symtab_lock with None => Some (t, Some i, Check str h slot) | Some _ => None end
  | Check str h slot =>
      node ← load t slot;
      Some (t, symtab_lock, match node with None => Make str h slot | Some _ => Look_locked str h slot end)
  | Look_locked str h ptree =>
      node ← load t ptree;
      match node with
      | None => Some (t, symtab_lock, Make str h ptree)
      | Some node =>
          r ← symtab_visit t str h node;
          match r with None => Some (t, symtab_lock, Unlock str node) | Some ptree => Some (t, symtab_lock, Look_locked str h ptree) end
      end
  | Make str h slot => '(t, node) ← mk_symbol t str; Some (write t slot node, symtab_lock, Unlock str node)
  | Unlock str node => Some (t, None, Done str node)
  end.

(** [log]: what the calls returned. *)
Record system := { tab : table; symtab_lock : option nat; threads : list pc; log : list (list Z * nat) }.

Definition returned (c : pc) : list (list Z * nat) := match c with Done str n => [(str, n)] | _ => [] end.

Inductive step : system -> system -> Prop :=
| step_call s i c str h :
    threads s !! i = Some c -> c = Idle \/ (exists str n, c = Done str n) ->
    c_name str -> len str <= MAX_SYM_LEN -> hash_symbol str = Some h ->
    step s {| tab := tab s; symtab_lock := symtab_lock s; threads := <[i := Look str h symtab]> (threads s); log := log s |}
| step_run s i c t lk c' :
    threads s !! i = Some c -> thread_step i (tab s) (symtab_lock s) c = Some (t, lk, c') ->
    step s {| tab := t; symtab_lock := lk; threads := <[i := c']> (threads s); log := returned c' ++ log s |}.

Definition init (n : nat) : system := {| tab := empty_table; symtab_lock := None; threads := replicate n Idle; log := [] |}.
Definition reachable (n : nat) (s : system) : Prop := rtc step (init n) s.

(** ** The invariant *)

Definition has_name (t : table) (n : nat) (str : list Z) : Prop := exists s, heap t !! n = Some s /\ name s = str.
Definition searching (t : table) (str : list Z) (h : Z) (p : slot) : Prop :=
  c_name str /\ hash_symbol str = Some h /\ on_path t str h p.

Definition thread_inv (t : table) (c : pc) : Prop :=
  match c with
  | Idle => True
  | Look str h p | Lock str h p | Check str h p | Look_locked str h p => searching t str h p
  | Make str h p => searching t str h p /\ load t p = Some None
  | Unlock str n | Done str n => has_name t n str
  end.

Definition holds (c : pc) : bool := match c with Check _ _ _ | Look_locked _ _ _ | Make _ _ _ | Unlock _ _ => true | _ => false end.

(** The lock has one holder, the thread inside its critical section. *)
Record sys_inv (s : system) : Prop := {
  sys_wf : wf (tab s);
  sys_threads i c : threads s !! i = Some c -> thread_inv (tab s) c;
  sys_lock i c : threads s !! i = Some c -> holds c = true <-> symtab_lock s = Some i;
  sys_holder i : symtab_lock s = Some i -> is_Some (threads s !! i);
  sys_log : Forall (fun r => has_name (tab s) r.2 r.1) (log s);
}.

Lemma has_name_grows t t' n str : grows t t' -> has_name t n str -> has_name t' n str.
Proof. intros G (s & Hn & <-). destruct (grows_node _ _ G _ _ Hn) as (s' & ? & ? & _). by exists s'. Qed.

Lemma searching_grows t t' str h p : grows t t' -> searching t str h p -> searching t' str h p.
Proof. intros G (? & ? & ?). split_and!; [done..|]. by apply (path_grows t). Qed.

Lemma searching_next t str h p n q : searching t str h p -> load t p = Some (Some n) ->
  symtab_visit t str h n = Some (Some q) -> searching t str h q.
Proof. intros (? & ? & ?) ? ?. split_and!; [done..|]. eapply rtc_r; [done|]. by exists n. Qed.

Lemma searching_found t str h p n : wf t -> searching t str h p -> load t p = Some (Some n) ->
  symtab_visit t str h n = Some None -> has_name t n str.
Proof.
  intros Hwf (? & ? & ?) ? V. destruct (visit_in _ _ _ _ _ V) as [s Hs]. exists s. split; [done|]. by apply (visit_eq t Hwf str h n s).
Qed.

(** Only a slot that was NULL changes, and only under the lock. *)
Lemma thread_inv_grows t t' c : grows t t' -> t' = t \/ holds c = false -> thread_inv t c -> thread_inv t' c.
Proof.
  intros G [-> |H]; [done|]. destruct c; cbn in *; try done; eauto using has_name_grows, searching_grows.
Qed.

(** What a step of thread [i] does. *)
Lemma thread_step_inv i t lk c t' lk' c' : wf t -> thread_inv t c -> (holds c = true <-> lk = Some i) ->
  thread_step i t lk c = Some (t', lk', c') ->
  wf t' /\ grows t t' /\ thread_inv t' c' /\ (holds c' = true <-> lk' = Some i) /\
  (t' = t \/ lk = Some i) /\ (lk' = lk \/ (lk = None /\ lk' = Some i) \/ (lk = Some i /\ lk' = None)).
Proof.
  intros Hwf Hc Hl E. destruct c as [|str h p|str h p|str h p|str h p|str h p|str n|str n]; cbn [thread_step] in E; try done.
  - destruct (load t p) as [[n|]|] eqn:L; cbn [mbind option_bind] in E; [|simplify_eq; by split_and!; try left|done].
    destruct (symtab_visit t str h n) as [[q|]|] eqn:V; cbn [mbind option_bind] in E; simplify_eq; split_and!; try done; try (by left);
      [by eapply searching_next|by eapply searching_found].
  - destruct lk; [done|]. simplify_eq. split_and!; try done; [by left|right; by left].
  - destruct (load t p) as [[n|]|] eqn:L; cbn [mbind option_bind] in E; simplify_eq; split_and!; try done; by left.
  - destruct (load t p) as [[n|]|] eqn:L; cbn [mbind option_bind] in E; [|simplify_eq; split_and!; try done; by left|done].
    destruct (symtab_visit t str h n) as [[q|]|] eqn:V; cbn [mbind option_bind] in E; simplify_eq; split_and!; try done; try (by left);
      [by eapply searching_next|by eapply searching_found].
  - destruct Hc as ((Cn & Hh & Hp) & L). unfold mk_symbol in E. rewrite Hh in E. cbn [mbind option_bind] in E. fold (insert_symbol t p str h) in E.
    simplify_eq. pose proof (insert_grows t p str h L) as G. split_and!; [by apply insert_wf|done| |done|right; by apply Hl|by left].
    destruct (lookup_lt_is_Some_2 (heap (insert_symbol t p str h)) (length (heap t))) as [s Hn]; [rewrite insert_length by done; lia|].
    exists s. split; [done|]. destruct (insert_inv t p str h L _ _ Hn) as [(s0 & H0 & _)|(_ & ? & _)]; [|done].
    apply lookup_lt_Some in H0. lia.
  - simplify_eq. split_and!; try done; [by left|]. right; right. split; [by apply Hl|done].
Qed.

Lemma step_inv s s' : sys_inv s -> step s s' -> sys_inv s'.
Proof.
  intros [Hwf Ht Hl Hh Hg] Hs. destruct Hs as [s i c str h Hi Hc Cn Hm Hhash|s i c t lk c' Hi E].
  - split; cbn; [done| | | |done].
    + intros j d [(-> & <- & _)|(_ & Hd)]%list_lookup_insert_Some; [|by apply (Ht j)]. split_and!; [done..|apply rtc_refl].
    + intros j d [(-> & <- & _)|(_ & Hd)]%list_lookup_insert_Some; [|by apply Hl].
      rewrite <- (Hl _ _ Hi). destruct Hc as [-> |(? & ? & ->)]; done.
    + intros j Hj. apply list_lookup_insert_is_Some. by apply Hh.
  - destruct (thread_step_inv i (tab s) (symtab_lock s) c t lk c' Hwf (Ht _ _ Hi) (Hl _ _ Hi) E) as (W & G & I & L & Et & El).
    split; cbn; [done| | | |].
    + intros j d [(-> & <- & _)|(Hij & Hd)]%list_lookup_insert_Some; [done|].
      apply (thread_inv_grows (tab s)); [done| |by apply (Ht j)]. destruct Et as [-> |Et]; [by left|right].
      apply not_true_is_false. intros Hd'. apply (Hl _ _ Hd) in Hd'. congruence.
    + intros j d [(-> & <- & _)|(Hij & Hd)]%list_lookup_insert_Some; [done|]. rewrite (Hl _ _ Hd).
      destruct El as [-> |[(-> & ->)|(-> & ->)]]; [done|split; congruence..].
    + intros j Hj. apply list_lookup_insert_is_Some. destruct El as [-> |[(_ & ->)|(_ & ->)]]; [by apply Hh| |done].
      injection Hj as <-. by eexists.
    + apply Forall_app. split; [by destruct c'; repeat constructor|].
      eapply Forall_impl; [exact Hg|]. intros r. by apply has_name_grows.
Qed.

Lemma init_inv n : sys_inv (init n).
Proof.
  split; cbn; [exact wf_empty_table| | |done|constructor].
  - intros i c [-> _]%lookup_replicate. done.
  - intros i c [-> _]%lookup_replicate. done.
Qed.

Lemma reachable_inv n s : reachable n s -> sys_inv s.
Proof. unfold reachable. intros H. apply (rtc_ind_r (fun s => sys_inv s) _ (init_inv n)) in H; [done|]. intros ? ? _ ? ?. by eapply step_inv. Qed.

(** A thread in a call can go on, unless it waits for the lock. *)
Lemma thread_step_enabled i t lk c : wf t -> thread_inv t c -> c <> Idle -> (forall str n, c <> Done str n) ->
  (forall str h p, c = Lock str h p -> lk = None) -> is_Some (thread_step i t lk c).
Proof.
  intros Hwf Hc N1 N2 N3. destruct c as [|str h p|str h p|str h p|str h p|str h p|str n|str n]; cbn [thread_step]; try done.
  all: try (by exfalso; eapply N2).
  2: rewrite (N3 str h p); by eexists.
  4: { destruct Hc as ((_ & Hh & _) & _). unfold mk_symbol. rewrite Hh. cbn [mbind option_bind]. by eexists. }
  all: destruct Hc as (Cn & Hh & Hp); destruct (path_load t Hwf str h p Hp) as [[n|] L]; rewrite L; cbn [mbind option_bind]; try (by eexists).
  all: pose proof (wf_order _ Hwf _ _ L); destruct (lookup_lt_is_Some_2 (heap t) n) as [s Hn]; [lia|].
  all: destruct (visit_cases t str h n s Hn) as [-> |[-> | ->]]; by eexists.
Qed.
