(* ===== verification/SymbolCorrect.v ===== *)
(** * Symbols: interning is unique under every interleaving, and generated
    symbols are new *)
From stdpp Require Import relations.
From S2P Require Import Prelude Hashing HashingFacts Int2str Symbol SymbolFacts SymbolThreads.

(** ** Schedules, to run concrete interleavings *)

Inductive event := Call (i : nat) (str : list Z) | Run (i : nat).

Definition c_nameb (str : list Z) : bool := forallb (fun c => in_rangeb 8 c && negb (c =? 0)) str && (len str <=? MAX_SYM_LEN).

Definition exec (s : system) (e : event) : option system :=
  match e with
  | Call i str =>
      c ← threads s !! i;
      h ← hash_symbol str;
      if c_nameb str && match c with Idle | Done _ _ => true | _ => false end
      then Some {| tab := tab s; symtab_lock := symtab_lock s; threads := <[i := Look str h symtab]> (threads s); log := log s |}
      else None
  | Run i =>
      c ← threads s !! i;
      '(t, lk, c') ← thread_step i (tab s) (symtab_lock s) c;
      Some {| tab := t; symtab_lock := lk; threads := <[i := c']> (threads s); log := returned c' ++ log s |}
  end.

Fixpoint run (s : system) (es : list event) : option system :=
  match es with [] => Some s | e :: es => s ← exec s e; run s es end.

Lemma c_nameb_ok str : c_nameb str = true -> c_name str /\ len str <= MAX_SYM_LEN.
Proof.
  unfold c_nameb. intros [H Hl%Z.leb_le]%andb_true_iff. split; [|done].
  apply Is_true_true, forallb_True, (Forall_impl _ (fun c => in_range 8 c /\ c <> 0)) in H;
    [|intros c Hc; apply Is_true_true, andb_true_iff in Hc as [Hc1 Hc2]; unfold in_rangeb, in_range in *; zcases; lia].
  split_and!; [by apply (Forall_impl _ _ _ H); intros ? []| |unfold MAX_SYM_LEN, INTPTR_MAX in Hl; lia].
  intros Hin. rewrite Forall_forall in H. by destruct (H _ Hin).
Qed.

Lemma run_steps s es s' : run s es = Some s' -> rtc step s s'.
Proof.
  revert s. induction es as [|e es IH]; intros s E; cbn [run] in E; [simplify_eq; apply rtc_refl|].
  destruct (exec s e) as [s1|] eqn:Ee; [|done]. cbn in E. eapply rtc_l; [|by apply IH]. clear E IH. destruct e as [i str|i]; cbn [exec] in Ee.
  - destruct (threads s !! i) as [c|] eqn:Ec; [|done]. cbn [mbind option_bind] in Ee.
    destruct (hash_symbol str) as [h|] eqn:Eh; [|done]. cbn [mbind option_bind] in Ee.
    destruct (c_nameb str) eqn:En; [|done]. apply c_nameb_ok in En as [Hn Hl].
    destruct c; cbn in Ee; simplify_eq; (eapply step_call; [exact Ec| |done..]); [by left|right; by eexists _, _].
  - destruct (threads s !! i) as [c|] eqn:Ec; [|done]. cbn [mbind option_bind] in Ee.
    destruct (thread_step _ _ _ _) as [[[t lk] c']|] eqn:Et; [|done]. cbn in Ee. simplify_eq. by eapply step_run.
Qed.

(** ** Interning *)

Definition in_call (c : pc) : Prop := match c with Idle | Done _ _ => False | _ => True end.

(** C12: in every interleaving of any number of threads that intern names, calls
    return the same symbol exactly when they were given the same name, the symbol
    has that name and keeps it, no two symbols of the table share a name, and
    while a call is running some thread can go on. *)
Theorem symbols_interned n s : reachable n s ->
  (forall r1 r2, r1 ∈ log s -> r2 ∈ log s -> r1.2 = r2.2 <-> r1.1 = r2.1) /\
  (forall r s', r ∈ log s -> rtc step s s' -> has_name (tab s') r.2 r.1) /\
  NoDup (names (tab s)) /\
  ((exists i c, threads s !! i = Some c /\ in_call c) ->
   exists i c, threads s !! i = Some c /\ is_Some (thread_step i (tab s) (symtab_lock s) c)).
Proof.
  intros Hr. pose proof (reachable_inv n s Hr) as I. pose proof (sys_log _ I) as Hg. rewrite Forall_forall in Hg. split_and!.
  - intros r1 r2 H1 H2. destruct (Hg _ H1) as (s1 & E1 & N1), (Hg _ H2) as (s2 & E2 & N2). split; intros E.
    + rewrite E in E1. congruence.
    + apply (wf_unique (tab s) (sys_wf _ I) _ _ s1 s2); congruence.
  - intros r s' H1 Hs. assert (sys_inv s' /\ grows (tab s) (tab s')) as [_ G]; [|by apply (has_name_grows (tab s)), Hg].
    clear H1. revert Hs. apply (rtc_ind_r (fun s' => sys_inv s' /\ grows (tab s) (tab s'))); [done|].
    intros s1 s2 _ Hs [I1 G1]. split; [by eapply step_inv|]. etrans; [exact G1|]. destruct Hs as [|s1 i c t lk c' Hi E]; [done|]. cbn.
    by destruct (thread_step_inv i (tab s1) (symtab_lock s1) c t lk c' (sys_wf _ I1) (sys_threads _ I1 _ _ Hi) (sys_lock _ I1 _ _ Hi) E) as (_ & G & _).
  - apply names_NoDup, I.
  - intros (i & c & Hi & Hc). destruct (symtab_lock s) as [j|] eqn:El.
    + destruct (sys_holder _ I j El) as [d Hd]. exists j, d. split; [done|].
      assert (holds d = true) as Hh by (by apply (sys_lock _ I _ _ Hd)).
      apply thread_step_enabled; [apply I|by apply (sys_threads _ I j)|by destruct d..].
    + exists i, c. split; [done|]. apply thread_step_enabled; [apply I|by apply (sys_threads _ I i)|by destruct c..|done].
Qed.

(** Two threads that look the same name up before either inserts it. *)
Lemma symbols_interned_witness : exists s, reachable 2 s /\ log s = [([97], 0%nat); ([97], 0%nat)] /\ NoDup (names (tab s)).
Proof.
  destruct (run (init 2) ([Call 0 [97]; Call 1 [97]; Run 0; Run 1] ++ replicate 4 (Run 0) ++ replicate 4 (Run 1))) as [s|] eqn:E;
    [|vm_compute in E; discriminate].
  assert (reachable 2 s) as Hr by (by apply run_steps in E). exists s. split; [exact Hr|].
  split; [vm_compute in E; injection E as <-; reflexivity|]. exact (proj1 (proj2 (proj2 (symbols_interned 2 s Hr)))).
Defined.

(** ** One thread alone *)

Definition at_pc (s : system) (t : table) (lk : option nat) (i : nat) (c : pc) (l : list (list Z * nat)) : system :=
  {| tab := t; symtab_lock := lk; threads := <[i := c]> (threads s); log := l |}.

Lemma at_pc_step s t lk i c l t' lk' c' : (i < length (threads s))%nat -> thread_step i t lk c = Some (t', lk', c') ->
  step (at_pc s t lk i c l) (at_pc s t' lk' i c' (returned c' ++ l)).
Proof.
  intros Hi E. replace (at_pc s t' lk' i c' (returned c' ++ l)) with
    {| tab := t'; symtab_lock := lk'; threads := <[i := c']> (threads (at_pc s t lk i c l)); log := returned c' ++ log (at_pc s t lk i c l) |}
    by (unfold at_pc; cbn; by rewrite list_insert_insert_eq).
  eapply step_run; [|exact E]. by apply list_lookup_insert_eq.
Qed.

Lemma walk_steps s t i str h l : (i < length (threads s))%nat -> forall fuel p r q, symtab_walk fuel t p str h = Some (r, q) ->
  rtc step (at_pc s t None i (Look str h p) l)
    (match r with Some n => at_pc s t None i (Done str n) ((str, n) :: l) | None => at_pc s t None i (Lock str h q) l end).
Proof.
  intros Hi. induction fuel as [|fuel IH]; intros p r q E; cbn [symtab_walk] in E; [done|].
  destruct (load t p) as [[n|]|] eqn:L; cbn [mbind option_bind] in E; [|simplify_eq|done].
  - destruct (symtab_visit t str h n) as [[p'|]|] eqn:V; cbn [mbind option_bind] in E; [| |done].
    + eapply rtc_l; [|by apply (IH p')]. apply (at_pc_step s t None i (Look str h p) l t None (Look str h p') Hi).
      cbn [thread_step]. rewrite L. cbn [mbind option_bind]. by rewrite V.
    + simplify_eq. apply rtc_once, (at_pc_step s t None i (Look str h q) l t None (Done str n) Hi).
      cbn [thread_step]. rewrite L. cbn [mbind option_bind]. by rewrite V.
  - apply rtc_once, (at_pc_step s t None i (Look str h q) l t None (Lock str h q) Hi).
    cbn [thread_step]. by rewrite L.
Qed.

(** The function is what the steps of a thread do when no other one moves. *)
Lemma jl_symbol_steps s i t' n str : wf (tab s) -> c_name str -> len str <= MAX_SYM_LEN ->
  threads s !! i = Some Idle -> symtab_lock s = None -> jl_symbol (tab s) str = Some (inl (t', n)) ->
  rtc step s (at_pc s t' None i (Done str n) ((str, n) :: log s)).
Proof.
  intros Hwf Hs Hl Hi Hk E. pose proof (lookup_lt_Some _ _ _ Hi) as Hlt. unfold jl_symbol, _jl_symbol in E.
  destruct (Z.ltb_spec MAX_SYM_LEN (len str)); [lia|]. destruct (hash_symbol_total str Hs) as [h Hh].
  eapply rtc_l; [eapply (step_call s i Idle str h Hi); [by left|done..]|]. rewrite Hk.
  fold (at_pc s (tab s) None i (Look str h symtab) (log s)).
  destruct (lookup_correct (tab s) Hwf str symtab h Hs Hh) as (q & Hq & [(El & L & _)|(m & s0 & El & Hm & _)]); [apply rtc_refl|..];
    rewrite El in E; unfold symtab_lookup in El; rewrite Hh in El; apply (walk_steps s (tab s) i str h (log s) Hlt) in El;
    cbn [mbind option_bind] in E.
  - rewrite L in E. cbn [mbind option_bind] in E. unfold mk_symbol in E. rewrite Hh in E. cbn [mbind option_bind] in E. simplify_eq.
    etrans; [exact El|]. eapply rtc_l; [by apply (at_pc_step s (tab s) None i (Lock str h q) (log s) (tab s) (Some i) (Check str h q))|].
    eapply rtc_l; [apply (at_pc_step s (tab s) (Some i) i (Check str h q) (log s) (tab s) (Some i) (Make str h q) Hlt);
      cbn [thread_step]; by rewrite L|].
    eapply rtc_l; [eapply (at_pc_step s (tab s) (Some i) i (Make str h q) (log s) _ (Some i) (Unlock str _) Hlt);
      cbn [thread_step]; unfold mk_symbol; by rewrite Hh|].
    apply rtc_once. by eapply (at_pc_step s _ (Some i) i (Unlock str _) (log s) _ None (Done str _)).
  - by simplify_eq.
Qed.

(** C22: [jl_symbol] ends, with the one error of a name too long; otherwise it
    gives the symbol of the name, adds no other name, keeps every symbol, and is
    what the steps of a thread on its own do; [jl_symbol_lookup] then finds
    exactly the names of the table; [jl_symbol_n] refuses a NUL in the name. *)
Theorem jl_symbol_correct t str : wf t -> c_name str ->
  (MAX_SYM_LEN < len str -> jl_symbol t str = Some (inr (ArgumentError "Symbol name too long"))) /\
  (len str <= MAX_SYM_LEN -> exists t' n,
     jl_symbol t str = Some (inl (t', n)) /\ jl_symbol_n t str = Some (inl (t', n)) /\ wf t' /\ grows t t' /\ has_name t' n str /\
     names t' = (if decide (str ∈ names t) then names t else names t ++ [str]) /\
     (forall s i, tab s = t -> symtab_lock s = None -> threads s !! i = Some Idle ->
        rtc step s (at_pc s t' None i (Done str n) ((str, n) :: log s))) /\
     (forall str', c_name str' ->
        (str' ∈ names t' /\ exists m, jl_symbol_lookup t' str' = Some (Some m) /\ has_name t' m str') \/
        ((str' ∉ names t') /\ jl_symbol_lookup t' str' = Some None))) /\
  (forall str', 0 ∈ str' -> jl_symbol_n t str' = Some (inr (ArgumentError "Symbol name may not contain \0"))).
Proof.
  intros Hwf Hs. split_and!.
  - intros Hl. unfold jl_symbol, _jl_symbol. by destruct (Z.ltb_spec MAX_SYM_LEN (len str)); [|lia].
  - intros Hl. destruct (jl_symbol_ok t str Hwf Hs Hl) as (t' & n & sy & E & Hwf' & G & Hn & En & Ns). exists t', n.
    assert (has_nul str = false) as Hnul.
    { apply not_true_is_false. intros (x & Hx & Ex%Z.eqb_eq)%existsb_exists. subst x. apply list_elem_of_In in Hx. by apply Hs. }
    split_and!; [exact E| |done..|by exists sy|done| |].
    + unfold jl_symbol_n. by rewrite Hnul.
    + intros s i <- ? ?. by apply jl_symbol_steps.
    + intros str' Hs'. destruct (jl_symbol_lookup_ok t' str' Hwf' Hs') as [(m & s' & El & Hm & Em)|[El Hin]]; [left|by right].
      split; [apply list_elem_of_fmap; exists s'; split; [done|by apply list_elem_of_lookup_2 in Hm]|]. exists m. split; [done|]. by exists s'.
  - intros str' Hin. unfold jl_symbol_n. assert (has_nul str' = true) as ->; [|done].
    apply existsb_exists. exists 0. split; [by apply list_elem_of_In|done].
Qed.
Lemma jl_symbol_correct_witness : wf empty_table /\ c_name [97; 98] /\
  exists t' n, jl_symbol empty_table [97; 98] = Some (inl (t', n)) /\ has_name t' n [97; 98].
Proof.
  assert (c_name [97; 98]) as H by (apply c_nameb_ok; vm_compute; reflexivity).
  split; [exact wf_empty_table|]. split; [exact H|].
  destruct (proj1 (proj2 (jl_symbol_correct _ _ wf_empty_table H)) ltac:(vm_compute; discriminate)) as (t' & n & E & _ & _ & _ & Hn & _).
  exists t', n. split; [exact E|exact Hn].
Defined.
