(* ===== verification/SymbolGensym.v ===== *)
(** * Symbols: the names of [jl_gensym] and [jl_tagged_gensym] *)
From S2P Require Import Prelude Hashing HashingFacts Int2str Symbol SymbolFacts SymbolThreads SymbolCorrect.

(** The decimal digits of a counter. *)
Definition decimal (ctr : Z) (s : list Z) : Prop := digits_of 10 ctr 12 s.

Lemma decimal_value ctr s : in_range 32 ctr -> decimal ctr s -> parse 10 s = ctr.
Proof. intros Hc H. rewrite (digits_value _ _ _ _ H). apply Z.mod_small. unfold in_range in Hc. lia. Qed.

Lemma decimal_chars ctr s : decimal ctr s -> Forall (fun c => 48 <= c < 123) s.
Proof. intros H. eapply Forall_impl; [exact (digits_ok _ _ _ _ H)|]. by intros c []. Qed.

Lemma decimal_no_char ctr s c : decimal ctr s -> c < 48 -> c ∉ s.
Proof. intros H Hc Hin. pose proof (decimal_chars _ _ H) as F. rewrite Forall_forall in F. specialize (F _ Hin). cbv beta in F. lia. Qed.

Lemma cstr_app s l : 0 ∉ s -> cstr (s ++ 0 :: l) = s.
Proof.
  induction s as [|c s IH]; intros Hs; [done|]. apply not_elem_of_cons in Hs as [Hc Hs]. cbn [app cstr].
  destruct (Z.eqb_spec c 0); [lia|]. by rewrite IH.
Qed.

Lemma store_app a x b i c : i = Z.of_nat (length a) -> in_range 8 c -> store (a ++ x :: b) i c = Some (a ++ c :: b).
Proof.
  intros -> Hc. rewrite store_in by (rewrite ?length_app; cbn [length]; try done; lia).
  rewrite insert_app_r_alt by lia. by replace (Z.to_nat (Z.of_nat (length a)) - length a)%nat with 0%nat by lia.
Qed.

Lemma gensym_name_ok junk ctr : length junk = 16%nat -> in_range 32 ctr ->
  exists s, decimal ctr s /\ gensym_name junk ctr = Some (35 :: 35 :: s).
Proof.
  intros Hj Hc. unfold gensym_name.
  destruct (uint2str_correct (drop 2 junk) 14 ctr 10) as (s & Hs & E); [lia|apply Hc|rewrite length_drop; lia|lia|].
  exists s. split; [exact Hs|]. rewrite E. cbn [mbind option_bind]. cbv zeta. pose proof (digits_fit _ _ _ _ Hs) as Hf.
  rewrite (drop_ge (drop 2 junk)) by (rewrite length_drop; lia).
  set (pre := take 2 junk ++ take (Z.to_nat (14 - 1) - length s) (drop 2 junk)).
  assert (length pre = 15 - length s)%nat as Hp by (unfold pre; rewrite length_app, !length_take, length_drop; lia).
  rewrite app_assoc. fold pre.
  clearbody pre. destruct (last_split pre (14 - length s)%nat) as (pre1 & E1 & L1); [lia|].
  destruct (last_split pre1 (13 - length s)%nat) as (pre2 & E2 & L2); [lia|].
  rewrite E1, <- app_assoc. cbn [app]. rewrite store_app by (unfold in_range; lia). cbn [mbind option_bind].
  rewrite E2, <- app_assoc. cbn [app]. rewrite store_app by (unfold in_range; lia). cbn [mbind option_bind].
  unfold string_at. rewrite drop_app_length' by lia.
  change (35 :: 35 :: s ++ [0]) with ((35 :: 35 :: s) ++ 0 :: []). rewrite cstr_app; [done|]. rewrite !not_elem_of_cons. split_and!; [lia..|]. by apply (decimal_no_char ctr).
Qed.

(** "##", the tag, "#" and the counter. *)
Lemma tagged_name_ok junk ctr str : length junk = 14%nat -> in_range 32 ctr -> len str <= MAX_SYM_LEN - 17 ->
  exists s, decimal ctr s /\ tagged_name junk ctr str = Some (35 :: 35 :: str ++ 35 :: s).
Proof.
  intros Hj Hc Hl. unfold tagged_name, MAX_SYM_LEN, INTPTR_MAX, len in *.
  destruct (uint2str_correct junk 14 ctr 10) as (s & Hs & E); [lia|apply Hc|lia|lia|].
  exists s. split; [exact Hs|]. rewrite E. cbn [mbind option_bind]. cbv zeta. pose proof (digits_fit _ _ _ _ Hs) as Hf.
  rewrite (drop_ge junk) by lia. rewrite (uw_small 64 (14 + Z.of_nat (length str) + 3)) by (unfold in_range; lia).
  rewrite uw_small by (unfold in_range; lia).
  rewrite (drop_app_length' _ (s ++ [0])) by (rewrite length_take; lia).
  replace ([35; 35] ++ str ++ [35] ++ s ++ [0]) with ((35 :: 35 :: str ++ 35 :: s) ++ [0]) by (cbn [app]; by rewrite <- app_assoc).
  rewrite take_app_length'; [done|]. cbn [length]. rewrite length_app. cbn [length]. lia.
Qed.

(** The last '#' ends the tag. *)
Lemma last_hash_inj (a b s s' : list Z) : 35 ∉ s -> 35 ∉ s' -> a ++ 35 :: s = b ++ 35 :: s' -> a = b /\ s = s'.
Proof.
  intros Hs Hs'. revert b. induction a as [|x a IH]; intros [|y b] E; cbn [app] in E; [by injection E as ->|injection E as E1 E2..].
  - exfalso. apply Hs. rewrite E2. apply elem_of_app. right. by left.
  - exfalso. apply Hs'. rewrite <- E2. apply elem_of_app. right. by left.
  - destruct (IH b E2) as [-> ->]. by rewrite E1.
Qed.

Lemma decimal_c_name ctr s pre : decimal ctr s -> words 8 pre -> 0 ∉ pre -> len pre + 13 < 2 ^ 64 -> c_name (pre ++ s).
Proof.
  intros H Hw H0 Hl. pose proof (digits_fit _ _ _ _ H). split_and!.
  - apply words_app. split; [done|]. eapply Forall_impl; [exact (decimal_chars _ _ H)|]. unfold in_range. cbv beta. lia.
  - rewrite elem_of_app. intros [?|Hin]; [done|]. by apply (decimal_no_char ctr s 0 H).
  - unfold len in *. rewrite length_app. lia.
Qed.

(** C38: [jl_gensym] makes the symbol "##n" and [jl_tagged_gensym] the symbol
    "##tag#n", where n is the counter in decimal, and both step the counter; for
    any tags, two of these names are the same only when they come from the same
    value of the counter, the same function and the same tag. *)
Theorem gensym_correct : forall t junk16 junk14 ctr tag,
  wf t -> length junk16 = 16%nat -> length junk14 = 14%nat -> in_range 32 ctr -> c_name tag -> len tag <= MAX_SYM_LEN - 30 ->
  (exists t' n s, jl_gensym junk16 t ctr = Some (inl (t', n), u32 (ctr + 1)) /\ wf t' /\ grows t t' /\
     has_name t' n (35 :: 35 :: s) /\ gensym_name junk16 ctr = Some (35 :: 35 :: s) /\ parse 10 s = ctr) /\
  (exists t' n s, jl_tagged_gensym junk14 t ctr tag true = Some (inl (t', n), u32 (ctr + 1)) /\ wf t' /\ grows t t' /\
     has_name t' n (35 :: 35 :: tag ++ 35 :: s) /\ tagged_name junk14 ctr tag = Some (35 :: 35 :: tag ++ 35 :: s) /\ parse 10 s = ctr) /\
  (forall junk ctr', length junk = 16%nat -> in_range 32 ctr' -> gensym_name junk ctr' = gensym_name junk16 ctr -> ctr' = ctr) /\
  (forall junk ctr' tag', length junk = 14%nat -> in_range 32 ctr' -> len tag' <= MAX_SYM_LEN - 17 ->
     (tagged_name junk ctr' tag' = tagged_name junk14 ctr tag -> ctr' = ctr /\ tag' = tag) /\
     tagged_name junk ctr' tag' <> gensym_name junk16 ctr).
Proof.
  intros t junk16 junk14 ctr tag Hwf H16 H14 Hc Ht Hl.
  destruct (gensym_name_ok junk16 ctr H16 Hc) as (s & Hs & Es). destruct (tagged_name_ok junk14 ctr tag H14 Hc ltac:(lia)) as (s' & Hs' & Es').
  assert (forall c s, decimal c s -> 35 ∉ s) as H35 by (intros c0 s0 H0; apply (decimal_no_char c0); [done|lia]).
  split_and!.
  - assert (c_name (35 :: 35 :: s)) as Hn.
    { apply (decimal_c_name ctr s [35; 35] Hs); [by repeat constructor| |done]. rewrite !not_elem_of_cons. split_and!; [lia..|apply not_elem_of_nil]. }
    destruct (jl_symbol_ok t _ Hwf Hn) as (t' & n & sy & E & W & G & L & Nm & _).
    { pose proof (digits_fit _ _ _ _ Hs). unfold len, MAX_SYM_LEN, INTPTR_MAX. cbn [length]. lia. }
    exists t', n, s. unfold jl_gensym. rewrite Es. cbn [mbind option_bind]. unfold jl_symbol. rewrite E. cbn [mbind option_bind].
    split_and!; [done..|by exists sy|done|by apply decimal_value].
  - assert (c_name (35 :: 35 :: tag ++ 35 :: s')) as Hn.
    { replace (35 :: 35 :: tag ++ 35 :: s') with ((35 :: 35 :: tag ++ [35]) ++ s') by (cbn [app]; by rewrite <- app_assoc).
      apply (decimal_c_name ctr s' _ Hs').
      - apply (words_app 8 (35 :: 35 :: tag)). split; [|by repeat constructor]. do 2 (apply Forall_cons; split; [done|]). apply Ht.
      - rewrite !not_elem_of_cons, elem_of_app, list_elem_of_singleton. split_and!; [lia..|]. intros [?|?]; [by apply Ht|lia].
      - unfold len, MAX_SYM_LEN, INTPTR_MAX in *. cbn [length]. rewrite length_app. cbn [length]. lia. }
    destruct (jl_symbol_ok t _ Hwf Hn) as (t' & n & sy & E & W & G & L & Nm & _).
    { pose proof (digits_fit _ _ _ _ Hs'). unfold len, MAX_SYM_LEN, INTPTR_MAX in *. cbn [length]. rewrite length_app. cbn [length]. lia. }
    exists t', n, s'. unfold jl_tagged_gensym. cbn [andb].
    assert (has_nul tag = false) as ->.
    { apply not_true_is_false. intros (x & Hx & Ex%Z.eqb_eq)%existsb_exists. subst x. apply list_elem_of_In in Hx. by apply Ht. }
    rewrite (uw_small 64 (14 + len tag + 3)) by (unfold in_range, len, MAX_SYM_LEN, INTPTR_MAX in *; lia). cbv zeta.
    destruct (Z.ltb_spec MAX_SYM_LEN (len tag)); [lia|]. destruct (Z.ltb_spec MAX_SYM_LEN (14 + len tag + 3)); [lia|]. cbn [orb].
    rewrite Es'. cbn [mbind option_bind]. rewrite E. cbn [mbind option_bind].
    split_and!; [done..|by exists sy|done|by apply decimal_value].
  - intros junk ctr' Hj Hc' E. destruct (gensym_name_ok junk ctr' Hj Hc') as (s2 & Hs2 & E2). rewrite E2, Es in E. injection E as ->.
    rewrite <- (decimal_value ctr' s), <- (decimal_value ctr s); done.
  - intros junk ctr' tag' Hj Hc' Hl'. destruct (tagged_name_ok junk ctr' tag' Hj Hc' Hl') as (s2 & Hs2 & E2). rewrite E2. split.
    + rewrite Es'. intros E. injection E as E. apply last_hash_inj in E as [-> ->]; [|by eapply H35..].
      split; [|done]. rewrite <- (decimal_value ctr' s'), <- (decimal_value ctr s'); done.
    + rewrite Es. intros E. injection E as E. apply (H35 _ _ Hs). rewrite <- E. apply elem_of_app. right. by left.
Qed.
Lemma gensym_correct_witness : wf empty_table /\ c_name [97] /\ exists t' n s,
  jl_gensym (replicate 16 0xff) empty_table 7 = Some (inl (t', n), 8) /\ has_name t' n (35 :: 35 :: s) /\ parse 10 s = 7.
Proof.
  assert (c_name [97]) as H by (apply c_nameb_ok; vm_compute; reflexivity).
  split; [exact wf_empty_table|]. split; [exact H|].
  destruct (gensym_correct empty_table (replicate 16 0xff) (replicate 14 0xff) 7 [97] wf_empty_table eq_refl eq_refl
    ltac:(unfold in_range; lia) H ltac:(vm_compute; discriminate)) as [(t' & n & s & E & _ & _ & Hn & _ & Hv) _].
  exists t', n, s. split; [exact E|]. split; [exact Hn|exact Hv].
Defined.
