(* ===== verification/Objects.v ===== *)
(** * Shared objects and their refinement

    A shared object is a labelled transition system: threads call operations
    and get results ([Call], [Ret]); the steps in between are internal. A client
    runs threads over an array of objects. [simulates_client]: when every
    object has a forward simulation into a specification, what the client
    reaches over the objects it reaches over the specifications, so the
    client's invariants are proved against the specification. *)
From stdpp Require Import relations.
From S2P Require Import Prelude.

Section objects.
Context {Op Res : Type}.

Inductive event := Call (i : nat) (o : Op) | Ret (i : nat) (r : Res).

(** [trans s None s']: a step inside an operation. *)
Record object := { ostate : Type; trans : ostate -> option event -> ostate -> Prop }.

Definition internal (O : object) (s s' : ostate O) : Prop := trans O s None s'.

(** The calls and returns of a run. *)
Inductive trace (O : object) : ostate O -> list event -> ostate O -> Prop :=
| trace_nil s : trace O s [] s
| trace_internal s s1 s' tr : trans O s None s1 -> trace O s1 tr s' -> trace O s tr s'
| trace_visible s e s1 s' tr : trans O s (Some e) s1 -> trace O s1 tr s' -> trace O s (e :: tr) s'.

(** One step of the implementation is matched by at most one visible step of
    the specification, or by any number of internal ones. *)
Definition simulates {C A : object} (R : ostate C -> ostate A -> Prop) : Prop :=
  forall c a e c', R c a -> trans C c e c' ->
  match e with
  | None => exists a', rtc (internal A) a a' /\ R c' a'
  | Some e => exists a', trans A a (Some e) a' /\ R c' a'
  end.

Lemma trace_internals (O : object) s s1 tr s' : rtc (internal O) s s1 -> trace O s1 tr s' -> trace O s tr s'.
Proof. induction 1; [done|]. intros. eapply trace_internal; eauto. Qed.

Lemma simulates_trace {C A : object} (R : ostate C -> ostate A -> Prop) : simulates R ->
  forall c a tr c', R c a -> trace C c tr c' -> exists a', trace A a tr a' /\ R c' a'.
Proof.
  intros HR c a tr c' Ha Ht. revert a Ha. induction Ht as [c|c c1 c' tr Hs _ IH|c e c1 c' tr Hs _ IH]; intros a Ha.
  - exists a. split; [constructor|done].
  - destruct (HR _ _ None _ Ha Hs) as (a1 & Hr & Ha1). destruct (IH _ Ha1) as (a' & ? & ?). exists a'. split; [by eapply trace_internals|done].
  - destruct (HR _ _ (Some e) _ Ha Hs) as (a1 & Hr & Ha1). destruct (IH _ Ha1) as (a' & ? & ?). exists a'. split; [by eapply trace_visible|done].
Qed.

(** A client's own steps, and its steps that call or return from object [q]. *)
Record client := { cstate : Type; own : cstate -> cstate -> Prop; uses : nat -> event -> cstate -> cstate -> Prop }.

(** The objects over which a client runs may differ in what they do: object [q]
    makes the transitions [T q]. *)
Section over.
Context {S : Type} (T : nat -> S -> option event -> S -> Prop) (K : client).

Record world := { threads : cstate K; objs : list S }.

Inductive wstep : world -> world -> Prop :=
| own_step s s' os : own K s s' -> wstep {| threads := s; objs := os |} {| threads := s'; objs := os |}
| use_step s s' os q o e o' : os !! q = Some o -> uses K q e s s' -> T q o (Some e) o' ->
    wstep {| threads := s; objs := os |} {| threads := s'; objs := <[q := o']> os |}
| internal_step s os q o o' : os !! q = Some o -> T q o None o' ->
    wstep {| threads := s; objs := os |} {| threads := s; objs := <[q := o']> os |}.

Lemma internal_world s os q o o' : os !! q = Some o -> rtc (internal {| trans := T q |}) o o' ->
  rtc wstep {| threads := s; objs := os |} {| threads := s; objs := <[q := o']> os |}.
Proof.
  intros Hq H. revert os Hq. induction H as [o|o o1 o' Ho _ IH]; intros os Hq.
  - rewrite list_insert_id by done. apply rtc_refl.
  - eapply rtc_l; [by eapply internal_step|]. specialize (IH (<[q := o1]> os)).
    rewrite list_insert_insert_eq in IH. apply IH. apply list_lookup_insert_eq. by eapply lookup_lt_Some.
Qed.
End over.
#[global] Arguments threads {S K} w.
#[global] Arguments objs {S K} w.
#[global] Arguments Build_world {S K} threads objs.

(** The worlds have the same threads, and related objects. *)
Section simulation.
Context {S S' : Type} (T : nat -> S -> option event -> S -> Prop) (T' : nat -> S' -> option event -> S' -> Prop) (K : client).
Context (R : nat -> S -> S' -> Prop).
Hypothesis HR : forall q, simulates (C := {| trans := T q |}) (A := {| trans := T' q |}) (R q).

Definition related (w : world (S := S) K) (v : world (S := S') K) : Prop :=
  threads w = threads v /\ length (objs w) = length (objs v) /\
  forall q o a, objs w !! q = Some o -> objs v !! q = Some a -> R q o a.

Lemma related_insert s os os' q o a : related {| threads := s; objs := os |} {| threads := s; objs := os' |} -> R q o a ->
  forall s', related {| threads := s'; objs := <[q := o]> os |} {| threads := s'; objs := <[q := a]> os' |}.
Proof.
  intros (_ & Hl & Ho) HR' s'. split_and!; cbn in *; [done|by rewrite !length_insert|].
  intros q' o' a' [(-> & <- & _)|(Hne & Hq)]%list_lookup_insert_Some [(E & <- & _)|(Hne' & Hq')]%list_lookup_insert_Some; [done|done|done|by eapply Ho].
Qed.

Lemma simulates_step w w' v : related w v -> wstep T K w w' -> exists v', rtc (wstep T' K) v v' /\ related w' v'.
Proof.
  intros H Hs. destruct v as [s2 os2]. pose proof (proj1 H) as Ht. cbn in Ht. subst s2.
  assert (forall q o, objs w !! q = Some o -> exists a, os2 !! q = Some a /\ R q o a) as Hlook.
  { intros q o Hq. destruct H as (_ & Hl & Ho). cbn in *. destruct (lookup_lt_is_Some_2 os2 q) as [a Ha]; [rewrite <- Hl; by eapply lookup_lt_Some|].
    exists a. split; [done|]. by eapply Ho. }
  destruct Hs as [s s' os Hs|s s' os q o e o' Hq Hu Hs|s os q o o' Hq Hs]; cbn in *.
  - exists {| threads := s'; objs := os2 |}. split; [apply rtc_once; by apply own_step|]. by split; [|apply H].
  - destruct (Hlook _ _ Hq) as (a & Ha & HRa). destruct (HR q _ _ (Some e) _ HRa Hs) as (a' & Hs' & HR').
    exists {| threads := s'; objs := <[q := a']> os2 |}. split; [apply rtc_once; by eapply use_step|by eapply related_insert].
  - destruct (Hlook _ _ Hq) as (a & Ha & HRa). destruct (HR q _ _ None _ HRa Hs) as (a' & Hs' & HR').
    exists {| threads := s; objs := <[q := a']> os2 |}. split; [by eapply internal_world|by eapply related_insert].
Qed.

Lemma simulates_client w w' v : related w v -> rtc (wstep T K) w w' -> exists v', rtc (wstep T' K) v v' /\ related w' v'.
Proof.
  intros H Hs. revert v H. induction Hs as [w|w w1 w' Hw _ IH]; intros v H; [exists v; split; [apply rtc_refl|done]|].
  destruct (simulates_step w w1 v H Hw) as (v1 & Hv1 & H1). destruct (IH v1 H1) as (v' & Hv' & H'). exists v'. split; [by etrans|done].
Qed.
End simulation.
End objects.
Arguments event : clear implicits.
Arguments object : clear implicits.
Arguments client : clear implicits.
