(* ===== verification/WsQueue.v ===== *)
(** * Work-stealing queues (work-stealing-queue.h)

    The garbage collector keeps its mark queues in Chase and Lev's deque: the
    thread that owns it pushes and pops at [bottom], the others steal at [top].
    A step of a thread is one access to shared memory; the copy of an element
    into or out of a cell that another thread may use is one step per machine
    word, so a thief can read a torn element. Memory is sequentially
    consistent. Signed overflow and an access outside an array leave the
    thread stuck. *)
From S2P Require Import Prelude Objects.

(** An element of [eltsz] bytes is a list of [eltsz / 8] words; cell [c] of the
    buffer is the bytes at [buffer + c * eltsz]. *)
Abbreviation elt := (list Z).
Record ws_array_t := { buffer : list elt; capacity : Z; mask : Z }.

(** [array] is the address of the current array among [arrays]: a replaced
    array is not freed while threads mark (gc-stock.c keeps it in
    [reclaim_set]), so its reads stay valid. *)
Record ws_queue_t := { top : Z; bottom : Z; array : nat; arrays : list ws_array_t }.

Definition int64 (z : Z) : option Z := if (- 2 ^ 63 <=? z) && (z <? 2 ^ 63) then Some z else None.
Definition int32 (z : Z) : option Z := if (- 2 ^ 31 <=? z) && (z <? 2 ^ 31) then Some z else None.

Definition slot (a : ws_array_t) (j : Z) : nat := Z.to_nat (Z.land j (mask a)).
Definition cell (a : ws_array_t) (j : Z) : option elt := buffer a !! slot a j.

(** [junk]: what [malloc] left in the new buffer. *)
Definition create_ws_array (capacity : Z) (junk : list elt) : option ws_array_t :=
  if Z.of_nat (length junk) =? capacity then Some {| buffer := junk; capacity := capacity; mask := capacity - 1 |} else None.

(** The loop that copies the elements into an array of twice the size. *)
Definition copy_cell (ary : ws_array_t) (t : Z) (new : ws_array_t) (i : Z) : option ws_array_t :=
  x ← cell ary (t + i);
  if decide (slot new (t + i) < length (buffer new))%nat
  then Some {| buffer := <[slot new (t + i) := x]> (buffer new); capacity := capacity new; mask := mask new |}
  else None.
Definition copy_cells (ary : ws_array_t) (t : Z) (new : ws_array_t) (l : list Z) : option ws_array_t :=
  foldl (fun new i => new ← new; copy_cell ary t new i) (Some new) l.
Definition grow_ws_array (ary : ws_array_t) (t : Z) (junk : list elt) : option ws_array_t :=
  n ← int32 (2 * capacity ary);
  new ← create_ws_array n junk;
  copy_cells ary t new (seqZ 0 (capacity ary)).

(** What a thread asks of the queue and what it gets back: a push gives the
    array it replaced, a pop or a steal the contents of [dest]. *)
Inductive ws_op := Push (e : elt) | Pop (dest : elt) | Steal (dest : elt).
Inductive ws_res := Pushed (old_ary : option nat) | Took (dest : elt).

(** Where a thread is: each constructor is about to make the access it names. *)
Inductive pc :=
| Idle
| Push_bottom (e : elt)
| Push_top (e : elt) (b : Z)
| Push_array (e : elt) (b t : Z)
| Push_publish (e : elt) (b : Z) (ary : nat) (new_ary : ws_array_t)
| Push_write (e : elt) (b : Z) (ary : nat) (old_ary : option nat) (k : nat)
| Push_store (e : elt) (b : Z) (old_ary : option nat)
| Pop_bottom (dest : elt)
| Pop_array (dest : elt) (b : Z)
| Pop_store (dest : elt) (b : Z) (ary : nat)
| Pop_top (dest : elt) (b : Z) (ary : nat)
| Pop_read (dest : elt) (b t : Z) (ary : nat)
| Pop_cas (dest : elt) (b t : Z)
| Pop_restore (dest : elt) (b : Z)
| Steal_top (dest : elt)
| Steal_bottom (dest : elt) (t : Z)
| Steal_array (dest : elt) (t : Z)
| Steal_read (dest : elt) (t : Z) (ary : nat) (k : nat)
| Steal_cas (dest : elt) (t : Z)
| Done (r : ws_res).

Definition start (o : ws_op) : pc :=
  match o with Push e => Push_bottom e | Pop dest => Pop_bottom dest | Steal dest => Steal_top dest end.

Definition set_top (q : ws_queue_t) (t : Z) := {| top := t; bottom := bottom q; array := array q; arrays := arrays q |}.
Definition set_bottom (q : ws_queue_t) (b : Z) := {| top := top q; bottom := b; array := array q; arrays := arrays q |}.
Definition set_array (q : ws_queue_t) (a : nat) (l : list ws_array_t) := {| top := top q; bottom := bottom q; array := a; arrays := l |}.

(** One word of the copy into cell [j] of array [ary]. *)
Definition write_word (q : ws_queue_t) (ary : nat) (j : Z) (k : nat) (w : Z) : option ws_queue_t :=
  a ← arrays q !! ary;
  x ← cell a j;
  let a' := {| buffer := <[slot a j := <[k := w]> x]> (buffer a); capacity := capacity a; mask := mask a |} in
  Some (set_array q (array q) (<[ary := a']> (arrays q))).

Section steps.
(** [eltsz] in words. *)
Context (eltsz : nat).

Definition zero : elt := replicate eltsz 0.

(** [ws_queue_push] *)
Definition push_step (junk : list elt) (q : ws_queue_t) (c : pc) : option (ws_queue_t * pc) :=
  match c with
  | Push_bottom e => Some (q, Push_top e (bottom q))
  | Push_top e b => Some (q, Push_array e b (top q))
  | Push_array e b t =>
      ary ← arrays q !! array q;
      d ← int64 (b - t);
      if capacity ary - 1 <? d
      then new_ary ← grow_ws_array ary t junk; Some (q, Push_publish e b (array q) new_ary)
      else Some (q, Push_write e b (array q) None 0)
  | Push_publish e b ary new_ary =>
      let new := length (arrays q) in
      Some (set_array q new (arrays q ++ [new_ary]), Push_write e b new (Some ary) 0)
  | Push_write e b ary old_ary k =>
      if decide (k < eltsz)%nat
      then w ← e !! k; q ← write_word q ary b k w; Some (q, Push_write e b ary old_ary (S k))
      else Some (q, Push_store e b old_ary)
  | Push_store e b old_ary => b' ← int64 (b + 1); Some (set_bottom q b', Done (Pushed old_ary))
  | _ => None
  end.

(** [ws_queue_pop]. The owner alone writes the cells, so its copy out of one
    is one step. *)
Definition pop_step (q : ws_queue_t) (c : pc) : option (ws_queue_t * pc) :=
  match c with
  | Pop_bottom dest => b ← int64 (bottom q - 1); Some (q, Pop_array dest b)
  | Pop_array dest b => Some (q, Pop_store dest b (array q))
  | Pop_store dest b ary => Some (set_bottom q b, Pop_top dest b ary)
  | Pop_top dest b ary =>
      let t := top q in
      if t <=? b then Some (q, Pop_read dest b t ary) else Some (q, Pop_restore zero b)
  | Pop_read dest b t ary =>
      a ← arrays q !! ary;
      x ← cell a b;
      if t =? b then Some (q, Pop_cas x b t) else Some (q, Done (Took x))
  | Pop_cas dest b t =>
      if top q =? t
      then t' ← int64 (t + 1); Some (set_top q t', Pop_restore dest b)
      else Some (q, Pop_restore zero b)
  | Pop_restore dest b => b' ← int64 (b + 1); Some (set_bottom q b', Done (Took dest))
  | _ => None
  end.

(** [ws_queue_steal_from] *)
Definition steal_step (q : ws_queue_t) (c : pc) : option (ws_queue_t * pc) :=
  match c with
  | Steal_top dest => Some (q, Steal_bottom dest (top q))
  | Steal_bottom dest t => if t <? bottom q then Some (q, Steal_array dest t) else Some (q, Done (Took dest))
  | Steal_array dest t => Some (q, Steal_read dest t (array q) 0)
  | Steal_read dest t ary k =>
      if decide (k < eltsz)%nat
      then a ← arrays q !! ary; x ← cell a t; w ← x !! k; Some (q, Steal_read (<[k := w]> dest) t ary (S k))
      else Some (q, Steal_cas dest t)
  | Steal_cas dest t =>
      if top q =? t
      then t' ← int64 (t + 1); Some (set_top q t', Done (Took dest))
      else Some (q, Done (Took zero))
  | _ => None
  end.

Definition ws_step (junk : list elt) (q : ws_queue_t) (c : pc) : option (ws_queue_t * pc) :=
  match push_step junk q c with
  | Some r => Some r
  | None => match pop_step q c with Some r => Some r | None => steal_step q c end
  end.
End steps.

(** A queue as [jl_init_thread_gc_state] makes it. *)
Definition new_queue (a : ws_array_t) : ws_queue_t := {| top := 0; bottom := 0; array := 0; arrays := [a] |}.

(** ** The queue as a shared object *)

Record ws_state := { queue : ws_queue_t; pcs : list pc }.

Section object.
Context (eltsz : nat) (owner : nat).

Definition elt_ok (e : elt) : Prop := length e = eltsz.
Definition op_ok (i : nat) (o : ws_op) : Prop :=
  match o with Push e => i = owner /\ elt_ok e | Pop dest => i = owner /\ elt_ok dest | Steal dest => elt_ok dest end.

Inductive ws_trans (s : ws_state) : option (event ws_op ws_res) -> ws_state -> Prop :=
| ws_call i o : pcs s !! i = Some Idle -> op_ok i o ->
    ws_trans s (Some (Call i o)) {| queue := queue s; pcs := <[i := start o]> (pcs s) |}
| ws_ret i r : pcs s !! i = Some (Done r) ->
    ws_trans s (Some (Ret i r)) {| queue := queue s; pcs := <[i := Idle]> (pcs s) |}
| ws_run i c q' c' junk : pcs s !! i = Some c -> Forall elt_ok junk -> ws_step eltsz junk (queue s) c = Some (q', c') ->
    ws_trans s None {| queue := q'; pcs := <[i := c']> (pcs s) |}.

Definition ws_object : object ws_op ws_res := {| trans := ws_trans |}.
End object.

(** ** What a deque promises

    [taken] counts the elements that left at the top. A thief first notes
    [taken]; it comes back with nothing only if another element left since, if
    the deque was empty, or while the owner was popping. *)

Inductive apc := A_idle | A_push (e : elt) | A_pop | A_steal (dest : elt) | A_steal_from (dest : elt) (t : Z) | A_steal_take (t : Z) | A_done (r : ws_res).
Record deque := { taken : Z; items : list elt; apcs : list apc }.

Definition a_start (o : ws_op) : apc := match o with Push e => A_push e | Pop _ => A_pop | Steal dest => A_steal dest end.
Definition a_set (d : deque) (t : Z) (l : list elt) (i : nat) (a : apc) : deque := {| taken := t; items := l; apcs := <[i := a]> (apcs d) |}.

Section spec.
Context (eltsz : nat) (owner : nat).

Inductive d_trans (d : deque) : option (event ws_op ws_res) -> deque -> Prop :=
| d_call i o : apcs d !! i = Some A_idle -> op_ok eltsz owner i o -> d_trans d (Some (Call i o)) (a_set d (taken d) (items d) i (a_start o))
| d_ret i r : apcs d !! i = Some (A_done r) -> d_trans d (Some (Ret i r)) (a_set d (taken d) (items d) i A_idle)
| d_push i e old_ary : apcs d !! i = Some (A_push e) ->
    d_trans d None (a_set d (taken d) (items d ++ [e]) i (A_done (Pushed old_ary)))
| d_pop i l e : apcs d !! i = Some A_pop -> items d = l ++ [e] ->
    d_trans d None (a_set d (if decide (l = []) then taken d + 1 else taken d) l i (A_done (Took e)))
| d_pop_empty i : apcs d !! i = Some A_pop -> items d = [] ->
    d_trans d None (a_set d (taken d) [] i (A_done (Took (zero eltsz))))
| d_steal_begin i dest : apcs d !! i = Some (A_steal dest) ->
    d_trans d None (a_set d (taken d) (items d) i (A_steal_from dest (taken d)))
| d_steal_empty i dest t : apcs d !! i = Some (A_steal_from dest t) ->
    items d = [] \/ taken d <> t \/ apcs d !! owner = Some A_pop ->
    d_trans d None (a_set d (taken d) (items d) i (A_done (Took dest)))
| d_steal_look i dest t : apcs d !! i = Some (A_steal_from dest t) ->
    d_trans d None (a_set d (taken d) (items d) i (A_steal_take t))
| d_steal_take i t e l : apcs d !! i = Some (A_steal_take t) -> taken d = t -> items d = e :: l ->
    d_trans d None (a_set d (t + 1) l i (A_done (Took e)))
| d_steal_lost i t : apcs d !! i = Some (A_steal_take t) -> taken d <> t ->
    d_trans d None (a_set d (taken d) (items d) i (A_done (Took (zero eltsz)))).

Definition deque_object : object ws_op ws_res := {| trans := d_trans |}.
End spec.
