(* ===== verification/WsQueueInv.v ===== *)
(** * Work-stealing queues: the invariant

    What holds between any two accesses. The owner's part speaks of the cells it
    fills, a thief's part of the cell it reads: as long as [top] has not moved,
    that cell keeps its element in whichever array the thief reads it from. *)
From S2P Require Import Prelude Objects WsQueue.

(** * Work-stealing queues: the invariant *)

Section inv.
Context (eltsz : nat) (owner : nat).

Record arr_ok (a : ws_array_t) : Prop := {
  arr_pow : exists n, 0 <= n /\ capacity a = 2 ^ n;
  arr_mask : mask a = capacity a - 1;
  arr_len : Z.of_nat (length (buffer a)) = capacity a;
  arr_elts : Forall (elt_ok eltsz) (buffer a);
}.

(** Where the bottom will be once a pop that has not taken effect is undone. *)
Definition logical_bottom (q : ws_queue_t) (c : pc) : Z :=
  match c with
  | Pop_top _ _ _ | Pop_cas _ _ _ | Pop_restore _ _ => bottom q + 1
  | Pop_read _ b t _ => if t =? b then bottom q + 1 else bottom q
  | _ => bottom q
  end.

Definition cell_at (q : ws_queue_t) (ary : nat) (j : Z) : option elt := a ← arrays q !! ary; cell a j.
Definition cur (q : ws_queue_t) (j : Z) : option elt := cell_at q (array q) j.

(** The arrays and the counters, for the logical bottom [L]. *)
Record core (q : ws_queue_t) (L : Z) : Prop := {
  core_arrays : Forall arr_ok (arrays q);
  core_range : 0 <= top q <= L;
  core_cap : exists a, arrays q !! array q = Some a /\ L - top q <= capacity a;
}.

Definition owner_ok (q : ws_queue_t) (c : pc) : Prop :=
  match c with
  | Push_bottom e => elt_ok eltsz e
  | Push_top e b => elt_ok eltsz e /\ b = bottom q
  | Push_array e b t => elt_ok eltsz e /\ b = bottom q /\ 0 <= t <= top q /\
      (exists a, arrays q !! array q = Some a /\ b - t <= capacity a)
  | Push_publish e b ary new_ary => elt_ok eltsz e /\ b = bottom q /\ ary = array q /\ arr_ok new_ary /\
      b - top q <= capacity new_ary - 1 /\ forall j, top q <= j < b -> cell new_ary j = cur q j
  | Push_write e b ary _ k => elt_ok eltsz e /\ b = bottom q /\ ary = array q /\ (k <= eltsz)%nat /\
      (exists a x, arrays q !! ary = Some a /\ b - top q <= capacity a - 1 /\ cell a b = Some x /\ take k x = take k e)
  | Push_store e b _ => elt_ok eltsz e /\ b = bottom q /\
      (exists a, arrays q !! array q = Some a /\ b - top q <= capacity a - 1 /\ cell a b = Some e)
  | Pop_bottom _ => True
  | Pop_array _ b => b = bottom q - 1
  | Pop_store _ b ary => b = bottom q - 1 /\ ary = array q
  | Pop_top _ b ary => b = bottom q /\ ary = array q
  | Pop_read _ b t ary => b = bottom q /\ ary = array q /\ t <= b /\ t <= top q
  | Pop_cas d b t => b = bottom q /\ t = b /\ t <= top q /\ cur q b = Some d
  | Pop_restore d b => b = bottom q /\ top q = b + 1
  | _ => True
  end.

Definition thief_ok (q : ws_queue_t) (L : Z) (c : pc) : Prop :=
  match c with
  | Steal_top d => elt_ok eltsz d
  | Steal_bottom d t => elt_ok eltsz d /\ 0 <= t <= top q
  | Steal_array d t => elt_ok eltsz d /\ 0 <= t <= top q /\ (top q = t -> t < L)
  | Steal_read d t ary k => elt_ok eltsz d /\ 0 <= t <= top q /\ (k <= eltsz)%nat /\ is_Some (arrays q !! ary) /\
      (top q = t -> t < L /\ exists x, cell_at q ary t = Some x /\ cur q t = Some x /\ take k d = take k x)
  | Steal_cas d t => elt_ok eltsz d /\ 0 <= t <= top q /\ (top q = t -> t < L /\ cur q t = Some d)
  | _ => True
  end.

Definition owned (c : pc) : bool :=
  match c with
  | Idle | Done _ | Steal_top _ | Steal_bottom _ _ | Steal_array _ _ | Steal_read _ _ _ _ | Steal_cas _ _ => false
  | _ => true
  end.
Definition owner_pc (s : ws_state) : pc := default Idle (pcs s !! owner).
Definition lbottom (s : ws_state) : Z := logical_bottom (queue s) (owner_pc s).

Record inv (s : ws_state) : Prop := {
  inv_core : core (queue s) (lbottom s);
  inv_owned i c : pcs s !! i = Some c -> owned c = true -> i = owner;
  inv_owner i c : pcs s !! i = Some c -> owner_ok (queue s) c;
  inv_thief i c : pcs s !! i = Some c -> thief_ok (queue s) (lbottom s) c;
}.

(** ** Cells *)

Lemma slot_mod a j : arr_ok a -> slot a j = Z.to_nat (j mod capacity a).
Proof. intros [(n & ? & E) M _ _]. unfold slot. by rewrite M, E, land_mod. Qed.

Lemma arr_pos a : arr_ok a -> 0 < capacity a.
Proof. intros [(n & ? & ->) _ _ _]. by apply pow2_pos. Qed.

Lemma slot_lt a j : arr_ok a -> (slot a j < length (buffer a))%nat.
Proof. intros H. rewrite slot_mod by done. pose proof (arr_pos _ H). pose proof (arr_len _ H). pose proof (Z.mod_pos_bound j (capacity a)). lia. Qed.

Lemma slot_inj a i j : arr_ok a -> slot a i = slot a j -> Z.abs (i - j) < capacity a -> i = j.
Proof.
  intros H. rewrite !slot_mod by done. pose proof (arr_pos _ H). intros E Hb.
  pose proof (Z.mod_pos_bound i (capacity a)). pose proof (Z.mod_pos_bound j (capacity a)).
  assert (i mod capacity a = j mod capacity a) as Em by lia.
  pose proof (Z.div_mod i (capacity a)). pose proof (Z.div_mod j (capacity a)).
  assert (i / capacity a = j / capacity a) by nia. nia.
Qed.

Lemma cell_some a j : arr_ok a -> exists x, cell a j = Some x /\ elt_ok eltsz x.
Proof.
  intros H. destruct (lookup_lt_is_Some_2 _ _ (slot_lt a j H)) as [x Hx]. exists x. split; [done|].
  pose proof (arr_elts _ H) as F. rewrite Forall_lookup in F. by eapply F.
Qed.

(** An array with one cell replaced. *)
Definition set_cell (a : ws_array_t) (j : Z) (x : elt) : ws_array_t :=
  {| buffer := <[slot a j := x]> (buffer a); capacity := capacity a; mask := mask a |}.

Lemma set_cell_ok a j x : arr_ok a -> elt_ok eltsz x -> arr_ok (set_cell a j x).
Proof. intros [P M L E] Hx. split; cbn; [done..|by rewrite length_insert|by apply Forall_insert]. Qed.

Lemma cell_set_eq a j x : arr_ok a -> cell (set_cell a j x) j = Some x.
Proof. intros H. unfold cell, set_cell. apply list_lookup_insert_eq. by apply (slot_lt a j). Qed.

Lemma cell_set_ne a i j x : arr_ok a -> Z.abs (i - j) < capacity a -> i <> j -> cell (set_cell a j x) i = cell a i.
Proof.
  intros H Hb Hn. unfold cell, set_cell. apply list_lookup_insert_ne. intros E. apply Hn. by apply (slot_inj a).
Qed.

Lemma cell_set_other a i j x : slot a i <> slot a j -> cell (set_cell a j x) i = cell a i.
Proof. intros. unfold cell, set_cell. by apply list_lookup_insert_ne. Qed.

Lemma core_cur q L : core q L -> exists a, arrays q !! array q = Some a /\ arr_ok a /\ L - top q <= capacity a.
Proof. intros [F _ (a & Ha & Hc)]. exists a. split_and!; [done| |done]. rewrite Forall_lookup in F. by eapply F. Qed.

Lemma cur_some q L j : core q L -> exists x, cur q j = Some x /\ elt_ok eltsz x.
Proof. intros (a & Ha & Hok & _)%core_cur. unfold cur, cell_at. rewrite Ha. by apply cell_some. Qed.

(** ** Growing the array *)

Lemma copy_cell_ok ary t new i : arr_ok ary -> arr_ok new ->
  exists x, cell ary (t + i) = Some x /\ copy_cell ary t new i = Some (set_cell new (t + i) x) /\ arr_ok (set_cell new (t + i) x).
Proof.
  intros Ha Hn. destruct (cell_some ary (t + i) Ha) as (x & Hx & Hl). exists x. split; [done|]. unfold copy_cell. rewrite Hx. cbn [mbind option_bind].
  rewrite decide_True by (by apply slot_lt). split; [done|by apply set_cell_ok].
Qed.

Lemma copy_cells_ok ary t new n : arr_ok ary -> arr_ok new -> (Z.of_nat n <= capacity new) ->
  exists new', copy_cells ary t new (seqZ 0 (Z.of_nat n)) = Some new' /\ arr_ok new' /\ capacity new' = capacity new /\
    (forall j, t <= j < t + Z.of_nat n -> cell new' j = cell ary j).
Proof.
  intros Ha Hn. induction n as [|n IH]; intros Hle.
  - exists new. split_and!; [done..|]. lia.
  - destruct IH as (m & Em & Hm & Hc & Hj); [lia|]. unfold copy_cells in *. rewrite seqZ_S, foldl_app, Em. cbn [foldl mbind option_bind].
    replace (0 + Z.of_nat n) with (Z.of_nat n) by lia.
    destruct (copy_cell_ok ary t m (Z.of_nat n) Ha Hm) as (x & Hx & E & Hok). exists (set_cell m (t + Z.of_nat n) x). split_and!; [done..|].
    intros j Hjr. destruct (decide (j = t + Z.of_nat n)) as [-> |Hne]; [by rewrite cell_set_eq|].
    rewrite cell_set_ne by (try done; lia). apply Hj. lia.
Qed.

Lemma grow_ok ary t junk new : arr_ok ary -> Forall (elt_ok eltsz) junk -> grow_ws_array ary t junk = Some new ->
  arr_ok new /\ capacity new = 2 * capacity ary /\ (forall j, t <= j < t + capacity ary -> cell new j = cell ary j).
Proof.
  intros Ha Hj. unfold grow_ws_array, int32, create_ws_array. pose proof (arr_pos _ Ha).
  destruct (_ && _); [|done]. cbn [mbind option_bind]. destruct (Z.eqb_spec (Z.of_nat (length junk)) (2 * capacity ary)) as [El|]; [|done].
  cbn [mbind option_bind]. intros E.
  assert (arr_ok {| buffer := junk; capacity := 2 * capacity ary; mask := 2 * capacity ary - 1 |}) as Hn.
  { destruct Ha as [(n & Hn & Hp) _ _ _]. split; cbn; [|done..]. exists (n + 1). split; [lia|]. rewrite Hp, Z.pow_add_r by lia. lia. }
  destruct (copy_cells_ok ary t _ (Z.to_nat (capacity ary)) Ha Hn) as (new' & E' & Hok & Hc & Hcell); [cbn; lia|].
  rewrite Z2Nat.id in E', Hcell by lia. rewrite E in E'. simplify_eq. cbn in Hc. done.
Qed.
End inv.

(** * Work-stealing queues: every access keeps the invariant *)

Section steps.
Context (eltsz : nat) (owner : nat).
Abbreviation core := (core eltsz).
Abbreviation owner_ok := (owner_ok eltsz).
Abbreviation thief_ok := (thief_ok eltsz).
Abbreviation arr_ok := (arr_ok eltsz).
Abbreviation elt_ok := (elt_ok eltsz).

(** What a step of one thread leaves for the thieves. *)
Record rely (q : ws_queue_t) (L : Z) (q' : ws_queue_t) (L' : Z) : Prop := {
  rely_top : top q <= top q';
  rely_arrays ary : is_Some (arrays q !! ary) -> is_Some (arrays q' !! ary);
  rely_cells : top q' = top q -> top q < L ->
    top q < L' /\ cur q' (top q) = cur q (top q) /\ forall ary x, cell_at q ary (top q) = Some x -> cell_at q' ary (top q) = Some x;
}.

Lemma thief_rely q L q' L' c : rely q L q' L' -> thief_ok q L c -> thief_ok q' L' c.
Proof.
  intros [Ht Ha Hc]. destruct c; cbn; try done.
  - intros (? & ?). split; [done|lia].
  - intros (? & ? & H). split_and!; [done|lia..|]. intros E. assert (t = top q) as -> by lia. apply Hc; [done|by apply H].
  - intros (? & ? & ? & ? & H). split_and!; [done|lia..|by apply Ha|]. intros E. assert (t = top q) as -> by lia.
    destruct (H eq_refl) as (Hl & x & Hx & Hcur & Hd). destruct Hc as (? & Ec & Hcell); [done..|]. split; [done|].
    exists x. rewrite Ec. split_and!; [by apply Hcell|done..].
  - intros (? & ? & H). split_and!; [done|lia..|]. intros E. assert (t = top q) as -> by lia.
    destruct (H eq_refl) as (Hl & Hx). destruct Hc as (? & Ec & Hcell); [done..|]. by rewrite Ec.
Qed.

Lemma rely_same q L L' : (top q < L -> top q < L') -> rely q L q L'.
Proof. split; [lia|done|]. intros _ ?. by split_and!; [auto|..]. Qed.

Lemma rely_bottom q L b L' : (top q < L -> top q < L') -> rely q L (set_bottom q b) L'.
Proof. split; [cbn; lia|done|]. intros _ ?. by split_and!; [auto|..]. Qed.

Lemma rely_set_top q L t L' : top q < t -> rely q L (set_top q t) L'.
Proof. split; cbn; [lia|done|lia]. Qed.

(** Nobody but a thief moves [top] past an element, and never past [L]. *)
Lemma owner_stable q c t : owner_ok q c -> top q <= t <= logical_bottom q c -> owner_ok (set_top q t) c.
Proof.
  destruct c; cbn; try done; try (intros; destruct_and?; split_and?; (done || lia)).
  - intros (? & ? & ? & ? & ? & H) ?. split_and!; [done..|lia|]. intros j ?. apply H. lia.
  - intros (? & ? & ? & ? & a & x & ? & ? & ? & ?) ?. split_and!; [done..|]. exists a, x. split_and?; (done || lia).
  - intros (? & ? & a & ? & ? & ?) ?. split_and!; [done..|]. exists a. split_and?; (done || lia).
Qed.

Lemma core_top q L t : core q L -> top q <= t <= L -> core (set_top q t) L.
Proof. intros [A R (a & Ha & C)] H. split; cbn; [done|lia|]. exists a. split; [done|lia]. Qed.

Definition step_ok (q : ws_queue_t) (c : pc) (q' : ws_queue_t) (c' : pc) : Prop :=
  core q' (logical_bottom q' c') /\ owner_ok q' c' /\ (forall L, thief_ok q' L c') /\
  rely q (logical_bottom q c) q' (logical_bottom q' c').

Ltac quiet := try unfold step_ok; cbn; split_and!; try done; try (by apply rely_same); try (by left); try lia.

Lemma core_lower q L L' : core q L -> top q <= L' <= L -> core q L'.
Proof. intros [A R (a & Ha & C)] H. split; [done|lia|]. exists a. split; [done|lia]. Qed.

Lemma core_bottom q b L L' : core q L -> top q <= L' <= L -> core (set_bottom q b) L'.
Proof. intros [A R (a & Ha & C)] H. split; cbn; [done|lia|]. exists a. split; [done|lia]. Qed.

Lemma thief_step q L c q' c' junk : core q L -> thief_ok q L c -> bottom q <= L -> owned c = false ->
  ws_step eltsz junk q c = Some (q', c') ->
  thief_ok q' L c' /\ owned c' = false /\ rely q L q' L /\ (q' = q \/ (q' = set_top q (top q + 1) /\ top q < L)).
Proof.
  intros Hcore Hc Hb Ho E.
  destruct c as [ | | | | | | | | | | | | | |dest|dest t|dest t|dest t ary k|dest t|r]; cbn in Ho; try done; cbn in E; try done.
  - simplify_eq. cbn in *. pose proof (core_range _ _ _ Hcore). quiet.
  - cbn in Hc. destruct Hc as (? & ?). destruct (Z.ltb_spec t (bottom q)); simplify_eq; cbn; quiet.
  - cbn in Hc. destruct Hc as (? & ? & H). simplify_eq. cbn. quiet.
    + destruct (core_cur _ _ _ Hcore) as (a & Ha & _). by exists a.
    + intros Ht. split; [auto|]. destruct (cur_some _ _ _ t Hcore) as (x & Hx & _). exists x. split_and!; [done..|]. by rewrite !take_0.
  - cbn in Hc. destruct Hc as (Hd & ? & Hk & (a & Ha) & H). destruct (decide (k < eltsz)%nat) as [Hlt|Hge].
    + rewrite Ha in E. cbn [mbind option_bind] in E. destruct (cell a t) as [x|] eqn:Hx; [|done]. cbn [mbind option_bind] in E.
      destruct (x !! k) as [w|] eqn:Hw; [|done]. cbn [mbind option_bind] in E. simplify_eq. cbn.
      quiet; [unfold WsQueue.elt_ok in *; by rewrite length_insert|].
      intros Ht. destruct (H Ht) as (? & y & Hy & Hcur & Htake). split; [done|]. exists y. split_and!; [done..|].
      unfold cell_at in Hy. rewrite Ha in Hy. cbn in Hy. simplify_eq. unfold WsQueue.elt_ok in Hd.
      rewrite (take_S_r (<[k:=w]> dest) k w) by (apply list_lookup_insert_eq; lia).
      rewrite (take_S_r x k w) by done. by rewrite take_insert_ge, Htake by lia.
    + simplify_eq. cbn. quiet. intros Ht.
      destruct (H Ht) as (? & x & Hx & Hcur & Htake). split; [done|]. rewrite Hcur. f_equal.
      destruct (cur_some _ _ _ t Hcore) as (y & Hy & Hly). rewrite Hcur in Hy. simplify_eq. unfold WsQueue.elt_ok in *.
      rewrite (firstn_all2 dest) in Htake by lia. rewrite (firstn_all2 y) in Htake by lia. done.
  - cbn in Hc. destruct Hc as (Hd & ? & H). destruct (Z.eqb_spec (top q) t) as [<-|Hne].
    + destruct (int64 (top q + 1)) as [t'|] eqn:Et; [|done]. unfold int64 in Et. destruct (_ && _); [|done]. cbn in E. simplify_eq.
      destruct (H eq_refl). split_and!; try done; [apply rely_set_top; lia|by right].
    + simplify_eq. quiet.
Qed.

(** The owner overwrites the cell above its elements. *)
Lemma write_cell q a y : core q (bottom q) -> arrays q !! array q = Some a -> bottom q - top q <= capacity a - 1 -> elt_ok y ->
  let q' := set_array q (array q) (<[array q := set_cell a (bottom q) y]> (arrays q)) in
  core q' (bottom q) /\ rely q (bottom q) q' (bottom q) /\ arrays q' !! array q = Some (set_cell a (bottom q) y).
Proof.
  intros [A R (a' & Ha' & Hc)] Ha Hb Hy q'. rewrite Ha in Ha'. injection Ha' as <-.
  assert (arr_ok a) as Hok by (rewrite Forall_lookup in A; by eapply A).
  assert (arrays q' !! array q = Some (set_cell a (bottom q) y)) as Hq'.
  { unfold q'. cbn. apply list_lookup_insert_eq. by eapply lookup_lt_Some. }
  split_and!; [| |done].
  - split; [cbn; apply Forall_insert; [done|by apply set_cell_ok]|done|]. exists (set_cell a (bottom q) y). by split.
  - assert (forall ary x, top q < bottom q -> cell_at q ary (top q) = Some x -> cell_at q' ary (top q) = Some x) as Hcell.
    { intros ary x Hlt. unfold cell_at. destruct (decide (ary = array q)) as [-> |Hne].
      - rewrite Hq', Ha. cbn [mbind option_bind]. rewrite (cell_set_ne eltsz) by (try done; lia). done.
      - unfold q'. cbn [arrays set_array]. by rewrite list_lookup_insert_ne by congruence. }
    split; cbn [top set_array]; [done|intros ary; cbn; by rewrite list_lookup_insert_is_Some|].
    intros _ Hlt. split_and!; [done| |by auto]. change (cell_at q' (array q) (top q) = cell_at q (array q) (top q)).
    destruct (cur_some eltsz q (bottom q) (top q)) as (x & Hx & _); [split; [done..|by exists a]|]. unfold cur in Hx. rewrite Hx. by apply Hcell.
Qed.

Lemma push_array_ok q e b t junk r : core q (bottom q) -> owner_ok q (Push_array e b t) -> Forall elt_ok junk ->
  push_step eltsz junk q (Push_array e b t) = Some r -> step_ok q (Push_array e b t) r.1 r.2.
Proof.
  intros Hcore (He & -> & Ht & a' & Ha' & Hbt) Hj E. destruct (core_cur _ _ _ Hcore) as (a & Ha & Hok & Hcap). rewrite Ha in Ha'. injection Ha' as <-. cbn [push_step] in E.
  rewrite Ha in E. cbn [mbind option_bind] in E. unfold int64 in E. destruct (_ && _); [|done]. cbn [mbind option_bind] in E.
  destruct (Z.ltb_spec (capacity a - 1) (bottom q - t)) as [Hfull|Hroom].
  - destruct (grow_ws_array a t junk) as [new|] eqn:G; [|done]. cbn in E. simplify_eq. destruct (grow_ok eltsz a t junk new Hok Hj G) as (Hn & Hc & Hcell).
    pose proof (arr_pos _ _ Hok). pose proof (core_range _ _ _ Hcore). quiet.
    intros j ?. unfold cur, cell_at. rewrite Ha. cbn. apply Hcell. lia.
  - simplify_eq. quiet.
    destruct (cell_some _ a (bottom q) Hok) as (x & Hx & _). exists a, x. rewrite !take_0. split_and!; try done. lia.
Qed.

Lemma push_publish_ok q e b ary new junk r : core q (bottom q) -> owner_ok q (Push_publish e b ary new) ->
  push_step eltsz junk q (Push_publish e b ary new) = Some r -> step_ok q (Push_publish e b ary new) r.1 r.2.
Proof.
  intros Hcore (He & -> & -> & Hn & Hc & Hcell) E. cbn in E. simplify_eq.
  assert ((arrays q ++ [new]) !! length (arrays q) = Some new) as Hnew by (by rewrite lookup_app_r, Nat.sub_diag by lia).
  pose proof Hcore as [A R (a & Ha & Hca)]. split_and!; cbn; try done.
  - split; cbn; [by apply Forall_app; split; [|constructor]|done|]. exists new. split; [done|lia].
  - split_and!; try done; [lia|]. destruct (cell_some _ new (bottom q) Hn) as (x & Hx & _). exists new, x. by rewrite !take_0.
  - split; cbn; [done| |].
    + intros ary (x & Hx). exists x. by apply lookup_app_l_Some.
    + intros _ ?. split_and!; [done| |].
      * unfold cur at 1. unfold cell_at. cbn. rewrite Hnew. cbn. apply Hcell. lia.
      * intros ary x. unfold cell_at. cbn. destruct (arrays q !! ary) as [a'|] eqn:Ea; [|done]. by rewrite (lookup_app_l_Some _ _ _ _ Ea).
Qed.

Lemma push_write_ok q e b ary old k junk r : core q (bottom q) -> owner_ok q (Push_write e b ary old k) ->
  push_step eltsz junk q (Push_write e b ary old k) = Some r -> step_ok q (Push_write e b ary old k) r.1 r.2.
Proof.
  intros Hcore (He & -> & -> & Hk & a & x & Ha & Hb & Hx & Htake) E. cbn [push_step] in E.
  destruct (core_cur _ _ _ Hcore) as (a' & Ha' & Hok & _). rewrite Ha in Ha'. injection Ha' as <-.
  destruct (cell_some _ a (bottom q) Hok) as (x' & Hx' & Hlx). rewrite Hx in Hx'. injection Hx' as <-. unfold WsQueue.elt_ok in *.
  destruct (decide (k < eltsz)%nat) as [Hlt|Hge].
  - destruct (e !! k) as [w|] eqn:Hw; [|done]. cbn [mbind option_bind] in E. unfold write_word in E. rewrite Ha in E. cbn [mbind option_bind] in E.
    rewrite Hx in E. cbn [mbind option_bind] in E. fold (set_cell a (bottom q) (<[k:=w]> x)) in E. simplify_eq.
    destruct (write_cell q a (<[k:=w]> x) Hcore Ha Hb) as (Hc & Hr & Hq'); [unfold WsQueue.elt_ok; by rewrite length_insert|].
    split_and!; cbn [fst snd]; [done| |done|done]. split_and!; [done..|lia|]. exists (set_cell a (bottom q) (<[k:=w]> x)), (<[k:=w]> x).
    split_and!; [done|done|by apply (cell_set_eq eltsz)|].
    rewrite (take_S_r (<[k:=w]> x) k w) by (apply list_lookup_insert_eq; lia). by rewrite (take_S_r e k w), take_insert_ge, Htake by done.
  - simplify_eq. assert (x = e) as -> by (rewrite !firstn_all2 in Htake by lia; done).
    quiet. by exists a.
Qed.

Lemma push_ok q c junk r : core q (logical_bottom q c) -> owner_ok q c -> Forall elt_ok junk -> push_step eltsz junk q c = Some r ->
  step_ok q c r.1 r.2.
Proof.
  destruct c as [|e|e b|e b t|e b ary new|e b ary old k|e b old| | | | | | | | | | | | | ]; try done; intros Hcore Hc Hj E.
  - cbn in E. simplify_eq. quiet.
  - cbn in E. simplify_eq. destruct Hc as (? & ->). pose proof (core_range _ _ _ Hcore).
    quiet. by destruct Hcore as [_ _ C].
  - by eapply push_array_ok.
  - by eapply push_publish_ok.
  - by eapply push_write_ok.
  - destruct Hc as (He & -> & a & Ha & Hb & Hx). cbn [push_step] in E. unfold int64 in E. destruct (_ && _); [|done]. cbn in E. simplify_eq.
    destruct Hcore as [A R C]. cbn in *. split_and!; cbn; try done; [|apply rely_bottom; lia].
    split; cbn; [done|lia|]. exists a. split; [done|lia].
Qed.

Lemma pop_ok q c r : core q (logical_bottom q c) -> owner_ok q c -> pop_step eltsz q c = Some r ->
  step_ok q c r.1 r.2.
Proof.
  destruct c as [| | | | | | |dest|dest b|dest b ary|dest b ary|dest b t ary|dest b t|dest b| | | | | | ]; try done; intros Hcore Hc E; cbn [pop_step] in E;
    pose proof (core_range _ _ _ Hcore) as R; cbn [logical_bottom] in *.
  - unfold int64 in E. destruct (_ && _); [|done]. cbn in E. simplify_eq. quiet.
  - cbn in *. simplify_eq. quiet.
  - cbn in *. simplify_eq. destruct Hc as (-> & ->). quiet; [|apply rely_bottom; lia].
    apply core_bottom with (bottom q); [done|lia].
  - destruct Hc as (-> & ->). destruct (Z.leb_spec (top q) (bottom q)); simplify_eq; quiet.
    all: destruct (Z.eqb_spec (top q) (bottom q)); (done || (by apply core_lower with (bottom q + 1); [|lia]) || (apply rely_same; lia)).
  - destruct Hc as (-> & -> & Htb & Htt). destruct (arrays q !! array q) as [a|] eqn:Ha; [|done]. cbn [mbind option_bind] in E.
    destruct (cell a (bottom q)) as [x|] eqn:Hx; [|done]. cbn [mbind option_bind] in E.
    destruct (Z.eqb_spec t (bottom q)) as [-> |Hne]; simplify_eq; cbn in *; rewrite ?Z.eqb_refl in *; quiet.
    + unfold cur, cell_at. by rewrite Ha.
    + rewrite Z.eqb_refl. by apply rely_same.
    + rewrite (proj2 (Z.eqb_neq _ _) Hne). by apply rely_same.
  - destruct Hc as (-> & -> & Ht & Hx). destruct (Z.eqb_spec (top q) (bottom q)) as [Et|Hne].
    + unfold int64 in E. destruct (_ && _); [|done]. cbn in E. simplify_eq. quiet; [apply core_top; [done|lia]|apply rely_set_top; lia].
    + simplify_eq. quiet.
  - destruct Hc as (-> & Ht). unfold int64 in E. destruct (_ && _); [|done]. cbn in E. simplify_eq. quiet.
    by apply core_bottom with (bottom q + 1); [|lia].
Qed.
End steps.
