(* ===== verification/WsQueueSim.v ===== *)
(** * Work-stealing queues: refinement of the deque *)
From stdpp Require Import relations.
From S2P Require Import Prelude Objects WsQueue WsQueueInv.

(** ** The queue is a deque

    The invariant holds in every reachable state; the queue refines
    [deque_object], and a thread inside an operation can always take its next step
    unless a counter or a capacity overflows. *)

Section correct.
Context (eltsz : nat) (owner : nat).
Abbreviation inv := (inv eltsz owner).
Abbreviation lbottom := (lbottom owner).
Abbreviation owner_pc := (owner_pc owner).

(** ** The invariant in every reachable state *)

Lemma lb_bottom q c : bottom q <= logical_bottom q c.
Proof. destruct c; cbn; try lia. destruct (_ =? _); lia. Qed.

Lemma lb_free q c : owned c = false -> logical_bottom q c = bottom q.
Proof. by destruct c. Qed.

Lemma owner_ok_free q c : owned c = false -> owner_ok eltsz q c.
Proof. by destruct c. Qed.

Lemma thief_ok_owned q L c : owned c = true -> thief_ok eltsz q L c.
Proof. by destruct c. Qed.

Lemma run_owned junk q c q' c' : owned c = true -> ws_step eltsz junk q c = Some (q', c') ->
  push_step eltsz junk q c = Some (q', c') \/ pop_step eltsz q c = Some (q', c').
Proof. unfold ws_step. destruct (push_step _ _ _ _), (pop_step _ _ _) eqn:E; try by auto. by destruct c. Qed.

Lemma owner_pc_insert s q' i c c' : pcs s !! i = Some c ->
  owner_pc {| queue := q'; pcs := <[i := c']> (pcs s) |} = if decide (i = owner) then c' else owner_pc s.
Proof.
  intros Hi. unfold WsQueueInv.owner_pc. cbn. case_decide as E; [subst|by rewrite list_lookup_insert_ne].
  rewrite list_lookup_insert_eq; [done|by eapply lookup_lt_Some].
Qed.

Lemma owner_pc_eq s c : pcs s !! owner = Some c -> owner_pc s = c.
Proof. unfold WsQueueInv.owner_pc. by intros ->. Qed.

(** Thread [i] goes from [c] to [c'] and the queue to [q']. *)
Lemma inv_insert s i c c' q' L' : inv s -> pcs s !! i = Some c ->
  L' = logical_bottom q' (owner_pc {| queue := queue s; pcs := <[i := c']> (pcs s) |}) ->
  core eltsz q' L' -> (owned c' = true -> i = owner) -> owner_ok eltsz q' c' -> thief_ok eltsz q' L' c' ->
  (i = owner \/ owner_ok eltsz q' (owner_pc s)) -> rely (queue s) (lbottom s) q' L' ->
  inv {| queue := q'; pcs := <[i := c']> (pcs s) |}.
Proof.
  intros [IC IO IW IT] Hi -> Hcore Hown Hok Hth Hst Hr. split; cbn; [done| | |].
  - intros j d [(-> & <- & _)|(_ & Hd)]%list_lookup_insert_Some; [done|by eapply IO].
  - intros j d [(-> & <- & _)|(Hne & Hd)]%list_lookup_insert_Some; [done|].
    destruct (owned d) eqn:Ed; [|by apply owner_ok_free]. pose proof (IO _ _ Hd Ed). subst j.
    destruct Hst as [-> |Hst]; [done|]. by rewrite (owner_pc_eq _ _ Hd) in Hst.
  - intros j d [(-> & <- & _)|(Hne & Hd)]%list_lookup_insert_Some; [done|]. eapply thief_rely; [done|by eapply IT].
Qed.

Lemma inv_run s i c q' c' junk : inv s -> pcs s !! i = Some c -> Forall (elt_ok eltsz) junk ->
  ws_step eltsz junk (queue s) c = Some (q', c') -> inv {| queue := q'; pcs := <[i := c']> (pcs s) |}.
Proof.
  intros I Hi Hj E. pose proof I as [IC IO IW IT]. destruct (owned c) eqn:Eo.
  - pose proof (IO _ _ Hi Eo). subst i. unfold WsQueueInv.lbottom in IC. rewrite (owner_pc_eq _ _ Hi) in IC.
    assert (step_ok eltsz (queue s) c q' c') as (Hc & Ho & Ht & Hr).
    { destruct (run_owned _ _ _ _ _ Eo E) as [E'|E']; [by apply (push_ok _ _ _ junk (q', c') IC (IW _ _ Hi))|by apply (pop_ok _ _ _ (q', c') IC (IW _ _ Hi))]. }
    apply (inv_insert s owner c c' q' (logical_bottom q' c')); try done; [|by left|].
    + by rewrite owner_pc_insert with (c := c), decide_True by done.
    + unfold WsQueueInv.lbottom. by rewrite (owner_pc_eq _ _ Hi).
  - destruct (thief_step eltsz _ _ _ _ _ _ IC (IT _ _ Hi) (lb_bottom _ _) Eo E) as (Ht & Eo' & Hr & Hq).
    assert (logical_bottom q' (owner_pc {| queue := queue s; pcs := <[i:=c']> (pcs s) |}) = lbottom s) as El.
    { rewrite owner_pc_insert with (c := c) by done. unfold WsQueueInv.lbottom. case_decide as Ei.
      - subst i. rewrite (owner_pc_eq _ _ Hi), (lb_free _ c), lb_free by done. by destruct Hq as [-> |(-> & _)].
      - by destruct Hq as [-> |(-> & _)]. }
    pose proof (core_range _ _ _ IC) as R.
    assert (core eltsz q' (lbottom s)) as Hc by (destruct Hq as [-> |(-> & ?)]; [done|apply core_top; [done|lia]]).
    eapply (inv_insert s i c c' q' (lbottom s)); try done; [by rewrite Eo'|by apply owner_ok_free|]. right.
    destruct (pcs s !! owner) as [d|] eqn:Ed; [|unfold WsQueueInv.owner_pc; by rewrite Ed].
    unfold WsQueueInv.lbottom in *. rewrite (owner_pc_eq _ _ Ed) in *.
    destruct Hq as [-> |(-> & ?)]; [by eapply IW|]. apply owner_stable; [by eapply IW|lia].
Qed.

Lemma inv_visible s i c c' : inv s -> pcs s !! i = Some c -> owned c = false -> (owned c' = true -> i = owner) ->
  (forall L, 0 <= top (queue s) -> owner_ok eltsz (queue s) c' /\ thief_ok eltsz (queue s) L c') -> logical_bottom (queue s) c' = bottom (queue s) ->
  inv {| queue := queue s; pcs := <[i := c']> (pcs s) |}.
Proof.
  intros I Hi Ho Ho' Hok Hl. pose proof I as [IC IO IW IT]. pose proof (core_range _ _ _ IC) as R.
  assert (logical_bottom (queue s) (owner_pc {| queue := queue s; pcs := <[i:=c']> (pcs s) |}) = lbottom s) as El.
  { rewrite owner_pc_insert with (c := c) by done. unfold WsQueueInv.lbottom. case_decide as Ei; [|done]. subst i.
    by rewrite (owner_pc_eq _ _ Hi), (lb_free _ c), Hl by done. }
  eapply (inv_insert s i c c' (queue s) (lbottom s)); try done; [apply (Hok 0); lia|apply Hok; lia|].
  destruct (pcs s !! owner) as [d|] eqn:Ed; [|right; unfold WsQueueInv.owner_pc; by rewrite Ed].
  right. rewrite (owner_pc_eq _ _ Ed). by eapply IW.
Qed.

Lemma inv_trans s e s' : inv s -> ws_trans eltsz owner s e s' -> inv s'.
Proof.
  intros I H. destruct H as [i o Hi Ho|i r Hi|i c q' c' junk Hi Hj E]; [| |by eapply inv_run].
  - destruct o; (eapply inv_visible; [done|done|done| | |done]); cbn in *; naive_solver.
  - by eapply inv_visible.
Qed.

Lemma inv_init a n : arr_ok eltsz a -> inv {| queue := new_queue a; pcs := replicate n Idle |}.
Proof.
  intros Ha.
  assert (owner_pc {| queue := new_queue a; pcs := replicate n Idle |} = Idle) as E.
  { unfold WsQueueInv.owner_pc. cbn. destruct (_ !! _) as [c|] eqn:Ec; [|done]. by apply lookup_replicate in Ec as (-> & _). }
  split; cbn; [unfold WsQueueInv.lbottom; rewrite E; cbn| | |]; try (intros i c (-> & _)%lookup_replicate; done).
  split; cbn; [by constructor|lia|]. exists a. split; [done|]. pose proof (arr_pos _ _ Ha). lia.
Qed.

Definition ws_reachable (a : ws_array_t) (n : nat) (s : ws_state) : Prop :=
  rtc (fun s s' => exists e, ws_trans eltsz owner s e s') {| queue := new_queue a; pcs := replicate n Idle |} s.

Lemma ws_reachable_inv a n s : arr_ok eltsz a -> ws_reachable a n s -> inv s.
Proof.
  intros Ha H. pose proof (inv_init a n Ha) as I. unfold ws_reachable in H.
  remember {| queue := new_queue a; pcs := replicate n Idle |} as s0 eqn:E0. clear E0.
  induction H as [s|s s1 s2 (e & He) _ IH]; [done|]. apply IH. by eapply inv_trans.
Qed.
End correct.

(** * Work-stealing queues: refinement of the deque *)

Section sim.
Context (eltsz : nat) (owner : nat).
Abbreviation inv := (inv eltsz owner).
Abbreviation lbottom := (lbottom owner).
Abbreviation owner_pc := (owner_pc owner).
Abbreviation d_trans := (d_trans eltsz owner).

(** The elements between the counters, and how far each operation is. *)
Definition window (q : ws_queue_t) (L : Z) : list elt := (fun j => default [] (cur q j)) <$> seqZ (top q) (L - top q).

Definition abs_pc (q : ws_queue_t) (c : pc) : apc :=
  match c with
  | Idle => A_idle
  | Push_bottom e | Push_top e _ | Push_array e _ _ | Push_publish e _ _ _ | Push_write e _ _ _ _ | Push_store e _ _ => A_push e
  | Pop_bottom _ | Pop_array _ _ | Pop_store _ _ _ | Pop_top _ _ _ | Pop_cas _ _ _ => A_pop
  | Pop_read _ b t ary => if t =? b then A_pop else A_done (Took (default [] (cell_at q ary b)))
  | Pop_restore dest _ => A_done (Took dest)
  | Steal_top dest => A_steal dest
  | Steal_bottom dest t => A_steal_from dest t
  | Steal_array _ t | Steal_read _ t _ _ | Steal_cas _ t => A_steal_take t
  | Done r => A_done r
  end.

Definition abs (s : ws_state) : deque :=
  {| taken := top (queue s); items := window (queue s) (lbottom s); apcs := abs_pc (queue s) <$> pcs s |}.

Lemma window_ext q L q' : top q' = top q -> (forall j, top q <= j < L -> cur q' j = cur q j) -> window q' L = window q L.
Proof. intros Ht H. unfold window. rewrite Ht. apply list_fmap_ext. intros k j Hj. apply list_elem_of_lookup_2, elem_of_seqZ in Hj. rewrite H; [done|lia]. Qed.

Lemma window_nil q L : L <= top q -> window q L = [].
Proof. intros. unfold window. by rewrite seqZ_nil by lia. Qed.

Lemma window_snoc q L x : top q <= L -> cur q L = Some x -> window q (L + 1) = window q L ++ [x].
Proof.
  intros Ht Hx. unfold window. rewrite <- (Z2Nat.id (L - top q)), <- (Z2Nat.id (L + 1 - top q)) by lia.
  replace (Z.to_nat (L + 1 - top q)) with (S (Z.to_nat (L - top q))) by lia. rewrite seqZ_S, fmap_app. f_equal. cbn.
  by replace (top q + Z.of_nat (Z.to_nat (L - top q))) with L by lia; rewrite Hx.
Qed.

Lemma window_cons q L x : top q < L -> cur q (top q) = Some x -> window q L = x :: window (set_top q (top q + 1)) L.
Proof.
  intros Ht Hx. unfold window. cbn. rewrite (seqZ_cons (top q)) by lia. cbn. rewrite Hx. cbn. do 2 f_equal. f_equal; lia.
Qed.

Lemma window_same q L t : top q = t -> window (set_top q t) L = window q L.
Proof. intros <-. done. Qed.

(** Only the thread that moves changes place. *)
Lemma abs_pcs q q' (l : list pc) i c' : (forall j d, l !! j = Some d -> j <> i -> abs_pc q' d = abs_pc q d) ->
  abs_pc q' <$> <[i := c']> l = <[i := abs_pc q' c']> (abs_pc q <$> l).
Proof.
  intros H. rewrite list_fmap_insert. apply list_eq. intros j. destruct (decide (j = i)) as [-> |Hne].
  - destruct (decide (i < length l)%nat); [by rewrite !list_lookup_insert_eq by (by rewrite length_fmap)|].
    by rewrite !lookup_ge_None_2 by (rewrite ?length_insert, ?length_fmap; lia).
  - rewrite !list_lookup_insert_ne, !list_lookup_fmap by done. destruct (l !! j) eqn:E; [|done]. cbn. by erewrite H.
Qed.

Lemma abs_others s i c q' c' : inv s -> pcs s !! i = Some c -> i = owner \/ (exists t, q' = set_top (queue s) t) ->
  abs_pc q' <$> <[i := c']> (pcs s) = <[i := abs_pc q' c']> (abs_pc (queue s) <$> pcs s).
Proof.
  intros I Hi H. apply abs_pcs. intros j d Hj Hne. destruct d; cbn; try done.
  destruct H as [-> |(t' & ->)]; [|done]. by pose proof (inv_owned _ _ _ I _ _ Hj eq_refl).
Qed.

(** What a step does to the deque: nothing, or one of its internal steps. *)
Definition matched (s : ws_state) (i : nat) (q' : ws_queue_t) (L' : Z) (c' : pc) : Prop :=
  (top q' = top (queue s) /\ window q' L' = window (queue s) (lbottom s) /\ (abs_pc q' c' = default A_idle (abs_pc (queue s) <$> pcs s !! i))) \/
  d_trans (abs s) None (a_set (abs s) (top q') (window q' L') i (abs_pc q' c')).

Lemma matched_abs s i c q' c' : pcs s !! i = Some c ->
  abs_pc q' <$> <[i := c']> (pcs s) = <[i := abs_pc q' c']> (abs_pc (queue s) <$> pcs s) ->
  matched s i q' (lbottom {| queue := q'; pcs := <[i := c']> (pcs s) |}) c' ->
  rtc (internal (deque_object eltsz owner)) (abs s) (abs {| queue := q'; pcs := <[i := c']> (pcs s) |}).
Proof.
  intros Hi Ha Hm. unfold abs at 2. cbn [queue pcs]. rewrite Ha. destruct Hm as [(-> & -> & E)|Hd]; [|by apply rtc_once].
  rewrite E, Hi. cbn. rewrite list_insert_id by (by rewrite list_lookup_fmap, Hi). apply rtc_refl.
Qed.

Lemma abs_lookup s i c : pcs s !! i = Some c -> apcs (abs s) !! i = Some (abs_pc (queue s) c).
Proof. intros Hi. cbn. by rewrite list_lookup_fmap, Hi. Qed.

Lemma stutter s i c q' L' c' : pcs s !! i = Some c -> top q' = top (queue s) -> L' = lbottom s ->
  (forall j, top (queue s) <= j < L' -> cur q' j = cur (queue s) j) -> abs_pc q' c' = abs_pc (queue s) c -> matched s i q' L' c'.
Proof. intros Hi Ht -> Hw Hp. left. rewrite Hi. split_and!; [done|by apply window_ext|done]. Qed.

Lemma stutter_same s i c c' L' : pcs s !! i = Some c -> L' = lbottom s -> abs_pc (queue s) c' = abs_pc (queue s) c -> matched s i (queue s) L' c'.
Proof. intros. by eapply stutter. Qed.

Lemma match_push s c q' c' junk : inv s -> pcs s !! owner = Some c -> Forall (elt_ok eltsz) junk ->
  push_step eltsz junk (queue s) c = Some (q', c') -> matched s owner q' (logical_bottom q' c') c'.
Proof.
  intros I Hi Hj E. pose proof (inv_owner _ _ _ I _ _ Hi) as Hc. pose proof (inv_core _ _ _ I) as Hcore.
  assert (lbottom s = logical_bottom (queue s) c) as EL by (unfold WsQueueInv.lbottom; by rewrite (owner_pc_eq _ _ _ Hi)). rewrite EL in Hcore.
  pose proof (core_range _ _ _ Hcore) as R.
  destruct c as [|e|e b|e b t|e b ary new|e b ary old k|e b old| | | | | | | | | | | | | ]; try done; cbn in EL, R; cbn [push_step] in E.
  - simplify_eq. by eapply stutter_same.
  - simplify_eq. by eapply stutter_same.
  - destruct (arrays (queue s) !! array (queue s)) as [a|]; [|done]. cbn [mbind option_bind] in E. destruct (int64 _); [|done]. cbn [mbind option_bind] in E.
    case_match; [destruct (grow_ws_array _ _ _); [|done]; cbn in E|]; simplify_eq; by eapply stutter_same.
  - destruct Hc as (_ & -> & -> & _ & _ & Hcell). simplify_eq. eapply stutter; [done..| |done]. intros j Hjr.
    unfold cur at 1. unfold cell_at. cbn. rewrite lookup_app_r, Nat.sub_diag by lia. by apply Hcell.
  - destruct Hc as (He & -> & -> & Hk & a & x & Ha & Hb & Hx & _). destruct (decide (k < eltsz)%nat); [|simplify_eq; by eapply stutter_same].
    destruct (e !! k) as [w|]; [|done]. cbn [mbind option_bind] in E. unfold write_word in E. rewrite Ha in E. cbn [mbind option_bind] in E.
    rewrite Hx in E. cbn [mbind option_bind] in E. simplify_eq. eapply stutter; [done..| |done]. intros j Hjr.
    destruct (core_cur _ _ _ Hcore) as (a' & Ha' & Hok & _). rewrite Ha in Ha'. injection Ha' as <-.
    unfold cur, cell_at. cbn. rewrite list_lookup_insert_eq by (by eapply lookup_lt_Some). rewrite Ha. cbn.
    apply (cell_set_ne eltsz); [done|cbn in Hjr; lia..].
  - destruct Hc as (He & -> & a & Ha & Hb & Hx). unfold int64 in E. destruct (_ && _); [|done]. cbn in E. simplify_eq. right. cbn.
    pose proof (d_push eltsz owner (abs s) owner e old) as D. cbn in D. rewrite EL in D.
    change (window (set_bottom (queue s) (bottom (queue s) + 1)) (bottom (queue s) + 1)) with (window (queue s) (bottom (queue s) + 1)).
    rewrite (window_snoc _ _ e) by (try lia; unfold cur, cell_at; by rewrite Ha). apply D. by rewrite list_lookup_fmap, Hi.
Qed.

Lemma match_pop s c q' c' : inv s -> pcs s !! owner = Some c ->
  pop_step eltsz (queue s) c = Some (q', c') -> matched s owner q' (logical_bottom q' c') c'.
Proof.
  intros I Hi E. pose proof (inv_owner _ _ _ I _ _ Hi) as Hc. pose proof (inv_core _ _ _ I) as Hcore.
  assert (lbottom s = logical_bottom (queue s) c) as EL by (unfold WsQueueInv.lbottom; by rewrite (owner_pc_eq _ _ _ Hi)). rewrite EL in Hcore.
  pose proof (core_range _ _ _ Hcore) as R. pose proof (abs_lookup _ _ _ Hi) as Ea.
  destruct c as [| | | | | | |dest|dest b|dest b ary|dest b ary|dest b t ary|dest b t|dest b| | | | | | ]; try done; cbn in EL, R; cbn [pop_step] in E.
  - unfold int64 in E. destruct (_ && _); [|done]. cbn in E. simplify_eq. by eapply stutter_same.
  - simplify_eq. by eapply stutter_same.
  - destruct Hc as (-> & ->). simplify_eq. eapply stutter; [done..|cbn; lia|done|done].
  - destruct Hc as (-> & ->). destruct (Z.leb_spec (top (queue s)) (bottom (queue s))) as [Hle|Hgt]; simplify_eq.
    + cbn. destruct (Z.eqb_spec (top (queue s)) (bottom (queue s))) as [Et|Hne]; [eapply stutter_same; [done..|]; cbn; by rewrite Et, Z.eqb_refl|].
      destruct (cur_some _ _ _ (bottom (queue s)) Hcore) as (x & Hx & _). right. cbn. rewrite (proj2 (Z.eqb_neq _ _) Hne).
      pose proof (d_pop eltsz owner (abs s) owner (window (queue s) (bottom (queue s))) x) as D. cbn in D. rewrite EL in D.
      change (cell_at (queue s) (array (queue s)) (bottom (queue s))) with (cur (queue s) (bottom (queue s))). rewrite Hx. cbn.
      rewrite decide_False in D; [apply D; [done|by apply window_snoc]|].
      destruct (cur_some _ _ _ (top (queue s)) Hcore) as (y & Hy & _). rewrite (window_cons _ _ y) by (done || lia). done.
    + right. cbn. pose proof (d_pop_empty eltsz owner (abs s) owner) as D. cbn in D. rewrite EL, !window_nil in D by lia.
      rewrite window_nil by lia. by apply D.
  - destruct Hc as (-> & -> & Htb & Htt). destruct (arrays (queue s) !! array (queue s)) as [a|] eqn:Ha; [|done]. cbn [mbind option_bind] in E.
    destruct (cell a (bottom (queue s))) as [x|] eqn:Hx; [|done]. cbn [mbind option_bind] in E.
    destruct (Z.eqb_spec t (bottom (queue s))) as [-> |Hne]; simplify_eq; (eapply stutter_same; [done..|]); cbn.
    + by rewrite Z.eqb_refl.
    + rewrite (proj2 (Z.eqb_neq _ _) Hne). unfold cell_at. rewrite Ha. cbn. by rewrite Hx.
  - destruct Hc as (-> & -> & Ht & Hx). destruct (Z.eqb_spec (top (queue s)) (bottom (queue s))) as [Et|Hne].
    + unfold int64 in E. destruct (_ && _); [|done]. cbn in E. simplify_eq. right. cbn.
      pose proof (d_pop eltsz owner (abs s) owner [] dest) as D. cbn in D. rewrite EL in D. rewrite window_nil by (cbn; lia).
      rewrite <- Et. apply D; [done|]. rewrite (window_cons _ _ dest), window_nil by (cbn; rewrite ?Et; (done || lia)). done.
    + simplify_eq. right. cbn. pose proof (d_pop_empty eltsz owner (abs s) owner) as D. cbn in D. rewrite EL, !window_nil in D by lia.
      rewrite window_nil by lia. by apply D.
  - destruct Hc as (-> & Ht). unfold int64 in E. destruct (_ && _); [|done]. cbn in E. simplify_eq.
    eapply stutter; [done..| |done]. cbn. done.
Qed.

Lemma match_steal s i c q' c' : inv s -> pcs s !! i = Some c ->
  steal_step eltsz (queue s) c = Some (q', c') -> matched s i q' (lbottom s) c'.
Proof.
  intros I Hi E. pose proof (inv_thief _ _ _ I _ _ Hi) as Hc. pose proof (inv_core _ _ _ I) as Hcore.
  pose proof (core_range _ _ _ Hcore) as R. pose proof (abs_lookup _ _ _ Hi) as Ea.
  destruct c as [ | | | | | | | | | | | | | |dest|dest t|dest t|dest t ary k|dest t|r]; try done; cbn [steal_step] in E; cbn in Hc.
  - simplify_eq. right. by apply (d_steal_begin eltsz owner (abs s) i dest).
  - destruct (Z.ltb_spec t (bottom (queue s))) as [Hlt|Hge]; simplify_eq; right; [by apply (d_steal_look eltsz owner (abs s) i dest t)|].
    apply (d_steal_empty eltsz owner (abs s) i dest t); [done|]. cbn. destruct (decide (top (queue s) = t)) as [<-|]; [|by right; left].
    destruct (decide (lbottom s <= top (queue s))); [left; by apply window_nil|]. right; right. rewrite list_lookup_fmap.
    unfold WsQueueInv.lbottom, WsQueueInv.owner_pc in *. destruct (pcs s !! owner) as [d|] eqn:Ed; cbn in *; [|lia].
    pose proof (inv_owner _ _ _ I _ _ Ed) as Ho. destruct d; cbn in *; try lia; try done. by destruct (_ =? _); [|lia].
  - simplify_eq. by eapply stutter_same.
  - destruct (decide (k < eltsz)%nat); [|simplify_eq; by eapply stutter_same]. destruct (arrays _ !! _) as [a|]; [|done]. cbn [mbind option_bind] in E.
    destruct (cell a t); [|done]. cbn [mbind option_bind] in E. destruct (_ !! k); [|done]. cbn [mbind option_bind] in E. simplify_eq. by eapply stutter_same.
  - destruct Hc as (Hd & Ht & Hcas). destruct (Z.eqb_spec (top (queue s)) t) as [<-|Hne].
    + unfold int64 in E. destruct (_ && _); [|done]. cbn in E. simplify_eq. destruct (Hcas eq_refl) as (Hl & Hx). right. cbn.
      apply (d_steal_take eltsz owner (abs s) i (top (queue s))); [done..|]. cbn. by apply window_cons.
    + simplify_eq. right. by apply (d_steal_lost eltsz owner (abs s) i t).
Qed.

Lemma match_run s i c q' c' junk : inv s -> pcs s !! i = Some c -> Forall (elt_ok eltsz) junk ->
  ws_step eltsz junk (queue s) c = Some (q', c') -> matched s i q' (lbottom {| queue := q'; pcs := <[i := c']> (pcs s) |}) c'.
Proof.
  intros I Hi Hj E. destruct (owned c) eqn:Eo.
  - pose proof (inv_owned _ _ _ I _ _ Hi Eo). subst i.
    unfold WsQueueInv.lbottom. cbn [queue]. rewrite owner_pc_insert with (c := c), decide_True by done.
    destruct (run_owned _ _ _ _ _ _ Eo E); [by eapply match_push|by eapply match_pop].
  - destruct (thief_step eltsz _ _ _ _ _ _ (inv_core _ _ _ I) (inv_thief _ _ _ I _ _ Hi) (lb_bottom _ _) Eo E) as (_ & Eo' & _ & Hq).
    assert (lbottom {| queue := q'; pcs := <[i := c']> (pcs s) |} = lbottom s) as ->.
    { unfold WsQueueInv.lbottom. cbn [queue]. rewrite owner_pc_insert with (c := c) by done. case_decide as Ei.
      - subst i. rewrite (owner_pc_eq _ _ _ Hi), (lb_free _ c), lb_free by done. by destruct Hq as [-> |(-> & _)].
      - by destruct Hq as [-> |(-> & _)]. }
    eapply match_steal; [done..|]. unfold ws_step in E. destruct c; try done.
Qed.

(** The refinement: every step of the code is a step of the deque or none. *)
Lemma ws_refines : simulates (C := ws_object eltsz owner) (A := deque_object eltsz owner) (fun s d => inv s /\ d = abs s).
Proof.
  intros s d e s' (I & ->) H. pose proof (inv_trans _ _ _ _ _ I H) as I'. destruct H as [i o Hi Ho|i r Hi|i c q' c' junk Hi Hj E].
  - exists (abs {| queue := queue s; pcs := <[i := start o]> (pcs s) |}). split; [|done].
    pose proof (d_call eltsz owner (abs s) i o) as D. cbn in D. rewrite list_lookup_fmap, Hi in D. specialize (D eq_refl Ho).
    replace (abs {| queue := queue s; pcs := <[i := start o]> (pcs s) |}) with (a_set (abs s) (top (queue s)) (window (queue s) (lbottom s)) i (a_start o)); [done|].
    unfold abs, a_set. cbn. f_equal; [|rewrite list_fmap_insert; by destruct o].
    f_equal. unfold WsQueueInv.lbottom. rewrite owner_pc_insert with (c := Idle) by done. case_decide; [subst|done].
    rewrite (owner_pc_eq _ _ _ Hi). by destruct o.
  - exists (abs {| queue := queue s; pcs := <[i := Idle]> (pcs s) |}). split; [|done].
    pose proof (d_ret eltsz owner (abs s) i r) as D. cbn in D. rewrite list_lookup_fmap, Hi in D. specialize (D eq_refl).
    replace (abs {| queue := queue s; pcs := <[i := Idle]> (pcs s) |}) with (a_set (abs s) (top (queue s)) (window (queue s) (lbottom s)) i A_idle); [done|].
    unfold abs, a_set. cbn. f_equal; [|by rewrite list_fmap_insert].
    f_equal. unfold WsQueueInv.lbottom. rewrite owner_pc_insert with (c := Done r) by done. case_decide; [subst|done].
    by rewrite (owner_pc_eq _ _ _ Hi).
  - exists (abs {| queue := q'; pcs := <[i := c']> (pcs s) |}). split; [|done]. eapply matched_abs; [done| |by eapply match_run].
    eapply abs_others; [done..|]. destruct (owned c) eqn:Eo; [left; by eapply (inv_owned _ _ _ I)|right].
    destruct (thief_step eltsz _ _ _ _ _ _ (inv_core _ _ _ I) (inv_thief _ _ _ I _ _ Hi) (lb_bottom _ _) Eo E) as (_ & _ & _ & [-> |(-> & _)]);
      [exists (top (queue s)); by destruct (queue s)|by eexists].
Qed.
End sim.
