(* ===== verification/WsQueueMain.v ===== *)
(** * Work-stealing queues: what users of the queue may rely on *)
From stdpp Require Import relations.
From S2P Require Import Prelude Objects WsQueue WsQueueInv WsQueueSim.

Section main.
Context (eltsz : nat) (owner : nat).

Lemma reachable_trace a n tr s : trace (ws_object eltsz owner) {| queue := new_queue a; pcs := replicate n Idle |} tr s -> ws_reachable eltsz owner a n s.
Proof.
  unfold ws_reachable. generalize {| queue := new_queue a; pcs := replicate n Idle |}. induction 1 as [s|s s1 s' tr H _ IH|s e s1 s' tr H _ IH]; [apply rtc_refl| |].
  - eapply rtc_l; [by exists None|done].
  - eapply rtc_l; [by exists (Some e)|done].
Qed.

Lemma abs_init a n : abs owner {| queue := new_queue a; pcs := replicate n Idle |} = {| taken := 0; items := []; apcs := replicate n A_idle |}.
Proof.
  unfold abs. cbn. rewrite fmap_replicate, window_nil; [done|]. cbn. unfold lbottom, owner_pc. cbn.
  destruct (_ !! _) as [c|] eqn:E; [|done]. by apply lookup_replicate in E as (-> & _).
Qed.

(** How many accesses a thread still has to make in its operation. *)
Definition steps_left (c : pc) : nat :=
  match c with
  | Idle | Done _ => 0
  | Push_bottom _ => eltsz + 6 | Push_top _ _ => eltsz + 5 | Push_array _ _ _ => eltsz + 4 | Push_publish _ _ _ _ => eltsz + 3
  | Push_write _ _ _ _ k => eltsz - k + 2 | Push_store _ _ _ => 1
  | Pop_bottom _ => 7 | Pop_array _ _ => 6 | Pop_store _ _ _ => 5 | Pop_top _ _ _ => 4 | Pop_read _ _ _ _ => 3 | Pop_cas _ _ _ => 2 | Pop_restore _ _ => 1
  | Steal_top _ => eltsz + 5 | Steal_bottom _ _ => eltsz + 4 | Steal_array _ _ => eltsz + 3 | Steal_read _ _ _ k => eltsz - k + 2 | Steal_cas _ _ => 1
  end.

Lemma ws_step_cases junk q c r : ws_step eltsz junk q c = Some r ->
  push_step eltsz junk q c = Some r \/ pop_step eltsz q c = Some r \/ steal_step eltsz q c = Some r.
Proof. unfold ws_step. destruct (push_step _ _ _ _), (pop_step _ _ _); naive_solver. Qed.

Ltac inv_step := repeat match goal with
  | H : mbind _ _ = Some _ |- _ => apply bind_Some in H as (? & ? & H)
  | H : (if decide ?x then _ else _) = Some _ |- _ => destruct (decide x)
  | H : (if ?x then _ else _) = Some _ |- _ => destruct x
  | _ => progress simplify_eq
  end.

Lemma steps_decrease junk q c q' c' : ws_step eltsz junk q c = Some (q', c') -> (steps_left c' < steps_left c)%nat.
Proof.
  intros [E|[E|E]]%ws_step_cases; destruct c; cbn [push_step pop_step steal_step] in E; try done; inv_step; cbn; lia.
Qed.

(** ** No access fails *)

Definition can_step (q : ws_queue_t) (c : pc) : Prop := exists junk q' c', Forall (elt_ok eltsz) junk /\ ws_step eltsz junk q c = Some (q', c').

Lemma int64_some z : - 2 ^ 63 <= z < 2 ^ 63 -> int64 z = Some z.
Proof. intros. unfold int64. zcases; try lia; done. Qed.

Lemma copy_cells_some ary t new n : arr_ok eltsz ary -> arr_ok eltsz new -> Z.of_nat n <= capacity new -> is_Some (copy_cells ary t new (seqZ 0 (Z.of_nat n))).
Proof. intros Ha Hn Hle. destruct (copy_cells_ok eltsz ary t new n Ha Hn Hle) as (x & Hx & _). by exists x. Qed.

Lemma grow_some a t : arr_ok eltsz a -> capacity a < 2 ^ 30 -> exists junk new, Forall (elt_ok eltsz) junk /\ grow_ws_array a t junk = Some new.
Proof.
  intros Ha Hc. pose proof (arr_pos _ _ Ha). set (junk := replicate (Z.to_nat (2 * capacity a)) (zero eltsz)).
  assert (Forall (elt_ok eltsz) junk) as Hj by (apply Forall_replicate; unfold elt_ok, zero; by rewrite length_replicate).
  assert (Z.of_nat (length junk) = 2 * capacity a) as Hl by (unfold junk; rewrite length_replicate; lia).
  exists junk. unfold grow_ws_array, int32, create_ws_array. rewrite (proj2 (Z.leb_le _ _)), (proj2 (Z.ltb_lt _ _)) by lia. cbn [andb mbind option_bind].
  rewrite (proj2 (Z.eqb_eq _ _) Hl). cbn [mbind option_bind].
  destruct (copy_cells_some a t {| buffer := junk; capacity := 2 * capacity a; mask := 2 * capacity a - 1 |} (Z.to_nat (capacity a))) as (x & Hx); [done| |cbn; lia|].
  - destruct Ha as [(k & Hk & Hp) _ _ _]. split; cbn; [|done..]. exists (k + 1). split; [lia|]. rewrite Hp, Z.pow_add_r by lia. lia.
  - rewrite Z2Nat.id in Hx by lia. by exists x.
Qed.

Lemma push_can q c : core eltsz q (logical_bottom q c) -> owner_ok eltsz q c -> owned c = true ->
  bottom q < 2 ^ 63 - 1 -> (forall a, arrays q !! array q = Some a -> capacity a < 2 ^ 30) -> can_step q c.
Proof.
  intros Hcore Hc Ho Hb Hcap. pose proof (core_range _ _ _ Hcore) as R. destruct (core_cur _ _ _ Hcore) as (a & Ha & Hok & _).
  assert (forall c q' c', push_step eltsz [] q c = Some (q', c') -> can_step q c) as Hpush.
  { intros d q' c' E. exists [], q', c'. split; [constructor|]. unfold ws_step. by rewrite E. }
  assert (forall c q' c', push_step eltsz [] q c = None -> pop_step eltsz q c = Some (q', c') -> can_step q c) as Hpop.
  { intros d q' c' E E'. exists [], q', c'. split; [constructor|]. unfold ws_step. by rewrite E, E'. }
  destruct c as [|e|e b|e b t|e b ary new|e b ary old k|e b old|dest|dest b|dest b ary|dest b ary|dest b t ary|dest b t|dest b| | | | | | ]; try done; cbn in R.
  - by eapply Hpush.
  - by eapply Hpush.
  - destruct Hc as (He & -> & Ht & _). destruct (decide (capacity a - 1 < bottom q - t)) as [Hf|Hn].
    + destruct (grow_some a t Hok (Hcap _ Ha)) as (junk & new & Hj & G). eexists junk, _, _. split; [done|]. unfold ws_step. cbn [push_step].
      rewrite Ha. cbn [mbind option_bind]. rewrite int64_some by lia. cbn [mbind option_bind]. rewrite (proj2 (Z.ltb_lt _ _) Hf), G. done.
    + eapply Hpush. cbn [push_step]. rewrite Ha. cbn [mbind option_bind]. rewrite int64_some by lia. cbn [mbind option_bind].
      rewrite (proj2 (Z.ltb_ge _ _)) by lia. done.
  - by eapply Hpush.
  - destruct Hc as (He & -> & -> & Hk & a' & x & Ha' & _ & Hx & _). destruct (decide (k < eltsz)%nat) as [Hlt|Hge].
    + destruct (lookup_lt_is_Some_2 e k) as (w & Hw); [unfold elt_ok in He; lia|]. eapply Hpush. cbn [push_step]. rewrite decide_True by done.
      rewrite Hw. cbn [mbind option_bind]. unfold write_word. rewrite Ha'. cbn [mbind option_bind]. rewrite Hx. done.
    + eapply Hpush. cbn [push_step]. by rewrite decide_False.
  - destruct Hc as (He & -> & _). eapply Hpush. cbn [push_step]. rewrite int64_some by lia. done.
  - eapply Hpop; [done|]. cbn [pop_step]. rewrite int64_some by lia. done.
  - by eapply Hpop.
  - by eapply Hpop.
  - destruct Hc as (-> & ->). destruct (top q <=? bottom q) eqn:E; (eapply Hpop; [done|]); cbn [pop_step]; by rewrite E.
  - destruct Hc as (-> & -> & _). destruct (cell_some _ a (bottom q) Hok) as (x & Hx & _). destruct (t =? bottom q) eqn:E;
      (eapply Hpop; [done|]); cbn [pop_step]; rewrite Ha; cbn [mbind option_bind]; rewrite Hx; cbn [mbind option_bind]; by rewrite E.
  - destruct Hc as (-> & -> & Ht & _). destruct (top q =? bottom q) eqn:E; (eapply Hpop; [done|]); cbn [pop_step]; rewrite E; [|done].
    rewrite int64_some by lia. done.
  - destruct Hc as (-> & Ht). eapply Hpop; [done|]. cbn [pop_step]. rewrite int64_some by lia. done.
Qed.

Lemma steal_can q L c : core eltsz q L -> thief_ok eltsz q L c -> owned c = false -> (0 < steps_left c)%nat -> L < 2 ^ 63 -> can_step q c.
Proof.
  intros Hcore Hc Ho Hs Hb.
  assert (forall c q' c', owned c = false -> steal_step eltsz q c = Some (q', c') -> can_step q c) as Hst.
  { intros d q' c' Hd E. exists [], q', c'. split; [constructor|]. by destruct d. }
  destruct c as [ | | | | | | | | | | | | | |dest|dest t|dest t|dest t ary k|dest t|r]; cbn in Ho; try done; cbn in Hs; try lia.
  - by eapply Hst.
  - destruct (t <? bottom q) eqn:E; (eapply Hst; [done|]); cbn [steal_step]; by rewrite E.
  - by eapply Hst.
  - destruct Hc as (Hd & Ht & Hk & (a & Ha) & _). destruct (decide (k < eltsz)%nat) as [Hlt|Hge].
    + assert (arr_ok eltsz a) as Hok by (pose proof (core_arrays _ _ _ Hcore) as F; rewrite Forall_lookup in F; by eapply F).
      destruct (cell_some _ a t Hok) as (x & Hx & Hl). destruct (lookup_lt_is_Some_2 x k) as (w & Hw); [unfold elt_ok in Hl; lia|].
      eapply Hst; [done|]. cbn [steal_step]. rewrite decide_True, Ha by done. cbn [mbind option_bind]. rewrite Hx. cbn [mbind option_bind]. by rewrite Hw.
    + eapply Hst; [done|]. cbn [steal_step]. by rewrite decide_False.
  - destruct Hc as (Hd & Ht & Hcas). destruct (Z.eqb_spec (top q) t) as [<-|Hne]; (eapply Hst; [done|]); cbn [steal_step].
    + rewrite Z.eqb_refl, int64_some by (destruct (Hcas eq_refl); lia). done.
    + by rewrite (proj2 (Z.eqb_neq _ _) Hne).
Qed.

Lemma owned_steps_left c : owned c = true -> (0 < steps_left c)%nat.
Proof. destruct c; cbn; try done; lia. Qed.

(** ** Runs by a schedule *)

Inductive turn := T_call (i : nat) (o : ws_op) | T_ret (i : nat) | T_run (i : nat) (junk : list elt).

#[global] Instance op_ok_dec i o : Decision (op_ok eltsz owner i o).
Proof. destruct o; unfold op_ok, elt_ok; apply _. Defined.

Definition turn_step (s : ws_state) (x : turn) : option (option (event ws_op ws_res) * ws_state) :=
  match x with
  | T_call i o => c ← pcs s !! i;
      match c with Idle => if decide (op_ok eltsz owner i o) then Some (Some (Call i o), {| queue := queue s; pcs := <[i := start o]> (pcs s) |}) else None | _ => None end
  | T_ret i => c ← pcs s !! i; match c with Done r => Some (Some (Ret i r), {| queue := queue s; pcs := <[i := Idle]> (pcs s) |}) | _ => None end
  | T_run i junk => c ← pcs s !! i;
      if forallb (fun e => length e =? eltsz)%nat junk
      then '(q, c) ← ws_step eltsz junk (queue s) c; Some (None, {| queue := q; pcs := <[i := c]> (pcs s) |}) else None
  end.

Fixpoint schedule (s : ws_state) (l : list turn) : option (list (event ws_op ws_res) * ws_state) :=
  match l with
  | [] => Some ([], s)
  | x :: l => '(e, s) ← turn_step s x; '(tr, s) ← schedule s l; Some (match e with Some e => e :: tr | None => tr end, s)
  end.

Lemma turn_trans s x e s' : turn_step s x = Some (e, s') -> ws_trans eltsz owner s e s'.
Proof.
  destruct x as [i o|i|i junk]; cbn; destruct (pcs s !! i) as [c|] eqn:Hi; cbn [mbind option_bind]; try done.
  - destruct c; try done. case_decide; [|done]. intros. simplify_eq. by constructor.
  - destruct c; try done. intros. simplify_eq. by constructor.
  - destruct (forallb _ _) eqn:F; [|done]. destruct (ws_step _ _ _ _) as [[q c']|] eqn:E; [|done]. cbn. intros. simplify_eq.
    eapply ws_run; [done| |done]. apply Forall_forall. intros x Hx. rewrite forallb_forall in F.
    apply Nat.eqb_eq, F. by apply list_elem_of_In.
Qed.

Lemma schedule_trace s l tr s' : schedule s l = Some (tr, s') -> trace (ws_object eltsz owner) s tr s'.
Proof.
  revert s tr. induction l as [|x l IH]; intros s tr; cbn [schedule]; [intros; simplify_eq; constructor|].
  destruct (turn_step s x) as [[e s1]|] eqn:E; [|done]. cbn [mbind option_bind]. destruct (schedule s1 l) as [[tr' s2]|] eqn:Es; [|done]. cbn. intros. simplify_eq.
  destruct e as [e|]; [eapply trace_visible|eapply trace_internal]; first [by apply (turn_trans s x)|by apply IH].
Qed.

(** The size a queue starts with is a power of two. *)
Definition fresh_array (k : Z) (junk : list elt) (a : ws_array_t) : Prop :=
  0 <= k /\ create_ws_array (2 ^ k) junk = Some a /\ Forall (elt_ok eltsz) junk.

Lemma fresh_ok k junk a : fresh_array k junk a -> arr_ok eltsz a.
Proof.
  intros (Hk & E & Hj). unfold create_ws_array in E. destruct (Z.eqb_spec (Z.of_nat (length junk)) (2 ^ k)); [|done]. simplify_eq.
  split; cbn; [by exists k|done..].
Qed.
End main.

(** C2: Work-stealing queue: whatever the owner and the thieves do and however
    their accesses interleave, the calls and results of [ws_queue_push],
    [ws_queue_pop] and [ws_queue_steal_from] are those of a deque whose
    operations take effect at one instant. Every element comes out at most once
    and whole, though thieves copy it word by word from a buffer the owner
    reuses and replaces; a pop fails only on an empty deque, and a steal only
    if the deque was empty, another element left meanwhile, or the owner was
    popping. *)
Theorem ws_queue_linearizable (eltsz owner n : nat) (k : Z) (junk : list elt) (a : ws_array_t) (tr : list (event ws_op ws_res)) (s : ws_state) :
  fresh_array eltsz k junk a ->
  trace (ws_object eltsz owner) {| queue := new_queue a; pcs := replicate n Idle |} tr s ->
  exists d, trace (deque_object eltsz owner) {| taken := 0; items := []; apcs := replicate n A_idle |} tr d.
Proof.
  intros Ha%fresh_ok Ht. destruct (simulates_trace (C := ws_object eltsz owner) (A := deque_object eltsz owner) _ (ws_refines eltsz owner)
    {| queue := new_queue a; pcs := replicate n Idle |} (abs owner {| queue := new_queue a; pcs := replicate n Idle |}) tr s) as (d & Hd & _).
  - split; [by apply inv_init|done].
  - done.
  - exists d. by rewrite abs_init in Hd.
Qed.

(** C17: Work-stealing queue: its operations are wait-free. In every reachable
    state a thread inside an operation can make its next access (no read or
    write leaves an array, and no counter overflows below the stated limits),
    and at most [eltsz + 6] accesses (7 for a pop) end the operation, whatever
    the other threads do. *)
Theorem ws_queue_wait_free (eltsz owner n i : nat) (k : Z) (junk : list elt) (a : ws_array_t) (s : ws_state) (c : pc) :
  fresh_array eltsz k junk a -> ws_reachable eltsz owner a n s -> pcs s !! i = Some c -> (0 < steps_left eltsz c)%nat ->
  bottom (queue s) < 2 ^ 63 - 1 -> (forall a, arrays (queue s) !! array (queue s) = Some a -> capacity a < 2 ^ 30) ->
  (exists junk q' c', Forall (elt_ok eltsz) junk /\ ws_step eltsz junk (queue s) c = Some (q', c')) /\
  (forall junk q' c', ws_step eltsz junk (queue s) c = Some (q', c') -> (steps_left eltsz c' < steps_left eltsz c)%nat) /\
  (steps_left eltsz c <= Nat.max (eltsz + 6) 7)%nat.
Proof.
  intros Ha%fresh_ok Hr Hi Hs Hb Hcap. pose proof (ws_reachable_inv _ _ _ _ _ Ha Hr) as I. split_and!.
  - destruct (owned c) eqn:Eo.
    + pose proof (inv_owned _ _ _ I _ _ Hi Eo). subst i. pose proof (inv_core _ _ _ I) as Hcore. unfold lbottom in Hcore. rewrite (owner_pc_eq _ _ _ Hi) in Hcore.
      by apply push_can; [|by apply (inv_owner _ _ _ I _ _ Hi)|..].
    + eapply steal_can; [by apply (inv_core _ _ _ I)|by apply (inv_thief _ _ _ I _ _ Hi)|done..|].
      unfold lbottom. destruct (owner_pc owner s); cbn; try lia. destruct (_ =? _); lia.
  - intros. by eapply steps_decrease.
  - destruct c; cbn; lia.
Qed.

(** A queue of one cell: the owner pushes two elements, the second grows the
    buffer while a thief reads the first from the old one. *)
Definition demo_array : ws_array_t := {| buffer := [[0; 0]]; capacity := 1; mask := 0 |}.
Definition demo_turns : list turn :=
  let own := T_run 0%nat [[9; 9]; [9; 9]] in let thief := T_run 1%nat [] in
  [T_call 0 (Push [7; 8])] ++ replicate 7 own ++ [T_ret 0; T_call 1 (Steal [0; 0]); T_call 0 (Push [5; 6])] ++
  [thief; thief; thief; thief] ++ replicate 8 own ++ [T_ret 0; thief; thief; thief; T_ret 1].
Definition demo_run : option (list (event ws_op ws_res) * ws_state) := schedule 2 0 {| queue := new_queue demo_array; pcs := replicate 2 Idle |} demo_turns.

Lemma ws_queue_linearizable_witness :
  exists s, fst <$> demo_run = Some [Call 0%nat (Push [7; 8]); Ret 0%nat (Pushed None); Call 1%nat (Steal [0; 0]); Call 0%nat (Push [5; 6]);
                                     Ret 0%nat (Pushed (Some 0%nat)); Ret 1%nat (Took [7; 8])] /\ demo_run = Some (default [] (fst <$> demo_run), s) /\
  exists d, trace (deque_object 2 0) {| taken := 0; items := []; apcs := replicate 2 A_idle |} (default [] (fst <$> demo_run)) d.
Proof.
  eexists. split; [vm_compute; reflexivity|]. split; [vm_compute; reflexivity|].
  eapply (ws_queue_linearizable 2 0 2 0 [[0; 0]] demo_array).
  - split_and!; [done|reflexivity|]. repeat constructor.
  - apply (schedule_trace 2 0 _ demo_turns). vm_compute. reflexivity.
Defined.

Definition demo_thief : pc := Steal_top [0; 0].

Lemma ws_queue_wait_free_witness :
  let s := {| queue := new_queue demo_array; pcs := [demo_thief; Idle] |} in
  (exists junk q' c', Forall (elt_ok 2) junk /\ ws_step 2 junk (queue s) demo_thief = Some (q', c')) /\
  (forall junk q' c', ws_step 2 junk (queue s) demo_thief = Some (q', c') -> (steps_left 2 c' < steps_left 2 demo_thief)%nat) /\
  (steps_left 2 demo_thief <= Nat.max (2 + 6) 7)%nat.
Proof.
  intros s. apply (ws_queue_wait_free 2 0 2 0 0 [[0; 0]] demo_array s).
  - split_and!; [done|reflexivity|]. repeat constructor.
  - apply rtc_once. exists (Some (Call 0%nat (Steal [0; 0]))). by apply (ws_call 2 0 {| queue := new_queue demo_array; pcs := replicate 2 Idle |} 0 (Steal [0; 0])).
  - reflexivity.
  - vm_compute. lia.
  - reflexivity.
  - intros a Ha. vm_compute in Ha. injection Ha as <-. reflexivity.
Defined.
