(* ===== verification/Probe.v ===== *)
(** * Linear probing

    The loop [do { visit; index = (index + stride) & (sz - 1); iter++; }
    while (iter <= maxprobe && index != orig)] of smallintset.c and iddict.c,
    and the sequence of slots that it visits. *)
From S2P Require Import Prelude.

(** [loop fuel body s]: [body] gives the next state or the result. *)
Fixpoint loop {S R} (fuel : nat) (body : S -> option (S + R)) (s : S) : option R :=
  match fuel with
  | O => None
  | Datatypes.S fuel => r ← body s; match r with inl s => loop fuel body s | inr r => Some r end
  end.

Lemma loop_S {S R} fuel (body : S -> option (S + R)) s :
  loop (Datatypes.S fuel) body s = r ← body s; match r with inl s => loop fuel body s | inr r => Some r end.
Proof. reflexivity. Qed.

(** [visit index acc] is the loop's body on the slot: [inl] to go on, [inr] to
    return. The loop gives [inl acc] when it runs out of slots. *)
Section Probe.
Context {A R : Type} (visit : Z -> A -> option (A + R)) (stride sz maxprobe : Z).

Definition probe_body (orig : Z) (st : Z * Z * A) : option ((Z * Z * A) + (A + R)) :=
  let '(index, iter, acc) := st in
  r ← visit index acc;
  match r with
  | inr r => Some (inr (inr r))
  | inl acc =>
      let index := Z.land (u64 (index + stride)) (u64 (sz - 1)) in
      let iter := u64 (iter + 1) in
      if (iter <=? maxprobe) && negb (index =? orig) then Some (inl (index, iter, acc)) else Some (inr (inl acc))
  end.

Lemma probe_body_eq orig index iter acc : probe_body orig (index, iter, acc) =
  r ← visit index acc;
  match r with
  | inr r => Some (inr (inr r))
  | inl acc =>
      let index := Z.land (u64 (index + stride)) (u64 (sz - 1)) in
      let iter := u64 (iter + 1) in
      if (iter <=? maxprobe) && negb (index =? orig) then Some (inl (index, iter, acc)) else Some (inr (inl acc))
  end.
Proof. reflexivity. Qed.

(** The loop makes at most [maxprobe + 1] rounds. *)
Definition probe (orig : Z) (acc : A) : option (A + R) :=
  loop (S (Z.to_nat maxprobe)) (probe_body orig) (orig, 0, acc).

(** The same over a list of slots. *)
Fixpoint scan (slots : list Z) (acc : A) : option (A + R) :=
  match slots with
  | [] => Some (inl acc)
  | i :: slots => r ← visit i acc; match r with inl acc => scan slots acc | inr r => Some (inr r) end
  end.
End Probe.

(** ** The slots *)

Definition slot (stride sz orig j : Z) : Z := (orig + stride * j) mod sz.
Definition slots (stride sz maxprobe orig : Z) : list Z :=
  map (fun j => slot stride sz orig (Z.of_nat j)) (seq 0 (Z.to_nat (Z.min (sz / stride) (maxprobe + 1)))).

Section Slots.
Context (stride n k maxprobe orig : Z).
Context (Hk : 0 <= k <= 63) (Hs : 1 <= stride) (Hn : 2 ^ k = stride * n) (Hmp : 0 <= maxprobe < 2 ^ 63) (Ho : 0 <= orig < 2 ^ k).

Lemma sz_bound : 2 ^ k <= 2 ^ 63.
Proof using Hk. apply Z.pow_le_mono_r; lia. Qed.
Lemma n_pos : 1 <= n.
Proof using Hn Hs Hk. pose proof (pow2_pos k). nia. Qed.

Lemma slot_orig j : 0 <= j <= n -> slot stride (2 ^ k) orig j = orig <-> j = 0 \/ j = n.
Proof using Hk Hs Hn Ho.
  intros Hj. unfold slot. split.
  - intros E. destruct (Z.eq_dec j 0); [by left|right].
    assert (orig + stride * j < 2 ^ k + 2 ^ k) by nia.
    destruct (Z.lt_ge_cases (orig + stride * j) (2 ^ k)); [rewrite Z.mod_small in E by nia; nia|].
    rewrite <- (Z.mod_add _ (-1)), Z.mod_small in E by lia. nia.
  - pose proof (pow2_pos k ltac:(lia)). intros [-> | ->]; [rewrite Z.mul_0_r, Z.add_0_r; apply Z.mod_small; lia|].
    rewrite <- Hn. replace (orig + 2 ^ k) with (orig + 1 * 2 ^ k) by lia. rewrite Z.mod_add by lia. apply Z.mod_small; lia.
Qed.

Lemma slot_next j : 0 <= j < n ->
  Z.land (u64 (slot stride (2 ^ k) orig j + stride)) (u64 (2 ^ k - 1)) = slot stride (2 ^ k) orig (j + 1).
Proof using Hk Hs Hn.
  intros Hj. pose proof sz_bound. unfold slot. pose proof (pow2_pos k).
  pose proof (Z.mod_pos_bound (orig + stride * j) (2 ^ k) ltac:(lia)).
  assert (stride <= 2 ^ k) by nia.
  rewrite !uw_small by (unfold in_range; lia).
  rewrite land_mod, Z.add_mod_idemp_l by lia. f_equal. lia.
Qed.

Lemma probe_scan {A R} (visit : Z -> A -> option (A + R)) acc :
  probe visit stride (2 ^ k) maxprobe orig acc = scan visit (slots stride (2 ^ k) maxprobe orig) acc.
Proof using Hk Hs Hn Hmp Ho.
  pose proof sz_bound. pose proof n_pos. pose proof (pow2_pos k). unfold probe, slots.
  assert (2 ^ k / stride = n) as -> by (rewrite Hn, Z.mul_comm; apply Z.div_mul; lia).
  set (limit := Z.min n (maxprobe + 1)).
  assert (forall m j acc, 0 <= j -> (1 <= m)%nat -> j + Z.of_nat m = limit -> forall fuel, (m <= fuel)%nat ->
    loop fuel (probe_body visit stride (2 ^ k) maxprobe orig) (slot stride (2 ^ k) orig j, j, acc) =
    scan visit (map (fun j => slot stride (2 ^ k) orig (Z.of_nat j)) (seq (Z.to_nat j) m)) acc) as H'.
  { induction m as [|m IH]; [lia|]. intros j acc' Hj _ Hm [|fuel] Hf; [lia|]. cbn [loop seq map scan].
    rewrite Z2Nat.id by done. rewrite probe_body_eq. destruct (visit _ acc') as [[acc1|r]|]; cbn [mbind option_bind]; [|done..].
    rewrite slot_next by lia. rewrite (uw_small 64 (j + 1)) by (unfold in_range; lia).
    pose proof (slot_orig (j + 1) ltac:(lia)) as Hso.
    destruct m as [|m].
    - cbn [seq map scan]. destruct (Z.leb_spec (j + 1) maxprobe); [|done].
      destruct (Z.eqb_spec (slot stride (2 ^ k) orig (j + 1)) orig); [done|]. exfalso. apply n0, Hso. lia.
    - destruct (Z.leb_spec (j + 1) maxprobe); [|lia].
      destruct (Z.eqb_spec (slot stride (2 ^ k) orig (j + 1)) orig) as [E|]; [apply Hso in E; lia|].
      cbn [negb andb mbind option_bind]. rewrite IH by lia. replace (Z.to_nat (j + 1)) with (S (Z.to_nat j)) by lia. done. }
  specialize (H' (Z.to_nat limit) 0 acc ltac:(lia) ltac:(lia) ltac:(lia) (S (Z.to_nat maxprobe)) ltac:(lia)).
  unfold slot at 1 in H'. rewrite Z.mul_0_r, Z.add_0_r, Z.mod_small in H' by lia. exact H'.
Qed.

Lemma slots_NoDup : NoDup (slots stride (2 ^ k) maxprobe orig).
Proof using Hk Hs Hn Ho.
  pose proof n_pos. pose proof (pow2_pos k). unfold slots.
  assert (2 ^ k / stride = n) as -> by (rewrite Hn, Z.mul_comm; apply Z.div_mul; lia).
  assert (forall m a, (a + m <= Z.to_nat n)%nat -> NoDup (map (fun j => slot stride (2 ^ k) orig (Z.of_nat j)) (seq a m))) as H1.
  { induction m as [|m IH]; intros a Ha; cbn [seq map]; constructor; [|apply IH; lia].
    intros Hin. apply list_elem_of_In, in_map_iff in Hin as (b & E & Hb%in_seq). unfold slot in E.
    apply (f_equal (fun x => (x - orig - stride * Z.of_nat a) mod 2 ^ k)) in E.
    rewrite !(Zminus_mod _ (stride * _)), !(Zminus_mod _ orig), !Zmod_mod, <- !(Zminus_mod _ orig), <- !(Zminus_mod _ (stride * _)) in E.
    replace (orig + stride * Z.of_nat a - orig - stride * Z.of_nat a) with 0 in E by lia.
    replace (orig + stride * Z.of_nat b - orig - stride * Z.of_nat a) with (stride * (Z.of_nat b - Z.of_nat a)) in E by lia.
    rewrite Z.mod_small, Z.mod_0_l in E; nia. }
  apply H1. lia.
Qed.

Lemma slots_range i : i ∈ slots stride (2 ^ k) maxprobe orig -> 0 <= i < 2 ^ k.
Proof using Hk.
  intros Hin. apply list_elem_of_In, in_map_iff in Hin as (j & <- & _). apply Z.mod_pos_bound, pow2_pos. lia.
Qed.

Lemma slots_length : Z.of_nat (length (slots stride (2 ^ k) maxprobe orig)) = Z.min n (maxprobe + 1).
Proof using Hk Hs Hn Hmp.
  pose proof n_pos. unfold slots. rewrite length_map, length_seq.
  assert (2 ^ k / stride = n) as -> by (rewrite Hn, Z.mul_comm; apply Z.div_mul; lia). lia.
Qed.
End Slots.

(** ** What a scan does *)
Section Scan.
Context {A R : Type} (visit : Z -> A -> option (A + R)).

Lemma scan_app l1 l2 acc : scan visit (l1 ++ l2) acc =
  r ← scan visit l1 acc; match r with inl acc => scan visit l2 acc | inr r => Some (inr r) end.
Proof.
  revert acc. induction l1 as [|i l1 IH]; intros acc; [done|]. cbn [app scan].
  destruct (visit i acc) as [[acc'|r]|]; cbn [mbind option_bind]; [apply IH|done..].
Qed.

(** Slots that do not change the accumulator. *)
Lemma scan_skip l acc : Forall (fun i => visit i acc = Some (inl acc)) l -> scan visit l acc = Some (inl acc).
Proof. induction 1 as [|i l H _ IH]; [done|]. cbn [scan]. by rewrite H. Qed.

(** A scan whose visits succeed and leave the accumulator: it stops at the
    first slot that returns, or reaches the end. *)
Lemma scan_first l acc : Forall (fun i => visit i acc = Some (inl acc) \/ exists r, visit i acc = Some (inr r)) l ->
  (scan visit l acc = Some (inl acc) /\ Forall (fun i => visit i acc = Some (inl acc)) l) \/
  (exists pre i post r, l = pre ++ i :: post /\ Forall (fun i => visit i acc = Some (inl acc)) pre /\
     visit i acc = Some (inr r) /\ scan visit l acc = Some (inr r)).
Proof.
  induction 1 as [|i l H _ IH]; [by left|]. destruct H as [H|[r H]].
  - destruct IH as [[E IH]|(pre & i' & post & r & -> & Hpre & Hi & E)].
    + left. cbn [scan]. rewrite H. split; [exact E|]. by constructor.
    + right. exists (i :: pre), i', post, r. cbn [scan app]. rewrite H. split_and!; [done|by constructor|done|exact E].
  - right. exists [], i, l, r. cbn [scan app]. rewrite H. split_and!; [done|constructor|done|done].
Qed.
End Scan.

(** ** Positions in a table *)

Lemma filter_insert_new {A} (P : A -> Prop) `{!forall x, Decision (P x)} l i v x :
  l !! i = Some v -> ~ P v -> P x -> filter P (<[i := x]> l) ≡ₚ x :: filter P l.
Proof.
  intros Hi Hv Hx. pose proof (lookup_lt_Some _ _ _ Hi).
  rewrite <- (take_drop_middle l i v Hi) at 2. rewrite insert_take_drop by done.
  rewrite !filter_app, !filter_cons, decide_True, decide_False by done. symmetry. apply Permutation_middle.
Qed.

Lemma filter_insert_del {A} (P : A -> Prop) `{!forall x, Decision (P x)} l i v x :
  l !! i = Some v -> P v -> ~ P x -> filter P l ≡ₚ v :: filter P (<[i := x]> l).
Proof.
  intros Hi Hv Hx. pose proof (lookup_lt_Some _ _ _ Hi).
  rewrite <- (take_drop_middle l i v Hi) at 1. rewrite insert_take_drop by done.
  rewrite !filter_app, !filter_cons, decide_True, decide_False by done. symmetry. apply Permutation_middle.
Qed.

(** Distinct positions of [l] that satisfy [P] are no more than its elements that do. *)
Lemma filter_positions {A} (P : A -> Prop) `{!forall x, Decision (P x)} (dead : A) (inds : list nat) l :
  ~ P dead -> NoDup inds -> Forall (fun i => exists v, l !! i = Some v /\ P v) inds ->
  (length inds <= length (filter P l))%nat.
Proof.
  intros Hd. revert l. induction inds as [|i inds IH]; intros l Hn Hall; [simpl; lia|].
  apply NoDup_cons in Hn as [Hi Hn]. apply Forall_cons in Hall as [(v & Hv & HP) Hall].
  rewrite (filter_insert_del P l i v dead) by done. simpl. apply le_n_S, IH; [done|].
  apply Forall_forall. intros j Hj. rewrite Forall_forall in Hall. destruct (Hall j Hj) as (w & Hw & HPw).
  exists w. split; [|done]. rewrite list_lookup_insert_ne; [done|]. by intros ->.
Qed.

Lemma app_cons_cases {A} (l1 l2 k1 k2 : list A) x y :
  l1 ++ x :: l2 = k1 ++ y :: k2 -> y ∈ l1 \/ (x = y) \/ x ∈ k1.
Proof.
  revert k1. induction l1 as [|z l1 IH]; intros [|w k1] E; cbn [app] in E; injection E as E1 E2.
  - right. by left.
  - right. right. subst. by left.
  - left. subst. by left.
  - destruct (IH _ E2) as [?|[?|?]]; [left; by right|right; by left|right; right; by right].
Qed.

(** ** Buckets

    The flat memory [flat ps] of a list of buckets. *)
Section Flat.
Context {A : Type}.
Implicit Types (ps : list (A * A)).

Fixpoint flat ps : list A := match ps with [] => [] | (x, y) :: ps => x :: y :: flat ps end.

Lemma flat_length ps : length (flat ps) = (2 * length ps)%nat.
Proof. induction ps as [|[x y] ps IH]; simpl; lia. Qed.

Lemma flat_lookup_key ps i : flat ps !! (2 * i)%nat = fst <$> ps !! i.
Proof.
  revert i. induction ps as [|[x y] ps IH]; intros [|i]; [done|done|done|].
  replace (2 * S i)%nat with (S (S (2 * i))) by lia. apply IH.
Qed.
Lemma flat_lookup_val ps i : flat ps !! (2 * i + 1)%nat = snd <$> ps !! i.
Proof.
  revert i. induction ps as [|[x y] ps IH]; intros [|i]; [done|done|done|].
  replace (2 * S i + 1)%nat with (S (S (2 * i + 1))) by lia. apply IH.
Qed.

Lemma flat_insert_key ps i x x' y : ps !! i = Some (x, y) -> <[(2 * i)%nat := x']> (flat ps) = flat (<[i := (x', y)]> ps).
Proof.
  revert i. induction ps as [|[x0 y0] ps IH]; intros [|i] E; [done|done|by injection E as -> ->|].
  replace (2 * S i)%nat with (S (S (2 * i))) by lia. cbn [flat insert list_insert]. do 2 f_equal. by apply IH.
Qed.
Lemma flat_insert_val ps i x y y' : ps !! i = Some (x, y) -> <[(2 * i + 1)%nat := y']> (flat ps) = flat (<[i := (x, y')]> ps).
Proof.
  revert i. induction ps as [|[x0 y0] ps IH]; intros [|i] E; [done|done|by injection E as -> ->|].
  replace (2 * S i + 1)%nat with (S (S (2 * i + 1))) by lia. cbn [flat insert list_insert]. do 2 f_equal. by apply IH.
Qed.

Lemma flat_replicate n (x : A) : flat (replicate n (x, x)) = replicate (2 * n) x.
Proof. induction n as [|n IH]; [done|]. replace (2 * S n)%nat with (S (S (2 * n))) by lia. simpl. by rewrite IH. Qed.
End Flat.
