(* ===== verification/SmallIntSet.v ===== *)
(** * Sets of small integers: src/src/smallintset.c

    An index over another set: an open-addressing table of 8-, 16- or 32-bit
    cells; a cell holds 0 (never used), the tombstone (all ones) or [val + 1].
    The memory's cells are a list; a read or write outside it, [abort] and a
    failed assertion give [None]. The model is sequential: an atomic access is a
    plain one, the write barriers have no effect. *)
From S2P Require Import Prelude Probe.

(** The element types of the memories. *)
Inductive memtype :=
  | jl_memory_uint8_type | jl_memory_uint16_type | jl_memory_uint32_type | jl_memory_any_type.
#[global] Instance memtype_eq_dec : EqDecision memtype.
Proof. solve_decision. Defined.

Record jl_genericmemory_t := mem { jl_typetagof : memtype; ptr : list Z }.
Definition mlength (a : jl_genericmemory_t) : Z := Z.of_nat (length (ptr a)).

Definition SIZE_MAX : Z := 2 ^ 64 - 1.
Definition HT_N_INLINE : Z := 32.

Definition max_probe (size : Z) : Z := if size <=? 1024 then 16 else Z.shiftr size 6.
Definition h2index (hv sz : Z) : Z := Z.land hv (u64 (sz - 1)).

Definition ignore_tombstone (val tombstone : Z) : Z := if val =? tombstone then 0 else val.
Definition jl_intref (arr : jl_genericmemory_t) (idx : Z) : option Z :=
  x ← ptr arr !! Z.to_nat idx;
  match jl_typetagof arr with
  | jl_memory_uint8_type => Some (ignore_tombstone x 0xFF)
  | jl_memory_uint16_type => Some (ignore_tombstone x 0xFFFF)
  | jl_memory_uint32_type => Some (ignore_tombstone x 0xFFFFFFFF)
  | jl_memory_any_type => None
  end.

Definition acquire_tombstone (val tombstone : Z) : Z := if val =? tombstone then SIZE_MAX else val.
Definition jl_intref_acquire (arr : jl_genericmemory_t) (idx : Z) : option Z :=
  x ← ptr arr !! Z.to_nat idx;
  match jl_typetagof arr with
  | jl_memory_uint8_type => Some (acquire_tombstone x 0xFF)
  | jl_memory_uint16_type => Some (acquire_tombstone x 0xFFFF)
  | jl_memory_uint32_type => Some (acquire_tombstone x 0xFFFFFFFF)
  | jl_memory_any_type => None
  end.

(** The store truncates to the cell. *)
Definition jl_intset_release (arr : jl_genericmemory_t) (idx val : Z) : option jl_genericmemory_t :=
  _ ← ptr arr !! Z.to_nat idx;
  match jl_typetagof arr with
  | jl_memory_uint8_type => Some (mem (jl_typetagof arr) (<[Z.to_nat idx := u8 val]> (ptr arr)))
  | jl_memory_uint16_type => Some (mem (jl_typetagof arr) (<[Z.to_nat idx := u16 val]> (ptr arr)))
  | jl_memory_uint32_type => Some (mem (jl_typetagof arr) (<[Z.to_nat idx := u32 val]> (ptr arr)))
  | jl_memory_any_type => None
  end.

Definition jl_max_int (arr : jl_genericmemory_t) : Z :=
  match jl_typetagof arr with
  | jl_memory_uint8_type => 0xFF
  | jl_memory_uint16_type => 0xFFFF
  | jl_memory_uint32_type => 0xFFFFFFFF
  | jl_memory_any_type => 0
  end.

(** [elsize] is 0 for a [Memory{Any}]: nothing is cleared. *)
Definition smallintset_empty (a : jl_genericmemory_t) : jl_genericmemory_t :=
  match jl_typetagof a with
  | jl_memory_any_type => a
  | ty => mem ty (replicate (length (ptr a)) 0)
  end.

Definition jl_alloc_int_1d (np len : Z) : option jl_genericmemory_t :=
  let ty := if np <? 0xFF then jl_memory_uint8_type
            else if np <? 0xFFFF then jl_memory_uint16_type else jl_memory_uint32_type in
  if np <? 0x7FFFFFFF then Some (mem ty (replicate (Z.to_nat len) 0)) else None.

(** [eq i] is [eq(i, key, data, hv)]. *)
Definition lookup_visit (cache : jl_genericmemory_t) (eq : Z -> bool) (index : Z) (_ : unit) : option (unit + option (Z * Z)) :=
  val1 ← jl_intref_acquire cache index;
  if val1 =? 0 then Some (inr None)
  else if negb (val1 =? SIZE_MAX) && eq (val1 - 1) then Some (inr (Some (index, val1)))
  else Some (inl tt).

Definition jl_smallintset_lookup (cache : jl_genericmemory_t) (eq : Z -> bool) (hv : Z) (pop : bool) :
  option (Z * jl_genericmemory_t) :=
  let sz := mlength cache in
  if sz =? 0 then Some (-1, cache) else
  let maxprobe := max_probe sz in
  r ← probe (lookup_visit cache eq) 1 sz maxprobe (h2index hv sz) tt;
  match r with
  | inr (Some (index, val1)) =>
      cache ← (if pop then jl_intset_release cache index SIZE_MAX else Some cache);
      Some (val1 - 1, cache)
  | _ => Some (-1, cache)
  end.

Definition insert_visit (a : jl_genericmemory_t) (index : Z) (_ : unit) : option (unit + Z) :=
  v ← jl_intref a index;
  if v =? 0 then Some (inr index) else Some (inl tt).

Definition smallintset_insert_ (a : jl_genericmemory_t) (hv val1 : Z) : option (bool * jl_genericmemory_t) :=
  let sz := mlength a in
  if sz <=? 1 then Some (false, a) else
  let maxprobe := max_probe sz in
  r ← probe (insert_visit a) 1 sz maxprobe (h2index hv sz) tt;
  match r with
  | inr index => a ← jl_intset_release a index val1; Some (true, a)
  | inl _ => Some (false, a)
  end.

(** The two [for] loops of [smallintset_rehash], over the indices [inds]; a
    [break] is [Some None]. *)
Fixpoint rehash_max (a : jl_genericmemory_t) (inds : list nat) (np : Z) : option Z :=
  match inds with
  | [] => Some np
  | i :: inds => val ← jl_intref a (Z.of_nat i); rehash_max a inds (if np <? val then val else np)
  end.

Fixpoint rehash_copy (a : jl_genericmemory_t) (hash : Z -> Z) (inds : list nat) (newa : jl_genericmemory_t) :
  option (option jl_genericmemory_t) :=
  match inds with
  | [] => Some (Some newa)
  | i :: inds =>
      val1 ← jl_intref a (Z.of_nat i);
      if val1 =? 0 then rehash_copy a hash inds newa
      else match smallintset_insert_ newa (hash (val1 - 1)) val1 with
           | None => None
           | Some (false, _) => Some None
           | Some (true, newa) => rehash_copy a hash inds newa
           end
  end.

Fixpoint rehash_loop (fuel : nat) (a : jl_genericmemory_t) (hash : Z -> Z) (np newsz : Z) : option jl_genericmemory_t :=
  match fuel with
  | O => None
  | S fuel =>
      newa ← jl_alloc_int_1d (np + 1) newsz;
      r ← rehash_copy a hash (seq 0 (length (ptr a))) newa;
      match r with
      | Some newa => Some newa
      | None => rehash_loop fuel a hash np (u64 (Z.shiftl newsz 1))
      end
  end.

(** [newsz] doubles: 64 rounds are more than a [size_t] allows. *)
Definition smallintset_rehash (a : jl_genericmemory_t) (hash : Z -> Z) (newsz np : Z) : option jl_genericmemory_t :=
  np ← rehash_max a (seq 0 (length (ptr a))) np;
  rehash_loop 64 a hash np newsz.

Definition grow_size (sz : Z) : Z :=
  if sz <? HT_N_INLINE then HT_N_INLINE
  else if (Z.shiftl 1 19 <=? sz) || (sz <=? Z.shiftl 1 8) then u64 (Z.shiftl sz 1)
  else u64 (Z.shiftl sz 2).

Fixpoint insert_loop (fuel : nat) (a : jl_genericmemory_t) (hash : Z -> Z) (val : Z) : option jl_genericmemory_t :=
  match fuel with
  | O => None
  | S fuel =>
      match smallintset_insert_ a (hash val) (u64 (val + 1)) with
      | None => None
      | Some (true, a) => Some a
      | Some (false, _) => a ← smallintset_rehash a hash (grow_size (mlength a)) 0; insert_loop fuel a hash val
      end
  end.

(** [hash i] is [hash(i, data)]; the result is the new [*pcache]. *)
Definition jl_smallintset_insert (a : jl_genericmemory_t) (hash : Z -> Z) (val : Z) : option jl_genericmemory_t :=
  a ← (if jl_max_int a <=? u64 (val + 1) then smallintset_rehash a hash (mlength a) (u64 (val + 1)) else Some a);
  insert_loop 64 a hash val.

(** ** Insertion-ordered dictionaries

    A [Memory{Any}] is [jl_an_empty_memory_any] itself, or a list of slots
    ([None] is [NULL]) of values. *)
Section OrderedDict.
Context {V : Type} (jl_an_empty_memory_any : V).

Inductive anymem := EmptyAny | AnyMem (items : list (option V)).
Definition any_items (a : anymem) : list (option V) := match a with EmptyAny => [] | AnyMem l => l end.

Fixpoint reserve_back (a : list (option V)) (stride idx : nat) : option nat :=
  match idx with
  | O => Some O
  | S idx' => x ← a !! (1 + stride * idx')%nat;
      match x with None => reserve_back a stride idx' | Some _ => Some idx end
  end.

(** [jl_genericmemory_ptr_set] of the non-null [a[i]] in [na], for each [i]. *)
Fixpoint reserve_copy (a : list (option V)) (i : nat) (na : list (option V)) : list (option V) :=
  match a with
  | [] => na
  | x :: a => reserve_copy a (S i) (match x with None => na | Some _ => <[i := x]> na end)
  end.

Definition jl_ordereddict_reserve (a : anymem) (stride : nat) : option (nat * anymem) :=
  let len := length (any_items a) in
  idx ← reserve_back (any_items a) stride (if (len <? 1 + stride)%nat then 0%nat else ((len - 1) / stride)%nat);
  let need := (1 + stride * (idx + 1))%nat in
  if (len <? need)%nat then
    let newlen := if (len <? 8)%nat then 8%nat else (len * 3 / 2)%nat in
    let newlen := if (newlen <? need)%nat then need else newlen in
    let na := replicate newlen None in
    let na := match a with
              | EmptyAny => <[0%nat := Some jl_an_empty_memory_any]> na
              | AnyMem a => reserve_copy a 0 na
              end in
    Some (idx, AnyMem na)
  else Some (idx, a).
End OrderedDict.
Arguments anymem : clear implicits.
