(* ===== verification/SmallIntSetCorrect.v ===== *)
(** * Sets of small integers: the invariant of a table, its operations and the properties *)
From S2P Require Import Prelude Probe SmallIntSet.

(** ** Sets of small integers: the table's invariant and its operations *)

(** ** Lists *)

(** Distinct positive integers below a bound are few. *)
Lemma NoDup_bounded (l : list Z) m : 0 <= m -> NoDup l -> Forall (fun v => 0 < v < m) l -> Z.of_nat (length l) <= m.
Proof.
  intros Hm Hn Hl. assert (length l <= length (map Z.of_nat (seq 0 (Z.to_nat m))))%nat as H.
  { apply List.NoDup_incl_length; [by apply NoDup_ListNoDup|]. intros x Hx. apply in_map_iff.
    apply list_elem_of_In in Hx. rewrite Forall_forall in Hl. specialize (Hl x Hx).
    exists (Z.to_nat x). split; [lia|]. apply in_seq. lia. }
  rewrite length_map, length_seq in H. lia.
Qed.

(** ** Cells *)

Abbreviation tomb := jl_max_int.
Definition is_live (a : jl_genericmemory_t) (v : Z) : Prop := v <> 0 /\ v <> tomb a.
#[global] Instance is_live_dec a v : Decision (is_live a v) := ltac:(unfold is_live; apply _).

(** The table's contents: the values [val + 1] of its live cells. *)
Definition live (a : jl_genericmemory_t) : list Z := filter (is_live a) (ptr a).
Definition int_typed (a : jl_genericmemory_t) : Prop := jl_typetagof a <> jl_memory_any_type.

Lemma tomb_bound a : int_typed a -> 0xFF <= tomb a < 2 ^ 32.
Proof. unfold int_typed, tomb. destruct (jl_typetagof a); done || lia. Qed.

Lemma intref_eq a idx x : int_typed a -> ptr a !! Z.to_nat idx = Some x ->
  jl_intref a idx = Some (if decide (is_live a x) then x else 0).
Proof.
  intros Ha Hx. unfold jl_intref. rewrite Hx. cbn [mbind option_bind].
  assert (forall t, tomb a = t -> Some (ignore_tombstone x t) = Some (if decide (is_live a x) then x else 0)) as H.
  { intros t Ht. f_equal. unfold ignore_tombstone. destruct (decide (is_live a x)) as [[? ?]|Hl];
      destruct (Z.eqb_spec x t); [congruence|done|done|]. destruct (Z.eq_dec x 0); [done|].
    exfalso. apply Hl. split; congruence. }
  unfold int_typed, tomb in *. destruct (jl_typetagof a); [by apply H..|done].
Qed.

Lemma intref_acquire_eq a idx x : int_typed a -> ptr a !! Z.to_nat idx = Some x ->
  jl_intref_acquire a idx = Some (if x =? tomb a then SIZE_MAX else x).
Proof.
  intros Ha Hx. unfold jl_intref_acquire. rewrite Hx. cbn [mbind option_bind]. unfold acquire_tombstone.
  unfold int_typed, tomb in *. by destruct (jl_typetagof a).
Qed.

Lemma release_eq a idx v : int_typed a -> is_Some (ptr a !! Z.to_nat idx) -> 0 <= v <= tomb a ->
  jl_intset_release a idx v = Some (mem (jl_typetagof a) (<[Z.to_nat idx := v]> (ptr a))).
Proof.
  intros Ha [x Hx] Hv. unfold jl_intset_release. rewrite Hx. cbn [mbind option_bind].
  unfold int_typed, tomb in *. destruct (jl_typetagof a); try done; rewrite uw_small by (unfold in_range; lia); done.
Qed.

Lemma release_tombstone a idx : int_typed a -> is_Some (ptr a !! Z.to_nat idx) ->
  jl_intset_release a idx SIZE_MAX = Some (mem (jl_typetagof a) (<[Z.to_nat idx := tomb a]> (ptr a))).
Proof.
  intros Ha [x Hx]. unfold jl_intset_release. rewrite Hx. cbn [mbind option_bind].
  unfold int_typed, tomb in *. by destruct (jl_typetagof a).
Qed.

(** ** The invariant *)

Definition pow2_length (a : jl_genericmemory_t) (k : Z) : Prop := 0 <= k <= 37 /\ mlength a = 2 ^ k.

Definition home_slots (a : jl_genericmemory_t) (hv : Z) : list Z :=
  slots 1 (mlength a) (max_probe (mlength a)) (h2index hv (mlength a)).

Definition used (a : jl_genericmemory_t) (i : Z) : Prop := exists v, ptr a !! Z.to_nat i = Some v /\ v <> 0.

(** A search for [hv] gets to [i] before a cell that was never used. *)
Definition reach (a : jl_genericmemory_t) (hv i : Z) : Prop :=
  exists pre post, home_slots a hv = pre ++ i :: post /\ Forall (used a) pre.

Record wf (hash : Z -> Z) (a : jl_genericmemory_t) : Prop := {
  wf_any : ptr a = [] \/ int_typed a;
  wf_len : ptr a = [] \/ exists k, pow2_length a k;
  wf_cells : Forall (fun v => 0 <= v <= tomb a) (ptr a);
  wf_small : Forall (fun v => v < 0x7FFFFFFE) (live a);
  wf_nodup : NoDup (live a);
  wf_reach : forall i v, ptr a !! Z.to_nat i = Some v -> 0 <= i -> is_live a v -> reach a (hash (v - 1)) i;
}.

Lemma max_probe_bound k : 0 <= k <= 37 -> 16 <= max_probe (2 ^ k) < 2 ^ 32 /\ (37 <= k -> max_probe (2 ^ k) = 2 ^ 31).
Proof.
  intros Hk. unfold max_probe. destruct (Z.leb_spec (2 ^ k) 1024).
  - split; [lia|]. intros. assert (2 ^ 37 <= 2 ^ k) by (apply Z.pow_le_mono_r; lia). lia.
  - rewrite Z.shiftr_div_pow2 by lia. assert (2 ^ k <= 2 ^ 37) by (apply Z.pow_le_mono_r; lia).
    split; [split; [apply Z.div_le_lower_bound; lia|apply Z.div_lt_upper_bound; lia]|].
    intros. assert (k = 37) as -> by lia. done.
Qed.

Lemma h2index_bound hv k : 0 <= k <= 37 -> 0 <= h2index hv (2 ^ k) < 2 ^ k.
Proof.
  intros Hk. pose proof (pow2_pos k). assert (2 ^ k <= 2 ^ 37) by (apply Z.pow_le_mono_r; lia).
  unfold h2index. rewrite uw_small by (unfold in_range; lia). rewrite land_mod by lia. apply Z.mod_pos_bound. lia.
Qed.

Section Table.
Context (a : jl_genericmemory_t) (k : Z) (Hk : pow2_length a k) (Ha : int_typed a).
Context (Hcells : Forall (fun v => 0 <= v <= tomb a) (ptr a)).

Lemma table_probe {A R} (visit : Z -> A -> option (A + R)) hv acc :
  probe visit 1 (mlength a) (max_probe (mlength a)) (h2index hv (mlength a)) acc = scan visit (home_slots a hv) acc.
Proof using Hk.
  destruct Hk as [Hk1 E]. unfold home_slots. rewrite E.
  apply (probe_scan 1 (2 ^ k)); [lia..| |by apply h2index_bound]. pose proof (max_probe_bound k Hk1). lia.
Qed.

Lemma home_slots_lookup hv i : i ∈ home_slots a hv -> 0 <= i /\ is_Some (ptr a !! Z.to_nat i).
Proof using Hk.
  destruct Hk as [Hk1 E]. unfold home_slots. rewrite E. intros Hi%slots_range; [|lia]. split; [lia|].
  apply lookup_lt_is_Some_2. unfold mlength in E. lia.
Qed.

Lemma home_slots_length hv : Z.of_nat (length (home_slots a hv)) = Z.min (mlength a) (max_probe (mlength a) + 1).
Proof using Hk.
  destruct Hk as [Hk1 E]. unfold home_slots. rewrite E. pose proof (max_probe_bound k Hk1).
  apply (slots_length 1 (2 ^ k)); lia.
Qed.

Lemma home_slots_NoDup hv : NoDup (home_slots a hv).
Proof using Hk.
  destruct Hk as [Hk1 E]. unfold home_slots. rewrite E.
  apply (slots_NoDup 1 (2 ^ k)); [lia..|by apply h2index_bound].
Qed.

(** ** Insertion *)

Lemma insert_visit_eq i x u : ptr a !! Z.to_nat i = Some x ->
  insert_visit a i u = Some (if decide (is_live a x) then inl tt else inr i).
Proof using Ha.
  intros Hx. unfold insert_visit. rewrite (intref_eq a i x) by done. cbn [mbind option_bind].
  destruct (decide (is_live a x)) as [[H0 _]|]; [|done]. by destruct (Z.eqb_spec x 0).
Qed.

(** [smallintset_insert_] takes the first free cell, or has found
    [min(size, max_probe + 1)] live ones. *)
Lemma insert__spec hv val1 : 0 < k -> 0 < val1 < tomb a ->
  (exists i v, reach a hv i /\ 0 <= i /\ ptr a !! Z.to_nat i = Some v /\ ~ is_live a v /\
     smallintset_insert_ a hv val1 = Some (true, mem (jl_typetagof a) (<[Z.to_nat i := val1]> (ptr a)))) \/
  (smallintset_insert_ a hv val1 = Some (false, a) /\
   Z.min (mlength a) (max_probe (mlength a) + 1) <= Z.of_nat (length (live a))).
Proof using Hk Ha.
  intros Hk0 Hv. unfold smallintset_insert_.
  assert (2 ^ 1 <= mlength a) as Hl by (destruct Hk as [Hk1 ->]; apply Z.pow_le_mono_r; lia).
  destruct (Z.leb_spec (mlength a) 1); [lia|]. rewrite table_probe.
  destruct (scan_first (insert_visit a) (home_slots a hv) tt) as [[-> Hall]|(pre & i & post & r & E & Hpre & Hi & ->)].
  - apply Forall_forall. intros i [_ [x Hx]]%home_slots_lookup. rewrite (insert_visit_eq i x) by done.
    destruct (decide _); eauto.
  - right. split; [done|]. rewrite <- (home_slots_length hv).
    assert (length (map Z.to_nat (home_slots a hv)) <= length (live a))%nat as Hle; [|rewrite length_map in Hle; lia].
    apply (filter_positions (is_live a) 0); [by intros []|..].
    + apply NoDup_fmap_2_strong; [|apply home_slots_NoDup].
      intros x y Hx%home_slots_lookup Hy%home_slots_lookup. lia.
    + apply Forall_fmap, Forall_forall. intros i Hi. rewrite Forall_forall in Hall. specialize (Hall i Hi).
      destruct (home_slots_lookup hv i Hi) as [_ [x Hx]]. rewrite (insert_visit_eq i x) in Hall by done.
      exists x. split; [done|]. by destruct (decide (is_live a x)).
  - left. destruct (home_slots_lookup hv i) as [H0 [x Hx]]; [rewrite E; apply elem_of_app; right; by left|].
    rewrite (insert_visit_eq i x) in Hi by done. destruct (decide (is_live a x)); [done|]. injection Hi as <-.
    exists i, x. split_and!; [|done..|].
    + exists pre, post. split; [done|]. eapply Forall_impl; [exact Hpre|]. intros j Hj. cbv beta in Hj.
      destruct (ptr a !! Z.to_nat j) as [y|] eqn:Ey; [|unfold insert_visit, jl_intref in Hj; by rewrite Ey in Hj].
      exists y. split; [done|]. rewrite (insert_visit_eq j y) in Hj by done.
      by destruct (decide (is_live a y)) as [[]|].
    + cbn [mbind option_bind]. rewrite release_eq by (done || lia). done.
Qed.
End Table.

(** ** Writes to a cell *)

Definition write (a : jl_genericmemory_t) (i v : Z) : jl_genericmemory_t :=
  mem (jl_typetagof a) (<[Z.to_nat i := v]> (ptr a)).

Lemma mlength_write a i v : mlength (write a i v) = mlength a.
Proof. unfold mlength. simpl. by rewrite length_insert. Qed.

Lemma reach_write a hv i j v : v <> 0 -> reach a hv i -> reach (write a j v) hv i.
Proof.
  intros Hv (pre & post & E & Hpre). exists pre, post. unfold home_slots in *. rewrite mlength_write. split; [done|].
  eapply Forall_impl; [exact Hpre|]. intros x (y & Hy & Hy0). unfold used. simpl.
  destruct (decide (Z.to_nat j = Z.to_nat x)) as [->|].
  - exists v. split; [|done]. apply list_lookup_insert_eq. by apply lookup_lt_Some in Hy.
  - exists y. by rewrite list_lookup_insert_ne.
Qed.

Section Write.
Context (hash : Z -> Z) (a : jl_genericmemory_t) (Hwf : wf hash a) (i v x : Z).
Context (Hi : 0 <= i) (Hv : ptr a !! Z.to_nat i = Some v).

Let Hlt : (Z.to_nat i < length (ptr a))%nat := lookup_lt_Some _ _ _ Hv.

Lemma wf_write : x <> 0 -> 0 <= x <= tomb a ->
  (is_live a x -> reach a (hash (x - 1)) i /\ x < 0x7FFFFFFE) ->
  NoDup (live (write a i x)) -> (forall y, y ∈ live (write a i x) -> y ∈ live a \/ y = x) -> wf hash (write a i x).
Proof using Hwf Hi Hv.
  intros H0 Hx Hr Hn Hsub. assert (ptr a <> []) as Hne by (intros E; pose proof Hlt as H; rewrite E in H; simpl in H; lia). pose proof Hwf as [Hany Hlen Hc Hs _ Hreach]. split.
  - destruct Hany as [|]; [done|by right].
  - destruct Hlen as [|[k [Hk1 Hk2]]]; [done|right]. exists k. split; [done|].
    by rewrite mlength_write.
  - apply Forall_insert; done.
  - apply Forall_forall. intros y Hy. destruct (Hsub y Hy) as [Hy'| ->].
    + rewrite Forall_forall in Hs. by apply Hs.
    + apply list_elem_of_filter in Hy as [Hy _]. by apply Hr.
  - done.
  - intros j w Hw Hj Hlw. apply reach_write; [done|]. simpl in Hw.
    destruct (decide (Z.to_nat i = Z.to_nat j)) as [E|E].
    + rewrite E, list_lookup_insert_eq in Hw by (rewrite <- E; done). injection Hw as <-.
      assert (j = i) as -> by lia. by apply Hr.
    + rewrite list_lookup_insert_ne in Hw by done. by apply Hreach.
Qed.

(** A free cell is taken. *)
Lemma wf_take : ~ is_live a v -> 0 < x < tomb a -> x < 0x7FFFFFFE -> x ∉ live a -> reach a (hash (x - 1)) i ->
  wf hash (write a i x) /\ live (write a i x) ≡ₚ x :: live a.
Proof using Hwf Hi Hv.
  intros Hl Hx Hx' Hnew Hr. assert (live (write a i x) ≡ₚ x :: live a) as E.
  { apply (filter_insert_new (is_live a) _ _ v); [done|done|]. split; lia. }
  split; [|done]. apply wf_write; [lia|lia|by intros| |].
  - rewrite E. constructor; [done|]. apply Hwf.
  - intros y. rewrite E. intros [->|]%elem_of_cons; [by right|by left].
Qed.

End Write.

(** A live cell becomes a tombstone. *)
Lemma wf_bury hash a i v : wf hash a -> 0 <= i -> ptr a !! Z.to_nat i = Some v -> is_live a v -> int_typed a ->
  wf hash (write a i (tomb a)) /\ live a ≡ₚ v :: live (write a i (tomb a)).
Proof.
  intros Hwf Hi Hv Hl Ha. assert (live a ≡ₚ v :: live (write a i (tomb a))) as E.
  { apply (filter_insert_del (is_live a)); [done|done|]. by intros []. }
  pose proof (tomb_bound a Ha). pose proof (wf_nodup _ _ Hwf) as Hn. rewrite E in Hn. apply NoDup_cons in Hn as [_ Hn].
  split; [|done]. apply (wf_write hash a Hwf i v); [done|done|lia|lia|by intros []|done|].
  intros y Hy. left. rewrite E. by right.
Qed.

(** ** Allocation and the two passes of a rehash *)

Lemma filter_none {A} (P : A -> Prop) `{!forall x, Decision (P x)} l : (forall x, x ∈ l -> ~ P x) -> filter P l = [].
Proof.
  induction l as [|x l IH]; intros Hno; [done|]. rewrite filter_cons, decide_False by (apply Hno; by left).
  apply IH. intros y Hy. apply Hno. by right.
Qed.

(** The table may be unallocated or have a power of two of cells. *)
Definition table_size (sz : Z) : Prop := sz = 0 \/ exists k, 0 <= k <= 37 /\ sz = 2 ^ k.

Lemma alloc_spec hash np len : 0 <= np < 0x7FFFFFFF -> table_size len ->
  exists a, jl_alloc_int_1d np len = Some a /\ wf hash a /\ int_typed a /\ mlength a = len /\ live a = [] /\ np < tomb a.
Proof.
  intros Hnp Hlen. unfold jl_alloc_int_1d. destruct (Z.ltb_spec np 0x7FFFFFFF); [|lia].
  assert (0 <= len) as H0 by (destruct Hlen as [->|(k & Hk & ->)]; [done|apply Z.pow_nonneg; lia]).
  eexists. split; [done|]. set (ty := if np <? 0xFF then _ else _). set (a := mem ty _).
  assert (int_typed a) as Ha by (unfold int_typed, a, ty; simpl; destruct (np <? 0xFF), (np <? 0xFFFF); done).
  assert (mlength a = len) as El by (unfold mlength, a; simpl; rewrite length_replicate; lia).
  assert (live a = []) as Ee.
  { apply filter_none. intros x Hx%elem_of_replicate_inv. by intros [? _]. }
  split_and!; [|done|done|done|].
  - split; [by right| | |rewrite Ee; constructor..|].
    + destruct Hlen as [->|(k & Hk & ->)]; [by left|right]. exists k. by split.
    + apply Forall_replicate. pose proof (tomb_bound a Ha). lia.
    + intros i v Hv _ []. simpl in Hv. apply lookup_replicate in Hv as [-> _]. done.
  - unfold a, ty, tomb. simpl. destruct (Z.ltb_spec np 0xFF); [simpl; lia|].
    destruct (Z.ltb_spec np 0xFFFF); simpl; lia.
Qed.

Lemma rehash_max_spec hash a np : wf hash a -> exists np', rehash_max a (seq 0 (length (ptr a))) np = Some np' /\
  np <= np' /\ (forall v, v ∈ live a -> v <= np') /\ (np' = np \/ np' = 0 \/ np' ∈ live a).
Proof.
  intros Hwf. destruct (wf_any _ _ Hwf) as [E|Ha].
  { exists np. unfold live. rewrite E. simpl. split_and!; [done|lia| |by left]. intros v Hv. by apply elem_of_nil in Hv. }
  assert (forall l j np, drop j (ptr a) = l -> exists np', rehash_max a (seq j (length l)) np = Some np' /\
    np <= np' /\ (forall v, v ∈ filter (is_live a) l -> v <= np') /\ (np' = np \/ np' = 0 \/ np' ∈ filter (is_live a) l)) as H.
  { clear np. induction l as [|x l IH]; intros j np Hd.
    { exists np. split_and!; [done|lia| |by left]. intros v Hv. by apply elem_of_nil in Hv. }
    assert (ptr a !! j = Some x) as Hx by (by rewrite <- (Nat.add_0_r j), <- lookup_drop, Hd).
    assert (drop (S j) (ptr a) = l) as Hd' by (by rewrite <- Nat.add_1_r, <- drop_drop, Hd).
    cbn [length seq rehash_max]. rewrite (intref_eq a _ x) by (done || by rewrite Nat2Z.id). cbn [mbind option_bind].
    rewrite filter_cons. destruct (decide (is_live a x)) as [Hl|Hl].
    - destruct (IH (S j) (if np <? x then x else np) Hd') as (np' & -> & H1 & H2 & H3). exists np'. split; [done|].
      destruct (Z.ltb_spec np x); (split; [lia|split]).
      + intros v [->|Hv]%elem_of_cons; [lia|by apply H2].
      + destruct H3 as [->|[->|H3]]; [right; right; by left|by right; left|right; right; by right].
      + intros v [->|Hv]%elem_of_cons; [lia|by apply H2].
      + destruct H3 as [->|[->|H3]]; [by left|by right; left|right; right; by right].
    - destruct (IH (S j) (if np <? 0 then 0 else np) Hd') as (np' & -> & H1 & H2 & H3). exists np'. split; [done|].
      destruct (Z.ltb_spec np 0); (split; [lia|split; [done|]]).
      + destruct H3 as [->|[->|H3]]; tauto.
      + destruct H3 as [->|[->|H3]]; tauto. }
  apply (H (ptr a) O). done.
Qed.

(** One insertion into a table of the invariant, whatever its size. *)
Lemma insert__step hash a val1 : wf hash a -> int_typed a -> 0 < val1 < tomb a -> val1 < 0x7FFFFFFE -> val1 ∉ live a ->
  (exists a', smallintset_insert_ a (hash (val1 - 1)) val1 = Some (true, a') /\ wf hash a' /\
     jl_typetagof a' = jl_typetagof a /\ mlength a' = mlength a /\ live a' ≡ₚ val1 :: live a) \/
  (smallintset_insert_ a (hash (val1 - 1)) val1 = Some (false, a) /\
   (mlength a <= 1 \/ Z.min (mlength a) (max_probe (mlength a) + 1) <= Z.of_nat (length (live a)))).
Proof.
  intros Hwf Ha Hv Hv' Hnew. destruct (Z.le_gt_cases (mlength a) 1) as [Hs|Hs].
  { right. unfold smallintset_insert_. destruct (Z.leb_spec (mlength a) 1); [|lia]. split; [done|by left]. }
  destruct (wf_len _ _ Hwf) as [E|[k Hk]]; [unfold mlength in Hs; rewrite E in Hs; simpl in Hs; lia|].
  assert (0 < k) as Hk0.
  { destruct Hk as [[Hk0 _] E]. destruct (Z.eq_dec k 0) as [->|]; [rewrite E in Hs; simpl in Hs; lia|lia]. }
  destruct (insert__spec a k Hk Ha (hash (val1 - 1)) val1 Hk0 Hv) as [(i & v & Hr & Hi & Hx & Hl & E)|[E Hf]].
  - left. exists (write a i val1). destruct (wf_take hash a Hwf i v val1) as [H1 H2]; [done..|].
    split_and!; [exact E|done|done|apply mlength_write|done].
  - right. split; [done|by right].
Qed.

Lemma live_filter a x : is_live a x <-> x <> 0 /\ x <> tomb a.
Proof. done. Qed.

Section Rehash.
Context (hash : Z -> Z) (a : jl_genericmemory_t) (Hwf : wf hash a).

Lemma live_pos v : v ∈ live a -> 0 < v < tomb a /\ v < 0x7FFFFFFE.
Proof using Hwf.
  intros Hv. pose proof (wf_small _ _ Hwf) as Hs. rewrite Forall_forall in Hs. specialize (Hs v Hv).
  apply list_elem_of_filter in Hv as [[H0 H1] Hv]. pose proof (wf_cells _ _ Hwf) as Hc. rewrite Forall_forall in Hc.
  specialize (Hc v Hv). lia.
Qed.

Lemma live_count : Z.of_nat (length (live a)) <= 0x7FFFFFFE.
Proof using Hwf.
  apply NoDup_bounded; [lia|apply Hwf|]. apply Forall_forall. intros v Hv%live_pos. lia.
Qed.

Lemma rehash_copy_spec l j newa : drop j (ptr a) = l -> wf hash newa -> int_typed newa ->
  (forall v, v ∈ live a -> v < tomb newa) -> NoDup (live newa ++ filter (is_live a) l) ->
  (exists newa', rehash_copy a hash (seq j (length l)) newa = Some (Some newa') /\ wf hash newa' /\
     jl_typetagof newa' = jl_typetagof newa /\ mlength newa' = mlength newa /\
     live newa' ≡ₚ live newa ++ filter (is_live a) l) \/
  (rehash_copy a hash (seq j (length l)) newa = Some None /\
   (mlength newa <= 1 \/ Z.min (mlength newa) (max_probe (mlength newa) + 1) <= Z.of_nat (length (live newa ++ filter (is_live a) l)))).
Proof using Hwf.
  revert j newa. induction l as [|x l IH]; intros j newa Hd Hn Ht Hlt Hnd.
  { left. exists newa. rewrite app_nil_r. by split_and!. }
  assert (ptr a !! j = Some x) as Hx by (by rewrite <- (Nat.add_0_r j), <- lookup_drop, Hd).
  assert (drop (S j) (ptr a) = l) as Hd' by (by rewrite <- Nat.add_1_r, <- drop_drop, Hd).
  assert (int_typed a) as Ha by (destruct (wf_any _ _ Hwf) as [E|]; [by rewrite E in Hx|done]).
  cbn [length seq rehash_copy]. rewrite (intref_eq a _ x) by (done || by rewrite Nat2Z.id). cbn [mbind option_bind].
  rewrite filter_cons in *. destruct (decide (is_live a x)) as [Hl|Hl]; [|by apply IH].
  assert (x ∈ live a) as Hxl by (apply list_elem_of_filter; split; [done|by apply list_elem_of_lookup_2 in Hx]).
  destruct (live_pos x Hxl) as [H1 H2]. destruct (Z.eqb_spec x 0); [lia|].
  assert (NoDup (x :: live newa ++ filter (is_live a) l)) as Hnd' by (by rewrite Permutation_middle).
  destruct (insert__step hash newa x Hn Ht) as [(newa' & -> & Hn' & Ety & El & Ep)|[-> Hf]].
  - specialize (Hlt x Hxl). lia.
  - done.
  - apply NoDup_cons in Hnd' as [Hnd' _]. intros Hin. apply Hnd', elem_of_app. by left.
  - assert (live newa' ++ filter (is_live a) l ≡ₚ live newa ++ x :: filter (is_live a) l) as Ep'
      by (rewrite Ep; simpl; apply Permutation_middle).
    assert (tomb newa' = tomb newa) as Et by (unfold tomb; by rewrite Ety).
    destruct (IH (S j) newa' Hd' Hn') as [(newa2 & -> & H3 & H4 & H5 & H6)|[-> Hf]].
    + unfold int_typed. by rewrite Ety.
    + by rewrite Et.
    + by rewrite Ep'.
    + left. exists newa2. split_and!; [done|done|congruence|lia|by rewrite <- Ep'].
    + right. split; [done|]. rewrite <- Ep', <- El. done.
  - right. split; [done|]. destruct Hf as [|Hf]; [by left|right].
    rewrite length_app. lia.
Qed.

Lemma rehash_loop_spec np : 0 <= np < 0x7FFFFFFE -> (forall v, v ∈ live a -> v <= np) ->
  forall fuel k, 0 <= k <= 37 -> 37 - k < Z.of_nat fuel ->
  exists a', exists k', rehash_loop fuel a hash np (2 ^ k) = Some a' /\ wf hash a' /\ int_typed a' /\
    k <= k' /\ pow2_length a' k' /\ live a' ≡ₚ live a /\ np + 1 < tomb a'.
Proof using Hwf.
  intros Hnp Hmax. induction fuel as [|fuel IH]; intros k Hk Hf; [lia|]. cbn [rehash_loop].
  destruct (alloc_spec hash (np + 1) (2 ^ k)) as (newa & -> & Hn & Ht & El & Ee & Hnt); [lia|right; by exists k|].
  cbn [mbind option_bind].
  destruct (rehash_copy_spec (ptr a) 0 newa) as [(a' & -> & H1 & H2 & H3 & H4)|[-> Hfail]].
  - done.
  - done.
  - done.
  - intros v Hv. specialize (Hmax v Hv). lia.
  - rewrite Ee. apply Hwf.
  - cbn [mbind option_bind]. exists a', k. rewrite Ee in H4. assert (tomb a' = tomb newa) as -> by (unfold tomb; by rewrite H2).
    split; [done|]. split; [done|]. split; [unfold int_typed; by rewrite H2|]. split; [lia|].
    split; [split; [done|congruence]|]. by split.
  - cbn [mbind option_bind]. rewrite Ee, El in Hfail. cbn [app] in Hfail. fold (live a) in Hfail. pose proof live_count.
    pose proof (max_probe_bound k Hk) as [_ Hmp].
    assert (k < 37).
    { destruct (Z.eq_dec k 37) as [->|]; [|lia]. rewrite Hmp in Hfail by lia. change (2 ^ 37) with 137438953472 in *.
      change (2 ^ 31) with 2147483648 in *. lia. }
    rewrite Z.shiftl_mul_pow2, <- Z.pow_add_r, uw_small by (try (unfold in_range; split; [apply Z.pow_nonneg|apply Z.pow_lt_mono_r]); lia).
    destruct (IH (k + 1)) as (a' & k' & H1 & H2 & H3 & H4 & H5); [lia|lia|]. exists a', k'. split_and!; try done; try apply H5; lia.
Qed.

(** Rehashing keeps the contents and leaves room for the next value. *)
Lemma rehash_spec newsz np : 0 <= np < 0x7FFFFFFE -> table_size newsz -> (newsz = 0 -> ptr a = []) ->
  exists a', smallintset_rehash a hash newsz np = Some a' /\ wf hash a' /\ int_typed a' /\
    newsz <= mlength a' /\ table_size (mlength a') /\ live a' ≡ₚ live a /\ np + 1 < tomb a' /\
    (forall v, v ∈ live a -> v + 1 < tomb a').
Proof using Hwf.
  intros Hnp Hsz H0. unfold smallintset_rehash.
  destruct (rehash_max_spec hash a np Hwf) as (np' & -> & Hle & Hmax & Hin). cbn [mbind option_bind].
  assert (0 <= np' < 0x7FFFFFFE) as Hnp'.
  { destruct Hin as [->|[->|Hin%live_pos]]; lia. }
  assert (forall a', np' + 1 < tomb a' -> np + 1 < tomb a' /\ (forall v, v ∈ live a -> v + 1 < tomb a')) as Hroom.
  { intros a' Ht. split; [lia|]. intros v Hv. specialize (Hmax v Hv). lia. }
  destruct Hsz as [->|(k & Hk & ->)].
  - specialize (H0 eq_refl). destruct (alloc_spec hash (np' + 1) 0) as (a' & E & H1 & H2 & H3 & H4 & H5); [lia|by left|].
    exists a'. cbn [rehash_loop]. rewrite E, H0. cbn. unfold live at 2. rewrite H0, H4, H3.
    repeat (split; [first [done|by left]|]). by apply Hroom.
  - destruct (rehash_loop_spec np' Hnp' Hmax 64 k) as (a' & k' & E & H1 & H2 & H3 & [H4 H4'] & H5 & H6); [lia|lia|].
    exists a'. split; [done|]. split; [done|]. split; [done|].
    split; [rewrite H4'; apply Z.pow_le_mono_r; lia|]. split; [right; by exists k'|]. split; [done|]. by apply Hroom.
Qed.
End Rehash.

(** ** [jl_smallintset_insert] *)

Lemma grow_size_spec k : 0 <= k < 60 -> exists k', grow_size (2 ^ k) = 2 ^ k' /\ k < k' <= Z.max 21 (k + 1).
Proof.
  intros Hk. unfold grow_size, HT_N_INLINE. change (Z.shiftl 1 19) with (2 ^ 19). change (Z.shiftl 1 8) with (2 ^ 8).
  assert (forall j, 0 <= j <= 2 -> u64 (Z.shiftl (2 ^ k) j) = 2 ^ (k + j)) as Hsh.
  { intros j Hj. rewrite Z.shiftl_mul_pow2, <- Z.pow_add_r by lia. apply uw_small. split; [apply Z.pow_nonneg; lia|].
    apply Z.pow_lt_mono_r; lia. }
  destruct (Z.ltb_spec (2 ^ k) 32) as [H|H].
  { exists 5. split; [done|]. split; [|lia]. apply (Z.pow_lt_mono_r_iff 2); [lia|lia|exact H]. }
  destruct (Z.leb_spec (2 ^ 19) (2 ^ k)) as [H1|H1]; cbn [orb].
  { exists (k + 1). rewrite Hsh by lia. split; [done|lia]. }
  destruct (Z.leb_spec (2 ^ k) (2 ^ 8)) as [H2|H2].
  { exists (k + 1). rewrite Hsh by lia. split; [done|lia]. }
  assert (k < 19) by (apply (Z.pow_lt_mono_r_iff 2); [lia..|exact H1]).
  exists (k + 2). rewrite Hsh by lia. split; [done|lia].
Qed.

Section Insert.
Context (hash : Z -> Z) (val : Z) (Hval : 0 <= val < 0x7FFFFFFD).

(** The new value is not in the table, and at most one more than its largest. *)
Definition next_value (a : jl_genericmemory_t) : Prop :=
  (val + 1 ∉ live a) /\ (val = 0 \/ exists v, v ∈ live a /\ val <= v).

Lemma next_value_perm a a' : live a' ≡ₚ live a -> next_value a -> next_value a'.
Proof using.
  intros E [H1 H2]. split; [by rewrite E|]. destruct H2 as [|(v & Hv & ?)]; [by left|right]. exists v. by rewrite E.
Qed.

Lemma insert_loop_spec fuel a : wf hash a -> int_typed a -> val + 1 < tomb a -> next_value a ->
  (mlength a = 0 /\ 39 <= Z.of_nat fuel \/ exists k, pow2_length a k /\ 37 - k < Z.of_nat fuel) ->
  exists a', insert_loop fuel a hash val = Some a' /\ wf hash a' /\ int_typed a' /\ live a' ≡ₚ (val + 1) :: live a.
Proof using Hval.
  revert a. induction fuel as [|fuel IH]; intros a Hwf Ha Ht Hnx Hf.
  { destruct Hf as [[_ ?]|(k & [? _] & ?)]; simpl in *; lia. }
  cbn [insert_loop]. rewrite uw_small by (unfold in_range; lia).
  destruct (insert__step hash a (val + 1) Hwf Ha) as [(a' & E & H1 & H2 & H3 & H4)|[E Hfail]]; [lia|lia|apply Hnx|..];
    replace (val + 1 - 1) with val in E by lia; rewrite E.
  { exists a'. split_and!; [done|done| |done]. unfold int_typed. by rewrite H2. }
  assert (exists k, grow_size (mlength a) = 2 ^ k /\ 0 <= k <= 37 /\ 37 - k < Z.of_nat fuel) as (k & -> & Hk & Hkf).
  { destruct Hf as [[-> ?]|(k & [Hk El] & ?)].
    - exists 5. split; [done|]. lia.
    - pose proof (live_count hash a Hwf). rewrite El in *. pose proof (max_probe_bound k Hk) as [_ Hmp].
      assert (k < 37).
      { destruct (Z.eq_dec k 37) as [->|]; [|lia]. rewrite Hmp in Hfail by lia. change (2 ^ 37) with 137438953472 in *.
        change (2 ^ 31) with 2147483648 in *. lia. }
      destruct (grow_size_spec k) as (k' & -> & ?); [lia|]. exists k'. split; [done|lia]. }
  destruct (rehash_spec hash a Hwf (2 ^ k) 0) as (a' & -> & H1 & H2 & H3 & H4 & H5 & H6 & H7); [lia|right; by exists k| |].
  { intros E0. pose proof (pow2_pos k). lia. }
  cbn [mbind option_bind]. destruct (IH a') as (a2 & -> & ? & ? & Ep); [done|done| |by apply (next_value_perm a)| |].
  - destruct Hnx as [_ [->|(v & Hv & Hle)]]; [lia|]. specialize (H7 v Hv). lia.
  - right. pose proof (pow2_pos k). destruct H4 as [?|(k' & Hk' & E')]; [lia|]. exists k'. split; [by split|].
    assert (k <= k') by (apply (Z.pow_le_mono_r_iff 2); lia). lia.
  - exists a2. split_and!; [done|done|done|]. by rewrite Ep, H5.
Qed.

Lemma mlength_size a : wf hash a -> table_size (mlength a).
Proof using. intros Hwf. destruct (wf_len _ _ Hwf) as [E|(k & ? & ?)]; [left; unfold mlength; by rewrite E|right; by exists k]. Qed.

Lemma insert_spec a : wf hash a -> next_value a ->
  exists a', jl_smallintset_insert a hash val = Some a' /\ wf hash a' /\ int_typed a' /\ live a' ≡ₚ (val + 1) :: live a.
Proof using Hval.
  intros Hwf Hnx. unfold jl_smallintset_insert. rewrite uw_small by (unfold in_range; lia).
  pose proof (mlength_size a Hwf) as Hsz.
  assert (forall a, table_size (mlength a) -> mlength a = 0 /\ 39 <= Z.of_nat 64 \/ exists k, pow2_length a k /\ 37 - k < Z.of_nat 64) as Hfuel.
  { intros b [?|(k & ? & ?)]; [left; lia|right]. exists k. split; [by split|lia]. }
  destruct (Z.leb_spec (tomb a) (val + 1)) as [H|H].
  - destruct (rehash_spec hash a Hwf (mlength a) (val + 1)) as (a' & -> & H1 & H2 & H3 & H4 & H5 & H6 & H7); [lia|done| |].
    { unfold mlength. destruct (ptr a); [done|simpl; lia]. }
    cbn [mbind option_bind]. destruct (insert_loop_spec 64 a') as (a2 & -> & ? & ? & Ep); [done|done|lia|by apply (next_value_perm a)|by apply Hfuel|].
    exists a2. split_and!; [done|done|done|]. by rewrite Ep, H5.
  - cbn [mbind option_bind]. apply insert_loop_spec; [done| |done|done|by apply Hfuel].
    unfold int_typed. unfold tomb in H. intros E. rewrite E in H. lia.
Qed.
End Insert.

(** ** [jl_smallintset_lookup] *)

Section Lookup.
Context (hash : Z -> Z) (a : jl_genericmemory_t) (Hwf : wf hash a) (eq : Z -> bool) (hv : Z).

Lemma lookup_visit_eq i x u : int_typed a -> ptr a !! Z.to_nat i = Some x ->
  lookup_visit a eq i u = Some (if x =? 0 then inr None
    else if decide (is_live a x) then (if eq (x - 1) then inr (Some (i, x)) else inl tt) else inl tt).
Proof using Hwf.
  intros Ha Hx. unfold lookup_visit. rewrite (intref_acquire_eq a i x) by done. cbn [mbind option_bind].
  pose proof (tomb_bound a Ha). pose proof (wf_cells _ _ Hwf) as Hc.
  assert (0 <= x <= tomb a) as Hx' by (exact (Forall_lookup_1 _ _ _ _ Hc Hx)).
  unfold SIZE_MAX. destruct (Z.eqb_spec x (tomb a)) as [E|E].
  - destruct (Z.eqb_spec x 0); [lia|]. rewrite decide_False by (by intros []).
    destruct (Z.eqb_spec (2 ^ 64 - 1) 0); [lia|]. by rewrite Z.eqb_refl.
  - destruct (Z.eqb_spec x 0); [done|]. rewrite decide_True by done.
    destruct (Z.eqb_spec x (2 ^ 64 - 1)); [lia|]. by destruct (eq (x - 1)).
Qed.

(** A found index is live and satisfies [eq]; a live one that the hash leads to
    and that satisfies [eq] is not missed. *)
Lemma lookup_spec pop :
  (exists i x, 0 <= i /\ ptr a !! Z.to_nat i = Some x /\ is_live a x /\ eq (x - 1) = true /\ int_typed a /\
     jl_smallintset_lookup a eq hv pop = Some (x - 1, if pop then write a i (tomb a) else a)) \/
  (jl_smallintset_lookup a eq hv pop = Some (-1, a) /\
   forall v, v ∈ live a -> hash (v - 1) = hv -> eq (v - 1) = false).
Proof using Hwf.
  unfold jl_smallintset_lookup. destruct (Z.eqb_spec (mlength a) 0) as [H0|H0].
  { right. split; [done|]. intros v Hv. unfold live in Hv. unfold mlength in H0. destruct (ptr a); [by apply elem_of_nil in Hv|simpl in *; lia]. }
  assert (ptr a <> []) as Hne by (intros E; unfold mlength in H0; by rewrite E in H0).
  destruct (wf_any _ _ Hwf) as [|Ha]; [done|]. destruct (wf_len _ _ Hwf) as [|[k Hk]]; [done|].
  rewrite (table_probe a k Hk).
  destruct (scan_first (lookup_visit a eq) (home_slots a hv) tt) as [[-> Hall]|(pre & i & post & r & E & Hpre & Hi & ->)].
  - apply Forall_forall. intros i [_ [x Hx]]%(home_slots_lookup a k Hk). rewrite (lookup_visit_eq i x) by done.
    destruct (x =? 0), (decide (is_live a x)), (eq (x - 1)); eauto.
  - right. split; [done|]. intros v Hv Hh. apply list_elem_of_filter in Hv as [Hl [i Hi]%list_elem_of_lookup].
    destruct (wf_reach _ _ Hwf (Z.of_nat i) v) as (pre & post & E & _); [by rewrite Nat2Z.id|lia|done|].
    rewrite Hh in E. rewrite E in Hall. apply Forall_app in Hall as [_ Hall]. apply Forall_cons in Hall as [Hall _].
    rewrite (lookup_visit_eq _ v) in Hall by (done || by rewrite Nat2Z.id).
    destruct (Z.eqb_spec v 0); [done|]. rewrite decide_True in Hall by done. by destruct (eq (v - 1)).
  - destruct (home_slots_lookup a k Hk hv i) as [Hi0 [x Hx]]; [rewrite E; apply elem_of_app; right; by left|].
    rewrite (lookup_visit_eq i x) in Hi by done. destruct (Z.eqb_spec x 0) as [Ex0|Hx0].
    + injection Hi as <-. right. split; [done|]. intros v Hv Hh.
      apply list_elem_of_filter in Hv as [Hl [j Hj]%list_elem_of_lookup].
      destruct (wf_reach _ _ Hwf (Z.of_nat j) v) as (pre' & post' & E' & Hu); [by rewrite Nat2Z.id|lia|done|].
      rewrite Hh, E in E'. rewrite Forall_forall in Hpre, Hu.
      destruct (app_cons_cases _ _ _ _ _ _ E') as [Hin|[->|Hin]].
      * specialize (Hpre _ Hin). cbv beta in Hpre. rewrite (lookup_visit_eq _ v) in Hpre by (done || by rewrite Nat2Z.id).
        destruct Hl. destruct (Z.eqb_spec v 0); [done|]. rewrite decide_True in Hpre by done. by destruct (eq (v - 1)).
      * rewrite Nat2Z.id, Hj in Hx. injection Hx as Hx. rewrite Hx, Ex0 in Hl. by destruct Hl.
      * destruct (Hu _ Hin) as (y & Hy & Hy0). congruence.
    + destruct (decide (is_live a x)) as [Hl|]; [|done]. destruct (eq (x - 1)) eqn:Heq; [|done]. injection Hi as <-.
      left. exists i, x. do 5 (split; [done|]). cbn [mbind option_bind]. destruct pop; [|done].
      rewrite release_tombstone by (done || by exists x). done.
Qed.
End Lookup.

(** ** Sets of small integers: the properties  *)

(** C31: [jl_smallintset_insert] ends and adds the value, whatever the hash
    function: growth and rehashing lose nothing, the cells stay wide enough,
    every value can still be reached from its hash, and all is read and written
    inside the table. The new value is at most one more than the largest one in
    the table (values are appended). *)
Theorem smallintset_insert_correct hash a val : wf hash a -> 0 <= val < 0x7FFFFFFD -> next_value val a ->
  exists a', jl_smallintset_insert a hash val = Some a' /\ wf hash a' /\ live a' ≡ₚ (val + 1) :: live a.
Proof.
  intros Hwf Hval Hnx. destruct (insert_spec hash val Hval a Hwf Hnx) as (a' & ? & ? & _ & ?). by exists a'.
Qed.

(** The empty table that a cache starts from. *)
Lemma wf_empty hash : wf hash (mem jl_memory_any_type []).
Proof.
  split; [by left|by left|constructor|constructor|constructor|]. intros i v Hv. simpl in Hv. by rewrite lookup_nil in Hv.
Qed.

Lemma smallintset_insert_correct_witness :
  wf (fun i => i * 7) (mem jl_memory_any_type []) /\ exists a',
    jl_smallintset_insert (mem jl_memory_any_type []) (fun i => i * 7) 0 = Some a' /\ wf (fun i => i * 7) a' /\ live a' ≡ₚ [1].
Proof.
  split; [apply wf_empty|].
  apply (smallintset_insert_correct (fun i => i * 7) (mem jl_memory_any_type []) 0);
    [apply wf_empty|lia|split; [intros H; by apply elem_of_nil in H|by left]].
Defined.

(** C32: [jl_smallintset_lookup] returns a value of the table that [eq] accepts,
    or -1 when [eq] rejects every value with the hash of the key; when it pops
    the value it leaves a tombstone that hides no other. *)
Theorem smallintset_lookup_correct hash a eq hv pop : wf hash a ->
  exists r a', jl_smallintset_lookup a eq hv pop = Some (r, a') /\ wf hash a' /\
    ((r = -1 /\ a' = a /\ forall v, v ∈ live a -> hash (v - 1) = hv -> eq (v - 1) = false) \/
     (0 <= r /\ eq r = true /\ if pop then live a ≡ₚ (r + 1) :: live a' else a' = a /\ r + 1 ∈ live a)).
Proof.
  intros Hwf. destruct (lookup_spec hash a Hwf eq hv pop) as [(i & x & Hi & Hx & Hl & He & Ha & ->)|[-> Hno]].
  - assert (x ∈ live a) as Hin by (apply list_elem_of_filter; split; [done|by apply list_elem_of_lookup_2 in Hx]).
    pose proof (live_pos hash a Hwf x Hin). destruct (wf_bury hash a i x Hwf Hi Hx Hl Ha) as [H1 H2].
    exists (x - 1), (if pop then write a i (tomb a) else a). split; [done|]. split; [by destruct pop|]. right.
    split; [lia|]. split; [done|]. replace (x - 1 + 1) with x by lia. by destruct pop.
  - exists (-1), a. split; [done|]. split; [done|]. by left.
Qed.

Definition lookup_example : jl_genericmemory_t := mem jl_memory_uint8_type [1; 0].
Lemma lookup_example_wf : wf (fun _ => 0) lookup_example.
Proof.
  assert (live lookup_example = [1]) as E by (vm_compute; reflexivity). split.
  - right. done.
  - right. exists 1. split; [lia|done].
  - change (Forall (fun v => 0 <= v <= 0xFF) [1; 0]). repeat (apply Forall_cons_2; [lia|]). apply Forall_nil_2.
  - rewrite E. apply Forall_cons_2; [lia|apply Forall_nil_2].
  - rewrite E. apply NoDup_singleton.
  - intros i v Hv Hi Hl. simpl in Hv. destruct (Z.to_nat i) as [|[|n]] eqn:Ei; [|injection Hv as <-; by destruct Hl|done].
    assert (i = 0) as -> by lia. exists [], [1]. split; [vm_compute; reflexivity|constructor].
Qed.
Lemma smallintset_lookup_correct_witness : wf (fun _ => 0) lookup_example /\
  exists r a', jl_smallintset_lookup lookup_example (fun i => i =? 0) 0 true = Some (r, a') /\ wf (fun _ => 0) a' /\
    ((r = -1 /\ a' = lookup_example /\ forall v, v ∈ live lookup_example -> 0 = 0 -> (v - 1 =? 0) = false) \/
     (0 <= r /\ (r =? 0) = true /\ live lookup_example ≡ₚ (r + 1) :: live a')).
Proof.
  split; [apply lookup_example_wf|].
  exact (smallintset_lookup_correct (fun _ => 0) lookup_example (fun i => i =? 0) 0 true lookup_example_wf).
Defined.

(** a value that skips ahead can be lost: the growth loop rehashes with
    [np = 0], so the new table's cells are as wide as the old values need, and
    the new one is truncated. Here 17 values share a hash in a full 8-bit table;
    inserting 300 stores 301 mod 256 = 45, the value 44. *)
Lemma smallintset_insert_truncates :
  let a := mem jl_memory_uint8_type (map (fun i => Z.of_nat i + 1) (seq 0 17) ++ replicate 15 0) in
  live a = map (fun i => Z.of_nat i + 1) (seq 0 17) /\
  exists a', jl_smallintset_insert a (fun _ => 0) 300 = Some a' /\ jl_typetagof a' = jl_memory_uint8_type /\
    live a' = map (fun i => Z.of_nat i + 1) (seq 0 17) ++ [45].
Proof.
  cbv zeta. split; [vm_compute; reflexivity|]. eexists. split; [vm_compute; reflexivity|]. vm_compute. by split.
Qed.

(** ** Insertion-ordered dictionaries *)
Section OrderedDict.
Context {V : Type} (empty_any : V).

(** The first slot of entry [i] of stride [s]. *)
Definition entry_slot (l : list (option V)) (s i : nat) : option (option V) := l !! (1 + s * i)%nat.

(** [n] entries, and then none. *)
Definition entries (l : list (option V)) (s n : nat) : Prop :=
  (forall i, (i < n)%nat -> exists x, entry_slot l s i = Some (Some x)) /\
  (forall i x, (n <= i)%nat -> (s * (i + 1) < length l)%nat -> entry_slot l s i = Some x -> x = None).

Lemma reserve_back_spec (l : list (option V)) s n idx : (1 <= s)%nat -> entries l s n -> (n <= idx)%nat -> (s * idx < length l)%nat \/ idx = 0%nat ->
  reserve_back l s idx = Some n.
Proof.
  intros Hs [H1 H2]. induction idx as [|idx IH]; intros Hn Hl; [simpl; f_equal; lia|].
  destruct Hl as [Hl|]; [|lia]. cbn [reserve_back]. fold (entry_slot l s idx).
  destruct (decide (n = S idx)) as [->|].
  - destruct (H1 idx ltac:(lia)) as (x & ->). done.
  - assert (is_Some (entry_slot l s idx)) as [x Hx] by (apply lookup_lt_is_Some_2; nia).
    rewrite Hx. cbn [mbind option_bind]. rewrite (H2 idx x) by (done || nia). apply IH; [lia|]. left. nia.
Qed.

Lemma reserve_copy_spec (l : list (option V)) : forall i na, (i + length l <= length na)%nat -> drop i na = replicate (length na - i) None ->
  reserve_copy l i na = take i na ++ l ++ replicate (length na - i - length l) None.
Proof.
  induction l as [|x l IH]; intros i na Hl Hd.
  - simpl. rewrite Nat.sub_0_r, <- Hd. symmetry. apply take_drop.
  - simpl in Hl. cbn [reserve_copy].
    assert (na !! i = Some None) as Hi.
    { rewrite <- (Nat.add_0_r i), <- lookup_drop, Hd. apply lookup_replicate. split; [done|lia]. }
    assert (match x with None => na | Some _ => <[i := x]> na end = <[i := x]> na) as ->.
    { destruct x; [done|]. by rewrite list_insert_id. }
    rewrite IH; rewrite length_insert; [|lia|].
    + rewrite (take_S_r (<[i := x]> na) i x) by (apply list_lookup_insert_eq; lia). rewrite (take_insert_ge na i i x) by lia.
      rewrite <- app_assoc. simpl. by replace (length na - i - S (length l))%nat with (length na - S i - length l)%nat by lia.
    + rewrite drop_insert_lt by lia. rewrite <- Nat.add_1_r, <- drop_drop, Hd.
      replace (length na - i)%nat with (S (length na - (i + 1)))%nat by lia. done.
Qed.

(** The copied memory has the old slots, then [NULL]. *)
Lemma reserve_copy_all (l : list (option V)) m : (length l <= m)%nat ->
  reserve_copy l 0 (replicate m None) = l ++ replicate (m - length l) None.
Proof.
  intros Hm. rewrite (reserve_copy_spec l 0) by (rewrite length_replicate, ?Nat.sub_0_r; done || lia).
  by rewrite length_replicate, Nat.sub_0_r.
Qed.

Definition header (a : anymem V) : list (option V) :=
  match a with EmptyAny => [Some empty_any] | AnyMem l => l end.

Lemma reserve_correct (a : anymem V) s n : (1 <= s)%nat -> entries (any_items a) s n ->
  (n = 0 \/ s * n < length (any_items a))%nat ->
  exists a', jl_ordereddict_reserve empty_any a s = Some (n, a') /\ (1 + s * (n + 1) <= length (any_items a'))%nat /\
    (a' = a \/ exists m, any_items a' = header a ++ replicate m None).
Proof.
  intros Hs He Hn. unfold jl_ordereddict_reserve. set (l := any_items a) in *.
  assert (reserve_back l s (if (length l <? 1 + s)%nat then 0%nat else ((length l - 1) / s)%nat) = Some n) as ->.
  { apply reserve_back_spec; [done|done|..]; destruct (Nat.ltb_spec (length l) (1 + s)).
    - destruct Hn; [lia|]. destruct n; [lia|nia].
    - destruct Hn; [lia|]. apply Nat.div_le_lower_bound; lia.
    - by right.
    - left. pose proof (Nat.Div0.mul_div_le (length l - 1) s). lia. }
  cbn [mbind option_bind]. destruct (Nat.ltb_spec (length l) (1 + s * (n + 1))) as [Hlt|].
  2:{ exists a. split; [done|]. split; [done|by left]. }
  eexists. split; [done|]. set (m0 := if (length l <? 8)%nat then 8%nat else (length l * 3 / 2)%nat).
  assert (exists m, m = (if (m0 <? 1 + s * (n + 1))%nat then (1 + s * (n + 1))%nat else m0) /\ (1 + s * (n + 1) <= m)%nat) as (m & <- & Hm)
    by (eexists; split; [done|]; destruct (Nat.ltb_spec m0 (1 + s * (n + 1))); lia).
  destruct a as [|l']; unfold l in *; simpl in *.
  - split; [by rewrite length_insert, length_replicate|]. right. exists (m - 1)%nat.
    destruct m; [lia|]. simpl. by rewrite Nat.sub_0_r.
  - rewrite reserve_copy_all by lia. split; [rewrite length_app, length_replicate; lia|]. right. by eexists.
Qed.
End OrderedDict.

(** [jl_ordereddict_reserve] gives the number of entries as the new entry's
    index, and a memory with room for it that keeps every slot; a dictionary
    without memory gets one whose slot 0 holds the empty index. *)
Theorem jl_ordereddict_reserve_correct (V : Type) (empty_any : V) (a : anymem V) stride n :
  (1 <= stride)%nat -> entries (any_items a) stride n -> (n = 0 \/ stride * n < length (any_items a))%nat ->
  exists a', jl_ordereddict_reserve empty_any a stride = Some (n, a') /\
    (1 + stride * (n + 1) <= length (any_items a'))%nat /\
    (a' = a \/ exists m, any_items a' = header empty_any a ++ replicate m None).
Proof. apply reserve_correct. Qed.
Lemma jl_ordereddict_reserve_correct_witness :
  entries (any_items (EmptyAny (V := nat))) 2 0 /\ exists a', jl_ordereddict_reserve 7%nat EmptyAny 2 = Some (0%nat, a') /\
    (1 + 2 * (0 + 1) <= length (any_items a'))%nat /\ (a' = EmptyAny \/ exists m, any_items a' = [Some 7%nat] ++ replicate m None).
Proof.
  assert (entries (any_items (EmptyAny (V := nat))) 2 0) as H
    by (split; [intros i Hi; lia|intros i x _ Hl; simpl in Hl; lia]).
  split; [exact H|]. apply (jl_ordereddict_reserve_correct nat 7%nat EmptyAny 2 0); [lia|exact H|by left].
Defined.
