(* ===== verification/ObjectId.v ===== *)
(** * The interface of object identity

    The tables keyed by identity use two functions of the object model
    ([jl_egal] and [jl_object_id]) and only rely on their contract: [jl_egal] is
    an equivalence, and objects that are [===] have the same id. *)
From S2P Require Import Prelude.

Class ObjectId (V : Type) := {
  jl_egal : V -> V -> bool;
  jl_object_id : V -> Z;
  egal_refl x : jl_egal x x = true;
  egal_sym x y : jl_egal x y = true -> jl_egal y x = true;
  egal_trans x y z : jl_egal x y = true -> jl_egal y z = true -> jl_egal x z = true;
  egal_id x y : jl_egal x y = true -> jl_object_id x = jl_object_id y;
}.

(** Integers compared by value: an implementation for the examples. *)
#[export] Instance Z_object_id : ObjectId Z.
Proof.
  refine (Build_ObjectId Z Z.eqb (fun x => x * 7) _ _ _ _).
  - apply Z.eqb_refl.
  - intros x y ->%Z.eqb_eq. apply Z.eqb_refl.
  - by intros x y z ->%Z.eqb_eq.
  - by intros x y ->%Z.eqb_eq.
Defined.

Section Egal.
Context `{ObjectId V}.

Lemma egal_cong_l x y z : jl_egal x y = true -> jl_egal x z = jl_egal y z.
Proof.
  intros E. destruct (jl_egal x z) eqn:E1; symmetry.
  - apply (egal_trans y x z); [by apply egal_sym|done].
  - apply not_true_iff_false. intros E2. rewrite (egal_trans x y z) in E1; done.
Qed.

Lemma egal_comm x y : jl_egal x y = jl_egal y x.
Proof. apply eq_bool_prop_intro. split; intros E%Is_true_true; apply Is_true_true; by apply egal_sym. Qed.
End Egal.
