(* ===== verification/IdSet.v ===== *)
(** * Identity sets: src/src/idset.c

    [keys] is the list of slots of a [Memory{Any}] ([None] is [NULL]); [idxs] is
    the index of [SmallIntSet] over it, the hash of an index being the object id
    of its key. *)
From S2P Require Import Prelude SmallIntSet ObjectId.

Section IdSet.
Context `{ObjectId V}.
Implicit Types (keys : list (option V)) (idxs : jl_genericmemory_t).

Definition idset_hash keys (idx : Z) : Z :=
  if Z.of_nat (length keys) <=? idx then 0
  else match keys !! Z.to_nat idx with Some (Some x) => jl_object_id x | _ => 0 end.

Definition idset_eq keys (y : V) (idx : Z) : bool :=
  if Z.of_nat (length keys) <=? idx then false
  else match keys !! Z.to_nat idx with Some (Some x) => jl_egal x y | _ => false end.

Definition jl_idset_rehash keys idxs (newsz : Z) : option jl_genericmemory_t :=
  if newsz =? 0 then Some idxs
  else let newsz := next_power_of_two newsz in smallintset_rehash idxs (idset_hash keys) newsz 0.

Definition jl_idset_peek_bp keys idxs (key : V) : option Z :=
  let hv := jl_object_id key in
  match jl_smallintset_lookup idxs (idset_eq keys key) hv false with Some (idx, _) => Some idx | None => None end.

(** [Some None] is [NULL]. *)
Definition jl_idset_get keys idxs (key : V) : option (option V) :=
  idx ← jl_idset_peek_bp keys idxs key;
  if idx =? -1 then Some None else keys !! Z.to_nat idx.

(** The loop over the indices [inds], with [j] and [rehash]. *)
Fixpoint compact_loop keys (inds : list nat) (j : nat) (rehash : bool) : option (list (option V) * nat * bool) :=
  match inds with
  | [] => Some (keys, j, rehash)
  | i :: inds =>
      k ← keys !! i;
      match k with
      | None => compact_loop keys inds j rehash
      | Some _ =>
          if (i =? j)%nat then compact_loop keys inds (S j) rehash
          else compact_loop (<[i := None]> (<[j := k]> keys)) inds (S j) true
      end
  end.

Definition idset_compact keys : option (list (option V) * Z) :=
  r ← compact_loop keys (seq 0 (length keys)) 0 false;
  let '(keys, j, rehash) := (r : list (option V) * nat * bool) in
  Some (keys, if rehash then - Z.of_nat j else Z.of_nat j).

(** [while (i > 0 && keys[i - 1] == NULL) i--;] *)
Fixpoint last_used keys (i : nat) : option nat :=
  match i with
  | O => Some O
  | S i' => x ← keys !! i'; match x with None => last_used keys i' | Some _ => Some i end
  end.

(** The new [keys] and [*newidx]. *)
Definition jl_idset_put_key keys (key : V) : option (list (option V) * Z) :=
  let l := length keys in
  i ← last_used keys l;
  let newidx := Z.of_nat i in
  if (i =? l)%nat then
    r ← idset_compact keys;
    let '(keys, i) := (r : list (option V) * Z) in
    let '(newidx, i) := if i <? 0 then (i - 1, - i) else (newidx, i) in
    let i := Z.to_nat i in
    let keys :=
      if (l / 3 * 2 <=? i)%nat then
        let nl := if (l <? 4)%nat then 4%nat else (l * 3 / 2)%nat in
        take i keys ++ replicate (nl - i) None
      else keys in
    x ← keys !! i;
    match x with None => Some (<[i := Some key]> keys, newidx) | Some _ => None end
  else
    x ← keys !! i;
    match x with None => Some (<[i := Some key]> keys, newidx) | Some _ => None end.

Fixpoint put_idx_loop keys (inds : list nat) idxs : option jl_genericmemory_t :=
  match inds with
  | [] => Some idxs
  | i :: inds =>
      k ← keys !! i;
      match k with
      | None => put_idx_loop keys inds idxs
      | Some _ =>
          idxs ← jl_smallintset_insert idxs (idset_hash keys) (Z.of_nat i);
          put_idx_loop keys inds idxs
      end
  end.

Definition jl_idset_put_idx keys idxs (idx : Z) : option jl_genericmemory_t :=
  if idx <? 0 then
    let idxs := smallintset_empty idxs in
    put_idx_loop keys (seq 0 (Z.to_nat (- idx))) idxs
  else jl_smallintset_insert idxs (idset_hash keys) idx.

Definition jl_idset_pop keys idxs (key : V) : option (Z * list (option V) * jl_genericmemory_t) :=
  let hv := jl_object_id key in
  r ← jl_smallintset_lookup idxs (idset_eq keys key) hv true;
  let '(idx, idxs) := (r : Z * jl_genericmemory_t) in
  if idx =? -1 then Some (idx, keys, idxs)
  else _ ← keys !! Z.to_nat idx; Some (idx, <[Z.to_nat idx := None]> keys, idxs).
End IdSet.
