(* ===== verification/IdSetFacts.v ===== *)
(** * Identity sets: the invariant of [keys] and [idxs], and the operations *)
From S2P Require Import Prelude SmallIntSet SmallIntSetCorrect ObjectId IdSet.

Lemma insert_middle {A} (l1 l2 : list A) x y i : i = length l1 -> <[i := y]> (l1 ++ x :: l2) = l1 ++ y :: l2.
Proof. intros ->. rewrite insert_app_r_alt by done. by rewrite Nat.sub_diag. Qed.

(** ** The index under a change of the keys *)

Lemma wf_ext hash hash' a : (forall v, v ∈ live a -> hash (v - 1) = hash' (v - 1)) -> wf hash a -> wf hash' a.
Proof.
  intros E [H1 H2 H3 H4 H5 H6]. split; try done. intros i v Hi H0 Hl. rewrite <- E; [by apply H6|].
  apply list_elem_of_filter. split; [done|by apply list_elem_of_lookup_2 in Hi].
Qed.

Lemma wf_clear hash hash' a : wf hash a -> wf hash' (smallintset_empty a) /\ live (smallintset_empty a) = [].
Proof.
  intros Hwf. unfold smallintset_empty. destruct (decide (jl_typetagof a = jl_memory_any_type)) as [E|E].
  - rewrite E. destruct (wf_any _ _ Hwf) as [Ep|]; [|done]. unfold live. rewrite Ep. split; [|done].
    apply (wf_ext hash); [|done]. unfold live. rewrite Ep. intros v Hv. by apply elem_of_nil in Hv.
  - assert (match jl_typetagof a with jl_memory_any_type => a | ty => mem ty (replicate (length (ptr a)) 0) end =
            mem (jl_typetagof a) (replicate (length (ptr a)) 0)) as -> by (by destruct (jl_typetagof a)).
    set (b := mem _ _). assert (mlength b = mlength a) as El by (unfold mlength, b; simpl; by rewrite length_replicate).
    assert (live b = []) as Eb by (apply filter_none; intros x ->%elem_of_replicate_inv; by intros []).
    split; [|done]. split.
    + by right.
    + destruct (wf_len _ _ Hwf) as [Ep|(k & Hk & Ek)]; [left; unfold b; simpl; by rewrite Ep|right]. exists k. split; [done|lia].
    + apply Forall_replicate. pose proof (tomb_bound a E). unfold b, tomb in *. simpl. lia.
    + rewrite Eb. constructor.
    + rewrite Eb. constructor.
    + intros i v Hv _ []. simpl in Hv. by apply lookup_replicate in Hv as [-> _].
Qed.

Section IdSet.
Context `{ObjectId V}.
Implicit Types (keys : list (option V)) (idxs : jl_genericmemory_t).

(** The set: the keys that are not [NULL]. *)
Definition elements keys : list V := omap (fun x => x) keys.

Record idset_inv keys idxs : Prop := {
  inv_wf : wf (idset_hash keys) idxs;
  inv_index i : Z.of_nat i + 1 ∈ live idxs <-> exists k, keys !! i = Some (Some k);
  inv_distinct i j x y : keys !! i = Some (Some x) -> keys !! j = Some (Some y) -> jl_egal x y = true -> i = j;
}.

Lemma elem_of_elements keys x : x ∈ elements keys <-> exists i, keys !! i = Some (Some x).
Proof using.
  unfold elements. rewrite list_elem_of_omap. split.
  - intros (o & Ho & ->). by apply list_elem_of_lookup in Ho.
  - intros [i Hi]. exists (Some x). split; [by apply list_elem_of_lookup_2 in Hi|done].
Qed.

Lemma hash_at keys i x : keys !! i = Some (Some x) -> idset_hash keys (Z.of_nat i) = jl_object_id x.
Proof using.
  intros Hi. unfold idset_hash. pose proof (lookup_lt_Some _ _ _ Hi). destruct (Z.leb_spec (Z.of_nat (length keys)) (Z.of_nat i)); [lia|].
  by rewrite Nat2Z.id, Hi.
Qed.

Lemma eq_at keys i y : idset_eq keys y (Z.of_nat i) = match keys !! i with Some (Some x) => jl_egal x y | _ => false end.
Proof using.
  unfold idset_eq. destruct (Z.leb_spec (Z.of_nat (length keys)) (Z.of_nat i)); [|by rewrite Nat2Z.id].
  by rewrite lookup_ge_None_2 by lia.
Qed.

(** A live cell is the position of a key. *)
Lemma inv_live keys idxs v : idset_inv keys idxs -> v ∈ live idxs -> exists i x, v = Z.of_nat i + 1 /\ keys !! i = Some (Some x).
Proof using.
  intros [Hw Hi _] Hv. pose proof (live_pos _ _ Hw v Hv). exists (Z.to_nat (v - 1)).
  destruct (proj1 (Hi (Z.to_nat (v - 1)))) as [x Hx]; [by replace (Z.of_nat (Z.to_nat (v - 1)) + 1) with v by lia|].
  exists x. split; [lia|done].
Qed.

(** ** Lookup *)

Lemma idset_lookup keys idxs key pop : idset_inv keys idxs ->
  (exists i x c, keys !! i = Some (Some x) /\ jl_egal x key = true /\
     0 <= c /\ ptr idxs !! Z.to_nat c = Some (Z.of_nat i + 1) /\ is_live idxs (Z.of_nat i + 1) /\ int_typed idxs /\
     jl_smallintset_lookup idxs (idset_eq keys key) (jl_object_id key) pop =
       Some (Z.of_nat i, if pop then write idxs c (tomb idxs) else idxs)) \/
  ((forall x, x ∈ elements keys -> jl_egal x key = false) /\
   jl_smallintset_lookup idxs (idset_eq keys key) (jl_object_id key) pop = Some (-1, idxs)).
Proof using.
  intros Hinv. destruct (lookup_spec _ _ (inv_wf _ _ Hinv) (idset_eq keys key) (jl_object_id key) pop)
    as [(c & v & Hc & Hv & Hl & He & Ha & ->)|[-> Hno]].
  - left. assert (v ∈ live idxs) as Hin by (apply list_elem_of_filter; split; [done|by apply list_elem_of_lookup_2 in Hv]).
    destruct (inv_live _ _ _ Hinv Hin) as (i & x & -> & Hx). rewrite Z.add_simpl_r in He.
    rewrite eq_at, Hx in He. exists i, x, c. do 6 (split; [done|]). by rewrite Z.add_simpl_r.
  - right. split; [|done]. intros x [i Hi]%elem_of_elements. apply not_true_iff_false. intros E.
    specialize (Hno (Z.of_nat i + 1)). rewrite Z.add_simpl_r, eq_at, Hi in Hno. rewrite Hno in E; [done| |].
    + apply (inv_index _ _ Hinv). by exists x.
    + rewrite (hash_at _ _ _ Hi). by apply egal_id.
Qed.

(** ** Insertion *)

Lemma last_used_spec keys n : (n <= length keys)%nat -> exists i, last_used keys n = Some i /\ (i <= n)%nat /\
  (forall j, (i <= j < n)%nat -> keys !! j = Some None) /\ (i = 0%nat \/ exists x, keys !! (i - 1)%nat = Some (Some x)).
Proof using.
  induction n as [|n IH]; intros Hn; [exists 0%nat; split_and!; [done|lia|lia|by left]|].
  cbn [last_used]. destruct (lookup_lt_is_Some_2 keys n) as [[x|] Hx]; [lia|..]; rewrite Hx; cbn [mbind option_bind].
  - exists (S n). split_and!; [done|lia|lia|]. right. exists x. by rewrite Nat.sub_1_r.
  - destruct (IH ltac:(lia)) as (i & -> & Hi & Hj & Hl). exists i. split_and!; [done|lia| |done].
    intros j Hjn. destruct (decide (j = n)) as [->|]; [done|apply Hj; lia].
Qed.

Definition packed (es : list V) (n : nat) : list (option V) := map Some es ++ replicate n None.

Lemma lookup_packed es n i x : packed es n !! i = Some (Some x) <-> es !! i = Some x.
Proof using.
  unfold packed. split.
  - intros [Hi|[_ Hi]]%lookup_app_Some; [|by apply lookup_replicate in Hi as []].
    apply list_lookup_fmap_Some in Hi as (y & Hy & [= ->]). done.
  - intros Hi. apply lookup_app_l_Some. change (map Some es) with (Some <$> es). by rewrite list_lookup_fmap, Hi.
Qed.

Lemma elements_app l k : elements (l ++ k) = elements l ++ elements k.
Proof using. apply omap_app. Qed.

Lemma elements_packed es n : elements (packed es n) = es.
Proof using.
  unfold packed. rewrite elements_app. assert (elements (replicate n None) = []) as -> by (by induction n).
  rewrite app_nil_r. induction es as [|x es IH]; [done|]. change (x :: elements (map Some es) = x :: es). by f_equal.
Qed.

Lemma compact_loop_spec rest : forall es d rh, (rh = true -> es <> []) ->
  exists rh', compact_loop (packed es d ++ rest) (seq (length es + d) (length rest)) (length es) rh =
    Some (packed (es ++ elements rest) (d + length rest - length (elements rest)), length (es ++ elements rest), rh') /\
    (rh' = true -> es ++ elements rest <> []) /\ (rh = true -> rh' = true) /\
    (rh' = false -> packed (es ++ elements rest) (d + length rest - length (elements rest)) = packed es d ++ rest).
Proof using.
  induction rest as [|[k|] rest IH]; intros es d rh Hrh.
  - exists rh. cbn [length seq compact_loop elements omap list_omap]. rewrite !app_nil_r.
    replace (d + 0 - 0)%nat with d by lia. by split_and!.
  - cbn [length seq compact_loop].
    assert ((packed es d ++ Some k :: rest) !! (length es + d)%nat = Some (Some k)) as ->.
    { apply list_lookup_middle. unfold packed. by rewrite length_app, length_map, length_replicate. }
    cbn [mbind option_bind]. change (elements (Some k :: rest)) with (k :: elements rest).
    replace (es ++ k :: elements rest) with ((es ++ [k]) ++ elements rest) by (by rewrite <- app_assoc).
    assert (forall d, packed (es ++ [k]) d = map Some es ++ Some k :: replicate d None) as Hp
      by (intros; unfold packed; by rewrite map_app, <- app_assoc).
    destruct (Nat.eqb_spec (length es + d) (length es)) as [Ed|Ed].
    + assert (d = 0%nat) as -> by lia.
      destruct (IH (es ++ [k]) 0%nat rh) as (rh' & E & H1 & H0 & H2); [by intros _ [_ ?]%app_nil|].
      assert (packed (es ++ [k]) 0 ++ rest = packed es 0 ++ Some k :: rest) as Hpk
        by (rewrite Hp; unfold packed; cbn [replicate]; rewrite app_nil_r, <- app_assoc; done).
      rewrite Hpk in E, H2.
      rewrite length_app in E at 1 2. cbn [length] in E.
      exists rh'.
      replace (S (length es + 0)) with (length es + 1 + 0)%nat by lia.
      replace (S (length es)) with (length es + 1)%nat by lia. split; [|split; [done|split]].
      * by rewrite E.
      * done.
      * exact H2.
    + destruct d as [|d]; [lia|].
      destruct (IH (es ++ [k]) (S d) true) as (rh' & E & H1 & H0 & H2); [by intros _ [_ ?]%app_nil|].
      rewrite length_app in E at 1 2. cbn [length] in E.
      assert (<[(length es + S d)%nat := None]> (<[length es := Some k]> (packed es (S d) ++ Some k :: rest)) =
              packed (es ++ [k]) (S d) ++ rest) as ->.
      { unfold packed at 1. cbn [replicate app]. rewrite <- app_assoc. cbn [app].
        rewrite (insert_middle (map Some es) _ None) by (by rewrite length_map).
        change (map Some es ++ Some k :: replicate d None ++ Some k :: rest) with
          (map Some es ++ (Some k :: replicate d None) ++ Some k :: rest).
        rewrite app_assoc, insert_middle by (rewrite length_app, length_map; simpl; rewrite length_replicate; lia).
        rewrite Hp, replicate_S_end, <- !app_assoc. simpl. by rewrite <- app_assoc. }
      exists rh'. replace (S (length es + S d)) with (length es + 1 + S d)%nat by lia.
      replace (S (length es)) with (length es + 1)%nat by lia. split; [|split; [done|split]].
      * rewrite E. by replace (S d + S (length rest) - length (k :: elements rest))%nat with
          (S d + length rest - length (elements rest))%nat by (simpl; lia).
      * intros _. by apply H0.
      * intros F. rewrite H0 in F; done.
  - cbn [length seq compact_loop].
    assert ((packed es d ++ None :: rest) !! (length es + d)%nat = Some None) as ->.
    { apply list_lookup_middle. unfold packed. by rewrite length_app, length_map, length_replicate. }
    cbn [mbind option_bind]. change (elements (None :: rest)) with (elements rest).
    destruct (IH es (S d) rh Hrh) as (rh' & E & H1 & H0 & H2).
    assert (packed es d ++ None :: rest = packed es (S d) ++ rest) as ->.
    { unfold packed. rewrite replicate_S_end, <- !app_assoc. done. }
    replace (S (length es + d)) with (length es + S d)%nat by lia. exists rh'.
    replace (d + S (length rest) - length (elements rest))%nat with (S d + length rest - length (elements rest))%nat by lia.
    done.
Qed.

Lemma elements_length keys : (length (elements keys) <= length keys)%nat.
Proof using.
  induction keys as [|[k|] keys IH]; [done|..]; cbn [length].
  - change (elements (Some k :: keys)) with (k :: elements keys). cbn [length]. lia.
  - change (elements (None :: keys)) with (elements keys). lia.
Qed.

(** Compaction packs the keys; its result is negative when it moved one. *)
Lemma idset_compact_spec keys : let es := elements keys in
  idset_compact keys = Some (packed es (length keys - length es), - Z.of_nat (length es)) /\ es <> [] \/
  idset_compact keys = Some (keys, Z.of_nat (length es)) /\ keys = packed es (length keys - length es).
Proof using.
  cbv zeta. destruct (compact_loop_spec keys [] 0 false) as (rh & E & H1 & _ & H2); [done|].
  cbn [app length packed map replicate Nat.add] in E, H1, H2. change (packed [] 0) with (@nil (option V)) in *. cbn [app] in *.
  unfold idset_compact. rewrite E. cbn [mbind option_bind]. destruct rh; [left|right].
  - split; [done|]. by apply H1.
  - pose proof (H2 eq_refl) as H3. split; [by rewrite H3|by symmetry].
Qed.

(** The keys after an insertion, and which of them are new to the index. *)
Lemma put_key_spec keys key : exists keys' newidx, jl_idset_put_key keys key = Some (keys', newidx) /\
  ((exists i, newidx = Z.of_nat i /\ (i <= length keys)%nat /\ keys' !! i = Some (Some key) /\
      (forall j, j <> i -> forall x, keys' !! j = Some (Some x) <-> keys !! j = Some (Some x)) /\
      (forall x, keys !! i <> Some (Some x)) /\ (i = 0%nat \/ exists x, keys !! (i - 1)%nat = Some (Some x)) /\
      elements keys' ≡ₚ key :: elements keys) \/
   (exists n, keys' = packed (elements keys ++ [key]) n /\ newidx = - Z.of_nat (length (elements keys) + 1))).
Proof using.
  unfold jl_idset_put_key. destruct (last_used_spec keys (length keys)) as (i & -> & Hi & Hnone & Hlast); [done|].
  cbn [mbind option_bind]. destruct (Nat.eqb_spec i (length keys)) as [->|Hne].
  2:{ rewrite Hnone by lia. cbn [mbind option_bind]. eexists _, _. split; [done|]. left. exists i. split; [done|]. split; [done|].
      assert (keys !! i = Some None) as Hk by (apply Hnone; lia). split_and!.
      - apply list_lookup_insert_eq. lia.
      - intros j Hj x. by rewrite list_lookup_insert_ne.
      - intros x. by rewrite Hk.
      - done.
      - rewrite <- (take_drop_middle keys i None Hk) at 2. rewrite insert_take_drop by lia.
        rewrite !elements_app. change (elements (Some key :: drop (S i) keys)) with (key :: elements (drop (S i) keys)).
        change (elements (None :: drop (S i) keys)) with (elements (drop (S i) keys)). symmetry. apply Permutation_middle. }
  set (es := elements keys) in *. pose proof (elements_length keys) as Hle. fold es in Hle.
  assert (forall ks, ks = packed es (length keys - length es) -> exists n,
    (x ← (if (length keys / 3 * 2 <=? length es)%nat
          then take (length es) ks ++ replicate ((if (length keys <? 4)%nat then 4%nat else (length keys * 3 / 2)%nat) - length es) None
          else ks) !! length es;
     match x with
     | None => Some (<[length es := Some key]> (if (length keys / 3 * 2 <=? length es)%nat
          then take (length es) ks ++ replicate ((if (length keys <? 4)%nat then 4%nat else (length keys * 3 / 2)%nat) - length es) None
          else ks))
     | Some _ => None end) = Some (packed (es ++ [key]) n)) as Hgrow.
  { intros ks ->. set (nl := if (length keys <? 4)%nat then _ else _).
    assert (exists m, (if (length keys / 3 * 2 <=? length es)%nat then take (length es) (packed es (length keys - length es)) ++
      replicate (nl - length es) None else packed es (length keys - length es)) = packed es (S m)) as [m ->].
    { destruct (Nat.leb_spec (length keys / 3 * 2) (length es)).
      - exists (nl - length es - 1)%nat. unfold packed. rewrite take_app_length' by (by rewrite length_map). do 2 f_equal.
        assert (length keys < nl)%nat; [|lia]. unfold nl. destruct (Nat.ltb_spec (length keys) 4); [lia|].
        pose proof (Nat.div_mod_eq (length keys * 3) 2). pose proof (Nat.mod_upper_bound (length keys * 3) 2). lia.
      - exists (length keys - length es - 1)%nat. f_equal.
        pose proof (Nat.div_mod_eq (length keys) 3). lia. }
    exists m. unfold packed at 1 2. cbn [replicate].
    rewrite (list_lookup_middle (map Some es)) by (by rewrite length_map). cbn [mbind option_bind].
    rewrite insert_middle by (by rewrite length_map). unfold packed. by rewrite map_app, <- app_assoc. }
  destruct (idset_compact_spec keys) as [[E Hes]|[E Hp]]; fold es in E; rewrite E; cbn [mbind option_bind].
  - fold es in Hes. destruct (Z.ltb_spec (- Z.of_nat (length es)) 0); [|destruct es; [done|simpl in *; lia]].
    replace (Z.to_nat (- - Z.of_nat (length es))) with (length es) by lia.
    destruct (Hgrow _ eq_refl) as [n En]. 
    set (ks := if (length keys / 3 * 2 <=? length es)%nat then _ else _) in *.
    destruct (ks !! length es) as [[x|]|]; cbn [mbind option_bind] in *; [done| |done]. injection En as En.
    eexists _, _. split; [done|]. right. exists n. split; [exact En|lia].
  - fold es in Hp. destruct (Z.ltb_spec (Z.of_nat (length es)) 0); [lia|]. rewrite Nat2Z.id.
    destruct (Hgrow _ Hp) as [n En].
    set (ks := if (length keys / 3 * 2 <=? length es)%nat then _ else _) in *.
    destruct (ks !! length es) as [[x|]|]; cbn [mbind option_bind] in *; [done| |done]. injection En as En.
    assert (length es = length keys) as Hl.
    { destruct Hlast as [Hl0|[x Hx]]; [lia|]. assert (packed es (length keys - length es) !! (length keys - 1)%nat = Some (Some x)) as Hx' by (by rewrite <- Hp).
      apply lookup_packed, lookup_lt_Some in Hx'. lia. }
    assert (keys = map Some es) as Hk by (rewrite Hp, Hl, Nat.sub_diag; apply app_nil_r).
    eexists _, _. split; [done|]. left. exists (length keys). rewrite En, <- Hl. split_and!.
    + done.
    + lia.
    + apply lookup_packed. by apply list_lookup_middle.
    + intros j Hj x. rewrite lookup_packed. rewrite Hp, lookup_packed. destruct (Nat.lt_ge_cases j (length es)).
      * by rewrite lookup_app_l.
      * rewrite lookup_app_r, (lookup_ge_None_2 es) by done.
        destruct (j - length es)%nat as [|m] eqn:Em; [lia|]. split; intros Hb; [by apply list_lookup_singleton_Some in Hb as []|done].
    + intros x. rewrite Hl, lookup_ge_None_2 by done. done.
    + rewrite Hl. done.
    + rewrite elements_packed. symmetry. apply Permutation_cons_append.
Qed.

Lemma put_idx_loop_spec keys n : Z.of_nat n < 0x7FFFFFFD -> (forall i, (i < n)%nat -> exists x, keys !! i = Some (Some x)) ->
  forall m j idxs, (j + m = n)%nat -> wf (idset_hash keys) idxs -> (forall v, v ∈ live idxs <-> 0 < v <= Z.of_nat j) ->
  exists idxs', put_idx_loop keys (seq j m) idxs = Some idxs' /\ wf (idset_hash keys) idxs' /\
    (forall v, v ∈ live idxs' <-> 0 < v <= Z.of_nat n).
Proof using.
  intros Hn Hk. induction m as [|m IH]; intros j idxs Hj Hwf Hl.
  { exists idxs. split; [done|]. split; [done|]. by replace n with j by lia. }
  destruct (Hk j ltac:(lia)) as [x Hx]. cbn [seq put_idx_loop]. rewrite Hx. cbn [mbind option_bind].
  destruct (insert_spec (idset_hash keys) (Z.of_nat j) ltac:(lia) idxs Hwf) as (idxs' & -> & Hwf' & _ & Ep).
  { split; [rewrite Hl; lia|]. destruct j; [by left|right]. exists (Z.of_nat (S j)). rewrite Hl. lia. }
  cbn [mbind option_bind]. apply IH; [lia|done|]. intros v. rewrite Ep, elem_of_cons, Hl. lia.
Qed.

(** The elements come in the order of their slots. *)
Lemma elements_order keys j k x y : (j < k)%nat -> elements keys !! j = Some x -> elements keys !! k = Some y ->
  exists j' k', (j' < k')%nat /\ keys !! j' = Some (Some x) /\ keys !! k' = Some (Some y).
Proof using.
  revert j k. induction keys as [|[z|] keys IH]; intros j k Hjk Hx Hy; [done|..].
  - change (elements (Some z :: keys)) with (z :: elements keys) in *. destruct k as [|k]; [lia|]. destruct j as [|j].
    + injection Hx as ->. simpl in Hy. apply list_elem_of_lookup_2, elem_of_elements in Hy as [k' Hy].
      exists 0%nat, (S k'). split_and!; [lia|done|done].
    + destruct (IH j k) as (j' & k' & ? & ? & ?); [lia|done|done|]. exists (S j'), (S k'). split_and!; [lia|done|done].
  - change (elements (None :: keys)) with (elements keys) in *.
    destruct (IH j k) as (j' & k' & ? & ? & ?); [done..|]. exists (S j'), (S k'). split_and!; [lia|done|done].
Qed.

(** [jl_idset_put_key] followed by [jl_idset_put_idx]. *)
Lemma idset_put_spec keys idxs key : idset_inv keys idxs -> Z.of_nat (length keys) < 0x7FFFFFFC ->
  (forall x, x ∈ elements keys -> jl_egal x key = false) ->
  exists keys' newidx idxs', jl_idset_put_key keys key = Some (keys', newidx) /\
    jl_idset_put_idx keys' idxs newidx = Some idxs' /\ idset_inv keys' idxs' /\ elements keys' ≡ₚ key :: elements keys.
Proof using.
  intros Hinv Hlen Hnew. destruct (put_key_spec keys key) as (keys' & newidx & -> & Hput).
  exists keys', newidx. destruct Hput as [(i & -> & Hi & Hki & Hsame & Hfree & Hlast & Hp)|(n & -> & ->)]; unfold jl_idset_put_idx.
  - destruct (Z.ltb_spec (Z.of_nat i) 0); [lia|].
    assert (Z.of_nat i + 1 ∉ live idxs) as Hnl by (rewrite (inv_index _ _ Hinv); intros [x Hx]; by apply (Hfree x)).
    assert (wf (idset_hash keys') idxs) as Hwf.
    { apply (wf_ext (idset_hash keys)); [|apply Hinv]. intros v Hv. destruct (inv_live _ _ _ Hinv Hv) as (j & x & -> & Hx).
      rewrite Z.add_simpl_r, (hash_at _ _ _ Hx). symmetry. apply hash_at, Hsame; [|done]. intros ->. by apply (Hfree x). }
    destruct (insert_spec (idset_hash keys') (Z.of_nat i) ltac:(lia) idxs Hwf) as (idxs' & -> & Hwf' & _ & Ep).
    { split; [done|]. destruct Hlast as [->|[x Hx]]; [by left|right]. exists (Z.of_nat (i - 1) + 1). split; [|lia].
      apply (inv_index _ _ Hinv). by exists x. }
    exists idxs'. split; [done|]. split; [done|]. split; [|done]. split; [done|..].
    + intros j. rewrite Ep, elem_of_cons. destruct (decide (j = i)) as [->|Hj].
      * split; [intros _; by exists key|by left].
      * setoid_rewrite Hsame; [|done]. rewrite <- (inv_index _ _ Hinv). split; [intros [?|?]; [lia|done]|by right].
    + assert (forall j x, j <> i -> keys' !! j = Some (Some x) -> jl_egal x key = false) as Hd.
      { intros j x Hj Hx. apply Hsame in Hx; [|done]. apply Hnew, elem_of_elements. by exists j. }
      intros j k x y Hx Hy E. destruct (decide (j = i)) as [->|Hj], (decide (k = i)) as [->|Hk]; [done|..].
      * rewrite Hki in Hx. injection Hx as <-. rewrite egal_comm, (Hd k y) in E; done.
      * rewrite Hki in Hy. injection Hy as <-. rewrite (Hd j x) in E; done.
      * apply Hsame in Hx, Hy; [|done..]. by apply (inv_distinct _ _ Hinv j k x y).
  - set (es := elements keys) in *. destruct (Z.ltb_spec (- Z.of_nat (length es + 1)) 0); [|lia].
    destruct (wf_clear _ (idset_hash (packed (es ++ [key]) n)) idxs (inv_wf _ _ Hinv)) as [Hwf Hl].
    pose proof (elements_length keys) as Hle. fold es in Hle.
    replace (Z.to_nat (- - Z.of_nat (length es + 1))) with (length es + 1)%nat by lia.
    destruct (put_idx_loop_spec (packed (es ++ [key]) n) (length es + 1) ltac:(lia)) with (m := (length es + 1)%nat) (j := 0%nat)
      (idxs := smallintset_empty idxs) as (idxs' & E & Hwf' & Hl').
    + intros i Hi. destruct (lookup_lt_is_Some_2 (es ++ [key]) i) as [x Hx]; [rewrite length_app; simpl; lia|].
      exists x. by apply lookup_packed.
    + lia.
    + done.
    + intros v. rewrite Hl, elem_of_nil. lia.
    + exists idxs'. split; [done|]. split; [exact E|]. split; [|rewrite elements_packed; symmetry; apply Permutation_cons_append].
      split; [done|..].
      * intros i. rewrite Hl'. setoid_rewrite lookup_packed. split.
        -- intros Hi. apply lookup_lt_is_Some_2. rewrite length_app. simpl. lia.
        -- intros [x Hx%lookup_lt_Some]. rewrite length_app in Hx. simpl in Hx. lia.
      * assert (forall j x, es !! j = Some x -> jl_egal x key = false) as Hd
          by (intros j x Hx; apply Hnew; by apply list_elem_of_lookup_2 in Hx).
        assert (forall j k x y, es !! j = Some x -> es !! k = Some y -> jl_egal x y = true -> j = k) as Hdd.
        { intros j k x y Hx Hy E'. destruct (Nat.lt_trichotomy j k) as [Hjk|[?|Hjk]]; [|done|].
          - destruct (elements_order keys j k x y Hjk Hx Hy) as (j' & k' & ? & Hx' & Hy').
            pose proof (inv_distinct _ _ Hinv _ _ _ _ Hx' Hy' E'). lia.
          - destruct (elements_order keys k j y x Hjk Hy Hx) as (j' & k' & ? & Hy' & Hx').
            pose proof (inv_distinct _ _ Hinv _ _ _ _ Hx' Hy' E'). lia. }
        intros j k x y. rewrite !lookup_packed. intros Hx Hy E'.
        apply lookup_app_Some in Hx, Hy.
        destruct Hx as [Hx|[Hj Hx]], Hy as [Hy|[Hk Hy]].
        -- by apply (Hdd j k x y).
        -- apply list_lookup_singleton_Some in Hy as [_ ->]. rewrite (Hd j x) in E'; done.
        -- apply list_lookup_singleton_Some in Hx as [_ ->]. rewrite egal_comm, (Hd k y) in E'; done.
        -- apply list_lookup_singleton_Some in Hx as [? ->], Hy as [? ->]. lia.
Qed.

(** ** Removal *)
Lemma idset_pop_spec keys idxs key : idset_inv keys idxs ->
  exists r keys' idxs', jl_idset_pop keys idxs key = Some (r, keys', idxs') /\ idset_inv keys' idxs' /\
    ((r = -1 /\ keys' = keys /\ forall x, x ∈ elements keys -> jl_egal x key = false) \/
     (exists i x, r = Z.of_nat i /\ jl_egal x key = true /\ keys !! i = Some (Some x) /\ keys' = <[i := None]> keys /\
        elements keys ≡ₚ x :: elements keys')).
Proof using.
  intros Hinv. unfold jl_idset_pop.
  destruct (idset_lookup keys idxs key true Hinv) as [(i & x & c & Hx & He & Hc & Hp & Hl & Ha & ->)|[Hno ->]];
    cbn [mbind option_bind].
  2:{ exists (-1), keys, idxs. split; [done|]. split; [done|]. by left. }
  destruct (Z.eqb_spec (Z.of_nat i) (-1)); [lia|]. rewrite Nat2Z.id, Hx. cbn [mbind option_bind].
  destruct (wf_bury _ idxs c _ (inv_wf _ _ Hinv) Hc Hp Hl Ha) as [Hwf Ep]. set (idxs' := write idxs c (tomb idxs)) in *.
  eexists _, _, _. split; [done|]. pose proof (lookup_lt_Some _ _ _ Hx) as Hlt.
  assert (Z.of_nat i + 1 ∉ live idxs') as Hni.
  { pose proof (wf_nodup _ _ (inv_wf _ _ Hinv)) as Hn. rewrite Ep in Hn. by apply NoDup_cons in Hn as [? _]. }
  assert (forall j y, <[i := None]> keys !! j = Some (Some y) <-> j <> i /\ keys !! j = Some (Some y)) as Hins.
  { intros j y. destruct (decide (i = j)) as [<-|Hj]; [rewrite list_lookup_insert_eq by done; naive_solver|].
    rewrite list_lookup_insert_ne by done. naive_solver. }
  assert (forall v, v ∈ live idxs' -> v ∈ live idxs) as Hsub by (intros v Hv; rewrite Ep; by right).
  split.
  - split.
    + apply (wf_ext (idset_hash keys)); [|done]. intros v Hv.
      destruct (inv_live _ _ _ Hinv (Hsub v Hv)) as (j & y & -> & Hy). rewrite Z.add_simpl_r, (hash_at _ _ _ Hy). symmetry.
      apply hash_at, Hins. split; [|done]. by intros ->.
    + intros j. setoid_rewrite Hins. destruct (decide (j = i)) as [->|Hj]; [naive_solver|].
      pose proof (inv_index _ _ Hinv j) as Hj'. rewrite Ep, elem_of_cons in Hj'. split.
      * intros Hv. destruct (proj1 Hj') as [y Hy]; [by right|]. by exists y.
      * intros (y & _ & Hy). destruct (proj2 Hj') as [?|?]; [by exists y|lia|done].
    + intros j k y z. rewrite !Hins. intros [_ Hy] [_ Hz]. by apply (inv_distinct _ _ Hinv).
  - right. exists i, x. split_and!; [done..|]. rewrite <- (take_drop_middle keys i (Some x) Hx) at 1.
    rewrite insert_take_drop by done. rewrite !elements_app.
    change (elements (Some x :: drop (S i) keys)) with (x :: elements (drop (S i) keys)).
    change (elements (None :: drop (S i) keys)) with (elements (drop (S i) keys)). symmetry. apply Permutation_middle.
Qed.

Lemma idset_peek_spec keys idxs key : idset_inv keys idxs ->
  (exists i x, keys !! i = Some (Some x) /\ jl_egal x key = true /\
     jl_idset_peek_bp keys idxs key = Some (Z.of_nat i) /\ jl_idset_get keys idxs key = Some (Some x)) \/
  ((forall x, x ∈ elements keys -> jl_egal x key = false) /\
   jl_idset_peek_bp keys idxs key = Some (-1) /\ jl_idset_get keys idxs key = Some None).
Proof using.
  intros Hinv. unfold jl_idset_get, jl_idset_peek_bp.
  destruct (idset_lookup keys idxs key false Hinv) as [(i & x & c & Hx & He & _ & _ & _ & _ & ->)|[Hno ->]];
    cbn [mbind option_bind].
  - left. exists i, x. destruct (Z.eqb_spec (Z.of_nat i) (-1)); [lia|]. by rewrite Nat2Z.id.
  - right. by split.
Qed.

Lemma idset_rehash_spec keys idxs newsz : idset_inv keys idxs -> 0 <= newsz <= 2 ^ 31 ->
  exists idxs', jl_idset_rehash keys idxs newsz = Some idxs' /\ idset_inv keys idxs' /\ (newsz = 0 \/ newsz <= mlength idxs').
Proof using.
  intros Hinv Hn. unfold jl_idset_rehash. destruct (Z.eqb_spec newsz 0) as [->|].
  { exists idxs. split; [done|]. split; [done|by left]. }
  destruct (next_power_of_two_spec newsz) as (k & Hk & -> & Hle); [lia|]. cbv zeta.
  destruct (rehash_spec _ idxs (inv_wf _ _ Hinv) (2 ^ k) 0) as (a' & -> & H1 & H2 & H3 & H4 & H5 & _);
    [lia|right; exists k; split; [lia|done]|intros; pose proof (pow2_pos k); lia|].
  exists a'. split; [done|]. split; [|right; lia]. destruct Hinv as [? Hi Hd]. split; [done| |done].
  intros i. by rewrite H5.
Qed.
End IdSet.

(** C33: an identity set stays one through its operations, which never fail:
    adding a key that is not in it ([jl_idset_put_key], compacting or growing
    the keys, then [jl_idset_put_idx], with a full rehash after a compaction)
    gives the set with the key; popping removes the key and returns its index,
    or -1; a lookup gives the index of the key, or -1, before and after a
    rehash. *)
Theorem idset_correct (V : Type) `{ObjectId V} (keys : list (option V)) idxs key :
  idset_inv keys idxs -> Z.of_nat (length keys) < 0x7FFFFFFC ->
  (((exists i x, keys !! i = Some (Some x) /\ jl_egal x key = true /\
       jl_idset_peek_bp keys idxs key = Some (Z.of_nat i) /\ jl_idset_get keys idxs key = Some (Some x)) \/
    ((forall x, x ∈ elements keys -> jl_egal x key = false) /\
     jl_idset_peek_bp keys idxs key = Some (-1) /\ jl_idset_get keys idxs key = Some None)) /\
   ((forall x, x ∈ elements keys -> jl_egal x key = false) ->
    exists keys' newidx idxs', jl_idset_put_key keys key = Some (keys', newidx) /\
      jl_idset_put_idx keys' idxs newidx = Some idxs' /\ idset_inv keys' idxs' /\ elements keys' ≡ₚ key :: elements keys) /\
   (exists r keys' idxs', jl_idset_pop keys idxs key = Some (r, keys', idxs') /\ idset_inv keys' idxs' /\
    ((r = -1 /\ keys' = keys /\ forall x, x ∈ elements keys -> jl_egal x key = false) \/
     (exists i x, r = Z.of_nat i /\ jl_egal x key = true /\ keys !! i = Some (Some x) /\ keys' = <[i := None]> keys /\
        elements keys ≡ₚ x :: elements keys'))) /\
   (forall newsz, 0 <= newsz <= 2 ^ 31 -> exists idxs', jl_idset_rehash keys idxs newsz = Some idxs' /\
      idset_inv keys idxs' /\ (newsz = 0 \/ newsz <= mlength idxs'))).
Proof.
  intros Hinv Hlen. split; [by apply idset_peek_spec|]. split; [by apply idset_put_spec|].
  split; [by apply idset_pop_spec|]. intros. by apply idset_rehash_spec.
Qed.

Lemma idset_inv_empty `{ObjectId V} : idset_inv (V := V) [] (mem jl_memory_any_type []).
Proof.
  split; [|intros i|intros i j x y Hx; by rewrite lookup_nil in Hx].
  - split; [by left|by left|constructor|constructor|constructor|]. intros i v Hv. simpl in Hv. by rewrite lookup_nil in Hv.
  - split; [intros Hv; by apply elem_of_nil in Hv|intros [k Hk]; by rewrite lookup_nil in Hk].
Qed.
Lemma idset_correct_witness : idset_inv (V := Z) [] (mem jl_memory_any_type []) /\
  exists keys' newidx idxs', jl_idset_put_key [] 5 = Some (keys', newidx) /\
    jl_idset_put_idx keys' (mem jl_memory_any_type []) newidx = Some idxs' /\ idset_inv keys' idxs' /\ elements keys' ≡ₚ [5].
Proof.
  split; [apply idset_inv_empty|].
  apply (proj1 (proj2 (idset_correct Z [] (mem jl_memory_any_type []) 5 idset_inv_empty eq_refl))).
  intros x Hx. by apply elem_of_nil in Hx.
Defined.
