(* ===== verification/IdDict.v ===== *)
(** * Identity dictionaries: src/src/iddict.c

    A [Memory{Any}] of [2 n] slots: bucket [i] has its key in slot [2 i] and its
    value in slot [2 i + 1]; [None] is [NULL]. A deleted bucket has the key
    [jl_nothing] and no value. *)
From S2P Require Import Prelude Probe SmallIntSet ObjectId.

Section IdDict.
Context `{ObjectId V} `{EqDecision V} (jl_nothing : V).
Implicit Types (a : list (option V)) (key val : V).

Definition hash_size a : Z := Z.of_nat (length a) / 2.
Definition keyhash (k : V) : Z := jl_object_id k.
Definition dict_h2index (hv sz : Z) : Z := Z.land hv (u64 (sz - 1)) * 2.
Definition jl_alloc_memory_any (n : Z) : list (option V) := replicate (Z.to_nat n) None.

(** How the probing loop of [jl_table_assign_bp] is left before its end: at a
    bucket with the key, or by the [break] with [empty_slot]. *)
Inductive assign_exit := Replace (index : Z) | Break (empty_slot : option Z).

(** [empty_slot] is [None] for -1. *)
Definition first_empty (empty_slot : option Z) (index : Z) : option Z :=
  match empty_slot with None => Some index | Some e => Some e end.

Definition assign_visit a key (index : Z) (empty_slot : option Z) : option (option Z + assign_exit) :=
  k2 ← a !! Z.to_nat index;
  match k2 with
  | None => Some (inr (Break (first_empty empty_slot index)))
  | Some k2 =>
      v ← a !! Z.to_nat (index + 1);
      let next (empty_slot : option Z) : option (option Z + assign_exit) :=
        match empty_slot, v with
        | None, None => if decide (k2 = jl_nothing) then Some (inl (Some index)) else None
        | _, _ => Some (inl empty_slot)
        end in
      if jl_egal key k2 then
        match v with
        | Some _ => Some (inr (Replace index))
        | None => if decide (key = jl_nothing) then next (first_empty empty_slot index) else None
        end
      else next empty_slot
  end.

(** [for (i = 0; i < sz; i += 2)] of [jl_idtable_rehash] over the slots [ol]. *)
Fixpoint rehash_pairs (assign : list (option V) -> V -> V -> option (bool * list (option V)))
    (ol : list (option V)) (newa : list (option V)) : option (list (option V)) :=
  match ol with
  | k :: Some v :: ol =>
      match k with
      | None => None
      | Some k => r ← assign newa k v; rehash_pairs assign ol (r : bool * list (option V)).2
      end
  | _ :: None :: ol => rehash_pairs assign ol newa
  | [_] => None
  | [] => Some newa
  end.

Definition jl_idtable_rehash_with (assign : list (option V) -> V -> V -> option (bool * list (option V))) a (newsz : Z) :
  option (list (option V)) := rehash_pairs assign a (jl_alloc_memory_any newsz).

(** The mutual recursion of assignment and rehashing; each level works on a
    larger table. The result is whether the key was inserted, and [*pa]. *)
Fixpoint jl_table_assign_bp (fuel : nat) a key val : option (bool * list (option V)) :=
  match fuel with
  | O => None
  | S fuel =>
      let a := if hash_size a =? 0 then jl_alloc_memory_any HT_N_INLINE else a in
      let sz := hash_size a in
      let maxprobe := max_probe sz in
      let hv := keyhash key in
      r ← probe (assign_visit a key) 2 (sz * 2) maxprobe (dict_h2index hv sz) None;
      match r with
      | inr (Replace index) => Some (false, <[Z.to_nat (index + 1) := Some val]> a)
      | inr (Break empty_slot) | inl empty_slot =>
          match empty_slot with
          | Some e => Some (true, <[Z.to_nat (e + 1) := Some val]> (<[Z.to_nat e := Some key]> a))
          | None =>
              a ← jl_idtable_rehash_with (jl_table_assign_bp fuel) a (grow_size (Z.of_nat (length a)));
              jl_table_assign_bp fuel a key val
          end
      end
  end.

(** 64 levels of doubling are more than a [size_t] allows. *)
Definition jl_idtable_rehash a (newsz : Z) : option (list (option V)) :=
  jl_idtable_rehash_with (jl_table_assign_bp 64) a newsz.

Definition peek_visit a key (index : Z) (_ : unit) : option (unit + option Z) :=
  k2 ← a !! Z.to_nat index;
  match k2 with
  | None => Some (inr None)
  | Some k2 =>
      if jl_egal key k2 then
        v ← a !! Z.to_nat (index + 1);
        match v with
        | Some _ => Some (inr (Some (index + 1)))
        | None => if decide (key = jl_nothing) then Some (inl tt) else Some (inr None)
        end
      else Some (inl tt)
  end.

(** The index of the value's slot; [Some None] is [NULL]. *)
Definition jl_table_peek_bp a key : option (option Z) :=
  let sz := hash_size a in
  if sz =? 0 then Some None else
  let maxprobe := max_probe sz in
  r ← probe (peek_visit a key) 2 (sz * 2) maxprobe (dict_h2index (keyhash key) sz) tt;
  match r with inr bp => Some bp | inl _ => Some None end.

Definition jl_eqtable_put (h : list (option V)) key val : option (bool * list (option V)) := jl_table_assign_bp 64 h key val.

(** A value that can be [NULL] is an [option V]; the outer [option] is failure. *)
Definition jl_eqtable_get (h : list (option V)) key (deflt : option V) : option (option V) :=
  bp ← jl_table_peek_bp h key; match bp with None => Some deflt | Some bp => h !! Z.to_nat bp end.

Definition jl_eqtable_getkey (h : list (option V)) key (deflt : option V) : option (option V) :=
  bp ← jl_table_peek_bp h key; match bp with None => Some deflt | Some bp => h !! Z.to_nat (bp - 1) end.

(** The value, [*found] and the new table. *)
Definition jl_eqtable_pop (h : list (option V)) key (deflt : option V) : option (option V * bool * list (option V)) :=
  bp ← jl_table_peek_bp h key;
  match bp with
  | None => Some (deflt, false, h)
  | Some bp => val ← h !! Z.to_nat bp;
      Some (val, true, <[Z.to_nat bp := None]> (<[Z.to_nat (bp - 1) := Some jl_nothing]> h))
  end.

Fixpoint nextind_loop (fuel : nat) (t : list (option V)) (i : Z) : option Z :=
  match fuel with
  | O => None
  | S fuel =>
      if i <? Z.of_nat (length t) then
        v ← t !! Z.to_nat (i + 1);
        match v with None => nextind_loop fuel t (i + 2) | Some _ => Some i end
      else Some i
  end.

Definition jl_eqtable_nextind (t : list (option V)) (i : Z) : option Z :=
  let i := if Z.odd i then i + 1 else i in
  let alen := Z.of_nat (length t) in
  i ← nextind_loop (S (length t)) t i;
  Some (if alen <=? i then SIZE_MAX else i).
End IdDict.
