(* ===== verification/IdDictCorrect.v ===== *)
(** * Identity dictionaries: the properties

    A dictionary is the flat memory of its buckets [ps] ([IdDictCorrect.dict_wf]);
    its contents are [entries ps]. *)
From S2P Require Import Prelude Probe SmallIntSet SmallIntSetCorrect ObjectId IdDict.

(** * Identity dictionaries: the invariant and the operations *)

Lemma dict_h2index_bound hv k : 0 <= k <= 37 -> 0 <= dict_h2index hv (2 ^ k) < 2 ^ (k + 1) /\ exists m, dict_h2index hv (2 ^ k) = 2 * m.
Proof.
  intros Hk. pose proof (h2index_bound hv k Hk) as Hb. unfold h2index in Hb. unfold dict_h2index.
  rewrite Z.pow_add_r by lia. split; [lia|]. eexists. apply Z.mul_comm.
Qed.

Section IdDict.
Context `{ObjectId V} `{EqDecision V} (jl_nothing : V).
(** [nothing] is a singleton. *)
Context (nothing_unique : forall x, jl_egal x jl_nothing = true -> x = jl_nothing).
#[local] Abbreviation bucket := (option V * option V)%type.
Implicit Types (ps : list bucket).

Definition entry (b : bucket) : option (V * V) := match b with (Some k, Some v) => Some (k, v) | _ => None end.
Definition entries ps : list (V * V) := omap entry ps.

(** No two keys are the same object. *)
Fixpoint keys_distinct (es : list (V * V)) : Prop :=
  match es with [] => True | p :: es => Forall (fun q => jl_egal p.1 q.1 = false) es /\ keys_distinct es end.

#[export] Instance keys_distinct_perm : Proper ((≡ₚ) ==> iff) keys_distinct.
Proof.
  assert (forall l1 l2, l1 ≡ₚ l2 -> keys_distinct l1 -> keys_distinct l2) as Hp.
  { induction 1 as [|p l1 l2 E IH|p q l|l1 l2 l3 _ IH1 _ IH2]; cbn [keys_distinct]; [done| | |by auto].
    - intros [Hf Hd]. split; [by rewrite <- E|by apply IH].
    - intros [[Hpq Hp]%Forall_cons [Hq Hd]]. split; [|done]. constructor; [|done]. by rewrite egal_comm. }
  intros l1 l2 E. split; by apply Hp.
Qed.

(** Never used, deleted or live. *)
Definition bucket_ok (b : bucket) : Prop :=
  match b with (None, None) => True | (Some k, None) => k = jl_nothing | (Some _, Some _) => True | (None, Some _) => False end.
Definition is_entry (b : bucket) : Prop := is_Some (entry b).
#[local] Instance is_entry_dec b : Decision (is_entry b) := ltac:(unfold is_entry; apply _).

(** The buckets that a search visits. *)
Definition dict_slots (n : Z) (key : V) : list Z := slots 2 (2 * n) (max_probe n) (dict_h2index (keyhash key) n).
Definition key_used ps (j : Z) : Prop := exists i k v, j = 2 * Z.of_nat i /\ ps !! i = Some (Some k, v).

Definition dreach ps key (i : nat) : Prop :=
  exists pre post, dict_slots (Z.of_nat (length ps)) key = pre ++ 2 * Z.of_nat i :: post /\ Forall (key_used ps) pre.

Record dict_wf ps : Prop := {
  dict_len : ps = [] \/ exists k, 0 <= k <= 37 /\ Z.of_nat (length ps) = 2 ^ k;
  dict_ok : Forall bucket_ok ps;
  dict_distinct : keys_distinct (entries ps);
  dict_reach i k v : ps !! i = Some (Some k, Some v) -> dreach ps k i;
}.

Section Table.
Context ps (k : Z) (Hk : 0 <= k <= 37) (Hlen : Z.of_nat (length ps) = 2 ^ k).

Lemma dict_probe {A R} (visit : Z -> A -> option (A + R)) key acc :
  let sz := hash_size (flat ps) in
  probe visit 2 (sz * 2) (max_probe sz) (dict_h2index (keyhash key) sz) acc = scan visit (dict_slots (Z.of_nat (length ps)) key) acc.
Proof.
  cbv zeta. unfold hash_size. rewrite flat_length.
  assert (Z.of_nat (2 * length ps) / 2 = 2 ^ k) as -> by (rewrite <- Hlen, Nat2Z.inj_mul, Z.mul_comm; apply Z.div_mul; lia).
  unfold dict_slots. rewrite Hlen.
  replace (2 ^ k * 2) with (2 ^ (k + 1)) by (rewrite Z.pow_add_r; lia).
  replace (2 * 2 ^ k) with (2 ^ (k + 1)) by (rewrite Z.pow_add_r; lia).
  pose proof (max_probe_bound k Hk). apply (probe_scan 2 (2 ^ k)); [lia|lia|rewrite Z.pow_add_r; lia|lia|].
  by apply dict_h2index_bound.
Qed.

Lemma dict_slots_bucket key j : j ∈ dict_slots (Z.of_nat (length ps)) key ->
  exists i, j = 2 * Z.of_nat i /\ (i < length ps)%nat.
Proof.
  unfold dict_slots. rewrite Hlen. replace (2 * 2 ^ k) with (2 ^ (k + 1)) by (rewrite Z.pow_add_r; lia).
  intros Hj. pose proof (slots_range 2 (k + 1) _ _ ltac:(lia) j Hj) as Hr.
  apply list_elem_of_In, in_map_iff in Hj as (m & <- & _). unfold slot in *.
  destruct (dict_h2index_bound (keyhash key) k Hk) as [_ [q Eq]]. rewrite Eq in *.
  rewrite Z.pow_add_r in * by lia. change (2 ^ 1) with 2 in *. rewrite (Z.mul_comm (2 ^ k)) in *.
  replace (2 * q + 2 * Z.of_nat m) with (2 * (q + Z.of_nat m)) in * by lia.
  rewrite Z.mul_mod_distr_l in * by lia. exists (Z.to_nat ((q + Z.of_nat m) mod 2 ^ k)).
  split; [rewrite Z2Nat.id; [done|apply Z.mod_pos_bound; lia]|lia].
Qed.

Lemma dict_slots_length key : Z.of_nat (length (dict_slots (Z.of_nat (length ps)) key)) = Z.min (2 ^ k) (max_probe (2 ^ k) + 1).
Proof.
  unfold dict_slots. rewrite Hlen. replace (2 * 2 ^ k) with (2 ^ (k + 1)) by (rewrite Z.pow_add_r; lia).
  pose proof (max_probe_bound k Hk). apply (slots_length 2 (2 ^ k)); [lia|lia|rewrite Z.pow_add_r; lia|lia].
Qed.

Lemma dict_slots_NoDup key : NoDup (dict_slots (Z.of_nat (length ps)) key).
Proof.
  unfold dict_slots. rewrite Hlen. replace (2 * 2 ^ k) with (2 ^ (k + 1)) by (rewrite Z.pow_add_r; lia).
  apply (slots_NoDup 2 (2 ^ k)); [lia|lia|rewrite Z.pow_add_r; lia|]. by apply dict_h2index_bound.
Qed.
End Table.

(** ** Searching *)
Lemma key_at ps i : flat ps !! Z.to_nat (2 * Z.of_nat i) = fst <$> ps !! i.
Proof. rewrite <- flat_lookup_key. f_equal. lia. Qed.
Lemma val_at ps i : flat ps !! Z.to_nat (2 * Z.of_nat i + 1) = snd <$> ps !! i.
Proof. rewrite <- flat_lookup_val. f_equal. lia. Qed.

Section Search.
Context ps (k : Z) (Hk : 0 <= k <= 37) (Hlen : Z.of_nat (length ps) = 2 ^ k) (Hok : Forall bucket_ok ps) (key : V).

Lemma assign_visit_eq i b acc : ps !! i = Some b ->
  assign_visit jl_nothing (flat ps) key (2 * Z.of_nat i) acc = Some
    match b with
    | (None, _) => inr (Break (first_empty acc (2 * Z.of_nat i)))
    | (Some k2, Some _) => if jl_egal key k2 then inr (Replace (2 * Z.of_nat i)) else inl acc
    | (Some _, None) => inl (first_empty acc (2 * Z.of_nat i))
    end.
Proof.
  intros Hi. unfold assign_visit. rewrite key_at, val_at, Hi. cbn [fmap option_fmap option_map fst snd mbind option_bind].
  pose proof (Forall_lookup_1 _ _ _ _ Hok Hi) as Hb. destruct b as [[k2|] [v|]]; cbn [fst snd mbind option_bind]; [|..|done|done].
  - destruct (jl_egal key k2); [done|by destruct acc].
  - simpl in Hb. subst k2. destruct (jl_egal key jl_nothing) eqn:E.
    + rewrite (nothing_unique key E), !decide_True by done. by destruct acc.
    + destruct acc; [done|]. by rewrite decide_True.
Qed.

Definition holds_key (i : nat) : Prop := exists k2 v, ps !! i = Some (Some k2, Some v) /\ jl_egal key k2 = true.
(** A bucket that can take the key, and will be found again. *)
Definition free_slot (e : Z) : Prop := exists i b pre post, e = 2 * Z.of_nat i /\ ps !! i = Some b /\ ~ is_entry b /\
  dict_slots (Z.of_nat (length ps)) key = pre ++ e :: post /\ Forall (key_used ps) pre.
Definition full_slot (j : Z) : Prop := exists i b, j = 2 * Z.of_nat i /\ ps !! i = Some b /\ is_entry b.

Definition acc_ok (done : list Z) (acc : option Z) : Prop :=
  match acc with None => Forall full_slot done | Some e => free_slot e end.

(** The state of the loop after the slots [done]. *)
Lemma assign_scan_from l : forall done acc, dict_slots (Z.of_nat (length ps)) key = done ++ l ->
  Forall (key_used ps) done -> acc_ok done acc -> (forall i, 2 * Z.of_nat i ∈ done -> ~ holds_key i) ->
  (exists i, holds_key i /\ scan (assign_visit jl_nothing (flat ps) key) l acc = Some (inr (Replace (2 * Z.of_nat i)))) \/
  (exists e, (scan (assign_visit jl_nothing (flat ps) key) l acc = Some (inl e) \/
              scan (assign_visit jl_nothing (flat ps) key) l acc = Some (inr (Break e))) /\
     acc_ok (dict_slots (Z.of_nat (length ps)) key) e /\ forall i, holds_key i -> ~ dreach ps key i).
Proof.
  induction l as [|j l IH]; intros dn acc Hd Hu Hacc Hno.
  { right. exists acc. rewrite app_nil_r in Hd. split; [by left|]. rewrite Hd. split; [done|].
    intros i Hh (pre & post & E & _). apply (Hno i); [|done]. rewrite <- Hd, E. apply elem_of_app. right. by left. }
  destruct (dict_slots_bucket ps k Hk Hlen key j) as (i & -> & Hi).
  { rewrite Hd. apply elem_of_app. right. by left. }
  destruct (lookup_lt_is_Some_2 ps i Hi) as [b Hb]. cbn [scan]. rewrite (assign_visit_eq i b acc Hb).
  cbn [mbind option_bind].
  assert (forall acc', (exists k2 v, b = (Some k2, v)) -> acc_ok (dn ++ [2 * Z.of_nat i]) acc' -> ~ holds_key i ->
    (exists i, holds_key i /\ scan (assign_visit jl_nothing (flat ps) key) l acc' = Some (inr (Replace (2 * Z.of_nat i)))) \/
    (exists e, (scan (assign_visit jl_nothing (flat ps) key) l acc' = Some (inl e) \/
              scan (assign_visit jl_nothing (flat ps) key) l acc' = Some (inr (Break e))) /\
     acc_ok (dict_slots (Z.of_nat (length ps)) key) e /\ forall i, holds_key i -> ~ dreach ps key i)) as Hgo.
  { intros acc' (k2 & v & ->) Hacc' Hnk. apply (IH (dn ++ [2 * Z.of_nat i])); [by rewrite <- app_assoc| |done|].
    - apply Forall_app. split; [done|]. apply Forall_singleton. by exists i, k2, v.
    - intros i' [Hin|Hin%list_elem_of_singleton]%elem_of_app; [by apply Hno|]. by assert (i' = i) as -> by lia. }
  destruct b as [[k2|] v].
  - destruct v as [v|].
    + destruct (jl_egal key k2) eqn:E; [left; exists i; split; [by exists k2, v|done]|].
      apply Hgo; [eauto| |].
      * destruct acc; [done|]. apply Forall_app. split; [done|]. apply Forall_singleton. exists i, (Some k2, Some v).
        split; [done|]. split; [done|]. by eexists.
      * intros (k3 & v3 & E3 & Ee). rewrite Hb in E3. injection E3 as <- <-. congruence.
    + apply Hgo; [eauto| |].
      * destruct acc; [done|]. exists i, (Some k2, None), dn, l. split_and!; [done|done|by intros [? ?]|done|done].
      * intros (k3 & v3 & E3 & Ee). rewrite Hb in E3. done.
  - right. exists (first_empty acc (2 * Z.of_nat i)). split; [by right|]. split.
    + destruct acc; [done|]. exists i, (None, v), dn, l. split_and!; [done|done|by intros [? ?]|done|done].
    + intros i' Hh (pre & post & E & Hpre). rewrite Hd in E. destruct (app_cons_cases _ _ _ _ _ _ E) as [Hin|[Eq|Hin]].
      * by apply (Hno i').
      * assert (i' = i) as -> by lia. destruct Hh as (k3 & v3 & E3 & _). rewrite Hb in E3. done.
      * rewrite Forall_forall in Hpre. destruct (Hpre _ Hin) as (i2 & k3 & v3 & E2 & E3).
        assert (i2 = i) as -> by lia. rewrite Hb in E3. done.
Qed.

Lemma assign_scan : 
  (exists i, holds_key i /\ scan (assign_visit jl_nothing (flat ps) key) (dict_slots (Z.of_nat (length ps)) key) None = Some (inr (Replace (2 * Z.of_nat i)))) \/
  (exists e, (scan (assign_visit jl_nothing (flat ps) key) (dict_slots (Z.of_nat (length ps)) key) None = Some (inl e) \/
              scan (assign_visit jl_nothing (flat ps) key) (dict_slots (Z.of_nat (length ps)) key) None = Some (inr (Break e))) /\
     acc_ok (dict_slots (Z.of_nat (length ps)) key) e /\ forall i, holds_key i -> ~ dreach ps key i).
Proof.
  apply (assign_scan_from _ []); [done|constructor|constructor|]. intros i Hi. by apply elem_of_nil in Hi.
Qed.

(** No free bucket was seen: the table has many entries. *)
Lemma full_count : Forall full_slot (dict_slots (Z.of_nat (length ps)) key) ->
  Z.min (2 ^ k) (max_probe (2 ^ k) + 1) <= Z.of_nat (length (entries ps)).
Proof.
  intros Hf. rewrite <- (dict_slots_length ps k Hk Hlen key).
  assert (length (entries ps) = length (filter is_entry ps)) as ->.
  { unfold entries. generalize ps. clear. intros l. induction l as [|b l IH]; [done|]. rewrite filter_cons. cbn [omap list_omap].
    destruct (decide (is_entry b)) as [[e E]|E]; [rewrite E; cbn [length]; by f_equal|].
    unfold is_entry in E. destruct (entry b); [by destruct E|done]. }
  assert (length (map (fun j => Z.to_nat (j / 2)) (dict_slots (Z.of_nat (length ps)) key)) <= length (filter is_entry ps))%nat as Hle;
    [|rewrite length_map in Hle; lia].
  apply (filter_positions is_entry (None, None)); [by intros []| |].
  - apply NoDup_fmap_2_strong; [|by apply (dict_slots_NoDup ps k)].
    intros x y (i & -> & _)%(dict_slots_bucket ps k Hk Hlen) (j & -> & _)%(dict_slots_bucket ps k Hk Hlen).
    rewrite !(Z.mul_comm 2), !Z.div_mul by lia. lia.
  - apply Forall_fmap, Forall_forall. intros j Hj. rewrite Forall_forall in Hf. destruct (Hf j Hj) as (i & b & -> & Hb & He).
    exists b. split; [|done]. by rewrite (Z.mul_comm 2), Z.div_mul, Nat2Z.id.
Qed.
End Search.

(** ** Updates of a bucket *)

Definition opt_list (o : option (V * V)) : list (V * V) := match o with Some p => [p] | None => [] end.

Lemma entries_update ps i b b' : ps !! i = Some b -> exists l1 l2,
  entries ps = l1 ++ opt_list (entry b) ++ l2 /\ entries (<[i := b']> ps) = l1 ++ opt_list (entry b') ++ l2.
Proof.
  intros Hi. pose proof (lookup_lt_Some _ _ _ Hi). exists (entries (take i ps)), (entries (drop (S i) ps)).
  assert (forall b l1 l2, entries (l1 ++ b :: l2) = entries l1 ++ opt_list (entry b) ++ entries l2) as Hcut.
  { intros c l1 l2. unfold entries. rewrite omap_app. f_equal. cbn [omap list_omap]. by destruct (entry c). }
  split; [rewrite <- (take_drop_middle ps i b Hi) at 1; apply Hcut|]. rewrite insert_take_drop by done. apply Hcut.
Qed.

Lemma entries_lookup ps p : p ∈ entries ps <-> exists i, ps !! i = Some (Some p.1, Some p.2).
Proof.
  unfold entries. rewrite list_elem_of_omap. split.
  - intros ([[k|] [v|]] & Hb & E); try done. injection E as <-. by apply list_elem_of_lookup in Hb.
  - intros [i Hi]. exists (Some p.1, Some p.2). split; [by apply list_elem_of_lookup_2 in Hi|]. by destruct p.
Qed.

Lemma key_used_update ps i b k0 v0 j : ps !! i = Some b -> key_used ps j -> key_used (<[i := (Some k0, v0)]> ps) j.
Proof.
  intros Hi (i' & k' & v' & -> & Hi'). exists i'. destruct (decide (i = i')) as [<-|Hne].
  - exists k0, v0. split; [done|]. apply list_lookup_insert_eq. by apply lookup_lt_Some in Hi.
  - exists k', v'. split; [done|]. by rewrite list_lookup_insert_ne.
Qed.

Lemma dreach_update ps key i i' b k0 v0 : ps !! i' = Some b -> dreach ps key i -> dreach (<[i' := (Some k0, v0)]> ps) key i.
Proof.
  intros Hi (pre & post & E & Hpre). exists pre, post. rewrite length_insert. split; [done|].
  eapply Forall_impl; [exact Hpre|]. intros j Hj. by apply (key_used_update _ _ b).
Qed.

Lemma dict_wf_update ps i b k0 v0 : dict_wf ps -> ps !! i = Some b -> bucket_ok (Some k0, v0) ->
  keys_distinct (entries (<[i := (Some k0, v0)]> ps)) -> (forall v, v0 = Some v -> dreach ps k0 i) ->
  dict_wf (<[i := (Some k0, v0)]> ps).
Proof.
  intros Hwf Hi Hb Hd Hr. pose proof (lookup_lt_Some _ _ _ Hi). split.
  - right. rewrite length_insert. destruct (dict_len _ Hwf) as [->|?]; [by rewrite lookup_nil in Hi|done].
  - apply Forall_insert; [apply Hwf|done].
  - done.
  - intros j k v Hj. apply (dreach_update _ _ _ _ b); [done|]. destruct (decide (i = j)) as [<-|Hne].
    + rewrite list_lookup_insert_eq in Hj by done. injection Hj as -> ->. by apply (Hr v).
    + rewrite list_lookup_insert_ne in Hj by done. by apply (dict_reach _ Hwf j k v).
Qed.

Lemma holds_key_entries ps key : (forall i, ~ holds_key ps key i) <-> Forall (fun q => jl_egal key q.1 = false) (entries ps).
Proof.
  rewrite Forall_forall. split.
  - intros Hno q [i Hi]%entries_lookup. apply not_true_iff_false. intros E. apply (Hno i). by exists q.1, q.2.
  - intros Hf i (k & v & Hi & E). assert (jl_egal key k = false) by (apply (Hf (k, v)); apply entries_lookup; by exists i). congruence.
Qed.

Lemma dict_slots_egal n k1 k2 : jl_egal k1 k2 = true -> dict_slots n k1 = dict_slots n k2.
Proof. intros E. unfold dict_slots, keyhash. by rewrite (egal_id k1 k2 E). Qed.

Lemma holds_key_reach ps key i : dict_wf ps -> holds_key ps key i -> dreach ps key i.
Proof.
  intros Hwf (k & v & Hi & E). destruct (dict_reach _ Hwf i k v Hi) as (pre & post & Es & Hpre).
  exists pre, post. by rewrite (dict_slots_egal _ key k).
Qed.

Lemma dict_wf_alloc n : (n = 0%nat \/ exists k, 0 <= k <= 37 /\ Z.of_nat n = 2 ^ k) ->
  dict_wf (replicate n (None, None)) /\ entries (replicate n (None, None)) = [].
Proof.
  intros Hn. assert (entries (replicate n (None, None)) = []) as E by (by (clear Hn; induction n)).
  split; [|done]. split.
  - destruct Hn as [->|?]; [by left|right]. by rewrite length_replicate.
  - by apply Forall_replicate.
  - by rewrite E.
  - intros i k v [Hi _]%lookup_replicate. done.
Qed.

(** ** Assignment *)

(** What an assignment does to the entries. *)
Definition assigned (key val : V) (ins : bool) (es es' : list (V * V)) : Prop :=
  if ins then Forall (fun q => jl_egal key q.1 = false) es /\ es' ≡ₚ (key, val) :: es
  else exists k0 v0 rest, jl_egal key k0 = true /\ es ≡ₚ (k0, v0) :: rest /\ es' ≡ₚ (k0, val) :: rest.

Section Assign.
Context (key val : V).

(** One round of the loop: the key is replaced or inserted, or every bucket in
    reach is taken. *)
Lemma assign_round ps k : 0 <= k <= 37 -> Z.of_nat (length ps) = 2 ^ k -> dict_wf ps ->
  let sz := hash_size (flat ps) in
  let r := probe (assign_visit jl_nothing (flat ps) key) 2 (sz * 2) (max_probe sz) (dict_h2index (keyhash key) sz) None in
  (exists i ps', r = Some (inr (Replace i)) /\ <[Z.to_nat (i + 1) := Some val]> (flat ps) = flat ps' /\
     length ps' = length ps /\ dict_wf ps' /\ assigned key val false (entries ps) (entries ps')) \/
  (exists e ps', (r = Some (inl (Some e)) \/ r = Some (inr (Break (Some e)))) /\
     <[Z.to_nat (e + 1) := Some val]> (<[Z.to_nat e := Some key]> (flat ps)) = flat ps' /\
     length ps' = length ps /\ dict_wf ps' /\ assigned key val true (entries ps) (entries ps')) \/
  ((r = Some (inl None) \/ r = Some (inr (Break None))) /\
   Z.min (2 ^ k) (max_probe (2 ^ k) + 1) <= Z.of_nat (length (entries ps))).
Proof.
  intros Hk Hlen Hwf. cbv zeta. rewrite (dict_probe ps k Hk Hlen).
  destruct (assign_scan ps k Hk Hlen (dict_ok _ Hwf) key) as [(i & Hh & E)|(e & E & Hacc & Hno)].
  - left. destruct Hh as (k0 & v0 & Hi & Ee). exists (2 * Z.of_nat i), (<[i := (Some k0, Some val)]> ps).
    split; [done|]. split; [rewrite <- (flat_insert_val ps i (Some k0) (Some v0)) by done; f_equal; lia|].
    split; [apply length_insert|]. destruct (entries_update ps i _ (Some k0, Some val) Hi) as (l1 & l2 & E1 & E2).
    cbn [entry opt_list app] in E1, E2. split.
    + apply (dict_wf_update ps i (Some k0, Some v0)); [done|done|done| |].
      * pose proof (dict_distinct _ Hwf) as Hd. rewrite E1 in Hd. rewrite <- Permutation_middle in Hd. by rewrite E2, <- Permutation_middle.
      * intros v _. by apply (dict_reach _ Hwf i k0 v0).
    + exists k0, v0, (l1 ++ l2). rewrite E1, E2, <- !Permutation_middle. by split_and!.
  - assert (forall i, ~ holds_key ps key i) as Hno' by (intros i Hh; by apply (Hno i Hh), holds_key_reach).
    apply holds_key_entries in Hno'. right. destruct e as [e|].
    + left. destruct Hacc as (i & b & pre & post & -> & Hi & Hne & Es & Hpre).
      exists (2 * Z.of_nat i), (<[i := (Some key, Some val)]> ps). split; [done|].
      destruct b as [x y]. split.
      { replace (Z.to_nat (2 * Z.of_nat i)) with (2 * i)%nat by lia.
        replace (Z.to_nat (2 * Z.of_nat i + 1)) with (2 * i + 1)%nat by lia.
        rewrite (flat_insert_key ps i x (Some key) y Hi), (flat_insert_val _ i (Some key) y)
          by (apply list_lookup_insert_eq; by apply lookup_lt_Some in Hi).
        by rewrite list_insert_insert_eq. }
      split; [apply length_insert|].
      destruct (entries_update ps i _ (Some key, Some val) Hi) as (l1 & l2 & E1 & E2).
      assert (entry (x, y) = None) as Hnone by (destruct (entry (x, y)) eqn:Ex; [destruct Hne; by eexists|done]).
      rewrite Hnone in E1. cbn [entry opt_list app] in E1, E2.
      assert (entries (<[i := (Some key, Some val)]> ps) ≡ₚ (key, val) :: entries ps) as Ep
        by (by rewrite E1, E2, <- Permutation_middle).
      split; [|by split]. apply (dict_wf_update ps i (x, y)); [done|done|done| |].
      * rewrite Ep. split; [done|apply Hwf].
      * intros v _. by exists pre, post.
    + right. split; [destruct E; [by left|by right]|]. by apply (full_count ps k Hk Hlen key).
Qed.
End Assign.

(** Assignment with the fuel for the levels above the table's. *)
Definition level_fuel (n : nat) (fuel : nat) : Prop :=
  (n = 0%nat /\ 34 <= Z.of_nat fuel) \/ exists k, 0 <= k <= 37 /\ Z.of_nat n = 2 ^ k /\ 37 - k < Z.of_nat fuel.

Definition assign_ok (assign : list (option V) -> V -> V -> option (bool * list (option V))) (fuel : nat) : Prop :=
  forall ps key val, dict_wf ps -> level_fuel (length ps) fuel -> Z.of_nat (length (entries ps)) < 2 ^ 31 - 1 ->
  exists ins ps', assign (flat ps) key val = Some (ins, flat ps') /\ dict_wf ps' /\ (1 <= length ps')%nat /\
    (length ps <= length ps')%nat /\ assigned key val ins (entries ps) (entries ps').

Lemma level_fuel_mono n n' fuel : (1 <= n)%nat -> (n <= n')%nat -> level_fuel n fuel -> forall ps, dict_wf ps -> length ps = n' -> level_fuel n' fuel.
Proof.
  intros H1 Hle [[-> _]|(k & Hk & E & Hf)] ps Hwf <-; [lia|]. right.
  destruct (dict_len _ Hwf) as [->|(k' & Hk' & E')]; [simpl in *; lia|]. exists k'. split; [done|]. split; [done|].
  assert (k <= k') by (apply (Z.pow_le_mono_r_iff 2); lia). lia.
Qed.

Lemma rehash_pairs_spec assign fuel : assign_ok assign fuel -> forall ol ps, Forall bucket_ok ol -> dict_wf ps ->
  (1 <= length ps)%nat -> level_fuel (length ps) fuel -> keys_distinct (entries ps ++ entries ol) ->
  Z.of_nat (length (entries ps ++ entries ol)) < 2 ^ 31 ->
  exists ps', rehash_pairs assign (flat ol) (flat ps) = Some (flat ps') /\ dict_wf ps' /\ (length ps <= length ps')%nat /\
    entries ps' ≡ₚ entries ps ++ entries ol.
Proof.
  intros Hassign. induction ol as [|b ol IH]; intros ps Hok Hwf H1 Hf Hd Hc.
  { exists ps. rewrite app_nil_r. by split_and!. }
  apply Forall_cons in Hok as [Hb Hok]. destruct b as [[k|] [v|]]; [|by apply IH|done|by apply IH].
  change (entries ((Some k, Some v) :: ol)) with ((k, v) :: entries ol) in *.
  rewrite <- Permutation_middle in Hd. destruct Hd as [Hnew Hd]. cbn [fst] in Hnew.
  rewrite length_app in Hc. cbn [length] in Hc.
  destruct (Hassign ps k v Hwf Hf ltac:(lia)) as (ins & ps1 & E & Hwf1 & _ & Hle & Ha).
  cbn [flat rehash_pairs]. rewrite E. cbn [mbind option_bind snd].
  assert (entries ps1 ≡ₚ (k, v) :: entries ps) as Ep.
  { destruct ins; [apply Ha|]. destruct Ha as (k0 & v0 & rest & Ee & Ep & _). rewrite Ep in Hnew.
    apply Forall_app in Hnew as [Hnew _]. apply Forall_cons in Hnew as [Hnew _]. cbn [fst] in Hnew. congruence. }
  assert (entries ps1 ++ entries ol ≡ₚ entries ps ++ (k, v) :: entries ol) as Ep' by (rewrite Ep; apply Permutation_middle).
  destruct (IH ps1) as (ps2 & -> & Hwf2 & Hle2 & Ep2); [done|done|lia|by apply (level_fuel_mono (length ps) _ _ H1 Hle Hf ps1)| | |].
  - rewrite Ep', <- Permutation_middle. by split.
  - rewrite Ep', length_app. cbn [length]. lia.
  - exists ps2. split; [done|]. split; [done|]. split; [lia|]. by rewrite Ep2, Ep'.
Qed.

Lemma assign_spec fuel : assign_ok (jl_table_assign_bp jl_nothing fuel) fuel.
Proof.
  induction fuel as [|fuel IH]; intros ps key val Hwf Hf Hc.
  { destruct Hf as [[_ ?]|(k & ? & _ & ?)]; simpl in *; lia. }
  assert (exists ps1 k, (if hash_size (flat ps) =? 0 then jl_alloc_memory_any HT_N_INLINE else flat ps) = flat ps1 /\
    0 <= k <= 37 /\ Z.of_nat (length ps1) = 2 ^ k /\ 37 - k < Z.of_nat (S fuel) /\ dict_wf ps1 /\ entries ps1 = entries ps /\
    (length ps <= length ps1)%nat) as (ps1 & k & E & Hk & Hlen & Hkf & Hwf1 & Ee & Hle).
  { unfold hash_size. rewrite flat_length. destruct Hf as [[E0 Hf]|(k & Hk & El & Hkf)].
    - exists (replicate 16 (None, None)), 4. rewrite E0. destruct ps; [|done]. simpl (_ =? 0).
      destruct (dict_wf_alloc 16) as [Hw He]; [right; by exists 4|]. rewrite flat_replicate.
      split; [done|]. split; [lia|]. split; [done|]. split; [lia|]. split; [done|]. split; [done|simpl; lia].
    - exists ps, k. pose proof (pow2_pos k ltac:(lia)).
      rewrite Nat2Z.inj_mul, Z.mul_comm, Z.div_mul by lia. destruct (Z.eqb_spec (Z.of_nat (length ps)) 0); [lia|]. do 6 (split; [done|]). lia. }
  cbn [jl_table_assign_bp]. rewrite E. cbv zeta. rewrite <- Ee in Hc |- *.
  assert (1 <= length ps1)%nat as H1 by (pose proof (pow2_pos k); lia).
  destruct (assign_round key val ps1 k Hk Hlen Hwf1) as [(i & ps' & Er & Ew & El & Hwf' & Ha)|[(e & ps' & Er & Ew & El & Hwf' & Ha)|[Er Hfull]]].
  - rewrite Er. cbn [mbind option_bind]. rewrite Ew. exists false, ps'. split; [done|]. split; [done|]. split; [lia|]. split; [lia|exact Ha].
  - exists true, ps'. destruct Er as [-> | ->]; cbn [mbind option_bind]; rewrite Ew; (split; [done|]; split; [done|]; split; [lia|]; split; [lia|exact Ha]).
  - assert (k < 37).
    { pose proof (max_probe_bound k Hk) as [_ Hmp]. destruct (Z.eq_dec k 37) as [->|]; [|lia]. rewrite Hmp in Hfull by lia.
      change (2 ^ 37) with 137438953472 in *. change (2 ^ 31) with 2147483648 in *. lia. }
    assert (exists k', grow_size (Z.of_nat (length (flat ps1))) = 2 * 2 ^ k' /\ k < k' <= 37) as (k' & Eg & Hk').
    { rewrite flat_length, Nat2Z.inj_mul, Hlen, <- Z.pow_succ_r by lia.
      destruct (grow_size_spec (Z.succ k)) as (k2 & -> & ?); [lia|]. exists (k2 - 1). rewrite <- Z.pow_succ_r by lia.
      split; [f_equal; lia|lia]. }
    rewrite Eg.
    assert (exists ps2, jl_idtable_rehash_with (jl_table_assign_bp jl_nothing fuel) (flat ps1) (2 * 2 ^ k') = Some (flat ps2) /\
      dict_wf ps2 /\ 2 ^ k' <= Z.of_nat (length ps2) /\ entries ps2 ≡ₚ entries ps1) as (ps2 & Er2 & Hwf2 & Hle2 & Ep2).
    { unfold jl_idtable_rehash_with, jl_alloc_memory_any. pose proof (pow2_pos k' ltac:(lia)).
      replace (Z.to_nat (2 * 2 ^ k')) with (2 * Z.to_nat (2 ^ k'))%nat by lia. rewrite <- flat_replicate.
      destruct (dict_wf_alloc (Z.to_nat (2 ^ k'))) as [Hw He]; [right; exists k'; split; lia|].
      destruct (rehash_pairs_spec _ fuel IH ps1 (replicate (Z.to_nat (2 ^ k')) (None, None))) as (ps2 & -> & ? & Hl2 & Ep2).
      - apply Hwf1.
      - done.
      - rewrite length_replicate. lia.
      - rewrite length_replicate. right. exists k'. split_and!; lia.
      - rewrite He. apply Hwf1.
      - rewrite He. cbn [app]. lia.
      - exists ps2. rewrite length_replicate in Hl2. rewrite He in Ep2. split_and!; [done|done|lia|done]. }
    assert (2 ^ k <= 2 ^ k') by (apply Z.pow_le_mono_r; lia).
    destruct (IH ps2 key val Hwf2) as (ins & ps3 & E3 & Hwf3 & H13 & Hle3 & Ha3).
    + right. destruct (dict_len _ Hwf2) as [->|(k2 & Hk2 & El2)]; [pose proof (pow2_pos k'); simpl in *; lia|].
      exists k2. split; [done|]. split; [done|]. assert (k' <= k2) by (apply (Z.pow_le_mono_r_iff 2); lia). lia.
    + by rewrite Ep2.
    + exists ins, ps3. split.
      { destruct Er as [-> | ->]; cbn [mbind option_bind]; rewrite Er2; exact E3. }
      split; [done|]. split; [lia|]. split; [lia|]. destruct ins.
      * destruct Ha3 as [Hf3 Ep3]. rewrite Ep2 in Hf3, Ep3. by split.
      * destruct Ha3 as (k0 & v0 & rest & ? & Hr1 & Hr2). exists k0, v0, rest. rewrite Ep2 in Hr1. by split_and!.
Qed.

(** ** Lookup *)

Lemma peek_visit_eq ps key i b u : Forall bucket_ok ps -> ps !! i = Some b ->
  peek_visit jl_nothing (flat ps) key (2 * Z.of_nat i) u = Some
    match b with
    | (None, _) => inr None
    | (Some k2, Some _) => if jl_egal key k2 then inr (Some (2 * Z.of_nat i + 1)) else inl tt
    | (Some _, None) => inl tt
    end.
Proof.
  intros Hok Hi. unfold peek_visit. rewrite key_at, val_at, Hi. cbn [fmap option_fmap option_map fst snd mbind option_bind].
  pose proof (Forall_lookup_1 _ _ _ _ Hok Hi) as Hb. destruct b as [[k2|] [v|]]; cbn [fst snd mbind option_bind]; [|..|done|done].
  - by destruct (jl_egal key k2).
  - simpl in Hb. subst k2. destruct (jl_egal key jl_nothing) eqn:E; [|done]. by rewrite decide_True by (by apply nothing_unique).
Qed.

Lemma peek_spec ps key : dict_wf ps ->
  (exists i, holds_key ps key i /\ jl_table_peek_bp jl_nothing (flat ps) key = Some (Some (2 * Z.of_nat i + 1))) \/
  ((forall i, ~ holds_key ps key i) /\ jl_table_peek_bp jl_nothing (flat ps) key = Some None).
Proof.
  intros Hwf. unfold jl_table_peek_bp. destruct (dict_len _ Hwf) as [->|(k & Hk & Hlen)].
  { right. split; [|done]. intros i (k & v & Hi & _). by rewrite lookup_nil in Hi. }
  assert (hash_size (flat ps) = 2 ^ k) as Eh.
  { unfold hash_size. rewrite flat_length, Nat2Z.inj_mul, Z.mul_comm, Z.div_mul by lia. done. }
  pose proof (dict_probe ps k Hk Hlen (peek_visit jl_nothing (flat ps) key) key tt) as Hp. cbv zeta in Hp. rewrite Eh in *.
  destruct (Z.eqb_spec (2 ^ k) 0); [pose proof (pow2_pos k); lia|]. rewrite Hp. clear Hp.
  assert (forall j, j ∈ dict_slots (Z.of_nat (length ps)) key -> exists i b, j = 2 * Z.of_nat i /\ ps !! i = Some b) as Hsl.
  { intros j (i & -> & Hi)%(dict_slots_bucket ps k Hk Hlen). destruct (lookup_lt_is_Some_2 ps i Hi) as [b Hb]. by exists i, b. }
  destruct (scan_first (peek_visit jl_nothing (flat ps) key) (dict_slots (Z.of_nat (length ps)) key) tt)
    as [[-> Hall]|(pre & j & post & r & E & Hpre & Hj & ->)].
  - apply Forall_forall. intros j (i & b & -> & Hb)%Hsl. rewrite (peek_visit_eq ps key i b) by (done || apply Hwf).
    destruct b as [[k2|] [v|]]; [destruct (jl_egal key k2)|..]; eauto.
  - right. split; [|done]. intros i Hh. destruct (holds_key_reach ps key i Hwf Hh) as (pre & post & E & _).
    rewrite E in Hall. apply Forall_app in Hall as [_ Hall]. apply Forall_cons in Hall as [Hall _].
    destruct Hh as (k2 & v & Hi & He). rewrite (peek_visit_eq ps key i _ tt (dict_ok _ Hwf) Hi), He in Hall. done.
  - cbn [mbind option_bind]. destruct (Hsl j) as (i & b & -> & Hb); [rewrite E; apply elem_of_app; right; by left|].
    rewrite (peek_visit_eq ps key i b) in Hj by (done || apply Hwf). destruct b as [[k2|] v]; [destruct v as [v|]; [|done]|].
    + destruct (jl_egal key k2) eqn:Ee; [|done]. injection Hj as <-. left. exists i. split; [by exists k2, v|done].
    + injection Hj as <-. right. split; [|done]. intros i' Hh.
      destruct (holds_key_reach ps key i' Hwf Hh) as (pre' & post' & E' & Hu). rewrite E in E'.
      rewrite Forall_forall in Hpre, Hu. destruct Hh as (k2 & v2 & Hi & He).
      destruct (app_cons_cases _ _ _ _ _ _ E') as [Hin|[Eq|Hin]].
      * specialize (Hpre _ Hin). cbv beta in Hpre. rewrite (peek_visit_eq ps key i' _ tt (dict_ok _ Hwf) Hi), He in Hpre. done.
      * assert (i' = i) as -> by lia. congruence.
      * destruct (Hu _ Hin) as (i2 & k3 & v3 & E2 & E3). assert (i2 = i) as -> by lia. congruence.
Qed.

Lemma get_spec ps key deflt : dict_wf ps ->
  (exists k0 v0, (k0, v0) ∈ entries ps /\ jl_egal key k0 = true /\
     jl_eqtable_get jl_nothing (flat ps) key deflt = Some (Some v0) /\
     jl_eqtable_getkey jl_nothing (flat ps) key deflt = Some (Some k0)) \/
  (Forall (fun q => jl_egal key q.1 = false) (entries ps) /\
     jl_eqtable_get jl_nothing (flat ps) key deflt = Some deflt /\ jl_eqtable_getkey jl_nothing (flat ps) key deflt = Some deflt).
Proof.
  intros Hwf. unfold jl_eqtable_get, jl_eqtable_getkey.
  destruct (peek_spec ps key Hwf) as [(i & (k0 & v0 & Hi & He) & ->)|[Hno ->]]; cbn [mbind option_bind].
  - left. exists k0, v0. split; [apply entries_lookup; by exists i|]. split; [done|].
    rewrite Z.add_simpl_r, val_at, key_at, Hi. done.
  - right. split; [by apply holds_key_entries|done].
Qed.

Lemma pop_spec ps key deflt : dict_wf ps -> exists r found ps',
  jl_eqtable_pop jl_nothing (flat ps) key deflt = Some (r, found, flat ps') /\ dict_wf ps' /\
  if (found : bool) then exists k0 v0, jl_egal key k0 = true /\ r = Some v0 /\ entries ps ≡ₚ (k0, v0) :: entries ps'
  else r = deflt /\ ps' = ps /\ Forall (fun q => jl_egal key q.1 = false) (entries ps).
Proof.
  intros Hwf. unfold jl_eqtable_pop.
  destruct (peek_spec ps key Hwf) as [(i & (k0 & v0 & Hi & He) & ->)|[Hno ->]]; cbn [mbind option_bind].
  2:{ exists deflt, false, ps. split; [done|]. split; [done|]. split; [done|]. split; [done|by apply holds_key_entries]. }
  rewrite val_at, Hi. cbn [fmap option_fmap option_map snd mbind option_bind].
  set (ps' := <[i := (Some jl_nothing, None)]> ps).
  destruct (entries_update ps i _ (Some jl_nothing, None) Hi) as (l1 & l2 & E1 & E2). fold ps' in E2.
  cbn [entry opt_list app] in E1, E2.
  assert (entries ps ≡ₚ (k0, v0) :: entries ps') as Ep by (by rewrite E1, E2, <- Permutation_middle).
  exists (Some v0), true, ps'. split; [|split].
  - rewrite Z.add_simpl_r. replace (Z.to_nat (2 * Z.of_nat i)) with (2 * i)%nat by lia.
    replace (Z.to_nat (2 * Z.of_nat i + 1)) with (2 * i + 1)%nat by lia.
    rewrite (flat_insert_key ps i (Some k0) (Some jl_nothing) (Some v0) Hi), (flat_insert_val _ i (Some jl_nothing) (Some v0))
      by (apply list_lookup_insert_eq; by apply lookup_lt_Some in Hi).
    unfold ps'. by rewrite list_insert_insert_eq.
  - apply (dict_wf_update ps i (Some k0, Some v0)); [done|done|done| |done].
    fold ps'. pose proof (dict_distinct _ Hwf) as Hd. rewrite Ep in Hd. apply Hd.
  - exists k0, v0. by split_and!.
Qed.

(** ** Iteration *)
Lemma nextind_loop_spec ps fuel : forall i, (length ps - i < fuel)%nat -> (i <= length ps)%nat -> Forall bucket_ok ps ->
  exists j, nextind_loop fuel (flat ps) (2 * Z.of_nat i) = Some (2 * Z.of_nat j) /\ (i <= j <= length ps)%nat /\
    (forall m, (i <= m < j)%nat -> exists b, ps !! m = Some b /\ entry b = None) /\
    (j = length ps \/ exists p, ps !! j = Some (Some p.1, Some p.2)).
Proof.
  induction fuel as [|fuel IH]; intros i Hf Hi Hok; [lia|]. cbn [nextind_loop]. rewrite flat_length.
  destruct (Z.ltb_spec (2 * Z.of_nat i) (Z.of_nat (2 * length ps))).
  2:{ exists i. split; [done|]. split; [lia|]. split; [intros; lia|left; lia]. }
  destruct (lookup_lt_is_Some_2 ps i) as [b Hb]; [lia|]. rewrite val_at, Hb. cbn [fmap option_fmap option_map mbind option_bind].
  pose proof (Forall_lookup_1 _ _ _ _ Hok Hb) as Hbo. destruct b as [x [v|]]; cbn [snd].
  - exists i. split; [done|]. split; [lia|]. split; [intros; lia|right]. destruct x as [k|]; [|done]. by exists (k, v).
  - replace (2 * Z.of_nat i + 2) with (2 * Z.of_nat (S i)) by lia.
    destruct (IH (S i)) as (j & -> & Hj & Hm & Hl); [lia|lia|done|]. exists j. split; [done|]. split; [lia|]. split; [|done].
    intros m Hmm. destruct (decide (m = i)) as [->|]; [exists (x, None); split; [done|by destruct x]|]. apply Hm. lia.
Qed.

Lemma nextind_spec ps i : dict_wf ps -> 0 <= i <= Z.of_nat (length (flat ps)) ->
  (exists j k v, jl_eqtable_nextind (flat ps) i = Some (2 * Z.of_nat j) /\ i <= 2 * Z.of_nat j /\
     ps !! j = Some (Some k, Some v) /\ forall m k v, i <= 2 * Z.of_nat m < 2 * Z.of_nat j -> ps !! m <> Some (Some k, Some v)) \/
  (jl_eqtable_nextind (flat ps) i = Some SIZE_MAX /\
     forall m k v, i <= 2 * Z.of_nat m -> ps !! m <> Some (Some k, Some v)).
Proof.
  intros Hwf Hi. rewrite flat_length in Hi. unfold jl_eqtable_nextind.
  assert (exists i', (if Z.odd i then i + 1 else i) = 2 * Z.of_nat i' /\ (i' <= length ps)%nat /\
    forall m, i <= 2 * Z.of_nat m <-> (i' <= m)%nat) as (i' & -> & Hi' & Hm').
  { pose proof (Zdiv2_odd_eqn i) as Ho. destruct (Z.odd i); [exists (Z.to_nat (Z.div2 i + 1))|exists (Z.to_nat (Z.div2 i))];
      (split; [lia|]; split; [lia|intros; lia]). }
  destruct (nextind_loop_spec ps (S (length (flat ps))) i') as (j & E & Hj & Hnone & Hl); [rewrite flat_length; lia|done|apply Hwf|].
  rewrite E. cbn [mbind option_bind]. rewrite flat_length. destruct (Z.leb_spec (Z.of_nat (2 * length ps)) (2 * Z.of_nat j)).
  - right. split; [done|]. intros m k v Hm Hp. destruct (Hnone m) as (b & Hb & Hbn).
    + apply lookup_lt_Some in Hp. apply Hm' in Hm. lia.
    + rewrite Hp in Hb. by injection Hb as <-.
  - left. destruct Hl as [->|[[k v] Hp]]; [lia|]. exists j, k, v. split; [done|]. split; [apply Hm'; lia|]. split; [done|].
    intros m k' v' [Hm Hmj] Hp'. destruct (Hnone m) as (b & Hb & Hbn); [apply Hm' in Hm; lia|].
    rewrite Hp' in Hb. by injection Hb as <-.
Qed.

Lemma dict_rehash_spec ps k : dict_wf ps -> Z.of_nat (length (entries ps)) < 2 ^ 31 -> 0 <= k <= 37 ->
  exists ps', jl_idtable_rehash jl_nothing (flat ps) (2 * 2 ^ k) = Some (flat ps') /\ dict_wf ps' /\
    entries ps' ≡ₚ entries ps /\ 2 ^ k <= Z.of_nat (length ps').
Proof.
  intros Hwf Hc Hk. pose proof (pow2_pos k ltac:(lia)).
  unfold jl_idtable_rehash, jl_idtable_rehash_with, jl_alloc_memory_any.
  replace (Z.to_nat (2 * 2 ^ k)) with (2 * Z.to_nat (2 ^ k))%nat by lia. rewrite <- flat_replicate.
  destruct (dict_wf_alloc (Z.to_nat (2 ^ k))) as [Hw He]; [right; exists k; split; lia|].
  destruct (rehash_pairs_spec _ 64 (assign_spec 64) ps (replicate (Z.to_nat (2 ^ k)) (None, None))) as (ps' & E & ? & Hl & Ep).
  - apply Hwf.
  - done.
  - rewrite length_replicate. lia.
  - rewrite length_replicate. right. exists k. split; [done|]. split; [lia|lia].
  - rewrite He. apply Hwf.
  - by rewrite He.
  - exists ps'. rewrite length_replicate in Hl. rewrite He in Ep. split; [exact E|]. split; [done|]. split; [done|lia].
Qed.

Lemma level_fuel_64 ps : dict_wf ps -> level_fuel (length ps) 64.
Proof.
  intros Hwf. destruct (dict_len _ Hwf) as [->|(k & Hk & E)]; [left; split; [done|lia]|right]. exists k. split; [done|]. split; [done|lia].
Qed.
End IdDict.

(** * Identity dictionaries: the properties *)

(** C34: [jl_eqtable_put] ends, whatever the hashes, and gives a dictionary with
    the entry: a key that is in it keeps its object and gets the new value, a
    new one is added (the flag says which), the others stay; afterwards
    [jl_eqtable_get] finds the value. Growth is part of it: the mutual recursion
    of assignment and rehashing never runs out of sizes. *)
Theorem eqtable_put_correct (V : Type) `{ObjectId V} `{EqDecision V} (jl_nothing : V) ps key val :
  (forall x, jl_egal x jl_nothing = true -> x = jl_nothing) ->
  dict_wf jl_nothing ps -> Z.of_nat (length (entries ps)) < 2 ^ 31 - 1 ->
  exists ins ps', jl_eqtable_put jl_nothing (flat ps) key val = Some (ins, flat ps') /\ dict_wf jl_nothing ps' /\
    assigned key val ins (entries ps) (entries ps') /\
    forall deflt, jl_eqtable_get jl_nothing (flat ps') key deflt = Some (Some val).
Proof.
  intros Hn Hwf Hc. destruct (assign_spec jl_nothing Hn 64 ps key val Hwf (level_fuel_64 _ ps Hwf) Hc) as (ins & ps' & E & Hwf' & _ & _ & Ha).
  exists ins, ps'. split; [exact E|]. split; [done|]. split; [done|]. intros deflt.
  assert (exists k0 rest, jl_egal key k0 = true /\ entries ps' ≡ₚ (k0, val) :: rest) as (k0 & rest & He & Ep).
  { destruct ins; [exists key, (entries ps); split; [apply egal_refl|apply Ha]|].
    destruct Ha as (k0 & v0 & rest & ? & _ & ?). by exists k0, rest. }
  destruct (get_spec jl_nothing Hn ps' key deflt Hwf') as [(k1 & v1 & Hin & He1 & Eg & _)|[Hno _]].
  - rewrite Eg. do 2 f_equal. rewrite Ep in Hin. apply elem_of_cons in Hin as [[= -> ->]|Hin]; [done|].
    pose proof (dict_distinct _ _ Hwf') as Hd. rewrite Ep in Hd. destruct Hd as [Hd _]. rewrite Forall_forall in Hd.
    specialize (Hd _ Hin). cbn [fst] in Hd. rewrite (egal_trans k0 key k1) in Hd; [done|by apply egal_sym|done].
  - rewrite Ep in Hno. apply Forall_cons in Hno as [Hno _]. cbn [fst] in Hno. congruence.
Qed.

(** C35: In a well-formed dictionary of fewer than 2^31 - 1 entries, where
    [jl_nothing] is equal only to itself: [jl_eqtable_get] and
    [jl_eqtable_getkey] find the entry of an equal key, or give the default when
    there is none; [jl_eqtable_pop] removes that entry and no other;
    [jl_idtable_rehash] to 2^k slots (an array of 2 * 2^k, k up to 37; the sizes
    the runtime asks for are powers of two) keeps the entries and has at least
    as many slots; [jl_eqtable_nextind] gives the next entry's index, or -1 at
    the end. *)
Theorem eqtable_correct (V : Type) `{ObjectId V} `{EqDecision V} (jl_nothing : V) ps key deflt :
  (forall x, jl_egal x jl_nothing = true -> x = jl_nothing) ->
  dict_wf jl_nothing ps -> Z.of_nat (length (entries ps)) < 2 ^ 31 - 1 ->
  ((exists k0 v0, (k0, v0) ∈ entries ps /\ jl_egal key k0 = true /\
     jl_eqtable_get jl_nothing (flat ps) key deflt = Some (Some v0) /\
     jl_eqtable_getkey jl_nothing (flat ps) key deflt = Some (Some k0)) \/
   (Forall (fun q => jl_egal key q.1 = false) (entries ps) /\
     jl_eqtable_get jl_nothing (flat ps) key deflt = Some deflt /\
     jl_eqtable_getkey jl_nothing (flat ps) key deflt = Some deflt)) /\
  (exists r (found : bool) ps', jl_eqtable_pop jl_nothing (flat ps) key deflt = Some (r, found, flat ps') /\ dict_wf jl_nothing ps' /\
    if found then exists k0 v0, jl_egal key k0 = true /\ r = Some v0 /\ entries ps ≡ₚ (k0, v0) :: entries ps'
    else r = deflt /\ ps' = ps /\ Forall (fun q => jl_egal key q.1 = false) (entries ps)) /\
  (forall k, 0 <= k <= 37 -> exists ps', jl_idtable_rehash jl_nothing (flat ps) (2 * 2 ^ k) = Some (flat ps') /\
    dict_wf jl_nothing ps' /\ entries ps' ≡ₚ entries ps /\ 2 ^ k <= Z.of_nat (length ps')) /\
  (forall i, 0 <= i <= Z.of_nat (length (flat ps)) ->
    (exists j k v, jl_eqtable_nextind (flat ps) i = Some (2 * Z.of_nat j) /\ i <= 2 * Z.of_nat j /\
       ps !! j = Some (Some k, Some v) /\ forall m k v, i <= 2 * Z.of_nat m < 2 * Z.of_nat j -> ps !! m <> Some (Some k, Some v)) \/
    (jl_eqtable_nextind (flat ps) i = Some SIZE_MAX /\
       forall m k v, i <= 2 * Z.of_nat m -> ps !! m <> Some (Some k, Some v))).
Proof.
  intros Hn Hwf Hc. split; [by apply get_spec|]. split; [by apply pop_spec|].
  split; [intros; apply dict_rehash_spec; [done|done|lia|done]|]. intros. by apply (nextind_spec jl_nothing).
Qed.

Lemma Z_nothing (x : Z) : jl_egal x 0 = true -> x = 0.
Proof. apply Z.eqb_eq. Qed.

Lemma dict_wf_empty : dict_wf (V := Z) 0 [].
Proof. split; [by left|constructor|done|]. intros i k v Hi. by rewrite lookup_nil in Hi. Qed.

Lemma eqtable_put_correct_witness : dict_wf (V := Z) 0 [] /\ exists ins ps',
  jl_eqtable_put (V := Z) 0 [] 5 6 = Some (ins, flat ps') /\ dict_wf 0 ps' /\ assigned 5 6 ins [] (entries ps') /\
  forall deflt, jl_eqtable_get 0 (flat ps') 5 deflt = Some (Some 6).
Proof.
  split; [apply dict_wf_empty|].
  apply (eqtable_put_correct Z 0 [] 5 6); [exact Z_nothing|apply dict_wf_empty|done].
Defined.

Lemma eqtable_correct_witness : dict_wf (V := Z) 0 [] /\ exists ps', jl_idtable_rehash (V := Z) 0 [] (2 * 2 ^ 3) = Some (flat ps') /\
  dict_wf 0 ps' /\ entries ps' ≡ₚ [] /\ 2 ^ 3 <= Z.of_nat (length ps').
Proof.
  split; [apply dict_wf_empty|].
  apply (proj1 (proj2 (proj2 (eqtable_correct Z 0 [] 5 None Z_nothing dict_wf_empty eq_refl)))); lia.
Defined.
