(* ===== verification/Htable.v ===== *)
(** * Pointer hash tables: src/src/support/htable.c and htable.inc

    A table of [size] words: slot [2 i] has a key, slot [2 i + 1] its value.
    [HT_NOTFOUND] as a key marks a pair that was never used, as a value one that
    has no value (the key of a deleted entry stays). The macros of htable.inc are
    a section over their parameters. A pointer into the table is the index of
    the word; [None] is a read outside the table, or a recursion deeper than the
    fuel. Allocation succeeds. *)
From S2P Require Import Prelude Probe.

Definition HT_NOTFOUND : Z := 1.
Definition HT_N_INLINE : Z := 32.

Record htable_t := { size : Z; table : list Z; count : Z; live : Z }.

Definition hash_size (h : htable_t) : Z := size h / 2.
Definition max_probe (size : Z) : Z := if size <=? HT_N_INLINE * 2 then HT_N_INLINE / 2 else Z.shiftr size 3.

(** The parameter of [next_power_of_two] has 32 bits. *)
Definition htable_new (size : Z) : htable_t :=
  let size := if size <=? HT_N_INLINE / 2 then HT_N_INLINE else u64 (u64 (next_power_of_two (u32 size) * 2) * 2) in
  {| size := size; table := replicate (Z.to_nat size) HT_NOTFOUND; count := 0; live := 0 |}.

Definition htable_reset (h : htable_t) (sz : Z) : htable_t :=
  let sz := next_power_of_two (u32 sz) in
  if (u64 (sz * 4) <? size h) && (HT_N_INLINE <? size h) then htable_new sz
  else {| size := size h; table := replicate (Z.to_nat (size h)) HT_NOTFOUND; count := 0; live := 0 |}.

Section Htimpl.
Context (HFUNC : Z -> Z) (EQFUNC : Z -> Z -> bool) (KEYALLOC : Z -> Z).
Implicit Types (h : htable_t) (key val : Z).

(** How the probing loop of the lookup is left: at the key, or with
    [empty_slot], which is [None] for -1. *)
Inductive lookup_exit := Found (index : Z) | Stop (empty_slot : option Z).

Definition first_empty (empty_slot : option Z) (index : Z) : option Z :=
  match empty_slot with None => Some index | Some e => Some e end.

Definition lookup_visit (tab : list Z) key (index : Z) (empty_slot : option Z) : option (option Z + lookup_exit) :=
  k ← tab !! Z.to_nat index;
  if k =? HT_NOTFOUND then Some (inr (Stop (first_empty empty_slot index))) else
  v ← tab !! Z.to_nat (index + 1);
  let empty_slot := if v =? HT_NOTFOUND then first_empty empty_slot index else empty_slot in
  if EQFUNC key k then Some (inr (Found index)) else Some (inl empty_slot).

Definition peek_visit (tab : list Z) key (index : Z) (_ : unit) : option (unit + option Z) :=
  k ← tab !! Z.to_nat index;
  if k =? HT_NOTFOUND then Some (inr None)
  else if EQFUNC key k then Some (inr (Some (index + 1))) else Some (inl tt).

(** The probing loop of both: the step grows by one pair each round. [sz] is the
    number of words. *)
Definition quad_body {A R} (visit : Z -> A -> option (A + R)) (sz maxprobe orig : Z) (st : Z * Z * A) :
  option ((Z * Z * A) + (A + R)) :=
  let '(index, iter, acc) := st in
  r ← visit index acc;
  match r with
  | inr r => Some (inr (inr r))
  | inl acc =>
      let iter := u64 (iter + 1) in
      let index := Z.land (u64 (index + u64 (iter * 2))) (u64 (sz - 1)) in
      if maxprobe <? iter then Some (inr (inl acc))
      else if negb (index =? orig) then Some (inl (index, iter, acc)) else Some (inr (inl acc))
  end.
Definition quad_probe {A R} (visit : Z -> A -> option (A + R)) (sz maxprobe orig : Z) (acc : A) : option (A + R) :=
  loop (S (Z.to_nat maxprobe)) (quad_body visit sz maxprobe orig) (orig, 0, acc).

Definition h2index (hv sz : Z) : Z := u64 (Z.land hv (u64 (sz - 1)) * 2).

Definition set_word h (i x : Z) : htable_t :=
  {| size := size h; table := <[Z.to_nat i := x]> (table h); count := count h; live := live h |}.

(** [for (i = 0; i < sz; i += 2)] over the old table [ol], with the recursive
    call. *)
Fixpoint rehash_loop (insert : htable_t -> Z -> option (htable_t * Z)) (ol : list Z) h : option htable_t :=
  match ol with
  | k :: v :: ol =>
      if negb (v =? HT_NOTFOUND) then
        '(h, bp) ← insert h k;
        rehash_loop insert ol (set_word h bp v)
      else rehash_loop insert ol h
  | _ => Some h
  end.

Definition grow_size (grow : bool) (sz : Z) : Z :=
  if negb grow then sz
  else if sz <? HT_N_INLINE then HT_N_INLINE
  else if (Z.shiftl 1 19 <=? sz) || (sz <=? Z.shiftl 1 8) then u64 (Z.shiftl sz 1)
  else u64 (Z.shiftl sz 2).

(** The result is the table and the index of the key's value. One level of
    fuel for each round of [while (1)] and each recursive call. *)
Fixpoint lookup_bp_r_impl (fuel : nat) h key (key_owned : bool) : option (htable_t * Z) :=
  match fuel with
  | O => None
  | S fuel =>
      let sz := hash_size h in
      let maxprobe := max_probe sz in
      let tab := table h in
      let hv := HFUNC key in
      r ← quad_probe (lookup_visit tab key) (sz * 2) maxprobe (h2index hv sz) None;
      match r with
      | inr (Found index) =>
          v ← tab !! Z.to_nat (index + 1);
          Some ({| size := size h; table := tab; count := count h;
                   live := if v =? HT_NOTFOUND then u64 (live h + 1) else live h |}, index + 1)
      | inr (Stop empty_slot) | inl empty_slot =>
          let empty_slot :=
            match empty_slot with
            | Some e => if u64 (hash_size h * 3) <=? u64 (live h * 4) then None else Some e
            | None => None
            end in
          let grow := match empty_slot with None => true | Some _ => false end in
          let empty_slot :=
            match empty_slot with
            | Some e => if u64 (8 * u64 (hash_size h - count h)) <=? hash_size h then None else Some e
            | None => None
            end in
          match empty_slot with
          | Some e =>
              k ← tab !! Z.to_nat e;
              Some ({| size := size h; table := <[Z.to_nat e := if key_owned then key else KEYALLOC key]> tab;
                       count := if k =? HT_NOTFOUND then u64 (count h + 1) else count h;
                       live := u64 (live h + 1) |}, e + 1)
          | None =>
              let newsz := grow_size grow (size h) in
              let newh := {| size := newsz; table := replicate (Z.to_nat newsz) HT_NOTFOUND; count := 0; live := 0 |} in
              h ← rehash_loop (fun h k => lookup_bp_r_impl fuel h k true) tab newh;
              lookup_bp_r_impl fuel h key key_owned
          end
      end
  end.

(** A size is reached at most twice, once to clean it: 128 levels are more than a
    [size_t] allows. *)
Definition lookup_bp_r h key : option (htable_t * Z) := lookup_bp_r_impl 128 h key false.

Definition put_r h key val : option htable_t :=
  '(h, bp) ← lookup_bp_r h key; Some (set_word h bp val).

(** The table and the pointer. *)
Definition bp_r h key : option (htable_t * Z) := lookup_bp_r h key.

(** [Some None] is NULL. *)
Definition peek_bp_r h key : option (option Z) :=
  let sz := hash_size h in
  let maxprobe := max_probe sz in
  r ← quad_probe (peek_visit (table h) key) (sz * 2) maxprobe (h2index (HFUNC key) sz) tt;
  match r with inr bp => Some bp | inl _ => Some None end.

Definition get_r h key : option Z :=
  bp ← peek_bp_r h key;
  match bp with None => Some HT_NOTFOUND | Some bp => table h !! Z.to_nat bp end.

Definition has_r h key : option bool := v ← get_r h key; Some (negb (v =? HT_NOTFOUND)).

Definition remove_r h key : option (bool * htable_t) :=
  bp ← peek_bp_r h key;
  match bp with
  | None => Some (false, h)
  | Some bp =>
      v ← table h !! Z.to_nat bp;
      if v =? HT_NOTFOUND then Some (false, h)
      else Some (true, {| size := size h; table := <[Z.to_nat bp := HT_NOTFOUND]> (table h); count := count h; live := u64 (live h - 1) |})
  end.

Definition adjoin_r h key val : option htable_t :=
  '(h, bp) ← lookup_bp_r h key;
  v ← table h !! Z.to_nat bp;
  Some (if v =? HT_NOTFOUND then set_word h bp val else h).
End Htimpl.

(** ** ptrhash.c: keys are pointers, compared as such. *)
Definition ptrhash_hash (key : Z) : Z := Z.lxor (Z.shiftr key 4) (Z.shiftr key 9).
Definition ptrhash_put h key val := put_r ptrhash_hash Z.eqb id h key val.
Definition ptrhash_bp h key := bp_r ptrhash_hash Z.eqb id h key.
Definition ptrhash_get h key := get_r ptrhash_hash Z.eqb h key.
Definition ptrhash_has h key := has_r ptrhash_hash Z.eqb h key.
Definition ptrhash_remove h key := remove_r ptrhash_hash Z.eqb h key.
Definition ptrhash_adjoin h key val := adjoin_r ptrhash_hash Z.eqb id h key val.
