(* ===== verification/HtableFacts.v ===== *)
(** * Pointer hash tables: the invariant, and the operations *)
From S2P Require Import Prelude Probe Htable.

(** ** Triangular numbers modulo a power of two *)

Definition tri (j : Z) : Z := j * (j + 1) / 2.

Lemma tri_double j : 2 * tri j = j * (j + 1).
Proof.
  unfold tri. pose proof (Z.div_mod (j * (j + 1)) 2 ltac:(lia)). rewrite Zmod_even, Z.even_mul, Z.even_add in H.
  destruct (Z.even j); simpl in H; lia.
Qed.
Lemma tri_next j : tri (j + 1) = tri j + (j + 1).
Proof. pose proof (tri_double j). pose proof (tri_double (j + 1)). nia. Qed.

Lemma odd_divide m x y : 0 <= m -> Z.odd x = true -> (2 ^ m | x * y) -> (2 ^ m | y).
Proof.
  intros Hm Hx. revert y. pattern m. apply natlike_ind; [|clear m Hm|done]; [intros; apply Z.divide_1_l|].
  intros m Hm IH y Hd. rewrite Z.pow_succ_r in * by lia.
  assert (Z.even y = true) as Hy.
  { destruct Hd as [q Eq]. apply (f_equal Z.even) in Eq. rewrite !Z.even_mul in Eq. rewrite <- Z.negb_odd, Hx in Eq.
    cbn in Eq. rewrite orb_true_r in Eq. done. }
  apply Z.even_spec in Hy as [y' ->]. apply Z.mul_divide_mono_l, IH. destruct Hd as [q Eq]. exists q. lia.
Qed.

Lemma tri_distinct k a b : 0 <= k -> 0 <= a < b -> a + b + 1 < 2 ^ (k + 1) -> (tri b - tri a) mod 2 ^ k <> 0.
Proof.
  intros Hk Hab Hb Hm. pose proof (pow2_pos k). apply Z.mod_divide in Hm; [|lia].
  assert ((2 ^ (k + 1) | (b - a) * (a + b + 1))) as Hd.
  { destruct Hm as [q Eq]. exists q. rewrite Z.pow_add_r by lia. pose proof (tri_double a). pose proof (tri_double b). nia. }
  assert ((2 ^ (k + 1) | b - a) \/ (2 ^ (k + 1) | a + b + 1)) as [Hd'|Hd'].
  { destruct (Z.odd (b - a)) eqn:E; [right; by apply (odd_divide _ (b - a)); [lia|..]|left].
    apply (odd_divide _ (a + b + 1)); [lia| |by rewrite Z.mul_comm]. replace (a + b + 1) with (b - a + (1 + 2 * a)) by lia.
    by rewrite Z.odd_add, E, Z.odd_add_mul_2. }
  - apply Z.divide_pos_le in Hd'; lia.
  - apply Z.divide_pos_le in Hd'; lia.
Qed.

(** ** The words that a search visits *)

Lemma quad_body_eq {A R} (visit : Z -> A -> option (A + R)) sz maxprobe orig index iter acc :
  quad_body visit sz maxprobe orig (index, iter, acc) =
  r ← visit index acc;
  match r with
  | inr r => Some (inr (inr r))
  | inl acc =>
      let iter := u64 (iter + 1) in
      let index := Z.land (u64 (index + u64 (iter * 2))) (u64 (sz - 1)) in
      if maxprobe <? iter then Some (inr (inl acc))
      else if negb (index =? orig) then Some (inl (index, iter, acc)) else Some (inr (inl acc))
  end.
Proof. reflexivity. Qed.


Definition quad_slot (n hv j : Z) : Z := 2 * ((hv + tri j) mod n).
Definition quad_slots (n hv : Z) : list Z :=
  map (fun j => quad_slot n hv (Z.of_nat j)) (seq 0 (S (Z.to_nat (max_probe n)))).

Section Slots.
Context (k hv : Z) (Hk : 4 <= k <= 40).

Lemma ht_max_probe : 16 <= max_probe (2 ^ k) < 2 ^ k + 1 /\ (7 <= k -> max_probe (2 ^ k) = 2 ^ (k - 3)).
Proof using Hk.
  unfold max_probe, HT_N_INLINE. pose proof (Z.pow_le_mono_r 2 4 k ltac:(lia)).
  destruct (Z.leb_spec (2 ^ k) (32 * 2)) as [H1|H1].
  - change (2 ^ 4) with 16 in *. split; [change (32 / 2) with 16; lia|]. intros. pose proof (Z.pow_le_mono_r 2 7 k ltac:(lia)). change (2 ^ 7) with 128 in *. lia.
  - assert (6 < k) by (apply (Z.pow_lt_mono_r_iff 2); [lia..|exact H1]).
    rewrite Z.shiftr_div_pow2 by lia. assert (2 ^ k / 2 ^ 3 = 2 ^ (k - 3)) as ->.
    { replace k with (k - 3 + 3) at 1 by lia. rewrite Z.pow_add_r by lia. apply Z.div_mul. lia. }
    split; [|done]. pose proof (Z.pow_le_mono_r 2 4 (k - 3) ltac:(lia)). change (2 ^ 4) with 16 in *. pose proof (Z.pow_le_mono_r 2 (k - 3) k ltac:(lia)). lia.
Qed.

Lemma quad_slot_next j : 0 <= j <= 2 ^ k ->
  Z.land (u64 (quad_slot (2 ^ k) hv j + u64 ((j + 1) * 2))) (u64 (2 ^ k * 2 - 1)) = quad_slot (2 ^ k) hv (j + 1).
Proof using Hk.
  intros Hj. pose proof (Z.pow_le_mono_r 2 k 40 ltac:(lia)). change (2 ^ 40) with 1099511627776 in *. unfold quad_slot.
  pose proof (pow2_pos k). pose proof (Z.mod_pos_bound (hv + tri j) (2 ^ k) ltac:(lia)).
  rewrite (uw_small 64 ((j + 1) * 2)), !uw_small by (unfold in_range; change (2 ^ 64) with 18446744073709551616; lia).
  replace (2 ^ k * 2) with (2 ^ (k + 1)) by (rewrite Z.pow_add_r; lia). rewrite land_mod by lia.
  rewrite Z.pow_add_r, (Z.mul_comm (2 ^ k)) by lia. change (2 ^ 1) with 2.
  replace (2 * ((hv + tri j) mod 2 ^ k) + (j + 1) * 2) with (2 * ((hv + tri j) mod 2 ^ k + (j + 1))) by lia.
  rewrite Z.mul_mod_distr_l, Z.add_mod_idemp_l, tri_next by lia. do 2 f_equal. lia.
Qed.

Lemma quad_probe_scan {A R} (visit : Z -> A -> option (A + R)) acc :
  quad_probe visit (2 ^ k * 2) (max_probe (2 ^ k)) (h2index hv (2 ^ k)) acc = scan visit (quad_slots (2 ^ k) hv) acc.
Proof using Hk.
  pose proof ht_max_probe as [Hmp _]. pose proof (pow2_pos k). pose proof (Z.pow_le_mono_r 2 k 40 ltac:(lia)) as Hk40.
  change (2 ^ 40) with 1099511627776 in *.
  assert (h2index hv (2 ^ k) = quad_slot (2 ^ k) hv 0) as ->.
  { unfold h2index, quad_slot. change (tri 0) with 0. rewrite Z.add_0_r.
    rewrite (uw_small 64 (2 ^ k - 1)) by (unfold in_range; change (2 ^ 64) with 18446744073709551616; lia).
    rewrite land_mod by lia. pose proof (Z.mod_pos_bound hv (2 ^ k) ltac:(lia)).
    rewrite uw_small by (unfold in_range; change (2 ^ 64) with 18446744073709551616; lia). lia. }
  unfold quad_probe, quad_slots. set (mp := max_probe (2 ^ k)) in *.
  set (orig := quad_slot (2 ^ k) hv 0).
  assert (forall m j acc, 0 <= j -> j + Z.of_nat m = mp ->
    loop (S m) (quad_body visit (2 ^ k * 2) mp orig) (quad_slot (2 ^ k) hv j, j, acc) =
    scan visit (map (fun j => quad_slot (2 ^ k) hv (Z.of_nat j)) (seq (Z.to_nat j) (S m))) acc) as Hgo.
  { induction m as [|m IH]; intros j acc' Hj Hm; rewrite loop_S, quad_body_eq; cbn [seq map scan]; rewrite Z2Nat.id by done;
      (destruct (visit _ acc') as [[acc1|r]|]; cbn [mbind option_bind]; [|done..]);
      rewrite (uw_small 64 (j + 1)), quad_slot_next by (try (unfold in_range; change (2 ^ 64) with 18446744073709551616); lia).
    - destruct (Z.ltb_spec mp (j + 1)); [done|lia].
    - destruct (Z.ltb_spec mp (j + 1)); [lia|].
      destruct (Z.eqb_spec (quad_slot (2 ^ k) hv (j + 1)) orig) as [E|_].
      + exfalso. apply (tri_distinct k 0 (j + 1)); [lia|lia| |].
        { rewrite Z.pow_add_r by lia. lia. }
        unfold quad_slot, orig in E. change (tri 0) with 0. unfold orig, quad_slot in E. change (tri 0) with 0 in E.
        assert ((hv + tri (j + 1)) mod 2 ^ k = (hv + 0) mod 2 ^ k) as E' by lia.
        replace (tri (j + 1) - 0) with (hv + tri (j + 1) - (hv + 0)) by lia. by rewrite Zminus_mod, E', Z.sub_diag, Z.mod_0_l by lia.
      + cbn [negb mbind option_bind]. specialize (IH (j + 1) acc1 ltac:(lia) ltac:(lia)).
        replace (Z.to_nat (j + 1)) with (S (Z.to_nat j)) in IH by lia. exact IH. }
  specialize (Hgo (Z.to_nat mp) 0 acc ltac:(lia) ltac:(lia)). exact Hgo.
Qed.

Lemma quad_slots_pair j : j ∈ quad_slots (2 ^ k) hv -> exists i : nat, j = 2 * Z.of_nat i /\ Z.of_nat i < 2 ^ k.
Proof using Hk.
  intros (m & <- & _)%list_elem_of_In%in_map_iff. unfold quad_slot.
  pose proof (Z.mod_pos_bound (hv + tri (Z.of_nat m)) (2 ^ k) ltac:(apply pow2_pos; lia)).
  exists (Z.to_nat ((hv + tri (Z.of_nat m)) mod 2 ^ k)). lia.
Qed.

(** For large tables: that many different slots. *)
Lemma quad_slots_NoDup : 7 <= k -> NoDup (quad_slots (2 ^ k) hv).
Proof using Hk.
  intros H7. destruct ht_max_probe as [_ Hmp]. specialize (Hmp H7). unfold quad_slots. rewrite Hmp.
  pose proof (pow2_pos (k - 3)). assert (2 ^ k = 8 * 2 ^ (k - 3)) as Ek.
  { replace k with (k - 3 + 3) at 1 by lia. rewrite Z.pow_add_r by lia. lia. }
  assert (forall m a, (a + m <= S (Z.to_nat (2 ^ (k - 3))))%nat ->
    NoDup (map (fun j => quad_slot (2 ^ k) hv (Z.of_nat j)) (seq a m))) as Hnd; [|apply Hnd; lia].
  induction m as [|m IH]; intros a Ha; cbn [seq map]; constructor; [|apply IH; lia].
  intros (b & E & Hb%in_seq)%list_elem_of_In%in_map_iff. unfold quad_slot in E.
  apply (tri_distinct k (Z.of_nat a) (Z.of_nat b)); [lia|lia| |].
  { rewrite Z.pow_add_r by lia. lia. }
  assert ((hv + tri (Z.of_nat b)) mod 2 ^ k = (hv + tri (Z.of_nat a)) mod 2 ^ k) as E' by lia.
  replace (tri (Z.of_nat b) - tri (Z.of_nat a)) with (hv + tri (Z.of_nat b) - (hv + tri (Z.of_nat a))) by lia.
  by rewrite Zminus_mod, E', Z.sub_diag, Z.mod_0_l by lia.
Qed.
End Slots.

(** ** Keys

    What the functions of a table promise: an equivalence that the hash
    respects, and copies of keys that are equal to them. *)
Class HashKeys (HFUNC : Z -> Z) (EQFUNC : Z -> Z -> bool) : Prop := {
  key_eq_refl k : EQFUNC k k = true;
  key_eq_sym a b : EQFUNC a b = true -> EQFUNC b a = true;
  key_eq_trans a b c : EQFUNC a b = true -> EQFUNC b c = true -> EQFUNC a c = true;
  key_eq_hash a b : EQFUNC a b = true -> HFUNC a = HFUNC b;
}.
Class KeyAlloc (EQFUNC : Z -> Z -> bool) (KEYALLOC : Z -> Z) : Prop := {
  keyalloc_eq k : EQFUNC k (KEYALLOC k) = true;
  keyalloc_valid k : k <> HT_NOTFOUND -> KEYALLOC k <> HT_NOTFOUND;
}.

#[export] Instance ptrhash_keys : HashKeys ptrhash_hash Z.eqb.
Proof. split; intros; rewrite ?Z.eqb_eq in *; congruence. Qed.
#[export] Instance identity_alloc HFUNC EQFUNC `{!HashKeys HFUNC EQFUNC} : KeyAlloc EQFUNC id.
Proof. split; [apply (key_eq_refl (HFUNC := HFUNC))|done]. Qed.

Section Table.
Context {HFUNC : Z -> Z} {EQFUNC : Z -> Z -> bool} `{!HashKeys HFUNC EQFUNC}.
Implicit Types (ps : list (Z * Z)) (p : Z * Z) (key : Z).

(** ** The invariant *)

Definition used p : Prop := p.1 <> HT_NOTFOUND.
Definition is_live p : Prop := p.2 <> HT_NOTFOUND.
#[global] Instance used_dec p : Decision (used p) := ltac:(unfold used; apply _).
#[global] Instance is_live_dec p : Decision (is_live p) := ltac:(unfold is_live; apply _).

(** The entries of a table. *)
Definition entries ps : list (Z * Z) := filter is_live ps.

Definition path ps key : list Z := quad_slots (Z.of_nat (length ps)) (HFUNC key).
Definition key_used ps (j : Z) : Prop := exists i p, j = 2 * Z.of_nat i /\ ps !! i = Some p /\ used p.
Definition reach ps key (i : nat) : Prop :=
  exists pre post, path ps key = pre ++ 2 * Z.of_nat i :: post /\ Forall (key_used ps) pre.
Definition holds ps key (i : nat) : Prop := exists p, ps !! i = Some p /\ used p /\ EQFUNC key p.1 = true.

Record table_wf ps : Prop := {
  tw_len : exists k, 4 <= k <= 40 /\ Z.of_nat (length ps) = 2 ^ k;
  tw_ok : Forall (fun p => is_live p -> used p) ps;
  tw_distinct i j p : ps !! i = Some p -> used p -> holds ps p.1 j -> i = j;
  tw_reach i p : ps !! i = Some p -> used p -> reach ps p.1 i;
}.

Record ht_wf (h : htable_t) ps : Prop := {
  hw_size : size h = 2 * Z.of_nat (length ps);
  hw_table : table h = flat ps;
  hw_count : count h = Z.of_nat (length (filter used ps));
  hw_live : live h = Z.of_nat (length (entries ps));
  hw_wf : table_wf ps;
}.

Lemma path_eq ps key1 key2 : EQFUNC key1 key2 = true -> path ps key1 = path ps key2.
Proof using Type*. intros E. unfold path. by rewrite (key_eq_hash (HFUNC := HFUNC) key1 key2 E). Qed.

Lemma holds_reach ps key i : table_wf ps -> holds ps key i -> reach ps key i.
Proof using Type*.
  intros Hwf (p & Hi & Hu & E). destruct (tw_reach _ Hwf i p Hi Hu) as (pre & post & Ep & Hpre).
  exists pre, post. by rewrite (path_eq ps key p.1).
Qed.

Lemma holds_unique ps key i j : table_wf ps -> holds ps key i -> holds ps key j -> i = j.
Proof using Type*.
  intros Hwf (p & Hi & Hu & E) (q & Hj & Hv & E'). apply (tw_distinct _ Hwf i j p Hi Hu). exists q. split_and!; [done|done|].
  apply (key_eq_trans (HFUNC := HFUNC) _ key); [by apply (key_eq_sym (HFUNC := HFUNC))|done].
Qed.

Lemma path_pair ps key j : table_wf ps -> j ∈ path ps key -> exists i p, j = 2 * Z.of_nat i /\ ps !! i = Some p.
Proof using Type*.
  intros Hwf Hj. destruct (tw_len _ Hwf) as (k & Hk & Hl). unfold path in Hj. rewrite Hl in Hj.
  destruct (quad_slots_pair k _ Hk j Hj) as (i & -> & Hi). destruct (lookup_lt_is_Some_2 ps i ltac:(lia)) as [p Hp]. by exists i, p.
Qed.

Lemma at_key ps i : flat ps !! Z.to_nat (2 * Z.of_nat i) = fst <$> ps !! i.
Proof using. rewrite <- flat_lookup_key. f_equal. lia. Qed.
Lemma at_val ps i : flat ps !! Z.to_nat (2 * Z.of_nat i + 1) = snd <$> ps !! i.
Proof using. rewrite <- flat_lookup_val. f_equal. lia. Qed.

(** ** Searching *)

Lemma ht_lookup_visit_eq ps key i p acc : ps !! i = Some p ->
  lookup_visit EQFUNC (flat ps) key (2 * Z.of_nat i) acc = Some
    (if decide (used p) then
       if EQFUNC key p.1 then inr (Found (2 * Z.of_nat i))
       else inl (if decide (is_live p) then acc else first_empty acc (2 * Z.of_nat i))
     else inr (Stop (first_empty acc (2 * Z.of_nat i)))).
Proof using.
  intros Hi. unfold lookup_visit. rewrite at_key, at_val, Hi. cbn [fmap option_fmap option_map mbind option_bind]. unfold used, is_live.
  destruct (Z.eqb_spec p.1 HT_NOTFOUND); [by rewrite decide_False by tauto|]. rewrite decide_True by done.
  destruct (EQFUNC key p.1); [done|]. destruct (Z.eqb_spec p.2 HT_NOTFOUND); [by rewrite decide_False by tauto|by rewrite decide_True].
Qed.

Definition live_slot ps (j : Z) : Prop := exists i p, j = 2 * Z.of_nat i /\ ps !! i = Some p /\ is_live p.
(** A pair that can take the key, and where it will be found. *)
Definition free_slot ps key (e : Z) : Prop := exists i p, e = 2 * Z.of_nat i /\ ps !! i = Some p /\ ~ is_live p /\ reach ps key i.

Definition acc_ok ps key (done : list Z) (acc : option Z) : Prop :=
  match acc with None => Forall (live_slot ps) done | Some e => free_slot ps key e end.

Lemma lookup_scan_from ps key l : table_wf ps -> forall dn acc, path ps key = dn ++ l ->
  Forall (key_used ps) dn -> acc_ok ps key dn acc -> (forall i, 2 * Z.of_nat i ∈ dn -> ~ holds ps key i) ->
  (exists i, holds ps key i /\ scan (lookup_visit EQFUNC (flat ps) key) l acc = Some (inr (Found (2 * Z.of_nat i)))) \/
  ((forall i, ~ holds ps key i) /\
   exists e, (scan (lookup_visit EQFUNC (flat ps) key) l acc = Some (inl e) \/
              scan (lookup_visit EQFUNC (flat ps) key) l acc = Some (inr (Stop e))) /\ acc_ok ps key (path ps key) e).
Proof using Type*.
  intros Hwf. induction l as [|j l IH]; intros dn acc Hd Hu Hacc Hno.
  { right. rewrite app_nil_r in Hd. split; [|exists acc; split; [by left|by rewrite Hd]].
    intros i Hh. destruct (holds_reach _ _ _ Hwf Hh) as (pre & post & E & _). apply (Hno i); [|done].
    rewrite <- Hd, E. apply elem_of_app. right. by left. }
  destruct (path_pair ps key j Hwf) as (i & p & -> & Hi); [rewrite Hd; apply elem_of_app; right; by left|].
  cbn [scan]. rewrite (ht_lookup_visit_eq ps key i p acc Hi). cbn [mbind option_bind].
  assert (forall e, ~ is_live p -> acc_ok ps key (dn ++ e) (first_empty acc (2 * Z.of_nat i))) as Hfree.
  { intros e Hl. destruct acc; [done|]. exists i, p. split_and!; [done..|]. by exists dn, l. }
  destruct (decide (used p)) as [Hp|Hp].
  - destruct (EQFUNC key p.1) eqn:E; [left; exists i; split; [by exists p|done]|].
    apply (IH (dn ++ [2 * Z.of_nat i])).
    + by rewrite <- app_assoc.
    + apply Forall_app. split; [done|]. apply Forall_singleton. by exists i, p.
    + destruct (decide (is_live p)); [|by apply Hfree]. destruct acc; [done|]. apply Forall_app. split; [done|].
      apply Forall_singleton. by exists i, p.
    + intros i' [Hin|Hin%list_elem_of_singleton]%elem_of_app; [by apply Hno|]. assert (i' = i) as -> by lia.
      intros (q & Hq & _ & Eq). congruence.
  - right. assert (~ is_live p) as Hl by (intros H'; apply Hp; by apply (Forall_lookup_1 _ _ _ _ (tw_ok _ Hwf) Hi)).
    split; [|exists (first_empty acc (2 * Z.of_nat i)); split; [by right|]; rewrite Hd; by apply Hfree].
    intros i' Hh. destruct (holds_reach _ _ _ Hwf Hh) as (pre & post & E & Hpre). rewrite Hd in E.
    destruct (app_cons_cases _ _ _ _ _ _ E) as [Hin|[Eq|Hin]].
    + by apply (Hno i').
    + assert (i' = i) as -> by lia. destruct Hh as (q & Hq & Hu' & _). by simplify_eq.
    + rewrite Forall_forall in Hpre. destruct (Hpre _ Hin) as (i2 & q & E2 & Hq & Hu'). assert (i2 = i) as -> by lia. by simplify_eq.
Qed.

Lemma lookup_scan ps key : table_wf ps ->
  (exists i, holds ps key i /\ scan (lookup_visit EQFUNC (flat ps) key) (path ps key) None = Some (inr (Found (2 * Z.of_nat i)))) \/
  ((forall i, ~ holds ps key i) /\
   exists e, (scan (lookup_visit EQFUNC (flat ps) key) (path ps key) None = Some (inl e) \/
              scan (lookup_visit EQFUNC (flat ps) key) (path ps key) None = Some (inr (Stop e))) /\ acc_ok ps key (path ps key) e).
Proof using Type*.
  intros Hwf. apply (lookup_scan_from ps key _ Hwf []); [done|constructor|constructor|]. intros i Hi. by apply elem_of_nil in Hi.
Qed.

Lemma ht_peek_visit_eq ps key i p : ps !! i = Some p ->
  peek_visit EQFUNC (flat ps) key (2 * Z.of_nat i) tt = Some
    (if decide (used p) then if EQFUNC key p.1 then inr (Some (2 * Z.of_nat i + 1)) else inl tt else inr None).
Proof using.
  intros Hi. unfold peek_visit. rewrite at_key, Hi. cbn [fmap option_fmap option_map mbind option_bind]. unfold used.
  destruct (Z.eqb_spec p.1 HT_NOTFOUND); [by rewrite decide_False by tauto|]. rewrite decide_True by done. by destruct (EQFUNC key p.1).
Qed.

Lemma ht_table_probe {A R} (visit : Z -> A -> option (A + R)) h ps key acc : ht_wf h ps ->
  quad_probe visit (hash_size h * 2) (max_probe (hash_size h)) (h2index (HFUNC key) (hash_size h)) acc = scan visit (path ps key) acc.
Proof using.
  intros Hwf. destruct (tw_len _ (hw_wf _ _ Hwf)) as (k & Hk & Hl). unfold hash_size. rewrite (hw_size _ _ Hwf).
  rewrite (Z.mul_comm 2), Z.div_mul by lia. unfold path. rewrite Hl. by apply quad_probe_scan.
Qed.

(** A search answers by the key's pair, if there is one. *)
Lemma ht_peek_spec h ps key : ht_wf h ps ->
  (exists i, holds ps key i /\ peek_bp_r HFUNC EQFUNC h key = Some (Some (2 * Z.of_nat i + 1))) \/
  ((forall i, ~ holds ps key i) /\ peek_bp_r HFUNC EQFUNC h key = Some None).
Proof using Type*.
  intros Hwf. unfold peek_bp_r. rewrite (ht_table_probe _ h ps) by done. rewrite (hw_table _ _ Hwf).
  pose proof (hw_wf _ _ Hwf) as Ht.
  destruct (scan_first (peek_visit EQFUNC (flat ps) key) (path ps key) tt) as [[-> Hall]|(pre & j & post & r & E & Hpre & Hj & ->)].
  - apply Forall_forall. intros j (i & p & -> & Hi)%path_pair; [|done]. rewrite (ht_peek_visit_eq ps key i p Hi).
    destruct (decide (used p)), (EQFUNC key p.1); eauto.
  - right. split; [|done]. intros i Hh. destruct (holds_reach _ _ _ Ht Hh) as (pre & post & E & _).
    rewrite E in Hall. apply Forall_app in Hall as [_ [Hall _]%Forall_cons]. destruct Hh as (p & Hi & Hu & Eq).
    rewrite (ht_peek_visit_eq ps key i p Hi), decide_True, Eq in Hall by done. done.
  - destruct (path_pair ps key j Ht) as (i & p & -> & Hi); [rewrite E; apply elem_of_app; right; by left|].
    rewrite (ht_peek_visit_eq ps key i p Hi) in Hj. destruct (decide (used p)) as [Hu|Hu].
    + destruct (EQFUNC key p.1) eqn:Eq; [|done]. injection Hj as <-. left. exists i. split; [by exists p|done].
    + injection Hj as <-. right. split; [|done]. intros i' Hh. pose proof Hh as (q & Hq & Hu' & Eq').
      destruct (holds_reach _ _ _ Ht Hh) as (pre' & post' & E' & Hpre'). rewrite E in E'.
      destruct (app_cons_cases _ _ _ _ _ _ E') as [Hin|[Ej|Hin]].
      * rewrite Forall_forall in Hpre. specialize (Hpre _ Hin). cbv beta in Hpre.
        rewrite (ht_peek_visit_eq ps key i' q Hq), decide_True, Eq' in Hpre by done. done.
      * assert (i' = i) as -> by lia. by simplify_eq.
      * rewrite Forall_forall in Hpre'. destruct (Hpre' _ Hin) as (i2 & q2 & E2 & Hq2 & Hu2). assert (i2 = i) as -> by lia. by simplify_eq.
Qed.

(** ** Updates of a pair *)

Lemma ht_key_used_update ps i p k0 v0 j : ps !! i = Some p -> k0 <> HT_NOTFOUND -> key_used ps j -> key_used (<[i := (k0, v0)]> ps) j.
Proof using.
  intros Hi Hk (i' & q & -> & Hq & Hu). exists i'. destruct (decide (i = i')) as [<-|Hne].
  - exists (k0, v0). split; [done|]. split; [|done]. apply list_lookup_insert_eq. by apply lookup_lt_Some in Hi.
  - exists q. by rewrite list_lookup_insert_ne.
Qed.

Lemma reach_update ps i p k0 v0 key i' : ps !! i = Some p -> k0 <> HT_NOTFOUND -> reach ps key i' -> reach (<[i := (k0, v0)]> ps) key i'.
Proof using.
  intros Hi Hk (pre & post & E & Hpre). exists pre, post. unfold path in *. rewrite length_insert. split; [done|].
  eapply Forall_impl; [exact Hpre|]. intros j. by apply (ht_key_used_update _ _ p).
Qed.

Lemma holds_update ps i k0 v0 key j : holds (<[i := (k0, v0)]> ps) key j -> (j = i /\ EQFUNC key k0 = true) \/ (j <> i /\ holds ps key j).
Proof using.
  intros (p & Hp & Hu & E). destruct (decide (i = j)) as [<-|Hne].
  - left. split; [done|]. apply list_lookup_insert_Some in Hp as [(_ & <- & _)|[? _]]; done.
  - right. split; [done|]. rewrite list_lookup_insert_ne in Hp by done. by exists p.
Qed.

Lemma table_wf_update ps i p k0 v0 : table_wf ps -> ps !! i = Some p -> k0 <> HT_NOTFOUND ->
  (forall j, holds ps k0 j -> j = i) -> reach ps k0 i -> table_wf (<[i := (k0, v0)]> ps).
Proof using Type*.
  intros Hwf Hi Hk Hh Hr. split.
  - rewrite length_insert. apply Hwf.
  - apply Forall_insert; [apply Hwf|done].
  - intros j j' q Hq Hu Hh'. apply holds_update in Hh' as [[-> E]|[Hne Hh']];
      (apply list_lookup_insert_Some in Hq as [(<- & <- & _)|[Hne' Hq]]; [|]); [done| | |].
    + apply Hh. exists q. split_and!; [done..|]. by apply (key_eq_sym (HFUNC := HFUNC)).
    + symmetry. by apply Hh.
    + by apply (tw_distinct _ Hwf j j' q).
  - intros j q Hq Hu. apply (reach_update _ _ p); [done|done|].
    apply list_lookup_insert_Some in Hq as [(<- & <- & _)|[Hne' Hq]]; [done|]. by apply (tw_reach _ Hwf).
Qed.

(** Splitting off one pair. *)
Lemma filter_update (P : Z * Z -> Prop) `{!forall x, Decision (P x)} ps i p : ps !! i = Some p -> exists rest,
  filter P ps ≡ₚ (if decide (P p) then p :: rest else rest) /\
  forall q, filter P (<[i := q]> ps) ≡ₚ (if decide (P q) then q :: rest else rest).
Proof using.
  intros Hi. pose proof (lookup_lt_Some _ _ _ Hi). exists (filter P (take i ps) ++ filter P (drop (S i) ps)).
  assert (forall q l1 l2, filter P (l1 ++ q :: l2) ≡ₚ if decide (P q) then q :: filter P l1 ++ filter P l2 else filter P l1 ++ filter P l2) as Hcut.
  { intros q l1 l2. rewrite filter_app, filter_cons. destruct (decide (P q)); [symmetry; apply Permutation_middle|done]. }
  split; [rewrite <- (take_drop_middle ps i p Hi) at 1; apply Hcut|]. intros q. rewrite insert_take_drop by done. apply Hcut.
Qed.

Lemma filter_update_length (P : Z * Z -> Prop) `{!forall x, Decision (P x)} ps i p q : ps !! i = Some p ->
  Z.of_nat (length (filter P (<[i := q]> ps))) =
  Z.of_nat (length (filter P ps)) - (if decide (P p) then 1 else 0) + (if decide (P q) then 1 else 0).
Proof using.
  intros Hi. destruct (filter_update P ps i p Hi) as (rest & E1 & E2). rewrite E1, (E2 q).
  destruct (decide (P p)), (decide (P q)); cbn [length]; lia.
Qed.

(** ** What a lookup gives: the pair of the key, which is complete when the
    caller has stored a value. *)

(** No deleted entries. *)
Definition clean ps : Prop := Forall (fun p => used p -> is_live p) ps.

Record lookup_res (stored : Z) ps key (h' : htable_t) (bp : Z) ps' (i : nat) (k' old : Z) (rest : list (Z * Z)) : Prop := {
  lr_bp : bp = 2 * Z.of_nat i + 1;
  lr_at : ps' !! i = Some (k', old);
  lr_eq : EQFUNC key k' = true;
  lr_valid : k' <> HT_NOTFOUND;
  lr_table : table h' = flat ps';
  lr_wf v : v <> HT_NOTFOUND -> ht_wf (set_word h' bp v) (<[i := (k', v)]> ps');
  lr_before : entries ps ≡ₚ (if decide (old = HT_NOTFOUND) then rest else (k', old) :: rest);
  lr_after v : v <> HT_NOTFOUND -> entries (<[i := (k', v)]> ps') ≡ₚ (k', v) :: rest;
  lr_clean : clean ps -> (old = HT_NOTFOUND -> k' = stored) /\ forall v, v <> HT_NOTFOUND -> clean (<[i := (k', v)]> ps');
  lr_len : (length ps <= length ps')%nat /\ (Z.of_nat (length ps') <= Z.max (Z.of_nat (length ps)) (2 ^ 36));
}.

Lemma set_flat ps i k0 v0 v : ps !! i = Some (k0, v0) ->
  <[Z.to_nat (2 * Z.of_nat i + 1) := v]> (flat ps) = flat (<[i := (k0, v)]> ps).
Proof using. intros Hi. rewrite <- (flat_insert_val ps i k0 v0) by done. f_equal. lia. Qed.

Lemma entries_bound ps : Z.of_nat (length (entries ps)) <= Z.of_nat (length ps).
Proof using. pose proof (length_filter is_live ps). unfold entries. lia. Qed.
Lemma tw_bound ps : table_wf ps -> 0 < Z.of_nat (length ps) <= 1099511627776.
Proof using.
  intros Hwf. destruct (tw_len _ Hwf) as (k & Hk & ->). pose proof (pow2_pos k). pose proof (Z.pow_le_mono_r 2 k 40 ltac:(lia)).
  change (2 ^ 40) with 1099511627776 in *. lia.
Qed.

(** The pair is there. *)
Lemma found_res h ps key i p stored : ht_wf h ps -> ps !! i = Some p -> used p -> EQFUNC key p.1 = true ->
  exists rest, lookup_res stored ps key
    {| size := size h; table := table h; count := count h;
       live := if p.2 =? HT_NOTFOUND then u64 (live h + 1) else live h |} (2 * Z.of_nat i + 1) ps i p.1 p.2 rest.
Proof using Type*.
  intros Hwf Hi Hu E. destruct p as [k0 v0]. cbn [fst snd] in *. destruct (filter_update is_live ps i (k0, v0) Hi) as (rest & E1 & E2).
  exists rest. pose proof (hw_wf _ _ Hwf) as Ht. pose proof (tw_bound _ Ht). pose proof (entries_bound ps).
  split; [done..|apply Hwf| | | | |lia].
  - intros v Hv. split; cbn.
    + rewrite length_insert. apply Hwf.
    + rewrite (hw_table _ _ Hwf). by apply (set_flat _ _ _ v0).
    + rewrite (filter_update_length used ps i (k0, v0)) by done. rewrite (hw_count _ _ Hwf).
      rewrite (decide_True (P := used (k0, v0))), (decide_True (P := used (k0, v))) by done. lia.
    + unfold entries. rewrite (filter_update_length is_live ps i (k0, v0)) by done. rewrite (hw_live _ _ Hwf).
      unfold entries in *. rewrite (decide_True (P := is_live (k0, v))) by done.
      destruct (Z.eqb_spec v0 HT_NOTFOUND), (decide (is_live (k0, v0))) as [Hl|Hl]; unfold is_live in Hl; cbn in Hl; [done| |lia|tauto].
      rewrite uw_small by (unfold in_range; change (2 ^ 64) with 18446744073709551616; lia). lia.
    + apply (table_wf_update _ _ (k0, v0)); [done..| |by apply (tw_reach _ Ht _ (k0, v0))].
      intros j Hj. symmetry. by apply (tw_distinct _ Ht _ _ (k0, v0)).
  - unfold entries. rewrite E1. unfold is_live. cbn [snd]. destruct (decide (v0 = HT_NOTFOUND)), (decide (v0 <> HT_NOTFOUND)); done.
  - intros v Hv. unfold entries. rewrite (E2 (k0, v)). by rewrite decide_True.
  - intros Hc. split; [intros ->; by destruct (Forall_lookup_1 _ _ _ _ Hc Hi Hu)|]. intros v Hv. by apply Forall_insert.
Qed.

(** A free pair takes the key. *)
Lemma insert_res h ps key e stored : ht_wf h ps -> stored <> HT_NOTFOUND -> EQFUNC key stored = true ->
  (forall i, ~ holds ps key i) -> free_slot ps key e ->
  exists k1, table h !! Z.to_nat e = Some k1 /\ exists ps' i rest,
    lookup_res stored ps key
      {| size := size h; table := <[Z.to_nat e := stored]> (table h);
         count := if k1 =? HT_NOTFOUND then u64 (count h + 1) else count h; live := u64 (live h + 1) |} (e + 1) ps' i stored HT_NOTFOUND rest.
Proof using Type*.
  intros Hwf Hs E Hno (i & [k1 v1] & -> & Hi & Hl & Hr). pose proof (hw_wf _ _ Hwf) as Ht. pose proof (tw_bound _ Ht). pose proof (entries_bound ps).
  pose proof (length_filter used ps) as Hcu. rewrite (hw_table _ _ Hwf), at_key, Hi. exists k1. split; [done|].
  assert (v1 = HT_NOTFOUND) as -> by (unfold is_live in Hl; cbn in Hl; lia).
  destruct (filter_update is_live ps i (k1, HT_NOTFOUND) Hi) as (rest & E1 & E2). rewrite decide_False in E1 by done.
  assert (flat (<[i := (stored, HT_NOTFOUND)]> ps) = <[Z.to_nat (2 * Z.of_nat i) := stored]> (flat ps)) as Ef.
  { rewrite <- (flat_insert_key ps i k1) by done. f_equal. lia. }
  exists (<[i := (stored, HT_NOTFOUND)]> ps), i, rest. pose proof (lookup_lt_Some _ _ _ Hi).
  split; [done|by rewrite list_lookup_insert_eq|done|done|cbn; congruence| | | | |rewrite length_insert; lia].
  - intros v Hv. rewrite list_insert_insert_eq. split; cbn.
    + rewrite length_insert. apply Hwf.
    + rewrite <- Ef. rewrite (set_flat _ _ stored HT_NOTFOUND), list_insert_insert_eq; [done|by rewrite list_lookup_insert_eq].
    + rewrite (filter_update_length used ps i (k1, HT_NOTFOUND)) by done. rewrite (hw_count _ _ Hwf).
      rewrite (decide_True (P := used (stored, v))) by done.
      destruct (Z.eqb_spec k1 HT_NOTFOUND), (decide (used (k1, HT_NOTFOUND))) as [Hu|Hu]; unfold used in Hu; cbn in Hu; [done| |lia|tauto].
      rewrite uw_small by (unfold in_range; change (2 ^ 64) with 18446744073709551616; lia). lia.
    + unfold entries. rewrite (filter_update_length is_live ps i (k1, HT_NOTFOUND)) by done. rewrite (hw_live _ _ Hwf).
      rewrite (decide_False (P := is_live (k1, _))), (decide_True (P := is_live (stored, v))) by done.
      rewrite uw_small by (unfold in_range; change (2 ^ 64) with 18446744073709551616; lia). unfold entries. lia.
    + apply (table_wf_update _ _ (k1, HT_NOTFOUND)); [done..| |].
      * intros j (p & Hp & Hu & Ep). exfalso. apply (Hno j). exists p. split_and!; [done..|]. by apply (key_eq_trans (HFUNC := HFUNC) _ stored).
      * destruct Hr as (pre & post & Ep & Hpre). exists pre, post. rewrite <- (path_eq ps key stored) by done. done.
  - rewrite decide_True by done. unfold entries. by rewrite E1.
  - intros v Hv. unfold entries. rewrite list_insert_insert_eq, (E2 (stored, v)). by rewrite decide_True.
  - intros Hc. split; [done|]. intros v Hv. rewrite list_insert_insert_eq. by apply Forall_insert.
Qed.

(** ** Distinct keys *)

Fixpoint keys_distinct (es : list (Z * Z)) : Prop :=
  match es with [] => True | p :: es => Forall (fun q => EQFUNC p.1 q.1 = false) es /\ keys_distinct es end.

Lemma eq_false_sym a b : EQFUNC a b = false -> EQFUNC b a = false.
Proof using Type*. intros E. apply not_true_iff_false. intros E'. apply (key_eq_sym (HFUNC := HFUNC)) in E'. congruence. Qed.

#[export] Instance keys_distinct_perm : Proper ((≡ₚ) ==> iff) keys_distinct.
Proof using Type*.
  assert (forall l1 l2, l1 ≡ₚ l2 -> keys_distinct l1 -> keys_distinct l2) as Hp.
  { induction 1 as [|p l1 l2 E IH|p q l|l1 l2 l3 _ IH1 _ IH2]; cbn [keys_distinct]; [done| | |by auto].
    - intros [Hf Hd]. split; [by rewrite <- E|by apply IH].
    - intros [[Hpq Hp]%Forall_cons [Hq Hd]]. split; [|done]. constructor; [|done]. by apply eq_false_sym. }
  intros l1 l2 E. split; by apply Hp.
Qed.

Lemma keys_distinct_app l1 l2 : keys_distinct (l1 ++ l2) -> keys_distinct l2.
Proof using. induction l1 as [|p l1 IH]; [done|]. cbn [app keys_distinct]. intros [_ ?]. by apply IH. Qed.

Lemma wf_distinct ps : table_wf ps -> keys_distinct (entries ps).
Proof using Type*.
  intros Hwf. assert (forall l j, drop j ps = l -> keys_distinct (entries l)) as Hgo; [|by apply (Hgo _ O)].
  induction l as [|p l IH]; intros j Hd; [done|].
  assert (ps !! j = Some p) as Hj by (by rewrite <- (Nat.add_0_r j), <- lookup_drop, Hd).
  assert (drop (S j) ps = l) as Hd' by (by rewrite <- Nat.add_1_r, <- drop_drop, Hd).
  unfold entries. rewrite filter_cons. destruct (decide (is_live p)) as [Hl|]; [|by apply (IH (S j))]. split; [|by apply (IH (S j))].
  apply Forall_forall. intros q (Hq & Hin)%list_elem_of_filter. apply not_true_iff_false. intros E.
  apply list_elem_of_lookup in Hin as [m Hm]. rewrite <- Hd', lookup_drop in Hm.
  assert (j = S j + m)%nat; [|lia].
  apply (tw_distinct _ Hwf j (S j + m) p); [done|by apply (Forall_lookup_1 _ _ _ _ (tw_ok _ Hwf) Hj)|].
  exists q. split; [exact Hm|]. split; [by apply (Forall_lookup_1 _ _ _ _ (tw_ok _ Hwf) Hm)|done].
Qed.

Lemma entries_cons p l : entries (p :: l) = if decide (is_live p) then p :: entries l else entries l.
Proof using. apply filter_cons. Qed.

(** ** Empty tables, and rehashing *)

Definition new_table (sz : Z) : htable_t := {| size := sz; table := replicate (Z.to_nat sz) HT_NOTFOUND; count := 0; live := 0 |}.

Lemma new_table_wf k : 4 <= k <= 40 ->
  let ps := replicate (Z.to_nat (2 ^ k)) (HT_NOTFOUND, HT_NOTFOUND) in
  ht_wf (new_table (2 * 2 ^ k)) ps /\ clean ps /\ entries ps = [] /\ Z.of_nat (length ps) = 2 ^ k.
Proof using.
  intros Hk ps. pose proof (pow2_pos k). assert (Z.of_nat (length ps) = 2 ^ k) as El by (unfold ps; rewrite length_replicate; lia).
  assert (forall P `{!forall x, Decision (P x)}, ~ P (HT_NOTFOUND, HT_NOTFOUND) -> filter P ps = []) as Hf.
  { intros P HP Hn. unfold ps. clear El. generalize (Z.to_nat (2 ^ k)) as n. induction n as [|n IH]; [done|]. cbn [replicate]. rewrite filter_cons, decide_False by done. exact IH. }
  assert (forall i p, ps !! i = Some p -> ~ used p) as Hu by (intros i p [-> _]%lookup_replicate Hu; by apply Hu).
  split_and!; [split|..]; cbn.
  - by rewrite El.
  - unfold ps. rewrite flat_replicate. f_equal. lia.
  - by rewrite Hf by (intros Hu'; by apply Hu').
  - unfold entries. by rewrite Hf by (intros Hu'; by apply Hu').
  - split.
    + by exists k.
    + apply Forall_replicate. intros Hu'. by destruct Hu'.
    + intros i j p Hi Hp. by destruct (Hu i p Hi).
    + intros i p Hi Hp. by destruct (Hu i p Hi).
  - apply Forall_replicate. intros Hu'. by destruct Hu'.
  - unfold entries. by rewrite Hf by (intros Hu'; by apply Hu').
  - done.
Qed.

Lemma ht_rehash_loop_spec insert (n0 : nat) n1 : 2 ^ 36 <= n1 ->
  (forall h ps key, ht_wf h ps -> clean ps -> key <> HT_NOTFOUND -> (n0 <= length ps)%nat -> Z.of_nat (length (entries ps)) < 2 ^ 31 ->
     exists h' bp ps' i k' old rest, insert h key = Some (h', bp) /\ lookup_res key ps key h' bp ps' i k' old rest) ->
  forall l h ps, ht_wf h ps -> clean ps -> (n0 <= length ps)%nat -> Z.of_nat (length ps) <= n1 ->
  Forall (fun p => is_live p -> used p) l -> keys_distinct (entries ps ++ entries l) ->
  Z.of_nat (length (entries ps ++ entries l)) < 2 ^ 31 ->
  exists h' ps', rehash_loop insert (flat l) h = Some h' /\ ht_wf h' ps' /\ clean ps' /\ (n0 <= length ps')%nat /\
    Z.of_nat (length ps') <= n1 /\ entries ps' ≡ₚ entries ps ++ entries l.
Proof using Type*.
  intros Hn1 Hins. induction l as [|[k v] l IH]; intros h ps Hwf Hc Hn0 Hn Hok Hd Hlen.
  { exists h, ps. cbn. rewrite app_nil_r. by split_and!. }
  apply Forall_cons in Hok as [Hk Hok]. cbn [flat rehash_loop]. rewrite entries_cons in *.
  destruct (Z.eqb_spec v HT_NOTFOUND) as [Ev|Ev]; cbn [negb].
  { rewrite decide_False in * by (intros Hu'; by apply Hu'). by apply IH. }
  rewrite decide_True in * by done. specialize (Hk Ev).
  destruct (Hins h ps k) as (h1 & bp & ps1 & i & k1 & old & rest & -> & Hr); [done..| |].
  { rewrite length_app in Hlen. cbn [length] in Hlen. lia. }
  cbn [mbind option_bind].
  assert (old = HT_NOTFOUND) as ->.
  { destruct (decide (old = HT_NOTFOUND)) as [|Hold]; [done|exfalso]. pose proof (lr_before _ _ _ _ _ _ _ _ _ _ Hr) as Eb.
    rewrite decide_False in Eb by done. rewrite Eb in Hd. cbn [app keys_distinct] in Hd. destruct Hd as [Hd _].
    apply Forall_app in Hd as [_ [Hd _]%Forall_cons]. cbn [fst] in Hd.
    apply eq_false_sym in Hd. pose proof (lr_eq _ _ _ _ _ _ _ _ _ _ Hr). congruence. }
  destruct (lr_clean _ _ _ _ _ _ _ _ _ _ Hr Hc) as [Ek Hc1]. specialize (Ek eq_refl). subst k1.
  pose proof (lr_before _ _ _ _ _ _ _ _ _ _ Hr) as Eb. rewrite decide_True in Eb by done.
  pose proof (lr_after _ _ _ _ _ _ _ _ _ _ Hr v Ev) as Ea. rewrite <- Eb in Ea.
  assert (entries (<[i:=(k, v)]> ps1) ++ entries l ≡ₚ entries ps ++ (k, v) :: entries l) as Ep
    by (rewrite Ea; cbn [app]; apply Permutation_middle).
  pose proof (lr_len _ _ _ _ _ _ _ _ _ _ Hr).
  destruct (IH (set_word h1 bp v) (<[i:=(k, v)]> ps1)) as (h' & ps' & -> & H1 & H2 & H3 & H4 & H5).
  - by apply Hr.
  - by apply Hc1.
  - rewrite length_insert. lia.
  - rewrite length_insert. lia.
  - done.
  - by rewrite Ep.
  - by rewrite Ep.
  - exists h', ps'. split_and!; [done..|]. by rewrite H5, Ep.
Qed.

Lemma ht_grow_size k : 4 <= k < 34 -> exists k', grow_size true (2 * 2 ^ k) = 2 * 2 ^ k' /\ k < k' <= 36.
Proof using.
  intros Hk. unfold grow_size, HT_N_INLINE. cbn [negb]. change (Z.shiftl 1 19) with (2 ^ 19). change (Z.shiftl 1 8) with (2 ^ 8).
  rewrite <- Z.pow_succ_r by lia. unfold Z.succ.
  assert (forall j, 0 <= j <= 2 -> u64 (Z.shiftl (2 ^ (k + 1)) j) = 2 ^ (k + 1 + j)) as Hsh.
  { intros j Hj. rewrite Z.shiftl_mul_pow2, <- Z.pow_add_r by lia. apply uw_small. split; [apply Z.pow_nonneg; lia|].
    apply Z.pow_lt_mono_r; lia. }
  pose proof (Z.pow_le_mono_r 2 5 (k + 1) ltac:(lia)). destruct (Z.ltb_spec (2 ^ (k + 1)) 32) as [H'|_]; [change (2 ^ 5) with 32 in *; lia|].
  assert (forall k', k' = k + 1 \/ k' = k + 2 -> exists k'', 2 ^ (k' + 1) = 2 * 2 ^ k'' /\ k < k'' <= 36) as Hex.
  { intros k' Hk'. exists k'. rewrite Z.add_1_r, Z.pow_succ_r by lia. split; [done|lia]. }
  destruct ((2 ^ 19 <=? 2 ^ (k + 1)) || (2 ^ (k + 1) <=? 2 ^ 8)).
  - rewrite Hsh by lia. replace (k + 1 + 1) with ((k + 1) + 1) by lia. apply Hex. by left.
  - rewrite Hsh by lia. replace (k + 1 + 2) with ((k + 2) + 1) by lia. apply Hex. by right.
Qed.

(** ** The lookup *)

Section Alloc.
Context {KEYALLOC : Z -> Z} `{!KeyAlloc EQFUNC KEYALLOC}.
#[local] Abbreviation lookup := (lookup_bp_r_impl HFUNC EQFUNC KEYALLOC).

Definition stored_key (key_owned : bool) key : Z := if key_owned then key else KEYALLOC key.

(** Levels of recursion that are enough: two for each size up to 2^34 pairs,
    where 2^31 entries never fill a search path. *)
Definition enough (fuel : nat) ps (k : Z) : Prop :=
  2 * Z.max 0 (34 - k) + 2 <= Z.of_nat fuel \/ (clean ps /\ 2 * Z.max 0 (34 - k) + 1 <= Z.of_nat fuel).

Definition lookup_ok (fuel : nat) : Prop := forall h ps key owned k, ht_wf h ps -> Z.of_nat (length ps) = 2 ^ k -> 4 <= k <= 40 ->
  key <> HT_NOTFOUND -> Z.of_nat (length (entries ps)) < 2 ^ 31 -> enough fuel ps k ->
  exists h' bp ps' i k' old rest, lookup fuel h key owned = Some (h', bp) /\ lookup_res (stored_key owned key) ps key h' bp ps' i k' old rest.

Lemma level_of ps : table_wf ps -> forall k, Z.of_nat (length ps) = 2 ^ k -> 0 <= k -> 4 <= k <= 40.
Proof using.
  intros Hwf k E Hk. destruct (tw_len _ Hwf) as (k' & Hk' & E'). assert (k = k') as ->; [|done].
  apply (Z.pow_inj_r 2); lia.
Qed.

(** Rehashing into [2^k2] pairs, and the next round. *)
Lemma rehash_round fuel h ps key owned k k2 : lookup_ok fuel -> ht_wf h ps -> Z.of_nat (length ps) = 2 ^ k -> 4 <= k <= 40 ->
  key <> HT_NOTFOUND -> Z.of_nat (length (entries ps)) < 2 ^ 31 -> k <= k2 <= Z.max k 36 -> 2 * Z.max 0 (34 - k2) + 1 <= Z.of_nat fuel ->
  exists h' bp ps' i k' old rest,
    (h ← rehash_loop (fun h k => lookup fuel h k true) (table h) (new_table (2 * 2 ^ k2)); lookup fuel h key owned) = Some (h', bp) /\
    lookup_res (stored_key owned key) ps key h' bp ps' i k' old rest.
Proof using Type*.
  intros IH Hwf Hl Hk Hkey Hn Hk2 Hf. pose proof (hw_wf _ _ Hwf) as Ht. pose proof (pow2_pos k2 ltac:(lia)).
  destruct (new_table_wf k2 ltac:(lia)) as (H1 & H2 & H3 & H4). set (ps0 := replicate _ _) in *.
  assert (2 ^ k2 <= Z.max (2 ^ k) (2 ^ 36)) as Hk2'.
  { destruct (Z.le_gt_cases k 36); [pose proof (Z.pow_le_mono_r 2 k2 36 ltac:(lia) ltac:(lia)); lia|]. replace k2 with k by lia. lia. }
  pose proof (Z.pow_le_mono_r 2 k k2 ltac:(lia) ltac:(lia)).
  rewrite (hw_table _ _ Hwf).
  destruct (ht_rehash_loop_spec (fun h k => lookup fuel h k true) (length ps0) (Z.max (2 ^ k) (2 ^ 36)) ltac:(lia)) with (l := ps) (h := new_table (2 * 2 ^ k2)) (ps := ps0)
    as (h2 & ps2 & -> & G1 & G2 & G3 & G4 & G5); [|done|done|lia|lia|by apply Ht|rewrite H3; by apply wf_distinct|by rewrite H3|].
  { intros h1 ps1 key1 W1 W2 W3 W4 W5. destruct (tw_len _ (hw_wf _ _ W1)) as (k1 & W6 & W7).
    apply (IH h1 ps1 key1 true k1); [done..|]. right. split; [done|].
    assert (k2 <= k1) by (apply (Z.pow_le_mono_r_iff 2); lia). lia. }
  rewrite H3 in G5. cbn [app mbind option_bind] in *. destruct (tw_len _ (hw_wf _ _ G1)) as (k1 & W6 & W7).
  destruct (IH h2 ps2 key owned k1) as (h' & bp & ps' & i & k' & old & rest & E & Hr); [done..|by rewrite G5| |].
  { right. split; [done|]. assert (k2 <= k1) by (apply (Z.pow_le_mono_r_iff 2); lia). lia. }
  exists h', bp, ps', i, k', old, rest. split; [done|]. pose proof (lr_len _ _ _ _ _ _ _ _ _ _ Hr). split; try apply Hr.
  - rewrite <- G5. apply Hr.
  - intros _. by apply Hr.
  - lia.
Qed.

(** What follows the probing loop. *)
Definition after_probe (fuel : nat) h key (owned : bool) (empty_slot : option Z) : option (htable_t * Z) :=
  let empty_slot := match empty_slot with Some e => if u64 (hash_size h * 3) <=? u64 (live h * 4) then None else Some e | None => None end in
  let grow := match empty_slot with None => true | Some _ => false end in
  let empty_slot := match empty_slot with Some e => if u64 (8 * u64 (hash_size h - count h)) <=? hash_size h then None else Some e | None => None end in
  match empty_slot with
  | Some e =>
      k ← table h !! Z.to_nat e;
      Some ({| size := size h; table := <[Z.to_nat e := stored_key owned key]> (table h);
               count := if k =? HT_NOTFOUND then u64 (count h + 1) else count h; live := u64 (live h + 1) |}, e + 1)
  | None => h ← rehash_loop (fun h k => lookup fuel h k true) (table h) (new_table (grow_size grow (size h))); lookup fuel h key owned
  end.

Lemma lookup_S fuel h key owned : lookup (S fuel) h key owned =
  r ← quad_probe (lookup_visit EQFUNC (table h) key) (hash_size h * 2) (max_probe (hash_size h)) (h2index (HFUNC key) (hash_size h)) None;
  match r with
  | inr (Found index) => v ← table h !! Z.to_nat (index + 1);
      Some ({| size := size h; table := table h; count := count h; live := if v =? HT_NOTFOUND then u64 (live h + 1) else live h |}, index + 1)
  | inr (Stop e) | inl e => after_probe fuel h key owned e
  end.
Proof using. reflexivity. Qed.

(** Without a free pair, or with too many entries, the table is small. *)
Lemma crowded h ps k key : ht_wf h ps -> Z.of_nat (length ps) = 2 ^ k -> 4 <= k <= 40 -> Z.of_nat (length (entries ps)) < 2 ^ 31 ->
  (Forall (live_slot ps) (path ps key) \/ 2 ^ k * 3 <= live h * 4) -> k < 34.
Proof using Type*.
  intros Hwf Hl Hk Hn Hc. apply Z.nle_gt. intros Hk34. pose proof (Z.pow_le_mono_r 2 34 k ltac:(lia) ltac:(lia)).
  change (2 ^ 34) with 17179869184 in *. change (2 ^ 31) with 2147483648 in *.
  destruct Hc as [Hc|Hc]; [|rewrite (hw_live _ _ Hwf) in Hc; lia].
  assert (length (map (fun j => Z.to_nat (j / 2)) (path ps key)) <= length (filter is_live ps))%nat as Hle.
  { apply (filter_positions is_live (HT_NOTFOUND, HT_NOTFOUND)); [intros Hu; by apply Hu| |].
    - apply NoDup_fmap_2_strong.
      + intros x y (i & p & -> & _)%path_pair (j & q & -> & _)%path_pair; [|by apply Hwf..].
        rewrite !(Z.mul_comm 2), !Z.div_mul by lia. lia.
      + unfold path. rewrite Hl. apply quad_slots_NoDup; lia.
    - apply Forall_fmap, Forall_forall. intros j Hj. rewrite Forall_forall in Hc. destruct (Hc j Hj) as (i & p & -> & Hi & Hp).
      exists p. split; [|done]. by rewrite (Z.mul_comm 2), Z.div_mul, Nat2Z.id. }
  rewrite length_map in Hle. unfold path, quad_slots in Hle. rewrite length_map, length_seq, Hl in Hle. unfold entries in Hn.
  pose proof (ht_max_probe k ltac:(lia)) as [_ Hmp]. rewrite Hmp in Hle by lia.
  pose proof (Z.pow_le_mono_r 2 31 (k - 3) ltac:(lia) ltac:(lia)). change (2 ^ 31) with 2147483648 in *. lia.
Qed.

Lemma clean_count ps : table_wf ps -> clean ps -> filter used ps = entries ps.
Proof using.
  intros Hwf Hc. pose proof (tw_ok _ Hwf) as Hok. unfold entries, clean in *. clear Hwf.
  induction ps as [|p ps IH]; [done|]. apply Forall_cons in Hc as [H1 Hc]. apply Forall_cons in Hok as [H2 Hok].
  rewrite !filter_cons, IH by done. destruct (decide (used p)), (decide (is_live p)); tauto.
Qed.

Lemma ht_lookup_spec fuel : lookup_ok fuel.
Proof using Type*.
  induction fuel as [|fuel IH]; intros h ps key owned k Hwf Hl Hk Hkey Hn Hf; [destruct Hf as [?|[_ ?]]; lia|].
  pose proof (hw_wf _ _ Hwf) as Ht. rewrite lookup_S, (ht_table_probe _ h ps), (hw_table _ _ Hwf) by done.
  assert (hash_size h = 2 ^ k) as Ehs by (unfold hash_size; rewrite (hw_size _ _ Hwf), Hl, (Z.mul_comm 2); apply Z.div_mul; lia).
  assert (size h = 2 * 2 ^ k) as Esz by (by rewrite (hw_size _ _ Hwf), Hl).
  destruct (lookup_scan ps key Ht) as [(i & Hh & E)|(Hno & e & E & He)].
  { rewrite E. cbn [mbind option_bind]. destruct Hh as (p & Hi & Hu & Eq).
    rewrite at_val, Hi. cbn [fmap option_fmap option_map mbind option_bind].
    destruct (found_res h ps key i p (stored_key owned key)) as [rest Hr]; [done..|].
    rewrite (hw_table _ _ Hwf) in Hr. by do 7 eexists. }
  pose proof (crowded h ps k key Hwf Hl Hk Hn) as Hcr.
  assert (exists h' bp ps' i k' old rest, after_probe fuel h key owned e = Some (h', bp) /\
    lookup_res (stored_key owned key) ps key h' bp ps' i k' old rest) as Hgo;
    [|destruct E as [E|E]; rewrite E; exact Hgo].
  pose proof (pow2_pos k). pose proof (Z.pow_le_mono_r 2 k 40 ltac:(lia) ltac:(lia)). change (2 ^ 40) with 1099511627776 in *.
  pose proof (entries_bound ps). pose proof (length_filter used ps) as Hcu.
  pose proof (hw_live _ _ Hwf) as El. pose proof (hw_count _ _ Hwf) as Ec.
  unfold after_probe. rewrite Ehs, Esz.
  rewrite (uw_small 64 (2 ^ k - count h)), (uw_small 64 (8 * _)), (uw_small 64 (_ * 3)), (uw_small 64 (_ * 4))
    by (unfold in_range; change (2 ^ 64) with 18446744073709551616; lia).
  assert (k < 34 -> exists h' bp ps' i k' old rest,
    (h ← rehash_loop (fun h k => lookup fuel h k true) (table h) (new_table (grow_size true (2 * 2 ^ k))); lookup fuel h key owned) = Some (h', bp) /\
    lookup_res (stored_key owned key) ps key h' bp ps' i k' old rest) as Hgrow.
  { intros Hk34. destruct (ht_grow_size k) as (k2 & -> & Hk2); [lia|]. apply (rehash_round _ _ _ _ _ k); [done..|lia|]. destruct Hf as [?|[_ ?]]; lia. }
  destruct e as [e|]; [|apply Hgrow, Hcr; by left].
  destruct (Z.leb_spec (2 ^ k * 3) (live h * 4)); [apply Hgrow, Hcr; by right|].
  destruct (Z.leb_spec (8 * (2 ^ k - count h)) (2 ^ k)) as [Hd|Hd].
  - apply (rehash_round _ _ _ _ _ k); [done..|lia|]. destruct Hf as [?|[Hc _]]; [lia|].
    rewrite (clean_count ps Ht Hc) in Ec. lia.
  - destruct (insert_res h ps key e (stored_key owned key)) as (k1 & -> & ps' & i & rest & Hr); [done| | |done|done|].
    + unfold stored_key. destruct owned; [done|by apply keyalloc_valid].
    + unfold stored_key. destruct owned; [apply (key_eq_refl (HFUNC := HFUNC))|apply keyalloc_eq].
    + cbn [mbind option_bind]. rewrite Esz in Hr. by do 7 eexists.
Qed.

(** ** The operations, as operations on a map *)

(** The value of a key, [HT_NOTFOUND] when there is none. *)
Fixpoint assoc (es : list (Z * Z)) key : Z :=
  match es with [] => HT_NOTFOUND | p :: es => if EQFUNC key p.1 then p.2 else assoc es key end.

Lemma assoc_absent es key : Forall (fun p => EQFUNC key p.1 = false) es -> assoc es key = HT_NOTFOUND.
Proof using. induction 1 as [|p es E _ IH]; [done|]. cbn [assoc]. by rewrite E. Qed.

Lemma assoc_In es p key : keys_distinct es -> p ∈ es -> EQFUNC key p.1 = true -> assoc es key = p.2.
Proof using Type*.
  induction es as [|q es IH]; intros Hd Hin E; [by apply elem_of_nil in Hin|]. destruct Hd as [Hq Hd]. cbn [assoc].
  apply elem_of_cons in Hin as [->|Hin]; [by rewrite E|]. destruct (EQFUNC key q.1) eqn:E'; [|by apply IH].
  rewrite Forall_forall in Hq. specialize (Hq p Hin). cbv beta in Hq.
  assert (EQFUNC q.1 p.1 = true) by (apply (key_eq_trans (HFUNC := HFUNC) _ key); [by apply (key_eq_sym (HFUNC := HFUNC))|done]). congruence.
Qed.

Lemma assoc_cases es key : (Forall (fun p => EQFUNC key p.1 = false) es) \/ exists p, p ∈ es /\ EQFUNC key p.1 = true.
Proof using.
  induction es as [|q es [IH|(p & Hp & E)]]; [by left| |right; exists p; split; [by right|done]].
  destruct (EQFUNC key q.1) eqn:E; [right; exists q; split; [by left|done]|left; by constructor].
Qed.

Lemma assoc_perm es es' key : es ≡ₚ es' -> keys_distinct es -> assoc es key = assoc es' key.
Proof using Type*.
  intros E Hd. destruct (assoc_cases es key) as [Ha|(p & Hp & Ep)].
  - rewrite !assoc_absent; [done|by rewrite <- E|done].
  - rewrite (assoc_In es p), (assoc_In es' p); [done|by rewrite <- E..|done|done|done|done].
Qed.

Lemma EQ_congr a b c : EQFUNC a b = true -> EQFUNC a c = EQFUNC b c.
Proof using Type*.
  intros E. destruct (EQFUNC a c) eqn:E1, (EQFUNC b c) eqn:E2; try done; exfalso.
  - assert (EQFUNC b c = true); [|congruence]. apply (key_eq_trans (HFUNC := HFUNC) _ a); [by apply (key_eq_sym (HFUNC := HFUNC))|done].
  - assert (EQFUNC a c = true); [|congruence]. by apply (key_eq_trans (HFUNC := HFUNC) _ b).
Qed.
Lemma EQ_comm a b : EQFUNC a b = EQFUNC b a.
Proof using Type*.
  destruct (EQFUNC a b) eqn:E1, (EQFUNC b a) eqn:E2; try done; exfalso.
  - apply (key_eq_sym (HFUNC := HFUNC)) in E1. congruence.
  - apply eq_false_sym in E1. congruence.
Qed.

Lemma assoc_congr es key key' : keys_distinct es -> EQFUNC key key' = true -> assoc es key = assoc es key'.
Proof using Type*.
  intros Hd E. destruct (assoc_cases es key') as [Ha|(p & Hp & Ep)].
  - rewrite !assoc_absent; [done|done|]. eapply Forall_impl; [exact Ha|]. intros q. cbv beta. by rewrite (EQ_congr key key').
  - rewrite !(assoc_In es p); [done|done|done|done|done|done|by rewrite (EQ_congr key key')].
Qed.

Lemma entries_In ps p : p ∈ entries ps <-> exists i, ps !! i = Some p /\ is_live p.
Proof using.
  unfold entries. rewrite list_elem_of_filter, list_elem_of_lookup. split; [intros [? [i ?]]; by exists i|intros (i & ? & ?); split; [done|by exists i]].
Qed.

(** The pair of a key tells its value. *)
Lemma holds_assoc ps key i p : table_wf ps -> ps !! i = Some p -> used p -> EQFUNC key p.1 = true -> assoc (entries ps) key = p.2.
Proof using Type*.
  intros Hwf Hi Hu E. destruct (decide (is_live p)) as [Hl|Hl].
  - apply assoc_In; [by apply wf_distinct|apply entries_In; by exists i|done].
  - assert (p.2 = HT_NOTFOUND) as -> by (unfold is_live in Hl; lia). apply assoc_absent. apply Forall_forall. intros q (j & Hj & Hq)%entries_In.
    apply not_true_iff_false. intros E'. assert (used q) by (by apply (Forall_lookup_1 _ _ _ _ (tw_ok _ Hwf) Hj)).
    assert (i = j) as <- by (apply (holds_unique ps key); [done|by exists p|by exists q]). by simplify_eq.
Qed.
Lemma not_holds_assoc ps key : table_wf ps -> (forall i, ~ holds ps key i) -> assoc (entries ps) key = HT_NOTFOUND.
Proof using Type*.
  intros Hwf Hno. apply assoc_absent. apply Forall_forall. intros q (j & Hj & Hq)%entries_In. apply not_true_iff_false. intros E.
  apply (Hno j). exists q. split_and!; [done| |done]. by apply (Forall_lookup_1 _ _ _ _ (tw_ok _ Hwf) Hj).
Qed.

Lemma ht_get_spec h ps key : ht_wf h ps -> get_r HFUNC EQFUNC h key = Some (assoc (entries ps) key).
Proof using Type*.
  intros Hwf. unfold get_r. destruct (ht_peek_spec h ps key Hwf) as [(i & (p & Hi & Hu & E) & ->)|[Hno ->]]; cbn [mbind option_bind].
  - rewrite (hw_table _ _ Hwf), at_val, Hi. cbn. by rewrite (holds_assoc ps key i p) by (done || apply Hwf).
  - by rewrite not_holds_assoc by (done || apply Hwf).
Qed.

Definition bounded ps : Prop := Z.of_nat (length (entries ps)) < 2 ^ 31.

(** What a store of [val] through the pointer of [key] does. *)
Definition map_put (key val : Z) (es es' : list (Z * Z)) : Prop :=
  (forall key', assoc es' key' = if EQFUNC key key' then val else assoc es key') /\ (length es' <= S (length es))%nat.

Lemma lookup_bp_spec h ps key : ht_wf h ps -> key <> HT_NOTFOUND -> bounded ps ->
  exists h' bp, lookup_bp_r HFUNC EQFUNC KEYALLOC h key = Some (h', bp) /\ table h' !! Z.to_nat bp = Some (assoc (entries ps) key) /\
    forall val, val <> HT_NOTFOUND -> exists ps', ht_wf (set_word h' bp val) ps' /\ map_put key val (entries ps) (entries ps').
Proof using Type*.
  intros Hwf Hk Hb. destruct (tw_len _ (hw_wf _ _ Hwf)) as (k & Hk' & Hl).
  destruct (ht_lookup_spec 128 h ps key false k) as (h' & bp & ps' & i & k' & old & rest & E & Hr); [done..|left; lia|].
  exists h', bp. split; [exact E|]. pose proof (lr_eq _ _ _ _ _ _ _ _ _ _ Hr) as Eq.
  pose proof (wf_distinct ps (hw_wf _ _ Hwf)) as Hd. pose proof (lr_before _ _ _ _ _ _ _ _ _ _ Hr) as Eb.
  pose proof (lr_at _ _ _ _ _ _ _ _ _ _ Hr) as Hat.
  assert (forall val, val <> HT_NOTFOUND -> Forall (fun q => EQFUNC k' q.1 = false) rest) as Hrest.
  { intros val Hv. pose proof (wf_distinct _ (hw_wf _ _ (lr_wf _ _ _ _ _ _ _ _ _ _ Hr val Hv))) as Hd'.
    rewrite (lr_after _ _ _ _ _ _ _ _ _ _ Hr val Hv) in Hd'. apply Hd'. }
  split.
  - rewrite (lr_table _ _ _ _ _ _ _ _ _ _ Hr), (lr_bp _ _ _ _ _ _ _ _ _ _ Hr), at_val, Hat. cbn. f_equal.
    rewrite (assoc_perm _ _ _ Eb Hd). destruct (decide (old = HT_NOTFOUND)) as [->|]; [|cbn [assoc fst snd]; by rewrite Eq].
    symmetry. apply assoc_absent. eapply Forall_impl; [by apply (Hrest 0)|]. intros q. cbv beta. by rewrite (EQ_congr key k').
  - intros val Hv. exists (<[i := (k', val)]> ps'). split; [by apply (lr_wf _ _ _ _ _ _ _ _ _ _ Hr)|].
    pose proof (lr_wf _ _ _ _ _ _ _ _ _ _ Hr val Hv) as Hwf'. pose proof (lr_after _ _ _ _ _ _ _ _ _ _ Hr val Hv) as Ea.
    split; [|rewrite Ea, Eb; destruct (decide _); cbn [length]; lia].
    intros key'. rewrite (assoc_perm _ _ key' Ea) by apply wf_distinct, Hwf'. rewrite (assoc_perm _ _ key' Eb Hd). cbn [assoc fst snd].
    rewrite (EQ_comm key' k'), <- (EQ_congr key k') by done. destruct (EQFUNC key key') eqn:E'; [done|].
    destruct (decide (old = HT_NOTFOUND)); [done|]. cbn [assoc fst snd]. by rewrite (EQ_comm key' k'), <- (EQ_congr key k'), E'.
Qed.

(** In a table without deleted entries a new key adds its pair. *)
Lemma put_new_spec h ps key val : ht_wf h ps -> clean ps -> key <> HT_NOTFOUND -> val <> HT_NOTFOUND -> bounded ps ->
  assoc (entries ps) key = HT_NOTFOUND ->
  exists h' ps', put_r HFUNC EQFUNC KEYALLOC h key val = Some h' /\ ht_wf h' ps' /\ clean ps' /\ entries ps' ≡ₚ (KEYALLOC key, val) :: entries ps.
Proof using Type*.
  intros Hwf Hc Hk Hv Hb Ha. destruct (tw_len _ (hw_wf _ _ Hwf)) as (k & Hk' & Hl).
  destruct (ht_lookup_spec 128 h ps key false k) as (h' & bp & ps' & i & k' & old & rest & E & Hr); [done..|left; lia|].
  pose proof (lr_before _ _ _ _ _ _ _ _ _ _ Hr) as Eb. pose proof (wf_distinct ps (hw_wf _ _ Hwf)) as Hd.
  assert (old = HT_NOTFOUND) as ->.
  { destruct (decide (old = HT_NOTFOUND)) as [|Hold]; [done|]. rewrite (assoc_perm _ _ _ Eb Hd) in Ha. cbn [assoc fst snd] in Ha.
    by rewrite (lr_eq _ _ _ _ _ _ _ _ _ _ Hr) in Ha. }
  rewrite decide_True in Eb by done. destruct (lr_clean _ _ _ _ _ _ _ _ _ _ Hr Hc) as [Ek Hc']. specialize (Ek eq_refl). cbn in Ek. subst k'.
  exists (set_word h' bp val), (<[i := (KEYALLOC key, val)]> ps'). unfold put_r. unfold lookup_bp_r. rewrite E. split; [done|].
  split; [by apply (lr_wf _ _ _ _ _ _ _ _ _ _ Hr)|]. split; [by apply Hc'|]. rewrite Eb. by apply (lr_after _ _ _ _ _ _ _ _ _ _ Hr).
Qed.

Lemma put_spec h ps key val : ht_wf h ps -> key <> HT_NOTFOUND -> val <> HT_NOTFOUND -> bounded ps ->
  exists h' ps', put_r HFUNC EQFUNC KEYALLOC h key val = Some h' /\ ht_wf h' ps' /\ map_put key val (entries ps) (entries ps').
Proof using Type*.
  intros Hwf Hk Hv Hb. destruct (lookup_bp_spec h ps key Hwf Hk Hb) as (h' & bp & E & _ & Hs). unfold put_r. rewrite E.
  destruct (Hs val Hv) as (ps' & ? & ?). by exists (set_word h' bp val), ps'.
Qed.

Lemma set_word_same h' i x : table h' !! Z.to_nat i = Some x -> set_word h' i x = h'.
Proof using. intros E. destruct h'. unfold set_word. cbn in *. f_equal. by apply list_insert_id. Qed.

Lemma adjoin_spec h ps key val : ht_wf h ps -> key <> HT_NOTFOUND -> val <> HT_NOTFOUND -> bounded ps ->
  exists h' ps', adjoin_r HFUNC EQFUNC KEYALLOC h key val = Some h' /\ ht_wf h' ps' /\
    map_put key (if assoc (entries ps) key =? HT_NOTFOUND then val else assoc (entries ps) key) (entries ps) (entries ps').
Proof using Type*.
  intros Hwf Hk Hv Hb. destruct (lookup_bp_spec h ps key Hwf Hk Hb) as (h' & bp & E & Ev & Hs). unfold adjoin_r. rewrite E.
  cbn [mbind option_bind]. rewrite Ev. cbn [mbind option_bind]. destruct (Z.eqb_spec (assoc (entries ps) key) HT_NOTFOUND) as [Ea|Ea].
  - destruct (Hs val Hv) as (ps' & ? & ?). by exists (set_word h' bp val), ps'.
  - destruct (Hs _ Ea) as (ps' & Hw & ?). exists h', ps'. by rewrite set_word_same in Hw.
Qed.

Lemma remove_spec h ps key : ht_wf h ps ->
  exists b h' ps', remove_r HFUNC EQFUNC h key = Some (b, h') /\ b = negb (assoc (entries ps) key =? HT_NOTFOUND) /\
    ht_wf h' ps' /\ map_put key HT_NOTFOUND (entries ps) (entries ps').
Proof using Type*.
  intros Hwf. unfold remove_r. pose proof (hw_wf _ _ Hwf) as Ht.
  assert (assoc (entries ps) key = HT_NOTFOUND -> map_put key HT_NOTFOUND (entries ps) (entries ps)) as Hsame.
  { intros E. split; [|lia]. intros key'. destruct (EQFUNC key key') eqn:E'; [|done]. rewrite <- E. symmetry. apply assoc_congr; [by apply wf_distinct|done]. }
  destruct (ht_peek_spec h ps key Hwf) as [(i & (p & Hi & Hu & E) & ->)|[Hno ->]]; cbn [mbind option_bind].
  2:{ exists false, h, ps. pose proof (not_holds_assoc ps key Ht Hno) as En. rewrite En. split_and!; [done..|by apply Hsame]. }
  pose proof (holds_assoc ps key i p Ht Hi Hu E) as Ep. rewrite (hw_table _ _ Hwf), at_val, Hi. cbn [fmap option_fmap option_map mbind option_bind].
  destruct (Z.eqb_spec p.2 HT_NOTFOUND) as [Ev|Ev].
  { exists false, h, ps. rewrite Ep, Ev. split_and!; [done..|apply Hsame; congruence]. }
  destruct p as [k0 v0]. cbn [fst snd] in *. pose proof (tw_bound _ Ht). pose proof (entries_bound ps).
  destruct (filter_update is_live ps i (k0, v0) Hi) as (rest & E1 & E2). rewrite decide_True in E1 by done.
  specialize (E2 (k0, HT_NOTFOUND)). rewrite decide_False in E2 by (intros Hl; by apply Hl).
  pose proof (wf_distinct ps Ht) as Hd. fold (entries ps) in E1. pose proof (eq_ind _ (fun x => x) Hd _ eq_refl) as Hd'. rewrite E1 in Hd'. destruct Hd' as [Hr Hd'].
  eexists true, _, (<[i := (k0, HT_NOTFOUND)]> ps). split; [done|]. rewrite Ep. split; [by destruct (Z.eqb_spec v0 HT_NOTFOUND)|]. split.
  - split; cbn.
    + rewrite length_insert. apply Hwf.
    + by apply (set_flat _ _ _ v0).
    + rewrite (filter_update_length used ps i (k0, v0)) by done. rewrite (hw_count _ _ Hwf).
      rewrite (decide_True (P := used (k0, v0))), (decide_True (P := used (k0, _))) by done. lia.
    + rewrite (hw_live _ _ Hwf). unfold entries in *. rewrite E1, E2 in *. cbn [length] in *.
      rewrite uw_small by (unfold in_range; change (2 ^ 64) with 18446744073709551616; lia). lia.
    + apply (table_wf_update _ _ (k0, v0)); [done..| |by apply (tw_reach _ Ht _ (k0, v0))].
      intros j Hj. symmetry. by apply (tw_distinct _ Ht _ _ (k0, v0)).
  - split; [|unfold entries in *; rewrite E1, E2; cbn [length]; lia]. intros key'. unfold entries at 1. rewrite (assoc_perm _ _ key' E2) by (by rewrite E2).
    rewrite (assoc_perm _ _ key' E1 Hd). cbn [assoc fst snd].
    rewrite (EQ_comm key' k0), <- (EQ_congr key k0) by done. destruct (EQFUNC key key') eqn:E'; [|done].
    apply assoc_absent. eapply Forall_impl; [exact Hr|]. intros q. cbv beta. cbn [fst].
    rewrite <- (EQ_congr key k0), (EQ_congr key key') by done. done.
Qed.
End Alloc.

(** ** New and cleared tables *)

Lemma htable_new_spec sz : 0 <= sz <= 2 ^ 31 -> exists ps, ht_wf (htable_new sz) ps /\ entries ps = [].
Proof using.
  intros Hsz. unfold htable_new, HT_N_INLINE. change (32 / 2) with 16. destruct (Z.leb_spec sz 16).
  - destruct (new_table_wf 4 ltac:(lia)) as (G1 & G2 & G3 & G4). eexists. by split.
  - rewrite (uw_small 32) by (unfold in_range; change (2 ^ 31) with 2147483648 in *; change (2 ^ 32) with 4294967296; lia).
    destruct (next_power_of_two_spec sz ltac:(lia)) as (j & Hj & -> & Hb). pose proof (Z.pow_le_mono_r 2 j 31 ltac:(lia) ltac:(lia)).
    change (2 ^ 31) with 2147483648 in *.
    rewrite (uw_small 64 (2 ^ j * 2)), uw_small by (unfold in_range; change (2 ^ 64) with 18446744073709551616; lia).
    assert (4 < j) by (apply (Z.pow_lt_mono_r_iff 2); [lia..|change (2 ^ 4) with 16; lia]).
    destruct (new_table_wf (j + 1) ltac:(lia)) as (G1 & G2 & G3 & G4). rewrite Z.pow_add_r in G1 at 1 by lia.
    replace (2 * (2 ^ j * 2 ^ 1)) with (2 ^ j * 2 * 2) in G1 by lia. eexists. by split.
Qed.

Lemma htable_reset_spec h ps sz : ht_wf h ps -> 0 <= sz <= 2 ^ 31 -> exists ps', ht_wf (htable_reset h sz) ps' /\ entries ps' = [].
Proof using.
  intros Hwf Hsz. unfold htable_reset. change (2 ^ 31) with 2147483648 in *.
  rewrite (uw_small 32) by (unfold in_range; change (2 ^ 32) with 4294967296; lia).
  assert (0 <= next_power_of_two sz <= 2 ^ 31) as Hp.
  { destruct (Z.eq_dec sz 0) as [->|]; [vm_compute; done|]. destruct (next_power_of_two_spec sz ltac:(lia)) as (j & Hj & -> & _).
    split; [apply Z.pow_nonneg; lia|apply Z.pow_le_mono_r; lia]. }
  destruct ((u64 (next_power_of_two sz * 4) <? size h) && (HT_N_INLINE <? size h)); [by apply htable_new_spec|].
  destruct (tw_len _ (hw_wf _ _ Hwf)) as (k & Hk & Hl). destruct (new_table_wf k Hk) as (G1 & G2 & G3 & G4).
  rewrite (hw_size _ _ Hwf), Hl. eexists. by split.
Qed.
End Table.
