(* ===== verification/HtableCorrect.v ===== *)
(** * Pointer hash tables are maps *)
From S2P Require Import Prelude Probe Htable HtableFacts.

Section Correct.
Context (HFUNC : Z -> Z) (EQFUNC : Z -> Z -> bool) (KEYALLOC : Z -> Z).

Inductive op := Put (key val : Z) | Adjoin (key val : Z) | Remove (key : Z) | Get (key : Z) | Has (key : Z) | Reset (sz : Z).

(** What callers may pass. *)
Definition op_ok (o : op) : Prop :=
  match o with
  | Put key val | Adjoin key val => key <> HT_NOTFOUND /\ val <> HT_NOTFOUND
  | Reset sz => 0 <= sz <= 2 ^ 31
  | _ => True
  end.

(** The table and the result, 0 where the C function has none. *)
Definition run_op (h : htable_t) (o : op) : option (htable_t * Z) :=
  match o with
  | Put key val => h ← put_r HFUNC EQFUNC KEYALLOC h key val; Some (h, 0)
  | Adjoin key val => h ← adjoin_r HFUNC EQFUNC KEYALLOC h key val; Some (h, 0)
  | Remove key => '(b, h) ← remove_r HFUNC EQFUNC h key; Some (h, b2z b)
  | Get key => v ← get_r HFUNC EQFUNC h key; Some (h, v)
  | Has key => b ← has_r HFUNC EQFUNC h key; Some (h, b2z b)
  | Reset sz => Some (htable_reset h sz, 0)
  end.
Fixpoint run (h : htable_t) (ops : list op) : option (htable_t * list Z) :=
  match ops with
  | [] => Some (h, [])
  | o :: ops => '(h, r) ← run_op h o; '(h, rs) ← run h ops; Some (h, r :: rs)
  end.

(** The specification: a function from keys to values. *)
Definition map_set (m : Z -> Z) (key val : Z) : Z -> Z := fun key' => if EQFUNC key key' then val else m key'.
Definition spec_op (m : Z -> Z) (o : op) : (Z -> Z) * Z :=
  match o with
  | Put key val => (map_set m key val, 0)
  | Adjoin key val => (if m key =? HT_NOTFOUND then map_set m key val else m, 0)
  | Remove key => (map_set m key HT_NOTFOUND, b2z (negb (m key =? HT_NOTFOUND)))
  | Get key => (m, m key)
  | Has key => (m, b2z (negb (m key =? HT_NOTFOUND)))
  | Reset _ => (fun _ => HT_NOTFOUND, 0)
  end.
Fixpoint spec (m : Z -> Z) (ops : list op) : list Z :=
  match ops with [] => [] | o :: ops => (spec_op m o).2 :: spec (spec_op m o).1 ops end.

Context `{!HashKeys HFUNC EQFUNC, !KeyAlloc EQFUNC KEYALLOC}.

(** The table [h] holds the map [m] and at most [n] entries. *)
Definition represents (h : htable_t) (m : Z -> Z) (n : Z) : Prop :=
  exists ps, ht_wf (HFUNC := HFUNC) (EQFUNC := EQFUNC) h ps /\ (forall key, m key = assoc (EQFUNC := EQFUNC) (entries ps) key) /\ Z.of_nat (length (entries ps)) <= n.

Lemma represents_put h' ps ps' m n key val : (forall key, m key = assoc (EQFUNC := EQFUNC) (entries ps) key) -> Z.of_nat (length (entries ps)) <= n ->
  ht_wf (HFUNC := HFUNC) (EQFUNC := EQFUNC) h' ps' -> map_put (EQFUNC := EQFUNC) key val (entries ps) (entries ps') -> represents h' (map_set m key val) (n + 1).
Proof using.
  intros Hm Hn Hw [Hp Hl]. exists ps'. split; [done|]. split; [|lia]. intros key'. unfold map_set. by rewrite Hp, Hm.
Qed.

Lemma run_op_spec h m n o : represents h m n -> 0 <= n -> n + 1 < 2 ^ 31 -> op_ok o ->
  exists h', run_op h o = Some (h', (spec_op m o).2) /\ represents h' (spec_op m o).1 (n + 1).
Proof using Type*.
  intros (ps & Hw & Hm & Hn) H0 Hb Ho. assert (bounded ps) as Hbd by (unfold bounded; lia).
  assert (forall h ps, ht_wf (HFUNC := HFUNC) (EQFUNC := EQFUNC) h ps -> forall m, (forall key, m key = assoc (EQFUNC := EQFUNC) (entries ps) key) ->
    Z.of_nat (length (entries ps)) <= n -> represents h m (n + 1)) as Hkeep.
  { intros h1 ps1 H1 m1 H2 H3. exists ps1. split_and!; [done..|lia]. }
  destruct o as [key val|key val|key|key|key|sz]; cbn [run_op spec_op fst snd].
  - destruct (put_spec (KEYALLOC := KEYALLOC) h ps key val) as (h' & ps' & -> & Hw' & Hp); [done|apply Ho|apply Ho|done|]. exists h'. split; [done|].
    by apply (represents_put _ ps ps').
  - destruct (adjoin_spec (KEYALLOC := KEYALLOC) h ps key val) as (h' & ps' & -> & Hw' & Hp); [done|apply Ho|apply Ho|done|]. exists h'. split; [done|].
    rewrite <- Hm in Hp. destruct (Z.eqb_spec (m key) HT_NOTFOUND); [by apply (represents_put _ ps ps')|].
    destruct (represents_put h' ps ps' m n key (m key)) as (ps2 & G1 & G2 & G3); [done..|]. exists ps2. split_and!; [done| |done].
    intros key'. rewrite <- G2. unfold map_set. destruct (EQFUNC key key') eqn:E; [|done]. rewrite !Hm. symmetry.
    apply assoc_congr; [by apply wf_distinct, Hw|done].
  - destruct (remove_spec h ps key Hw) as (b & h' & ps' & -> & -> & Hw' & Hp). exists h'. rewrite Hm. split; [done|].
    by apply (represents_put _ ps ps').
  - rewrite (ht_get_spec h ps key Hw), Hm. exists h. split; [done|]. by apply (Hkeep h ps).
  - unfold has_r. rewrite (ht_get_spec h ps key Hw), Hm. exists h. split; [done|]. by apply (Hkeep h ps).
  - destruct (htable_reset_spec h ps sz Hw Ho) as (ps' & Hw' & E). eexists. split; [done|]. exists ps'. rewrite E. by split_and!; [|done|cbn; lia].
Qed.
End Correct.

(** C36: a hash table is a map. After any sequence of fewer than 2^31 operations
    ([put], [adjoin], [remove], [get], [has], and resets) on a new table, for any
    functions that hash, compare and copy keys as their contract says, each
    operation ends without reading outside the table and gives what it gives on
    a function from keys to values: no growth, rehashing, reviving of a deleted
    entry or probing limit loses, duplicates or invents an entry. *)
Theorem htable_correct (HFUNC : Z -> Z) (EQFUNC : Z -> Z -> bool) (KEYALLOC : Z -> Z)
  (Hk : HashKeys HFUNC EQFUNC) (Ha : KeyAlloc EQFUNC KEYALLOC) (size : Z) (ops : list op) :
  0 <= size <= 2 ^ 31 -> Forall op_ok ops -> Z.of_nat (length ops) < 2 ^ 31 ->
  exists h, run HFUNC EQFUNC KEYALLOC (htable_new size) ops = Some (h, spec EQFUNC (fun _ => HT_NOTFOUND) ops).
Proof.
  intros Hs Ho Hl. assert (forall ops h m n, Forall op_ok ops -> represents HFUNC EQFUNC h m n -> 0 <= n -> n + Z.of_nat (length ops) < 2 ^ 31 ->
    exists h', run HFUNC EQFUNC KEYALLOC h ops = Some (h', spec EQFUNC m ops)) as Hgo.
  { clear ops Ho Hl. induction ops as [|o ops IH]; intros h m n Ho Hr Hn Hb; [by exists h|]. apply Forall_cons in Ho as [Ho Hos]. cbn [length] in Hb.
    destruct (run_op_spec HFUNC EQFUNC KEYALLOC h m n o Hr ltac:(lia) ltac:(lia) Ho) as (h1 & E1 & Hr1).
    destruct (IH h1 (spec_op EQFUNC m o).1 (n + 1) Hos Hr1 ltac:(lia) ltac:(lia)) as (h' & E). exists h'. cbn [run spec]. by rewrite E1; cbn [mbind option_bind]; rewrite E. }
  destruct (htable_new_spec (HFUNC := HFUNC) (EQFUNC := EQFUNC) size Hs) as (ps & Hw & E).
  apply (Hgo _ _ _ 0); [done| |lia|lia]. exists ps. rewrite E. by split_and!; [|done|cbn; lia].
Qed.

(** Forty keys that all hash to the first slot, with removals. *)
Definition demo_ops : list op :=
  flat_map (fun i => [Put (1024 * (8192 * i)) (i + 2); Has (1024 * (8192 * i)); Remove (1024 * (8192 * (i - 2))); Adjoin (1024 * (8192 * (i - 1))) 7])
    (map Z.of_nat (seq 1 40)) ++ [Get (1024 * (8192 * 17)); Reset 5; Get (1024 * (8192 * 17))].
Lemma htable_correct_witness : exists h,
  run ptrhash_hash Z.eqb id (htable_new 3) demo_ops = Some (h, spec Z.eqb (fun _ => HT_NOTFOUND) demo_ops).
Proof.
  apply (htable_correct ptrhash_hash Z.eqb id ptrhash_keys (identity_alloc _ _)).
  - lia.
  - unfold demo_ops. cbn. repeat (constructor; [cbn; try lia; split; discriminate|]). constructor.
  - vm_compute. reflexivity.
Defined.
