(* ===== verification/Eytzinger.v ===== *)
(** * Address ranges in an Eytzinger tree: src/src/support/eytzinger.c and .h

    The tree of the sorted boundaries is an array in breadth-first order, with a
    sentinel at its end. [None] is an access outside an array or a failed
    assertion. The read-write lock is left out: the operations are sequential. *)
From stdpp Require Import sorting.
From S2P Require Import Prelude.

Record eyt_range_t := mk_range { start : Z; end_ : Z; data : Z }.

Record eyt_tree_t := {
  n : Z; (* twice the number of ranges *)
  tree : list Z;
  idxs : list Z;
  min_addr : Z;
  max_addr : Z;
  nranges : Z;
  ranges : list eyt_range_t;
}.

Definition EYT_NOTFOUND : Z := 1.

(** [ptr_cmp] orders by the unsigned value; [qsort] with it sorts. *)
Definition ptr_cmp (left right : Z) : Z := b2z (right <? left) - b2z (left <? right).
Definition ptr_le (left right : Z) : Prop := ptr_cmp left right <= 0.
#[global] Instance ptr_le_dec left right : Decision (ptr_le left right) := ltac:(unfold ptr_le; apply _).
Definition qsort (l : list Z) : list Z := merge_sort ptr_le l.

(** Build the tree from a sorted array: the new [i] and [dest]. *)
Fixpoint eytzinger (fuel : nat) (src dest : list Z) (i k n : Z) : option (Z * list Z) :=
  match fuel with
  | O => None
  | S fuel =>
      if k <=? n then
        r ← eytzinger fuel src dest i (2 * k) n;
        let '(i, dest) := (r : Z * list Z) in
        x ← src !! Z.to_nat i;
        _ ← dest !! Z.to_nat (k - 1);
        let dest := <[Z.to_nat (k - 1) := x]> dest in
        eytzinger fuel src dest (i + 1) (2 * k + 1) n
      else Some (i, dest)
  end.

(** The number of trailing zero bits of a non-zero word. *)
Fixpoint ctz_pos (p : positive) : Z := match p with xO p => 1 + ctz_pos p | _ => 0 end.
Definition ctzll (k : Z) : Z := match k with Zpos p => ctz_pos p | _ => 0 end.

(** [while (k <= n)]: the path from the root. *)
Fixpoint descend (fuel : nat) (q : Z) (tree : list Z) (n k : Z) : option Z :=
  match fuel with
  | O => None
  | S fuel =>
      if k <=? n then
        t ← tree !! Z.to_nat (k - 1);
        let greater := b2z (t <? q) in
        descend fuel q tree n (Z.lor (Z.shiftl k 1) greater)
      else Some k
  end.

Definition eyt_obj_idx (q : Z) (tree : list Z) (n min_addr max_addr : Z) : option Z :=
  if n =? 0 then Some n
  else if negb (n mod 2 =? 0) then None
  else if (q <=? min_addr) || (max_addr <? q) then Some n
  else
    k ← descend (S (Z.to_nat n)) q tree n 1;
    let k := Z.shiftr k (ctzll k + 1) in
    if (k =? 0) || (n <? k) then None
    else t ← tree !! Z.to_nat (k - 1); if t <? q then Some (k - 1) else None.

Definition eyt_addr_query (addr : Z) : Z := u64 (addr + 1).

(** Boundary [i]: the start (even [i]) or end of range [i / 2]. *)
Definition boundary (rs : list eyt_range_t) (i : nat) : option Z :=
  r ← rs !! (i / 2)%nat; Some (if Nat.odd i then end_ r else start r).
Definition encode (i : nat) (val : Z) : Z := u64 (val + (if Nat.odd i then 1 else 2)).

(** [arraylist_grow]: the new items are not initialised. *)
Definition arraylist_grow (l : list Z) (m : Z) : list Z := l ++ replicate (Z.to_nat m) 0.

(** The first loop of [rebuild_tree] fills [idxs], the second one the user data. *)
Fixpoint fill_boundaries (rs : list eyt_range_t) (inds : list nat) (idxs : list Z) : option (list Z) :=
  match inds with
  | [] => Some idxs
  | i :: inds =>
      val ← boundary rs i;
      if val mod 4 =? 0 then
        _ ← idxs !! i; fill_boundaries rs inds (<[i := encode i val]> idxs)
      else None
  end.

Fixpoint fill_data (rs : list eyt_range_t) (tree : list Z) (e min_addr max_addr : Z) (inds : list nat) (idxs : list Z) :
  option (list Z) :=
  match inds with
  | [] => Some idxs
  | i :: inds =>
      r ← rs !! (i / 2)%nat;
      val ← boundary rs i;
      let eyt_val := encode i val in
      eyt_idx ← eyt_obj_idx (u64 (eyt_val + 1)) tree e min_addr max_addr;
      if e <=? eyt_idx then None else
      t ← tree !! Z.to_nat eyt_idx;
      if negb (t =? eyt_val) then None else
      _ ← idxs !! Z.to_nat eyt_idx;
      fill_data rs tree e min_addr max_addr inds
        (<[Z.to_nat eyt_idx := if Nat.odd i then EYT_NOTFOUND else data r]> idxs)
  end.

Definition rebuild_tree (t : eyt_tree_t) : option eyt_tree_t :=
  let e := 2 * nranges t in
  let needed := e + 1 in
  let tree0 := arraylist_grow (tree t) (needed - Z.of_nat (length (tree t))) in
  let idxs0 := arraylist_grow (idxs t) (needed - Z.of_nat (length (idxs t))) in
  let idxs0 := <[Z.to_nat e := EYT_NOTFOUND]> idxs0 in
  let tree0 := <[Z.to_nat e := 1]> tree0 in
  idxs1 ← fill_boundaries (ranges t) (seq 0 (Z.to_nat e)) idxs0;
  let idxs1 := qsort (take (Z.to_nat e) idxs1) ++ drop (Z.to_nat e) idxs1 in
  mn ← idxs1 !! 0%nat;
  mx ← idxs1 !! Z.to_nat (e - 1);
  let mx := u64 (mx + 1) in
  r ← eytzinger (S (Z.to_nat e)) idxs1 tree0 0 1 e;
  let tree1 := (r : Z * list Z).2 in
  idxs2 ← fill_data (ranges t) tree1 e mn mx (seq 0 (Z.to_nat e)) idxs1;
  Some {| n := e; tree := tree1; idxs := idxs2; min_addr := mn; max_addr := mx; nranges := nranges t; ranges := ranges t |}.

(** [arraylist_push] of the sentinels on two empty lists. *)
Definition eyt_tree_init : eyt_tree_t :=
  {| n := 0; tree := [1]; idxs := [EYT_NOTFOUND]; min_addr := 0; max_addr := 0; nranges := 0; ranges := [] |}.

Definition eyt_tree_add_range (t : eyt_tree_t) (s e d : Z) : option eyt_tree_t :=
  if (s mod 4 =? 0) && (e mod 4 =? 0) && (s <? e) then
    rebuild_tree {| n := n t; tree := tree t; idxs := idxs t; min_addr := min_addr t; max_addr := max_addr t;
                    nranges := nranges t + 1; ranges := ranges t ++ [mk_range s e d] |}
  else None.

Definition eyt_tree_is_in_range (t : eyt_tree_t) (addr : Z) : option bool :=
  idx ← eyt_obj_idx (eyt_addr_query addr) (tree t) (n t) (min_addr t) (max_addr t);
  x ← tree t !! Z.to_nat idx; Some (Z.land x 1 =? 0).

Definition eyt_tree_find_data (t : eyt_tree_t) (addr : Z) : option Z :=
  idx ← eyt_obj_idx (eyt_addr_query addr) (tree t) (n t) (min_addr t) (max_addr t);
  idxs t !! Z.to_nat idx.

Example two_ranges :
  (t ← eyt_tree_add_range eyt_tree_init 16 32 100; t ← eyt_tree_add_range t 32 40 200;
   Some (map (eyt_tree_find_data t) [16; 20; 32; 36; 40; 44])) =
  Some [Some 1; Some 100; Some 100; Some 200; Some 200; Some 1].
Proof. vm_compute. reflexivity. Qed.
