(* ===== verification/EytzingerFacts.v ===== *)
(** * The Eytzinger tree: layout, search and the containment of addresses *)
From stdpp Require Import sorting.
From S2P Require Import Prelude Eytzinger.

(** ** The nodes of the implicit tree in order *)

Fixpoint inorder (fuel : nat) (k n : Z) : list Z :=
  match fuel with
  | O => []
  | S fuel => if k <=? n then inorder fuel (2 * k) n ++ k :: inorder fuel (2 * k + 1) n else []
  end.

(** The tree below [k] is not deeper than the fuel. *)
Definition enough (fuel : nat) (k n : Z) : Prop := 1 <= k /\ n < k * 2 ^ Z.of_nat fuel.

Lemma enough_child fuel k n j : 0 <= j <= 1 -> enough (S fuel) k n -> enough fuel (2 * k + j) n.
Proof. intros Hj [H1 H2]. rewrite Nat2Z.inj_succ, Z.pow_succ_r in H2 by lia. pose proof (pow2_pos (Z.of_nat fuel)). split; nia. Qed.

Lemma enough_0 k n : enough 0 k n -> n < k.
Proof. intros [_ H]. simpl in H. lia. Qed.

(** [v] is [k] or below it. *)
Definition below (v k : Z) : Prop := exists d, 0 <= d /\ v / 2 ^ d = k.

Lemma below_child v k j : 0 <= j <= 1 -> below v (2 * k + j) -> below v k.
Proof.
  intros Hj (d & Hd & E). exists (d + 1). split; [lia|].
  pose proof (pow2_pos d). rewrite Z.pow_add_r, <- Z.div_div, E by lia. change (2 ^ 1) with 2.
  Z.to_euclidean_division_equations; lia.
Qed.

Lemma below_cases v k : below v k -> v = k \/ below v (2 * k) \/ below v (2 * k + 1).
Proof.
  intros (d & Hd & E). destruct (Z.eq_dec d 0) as [->|]; [left; by rewrite Z.pow_0_r, Z.div_1_r in E|right].
  replace d with (d - 1 + 1) in E by lia. pose proof (pow2_pos (d - 1)).
  rewrite Z.pow_add_r, <- Z.div_div in E by lia. change (2 ^ 1) with 2 in E.
  assert (v / 2 ^ (d - 1) = 2 * k \/ v / 2 ^ (d - 1) = 2 * k + 1) as [?|?]
    by (Z.to_euclidean_division_equations; lia); [left|right]; exists (d - 1); split; (lia || done).
Qed.

Lemma below_ge v k : 1 <= k -> below v k -> k <= v.
Proof.
  intros Hk (d & Hd & <-). pose proof (pow2_ge1 d Hd).
  destruct (Z.lt_ge_cases v 0); [pose proof (Z.div_lt_upper_bound v (2 ^ d) 0); lia|].
  apply Z.div_le_upper_bound; [lia|]. nia.
Qed.

Lemma below_disjoint v k : 1 <= k -> below v (2 * k) -> below v (2 * k + 1) -> False.
Proof.
  intros Hk (d & Hd & E) (d' & Hd' & E').
  assert (forall e x, 0 < e -> 0 < x -> x / 2 ^ e <= x / 2) as Hle.
  { intros e x He Hx. apply Z.div_le_compat_l; [lia|]. pose proof (Z.pow_le_mono_r 2 1 e). lia. }
  destruct (Z.lt_trichotomy d d') as [Hlt|[->|Hlt]]; [|lia|].
  - replace d' with (d + (d' - d)) in E' by lia. pose proof (pow2_pos d Hd). pose proof (pow2_pos (d' - d) ltac:(lia)).
    rewrite Z.pow_add_r, <- Z.div_div, E in E' by lia. pose proof (Hle (d' - d) (2 * k) ltac:(lia) ltac:(lia)) as Hb.
    rewrite E', Z.mul_comm, Z.div_mul in Hb by lia. lia.
  - replace d with (d' + (d - d')) in E by lia. pose proof (pow2_pos d' Hd'). pose proof (pow2_pos (d - d') ltac:(lia)).
    rewrite Z.pow_add_r, <- Z.div_div, E' in E by lia. pose proof (Hle (d - d') (2 * k + 1) ltac:(lia) ltac:(lia)) as Hb.
    rewrite E in Hb. Z.to_euclidean_division_equations; lia.
Qed.

Lemma elem_of_inorder fuel k n v : enough fuel k n -> v ∈ inorder fuel k n <-> v <= n /\ below v k.
Proof.
  revert k. induction fuel as [|fuel IH]; intros k Hf.
  { pose proof (enough_0 _ _ Hf). destruct Hf. cbn [inorder]. rewrite elem_of_nil.
    split; [done|]. intros [Hv Hb%below_ge]; lia. }
  pose proof (enough_child fuel k n 0 ltac:(lia) Hf) as H0. pose proof (enough_child fuel k n 1 ltac:(lia) Hf) as H1.
  rewrite Z.add_0_r in H0. destruct Hf as [Hk _]. cbn [inorder]. destruct (Z.leb_spec k n).
  - rewrite elem_of_app, elem_of_cons, !IH by done. split.
    + intros [[? ?]|[->|[? ?]]].
      * split; [done|]. apply (below_child _ _ 0); [lia|by rewrite Z.add_0_r].
      * split; [done|]. exists 0. by rewrite Z.pow_0_r, Z.div_1_r.
      * split; [done|]. by apply (below_child _ _ 1).
    + intros [Hv [->|[Hb|Hb]]%below_cases]; tauto.
  - rewrite elem_of_nil. split; [done|]. intros [Hv Hb%below_ge]; lia.
Qed.

Lemma inorder_NoDup fuel k n : enough fuel k n -> NoDup (inorder fuel k n).
Proof.
  revert k. induction fuel as [|fuel IH]; intros k Hf; [constructor|].
  pose proof (enough_child fuel k n 0 ltac:(lia) Hf) as H0. pose proof (enough_child fuel k n 1 ltac:(lia) Hf) as H1.
  rewrite Z.add_0_r in H0. destruct Hf as [Hk _]. cbn [inorder]. destruct (Z.leb_spec k n); [|constructor].
  apply NoDup_app. split; [by apply IH|]. split.
  - intros v [_ Hv]%elem_of_inorder; [|done]. intros [->|[_ Hv']%elem_of_inorder]%elem_of_cons; [|by eapply below_disjoint|done].
    apply below_ge in Hv; lia.
  - apply NoDup_cons. split; [|by apply IH]. intros [_ Hv]%elem_of_inorder; [|done]. apply below_ge in Hv; lia.
Qed.

(** The nodes below the root are 1 to [n]. *)
Lemma inorder_root fuel n : 0 <= n -> enough fuel 1 n ->
  (forall v, v ∈ inorder fuel 1 n <-> 1 <= v <= n) /\ length (inorder fuel 1 n) = Z.to_nat n.
Proof.
  intros Hn Hf. assert (forall v, v ∈ inorder fuel 1 n <-> 1 <= v <= n) as Hin.
  { intros v. rewrite elem_of_inorder by done. split.
    - intros [? Hb%below_ge]; lia.
    - intros Hv. split; [lia|]. exists (Z.log2 v). split; [apply Z.log2_nonneg|].
      pose proof (Z.log2_spec v ltac:(lia)) as Hl. rewrite Z.pow_succ_r in Hl by apply Z.log2_nonneg.
      symmetry. apply (Z.div_unique_pos _ _ _ (v - 2 ^ Z.log2 v)); lia. }
  split; [done|].
  assert (inorder fuel 1 n ≡ₚ map (fun i => Z.of_nat i + 1) (seq 0 (Z.to_nat n))) as Ep.
  { apply NoDup_Permutation; [by apply inorder_NoDup| |].
    - apply NoDup_fmap_2_strong; [intros; lia|]. apply NoDup_seq.
    - intros v. rewrite Hin, list_elem_of_In, in_map_iff. split.
      + intros Hv. exists (Z.to_nat (v - 1)). split; [lia|]. apply in_seq. lia.
      + intros (i & <- & Hi%in_seq). lia. }
  rewrite Ep, length_map, length_seq. done.
Qed.

(** ** Building the tree *)

Lemma eytzinger_spec src n fuel : forall dest i k, enough fuel k n -> 0 <= i ->
  n <= Z.of_nat (length dest) -> i + Z.of_nat (length (inorder fuel k n)) <= Z.of_nat (length src) ->
  exists dest', eytzinger (S fuel) src dest i k n = Some (i + Z.of_nat (length (inorder fuel k n)), dest') /\
    length dest' = length dest /\
    (forall j, 0 <= j -> j + 1 ∉ inorder fuel k n -> dest' !! Z.to_nat j = dest !! Z.to_nat j) /\
    (forall p v, inorder fuel k n !! p = Some v -> dest' !! Z.to_nat (v - 1) = src !! (Z.to_nat i + p)%nat).
Proof.
  induction fuel as [|fuel IH]; intros dest i k Hf Hi Hd Hs.
  { pose proof (enough_0 _ _ Hf). exists dest. cbn [eytzinger inorder length]. destruct (Z.leb_spec k n); [lia|].
    rewrite Z.add_0_r. split_and!; [done|done|done|]. intros p v Hp. done. }
  pose proof (enough_child fuel k n 0 ltac:(lia) Hf) as H0. pose proof (enough_child fuel k n 1 ltac:(lia) Hf) as H1.
  pose proof (inorder_NoDup (S fuel) k n Hf) as Hnd.
  rewrite Z.add_0_r in H0. pose proof Hf as [Hk _]. remember (S fuel) as f. cbn [eytzinger]. subst f. cbn [inorder] in *.
  destruct (Z.leb_spec k n).
  2:{ exists dest. cbn [length]. rewrite Z.add_0_r. split_and!; [done|done|done|]. intros p v Hp. done. }
  set (L := inorder fuel (2 * k) n) in *. set (R := inorder fuel (2 * k + 1) n) in *.
  rewrite length_app in *. cbn [length] in *.
  destruct (IH dest i (2 * k)) as (dest1 & -> & El1 & Hk1 & Hp1); [done|done|done|fold L; lia|]. fold L in Hk1, Hp1 |- *.
  cbn [mbind option_bind].
  destruct (lookup_lt_is_Some_2 src (Z.to_nat (i + Z.of_nat (length L)))) as [x Hx]; [lia|]. rewrite Hx. cbn [mbind option_bind].
  destruct (lookup_lt_is_Some_2 dest1 (Z.to_nat (k - 1))) as [y Hy]; [lia|]. rewrite Hy. cbn [mbind option_bind].
  set (dest2 := <[Z.to_nat (k - 1) := x]> dest1). assert (length dest2 = length dest) as El2 by (unfold dest2; by rewrite length_insert).
  destruct (IH dest2 (i + Z.of_nat (length L) + 1) (2 * k + 1)) as (dest3 & -> & El3 & Hk3 & Hp3);
    [done|lia|lia|fold R; lia|]. fold R in Hk3, Hp3 |- *.
  exists dest3. split; [f_equal; f_equal; lia|]. split; [congruence|].
  apply NoDup_app in Hnd as (_ & HLR & [HkR _]%NoDup_cons). split.
  - intros j Hj Hno. rewrite elem_of_app, elem_of_cons in Hno.
    rewrite Hk3 by (done || tauto). unfold dest2. rewrite list_lookup_insert_ne by (intros E; apply Hno; right; left; lia).
    apply Hk1; [done|tauto].
  - intros p v Hp. apply lookup_app_Some in Hp as [Hp|[Hlp Hp]].
    + assert (v ∈ L) as Hv by (by apply list_elem_of_lookup_2 in Hp). specialize (HLR v Hv). rewrite elem_of_cons in HLR.
      assert (1 <= v) by (unfold L in Hv; apply elem_of_inorder in Hv as [_ Hv]; [apply below_ge in Hv; lia|done]).
      rewrite Hk3 by (try lia; rewrite Z.sub_add; tauto). unfold dest2. rewrite list_lookup_insert_ne by lia. by apply Hp1.
    + destruct (p - length L)%nat as [|q] eqn:Eq; cbn in Hp.
      * injection Hp as <-. rewrite Hk3 by (try lia; by rewrite Z.sub_add). unfold dest2.
        rewrite list_lookup_insert_eq by (apply lookup_lt_Some in Hy; lia).
        rewrite <- Hx. f_equal. lia.
      * rewrite (Hp3 q v Hp). f_equal. lia.
Qed.

(** ** Searching *)

(** The node where the path [k] last went right; 0 when it never did. *)
Definition last_right (k : Z) : Z := Z.shiftr k (ctzll k + 1).

Lemma ctz_pos_nonneg p : 0 <= ctz_pos p.
Proof. induction p; simpl; lia. Qed.

Lemma last_right_left k : 1 <= k -> last_right (2 * k) = last_right k.
Proof.
  intros Hk. unfold last_right. destruct k as [|p|p]; [lia| |lia]. change (2 * Z.pos p) with (Z.pos (xO p)).
  change (ctzll (Z.pos p~0)) with (1 + ctz_pos p). change (ctzll (Z.pos p)) with (ctz_pos p). pose proof (ctz_pos_nonneg p).
  rewrite !Z.shiftr_div_pow2 by lia. replace (1 + ctz_pos p + 1) with (1 + (ctz_pos p + 1)) by lia.
  pose proof (pow2_pos (ctz_pos p + 1)). rewrite Z.pow_add_r, <- Z.div_div by lia. f_equal. change (2 ^ 1) with 2.
  change (Z.pos p~0) with (2 * Z.pos p). rewrite Z.mul_comm. by apply Z.div_mul.
Qed.

Lemma last_right_right k : 1 <= k -> last_right (2 * k + 1) = k.
Proof.
  intros Hk. unfold last_right. destruct k as [|p|p]; [lia| |lia]. change (2 * Z.pos p + 1) with (Z.pos (xI p)).
  change (ctzll (Z.pos p~1)) with 0. rewrite Z.shiftr_div_pow2 by lia. change (Z.pos p~1) with (2 * Z.pos p + 1).
  change (2 ^ (0 + 1)) with 2. Z.to_euclidean_division_equations; lia.
Qed.

Definition node_val (tree : list Z) (v : Z) : Z := get tree (Z.to_nat (v - 1)).
Definition node_le (tree : list Z) (v v' : Z) : Prop := node_val tree v <= node_val tree v'.

Lemma child_index k j : 0 <= j <= 1 -> 0 <= k -> Z.lor (Z.shiftl k 1) j = 2 * k + j.
Proof. intros Hj Hk. rewrite Z.lor_comm, lor_add by (unfold in_range; lia). lia. Qed.

Lemma descend_spec tree n q fuel : n <= Z.of_nat (length tree) -> forall k, enough fuel k n ->
  StronglySorted (node_le tree) (inorder fuel k n) ->
  exists kf A B, descend (S fuel) q tree n k = Some kf /\ inorder fuel k n = A ++ B /\
    Forall (fun v => node_val tree v < q) A /\ Forall (fun v => q <= node_val tree v) B /\
    (A = [] -> last_right kf = last_right k) /\ (forall A' z, A = A' ++ [z] -> last_right kf = z).
Proof.
  intros Hlen. induction fuel as [|fuel IH]; intros k Hf Hs.
  { pose proof (enough_0 _ _ Hf). exists k, [], []. cbn [descend inorder]. destruct (Z.leb_spec k n); [lia|].
    split_and!; try done. intros A' z E. by destruct A'. }
  pose proof (enough_child fuel k n 0 ltac:(lia) Hf) as H0. pose proof (enough_child fuel k n 1 ltac:(lia) Hf) as H1.
  rewrite Z.add_0_r in H0. destruct Hf as [Hk _]. remember (S fuel) as f. cbn [descend]. subst f. cbn [inorder] in *.
  destruct (Z.leb_spec k n).
  2:{ exists k, [], []. split_and!; try done. intros A' z E. by destruct A'. }
  rewrite (get_lookup tree (Z.to_nat (k - 1))) by lia. cbn [mbind option_bind]. fold (node_val tree k).
  apply StronglySorted_app in Hs as (HL & HsL & [Hle HsR]%StronglySorted_cons).
  destruct (Z.ltb_spec (node_val tree k) q) as [Hq|Hq]; cbn [b2z]; rewrite child_index by lia.
  - destruct (IH (2 * k + 1) H1 HsR) as (kf & A & B & -> & E & HA & HB & Hl0 & Hl1).
    exists kf, (inorder fuel (2 * k) n ++ k :: A), B. split; [done|]. split; [by rewrite E, <- app_assoc|].
    split; [|split; [done|split]].
    + apply Forall_app. split; [|by constructor]. apply Forall_forall. intros v Hv.
      specialize (HL v k Hv ltac:(by left)). unfold node_le in HL. lia.
    + by intros [_ ?]%app_eq_nil.
    + intros A' z Ez. destruct A as [|a A0 _] using rev_ind.
      * rewrite Hl0, last_right_right by (done || lia). apply app_inj_tail in Ez as [_ <-]. done.
      * apply (Hl1 A0). rewrite app_comm_cons, app_assoc in Ez. apply app_inj_tail in Ez as [_ <-]. done.
  - rewrite Z.add_0_r. destruct (IH (2 * k) H0 HsL) as (kf & A & B & -> & E & HA & HB & Hl0 & Hl1).
    exists kf, A, (B ++ k :: inorder fuel (2 * k + 1) n). split; [done|]. split; [by rewrite E, <- app_assoc|].
    split; [done|]. split; [|split; [|done]].
    + apply Forall_app. split; [done|]. constructor; [done|]. eapply Forall_impl; [exact Hle|].
      intros v Hv. unfold node_le in Hv. lia.
    + intros HAn. rewrite Hl0 by done. apply last_right_left. lia.
Qed.

(** A tree of [n] boundaries that the search relies on. *)
Record searchable (tree : list Z) (n : Z) : Prop := {
  sr_len : 0 < n <= Z.of_nat (length tree);
  sr_even : n mod 2 = 0;
  sr_sorted : StronglySorted (node_le tree) (inorder (Z.to_nat n) 1 n);
}.

Lemma root_enough n : 0 <= n -> enough (Z.to_nat n) 1 n.
Proof. intros Hn. split; [lia|]. rewrite Z2Nat.id, Z.mul_1_l by lia. by apply Z.pow_gt_lin_r. Qed.

(** The search returns the largest boundary below [q]. *)
Lemma eyt_obj_idx_spec tree n q mn mx : searchable tree n -> mn < q <= mx ->
  (exists v, 1 <= v <= n /\ node_val tree v < q) ->
  exists idx, eyt_obj_idx q tree n mn mx = Some idx /\ 0 <= idx < n /\ node_val tree (idx + 1) < q /\
    forall v, 1 <= v <= n -> node_val tree v < q -> node_val tree v <= node_val tree (idx + 1).
Proof.
  intros [Hn He Hs] Hq (v0 & Hv0 & Hq0). pose proof (root_enough n ltac:(lia)) as Hf.
  destruct (inorder_root _ n ltac:(lia) Hf) as [Hin _].
  destruct (descend_spec tree n q (Z.to_nat n) ltac:(lia) 1 Hf Hs) as (kf & A & B & E & EL & HA & HB & _ & Hl).
  unfold eyt_obj_idx. destruct (Z.eqb_spec n 0); [lia|]. rewrite He. cbn [Z.eqb negb].
  destruct (Z.leb_spec q mn); [lia|]. destruct (Z.ltb_spec mx q); [lia|]. cbn [orb]. rewrite E. cbn [mbind option_bind].
  fold (last_right kf).
  assert (forall v, 1 <= v <= n -> node_val tree v < q -> v ∈ A) as HvA.
  { intros v Hv Hvq. apply Hin in Hv. rewrite EL in Hv. apply elem_of_app in Hv as [|Hv]; [done|].
    rewrite Forall_forall in HB. specialize (HB v Hv). lia. }
  destruct A as [|z A _] using rev_ind; [specialize (HvA v0 Hv0 Hq0); by apply elem_of_nil in HvA|].
  rewrite (Hl A z eq_refl).
  assert (1 <= z <= n) as Hz by (apply Hin; rewrite EL; apply elem_of_app; left; apply elem_of_app; right; by left).
  apply Forall_app in HA as [_ [HA _]%Forall_cons].
  destruct (Z.eqb_spec z 0); [lia|]. destruct (Z.ltb_spec n z); [lia|]. cbn [orb].
  rewrite (get_lookup tree) by lia. cbn [mbind option_bind]. fold (node_val tree z).
  destruct (Z.ltb_spec (node_val tree z) q); [|lia]. exists (z - 1). rewrite Z.sub_add. split; [done|]. split; [lia|]. split; [done|].
  intros v Hv Hvq. apply HvA in Hvq; [|done]. rewrite EL in Hs. apply StronglySorted_app_1_l in Hs.
  apply StronglySorted_app in Hs as (Hle & _ & _). apply elem_of_app in Hvq as [Hvq|Hvq].
  - apply (Hle v z Hvq). by left.
  - apply list_elem_of_singleton in Hvq as ->. done.
Qed.
