(* ===== verification/EytzingerCorrect.v ===== *)
(** * The Eytzinger tree of address ranges: rebuilding and queries *)
From stdpp Require Import sorting.
From S2P Require Import Prelude Eytzinger EytzingerFacts.

(** ** Sorting *)

Lemma ptr_le_iff x y : ptr_le x y <-> x <= y.
Proof. unfold ptr_le, ptr_cmp. destruct (Z.ltb_spec y x), (Z.ltb_spec x y); simpl; lia. Qed.

#[export] Instance ptr_le_trans : Transitive ptr_le.
Proof. intros x y z. rewrite !ptr_le_iff. lia. Qed.
#[export] Instance ptr_le_total : Total ptr_le.
Proof. intros x y. rewrite !ptr_le_iff. lia. Qed.

Lemma qsort_perm l : qsort l ≡ₚ l.
Proof. apply merge_sort_Permutation. Qed.

Lemma qsort_sorted l : StronglySorted Z.le (qsort l).
Proof.
  assert (StronglySorted ptr_le (qsort l)) as Hs by apply (StronglySorted_merge_sort _).
  induction Hs as [|x k _ IH Hx]; constructor; [done|]. eapply Forall_impl; [exact Hx|]. intros y. apply ptr_le_iff.
Qed.

Lemma StronglySorted_map (f : Z -> Z) L : StronglySorted Z.le (map f L) -> StronglySorted (fun a b => f a <= f b) L.
Proof.
  induction L as [|a L IH]; intros Hs; [constructor|]. cbn [map] in Hs. apply StronglySorted_cons in Hs as [Ha Hs].
  constructor; [by apply IH|]. apply Forall_forall. intros b Hb. rewrite Forall_forall in Ha. apply Ha.
  apply list_elem_of_In, in_map. by apply list_elem_of_In.
Qed.

Lemma NoDup_map_inj (f : Z -> Z) L x y : NoDup (map f L) -> x ∈ L -> y ∈ L -> f x = f y -> x = y.
Proof.
  induction L as [|a L IH]; intros Hn Hx Hy E; [by apply elem_of_nil in Hx|]. cbn [map] in Hn.
  apply NoDup_cons in Hn as [Ha Hn]. assert (forall z, z ∈ L -> f z ∈ map f L) as Hm
    by (intros z Hz; apply list_elem_of_In, in_map; by apply list_elem_of_In).
  apply elem_of_cons in Hx, Hy. destruct Hx as [->|Hx], Hy as [->|Hy]; [done|..|by apply IH].
  - exfalso. apply Ha. rewrite E. by apply Hm.
  - exfalso. apply Ha. rewrite <- E. by apply Hm.
Qed.

(** ** Ranges and their encoded boundaries *)

Definition range_ok (r : eyt_range_t) : Prop :=
  start r mod 4 = 0 /\ end_ r mod 4 = 0 /\ 0 <= start r < end_ r /\ end_ r < 2 ^ 64.

(** Aligned, not empty and disjoint; they may abut. *)
Record ranges_ok (rs : list eyt_range_t) : Prop := {
  ro_each : Forall range_ok rs;
  ro_disjoint i j ri rj : i <> j -> rs !! i = Some ri -> rs !! j = Some rj -> end_ ri <= start rj \/ end_ rj <= start ri;
}.

(** The containment that a query decides: start-exclusive, end-inclusive. *)
Definition contains (addr : Z) (r : eyt_range_t) : bool := (start r <? addr) && (addr <=? end_ r).

Definition enc (rs : list eyt_range_t) (i : nat) : Z := match boundary rs i with Some v => encode i v | None => 0 end.
Definition dat (rs : list eyt_range_t) (i : nat) : Z :=
  match rs !! (i / 2)%nat with Some r => if Nat.odd i then EYT_NOTFOUND else data r | None => 0 end.

Section Ranges.
Context (rs : list eyt_range_t) (Hrs : ranges_ok rs).
Let e : nat := (2 * length rs)%nat.

Lemma index_cases i : (i < e)%nat -> exists m r, rs !! m = Some r /\ range_ok r /\
  ((i = (2 * m)%nat /\ Nat.odd i = false /\ (i / 2 = m)%nat) \/ (i = (2 * m + 1)%nat /\ Nat.odd i = true /\ (i / 2 = m)%nat)).
Proof using Hrs.
  intros Hi. unfold e in Hi. pose proof (Nat.div_mod_eq i 2). pose proof (Nat.mod_upper_bound i 2 ltac:(lia)).
  destruct (lookup_lt_is_Some_2 rs (i / 2)) as [r Hr]; [lia|]. exists (i / 2)%nat, r. split; [done|].
  split; [exact (Forall_lookup_1 _ _ _ _ (ro_each _ Hrs) Hr)|].
  destruct (i mod 2)%nat as [|[|?]] eqn:E; [left|right|lia]; (split; [lia|]); (split; [|done]).
  - apply not_true_iff_false. rewrite Nat.odd_spec. intros [q Hq]. lia.
  - apply Nat.odd_spec. exists (i / 2)%nat. lia.
Qed.

Lemma enc_start m r : rs !! m = Some r -> range_ok r -> enc rs (2 * m) = start r + 2.
Proof using.
  intros Hr (H1 & H2 & H3 & H4). unfold enc, boundary. rewrite Nat.mul_comm, Nat.div_mul, Hr by done. cbn [mbind option_bind].
  unfold encode. rewrite Nat.odd_mul, andb_false_r. apply uw_small. unfold in_range.
  Z.to_euclidean_division_equations; lia.
Qed.
Lemma enc_end m r : rs !! m = Some r -> range_ok r -> enc rs (2 * m + 1) = end_ r + 1.
Proof using.
  intros Hr (H1 & H2 & H3 & H4). unfold enc, boundary.
  assert ((2 * m + 1) / 2 = m)%nat as -> by (symmetry; apply (Nat.div_unique _ _ _ 1); lia). rewrite Hr. cbn [mbind option_bind].
  unfold encode. rewrite Nat.odd_add, Nat.odd_mul. cbn [Nat.odd negb Nat.even andb xorb]. apply uw_small. unfold in_range.
  Z.to_euclidean_division_equations; lia.
Qed.

(** The encoded boundary of an index, with its alignment. *)
Lemma enc_cases i : (i < e)%nat -> exists m r, rs !! m = Some r /\ range_ok r /\
  ((i = (2 * m)%nat /\ enc rs i = start r + 2 /\ dat rs i = data r) \/
   (i = (2 * m + 1)%nat /\ enc rs i = end_ r + 1 /\ dat rs i = EYT_NOTFOUND)).
Proof using Hrs.
  intros Hi. destruct (index_cases i Hi) as (m & r & Hr & Hok & [(E & Eo & Ed)|(E & Eo & Ed)]); exists m, r;
    (split; [done|]); (split; [done|]); [left|right]; (split; [done|]).
  - split; [rewrite E; by apply enc_start|]. unfold dat. by rewrite Ed, Hr, Eo.
  - split; [rewrite E; by apply enc_end|]. unfold dat. by rewrite Ed, Hr, Eo.
Qed.

Lemma enc_inj i j : (i < e)%nat -> (j < e)%nat -> enc rs i = enc rs j -> i = j.
Proof using Hrs.
  intros Hi Hj E. destruct (enc_cases i Hi) as (m & r & Hr & (A1 & A2 & A3 & A4) & Hci).
  destruct (enc_cases j Hj) as (m' & r' & Hr' & (B1 & B2 & B3 & B4) & Hcj).
  destruct (decide (m = m')) as [->|Hne].
  - rewrite Hr in Hr'. injection Hr' as <-.
    destruct Hci as [(-> & Ei & _)|(-> & Ei & _)], Hcj as [(-> & Ej & _)|(-> & Ej & _)]; try done;
      exfalso; Z.to_euclidean_division_equations; lia.
  - exfalso. destruct (ro_disjoint _ Hrs m m' r r' Hne Hr Hr') as [Hd|Hd];
    destruct Hci as [(-> & Ei & _)|(-> & Ei & _)], Hcj as [(-> & Ej & _)|(-> & Ej & _)];
      Z.to_euclidean_division_equations; lia.
Qed.

Lemma enc_range i : (i < e)%nat -> 0 < enc rs i < 2 ^ 64 - 1.
Proof using Hrs.
  intros Hi. destruct (enc_cases i Hi) as (m & r & _ & (A1 & A2 & A3 & A4) & [(_ & -> & _)|(_ & -> & _)]);
    Z.to_euclidean_division_equations; lia.
Qed.

Lemma fill_boundaries_spec m : forall j idxs, (j + m = e)%nat -> (e <= length idxs)%nat ->
  fill_boundaries rs (seq j m) idxs = Some (take j idxs ++ map (enc rs) (seq j m) ++ drop (j + m) idxs).
Proof using Hrs.
  induction m as [|m IH]; intros j idxs Hj Hl.
  - cbn [seq fill_boundaries map app]. by rewrite Nat.add_0_r, take_drop.
  - cbn [seq fill_boundaries map]. destruct (index_cases j ltac:(lia)) as (q & r & Hr & (A1 & A2 & _) & Hc).
    assert (exists v, boundary rs j = Some v /\ v mod 4 = 0) as (v & Hv & Hv4).
    { unfold boundary. destruct Hc as [(_ & -> & ->)|(_ & -> & ->)]; rewrite Hr; cbn [mbind option_bind]; eauto. }
    unfold enc at 1. rewrite Hv. cbn [mbind option_bind]. rewrite Hv4. cbn [Z.eqb].
    destruct (lookup_lt_is_Some_2 idxs j) as [x Hx]; [lia|]. rewrite Hx. cbn [mbind option_bind].
    rewrite IH by (rewrite ?length_insert; lia).
    rewrite (take_S_r _ _ (encode j v)) by (apply list_lookup_insert_eq; lia). rewrite take_insert_ge by lia.
    rewrite drop_insert_lt by lia. rewrite <- app_assoc. cbn [app]. by replace (j + S m)%nat with (S j + m)%nat by lia.
Qed.

(** ** The tree over the boundaries *)

(** The node [idx + 1] holds boundary [i]. *)
Record layout (tree : list Z) (mn mx : Z) : Prop := {
  la_search : searchable tree (Z.of_nat e);
  la_val v : 1 <= v <= Z.of_nat e -> exists i, (i < e)%nat /\ node_val tree v = enc rs i;
  la_node i : (i < e)%nat -> exists v, 1 <= v <= Z.of_nat e /\ node_val tree v = enc rs i;
  la_inj v v' : 1 <= v <= Z.of_nat e -> 1 <= v' <= Z.of_nat e -> node_val tree v = node_val tree v' -> v = v';
  la_low : exists i, (i < e)%nat /\ mn = enc rs i;
  la_min i : (i < e)%nat -> mn <= enc rs i;
  la_max i : (i < e)%nat -> enc rs i + 1 <= mx;
}.

Lemma build_layout dest : rs <> [] -> (e < length dest)%nat ->
  let src := qsort (map (enc rs) (seq 0 e)) in
  exists mn mx tree, src !! 0%nat = Some mn /\ src !! (e - 1)%nat = Some mx /\ u64 (mx + 1) = mx + 1 /\
    eytzinger (S e) (src ++ [1]) dest 0 1 (Z.of_nat e) = Some (Z.of_nat e, tree) /\
    length tree = length dest /\ tree !! e = dest !! e /\ layout tree mn (mx + 1).
Proof using Hrs.
  intros Hne Hd. cbv zeta. set (src := qsort _).
  assert (0 < e)%nat as He0 by (unfold e; destruct rs; [done|simpl; lia]).
  pose proof (qsort_perm (map (enc rs) (seq 0 e))) as Hp. pose proof (qsort_sorted (map (enc rs) (seq 0 e))) as Hs. fold src in Hp, Hs.
  assert (length src = e) as Hl by (rewrite Hp, length_map, length_seq; done).
  assert (forall x, x ∈ src <-> exists i, (i < e)%nat /\ x = enc rs i) as Hin.
  { intros x. rewrite Hp, list_elem_of_In, in_map_iff. split.
    - intros (i & <- & Hi%in_seq). exists i. split; [lia|done].
    - intros (i & Hi & ->). exists i. split; [done|]. apply in_seq. lia. }
  assert (NoDup src) as Hnd.
  { rewrite Hp. apply NoDup_fmap_2_strong; [|apply NoDup_seq]. intros i j Hi Hj. apply enc_inj;
      [apply list_elem_of_In, in_seq in Hi; lia|apply list_elem_of_In, in_seq in Hj; lia]. }
  destruct (lookup_lt_is_Some_2 src 0) as [mn Hmn]; [lia|]. destruct (lookup_lt_is_Some_2 src (e - 1)) as [mx Hmx]; [lia|].
  pose proof (root_enough (Z.of_nat e) ltac:(lia)) as Hf. rewrite Nat2Z.id in Hf.
  destruct (inorder_root e (Z.of_nat e) ltac:(lia) Hf) as [Hnodes HnL]. rewrite Nat2Z.id in HnL.
  destruct (eytzinger_spec (src ++ [1]) (Z.of_nat e) e dest 0 1 Hf ltac:(lia)) as (tree & Et & El & Hkeep & Hput).
  { lia. }
  { rewrite HnL, length_app. lia. }
  exists mn, mx, tree. split; [done|]. split; [done|].
  assert (mx ∈ src) as Hmxin by (by apply list_elem_of_lookup_2 in Hmx). apply Hin in Hmxin as (im & Him & Emx).
  pose proof (enc_range im Him). split; [apply uw_small; unfold in_range; lia|].
  split; [rewrite Et, HnL; done|]. split; [done|].
  split; [rewrite <- (Nat2Z.id e) at 1 2; apply Hkeep; [lia|]; rewrite Hnodes; lia|].
  assert (map (node_val tree) (inorder e 1 (Z.of_nat e)) = src) as Hmap.
  { apply list_eq. intros p. change (map (node_val tree)) with (fmap (M := list) (node_val tree)). rewrite list_lookup_fmap.
    destruct (inorder e 1 (Z.of_nat e) !! p) as [v|] eqn:Ep; cbn [fmap option_fmap option_map].
    - pose proof (lookup_lt_Some _ _ _ Ep). specialize (Hput p v Ep). change (Z.to_nat 0 + p)%nat with p in Hput. rewrite lookup_app_l in Hput by lia.
      destruct (lookup_lt_is_Some_2 src p) as [x Hx]; [lia|]. rewrite Hx in Hput |- *. f_equal. unfold node_val. by apply lookup_get.
    - symmetry. apply lookup_ge_None_2. apply lookup_ge_None_1 in Ep. lia. }
  assert (forall v, 1 <= v <= Z.of_nat e -> node_val tree v ∈ src) as Hval.
  { intros v Hv. rewrite <- Hmap. apply list_elem_of_In, in_map, list_elem_of_In. by apply Hnodes. }
  split.
  - split; [lia|unfold e; rewrite Nat2Z.inj_mul, Z.mul_comm; by apply Z.mod_mul|]. rewrite Nat2Z.id. apply StronglySorted_map. by rewrite Hmap.
  - intros v Hv. apply Hin. by apply Hval.
  - intros i Hi. assert (enc rs i ∈ src) as Hx by (apply Hin; by exists i). rewrite <- Hmap in Hx.
    apply list_elem_of_In, in_map_iff in Hx as (v & Ev & Hv). exists v. split; [apply Hnodes; by apply list_elem_of_In|done].
  - intros v v' Hv Hv'. apply (NoDup_map_inj _ (inorder e 1 (Z.of_nat e))); [by rewrite Hmap|by apply Hnodes..].
  - apply Hin. by apply list_elem_of_lookup_2 in Hmn.
  - intros i Hi. assert (enc rs i ∈ src) as Hx by (apply Hin; by exists i).
    destruct src as [|y src']; [done|]. injection Hmn as ->. apply StronglySorted_cons in Hs as [Hall _].
    apply elem_of_cons in Hx as [->|Hx]; [lia|]. rewrite Forall_forall in Hall. by apply Hall.
  - intros i Hi. assert (enc rs i ∈ src) as Hx by (apply Hin; by exists i).
    assert (exists s', src = s' ++ [mx]) as [s' Es].
    { exists (take (e - 1) src). rewrite <- (take_drop (e - 1) src) at 1. f_equal. rewrite (drop_S src mx) by done.
      by rewrite drop_ge by lia. }
    rewrite Es in Hx, Hs. apply elem_of_app in Hx as [Hx|Hx].
    + apply StronglySorted_app in Hs as (Hle & _ & _). specialize (Hle _ mx Hx ltac:(by left)). lia.
    + apply list_elem_of_singleton in Hx. lia.
Qed.

(** A query: outside, or the node of the largest boundary below it. *)
Lemma layout_query tree mn mx q : layout tree mn mx ->
  (eyt_obj_idx q tree (Z.of_nat e) mn mx = Some (Z.of_nat e) /\
     ((forall i, (i < e)%nat -> q <= enc rs i) \/ (forall i, (i < e)%nat -> enc rs i < q - 1))) \/
   (exists idx i, eyt_obj_idx q tree (Z.of_nat e) mn mx = Some idx /\ 0 <= idx < Z.of_nat e /\ (i < e)%nat /\
     node_val tree (idx + 1) = enc rs i /\ enc rs i < q /\ forall j, (j < e)%nat -> enc rs j < q -> enc rs j <= enc rs i).
Proof using Hrs.
  intros Hla. assert (mn < q <= mx \/ (q <= mn \/ mx < q)) as [Hq|Hq] by lia.
  - destruct (la_low _ _ _ Hla) as (i0 & Hi0 & Hq0). assert (enc rs i0 < q) as Hq0' by lia.
    right. destruct (la_node _ _ _ Hla i0 Hi0) as (v0 & Hv0 & Ev0).
      destruct (eyt_obj_idx_spec tree (Z.of_nat e) q mn mx (la_search _ _ _ Hla) Hq) as (idx & E & Hidx & Hlt & Hmax).
      { exists v0. split; [done|]. by rewrite Ev0. }
      destruct (la_val _ _ _ Hla (idx + 1) ltac:(lia)) as (i & Hi & Ei). exists idx, i. rewrite Ei in *.
      do 5 (split; [done|]). intros j Hj Hjq. destruct (la_node _ _ _ Hla j Hj) as (v & Hv & Ev).
      rewrite <- Ev in *. by apply Hmax.
  - left. split.
    + unfold eyt_obj_idx. pose proof (la_search _ _ _ Hla) as [Hn He _]. destruct (Z.eqb_spec (Z.of_nat e) 0); [lia|].
      rewrite He. cbn [Z.eqb negb]. destruct (Z.leb_spec q mn), (Z.ltb_spec mx q); [done|done|done|lia].
    + destruct Hq; [left|right]; intros i Hi; [pose proof (la_min _ _ _ Hla i Hi)|pose proof (la_max _ _ _ Hla i Hi)]; lia.
Qed.

Lemma own_query tree mn mx i : layout tree mn mx -> (i < e)%nat ->
  exists idx, eyt_obj_idx (u64 (enc rs i + 1)) tree (Z.of_nat e) mn mx = Some idx /\ 0 <= idx < Z.of_nat e /\
    node_val tree (idx + 1) = enc rs i.
Proof using Hrs.
  intros Hla Hi. pose proof (enc_range i Hi). rewrite uw_small by (unfold in_range; lia).
  destruct (layout_query tree mn mx (enc rs i + 1) Hla) as [[_ [Hout|Hout]]|(idx & i' & E & Hidx & Hi' & Ev & Hlt & Hmax)].
  - specialize (Hout i Hi). lia.
  - specialize (Hout i Hi). lia.
  - exists idx. split; [done|]. split; [done|]. specialize (Hmax i Hi ltac:(lia)). lia.
Qed.

Lemma fill_data_spec tree mn mx : layout tree mn mx -> forall inds idxs, Forall (fun i => (i < e)%nat) inds -> NoDup inds ->
  Z.of_nat e <= Z.of_nat (length idxs) ->
  exists idxs', fill_data rs tree (Z.of_nat e) mn mx inds idxs = Some idxs' /\ length idxs' = length idxs /\
    (forall j, 0 <= j -> (j < Z.of_nat e -> forall i, i ∈ inds -> node_val tree (j + 1) <> enc rs i) -> idxs' !! Z.to_nat j = idxs !! Z.to_nat j) /\
    (forall j i, 0 <= j < Z.of_nat e -> i ∈ inds -> node_val tree (j + 1) = enc rs i -> idxs' !! Z.to_nat j = Some (dat rs i)).
Proof using Hrs.
  intros Hla. induction inds as [|i inds IH]; intros idxs Hall Hnd Hl.
  { exists idxs. split_and!; [done|done|done|]. intros j i _ Hi. by apply elem_of_nil in Hi. }
  apply Forall_cons in Hall as [Hi Hall]. apply NoDup_cons in Hnd as [Hni Hnd].
  destruct (own_query tree mn mx i Hla Hi) as (idx & E & Hidx & Ev).
  destruct (index_cases i Hi) as (m & r & Hr & _ & Hc). assert ((i / 2)%nat = m) as Em by tauto.
  assert (exists v, boundary rs i = Some v /\ enc rs i = encode i v) as (v & Hv & Env).
  { unfold enc, boundary. rewrite Em, Hr. cbn [mbind option_bind]. eauto. }
  assert ((if Nat.odd i then EYT_NOTFOUND else data r) = dat rs i) as Ed by (unfold dat; by rewrite Em, Hr).
  cbn [fill_data]. rewrite Em, Hr, Hv. cbn [mbind option_bind]. rewrite <- Env, E. cbn [mbind option_bind].
  destruct (Z.leb_spec (Z.of_nat e) idx); [lia|].
  pose proof (sr_len _ _ (la_search _ _ _ Hla)) as Hlen.
  assert (tree !! Z.to_nat idx = Some (enc rs i)) as ->.
  { rewrite (get_lookup tree) by lia. rewrite <- Ev. unfold node_val. by rewrite Z.add_simpl_r. }
  cbn [mbind option_bind]. rewrite Z.eqb_refl. cbn [negb].
  destruct (lookup_lt_is_Some_2 idxs (Z.to_nat idx)) as [x Hx]; [lia|]. rewrite Hx. cbn [mbind option_bind]. rewrite Ed.
  destruct (IH (<[Z.to_nat idx := dat rs i]> idxs) Hall Hnd) as (idxs' & -> & El & Hk & Hp); [by rewrite length_insert|].
  exists idxs'. split; [done|]. split; [by rewrite El, length_insert|]. split.
  - intros j Hj Hno. rewrite Hk; [|done|intros Hje i' Hi'; apply Hno; [done|by right]].
    apply list_lookup_insert_ne. intros Eij. apply (Hno ltac:(lia) i); [by left|]. by assert (j = idx) as -> by lia.
  - intros j i' Hj [->|Hi']%elem_of_cons Evj; [|by apply Hp]. assert (j = idx) as -> by
      (assert (j + 1 = idx + 1) by (apply (la_inj _ _ _ Hla); [lia|lia|congruence]); lia).
    rewrite Hk; [apply list_lookup_insert_eq; lia|lia|]. intros _ i2 Hi2 E2. rewrite Ev in E2.
    apply enc_inj in E2 as ->; [done|done|]. rewrite Forall_forall in Hall. by apply Hall.
Qed.

(** ** The rebuilt tree and its queries *)

Record built (t : eyt_tree_t) : Prop := {
  bt_n : n t = Z.of_nat e;
  bt_ranges : ranges t = rs /\ nranges t = Z.of_nat (length rs);
  bt_len : Z.of_nat (length (tree t)) = Z.of_nat e + 1 /\ Z.of_nat (length (idxs t)) = Z.of_nat e + 1;
  bt_sentinel : tree t !! e = Some 1 /\ idxs t !! e = Some EYT_NOTFOUND;
  bt_layout : rs = [] \/ layout (tree t) (min_addr t) (max_addr t);
  bt_data j i : 0 <= j < Z.of_nat e -> (i < e)%nat -> node_val (tree t) (j + 1) = enc rs i -> idxs t !! Z.to_nat j = Some (dat rs i);
}.

Lemma rebuild_spec t : rs <> [] -> ranges t = rs -> nranges t = Z.of_nat (length rs) ->
  Z.of_nat (length (tree t)) <= Z.of_nat e + 1 -> Z.of_nat (length (idxs t)) <= Z.of_nat e + 1 ->
  exists t', rebuild_tree t = Some t' /\ built t'.
Proof using Hrs.
  intros Hne Er En Ht Hi. unfold rebuild_tree. rewrite Er, En.
  assert (2 * Z.of_nat (length rs) = Z.of_nat e) as -> by (unfold e; lia). rewrite Nat2Z.id.
  assert (0 < e)%nat as He0 by (unfold e; destruct rs; [done|simpl; lia]).
  set (tree0 := arraylist_grow (tree t) _). set (idxs0 := arraylist_grow (idxs t) _).
  assert (length tree0 = e + 1 /\ length idxs0 = e + 1)%nat as [Ht0 Hi0].
  { unfold tree0, idxs0, arraylist_grow. rewrite !length_app, !length_replicate. lia. }
  rewrite (fill_boundaries_spec e 0) by (rewrite ?length_insert; lia). cbn [mbind option_bind take app Nat.add].
  assert (drop e (<[e := EYT_NOTFOUND]> idxs0) = [1]) as ->.
  { rewrite (drop_S _ EYT_NOTFOUND) by (apply list_lookup_insert_eq; lia). by rewrite drop_ge by (rewrite length_insert; lia). }
  rewrite !take_0. cbn [app]. rewrite take_app_length', drop_app_length' by (by rewrite length_map, length_seq).
  set (dest := <[e := 1]> tree0). assert (length dest = e + 1)%nat as Hd by (unfold dest; by rewrite length_insert).
  destruct (build_layout dest Hne ltac:(lia)) as (mn & mx & tree1 & Hmn & Hmx & Emx & Et & El & Ese & Hla).
  set (src := qsort _) in *. assert (length src = e) as Hsl by (unfold src; by rewrite qsort_perm, length_map, length_seq).
  rewrite (lookup_app_l src _ 0), Hmn by lia. cbn [mbind option_bind].
  replace (Z.to_nat (Z.of_nat e - 1)) with (e - 1)%nat by lia. rewrite (lookup_app_l src _ (e - 1)), Hmx by lia. cbn [mbind option_bind].
  rewrite Emx, Et. cbn [mbind option_bind snd].
  destruct (fill_data_spec tree1 mn (mx + 1) Hla (seq 0 e) (src ++ [1])) as (idxs2 & -> & El2 & Hk & Hp).
  { apply Forall_forall. intros i Hin%list_elem_of_In%in_seq. lia. }
  { apply NoDup_seq. }
  { rewrite length_app. simpl. lia. }
  cbn [mbind option_bind]. eexists. split; [done|]. split; cbn [n ranges nranges tree idxs min_addr max_addr].
  - done.
  - done.
  - rewrite El, El2, length_app. simpl. lia.
  - split; [rewrite Ese; unfold dest; apply list_lookup_insert_eq; lia|].
    replace e with (Z.to_nat (Z.of_nat e)) at 1 by lia. rewrite Hk by lia. rewrite Nat2Z.id. by apply list_lookup_middle.
  - by right.
  - intros j i Hj Hie. apply Hp; [done|]. apply list_elem_of_In, in_seq. lia.
Qed.

Lemma find_contains addr : match List.find (contains addr) rs with
  | Some r => exists m, rs !! m = Some r /\ range_ok r /\ start r < addr <= end_ r
  | None => forall m r, rs !! m = Some r -> ~ start r < addr <= end_ r end.
Proof using Hrs.
  destruct (List.find (contains addr) rs) as [r|] eqn:E.
  - apply List.find_some in E as [Hin Hc]. apply list_elem_of_In, list_elem_of_lookup in Hin as [m Hm]. exists m. split; [done|].
    split; [exact (Forall_lookup_1 _ _ _ _ (ro_each _ Hrs) Hm)|]. unfold contains in Hc. apply andb_true_iff in Hc as [? ?]. lia.
  - intros m r Hm Hc. apply list_elem_of_lookup_2, list_elem_of_In in Hm.
    pose proof (List.find_none _ _ E _ Hm) as Hf. unfold contains in Hf. apply andb_false_iff in Hf as [?|?]; lia.
Qed.

Lemma query_spec t addr : built t -> addr mod 4 = 0 -> 0 <= addr < 2 ^ 64 ->
  eyt_tree_is_in_range t addr = Some (match List.find (contains addr) rs with Some _ => true | None => false end) /\
  eyt_tree_find_data t addr = Some (match List.find (contains addr) rs with Some r => data r | None => EYT_NOTFOUND end).
Proof using Hrs.
  intros [Hn _ [Hlt Hli] [Hs1 Hs2] Hla Hdat] Ha Haddr. unfold eyt_tree_is_in_range, eyt_tree_find_data, eyt_addr_query. rewrite Hn.
  assert (addr <= 2 ^ 64 - 4) by (Z.to_euclidean_division_equations; lia). rewrite uw_small by (unfold in_range; lia).
  pose proof (find_contains addr) as Hfc.
  destruct Hla as [He|Hla].
  { assert (e = 0%nat) as He0 by (unfold e; by rewrite He). rewrite He0 in *. unfold eyt_obj_idx.
    change (Z.of_nat 0 =? 0) with true. cbn [mbind option_bind]. change (Z.to_nat (Z.of_nat 0)) with 0%nat.
    rewrite Hs1, Hs2. cbn [mbind option_bind]. by rewrite He. }
  destruct (layout_query (tree t) _ _ (addr + 1) Hla) as [[-> Hout]|(idx & i & -> & Hidx & Hi & Ev & Hlti & Hmax)];
    cbn [mbind option_bind].
  - rewrite Nat2Z.id, Hs1, Hs2. cbn [mbind option_bind]. destruct (List.find (contains addr) rs) as [r|]; [exfalso|done].
    destruct Hfc as (m & Hm & Hok & Hc). pose proof (lookup_lt_Some _ _ _ Hm).
    pose proof (enc_start m r Hm Hok) as Es. pose proof (enc_end m r Hm Hok) as Ee. destruct Hok as (O1 & O2 & O3 & O4).
    destruct Hout as [Hout|Hout]; [specialize (Hout (2 * m)%nat ltac:(unfold e; lia))|specialize (Hout (2 * m + 1)%nat ltac:(unfold e; lia))];
      Z.to_euclidean_division_equations; lia.
  - rewrite (Hdat idx i Hidx Hi Ev). rewrite (get_lookup (tree t)) by lia. cbn [mbind option_bind].
    assert (get (tree t) (Z.to_nat idx) = enc rs i) as -> by (rewrite <- Ev; unfold node_val; by rewrite Z.add_simpl_r).
    destruct (enc_cases i Hi) as (m & r & Hm & Hok & Hc). pose proof (lookup_lt_Some _ _ _ Hm).
    pose proof (enc_end m r Hm Hok) as Ee. pose proof Hok as (O1 & O2 & O3 & O4).
    assert (Z.land (enc rs i) 1 = enc rs i mod 2) as -> by (change 1 with (2 ^ 1 - 1); by rewrite land_mod).
    destruct Hc as [(-> & Es & ->)|(-> & Ee' & ->)].
    + assert (start r < addr <= end_ r) as Hin.
      { split; [Z.to_euclidean_division_equations; lia|]. destruct (Z.le_gt_cases addr (end_ r)); [done|].
        specialize (Hmax (2 * m + 1)%nat ltac:(unfold e; lia) ltac:(lia)). Z.to_euclidean_division_equations; lia. }
      rewrite Es. destruct (Z.eqb_spec ((start r + 2) mod 2) 0); [|Z.to_euclidean_division_equations; lia].
      destruct (List.find (contains addr) rs) as [r'|]; [|exfalso; by apply (Hfc m r)].
      destruct Hfc as (m' & Hm' & (P1 & P2 & P3 & P4) & Hc'). destruct (decide (m = m')) as [<-|Hne].
      * rewrite Hm in Hm'. by injection Hm' as <-.
      * exfalso. destruct (ro_disjoint _ Hrs m m' r r' Hne Hm Hm'); lia.
    + rewrite Ee. destruct (Z.eqb_spec ((end_ r + 1) mod 2) 0); [Z.to_euclidean_division_equations; lia|].
      destruct (List.find (contains addr) rs) as [r'|]; [exfalso|done].
      destruct Hfc as (m' & Hm' & Hok' & Hc'). pose proof (lookup_lt_Some _ _ _ Hm').
      pose proof (enc_start m' r' Hm' Hok') as Es'. destruct Hok' as (P1 & P2 & P3 & P4).
      specialize (Hmax (2 * m')%nat ltac:(unfold e; lia) ltac:(Z.to_euclidean_division_equations; lia)).
      destruct (decide (m = m')) as [<-|Hne]; [rewrite Hm in Hm'; injection Hm' as <-; Z.to_euclidean_division_equations; lia|].
      destruct (ro_disjoint _ Hrs m m' r r' Hne Hm Hm'); Z.to_euclidean_division_equations; lia.
Qed.
End Ranges.

Lemma ranges_ok_app rs r : ranges_ok (rs ++ [r]) -> ranges_ok rs /\ range_ok r.
Proof.
  intros [He Hd]. apply Forall_app in He as [He [Hr _]%Forall_cons]. split; [|done]. split; [done|].
  intros i j ri rj Hij Hi Hj. apply (Hd i j ri rj Hij); by apply lookup_app_l_Some.
Qed.

(** The tree after [eyt_tree_init] and an [eyt_tree_add_range] for each range. *)
Definition add_ranges (rs : list eyt_range_t) : option eyt_tree_t :=
  foldl (fun t r => t ← t; eyt_tree_add_range t (start r) (end_ r) (data r)) (Some eyt_tree_init) rs.

Lemma add_ranges_built rs : ranges_ok rs -> exists t, add_ranges rs = Some t /\ built rs t.
Proof.
  induction rs as [|r rs IH] using rev_ind; intros Hok.
  { exists eyt_tree_init. split; [done|]. split; simpl; try done; [by left|]. intros j i Hj. lia. }
  destruct (ranges_ok_app rs r Hok) as [Hok' (H1 & H2 & H3 & H4)]. destruct (IH Hok') as (t & Et & Hb).
  unfold add_ranges in *. rewrite foldl_app, Et. cbn [foldl mbind option_bind]. unfold eyt_tree_add_range.
  rewrite H1, H2. cbn [Z.eqb andb]. destruct (Z.ltb_spec (start r) (end_ r)); [|lia].
  destruct Hb as [_ [Er En] [Hl1 Hl2] _ _ _].
  apply rebuild_spec; [done|by destruct rs|cbn [ranges]; rewrite Er; by destruct r|..]; cbn [nranges tree idxs];
    rewrite ?En, ?length_app; cbn [length]; lia.
Qed.

