(* ===== verification/Ios.v ===== *)
(** * Buffered streams: src/src/support/ios.c

    A stream over a file descriptor, or over memory ([bm_mem]). Bytes are [Z] in
    [0, 256). The system calls are an interface, [OS], over a state [W] of the
    world; memory allocation succeeds when [alloc_ok] says so and returns bytes
    that [junk] gives. Each function returns its result, the world and the
    stream; [None] is an access outside a buffer, or a loop that needs more
    rounds than its fuel. *)
From S2P Require Import Prelude Utf8.

Inductive bufmode_t := bm_none | bm_line | bm_block | bm_mem.
Inductive bufstate_t := bst_none | bst_rd | bst_wr.
#[export] Instance bufmode_eq_dec : EqDecision bufmode_t.
Proof. solve_decision. Defined.
#[export] Instance bufstate_eq_dec : EqDecision bufstate_t.
Proof. solve_decision. Defined.

Definition IOS_INLSIZE : Z := 83.
Definition IOS_BUFSIZE : Z := 32768.
Definition IOS_EOF : Z := -1.
Definition LINE_CHUNK_SIZE : Z := 160.
Definition MOST_OF (x : Z) : Z := x - Z.shiftr x 4.

(** [s->buf]: NULL, [&s->local[0]], or memory elsewhere. *)
Inductive buffer := NULL | Local | Heap (l : list Z).

(** [userdata] is not used in the file. *)
Record ios_t := {
  buf : buffer;
  bm : bufmode_t;
  state : bufstate_t;
  maxsize : Z;
  size : Z;
  bpos : Z;
  ndirty : Z;
  fpos : Z;
  lineno : Z;
  u_colno : Z;
  errcode : Z;
  fd : Z;
  readable : bool;
  writable : bool;
  ownbuf : bool;
  ownfd : bool;
  _eof : bool;
  rereadable : bool;
  growable : bool;
  local : list Z;
}.

(** [s->field = x] *)
Definition set_buf (x : buffer) (s : ios_t) : ios_t :=
  {| buf := x; bm := bm s; state := state s; maxsize := maxsize s; size := size s; bpos := bpos s;
     ndirty := ndirty s; fpos := fpos s; lineno := lineno s; u_colno := u_colno s; errcode := errcode s;
     fd := fd s; readable := readable s; writable := writable s; ownbuf := ownbuf s; ownfd := ownfd s;
     _eof := _eof s; rereadable := rereadable s; growable := growable s; local := local s |}.
Definition set_bm (x : bufmode_t) (s : ios_t) : ios_t :=
  {| buf := buf s; bm := x; state := state s; maxsize := maxsize s; size := size s; bpos := bpos s;
     ndirty := ndirty s; fpos := fpos s; lineno := lineno s; u_colno := u_colno s; errcode := errcode s;
     fd := fd s; readable := readable s; writable := writable s; ownbuf := ownbuf s; ownfd := ownfd s;
     _eof := _eof s; rereadable := rereadable s; growable := growable s; local := local s |}.
Definition set_state (x : bufstate_t) (s : ios_t) : ios_t :=
  {| buf := buf s; bm := bm s; state := x; maxsize := maxsize s; size := size s; bpos := bpos s;
     ndirty := ndirty s; fpos := fpos s; lineno := lineno s; u_colno := u_colno s; errcode := errcode s;
     fd := fd s; readable := readable s; writable := writable s; ownbuf := ownbuf s; ownfd := ownfd s;
     _eof := _eof s; rereadable := rereadable s; growable := growable s; local := local s |}.
Definition set_maxsize (x : Z) (s : ios_t) : ios_t :=
  {| buf := buf s; bm := bm s; state := state s; maxsize := x; size := size s; bpos := bpos s; ndirty := ndirty s;
     fpos := fpos s; lineno := lineno s; u_colno := u_colno s; errcode := errcode s; fd := fd s;
     readable := readable s; writable := writable s; ownbuf := ownbuf s; ownfd := ownfd s; _eof := _eof s;
     rereadable := rereadable s; growable := growable s; local := local s |}.
Definition set_size (x : Z) (s : ios_t) : ios_t :=
  {| buf := buf s; bm := bm s; state := state s; maxsize := maxsize s; size := x; bpos := bpos s;
     ndirty := ndirty s; fpos := fpos s; lineno := lineno s; u_colno := u_colno s; errcode := errcode s;
     fd := fd s; readable := readable s; writable := writable s; ownbuf := ownbuf s; ownfd := ownfd s;
     _eof := _eof s; rereadable := rereadable s; growable := growable s; local := local s |}.
Definition set_bpos (x : Z) (s : ios_t) : ios_t :=
  {| buf := buf s; bm := bm s; state := state s; maxsize := maxsize s; size := size s; bpos := x;
     ndirty := ndirty s; fpos := fpos s; lineno := lineno s; u_colno := u_colno s; errcode := errcode s;
     fd := fd s; readable := readable s; writable := writable s; ownbuf := ownbuf s; ownfd := ownfd s;
     _eof := _eof s; rereadable := rereadable s; growable := growable s; local := local s |}.
Definition set_ndirty (x : Z) (s : ios_t) : ios_t :=
  {| buf := buf s; bm := bm s; state := state s; maxsize := maxsize s; size := size s; bpos := bpos s;
     ndirty := x; fpos := fpos s; lineno := lineno s; u_colno := u_colno s; errcode := errcode s; fd := fd s;
     readable := readable s; writable := writable s; ownbuf := ownbuf s; ownfd := ownfd s; _eof := _eof s;
     rereadable := rereadable s; growable := growable s; local := local s |}.
Definition set_fpos (x : Z) (s : ios_t) : ios_t :=
  {| buf := buf s; bm := bm s; state := state s; maxsize := maxsize s; size := size s; bpos := bpos s;
     ndirty := ndirty s; fpos := x; lineno := lineno s; u_colno := u_colno s; errcode := errcode s; fd := fd s;
     readable := readable s; writable := writable s; ownbuf := ownbuf s; ownfd := ownfd s; _eof := _eof s;
     rereadable := rereadable s; growable := growable s; local := local s |}.
Definition set_lineno (x : Z) (s : ios_t) : ios_t :=
  {| buf := buf s; bm := bm s; state := state s; maxsize := maxsize s; size := size s; bpos := bpos s;
     ndirty := ndirty s; fpos := fpos s; lineno := x; u_colno := u_colno s; errcode := errcode s; fd := fd s;
     readable := readable s; writable := writable s; ownbuf := ownbuf s; ownfd := ownfd s; _eof := _eof s;
     rereadable := rereadable s; growable := growable s; local := local s |}.
Definition set_u_colno (x : Z) (s : ios_t) : ios_t :=
  {| buf := buf s; bm := bm s; state := state s; maxsize := maxsize s; size := size s; bpos := bpos s;
     ndirty := ndirty s; fpos := fpos s; lineno := lineno s; u_colno := x; errcode := errcode s; fd := fd s;
     readable := readable s; writable := writable s; ownbuf := ownbuf s; ownfd := ownfd s; _eof := _eof s;
     rereadable := rereadable s; growable := growable s; local := local s |}.
Definition set_fd (x : Z) (s : ios_t) : ios_t :=
  {| buf := buf s; bm := bm s; state := state s; maxsize := maxsize s; size := size s; bpos := bpos s;
     ndirty := ndirty s; fpos := fpos s; lineno := lineno s; u_colno := u_colno s; errcode := errcode s; fd := x;
     readable := readable s; writable := writable s; ownbuf := ownbuf s; ownfd := ownfd s; _eof := _eof s;
     rereadable := rereadable s; growable := growable s; local := local s |}.
Definition set_writable (x : bool) (s : ios_t) : ios_t :=
  {| buf := buf s; bm := bm s; state := state s; maxsize := maxsize s; size := size s; bpos := bpos s;
     ndirty := ndirty s; fpos := fpos s; lineno := lineno s; u_colno := u_colno s; errcode := errcode s;
     fd := fd s; readable := readable s; writable := x; ownbuf := ownbuf s; ownfd := ownfd s; _eof := _eof s;
     rereadable := rereadable s; growable := growable s; local := local s |}.
Definition set_ownbuf (x : bool) (s : ios_t) : ios_t :=
  {| buf := buf s; bm := bm s; state := state s; maxsize := maxsize s; size := size s; bpos := bpos s;
     ndirty := ndirty s; fpos := fpos s; lineno := lineno s; u_colno := u_colno s; errcode := errcode s;
     fd := fd s; readable := readable s; writable := writable s; ownbuf := x; ownfd := ownfd s; _eof := _eof s;
     rereadable := rereadable s; growable := growable s; local := local s |}.
Definition set_ownfd (x : bool) (s : ios_t) : ios_t :=
  {| buf := buf s; bm := bm s; state := state s; maxsize := maxsize s; size := size s; bpos := bpos s;
     ndirty := ndirty s; fpos := fpos s; lineno := lineno s; u_colno := u_colno s; errcode := errcode s;
     fd := fd s; readable := readable s; writable := writable s; ownbuf := ownbuf s; ownfd := x; _eof := _eof s;
     rereadable := rereadable s; growable := growable s; local := local s |}.
Definition set_eof (x : bool) (s : ios_t) : ios_t :=
  {| buf := buf s; bm := bm s; state := state s; maxsize := maxsize s; size := size s; bpos := bpos s;
     ndirty := ndirty s; fpos := fpos s; lineno := lineno s; u_colno := u_colno s; errcode := errcode s;
     fd := fd s; readable := readable s; writable := writable s; ownbuf := ownbuf s; ownfd := ownfd s; _eof := x;
     rereadable := rereadable s; growable := growable s; local := local s |}.
Definition set_rereadable (x : bool) (s : ios_t) : ios_t :=
  {| buf := buf s; bm := bm s; state := state s; maxsize := maxsize s; size := size s; bpos := bpos s;
     ndirty := ndirty s; fpos := fpos s; lineno := lineno s; u_colno := u_colno s; errcode := errcode s;
     fd := fd s; readable := readable s; writable := writable s; ownbuf := ownbuf s; ownfd := ownfd s;
     _eof := _eof s; rereadable := x; growable := growable s; local := local s |}.
Definition set_local (x : list Z) (s : ios_t) : ios_t :=
  {| buf := buf s; bm := bm s; state := state s; maxsize := maxsize s; size := size s; bpos := bpos s;
     ndirty := ndirty s; fpos := fpos s; lineno := lineno s; u_colno := u_colno s; errcode := errcode s;
     fd := fd s; readable := readable s; writable := writable s; ownbuf := ownbuf s; ownfd := ownfd s;
     _eof := _eof s; rereadable := rereadable s; growable := growable s; local := x |}.

(** ** Memory *)

Definition bytes (s : ios_t) : list Z := match buf s with NULL => [] | Local => local s | Heap l => l end.
Definition set_bytes (l : list Z) (s : ios_t) : ios_t :=
  match buf s with NULL => s | Local => set_local l s | Heap _ => set_buf (Heap l) s end.
Definition is_null (s : ios_t) : bool := match buf s with NULL => true | _ => false end.
Definition is_local (s : ios_t) : bool := match buf s with Local => true | _ => false end.

(** [memcpy] from and to [l] at [pos]. *)
Definition slice (l : list Z) (pos n : Z) : option (list Z) :=
  if (0 <=? pos) && (0 <=? n) && (pos + n <=? Z.of_nat (length l)) then Some (take (Z.to_nat n) (drop (Z.to_nat pos) l)) else None.
Definition blit (l : list Z) (pos : Z) (data : list Z) : option (list Z) :=
  if (0 <=? pos) && (pos + Z.of_nat (length data) <=? Z.of_nat (length l))
  then Some (take (Z.to_nat pos) l ++ data ++ drop (Z.to_nat pos + length data) l) else None.

Definition read_buf (s : ios_t) (pos n : Z) : option (list Z) := slice (bytes s) pos n.
Definition write_buf (s : ios_t) (pos : Z) (data : list Z) : option ios_t := l ← blit (bytes s) pos data; Some (set_bytes l s).
Definition memmove (s : ios_t) (dst src n : Z) : option ios_t := d ← read_buf s src n; write_buf s dst d.

(** The index of a byte in a list: [memchr] and [memrchr]. *)
Fixpoint memchr (c : Z) (l : list Z) : option nat :=
  match l with [] => None | x :: l => if x =? c then Some O else S <$> memchr c l end.
Fixpoint memrchr (c : Z) (l : list Z) : option nat :=
  match l with
  | [] => None
  | x :: l => match memrchr c l with Some i => Some (S i) | None => if x =? c then Some O else None end
  end.

(** ** The operating system *)

Inductive errno := EAGAIN | EINTR | ENOMEM | EOTHER (e : Z).
Inductive whence := SEEK_SET | SEEK_CUR | SEEK_END.

(** A call returns a result or its errno; -1 is [lseek]'s failure. *)
Class OS (W : Type) := {
  sys_read : W -> Z -> Z -> (list Z + errno) * W;
  sys_write : W -> Z -> list Z -> (Z + errno) * W;
  sys_lseek : W -> Z -> Z -> whence -> Z * W;
  sys_ftruncate : W -> Z -> Z -> Z * W;
  sys_close : W -> Z -> Z * W;
}.

Definition zlen (l : list Z) : Z := Z.of_nat (length l).
#[global] Arguments zlen : simpl never.

Section Ios.
Context {W : Type} `{OS W}.
Context (junk : Z -> list Z) (alloc_ok : Z -> bool).
(** The rounds that [_os_read] and [_os_write] may retry. *)
Context (patience : nat).

Definition _enonfatal (err : errno) : bool := match err with EAGAIN | EINTR => true | _ => false end.

(** The error code ([None] for 0) and the bytes read. *)
Fixpoint _os_read (fuel : nat) (w : W) (fd n : Z) : option (option errno * list Z * W) :=
  match fuel with
  | O => None
  | S fuel =>
      match sys_read w fd n with
      | (inl l, w) => Some (None, l, w)
      | (inr e, w) =>
          if match e with ENOMEM => 80 <? n | _ => false end then _os_read fuel w fd (Z.shiftr n 3)
          else if _enonfatal e then _os_read fuel w fd n
          else Some (Some e, [], w)
      end
  end.

Fixpoint _os_read_all (fuel : nat) (w : W) (fd n : Z) : option (option errno * list Z * W) :=
  match fuel with
  | O => None
  | S fuel =>
      if 0 <? n then
        '(err, l, w) ← _os_read patience w fd n;
        match err, l with
        | None, _ :: _ => '(err, l', w) ← _os_read_all fuel w fd (n - zlen l); Some (err, l ++ l', w)
        | _, _ => Some (err, l, w)
        end
      else Some (None, [], w)
  end.

(** The error code and the number of bytes written. *)
Fixpoint _os_write (fuel : nat) (w : W) (fd : Z) (data : list Z) : option (option errno * Z * W) :=
  match fuel with
  | O => None
  | S fuel =>
      match sys_write w fd data with
      | (inl r, w) => Some (None, r, w)
      | (inr e, w) => if _enonfatal e then _os_write fuel w fd data else Some (Some e, 0, w)
      end
  end.

Fixpoint _os_write_all (fuel : nat) (w : W) (fd : Z) (data : list Z) : option (option errno * Z * W) :=
  match fuel with
  | O => None
  | S fuel =>
      match data with
      | [] => Some (None, 0, w)
      | _ =>
          '(err, wrote, w) ← _os_write patience w fd data;
          match err with
          | Some _ => Some (err, wrote, w)
          | None => '(err, n, w) ← _os_write_all fuel w fd (drop (Z.to_nat wrote) data); Some (err, wrote + n, w)
          end
      end
  end.
Definition os_read_all (w : W) (fd n : Z) := _os_read_all (S (Z.to_nat n)) w fd n.
Definition os_write_all (w : W) (fd : Z) (data : list Z) := _os_write_all (S (length data)) w fd data.

(** ** The buffer *)

(** False when the C function returns NULL. *)
Definition _buf_realloc (s : ios_t) (sz : Z) : option (bool * ios_t) :=
  if (is_null s || is_local s) && (sz <=? IOS_INLSIZE) then
    Some (true, set_ownbuf true (set_maxsize IOS_INLSIZE (set_buf Local s)))
  else if sz <=? maxsize s then Some (negb (is_null s), s)
  else if negb (growable s) then Some (false, s)
  else if ownbuf s && negb (is_local s) then
    if alloc_ok sz then
      let temp := bytes s ++ junk (sz - zlen (bytes s)) in
      Some (true, set_maxsize sz (set_buf (Heap temp) s))
    else Some (false, s)
  else if alloc_ok sz then
    d ← read_buf s 0 (size s);
    let temp := d ++ junk (sz - size s) in
    Some (true, set_maxsize sz (set_buf (Heap temp) (set_ownbuf true s)))
  else Some (false, s).

Fixpoint grow_newsize (fuel : nat) (need newsize : Z) : option Z :=
  match fuel with
  | O => None
  | S fuel => if newsize <? need then grow_newsize fuel need (u64 (newsize * 2)) else Some newsize
  end.

(** The number of bytes written. *)
Definition _write_grow (s : ios_t) (data : list Z) : option (Z * ios_t) :=
  let n := zlen data in
  if n =? 0 then Some (0, s) else
  let need := u64 (bpos s + n) in
  let finish s := s ← write_buf s (bpos s) data; Some (n, set_bpos (bpos s + n) s) in
  if size s <? need then
    if maxsize s <? need then
      newsize ← grow_newsize 65 need (if negb (maxsize s =? 0) then u64 (maxsize s * 2) else 8);
      '(ok, s) ← _buf_realloc s newsize;
      if ok : bool then finish (set_size need s)
      else
        let amt := u64 (maxsize s - bpos s) in
        s ← (if 0 <? amt then write_buf s (bpos s) (take (Z.to_nat amt) data) else Some s);
        Some (amt, set_size (maxsize s) (set_bpos (bpos s + amt) s))
    else finish (set_size need s)
  else finish s.

(** ** Flushing and positions *)

Definition ios_flush (w : W) (s : ios_t) : option (Z * W * ios_t) :=
  if (ndirty s =? 0) || bool_decide (bm s = bm_mem) || is_null s then Some (0, w, s)
  else if fd s =? -1 then Some (-1, w, s)
  else
    let w := if decide (state s = bst_rd) then snd (sys_lseek w (fd s) (- size s) SEEK_CUR) else w in
    let ntowrite := ndirty s in
    let s := set_fpos (-1) s in
    data ← read_buf s 0 ntowrite;
    '(err, nw, w) ← os_write_all w (fd s) data;
    '(w, s) ← (match state s with
      | bst_rd => Some (snd (sys_lseek w (fd s) (size s - nw) SEEK_CUR), s)
      | bst_wr =>
          let w := if bpos s =? nw then w else snd (sys_lseek w (fd s) (bpos s - nw) SEEK_CUR) in
          s ← (if ndirty s <? size s then memmove s 0 (ndirty s) (size s - ndirty s) else Some s);
          Some (w, set_bpos 0 (set_size (size s - ndirty s) s))
      | bst_none => Some (w, s)
      end);
    let s := set_ndirty 0 s in
    let code := match err with
      | Some EAGAIN => 11 | Some EINTR => 4 | Some ENOMEM => 12 | Some (EOTHER e) => e
      | None => if nw <? ntowrite then -1 else 0
      end in
    Some (code, w, s).

(** The cached position of the descriptor, asked for when it is not known; the
    new position or -1. *)
Definition fd_pos (w : W) (s : ios_t) : Z * W * ios_t :=
  if fpos s =? -1 then
    let '(p, w) := sys_lseek w (fd s) 0 SEEK_CUR in
    if p =? -1 then (-1, w, s) else (p, w, set_fpos p s)
  else (fpos s, w, s).

Definition ios_pos (w : W) (s : ios_t) : Z * W * ios_t :=
  if decide (bm s = bm_mem) then (bpos s, w, s)
  else
    let '(p, w, s) := fd_pos w s in
    if p =? -1 then (-1, w, s)
    else (match state s with bst_wr => p + bpos s | bst_rd => p - (size s - bpos s) | bst_none => p end, w, s).

Definition ios_seek (w : W) (s : ios_t) (pos : Z) : option (Z * W * ios_t) :=
  let s := set_eof false s in
  if decide (bm s = bm_mem) then
    if (pos <? 0) || (size s <? pos) then Some (-2, w, s) else Some (0, w, set_bpos pos s)
  else
    '(_, w, s) ← ios_flush w s;
    let '(fdpos, w) := sys_lseek w (fd s) pos SEEK_SET in
    if fdpos =? -1 then Some (fdpos, w, s)
    else Some (0, w, set_size 0 (set_bpos 0 (set_fpos fdpos s))).

Definition ios_seek_end (w : W) (s : ios_t) : option (Z * W * ios_t) :=
  let s := set_eof true s in
  if decide (bm s = bm_mem) then Some (0, w, set_bpos (size s) s)
  else
    '(_, w, s) ← ios_flush w s;
    let '(fdpos, w) := sys_lseek w (fd s) 0 SEEK_END in
    if fdpos =? -1 then Some (fdpos, w, s)
    else Some (0, w, set_size 0 (set_bpos 0 (set_fpos fdpos s))).

(** The part of [ios_skip] that moves the descriptor. *)
Definition skip_fd (w : W) (s : ios_t) (offs : Z) : option (Z * W * ios_t) :=
  '(_, w, s) ← ios_flush w s;
  let offs := match state s with bst_wr => offs + bpos s | bst_rd => offs - (size s - bpos s) | bst_none => offs end in
  let '(fdpos, w) := sys_lseek w (fd s) offs SEEK_CUR in
  if fdpos =? -1 then Some (fdpos, w, s)
  else Some (0, w, set_eof false (set_size 0 (set_bpos 0 (set_fpos fdpos s)))).

(** The negation of the least [int64_t] overflows: [None]. *)
Definition ios_skip (w : W) (s : ios_t) (offs : Z) : option (Z * W * ios_t) :=
  if offs =? 0 then Some (0, w, s)
  else if 0 <? offs then
    if offs <=? size s - bpos s then Some (0, w, set_bpos (bpos s + offs) s)
    else if decide (bm s = bm_mem) then Some (-2, w, s) else skip_fd w s offs
  else
    if offs =? - 2 ^ 63 then None
    else if - offs <=? bpos s then Some (0, w, set_eof false (set_bpos (bpos s + offs) s))
    else if decide (bm s = bm_mem) then Some (-2, w, s) else skip_fd w s offs.

Definition ios_filesize (w : W) (s : ios_t) : Z * W * ios_t :=
  let '(p, w, s) := fd_pos w s in
  if p =? -1 then (-1, w, s)
  else
    let '(sz, w) := sys_lseek w (fd s) 0 SEEK_END in
    let w := snd (sys_lseek w (fd s) p SEEK_SET) in
    (sz, w, s).

Definition ios_trunc (w : W) (s : ios_t) (newsize : Z) : option (Z * W * ios_t) :=
  if decide (bm s = bm_mem) then
    if newsize =? size s then Some (0, w, s)
    else if newsize <? size s then
      let s := if newsize <? bpos s then set_bpos newsize s else s in
      Some (0, w, set_size newsize s)
    else
      '(ok, s) ← _buf_realloc s newsize;
      if ok : bool then Some (0, w, set_size newsize s) else Some (0, w, s)
  else
    '(_, w, s) ← ios_flush w s;
    let '(w, s) := match state s with
      | bst_rd =>
          let '(p, w, s) := ios_pos w s in
          let filled := p + (size s - bpos s) in
          (w, if newsize <? u64 filled then set_size (size s - (filled - newsize)) s else s)
      | _ => (w, s)
      end in
    let '(r, w) := sys_ftruncate w (fd s) newsize in
    Some (if r =? 0 then 0 else 1, w, s).

(** ** Reading *)

Definition ios_eof (s : ios_t) : bool :=
  if decide (state s = bst_rd) then
    if bpos s <? size s then false
    else if _eof s then true else if decide (bm s = bm_mem) then false else fd s =? -1
  else if _eof s then true else if decide (bm s = bm_mem) then false else fd s =? -1.

Definition ios_reseteof (s : ios_t) : ios_t :=
  if negb (bool_decide (bm s = bm_mem)) && negb (fd s =? -1) then set_eof false s else s.

(** The count returned and the bytes stored at [dest]; each round but the
    first begins with a buffer that was refilled. *)
Fixpoint read_loop (fuel : nat) (w : W) (s : ios_t) (n tot : Z) (all didread : bool) : option (Z * list Z * W * ios_t) :=
  match fuel with
  | O => None
  | S fuel =>
      if negb (0 <? n) then Some (tot, [], w, s) else
      let avail := u64 (size s - bpos s) in
      let ncopy := if n <=? avail then n else avail in
      d ← (if 0 <? avail then read_buf s (bpos s) ncopy else Some []);
      let s := if 0 <? avail then set_bpos (bpos s + ncopy) s else s in
      if (0 <? avail) && (n <=? ncopy) then Some (tot + ncopy, d, w, s)
      else if bool_decide (bm s = bm_mem) || (fd s =? -1) then
        Some (avail, d, w, if avail =? 0 then set_eof true s else s)
      else
        let n := n - avail in
        let tot := tot + avail in
        if didread && negb all then Some (tot, d, w, s)
        else
          '(_, w, s) ← ios_flush w s;
          let s := set_fpos (-1) (set_size 0 (set_bpos 0 s)) in
          if MOST_OF (maxsize s) <? n then
            '(_, l, w) ← (if all then os_read_all w (fd s) n else _os_read patience w (fd s) n);
            Some (tot + zlen l, d ++ l, w, if zlen l =? 0 then set_eof true s else s)
          else
            '(err, l, w) ← _os_read patience w (fd s) (maxsize s);
            match err, l with
            | None, _ :: _ =>
                s ← write_buf s 0 l;
                let s := set_size (zlen l) s in
                '(tot, d', w, s) ← read_loop fuel w s n tot all true;
                Some (tot, d ++ d', w, s)
            | _, _ => Some (tot, d, w, set_eof true s)
            end
  end.

Definition _ios_read (w : W) (s : ios_t) (n : Z) (all : bool) : option (Z * list Z * W * ios_t) :=
  '(w, s) ← (if decide (state s = bst_wr) then
       let '(p, w, s) := ios_pos w s in '(_, w, s) ← ios_seek w s p; Some (w, s)
     else Some (w, s));
  read_loop (S (S (Z.to_nat n))) w (set_state bst_rd s) n 0 all false.

Definition ios_read w s n := _ios_read w s n false.
Definition ios_readall w s n := _ios_read w s n true.

(** The number of bytes in the buffer. *)
Definition ios_readprep (w : W) (s : ios_t) (n : Z) : option (Z * W * ios_t) :=
  '(w, s) ← (if bool_decide (state s = bst_wr) && negb (bool_decide (bm s = bm_mem)) then
       '(_, w, s) ← ios_flush w s; Some (w, set_size 0 (set_bpos 0 s))
     else Some (w, s));
  let space := u64 (size s - bpos s) in
  let s := set_state bst_rd s in
  if (n <=? space) || bool_decide (bm s = bm_mem) || (fd s =? -1) then Some (space, w, s)
  else
    '(ok, s) ← (if maxsize s <? bpos s + n then
        if (n <=? maxsize s) && (space <=? Z.shiftr (maxsize s) 2) then
          s ← (if 0 <? space then memmove s 0 (bpos s) space else Some s);
          Some (true, set_bpos 0 (set_size (size s - bpos s) s))
        else _buf_realloc s (bpos s + n)
      else Some (true, s));
    if negb ok then Some (space, w, s) else
    let s := set_fpos (-1) s in
    '(err, l, w) ← _os_read patience w (fd s) (maxsize s - size s);
    match err with
    | Some _ => Some (space, w, s)
    | None =>
        s ← write_buf s (size s) l;
        let s := set_size (size s + zlen l) s in
        Some (u64 (size s - bpos s), w, s)
    end.

Definition ios_fillbuf (w : W) (s : ios_t) : option (Z * W * ios_t) :=
  let nb := u64 (maxsize s - bpos s) in
  '(got, w, s) ← ios_readprep w s nb;
  Some (if got <? nb then got else -1, w, s).

Definition ios_eof_blocking (w : W) (s : ios_t) : option (bool * W * ios_t) :=
  if bool_decide (state s = bst_rd) && (bpos s <? size s) then Some (false, w, s)
  else if decide (bm s = bm_mem) then Some (_eof s, w, s)
  else if fd s =? -1 then Some (true, w, s)
  else '(n, w, s) ← ios_readprep w s 1; Some (n <? 1, w, s).

(** ** Writing *)

Definition _write_update_pos (s : ios_t) : ios_t :=
  let s := if ndirty s <? bpos s then set_ndirty (bpos s) s else s in
  if size s <? bpos s then set_size (bpos s) s else s.

Definition ios_write_direct (w : W) (dest src : ios_t) : option (Z * W * ios_t) :=
  data ← read_buf src 0 (size src);
  let dest := set_fpos (-1) dest in
  '(_, nwr, w) ← os_write_all w (fd dest) data;
  Some (nwr, w, dest).

(** The function calls itself with the part of the data up to the last newline
    in block mode, and again after a flush. *)
Fixpoint ios_write_rec (fuel : nat) (w : W) (s : ios_t) (data : list Z) : option (Z * W * ios_t) :=
  match fuel with
  | O => None
  | S fuel =>
      if negb (writable s) then Some (0, w, s) else
      let n := zlen data in
      if n =? 0 then Some (0, w, s) else
      '(w, s) ← (if decide (state s = bst_rd) then
           let '(p, w, s) := ios_pos w s in '(_, w, s) ← ios_seek w s p; Some (w, s)
         else Some (w, s));
      let s := set_state bst_wr s in
      let space := u64 (maxsize s - bpos s) in
      match bm s with
      | bm_mem => '(wrote, s) ← _write_grow s data; Some (wrote, w, _write_update_pos s)
      | bm_none =>
          let s := set_fpos (-1) s in
          '(_, wrote, w) ← os_write_all w (fd s) data;
          Some (wrote, w, s)
      | _ =>
          if n <=? space then
            '(wrote, data, w, s) ← (match bm s, memrchr 10 data with
              | bm_line, Some i =>
                  '(r, w, s) ← ios_write_rec fuel w (set_bm bm_block s) (take (S i) data);
                  '(_, w, s) ← ios_flush w s;
                  Some (r, drop (S i) data, w, set_bm bm_line s)
              | _, _ => Some (0, data, w, s)
              end);
            s ← write_buf s (bpos s) data;
            let s := set_bpos (bpos s + zlen data) s in
            Some (wrote + zlen data, w, _write_update_pos s)
          else
            '(_, w, s) ← ios_flush w s;
            if MOST_OF (maxsize s) <? n then
              let s := set_fpos (-1) s in
              '(_, wrote, w) ← os_write_all w (fd s) data;
              Some (wrote, w, s)
            else ios_write_rec fuel w s data
      end
  end.
(** Two nested calls at most: after a flush the data fits, and in block mode. *)
Definition ios_write (w : W) (s : ios_t) (data : list Z) : option (Z * W * ios_t) := ios_write_rec 4 w s data.

(** ** Opening, closing and the buffer's owner *)

Definition _ios_init : ios_t :=
  {| buf := NULL; bm := bm_block; state := bst_none; maxsize := 0; size := 0; bpos := 0; ndirty := 0; fpos := -1;
     lineno := 1; u_colno := 0; errcode := 0; fd := -1; readable := true; writable := true; ownbuf := true;
     ownfd := false; _eof := false; rereadable := false; growable := true; local := junk IOS_INLSIZE |}.

Definition _buf_init (s : ios_t) (m : bufmode_t) : option ios_t :=
  let s := set_bm m s in
  s ← (match m with
    | bm_mem | bm_none => Some (set_maxsize IOS_INLSIZE (set_buf Local s))
    | _ => '(_, s) ← _buf_realloc (set_maxsize 0 (set_buf NULL s)) IOS_BUFSIZE; Some s
    end);
  Some (set_bpos 0 (set_size 0 s)).

Definition ios_close (w : W) (s : ios_t) : option (Z * W * ios_t) :=
  '(err, w, s) ← ios_flush w s;
  let '(err, w) :=
    if negb (fd s =? -1) && ownfd s then
      let '(err2, w) := sys_close w (fd s) in (if err2 =? 0 then err else err2, w)
    else (err, w) in
  Some (err, w, set_bpos 0 (set_maxsize 0 (set_size 0 (set_buf NULL (set_fd (-1) s))))).

Definition ios_isopen (s : ios_t) : bool := negb (fd s =? -1).

(** The buffer, as long as its allocation, or [None] for NULL; the length
    [*psize] counts the NUL that ends it. *)
Definition ios_take_buffer (w : W) (s : ios_t) : option (option (list Z * Z) * W * ios_t) :=
  '(_, w, s) ← ios_flush w s;
  b ← (if is_local s || is_null s || (negb (ownbuf s) && (size s =? maxsize s)) then
      if alloc_ok (size s + 1) then d ← read_buf s 0 (size s); Some (Some (d ++ junk 1)) else Some None
    else if size s =? maxsize s then
      if alloc_ok (size s + 1) then Some (Some (bytes s ++ junk (size s + 1 - zlen (bytes s)))) else Some None
    else Some (Some (bytes s)));
  match b with
  | None => Some (None, w, s)
  | Some b =>
      b ← blit b (size s) [0];
      let psize := size s + 1 in
      s ← _buf_init s (bm s);
      Some (Some (b, psize), w, s)
  end.

Definition ios_setbuf (w : W) (s : ios_t) (newbuf : list Z) (newsize : Z) (own : bool) : option (Z * W * ios_t) :=
  '(_, w, s) ← ios_flush w s;
  let nvalid := if newsize <? size s then newsize else size s in
  d ← (if 0 <? nvalid then read_buf s 0 nvalid else Some []);
  newbuf ← blit newbuf 0 d;
  let s := if nvalid <? bpos s then set_bpos nvalid s else s in
  Some (0, w, set_ownbuf own (set_maxsize newsize (set_buf (Heap newbuf) (set_size nvalid s)))).

Definition ios_bufmode (s : ios_t) (mode : bufmode_t) : Z * ios_t :=
  if (fd s =? -1) && negb (bool_decide (mode = bm_mem)) then (-1, s) else (0, set_bm mode s).
Definition ios_get_readable (s : ios_t) : bool := readable s.
Definition ios_get_writable (s : ios_t) : bool := writable s.
Definition ios_set_readonly (w : W) (s : ios_t) : option (W * ios_t) :=
  if negb (writable s) then Some (w, s)
  else '(_, w, s) ← ios_flush w s; Some (w, set_writable false (set_state bst_none s)).

Definition ios_mem (initsize : Z) : option ios_t :=
  let s := set_bm bm_mem _ios_init in
  let s := set_rereadable true s in
  '(_, s) ← _buf_realloc s initsize; Some s.

(** [str] without its NUL. *)
Definition ios_str (w : W) (str : list Z) : option (W * ios_t) :=
  s ← ios_mem (zlen str + 1);
  '(_, w, s) ← ios_write w s (str ++ [0]);
  '(_, w, s) ← ios_seek w s 0;
  Some (w, s).

Definition ios_static_buffer (w : W) (b : list Z) (sz : Z) : option (W * ios_t) :=
  s ← ios_mem 0;
  '(_, w, s) ← ios_setbuf w s b sz false;
  ios_set_readonly w (set_size sz s).

Definition STDOUT_FILENO : Z := 1.
Definition STDERR_FILENO : Z := 2.
Definition ios_fd (f : Z) (isfile own : bool) : option ios_t :=
  let s := set_fd f _ios_init in
  let s := set_rereadable isfile s in
  s ← _buf_init s bm_block;
  let s := set_ownfd own s in
  let s := if f =? STDERR_FILENO then set_bm bm_none s else s in
  Some (if f =? STDOUT_FILENO then set_bm bm_line s else s).

(** ** Copying *)

Fixpoint copy_loop (fuel : nat) (w : W) (to from : ios_t) (nbytes : Z) (all : bool) (total : Z) : option (Z * W * ios_t * ios_t) :=
  match fuel with
  | O => None
  | S fuel =>
      '(avail, w, from) ← ios_readprep w from (IOS_BUFSIZE / 2);
      if avail =? 0 then Some (total, w, to, set_eof true from) else
      let ntowrite := if (avail <=? nbytes) || all then avail else nbytes in
      d ← read_buf from (bpos from) ntowrite;
      '(written, w, to) ← ios_write w to d;
      let from := set_bpos (bpos from + ntowrite) from in
      let total := total + written in
      let nbytes := if all then nbytes else u64 (nbytes - written) in
      if negb all && (nbytes =? 0) then Some (total, w, to, from)
      else if written <? ntowrite then Some (total, w, to, from)
      else if ios_eof from then Some (total, w, to, from)
      else copy_loop fuel w to from nbytes all total
  end.
(** The streams are different ones. *)
Definition ios_copy_ (fuel : nat) (w : W) (to from : ios_t) (nbytes : Z) (all : bool) : option (Z * W * ios_t * ios_t) :=
  if ios_eof from then Some (0, w, to, from) else copy_loop fuel w to from nbytes all 0.
Definition ios_copy fuel w to from nbytes := ios_copy_ fuel w to from nbytes false.
Definition ios_copyall fuel w to from := ios_copy_ fuel w to from 0 true.

Fixpoint copyuntil_loop (fuel : nat) (w : W) (to from : ios_t) (delim : Z) (keep : bool) (total avail : Z) :
  option (Z * W * ios_t * ios_t) :=
  match fuel with
  | O => None
  | S fuel =>
      if ios_eof from then Some (total, w, to, set_eof true from) else
      '(avail, w, from) ← (if avail =? 0 then ios_readprep w from LINE_CHUNK_SIZE else Some (avail, w, from));
      if avail =? 0 then Some (total, w, to, set_eof true from) else
      b ← read_buf from (bpos from) avail;
      match memchr (u8 delim) b with
      | None =>
          '(written, w, to) ← ios_write w to b;
          copyuntil_loop fuel w to (set_bpos (bpos from + avail) from) delim keep (total + written) 0
      | Some i =>
          let ntowrite := Z.of_nat i + b2z keep in
          d ← read_buf from (bpos from) ntowrite;
          '(written, w, to) ← ios_write w to d;
          Some (total + written, w, to, set_bpos (bpos from + (ntowrite + b2z (negb keep))) from)
      end
  end.
Definition ios_copyuntil (fuel : nat) (w : W) (to from : ios_t) (delim : Z) (keep : bool) : option (Z * W * ios_t * ios_t) :=
  copyuntil_loop fuel w to from delim keep 0 (u64 (size from - bpos from)).

Definition ios_nchomp (from : ios_t) (ntowrite : Z) : option Z :=
  if 1 <? ntowrite then
    c ← bytes from !! Z.to_nat (bpos from + ntowrite - 2);
    Some (if c =? 13 then 2 else 1)
  else Some 1.

(** The line, with its NUL, and its length. *)
Definition ios_readline (fuel : nat) (w : W) (s : ios_t) : option (option (list Z * Z) * W * ios_t) :=
  dest ← ios_mem 0;
  '(_, w, dest, s) ← ios_copyuntil fuel w dest s 10 true;
  '(ret, w, dest) ← ios_take_buffer w dest;
  '(_, w, _) ← ios_close w dest;
  Some (ret, w, s).

(** ** Characters *)

Section Chars.
(** utf8proc's [utf8proc_charwidth]. *)
Context (utf8proc_charwidth : Z -> Z).

Definition ios_putc (w : W) (s : ios_t) (c : Z) : option (Z * W * ios_t) :=
  let ch := u8 c in
  if bool_decide (state s = bst_wr) && (bpos s <? maxsize s) && negb (bool_decide (bm s = bm_none)) then
    s ← write_buf s (bpos s) [ch];
    let s := _write_update_pos (set_bpos (bpos s + 1) s) in
    if bool_decide (bm s = bm_line) && (ch =? 10) then '(_, w, s) ← ios_flush w s; Some (1, w, s)
    else Some (1, w, s)
  else ios_write w s [ch].

(** [count]: the line number after the character. *)
Definition count_line (c : Z) (s : ios_t) : ios_t := if c =? 10 then set_lineno (u64 (lineno s + 1)) s else s.

Definition ios_getc (w : W) (s : ios_t) : option (Z * W * ios_t) :=
  if bool_decide (state s = bst_rd) && (bpos s <? size s) then
    d ← read_buf s (bpos s) 1;
    let ch := get d 0 in
    Some (ch, w, count_line ch (set_bpos (bpos s + 1) s))
  else if _eof s then Some (IOS_EOF, w, s)
  else
    '(n, d, w, s) ← ios_read w s 1;
    if n <? 1 then Some (IOS_EOF, w, s)
    else let ch := get d 0 in Some (ch, w, count_line ch s).

Definition ios_peekc (w : W) (s : ios_t) : option (Z * W * ios_t) :=
  if bpos s <? size s then d ← read_buf s (bpos s) 1; Some (get d 0, w, s)
  else if _eof s then Some (IOS_EOF, w, s)
  else
    '(n, w, s) ← ios_readprep w s 1;
    if n =? 0 then Some (IOS_EOF, w, s)
    else d ← read_buf s (bpos s) 1; Some (get d 0, w, s).

Definition ios_ungetc (s : ios_t) (c : Z) : option (Z * ios_t) :=
  if decide (state s = bst_wr) then Some (IOS_EOF, s) else
  let s := if c =? 10 then set_lineno (u64 (lineno s - 1)) s else s in
  let s := if 0 <? u_colno s then set_u_colno (u_colno s - 1) s else s in
  if 0 <? bpos s then
    let s := set_bpos (bpos s - 1) s in
    d ← read_buf s (bpos s) 1;
    s ← (if negb (get d 0 =? u8 c) then write_buf s (bpos s) [u8 c] else Some s);
    Some (c, set_eof false s)
  else
    '(ok, s) ← (if size s =? maxsize s then _buf_realloc s (u64 (maxsize s * 2)) else Some (true, s));
    if negb ok then Some (IOS_EOF, s) else
    s ← memmove s 1 0 (size s);
    s ← write_buf s 0 [u8 c];
    Some (c, set_eof false (set_size (size s + 1) s)).

(** 1 and the character, 0 for an invalid sequence, or [IOS_EOF]. *)
Definition ios_getutf8 (w : W) (s : ios_t) : option (Z * option Z * W * ios_t) :=
  '(c, w, s) ← ios_peekc w s;
  if c =? IOS_EOF then Some (IOS_EOF, None, w, set_eof true s)
  else if c <? 0x80 then
    '(_, w, s) ← ios_getc w s;
    let s := if c =? 10 then set_u_colno 0 s else set_u_colno (u64 (u_colno s + utf8proc_charwidth c)) s in
    Some (1, Some c, w, s)
  else
    let sz := u8_seqlen [c] in
    if negb (isutf c) || (4 <? sz)%nat then Some (0, None, w, s)
    else
      '(n, w, s) ← ios_readprep w s (Z.of_nat sz);
      if n <? Z.of_nat sz then Some (IOS_EOF, None, w, s)
      else
        d ← read_buf s (bpos s) (Z.of_nat sz);
        let valid := u8_isvalid d in
        if negb (valid =? 0) then
          let '(wc, _) := u8_nextchar (bytes s) (Z.to_nat (bpos s)) in
          let s := set_u_colno (u64 (u_colno s + utf8proc_charwidth wc)) s in
          '(_, _, w, s) ← ios_read w s (Z.of_nat sz);
          Some (valid, Some wc, w, s)
        else Some (valid, None, w, s).

Definition ios_peekutf8 (w : W) (s : ios_t) : option (Z * option Z * W * ios_t) :=
  '(c, w, s) ← ios_peekc w s;
  if c =? IOS_EOF then Some (IOS_EOF, None, w, s)
  else if c <? 0x80 then Some (1, Some c, w, s)
  else
    let sz := u8_seqlen [c] in
    if negb (isutf c) || (4 <? sz)%nat then Some (0, None, w, s)
    else
      '(n, w, s) ← ios_readprep w s (Z.of_nat sz);
      if n <? Z.of_nat sz then Some (IOS_EOF, None, w, s)
      else
        d ← read_buf s (bpos s) (Z.of_nat sz);
        let valid := u8_isvalid d in
        if negb (valid =? 0) then Some (valid, Some (fst (u8_nextchar (bytes s) (Z.to_nat (bpos s)))), w, s)
        else Some (valid, None, w, s).

Definition ios_pututf8 (w : W) (s : ios_t) (wc : Z) : option (Z * W * ios_t) :=
  if wc <? 0x80 then ios_putc w s wc
  else let b := u8_toutf8 8 [wc] in ios_write w s b.

Definition ios_purge (s : ios_t) : ios_t := if decide (state s = bst_rd) then set_bpos (size s) s else s.
End Chars.
End Ios.

(** A memory stream that is written, sought and read. *)
#[local] Instance no_os : OS unit :=
  {| sys_read w _ _ := (inr (EOTHER 9), w); sys_write w _ _ := (inr (EOTHER 9), w); sys_lseek w _ _ _ := (-1, w);
     sys_ftruncate w _ _ := (-1, w); sys_close w _ := (-1, w) |}.
Example write_seek_read :
  (s ← ios_mem (fun n => replicate (Z.to_nat n) 0xcd) (fun _ => true) 0;
   '(_, w, s) ← ios_write (fun n => replicate (Z.to_nat n) 0xcd) (fun _ => true) 1 tt s [1; 2; 3; 4];
   '(_, w, s) ← ios_seek 1 w s 1;
   '(_, w, s) ← ios_write (fun n => replicate (Z.to_nat n) 0xcd) (fun _ => true) 1 w s [7];
   '(n, d, w, s) ← ios_read 1 w s 10;
   '(r, w, s) ← ios_take_buffer (fun n => replicate (Z.to_nat n) 0xcd) (fun _ => true) 1 w s;
   match r with Some (b, sz) => Some (n, d, take (Z.to_nat sz) b) | None => None end) =
  Some (2, [3; 4], [1; 7; 3; 4; 0]).
Proof. vm_compute. reflexivity. Qed.
