(* ===== verification/IosMemSpec.v ===== *)
(** * Memory streams: what they promise, and that the operations keep it

    The header of ios.h says that on a memory stream mixed reads and writes are
    the same as [*p++] as lvalue or rvalue. The specification is a list of bytes
    with a position; [m_eof] and [m_state] say what [ios_eof] answers. *)
From S2P Require Import Prelude Utf8 Ios.

(** * Memory streams: their invariant, and the operations on the buffer *)

Lemma zlen_nonneg l : 0 <= zlen l.
Proof. unfold zlen. lia. Qed.

(** [l] with [d] over its bytes from [pos] on. *)
Definition splice (l : list Z) (pos : Z) (d : list Z) : list Z :=
  take (Z.to_nat pos) l ++ d ++ drop (Z.to_nat pos + length d) l.

Lemma blit_ok l pos d : 0 <= pos -> pos + zlen d <= zlen l -> blit l pos d = Some (splice l pos d).
Proof. intros ? ?. unfold blit, zlen in *. rewrite (proj2 (andb_true_iff _ _)); [done|]. split; apply Z.leb_le; lia. Qed.

Lemma slice_ok l pos n : 0 <= pos -> 0 <= n -> pos + n <= zlen l -> slice l pos n = Some (take (Z.to_nat n) (drop (Z.to_nat pos) l)).
Proof. intros ? ? ?. unfold slice, zlen in *. rewrite !(proj2 (andb_true_iff _ _)); [done|]. rewrite andb_true_iff, !Z.leb_le. lia. Qed.

Lemma splice_length l pos d : 0 <= pos -> pos + zlen d <= zlen l -> zlen (splice l pos d) = zlen l.
Proof. intros ? ?. unfold splice, zlen in *. rewrite !length_app, length_take, length_drop. lia. Qed.

Lemma splice_words l pos d : words 8 l -> words 8 d -> words 8 (splice l pos d).
Proof. intros ? ?. unfold splice. rewrite !words_app. split_and!; [by apply Forall_take|done|by apply Forall_drop]. Qed.

(** The valid part of a buffer under a write that may extend it. *)
Lemma take_splice l pos d n : 0 <= pos <= n -> n <= zlen l -> pos + zlen d <= zlen l ->
  take (Z.to_nat (Z.max n (pos + zlen d))) (splice l pos d) = splice (take (Z.to_nat n) l) pos d.
Proof.
  intros Hp Hn Hd. unfold splice, zlen in *. rewrite take_take, (Nat.min_l (Z.to_nat pos)) by lia.
  rewrite take_app_ge by (rewrite length_take; lia). f_equal. rewrite length_take, Nat.min_l by lia.
  rewrite take_app_ge by lia. f_equal. rewrite take_drop_commute.
  destruct (Z.max_spec n (pos + Z.of_nat (length d))) as [[? ->]|[? ->]].
  - rewrite !drop_ge by (rewrite length_take; lia). done.
  - f_equal. f_equal. lia.
Qed.

Lemma splice_end l d : splice l (zlen l) d = l ++ d.
Proof. unfold splice, zlen. rewrite Nat2Z.id, take_ge, drop_ge, app_nil_r by lia. done. Qed.

(** ** The buffer of a stream *)

Lemma bytes_set_bytes l s : buf s <> NULL -> bytes (set_bytes l s) = l.
Proof. unfold bytes, set_bytes. destruct (buf s) eqn:E; cbn; try rewrite E; done. Qed.

Lemma set_bytes_fields l s :
  (bm (set_bytes l s) = bm s /\ state (set_bytes l s) = state s /\ maxsize (set_bytes l s) = maxsize s /\ size (set_bytes l s) = size s /\
   bpos (set_bytes l s) = bpos s /\ ndirty (set_bytes l s) = ndirty s /\ writable (set_bytes l s) = writable s /\
   growable (set_bytes l s) = growable s /\ _eof (set_bytes l s) = _eof s /\ ownbuf (set_bytes l s) = ownbuf s /\
   fd (set_bytes l s) = fd s /\ fpos (set_bytes l s) = fpos s).
Proof. unfold set_bytes. destruct (buf s); cbn; split_and!; done. Qed.

Lemma set_bytes_buf l s : buf s <> NULL -> buf (set_bytes l s) <> NULL.
Proof. unfold set_bytes. destruct (buf s) eqn:E; cbn; try rewrite E; done. Qed.

Lemma set_bytes_local l s : zlen l = zlen (bytes s) -> zlen (local (set_bytes l s)) = zlen (local s).
Proof. unfold set_bytes, bytes. destruct (buf s); cbn; congruence. Qed.

(** The invariant of a memory stream that can be written to. *)
Record mem_inv (s : ios_t) : Prop := {
  mem_bm : bm s = bm_mem;
  mem_buf : buf s <> NULL;
  mem_len : zlen (bytes s) = maxsize s;
  mem_local : zlen (local s) = IOS_INLSIZE;
  mem_bpos : 0 <= bpos s <= size s;
  mem_size : size s <= maxsize s;
  mem_max : 0 < maxsize s < 2 ^ 62;
  mem_bytes : words 8 (take (Z.to_nat (size s)) (bytes s));
  mem_writable : writable s = true;
  mem_growable : growable s = true;
  mem_fd : fd s = -1;
}.

(** What the stream holds. *)
Definition content (s : ios_t) : list Z := take (Z.to_nat (size s)) (bytes s).

Lemma content_len s : mem_inv s -> zlen (content s) = size s.
Proof. intros []. unfold content, zlen in *. rewrite length_take. lia. Qed.

(** Another buffer of the same length. *)
Lemma set_bytes_inv s l sz : mem_inv s -> zlen l = zlen (bytes s) -> bpos s <= sz <= maxsize s -> words 8 (take (Z.to_nat sz) l) ->
  mem_inv (set_size sz (set_bytes l s)) /\ content (set_size sz (set_bytes l s)) = take (Z.to_nat sz) l.
Proof.
  intros [M1 M2 M3 M4 M5 M6 M7 M8 M9 M10 M11] Hl Hs Hw.
  destruct (set_bytes_fields l s) as (F1 & F2 & F3 & F4 & F5 & F6 & F7 & F8 & _ & _ & F11 & _).
  assert (bytes (set_size sz (set_bytes l s)) = l) as Eb by (by apply (bytes_set_bytes l s)).
  split; [|unfold content; by rewrite Eb]. split; rewrite ?Eb; cbn; rewrite ?F1, ?F3, ?F5, ?F7, ?F8, ?F11; try done; try lia.
  - by apply set_bytes_buf.
  - by rewrite set_bytes_local.
Qed.

(** ** Growing *)

Lemma grow_newsize_ok fuel need nw : 0 < nw -> need < 2 ^ 61 -> nw < 2 ^ 62 -> need <= nw * 2 ^ Z.of_nat fuel ->
  exists r, grow_newsize (S fuel) need nw = Some r /\ Z.max nw need <= r < 2 ^ 62.
Proof.
  revert nw. induction fuel as [|fuel IH]; intros nw Hn Hneed Hmax Hf.
  - exists nw. cbn [grow_newsize]. destruct (Z.ltb_spec nw need); [simpl in Hf; lia|]. split; [done|lia].
  - rewrite Nat2Z.inj_succ, Z.pow_succ_r in Hf by lia.
    change (grow_newsize (S (S fuel)) need nw) with (if nw <? need then grow_newsize (S fuel) need (u64 (nw * 2)) else Some nw).
    destruct (Z.ltb_spec nw need); [|exists nw; split; [done|lia]].
    rewrite uw_small by (unfold in_range; lia). destruct (IH (nw * 2)) as (r & E & Hr); [lia..|]. exists r. split; [done|lia].
Qed.

Abbreviation fields_unchanged s s' := (state s' = state s /\ _eof s' = _eof s /\ bpos s' = bpos s /\ size s' = size s /\ ndirty s' = ndirty s).

(** A new buffer that begins with the contents. *)
Lemma new_buffer s l o : mem_inv s -> size s <= zlen l < 2 ^ 62 -> 0 < zlen l -> take (Z.to_nat (size s)) l = content s ->
  let s' := set_maxsize (zlen l) (set_buf (Heap l) (set_ownbuf o s)) in
  mem_inv s' /\ fields_unchanged s s' /\ content s' = content s /\ maxsize s' = zlen l.
Proof.
  intros [M1 M2 M3 M4 M5 M6 M7 M8 M9 M10 M11] Hl Hl0 E. cbv zeta. split; [|split_and!; try done].
  split; cbn; try done; try lia. unfold bytes. cbn. rewrite E. exact M8.
Qed.

Lemma ownbuf_eta s : set_ownbuf (ownbuf s) s = s.
Proof. by destruct s. Qed.

Section Mem.
Context {W : Type} `{OS W}.
Context (junk : Z -> list Z) (alloc_ok : Z -> bool) (patience : nat).
Context (Hjunk : forall n, 0 <= n -> zlen (junk n) = n) (Halloc : forall n, alloc_ok n = true).

(** A larger buffer keeps the contents. *)
Lemma buf_realloc_ok s sz : mem_inv s -> 0 <= sz < 2 ^ 62 ->
  exists s', _buf_realloc junk alloc_ok s sz = Some (true, s') /\ mem_inv s' /\ fields_unchanged s s' /\
    content s' = content s /\ Z.max sz (maxsize s) <= maxsize s'.
Proof using Hjunk Halloc.
  intros I Hsz. pose proof I as [M1 M2 M3 M4 M5 M6 M7 M8 M9 M10 M11]. unfold _buf_realloc. rewrite M10, !Halloc. cbn [negb].
  assert (is_null s = false) as -> by (unfold is_null; by destruct (buf s)). cbn [orb negb].
  pose proof (content_len s I) as Hc. unfold read_buf. rewrite slice_ok by lia. rewrite drop_0. fold (content s). cbn [mbind option_bind].
  destruct (is_local s && (sz <=? IOS_INLSIZE)) eqn:El.
  { apply andb_true_iff in El as [El Hl%Z.leb_le]. assert (buf s = Local) as Eb by (unfold is_local in El; by destruct (buf s)).
    assert (bytes s = local s) as El' by (unfold bytes; by rewrite Eb). assert (maxsize s = IOS_INLSIZE) as Em by congruence.
    eexists. split; [done|]. split; [|split_and!; try done; [unfold content, bytes; cbn; by rewrite Eb|cbn; lia]].
    split; cbn; try done; try lia. unfold bytes. cbn. by rewrite <- El'. }
  destruct (Z.leb_spec sz (maxsize s)).
  { exists s. split; [done|]. split; [done|]. split_and!; try done; lia. }
  assert (forall l o, zlen l = sz -> take (Z.to_nat (size s)) l = content s -> exists s',
    Some (true, set_maxsize sz (set_buf (Heap l) (set_ownbuf o s))) = Some (true, s') /\ mem_inv s' /\ fields_unchanged s s' /\
    content s' = content s /\ Z.max sz (maxsize s) <= maxsize s') as Hnew.
  { intros l o Hl Ht. rewrite <- Hl in *. destruct (new_buffer s l o I ltac:(lia) ltac:(lia) Ht) as (? & ? & ? & Em).
    eexists. split; [done|]. split_and!; try done; rewrite ?Em; try lia; tauto. }
  destruct (ownbuf s && negb (is_local s)).
  - destruct (Hnew (bytes s ++ junk (sz - zlen (bytes s))) (ownbuf s)) as (s' & E & ?); [| |rewrite ownbuf_eta in E; by exists s'].
    + pose proof (Hjunk (sz - zlen (bytes s)) ltac:(lia)). unfold zlen in *. rewrite length_app. lia.
    + apply take_app_le. unfold zlen in *. lia.
  - apply (Hnew (content s ++ junk (sz - size s)) true).
    + pose proof (Hjunk (sz - size s) ltac:(lia)). unfold zlen in *. rewrite length_app. lia.
    + apply take_app_length'. unfold zlen in *. lia.
Qed.

(** Bytes put over the buffer from the position on. *)
Lemma write_buf_ok s sz d : mem_inv s -> words 8 d -> bpos s + zlen d <= maxsize s -> sz = Z.max (size s) (bpos s + zlen d) ->
  exists s', write_buf (set_size sz s) (bpos s) d = Some s' /\ mem_inv (set_bpos (bpos s + zlen d) s') /\
    state s' = state s /\ _eof s' = _eof s /\ bpos s' = bpos s /\ size s' = sz /\ ndirty s' = ndirty s /\ maxsize s' = maxsize s /\
    content s' = splice (content s) (bpos s) d.
Proof using.
  intros I Hd Hfit Hsz. pose proof I as [M1 M2 M3 M4 M5 M6 M7 M8 M9 M10 M11]. unfold write_buf.
  change (bytes (set_size sz s)) with (bytes s). rewrite blit_ok by lia. cbn [mbind option_bind].
  set (l := splice (bytes s) (bpos s) d). eexists. split; [done|].
  assert (zlen l = zlen (bytes s)) as Hl by (apply splice_length; lia).
  destruct (set_bytes_fields l (set_size sz s)) as (F1 & F2 & F3 & F4 & F5 & F6 & F7 & F8 & F9 & F10 & F11 & F12). cbn in F1, F2, F3, F4, F5, F6, F7, F8, F9.
  assert (bytes (set_bytes l (set_size sz s)) = l) as Eb by (by apply bytes_set_bytes).
  assert (content (set_bytes l (set_size sz s)) = splice (content s) (bpos s) d) as Ec.
  { unfold content at 1. rewrite Eb, F4, Hsz. apply take_splice; lia. }
  pose proof (zlen_nonneg d).
  split; [|split_and!; done]. split; cbn; rewrite ?F1, ?F3, ?F4, ?F7, ?F8, ?F11; try done; try lia.
  - by apply set_bytes_buf.
  - change (bytes (set_bpos _ ?x)) with (bytes x). rewrite Eb. lia.
  - by rewrite (set_bytes_local l (set_size sz s)).
  - unfold content at 1 in Ec. rewrite F4 in Ec. change (bytes (set_bpos _ ?x)) with (bytes x). rewrite Ec. by apply splice_words.
Qed.

Lemma set_size_eta s : set_size (size s) s = s.
Proof using. by destruct s. Qed.

Lemma write_grow_ok s d : mem_inv s -> words 8 d -> 0 < zlen d -> bpos s + zlen d < 2 ^ 60 ->
  exists s', _write_grow junk alloc_ok s d = Some (zlen d, s') /\ mem_inv s' /\ state s' = state s /\ _eof s' = _eof s /\
    bpos s' = bpos s + zlen d /\ content s' = splice (content s) (bpos s) d.
Proof using Hjunk Halloc.
  intros I Hd Hn Hmax. pose proof (mem_bpos s I) as Hp. unfold _write_grow. destruct (Z.eqb_spec (zlen d) 0); [lia|].
  rewrite (uw_small 64 (bpos s + zlen d)) by (unfold in_range; lia). cbv zeta.
  assert (forall s1, mem_inv s1 -> fields_unchanged s s1 -> content s1 = content s -> bpos s1 + zlen d <= maxsize s1 ->
    exists s', (s2 ← write_buf (set_size (Z.max (size s1) (bpos s1 + zlen d)) s1) (bpos s1) d; Some (zlen d, set_bpos (bpos s2 + zlen d) s2)) =
      Some (zlen d, s') /\ mem_inv s' /\ state s' = state s /\ _eof s' = _eof s /\ bpos s' = bpos s + zlen d /\
      content s' = splice (content s) (bpos s) d) as Hfin.
  { intros s1 I1 (U1 & U2 & U3 & U4 & U5) Ec Hfit.
    destruct (write_buf_ok s1 _ d I1 Hd Hfit eq_refl) as (s2 & -> & I2 & V1 & V2 & V3 & V4 & V5 & V6 & V7). cbn [mbind option_bind].
    eexists. split; [done|]. rewrite V3. split; [done|]. cbn. split_and!; try congruence. transitivity (content s2); [done|]. congruence. }
  destruct (Z.ltb_spec (size s) (bpos s + zlen d)).
  - assert (Z.max (size s) (bpos s + zlen d) = bpos s + zlen d) as Em by lia.
    destruct (Z.ltb_spec (maxsize s) (bpos s + zlen d)) as [Hg|Hg].
    + pose proof (mem_size s I).
      destruct (grow_newsize_ok 64 (bpos s + zlen d) (if negb (maxsize s =? 0) then u64 (maxsize s * 2) else 8)) as (nw & -> & Hnw).
      1-4: destruct (Z.eqb_spec (maxsize s) 0); cbn [negb]; rewrite ?uw_small by (unfold in_range; lia); lia.
      cbn [mbind option_bind]. destruct (buf_realloc_ok s nw I) as (s1 & -> & I1 & U & Ec & Hm).
      { destruct (Z.eqb_spec (maxsize s) 0); cbn [negb] in *; rewrite ?uw_small in * by (unfold in_range; lia); lia. }
      cbn [mbind option_bind]. destruct (Hfin s1 I1 U Ec) as (s' & E & R).
      { destruct U as (_ & _ & -> & _). lia. }
      destruct U as (_ & _ & Ub & Us & _). rewrite Ub, Us, Em in E. exists s'. split; [|done].
      cbn [set_size bpos]. rewrite Ub. exact E.
    + destruct (Hfin s I ltac:(done) eq_refl Hg) as (s' & E & R). rewrite Em in E. exists s'. by split.
  - destruct (Hfin s I ltac:(done) eq_refl) as (s' & E & R); [pose proof (mem_size s I); lia|].
    replace (Z.max (size s) (bpos s + zlen d)) with (size s) in E by lia. rewrite set_size_eta in E. exists s'. by split.
Qed.
End Mem.

(** * Memory streams: what they promise, and that the operations keep it *)

Record mstream := { m_content : list Z; m_pos : Z; m_eof : bool; m_state : bufstate_t }.

Inductive cmd :=
| Write (d : list Z) | Read (n : Z) | Seek (pos : Z) | SeekEnd | Skip (offs : Z) | Pos | Eof | Trunc (n : Z)
| Putc (c : Z) | Getc | Peekc | Ungetc (c : Z).

(** Arguments in range; a truncation does not extend the stream, whose new bytes
    would be undefined. *)
Definition cmd_ok (c : cmd) (a : mstream) : Prop :=
  zlen (m_content a) < 2 ^ 60 - 1 /\
  match c with
  | Write d => words 8 d /\ m_pos a + zlen d < 2 ^ 60
  | Read n => 0 <= n
  | Skip offs => - 2 ^ 63 < offs
  | Trunc n => 0 <= n <= zlen (m_content a)
  | Putc c | Ungetc c => in_range 8 c
  | _ => True
  end.

Definition m_write (d : list Z) (a : mstream) : mstream :=
  {| m_content := splice (m_content a) (m_pos a) d; m_pos := m_pos a + zlen d;
     m_eof := (if decide (m_state a = bst_rd) then false else m_eof a); m_state := bst_wr |}.
Definition m_seek (pos : Z) (eof : bool) (a : mstream) : mstream :=
  {| m_content := m_content a; m_pos := pos; m_eof := eof; m_state := m_state a |}.
Definition m_rest (a : mstream) : list Z := drop (Z.to_nat (m_pos a)) (m_content a).
Definition m_read (n : Z) (a : mstream) : (Z * list Z) * mstream :=
  let d := take (Z.to_nat n) (m_rest a) in
  (zlen d, d,
   {| m_content := m_content a; m_pos := m_pos a + zlen d;
      m_eof := (if decide (m_state a = bst_wr) then false else m_eof a) || ((0 <? n) && (zlen (m_rest a) =? 0)); m_state := bst_rd |}).

(** The result and the new stream. *)
Definition m_step (c : cmd) (a : mstream) : (Z * list Z) * mstream :=
  match c with
  | Write [] => (0, [], a)
  | Write d => (zlen d, [], m_write d a)
  | Read n => m_read n a
  | Seek pos => if (pos <? 0) || (zlen (m_content a) <? pos) then (-2, [], m_seek (m_pos a) false a) else (0, [], m_seek pos false a)
  | SeekEnd => (0, [], m_seek (zlen (m_content a)) true a)
  | Skip offs =>
      if offs =? 0 then (0, [], a)
      else if (m_pos a + offs <? 0) || (zlen (m_content a) <? m_pos a + offs) then (-2, [], a)
      else (0, [], m_seek (m_pos a + offs) (if 0 <? offs then m_eof a else false) a)
  | Pos => (m_pos a, [], a)
  | Eof => (b2z (if bool_decide (m_state a = bst_rd) && (m_pos a <? zlen (m_content a)) then false else m_eof a), [], a)
  | Trunc n => (0, [], {| m_content := take (Z.to_nat n) (m_content a); m_pos := Z.min (m_pos a) n; m_eof := m_eof a; m_state := m_state a |})
  | Putc c => (1, [], m_write [c] a)
  | Getc =>
      if m_eof a && negb (bool_decide (m_state a = bst_rd) && (m_pos a <? zlen (m_content a))) then (IOS_EOF, [], a)
      else match m_rest a with
           | ch :: _ => (ch, [], {| m_content := m_content a; m_pos := m_pos a + 1;
                                    m_eof := (if decide (m_state a = bst_wr) then false else m_eof a); m_state := bst_rd |})
           | [] => (IOS_EOF, [], {| m_content := m_content a; m_pos := m_pos a; m_eof := true; m_state := bst_rd |})
           end
  | Peekc => match m_rest a with
             | ch :: _ => (ch, [], a)
             | [] => (IOS_EOF, [], if m_eof a then a else {| m_content := m_content a; m_pos := m_pos a; m_eof := false; m_state := bst_rd |})
             end
  | Ungetc c =>
      if decide (m_state a = bst_wr) then (IOS_EOF, [], a)
      else if 0 <? m_pos a then
        (c, [], {| m_content := splice (m_content a) (m_pos a - 1) [c]; m_pos := m_pos a - 1; m_eof := false; m_state := m_state a |})
      else (c, [], {| m_content := c :: m_content a; m_pos := 0; m_eof := false; m_state := m_state a |})
  end.

Section Exec.
Context {W : Type} `{OS W}.
Context (junk : Z -> list Z) (alloc_ok : Z -> bool) (patience : nat).

(** The function of each command. *)
Definition exec (c : cmd) (w : W) (s : ios_t) : option ((Z * list Z) * W * ios_t) :=
  match c with
  | Write d => '(r, w, s) ← ios_write junk alloc_ok patience w s d; Some (r, [], w, s)
  | Read n => ios_read patience w s n
  | Seek pos => '(r, w, s) ← ios_seek patience w s pos; Some (r, [], w, s)
  | SeekEnd => '(r, w, s) ← ios_seek_end patience w s; Some (r, [], w, s)
  | Skip offs => '(r, w, s) ← ios_skip patience w s offs; Some (r, [], w, s)
  | Pos => let '(r, w, s) := ios_pos w s in Some (r, [], w, s)
  | Eof => Some (b2z (ios_eof s), [], w, s)
  | Trunc n => '(r, w, s) ← ios_trunc junk alloc_ok patience w s n; Some (r, [], w, s)
  | Putc c => '(r, w, s) ← ios_putc junk alloc_ok patience w s c; Some (r, [], w, s)
  | Getc => '(r, w, s) ← ios_getc patience w s; Some (r, [], w, s)
  | Peekc => '(r, w, s) ← ios_peekc junk alloc_ok patience w s; Some (r, [], w, s)
  | Ungetc c => '(r, s) ← ios_ungetc junk alloc_ok s c; Some (r, [], w, s)
  end.

Fixpoint exec_all (cs : list cmd) (w : W) (s : ios_t) : option (list (Z * list Z) * W * ios_t) :=
  match cs with
  | [] => Some ([], w, s)
  | c :: cs => '(r, w, s) ← exec c w s; '(rs, w, s) ← exec_all cs w s; Some (r :: rs, w, s)
  end.
End Exec.

Fixpoint m_steps (cs : list cmd) (a : mstream) : list (Z * list Z) * mstream :=
  match cs with
  | [] => ([], a)
  | c :: cs => let '(r, a) := m_step c a in let '(rs, a) := m_steps cs a in (r :: rs, a)
  end.
Fixpoint cmds_ok (cs : list cmd) (a : mstream) : Prop :=
  match cs with [] => True | c :: cs => cmd_ok c a /\ cmds_ok cs (snd (m_step c a)) end.

(** The stream stands for the abstract one. *)
Record refines (s : ios_t) (a : mstream) : Prop := {
  ref_inv : mem_inv s;
  ref_content : content s = m_content a;
  ref_pos : bpos s = m_pos a;
  ref_eof : _eof s = m_eof a;
  ref_state : state s = m_state a;
}.

Section Refine.
Context {W : Type} `{OS W}.
Context (junk : Z -> list Z) (alloc_ok : Z -> bool) (patience : nat).
Context (Hjunk : forall n, 0 <= n -> zlen (junk n) = n) (Halloc : forall n, alloc_ok n = true).
Implicit Types (w : W) (s : ios_t) (a : mstream).

(** Changes outside the buffer. *)
Lemma inv_update s e st p nd l u : mem_inv s -> 0 <= p <= size s ->
  let s' := set_lineno l (set_u_colno u (set_ndirty nd (set_bpos p (set_state st (set_eof e s))))) in mem_inv s'.
Proof using. intros [] Hp. split; done. Qed.

Lemma ref_size s a : refines s a -> size s = zlen (m_content a).
Proof using. intros [I <- _ _ _]. by rewrite content_len. Qed.

Lemma ref_range s a : refines s a -> 0 <= m_pos a <= zlen (m_content a).
Proof using. intros R. rewrite <- (ref_size s a R), <- (ref_pos s a R). apply (mem_bpos s), R. Qed.

Lemma rest_len a : 0 <= m_pos a <= zlen (m_content a) -> zlen (m_rest a) = zlen (m_content a) - m_pos a.
Proof using. intros ?. unfold m_rest, zlen in *. rewrite length_drop. lia. Qed.

Lemma read_buf_ok s n : mem_inv s -> 0 <= n <= size s - bpos s ->
  read_buf s (bpos s) n = Some (take (Z.to_nat n) (drop (Z.to_nat (bpos s)) (content s))).
Proof using.
  intros I Hn. pose proof I as [M1 M2 M3 M4 M5 M6 M7 M8 M9 M10 M11]. unfold read_buf. rewrite slice_ok by lia.
  unfold content. rewrite !take_drop_commute, take_take. f_equal. f_equal. f_equal. lia.
Qed.

Lemma write_ref w s a d : refines s a -> words 8 d -> 0 < zlen d -> m_pos a + zlen d < 2 ^ 60 ->
  exists s', ios_write junk alloc_ok patience w s d = Some (zlen d, w, s') /\ refines s' (m_write d a).
Proof using Hjunk Halloc.
  intros R Hd Hn Hmax. pose proof (ref_inv s a R) as I. destruct R as [_ Rc Rp Re Rs].
  unfold ios_write. change (ios_write_rec junk alloc_ok patience 4 w s d) with (ios_write_rec junk alloc_ok patience (S 3) w s d).
  cbn [ios_write_rec]. rewrite (mem_writable s I). cbn [negb]. destruct (Z.eqb_spec (zlen d) 0); [lia|].
  assert (exists s1, (if decide (state s = bst_rd) then
       let '(p, w, s) := ios_pos w s in '(_, w, s) ← ios_seek patience w s p; Some (w, s) else Some (w, s)) = Some (w, s1) /\
     mem_inv s1 /\ content s1 = content s /\ bpos s1 = bpos s /\ _eof s1 = (if decide (state s = bst_rd) then false else _eof s))
    as (s1 & -> & I1 & Ec & Eb & Ee).
  { destruct (decide (state s = bst_rd)); [|by exists s]. unfold ios_pos, ios_seek. pose proof (mem_bpos s I).
    rewrite decide_True by apply I. cbn [set_eof bm size]. rewrite decide_True by apply I.
    destruct (Z.ltb_spec (bpos s) 0); [lia|]. destruct (Z.ltb_spec (size s) (bpos s)); [lia|]. cbn [orb mbind option_bind].
    eexists. split; [done|]. split; [destruct I; by split|done]. }
  cbn [mbind option_bind]. rewrite (mem_bm _ I1 : bm (set_state bst_wr s1) = bm_mem).
  assert (mem_inv (set_state bst_wr s1)) as I2 by (destruct I1; by split).
  destruct (write_grow_ok junk alloc_ok Hjunk Halloc (set_state bst_wr s1) d I2 Hd Hn) as (s2 & -> & I3 & V1 & V2 & V3 & V4).
  { cbn. rewrite Eb, Rp. exact Hmax. }
  cbn [mbind option_bind]. eexists. split; [done|].
  assert (_write_update_pos s2 = (if ndirty s2 <? bpos s2 then set_ndirty (bpos s2) s2 else s2)) as ->.
  { unfold _write_update_pos. pose proof (mem_bpos s2 I3). destruct (ndirty s2 <? bpos s2); cbn [size bpos set_ndirty];
      by destruct (Z.ltb_spec (size s2) (bpos s2)); [lia|]. }
  cbn in V1, V2, V3, V4. change (content (set_state bst_wr s1)) with (content s1) in V4.
  rewrite Ec, Eb, Rc, Rp in V4. rewrite Eb, Rp in V3. rewrite Ee, Re, Rs in V2.
  destruct (ndirty s2 <? bpos s2); (split; [try exact I3; destruct I3; by split|try exact V4; done|done|done|done]).
Qed.

Lemma seek_ref w s a pos : refines s a ->
  exists s', ios_seek patience w s pos = Some (fst (fst (m_step (Seek pos) a)), w, s') /\ refines s' (snd (m_step (Seek pos) a)).
Proof using.
  intros R. pose proof (ref_size s a R) as Hs. pose proof (ref_inv s a R) as I. unfold ios_seek. cbn [set_eof bm size m_step].
  rewrite decide_True by apply I. rewrite <- Hs. destruct R as [_ Rc Rp Re Rs].
  destruct ((pos <? 0) || (size s <? pos)) eqn:E; (eexists; split; [done|]); (split; [|done..]); destruct I; split; try done.
  apply orb_false_iff in E as [E1%Z.ltb_ge E2%Z.ltb_ge]. cbn. lia.
Qed.

Lemma read_ref w s a n : refines s a -> 0 <= n ->
  exists s', ios_read patience w s n = Some (fst (m_read n a), w, s') /\ refines s' (snd (m_read n a)).
Proof using.
  intros R Hn. pose proof (ref_size s a R) as Hs. pose proof (ref_range s a R) as Hr. unfold ios_read, _ios_read.
  assert (exists s1, (if decide (state s = bst_wr) then
       let '(p, w, s) := ios_pos w s in '(_, w, s) ← ios_seek patience w s p; Some (w, s) else Some (w, s)) = Some (w, s1) /\
     mem_inv s1 /\ content s1 = content s /\ bpos s1 = bpos s /\ size s1 = size s /\ _eof s1 = (if decide (state s = bst_wr) then false else _eof s))
    as (s1 & -> & I1 & Ec & Eb & Es & Ee).
  { pose proof (ref_inv s a R) as I. destruct (decide (state s = bst_wr)); [|by exists s]. unfold ios_pos, ios_seek. pose proof (mem_bpos s I).
    rewrite decide_True by apply I. cbn [set_eof bm size]. rewrite decide_True by apply I.
    destruct (Z.ltb_spec (bpos s) 0); [lia|]. destruct (Z.ltb_spec (size s) (bpos s)); [lia|]. cbn [orb mbind option_bind].
    eexists. split; [done|]. split; [destruct I; by split|done]. }
  cbn [mbind option_bind]. destruct R as [I Rc Rp Re Rs]. pose proof (rest_len a Hr) as Hl. pose proof (mem_max s I). pose proof (mem_size s I).
  unfold m_read. cbn [fst snd]. rewrite Re, Rs in Ee.
  cbn [read_loop].
  destruct (Z.ltb_spec 0 n); cbn [negb andb].
  2: { assert (n = 0) as -> by lia. rewrite take_0. cbn [zlen length]. eexists. split; [done|].
    rewrite Z.add_0_r, orb_false_r, <- Ee. split; try done; [destruct I1; by split|change (content (set_state bst_rd s1)) with (content s1); cbn [m_content]; congruence|cbn; congruence]. }
  change (size (set_state bst_rd s1)) with (size s1). change (bpos (set_state bst_rd s1)) with (bpos s1).
  rewrite (uw_small 64 (size s1 - bpos s1)) by (unfold in_range; lia). rewrite Es, Eb. rewrite Hs, Rp in *.
  change (read_buf (set_state bst_rd s1) (m_pos a)) with (read_buf s1 (m_pos a)). rewrite <- Hl in *. set (avail := zlen (m_rest a)) in *.
  assert (forall k, 0 <= k <= avail -> read_buf s1 (m_pos a) k = Some (take (Z.to_nat k) (m_rest a))) as Hrd.
  { intros k Hk. rewrite <- Eb. rewrite read_buf_ok by (try done; lia). rewrite Eb, Ec, Rc. done. }
  assert (forall k, zlen (take (Z.to_nat k) (m_rest a)) = Z.min (Z.max 0 k) avail) as Htk.
  { intros k. unfold avail, zlen. rewrite length_take. lia. }
  assert (forall e k, 0 <= k <= avail -> refines (set_eof e (set_bpos (m_pos a + k) (set_state bst_rd s1)))
     {| m_content := m_content a; m_pos := m_pos a + k; m_eof := e; m_state := bst_rd |}) as Href.
  { intros e k Hk. split; try done; [|change (content (set_eof e (set_bpos (m_pos a + k) (set_state bst_rd s1)))) with (content s1); cbn [m_content]; congruence].
    destruct I1. split; try done. cbn. lia. }
  assert (bm (set_state bst_rd s1) = bm_mem) as Hbm by apply I1.
  destruct (Z.ltb_spec 0 avail).
  - destruct (Z.leb_spec n avail); cbn [negb].
    + rewrite Hrd by lia. cbn [mbind option_bind]. rewrite Z.leb_refl. cbn [andb]. rewrite Htk. eexists. split; [f_equal; f_equal; f_equal; f_equal; lia|].
      destruct (Z.eqb_spec avail 0); [lia|]. rewrite orb_false_r. replace (Z.min (Z.max 0 n) avail) with n by lia. rewrite <- Ee.
      exact (Href (_eof s1) n ltac:(lia)).
    + rewrite Hrd by lia. cbn [mbind option_bind]. destruct (Z.leb_spec n avail); [lia|]. cbn [andb set_bpos bm]. rewrite bool_decide_true by done. cbn [orb].
      destruct (Z.eqb_spec avail 0); [lia|]. rewrite Htk. rewrite (take_ge (m_rest a)) by (unfold avail, zlen in *; lia).
      rewrite (take_ge (m_rest a)) by (unfold avail, zlen in *; lia).
      replace (Z.min (Z.max 0 n) avail) with avail by lia. rewrite orb_false_r, <- Ee. eexists. split; [done|].
      exact (Href (_eof s1) avail ltac:(lia)).
  - assert (avail = 0) as Ha by (pose proof (zlen_nonneg (m_rest a)); lia). cbn [andb mbind option_bind]. rewrite bool_decide_true by done. cbn [orb].
    rewrite Ha. rewrite Z.eqb_refl. assert (m_rest a = []) as Er by (apply nil_length_inv; unfold avail, zlen in *; lia). rewrite Er, take_nil. cbn [zlen length].
    eexists. split; [done|]. rewrite orb_true_r. pose proof (Href true 0 ltac:(lia)) as Q. rewrite Z.add_0_r in *.
    replace (set_bpos (m_pos a) (set_state bst_rd s1)) with (set_state bst_rd s1) in Q by (rewrite <- Eb; by destruct s1). exact Q.
Qed.

(** A change of the position and the flags. *)
Lemma ref_move s a p e st : refines s a -> 0 <= p <= zlen (m_content a) ->
  refines (set_bpos p (set_state st (set_eof e s))) {| m_content := m_content a; m_pos := p; m_eof := e; m_state := st |}.
Proof using.
  intros R Hp. pose proof (ref_size s a R) as Hs. destruct R as [I Rc Rp Re Rs]. split; try done. destruct I. split; try done. cbn. lia.
Qed.

Lemma ref_goto s a p e : refines s a -> 0 <= p <= zlen (m_content a) -> refines (set_bpos p (set_eof e s)) (m_seek p e a).
Proof using. intros R Hp. pose proof (ref_move s a p e (m_state a) R Hp) as Q. rewrite <- (ref_state s a R) in Q. unfold m_seek. rewrite <- (ref_state s a R). by destruct s. Qed.

Lemma ref_goto_same s a p : refines s a -> 0 <= p <= zlen (m_content a) -> refines (set_bpos p s) (m_seek p (m_eof a) a).
Proof using. intros R Hp. pose proof (ref_goto s a p (m_eof a) R Hp) as Q. rewrite <- (ref_eof s a R) in *. by destruct s. Qed.

Lemma seek_end_ref w s a : refines s a ->
  exists s', ios_seek_end patience w s = Some (0, w, s') /\ refines s' (snd (m_step SeekEnd a)).
Proof using.
  intros R. pose proof (ref_size s a R) as Hs. unfold ios_seek_end. cbn [set_eof bm size]. rewrite decide_True by apply R.
  eexists. split; [done|]. cbn [m_step snd]. rewrite Hs.
  apply (ref_goto s a (zlen (m_content a)) true R). pose proof (ref_range _ a R). lia.
Qed.

Lemma skip_ref w s a offs : refines s a -> - 2 ^ 63 < offs ->
  exists s', ios_skip patience w s offs = Some (fst (fst (m_step (Skip offs) a)), w, s') /\ refines s' (snd (m_step (Skip offs) a)).
Proof using.
  intros R Ho. pose proof (ref_size s a R) as Hs. pose proof (ref_range s a R) as Hr. pose proof (ref_pos s a R) as Rp.
  unfold ios_skip. rewrite !decide_True by apply R. cbn [m_step]. rewrite Hs, Rp.
  destruct (Z.eqb_spec offs 0); [by exists s|].
  destruct (Z.ltb_spec 0 offs).
  - destruct (Z.ltb_spec (m_pos a + offs) 0); [lia|]. cbn [orb].
    destruct (Z.leb_spec offs (zlen (m_content a) - m_pos a)), (Z.ltb_spec (zlen (m_content a)) (m_pos a + offs)); try lia; [|by exists s].
    eexists. split; [done|]. apply (ref_goto_same s a _ R). lia.
  - destruct (Z.eqb_spec offs (- 2 ^ 63)); [lia|].
    destruct (Z.ltb_spec (zlen (m_content a)) (m_pos a + offs)); [lia|].
    destruct (Z.leb_spec (- offs) (m_pos a)), (Z.ltb_spec (m_pos a + offs) 0); try lia; cbn [orb]; [|by exists s].
    eexists. split; [done|]. apply (ref_goto s a (m_pos a + offs) false R). lia.
Qed.

Lemma trunc_ref w s a n : refines s a -> 0 <= n <= zlen (m_content a) ->
  exists s', ios_trunc junk alloc_ok patience w s n = Some (0, w, s') /\ refines s' (snd (m_step (Trunc n) a)).
Proof using.
  intros R Hn. pose proof (ref_size s a R) as Hs. pose proof (ref_range s a R) as Hr. pose proof (ref_pos s a R) as Rp.
  unfold ios_trunc. rewrite decide_True by apply R. cbn [m_step snd]. rewrite Hs. destruct (Z.eqb_spec n (zlen (m_content a))) as [->|].
  { exists s. split; [done|]. rewrite take_ge by (unfold zlen; lia). rewrite Z.min_l by lia. by destruct a. }
  destruct (Z.ltb_spec n (zlen (m_content a))); [|lia]. eexists. split; [done|]. rewrite Rp.
  assert (take (Z.to_nat n) (m_content a) = take (Z.to_nat n) (bytes s)) as ->.
  { rewrite <- (ref_content s a R). unfold content. rewrite take_take. f_equal. lia. }
  assert (words 8 (take (Z.to_nat n) (bytes s))) as Hw.
  { pose proof (Forall_take _ (Z.to_nat n) _ (mem_bytes s (ref_inv s a R))) as Hw. rewrite take_take in Hw. by replace (Z.to_nat n `min` Z.to_nat (size s))%nat with (Z.to_nat n) in Hw by lia. }
  destruct R as [[] Rc _ Re Rs].
  destruct (Z.ltb_spec n (m_pos a)); (split; [split; cbn; try done; lia|done|cbn; lia|done|done]).
Qed.

Lemma eof_ref s a : refines s a -> ios_eof s = (if bool_decide (m_state a = bst_rd) && (m_pos a <? zlen (m_content a)) then false else m_eof a).
Proof using.
  intros R. pose proof (ref_size s a R) as Hs. pose proof (mem_bm s (ref_inv s a R)) as Hb. destruct R as [_ _ Rp Re Rs].
  unfold ios_eof. rewrite !(decide_True (P := bm s = bm_mem)) by done. rewrite Hs, Rp, Re, Rs.
  destruct (decide (m_state a = bst_rd)) as [E|E]; [rewrite bool_decide_true by done|rewrite bool_decide_false by done];
    cbn [andb]; by destruct (m_pos a <? zlen (m_content a)), (m_eof a).
Qed.

Lemma write_buf_set_size z s p d : write_buf (set_size z s) p d = (fun s => set_size z s) <$> write_buf s p d.
Proof using. unfold write_buf, set_bytes, bytes. cbn. destruct (buf s); by destruct (blit _ _ _). Qed.

Lemma putc_ref w s a c : refines s a -> in_range 8 c -> zlen (m_content a) < 2 ^ 60 - 1 ->
  exists s', ios_putc junk alloc_ok patience w s c = Some (1, w, s') /\ refines s' (m_write [c] a).
Proof using Hjunk Halloc.
  intros R Hc Hmax. pose proof (ref_range s a R) as Hr. pose proof (ref_size s a R) as Hs. assert (words 8 [c]) as Hw by (by apply Forall_singleton).
  unfold ios_putc. rewrite uw_small by done. rewrite !(bool_decide_false (bm s = _)) by (rewrite (mem_bm s (ref_inv s a R)); done).
  cbn [andb negb]. rewrite andb_true_r. destruct (bool_decide (state s = bst_wr) && (bpos s <? maxsize s)) eqn:E.
  - apply andb_true_iff in E as [E1%bool_decide_eq_true E2%Z.ltb_lt]. destruct (write_buf_ok s _ [c] (ref_inv s a R) Hw ltac:(change (zlen [c]) with 1; lia) eq_refl)
      as (s2 & Ew & I2 & V1 & V2 & V3 & V4 & V5 & V6 & V7).
    rewrite write_buf_set_size in Ew. destruct (write_buf s (bpos s) [c]) as [s1|] eqn:Ew'; [|done]. cbn [fmap option_fmap option_map] in Ew.
    injection Ew as <-. cbn [mbind option_bind]. assert (bpos s1 = bpos s) as Eb by exact V3. assert (size s1 = size s) as Es.
    { unfold write_buf in Ew'. destruct (blit _ _ _); [|done]. cbn in Ew'. injection Ew' as <-. by apply set_bytes_fields. }
    assert (bm (_write_update_pos (set_bpos (bpos s1 + 1) s1)) <> bm_line) as Hbm.
    { pose proof (mem_bm _ I2) as Hb. cbn in Hb. unfold _write_update_pos. cbn [ndirty size bpos set_bpos].
      destruct (_ <? _); cbn [size set_ndirty]; destruct (_ <? _); cbn; by rewrite Hb. }
    rewrite (bool_decide_false _ Hbm). cbn [andb]. eexists. split; [done|].
    change (zlen [c]) with 1 in *.
    assert (refines (set_bpos (bpos s + 1) (set_size (size s `max` (bpos s + 1)) s1)) (m_write [c] a)) as Q.
    { destruct R as [_ Rc Rp Re Rs]. split; [exact I2|..]; cbn [m_write m_content m_pos m_eof m_state].
      - change (content (set_size (size s `max` (bpos s + 1)) s1) = splice (m_content a) (m_pos a) [c]). rewrite V7. congruence.
      - cbn. by rewrite Rp.
      - cbn in V2 |- *. rewrite V2, <- Rs, E1. by rewrite decide_False by done.
      - cbn in V1 |- *. by rewrite V1. }
    unfold _write_update_pos. rewrite Eb. cbn [ndirty size bpos set_bpos set_ndirty].
    assert (forall nd, refines (set_ndirty nd (set_bpos (bpos s + 1) (set_size (size s `max` (bpos s + 1)) s1))) (m_write [c] a)) as Q2.
    { intros nd. destruct Q as [[] Qc Qp Qe Qs]. split; done. }
    assert (set_size (size s) s1 = s1) as Eta by (rewrite <- Es; apply set_size_eta).
    destruct (Z.ltb_spec (ndirty s1) (bpos s + 1)); cbn [size set_ndirty set_bpos bpos]; rewrite ?Es;
      destruct (Z.ltb_spec (size s) (bpos s + 1)).
    + replace (size s `max` (bpos s + 1)) with (bpos s + 1) in Q2 by lia. exact (Q2 (bpos s + 1)).
    + replace (size s `max` (bpos s + 1)) with (size s) in Q2 by lia. rewrite Eta in Q2. exact (Q2 (bpos s + 1)).
    + replace (size s `max` (bpos s + 1)) with (bpos s + 1) in Q by lia. exact Q.
    + replace (size s `max` (bpos s + 1)) with (size s) in Q by lia. rewrite Eta in Q. exact Q.
  - apply write_ref; [done|done|done|]. change (zlen [c]) with 1. lia.
Qed.
End Refine.
