(* ===== verification/IosMemCorrect.v ===== *)
(** * Memory streams: every sequence of operations does what the
    specification says, and lines are cut at their delimiter *)
From S2P Require Import Prelude Utf8 Ios IosMemSpec.

Section Chars.
Context {W : Type} `{OS W}.
Context (junk : Z -> list Z) (alloc_ok : Z -> bool) (patience : nat).
Context (Hjunk : forall n, 0 <= n -> zlen (junk n) = n) (Halloc : forall n, alloc_ok n = true).
Implicit Types (w : W) (s : ios_t) (a : mstream).

Lemma rest_cons s a : refines s a -> bpos s < size s -> exists ch t, m_rest a = ch :: t /\ read_buf s (bpos s) 1 = Some [ch].
Proof using.
  intros R Hlt. pose proof (ref_range s a R) as Hr. pose proof (ref_size s a R) as Hs. pose proof (ref_pos s a R) as Hp.
  pose proof (rest_len a Hr) as Hl. destruct (m_rest a) as [|ch t] eqn:E; [change (zlen []) with 0 in Hl; lia|]. exists ch, t. split; [done|].
  rewrite read_buf_ok by (try apply R; lia). rewrite (ref_content s a R), Hp. fold (m_rest a). by rewrite E.
Qed.

Lemma rest_nil s a : refines s a -> size s <= bpos s -> m_rest a = [].
Proof using.
  intros R Hle. pose proof (ref_range s a R) as Hr. pose proof (rest_len a Hr) as Hl. pose proof (ref_size s a R). pose proof (ref_pos s a R).
  apply nil_length_inv. unfold zlen in *. lia.
Qed.

Lemma ref_count s a c : refines s a -> refines (count_line c s) a.
Proof using. intros [[] ? ? ? ?]. unfold count_line. destruct (c =? 10); (split; [by split|done..]). Qed.

Lemma getc_ref w s a : refines s a ->
  exists s', ios_getc patience w s = Some (fst (fst (m_step Getc a)), w, s') /\ refines s' (snd (m_step Getc a)).
Proof using.
  intros R. pose proof (ref_size s a R) as Hs. pose proof (ref_pos s a R) as Hp. pose proof (ref_range s a R) as Hr.
  unfold ios_getc. cbn [m_step]. rewrite (ref_state s a R), (ref_eof s a R), Hp, Hs.
  destruct (bool_decide (m_state a = bst_rd) && (m_pos a <? zlen (m_content a))) eqn:E.
  - rewrite andb_false_r. apply andb_true_iff in E as [E1%bool_decide_eq_true E2%Z.ltb_lt].
    destruct (rest_cons s a R) as (ch & t & Et & Er); [lia|]. rewrite Hp in Er. rewrite Er, Et. cbn [mbind option_bind get nth].
    eexists. split; [done|]. cbn [fst snd]. rewrite decide_False by congruence. apply ref_count.
    pose proof (ref_goto_same s a (m_pos a + 1) R ltac:(lia)) as Q. unfold m_seek in Q. by rewrite E1 in Q.
  - rewrite andb_true_r. destruct (m_eof a) eqn:Ee; [by exists s|]. cbn [andb].
    destruct (read_ref patience w s a 1 R ltac:(lia)) as (s1 & -> & R1). unfold m_read in *. cbn [fst snd] in *. cbn [mbind option_bind].
    rewrite Ee in R1. destruct (m_rest a) as [|ch t] eqn:Et.
    + cbn [take Z.to_nat Pos.to_nat]. rewrite take_nil. change (zlen [] <? 1) with true. cbv iota. eexists. split; [done|]. cbn [fst snd].
      rewrite take_nil in R1. change (zlen []) with 0 in R1. rewrite Z.add_0_r in R1. by rewrite orb_true_r in R1.
    + change (take (Z.to_nat 1) (ch :: t)) with [ch] in *. change (zlen [ch]) with 1 in *. cbn [Z.ltb]. change (1 <? 1) with false. cbv iota.
      change (get [ch] 0) with ch. eexists. split; [done|]. cbn [fst snd]. apply ref_count.
      assert ((zlen (ch :: t) =? 0) = false) as Ez by (apply Z.eqb_neq; unfold zlen; cbn [length]; lia).
      rewrite Ez, andb_false_r, orb_false_r in R1. exact R1.
Qed.

Lemma peekc_ref w s a : refines s a ->
  exists s', ios_peekc junk alloc_ok patience w s = Some (fst (fst (m_step Peekc a)), w, s') /\ refines s' (snd (m_step Peekc a)).
Proof using.
  intros R. pose proof (mem_bm s (ref_inv s a R)) as Hb. pose proof (mem_max s (ref_inv s a R)). pose proof (mem_size s (ref_inv s a R)).
  pose proof (mem_bpos s (ref_inv s a R)). unfold ios_peekc. cbn [m_step]. destruct (Z.ltb_spec (bpos s) (size s)).
  - destruct (rest_cons s a R) as (ch & t & -> & ->); [done|]. by exists s.
  - rewrite (rest_nil s a R) by done. cbn [fst snd]. rewrite (ref_eof s a R). destruct (m_eof a) eqn:Ee; [by exists s|].
    unfold ios_readprep. rewrite !(bool_decide_true (bm s = bm_mem)) by done. rewrite andb_false_r. cbn [mbind option_bind].
    rewrite bool_decide_true by done. rewrite orb_true_r. cbn [orb]. rewrite uw_small by (unfold in_range; lia).
    assert (size s - bpos s = 0) as -> by lia. cbn [mbind option_bind Z.eqb]. eexists. split; [done|].
    destruct R as [[] ? ? ? ?]. split; [by split|done|done|cbn; congruence|done].
Qed.

Lemma set_bytes_twice l1 l2 s : set_bytes l2 (set_bytes l1 s) = set_bytes l2 s.
Proof using. unfold set_bytes. destruct s as [b]. by destruct b. Qed.

(** The position and contents after a change of the buffer at [p]. *)
Lemma ungetc_ref s a c : refines s a -> in_range 8 c -> zlen (m_content a) < 2 ^ 60 - 1 ->
  exists s', ios_ungetc junk alloc_ok s c = Some (fst (fst (m_step (Ungetc c) a)), s') /\ refines s' (snd (m_step (Ungetc c) a)).
Proof using Hjunk Halloc.
  intros R Hc Hmax. pose proof (ref_size s a R) as Hs. pose proof (ref_pos s a R) as Hp. pose proof (ref_range s a R) as Hr.
  assert (words 8 [c]) as Hw by (by apply Forall_singleton). unfold ios_ungetc. cbn [m_step]. rewrite (ref_state s a R).
  destruct (decide (m_state a = bst_wr)); [by exists s|].
  set (s0 := if c =? 10 then set_lineno (u64 (lineno s - 1)) s else s).
  assert (refines s0 a) as R0 by (unfold s0; destruct R as [[] ? ? ? ?], (c =? 10); (split; [by split|done..])).
  set (s1 := if 0 <? u_colno s0 then set_u_colno (u_colno s0 - 1) s0 else s0).
  assert (refines s1 a) as R1 by (unfold s1; destruct R0 as [[] ? ? ? ?], (0 <? u_colno s0); (split; [by split|done..])).
  clearbody s0 s1. clear s0 R0 s R Hs Hp. rename s1 into s, R1 into R.
  pose proof (ref_size s a R) as Hs. pose proof (ref_pos s a R) as Hp. rewrite Hp. destruct (Z.ltb_spec 0 (m_pos a)).
  - set (s1 := set_bpos (m_pos a - 1) s). assert (refines s1 (m_seek (m_pos a - 1) (m_eof a) a)) as R1 by (apply ref_goto_same; [done|lia]).
    pose proof (ref_inv _ _ R1) as I1. pose proof (mem_size s (ref_inv s a R)).
    destruct (rest_cons s1 _ R1) as (ch & t & Et & Er); [cbn; lia|].
    rewrite Er. cbn [mbind option_bind]. change (get [ch] 0) with ch. rewrite (uw_small 8 c) by done.
    assert (forall s2, mem_inv s2 -> content s2 = splice (m_content a) (m_pos a - 1) [c] -> bpos s2 = m_pos a - 1 -> state s2 = m_state a ->
      refines (set_eof false s2) {| m_content := splice (m_content a) (m_pos a - 1) [c]; m_pos := m_pos a - 1; m_eof := false; m_state := m_state a |}) as Hfin
      by (intros s2 [] ? ? ?; split; [by split|done..]).
    assert (ch = c -> splice (m_content a) (m_pos a - 1) [c] = m_content a) as Heq.
    { intros ->. unfold m_rest, m_seek in Et. cbn [m_pos m_content] in Et. unfold splice. cbn [length].
      rewrite <- (take_drop (Z.to_nat (m_pos a - 1)) (m_content a)) at 3. f_equal. rewrite Et. cbn [app]. f_equal.
      rewrite <- drop_drop, Et. done. }
    destruct (Z.eqb_spec ch c) as [Ech|Hne]; cbn [negb mbind option_bind].
    + eexists. split; [done|]. cbn [snd]. apply Hfin; [done| |done|apply R1]. rewrite (Heq Ech). apply R1.
    + destruct (write_buf_ok s1 _ [c] I1 Hw ltac:(change (zlen [c]) with 1; cbn; lia) eq_refl) as (s2 & Ew & I2 & V1 & V2 & V3 & V4 & V5 & V6 & V7).
      change (zlen [c]) with 1 in *. change (bpos s1) with (m_pos a - 1) in *. change (size s1) with (size s) in *.
      replace (Z.max (size s) (m_pos a - 1 + 1)) with (size s1) in * by (change (size s1) with (size s); lia). rewrite set_size_eta in Ew. rewrite Ew.
      cbn [mbind option_bind]. eexists. split; [done|]. cbn [snd]. apply Hfin; [|rewrite V7; f_equal; apply R1|done|rewrite V1; apply R1].
      pose proof (mem_bpos _ I2) as Hb2. destruct I2. split; try done. rewrite V3. cbn in Hb2. lia.
  - assert (m_pos a = 0) as Hp0 by lia.
    assert (exists s1, (if size s =? maxsize s then _buf_realloc junk alloc_ok s (u64 (maxsize s * 2)) else Some (true, s)) = Some (true, s1) /\
      refines s1 a /\ size s1 < maxsize s1) as (s1 & -> & R1 & Hlt).
    { pose proof (mem_size s (ref_inv s a R)). destruct (Z.eqb_spec (size s) (maxsize s)) as [E|]; [|exists s; split; [done|]; split; [done|lia]].
      rewrite uw_small by (unfold in_range; lia).
      destruct (buf_realloc_ok junk alloc_ok Hjunk Halloc s (maxsize s * 2) (ref_inv s a R) ltac:(lia)) as (s1 & -> & I1 & (U1 & U2 & U3 & U4 & _) & Ec & Hm).
      pose proof (mem_max s (ref_inv s a R)) as Hm0.
      exists s1. split; [done|]. destruct R as [_ Rc Rp Re Rs]. split; [split; congruence|].
      lia. }
    cbn [negb mbind option_bind]. clear Hs Hp. pose proof (ref_size s1 a R1) as Hs. pose proof (ref_inv s1 a R1) as I1.
    pose proof (mem_len s1 I1) as Hl. pose proof (content_len s1 I1) as Hcl. pose proof (mem_max s1 I1).
    unfold memmove, read_buf. rewrite slice_ok by lia. rewrite drop_0. fold (content s1). cbn [mbind option_bind].
    unfold write_buf. rewrite (blit_ok (bytes s1)) by lia. cbn [mbind option_bind]. set (l1 := splice (bytes s1) 1 (content s1)).
    assert (zlen l1 = zlen (bytes s1)) as Hl1 by (apply splice_length; lia).
    rewrite (bytes_set_bytes l1 s1) by apply I1. rewrite blit_ok by (change (zlen [u8 c]) with 1; lia). cbn [mbind option_bind].
    rewrite (uw_small 8 c) by done. set (l2 := splice l1 0 [c]).
    assert (zlen l2 = zlen l1) as Hl2 by (apply splice_length; change (zlen [c]) with 1; lia).
    assert (take (Z.to_nat (size s1 + 1)) l2 = c :: content s1) as Ht.
    { unfold l2, splice. change (take (Z.to_nat 0) l1) with (@nil Z). cbn [app length Z.to_nat Nat.add].
      replace (Z.to_nat (size s1 + 1)) with (S (Z.to_nat (size s1))) by lia. cbn [take]. f_equal. unfold l1, splice.
      rewrite drop_app_length' by (rewrite length_take; unfold zlen in *; lia). apply take_app_length'. unfold zlen in *. lia. }
    assert (words 8 (content s1)) as Hwc by apply I1.
    rewrite set_bytes_twice. destruct (set_bytes_inv s1 l2 (size s1 + 1) I1 ltac:(congruence)) as (I2 & Ec2);
      [pose proof (mem_bpos s1 I1); lia|rewrite Ht; by constructor|].
    rewrite (proj1 (proj2 (proj2 (proj2 (set_bytes_fields l2 s1))))). eexists. split; [done|]. cbn [snd].
    pose proof (set_bytes_fields l2 s1) as (_ & F2 & _ & _ & F5 & _). rewrite Ht in Ec2. destruct R1 as [_ Rc Rp Re Rs].
    split; [by destruct I2; split|etrans; [exact Ec2|cbn; congruence]|cbn; congruence|done|cbn; congruence].
Qed.
End Chars.

Section Correct.
Context {W : Type} `{OS W}.
Context (junk : Z -> list Z) (alloc_ok : Z -> bool) (patience : nat).
Context (Hjunk : forall n, 0 <= n -> zlen (junk n) = n) (Halloc : forall n, alloc_ok n = true).
Implicit Types (w : W) (s : ios_t) (a : mstream).

Lemma exec_ref c w s a : refines s a -> cmd_ok c a ->
  exists s', exec junk alloc_ok patience c w s = Some (fst (m_step c a), w, s') /\ refines s' (snd (m_step c a)).
Proof using Hjunk Halloc.
  intros R [Hmax Hok]. destruct c as [d|n|pos| |offs| | |n|c| | |c]; cbn [exec].
  - destruct Hok as [Hd Hfit]. destruct d as [|x d].
    + exists s. unfold ios_write. cbn [ios_write_rec]. by rewrite (mem_writable s (ref_inv s a R)).
    + destruct (write_ref junk alloc_ok patience Hjunk Halloc w s a (x :: d) R Hd) as (s' & -> & R'); [unfold zlen; cbn [length]; lia|done|].
      by exists s'.
  - by apply read_ref.
  - destruct (seek_ref patience w s a pos R) as (s' & -> & R'). exists s'. split; [|done]. cbn [m_step mbind option_bind fst]. by destruct (_ || _).
  - destruct (seek_end_ref patience w s a R) as (s' & -> & R'). by exists s'.
  - destruct (skip_ref patience w s a offs R Hok) as (s' & -> & R'). exists s'. split; [|done].
    cbn [m_step mbind option_bind]. destruct (offs =? 0); [done|]. by destruct (_ || _).
  - unfold ios_pos. rewrite decide_True by apply R. exists s. split; [cbn; by rewrite (ref_pos s a R)|done].
  - exists s. split; [cbn; by rewrite (eof_ref s a R)|done].
  - destruct (trunc_ref junk alloc_ok patience w s a n R Hok) as (s' & -> & R'). by exists s'.
  - destruct (putc_ref junk alloc_ok patience Hjunk Halloc w s a c R Hok Hmax) as (s' & -> & R'). by exists s'.
  - destruct (getc_ref patience w s a R) as (s' & -> & R'). exists s'. split; [|done].
    cbn [m_step mbind option_bind]. destruct (_ && _); [done|]. by destruct (m_rest a).
  - destruct (peekc_ref junk alloc_ok patience w s a R) as (s' & -> & R'). exists s'. split; [|done].
    cbn [m_step mbind option_bind]. by destruct (m_rest a).
  - destruct (ungetc_ref junk alloc_ok Hjunk Halloc s a c R Hok Hmax) as (s' & -> & R'). exists s'. split; [|done].
    cbn [m_step mbind option_bind]. destruct (decide _); [done|]. by destruct (0 <? m_pos a).
Qed.

Lemma exec_all_ref cs : forall w s a, refines s a -> cmds_ok cs a ->
  exists s', exec_all junk alloc_ok patience cs w s = Some (fst (m_steps cs a), w, s') /\ refines s' (snd (m_steps cs a)).
Proof using Hjunk Halloc.
  induction cs as [|c cs IH]; intros w s a R Hok; [by exists s|]. destruct Hok as [H1 H2]. cbn [exec_all m_steps].
  destruct (exec_ref c w s a R H1) as (s1 & -> & R1). cbn [mbind option_bind]. destruct (m_step c a) as [r a1]. cbn [fst snd] in *.
  destruct (IH w s1 a1 R1 H2) as (s2 & -> & R2). destruct (m_steps cs a1). by exists s2.
Qed.

Definition m_empty (e : bool) (st : bufstate_t) : mstream := {| m_content := []; m_pos := 0; m_eof := e; m_state := st |}.

Lemma mem_ref n : 0 <= n < 2 ^ 62 -> exists s, ios_mem junk alloc_ok n = Some s /\ refines s (m_empty false bst_none).
Proof using Hjunk Halloc.
  intros Hn. unfold ios_mem, _buf_realloc. rewrite Halloc. cbn. pose proof (Hjunk 83 ltac:(lia)) as Hj.
  destruct (Z.leb_spec n IOS_INLSIZE) as [Hle|Hle]; unfold IOS_INLSIZE in *; cbn.
  - eexists. split; [done|]. split; [|done..]. split; try done; cbn in *; try lia. constructor.
  - destruct (Z.leb_spec n 0); [lia|]. cbn. eexists. split; [done|]. pose proof (Hjunk (n - 0) ltac:(lia)) as Hj2. change (zlen []) with 0.
    rewrite Z.sub_0_r in *. split; [|done..]. split; try done; unfold bytes; cbn in *; try lia. constructor.
Qed.

(** The bytes of a stream that gives its buffer away, and the NUL after them. *)
Lemma take_buffer_ref w s a : refines s a -> zlen (m_content a) < 2 ^ 60 -> exists b s',
  ios_take_buffer junk alloc_ok patience w s = Some (Some (b, zlen (m_content a) + 1), w, s') /\
  take (Z.to_nat (zlen (m_content a) + 1)) b = m_content a ++ [0] /\ refines s' (m_empty (m_eof a) (m_state a)).
Proof using Hjunk Halloc.
  intros R Hmax. pose proof (ref_inv s a R) as I. pose proof (content_len s I) as Hc. pose proof (mem_len s I) as Hl. pose proof (mem_size s I) as Hs.
  pose proof (mem_bpos s I) as Hb. unfold ios_take_buffer, ios_flush. rewrite bool_decide_true by apply I. rewrite orb_true_r. cbn [orb mbind option_bind].
  rewrite !Halloc. assert (forall s b, size s = zlen (m_content a) -> zlen (m_content a) + 1 <= zlen b -> take (Z.to_nat (size s)) b = m_content a ->
    exists b', blit b (size s) [0] = Some b' /\ take (Z.to_nat (zlen (m_content a) + 1)) b' = m_content a ++ [0]) as Hblit.
  { intros s1 b Es Hlen Hb1. rewrite blit_ok by (change (zlen [0]) with 1; unfold zlen in *; lia). eexists. split; [done|]. unfold splice. rewrite Hb1, app_assoc.
    apply take_app_length'. rewrite length_app. unfold zlen. cbn [length]. lia. }
  assert (exists s', _buf_init junk alloc_ok s (bm s) = Some s' /\ refines s' (m_empty (m_eof a) (m_state a))) as (s' & Ei & Ri).
  { unfold _buf_init. rewrite (mem_bm s I). eexists. split; [done|]. destruct R as [[] Rc Rp Re Rs].
    split; [|done..]. split; try done; cbn; try lia. constructor. }
  pose proof (ref_size s a R) as Hs'. pose proof (ref_content s a R) as Hc'. unfold read_buf. rewrite slice_ok by lia.
  rewrite drop_0. fold (content s). rewrite Hc'. cbn [mbind option_bind].
  assert (forall b, zlen (m_content a) + 1 <= zlen b -> take (Z.to_nat (size s)) b = m_content a -> exists b' s',
    (b ← blit b (size s) [0]; s0 ← _buf_init junk alloc_ok s (bm s); Some (Some (b, size s + 1), w, s0)) =
      Some (Some (b', zlen (m_content a) + 1), w, s') /\ take (Z.to_nat (zlen (m_content a) + 1)) b' = m_content a ++ [0] /\
      refines s' (m_empty (m_eof a) (m_state a))) as Hfin.
  { intros b Hlen Ht. destruct (Hblit s b Hs' Hlen Ht) as (b' & -> & Hb'). cbn [mbind option_bind]. rewrite Ei. cbn [mbind option_bind].
    exists b', s'. by rewrite Hs'. }
  destruct (is_local s || is_null s || (negb (ownbuf s) && (size s =? maxsize s))); cbn [mbind option_bind].
  - apply Hfin; [pose proof (Hjunk 1 ltac:(lia)); unfold zlen in *; rewrite length_app; lia|]. rewrite Hs'. apply take_app_length'. unfold zlen. lia.
  - destruct (Z.eqb_spec (size s) (maxsize s)); cbn [mbind option_bind].
    + apply Hfin; [pose proof (Hjunk (size s + 1 - zlen (bytes s)) ltac:(lia)); unfold zlen in *; rewrite length_app; lia|].
      rewrite take_app_le by (unfold zlen in *; lia). exact Hc'.
    + apply Hfin; [lia|exact Hc'].
Qed.
End Correct.

(** C14: memory streams are lists of bytes with a position. A stream that
    [ios_mem] makes is empty; every sequence of writes, reads, seeks, skips,
    truncations, and characters written, read, peeked at and pushed back gives
    the results and leaves the contents, the position and the end-of-file answer
    that the specification gives, and calls the system never; [ios_take_buffer]
    hands out the contents with a NUL and empties the stream. *)
Theorem ios_mem_correct {W} `{OS W} junk alloc_ok patience :
  (forall n, 0 <= n -> zlen (junk n) = n) -> (forall n, alloc_ok n = true) ->
  (forall n, 0 <= n < 2 ^ 62 -> exists s, ios_mem junk alloc_ok n = Some s /\ refines s (m_empty false bst_none)) /\
  (forall cs w s a, refines s a -> cmds_ok cs a ->
     exists s', exec_all junk alloc_ok patience cs w s = Some (fst (m_steps cs a), w, s') /\ refines s' (snd (m_steps cs a))) /\
  (forall w s a, refines s a -> zlen (m_content a) < 2 ^ 60 -> exists b s',
     ios_take_buffer junk alloc_ok patience w s = Some (Some (b, zlen (m_content a) + 1), w, s') /\
     take (Z.to_nat (zlen (m_content a) + 1)) b = m_content a ++ [0] /\ refines s' (m_empty (m_eof a) (m_state a))).
Proof.
  intros Hj Ha. split_and!; [by apply mem_ref|by apply exec_all_ref|by apply take_buffer_ref].
Qed.

(** The conditions as a test. *)
Definition cmd_okb (c : cmd) (a : mstream) : bool :=
  (zlen (m_content a) <? 2 ^ 60 - 1) &&
  match c with
  | Write d => forallb (in_rangeb 8) d && (m_pos a + zlen d <? 2 ^ 60)
  | Read n => 0 <=? n
  | Skip offs => - 2 ^ 63 <? offs
  | Trunc n => (0 <=? n) && (n <=? zlen (m_content a))
  | Putc c | Ungetc c => in_rangeb 8 c
  | _ => true
  end.
Fixpoint cmds_okb (cs : list cmd) (a : mstream) : bool :=
  match cs with [] => true | c :: cs => cmd_okb c a && cmds_okb cs (snd (m_step c a)) end.

Lemma in_rangeb_ok w x : in_rangeb w x = true -> in_range w x.
Proof. unfold in_rangeb, in_range. intros [? ?]%andb_true_iff. lia. Qed.

Lemma wordsb_ok w l : forallb (in_rangeb w) l = true -> words w l.
Proof. intros E. apply Forall_forall. intros x Hx. apply in_rangeb_ok. rewrite forallb_forall in E. by apply E, list_elem_of_In. Qed.

Lemma cmds_okb_ok cs a : cmds_okb cs a = true -> cmds_ok cs a.
Proof.
  revert a. induction cs as [|c cs IH]; intros a E; cbn [cmds_ok cmds_okb] in *; [done|]. apply andb_true_iff in E as [E1 E2].
  split; [|by apply IH]. apply andb_true_iff in E1 as [E1%Z.ltb_lt E3]. split; [done|]. destruct c; try done; try lia.
  - apply andb_true_iff in E3 as [E3 E4]. split; [by apply wordsb_ok|lia].
  - by apply in_rangeb_ok.
  - by apply in_rangeb_ok.
Qed.

Definition test_junk (n : Z) : list Z := replicate (Z.to_nat n) 0xcd.
Lemma test_junk_length n : 0 <= n -> zlen (test_junk n) = n.
Proof. intros. unfold test_junk, zlen. rewrite length_replicate. lia. Qed.

Lemma ios_mem_correct_witness : exists s' : ios_t,
  let cs := [Write [104; 105; 33]; Seek 1; Putc 97; Read 5; Eof; Ungetc 63; Getc; Seek 4] in
  cmds_ok cs (m_empty false bst_none) /\
  m_steps cs (m_empty false bst_none) =
    ([(3, []); (0, []); (1, []); (1, [33]); (0, []); (63, []); (63, []); (-2, [])],
     {| m_content := [104; 97; 63]; m_pos := 3; m_eof := false; m_state := bst_rd |}) /\
  refines s' {| m_content := [104; 97; 63]; m_pos := 3; m_eof := false; m_state := bst_rd |}.
Proof.
  destruct (ios_mem_correct (H := no_os) test_junk (fun _ => true) 1 test_junk_length (fun _ => eq_refl)) as (Hm & Hr & _).
  destruct (Hm 0 ltac:(lia)) as (s & _ & R).
  assert (cmds_ok [Write [104; 105; 33]; Seek 1; Putc 97; Read 5; Eof; Ungetc 63; Getc; Seek 4] (m_empty false bst_none)) as Hok.
  { apply cmds_okb_ok. vm_compute. reflexivity. }
  destruct (Hr _ tt s _ R Hok) as (s' & _ & R'). exists s'. split; [exact Hok|]. split; [reflexivity|exact R'].
Defined.
