(* ===== verification/IosLines.v ===== *)
(** * Memory streams: copying up to a delimiter, and reading lines *)
From S2P Require Import Prelude Utf8 Ios IosMemSpec IosMemCorrect.

(** [memchr] finds the first occurrence. *)
Lemma memchr_none c l : memchr c l = None -> c ∉ l.
Proof.
  induction l as [|x l IH]; cbn [memchr]; [intros _; apply not_elem_of_nil|]. destruct (Z.eqb_spec x c); [done|].
  destruct (memchr c l); [done|]. intros _. apply not_elem_of_cons. split; [done|]. by apply IH.
Qed.
Lemma memchr_app c l t : c ∉ l -> memchr c (l ++ c :: t) = Some (length l).
Proof.
  induction l as [|x l IH]; intros Hl; cbn [app memchr length]; [by rewrite Z.eqb_refl|].
  apply not_elem_of_cons in Hl as [Hx Hl]. destruct (Z.eqb_spec x c); [congruence|]. by rewrite IH.
Qed.
Lemma memchr_notin c l : c ∉ l -> memchr c l = None.
Proof.
  induction l as [|x l IH]; intros Hl; cbn [memchr]; [done|]. apply not_elem_of_cons in Hl as [Hx Hl].
  destruct (Z.eqb_spec x c); [congruence|]. by rewrite IH.
Qed.

(** A delimiter splits a list at its first occurrence. *)
Lemma split_at c (l : list Z) : (c ∉ l) \/ exists a b, l = a ++ c :: b /\ c ∉ a.
Proof.
  induction l as [|x l IH]; [left; apply not_elem_of_nil|]. destruct (Z.eq_dec x c) as [->|Hx]; [right; exists [], l; split; [done|apply not_elem_of_nil]|].
  destruct IH as [Hn|(a & b & -> & Ha)]; [left; by apply not_elem_of_cons|right; exists (x :: a), b; split; [done|by apply not_elem_of_cons]].
Qed.

Section Lines.
Context {W : Type} `{OS W}.
Context (junk : Z -> list Z) (alloc_ok : Z -> bool) (patience : nat).
Context (Hjunk : forall n, 0 <= n -> zlen (junk n) = n) (Halloc : forall n, alloc_ok n = true).
Implicit Types (w : W) (s to from : ios_t) (a b : mstream).

(** What [ios_write] of any data does. *)
Definition m_put (d : list Z) (a : mstream) : mstream := match d with [] => a | _ => m_write d a end.

Lemma put_ref w s a d : refines s a -> words 8 d -> m_pos a + zlen d < 2 ^ 60 ->
  exists s', ios_write junk alloc_ok patience w s d = Some (zlen d, w, s') /\ refines s' (m_put d a).
Proof using Hjunk Halloc.
  intros R Hd Hm. destruct d as [|x d]; [exists s; unfold ios_write; cbn [ios_write_rec]; by rewrite (mem_writable s (ref_inv s a R))|].
  by apply write_ref.
Qed.

Lemma readprep_ref w s a n : refines s a -> exists s', ios_readprep junk alloc_ok patience w s n = Some (size s - bpos s, w, s') /\
  refines s' {| m_content := m_content a; m_pos := m_pos a; m_eof := m_eof a; m_state := bst_rd |}.
Proof using.
  intros R. pose proof (ref_inv s a R) as I. pose proof (mem_bpos s I). pose proof (mem_size s I). pose proof (mem_max s I). unfold ios_readprep.
  rewrite !(bool_decide_true (bm s = bm_mem)) by apply I. rewrite andb_false_r. cbn [mbind option_bind].
  rewrite (bool_decide_true (bm (set_state _ s) = bm_mem)) by apply I. rewrite orb_true_r. cbn [orb]. rewrite uw_small by (unfold in_range; lia).
  eexists. split; [done|]. destruct R as [[] Rc Rp Re Rs]. split; [by split|done..].
Qed.

Lemma words_rest s a : refines s a -> words 8 (m_rest a).
Proof using. intros R. unfold m_rest. apply Forall_drop. rewrite <- (ref_content s a R). apply (mem_bytes s), R. Qed.

End Lines.

(** The bytes before the first delimiter. *)
Fixpoint until (c : Z) (l : list Z) : option (list Z) :=
  match l with [] => None | x :: l => if x =? c then Some [] else cons x <$> until c l end.
Lemma until_app c l t : c ∉ l -> until c (l ++ c :: t) = Some l.
Proof.
  induction l as [|x l IH]; intros Hl; cbn [app until]; [by rewrite Z.eqb_refl|].
  apply not_elem_of_cons in Hl as [Hx Hl]. destruct (Z.eqb_spec x c); [congruence|]. by rewrite IH.
Qed.
Lemma until_notin c l : c ∉ l -> until c l = None.
Proof.
  induction l as [|x l IH]; intros Hl; cbn [until]; [done|]. apply not_elem_of_cons in Hl as [Hx Hl].
  destruct (Z.eqb_spec x c); [congruence|]. by rewrite IH.
Qed.

(** What a copy up to [delim] writes, and what it leaves: with [keep] the
    delimiter is copied too, without it is skipped. *)
Definition m_copyuntil (delim : Z) (keep : bool) (a : mstream) : list Z * mstream :=
  if (if bool_decide (m_state a = bst_rd) && (m_pos a <? zlen (m_content a)) then false else m_eof a)
  then ([], m_seek (m_pos a) true a)
  else match until delim (m_rest a) with
       | Some l => (l ++ (if keep then [delim] else []), m_seek (m_pos a + zlen l + 1) (m_eof a) a)
       | None => (m_rest a, {| m_content := m_content a; m_pos := zlen (m_content a); m_eof := true; m_state := bst_rd |})
       end.

Section Copy.
Context {W : Type} `{OS W}.
Context (junk : Z -> list Z) (alloc_ok : Z -> bool) (patience : nat).
Context (Hjunk : forall n, 0 <= n -> zlen (junk n) = n) (Halloc : forall n, alloc_ok n = true).
Implicit Types (w : W) (s to from : ios_t) (a b : mstream).

(** Nothing is left: the loop stops at once. *)
Lemma copyuntil_end w to from a fuel delim keep total : refines from a -> m_pos a = zlen (m_content a) -> m_state a = bst_rd \/ m_eof a = false ->
  exists from', copyuntil_loop junk alloc_ok patience (S fuel) w to from delim keep total 0 = Some (total, w, to, from') /\
    refines from' {| m_content := m_content a; m_pos := zlen (m_content a); m_eof := true; m_state := bst_rd |}.
Proof using.
  intros R Hp Hst. cbn [copyuntil_loop]. rewrite (eof_ref from a R). rewrite Hp, Z.ltb_irrefl, andb_false_r.
  assert (forall s st, refines s {| m_content := m_content a; m_pos := m_pos a; m_eof := m_eof a; m_state := st |} -> st = bst_rd ->
    refines (set_eof true s) {| m_content := m_content a; m_pos := zlen (m_content a); m_eof := true; m_state := bst_rd |}) as Hfin.
  { intros s st [[] Rc Rp Re Rs] ->. rewrite Hp in Rp. split; [by split|done..]. }
  destruct (m_eof a) eqn:Ee.
  - destruct Hst as [Hst|]; [|done]. eexists. split; [done|]. apply (Hfin from (m_state a)); [|done]. rewrite <- Ee. by destruct a.
  - destruct (Z.eqb_spec 0 0); [|done]. destruct (readprep_ref junk alloc_ok patience w from a LINE_CHUNK_SIZE R) as (s1 & -> & R1). cbn [mbind option_bind].
    rewrite (ref_size from a R), (ref_pos from a R), Hp, Z.sub_diag. destruct (Z.eqb_spec 0 0); [|done].
    eexists. split; [done|]. rewrite Ee in R1. by apply (Hfin s1 bst_rd).
Qed.

Lemma copyuntil_ref fuel w to from b a delim keep : refines to b -> refines from a -> in_range 8 delim ->
  m_pos b + zlen (m_content a) < 2 ^ 60 -> (2 <= fuel)%nat ->
  exists to' from', ios_copyuntil junk alloc_ok patience fuel w to from delim keep =
      Some (zlen (fst (m_copyuntil delim keep a)), w, to', from') /\
    refines to' (m_put (fst (m_copyuntil delim keep a)) b) /\ refines from' (snd (m_copyuntil delim keep a)).
Proof using Hjunk Halloc.
  intros Rt R Hd Hm Hf. pose proof (ref_inv from a R) as I. pose proof (mem_bpos from I). pose proof (mem_size from I). pose proof (mem_max from I).
  pose proof (ref_size from a R) as Hs. pose proof (ref_pos from a R) as Hp. pose proof (ref_range from a R) as Hr. pose proof (rest_len a Hr) as Hl.
  pose proof (words_rest from a R) as Hw. unfold ios_copyuntil, m_copyuntil. rewrite uw_small by (unfold in_range; lia).
  destruct fuel as [|[|fuel]]; [lia..|]. set (eofq := if bool_decide _ && _ then false else m_eof a) in *.
  assert (ios_eof from = eofq) as Eeof by (by apply eof_ref).
  destruct (Z.eq_dec (size from - bpos from) 0) as [E0|E0].
  - rewrite E0. assert (m_rest a = []) as Er by (apply nil_length_inv; unfold zlen in *; lia). rewrite Er. cbn [until].
    destruct eofq eqn:Eq; cbn [fst snd].
    + remember (S fuel) as f. cbn [copyuntil_loop]. rewrite Eeof. exists to, (set_eof true from). split; [done|]. split; [done|].
      destruct R as [[] Rc Rp Re Rs]. split; [by split|done..].
    + destruct (copyuntil_end w to from a (S fuel) delim keep 0 R) as (from' & -> & R'); [lia| |by exists to, from'].
      right. unfold eofq in Eq. destruct (bool_decide _ && _) eqn:Eb; [|done].
      apply andb_true_iff in Eb as [_ Eb%Z.ltb_lt]. lia.
  - remember (S fuel) as f eqn:Ef. cbn [copyuntil_loop]. rewrite Eeof. destruct eofq eqn:Eq; cbn [fst snd].
    { exists to, (set_eof true from). split; [done|]. split; [done|]. destruct R as [[] Rc Rp Re Rs]. split; [by split|done..]. }
    destruct (Z.eqb_spec (size from - bpos from) 0); [done|]. cbn [mbind option_bind].
    destruct (Z.eqb_spec (size from - bpos from) 0); [done|]. rewrite read_buf_ok by (try done; lia).
    rewrite (ref_content from a R), Hp. fold (m_rest a). rewrite (take_ge (m_rest a)) by (unfold zlen in *; lia). cbn [mbind option_bind].
    rewrite (uw_small 8 delim) by done. destruct (split_at delim (m_rest a)) as [Hn|(l & t & El & Hn)].
    + rewrite (memchr_notin _ _ Hn), (until_notin _ _ Hn). cbn [fst snd].
      destruct (put_ref junk alloc_ok patience Hjunk Halloc w to b (m_rest a) Rt Hw ltac:(lia)) as (to' & -> & Rt'). cbn [mbind option_bind].
      pose proof (ref_goto_same from a (m_pos a + (size from - m_pos a)) R ltac:(lia)) as R1.
      destruct (copyuntil_end w to' _ _ fuel delim keep (0 + zlen (m_rest a)) R1) as (from' & E' & R'); [cbn [m_pos m_content m_seek]; lia| |].
      { unfold eofq in Eq. destruct (bool_decide (m_state a = bst_rd)) eqn:Eb; [left; by apply bool_decide_eq_true in Eb|right; exact Eq]. }
      exists to', from'. subst f. split; [exact E'|]. by split.
    + rewrite El, (memchr_app _ _ _ Hn), (until_app _ _ _ Hn). cbn [fst snd].
      assert (zlen (m_rest a) = zlen l + 1 + zlen t) as Hlen by (rewrite El; unfold zlen; rewrite length_app; cbn [length]; lia).
      pose proof (zlen_nonneg l). pose proof (zlen_nonneg t).
      assert (take (Z.to_nat (Z.of_nat (length l) + b2z keep)) (m_rest a) = l ++ (if keep then [delim] else [])) as Et.
      { rewrite El. replace (l ++ delim :: t) with ((l ++ [delim]) ++ t) by (by rewrite <- app_assoc). destruct keep; cbn [b2z].
        - apply take_app_length'. rewrite length_app. cbn [length]. lia.
        - rewrite <- app_assoc, app_nil_r. apply take_app_length'. lia. }
      rewrite <- Hp. rewrite read_buf_ok by (try done; unfold zlen in *; destruct keep; cbn [b2z]; lia).
      rewrite (ref_content from a R), Hp. fold (m_rest a). rewrite Et. cbn [mbind option_bind].
      assert (words 8 (l ++ (if keep then [delim] else []))) as Hw' by (rewrite <- Et; by apply Forall_take).
      assert (zlen (l ++ (if keep then [delim] else [])) = zlen l + b2z keep) as Hlw by (unfold zlen; rewrite length_app; destruct keep; cbn [length b2z]; lia).
      destruct (put_ref junk alloc_ok patience Hjunk Halloc w to b _ Rt Hw' ltac:(destruct keep; cbn [b2z] in *; lia)) as (to' & -> & Rt').
      cbn [mbind option_bind]. rewrite Z.add_0_l. eexists to', _. split; [done|]. split; [done|].
      replace (m_pos a + (Z.of_nat (length l) + b2z keep + b2z (negb keep))) with (m_pos a + zlen l + 1) by (unfold zlen; destruct keep; cbn [b2z negb]; lia).
      apply ref_goto_same; [done|lia].
Qed.

Lemma close_ref w s a : refines s a -> exists s', ios_close patience w s = Some (0, w, s').
Proof using.
  intros R. unfold ios_close, ios_flush. rewrite bool_decide_true by apply R. rewrite orb_true_r. cbn [orb mbind option_bind].
  rewrite (mem_fd s (ref_inv s a R)). cbn. by eexists.
Qed.

Lemma readline_ref fuel w s a : refines s a -> zlen (m_content a) < 2 ^ 59 -> (2 <= fuel)%nat ->
  exists (b : list Z) s', ios_readline junk alloc_ok patience fuel w s =
      Some (Some (b, zlen (fst (m_copyuntil 10 true a)) + 1), w, s') /\
    take (Z.to_nat (zlen (fst (m_copyuntil 10 true a)) + 1)) b = fst (m_copyuntil 10 true a) ++ [0] /\
    refines s' (snd (m_copyuntil 10 true a)).
Proof using Hjunk Halloc.
  intros R Hm Hf. unfold ios_readline. destruct (mem_ref junk alloc_ok Hjunk Halloc 0 ltac:(lia)) as (dest & -> & Rd). cbn [mbind option_bind].
  destruct (copyuntil_ref fuel w dest s _ a 10 true Rd R) as (dest' & s' & -> & Rd' & R'); [done|cbn [m_empty m_pos]; lia|done|]. cbn [mbind option_bind].
  set (line := fst (m_copyuntil 10 true a)) in *.
  assert (m_content (m_put line (m_empty false bst_none)) = line) as Ec.
  { destruct line as [|x l]; [done|]. cbn [m_put m_write m_content m_empty m_pos]. apply (splice_end []). }
  assert (zlen line < 2 ^ 60) as Hl.
  { pose proof (ref_range s a R) as Hr. pose proof (rest_len a Hr) as Hrl. pose proof (zlen_nonneg (m_rest a)). unfold line, m_copyuntil.
    destruct (if bool_decide _ && _ then false else m_eof a); [cbn [fst]; change (zlen []) with 0; lia|]. destruct (split_at 10 (m_rest a)) as [Hn|(l & t & El & Hn)].
    - rewrite (until_notin _ _ Hn). cbn [fst]. lia.
    - rewrite El, (until_app _ _ _ Hn). cbn [fst]. rewrite El in Hrl. unfold zlen in *. rewrite length_app in *. cbn [length] in *. lia. }
  destruct (take_buffer_ref junk alloc_ok patience Hjunk Halloc w dest' _ Rd') as (b & d2 & -> & Hb & Rd2); [by rewrite Ec|]. rewrite Ec in *.
  cbn [mbind option_bind]. destruct (close_ref w d2 _ Rd2) as (d3 & ->). cbn [mbind option_bind]. by exists b, s'.
Qed.
End Copy.

(** [ios_copyuntil] between memory streams ends, and copies exactly the
    bytes up to the first delimiter (with it or without it), leaving the source
    just after it; when there is none it copies everything that is left and
    reports the end of the source; at the end of the source it copies nothing.
    [ios_readline] returns such a line with a NUL after it. *)
Lemma ios_copyuntil_correct {W} `{OS W} junk alloc_ok patience :
  (forall n, 0 <= n -> zlen (junk n) = n) -> (forall n, alloc_ok n = true) ->
  (forall fuel w to from b a delim keep, refines to b -> refines from a -> in_range 8 delim ->
     m_pos b + zlen (m_content a) < 2 ^ 60 -> (2 <= fuel)%nat ->
     exists to' from', ios_copyuntil junk alloc_ok patience fuel w to from delim keep =
         Some (zlen (fst (m_copyuntil delim keep a)), w, to', from') /\
       refines to' (m_put (fst (m_copyuntil delim keep a)) b) /\ refines from' (snd (m_copyuntil delim keep a))) /\
  (forall fuel w s a, refines s a -> zlen (m_content a) < 2 ^ 59 -> (2 <= fuel)%nat ->
     exists b s', ios_readline junk alloc_ok patience fuel w s = Some (Some (b, zlen (fst (m_copyuntil 10 true a)) + 1), w, s') /\
       take (Z.to_nat (zlen (fst (m_copyuntil 10 true a)) + 1)) b = fst (m_copyuntil 10 true a) ++ [0] /\
       refines s' (snd (m_copyuntil 10 true a))) /\
  (forall delim keep a l t, m_rest a = l ++ delim :: t -> delim ∉ l -> m_eof a = false ->
     m_copyuntil delim keep a = (l ++ (if keep then [delim] else []), m_seek (m_pos a + zlen l + 1) false a)).
Proof.
  intros Hj Ha. split_and!; [by apply copyuntil_ref|by apply readline_ref|]. intros delim keep a l t El Hn He.
  unfold m_copyuntil. rewrite He, El, (until_app _ _ _ Hn). by destruct (_ && _).
Qed.

