(* ===== verification/IosFile.v ===== *)
(** * Streams over a descriptor: what is written arrives once and in order,
    what is read comes once and in order *)
From S2P Require Import Prelude Utf8 Ios IosMemSpec.

Lemma slice_all l n : n = zlen l -> slice l 0 n = Some l.
Proof. intros ->. rewrite slice_ok by (try apply zlen_nonneg; lia). rewrite drop_0, take_ge by (unfold zlen; lia). done. Qed.

Lemma zlen_app l k : zlen (l ++ k) = zlen l + zlen k.
Proof. unfold zlen. rewrite length_app. lia. Qed.

Lemma zlen_0 l : zlen l = 0 -> l = [].
Proof. intros E. apply nil_length_inv. unfold zlen in E. lia. Qed.

Lemma memrchr_split c l i : memrchr c l = Some i -> exists a b, l = a ++ c :: b /\ length a = i /\ c ∉ b.
Proof.
  revert i. induction l as [|x l IH]; intros i; cbn [memrchr]; [done|]. destruct (memrchr c l) as [j|] eqn:E.
  - intros Hi. injection Hi as <-. destruct (IH j eq_refl) as (a & b & -> & <- & Hb). by exists (x :: a), b.
  - destruct (Z.eqb_spec x c) as [->|]; [|done]. intros Hi. injection Hi as <-. exists [], l. split_and!; [done..|].
    clear IH. induction l as [|y l IH]; [apply not_elem_of_nil|]. cbn [memrchr] in E. destruct (memrchr c l); [done|].
    destruct (Z.eqb_spec y c); [done|]. apply not_elem_of_cons. split; [done|by apply IH].
Qed.
Lemma memrchr_none c l : memrchr c l = None -> c ∉ l.
Proof.
  induction l as [|y l IH]; intros E; [apply not_elem_of_nil|]. cbn [memrchr] in E. destruct (memrchr c l); [done|].
  destruct (Z.eqb_spec y c); [done|]. apply not_elem_of_cons. split; [done|by apply IH].
Qed.

(** ** Writing *)

Section Write.
Context {W : Type} `{OS W}.
Context (junk : Z -> list Z) (alloc_ok : Z -> bool) (patience : nat) (f : Z).

(** A descriptor that takes bytes: [out w] is what it has received, [busy w] a
    bound on the interruptions before the next call goes through. A call may
    take fewer bytes than it is given, but not none. *)
Record sink (out : W -> list Z) (busy : W -> nat) : Prop := {
  sink_busy w : (busy w < patience)%nat;
  sink_write w d : d <> [] -> match sys_write w f d with
    | (inl r, w') => 0 < r <= zlen d /\ out w' = out w ++ take (Z.to_nat r) d
    | (inr e, w') => _enonfatal e = true /\ out w' = out w /\ (busy w' < busy w)%nat
    end;
}.
Context (out : W -> list Z) (busy : W -> nat) (Hsink : sink out busy).

Lemma os_write_ok fuel w d : d <> [] -> (busy w < fuel)%nat ->
  exists r w', _os_write fuel w f d = Some (None, r, w') /\ 0 < r <= zlen d /\ out w' = out w ++ take (Z.to_nat r) d.
Proof using Hsink.
  intros Hd. revert w. induction fuel as [|fuel IH]; intros w Hb; [lia|]. cbn [_os_write].
  pose proof (sink_write _ _ Hsink w d Hd) as Hw. destruct (sys_write w f d) as [[r|e] w']; [by exists r, w'|].
  destruct Hw as (-> & Ho & Hlt). destruct (IH w' ltac:(lia)) as (r & w2 & E & Hr & Ho2). exists r, w2. by rewrite Ho in Ho2.
Qed.

Lemma os_write_all_ok' fuel w d : (length d < fuel)%nat -> exists w', _os_write_all patience fuel w f d = Some (None, zlen d, w') /\ out w' = out w ++ d.
Proof using Hsink.
  revert w d. induction fuel as [|fuel IH]; intros w d Hf; [lia|]. cbn [_os_write_all]. destruct d as [|x d]; [exists w; by rewrite app_nil_r|].
  destruct (os_write_ok patience w (x :: d) ltac:(done) (sink_busy _ _ Hsink w)) as (r & w1 & -> & Hr & Ho). cbn [mbind option_bind].
  destruct (IH w1 (drop (Z.to_nat r) (x :: d))) as (w2 & -> & Ho2); [rewrite length_drop; cbn [length] in *; lia|]. cbn [mbind option_bind].
  exists w2. split; [|by rewrite Ho2, Ho, <- app_assoc, take_drop]. do 3 f_equal. unfold zlen in *. rewrite length_drop. lia.
Qed.
Lemma os_write_all_ok w d : exists w', os_write_all patience w f d = Some (None, zlen d, w') /\ out w' = out w ++ d.
Proof using Hsink. apply os_write_all_ok'. lia. Qed.

(** A stream that has only been written to; the bytes that wait in its buffer. *)
Record wr_inv (s : ios_t) : Prop := {
  wr_fd : fd s = f;
  wr_fd_ok : f <> -1;
  wr_bm : bm s <> bm_mem;
  wr_state : state s <> bst_rd;
  wr_writable : writable s = true;
  wr_buf : buf s <> NULL;
  wr_len : zlen (bytes s) = maxsize s;
  wr_max : 16 <= maxsize s < 2 ^ 62;
  wr_bpos : 0 <= bpos s <= maxsize s;
  wr_size : size s = bpos s;
  wr_ndirty : ndirty s = bpos s;
  wr_dirty : state s = bst_none -> bpos s = 0;
  wr_line : bm s = bm_line -> 10 ∉ take (Z.to_nat (bpos s)) (bytes s);
  wr_none : bm s = bm_none -> bpos s = 0;
}.
Definition pending (s : ios_t) : list Z := take (Z.to_nat (bpos s)) (bytes s).

Lemma pending_len s : wr_inv s -> zlen (pending s) = bpos s.
Proof using. intros []. unfold pending, zlen in *. rewrite length_take. lia. Qed.

Lemma flush_ok w s : wr_inv s -> exists w' s', ios_flush patience w s = Some (0, w', s') /\ wr_inv s' /\
  out w' = out w ++ pending s /\ bpos s' = 0 /\ bm s' = bm s /\ state s' = state s /\ maxsize s' = maxsize s.
Proof using Hsink.
  intros I. pose proof I as [F1 F2 F3 F4 F5 F6 F7 F8 F9 F10 F11 F12 F13 F14]. unfold ios_flush. rewrite bool_decide_false by done.
  assert (is_null s = false) as -> by (unfold is_null; by destruct (buf s)). rewrite !orb_false_r.
  destruct (Z.eqb_spec (ndirty s) 0) as [E0|E0].
  { exists w, s. split; [done|]. split; [done|]. split_and!; [|lia|done..]. unfold pending. rewrite <- F11, E0. by rewrite app_nil_r. }
  rewrite F1. destruct (Z.eqb_spec f (-1)); [done|]. rewrite decide_False by done.
  assert (state s = bst_wr) as Est by (destruct (state s) eqn:Es; [specialize (F12 eq_refl); lia|done|done]).
  unfold read_buf. cbn [set_fpos]. change (bytes (set_fpos (-1) s)) with (bytes s). rewrite slice_ok by lia. rewrite drop_0. cbn [mbind option_bind].
  rewrite F11. fold (pending s). change (fd (set_fpos (-1) s)) with (fd s). rewrite F1.
  destruct (os_write_all_ok w (pending s)) as (w1 & -> & Ho). cbn [mbind option_bind]. rewrite (pending_len s I).
  change (state (set_fpos (-1) s)) with (state s). rewrite Est. change (bpos (set_fpos (-1) s)) with (bpos s). rewrite Z.eqb_refl.
  change (ndirty (set_fpos (-1) s)) with (ndirty s). change (size (set_fpos (-1) s)) with (size s). rewrite F10, F11, Z.ltb_irrefl.
  cbn [mbind option_bind]. eexists w1, _. split; [done|].
  split; [|split_and!; done]. split; cbn; try done; try lia. intros _. apply not_elem_of_nil.
Qed.

(** Bytes that fit, put after those that wait. *)
Lemma append_ok s d : wr_inv s -> state s = bst_wr -> bpos s + zlen d <= maxsize s ->
  (bm s = bm_line -> 10 ∉ d) -> (bm s <> bm_none) ->
  exists s1, write_buf s (bpos s) d = Some s1 /\ let s' := _write_update_pos (set_bpos (bpos s1 + zlen d) s1) in
    wr_inv s' /\ pending s' = pending s ++ d /\ bm s' = bm s /\ state s' = bst_wr /\ bpos s' = bpos s + zlen d /\ maxsize s' = maxsize s.
Proof using.
  intros I Hst Hfit Hnl Hbn. pose proof I as [F1 F2 F3 F4 F5 F6 F7 F8 F9 F10 F11 F12 F13 F14]. pose proof (zlen_nonneg d) as Hd.
  unfold write_buf. rewrite blit_ok by lia. cbn [mbind option_bind]. set (l := splice (bytes s) (bpos s) d). eexists. split; [done|]. cbv zeta.
  destruct (set_bytes_fields l s) as (G1 & G2 & G3 & G4 & G5 & G6 & G7 & G8 & G9 & G10 & G11 & G12).
  assert (bytes (set_bytes l s) = l) as Gb by (by apply bytes_set_bytes). pose proof (set_bytes_buf l s F6) as Gn.
  assert (zlen l = zlen (bytes s)) as Gl by (apply splice_length; lia).
  assert (take (Z.to_nat (bpos s + zlen d)) l = pending s ++ d) as Ht.
  { unfold l, splice, pending. rewrite app_assoc. apply take_app_length'. unfold zlen in *. rewrite length_app, length_take. lia. }
  unfold _write_update_pos. cbn [ndirty size bpos set_bpos]. rewrite G5, G6, F11.
  assert (forall s', fd s' = f -> bm s' = bm s -> state s' = bst_wr -> writable s' = true -> buf s' <> NULL -> bytes s' = l -> maxsize s' = maxsize s ->
    bpos s' = bpos s + zlen d -> size s' = bpos s + zlen d -> ndirty s' = bpos s + zlen d ->
    wr_inv s' /\ pending s' = pending s ++ d /\ bm s' = bm s /\ state s' = bst_wr /\ bpos s' = bpos s + zlen d /\ maxsize s' = maxsize s) as Hfin.
  { intros s' E1 E2 E3 E4 E5 E6 E7 E8 E9 E10. assert (pending s' = pending s ++ d) as Ep by (unfold pending at 1; by rewrite E6, E8).
    split_and!; try done. split; rewrite ?E1, ?E2, ?E3, ?E4, ?E6, ?E7, ?E8, ?E9, ?E10; try done; try lia.
    intros Hl. rewrite Ht. rewrite elem_of_app. intros [Hin|Hin]; [by apply (F13 Hl)|by apply (Hnl Hl)]. }
  destruct (Z.eqb_spec (zlen d) 0) as [E0|E0].
  - replace (bpos s + zlen d) with (bpos s) in * by lia. rewrite Z.ltb_irrefl. cbn [size set_bpos]. rewrite G4, F10, Z.ltb_irrefl.
    apply Hfin; [exact (eq_trans G11 F1)|exact G1|exact (eq_trans G2 Hst)|exact (eq_trans G7 F5)|exact Gn|exact Gb|exact G3|done|exact (eq_trans G4 F10)|exact (eq_trans G6 F11)].
  - destruct (Z.ltb_spec (bpos s) (bpos s + zlen d)); [|lia]. cbn [size bpos set_bpos set_ndirty]. rewrite G4, F10.
    destruct (Z.ltb_spec (bpos s) (bpos s + zlen d)); [|lia].
    apply Hfin; [exact (eq_trans G11 F1)|exact G1|exact (eq_trans G2 Hst)|exact (eq_trans G7 F5)|exact Gn|exact Gb|exact G3|done..].
Qed.

Lemma wr_inv_bm m s : wr_inv s -> m <> bm_mem -> (m = bm_line -> 10 ∉ pending s) -> (m = bm_none -> bpos s = 0) -> wr_inv (set_bm m s).
Proof using. intros [] ? ? ?. by split. Qed.
Lemma wr_inv_wr s : wr_inv s -> wr_inv (set_state bst_wr s).
Proof using. intros []. by split. Qed.

(** The start of a write. *)
Lemma write_rec_eq fuel w s d : wr_inv s -> 0 < zlen d ->
  ios_write_rec junk alloc_ok patience (S fuel) w s d =
  (let s := set_state bst_wr s in
   match bm s with
   | bm_none => let s := set_fpos (-1) s in '(_, wrote, w) ← os_write_all patience w (fd s) d; Some (wrote, w, s)
   | _ =>
       if zlen d <=? maxsize s - bpos s then
         '(wrote, d, w, s) ← (match bm s, memrchr 10 d with
           | bm_line, Some i =>
               '(r, w, s) ← ios_write_rec junk alloc_ok patience fuel w (set_bm bm_block s) (take (S i) d);
               '(_, w, s) ← ios_flush patience w s;
               Some (r, drop (S i) d, w, set_bm bm_line s)
           | _, _ => Some (0, d, w, s)
           end);
         s ← write_buf s (bpos s) d;
         Some (wrote + zlen d, w, _write_update_pos (set_bpos (bpos s + zlen d) s))
       else
         '(_, w, s) ← ios_flush patience w s;
         if MOST_OF (maxsize s) <? zlen d then
           let s := set_fpos (-1) s in '(_, wrote, w) ← os_write_all patience w (fd s) d; Some (wrote, w, s)
         else ios_write_rec junk alloc_ok patience fuel w s d
   end).
Proof using.
  intros I Hd. pose proof I as [F1 F2 F3 F4 F5 F6 F7 F8 F9 F10 F11 F12 F13 F14]. cbn [ios_write_rec]. rewrite F5. cbn [negb].
  destruct (Z.eqb_spec (zlen d) 0); [lia|]. rewrite decide_False by done. cbn [mbind option_bind].
  change (maxsize (set_state bst_wr s)) with (maxsize s). change (bpos (set_state bst_wr s)) with (bpos s).
  rewrite uw_small by (unfold in_range; lia). change (bm (set_state bst_wr s)) with (bm s). by destruct (bm s).
Qed.

Lemma write_0 fuel w s : ios_write_rec junk alloc_ok patience (S fuel) w s [] = Some (0, w, s).
Proof using. cbn [ios_write_rec]. by destruct (negb (writable s)). Qed.

(** What a write achieves. *)
Definition wrote (w : W) (s : ios_t) (d : list Z) (w' : W) (s' : ios_t) : Prop :=
  wr_inv s' /\ out w' ++ pending s' = (out w ++ pending s) ++ d /\ bm s' = bm s /\ maxsize s' = maxsize s /\
  (state s = bst_wr -> state s' = bst_wr).

Lemma block_fits fuel w s d : wr_inv s -> bm s = bm_block -> bpos s + zlen d <= maxsize s ->
  exists s', ios_write_rec junk alloc_ok patience (S fuel) w s d = Some (zlen d, w, s') /\ wrote w s d w s'.
Proof using.
  intros I Hb Hfit. destruct (Z.eq_dec (zlen d) 0) as [E0|]; [|pose proof (zlen_nonneg d)].
  { rewrite (zlen_0 d E0). exists s. split; [apply write_0|]. split_and!; [done|by rewrite app_nil_r|done..]. }
  rewrite write_rec_eq by (try done; lia). cbv zeta. change (bm (set_state bst_wr s)) with (bm s). rewrite Hb.
  change (maxsize (set_state bst_wr s)) with (maxsize s). change (bpos (set_state bst_wr s)) with (bpos s).
  destruct (Z.leb_spec (zlen d) (maxsize s - bpos s)); [|lia]. cbn [mbind option_bind].
  destruct (append_ok (set_state bst_wr s) d (wr_inv_wr s I) eq_refl Hfit) as (s1 & E & I1 & P1 & B1 & T1 & _ & M1); [cbn; congruence..|].
  change (bpos (set_state bst_wr s)) with (bpos s) in E. change (bpos (set_state bst_wr s)) with (bpos s). rewrite E. cbn [mbind option_bind]. eexists. split; [done|].
  split_and!; [done| |cbn in B1; congruence|done|done]. rewrite P1. change (pending (set_state bst_wr s)) with (pending s). by rewrite app_assoc.
Qed.

Lemma line_fits fuel w s d : wr_inv s -> bm s = bm_line -> bpos s + zlen d <= maxsize s ->
  exists w' s', ios_write_rec junk alloc_ok patience (S (S fuel)) w s d = Some (zlen d, w', s') /\ wrote w s d w' s'.
Proof using Hsink.
  intros I Hb Hfit. destruct (Z.eq_dec (zlen d) 0) as [E0|]; [|pose proof (zlen_nonneg d)].
  { rewrite (zlen_0 d E0). exists w, s. split; [apply write_0|]. split_and!; [done|by rewrite app_nil_r|done..]. }
  rewrite write_rec_eq by (try done; lia). cbv zeta. change (bm (set_state bst_wr s)) with (bm s). rewrite Hb.
  change (maxsize (set_state bst_wr s)) with (maxsize s). change (bpos (set_state bst_wr s)) with (bpos s).
  destruct (Z.leb_spec (zlen d) (maxsize s - bpos s)); [|lia]. destruct (memrchr 10 d) as [i|] eqn:Em.
  - destruct (memrchr_split _ _ _ Em) as (x & y & Ed & Hx & Hy).
    assert (take (S i) d = x ++ [10]) as Et by (rewrite Ed, <- Hx; replace (x ++ 10 :: y) with ((x ++ [10]) ++ y) by (by rewrite <- app_assoc);
      apply take_app_length'; rewrite length_app; cbn; lia).
    assert (drop (S i) d = y) as Ey by (rewrite Ed, <- Hx; replace (x ++ 10 :: y) with ((x ++ [10]) ++ y) by (by rewrite <- app_assoc);
      apply drop_app_length'; rewrite length_app; cbn; lia).
    assert (zlen d = zlen (x ++ [10]) + zlen y) as Hlen by (rewrite Ed; unfold zlen; rewrite !length_app; cbn [length]; lia).
    pose proof (zlen_nonneg y). pose proof (zlen_nonneg (x ++ [10])). rewrite Et, Ey.
    set (s0 := set_bm bm_block (set_state bst_wr s)). assert (wr_inv s0) as I0 by (apply wr_inv_bm; [by apply wr_inv_wr|done..]).
    destruct (block_fits fuel w s0 (x ++ [10]) I0 eq_refl) as (s1 & -> & I1 & O1 & B1 & M1 & T1); [cbn; lia|]. cbn [mbind option_bind].
    destruct (flush_ok w s1 I1) as (w2 & s2 & -> & I2 & O2 & P2 & B2 & S2 & M2). cbn [mbind option_bind].
    assert (wr_inv (set_bm bm_line s2)) as I3.
    { apply wr_inv_bm; [done..| |done]. intros _. unfold pending. rewrite P2. apply not_elem_of_nil. }
    assert (state s2 = bst_wr) as T2 by (rewrite S2; apply T1; done).
    destruct (append_ok (set_bm bm_line s2) y I3 T2) as (s3 & E3 & I4 & P4 & B4 & T4 & _ & M4);
      [cbn; pose proof (wr_bpos s I); cbn in M1; lia|done|done|].
    rewrite E3. cbn [mbind option_bind]. rewrite Hlen. eexists w2, _. split; [done|].
    split_and!; [done| |cbn in B4; congruence|cbn in M4, M1; congruence|done].
    rewrite P4. change (pending (set_bm bm_line s2)) with (pending s2). assert (pending s2 = []) as -> by (unfold pending; by rewrite P2).
    rewrite O2, O1. change (pending s0) with (pending s). rewrite Ed. by rewrite <- !app_assoc.
  - destruct (append_ok (set_state bst_wr s) d (wr_inv_wr s I) eq_refl Hfit) as (s1 & E & I1 & P1 & B1 & T1 & _ & M1);
      [intros _; by apply memrchr_none|cbn; congruence|].
    cbn [mbind option_bind]. change (bpos (set_state bst_wr s)) with (bpos s) in E. change (bpos (set_state bst_wr s)) with (bpos s).
    rewrite E. cbn [mbind option_bind]. eexists w, _. split; [done|].
    split_and!; [done| |cbn in B1; congruence|done|done]. rewrite P1. change (pending (set_state bst_wr s)) with (pending s). by rewrite app_assoc.
Qed.

(** Data that does not fit: flush, then write it directly or into the empty buffer. *)
Lemma write_after_flush fuel w s d : wr_inv s -> bm s <> bm_none ->
  exists w' s', ('(_, w, s) ← ios_flush patience w s;
     if MOST_OF (maxsize s) <? zlen d then
       let s := set_fpos (-1) s in '(_, wrote, w) ← os_write_all patience w (fd s) d; Some (wrote, w, s)
     else ios_write_rec junk alloc_ok patience (S (S fuel)) w s d) = Some (zlen d, w', s') /\ wrote w s d w' s'.
Proof using Hsink.
  intros I Hb. destruct (flush_ok w s I) as (w1 & s1 & -> & I1 & O1 & P1 & B1 & T1 & M1). cbn [mbind option_bind].
  assert (pending s1 = []) as Ep by (unfold pending; by rewrite P1). pose proof (wr_max s1 I1).
  destruct (Z.ltb_spec (MOST_OF (maxsize s1)) (zlen d)).
  - cbv zeta. change (fd (set_fpos (-1) s1)) with (fd s1). rewrite (wr_fd s1 I1).
    destruct (os_write_all_ok w1 d) as (w2 & -> & O2). cbn [mbind option_bind]. eexists w2, _. split; [done|].
    split_and!; [destruct I1; by split| |done|done|cbn; congruence]. change (pending (set_fpos (-1) s1)) with (pending s1).
    by rewrite Ep, O2, O1, app_nil_r.
  - assert (bpos s1 + zlen d <= maxsize s1) as Hfit.
    { unfold MOST_OF in *. rewrite Z.shiftr_div_pow2 in * by lia. pose proof (Z.div_pos (maxsize s1) (2 ^ 4) ltac:(lia) ltac:(lia)). lia. }
    assert (exists w' s', ios_write_rec junk alloc_ok patience (S (S fuel)) w1 s1 d = Some (zlen d, w', s') /\ wrote w1 s1 d w' s')
      as (w2 & s2 & -> & I2 & O2 & B2 & M2 & T2).
    { destruct (bm s) eqn:Eb; try done.
      - by apply line_fits.
      - destruct (block_fits (S fuel) w1 s1 d I1 B1 Hfit) as (s2 & ? & ?). by exists w1, s2.
      - by destruct (wr_bm s I). }
    eexists w2, s2. split; [done|]. split_and!; [done| |congruence|congruence|]. { by rewrite O2, O1, Ep, app_nil_r. }
    intros E. apply T2. congruence.
Qed.

Lemma write_ok w s d : wr_inv s -> exists w' s', ios_write junk alloc_ok patience w s d = Some (zlen d, w', s') /\ wrote w s d w' s'.
Proof using Hsink.
  intros I. unfold ios_write. destruct (Z.eq_dec (zlen d) 0) as [E0|]; [|pose proof (zlen_nonneg d)].
  { rewrite (zlen_0 d E0). exists w, s. split; [apply write_0|]. split_and!; [done|by rewrite app_nil_r|done..]. }
  destruct (bm s) eqn:Eb.
  - rewrite write_rec_eq by (try done; lia). cbv zeta. change (bm (set_state bst_wr s)) with (bm s). rewrite Eb.
    change (fd (set_fpos (-1) (set_state bst_wr s))) with (fd s). rewrite (wr_fd s I).
    destruct (os_write_all_ok w d) as (w2 & -> & O2). cbn [mbind option_bind]. eexists w2, _. split; [done|].
    assert (pending s = []) as Ep by (unfold pending; by rewrite (wr_none s I Eb)).
    split_and!; [destruct I; by split| |done..]. change (pending (set_fpos (-1) (set_state bst_wr s))) with (pending s).
    by rewrite Ep, O2, !app_nil_r.
  - destruct (Z.leb_spec (zlen d) (maxsize s - bpos s)); [apply line_fits; [done..|lia]|].
    rewrite write_rec_eq by (try done; lia). cbv zeta. change (bm (set_state bst_wr s)) with (bm s). rewrite Eb.
    change (maxsize (set_state bst_wr s)) with (maxsize s). change (bpos (set_state bst_wr s)) with (bpos s).
    destruct (Z.leb_spec (zlen d) (maxsize s - bpos s)); [lia|].
    destruct (write_after_flush 1 w (set_state bst_wr s) d (wr_inv_wr s I)) as (w' & s' & E & Hw); [cbn; congruence|]. exists w', s'.
    split; [exact E|]. destruct Hw as (? & ? & ? & ? & Ht). split_and!; try done. intros _. by apply Ht.
  - destruct (Z.leb_spec (zlen d) (maxsize s - bpos s)).
    { destruct (block_fits 3 w s d I Eb ltac:(lia)) as (s' & ? & ?). by exists w, s'. }
    rewrite write_rec_eq by (try done; lia). cbv zeta. change (bm (set_state bst_wr s)) with (bm s). rewrite Eb.
    change (maxsize (set_state bst_wr s)) with (maxsize s). change (bpos (set_state bst_wr s)) with (bpos s).
    destruct (Z.leb_spec (zlen d) (maxsize s - bpos s)); [lia|].
    destruct (write_after_flush 1 w (set_state bst_wr s) d (wr_inv_wr s I)) as (w' & s' & E & Hw); [cbn; congruence|]. exists w', s'.
    split; [exact E|]. destruct Hw as (? & ? & ? & ? & Ht). split_and!; try done. intros _. by apply Ht.
  - by destruct (wr_bm s I).
Qed.

(** A flush does not look at the mode, nor change it. *)
Lemma flush_set_bm w s m : bm s <> bm_mem -> m <> bm_mem ->
  ios_flush patience w (set_bm m s) = '(r, w, s) ← ios_flush patience w s; Some (r, w, set_bm m s).
Proof using.
  intros H1 H2. unfold ios_flush. rewrite !bool_decide_false by done. change (ndirty (set_bm m s)) with (ndirty s).
  change (is_null (set_bm m s)) with (is_null s). change (fd (set_bm m s)) with (fd s). destruct ((ndirty s =? 0) || false || is_null s); [done|].
  destruct (fd s =? -1); [done|]. change (state (set_bm m s)) with (state s). change (size (set_bm m s)) with (size s).
  set (w1 := if decide (state s = bst_rd) then _ else w). unfold read_buf, memmove, write_buf.
  change (bytes (set_fpos (-1) (set_bm m s))) with (bytes s). change (bytes (set_fpos (-1) s)) with (bytes s).
  destruct (slice (bytes s) 0 (ndirty s)) as [d|]; [|done]. cbn [mbind option_bind]. change (fd (set_fpos (-1) (set_bm m s))) with (fd s).
  change (fd (set_fpos (-1) s)) with (fd s). destruct (os_write_all patience w1 (fd s) d) as [[[err nw] w2]|]; [|done]. cbn [mbind option_bind].
  change (state (set_fpos (-1) (set_bm m s))) with (state s). change (state (set_fpos (-1) s)) with (state s).
  destruct (state s); [done|done|]. cbn [ndirty size bpos set_fpos set_bm].
  change (read_buf (set_fpos (-1) (set_bm m s)) (ndirty s) (size s - ndirty s)) with (read_buf s (ndirty s) (size s - ndirty s)).
  destruct (ndirty s <? size s); [|done]. unfold read_buf.
  change (bytes (set_fpos (-1) (set_bm m s))) with (bytes s). change (bytes (set_fpos (-1) s)) with (bytes s).
  destruct (slice (bytes s) (ndirty s) _) as [d2|]; [|done]. cbn [mbind option_bind].
  destruct (blit (bytes s) 0 d2) as [l|]; [|done]. cbn [mbind option_bind]. unfold set_bytes. cbn [buf set_fpos set_bm]. by destruct (buf s).
Qed.

Lemma putc_ok w s c : wr_inv s -> in_range 8 c ->
  exists w' s', ios_putc junk alloc_ok patience w s c = Some (1, w', s') /\ wrote w s [c] w' s'.
Proof using Hsink.
  intros I Hc. unfold ios_putc. rewrite uw_small by done. destruct (bool_decide (state s = bst_wr)) eqn:Es; cbn [andb]; [|by apply write_ok].
  destruct (Z.ltb_spec (bpos s) (maxsize s)); cbn [andb]; [|by apply write_ok].
  destruct (bool_decide (bm s = bm_none)) eqn:En; cbn [negb]; [by apply write_ok|].
  apply bool_decide_eq_true in Es. apply bool_decide_eq_false in En.
  destruct (append_ok (set_bm bm_block s) [c] ltac:(by apply wr_inv_bm) Es) as (s1 & E & I1 & P1 & B1 & T1 & Q1 & M1);
    [change (zlen [c]) with 1; cbn; lia|done|done|].
  change (zlen [c]) with 1 in *. change (pending (set_bm bm_block s)) with (pending s) in P1.
  assert (exists s2, write_buf s (bpos s) [c] = Some s2 /\ _write_update_pos (set_bpos (bpos s2 + 1) s2) =
    set_bm (bm s) (_write_update_pos (set_bpos (bpos s1 + 1) s1))) as (s2 & -> & Eu).
  { unfold write_buf in *. change (bytes (set_bm bm_block s)) with (bytes s) in E. change (bpos (set_bm bm_block s)) with (bpos s) in E.
    destruct (blit (bytes s) (bpos s) [c]) as [l|]; [|done]. cbn [mbind option_bind] in *. injection E as <-. eexists. split; [done|].
    unfold set_bytes, _write_update_pos. cbn [buf set_bm]. destruct (buf s) eqn:Eb; cbn; repeat case_match; cbn in *; try done; destruct s; cbn in *; subst; done || lia. }
  cbn [mbind option_bind]. cbv zeta. rewrite Eu. set (s3 := _write_update_pos _) in *.
  assert (out w ++ pending s3 = (out w ++ pending s) ++ [c]) as Eo by (by rewrite P1, app_assoc).
  destruct (bool_decide (bm (set_bm (bm s) s3) = bm_line) && (c =? 10)) eqn:El.
  - rewrite flush_set_bm by (try apply I; by rewrite B1). destruct (flush_ok w s3 I1) as (w4 & s4 & -> & I4 & O4 & P4 & B4 & T4 & M4).
    cbn [mbind option_bind]. eexists w4, _. split; [done|]. assert (pending s4 = []) as Ep by (unfold pending; by rewrite P4).
    split_and!; [apply wr_inv_bm; [done|apply I|rewrite Ep; intros _; apply not_elem_of_nil|done]| |done|cbn in *; congruence|cbn; congruence].
    change (pending (set_bm (bm s) s4)) with (pending s4). by rewrite Ep, O4, app_nil_r.
  - eexists w, _. split; [done|]. split_and!; [|exact Eo|done|cbn in *; congruence|done].
    apply wr_inv_bm; [done|apply I| |done]. intros Hl. rewrite P1, elem_of_app, list_elem_of_singleton. intros [Hin|Hin].
    + by apply (wr_line s I Hl).
    + subst c. rewrite bool_decide_true in El by (exact Hl). done.
Qed.
End Write.

(** ** Reading *)

Section Read.
Context {W : Type} `{OS W}.
Context (junk : Z -> list Z) (alloc_ok : Z -> bool) (patience : nat) (f : Z).

(** A descriptor that gives bytes: [src w] is what is left to read. A call may
    give fewer bytes than asked for, and none only at the end. *)
Record source (src : W -> list Z) (busy : W -> nat) : Prop := {
  source_busy w : (busy w < patience)%nat;
  source_read w n : 0 < n -> match sys_read w f n with
    | (inl l, w') => src w = l ++ src w' /\ zlen l <= n /\ (l = [] -> src w = [])
    | (inr e, w') => (e = EAGAIN \/ e = EINTR) /\ src w' = src w /\ (busy w' < busy w)%nat
    end;
}.
Context (src : W -> list Z) (busy : W -> nat) (Hsrc : source src busy).

Lemma os_read_ok fuel w n : 0 < n -> (busy w < fuel)%nat ->
  exists l w', _os_read fuel w f n = Some (None, l, w') /\ src w = l ++ src w' /\ zlen l <= n /\ (l = [] -> src w = []).
Proof using Hsrc.
  intros Hn. revert w. induction fuel as [|fuel IH]; intros w Hb; [lia|]. cbn [_os_read].
  pose proof (source_read _ _ Hsrc w n Hn) as Hr. destruct (sys_read w f n) as [[l|e] w']; [by exists l, w'|].
  destruct Hr as ([-> | ->] & Hs & Hlt); cbn [_enonfatal]; rewrite <- Hs; apply IH; lia.
Qed.

Lemma os_read_all_ok' fuel w n : 0 <= n < Z.of_nat fuel ->
  exists l w', _os_read_all patience fuel w f n = Some (None, l, w') /\ src w = l ++ src w' /\ zlen l <= n /\ (zlen l = n \/ src w' = []).
Proof using Hsrc.
  revert w n. induction fuel as [|fuel IH]; intros w n Hn; [lia|]. cbn [_os_read_all]. destruct (Z.ltb_spec 0 n).
  - destruct (os_read_ok patience w n ltac:(lia) (source_busy _ _ Hsrc w)) as (l & w1 & -> & Hl & Hle & Hnil). cbn [mbind option_bind].
    destruct l as [|x l].
    + exists [], w1. split; [done|]. split; [done|]. split; [done|]. right. rewrite <- (app_nil_l (src w1)), <- Hl. by apply Hnil.
    + destruct (IH w1 (n - zlen (x :: l))) as (l' & w2 & -> & Hl' & Hle' & Hend); [unfold zlen in *; cbn [length] in *; lia|]. cbn [mbind option_bind].
      exists ((x :: l) ++ l'), w2. split; [done|]. rewrite zlen_app. split; [by rewrite Hl, Hl', app_assoc|]. split; [lia|]. destruct Hend; [left; lia|by right].
  - exists [], w. assert (n = 0) as -> by lia. split_and!; try done. by left.
Qed.

(** A stream that has only been read; the bytes that wait in its buffer. *)
Record rd_inv (s : ios_t) : Prop := {
  rd_fd : fd s = f;
  rd_fd_ok : f <> -1;
  rd_bm : bm s <> bm_mem;
  rd_state : state s <> bst_wr;
  rd_buf : buf s <> NULL;
  rd_len : zlen (bytes s) = maxsize s;
  rd_max : 16 <= maxsize s < 2 ^ 62;
  rd_bpos : 0 <= bpos s <= size s;
  rd_size : size s <= maxsize s;
  rd_ndirty : ndirty s = 0;
}.
Definition buffered (s : ios_t) : list Z := drop (Z.to_nat (bpos s)) (take (Z.to_nat (size s)) (bytes s)).
Definition unread (w : W) (s : ios_t) : list Z := buffered s ++ src w.

Lemma buffered_len s : rd_inv s -> zlen (buffered s) = size s - bpos s.
Proof using. intros []. unfold buffered, zlen in *. rewrite length_drop, length_take. lia. Qed.

Lemma read_buffered s n : rd_inv s -> 0 <= n <= size s - bpos s -> read_buf s (bpos s) n = Some (take (Z.to_nat n) (buffered s)).
Proof using.
  intros [] Hn. unfold read_buf. rewrite slice_ok by lia. unfold buffered. rewrite !take_drop_commute, take_take.
  do 3 f_equal. lia.
Qed.

Lemma advance_inv s n : rd_inv s -> 0 <= n <= size s - bpos s -> rd_inv (set_bpos (bpos s + n) s) /\
  buffered (set_bpos (bpos s + n) s) = drop (Z.to_nat n) (buffered s).
Proof using.
  intros [] Hn. split; [split; try done; cbn; lia|]. unfold buffered at 1. cbn [bpos size set_bpos].
  change (bytes (set_bpos _ s)) with (bytes s). unfold buffered. rewrite drop_drop. f_equal. lia.
Qed.

(** The buffer refilled from its start. *)
Lemma refill_inv s l : rd_inv s -> 0 < zlen l <= maxsize s ->
  exists s1, write_buf (set_fpos (-1) (set_size 0 (set_bpos 0 s))) 0 l = Some s1 /\ rd_inv (set_size (zlen l) s1) /\ buffered (set_size (zlen l) s1) = l /\
    _eof s1 = _eof s /\ state s1 = state s /\ maxsize s1 = maxsize s.
Proof using.
  intros [R1 R2 R3 R4 R5 R6 R7 R8 R9 R10] Hl. set (s0 := set_fpos (-1) (set_size 0 (set_bpos 0 s))). unfold write_buf.
  change (bytes s0) with (bytes s). rewrite blit_ok by lia. cbn [mbind option_bind]. eexists. split; [done|]. set (k := splice (bytes s) 0 l).
  destruct (set_bytes_fields k s0) as (G1 & G2 & G3 & G4 & G5 & G6 & G7 & G8 & G9 & G10 & G11 & G12).
  assert (bytes (set_bytes k s0) = k) as Gb by (by apply bytes_set_bytes). assert (zlen k = zlen (bytes s)) as Gk by (apply splice_length; lia).
  assert (take (Z.to_nat (zlen l)) k = l) as Ht by (unfold k, splice; change (Z.to_nat 0) with 0%nat; rewrite take_0; cbn [app]; apply take_app_length'; unfold zlen; lia).
  split_and!; [|unfold buffered; cbn [bpos size set_size]; change (bytes (set_size (zlen l) (set_bytes k s0))) with (bytes (set_bytes k s0));
    by rewrite Gb, G5, Ht|done..].
  split; [exact (eq_trans G11 R1)|done|intros E; exact (R3 (eq_trans (eq_sym G1) E))|intros E; exact (R4 (eq_trans (eq_sym G2) E))|by apply (set_bytes_buf k s0)|
    |cbn [maxsize set_size]; by rewrite G3|cbn [bpos size set_size]; rewrite G5; cbn; lia|cbn [maxsize size set_size]; rewrite G3; cbn; lia|exact (eq_trans G6 R10)].
  change (bytes (set_size (zlen l) (set_bytes k s0))) with (bytes (set_bytes k s0)). cbn [maxsize set_size]. rewrite Gb, Gk, G3. exact R6.
Qed.

Lemma rd_flush w s : rd_inv s -> ios_flush patience w s = Some (0, w, s).
Proof using. intros I. unfold ios_flush. by rewrite (rd_ndirty s I). Qed.

Lemma rd_eof e s : rd_inv s -> rd_inv (set_eof e s).
Proof using. intros []. by split. Qed.

Lemma rd_empty s : rd_inv s -> rd_inv (set_fpos (-1) (set_size 0 (set_bpos 0 s))) /\ buffered (set_fpos (-1) (set_size 0 (set_bpos 0 s))) = [].
Proof using. intros []. split; [split; try done; cbn; lia|done]. Qed.

(** What a read achieves: the bytes it gives come off the front of those left. *)
Definition got (n : Z) (all : bool) (w : W) (s : ios_t) (d : list Z) (w' : W) (s' : ios_t) : Prop :=
  rd_inv s' /\ unread w s = d ++ unread w' s' /\ zlen d <= n /\ (all = true -> zlen d = n \/ unread w' s' = []) /\
  (0 < n -> d = [] -> unread w s = []) /\ (_eof s' = _eof s \/ (_eof s' = true /\ unread w' s' = [])) /\ (state s = bst_rd -> state s' = bst_rd).

Lemma read_loop_ok fuel w s n tot all didread : rd_inv s -> 0 <= n ->
  n + (if decide (buffered s = []) then 1 else 0) < Z.of_nat fuel -> (didread = true -> buffered s <> []) ->
  exists d w' s', read_loop patience fuel w s n tot all didread = Some (tot + zlen d, d, w', s') /\ got n all w s d w' s'.
Proof using Hsrc.
  revert w s n tot didread. induction fuel as [|fuel IH]; intros w s n tot didread I Hn Hf Hdr; [destruct (decide _); lia|].
  cbn [read_loop]. destruct (Z.ltb_spec 0 n); cbn [negb].
  2: { exists [], w, s. change (zlen []) with 0. rewrite Z.add_0_r. split; [done|]. split_and!; try done; [|lia|by left].
       intros _. left. change (zlen []) with 0. lia. }
  pose proof (rd_bpos s I). pose proof (rd_size s I). pose proof (rd_max s I). pose proof (buffered_len s I) as Hb.
  rewrite uw_small by (unfold in_range; lia). rewrite <- Hb in *. set (avail := zlen (buffered s)) in *. pose proof (zlen_nonneg (buffered s)).
  assert (exists d s1, (if 0 <? avail then read_buf s (bpos s) (if n <=? avail then n else avail) else Some []) = Some d /\
    (if 0 <? avail then set_bpos (bpos s + (if n <=? avail then n else avail)) s else s) = s1 /\ d = take (Z.to_nat n) (buffered s) /\
    rd_inv s1 /\ buffered s1 = drop (Z.to_nat n) (buffered s) /\ _eof s1 = _eof s /\ fd s1 = f /\ bm s1 = bm s /\ state s1 = state s)
    as (d & s1 & -> & -> & Ed & I1 & B1 & E1 & F1 & M1 & T1).
  { destruct (Z.ltb_spec 0 avail) as [Ha|Ha].
    - rewrite read_buffered by (try done; destruct (Z.leb_spec n avail); lia). eexists _, _. split; [done|]. split; [done|].
      destruct (advance_inv s (if n <=? avail then n else avail) I) as [Q1 Q2]; [destruct (Z.leb_spec n avail); lia|].
      rewrite Q2. split_and!; try done; [| |apply I]; destruct (Z.leb_spec n avail); try done.
      + rewrite !take_ge; [done|unfold avail, zlen in *; lia..].
      + rewrite !drop_ge; [done|unfold avail, zlen in *; lia..].
    - assert (buffered s = []) as Eb by (apply zlen_0; unfold avail in *; lia). exists [], s. rewrite Eb, take_nil, drop_nil. split_and!; try done. apply I. }
  cbn [mbind option_bind]. rewrite F1. rewrite (bool_decide_false (bm s1 = bm_mem)) by (rewrite M1; apply I).
  destruct (Z.eqb_spec f (-1)); [by destruct (rd_fd_ok s I)|]. cbn [orb].
  destruct (Z.leb_spec n avail) as [Hle|Hgt].
  { assert (0 < avail) by lia. rewrite (proj2 (Z.ltb_lt _ _)) by done. rewrite Z.leb_refl. cbn [andb].
    assert (zlen d = n) as Hd by (rewrite Ed; unfold avail, zlen in *; rewrite length_take; lia).
    exists d, w, s1. rewrite Hd. split; [done|]. split_and!; [done|unfold unread; by rewrite Ed, B1, app_assoc, take_drop|lia|by left|intros _ ->; change (zlen []) with 0 in Hd; lia|by left|congruence]. }
  assert ((0 <? avail) && (n <=? avail) = false) as -> by (destruct (Z.leb_spec n avail); [lia|]; apply andb_false_r).
  rewrite take_ge in Ed by (unfold avail, zlen in *; lia). rewrite drop_ge in B1 by (unfold avail, zlen in *; lia). subst d.
  assert (unread w s = buffered s ++ unread w s1) as Eu by (unfold unread; by rewrite B1).
  destruct (didread && negb all) eqn:Eda.
  { apply andb_true_iff in Eda as [-> Eall]. exists (buffered s), w, s1. split; [done|]. split_and!; [done|done|lia|intros ->; done| |by left|congruence].
    intros _ Eb. by destruct (Hdr eq_refl). }
  rewrite rd_flush by done. cbn [mbind option_bind]. destruct (rd_empty s1 I1) as [I2 B2]. change (maxsize (set_fpos (-1) (set_size 0 (set_bpos 0 s1)))) with (maxsize s1).
  set (s2 := set_fpos (-1) (set_size 0 (set_bpos 0 s1))) in *. assert (unread w s1 = src w) as Es1 by (unfold unread; by rewrite B1).
  change (fd s2) with (fd s1). rewrite F1. destruct (MOST_OF (maxsize s1) <? n - avail).
  - assert (exists l w', (if all then os_read_all patience w f (n - avail) else _os_read patience w f (n - avail)) = Some (None, l, w') /\
      src w = l ++ src w' /\ zlen l <= n - avail /\ (all = true -> zlen l = n - avail \/ src w' = []) /\ (l = [] -> src w = [])) as (l & w' & -> & S1 & S2 & S3 & S4).
    { destruct all.
      - destruct (os_read_all_ok' (S (Z.to_nat (n - avail))) w (n - avail)) as (l & w' & E & S1 & S2 & S3); [lia|]. exists l, w'. split_and!; try done.
        intros ->. destruct S3 as [S3|S3]; [change (zlen []) with 0 in S3; lia|by rewrite S1, S3].
      - destruct (os_read_ok patience w (n - avail) ltac:(lia) (source_busy _ _ Hsrc w)) as (l & w' & E & S1 & S2 & S3). by exists l, w'. }
    cbn [mbind option_bind]. eexists (buffered s ++ l), w', _. rewrite zlen_app. split; [f_equal; f_equal; f_equal; f_equal; fold avail; lia|].
    assert (forall e, unread w' (set_eof e s2) = src w') as Eu2 by (intros e; unfold unread; change (buffered (set_eof e s2)) with (buffered s2); by rewrite B2).
    assert (unread w' s2 = src w') as Eu3 by (unfold unread; by rewrite B2).
    split_and!.
    + destruct (zlen l =? 0); [by apply rd_eof|done].
    + destruct (zlen l =? 0); rewrite ?Eu2, ?Eu3; by rewrite Eu, Es1, S1, <- app_assoc.
    + rewrite zlen_app. fold avail. lia.
    + intros Hall. destruct (S3 Hall) as [Hz|Hz]; [left; rewrite zlen_app; fold avail; lia|right]. by destruct (zlen l =? 0); rewrite ?Eu2, ?Eu3.
    + intros _ [Eb ->]%app_nil. by rewrite Eu, Es1, Eb, S4.
    + destruct (Z.eqb_spec (zlen l) 0) as [Ez|]; [right; rewrite Eu2; split; [done|]|left; exact E1]. apply zlen_0 in Ez. subst l. rewrite <- (app_nil_l (src w')), <- S1. by apply S4.
    + destruct (zlen l =? 0); cbn; congruence.
  - change (maxsize s2) with (maxsize s1). pose proof (rd_max s1 I1). destruct (os_read_ok patience w (maxsize s1) ltac:(lia) (source_busy _ _ Hsrc w)) as (l & w' & -> & S1 & S2 & S3).
    cbn [mbind option_bind]. destruct l as [|x l].
    + eexists (buffered s), w', _. split; [done|]. assert (src w' = []) as Ew by (rewrite <- (app_nil_l (src w')), <- S1; by apply S3).
      assert (unread w' (set_eof true s2) = []) as Eu2 by (unfold unread; change (buffered (set_eof true s2)) with (buffered s2); by rewrite B2, Ew).
      split_and!; [by apply rd_eof|rewrite Eu2, Eu, Es1, S1, Ew; by rewrite !app_nil_r|fold avail; lia|by right|intros _ Eb; by rewrite Eu, Es1, S1, Ew, Eb|by right|cbn; congruence].
    + destruct (refill_inv s1 (x :: l) I1) as (s3 & E3 & I3 & B3 & V3 & T3 & _); [unfold zlen in *; cbn [length] in *; lia|].
      fold s2 in E3. rewrite E3. cbn [mbind option_bind].
      destruct (IH w' (set_size (zlen (x :: l)) s3) (n - avail) (tot + avail) true I3 ltac:(lia)) as (d & w2 & s4 & E4 & G1 & G2 & G3 & G4 & G5 & G6 & G7).
      { rewrite B3. rewrite decide_False by done. destruct (decide (buffered s = [])) as [Eb|Eb]; [lia|].
        assert (avail <> 0) by (intros Hz; by apply Eb, zlen_0). lia. }
      { intros _. by rewrite B3. }
      rewrite E4. cbn [mbind option_bind]. exists (buffered s ++ d), w2, s4. rewrite zlen_app. fold avail. split; [do 4 f_equal; lia|].
      assert (unread w s1 = unread w' (set_size (zlen (x :: l)) s3)) as Eu2 by (rewrite Es1, S1; unfold unread at 1; by rewrite B3).
      split_and!; [done|by rewrite Eu, Eu2, G2, <- app_assoc|rewrite zlen_app; fold avail; lia|intros Hall; destruct (G4 Hall); [left; rewrite zlen_app; fold avail; lia|by right]| | |].
      * intros _ [Eb ->]%app_nil. rewrite Eu, Eu2, Eb. by apply G5; [lia|].
      * destruct G6 as [G6|G6]; [left|by right]. rewrite G6. change (_eof (set_size (zlen (x :: l)) s3)) with (_eof s3). congruence.
      * intros Est. apply G7. cbn. rewrite T3. congruence.
Qed.
End Read.
