(* ===== verification/IosFileCorrect.v ===== *)
(** * Streams over a descriptor: the theorems *)
From S2P Require Import Prelude Utf8 Ios IosMemSpec IosFile IosMemCorrect.

(** ** Writing *)

Inductive wop := OWrite (d : list Z) | OPutc (c : Z) | OFlush.
Definition wop_ok (o : wop) : Prop := match o with OPutc c => in_range 8 c | _ => True end.
Definition wop_data (o : wop) : list Z := match o with OWrite d => d | OPutc c => [c] | OFlush => [] end.

Section Ops.
Context {W : Type} `{OS W}.
Context (junk : Z -> list Z) (alloc_ok : Z -> bool) (patience : nat).

Definition exec_wop (o : wop) (w : W) (s : ios_t) : option (Z * W * ios_t) :=
  match o with
  | OWrite d => ios_write junk alloc_ok patience w s d
  | OPutc c => ios_putc junk alloc_ok patience w s c
  | OFlush => ios_flush patience w s
  end.
Fixpoint exec_wops (os : list wop) (w : W) (s : ios_t) : option (list Z * W * ios_t) :=
  match os with
  | [] => Some ([], w, s)
  | o :: os => '(r, w, s) ← exec_wop o w s; '(rs, w, s) ← exec_wops os w s; Some (r :: rs, w, s)
  end.

Lemma fd_inv f isfile own : (forall n, 0 <= n -> zlen (junk n) = n) -> (forall n, alloc_ok n = true) -> f <> -1 ->
  exists s, ios_fd junk alloc_ok f isfile own = Some s /\ wr_inv f s /\ rd_inv f s /\ pending s = [] /\ buffered s = [] /\ _eof s = false.
Proof using.
  intros Hj Ha Hf. unfold ios_fd, _buf_init, _buf_realloc. cbn. rewrite Ha. cbn. pose proof (Hj 32768 ltac:(lia)) as Hl.
  change (zlen []) with 0. rewrite Z.sub_0_r. unfold STDERR_FILENO, STDOUT_FILENO.
  destruct (Z.eqb_spec f 2); destruct (Z.eqb_spec f 1); try lia;
    (eexists; split; [done|]; split_and!; try done; split; cbn; try done; try lia; intros _; apply not_elem_of_nil).
Qed.

Context (f : Z) (out : W -> list Z) (busy : W -> nat) (Hsink : sink patience f out busy).

Lemma exec_wop_ok o w s : wr_inv f s -> wop_ok o -> exists w' s', exec_wop o w s = Some (zlen (wop_data o), w', s') /\ wr_inv f s' /\
  out w' ++ pending s' = (out w ++ pending s) ++ wop_data o /\ bm s' = bm s /\ (o = OFlush -> pending s' = []).
Proof using Hsink.
  intros I Hok. destruct o as [d|c|]; cbn [exec_wop wop_data].
  - destruct (write_ok junk alloc_ok patience f out busy Hsink w s d I) as (w' & s' & -> & I' & O & B & _). by exists w', s'.
  - destruct (putc_ok junk alloc_ok patience f out busy Hsink w s c I Hok) as (w' & s' & -> & I' & O & B & _). by exists w', s'.
  - destruct (flush_ok patience f out busy Hsink w s I) as (w' & s' & -> & I' & O & P & B & _). exists w', s'.
    assert (pending s' = []) as Ep by (unfold pending; by rewrite P). split; [done|]. split; [done|]. split; [by rewrite Ep, O|]. by split.
Qed.

Lemma exec_wops_ok os w s : wr_inv f s -> Forall wop_ok os -> exists w' s', exec_wops os w s = Some (map (fun o => zlen (wop_data o)) os, w', s') /\
  wr_inv f s' /\ out w' ++ pending s' = (out w ++ pending s) ++ concat (map wop_data os) /\ bm s' = bm s.
Proof using Hsink.
  revert w s. induction os as [|o os IH]; intros w s I Hok; cbn [exec_wops map concat].
  { exists w, s. split; [done|]. split; [done|]. by rewrite app_nil_r. }
  apply Forall_cons in Hok as [Ho Hos]. destruct (exec_wop_ok o w s I Ho) as (w1 & s1 & -> & I1 & O1 & B1 & _). cbn [mbind option_bind].
  destruct (IH w1 s1 I1 Hos) as (w2 & s2 & -> & I2 & O2 & B2). cbn [mbind option_bind]. exists w2, s2. split; [done|]. split; [done|].
  split; [by rewrite O2, O1, <- app_assoc|congruence].
Qed.
End Ops.

(** C13: writing through a stream over a descriptor loses, duplicates and reorders
    nothing. For any sequence of writes, single characters and flushes, in block,
    line or unbuffered mode, over a descriptor that may take part of what it is
    given and may be interrupted: every call reports all its bytes written, what
    the descriptor has received followed by what waits in the buffer is all that
    was written, in order; after a flush nothing waits; in line mode no newline
    waits; in unbuffered mode nothing does. *)
Theorem ios_file_write_correct {W} `{OS W} junk alloc_ok patience f (out : W -> list Z) busy :
  (forall n, 0 <= n -> zlen (junk n) = n) -> (forall n, alloc_ok n = true) -> f <> -1 -> sink patience f out busy ->
  (forall isfile own, exists s, ios_fd junk alloc_ok f isfile own = Some s /\ wr_inv f s /\ pending s = []) /\
  (forall os w s, wr_inv f s -> Forall wop_ok os -> exists w' s',
     exec_wops junk alloc_ok patience os w s = Some (map (fun o => zlen (wop_data o)) os, w', s') /\ wr_inv f s' /\
     out w' ++ pending s' = (out w ++ pending s) ++ concat (map wop_data os) /\
     (bm s = bm_line -> 10 ∉ pending s') /\ (bm s = bm_none -> pending s' = [])) /\
  (forall w s, wr_inv f s -> exists w' s', ios_flush patience w s = Some (0, w', s') /\ wr_inv f s' /\
     out w' = out w ++ pending s /\ pending s' = []).
Proof.
  intros Hj Ha Hf Hs. split_and!.
  - intros isfile own. destruct (fd_inv junk alloc_ok f isfile own Hj Ha Hf) as (s & ? & ? & _ & ? & _). by exists s.
  - intros os w s I Hok. destruct (exec_wops_ok junk alloc_ok patience f out busy Hs os w s I Hok) as (w' & s' & E & I' & O & B).
    exists w', s'. split; [done|]. split; [done|]. split; [done|]. split.
    + intros Hl. apply (wr_line f s' I'). congruence.
    + intros Hn. unfold pending. by rewrite (wr_none f s' I') by congruence.
  - intros w s I. destruct (flush_ok patience f out busy Hs w s I) as (w' & s' & E & I' & O & P & _). exists w', s'.
    split; [done|]. split; [done|]. split; [by rewrite O|]. unfold pending. by rewrite P.
Qed.

(** A descriptor that takes three bytes at a time and is interrupted before
    every second call. *)
Definition slow_os : OS (list Z * bool) :=
  {| sys_read w _ n := let '(l, b) := w in
       if b : bool then (inr EINTR, (l, false)) else (inl (take (Z.to_nat (Z.min n 2)) l), (drop (Z.to_nat (Z.min n 2)) l, true));
     sys_write w _ d := let '(l, b) := w in
       if b : bool then (inr EINTR, (l, false)) else (inl (Z.min 3 (zlen d)), (l ++ take (Z.to_nat (Z.min 3 (zlen d))) d, true));
     sys_lseek w _ _ _ := (-1, w); sys_ftruncate w _ _ := (-1, w); sys_close w _ := (0, w) |}.
Definition slow_data (w : list Z * bool) : list Z := w.1.
Definition slow_busy (w : list Z * bool) : nat := if w.2 then 1 else 0.

Lemma slow_sink : sink (H := slow_os) 2 5 slow_data slow_busy.
Proof.
  split; [intros [l []]; cbn; lia|]. intros [l []] d Hd; cbn; [split; [done|]; split; [done|lia]|].
  split; [|done]. destruct d as [|x d]; [done|]. unfold zlen. cbn [length]. lia.
Qed.

Lemma ios_file_write_correct_witness : exists w' (s' : ios_t),
  slow_data w' ++ pending s' = [104; 101; 108; 108; 111; 10; 104; 105] /\ wr_inv 5 s' /\ sink (H := slow_os) 2 5 slow_data slow_busy.
Proof.
  destruct (ios_file_write_correct (H := slow_os) test_junk (fun _ => true) 2 5 slow_data slow_busy test_junk_length (fun _ => eq_refl) ltac:(lia) slow_sink)
    as (Hnew & Hops & _). destruct (Hnew true true) as (s & _ & I & Ep).
  destruct (Hops [OWrite [104; 101; 108; 108; 111; 10]; OFlush; OPutc 104; OPutc 105] ([], false) s I) as (w' & s' & _ & I' & O & _).
  { repeat (apply Forall_cons_2; [cbn; unfold in_range; lia || done|]). apply Forall_nil_2. }
  exists w', s'. rewrite Ep in O. split; [exact O|]. split; [exact I'|exact slow_sink].
Defined.

(** ** Reading *)

Section Reads.
Context {W : Type} `{OS W}.
Context (patience : nat) (f : Z) (src : W -> list Z) (busy : W -> nat) (Hsrc : source patience f src busy).

Lemma read_ok w s n all : rd_inv f s -> 0 <= n ->
  exists d w' s', _ios_read patience w s n all = Some (zlen d, d, w', s') /\ got f src n all w s d w' s' /\ state s' = bst_rd.
Proof using Hsrc.
  intros I Hn. unfold _ios_read. rewrite decide_False by apply I. cbn [mbind option_bind].
  assert (rd_inv f (set_state bst_rd s)) as I1 by (destruct I; by split).
  destruct (read_loop_ok patience f src busy Hsrc (S (S (Z.to_nat n))) w (set_state bst_rd s) n 0 all false I1 Hn) as (d & w' & s' & -> & G);
    [destruct (decide _); lia|done|]. exists d, w', s'. split; [done|]. destruct G as (G1 & G2 & G3 & G4 & G5 & G6 & G7).
  split; [split_and!; try done; intros _; by apply G7|by apply G7].
Qed.

Lemma got_all n w s d w' s' : got f src n true w s d w' s' -> 0 <= n ->
  d = take (Z.to_nat n) (unread src w s) /\ unread src w' s' = drop (Z.to_nat n) (unread src w s).
Proof using.
  intros (_ & E & Hle & Hall & _) Hn. rewrite E. unfold zlen in *. destruct (Hall eq_refl) as [Hd|Hu].
  - rewrite take_app_length', drop_app_length' by lia. done.
  - rewrite Hu, app_nil_r, take_ge, drop_ge by lia. done.
Qed.

Lemma count_line_rd c s : rd_inv f s -> rd_inv f (count_line c s) /\ buffered (count_line c s) = buffered s.
Proof using. intros []. unfold count_line. by destruct (c =? 10). Qed.

Lemma getc_ok w s : rd_inv f s -> _eof s = false -> exists w' s', rd_inv f s' /\
  match unread src w s with
  | c :: t => ios_getc patience w s = Some (c, w', s') /\ unread src w' s' = t
  | [] => ios_getc patience w s = Some (IOS_EOF, w', s') /\ unread src w' s' = []
  end.
Proof using Hsrc.
  intros I He. unfold ios_getc. rewrite He. pose proof (buffered_len f s I) as Hb.
  destruct (bool_decide (state s = bst_rd) && (bpos s <? size s)) eqn:E.
  - apply andb_true_iff in E as [_ E%Z.ltb_lt]. rewrite (read_buffered f) by (try done; lia). cbn [mbind option_bind].
    destruct (buffered s) as [|c t] eqn:Eb; [change (zlen []) with 0 in Hb; lia|]. change (get (take (Z.to_nat 1) (c :: t)) 0) with c.
    destruct (advance_inv f s 1 I ltac:(lia)) as [I1 B1]. destruct (count_line_rd c _ I1) as [I2 B2].
    eexists w, _. split; [exact I2|]. unfold unread. rewrite Eb. cbn [app]. split; [done|]. rewrite B2, B1, Eb. done.
  - unfold ios_read. destruct (read_ok w s 1 false I ltac:(lia)) as (d & w' & s' & -> & (G1 & G2 & G3 & _ & G5 & _) & _). cbn [mbind option_bind].
    destruct d as [|c [|]]; [| |unfold zlen in G3; cbn [length] in G3; lia].
    + rewrite (G5 ltac:(lia) eq_refl) in *. exists w', s'. split; [done|]. split; [done|]. by rewrite G2.
    + destruct (count_line_rd c s' G1) as [I2 B2]. eexists w', _. split; [exact I2|]. rewrite G2. cbn [app]. split; [done|].
      unfold unread. by rewrite B2.
Qed.
End Reads.

(** C18: reading through a stream over a descriptor gives its bytes once and in
    order, whatever the sizes of the requests and of the buffer, from a
    descriptor that may give less than asked for and may be interrupted:
    [ios_readall] gives all that was asked for or all that is left; [ios_read] a
    prefix of what is left, empty only at the end; [ios_getc] the next byte, or
    [IOS_EOF] when there is none. *)
Theorem ios_file_read_correct {W} `{OS W} junk alloc_ok patience f (src : W -> list Z) busy :
  (forall n, 0 <= n -> zlen (junk n) = n) -> (forall n, alloc_ok n = true) -> f <> -1 -> source patience f src busy ->
  (forall w isfile own, exists s, ios_fd junk alloc_ok f isfile own = Some s /\ rd_inv f s /\ unread src w s = src w /\ _eof s = false) /\
  (forall w s n, rd_inv f s -> 0 <= n -> exists w' s',
     ios_readall patience w s n = Some (zlen (take (Z.to_nat n) (unread src w s)), take (Z.to_nat n) (unread src w s), w', s') /\
     rd_inv f s' /\ unread src w' s' = drop (Z.to_nat n) (unread src w s)) /\
  (forall w s n, rd_inv f s -> 0 <= n -> exists d w' s', ios_read patience w s n = Some (zlen d, d, w', s') /\
     rd_inv f s' /\ unread src w s = d ++ unread src w' s' /\ zlen d <= n /\ (0 < n -> d = [] -> unread src w s = [])) /\
  (forall w s, rd_inv f s -> _eof s = false -> exists w' s', rd_inv f s' /\
     match unread src w s with
     | c :: t => ios_getc patience w s = Some (c, w', s') /\ unread src w' s' = t
     | [] => ios_getc patience w s = Some (IOS_EOF, w', s') /\ unread src w' s' = []
     end).
Proof.
  intros Hj Ha Hf Hs. split_and!.
  - intros w isfile own. destruct (fd_inv junk alloc_ok f isfile own Hj Ha Hf) as (s & E & _ & I & _ & B & He). exists s. unfold unread. by rewrite B.
  - intros w s n I Hn. unfold ios_readall. destruct (read_ok patience f src busy Hs w s n true I Hn) as (d & w' & s' & -> & G & _).
    pose proof (proj1 G) as I'. apply (got_all f) in G as [-> Eu]; [|done]. by exists w', s'.
  - intros w s n I Hn. unfold ios_read. destruct (read_ok patience f src busy Hs w s n false I Hn) as (d & w' & s' & -> & (G1 & G2 & G3 & _ & G5 & _) & _).
    exists d, w', s'. by split_and!.
  - intros w s. by apply (getc_ok patience f src busy Hs).
Qed.

Lemma slow_source : source (H := slow_os) 2 5 slow_data slow_busy.
Proof.
  split; [intros [l []]; cbn; lia|]. intros [l []] n Hn; cbn; [split; [by right|]; split; [done|lia]|].
  split; [by rewrite take_drop|]. split; [unfold zlen; rewrite length_take; lia|]. intros E. destruct l as [|x l]; [done|].
  destruct (Z.to_nat (Z.min n 2)) eqn:Em; [lia|done].
Qed.

Lemma ios_file_read_correct_witness : exists w' (s s' : ios_t),
  ios_readall (H := slow_os) 2 ([1; 2; 3; 4; 5; 6], true) s 5 = Some (5, [1; 2; 3; 4; 5], w', s') /\ unread slow_data w' s' = [6].
Proof.
  destruct (ios_file_read_correct (H := slow_os) test_junk (fun _ => true) 2 5 slow_data slow_busy test_junk_length (fun _ => eq_refl) ltac:(lia) slow_source)
    as (Hnew & Hall & _). destruct (Hnew ([1; 2; 3; 4; 5; 6], true) true true) as (s & _ & I & Eu & _).
  destruct (Hall ([1; 2; 3; 4; 5; 6], true) s 5 I ltac:(lia)) as (w' & s' & E & _ & Eu'). rewrite Eu in E, Eu'. exists w', s, s'.
  split; [exact E|exact Eu'].
Defined.
