(* ===== verification/GcProg.v ===== *)
(** * Marking: the programs the collector's threads run

    The world is stopped while the collector marks: object contents do not
    change, only headers do, by atomic exchanges. A marking routine is a
    program over the accesses that other threads can see: loads and exchanges
    of object headers and pushes on the thread's own queues; what it notes in
    thread-local data is a [Note]. *)
From stdpp Require Import gmap.
From S2P Require Import Prelude WsQueue.

(** ** Chunks: suffixes of large arrays (gc-stock.h) *)

Definition GC_empty_chunk := 0.
Definition GC_objary_chunk := 1.
Definition GC_ary8_chunk := 2.
Definition GC_ary16_chunk := 3.
Definition GC_finlist_chunk := 4.

Record jl_gc_chunk_t := {
  cid : Z; parent : Z; begin_ : Z; end_ : Z; elem_begin : Z; elem_end : Z; step : Z; nptr : Z;
}.

(** The struct as the queue copies it: eight words; [cid] and [step] are 32
    bits wide, their padding is zero here. *)
Definition chunk_words : nat := 8.
Definition chunk_to_words (c : jl_gc_chunk_t) : elt := [cid c; parent c; begin_ c; end_ c; elem_begin c; elem_end c; step c; nptr c].
Definition chunk_of_words (l : elt) : jl_gc_chunk_t :=
  {| cid := u32 (get l 0); parent := get l 1; begin_ := get l 2; end_ := get l 3;
     elem_begin := get l 4; elem_end := get l 5; step := u32 (get l 6); nptr := get l 7 |}.

(** ** Mark bits (julia_internal.h, gc-common.h) *)

Definition GC_CLEAN := 0.
Definition GC_MARKED := 1.
Definition GC_OLD := 2.
Definition GC_OLD_MARKED := 3.
Definition gc_marked (bits : Z) : bool := negb (Z.land bits GC_MARKED =? 0).
Definition gc_old (bits : Z) : bool := negb (Z.land bits GC_OLD =? 0).
Definition gc_set_bits (tag bits : Z) : Z := Z.lor (Z.land tag (2 ^ 64 - 1 - 3)) bits.

(** ** Programs *)

Inductive note :=
| N_setmark_pool (o bits : Z)       (* gc_setmark_pool *)
| N_setmark_big (o bits : Z)        (* gc_setmark_big *)
| N_scanned (bits nbytes : Z)       (* perm_scanned_bytes or scanned_bytes += nbytes *)
| N_remset (obj nptr : Z)           (* an object joins the remembered set *)
| N_scrub (ta : Z).                 (* gc_scrub_record_task *)

Inductive prog (A : Type) :=
| Ret (a : A)
| Abort
| Load_header (o : Z) (k : Z -> prog A)
| Exchange_header (o v : Z) (k : Z -> prog A)
| Exchange_buf (o v : Z) (k : Z -> prog A)
| Push_ptr (v : Z) (k : prog A)
| Push_chunk (c : jl_gc_chunk_t) (k : prog A)
| Note (e : note) (k : prog A).
Arguments Ret {A} a.
Arguments Abort {A}.
Arguments Load_header {A} o k.
Arguments Exchange_header {A} o v k.
Arguments Exchange_buf {A} o v k.
Arguments Push_ptr {A} v k.
Arguments Push_chunk {A} c k.
Arguments Note {A} e k.

Fixpoint prog_bind {A B} (f : A -> prog B) (p : prog A) : prog B :=
  match p with
  | Ret a => f a
  | Abort => Abort
  | Load_header o k => Load_header o (fun h => prog_bind f (k h))
  | Exchange_header o v k => Exchange_header o v (fun h => prog_bind f (k h))
  | Exchange_buf o v k => Exchange_buf o v (fun h => prog_bind f (k h))
  | Push_ptr v k => Push_ptr v (prog_bind f k)
  | Push_chunk c k => Push_chunk c (prog_bind f k)
  | Note e k => Note e (prog_bind f k)
  end.
#[global] Instance prog_ret : MRet prog := @Ret.
#[global] Instance prog_mbind : MBind prog := @prog_bind.

Definition load_header (o : Z) : prog Z := Load_header o Ret.
Definition exchange_header (o v : Z) : prog Z := Exchange_header o v Ret.
Definition exchange_buf (o v : Z) : prog Z := Exchange_buf o v Ret.
Definition push_ptr (v : Z) : prog unit := Push_ptr v (Ret tt).
Definition gc_chunkqueue_push (c : jl_gc_chunk_t) : prog unit := Push_chunk c (Ret tt).
Definition note_ (e : note) : prog unit := Note e (Ret tt).

(** ** Steps

    What a step does, with the header that a load or an exchange finds; other
    threads may have changed it since the last step. *)
Inductive access :=
| A_load (o h : Z)
| A_exchange (o h v : Z)
| A_buf (o h v : Z)
| A_ptr (v : Z)
| A_chunk (c : jl_gc_chunk_t)
| A_note (e : note).

Inductive prog_step {A} : prog A -> access -> prog A -> Prop :=
| step_load o k h : prog_step (Load_header o k) (A_load o h) (k h)
| step_exchange o v k h : prog_step (Exchange_header o v k) (A_exchange o h v) (k h)
| step_buf o v k h : prog_step (Exchange_buf o v k) (A_buf o h v) (k h)
| step_ptr v k : prog_step (Push_ptr v k) (A_ptr v) k
| step_chunk c k : prog_step (Push_chunk c k) (A_chunk c) k
| step_note e k : prog_step (Note e k) (A_note e) k.

Inductive prog_steps {A} : prog A -> list access -> prog A -> Prop :=
| steps_nil p : prog_steps p [] p
| steps_cons p a p1 l p' : prog_step p a p1 -> prog_steps p1 l p' -> prog_steps p (a :: l) p'.

(** The objects that were unmarked when the program marked them. *)
Definition claims (l : list access) : list Z :=
  omap (fun a => match a with A_exchange o h _ => if gc_marked h then None else Some o | _ => None end) l.
Definition pushes (l : list access) : list Z := omap (fun a => match a with A_ptr v => Some v | _ => None end) l.
Definition chunk_pushes (l : list access) : list jl_gc_chunk_t := omap (fun a => match a with A_chunk c => Some c | _ => None end) l.

(** ** Running a program alone *)

Fixpoint run_alone {A} (p : prog A) (hdrs : gmap Z Z) : option (list access * gmap Z Z * A) :=
  let go a hdrs (r : option (list access * gmap Z Z * A)) := '(l, hdrs, x) ← r; Some (a :: l, hdrs, x) in
  match p with
  | Ret a => Some ([], hdrs, a)
  | Abort => None
  | Load_header o k => let h := default 0 (hdrs !! o) in go (A_load o h) hdrs (run_alone (k h) hdrs)
  | Exchange_header o v k => let h := default 0 (hdrs !! o) in go (A_exchange o h v) hdrs (run_alone (k h) (<[o := v]> hdrs))
  | Exchange_buf o v k => let h := default 0 (hdrs !! o) in go (A_buf o h v) hdrs (run_alone (k h) (<[o := v]> hdrs))
  | Push_ptr v k => go (A_ptr v) hdrs (run_alone k hdrs)
  | Push_chunk c k => go (A_chunk c) hdrs (run_alone k hdrs)
  | Note e k => go (A_note e) hdrs (run_alone k hdrs)
  end.

Lemma run_alone_steps {A} (p : prog A) hdrs l hdrs' a : run_alone p hdrs = Some (l, hdrs', a) -> prog_steps p l (Ret a).
Proof.
  revert hdrs l. induction p as [b| |o k IH|o v k IH|o v k IH|v k IH|c k IH|e k IH]; intros hdrs l; cbn; intros E; simplify_eq; try constructor;
    match type of E with mbind _ ?r = _ => destruct r as [[[l1 h1] x1]|] eqn:E1; [|done] end; cbn in E; simplify_eq; (econstructor; [constructor|by eapply IH]).
Qed.
