(* ===== verification/GcScan.v ===== *)
(** * Marking: scanning one object (gc-stock.c)

    [gc_mark_outrefs] and the routines it calls, as a release build has them:
    debugging aids ([verify_parent], [gc_assert_parent_validity]), [assert]s and
    the heap snapshot are off. So numbers of roots are cut to 32 bits as the
    casts do ([assert(nroots <= UINT32_MAX)]), a symbol's tag and the order of
    the ends of a list of finalizers are not checked, and neither are the widths
    and counts of a layout's fields, for which [GcChildren] has hypotheses.
    [Abort] is a call of [abort()], a descriptor for which the scanner says that
    it is not implemented, and the model's own bound [frames]. *)
From S2P Require Import Prelude WsQueue GcProg.

(** The stopped world: the bytes of memory, the addresses of some globals, and
    the fields of tasks, whose offsets depend on the platform. *)
Record image := {
  mem : Z -> Z;
  ijl_small_typeof : Z -> Z;
  jl_genericmemory_typename : Z;
  jl_weakref_type : Z;
  jl_symbol_type : Z;
  jl_task_type : Z;
  opaque_layout : Z -> Z;              (* jl_datatype_layout of a type whose own layout is opaque *)
  sizeof_task : Z;
  pool_page : Z -> bool;               (* page_metadata(buf) != NULL *)
  task_gcstack : Z -> Z;
  task_excstack : Z -> Z;
  task_stkbuf : Z -> Z;                (* 0 when the stack is not copied *)
  task_bufsz : Z -> Z;
  task_copied : Z -> option (Z * Z);   (* a copied stack not in use: the stack base of its thread and copy_stack *)
  task_scanner : Z -> prog unit;       (* gc_cblist_task_scanner *)
  markfunc : Z -> Z -> prog Z;         (* the mark function of a foreign type's descriptor *)
}.

Section scan.
Context (im : image) (mark_reset_age : bool).

(** [ld n a]: the [n]-byte little-endian load at [a]. *)
Definition ld (n : nat) (a : Z) : Z := val 8 (map (fun i => u8 (mem im (a + Z.of_nat i))) (seq 0 n)).
Definition ldp (a : Z) : Z := ld 8 a.

(** ** Structures (julia.h) *)

Definition dt_name (vt : Z) := ldp vt.
Definition dt_parameters (vt : Z) := ldp (vt + 16).
Definition dt_layout (vt : Z) := ldp (vt + 40).
Definition dt_smalltag (vt : Z) := Z.shiftr (ld 2 (vt + 52)) 10.
Definition ly_size (ly : Z) := ld 4 ly.
Definition ly_nfields (ly : Z) := ld 4 (ly + 4).
Definition ly_npointers (ly : Z) := ld 4 (ly + 8).
Definition ly_first_ptr (ly : Z) := sw 32 (ld 4 (ly + 12)).
Definition ly_flags (ly : Z) := ld 2 (ly + 18).
Definition ly_fielddesc_type (ly : Z) := Z.land (Z.shiftr (ly_flags ly) 1) 3.
Definition ly_isboxed (ly : Z) : bool := Z.testbit (ly_flags ly) 3.
Definition ly_isunion (ly : Z) : bool := Z.testbit (ly_flags ly) 4.
Definition JL_FIELDDESC_8 := 0.
Definition JL_FIELDDESC_16 := 1.
Definition JL_FIELDDESC_32 := 2.
Definition JL_FIELDDESC_FOREIGN := 3.
Definition jl_fielddesc_size (t : Z) : Z := if t =? 0 then 2 else if t =? 1 then 4 else 8.
Definition jl_dt_layout_fields (ly : Z) := ly + 20.
Definition jl_dt_layout_ptrs (ly : Z) := jl_dt_layout_fields ly + jl_fielddesc_size (ly_fielddesc_type ly) * ly_nfields ly.
Definition jl_is_layout_opaque (ly : Z) : bool := (ly_nfields ly =? 0) && (0 <? ly_npointers ly).
Definition jl_datatype_size (vt : Z) : Z :=
  let ly := dt_layout vt in ly_size (if (ly =? 0) || jl_is_layout_opaque ly then opaque_layout im vt else ly).

Definition memory_length (m : Z) := ldp m.
Definition memory_ptr (m : Z) := ldp (m + 8).
Definition memory_owner (m : Z) := ldp (m + 16).
Definition JL_GENERICMEMORY_INLINED := 0.
Definition JL_GENERICMEMORY_GCMANAGED := 1.
Definition JL_GENERICMEMORY_MALLOCD := 2.
Definition JL_GENERICMEMORY_STRINGOWNED := 3.
Definition jl_genericmemory_how (m : Z) : Z :=
  if memory_ptr m =? m + 16 then JL_GENERICMEMORY_INLINED
  else if memory_owner m =? m then JL_GENERICMEMORY_GCMANAGED
  else if memory_owner m =? 0 then JL_GENERICMEMORY_MALLOCD
  else JL_GENERICMEMORY_STRINGOWNED.

(** ** Mark bits *)

Definition gc_try_setmark_tag (o mark_mode : Z) : prog bool :=
  tag ← load_header o;
  if gc_marked tag then Ret false
  else
    let tag := if mark_reset_age then gc_set_bits tag GC_MARKED
               else Z.lor tag (if gc_old tag then GC_OLD_MARKED else mark_mode) in
    tag ← exchange_header o tag;
    Ret (negb (gc_marked tag)).

Definition GC_MAX_SZCLASS := 2024.
Definition gc_setmark (o mark_mode sz : Z) : prog unit :=
  note_ (if sz <=? GC_MAX_SZCLASS then N_setmark_pool o mark_mode else N_setmark_big o mark_mode).
Definition gc_setmark_if (update_meta : bool) (o mark_mode sz : Z) : prog unit :=
  if update_meta then gc_setmark o mark_mode sz else Ret tt.

Definition gc_setmark_buf (o mark_mode minsz : Z) : prog unit :=
  h ← load_header o;
  let bits := if gc_old h && negb mark_reset_age then GC_OLD_MARKED else GC_MARKED in
  tag ← load_header o;
  if gc_marked tag then Ret tt
  else
    let tag := if mark_reset_age then gc_set_bits tag GC_MARKED
               else Z.lor tag (if gc_old tag then GC_OLD_MARKED else mark_mode) in
    tag ← exchange_buf o tag;
    if gc_marked tag then Ret tt
    else note_ (if (minsz <=? GC_MAX_SZCLASS) && pool_page im o then N_setmark_pool o bits else N_setmark_big o bits).

Definition gc_mark_push_remset (obj nptr : Z) : prog unit :=
  if Z.land nptr 3 =? 3 then note_ (N_remset obj nptr) else Ret tt.

(** The result is the new [*nptr]; a NULL [nptr] is [None]. *)
Definition gc_try_claim_and_push (obj : Z) (nptr : option Z) : prog Z :=
  if obj =? 0 then Ret (default 0 nptr)
  else
    h ← load_header obj;
    let nptr := match nptr with Some n => if gc_old h then n else Z.lor n 1 | None => 0 end in
    claimed ← gc_try_setmark_tag obj GC_MARKED;
    if claimed : bool then _ ← push_ptr obj; Ret nptr else Ret nptr.

(** ** Objects with field descriptors of [w] bytes *)

Fixpoint mark_obj_loop (w : nat) (n : nat) (parent d : Z) (nptr : Z) (new_obj : Z) : prog (Z * Z) :=
  match n with
  | O => Ret (new_obj, nptr)
  | S n =>
      let slot := parent + 8 * ld w d in
      let new_obj := ldp slot in
      if new_obj =? 0 then mark_obj_loop w n parent (d + Z.of_nat w) nptr new_obj
      else if negb (Nat.eqb n 0) then
        nptr ← gc_try_claim_and_push new_obj (Some nptr);
        mark_obj_loop w n parent (d + Z.of_nat w) nptr new_obj
      else
        h ← load_header new_obj;
        let nptr := Z.lor nptr (b2z (negb (gc_old h))) in
        claimed ← gc_try_setmark_tag new_obj GC_MARKED;
        mark_obj_loop w n parent (d + Z.of_nat w) nptr (if claimed : bool then new_obj else 0)
  end.

Definition gc_mark_obj (w : nat) (parent begin npointers nptr : Z) : prog Z :=
  '(new_obj, nptr) ← mark_obj_loop w (Z.to_nat npointers) parent begin nptr 0;
  _ ← gc_mark_push_remset parent nptr;
  Ret new_obj.
Definition gc_mark_obj8 := gc_mark_obj 1.
Definition gc_mark_obj16 := gc_mark_obj 2.
Definition gc_mark_obj32 := gc_mark_obj 4.

(** ** Arrays: [step] words from one element to the next *)

Definition GC_CHUNK_BATCH_SIZE := 2 ^ 16.
Definition iterations (begin end_ : Z) : nat := S (Z.to_nat (end_ - begin)).

(** The descriptors from [p] up to [pend]. *)
Definition descriptors (w : nat) (p pend : Z) : list Z :=
  map (fun i => ld w (p + Z.of_nat (w * i))) (seq 0 (Z.to_nat ((pend - p) / Z.of_nat w))).

(** The slots of one element: itself in an array of pointers, else those its
    descriptors name. *)
Inductive elem := Boxed | Fields (w : nat) (p pend : Z).
Definition elem_slots (e : elem) (a : Z) : list Z :=
  match e with Boxed => [a] | Fields w p pend => map (fun i => a + 8 * i) (descriptors w p pend) end.

(** The pre-scan of one element: [true] when it met an unmarked object. *)
Fixpoint prescan_slots (l : list Z) (nptr : Z) : prog (bool * Z) :=
  match l with
  | [] => Ret (false, nptr)
  | slot :: l =>
      let new_obj := ldp slot in
      if new_obj =? 0 then prescan_slots l nptr
      else
        h ← load_header new_obj;
        let nptr := if gc_old h then nptr else Z.lor nptr 1 in
        h ← load_header new_obj;
        if gc_marked h then prescan_slots l nptr else Ret (true, nptr)
  end.

Fixpoint prescan (n : nat) (e : elem) (step : Z) (begin end_ : Z) (nptr : Z) : prog (Z * Z) :=
  match n with
  | O => Abort
  | S n =>
      if begin <? end_ then
        '(early_end, nptr) ← prescan_slots (elem_slots e begin) nptr;
        if early_end : bool then Ret (begin, nptr) else prescan n e step (begin + 8 * step) end_ nptr
      else Ret (begin, nptr)
  end.

Fixpoint scan_slots (l : list Z) (nptr : Z) : prog Z :=
  match l with
  | [] => Ret nptr
  | slot :: l =>
      let new_obj := ldp slot in
      if new_obj =? 0 then scan_slots l nptr
      else nptr ← gc_try_claim_and_push new_obj (Some nptr); scan_slots l nptr
  end.

Fixpoint scan (n : nat) (e : elem) (step : Z) (begin end_ : Z) (nptr : Z) : prog Z :=
  match n with
  | O => Abort
  | S n =>
      if begin <? end_ then
        nptr ← scan_slots (elem_slots e begin) nptr;
        scan n e step (begin + 8 * step) end_ nptr
      else Ret nptr
  end.

(** [gc_mark_objarray], [gc_mark_memory8] and [gc_mark_memory16] differ in the
    elements, in the chunk, and in the width of [batch], the words of a batch:
    the first multiplies in [uint32_t]. *)
Definition mark_elems (e : elem) (batch : Z) (chunk : Z -> Z -> jl_gc_chunk_t) (parent begin end_ step nptr : Z) : prog unit :=
  '(begin, nptr) ← (if Z.land nptr 2 =? 2 then prescan (iterations begin end_) e step begin end_ nptr else Ret (begin, nptr));
  let too_big := step <? Z.quot (Z.quot (end_ - begin) 8) GC_CHUNK_BATCH_SIZE in
  let scan_end := if too_big then begin + 8 * batch else end_ in
  let early := too_big && (negb (Z.land nptr 2 =? 2) || (Z.land nptr 3 =? 3)) in
  _ ← (if early then gc_chunkqueue_push (chunk scan_end nptr) else Ret tt);
  nptr ← scan (iterations begin scan_end) e step begin scan_end nptr;
  if too_big then (if early then Ret tt else gc_chunkqueue_push (chunk scan_end nptr))
  else gc_mark_push_remset parent nptr.

Definition gc_mark_objarray (parent begin end_ step nptr : Z) : prog unit :=
  mark_elems Boxed (u32 (step * GC_CHUNK_BATCH_SIZE)) (fun scan_end nptr => {| cid := GC_objary_chunk; parent := parent; begin_ := scan_end; end_ := end_;
    elem_begin := 0; elem_end := 0; step := step; nptr := nptr |}) parent begin end_ step nptr.
Definition gc_mark_memory8 (parent begin end_ elem_begin elem_end elsize nptr : Z) : prog unit :=
  mark_elems (Fields 1 elem_begin elem_end) (u64 (elsize * GC_CHUNK_BATCH_SIZE)) (fun scan_end nptr => {| cid := GC_ary8_chunk; parent := parent; begin_ := scan_end; end_ := end_;
    elem_begin := elem_begin; elem_end := elem_end; step := u32 elsize; nptr := nptr |}) parent begin end_ elsize nptr.
Definition gc_mark_memory16 (parent begin end_ elem_begin elem_end elsize nptr : Z) : prog unit :=
  mark_elems (Fields 2 elem_begin elem_end) (u64 (elsize * GC_CHUNK_BATCH_SIZE)) (fun scan_end nptr => {| cid := GC_ary16_chunk; parent := parent; begin_ := scan_end; end_ := end_;
    elem_begin := elem_begin; elem_end := elem_end; step := u32 elsize; nptr := nptr |}) parent begin end_ elsize nptr.

(** ** Stacks *)

Definition gc_get_stack_addr (addr offset lb ub : Z) : Z := if (lb <=? addr) && (addr <? ub) then u64 (addr + offset) else addr.
Definition gc_read_stack (addr offset lb ub : Z) : Z := ldp (gc_get_stack_addr addr offset lb ub).

Definition GC_FIN_CFUNC_TAG := 1.
Definition GC_FIN_COBJ_TAG := 2.
Definition gc_ptr_tag (v mask : Z) : bool := negb (Z.land v mask =? 0).
Definition gc_ptr_clear_tag (v mask : Z) : Z := Z.land v (2 ^ 64 - 1 - mask).
Definition jl_max_tags := 64.

(** The roots of one frame, from number [i] on. *)
Fixpoint mark_frame (n : nat) (rts nr nroots : Z) (i : Z) (offset lb ub : Z) : prog unit :=
  match n with
  | O => Ret tt
  | S n =>
      if i <? nr then
        if Z.testbit nroots 0 then
          let slot := gc_read_stack (rts + 8 * i) offset lb ub in
          let new_obj := gc_read_stack slot offset lb ub in
          _ ← gc_try_claim_and_push new_obj None;
          mark_frame n rts nr nroots (i + 1) offset lb ub
        else
          let new_obj := gc_read_stack (rts + 8 * i) offset lb ub in
          let cfunc := gc_ptr_tag new_obj GC_FIN_CFUNC_TAG in
          let new_obj := if cfunc then gc_ptr_clear_tag new_obj GC_FIN_CFUNC_TAG else new_obj in
          let i := if cfunc then i + 1 else i in
          if gc_ptr_tag new_obj GC_FIN_COBJ_TAG then mark_frame n rts nr nroots (i + 1) offset lb ub
          else if new_obj <? jl_max_tags * 16 then mark_frame n rts nr nroots (i + 1) offset lb ub
          else _ ← gc_try_claim_and_push new_obj None; mark_frame n rts nr nroots (i + 1) offset lb ub
      else Ret tt
  end.

(** [frames]: how many frames the walk may visit. [nroots] of a frame is cut to
    32 bits by the cast; the assertion that this changes nothing is off. *)
Fixpoint gc_mark_stack (frames : nat) (s nroots offset lb ub : Z) : prog unit :=
  match frames with
  | O => Abort
  | S frames =>
      let nr := Z.shiftr nroots 2 in
      _ ← mark_frame (Z.to_nat nr) (s + 16) nr nroots 0 offset lb ub;
      let sprev := gc_read_stack (s + 8) offset lb ub in
      if sprev =? 0 then Ret tt else gc_mark_stack frames sprev (u32 (gc_read_stack sprev offset lb ub)) offset lb ub
  end.

(** Backtraces and exceptions; [data] is [jl_excstack_raw]. *)
Definition JL_BT_NON_PTR_ENTRY := 2 ^ 64 - 1.
Definition jl_bt_is_native (e : Z) : bool := negb (ldp e =? JL_BT_NON_PTR_ENTRY).
Definition jl_bt_num_jlvals (e : Z) : Z := Z.land (ldp (e + 8)) 7.
Definition jl_bt_num_uintvals (e : Z) : Z := Z.land (Z.shiftr (ldp (e + 8)) 3) 7.
Definition jl_bt_entry_size (e : Z) : Z := if jl_bt_is_native e then 1 else 2 + jl_bt_num_jlvals e + jl_bt_num_uintvals e.

Fixpoint claim_all (l : list Z) : prog unit :=
  match l with [] => Ret tt | v :: l => _ ← gc_try_claim_and_push v None; claim_all l end.
Definition bt_entry_jlvals (e : Z) : list Z :=
  if jl_bt_is_native e then [] else map (fun i => ldp (e + 8 * (2 + Z.of_nat i))) (seq 0 (Z.to_nat (jl_bt_num_jlvals e))).

Fixpoint mark_bt (n : nat) (bt_data bt_index bt_size : Z) : prog unit :=
  match n with
  | O => Ret tt
  | S n =>
      if bt_index <? bt_size then
        let e := bt_data + 8 * bt_index in
        _ ← claim_all (bt_entry_jlvals e);
        mark_bt n bt_data (bt_index + jl_bt_entry_size e) bt_size
      else Ret tt
  end.

Fixpoint excstack_loop (n : nat) (data itr : Z) : prog unit :=
  match n with
  | O => Ret tt
  | S n =>
      if 0 <? itr then
        let bt_size := ldp (data + 8 * (itr - 2)) in
        _ ← mark_bt (Z.to_nat bt_size) (data + 8 * (itr - 2 - bt_size)) 0 bt_size;
        _ ← gc_try_claim_and_push (ldp (data + 8 * (itr - 1))) None;
        excstack_loop n data (itr - 2 - bt_size)
      else Ret tt
  end.
Definition gc_mark_excstack (excstack itr : Z) : prog unit := excstack_loop (Z.to_nat itr) (excstack + 16) itr.

(** ** Modules *)

Definition sizeof_module := 392.
Definition module_usings_length (m : Z) : Z := ldp (m + 64) / 4.
Definition gc_mark_module_binding (m nptr : Z) : prog unit :=
  nptr ← gc_try_claim_and_push (ldp (m + 16)) (Some nptr);    (* bindings *)
  nptr ← gc_try_claim_and_push (ldp (m + 24)) (Some nptr);    (* bindingkeyset *)
  nptr ← gc_try_claim_and_push (ldp (m + 8)) (Some nptr);     (* parent *)
  nptr ← gc_try_claim_and_push (ldp (m + 48)) (Some nptr);    (* usings_backedges *)
  nptr ← gc_try_claim_and_push (ldp (m + 56)) (Some nptr);    (* scanned_methods *)
  let nusings := module_usings_length m in
  if 0 <? nusings then
    let begin := ldp (m + 80) in
    gc_mark_objarray m begin (begin + 32 * nusings) 4 nptr
  else gc_mark_push_remset m nptr.

(** ** Lists of finalizers, and chunks *)

Fixpoint finlist_loop (n : nat) (fl_begin fl_end : Z) : prog unit :=
  match n with
  | O => Ret tt
  | S n =>
      if fl_begin <? fl_end then
        let new_obj := ldp fl_begin in
        if new_obj =? 0 then finlist_loop n (fl_begin + 8) fl_end
        else
          let cfunc := gc_ptr_tag new_obj GC_FIN_CFUNC_TAG in
          let new_obj := if cfunc then gc_ptr_clear_tag new_obj GC_FIN_CFUNC_TAG else new_obj in
          let fl_begin := if cfunc then fl_begin + 8 else fl_begin in
          if gc_ptr_tag new_obj GC_FIN_COBJ_TAG then finlist_loop n (fl_begin + 8) fl_end
          else _ ← gc_try_claim_and_push new_obj None; finlist_loop n (fl_begin + 8) fl_end
      else Ret tt
  end.

Definition gc_mark_finlist_ (fl_parent fl_begin fl_end : Z) : prog unit :=
  let nrefs := Z.quot (fl_end - fl_begin) 8 in
  if GC_CHUNK_BATCH_SIZE <? nrefs then
    let mid := fl_begin + 8 * GC_CHUNK_BATCH_SIZE in
    _ ← gc_chunkqueue_push {| cid := GC_finlist_chunk; parent := 0; begin_ := mid; end_ := fl_end; elem_begin := 0; elem_end := 0; step := 0; nptr := 0 |};
    finlist_loop (Z.to_nat GC_CHUNK_BATCH_SIZE) fl_begin mid
  else finlist_loop (Z.to_nat nrefs) fl_begin fl_end.

Definition gc_mark_finlist (items len start : Z) : prog unit :=
  if len <=? start then Ret tt else gc_mark_finlist_ 0 (items + 8 * start) (items + 8 * len).

Definition gc_mark_chunk (c : jl_gc_chunk_t) : prog unit :=
  if cid c =? GC_objary_chunk then gc_mark_objarray (parent c) (begin_ c) (end_ c) (step c) (nptr c)
  else if cid c =? GC_ary8_chunk then gc_mark_memory8 (parent c) (begin_ c) (end_ c) (elem_begin c) (elem_end c) (step c) (nptr c)
  else if cid c =? GC_ary16_chunk then gc_mark_memory16 (parent c) (begin_ c) (end_ c) (elem_begin c) (elem_end c) (step c) (nptr c)
  else if cid c =? GC_finlist_chunk then gc_mark_finlist_ (parent c) (begin_ c) (end_ c)
  else Abort.

Definition jl_gc_mark_queue_obj (obj : Z) : prog bool :=
  may_claim ← gc_try_setmark_tag obj GC_MARKED;
  if may_claim : bool then _ ← push_ptr obj; Ret true else Ret false.

Definition jl_gc_mark_queue_objarray (parent objs nobjs : Z) : prog unit :=
  h ← load_header parent;
  gc_mark_objarray parent objs (objs + 8 * nobjs) 1 (Z.lor (Z.shiftl nobjs 2) (Z.land h 2)).

(** ** One object *)

Definition jl_unionall_tag := 2.
Definition jl_datatype_tag := 6.
Definition jl_quotenode_tag := 17.
Definition jl_module_tag := 19.
Definition jl_simplevector_tag := 20.
Definition jl_string_tag := 21.
Definition jl_task_tag := 22.
Definition jl_cancel_source_tag := 23.
Definition jl_wait_entry_tag := 24.
Definition GC_REMSET_PTR_TAG := 1.
Definition vtag_of (h : Z) : Z := Z.land h (2 ^ 64 - 1 - 15).
Definition in_image (h : Z) : bool := negb (Z.land (Z.shiftr h 2) 3 =? 0).

(** [goto mark_obj] with the object that was claimed last, or the end. *)
Definition mark_next (remset_object : bool) (new_obj : Z) : prog (option Z) :=
  if new_obj =? 0 then Ret None
  else if remset_object then _ ← push_ptr new_obj; Ret None else Ret (Some new_obj).
Definition finish (p : prog unit) : prog (option Z) := _ ← p; Ret None.

Definition mark_task (frames : nat) (update_meta remset_object : bool) (ta bits : Z) : prog (option Z) :=
  _ ← gc_setmark_if update_meta ta bits (sizeof_task im);
  _ ← note_ (N_scrub ta);
  _ ← task_scanner im ta;
  let stkbuf := task_stkbuf im ta in
  _ ← (if stkbuf =? 0 then Ret tt else gc_setmark_buf stkbuf bits (task_bufsz im ta));
  let s := task_gcstack im ta in
  let '(offset, lb, ub) :=
    match task_copied im ta with
    | Some (stackbase, copy_stack) => (u64 (stkbuf - (stackbase - copy_stack)), stackbase - copy_stack, stackbase)
    | None => (0, 0, 2 ^ 64 - 1)
    end in
  _ ← (if s =? 0 then Ret tt else gc_mark_stack frames s (u32 (gc_read_stack s offset lb ub)) offset lb ub);
  let excstack := task_excstack im ta in
  _ ← (if excstack =? 0 then Ret tt
       else _ ← gc_setmark_buf excstack bits (16 + 8 * ldp (excstack + 8)); gc_mark_excstack excstack (ldp excstack));
  let layout := dt_layout (jl_task_type im) in
  let npointers := ly_npointers layout in
  new_obj ← gc_mark_obj8 ta (jl_dt_layout_ptrs layout) npointers (Z.lor (Z.lor (Z.shiftl npointers 2) 1) bits);
  mark_next remset_object new_obj.

Definition mark_cancel_source (update_meta : bool) (cs bits : Z) : prog unit :=
  let np := ld 2 (cs + 26) in
  _ ← gc_setmark_if update_meta cs bits (40 + 24 * np);
  _ ← gc_mark_objarray cs (cs + 8) (cs + 24) 1 (Z.lor 8 (Z.land bits GC_OLD));
  if 0 <? np then gc_mark_objarray cs (cs + 40) (cs + 40 + 24 * np) 3 (Z.lor (Z.shiftl np 2) (Z.land bits GC_OLD)) else Ret tt.

Definition mark_wait_entry (update_meta : bool) (we bits : Z) : prog unit :=
  let ns := ld 4 (we + 8) in
  _ ← gc_setmark_if update_meta we bits (16 + 24 * ns);
  _ ← gc_mark_objarray we we (we + 8) 1 (Z.lor 4 (Z.land bits GC_OLD));
  if 0 <? ns then
    let b := we + 16 in
    let nptr := Z.lor (Z.shiftl ns 2) (Z.land bits GC_OLD) in
    _ ← gc_mark_objarray we b (b + 24 * ns) 3 nptr;
    gc_mark_objarray we (b + 8) (b + 24 * (ns - 1) + 16) 3 nptr
  else Ret tt.

Definition mark_genericmemory (update_meta foreign_alloc : bool) (vt m bits : Z) : prog unit :=
  _ ← (if update_meta then note_ (N_setmark_pool m bits) else Ret tt);
  let how := jl_genericmemory_how m in
  let layout := dt_layout vt in
  let nbytes := ly_size layout * memory_length m + (if ly_isunion layout then memory_length m else 0) in
  _ ← (if (how =? JL_GENERICMEMORY_GCMANAGED) && (update_meta || foreign_alloc) then note_ (N_scanned bits nbytes) else Ret tt);
  if how =? JL_GENERICMEMORY_STRINGOWNED then
    nptr ← gc_try_claim_and_push (memory_owner m) (Some (Z.lor 4 (Z.land bits GC_OLD)));
    gc_mark_push_remset m nptr
  else if memory_length m =? 0 then Ret tt
  else if ly_isboxed layout then
    if ldp (dt_parameters vt + 16) =? jl_symbol_type im then Ret tt
    else gc_mark_objarray m (memory_ptr m) (memory_ptr m + 8 * memory_length m) 1 (Z.lor (Z.shiftl (memory_length m) 2) (Z.land bits GC_OLD))
  else if 0 <=? ly_first_ptr layout then
    let npointers := ly_npointers layout in
    let elsize := ly_size layout / 8 in
    let l := memory_length m in
    let begin := memory_ptr m in
    let end_ := begin + 8 * (l * elsize) in
    let nptr := Z.lor (Z.shiftl (l * npointers) 2) (Z.land bits GC_OLD) in
    let ptrs := jl_dt_layout_ptrs layout in
    if npointers =? 1 then gc_mark_objarray m (begin + 8 * ly_first_ptr layout) end_ elsize nptr
    else if ly_fielddesc_type layout =? JL_FIELDDESC_8 then gc_mark_memory8 m begin end_ ptrs (ptrs + npointers) elsize nptr
    else if ly_fielddesc_type layout =? JL_FIELDDESC_16 then gc_mark_memory16 m begin end_ ptrs (ptrs + 2 * npointers) elsize nptr
    else Abort
  else Ret tt.

(** An object whose type's layout says where its pointers are. *)
Definition mark_fields (update_meta remset_object : bool) (vt new_obj bits : Z) : prog (option Z) :=
  _ ← gc_setmark_if update_meta new_obj bits (jl_datatype_size vt);
  if vt =? jl_weakref_type im then Ret None
  else
    let layout := dt_layout vt in
    let npointers := ly_npointers layout in
    if npointers =? 0 then Ret None
    else
      let nptr := Z.lor (Z.shiftl npointers 2) (Z.land bits GC_OLD) in
      let ptrs := jl_dt_layout_ptrs layout in
      if ly_fielddesc_type layout =? JL_FIELDDESC_8 then new_obj ← gc_mark_obj8 new_obj ptrs npointers nptr; mark_next remset_object new_obj
      else if ly_fielddesc_type layout =? JL_FIELDDESC_16 then new_obj ← gc_mark_obj16 new_obj ptrs npointers nptr; mark_next remset_object new_obj
      else if ly_fielddesc_type layout =? JL_FIELDDESC_32 then new_obj ← gc_mark_obj32 new_obj ptrs npointers nptr; mark_next remset_object new_obj
      else
        h ← load_header new_obj;
        young ← markfunc im (jl_dt_layout_fields layout) new_obj;
        finish (if gc_old h && negb (young =? 0) then gc_mark_push_remset new_obj (young * 4 + 3) else Ret tt).

(** The objects that are not scanned by their layout. *)
Definition mark_small (frames : nat) (update_meta remset_object : bool) (vtag new_obj bits : Z) : prog (option Z) :=
  if vtag =? jl_simplevector_tag * 16 then
    let l := ldp new_obj in
    finish (_ ← gc_setmark_if update_meta new_obj bits (8 * l + 8);
            gc_mark_objarray new_obj (new_obj + 8) (new_obj + 8 + 8 * l) 1 (Z.lor (Z.shiftl l 2) (Z.land bits GC_OLD)))
  else if vtag =? jl_module_tag * 16 then
    finish (_ ← gc_setmark_if update_meta new_obj bits sizeof_module;
            gc_mark_module_binding new_obj (Z.lor (Z.shiftl (module_usings_length new_obj + 1) 2) (Z.land bits GC_OLD)))
  else if vtag =? jl_task_tag * 16 then mark_task frames update_meta remset_object new_obj bits
  else if vtag =? jl_cancel_source_tag * 16 then finish (mark_cancel_source update_meta new_obj bits)
  else if vtag =? jl_wait_entry_tag * 16 then finish (mark_wait_entry update_meta new_obj bits)
  else if vtag =? jl_string_tag * 16 then finish (gc_setmark_if update_meta new_obj bits (ldp new_obj + 8 + 1))
  else finish (gc_setmark_if update_meta new_obj bits (jl_datatype_size (ijl_small_typeof im (vtag / 8)))).

(** One turn of [gc_mark_outrefs], from [mark_obj] to the next [goto mark_obj]. *)
Definition mark_obj (frames : nat) (remset_object : bool) (new_obj : Z) : prog (option Z) :=
  h ← load_header new_obj;
  let vtag := vtag_of h in
  h ← load_header new_obj;
  let bits := if gc_old h && negb mark_reset_age then GC_OLD_MARKED else GC_MARKED in
  h ← (if remset_object then Ret 0 else load_header new_obj);
  let foreign_alloc := negb remset_object && in_image h in
  let update_meta := negb remset_object && negb foreign_alloc in
  let by_type vt :=
    if dt_name vt =? jl_genericmemory_typename im then finish (mark_genericmemory update_meta foreign_alloc vt new_obj bits)
    else mark_fields update_meta remset_object vt new_obj bits in
  if jl_max_tags * 16 <=? vtag then
    th ← load_header vtag;
    if negb (vtag_of th =? jl_datatype_tag * 16) || negb (dt_smalltag vtag =? 0) then Abort   (* gc_dump_queue_and_abort *)
    else by_type vtag
  else if u64 (vtag - jl_unionall_tag * 16) <=? (jl_quotenode_tag - jl_unionall_tag) * 16 then by_type (ijl_small_typeof im (vtag / 8))
  else mark_small frames update_meta remset_object vtag new_obj bits.

(** An item of the pointer queue: an object, tagged if it is in the remembered
    set. *)
Definition gc_mark_outrefs (frames : nat) (item : Z) : prog (option Z) :=
  mark_obj frames (gc_ptr_tag item GC_REMSET_PTR_TAG) (gc_ptr_clear_tag item GC_REMSET_PTR_TAG).
End scan.
#[global] Arguments gc_try_setmark_tag : simpl never.
#[global] Arguments gc_try_claim_and_push : simpl never.
#[global] Arguments gc_setmark : simpl never.
#[global] Arguments gc_setmark_if : simpl never.
#[global] Arguments gc_setmark_buf : simpl never.
#[global] Arguments gc_mark_push_remset : simpl never.
#[global] Arguments mark_elems : simpl never.
#[global] Arguments gc_mark_obj : simpl never.
#[global] Arguments ld : simpl never.
#[global] Arguments ldp : simpl never.
