(* ===== verification/GcLogic.v ===== *)
(** * Marking: reasoning about marking programs

    Other threads run between any two accesses, so a load or an exchange may
    answer with any header the object can have. [safe p h Q]: [p] never aborts,
    stores only headers that keep the type and set the mark, claims and pushes
    only allowed objects, and pushes each object it claims, at once, before it
    claims another; [h] is the claimed object not pushed yet. [marks v p Q]:
    when [p] has run, [v] has been seen marked, or been marked, or is left to a
    chunk that was pushed, or else [Q] holds of the result. *)
From S2P Require Import Prelude WsQueue GcProg GcScan.

Section headers.
(** The bits of an object's header other than the mark bits. *)
Context (tyof : Z -> Z).

Definition hdr_ok (o h : Z) : Prop := in_range 64 h /\ Z.land h (2 ^ 64 - 1 - 3) = tyof o.

Lemma hdr_lor o h m : hdr_ok o h -> 0 <= m < 4 -> hdr_ok o (Z.lor h m).
Proof.
  intros [R E] Hm. split.
  - apply in_range_lor; [lia|done|]. split; [lia|]. apply Z.lt_trans with 4; [lia|reflexivity].
  - rewrite <- E. apply Z.bits_inj'. intros n Hn. rewrite !Z.land_spec, Z.lor_spec. destruct (Z.testbit m n) eqn:Em; [|by rewrite orb_false_r].
    assert (n < 2) as Hn2.
    { destruct (decide (n < 2)); [done|]. rewrite (testbit_high 2 m n) in Em; [done|split; [lia|change (2 ^ 2) with 4; lia]|lia]. }
    assert (Z.testbit (2 ^ 64 - 1 - 3) n = false) as ->; [|by rewrite !andb_false_r].
    assert (n = 0 \/ n = 1) as [-> | ->] by lia; reflexivity.
Qed.

Lemma hdr_set_bits o h m : hdr_ok o h -> 0 <= m < 4 -> hdr_ok o (gc_set_bits h m).
Proof.
  intros [R E] Hm. unfold gc_set_bits. assert (hdr_ok o (Z.land h (2 ^ 64 - 1 - 3))) as H; [|by apply hdr_lor].
  split; [apply in_range_land; [lia|done|by split]|]. by rewrite <- Z.land_assoc.
Qed.

Lemma marked_bit h : gc_marked h = Z.testbit h 0.
Proof.
  unfold gc_marked, GC_MARKED. change 1 with (Z.ones 1). rewrite Z.land_ones by lia. change (2 ^ 1) with 2.
  rewrite <- Z.bit0_mod. by destruct (Z.testbit h 0).
Qed.

Lemma marked_lor h m : gc_marked m = true -> gc_marked (Z.lor h m) = true.
Proof. rewrite !marked_bit, Z.lor_spec. intros ->. apply orb_true_r. Qed.
End headers.

Section safe.
(** The objects a program may claim, the buffers it may mark, the chunks it may push. *)
Context (tyof : Z -> Z) (P Buf : Z -> Prop) (C : jl_gc_chunk_t -> Prop).
Abbreviation hdr_ok := (hdr_ok tyof).

(** The headers a program may find. *)
Definition answer_ok (a : access) : Prop :=
  match a with A_load o h | A_exchange o h _ | A_buf o h _ => hdr_ok o h | _ => True end.

Fixpoint safe {A} (p : prog A) (held : option Z) (Q : A -> option Z -> Prop) : Prop :=
  match p with
  | Ret a => Q a held
  | Abort => False
  | Load_header o k => forall h, hdr_ok o h -> safe (k h) held Q
  | Exchange_header o v k => P o /\ hdr_ok o v /\ gc_marked v = true /\ held = None /\
      forall h, hdr_ok o h -> safe (k h) (if gc_marked h then held else Some o) Q
  | Exchange_buf o v k => Buf o /\ hdr_ok o v /\ gc_marked v = true /\ forall h, hdr_ok o h -> safe (k h) held Q
  | Push_ptr v k => held = Some v /\ safe k None Q
  | Push_chunk c k => C c /\ held = None /\ safe k held Q
  | Note _ k => safe k held Q
  end.

Lemma safe_mono {A} (p : prog A) h (Q Q' : A -> option Z -> Prop) : (forall a h, Q a h -> Q' a h) -> safe p h Q -> safe p h Q'.
Proof. intros H. revert h. induction p; cbn; naive_solver. Qed.

Lemma safe_bind {A B} (f : A -> prog B) (p : prog A) h Q : safe p h (fun a h => safe (f a) h Q) -> safe (prog_bind f p) h Q.
Proof. revert h. induction p; cbn; naive_solver. Qed.

Lemma safe_then {A B} (f : A -> prog B) (p : prog A) h h1 Q : safe p h (fun _ h' => h' = h1) -> (forall a, safe (f a) h1 Q) -> safe (prog_bind f p) h Q.
Proof. intros H1 H2. apply safe_bind. eapply safe_mono; [|done]. intros a ? ->. apply H2. Qed.

Lemma safe_and {A} (p : prog A) h (Q Q' : A -> option Z -> Prop) : safe p h Q -> safe p h Q' -> safe p h (fun a h => Q a h /\ Q' a h).
Proof. revert h. induction p; cbn; naive_solver. Qed.

(** ** Steps of a safe program *)

Definition held_after (held : option Z) (a : access) : option Z :=
  match a with A_exchange o h _ => if gc_marked h then held else Some o | A_ptr _ => None | _ => held end.

(** What the program may do, and the headers it may find. *)
Definition access_ok (held : option Z) (a : access) : Prop :=
  match a with
  | A_load o h => True
  | A_exchange o h v => P o /\ hdr_ok o v /\ gc_marked v = true /\ held = None
  | A_buf o h v => Buf o /\ hdr_ok o v /\ gc_marked v = true
  | A_ptr v => held = Some v
  | A_chunk c => C c /\ held = None
  | A_note _ => True
  end.

Lemma safe_step {A} (p : prog A) a p' h Q : safe p h Q -> prog_step p a p' -> answer_ok a -> access_ok h a /\ safe p' (held_after h a) Q.
Proof. intros Hs Hp Ha. destruct Hp; cbn in *; naive_solver. Qed.

Lemma claims_cons a l : claims (a :: l) = match a with A_exchange o h _ => if gc_marked h then [] else [o] | _ => [] end ++ claims l.
Proof. unfold claims. cbn. destruct a; cbn; try done. by destruct (gc_marked h). Qed.
Lemma pushes_cons a l : pushes (a :: l) = match a with A_ptr v => [v] | _ => [] end ++ pushes l.
Proof. by destruct a. Qed.
Lemma chunk_pushes_cons a l : chunk_pushes (a :: l) = match a with A_chunk c => [c] | _ => [] end ++ chunk_pushes l.
Proof. by destruct a. Qed.

(** Between claims at most one object is held, and it is pushed next. *)
Lemma safe_claims {A} (p : prog A) l p' h (Q : A -> option Z -> Prop) : safe p h Q -> prog_steps p l p' -> Forall answer_ok l ->
  exists h', safe p' h' Q /\ option_list h ++ claims l = pushes l ++ option_list h'.
Proof.
  intros Hs Hr. revert h Hs. induction Hr as [p|p a p1 l p' Hp _ IH]; intros h Hs Ha; [exists h; by rewrite app_nil_r|].
  apply Forall_cons in Ha as [Ha Hl]. destruct (safe_step _ _ _ _ _ Hs Hp Ha) as [Hok Hs1].
  destruct (IH _ Hs1 Hl) as (h' & Hs' & E). exists h'. split; [done|]. rewrite claims_cons, pushes_cons. destruct a; cbn in *; try done.
  - destruct Hok as (_ & _ & _ & ->). by destruct (gc_marked h0).
  - subst h. cbn. by rewrite <- E.
Qed.

Lemma safe_allowed {A} (p : prog A) l p' h (Q : A -> option Z -> Prop) : safe p h Q -> prog_steps p l p' -> Forall answer_ok l ->
  Forall P (claims l) /\ Forall C (chunk_pushes l).
Proof.
  intros Hs Hr. revert h Hs. induction Hr as [p|p a p1 l p' Hp _ IH]; intros h Hs Ha; [done|].
  apply Forall_cons in Ha as [Ha Hl]. destruct (safe_step _ _ _ _ _ Hs Hp Ha) as [Hok Hs1]. destruct (IH _ Hs1 Hl) as [H1 H2].
  rewrite claims_cons, chunk_pushes_cons. destruct a; cbn in *; try done; [|split; [done|constructor; tauto]].
  split; [|done]. destruct (gc_marked h0); cbn; [done|]. constructor; [tauto|done].
Qed.
End safe.

Section marks.
(** Which objects a chunk leaves to its reader. *)
Context (tyof : Z -> Z) (owes : jl_gc_chunk_t -> Z -> Prop).
Abbreviation hdr_ok := (hdr_ok tyof).

Fixpoint marks {A} (v : Z) (p : prog A) (Q : A -> Prop) : Prop :=
  match p with
  | Ret a => Q a
  | Abort => True
  | Load_header o k => forall h, hdr_ok o h -> (o = v /\ gc_marked h = true) \/ marks v (k h) Q
  | Exchange_header o w k => (o = v /\ gc_marked w = true) \/ forall h, hdr_ok o h -> marks v (k h) Q
  | Exchange_buf o w k => forall h, hdr_ok o h -> marks v (k h) Q
  | Push_ptr _ k | Note _ k => marks v k Q
  | Push_chunk c k => owes c v \/ marks v k Q
  end.

Lemma marks_mono {A} v (p : prog A) (Q Q' : A -> Prop) : (forall a, Q a -> Q' a) -> marks v p Q -> marks v p Q'.
Proof. intros H. induction p; cbn; naive_solver. Qed.

Lemma marks_bind {A B} v (f : A -> prog B) (p : prog A) Q : marks v p (fun a => marks v (f a) Q) -> marks v (prog_bind f p) Q.
Proof. induction p; cbn; naive_solver. Qed.

(** What comes later does not undo a mark. *)
Lemma marks_later {A B} v (f : A -> prog B) (p : prog A) Q : (forall a, marks v (f a) Q) -> marks v (prog_bind f p) Q.
Proof. intros H. apply marks_bind. induction p; cbn; naive_solver. Qed.

(** [v] was seen marked, was marked, or is left to the reader of a chunk. *)
Definition settles (a : access) (v : Z) : Prop :=
  match a with
  | A_load o h => o = v /\ gc_marked h = true
  | A_exchange o _ w => o = v /\ gc_marked w = true
  | A_chunk c => owes c v
  | _ => False
  end.

Lemma marks_step {A} v (p : prog A) a p' Q : marks v p Q -> prog_step p a p' -> answer_ok tyof a -> settles a v \/ marks v p' Q.
Proof. intros Hm Hp Ha. destruct Hp; cbn in *; naive_solver. Qed.

Lemma marks_steps {A} v (p : prog A) l p' Q : marks v p Q -> prog_steps p l p' -> Forall (answer_ok tyof) l ->
  (exists a, a ∈ l /\ settles a v) \/ marks v p' Q.
Proof.
  intros Hm Hr. revert Hm. induction Hr as [p|p a p1 l p' Hp _ IH]; intros Hm Ha; [by right|].
  apply Forall_cons in Ha as [Ha Hl]. destruct (marks_step _ _ _ _ _ Hm Hp Ha) as [Hs|Hm1].
  - left. exists a. split; [by left|done].
  - destruct (IH Hm1 Hl) as [(b & Hb & Hs)|H]; [|by right]. left. exists b. split; [by right|done].
Qed.
End marks.
