(* ===== verification/GcScanFacts.v ===== *)
(** * Marking: the scanning routines claim every pointer of an object *)
From S2P Require Import Prelude WsQueue GcProg GcScan GcLogic.

Section facts.
Context (im : image) (reset : bool).
Context (tyof : Z -> Z) (P Buf : Z -> Prop) (C : jl_gc_chunk_t -> Prop) (owes : jl_gc_chunk_t -> Z -> Prop).
Abbreviation safe := (safe tyof P Buf C).
Abbreviation marks := (marks tyof owes).
Abbreviation hdr_ok := (hdr_ok tyof).
Abbreviation claim := (gc_try_claim_and_push reset).

(** ** One object *)

Lemma setmark_safe o m : P o -> 0 <= m < 4 -> gc_marked m = true ->
  safe (gc_try_setmark_tag reset o m) None (fun b h => h = if b then Some o else None).
Proof.
  intros Ho Hm Hmk. unfold gc_try_setmark_tag. cbn. intros h Hh. destruct (gc_marked h) eqn:Eh; [done|]. cbn. split_and!; [done| | |done|].
  - destruct reset; [by apply hdr_set_bits|]. apply hdr_lor; [done|]. by destruct (gc_old h).
  - destruct reset; [by apply marked_lor|]. apply marked_lor. by destruct (gc_old h).
  - intros h' _. cbn. by destruct (gc_marked h').
Qed.

Lemma setmark_marks o m Q : 0 <= m < 4 -> gc_marked m = true -> marks o (gc_try_setmark_tag reset o m) Q.
Proof.
  intros Hm Hmk. unfold gc_try_setmark_tag. cbn. intros h Hh. destruct (gc_marked h) eqn:Eh; [by left|]. right. left. split; [done|].
  destruct reset; [by apply marked_lor|]. apply marked_lor. by destruct (gc_old h).
Qed.

Lemma claim_safe o n : (o <> 0 -> P o) -> safe (claim o n) None (fun _ h => h = None).
Proof.
  intros Ho. unfold gc_try_claim_and_push. destruct (Z.eqb_spec o 0); [done|]. cbn. intros h Hh. apply safe_bind.
  eapply safe_mono; [|apply setmark_safe; [by apply Ho|done|done]]. intros [] ? ->; cbn; done.
Qed.

Lemma claim_marks o n Q : o <> 0 -> marks o (claim o n) Q.
Proof.
  intros Ho. unfold gc_try_claim_and_push. destruct (Z.eqb_spec o 0); [done|]. cbn. intros h Hh. right. apply marks_bind. by apply setmark_marks.
Qed.

Lemma claim_all_safe l : Forall (fun o => o <> 0 -> P o) l -> safe (claim_all reset l) None (fun _ h => h = None).
Proof.
  induction 1 as [|o l Ho _ IH]; [done|]. cbn [claim_all]. eapply safe_then; [by apply claim_safe|by intros].
Qed.

Lemma claim_all_marks l v Q : v ∈ l -> v <> 0 -> marks v (claim_all reset l) Q.
Proof.
  induction 1 as [v l|v o l _ IH]; intros Hv; cbn [claim_all]; [by apply marks_bind, claim_marks|]. apply marks_later. intros _. by apply IH.
Qed.

(** ** Slots *)

Lemma scan_slots_safe l n : Forall (fun s => ldp im s <> 0 -> P (ldp im s)) l -> safe (scan_slots im reset l n) None (fun _ h => h = None).
Proof.
  intros H. revert n. induction H as [|s l Hs _ IH]; intros n; [done|]. cbn [scan_slots]. destruct (Z.eqb_spec (ldp im s) 0); [done|].
  eapply safe_then; [by apply claim_safe|by intros].
Qed.

Lemma scan_slots_marks l n s Q : s ∈ l -> ldp im s <> 0 -> marks (ldp im s) (scan_slots im reset l n) Q.
Proof.
  intros H Hs. revert n. induction H as [s l|s x l _ IH]; intros n; cbn [scan_slots].
  - rewrite (proj2 (Z.eqb_neq _ _) Hs). by apply marks_bind, claim_marks.
  - destruct (Z.eqb_spec (ldp im x) 0); [by apply IH|]. apply marks_later. intros. by apply IH.
Qed.

Lemma prescan_slots_safe l n : safe (prescan_slots im l n) None (fun _ h => h = None).
Proof.
  revert n. induction l as [|s l IH]; intros n; [done|]. cbn [prescan_slots]. destruct (_ =? _); [done|]. cbn. intros h _ h' _.
  destruct (gc_marked h'); [apply IH|done].
Qed.

(** An element that was passed over has all its objects marked. *)
Lemma prescan_slots_marks l n s (Q : bool * Z -> Prop) : s ∈ l -> ldp im s <> 0 -> (forall n, Q (true, n)) ->
  marks (ldp im s) (prescan_slots im l n) Q.
Proof.
  intros H Hs HQ. revert n. induction H as [s l|s x l _ IH]; intros n; cbn [prescan_slots].
  - rewrite (proj2 (Z.eqb_neq _ _) Hs). cbn. intros h _. right. intros h' _. destruct (gc_marked h') eqn:E; [by left|right]. apply HQ.
  - destruct (Z.eqb_spec (ldp im x) 0); [by apply IH|]. cbn. intros h _. right. intros h' _. right. destruct (gc_marked h'); [by apply IH|]. apply HQ.
Qed.

(** ** Arrays *)

(** The slots an array walk from [begin] to [end_] visits. *)
Definition target (e : elem) (step begin end_ v : Z) : Prop :=
  v <> 0 /\ exists i s, 0 <= i /\ begin + 8 * step * i < end_ /\ s ∈ elem_slots im e (begin + 8 * step * i) /\ ldp im s = v.

Lemma target_step e step begin end_ v : target e step begin end_ v ->
  begin < end_ \/ step < 0 -> (exists s, s ∈ elem_slots im e begin /\ ldp im s = v) \/ target e step (begin + 8 * step) end_ v.
Proof.
  intros (Hv & i & s & Hi & Hlt & Hs & E) _. destruct (decide (i = 0)) as [-> |Hne].
  - left. exists s. by rewrite Z.mul_0_r, Z.add_0_r in Hs.
  - right. split; [done|]. exists (i - 1), s. replace (begin + 8 * step + 8 * step * (i - 1)) with (begin + 8 * step * i) by lia. split_and!; [lia|done..].
Qed.

Lemma target_range e step begin end_ v : 0 < step -> target e step begin end_ v -> begin < end_.
Proof. intros Hs (_ & i & s & Hi & Hlt & _). nia. Qed.

Definition targets_ok (e : elem) (step begin end_ : Z) : Prop := forall v, target e step begin end_ v -> P v.

Lemma targets_ok_step e step begin end_ : targets_ok e step begin end_ -> targets_ok e step (begin + 8 * step) end_.
Proof.
  intros H v (Hv & i & s & Hi & Hlt & Hs & E). apply H. split; [done|]. exists (i + 1), s.
  replace (begin + 8 * step * (i + 1)) with (begin + 8 * step + 8 * step * i) by lia. split_and!; [lia|done..].
Qed.

Lemma targets_ok_first e step begin end_ : targets_ok e step begin end_ -> begin < end_ ->
  Forall (fun s => ldp im s <> 0 -> P (ldp im s)) (elem_slots im e begin).
Proof.
  intros H Hlt. apply Forall_forall. intros s Hs Hne. apply H. split; [done|]. exists 0, s. by rewrite Z.mul_0_r, Z.add_0_r.
Qed.

(** Enough fuel for the walk. *)
Definition enough (step begin end_ : Z) (n : nat) : Prop := (0 < n)%nat /\ end_ - begin <= 8 * step * (Z.of_nat n - 1).

Lemma enough_step step begin end_ n : 0 < step -> enough step begin end_ (S n) -> begin < end_ -> enough step (begin + 8 * step) end_ n.
Proof. intros Hs [_ H] Hlt. rewrite Nat2Z.inj_succ in H. split; [destruct n; [lia|lia]|nia]. Qed.

Lemma enough_iterations step begin end_ : 0 < step -> enough step begin end_ (iterations begin end_).
Proof. intros. unfold iterations. split; [lia|]. rewrite Nat2Z.inj_succ. nia. Qed.

Lemma scan_safe e step n begin end_ nptr : 0 < step -> enough step begin end_ n -> targets_ok e step begin end_ ->
  safe (scan im reset n e step begin end_ nptr) None (fun _ h => h = None).
Proof.
  intros Hs. revert begin nptr. induction n as [|n IH]; intros begin nptr Hn Ht; [destruct Hn; lia|]. cbn [scan]. destruct (Z.ltb_spec begin end_); [|done].
  eapply safe_then; [apply scan_slots_safe; by eapply targets_ok_first|]. intros nptr'. apply IH; [by apply enough_step|by apply targets_ok_step].
Qed.

Lemma scan_marks e step n begin end_ nptr v Q : 0 < step -> enough step begin end_ n -> target e step begin end_ v ->
  marks v (scan im reset n e step begin end_ nptr) Q.
Proof.
  intros Hs. revert begin nptr. induction n as [|n IH]; intros begin nptr Hn Ht; [destruct Hn; lia|]. cbn [scan].
  pose proof (target_range _ _ _ _ _ Hs Ht) as Hlt. rewrite (proj2 (Z.ltb_lt _ _) Hlt). pose proof Ht as [Hv _].
  destruct (target_step _ _ _ _ _ Ht) as [(s & Hin & <-)|Ht']; [by left| |].
  - apply marks_bind. by apply scan_slots_marks.
  - apply marks_later. intros. apply IH; [by apply enough_step|done].
Qed.

Lemma prescan_safe e step n begin end_ nptr : 0 < step -> enough step begin end_ n ->
  safe (prescan im n e step begin end_ nptr) None (fun r h => h = None /\ exists i, 0 <= i /\ r.1 = begin + 8 * step * i).
Proof.
  intros Hs. revert begin nptr. induction n as [|n IH]; intros begin nptr Hn; [destruct Hn; lia|]. cbn [prescan].
  destruct (Z.ltb_spec begin end_); [|cbn; split; [done|exists 0; lia]]. eapply safe_then; [apply prescan_slots_safe|]. intros [early nptr'].
  destruct early; [cbn; split; [done|exists 0; lia]|]. eapply safe_mono; [|apply IH; by apply enough_step].
  intros r h (-> & i & Hi & E). split; [done|]. exists (i + 1). split; [lia|]. rewrite E. lia.
Qed.

Lemma prescan_marks e step n begin end_ nptr v : 0 < step -> enough step begin end_ n -> target e step begin end_ v ->
  marks v (prescan im n e step begin end_ nptr) (fun r => target e step r.1 end_ v).
Proof.
  intros Hs. revert begin nptr. induction n as [|n IH]; intros begin nptr Hn Ht; [destruct Hn; lia|]. cbn [prescan].
  pose proof (target_range _ _ _ _ _ Hs Ht) as Hlt. rewrite (proj2 (Z.ltb_lt _ _) Hlt). pose proof Ht as [Hv _].
  apply marks_bind. destruct (target_step _ _ _ _ _ Ht) as [(s & Hin & <-)|Ht']; [by left| |].
  - by apply prescan_slots_marks.
  - assert (forall l nptr, marks v (prescan_slots im l nptr) (fun a : bool * Z => marks v (let '(early_end, nptr) := a in
      if early_end then Ret (begin, nptr) else prescan im n e step (begin + 8 * step) end_ nptr) (fun r => target e step r.1 end_ v))) as H; [|apply H].
    intros l nptr'. rewrite <- (app_nil_r l). eapply (marks_mono _ _ _ _ (fun _ => True)); [|].
    + intros [early nptr''] _. destruct early; [done|]. apply IH; [by apply enough_step|done].
    + clear. revert nptr'. induction l as [|s l IHl]; intros nptr'; [done|]. cbn. destruct (_ =? _); [apply IHl|]. cbn. intros h _. right.
      intros h' _. right. destruct (gc_marked h'); [apply IHl|done].
Qed.

Lemma target_split e step begin end_ v : 0 < step -> target e step begin end_ v ->
  let mid := begin + 8 * (step * GC_CHUNK_BATCH_SIZE) in target e step begin mid v \/ target e step mid end_ v.
Proof.
  intros Hs (Hv & i & s & Hi & Hlt & Hin & E) mid. destruct (decide (begin + 8 * step * i < mid)) as [Hm|Hm].
  - left. split; [done|]. by exists i, s.
  - right. split; [done|]. exists (i - GC_CHUNK_BATCH_SIZE), s. assert (GC_CHUNK_BATCH_SIZE <= i) by (unfold mid in Hm; nia).
    replace (mid + 8 * step * (i - GC_CHUNK_BATCH_SIZE)) with (begin + 8 * step * i) by (unfold mid; lia). split_and!; [lia|done..].
Qed.

Lemma targets_ok_from e step begin end_ i : 0 <= i -> targets_ok e step begin end_ -> targets_ok e step (begin + 8 * step * i) end_.
Proof.
  intros Hi H v (Hv & j & s & Hj & Hlt & Hs & E). apply H. split; [done|]. exists (i + j), s.
  replace (begin + 8 * step * (i + j)) with (begin + 8 * step * i + 8 * step * j) by lia. split_and!; [lia|done..].
Qed.

Lemma remset_safe o n : safe (gc_mark_push_remset o n) None (fun _ h => h = None).
Proof. unfold gc_mark_push_remset. by destruct (_ =? _). Qed.

Lemma too_big_room step d : 0 < step -> step < Z.quot (Z.quot d 8) GC_CHUNK_BATCH_SIZE -> 8 * (step * GC_CHUNK_BATCH_SIZE) <= d.
Proof.
  unfold GC_CHUNK_BATCH_SIZE. intros Hs Hb. destruct (Z.le_gt_cases 0 d) as [Hd|Hd].
  - rewrite !Z.quot_div_nonneg in Hb by (try apply Z.quot_pos; lia). pose proof (Z.mul_div_le d 8). pose proof (Z.mul_div_le (d / 8) (2 ^ 16)). nia.
  - pose proof (Z.quot_opp_l (- d) 8) as E1. pose proof (Z.quot_pos (- d) 8). pose proof (Z.quot_opp_l (Z.quot (- d) 8) (2 ^ 16)) as E2.
    pose proof (Z.quot_pos (Z.quot (- d) 8) (2 ^ 16)). rewrite Z.opp_involutive in E1. rewrite <- E1 in E2 by lia. lia.
Qed.

Lemma mark_elems_safe e batch chunk parent begin end_ step nptr : 0 < step -> batch = step * GC_CHUNK_BATCH_SIZE ->
  targets_ok e step begin end_ -> (forall a n, targets_ok e step a end_ -> C (chunk a n)) ->
  safe (mark_elems im reset e batch chunk parent begin end_ step nptr) None (fun _ h => h = None).
Proof.
  intros Hs -> Ht Hc. unfold mark_elems. apply safe_bind.
  assert (forall i n, 0 <= i -> safe (let too_big := step <? Z.quot (Z.quot (end_ - (begin + 8 * step * i)) 8) GC_CHUNK_BATCH_SIZE in
    let scan_end := if too_big then begin + 8 * step * i + 8 * (step * GC_CHUNK_BATCH_SIZE) else end_ in
    let early := too_big && (negb (Z.land n 2 =? 2) || (Z.land n 3 =? 3)) in
    _ ← (if early then gc_chunkqueue_push (chunk scan_end n) else Ret tt);
    nptr ← scan im reset (iterations (begin + 8 * step * i) scan_end) e step (begin + 8 * step * i) scan_end n;
    if too_big then (if early then Ret tt else gc_chunkqueue_push (chunk scan_end nptr)) else gc_mark_push_remset parent nptr) None (fun _ h => h = None)) as H.
  - intros i n Hi. cbv zeta. set (a := begin + 8 * step * i). pose proof (targets_ok_from _ _ _ _ _ Hi Ht) as Ha. fold a in Ha.
    set (mid := a + 8 * (step * GC_CHUNK_BATCH_SIZE)).
    assert (targets_ok e step mid end_) as Hmid.
    { unfold mid. replace (a + 8 * (step * GC_CHUNK_BATCH_SIZE)) with (a + 8 * step * GC_CHUNK_BATCH_SIZE) by lia. apply targets_ok_from; [done|done]. }
    destruct (Z.ltb_spec step (Z.quot (Z.quot (end_ - a) 8) GC_CHUNK_BATCH_SIZE)) as [Hb|Hb]; cbn [andb].
    + assert (targets_ok e step a mid) as Hlow.
      { intros v (Hv & j & s & Hj & Hlt & Hin & E). apply Ha. split; [done|]. exists j, s. split_and!; [done| |done..].
        pose proof (too_big_room step (end_ - a) Hs Hb). unfold mid in Hlt. lia. }
      eapply safe_then with (h1 := None).
      * destruct (_ || _); cbn; [|done]. split_and!; [by apply Hc|done..].
      * intros _. eapply safe_then; [apply scan_safe; [done|by apply enough_iterations|done]|]. intros n'. destruct (_ || _); cbn; [done|].
        split_and!; [by apply Hc|done..].
    + eapply safe_then with (h1 := None); [done|]. intros _. eapply safe_then; [apply scan_safe; [done|by apply enough_iterations|done]|].
      intros n'. apply remset_safe.
  - destruct (_ =? _).
    + eapply safe_mono; [|apply prescan_safe; [done|by apply enough_iterations]]. intros [b n] h (-> & i & Hi & E). cbn in E. subst b. by apply H.
    + cbn. specialize (H 0 nptr ltac:(lia)). rewrite Z.mul_0_r, Z.add_0_r in H. apply H.
Qed.

Lemma mark_elems_marks e batch chunk parent begin end_ step nptr v Q : 0 < step -> batch = step * GC_CHUNK_BATCH_SIZE ->
  target e step begin end_ v -> (forall a n, target e step a end_ v -> owes (chunk a n) v) ->
  marks v (mark_elems im reset e batch chunk parent begin end_ step nptr) (fun _ => Q).
Proof.
  intros Hs -> Ht Hc. unfold mark_elems. apply marks_bind.
  assert (forall a n, target e step a end_ v -> marks v (let too_big := step <? Z.quot (Z.quot (end_ - a) 8) GC_CHUNK_BATCH_SIZE in
    let scan_end := if too_big then a + 8 * (step * GC_CHUNK_BATCH_SIZE) else end_ in
    let early := too_big && (negb (Z.land n 2 =? 2) || (Z.land n 3 =? 3)) in
    _ ← (if early then gc_chunkqueue_push (chunk scan_end n) else Ret tt);
    nptr ← scan im reset (iterations a scan_end) e step a scan_end n;
    if too_big then (if early then Ret tt else gc_chunkqueue_push (chunk scan_end nptr)) else gc_mark_push_remset parent nptr) (fun _ => Q)) as H.
  - intros a n Ha. cbv zeta. destruct (_ <? _); cbn [andb].
    + destruct (target_split _ _ _ _ _ Hs Ha) as [Hlow|Hhigh].
      * apply marks_later. intros _. apply marks_bind, scan_marks; [done|by apply enough_iterations|done].
      * destruct (_ || _); [apply marks_bind; cbn; left; by apply Hc|]. apply marks_later. intros _. apply marks_later. intros n'. cbn. left. by apply Hc.
    + apply marks_later. intros _. apply marks_bind, scan_marks; [done|by apply enough_iterations|done].
  - destruct (_ =? _).
    + eapply marks_mono; [|apply prescan_marks; [done|by apply enough_iterations|done]]. intros [b n] Hb. by apply H.
    + cbn. by apply H.
Qed.
End facts.
