(* ===== verification/GcChildren.v ===== *)
(** * Marking: which objects an object refers to

    A description of the references of an object, by the kind its header names,
    and what the scanner relies on: types have valid layouts, the callbacks of
    foreign types claim what they own, stacks end. *)
From S2P Require Import Prelude WsQueue GcProg GcScan GcLogic GcScanFacts.

Section children.
Context (im : image) (frames : nat) (tyof : Z -> Z) (foreign : Z -> Z -> Prop).
Abbreviation ldp := (ldp im).
Abbreviation ld := (ld im).

(** ** Roots on stacks *)

(** The roots of a frame: slots that hold a pointer to the root, or the root
    itself, tagged in the lists of finalizers that are kept in frames. *)
Fixpoint frame_roots (n : nat) (rts nroots i offset lb ub : Z) : list Z :=
  match n with
  | O => []
  | S n =>
      let w := gc_read_stack im (rts + 8 * i) offset lb ub in
      if Z.testbit nroots 0 then gc_read_stack im w offset lb ub :: frame_roots n rts nroots (i + 1) offset lb ub
      else if gc_ptr_tag w GC_FIN_CFUNC_TAG then
        let v := gc_ptr_clear_tag w GC_FIN_CFUNC_TAG in
        (if gc_ptr_tag v GC_FIN_COBJ_TAG || (v <? jl_max_tags * 16) then [] else [v]) ++
        match n with O => [] | S n => frame_roots n rts nroots (i + 2) offset lb ub end
      else (if gc_ptr_tag w GC_FIN_COBJ_TAG || (w <? jl_max_tags * 16) then [] else [w]) ++ frame_roots n rts nroots (i + 1) offset lb ub
  end.

Fixpoint stack_roots (frames : nat) (s nroots offset lb ub : Z) : option (list Z) :=
  match frames with
  | O => None
  | S frames =>
      let l := frame_roots (Z.to_nat (Z.shiftr nroots 2)) (s + 16) nroots 0 offset lb ub in
      let sprev := gc_read_stack im (s + 8) offset lb ub in
      if sprev =? 0 then Some l
      else r ← stack_roots frames sprev (u32 (gc_read_stack im sprev offset lb ub)) offset lb ub; Some (l ++ r)
  end.

(** The values of a backtrace's extended entries, and an exception stack's. *)
Fixpoint bt_roots (n : nat) (bt_data bt_index bt_size : Z) : list Z :=
  match n with
  | O => []
  | S n => if bt_index <? bt_size
           then bt_entry_jlvals im (bt_data + 8 * bt_index) ++ bt_roots n bt_data (bt_index + jl_bt_entry_size im (bt_data + 8 * bt_index)) bt_size
           else []
  end.
Fixpoint exc_roots (n : nat) (data itr : Z) : list Z :=
  match n with
  | O => []
  | S n => if 0 <? itr then
             let bt_size := ldp (data + 8 * (itr - 2)) in
             bt_roots (Z.to_nat bt_size) (data + 8 * (itr - 2 - bt_size)) 0 bt_size ++ [ldp (data + 8 * (itr - 1))] ++ exc_roots n data (itr - 2 - bt_size)
           else []
  end.

(** ** References by kind *)

Definition field_child (w : nat) (d n o v : Z) : Prop := v <> 0 /\ exists i, 0 <= i < n /\ v = ldp (o + 8 * ld w (d + Z.of_nat w * i)).

Definition task_stack (ta : Z) : option (list Z) :=
  let s := task_gcstack im ta in
  let '(offset, lb, ub) :=
    match task_copied im ta with
    | Some (stackbase, copy_stack) => (u64 (task_stkbuf im ta - (stackbase - copy_stack)), stackbase - copy_stack, stackbase)
    | None => (0, 0, 2 ^ 64 - 1)
    end in
  if s =? 0 then Some [] else stack_roots frames s (u32 (gc_read_stack im s offset lb ub)) offset lb ub.
Definition task_child (ta v : Z) : Prop :=
  v <> 0 /\ (v ∈ default [] (task_stack ta) \/
    (task_excstack im ta <> 0 /\ v ∈ exc_roots (Z.to_nat (ldp (task_excstack im ta))) (task_excstack im ta + 16) (ldp (task_excstack im ta)))) \/
  field_child 1 (jl_dt_layout_ptrs im (dt_layout im (jl_task_type im))) (ly_npointers im (dt_layout im (jl_task_type im))) ta v.

Definition module_child (m v : Z) : Prop :=
  (v <> 0 /\ v ∈ [ldp (m + 16); ldp (m + 24); ldp (m + 8); ldp (m + 48); ldp (m + 56)]) \/
  target im Boxed 4 (ldp (m + 80)) (ldp (m + 80) + 32 * module_usings_length im m) v.

Definition cancel_child (cs v : Z) : Prop :=
  target im Boxed 1 (cs + 8) (cs + 24) v \/ target im Boxed 3 (cs + 40) (cs + 40 + 24 * ld 2 (cs + 26)) v.

(** The task, and the [owner] and [next] of each wait slot. *)
Definition wait_child (we v : Z) : Prop :=
  target im Boxed 1 we (we + 8) v \/ v <> 0 /\ exists i, 0 <= i < ld 4 (we + 8) /\ (v = ldp (we + 16 + 24 * i) \/ v = ldp (we + 16 + 24 * i + 8)).

Definition memory_child (vt m v : Z) : Prop :=
  let ly := dt_layout im vt in
  let elsize := ly_size im ly / 8 in
  let begin := memory_ptr im m in
  let end_ := begin + 8 * (memory_length im m * elsize) in
  if jl_genericmemory_how im m =? JL_GENERICMEMORY_STRINGOWNED then v <> 0 /\ v = memory_owner im m
  else if ly_isboxed im ly then
    ldp (dt_parameters im vt + 16) <> jl_symbol_type im /\ target im Boxed 1 begin (begin + 8 * memory_length im m) v
  else 0 <= ly_first_ptr im ly /\ memory_length im m <> 0 /\
    if ly_npointers im ly =? 1 then target im Boxed elsize (begin + 8 * ly_first_ptr im ly) end_ v
    else let w := if ly_fielddesc_type im ly =? JL_FIELDDESC_8 then 1%nat else 2%nat in
         let ptrs := jl_dt_layout_ptrs im ly in
         target im (Fields w ptrs (ptrs + Z.of_nat w * ly_npointers im ly)) elsize begin end_ v.

Definition desc_width (t : Z) : nat := if t =? JL_FIELDDESC_8 then 1 else if t =? JL_FIELDDESC_16 then 2 else 4.
Definition fields_child (vt o v : Z) : Prop :=
  let ly := dt_layout im vt in
  vt <> jl_weakref_type im /\ ly_npointers im ly <> 0 /\
  if ly_fielddesc_type im ly =? JL_FIELDDESC_FOREIGN then foreign o v
  else field_child (desc_width (ly_fielddesc_type im ly)) (jl_dt_layout_ptrs im ly) (ly_npointers im ly) o v.
Definition type_child (vt o v : Z) : Prop :=
  if dt_name im vt =? jl_genericmemory_typename im then memory_child vt o v else fields_child vt o v.

(** The type of an object with a big tag is the tag; small tags of the generic
    range stand for a type, the others for a kind of object. *)
Definition vtag (o : Z) : Z := vtag_of (tyof o).
Definition generic_tag (t : Z) : bool := u64 (t - jl_unionall_tag * 16) <=? (jl_quotenode_tag - jl_unionall_tag) * 16.
Definition child (o v : Z) : Prop :=
  let t := vtag o in
  if jl_max_tags * 16 <=? t then type_child t o v
  else if generic_tag t then type_child (ijl_small_typeof im (t / 8)) o v
  else if t =? jl_simplevector_tag * 16 then target im Boxed 1 (o + 8) (o + 8 + 8 * ldp o) v
  else if t =? jl_module_tag * 16 then module_child o v
  else if t =? jl_task_tag * 16 then task_child o v \/ foreign o v
  else if t =? jl_cancel_source_tag * 16 then cancel_child o v
  else if t =? jl_wait_entry_tag * 16 then wait_child o v
  else False.

(** The buffers of a task: headers of their own, but no objects. *)
Definition buffer (o b : Z) : Prop :=
  vtag o = jl_task_tag * 16 /\ b <> 0 /\ (b = task_stkbuf im o \/ b = task_excstack im o).

(** ** What the scanner relies on *)

(** Elements stored inline: 8- or 16-bit descriptors, fewer than 2^16 words. *)
Definition memory_type_ok (vt : Z) : Prop :=
  let ly := dt_layout im vt in
  ly_isboxed im ly = false -> 0 <= ly_first_ptr im ly ->
  0 < ly_size im ly / 8 < 2 ^ 16 /\
  (ly_npointers im ly <> 1 -> 0 <= ly_npointers im ly /\ (ly_fielddesc_type im ly = JL_FIELDDESC_8 \/ ly_fielddesc_type im ly = JL_FIELDDESC_16)).
Definition type_ok (vt : Z) : Prop := if dt_name im vt =? jl_genericmemory_typename im then memory_type_ok vt else True.
Definition object_ok (o : Z) : Prop :=
  let t := vtag o in
  if jl_max_tags * 16 <=? t then vtag t = jl_datatype_tag * 16 /\ dt_smalltag im t = 0 /\ type_ok t
  else if generic_tag t then type_ok (ijl_small_typeof im (t / 8))
  else t = jl_task_tag * 16 -> is_Some (task_stack o).

(** ** Chunks *)

(** A list of finalizers: pairs of an object and its finalizer; when the object
    is tagged as having a C function the finalizer is no object. *)
Definition fin_word (w : Z) : list Z :=
  let v := if gc_ptr_tag w GC_FIN_CFUNC_TAG then gc_ptr_clear_tag w GC_FIN_CFUNC_TAG else w in
  if gc_ptr_tag v GC_FIN_COBJ_TAG then [] else [v].
Definition fin_pair (a : Z) : list Z :=
  fin_word (ldp a) ++ if gc_ptr_tag (ldp a) GC_FIN_CFUNC_TAG then [] else fin_word (ldp (a + 8)).
Definition fin_pairs (begin end_ : Z) : list Z := map (fun i => begin + 16 * Z.of_nat i) (seq 0 (Z.to_nat ((end_ - begin) / 16))).
Definition fin_targets (begin end_ v : Z) : Prop := v <> 0 /\ exists a, a ∈ fin_pairs begin end_ /\ v ∈ fin_pair a.
Definition fin_ok (begin end_ : Z) : Prop :=
  (exists n, end_ - begin = 16 * Z.of_nat n) /\
  forall a, a ∈ fin_pairs begin end_ -> gc_ptr_tag (ldp a) GC_FIN_CFUNC_TAG = false -> gc_ptr_tag (ldp (a + 8)) GC_FIN_CFUNC_TAG = false.

Definition owes (c : jl_gc_chunk_t) (v : Z) : Prop :=
  if cid c =? GC_objary_chunk then target im Boxed (step c) (begin_ c) (end_ c) v
  else if cid c =? GC_ary8_chunk then target im (Fields 1 (elem_begin c) (elem_end c)) (step c) (begin_ c) (end_ c) v
  else if cid c =? GC_ary16_chunk then target im (Fields 2 (elem_begin c) (elem_end c)) (step c) (begin_ c) (end_ c) v
  else if cid c =? GC_finlist_chunk then fin_targets (begin_ c) (end_ c) v
  else False.

(** The chunks that are pushed. *)
Definition chunk_ok (c : jl_gc_chunk_t) : Prop :=
  (cid c = GC_objary_chunk \/ cid c = GC_ary8_chunk \/ cid c = GC_ary16_chunk \/ (cid c = GC_finlist_chunk /\ fin_ok (begin_ c) (end_ c))) /\
  (cid c = GC_finlist_chunk \/ 0 < step c) /\ 0 <= step c < 2 ^ 16.
End children.
