(* ===== verification/GcScanRoutines.v ===== *)
(** * Marking: fields, stacks, modules, lists of finalizers and chunks *)
From S2P Require Import Prelude WsQueue GcProg GcScan GcLogic GcScanFacts GcChildren.

(** * Marking: fields, stacks, modules, lists of finalizers and chunks *)

(** Facts of the form "a routine ends with nothing claimed". *)
Ltac then_none := eapply safe_then with (h1 := None); [|intros ?].

Section routines.
Context (im : image) (reset : bool) (frames : nat).
Context (tyof : Z -> Z) (P Buf : Z -> Prop) (C : jl_gc_chunk_t -> Prop).
Abbreviation owes := (owes im).
Abbreviation safe := (safe tyof P Buf C).
Abbreviation marks := (marks tyof owes).
Abbreviation none := (fun _ h => h = None :> option Z).
Hypothesis HC : forall c, chunk_ok im c -> (forall v, owes c v -> P v) -> C c.

Definition held_of (v : Z) : option Z := if v =? 0 then None else Some v.

Lemma Note_safe e : safe (note_ e) None none.
Proof. done. Qed.

Lemma setmark_if_safe b o m sz : safe (gc_setmark_if b o m sz) None none.
Proof. unfold gc_setmark_if, gc_setmark. destruct b; [|done]. by destruct (sz <=? _). Qed.

Lemma setmark_buf_safe o m sz : Buf o -> 0 <= m < 4 -> gc_marked m = true -> safe (gc_setmark_buf im reset o m sz) None none.
Proof.
  intros Ho Hm Hmk. unfold gc_setmark_buf. cbn. intros h0 _ h Hh. destruct (gc_marked h) eqn:Eh; [done|]. cbn. split_and!; [done|..].
  - destruct reset; [by apply hdr_set_bits|]. apply hdr_lor; [done|]. by destruct (gc_old h).
  - destruct reset; [by apply marked_lor|]. apply marked_lor. by destruct (gc_old h).
  - intros h' _. destruct (gc_marked h'); [done|]. by destruct (_ && _).
Qed.

(** ** Fields *)

Lemma field_child_S w d n o v : field_child im w d (Z.of_nat (S n)) o v ->
  v = ldp im (o + 8 * ld im w d) /\ v <> 0 \/ field_child im w (d + Z.of_nat w) (Z.of_nat n) o v.
Proof.
  intros (Hv & i & Hi & E). destruct (decide (i = 0)) as [-> |Hne].
  - left. split; [|done]. rewrite E. by rewrite Z.mul_0_r, Z.add_0_r.
  - right. split; [done|]. exists (i - 1). split; [lia|]. rewrite E. do 4 f_equal. lia.
Qed.

Lemma field_child_tail w d n o v : field_child im w (d + Z.of_nat w) (Z.of_nat n) o v -> field_child im w d (Z.of_nat (S n)) o v.
Proof. intros (Hv & i & Hi & E). split; [done|]. exists (i + 1). split; [lia|]. rewrite E. do 4 f_equal. lia. Qed.

Lemma mark_obj_loop_safe w n o d nptr new_obj : (forall v, field_child im w d (Z.of_nat n) o v -> P v) ->
  safe (mark_obj_loop im reset w n o d nptr new_obj) (if decide (n = 0)%nat then held_of new_obj else None) (fun r h => h = held_of r.1).
Proof.
  revert d nptr new_obj. induction n as [|n IH]; intros d nptr new_obj HP; [done|]. rewrite decide_False by done. cbn [mark_obj_loop].
  set (v := ldp im (o + 8 * ld im w d)). assert (forall u, field_child im w (d + Z.of_nat w) (Z.of_nat n) o u -> P u) as HP'.
  { intros u Hu. by apply HP, field_child_tail. }
  assert (v <> 0 -> P v) as Hv.
  { intros Hv. apply HP. split; [done|]. exists 0. split; [lia|]. unfold v. by rewrite Z.mul_0_r, Z.add_0_r. }
  destruct (Z.eqb_spec v 0) as [E0|Hne]; [rewrite E0; specialize (IH (d + Z.of_nat w) nptr 0 HP'); by destruct (decide _)|].
  destruct n as [|n]; cbn [Nat.eqb negb].
  - cbn. intros h _. apply safe_bind. eapply safe_mono; [|apply setmark_safe; [by apply Hv|done|done]].
    intros [] ? ->; cbn; [unfold held_of; by destruct (Z.eqb_spec v 0)|done].
  - then_none; [by apply claim_safe|]. by apply IH.
Qed.

Lemma mark_obj_loop_marks w n o d nptr new_obj v Q : field_child im w d (Z.of_nat n) o v ->
  marks v (mark_obj_loop im reset w n o d nptr new_obj) Q.
Proof.
  revert d nptr new_obj. induction n as [|n IH]; intros d nptr new_obj Hc; [by destruct Hc as (_ & i & Hi & _); lia|]. cbn [mark_obj_loop].
  destruct (field_child_S _ _ _ _ _ Hc) as [(E & Hv)|Hc'].
  - rewrite <- E, (proj2 (Z.eqb_neq _ _) Hv). destruct n as [|n]; cbn [Nat.eqb negb].
    + cbn. intros h _. right. apply marks_bind. by apply setmark_marks.
    + apply marks_bind. by apply claim_marks.
  - destruct (_ =? 0); [by apply IH|]. destruct n as [|n]; [by destruct Hc' as (_ & i & Hi & _); lia|]. cbn [Nat.eqb negb].
    apply marks_later. intros. by apply IH.
Qed.

Lemma mark_obj_safe w o d n nptr : 0 <= n -> (forall v, field_child im w d n o v -> P v) ->
  safe (gc_mark_obj im reset w o d n nptr) None (fun v h => h = held_of v).
Proof.
  intros Hn HP. unfold gc_mark_obj. apply safe_bind.
  pose proof (mark_obj_loop_safe w (Z.to_nat n) o d nptr 0) as H. rewrite Z2Nat.id in H by done. specialize (H HP).
  eapply safe_mono; [|destruct (decide _); apply H]. intros [v nptr'] h ->. cbn. unfold gc_mark_push_remset. by destruct (_ =? 3).
Qed.

Lemma mark_obj_marks w o d n nptr v Q : field_child im w d n o v -> marks v (gc_mark_obj im reset w o d n nptr) Q.
Proof.
  intros Hc. assert (0 <= n) by (destruct Hc as (_ & i & Hi & _); lia). unfold gc_mark_obj. apply marks_bind, mark_obj_loop_marks. by rewrite Z2Nat.id.
Qed.

(** ** Arrays of pointers, by the kind of chunk *)

Lemma objarray_safe o begin end_ step nptr : 0 < step < 2 ^ 16 -> targets_ok im P Boxed step begin end_ ->
  safe (gc_mark_objarray im reset o begin end_ step nptr) None none.
Proof.
  intros Hs Ht. unfold gc_mark_objarray. eapply (mark_elems_safe im reset tyof P Buf C); [lia| |done|].
  - apply uw_small. unfold GC_CHUNK_BATCH_SIZE. split; [lia|]. change (2 ^ 32) with (2 ^ 16 * 2 ^ 16). nia.
  - intros a n Ha. apply HC; [|done]. split_and!; cbn; lia.
Qed.

Lemma objarray_marks o begin end_ step nptr v Q : 0 < step < 2 ^ 16 -> target im Boxed step begin end_ v ->
  marks v (gc_mark_objarray im reset o begin end_ step nptr) (fun _ => Q).
Proof.
  intros Hs Ht. unfold gc_mark_objarray. eapply (mark_elems_marks im reset tyof owes); [lia| |done|done].
  apply uw_small. unfold GC_CHUNK_BATCH_SIZE. split; [lia|]. change (2 ^ 32) with (2 ^ 16 * 2 ^ 16). nia.
Qed.

Lemma u64_batch step : 0 < step < 2 ^ 16 -> u64 (step * GC_CHUNK_BATCH_SIZE) = step * GC_CHUNK_BATCH_SIZE.
Proof. intros. apply uw_small. unfold GC_CHUNK_BATCH_SIZE. split; [lia|]. change (2 ^ 64) with (2 ^ 16 * 2 ^ 48). nia. Qed.

Lemma u32_step step : 0 < step < 2 ^ 16 -> u32 step = step.
Proof. intros. apply uw_small. split; lia. Qed.

Lemma memory8_safe o begin end_ p pend step nptr : 0 < step < 2 ^ 16 -> targets_ok im P (Fields 1 p pend) step begin end_ ->
  safe (gc_mark_memory8 im reset o begin end_ p pend step nptr) None none.
Proof.
  intros Hs Ht. unfold gc_mark_memory8. eapply (mark_elems_safe im reset tyof P Buf C); [lia|by apply u64_batch|done|].
  intros a n Ha. rewrite u32_step by done. apply HC; [|done]. split_and!; cbn; lia.
Qed.

Lemma memory8_marks o begin end_ p pend step nptr v Q : 0 < step < 2 ^ 16 -> target im (Fields 1 p pend) step begin end_ v ->
  marks v (gc_mark_memory8 im reset o begin end_ p pend step nptr) (fun _ => Q).
Proof.
  intros Hs Ht. unfold gc_mark_memory8. eapply (mark_elems_marks im reset tyof owes); [lia|by apply u64_batch|done|]. intros. by rewrite u32_step.
Qed.

Lemma memory16_safe o begin end_ p pend step nptr : 0 < step < 2 ^ 16 -> targets_ok im P (Fields 2 p pend) step begin end_ ->
  safe (gc_mark_memory16 im reset o begin end_ p pend step nptr) None none.
Proof.
  intros Hs Ht. unfold gc_mark_memory16. eapply (mark_elems_safe im reset tyof P Buf C); [lia|by apply u64_batch|done|].
  intros a n Ha. rewrite u32_step by done. apply HC; [|done]. split_and!; cbn; lia.
Qed.

Lemma memory16_marks o begin end_ p pend step nptr v Q : 0 < step < 2 ^ 16 -> target im (Fields 2 p pend) step begin end_ v ->
  marks v (gc_mark_memory16 im reset o begin end_ p pend step nptr) (fun _ => Q).
Proof.
  intros Hs Ht. unfold gc_mark_memory16. eapply (mark_elems_marks im reset tyof owes); [lia|by apply u64_batch|done|]. intros. by rewrite u32_step.
Qed.
End routines.

(** * Marking: stacks, exceptions, finalizers *)

Section stacks.
Context (im : image) (reset : bool) (frames : nat).
Context (tyof : Z -> Z) (P Buf : Z -> Prop) (C : jl_gc_chunk_t -> Prop).
Abbreviation owes := (owes im).
Abbreviation safe := (safe tyof P Buf C).
Abbreviation marks := (marks tyof owes).
Abbreviation none := (fun _ h => h = None :> option Z).
Hypothesis HC : forall c, chunk_ok im c -> (forall v, owes c v -> P v) -> C c.

Definition all_ok (l : list Z) : Prop := Forall (fun v => v <> 0 -> P v) l.

Lemma all_ok_app l k : all_ok (l ++ k) <-> all_ok l /\ all_ok k.
Proof. apply Forall_app. Qed.

(** ** Frames *)

Lemma frame_roots_S n rts nroots i offset lb ub : frame_roots im (S n) rts nroots i offset lb ub =
  let w := gc_read_stack im (rts + 8 * i) offset lb ub in
  if Z.testbit nroots 0 then gc_read_stack im w offset lb ub :: frame_roots im n rts nroots (i + 1) offset lb ub
  else if gc_ptr_tag w GC_FIN_CFUNC_TAG then
    let v := gc_ptr_clear_tag w GC_FIN_CFUNC_TAG in
    (if gc_ptr_tag v GC_FIN_COBJ_TAG || (v <? jl_max_tags * 16) then [] else [v]) ++ frame_roots im (n - 1) rts nroots (i + 2) offset lb ub
  else (if gc_ptr_tag w GC_FIN_COBJ_TAG || (w <? jl_max_tags * 16) then [] else [w]) ++ frame_roots im n rts nroots (i + 1) offset lb ub.
Proof. cbn [frame_roots]. destruct (Z.testbit nroots 0); [done|]. destruct (gc_ptr_tag _ _); [|done]. destruct n; [done|]. by replace (S n - 1)%nat with n by lia. Qed.

(** The walk of a frame claims its roots: with [k] slots left, whatever the
    fuel above that. *)
Lemma mark_frame_safe n k rts nr nroots i offset lb ub : nr - i <= Z.of_nat k -> Z.of_nat k <= Z.max 0 (nr - i) ->
  all_ok (frame_roots im k rts nroots i offset lb ub) -> safe (mark_frame im reset n rts nr nroots i offset lb ub) None none.
Proof.
  revert k i. induction n as [|n IH]; intros k i Hk Hk' H; [done|]. cbn [mark_frame]. destruct (Z.ltb_spec i nr); [|done].
  destruct k as [|k]; [lia|]. rewrite frame_roots_S in H. cbv zeta in H. destruct (Z.testbit nroots 0).
  - inversion H; subst. then_none; [by apply claim_safe|]. apply (IH k); (done || lia).
  - destruct (gc_ptr_tag _ GC_FIN_CFUNC_TAG); apply all_ok_app in H as [H1 H2].
    + replace (i + 1 + 1) with (i + 2) by lia.
      destruct (gc_ptr_tag _ GC_FIN_COBJ_TAG); [apply (IH (k - 1)%nat); (done || lia)|]. destruct (_ <? _); [apply (IH (k - 1)%nat); (done || lia)|].
      inversion H1; subst. then_none; [by apply claim_safe|]. apply (IH (k - 1)%nat); (done || lia).
    + destruct (gc_ptr_tag _ GC_FIN_COBJ_TAG); [apply (IH k); (done || lia)|]. destruct (_ <? _); [apply (IH k); (done || lia)|].
      inversion H1; subst. then_none; [by apply claim_safe|]. apply (IH k); (done || lia).
Qed.

Lemma mark_frame_marks n k rts nr nroots i offset lb ub v Q : nr - i <= Z.of_nat k -> Z.of_nat k <= Z.max 0 (nr - i) -> (k <= n)%nat ->
  v <> 0 -> v ∈ frame_roots im k rts nroots i offset lb ub -> marks v (mark_frame im reset n rts nr nroots i offset lb ub) Q.
Proof.
  revert k i. induction n as [|n IH]; intros k i Hk Hk' Hle Hv H; [destruct k; [by apply not_elem_of_nil in H|lia]|].
  destruct k as [|k]; [by apply not_elem_of_nil in H|]. cbn [mark_frame]. rewrite (proj2 (Z.ltb_lt i nr)) by lia.
  rewrite frame_roots_S in H. cbv zeta in H. destruct (Z.testbit nroots 0).
  - apply elem_of_cons in H as [-> |H]; [by apply marks_bind, claim_marks|]. apply marks_later. intros. apply (IH k); (done || lia).
  - destruct (gc_ptr_tag _ GC_FIN_CFUNC_TAG); apply elem_of_app in H as [H|H].
    + replace (i + 1 + 1) with (i + 2) by lia.
      destruct (gc_ptr_tag (gc_ptr_clear_tag _ _) GC_FIN_COBJ_TAG); [by apply not_elem_of_nil in H|]. destruct (_ <? _); [by apply not_elem_of_nil in H|].
      apply list_elem_of_singleton in H as ->. by apply marks_bind, claim_marks.
    + replace (i + 1 + 1) with (i + 2) by lia.
      destruct (gc_ptr_tag (gc_ptr_clear_tag _ _) GC_FIN_COBJ_TAG); [apply (IH (k - 1)%nat); (done || lia)|]. destruct (_ <? _); [apply (IH (k - 1)%nat); (done || lia)|].
      apply marks_later. intros. apply (IH (k - 1)%nat); (done || lia).
    + destruct (gc_ptr_tag _ GC_FIN_COBJ_TAG); [by apply not_elem_of_nil in H|]. destruct (_ <? _); [by apply not_elem_of_nil in H|].
      apply list_elem_of_singleton in H as ->. by apply marks_bind, claim_marks.
    + destruct (gc_ptr_tag _ GC_FIN_COBJ_TAG); [apply (IH k); (done || lia)|]. destruct (_ <? _); [apply (IH k); (done || lia)|].
      apply marks_later. intros. apply (IH k); (done || lia).
Qed.

Lemma mark_stack_safe fr s nroots offset lb ub l : stack_roots im fr s nroots offset lb ub = Some l -> all_ok l ->
  safe (gc_mark_stack im reset fr s nroots offset lb ub) None none.
Proof.
  revert s nroots l. induction fr as [|fr IH]; intros s nroots l E H; [done|]. cbn [stack_roots] in E. cbn [gc_mark_stack].
  set (nr := Z.shiftr nroots 2) in *. assert (all_ok (frame_roots im (Z.to_nat nr) (s + 16) nroots 0 offset lb ub)) as Hf.
  { destruct (_ =? 0); [by simplify_eq|]. destruct (stack_roots _ _ _ _ _ _ _); [|done]. cbn in E. simplify_eq. by apply all_ok_app in H as [? _]. }
  then_none; [eapply mark_frame_safe; [| |exact Hf]; lia|]. destruct (_ =? 0); [done|].
  destruct (stack_roots _ _ _ _ _ _ _) as [r|] eqn:Er; [|done]. cbn in E. simplify_eq. eapply IH; [done|]. by apply all_ok_app in H as [_ ?].
Qed.

Lemma mark_stack_marks fr s nroots offset lb ub l v Q : stack_roots im fr s nroots offset lb ub = Some l -> v <> 0 -> v ∈ l ->
  marks v (gc_mark_stack im reset fr s nroots offset lb ub) (fun _ => Q).
Proof.
  revert s nroots l. induction fr as [|fr IH]; intros s nroots l E Hv H; [done|]. cbn [stack_roots] in E. cbn [gc_mark_stack].
  set (nr := Z.shiftr nroots 2) in *. destruct (_ =? 0).
  - simplify_eq. apply marks_bind. eapply mark_frame_marks; [| | | |exact H]; (done || lia).
  - destruct (stack_roots _ _ _ _ _ _ _) as [r|] eqn:Er; [|done]. cbn in E. simplify_eq. apply elem_of_app in H as [H|H].
    + apply marks_bind. eapply mark_frame_marks; [| | | |exact H]; (done || lia).
    + apply marks_later. intros _. by eapply IH.
Qed.

(** ** Exceptions *)

Lemma mark_bt_safe n d i sz : all_ok (bt_roots im n d i sz) -> safe (mark_bt im reset n d i sz) None none.
Proof.
  revert i. induction n as [|n IH]; intros i H; [done|]. cbn [bt_roots] in H. cbn [mark_bt]. destruct (_ <? _); [|done]. apply all_ok_app in H as [H1 H2].
  then_none; [by apply claim_all_safe|]. by apply IH.
Qed.

Lemma mark_bt_marks n d i sz v Q : v <> 0 -> v ∈ bt_roots im n d i sz -> marks v (mark_bt im reset n d i sz) (fun _ => Q).
Proof.
  intros Hv. revert i. induction n as [|n IH]; intros i H; [by apply not_elem_of_nil in H|]. cbn [bt_roots] in H. cbn [mark_bt].
  destruct (_ <? _); [|by apply not_elem_of_nil in H]. apply elem_of_app in H as [H|H]; [by apply marks_bind, claim_all_marks|].
  apply marks_later. intros _. by apply IH.
Qed.

Lemma excstack_safe n d itr : all_ok (exc_roots im n d itr) -> safe (excstack_loop im reset n d itr) None none.
Proof.
  revert itr. induction n as [|n IH]; intros itr H; [done|]. cbn [exc_roots] in H. cbn [excstack_loop]. destruct (_ <? _); [|done].
  apply all_ok_app in H as [H1 H2]. apply all_ok_app in H2 as [H2 H3]. inversion H2; subst.
  then_none; [by apply mark_bt_safe|]. then_none; [by apply claim_safe|]. by apply IH.
Qed.

Lemma excstack_marks n d itr v Q : v <> 0 -> v ∈ exc_roots im n d itr -> marks v (excstack_loop im reset n d itr) (fun _ => Q).
Proof.
  intros Hv. revert itr. induction n as [|n IH]; intros itr H; [by apply not_elem_of_nil in H|]. cbn [exc_roots] in H. cbn [excstack_loop].
  destruct (_ <? _); [|by apply not_elem_of_nil in H]. apply elem_of_app in H as [H|H]; [by apply marks_bind, mark_bt_marks|].
  apply marks_later. intros _. apply elem_of_app in H as [H|H].
  - apply list_elem_of_singleton in H as ->. by apply marks_bind, claim_marks.
  - apply marks_later. intros _. by apply IH.
Qed.

(** ** Finalizers *)

Lemma fin_pairs_cons begin end_ n : end_ - begin = 16 * Z.of_nat (S n) -> fin_pairs begin end_ = begin :: fin_pairs (begin + 16) end_.
Proof.
  intros E. unfold fin_pairs. replace (Z.to_nat ((end_ - begin) / 16)) with (S n) by (rewrite E, Z.mul_comm, Z.div_mul by lia; lia).
  replace (Z.to_nat ((end_ - (begin + 16)) / 16)) with n.
  - cbn [seq map]. f_equal; [lia|]. rewrite <- seq_shift, map_map. apply map_ext. intros i. lia.
  - replace (end_ - (begin + 16)) with (Z.of_nat n * 16) by lia. rewrite Z.div_mul by lia. lia.
Qed.

Lemma fin_ok_tail begin end_ n : end_ - begin = 16 * Z.of_nat (S n) -> fin_ok im begin end_ -> fin_ok im (begin + 16) end_.
Proof.
  intros E [_ H]. split; [exists n; lia|]. intros a Ha. apply H. rewrite (fin_pairs_cons _ _ n) by done. by constructor.
Qed.

Lemma fin_targets_tail begin end_ n v : end_ - begin = 16 * Z.of_nat (S n) -> fin_targets im (begin + 16) end_ v -> fin_targets im begin end_ v.
Proof. intros E (Hv & a & Ha & H). split; [done|]. exists a. split; [|done]. rewrite (fin_pairs_cons _ _ n) by done. by constructor. Qed.

Lemma fin_targets_inv begin end_ n v : end_ - begin = 16 * Z.of_nat (S n) -> fin_targets im begin end_ v ->
  v ∈ fin_pair im begin \/ fin_targets im (begin + 16) end_ v.
Proof.
  intros E (Hv & a & Ha & H). rewrite (fin_pairs_cons _ _ n) in Ha by done. apply elem_of_cons in Ha as [-> |Ha]; [by left|]. right. split; [done|by exists a].
Qed.

(** One word of the list, not tagged as having a C function. *)
Lemma finlist_word n a end_ : a < end_ -> gc_ptr_tag (ldp im a) GC_FIN_CFUNC_TAG = false ->
  finlist_loop im reset (S n) a end_ =
  if (ldp im a =? 0) || gc_ptr_tag (ldp im a) GC_FIN_COBJ_TAG then finlist_loop im reset n (a + 8) end_
  else prog_bind (fun _ => finlist_loop im reset n (a + 8) end_) (gc_try_claim_and_push reset (ldp im a) None).
Proof.
  intros Hlt Ht. cbn [finlist_loop]. rewrite (proj2 (Z.ltb_lt _ _) Hlt), Ht. destruct (_ =? 0); [done|]. by destruct (gc_ptr_tag _ _).
Qed.

Lemma finlist_cfunc n a end_ : a < end_ -> gc_ptr_tag (ldp im a) GC_FIN_CFUNC_TAG = true ->
  finlist_loop im reset (S n) a end_ =
  let v := gc_ptr_clear_tag (ldp im a) GC_FIN_CFUNC_TAG in
  if gc_ptr_tag v GC_FIN_COBJ_TAG then finlist_loop im reset n (a + 16) end_
  else prog_bind (fun _ => finlist_loop im reset n (a + 16) end_) (gc_try_claim_and_push reset v None).
Proof.
  intros Hlt Ht. cbn [finlist_loop]. rewrite (proj2 (Z.ltb_lt _ _) Hlt), Ht. destruct (Z.eqb_spec (ldp im a) 0) as [E|]; [by rewrite E in Ht|].
  cbv zeta. replace (a + 8 + 8) with (a + 16) by lia. by destruct (gc_ptr_tag (gc_ptr_clear_tag _ _) _).
Qed.

Lemma finlist_safe n k a end_ : end_ - a = 16 * Z.of_nat k -> fin_ok im a end_ -> (forall v, fin_targets im a end_ v -> P v) ->
  safe (finlist_loop im reset n a end_) None none.
Proof.
  revert n a. induction k as [|k IH]; intros n a E Hok HP.
  - destruct n; [done|]. cbn [finlist_loop]. by rewrite (proj2 (Z.ltb_ge _ _)) by lia.
  - assert (forall n, safe (finlist_loop im reset n (a + 16) end_) None none) as Hrest.
    { intros m. apply IH; [lia|by eapply fin_ok_tail|]. intros v Hv. apply HP. by eapply fin_targets_tail. }
    assert (forall v, v <> 0 -> v ∈ fin_pair im a -> P v) as Hpair.
    { intros v Hv Hin. apply HP. split; [done|]. exists a. split; [|done]. rewrite (fin_pairs_cons _ _ k) by done. by constructor. }
    destruct n as [|n]; [done|]. destruct (gc_ptr_tag (ldp im a) GC_FIN_CFUNC_TAG) eqn:Et.
    + rewrite finlist_cfunc by (done || lia). cbv zeta. destruct (gc_ptr_tag (gc_ptr_clear_tag _ _) _) eqn:Ec; [done|].
      then_none; [|done]. apply claim_safe. intros Hv. apply Hpair; [done|]. unfold fin_pair, fin_word. rewrite Et, Ec. by constructor.
    + assert (safe (finlist_loop im reset n (a + 8) end_) None none) as Hsnd.
      { destruct n as [|n]; [done|]. pose proof (proj2 Hok a ltac:(rewrite (fin_pairs_cons _ _ k) by done; by constructor) Et) as Et2.
        rewrite finlist_word by (done || lia). replace (a + 8 + 8) with (a + 16) by lia. destruct (_ || _) eqn:Eo; [done|].
        then_none; [|done]. apply claim_safe. intros Hv. apply Hpair; [done|]. apply orb_false_iff in Eo as [_ Eo].
        unfold fin_pair, fin_word. rewrite Et, Et2, Eo. apply elem_of_app. right. by constructor. }
      rewrite finlist_word by (done || lia). destruct (_ || _) eqn:Eo; [done|]. then_none; [|done]. apply claim_safe. intros Hv. apply Hpair; [done|].
      apply orb_false_iff in Eo as [_ Eo]. unfold fin_pair, fin_word. rewrite Et, Eo. by constructor.
Qed.

Lemma finlist_marks n k a end_ v Q : end_ - a = 16 * Z.of_nat k -> (2 * k <= n)%nat -> fin_ok im a end_ -> fin_targets im a end_ v ->
  marks v (finlist_loop im reset n a end_) (fun _ => Q).
Proof.
  revert n a. induction k as [|k IH]; intros n a E Hn Hok Ht.
  - destruct Ht as (_ & b & Hb & _). unfold fin_pairs in Hb. replace (end_ - a) with 0 in Hb by lia. by apply not_elem_of_nil in Hb.
  - pose proof Ht as [Hv _]. destruct n as [|[|n]]; [lia..|]. pose proof (fin_ok_tail _ _ _ E Hok) as Hok'.
    destruct (fin_targets_inv _ _ _ _ E Ht) as [Hin|Ht'].
    + unfold fin_pair in Hin. destruct (gc_ptr_tag (ldp im a) GC_FIN_CFUNC_TAG) eqn:Et.
      * rewrite app_nil_r in Hin. unfold fin_word in Hin. rewrite Et in Hin. rewrite finlist_cfunc by (done || lia). cbv zeta.
        destruct (gc_ptr_tag (gc_ptr_clear_tag _ _) _); [by apply not_elem_of_nil in Hin|]. apply list_elem_of_singleton in Hin as ->. by apply marks_bind, claim_marks.
      * pose proof (proj2 Hok a ltac:(rewrite (fin_pairs_cons _ _ k) by done; by constructor) Et) as Et2.
        rewrite finlist_word by (done || lia). apply elem_of_app in Hin as [Hin|Hin]; unfold fin_word in Hin.
        -- rewrite Et in Hin. destruct (gc_ptr_tag (ldp im a) GC_FIN_COBJ_TAG); [by apply not_elem_of_nil in Hin|]. apply list_elem_of_singleton in Hin as ->.
           rewrite (proj2 (Z.eqb_neq _ _) Hv). cbn [orb]. by apply marks_bind, claim_marks.
        -- assert (marks v (finlist_loop im reset (S n) (a + 8) end_) (fun _ => Q)) as Hm.
           { rewrite finlist_word by (done || lia). rewrite Et2 in Hin. destruct (gc_ptr_tag (ldp im (a + 8)) GC_FIN_COBJ_TAG); [by apply not_elem_of_nil in Hin|].
             apply list_elem_of_singleton in Hin as ->. rewrite (proj2 (Z.eqb_neq _ _) Hv). cbn [orb]. by apply marks_bind, claim_marks. }
           destruct (_ || _); [done|]. by apply marks_later.
    + destruct (gc_ptr_tag (ldp im a) GC_FIN_CFUNC_TAG) eqn:Et.
      * rewrite finlist_cfunc by (done || lia). cbv zeta. destruct (gc_ptr_tag (gc_ptr_clear_tag _ _) _); [apply IH; (done || lia)|].
        apply marks_later. intros _. apply IH; (done || lia).
      * pose proof (proj2 Hok a ltac:(rewrite (fin_pairs_cons _ _ k) by done; by constructor) Et) as Et2.
        assert (marks v (finlist_loop im reset (S n) (a + 8) end_) (fun _ => Q)) as Hm.
        { rewrite finlist_word by (done || lia). replace (a + 8 + 8) with (a + 16) by lia. destruct (_ || _); [apply IH; (done || lia)|].
          apply marks_later. intros _. apply IH; (done || lia). }
        rewrite finlist_word by (done || lia). destruct (_ || _); [done|]. by apply marks_later.
Qed.
End stacks.

(** * Marking: chunks and each kind of object *)

Section kinds.
Context (im : image) (reset : bool) (frames : nat).
Context (tyof : Z -> Z) (P Buf : Z -> Prop) (C : jl_gc_chunk_t -> Prop) (foreign : Z -> Z -> Prop).
Abbreviation owes := (owes im).
Abbreviation safe := (safe tyof P Buf C).
Abbreviation marks := (marks tyof owes).
Abbreviation none := (fun _ h => h = None :> option Z).
Hypothesis HC : forall c, chunk_ok im c -> (forall v, owes c v -> P v) -> C c.

(** ** Lists of finalizers: a chunk begins with a whole pair *)

Lemma fin_pairs_split begin end_ m n : end_ - begin = 16 * Z.of_nat (m + n) ->
  fin_pairs begin end_ = fin_pairs begin (begin + 16 * Z.of_nat m) ++ fin_pairs (begin + 16 * Z.of_nat m) end_.
Proof.
  revert begin. induction m as [|m IH]; intros begin E.
  - replace (begin + 16 * Z.of_nat 0) with begin by lia. replace (fin_pairs begin begin) with (@nil Z); [done|].
    unfold fin_pairs. by rewrite Z.sub_diag.
  - rewrite (fin_pairs_cons _ _ (m + n)) by lia. rewrite (fin_pairs_cons begin _ m) by lia. cbn [app]. f_equal.
    rewrite IH by lia. do 2 f_equal; lia.
Qed.

Lemma fin_split begin end_ n : end_ - begin = 16 * Z.of_nat n -> GC_CHUNK_BATCH_SIZE < Z.quot (end_ - begin) 8 -> fin_ok im begin end_ ->
  let mid := begin + 8 * GC_CHUNK_BATCH_SIZE in
  fin_ok im begin mid /\ fin_ok im mid end_ /\ (forall v, fin_targets im begin end_ v <-> fin_targets im begin mid v \/ fin_targets im mid end_ v).
Proof.
  intros E Hb [_ H] mid. rewrite E in Hb. rewrite Z.quot_div_nonneg in Hb by lia. replace (16 * Z.of_nat n) with (2 * Z.of_nat n * 8) in Hb by lia.
  rewrite Z.div_mul in Hb by lia. unfold GC_CHUNK_BATCH_SIZE in *.
  assert (exists m, Z.of_nat m = 2 ^ 15) as [m Hm] by (exists (Z.to_nat (2 ^ 15)); apply Z2Nat.id; lia).
  assert (mid = begin + 16 * Z.of_nat m) as Emid by (unfold mid; rewrite Hm; lia).
  assert (fin_pairs begin end_ = fin_pairs begin mid ++ fin_pairs mid end_) as Es.
  { rewrite Emid. apply (fin_pairs_split _ _ m (n - m)). lia. }
  split_and!.
  - split; [exists m; lia|]. intros a Ha. apply H. rewrite Es. apply elem_of_app. by left.
  - split; [exists (n - m)%nat; lia|]. intros a Ha. apply H. rewrite Es. apply elem_of_app. by right.
  - intros v. unfold fin_targets. rewrite Es. setoid_rewrite elem_of_app. naive_solver.
Qed.

Lemma mark_finlist_safe fp begin end_ : fin_ok im begin end_ -> (forall v, fin_targets im begin end_ v -> P v) ->
  safe (gc_mark_finlist_ im reset fp begin end_) None none.
Proof.
  intros Hok HP. pose proof Hok as [(n & E) _]. unfold gc_mark_finlist_. destruct (Z.ltb_spec GC_CHUNK_BATCH_SIZE (Z.quot (end_ - begin) 8)) as [Hb|Hb].
  - destruct (fin_split _ _ _ E Hb Hok) as (H1 & H2 & H3). then_none.
    + cbn. split_and!; [|done..]. apply HC; [|intros v Hv; apply HP, H3; by right]. split_and!; cbn; [do 3 right; by split|by left|done|done].
    + destruct H1 as [(k & Ek) H1]. eapply finlist_safe; [exact Ek|by split; [exists k|]|]. intros v Hv. apply HP, H3. by left.
  - by eapply finlist_safe.
Qed.

Lemma mark_finlist_marks fp begin end_ v Q : fin_ok im begin end_ -> fin_targets im begin end_ v ->
  marks v (gc_mark_finlist_ im reset fp begin end_) (fun _ => Q).
Proof.
  intros Hok Ht. pose proof Hok as [(n & E) _]. unfold gc_mark_finlist_. destruct (Z.ltb_spec GC_CHUNK_BATCH_SIZE (Z.quot (end_ - begin) 8)) as [Hb|Hb].
  - destruct (fin_split _ _ _ E Hb Hok) as (H1 & H2 & H3). apply H3 in Ht as [Ht|Ht].
    + apply marks_later. intros _. pose proof H1 as [(k & Ek) _]. eapply finlist_marks; [exact Ek| |done|done].
      unfold GC_CHUNK_BATCH_SIZE in *. lia.
    + apply marks_bind. cbn. by left.
  - eapply finlist_marks; [exact E| |done|done]. rewrite E, Z.quot_div_nonneg by lia.
    replace (16 * Z.of_nat n) with (2 * Z.of_nat n * 8) by lia. rewrite Z.div_mul by lia. lia.
Qed.

(** ** Chunks *)

Lemma mark_chunk_safe c : chunk_ok im c -> (forall v, owes c v -> P v) -> safe (gc_mark_chunk im reset c) None none.
Proof.
  intros (Hk & H0 & Hs) HP. unfold gc_mark_chunk. unfold GcChildren.owes in HP.
  destruct Hk as [E|[E|[E|[E Hok]]]]; rewrite E in *; cbn [Z.eqb Pos.eqb GC_objary_chunk GC_ary8_chunk GC_ary16_chunk GC_finlist_chunk] in *.
  - apply objarray_safe; [done|destruct H0; [done|lia]|done].
  - apply memory8_safe; [done|destruct H0; [done|lia]|done].
  - apply memory16_safe; [done|destruct H0; [done|lia]|done].
  - by apply mark_finlist_safe.
Qed.

Lemma mark_chunk_marks c v Q : chunk_ok im c -> owes c v -> marks v (gc_mark_chunk im reset c) (fun _ => Q).
Proof.
  intros (Hk & H0 & Hs) Ho. unfold gc_mark_chunk. unfold GcChildren.owes in Ho.
  destruct Hk as [E|[E|[E|[E Hok]]]]; rewrite E in *; cbn [Z.eqb Pos.eqb GC_objary_chunk GC_ary8_chunk GC_ary16_chunk GC_finlist_chunk] in *.
  - apply objarray_marks; [destruct H0; [done|lia]|done].
  - apply memory8_marks; [destruct H0; [done|lia]|done].
  - apply memory16_marks; [destruct H0; [done|lia]|done].
  - by apply mark_finlist_marks.
Qed.

(** ** Modules, sources and wait entries *)

Lemma module_safe m nptr : (forall v, module_child im m v -> P v) -> safe (gc_mark_module_binding im reset m nptr) None none.
Proof.
  intros HP. unfold gc_mark_module_binding.
  assert (forall v, v ∈ [ldp im (m + 16); ldp im (m + 24); ldp im (m + 8); ldp im (m + 48); ldp im (m + 56)] -> v <> 0 -> P v) as H.
  { intros v Hv Hne. apply HP. by left. }
  do 5 (then_none; [apply claim_safe; apply H; repeat constructor|]).
  destruct (0 <? _); [|apply remset_safe]. apply objarray_safe; [done|lia|]. intros v Hv. apply HP. by right.
Qed.

Lemma module_marks m nptr v : module_child im m v -> marks v (gc_mark_module_binding im reset m nptr) (fun _ => False).
Proof.
  intros [(Hv & H)|H]; unfold gc_mark_module_binding.
  - rewrite !elem_of_cons in H. destruct H as [-> |[-> |[-> |[-> |[-> |H]]]]]; [| | | | |by apply not_elem_of_nil in H];
      repeat (first [by apply marks_bind, claim_marks|apply marks_later; intros ?]).
  - do 5 (apply marks_later; intros ?). pose proof (target_range im Boxed 4 _ _ _ ltac:(done) H). rewrite (proj2 (Z.ltb_lt _ _)) by lia.
    by apply objarray_marks.
Qed.

Lemma cancel_safe b cs bits : (forall v, cancel_child im cs v -> P v) -> safe (mark_cancel_source im reset b cs bits) None none.
Proof.
  intros HP. unfold mark_cancel_source. then_none; [apply setmark_if_safe|].
  then_none; [apply objarray_safe; [done|lia|]; intros v Hv; apply HP; by left|].
  destruct (0 <? _); [|done]. apply objarray_safe; [done|lia|]. intros v Hv. apply HP. by right.
Qed.

Lemma cancel_marks b cs bits v : cancel_child im cs v -> marks v (mark_cancel_source im reset b cs bits) (fun _ => False).
Proof.
  unfold mark_cancel_source. intros [H|H]; apply marks_later; intros _.
  - apply marks_bind. by apply objarray_marks.
  - apply marks_later. intros _. pose proof (target_range im Boxed 3 _ _ _ ltac:(done) H). rewrite (proj2 (Z.ltb_lt _ _)) by lia. by apply objarray_marks.
Qed.

Lemma boxed_target step begin end_ v : target im Boxed step begin end_ v <-> v <> 0 /\ exists i, 0 <= i /\ begin + 8 * step * i < end_ /\ v = ldp im (begin + 8 * step * i).
Proof.
  split; intros (Hv & i & H); (split; [done|]); exists i; [|exists (begin + 8 * step * i)].
  - destruct H as (s & Hi & Hlt & Hs & <-). apply list_elem_of_singleton in Hs as ->. done.
  - destruct H as (Hi & Hlt & ->). split_and!; [done|done|by apply list_elem_of_singleton|done].
Qed.

(** The owners and the links of the slots, as the two strided passes see them. *)
Lemma wait_slots we v : let ns := ld im 4 (we + 8) in let b := we + 16 in
  (target im Boxed 3 b (b + 24 * ns) v \/ target im Boxed 3 (b + 8) (b + 24 * (ns - 1) + 16) v) <->
  (v <> 0 /\ exists i, 0 <= i < ns /\ (v = ldp im (we + 16 + 24 * i) \/ v = ldp im (we + 16 + 24 * i + 8))).
Proof.
  cbv zeta. rewrite !boxed_target. split.
  - intros [(Hv & i & Hi & Hlt & ->)|(Hv & i & Hi & Hlt & ->)]; (split; [done|]); exists i; (split; [lia|]).
    + left. f_equal; lia.
    + right. f_equal; lia.
  - intros (Hv & i & Hi & [-> | ->]); [left|right]; (split; [done|]); exists i; (split_and!; [lia|lia|f_equal; lia]).
Qed.

Lemma wait_safe b we bits : (forall v, wait_child im we v -> P v) -> safe (mark_wait_entry im reset b we bits) None none.
Proof.
  intros HP. unfold mark_wait_entry. then_none; [apply setmark_if_safe|].
  then_none; [apply objarray_safe; [done|lia|]; intros v Hv; apply HP; by left|].
  destruct (0 <? _); [|done]. pose proof (fun v H => HP v (or_intror (proj1 (wait_slots we v) H))) as H.
  then_none; (apply objarray_safe; [done|lia|]); intros v Hv; apply H; [by left|by right].
Qed.

Lemma wait_marks b we bits v : wait_child im we v -> marks v (mark_wait_entry im reset b we bits) (fun _ => False).
Proof.
  unfold mark_wait_entry. intros [H|H]; apply marks_later; intros _; [apply marks_bind; by apply objarray_marks|].
  apply marks_later. intros _. assert (0 < ld im 4 (we + 8)) as Hn by (destruct H as (_ & i & Hi & _); lia). rewrite (proj2 (Z.ltb_lt _ _) Hn).
  apply wait_slots in H as [H|H]; [apply marks_bind|apply marks_later; intros _]; by apply objarray_marks.
Qed.
End kinds.
