(* ===== verification/GcScanMain.v ===== *)
(** * Marking: what scanning an object or a chunk achieves *)
From stdpp Require Import gmap.
From S2P Require Import Prelude WsQueue GcProg GcScan GcLogic GcScanFacts GcChildren GcScanRoutines.

(** ** An object is scanned completely

    [gc_mark_outrefs] claims every object its argument refers to, and no other,
    and pushes what it claims, but for the last field of an object, which it goes
    on with itself. *)

Section correct.
Context (im : image) (reset : bool) (frames : nat).
Context (tyof : Z -> Z) (P Buf : Z -> Prop) (C : jl_gc_chunk_t -> Prop) (foreign : Z -> Z -> Prop).
Abbreviation owes := (owes im).
Abbreviation safe := (safe tyof P Buf C).
Abbreviation marks := (marks tyof owes).
Abbreviation none := (fun _ h => h = None :> option Z).
Abbreviation next := (fun r h => h = r :> option Z).
Hypothesis HC : forall c, chunk_ok im c -> (forall v, owes c v -> P v) -> C c.

(** What the callbacks of foreign types and of task scanners promise. *)
Hypothesis scanner_safe : forall ta, (forall v, foreign ta v -> P v) -> safe (task_scanner im ta) None none.
Hypothesis scanner_marks : forall ta v Q, foreign ta v -> marks v (task_scanner im ta) Q.
Hypothesis markfunc_safe : forall d o, (forall v, foreign o v -> P v) -> safe (markfunc im d o) None none.
Hypothesis markfunc_marks : forall d o v Q, foreign o v -> marks v (markfunc im d o) Q.

Lemma finish_safe p : safe p None none -> safe (finish p) None next.
Proof. intros H. unfold finish. by then_none. Qed.

Lemma finish_marks v p Q : marks v p (fun _ => False) -> marks v (finish p) Q.
Proof. intros H. unfold finish. apply marks_bind. eapply marks_mono; [|done]. done. Qed.

Lemma mark_next_safe rem v : safe (mark_next rem v) (held_of v) next.
Proof. unfold mark_next, held_of. destruct (v =? 0); [done|]. by destruct rem. Qed.

Lemma ly_npointers_nonneg ly : 0 <= ly_npointers im ly.
Proof.
  unfold ly_npointers, ld. apply val_range; [lia|]. apply Forall_forall. intros x (i & -> & _)%list_elem_of_fmap. by apply uw_range.
Qed.

Lemma memory_safe um fa vt m bits : memory_type_ok im vt -> (forall v, memory_child im vt m v -> P v) ->
  safe (mark_genericmemory im reset um fa vt m bits) None none.
Proof.
  intros Hok HP. unfold mark_genericmemory. unfold memory_child in HP. then_none; [by destruct um|]. then_none; [by destruct (_ && _)|].
  destruct (jl_genericmemory_how im m =? JL_GENERICMEMORY_STRINGOWNED).
  { then_none; [apply claim_safe; intros; by apply HP|apply remset_safe]. }
  destruct (Z.eqb_spec (memory_length im m) 0); [done|]. destruct (ly_isboxed im (dt_layout im vt)) eqn:Eb.
  - destruct (Z.eqb_spec (ldp im (dt_parameters im vt + 16)) (jl_symbol_type im)); [done|]. apply objarray_safe; [done|lia|]. intros v Hv. by apply HP.
  - destruct (Z.leb_spec 0 (ly_first_ptr im (dt_layout im vt))) as [Hf|]; [|done]. destruct (Hok Eb Hf) as (Hs & Hd).
    destruct (Z.eqb_spec (ly_npointers im (dt_layout im vt)) 1); [apply objarray_safe; [done|lia|]; intros v Hv; by apply HP|].
    destruct Hd as [Hn [E|E]]; [done|..]; rewrite E in *; cbn [Z.eqb JL_FIELDDESC_8 JL_FIELDDESC_16 Pos.eqb] in *.
    + apply memory8_safe; [done|lia|]. intros v Hv. apply HP. by rewrite Z.mul_1_l.
    + apply memory16_safe; [done|lia|]. intros v Hv. by apply HP.
Qed.

Lemma memory_marks um fa vt m bits v : memory_type_ok im vt -> memory_child im vt m v ->
  marks v (mark_genericmemory im reset um fa vt m bits) (fun _ => False).
Proof.
  intros Hok Hc. unfold mark_genericmemory. unfold memory_child in Hc. do 2 (apply marks_later; intros _).
  destruct (jl_genericmemory_how im m =? JL_GENERICMEMORY_STRINGOWNED).
  { destruct Hc as (Hv & ->). apply marks_bind. by apply claim_marks. }
  destruct (ly_isboxed im (dt_layout im vt)) eqn:Eb.
  - destruct Hc as (Hs & Ht). pose proof (target_range im Boxed 1 _ _ _ ltac:(done) Ht).
    rewrite (proj2 (Z.eqb_neq (memory_length im m) 0)) by lia. rewrite (proj2 (Z.eqb_neq _ _) Hs). by apply objarray_marks.
  - destruct Hc as (Hf & Hl & Hc). rewrite (proj2 (Z.eqb_neq _ _) Hl), (proj2 (Z.leb_le _ _) Hf). destruct (Hok Eb Hf) as (Hs & Hd).
    destruct (Z.eqb_spec (ly_npointers im (dt_layout im vt)) 1); [by apply objarray_marks|].
    destruct Hd as [Hn [E|E]]; [done|..]; rewrite E in *; cbn [Z.eqb JL_FIELDDESC_8 JL_FIELDDESC_16 Pos.eqb] in *.
    + apply memory8_marks; [lia|]. by rewrite Z.mul_1_l in Hc.
    + by apply memory16_marks.
Qed.

Lemma fielddesc_type_range ly : 0 <= ly_fielddesc_type im ly < 4.
Proof. unfold ly_fielddesc_type. change 3 with (Z.ones 2). rewrite Z.land_ones by lia. apply Z.mod_pos_bound. lia. Qed.

Lemma fields_safe um rem vt o bits : (forall v, fields_child im foreign vt o v -> P v) -> safe (mark_fields im reset um rem vt o bits) None next.
Proof.
  intros HP. unfold mark_fields. unfold fields_child in HP. then_none; [apply setmark_if_safe|].
  destruct (Z.eqb_spec vt (jl_weakref_type im)); [done|]. destruct (Z.eqb_spec (ly_npointers im (dt_layout im vt)) 0); [done|].
  pose proof (ly_npointers_nonneg (dt_layout im vt)) as Hn.
  unfold gc_mark_obj8, gc_mark_obj16, gc_mark_obj32, desc_width, JL_FIELDDESC_8, JL_FIELDDESC_16, JL_FIELDDESC_32, JL_FIELDDESC_FOREIGN in *.
  assert (forall w, (forall v, field_child im w (jl_dt_layout_ptrs im (dt_layout im vt)) (ly_npointers im (dt_layout im vt)) o v -> P v) ->
    forall nptr, safe (prog_bind (mark_next rem) (gc_mark_obj im reset w o (jl_dt_layout_ptrs im (dt_layout im vt)) (ly_npointers im (dt_layout im vt)) nptr)) None next) as Hw.
  { intros w Hw nptr. apply safe_bind. eapply safe_mono; [|by apply mark_obj_safe]. intros v h ->. apply mark_next_safe. }
  destruct (Z.eqb_spec (ly_fielddesc_type im (dt_layout im vt)) 0) as [E|E0]; [rewrite E in HP; apply Hw; intros; by apply HP|].
  destruct (Z.eqb_spec (ly_fielddesc_type im (dt_layout im vt)) 1) as [E|E1]; [rewrite E in HP; apply Hw; intros; by apply HP|].
  destruct (Z.eqb_spec (ly_fielddesc_type im (dt_layout im vt)) 2) as [E|E2]; [rewrite E in HP; apply Hw; intros; by apply HP|].
  pose proof (fielddesc_type_range (dt_layout im vt)). rewrite (proj2 (Z.eqb_eq _ 3)) in HP by lia.
  cbn. intros h _. then_none; [apply markfunc_safe; intros; by apply HP|]. apply finish_safe. destruct (_ && _); [apply remset_safe|done].
Qed.

Lemma fields_marks um rem vt o bits v Q : fields_child im foreign vt o v -> marks v (mark_fields im reset um rem vt o bits) Q.
Proof.
  intros (Hw & Hn & Hc). unfold mark_fields. apply marks_later. intros _. rewrite (proj2 (Z.eqb_neq _ _) Hw), (proj2 (Z.eqb_neq _ _) Hn).
  pose proof (fielddesc_type_range (dt_layout im vt)).
  unfold gc_mark_obj8, gc_mark_obj16, gc_mark_obj32, desc_width, JL_FIELDDESC_8, JL_FIELDDESC_16, JL_FIELDDESC_32, JL_FIELDDESC_FOREIGN in *.
  destruct (Z.eqb_spec (ly_fielddesc_type im (dt_layout im vt)) 0) as [E|E0]; [rewrite E in Hc; apply marks_bind; by apply mark_obj_marks|].
  destruct (Z.eqb_spec (ly_fielddesc_type im (dt_layout im vt)) 1) as [E|E1]; [rewrite E in Hc; apply marks_bind; by apply mark_obj_marks|].
  destruct (Z.eqb_spec (ly_fielddesc_type im (dt_layout im vt)) 2) as [E|E2]; [rewrite E in Hc; apply marks_bind; by apply mark_obj_marks|].
  rewrite (proj2 (Z.eqb_eq _ 3)) in Hc by lia. cbn. intros h _. right. apply marks_bind. by apply markfunc_marks.
Qed.

(** ** Tasks *)

Lemma vec_bits h : let bits := if gc_old h && negb reset then GC_OLD_MARKED else GC_MARKED in 0 <= bits < 4 /\ gc_marked bits = true.
Proof. cbv zeta. by destruct (_ && _). Qed.

Lemma task_safe um rem ta bits : 0 <= bits < 4 -> gc_marked bits = true -> is_Some (task_stack im frames ta) ->
  (forall v, task_child im frames ta v \/ foreign ta v -> P v) ->
  (forall b, b <> 0 -> b = task_stkbuf im ta \/ b = task_excstack im ta -> Buf b) -> safe (mark_task im reset frames um rem ta bits) None next.
Proof.
  intros Hb Hm [l Hl] HP HB. unfold mark_task. then_none; [apply setmark_if_safe|]. then_none; [done|]. then_none; [apply scanner_safe; intros; apply HP; by right|].
  then_none; [destruct (Z.eqb_spec (task_stkbuf im ta) 0); [done|apply setmark_buf_safe; auto]|].
  assert (all_ok P l) as Hall.
  { apply Forall_forall. intros v Hv Hne. apply HP. left. left. split; [done|]. left. by rewrite Hl. }
  unfold task_stack in Hl. destruct (match task_copied im ta with Some _ => _ | None => _ end) as [[offset lb] ub].
  then_none; [destruct (_ =? 0); [done|by eapply mark_stack_safe]|].
  then_none.
  - destruct (Z.eqb_spec (task_excstack im ta) 0) as [|He]; [done|]. then_none; [apply setmark_buf_safe; auto|]. apply excstack_safe.
    apply Forall_forall. intros v Hv Hne. apply HP. left. left. split; [done|]. by right.
  - apply safe_bind. eapply safe_mono; [|apply mark_obj_safe; [apply ly_npointers_nonneg|]]; [intros v h ->; apply mark_next_safe|].
    intros v Hv. apply HP. left. by right.
Qed.

Lemma task_marks um rem ta bits v Q : is_Some (task_stack im frames ta) -> task_child im frames ta v \/ foreign ta v ->
  marks v (mark_task im reset frames um rem ta bits) Q.
Proof.
  intros [l Hl] [Hc|Hf]; unfold mark_task; [|do 2 (apply marks_later; intros _); apply marks_bind; by apply scanner_marks].
  do 4 (apply marks_later; intros _). unfold task_child in Hc. rewrite Hl in Hc. unfold task_stack in Hl.
  destruct (match task_copied im ta with Some _ => _ | None => _ end) as [[offset lb] ub].
  destruct Hc as [(Hv & [Hin|(He & Hin)])|Hf].
  - destruct (_ =? 0); [simplify_eq; by apply not_elem_of_nil in Hin|]. apply marks_bind.
    by apply (mark_stack_marks im reset tyof frames _ _ _ _ _ l).
  - apply marks_later. intros _. apply marks_bind. rewrite (proj2 (Z.eqb_neq _ _) He). apply marks_later. intros _. by apply excstack_marks.
  - do 2 (apply marks_later; intros _). apply marks_bind. by apply mark_obj_marks.
Qed.

(** ** Any object *)

Lemma small_safe um rem o bits : 0 <= bits < 4 -> gc_marked bits = true -> 
  (jl_max_tags * 16 <=? vtag tyof o) = false -> generic_tag (vtag tyof o) = false -> object_ok im frames tyof o ->
  (forall v, child im frames tyof foreign o v -> P v) -> (forall b, buffer im tyof o b -> Buf b) -> safe (mark_small im reset frames um rem (vtag tyof o) o bits) None next.
Proof.
  intros Hb Hm E1 E2 Hok HP HB. unfold object_ok in Hok. unfold child in HP. rewrite E1, E2 in *. unfold mark_small.
  destruct (_ =? jl_simplevector_tag * 16).
  { apply finish_safe. then_none; [apply setmark_if_safe|]. apply objarray_safe; [done|lia|done]. }
  destruct (_ =? jl_module_tag * 16).
  { apply finish_safe. then_none; [apply setmark_if_safe|]. by apply module_safe. }
  destruct (Z.eqb_spec (vtag tyof o) (jl_task_tag * 16)); [apply task_safe; auto; intros b Hb0 Hb1; by apply HB|].
  destruct (_ =? jl_cancel_source_tag * 16); [by apply finish_safe, cancel_safe|].
  destruct (_ =? jl_wait_entry_tag * 16); [by apply finish_safe, wait_safe|].
  destruct (_ =? jl_string_tag * 16); apply finish_safe, setmark_if_safe.
Qed.

Lemma small_marks um rem o bits v Q : (jl_max_tags * 16 <=? vtag tyof o) = false -> generic_tag (vtag tyof o) = false -> object_ok im frames tyof o ->
  child im frames tyof foreign o v -> marks v (mark_small im reset frames um rem (vtag tyof o) o bits) Q.
Proof.
  intros E1 E2 Hok Hc. unfold object_ok in Hok. unfold child in Hc. rewrite E1, E2 in *. unfold mark_small.
  destruct (_ =? jl_simplevector_tag * 16).
  { apply finish_marks, marks_later. intros _. by apply objarray_marks. }
  destruct (_ =? jl_module_tag * 16).
  { apply finish_marks, marks_later. intros _. by apply module_marks. }
  destruct (Z.eqb_spec (vtag tyof o) (jl_task_tag * 16)); [apply task_marks; auto|].
  destruct (_ =? jl_cancel_source_tag * 16); [by apply finish_marks, cancel_marks|].
  destruct (_ =? jl_wait_entry_tag * 16); [by apply finish_marks, wait_marks|]. done.
Qed.

Lemma by_type_safe um fa rem vt o bits : type_ok im vt -> (forall v, type_child im foreign vt o v -> P v) ->
  safe (if dt_name im vt =? jl_genericmemory_typename im then finish (mark_genericmemory im reset um fa vt o bits)
        else mark_fields im reset um rem vt o bits) None next.
Proof.
  intros Hok HP. unfold type_ok in Hok. unfold type_child in HP. destruct (_ =? _); [by apply finish_safe, memory_safe|by apply fields_safe].
Qed.

Lemma by_type_marks um fa rem vt o bits v Q : type_ok im vt -> type_child im foreign vt o v ->
  marks v (if dt_name im vt =? jl_genericmemory_typename im then finish (mark_genericmemory im reset um fa vt o bits)
        else mark_fields im reset um rem vt o bits) Q.
Proof.
  intros Hok Hc. unfold type_ok in Hok. unfold type_child in Hc. destruct (_ =? _); [by apply finish_marks, memory_marks|by apply fields_marks].
Qed.

(** The type in a header that any thread may have marked meanwhile. *)
Lemma vtag_hdr o h : hdr_ok tyof o h -> vtag_of h = vtag tyof o.
Proof. intros [_ E]. unfold vtag, vtag_of. rewrite <- E, <- Z.land_assoc. done. Qed.

Lemma mark_obj_safe_ rem o : object_ok im frames tyof o -> (forall v, child im frames tyof foreign o v -> P v) -> (forall b, buffer im tyof o b -> Buf b) ->
  safe (mark_obj im reset frames rem o) None next.
Proof.
  intros Hok HP HB. unfold mark_obj. cbn. intros h Hh h2 _. rewrite (vtag_hdr _ _ Hh). pose proof (vec_bits h2) as [Hb Hm]. apply safe_bind.
  assert (forall h3, safe (prog_bind (fun h => let foreign_alloc := negb rem && in_image h in
    let update_meta := negb rem && negb foreign_alloc in
    let by_type vt := if dt_name im vt =? jl_genericmemory_typename im
      then finish (mark_genericmemory im reset update_meta foreign_alloc vt o (if gc_old h2 && negb reset then GC_OLD_MARKED else GC_MARKED))
      else mark_fields im reset update_meta rem vt o (if gc_old h2 && negb reset then GC_OLD_MARKED else GC_MARKED) in
    if jl_max_tags * 16 <=? vtag tyof o then
      Load_header (vtag tyof o) (fun th => if negb (vtag_of th =? jl_datatype_tag * 16) || negb (dt_smalltag im (vtag tyof o) =? 0) then Abort else by_type (vtag tyof o))
    else if u64 (vtag tyof o - jl_unionall_tag * 16) <=? (jl_quotenode_tag - jl_unionall_tag) * 16 then by_type (ijl_small_typeof im (vtag tyof o / 8))
    else mark_small im reset frames update_meta rem (vtag tyof o) o (if gc_old h2 && negb reset then GC_OLD_MARKED else GC_MARKED)) (Ret h3)) None next) as H.
  { intros h3. cbv beta zeta. cbn [prog_bind]. destruct (jl_max_tags * 16 <=? vtag tyof o) eqn:E1.
    - cbn. intros th Hth. rewrite (vtag_hdr _ _ Hth). unfold object_ok, child in *. rewrite E1 in *. destruct Hok as (Ht & Hs & Hok).
      rewrite Ht, Hs. cbn. by apply by_type_safe.
    - fold (generic_tag (vtag tyof o)). destruct (generic_tag (vtag tyof o)) eqn:E2; [|by apply small_safe].
      unfold object_ok, child in *. rewrite E1, E2 in *. by apply by_type_safe. }
  destruct rem; cbn; [exact (H 0)|]. intros h3 _. exact (H h3).
Qed.

Lemma mark_obj_marks_ rem o v Q : object_ok im frames tyof o -> child im frames tyof foreign o v -> marks v (mark_obj im reset frames rem o) Q.
Proof.
  intros Hok Hc. unfold mark_obj. cbn. intros h Hh. right. intros h2 _. right. rewrite (vtag_hdr _ _ Hh). apply marks_later. intros h3.
  destruct (jl_max_tags * 16 <=? vtag tyof o) eqn:E1.
  - cbn. intros th Hth. right. rewrite (vtag_hdr _ _ Hth). unfold object_ok, child in *. rewrite E1 in *. destruct Hok as (Ht & Hs & Hok).
    rewrite Ht, Hs. cbn. by apply by_type_marks.
  - fold (generic_tag (vtag tyof o)). destruct (generic_tag (vtag tyof o)) eqn:E2; [|by apply small_marks].
    unfold object_ok, child in *. rewrite E1, E2 in *. by apply by_type_marks.
Qed.
End correct.

(** * Marking: what scanning an object or a chunk achieves *)

(** What the callbacks that extensions register promise: a task scanner and the
    mark function of a foreign type claim exactly what they own. *)
Record callbacks_ok (im : image) (tyof : Z -> Z) (foreign : Z -> Z -> Prop) : Prop := {
  cb_scanner_safe (P Buf : Z -> Prop) C ta : (forall c, chunk_ok im c -> (forall v, owes im c v -> P v) -> C c) ->
    (forall v, foreign ta v -> P v) -> safe tyof P Buf C (task_scanner im ta) None (fun _ h => h = None);
  cb_scanner_marks ta v Q : foreign ta v -> marks tyof (owes im) v (task_scanner im ta) Q;
  cb_markfunc_safe (P Buf : Z -> Prop) C d o : (forall c, chunk_ok im c -> (forall v, owes im c v -> P v) -> C c) ->
    (forall v, foreign o v -> P v) -> safe tyof P Buf C (markfunc im d o) None (fun _ h => h = None);
  cb_markfunc_marks d o v Q : foreign o v -> marks tyof (owes im) v (markfunc im d o) Q;
}.

Section main.
Context (im : image) (reset : bool) (frames : nat) (tyof : Z -> Z) (foreign : Z -> Z -> Prop).
Abbreviation child := (child im frames tyof foreign).
Abbreviation object_ok := (object_ok im frames tyof).
Abbreviation owes := (owes im).

(** A chunk whose objects are all among [P]. *)
Definition chunk_in (P : Z -> Prop) (c : jl_gc_chunk_t) : Prop := chunk_ok im c /\ forall v, owes c v -> P v.

Lemma outrefs_safe (P Buf : Z -> Prop) rem o : callbacks_ok im tyof foreign -> object_ok o -> (forall v, child o v -> P v) -> (forall b, buffer im tyof o b -> Buf b) ->
  safe tyof P Buf (chunk_in P) (mark_obj im reset frames rem o) None (fun r h => h = r).
Proof.
  intros [H1 H2 H3 H4] Hok HP HB. apply (mark_obj_safe_ im reset frames tyof P Buf (chunk_in P) foreign); [done|..|done|done|done].
  - intros. apply H1; [done|done].
  - intros. apply H3; [done|done].
Qed.

Lemma outrefs_marks rem o v Q : callbacks_ok im tyof foreign -> object_ok o -> child o v -> marks tyof owes v (mark_obj im reset frames rem o) Q.
Proof. intros [H1 H2 H3 H4] Hok Hc. by apply (mark_obj_marks_ im reset frames tyof foreign). Qed.

Lemma chunk_safe (P Buf : Z -> Prop) c : chunk_in P c -> safe tyof P Buf (chunk_in P) (gc_mark_chunk im reset c) None (fun _ h => h = None).
Proof. intros [Hok HP]. by apply (mark_chunk_safe im reset tyof P Buf (chunk_in P)). Qed.

Lemma chunk_marks c v Q : chunk_ok im c -> owes c v -> marks tyof owes v (gc_mark_chunk im reset c) (fun _ => Q).
Proof. intros. by apply mark_chunk_marks. Qed.

(** The object of an item of the pointer queue. *)
Definition item_obj (item : Z) : Z := gc_ptr_clear_tag item GC_REMSET_PTR_TAG.
End main.

(** C8: Marking: [gc_mark_outrefs] scans an object completely, whatever the other
    threads mark meanwhile: when it is done, each object that the scanned one
    refers to (its fields, its elements, a module's tables, a task's stack roots
    and exceptions) was seen marked, was marked here, or is left to a chunk that
    was pushed. The objects it claims, each found unmarked, are referred to by
    the scanned one, and each is pushed right after its claim, but for the last
    one when it is returned to be scanned next. It never aborts. *)
Theorem gc_mark_outrefs_scans (im : image) (reset : bool) (frames : nat) (tyof : Z -> Z) (foreign : Z -> Z -> Prop)
    (item : Z) (l : list access) (p : prog (option Z)) :
  callbacks_ok im tyof foreign -> object_ok im frames tyof (item_obj item) ->
  prog_steps (gc_mark_outrefs im reset frames item) l p -> Forall (answer_ok tyof) l ->
  p <> Abort /\ Forall (child im frames tyof foreign (item_obj item)) (claims l) /\
  (forall c v, c ∈ chunk_pushes l -> owes im c v -> child im frames tyof foreign (item_obj item) v) /\
  forall r, p = Ret r ->
    claims l = pushes l ++ option_list r /\
    forall v, child im frames tyof foreign (item_obj item) v -> exists a, a ∈ l /\ settles (owes im) a v.
Proof.
  intros Hcb Hok Hr Ha. set (P := child im frames tyof foreign (item_obj item)).
  assert (safe tyof P (fun b => buffer im tyof (item_obj item) b) (chunk_in im P) (gc_mark_outrefs im reset frames item) None (fun r h => h = r)) as Hs
    by (eapply outrefs_safe; eauto).
  destruct (safe_claims _ _ _ _ _ _ _ _ _ Hs Hr Ha) as (h' & Hs' & E). destruct (safe_allowed _ _ _ _ _ _ _ _ _ Hs Hr Ha) as [HP HC].
  rewrite Forall_forall in HC. split_and!; [by intros -> | done | intros c v Hc; by apply HC|].
  intros r ->. cbn in Hs'. subst h'. split; [exact E|]. intros v Hv.
  destruct (marks_steps _ _ v _ _ _ (fun _ => False) (outrefs_marks im reset frames tyof foreign _ _ v _ Hcb Hok Hv) Hr Ha) as [H|[]]. done.
Qed.

(** A vector of two objects, one of them marked already, before a string. *)
Definition demo_words : gmap Z Z := {[ 256 := 3; 264 := 512; 272 := 768; 280 := 512 ]}.
Definition demo_image : image := {|
  mem a := Z.shiftr (default 0 (demo_words !! (8 * (a / 8)))) (8 * (a mod 8));
  ijl_small_typeof _ := 0; jl_genericmemory_typename := 8; jl_weakref_type := 16; jl_symbol_type := 24; jl_task_type := 32;
  opaque_layout _ := 0; sizeof_task := 400; pool_page _ := true; task_gcstack _ := 0; task_excstack _ := 0; task_stkbuf _ := 0; task_bufsz _ := 0;
  task_copied _ := None; task_scanner _ := Ret tt; markfunc _ _ := Ret 0 |}.
Definition demo_headers : gmap Z Z := {[ 256 := 323; 512 := 336; 768 := 339 ]}.
Definition demo_tyof (o : Z) : Z := Z.land (default 0 (demo_headers !! o)) (2 ^ 64 - 1 - 3).

Lemma demo_callbacks : callbacks_ok demo_image demo_tyof (fun _ _ => False).
Proof. by split. Qed.

Lemma gc_mark_outrefs_scans_witness :
  let l := [A_load 256 323; A_load 256 323; A_load 256 323] ++ [A_note (N_setmark_pool 256 GC_OLD_MARKED)] ++
    [A_load 512 336; A_load 512 336] ++
    [A_load 512 336; A_load 512 336; A_exchange 512 336 337; A_ptr 512; A_load 768 339; A_load 768 339; A_load 512 337; A_load 512 337;
     A_note (N_remset 256 15)] in
  prog_steps (gc_mark_outrefs demo_image false 1 256) l (Ret None) /\
  claims l = pushes l ++ option_list None /\
  forall v, child demo_image 1 demo_tyof (fun _ _ => False) 256 v -> exists a, a ∈ l /\ settles (owes demo_image) a v.
Proof.
  intros l. assert (prog_steps (gc_mark_outrefs demo_image false 1 256) l (Ret None)) as Hr.
  { apply (run_alone_steps _ demo_headers _ (<[512 := 337]> demo_headers)). vm_compute. reflexivity. }
  split; [exact Hr|]. refine (proj2 (proj2 (proj2 (gc_mark_outrefs_scans demo_image false 1 demo_tyof (fun _ _ => False) 256 l (Ret None) demo_callbacks _ Hr _))) None eq_refl).
  - vm_compute. intros H. discriminate H.
  - repeat constructor; vm_compute; try reflexivity; discriminate.
Defined.
