(* ===== verification/GcMark.v ===== *)
(** * Marking: the threads of the collector (gc-stock.c)

    [gc_mark_and_steal], [gc_should_mark] and [gc_mark_loop] as the steps of
    the threads that mark: the thread that started the collection, and the
    parallel collector threads. A thread's own step is one access to shared
    memory; it calls the mark queues as shared objects (Objects.v), whose steps
    interleave with everything else. *)
From S2P Require Import Prelude Objects WsQueue GcProg GcScan.

(** Thread [t]'s queue of pointers is object [2 * t], its queue of chunks
    object [2 * t + 1]. *)
Definition queue_of (chunks : bool) (t : nat) : nat := if chunks then S (2 * t) else 2 * t.
Definition queue_owner (q : nat) : nat := q / 2.
Definition holds_chunks (q : nat) : bool := Nat.odd q.
#[global] Arguments queue_of : simpl never.
#[global] Arguments queue_owner : simpl never.
#[global] Arguments holds_chunks : simpl never.
Definition elt_words (chunks : bool) : nat := if chunks then chunk_words else 1.

(** Where a thread is in [gc_mark_and_steal]. [M_run p]: inside
    [gc_mark_outrefs] or [gc_mark_chunk]; the locations in [-ing] wait for a
    queue. [M_steal plan]: the queues that are left to try. *)
Inductive mark_loc :=
| M_start
| M_pop (chunks : bool)
| M_popping (chunks : bool)
| M_run (p : prog (option Z))
| M_pushing (chunks : bool) (p : prog (option Z))
| M_plan
| M_steal (plan : list (bool * nat))
| M_stealing (chunks : bool) (victim : nat) (plan : list (bool * nat)).

(** Where a thread is in [gc_mark_loop] and [gc_should_mark]; in [L_mark mqi m]
    [mqi] owns [mq_initiator]. *)
Inductive loc :=
| L_other
| L_store_tid
| L_enter
| L_mark (mqi : nat) (m : mark_loc)
| L_leave
| L_lock
| L_load_n
| L_load_tid (n : Z)
| L_count (n : Z)
| L_add
| L_unlock (should_mark : bool)
| L_wait
| L_out.

Record mark_state := {
  header : Z -> Z;
  gc_n_threads_marking : Z;
  gc_initiator_tid : Z;
  gc_queue_observer_lock : option nat;
  locs : list loc;
  noted : list (nat * note);              (* what each thread notes in its own data *)
  reclaim_set : list (nat * (nat * nat)); (* each thread's replaced arrays: queue and array *)
}.

Definition set_loc (s : mark_state) (t : nat) (l : loc) : mark_state :=
  {| header := header s; gc_n_threads_marking := gc_n_threads_marking s; gc_initiator_tid := gc_initiator_tid s;
     gc_queue_observer_lock := gc_queue_observer_lock s; locs := <[t := l]> (locs s); noted := noted s; reclaim_set := reclaim_set s |}.
Definition set_header (s : mark_state) (o v : Z) : mark_state :=
  {| header := fun x => if x =? o then v else header s x; gc_n_threads_marking := gc_n_threads_marking s; gc_initiator_tid := gc_initiator_tid s;
     gc_queue_observer_lock := gc_queue_observer_lock s; locs := locs s; noted := noted s; reclaim_set := reclaim_set s |}.
Definition add_marking (s : mark_state) (d : Z) : mark_state :=
  {| header := header s; gc_n_threads_marking := gc_n_threads_marking s + d; gc_initiator_tid := gc_initiator_tid s;
     gc_queue_observer_lock := gc_queue_observer_lock s; locs := locs s; noted := noted s; reclaim_set := reclaim_set s |}.
Definition set_initiator (s : mark_state) (tid : Z) : mark_state :=
  {| header := header s; gc_n_threads_marking := gc_n_threads_marking s; gc_initiator_tid := tid;
     gc_queue_observer_lock := gc_queue_observer_lock s; locs := locs s; noted := noted s; reclaim_set := reclaim_set s |}.
Definition set_lock (s : mark_state) (h : option nat) : mark_state :=
  {| header := header s; gc_n_threads_marking := gc_n_threads_marking s; gc_initiator_tid := gc_initiator_tid s;
     gc_queue_observer_lock := h; locs := locs s; noted := noted s; reclaim_set := reclaim_set s |}.
Definition add_note (s : mark_state) (t : nat) (e : note) : mark_state :=
  {| header := header s; gc_n_threads_marking := gc_n_threads_marking s; gc_initiator_tid := gc_initiator_tid s;
     gc_queue_observer_lock := gc_queue_observer_lock s; locs := locs s; noted := noted s ++ [(t, e)]; reclaim_set := reclaim_set s |}.
Definition add_reclaim (s : mark_state) (t q a : nat) : mark_state :=
  {| header := header s; gc_n_threads_marking := gc_n_threads_marking s; gc_initiator_tid := gc_initiator_tid s;
     gc_queue_observer_lock := gc_queue_observer_lock s; locs := locs s; noted := noted s; reclaim_set := reclaim_set s ++ [(t, (q, a))] |}.

Section mark.
(** [first] and [jl_n_markthreads]: the parallel collector threads; [init]: the
    thread that started the collection. *)
Context (im : image) (mark_reset_age : bool) (frames : nat).
Context (first jl_n_markthreads init : nat).

Definition collectors : list nat := seq first jl_n_markthreads.

(** What a step may depend on besides the state: the random victims, the sum of
    the queues' counters, which threads change while it is taken, and whether
    the collector thread was asked to sweep. *)
Record choice := { random_chunk : list nat; random_ptr : list nat; work : Z; may_sweep : bool }.
Definition victims_ok (l : list nat) : bool := Nat.eqb (length l) (4 * jl_n_markthreads) && forallb (fun v => bool_decide (v ∈ collectors)) l.

(** The attempts to steal, in order. *)
Definition steal_plan (c : choice) (mqi : nat) : list (bool * nat) :=
  map (pair true) (random_chunk c ++ collectors ++ [mqi]) ++ map (pair false) (random_ptr c ++ collectors ++ [mqi]).

(** What to do with an element that was popped or stolen. *)
Definition work_of (chunks : bool) (e : elt) : option (prog (option Z)) :=
  if chunks then
    let c := chunk_of_words e in
    if cid c =? GC_empty_chunk then None else Some (_ ← gc_mark_chunk im mark_reset_age c; Ret None)
  else if get e 0 =? 0 then None else Some (gc_mark_outrefs im mark_reset_age frames (get e 0)).

(** A step of a marking routine that does not call a queue. *)
Definition run_step (t mqi : nat) (p : prog (option Z)) (s : mark_state) : option mark_state :=
  let at_ s m := Some (set_loc s t (L_mark mqi m)) in
  match p with
  | Ret None => at_ s (M_pop false)
  | Ret (Some o) => at_ s (M_run (mark_obj im mark_reset_age frames false o))
  | Load_header o k => at_ s (M_run (k (header s o)))
  | Exchange_header o v k | Exchange_buf o v k => at_ (set_header s o v) (M_run (k (header s o)))
  | Note e k => at_ (add_note s t e) (M_run k)
  | Abort | Push_ptr _ _ | Push_chunk _ _ => None
  end.

Definition own_step (c : choice) (t : nat) (s : mark_state) : option mark_state :=
  l ← locs s !! t;
  match l with
  | L_store_tid => Some (set_loc (set_initiator s (Z.of_nat t)) t L_enter)
  | L_enter => Some (set_loc (add_marking s 1) t (L_mark t M_start))
  | L_mark mqi M_start =>
      let tid := gc_initiator_tid s in
      Some (set_loc s t (L_mark (if tid =? -1 then mqi else Z.to_nat tid) (M_pop false)))
  | L_mark mqi (M_run p) => run_step t mqi p s
  | L_mark mqi M_plan => if victims_ok (random_chunk c) && victims_ok (random_ptr c) then Some (set_loc s t (L_mark mqi (M_steal (steal_plan c mqi)))) else None
  | L_mark mqi (M_steal []) => Some (set_loc s t L_leave)
  | L_leave => Some (set_loc (add_marking s (-1)) t L_lock)
  | L_lock => match gc_queue_observer_lock s with None => Some (set_loc (set_lock s (Some t)) t L_load_n) | Some _ => None end
  | L_load_n => let n := gc_n_threads_marking s in Some (set_loc s t (if n =? 0 then L_unlock false else L_load_tid n))
  | L_load_tid n => if gc_initiator_tid s =? -1 then None else Some (set_loc s t (L_count n))      (* assert(tid != -1) *)
  | L_count n => Some (set_loc s t (if u64 (16 * n) <=? work c then L_add else L_load_n))
  | L_add => Some (set_loc (add_marking s 1) t (L_unlock true))
  | L_unlock should_mark => Some (set_loc (set_lock s None) t (if should_mark then L_mark t M_start else L_wait))
  | L_wait =>
      if decide (t = init) then
        if gc_n_threads_marking s =? 0 then Some (set_loc (set_initiator s (-1)) t L_out) else None     (* gc_mark_loop_barrier *)
      else if (0 <? gc_n_threads_marking s) || may_sweep c then Some (set_loc s t L_lock) else None      (* jl_parallel_gc_threadfun *)
  | _ => None
  end.

(** The calls of a thread: the queue, the operation, and where it waits. *)
Definition call_of (t : nat) (l : loc) : option (nat * ws_op * loc) :=
  match l with
  | L_mark mqi (M_pop b) => Some (queue_of b t, Pop (zero (elt_words b)), L_mark mqi (M_popping b))
  | L_mark mqi (M_run (Push_ptr v k)) => Some (queue_of false t, Push [v], L_mark mqi (M_pushing false k))
  | L_mark mqi (M_run (Push_chunk c k)) => Some (queue_of true t, Push (chunk_to_words c), L_mark mqi (M_pushing true k))
  | L_mark mqi (M_steal ((b, v) :: plan)) => Some (queue_of b v, Steal (zero (elt_words b)), L_mark mqi (M_stealing b v plan))
  | _ => None
  end.

(** What a thread waits for. *)
Inductive kind := K_push | K_pop | K_steal.
Definition waits (t : nat) (l : loc) : option (nat * kind) :=
  match l with
  | L_mark _ (M_popping b) => Some (queue_of b t, K_pop)
  | L_mark _ (M_pushing b _) => Some (queue_of b t, K_push)
  | L_mark _ (M_stealing b v _) => Some (queue_of b v, K_steal)
  | _ => None
  end.

(** Where a thread goes on with the result. *)
Definition ret_of (l : loc) (r : ws_res) : option loc :=
  match l, r with
  | L_mark mqi (M_popping b), Took e =>
      Some (L_mark mqi (match work_of b e with Some p => M_run p | None => if b then M_plan else M_pop true end))
  | L_mark mqi (M_pushing _ k), Pushed _ => Some (L_mark mqi (M_run k))
  | L_mark mqi (M_stealing b _ plan), Took e =>
      Some (L_mark mqi (match work_of b e with Some p => M_run p | None => M_steal plan end))
  | _, _ => None
  end.

Definition keep_old (s : mark_state) (t q : nat) (r : ws_res) : mark_state :=
  match r with Pushed (Some a) => add_reclaim s t q a | _ => s end.

Inductive mark_uses (q : nat) : event ws_op ws_res -> mark_state -> mark_state -> Prop :=
| mark_call t o l l' s : locs s !! t = Some l -> call_of t l = Some (q, o, l') -> mark_uses q (Call t o) s (set_loc s t l')
| mark_ret t r l l' k s : locs s !! t = Some l -> waits t l = Some (q, k) -> ret_of l r = Some l' ->
    mark_uses q (Objects.Ret t r) s (set_loc (keep_old s t q r) t l').

Definition marker : client ws_op ws_res :=
  {| cstate := mark_state; own s s' := exists c t, own_step c t s = Some s'; uses := mark_uses |}.

(** The mark queues as they are, and as deques. *)
Definition mark_queue (q : nat) := ws_trans (elt_words (holds_chunks q)) (queue_owner q).
Definition mark_deque (q : nat) := d_trans (elt_words (holds_chunks q)) (queue_owner q).
End mark.
