(* ===== verification/GcMarkProtocol.v ===== *)
(** * Marking: who marks, and who may start to

    [gc_n_threads_marking] counts the threads that mark, [gc_queue_observer_lock]
    keeps others from starting while a thread looks at the count, and once the
    thread that started the collection has seen zero, nobody starts again. *)
From S2P Require Import Prelude Objects WsQueue GcProg GcScan GcMark.

(** * Marking: who marks, and who may start to *)

(** A thread that was counted in [gc_n_threads_marking]; one that holds the
    lock; one that has seen others mark and may join. *)
Definition counted (l : loc) : bool := match l with L_mark _ _ | L_leave | L_unlock true => true | _ => false end.
Definition inside (l : loc) : bool := match l with L_load_n | L_load_tid _ | L_count _ | L_add | L_unlock _ => true | _ => false end.
Definition joining (l : loc) : bool := match l with L_load_tid _ | L_count _ | L_add => true | _ => false end.
Definition before (l : loc) : bool := match l with L_store_tid | L_enter => true | _ => false end.
Definition after (l : loc) : bool := match l with L_unlock false | L_wait | L_out => true | _ => false end.

Definition count (l : list loc) : Z := foldr (fun l n => b2z (counted l) + n) 0 l.

Lemma count_cons x L : count (x :: L) = b2z (counted x) + count L.
Proof. done. Qed.

Lemma count_insert L t l l' : L !! t = Some l -> count (<[t := l']> L) = count L + b2z (counted l') - b2z (counted l).
Proof.
  revert t. induction L as [|x L IH]; intros [|t]; cbn [lookup list_lookup]; intros E; simplify_eq.
  - cbn [insert list_insert]. rewrite !count_cons. lia.
  - change (<[S t:=l']> (x :: L)) with (x :: <[t:=l']> L). rewrite !count_cons, (IH t) by done. lia.
Qed.

Lemma count_nonneg L : 0 <= count L.
Proof. induction L as [|x L IH]; [done|]. rewrite count_cons. destruct (counted x); cbn [b2z]; lia.
Qed.

Lemma count_lookup L t l : L !! t = Some l -> counted l = true -> 0 < count L.
Proof.
  revert t. induction L as [|x L IH]; intros [|t]; cbn [lookup list_lookup]; intros E Hc; simplify_eq; rewrite count_cons.
  - rewrite Hc. cbn [b2z]. pose proof (count_nonneg L). lia.
  - pose proof (IH t E Hc). destruct (counted x); cbn [b2z]; lia.
Qed.

Lemma count_none L : (forall t l, L !! t = Some l -> counted l = false) -> count L = 0.
Proof.
  induction L as [|x L IH]; intros H; [done|]. rewrite count_cons, (H 0%nat x) by done. cbn [b2z Z.add]. apply IH. intros t l Hl. by apply (H (S t)).
Qed.

Section protocol.
Context (im : image) (reset : bool) (frames first nmark init : nat).
Abbreviation collectors := (collectors first nmark).
Abbreviation own_step := (own_step im reset frames first nmark init).

Record protocol (s : mark_state) : Prop := {
  p_n : gc_n_threads_marking s = count (locs s);
  p_init : exists l, locs s !! init = Some l /\ l <> L_other;
  p_role t l : locs s !! t = Some l -> t = init \/ (t ∈ collectors /\ before l = false /\ l <> L_out) \/ l = L_other;
  p_lock t l : locs s !! t = Some l -> inside l = true -> gc_queue_observer_lock s = Some t;
  p_before l : locs s !! init = Some l -> before l = true -> count (locs s) = 0;
  p_joining t l l' : locs s !! init = Some l -> before l = true \/ after l = true -> locs s !! t = Some l' -> joining l' = false;
  p_tid l : locs s !! init = Some l -> l <> L_store_tid -> l <> L_out -> gc_initiator_tid s = Z.of_nat init;
  p_after l : locs s !! init = Some l -> after l = true -> count (locs s) = 0;
  p_mqi t mqi m : locs s !! t = Some (L_mark mqi m) -> m <> M_start -> mqi = init;
}.

Ltac look H := apply list_lookup_insert_Some in H as [(? & ? & _)|(? & H)]; simplify_eq.

(** Inside the marking loop nothing that the protocol looks at changes. *)
Lemma protocol_marking s s' t mqi0 m mqi m' : protocol s -> locs s !! t = Some (L_mark mqi0 m) -> locs s' = <[t := L_mark mqi m']> (locs s) ->
  gc_n_threads_marking s' = gc_n_threads_marking s -> gc_queue_observer_lock s' = gc_queue_observer_lock s -> gc_initiator_tid s' = gc_initiator_tid s ->
  (m' <> M_start -> mqi = init) -> protocol s'.
Proof.
  intros [P1 (li & P2 & P2') P3 P4 P5 P6 P7 P8 P9] Hl E En El Ei Hm.
  assert (count (locs s') = count (locs s)) as Ec by (rewrite E, (count_insert _ _ _ _ Hl); cbn; lia).
  constructor; rewrite ?En, ?El, ?Ei, ?Ec, ?E; try done.
  - destruct (decide (init = t)) as [->|]; [|exists li; by rewrite list_lookup_insert_ne by done].
    eexists. split; [apply list_lookup_insert_eq; by eapply lookup_lt_Some|done].
  - intros t' l H. look H; [|by eapply P3]. destruct (P3 _ _ Hl) as [?|[(?&?&?)|?]]; naive_solver.
  - intros t' l H. look H; [done|by eapply P4].
  - intros l H. look H; [done|by eapply P5].
  - intros t' l l' H Hb H'. look H; [by destruct Hb|]. look H'; [done|by eapply P6].
  - intros l H. look H; [|by eapply P7]. intros _ _. by eapply P7.
  - intros l H. look H; [done|by eapply P8].
  - intros t' q n H. look H; [done|by eapply P9].
Qed.
Lemma marking_tid s t l : protocol s -> locs s !! t = Some l -> counted l = true -> gc_initiator_tid s = Z.of_nat init.
Proof.
  intros P Hl Hc. destruct (p_init s P) as (li & Hi & _). pose proof (count_lookup _ _ _ Hl Hc).
  apply (p_tid s P li Hi); intros ->.
  - pose proof (p_before s P _ Hi eq_refl). lia.
  - pose proof (p_after s P _ Hi eq_refl). lia.
Qed.

(** Any other move: what it may change. *)
Record move (s s' : mark_state) (t : nat) (l l' : loc) : Prop := {
  m_locs : locs s' = <[t := l']> (locs s);
  m_n : gc_n_threads_marking s' = gc_n_threads_marking s + b2z (counted l') - b2z (counted l);
  m_role : l <> L_other /\ l <> L_out /\ l' <> L_other;
  m_before : before l' = true -> before l = true /\ counted l' = false;
  m_out : l' = L_out -> t = init;
  m_inside : inside l' = true -> gc_queue_observer_lock s' = Some t;
  m_lock : gc_queue_observer_lock s' = gc_queue_observer_lock s \/ (inside l = true /\ inside l' = false) \/ gc_queue_observer_lock s = None;
  m_joining : joining l' = true -> joining l = true \/ gc_n_threads_marking s <> 0;
  m_counted : counted l' = true -> counted l = true \/ joining l = true \/ l = L_enter;
  m_tid : gc_initiator_tid s' = gc_initiator_tid s \/ (gc_initiator_tid s' = Z.of_nat t /\ l = L_store_tid) \/ (t = init /\ l' = L_out);
  m_tid' : t = init -> l' <> L_out -> l = L_store_tid -> gc_initiator_tid s' = Z.of_nat t;
  m_init : t = init -> after l' = true -> (after l = true \/ (inside l = true /\ gc_n_threads_marking s = 0)) /\ counted l' = false;
  m_mqi mqi m : l' = L_mark mqi m -> m = M_start;
}.

Lemma protocol_move s s' t l l' : protocol s -> locs s !! t = Some l -> move s s' t l l' -> protocol s'.
Proof.
  intros P Hl [E En (Ho & Ho1 & Ho') Hb Hout Hin Hlk Hj Hc Ht Ht' Hi Hm].
  pose proof P as [P1 P2 P3 P4 P5 P6 P7 P8 P9].
  assert (count (locs s') = count (locs s) + b2z (counted l') - b2z (counted l)) as Ec by (rewrite E; by apply count_insert).
  assert (count (locs s) = 0 -> counted l = false) as Hc0.
  { intros. destruct (counted l) eqn:Ecl; [pose proof (count_lookup _ _ _ Hl Ecl); lia|done]. }
  assert (l = L_enter -> t = init) as He by (intros ->; destruct (P3 _ _ Hl) as [?|[(?&?&?)|?]]; done).
  constructor; rewrite ?Ec, ?E; try done.
  - rewrite En, P1. done.
  - destruct P2 as (li & P2 & P2'). destruct (decide (init = t)) as [->|]; [|exists li; by rewrite list_lookup_insert_ne by done].
    eexists. split; [apply list_lookup_insert_eq; by eapply lookup_lt_Some|done].
  - intros t' l1 H. look H; [|by eapply P3]. destruct (P3 _ _ Hl) as [?|[(?&Hb'&?)|?]]; [by left| |done].
    destruct (decide (t' = init)); [by left|]. right. left. split_and!; [done| |naive_solver]. destruct (before l1); naive_solver.
  - intros t' l1 H Hi'. look H; [by apply Hin|]. pose proof (P4 _ _ H Hi') as E'. destruct Hlk as [->|[(Hi1 & _)|E1]]; [done| |congruence].
    pose proof (P4 _ _ Hl Hi1). congruence.
  - intros l1 H Hb1. look H.
    + destruct (Hb Hb1) as (Hb2 & ->). pose proof (P5 _ Hl Hb2). rewrite Hc0 by done. cbn. lia.
    + pose proof (P5 _ H Hb1). rewrite Hc0 by done. destruct (counted l') eqn:Ecl; cbn [b2z]; [|lia].
      destruct (Hc eq_refl) as [Hcl|[Hjl|Hel]]; [by rewrite Hc0 in Hcl| |by apply He in Hel].
      by rewrite (P6 _ _ _ H (or_introl Hb1) Hl) in Hjl.
  - intros t' l1 l2 H Hba H'. look H; look H'; [by destruct l2 as [| | | | | | | | | |[]| |]; destruct Hba| | |by eapply P6].
    + destruct Hba as [Hb1|Ha1]; [eapply (P6 _ _ _ Hl); [left; by apply Hb|done]|].
      destruct (Hi eq_refl Ha1) as ([Hal|(Hil & Hn0)] & _); [eapply (P6 _ _ _ Hl); [by right|done]|].
      destruct (joining l2) eqn:Ej; [|done]. assert (inside l2 = true) as Hi2 by (by destruct l2).
      pose proof (P4 _ _ H' Hi2). pose proof (P4 _ _ Hl Hil). congruence.
    + destruct (joining l2) eqn:Ej; [|done]. destruct (Hj eq_refl) as [Hj'|Hn]; [by rewrite (P6 _ _ _ H Hba Hl) in Hj'|].
      destruct Hn. rewrite P1. destruct Hba; [by eapply P5|by eapply P8].
  - intros l1 H Hn1 Hn2. look H.
    + destruct Ht as [Ht|[(Ht & _)|(_ & ?)]]; [|done|done]. assert (l = L_store_tid \/ l <> L_store_tid) as [Hs|Hs] by (destruct l; (by left) || by right); [by apply Ht'|].
      rewrite Ht. by apply (P7 _ Hl).
    + destruct Ht as [Ht|[(Ht & ->)|(-> & _)]]; [rewrite Ht; by eapply P7| |done].
      destruct (P3 _ _ Hl) as [?|[(?&?&?)|?]]; [done|done|done].
  - intros l1 H Ha1. look H.
    + destruct (Hi eq_refl Ha1) as ([Hal|(_ & Hn0)] & ->); [pose proof (P8 _ Hl Hal) as Hz|rewrite P1 in Hn0; pose proof Hn0 as Hz]; rewrite (Hc0 Hz); cbn; lia.
    + pose proof (P8 _ H Ha1) as Hz. rewrite (Hc0 Hz). destruct (counted l') eqn:Ecl; cbn [b2z]; [|lia].
      destruct (Hc eq_refl) as [Hcl|[Hjl|Hel]]; [by rewrite (Hc0 Hz) in Hcl| |by apply He in Hel].
      by rewrite (P6 _ _ _ H (or_intror Ha1) Hl) in Hjl.
  - intros t' mqi m H Hns. look H; [|by eapply P9]. by destruct Hns; eapply Hm.
Qed.

(** ** The moves of the code *)

Ltac mv := split; [done|..]; cbn; try done; try lia; naive_solver.

Lemma own_step_protocol c t s s' : protocol s -> own_step c t s = Some s' -> protocol s'.
Proof.
  intros P E. unfold GcMark.own_step in E. destruct (locs s !! t) as [l|] eqn:Hl; [|done]. cbn [mbind option_bind] in E.
  pose proof (p_role s P _ _ Hl) as Hr.
  destruct l as [| | |mqi m| | | |n|n| |b| |].
  - done.
  - simplify_eq. eapply (protocol_move s _ t); [done|done|]. mv.
  - simplify_eq. eapply (protocol_move s _ t); [done|done|]. mv.
  - pose proof (marking_tid s t _ P Hl eq_refl) as Ht. destruct m as [| | |p| | |plan|]; try done.
    + simplify_eq. eapply (protocol_marking s _ t); [done..|]. intros _. rewrite Ht. rewrite (proj2 (Z.eqb_neq _ _)) by lia. by rewrite Nat2Z.id.
    + assert (forall m, m <> M_start -> mqi = init) as Hm by (intros; by eapply (p_mqi s P _ _ _ Hl)).
      destruct p as [[o|]| |o k|o v k|o v k|v k|cc k|e k]; cbn in E; simplify_eq; by eapply (protocol_marking s _ t); [..|eapply Hm].
    + destruct (_ && _); [|done]. simplify_eq. eapply (protocol_marking s _ t); [done..|]. intros _. by eapply (p_mqi s P _ _ _ Hl).
    + destruct plan; [|done]. simplify_eq. eapply (protocol_move s _ t); [done|done|]. mv.
  - simplify_eq. eapply (protocol_move s _ t); [done|done|]. mv.
  - destruct (gc_queue_observer_lock s) eqn:El; [done|]. simplify_eq. eapply (protocol_move s _ t); [done|done|]. mv.
  - simplify_eq. pose proof (p_lock s P _ _ Hl eq_refl) as Hk. destruct (Z.eqb_spec (gc_n_threads_marking s) 0) as [En|En];
      (eapply (protocol_move s _ t); [done|done|]); mv.
  - destruct (_ =? -1); [done|]. simplify_eq. pose proof (p_lock s P _ _ Hl eq_refl) as Hk. eapply (protocol_move s _ t); [done|done|]. mv.
  - simplify_eq. pose proof (p_lock s P _ _ Hl eq_refl) as Hk. destruct (_ <=? _); (eapply (protocol_move s _ t); [done|done|]); mv.
  - simplify_eq. pose proof (p_lock s P _ _ Hl eq_refl) as Hk. eapply (protocol_move s _ t); [done|done|]. mv.
  - simplify_eq. destruct b; (eapply (protocol_move s _ t); [done|done|]); mv.
  - case_decide; [|destruct (_ || _); [|done]].
    + destruct (Z.eqb_spec (gc_n_threads_marking s) 0); [|done]. simplify_eq. eapply (protocol_move s _ init); [done|done|]. mv.
    + simplify_eq. eapply (protocol_move s _ t); [done|done|]. mv.
  - done.
Qed.
End protocol.

(** * Marking: what is in the queues, and who will look there

    While a queue is not empty, some thread that marks still has to look at it
    before it may leave. *)

(** ** Queue numbers *)

Lemma queue_owner_of b t : queue_owner (queue_of b t) = t.
Proof. unfold queue_owner, queue_of. destruct b; [|rewrite Nat.mul_comm; by apply Nat.div_mul]. change (S (2 * t)) with (1 + 2 * t)%nat. rewrite Nat.mul_comm, Nat.div_add by done. done. Qed.

Lemma holds_chunks_of b t : holds_chunks (queue_of b t) = b.
Proof. unfold holds_chunks, queue_of. destruct b; [rewrite Nat.odd_succ|]; rewrite ?Nat.even_mul, ?Nat.odd_mul; done. Qed.

Lemma queue_of_owner q : queue_of (holds_chunks q) (queue_owner q) = q.
Proof.
  unfold queue_of, holds_chunks, queue_owner. pose proof (Nat.div_mod_eq q 2). rewrite <- Nat.bit0_odd, Nat.bit0_eqb.
  destruct (Nat.eqb_spec (q mod 2) 1); [lia|]. pose proof (Nat.mod_upper_bound q 2). lia.
Qed.

Section queues.
Context (im : image) (reset : bool) (frames first nmark init : nat).
Abbreviation own_step := (own_step im reset frames first nmark init).
Abbreviation work_of := (work_of im reset frames).
Abbreviation ret_of := (ret_of im reset frames).
Abbreviation marker := (marker im reset frames first nmark init).
Abbreviation protocol := (protocol first nmark init).
Abbreviation collectors := (collectors first nmark).

(** ** A thread is at a queue exactly while it waits for it *)

Definition during (b : bool) (k : kind) (a : apc) : Prop :=
  match k with
  | K_push => (exists e, a = A_push e) \/ exists r, a = A_done (Pushed r)
  | K_pop => a = A_pop \/ exists e, a = A_done (Took e)
  | K_steal => a = A_steal (zero (elt_words b)) \/ (exists t, a = A_steal_from (zero (elt_words b)) t) \/ (exists t, a = A_steal_take t) \/ exists e, a = A_done (Took e)
  end.
Definition at_queue (t : nat) (l : loc) (q : nat) (a : apc) : Prop :=
  match waits t l with Some (q', k) => if decide (q = q') then during (holds_chunks q) k a else a = A_idle | None => a = A_idle end.

(** ** Elements *)

Context (El : bool -> elt -> Prop).
Hypothesis El_work : forall b e, El b e -> is_Some (work_of b e).

Definition pending_ok (b : bool) (a : apc) : Prop :=
  match a with A_push e => El b e | A_done (Took e) => El b e \/ e = zero (elt_words b) | _ => True end.

(** ** Who will look at queue [q] *)

Definition looks (q : nat) (tk : Z) (a : apc) (q' : nat) : Prop :=
  match a with
  | A_steal _ => q' = q
  | A_steal_from _ k | A_steal_take k => q' = q /\ k = tk
  | A_done (Took e) => is_Some (work_of (holds_chunks q) e)
  | _ => False
  end.
Definition visits (os : list deque) (t : nat) (l : loc) (q : nat) : Prop :=
  match l with
  | L_unlock true => True
  | L_mark _ (M_steal plan) => (holds_chunks q, queue_owner q) ∈ plan
  | L_mark _ (M_stealing b v plan) =>
      (holds_chunks q, queue_owner q) ∈ plan \/
      exists d a, os !! queue_of b v = Some d /\ apcs d !! t = Some a /\ looks (queue_of b v) (taken d) a q
  | L_mark _ _ => True
  | _ => False
  end.

Record flow (s : mark_state) (os : list deque) : Prop := {
  f_protocol : protocol s;
  f_at q d t a : os !! q = Some d -> apcs d !! t = Some a -> exists l, locs s !! t = Some l /\ at_queue t l q a;
  f_items q d : os !! q = Some d -> Forall (El (holds_chunks q)) (items d);
  f_pending q d t a : os !! q = Some d -> apcs d !! t = Some a -> pending_ok (holds_chunks q) a;
  f_owner q d : os !! q = Some d -> items d <> [] -> queue_owner q ∈ collectors \/ queue_owner q = init;
  f_work li q d : locs s !! init = Some li -> before li = false -> os !! q = Some d -> items d <> [] ->
    exists t l, locs s !! t = Some l /\ visits os t l q;
}.

(** Nobody marks: nothing is left, and nobody is at a queue. *)
Lemma flow_idle s os li q d : flow s os -> locs s !! init = Some li -> before li = false -> gc_n_threads_marking s = 0 -> os !! q = Some d ->
  items d = [] /\ forall t a, apcs d !! t = Some a -> a = A_idle.
Proof.
  intros F Hi Hb Hn Hq. assert (forall t l, locs s !! t = Some l -> counted l = false) as Hc.
  { intros t l Hl. destruct (counted l) eqn:E; [|done]. pose proof (count_lookup _ _ _ Hl E) as H. rewrite <- (p_n _ _ _ s (f_protocol _ _ F)) in H. lia. }
  split.
  - destruct (decide (items d = [])) as [|Hne]; [done|]. destruct (f_work _ _ F _ _ _ Hi Hb Hq Hne) as (t & l & Hl & Hv).
    pose proof (Hc _ _ Hl). destruct l as [| | |mqi m| | | | | | |[]| |]; done.
  - intros t a Ha. destruct (f_at _ _ F _ _ _ _ Hq Ha) as (l & Hl & Hat). pose proof (Hc _ _ Hl). unfold at_queue in Hat. by destruct l as [| | |mqi m| | | | | | |[]| |].
Qed.
(** ** Steps inside a queue *)

Lemma at_waiting t l q a : at_queue t l q a -> a <> A_idle -> exists k, waits t l = Some (q, k) /\ during (holds_chunks q) k a.
Proof. unfold at_queue. destruct (waits t l) as [[q' k]|]; [|done]. case_decide; [|done]. subst. eauto. Qed.

Lemma at_queue_step t l q a a' : at_queue t l q a -> a <> A_idle -> (forall k, during (holds_chunks q) k a -> during (holds_chunks q) k a') -> at_queue t l q a'.
Proof. intros Hat Hne H. destruct (at_waiting _ _ _ _ Hat Hne) as (k & Hw & Hd). unfold at_queue. rewrite Hw, decide_True by done. by apply H. Qed.

Lemma waits_inv t l q k : waits t l = Some (q, k) -> exists mqi m, l = L_mark mqi m /\
  match k with
  | K_push => exists b p, m = M_pushing b p /\ q = queue_of b t
  | K_pop => exists b, m = M_popping b /\ q = queue_of b t
  | K_steal => exists b v plan, m = M_stealing b v plan /\ q = queue_of b v
  end.
Proof. destruct l as [| | |mqi []| | | | | | | | |]; cbn; intros; simplify_eq; naive_solver. Qed.

(** What a thread is about to look at when only another queue's or another
    thread's progress changed. *)
Lemma visits_mono os os' t l q : visits os t l q ->
  (forall q1 d a, os !! q1 = Some d -> apcs d !! t = Some a -> exists d', os' !! q1 = Some d' /\ apcs d' !! t = Some a /\ taken d' = taken d) ->
  visits os' t l q.
Proof.
  intros Hv H. destruct l as [| | |mqi m| | | | | | |[]| |]; try done. destruct m; try done.
  destruct Hv as [Hv|(d & a & Hd & Ha & Hl)]; [by left|]. right. destruct (H _ _ _ Hd Ha) as (d' & Hd' & Ha' & Ht). exists d', a. by rewrite Ht.
Qed.

Definition work_ok (s : mark_state) (os : list deque) : Prop :=
  forall li q d, locs s !! init = Some li -> before li = false -> os !! q = Some d -> items d <> [] -> exists t l, locs s !! t = Some l /\ visits os t l q.

Lemma work_all s os t l : locs s !! t = Some l -> (forall q, visits os t l q) -> work_ok s os.
Proof. intros Hl Hv li q d _ _ _ _. eauto. Qed.

(** A thief goes on without taking anything. *)
Lemma work_thief s os q d i a a' : work_ok s os -> os !! q = Some d -> apcs d !! i = Some a ->
  (forall l, locs s !! i = Some l -> exists mqi b v plan, l = L_mark mqi (M_stealing b v plan) /\ q = queue_of b v) ->
  (forall q2 d2, os !! q2 = Some d2 -> items d2 <> [] -> looks q (taken d) a q2 -> looks q (taken d) a' q2) ->
  work_ok s (<[q := a_set d (taken d) (items d) i a']> os).
Proof.
  intros W Hq Ha Hi Hlk li q2 d2 Hli Hb Hq2 Hne.
  assert (exists d2', os !! q2 = Some d2' /\ items d2' <> []) as (d2' & Hq2' & Hne').
  { apply list_lookup_insert_Some in Hq2 as [(-> & <- & _)|(_ & Hq2)]; eauto. }
  destruct (W li q2 d2' Hli Hb Hq2' Hne') as (t & l & Hl & Hv). exists t, l. split; [done|].
  assert (q < length os)%nat as Hlt by (by eapply lookup_lt_Some).
  assert (i < length (apcs d))%nat as Hlt' by (by eapply lookup_lt_Some).
  destruct (decide (t = i)) as [->|Hti].
  - destruct (Hi _ Hl) as (mqi & b & v & plan & -> & ->). destruct Hv as [Hv|(d1 & a1 & Hd1 & Ha1 & Hv)]; [by left|]. right. simplify_eq.
    eexists _, a'. split; [by apply list_lookup_insert_eq|]. split; [by apply list_lookup_insert_eq|]. by eapply Hlk.
  - eapply visits_mono; [done|]. intros q1 d1 a1 Hq1 Ha1. destruct (decide (q1 = q)) as [->|]; [|exists d1; by rewrite list_lookup_insert_ne by done].
    simplify_eq. eexists. split; [by apply list_lookup_insert_eq|]. cbn. by rewrite list_lookup_insert_ne by done.
Qed.
Definition is_thief (a : apc) : bool := match a with A_steal _ | A_steal_from _ _ | A_steal_take _ => true | _ => false end.
Definition is_owner (a : apc) : bool := match a with A_push _ | A_pop => true | _ => false end.

Lemma thief_loc s os q d i a : flow s os -> os !! q = Some d -> apcs d !! i = Some a -> is_thief a = true ->
  forall l, locs s !! i = Some l -> exists mqi b v plan, l = L_mark mqi (M_stealing b v plan) /\ q = queue_of b v.
Proof.
  intros F Hq Ha Ht l Hl. destruct (f_at _ _ F _ _ _ _ Hq Ha) as (l' & Hl' & Hat). simplify_eq.
  destruct (at_waiting _ _ _ _ Hat) as (k & Hw & Hd); [by intros ->|]. destruct (waits_inv _ _ _ _ Hw) as (mqi & m & -> & Hm).
  destruct k; cbn in Hd; [naive_solver..|]. destruct Hm as (b & v & plan & -> & ->). by exists mqi, b, v, plan.
Qed.

Lemma owner_visits s os q d i a : flow s os -> os !! q = Some d -> apcs d !! i = Some a -> is_owner a = true ->
  exists l, locs s !! i = Some l /\ (forall os' q', visits os' i l q') /\ i = queue_owner q /\ counted l = true.
Proof.
  intros F Hq Ha Ho. destruct (f_at _ _ F _ _ _ _ Hq Ha) as (l & Hl & Hat). exists l.
  destruct (at_waiting _ _ _ _ Hat) as (k & Hw & Hd); [by intros ->|]. destruct (waits_inv _ _ _ _ Hw) as (mqi & m & -> & Hm).
  destruct k; cbn in Hd.
  - destruct Hm as (b & p & -> & ->). by rewrite queue_owner_of.
  - destruct Hm as (b & -> & ->). by rewrite queue_owner_of.
  - naive_solver.
Qed.

(** What a step in queue [q] leaves alone. *)
Lemma flow_set s os q d i a a' tk its : flow s os -> os !! q = Some d -> apcs d !! i = Some a ->
  let d' := {| taken := tk; items := its; apcs := <[i := a']> (apcs d) |} in
  (forall l, locs s !! i = Some l -> at_queue i l q a -> at_queue i l q a') ->
  Forall (El (holds_chunks q)) its -> pending_ok (holds_chunks q) a' ->
  (its <> [] -> queue_owner q ∈ collectors \/ queue_owner q = init) ->
  work_ok s (<[q := d']> os) -> flow s (<[q := d']> os).
Proof.
  intros F Hq Ha d' Hat Hit Hp Ho Hw. split.
  - apply F.
  - intros q1 d1 t a1 [(<- & <- & _)|(_ & Hq1)]%list_lookup_insert_Some Ha1; [|by eapply (f_at _ _ F)]. cbn in Ha1.
    apply list_lookup_insert_Some in Ha1 as [(<- & <- & _)|(_ & Ha1)]; [|by eapply (f_at _ _ F)].
    destruct (f_at _ _ F _ _ _ _ Hq Ha) as (l & Hl & H). exists l. split; [done|]. by apply Hat.
  - intros q1 d1 [(<- & <- & _)|(_ & Hq1)]%list_lookup_insert_Some; [done|by apply (f_items _ _ F)].
  - intros q1 d1 t a1 [(<- & <- & _)|(_ & Hq1)]%list_lookup_insert_Some Ha1; [|by eapply (f_pending _ _ F)]. cbn in Ha1.
    apply list_lookup_insert_Some in Ha1 as [(<- & <- & _)|(_ & Ha1)]; [done|by eapply (f_pending _ _ F)].
  - intros q1 d1 [(<- & <- & _)|(_ & Hq1)]%list_lookup_insert_Some Hne; [by apply Ho|by eapply (f_owner _ _ F)].
  - exact Hw.
Qed.

Lemma role_owner s t l : protocol s -> locs s !! t = Some l -> counted l = true -> t ∈ collectors \/ t = init.
Proof. intros P Hl Hc. destruct (p_role _ _ _ s P _ _ Hl) as [?|[(?&?&?)|?]]; [by right|by left|by subst]. Qed.

Lemma flow_internal s os q d d' : flow s os -> os !! q = Some d -> mark_deque q d None d' -> flow s (<[q := d']> os).
Proof.
  intros F Hq Hs. pose proof (f_items _ _ F _ _ Hq) as Hit. unfold mark_deque in Hs. inversion Hs as [| |i e old Ha|i l e Ha Hi|i Ha Hi|i dest Ha|i dest t Ha Hc|i dest t Ha|i t e l Ha Ht Hi|i t Ha Ht]; subst; clear Hs.
  - destruct (owner_visits _ _ _ _ _ _ F Hq Ha eq_refl) as (l & Hl & Hv & Hi & Hc). eapply flow_set; [done..| | | | |].
    + intros l' _ Hat. eapply at_queue_step; [done..|]. intros []; cbn; naive_solver.
    + apply Forall_app. split; [done|]. constructor; [|done]. apply (f_pending _ _ F _ _ _ _ Hq Ha).
    + done.
    + intros _. rewrite <- Hi. eapply role_owner; [apply F|done..].
    + by eapply work_all.
  - destruct (owner_visits _ _ _ _ _ _ F Hq Ha eq_refl) as (l' & Hl & Hv & Ho & Hc). rewrite Hi in Hit. apply Forall_app in Hit as [Hit He].
    eapply flow_set; [done..| | | | |].
    + intros l1 _ Hat. eapply at_queue_step; [done..|]. intros []; cbn; naive_solver.
    + done.
    + left. by apply Forall_cons in He as [? _].
    + intros _. rewrite <- Ho. eapply role_owner; [apply F|done..].
    + by eapply work_all.
  - destruct (owner_visits _ _ _ _ _ _ F Hq Ha eq_refl) as (l' & Hl & Hv & Ho & Hc). eapply flow_set; [done..| | | |done|].
    + intros l1 _ Hat. eapply at_queue_step; [done..|]. intros []; cbn; naive_solver.
    + done.
    + by right.
    + by eapply work_all.
  - eapply (flow_set s os q d i (A_steal dest)); [done..| |done|done|by apply (f_owner _ _ F)|].
    + intros l1 _ Hat. eapply at_queue_step; [done..|]. intros []; cbn; naive_solver.
    + eapply work_thief; [exact (f_work _ _ F)|done|done|by eapply thief_loc|]. intros q2 d2 _ _ ->. done.
  - eapply (flow_set s os q d i (A_steal_from dest t)); [done..| |done| |by apply (f_owner _ _ F)|].
    + intros l1 _ Hat. eapply at_queue_step; [done..|]. intros []; cbn; naive_solver.
    + right. destruct (f_at _ _ F _ _ _ _ Hq Ha) as (l & Hl & Hat). destruct (at_waiting _ _ _ _ Hat) as ([] & _ & Hd); [done|cbn in Hd..]; naive_solver.
    + destruct Hc as [Hi|[Ht|Ho]].
      * eapply work_thief; [exact (f_work _ _ F)|done|done|by eapply thief_loc|]. intros q2 d2 Hq2 Hne [-> _]. simplify_eq.
      * eapply work_thief; [exact (f_work _ _ F)|done|done|by eapply thief_loc|]. intros q2 d2 Hq2 Hne [-> ?]. congruence.
      * destruct (owner_visits _ _ _ _ _ _ F Hq Ho eq_refl) as (l & Hl & Hv & _ & _). by eapply work_all.
  - eapply (flow_set s os q d i (A_steal_from dest t)); [done..| |done|done|by apply (f_owner _ _ F)|].
    + intros l1 _ Hat. eapply at_queue_step; [done..|]. intros []; cbn; naive_solver.
    + eapply work_thief; [exact (f_work _ _ F)|done|done|by eapply thief_loc|]. intros q2 d2 _ _ [-> ->]. done.
  - rewrite Hi in Hit. apply Forall_cons in Hit as [He Hit].
    eapply (flow_set s os q d i (A_steal_take (taken d))); [done..| |done| |intros _; apply (f_owner _ _ F _ _ Hq); by rewrite Hi|].
    + intros l1 _ Hat. eapply at_queue_step; [done..|]. intros []; cbn; naive_solver.
    + by left.
    + destruct (f_at _ _ F _ _ _ _ Hq Ha) as (l1 & Hl1 & _). destruct (thief_loc _ _ _ _ _ _ F Hq Ha eq_refl _ Hl1) as (mqi & b & v & plan & -> & ->).
      eapply work_all; [done|]. intros q'. right. eexists _, _. split; [by apply list_lookup_insert_eq; eapply lookup_lt_Some|].
      split; [by apply list_lookup_insert_eq; eapply lookup_lt_Some|]. cbn. by apply El_work.
  - eapply (flow_set s os q d i (A_steal_take t)); [done..| |done| |by apply (f_owner _ _ F)|].
    + intros l1 _ Hat. eapply at_queue_step; [done..|]. intros []; cbn; naive_solver.
    + by right.
    + eapply work_thief; [exact (f_work _ _ F)|done|done|by eapply thief_loc|]. intros q2 d2 _ _ [-> ->]. done.
Qed.
(** ** Steps of a thread *)

(** A thread moves from [l] to [l']; [os'] has another place for it in [q]. *)
Lemma work_move s s' os t l l' : work_ok s os -> locs s !! t = Some l -> locs s' = <[t := l']> (locs s) ->
  (forall li, locs s !! init = Some li -> before li = true -> t = init -> before l' = true \/ forall q, visits os t l' q) ->
  (forall q d, os !! q = Some d -> items d <> [] -> visits os t l q -> visits os t l' q) -> work_ok s' os.
Proof.
  intros W Hl E Hb Hv li q d Hli Hbi Hq Hne. rewrite E in Hli |- *.
  assert (t < length (locs s))%nat as Hlt by (by eapply lookup_lt_Some).
  destruct (decide (t = init)) as [->|Hti].
  - rewrite list_lookup_insert_eq in Hli by done. simplify_eq. destruct (before l) eqn:Ebl.
    + destruct (Hb _ Hl Ebl eq_refl) as [?|Ha]; [congruence|]. exists init, li. by rewrite list_lookup_insert_eq.
    + destruct (W _ _ _ Hl Ebl Hq Hne) as (t' & l1 & Hl1 & H1). destruct (decide (t' = init)) as [->|Hne'].
      * exists init, li. rewrite list_lookup_insert_eq by done. simplify_eq. split; [done|]. by eapply Hv.
      * exists t', l1. by rewrite list_lookup_insert_ne.
  - rewrite list_lookup_insert_ne in Hli by done. destruct (W _ _ _ Hli Hbi Hq Hne) as (t' & l1 & Hl1 & H1). destruct (decide (t' = t)) as [->|Hne'].
    + exists t, l'. rewrite list_lookup_insert_eq by done. simplify_eq. split; [done|]. by eapply Hv.
    + exists t', l1. by rewrite list_lookup_insert_ne.
Qed.

Lemma plan_complete c mqi q : queue_owner q ∈ collectors \/ queue_owner q = mqi -> (holds_chunks q, queue_owner q) ∈ steal_plan first nmark c mqi.
Proof.
  intros H. assert (queue_owner q ∈ collectors ++ [mqi]) as Hin by (rewrite elem_of_app, list_elem_of_singleton; done).
  unfold steal_plan. rewrite elem_of_app. destruct (holds_chunks q); [left|right]; apply list_elem_of_fmap; exists (queue_owner q); (split; [done|]);
    apply elem_of_app; by right.
Qed.

Lemma own_step_moves c t s s' : protocol s -> own_step c t s = Some s' -> exists l l', locs s !! t = Some l /\ locs s' = <[t := l']> (locs s) /\
  waits t l = None /\ waits t l' = None /\
  (before l = true -> before l' = true \/ forall os q, visits os t l' q) /\
  (forall os q, queue_owner q ∈ collectors \/ queue_owner q = init -> visits os t l q -> visits os t l' q).
Proof.
  intros P E. unfold GcMark.own_step in E. destruct (locs s !! t) as [l|] eqn:Hl; [|done]. cbn [mbind option_bind] in E. exists l.
  assert (forall l', locs s' = <[t := l']> (locs s) -> waits t l = None -> waits t l' = None -> (before l = true -> before l' = true \/ forall os q, visits os t l' q) ->
    (forall os q, queue_owner q ∈ collectors \/ queue_owner q = init -> visits os t l q -> visits os t l' q) -> exists l', Some l = Some l /\ locs s' = <[t := l']> (locs s) /\
    waits t l = None /\ waits t l' = None /\ (before l = true -> before l' = true \/ forall os q, visits os t l' q) /\
    (forall os q, queue_owner q ∈ collectors \/ queue_owner q = init -> visits os t l q -> visits os t l' q)) as Hdone by eauto 10.
  destruct l as [| | |mqi m| | | |n|n| |b| |]; try done.
  - simplify_eq. eapply Hdone; [done..|by left|done].
  - simplify_eq. eapply Hdone; [done..|by right|done].
  - destruct m as [| | |p| | |plan|]; try done.
    + simplify_eq. by eapply Hdone.
    + destruct p as [[o|]| |o k|o v k|o v k|v k|cc k|e k]; cbn in E; simplify_eq; by eapply Hdone.
    + destruct (_ && _); [|done]. simplify_eq. eapply Hdone; try done. intros os q Hq _. cbn.
      rewrite (p_mqi _ _ _ s P _ _ _ Hl) by done. by apply plan_complete.
    + destruct plan; [|done]. simplify_eq. eapply Hdone; try done. intros os q _ H. cbn in H. by apply not_elem_of_nil in H.
  - simplify_eq. by eapply Hdone.
  - destruct (gc_queue_observer_lock s); [done|]. simplify_eq. by eapply Hdone.
  - simplify_eq. destruct (_ =? 0); by eapply Hdone.
  - destruct (_ =? -1); [done|]. simplify_eq. by eapply Hdone.
  - simplify_eq. destruct (_ <=? _); by eapply Hdone.
  - simplify_eq. by eapply Hdone.
  - simplify_eq. destruct b; by eapply Hdone.
  - case_decide; [|destruct (_ || _); [|done]].
    + destruct (_ =? 0); [|done]. simplify_eq. by eapply Hdone.
    + simplify_eq. by eapply Hdone.
Qed.

Lemma flow_own c t s s' os : flow s os -> own_step c t s = Some s' -> flow s' os.
Proof.
  intros F E. pose proof (f_protocol _ _ F) as P. destruct (own_step_moves _ _ _ _ P E) as (l & l' & Hl & El' & Hw & Hw' & Hb & Hv). split.
  - by eapply own_step_protocol.
  - intros q d t' a Hq Ha. destruct (f_at _ _ F _ _ _ _ Hq Ha) as (l1 & Hl1 & Hat). rewrite El'. destruct (decide (t' = t)) as [->|].
    + exists l'. rewrite list_lookup_insert_eq by (by eapply lookup_lt_Some). simplify_eq. split; [done|]. unfold at_queue in *. by rewrite Hw in Hat; rewrite Hw'.
    + exists l1. by rewrite list_lookup_insert_ne.
  - apply F.
  - apply F.
  - apply F.
  - eapply work_move; [exact (f_work _ _ F)|done|done| |].
    + intros li Hli Hbi ->. simplify_eq. destruct (Hb Hbi); auto.
    + intros q d Hq Hne. apply Hv. by eapply (f_owner _ _ F).
Qed.
(** ** Calls and returns *)

Lemma call_moves t l q o l' : call_of t l = Some (q, o, l') -> exists mqi m m' k, l = L_mark mqi m /\ l' = L_mark mqi m' /\ m <> M_start /\ m' <> M_start /\
  waits t l = None /\ waits t l' = Some (q, k) /\ during (holds_chunks q) k (a_start o).
Proof.
  destruct l as [| | |mqi [|b|b|p|b p| |[|[b v] plan]|b v plan]| | | | | | | | |]; cbn; try done.
  - intros; simplify_eq. eexists _, _, _, K_pop. cbn. naive_solver.
  - destruct p; try done; intros; simplify_eq; eexists _, _, _, K_push; cbn; naive_solver.
  - intros; simplify_eq. eexists _, _, _, K_steal. cbn. rewrite holds_chunks_of. naive_solver.
Qed.

Lemma ret_moves t l q k r l' : waits t l = Some (q, k) -> ret_of l r = Some l' -> exists mqi m m', l = L_mark mqi m /\ l' = L_mark mqi m' /\
  m <> M_start /\ m' <> M_start /\ waits t l' = None.
Proof.
  destruct l as [| | |mqi [|b|b|p|b p| |plan|b v plan]| | | | | | | | |]; cbn; try done; destruct r as [r|e]; try done; intros; simplify_eq; repeat case_match;
    eexists _, _, _; naive_solver.
Qed.

Lemma keep_old_locs s t q r : locs (keep_old s t q r) = locs s.
Proof. by destruct r as [[a|]|e]. Qed.

Lemma use_protocol q e s s' : protocol s -> mark_uses im reset frames q e s s' -> protocol s'.
Proof.
  intros P Hu. revert P. destruct Hu as [t o l l' s1 Hl Hc|t r l l' k s1 Hl Hw Hr]; intros P.
  - destruct (call_moves _ _ _ _ _ Hc) as (mqi & m & m' & k & -> & -> & Hm & Hm' & _). eapply (protocol_marking _ _ _ s1 _ t); [done..|].
    intros _. by eapply (p_mqi _ _ _ s1 P).
  - destruct (ret_moves _ _ _ _ _ _ Hw Hr) as (mqi & m & m' & -> & -> & Hm & Hm' & _). eapply (protocol_marking _ _ _ s1 _ t); [done|done|..].
    + cbn. by rewrite keep_old_locs.
    + by destruct r as [[a|]|e].
    + by destruct r as [[a|]|e].
    + by destruct r as [[a|]|e].
    + intros _. by eapply (p_mqi _ _ _ s1 P).
Qed.

(** What a call or a return changes in the queue: the thread's place. *)
Lemma use_queue q d e d' : mark_deque q d (Some e) d' -> exists t a a', apcs d !! t = Some a /\ d' = a_set d (taken d) (items d) t a' /\
  ((exists o, e = Call t o /\ a = A_idle /\ a' = a_start o) \/ (exists r, e = Objects.Ret t r /\ a = A_done r /\ a' = A_idle)).
Proof. unfold mark_deque. intros H. inversion H; subst; eexists _, _, _; naive_solver. Qed.

Lemma use_moves q e s s' : mark_uses im reset frames q e s s' ->
  exists t l l' mqi m m', locs s !! t = Some l /\ locs s' = <[t := l']> (locs s) /\ l = L_mark mqi m /\ l' = L_mark mqi m' /\ header s' = header s /\
  ((exists o k, e = Call t o /\ call_of t l = Some (q, o, l') /\ waits t l = None /\ waits t l' = Some (q, k) /\ during (holds_chunks q) k (a_start o)) \/
   (exists r k, e = Objects.Ret t r /\ ret_of l r = Some l' /\ waits t l = Some (q, k) /\ waits t l' = None)).
Proof.
  intros [t o l l' s1 Hl Hc|t r l l' k s1 Hl Hw Hr].
  - destruct (call_moves _ _ _ _ _ Hc) as (mqi & m & m' & k & -> & -> & Hm & Hm' & ? & ? & ?).
    eexists t, _, _, mqi, m, m'. split_and!; try done. left. eauto 10.
  - destruct (ret_moves _ _ _ _ _ _ Hw Hr) as (mqi & m & m' & -> & -> & Hm & Hm' & ?).
    eexists t, _, _, mqi, m, m'. split_and!; try done; [cbn; by rewrite keep_old_locs|cbn; by destruct r as [[]|]|]. right. eauto 10.
Qed.

Lemma visits_call t l q o l' os d : call_of t l = Some (q, o, l') -> os !! q = Some d -> apcs d !! t = Some A_idle ->
  forall q', visits os t l q' -> visits (<[q := a_set d (taken d) (items d) t (a_start o)]> os) t l' q'.
Proof.
  intros Hc Hq Ha q' Hv. destruct l as [| | |mqi [|b|b|p|b p| |[|[b v] plan]|b v plan]| | | | | | | | |]; cbn in Hc; try done; simplify_eq; try done.
  - by destruct p; simplify_eq.
  - cbn in Hv. apply elem_of_cons in Hv as [Hv|Hv]; [|by left]. right. eexists _, _. split; [by apply list_lookup_insert_eq; eapply lookup_lt_Some|].
    split; [by apply list_lookup_insert_eq; eapply lookup_lt_Some|]. cbn. simplify_eq. by rewrite queue_of_owner.
Qed.

Lemma visits_ret t l q k r l' os d os' : waits t l = Some (q, k) -> ret_of l r = Some l' -> os !! q = Some d -> apcs d !! t = Some (A_done r) ->
  forall q', visits os t l q' -> visits os' t l' q'.
Proof.
  intros Hw Hr Hq Ha q' Hv. destruct l as [| | |mqi [|b|b|p|b p| |plan|b v plan]| | | | | | | | |]; cbn in Hw; try done; destruct r as [r|e]; cbn in Hr; simplify_eq; try done.
  - by destruct (work_of b e); [|destruct b].
  - destruct (work_of b e) eqn:Ew; [done|]. destruct Hv as [Hv|(d1 & a & Hd & Ha1 & Hv)]; [done|]. simplify_eq. cbn in Hv. rewrite holds_chunks_of, Ew in Hv. by destruct Hv.
Qed.

Lemma flow_use q e s s' os d d' : flow s os -> os !! q = Some d -> mark_uses im reset frames q e s s' -> mark_deque q d (Some e) d' ->
  (forall t x, e = Call t (Push x) -> El (holds_chunks q) x) -> flow s' (<[q := d']> os).
Proof.
  intros F Hq Hu Hd HE. pose proof (f_protocol _ _ F) as P. pose proof (use_protocol _ _ _ _ P Hu) as P'.
  destruct (use_moves _ _ _ _ Hu) as (t & l & l' & mqi & m & m' & Hl & El' & Em & Em' & _ & Hcase).
  destruct (use_queue _ _ _ _ Hd) as (t1 & a & a' & Ha & -> & Hcase').
  assert (t1 = t) as -> by naive_solver.
  assert (forall q' a1, at_queue t l q' a1 -> (q' = q -> a1 = a) -> at_queue t l' q' (if decide (q' = q) then a' else a1)) as Hat'.
  { intros q' a1 Hat Ha1. unfold at_queue in *.
    destruct Hcase as [(o & k & -> & _ & Hw & Hw' & Hd')|(r & k & -> & _ & Hw & Hw')]; rewrite Hw in Hat; rewrite Hw'.
    - destruct Hcase' as [(o' & ? & -> & ->)|(? & ? & _)]; simplify_eq. by case_decide; simplify_eq.
    - destruct Hcase' as [(o' & ? & _)|(r' & ? & -> & ->)]; simplify_eq. by case_decide; simplify_eq; repeat case_decide. }
  assert (t < length (locs s))%nat as Hlt by (by eapply lookup_lt_Some).
  split.
  - done.
  - intros q1 d1 t1 a1 Hq1 Ha1. rewrite El'.
    assert (exists d0 a0, os !! q1 = Some d0 /\ apcs d0 !! t1 = Some a0 /\ (t1 <> t -> a1 = a0) /\ (t1 = t -> a1 = if decide (q1 = q) then a' else a0) /\ (q1 = q -> t1 = t -> a0 = a))
      as (d0 & a0 & Hd0 & Ha0 & Hne & Heq & Haa).
    { apply list_lookup_insert_Some in Hq1 as [(-> & <- & _)|(Hn & Hq1)].
      - cbn in Ha1. apply list_lookup_insert_Some in Ha1 as [(-> & <- & _)|(Hn & Ha1)]; eexists _, _; (split_and!; [done|done|..]); try done.
        by rewrite decide_True.
      - eexists _, _. split_and!; [done|done|done| |naive_solver]. by rewrite decide_False. }
    destruct (f_at _ _ F _ _ _ _ Hd0 Ha0) as (l1 & Hl1 & H1). destruct (decide (t1 = t)) as [->|Hnt].
    + exists l'. rewrite list_lookup_insert_eq by done. split; [done|]. rewrite (Heq eq_refl). apply Hat'; [|naive_solver]. by simplify_eq.
    + exists l1. rewrite list_lookup_insert_ne by done. by rewrite (Hne Hnt).
  - intros q1 d1 [(-> & <- & _)|(_ & Hq1)]%list_lookup_insert_Some; [by apply (f_items _ _ F _ _ Hq)|by apply (f_items _ _ F)].
  - intros q1 d1 t1 a1 [(-> & <- & _)|(_ & Hq1)]%list_lookup_insert_Some Ha1; [|by eapply (f_pending _ _ F)]. cbn in Ha1.
    apply list_lookup_insert_Some in Ha1 as [(-> & <- & _)|(_ & Ha1)]; [|by eapply (f_pending _ _ F)].
    destruct Hcase' as [(o & -> & _ & ->)|(r & _ & _ & ->)]; [|done]. destruct o; cbn; try done. by eapply HE.
  - intros q1 d1 [(-> & <- & _)|(_ & Hq1)]%list_lookup_insert_Some; [by apply (f_owner _ _ F _ _ Hq)|by eapply (f_owner _ _ F)].
  - intros li q1 d1 Hli Hb Hq1 Hne.
    assert (exists d0, os !! q1 = Some d0 /\ items d0 <> []) as (d0 & Hd0 & Hne0).
    { apply list_lookup_insert_Some in Hq1 as [(-> & <- & _)|(_ & Hq1)]; eauto. }
    assert (exists li0, locs s !! init = Some li0 /\ before li0 = false) as (li0 & Hli0 & Hb0).
    { rewrite El' in Hli. apply list_lookup_insert_Some in Hli as [(-> & <- & _)|(_ & Hli)]; [|eauto]. exists l. split; [done|by rewrite Em]. }
    destruct (f_work _ _ F _ _ _ Hli0 Hb0 Hd0 Hne0) as (t1 & l1 & Hl1 & Hv). rewrite El'. destruct (decide (t1 = t)) as [->|Hnt].
    + exists t, l'. rewrite list_lookup_insert_eq by done. split; [done|]. simplify_eq.
      destruct Hcase as [(o & k & -> & Hc & _)|(r & k & -> & Hr & Hw & _)].
      * destruct Hcase' as [(o' & ? & -> & ->)|(? & ? & _)]; simplify_eq. by eapply visits_call.
      * destruct Hcase' as [(o' & ? & _)|(r' & ? & -> & ->)]; simplify_eq. by eapply visits_ret.
    + exists t1, l1. rewrite list_lookup_insert_ne by done. split; [done|]. eapply visits_mono; [done|]. intros q2 d2 a2 Hq2 Ha2.
      destruct (decide (q2 = q)) as [->|]; [|exists d2; by rewrite list_lookup_insert_ne by done].
      simplify_eq. eexists. split; [by apply list_lookup_insert_eq; eapply lookup_lt_Some|]. cbn. by rewrite list_lookup_insert_ne by done.
Qed.
End queues.
