(* ===== verification/GcMarkTri.v ===== *)
(** * Marking: every marked object is queued, being scanned, or done

    An object that is marked is grey (in a queue, or held by the thread that
    claimed it) or all that it refers to is covered: marked, left to a chunk, or
    about to be marked by a routine that is running. *)
From stdpp Require Import sets.
From S2P Require Import Prelude Objects WsQueue GcProg GcScan GcLogic GcChildren GcScanMain GcMark GcMarkProtocol.

Section tri.
Context (im : image) (reset : bool) (frames first nmark init : nat).
Context (tyof : Z -> Z) (foreign : Z -> Z -> Prop) (reach Buf : Z -> Prop).
Abbreviation child := (child im frames tyof foreign).
Abbreviation owes := (owes im).
Abbreviation own_step := (own_step im reset frames first nmark init).
Abbreviation work_of := (work_of im reset frames).
Abbreviation marks := (marks tyof owes).
Abbreviation safe := (safe tyof reach Buf (chunk_in im reach)).
Abbreviation hdr_ok := (hdr_ok tyof).

Hypothesis Hcb : callbacks_ok im tyof foreign.
Hypothesis reach_ok : forall o, reach o -> o <> 0 /\ item_obj o = o /\ object_ok im frames tyof o.
Hypothesis reach_child : forall o v, reach o -> child o v -> reach v.
Hypothesis reach_buf : forall o b, reach o -> buffer im tyof o b -> Buf b.
Hypothesis buf_apart : forall b, Buf b -> ~ reach b.

(** ** Elements of the queues *)

Definition El (b : bool) (e : elt) : Prop :=
  if b then exists c, e = chunk_to_words c /\ chunk_in im reach c else exists x, e = [x] /\ x <> 0 /\ reach (item_obj x).

Lemma chunk_words_back c : chunk_ok im c -> chunk_of_words (chunk_to_words c) = c.
Proof.
  intros (Hk & _ & Hs). destruct c as [i p b e eb ee st n]. unfold chunk_of_words, chunk_to_words. cbn in *. f_equal; unfold u32; apply uw_small; unfold in_range; [|lia].
  unfold GC_objary_chunk, GC_ary8_chunk, GC_ary16_chunk, GC_finlist_chunk in Hk. naive_solver lia.
Qed.

Lemma work_chunk c : chunk_ok im c -> work_of true (chunk_to_words c) = Some (prog_bind (fun _ => Ret None) (gc_mark_chunk im reset c)).
Proof.
  intros H. unfold GcMark.work_of. rewrite chunk_words_back by done. destruct H as (Hk & _).
  destruct (Z.eqb_spec (cid c) GC_empty_chunk) as [E|]; [|done]. rewrite E in Hk. unfold GC_empty_chunk, GC_objary_chunk, GC_ary8_chunk, GC_ary16_chunk, GC_finlist_chunk in Hk. naive_solver.
Qed.

Lemma work_item x : x <> 0 -> work_of false [x] = Some (gc_mark_outrefs im reset frames x).
Proof. intros H. unfold GcMark.work_of. cbn. by rewrite (proj2 (Z.eqb_neq x 0)). Qed.

Lemma El_work b e : El b e -> is_Some (work_of b e).
Proof. destruct b; [intros (c & -> & H & _)|intros (x & -> & H & _)]; [rewrite work_chunk by done|rewrite work_item by done]; eauto. Qed.

Lemma work_zero b : work_of b (zero (elt_words b)) = None.
Proof. by destruct b. Qed.

Lemma work_safe b e p : El b e -> work_of b e = Some p -> safe p None (fun r h => h = r).
Proof.
  destruct b; [intros (c & -> & H)|intros (x & -> & Hx & H)].
  - rewrite work_chunk by apply H. intros [= <-]. apply safe_bind. eapply safe_mono; [|by apply chunk_safe]. cbn. by intros _ h ->.
  - rewrite work_item by done. intros [= <-]. apply outrefs_safe with (foreign := foreign); [done|by apply reach_ok|by intros; eapply reach_child|by intros; eapply reach_buf].
Qed.

(** ** Colours *)

Definition pend (a : apc) : list elt := match a with A_push e | A_done (Took e) => [e] | _ => [] end.
Definition has (d : deque) (e : elt) : Prop := e ∈ items d \/ exists t a, apcs d !! t = Some a /\ e ∈ pend a.
Definition prog_of (l : loc) : option (prog (option Z)) := match l with L_mark _ (M_run p) | L_mark _ (M_pushing _ p) => Some p | _ => None end.
Definition marked (s : mark_state) (o : Z) : Prop := gc_marked (header s o) = true.
Definition queued (os : list deque) (o : Z) : Prop :=
  exists q d x, os !! q = Some d /\ holds_chunks q = false /\ has d [x] /\ x <> 0 /\ item_obj x = o.
Definition owed (os : list deque) (v : Z) : Prop :=
  exists q d c, os !! q = Some d /\ holds_chunks q = true /\ has d (chunk_to_words c) /\ chunk_ok im c /\ owes c v.
Definition running (s : mark_state) (v : Z) : Prop := exists t l p, locs s !! t = Some l /\ prog_of l = Some p /\ marks v p (fun _ => False).
Definition grey (held : nat -> option Z) (os : list deque) (o : Z) : Prop := queued os o \/ exists t, held t = Some o.
Definition covered (s : mark_state) (os : list deque) (v : Z) : Prop := marked s v \/ owed os v \/ running s v.
Definition black (s : mark_state) (os : list deque) (o : Z) : Prop := forall v, child o v -> covered s os v.

Definition run_ok (h : option Z) (l : loc) : Prop := match prog_of l with Some p => safe p h (fun r h => h = r) | None => h = None end.

(** What must come to be marked whatever refers to it. *)
Context (due : Z -> Prop).

Record tri (hdr0 : Z -> Z) (held : nat -> option Z) (s : mark_state) (os : list deque) : Prop := {
  t_hdr o : hdr_ok o (header s o);
  t_run t l : locs s !! t = Some l -> run_ok (held t) l;
  t_held t o : held t = Some o -> reach o /\ is_Some (locs s !! t);
  t_black o : reach o -> marked s o -> grey held os o \/ black s os o;
  t_kept o : gc_marked (hdr0 o) = true -> marked s o;
  t_exact o : header s o <> hdr0 o -> reach o \/ Buf o;
  t_due v : due v -> covered s os v;
}.

(** ** Steps inside a queue lose no element *)

Lemma has_set d tk its i a a' e : apcs d !! i = Some a -> has d e ->
  (e ∈ items d -> e ∈ its \/ e ∈ pend a') -> (e ∈ pend a -> e ∈ its \/ e ∈ pend a') -> has {| taken := tk; items := its; apcs := <[i := a']> (apcs d) |} e.
Proof.
  intros Ha [He|(t & b & Hb & He)] H1 H2; unfold has; cbn.
  - destruct (H1 He) as [?|?]; [by left|]. right. exists i, a'. split; [|done]. apply list_lookup_insert_eq. by eapply lookup_lt_Some.
  - destruct (decide (t = i)) as [->|Hne].
    + simplify_eq. destruct (H2 He) as [?|?]; [by left|]. right. exists i, a'. split; [|done]. apply list_lookup_insert_eq. by eapply lookup_lt_Some.
    + right. exists t, b. by rewrite list_lookup_insert_ne by done.
Qed.

Lemma has_internal q d d' e : mark_deque q d None d' -> has d e -> has d' e.
Proof.
  unfold mark_deque. intros Hs H. inversion Hs as [| |i x old Ha|i l x Ha Hi|i Ha Hi|i dest Ha|i dest t Ha Hc|i dest t Ha|i t x l Ha Ht Hi|i t Ha Ht]; subst; clear Hs;
    (eapply has_set; [done|done|..]); cbn; try rewrite Hi; set_solver.
Qed.

Lemma queue_mono (os os' : list deque) q d d' : os !! q = Some d -> os' = <[q := d']> os ->
  (forall q1 d1, os !! q1 = Some d1 -> exists d2, os' !! q1 = Some d2 /\ ((q1 = q /\ d1 = d /\ d2 = d') \/ d2 = d1)).
Proof.
  intros Hq -> q1 d1 Hq1. destruct (decide (q1 = q)) as [->|Hne].
  - exists d'. simplify_eq. split; [apply list_lookup_insert_eq; by eapply lookup_lt_Some|by left].
  - exists d1. rewrite list_lookup_insert_ne by done. split; [done|by right].
Qed.

Lemma queued_mono os q d d' o : os !! q = Some d -> (forall x, has d [x] -> x <> 0 -> holds_chunks q = false -> item_obj x = o -> has d' [x]) ->
  queued os o -> queued (<[q := d']> os) o.
Proof.
  intros Hq H (q1 & d1 & x & Hq1 & Hk & Hh & Hx & Ho). destruct (queue_mono _ _ _ _ d' Hq eq_refl _ _ Hq1) as (d2 & Hd2 & [(-> & -> & ->)| ->]);
    eexists _, _, x; naive_solver.
Qed.

Lemma owed_mono os q d d' v : os !! q = Some d -> (forall c, has d (chunk_to_words c) -> holds_chunks q = true -> chunk_ok im c -> owes c v -> has d' (chunk_to_words c)) ->
  owed os v -> owed (<[q := d']> os) v.
Proof.
  intros Hq H (q1 & d1 & c & Hq1 & Hk & Hh & Hc & Ho). destruct (queue_mono _ _ _ _ d' Hq eq_refl _ _ Hq1) as (d2 & Hd2 & [(-> & -> & ->)| ->]);
    eexists _, _, c; naive_solver.
Qed.

Lemma tri_internal hdr0 held s os q d d' : tri hdr0 held s os -> os !! q = Some d -> mark_deque q d None d' -> tri hdr0 held s (<[q := d']> os).
Proof.
  intros T Hq Hs. assert (forall v, covered s os v -> covered s (<[q := d']> os) v) as Hcov.
  { intros v [?|[Ho|?]]; [by left| |by right; right]. right. left. eapply owed_mono; [done| |done]. intros c Hh _ _ _. by eapply has_internal. }
  split; try apply T; [|intros v Hv; by apply Hcov, (t_due _ _ _ _ T)].
  intros o Hr Hm. destruct (t_black _ _ _ _ T o Hr Hm) as [[Hg|Hg]|Hb]; [|by left; right|right; intros v Hv; auto].
  left. left. eapply queued_mono; [done| |done]. intros x Hh _ _ _. by eapply has_internal.
Qed.
(** ** A thread's own steps *)

Definition hold (held : nat -> option Z) (t : nat) (h : option Z) : nat -> option Z := fun t' => if decide (t' = t) then h else held t'.
Lemma hold_eq held t h : hold held t h t = h.
Proof. unfold hold. by rewrite decide_True. Qed.
Lemma hold_ne held t h t' : t' <> t -> hold held t h t' = held t'.
Proof. intros. unfold hold. by rewrite decide_False. Qed.

Lemma locs_some s s' t l' t' : locs s' = <[t := l']> (locs s) -> is_Some (locs s !! t') <-> is_Some (locs s' !! t').
Proof. intros ->. by rewrite !lookup_lt_is_Some, length_insert. Qed.

Lemma running_move s s' t l l' v : locs s !! t = Some l -> locs s' = <[t := l']> (locs s) -> running s v ->
  running s' v \/ exists p, prog_of l = Some p /\ marks v p (fun _ => False).
Proof.
  intros Hl E (t1 & l1 & p & Hl1 & Hp & Hm). destruct (decide (t1 = t)) as [->|Hne]; [simplify_eq; right; eauto|].
  left. exists t1, l1, p. by rewrite E, list_lookup_insert_ne.
Qed.

Lemma running_here s t l p v : locs s !! t = Some l -> prog_of l = Some p -> marks v p (fun _ => False) -> running s v.
Proof. intros. by exists t, l, p. Qed.

(** The thread-local part of the invariant after a move of thread [t]. *)
Lemma tri_move hdr0 held s s' os os' t l l' h : tri hdr0 held s os -> locs s !! t = Some l -> locs s' = <[t := l']> (locs s) ->
  run_ok h l' -> (forall o, h = Some o -> reach o) ->
  (forall o, hdr_ok o (header s' o)) -> (forall o, marked s o -> marked s' o) -> (forall o, header s' o <> header s o -> reach o \/ Buf o) ->
  (forall v, covered s os v -> covered s' os' v) -> (forall o, reach o -> marked s' o -> grey (hold held t h) os' o \/ black s' os' o) ->
  tri hdr0 (hold held t h) s' os'.
Proof.
  intros T Hl E Hr Hh Ho Hm He Hcov Hb. split; [done| | |done|intros; by apply Hm, (t_kept _ _ _ _ T)| |intros v Hv; by apply Hcov, (t_due _ _ _ _ T)].
  - intros t1 l1 Hl1. rewrite E in Hl1. apply list_lookup_insert_Some in Hl1 as [(-> & <- & _)|(Hne & Hl1)]; [by rewrite hold_eq|].
    rewrite hold_ne by done. by apply (t_run _ _ _ _ T).
  - intros t1 o H. rewrite <- (locs_some s s' t l') by done. destruct (decide (t1 = t)) as [->|Hne].
    + rewrite hold_eq in H. split; [by apply Hh|]. by eexists.
    + rewrite hold_ne in H by done. by apply (t_held _ _ _ _ T).
  - intros o Hne. destruct (decide (header s' o = header s o)) as [Eq|]; [|by apply He]. apply (t_exact _ _ _ _ T). by rewrite <- Eq.
Qed.

(** What [t] does not run stays as it is. *)
Lemma run_ok_none h l : prog_of l = None -> run_ok h l -> h = None.
Proof. unfold run_ok. by intros ->. Qed.

Lemma hold_same held t h o : held t = h -> (exists t', held t' = Some o) -> exists t', hold held t h t' = Some o.
Proof. intros E (t' & H). exists t'. destruct (decide (t' = t)) as [->|]; [rewrite hold_eq; congruence|by rewrite hold_ne]. Qed.

(** Moves outside the marking routines. *)
Lemma tri_idle hdr0 held s s' os t l l' : tri hdr0 held s os -> locs s !! t = Some l -> locs s' = <[t := l']> (locs s) ->
  prog_of l = None -> prog_of l' = None -> header s' = header s -> exists held', tri hdr0 held' s' os.
Proof.
  intros T Hl E Hp Hp' Hh. pose proof (run_ok_none _ _ Hp (t_run _ _ _ _ T _ _ Hl)) as Hn. exists (hold held t None).
  assert (forall v, covered s os v -> covered s' os v) as Hcov.
  { intros v [?|[?|Hrun]]; [left; unfold marked; by rewrite Hh|by right; left|].
    destruct (running_move _ _ _ _ _ _ Hl E Hrun) as [?|(p & ? & _)]; [by right; right|congruence]. }
  eapply tri_move; [done..| | | | | |done|]; unfold marked; rewrite ?Hh; try done.
  - unfold run_ok. by rewrite Hp'.
  - apply T.
  - intros o Hr Hm. destruct (t_black _ _ _ _ T o Hr Hm) as [[?|Hg]|Hb]; [by left; left|left; right; by eapply hold_same|].
    right. intros v Hv. auto.
Qed.
(** ** A marking routine's steps *)

Definition answered (s s' : mark_state) (a : access) : Prop :=
  match a with
  | A_load o h => h = header s o /\ header s' = header s
  | A_exchange o h v | A_buf o h v => h = header s o /\ header s' = fun x => if x =? o then v else header s x
  | A_note _ => header s' = header s
  | _ => False
  end.

Lemma run_step_cases t mqi p s s' : run_step im reset frames t mqi p s = Some s' -> exists m, locs s' = <[t := L_mark mqi m]> (locs s) /\
  ((exists a p', m = M_run p' /\ prog_step p a p' /\ answered s s' a) \/
   (header s' = header s /\ ((p = GcProg.Ret None /\ m = M_pop false) \/ exists o, p = GcProg.Ret (Some o) /\ m = M_run (mark_obj im reset frames false o)))).
Proof.
  destruct p as [[o|]| |o k|o v k|o v k|v k|c k|e k]; cbn; intros E; simplify_eq; (eexists; split; [done|]).
  - right. split; [done|]. right. eauto.
  - right. split; [done|]. by left.
  - left. eexists (A_load o _), _. split; [done|]. split; [constructor|done].
  - left. eexists (A_exchange o _ v), _. split; [done|]. split; [constructor|done].
  - left. eexists (A_buf o _ v), _. split; [done|]. split; [constructor|done].
  - left. eexists (A_note e), _. split; [done|]. split; [constructor|done].
Qed.

(** A header changes only to a marked one of the same type. *)
Lemma answered_headers hdr0 held s s' os a h : tri hdr0 held s os -> answered s s' a -> access_ok tyof reach Buf (chunk_in im reach) h a ->
  answer_ok tyof a /\ (forall o, hdr_ok o (header s' o)) /\ (forall o, marked s o -> marked s' o) /\
  (forall o, header s' o <> header s o -> reach o \/ Buf o) /\
  (forall o, reach o -> marked s' o -> marked s o \/ held_after h a = Some o) /\
  (forall v, settles owes a v -> marked s' v).
Proof.
  intros T Ha Hok. pose proof (t_hdr _ _ _ _ T) as Hh. unfold marked. destruct a as [o x|o x w|o x w|v|c|e]; cbn in *; try done.
  - destruct Ha as (-> & ->). split_and!; auto; try done. by intros v (<- & ?).
  - destruct Ha as (-> & ->). destruct Hok as (Hr & Hw & Hm & ->). split_and!; auto; cbn.
    + intros o'. destruct (Z.eqb_spec o' o); [by subst|done].
    + intros o'. by destruct (Z.eqb_spec o' o).
    + intros o'. destruct (Z.eqb_spec o' o); [subst; by left|done].
    + intros o' _. destruct (Z.eqb_spec o' o); [|by left]. subst. destruct (gc_marked (header s o)); [by left|by right].
    + intros v (<- & ?). by rewrite Z.eqb_refl.
  - destruct Ha as (-> & ->). destruct Hok as (Hr & Hw & Hm). split_and!; auto; cbn.
    + intros o'. destruct (Z.eqb_spec o' o); [by subst|done].
    + intros o'. by destruct (Z.eqb_spec o' o).
    + intros o'. destruct (Z.eqb_spec o' o); [subst; by right|done].
    + intros o' Hro. destruct (Z.eqb_spec o' o); [|by left]. subst. by destruct (buf_apart _ Hr).
  - rewrite Ha. split_and!; auto; done.
Qed.

Lemma tri_run hdr0 held t mqi p s s' os : tri hdr0 held s os -> locs s !! t = Some (L_mark mqi (M_run p)) -> run_step im reset frames t mqi p s = Some s' ->
  exists held', tri hdr0 held' s' os.
Proof.
  intros T Hl E. destruct (run_step_cases _ _ _ _ _ E) as (m & El' & Hcase). pose proof (t_run _ _ _ _ T _ _ Hl) as Hs. unfold run_ok in Hs. cbn in Hs.
  destruct Hcase as [(a & p' & -> & Hp & Ha)|(Hh & [(-> & ->)|(o & -> & ->)])].
  - assert (answer_ok tyof a) as Hans.
    { destruct a; cbn in *; try done; destruct Ha as (-> & _); apply T. }
    destruct (safe_step _ _ _ _ _ _ _ _ _ Hs Hp Hans) as [Hok Hs']. destruct (answered_headers _ _ _ _ _ _ _ T Ha Hok) as (_ & H1 & H2 & H3 & H4 & H5).
    assert (forall v, covered s os v -> covered s' os v) as Hcov.
    { intros v [?|[?|Hrun]]; [left; auto|by right; left|]. destruct (running_move _ _ _ _ _ _ Hl El' Hrun) as [?|(p1 & [= <-] & Hm)]; [by right; right|].
      destruct (marks_step _ _ _ _ _ _ _ Hm Hp Hans) as [Hset|Hm']; [left; by apply H5|]. right. right.
      eapply running_here; [rewrite El'; apply list_lookup_insert_eq; by eapply lookup_lt_Some|done|done]. }
    exists (hold held t (held_after (held t) a)). eapply tri_move; [done..| |done|done|done|done|].
    + intros o Ho. destruct a as [ |o1 x w| |v| | ]; cbn in *; try done; try (by eapply (proj1 (t_held _ _ _ _ T _ _ Ho))).
      destruct Hok as (Hr & _ & _ & Hn). rewrite Hn in Ho. by destruct (gc_marked x); simplify_eq.
    + intros o Hr Hm. destruct (H4 o Hr Hm) as [Hm0|Hheld]; [|left; right; exists t; by rewrite hold_eq].
      destruct (t_black _ _ _ _ T o Hr Hm0) as [[?|(t1 & Hg)]|Hb]; [by left; left| |right; intros v Hv; auto].
      left. right. destruct (decide (t1 = t)) as [->|Hne]; [|exists t1; by rewrite hold_ne]. exists t. rewrite hold_eq.
      destruct a as [ |o1 x w| |v| | ]; cbn in *; try done. destruct Hok as (_ & _ & _ & ?). congruence.
  - assert (forall v, covered s os v -> covered s' os v) as Hcov.
    { intros v [?|[?|Hrun]]; [left; unfold marked; by rewrite Hh|by right; left|].
      destruct (running_move _ _ _ _ _ _ Hl El' Hrun) as [?|(p1 & [= <-] & [])]. by right; right. }
    cbn in Hs. exists (hold held t None). eapply tri_move; [done..| | | | | |done|]; unfold marked; rewrite ?Hh; try done; [apply T|].
    intros o Hr Hm. destruct (t_black _ _ _ _ T o Hr Hm) as [[?|Hg]|Hb]; [by left; left|left; right; by eapply hold_same|].
    right. intros v Hv. auto.
  - cbn in Hs. destruct (t_held _ _ _ _ T _ _ Hs) as [Hro _]. destruct (reach_ok o Hro) as (Hne & Hio & Hok).
    assert (forall v, covered s os v -> covered s' os v) as Hcov.
    { intros v [?|[?|Hrun]]; [left; unfold marked; by rewrite Hh|by right; left|].
      destruct (running_move _ _ _ _ _ _ Hl El' Hrun) as [?|(p1 & [= <-] & [])]. by right; right. }
    exists (hold held t None). eapply tri_move; [done..| | | | | |done|]; unfold marked; rewrite ?Hh; try done; [|apply T|].
    { unfold run_ok, prog_of. apply outrefs_safe with (foreign := foreign); [done|done|by intros; eapply reach_child|by intros; eapply reach_buf]. }
    intros o1 Hr Hm. destruct (t_black _ _ _ _ T o1 Hr Hm) as [[?|(t1 & Hg)]|Hb]; [by left; left| |right; intros v Hv; auto].
    destruct (decide (t1 = t)) as [->|Hnt]; [|left; right; exists t1; by rewrite hold_ne]. right. simplify_eq. intros v Hv. right. right.
    eapply running_here; [rewrite El'; apply list_lookup_insert_eq; by eapply lookup_lt_Some|done|]. by eapply outrefs_marks.
Qed.
Lemma own_step_quiet c t s s' : own_step c t s = Some s' -> exists l l', locs s !! t = Some l /\ locs s' = <[t := l']> (locs s) /\
  ((exists mqi p, l = L_mark mqi (M_run p) /\ run_step im reset frames t mqi p s = Some s') \/
   (prog_of l = None /\ prog_of l' = None /\ header s' = header s)).
Proof.
  unfold GcMark.own_step. intros E. destruct (locs s !! t) as [l|] eqn:Hl; [|done]. cbn [mbind option_bind] in E. exists l.
  destruct l as [| | |mqi [| | |p| | |[|]|]| | | |n|n| |b| |]; try done.
  4: { destruct (run_step_cases _ _ _ _ _ E) as (m & El & _). exists (L_mark mqi m). split_and!; [done|done|]. left. eauto. }
  all: repeat case_match; simplify_eq; eexists; (split_and!; [done|done|]); right; done.
Qed.

Lemma tri_own hdr0 held c t s s' os : tri hdr0 held s os -> own_step c t s = Some s' -> exists held', tri hdr0 held' s' os.
Proof.
  intros T E. destruct (own_step_quiet _ _ _ _ E) as (l & l' & Hl & El & [(mqi & p & -> & Hr)|(Hp & Hp' & Hh)]); [by eapply tri_run|by eapply tri_idle].
Qed.

(** ** Calls and returns *)

Lemma has_call d t o e : apcs d !! t = Some A_idle -> has d e -> has (a_set d (taken d) (items d) t (a_start o)) e.
Proof. intros Ha H. eapply has_set; [done..|by left|]. intros He. by apply not_elem_of_nil in He. Qed.

Lemma has_push d t x : apcs d !! t = Some A_idle -> has (a_set d (taken d) (items d) t (a_start (Push x))) x.
Proof. intros Ha. right. exists t, (A_push x). split; [apply list_lookup_insert_eq; by eapply lookup_lt_Some|by left]. Qed.

Lemma has_ret d t r e : apcs d !! t = Some (A_done r) -> has d e -> has (a_set d (taken d) (items d) t A_idle) e \/ r = Took e.
Proof.
  intros Ha H. destruct r as [old|e'].
  - left. eapply has_set; [done..|by left|]. by intros ?%not_elem_of_nil.
  - destruct (decide (e' = e)) as [->|Hne]; [by right|]. left. eapply has_set; [done..|by left|]. by intros ?%list_elem_of_singleton.
Qed.

Lemma tri_call hdr0 held s os t l q o l' d : tri hdr0 held s os -> locs s !! t = Some l -> call_of t l = Some (q, o, l') ->
  os !! q = Some d -> apcs d !! t = Some A_idle -> exists held', tri hdr0 held' (set_loc s t l') (<[q := a_set d (taken d) (items d) t (a_start o)]> os).
Proof.
  intros T Hl Hc Hq Ha. set (os' := <[q := a_set d (taken d) (items d) t (a_start o)]> os).
  assert (forall v, queued os v -> queued os' v) as Hqm by (intros v; eapply queued_mono; [done|]; intros; by apply has_call).
  assert (forall v, owed os v -> owed os' v) as Hom by (intros v; eapply owed_mono; [done|]; intros; by apply has_call).
  pose proof (t_run _ _ _ _ T _ _ Hl) as Hs.
  assert (forall h, run_ok h l' -> (forall x, h = Some x -> reach x) -> (forall v p, prog_of l = Some p -> marks v p (fun _ => False) -> owed os' v \/ running (set_loc s t l') v) ->
    (forall x, held t = Some x -> h = Some x \/ queued os' x) -> exists held', tri hdr0 held' (set_loc s t l') os') as Hdone.
  { intros h Hr Hh Hrun Hg. assert (forall v, covered s os v -> covered (set_loc s t l') os' v) as Hcov.
    { intros v [?|[?|Hv']]; [by left|by right; left; auto|]. right.
      destruct (running_move _ (set_loc s t l') _ _ _ _ Hl eq_refl Hv') as [?|(p & Hp & Hm')]; [by right|by eapply Hrun]. }
    exists (hold held t h). eapply tri_move; [done..| | | | | |done|]; try done; [apply T|].
    intros x Hx Hm. destruct (t_black _ _ _ _ T x Hx Hm) as [[?|(t1 & Ht1)]|Hb]; [left; left; auto| |].
    - left. destruct (decide (t1 = t)) as [->|Hne]; [|right; exists t1; by rewrite hold_ne]. destruct (Hg _ Ht1) as [->|?]; [right; exists t; by rewrite hold_eq|by left].
    - right. intros v Hv. auto. }
  destruct l as [| | |mqi [|b|b|p|b p| |[|[b v] plan]|b v plan]| | | | | | | | |]; cbn in Hc; try done.
  - simplify_eq. eapply (Hdone None); [done..| |]; [done|]. unfold run_ok in Hs. cbn in Hs. congruence.
  - destruct p as [r| |o1 k|o1 v k|o1 v k|v k|c k|e k]; simplify_eq; unfold run_ok in Hs; cbn in Hs.
    + destruct Hs as [Hh Hs]. destruct (t_held _ _ _ _ T _ _ Hh) as [Hr _]. destruct (reach_ok v Hr) as (Hv & Hi & _).
      eapply (Hdone None); [done|done| |].
      * intros x p [= <-] Hm. right. eapply running_here; [apply list_lookup_insert_eq; by eapply lookup_lt_Some|done|exact Hm].
      * intros x Hx. right. simplify_eq. eexists _, _, _. split; [by apply list_lookup_insert_eq; eapply lookup_lt_Some|]. rewrite holds_chunks_of.
        split_and!; try done. by apply has_push.
    + destruct Hs as ((Hc & Hin) & Hh & Hs). eapply (Hdone (held t)); [done| | |by left].
      * rewrite Hh. done.
      * intros x p [= <-] [Ho|Hm].
        -- left. eexists _, _, c. split; [by apply list_lookup_insert_eq; eapply lookup_lt_Some|]. rewrite holds_chunks_of. split_and!; try done. by apply has_push.
        -- right. eapply running_here; [apply list_lookup_insert_eq; by eapply lookup_lt_Some|done|exact Hm].
  - simplify_eq. eapply (Hdone None); [done..| |]; [done|]. unfold run_ok in Hs. cbn in Hs. congruence.
Qed.

Lemma tri_pushes hdr0 held s os t l q x l' : tri hdr0 held s os -> locs s !! t = Some l -> call_of t l = Some (q, Push x, l') -> El (holds_chunks q) x.
Proof.
  intros T Hl Hc. pose proof (t_run _ _ _ _ T _ _ Hl) as Hs. unfold run_ok in Hs.
  destruct l as [| | |mqi [|b|b|p|b p| |[|[b v] plan]|b v plan]| | | | | | | | |]; cbn in Hc; try done.
  destruct p as [r| |o1 k|o1 v k|o1 v k|v k|c k|e k]; simplify_eq; cbn in Hs; rewrite holds_chunks_of.
  - destruct (t_held _ _ _ _ T _ _ (proj1 Hs)) as [Hr _]. destruct (reach_ok v Hr) as (Hv & Hi & _). exists v. by rewrite Hi.
  - exists c. by destruct Hs as (? & _).
Qed.

(** What a thread starts on covers what it took. *)
Lemma work_covers (b : bool) e p o : work_of b e = Some p ->
  (b = false -> forall x, e = [x] -> x <> 0 -> item_obj x = o -> reach o -> forall v, child o v -> marks v p (fun _ => False)) /\
  (b = true -> forall c v, e = chunk_to_words c -> chunk_ok im c -> owes c v -> marks v p (fun _ => False)).
Proof.
  intros E. split.
  - intros -> x -> Hx <- Hr v Hv. rewrite work_item in E by done. injection E as <-. destruct (reach_ok _ Hr) as (_ & _ & Hok). by eapply outrefs_marks.
  - intros -> c v -> Hc Ho. rewrite work_chunk in E by done. injection E as <-. apply marks_bind. by apply chunk_marks.
Qed.

Lemma queued_ret os q d t r o : os !! q = Some d -> apcs d !! t = Some (A_done r) -> queued os o ->
  queued (<[q := a_set d (taken d) (items d) t A_idle]> os) o \/ exists x, r = Took [x] /\ holds_chunks q = false /\ x <> 0 /\ item_obj x = o.
Proof.
  intros Hq Ha (q1 & d1 & x & Hq1 & Hk & Hh & Hx & Ho). destruct (queue_mono _ _ _ _ (a_set d (taken d) (items d) t A_idle) Hq eq_refl _ _ Hq1) as (d2 & Hd2 & [(-> & -> & ->)| ->]).
  - destruct (has_ret _ _ _ _ Ha Hh) as [?| ->]; [left; eexists _, _, x; naive_solver|right; eauto 10].
  - left. eexists _, _, x; naive_solver.
Qed.

Lemma owed_ret os q d t r v : os !! q = Some d -> apcs d !! t = Some (A_done r) -> owed os v ->
  owed (<[q := a_set d (taken d) (items d) t A_idle]> os) v \/ exists c, r = Took (chunk_to_words c) /\ holds_chunks q = true /\ chunk_ok im c /\ owes c v.
Proof.
  intros Hq Ha (q1 & d1 & c & Hq1 & Hk & Hh & Hc & Ho). destruct (queue_mono _ _ _ _ (a_set d (taken d) (items d) t A_idle) Hq eq_refl _ _ Hq1) as (d2 & Hd2 & [(-> & -> & ->)| ->]).
  - destruct (has_ret _ _ _ _ Ha Hh) as [?| ->]; [left; eexists _, _, c; naive_solver|right; eauto 10].
  - left. eexists _, _, c; naive_solver.
Qed.

Lemma keep_old_header s t q r : header (keep_old s t q r) = header s.
Proof. by destruct r as [[a|]|e]. Qed.

(** A thread comes back from a queue with [r] and goes on at [l']. *)
Lemma tri_back hdr0 held s os t l q r l' d : tri hdr0 held s os -> locs s !! t = Some l ->
  os !! q = Some d -> apcs d !! t = Some (A_done r) -> run_ok (held t) l' ->
  (forall p, prog_of l = Some p -> prog_of l' = Some p) ->
  (forall e, r = Took e -> El (holds_chunks q) e -> exists p, work_of (holds_chunks q) e = Some p /\ prog_of l' = Some p) ->
  (forall e, r = Took e -> El (holds_chunks q) e \/ e = zero (elt_words (holds_chunks q))) ->
  exists held', tri hdr0 held' (set_loc (keep_old s t q r) t l') (<[q := a_set d (taken d) (items d) t A_idle]> os).
Proof.
  intros T Hl Hq Ha Hr Hp Hw He. exists (hold held t (held t)). set (s' := set_loc (keep_old s t q r) t l').
  assert (locs s' = <[t := l']> (locs s)) as El' by (cbn; by rewrite keep_old_locs).
  assert (header s' = header s) as Eh by (cbn; by rewrite keep_old_header).
  assert (t < length (locs s))%nat as Hlt by (by eapply lookup_lt_Some).
  assert (forall p v, prog_of l' = Some p -> marks v p (fun _ => False) -> running s' v) as Hhere.
  { intros p v Hpl Hm. eapply running_here; [rewrite El'; by apply list_lookup_insert_eq|done|done]. }
  assert (forall v, covered s os v -> covered s' (<[q := a_set d (taken d) (items d) t A_idle]> os) v) as Hcov.
  { intros v [?|[Ho|Hrun]]; [left; unfold marked; by rewrite Eh| |].
    - destruct (owed_ret _ _ _ _ _ _ Hq Ha Ho) as [?|(c & -> & Hk & Hc & Hoc)]; [by right; left|]. right. right.
      destruct (He _ eq_refl) as [He'|He'].
      + destruct (Hw _ eq_refl He') as (p & Hwp & Hpl). rewrite Hk in Hwp. eapply Hhere; [done|]. destruct (work_covers _ _ _ 0 Hwp) as [_ H2]. by eapply H2.
      + pose proof (work_chunk c Hc) as E. rewrite He', Hk, work_zero in E. done.
    - right. right. destruct (running_move _ s' _ _ l' _ Hl El' Hrun) as [?|(p & Hpl & Hm')]; [done|]. by eapply Hhere; [apply Hp|]. }
  eapply tri_move; [done|done|exact El'|done|intros; by eapply (t_held _ _ _ _ T)|..]; unfold marked; rewrite ?Eh; try done; [apply T|].
  intros o Hro Hm. destruct (t_black _ _ _ _ T o Hro Hm) as [[Hg|(t1 & Ht1)]|Hb].
  - destruct (queued_ret _ _ _ _ _ _ Hq Ha Hg) as [?|(x & -> & Hk & Hx & Hi)]; [by left; left|]. right. intros v Hv. right. right.
    destruct (Hw _ eq_refl) as (p & Hwp & Hpl); [rewrite Hk; exists x; by rewrite Hi|]. rewrite Hk in Hwp. eapply Hhere; [done|].
    destruct (work_covers _ _ _ o Hwp) as [H1 _]. by eapply H1.
  - left. right. exists t1. destruct (decide (t1 = t)) as [->|]; [by rewrite hold_eq|by rewrite hold_ne].
  - right. intros v Hv. auto.
Qed.

Lemma tri_ret hdr0 held s os t l q k r l' d : tri hdr0 held s os -> locs s !! t = Some l -> waits t l = Some (q, k) -> ret_of im reset frames l r = Some l' ->
  os !! q = Some d -> apcs d !! t = Some (A_done r) -> pending_ok El (holds_chunks q) (A_done r) ->
  exists held', tri hdr0 held' (set_loc (keep_old s t q r) t l') (<[q := a_set d (taken d) (items d) t A_idle]> os).
Proof.
  intros T Hl Hw Hr Hq Ha Hp. pose proof (t_run _ _ _ _ T _ _ Hl) as Hs. unfold run_ok in Hs.
  assert (forall b e m, prog_of l = None -> holds_chunks q = b -> r = Took e -> l' = L_mark (match l with L_mark mqi _ => mqi | _ => 0%nat end) (match work_of b e with Some p => M_run p | None => m end) ->
    prog_of (L_mark 0 m) = None -> exists held', tri hdr0 held' (set_loc (keep_old s t q r) t l') (<[q := a_set d (taken d) (items d) t A_idle]> os)) as Htook.
  { intros b e m Hn Hb -> -> Hm. rewrite Hn in Hs. rewrite Hb in *. eapply tri_back; [done..| | | |].
    - rewrite Hs. unfold run_ok. destruct (work_of b e) eqn:Ew; cbn; [|by destruct m]. destruct Hp as [Hp| ->]; [by eapply work_safe|by rewrite work_zero in Ew].
    - by rewrite Hn.
    - intros e' [= <-]. rewrite Hb. intros He. destruct (El_work _ _ He) as [p Ew]. exists p. by rewrite Ew.
    - intros e' [= <-]. by rewrite Hb. }
  destruct l as [| | |mqi [|b|b|p|b p| |plan|b v plan]| | | | | | | | |]; cbn in Hw; try done; destruct r as [r|e]; cbn in Hr; try done; simplify_eq.
  - by eapply Htook; [|apply holds_chunks_of|..]; [..|destruct b].
  - cbn in Hs. eapply tri_back; [done|done|done|done|done|done|done|done].
  - by eapply Htook; [|apply holds_chunks_of|..].
Qed.
End tri.
