(* ===== verification/GcMarkRun.v ===== *)
(** * Marking: runs by a schedule *)
From stdpp Require Import relations.
From stdpp Require Import gmap.
From S2P Require Import Prelude Objects WsQueue WsQueueMain GcProg GcScan GcScanMain GcMark.

Section run.
Context (im : image) (reset : bool) (frames first nmark init : nat).
Abbreviation marker := (marker im reset frames first nmark init).
Abbreviation state := (world (S := ws_state) marker).
Definition mk (s : mark_state) (os : list ws_state) : state := {| threads := (s : cstate marker); objs := os |}.

(** A turn of a thread at queue [q]. *)
Definition queue_turn (w : state) (q : nat) (x : turn) : option (option (event ws_op ws_res) * list ws_state) :=
  c ← objs w !! q;
  '(e, c') ← turn_step (elt_words (holds_chunks q)) (queue_owner q) c x;
  Some (e, <[q := c']> (objs w)).

(** The next step of thread [t]. *)
Definition thread_turn (ch : choice) (t : nat) (w : state) : option state :=
  let s : mark_state := threads w in
  l ← locs s !! t;
  match waits t l with
  | Some (q, k) =>
      c ← objs w !! q;
      p ← pcs c !! t;
      match p with
      | Done r => l' ← ret_of im reset frames l r; '(_, os) ← queue_turn w q (T_ret t); Some (mk (set_loc (keep_old s t q r) t l') os)
      | _ => '(e, os) ← queue_turn w q (T_run t []); match e with None => Some (mk s os) | Some _ => None end
      end
  | None =>
      match call_of t l with
      | Some (q, o, l') => '(_, os) ← queue_turn w q (T_call t o); Some (mk (set_loc s t l') os)
      | None => s' ← own_step im reset frames first nmark init ch t s; Some (mk s' (objs w))
      end
  end.

(** The threads take turns as listed; one that is blocked misses its turn. *)
Fixpoint drive (l : list (choice * nat)) (w : state) : state :=
  match l with
  | [] => w
  | (ch, t) :: l => drive l (default w (thread_turn ch t w))
  end.

Lemma queue_turn_trans w q x e os : queue_turn w q x = Some (e, os) -> exists c c', objs w !! q = Some c /\ os = <[q := c']> (objs w) /\ mark_queue q c e c'.
Proof.
  unfold queue_turn. destruct (objs w !! q) as [c|] eqn:Hq; [|done]. cbn [mbind option_bind].
  destruct (turn_step _ _ c x) as [[e' c']|] eqn:E; [|done]. cbn. intros. simplify_eq. exists c, c'. split_and!; [done..|]. by eapply turn_trans.
Qed.

Lemma turn_event eltsz owner s x e s' : turn_step eltsz owner s x = Some (e, s') ->
  match x with
  | T_call i o => e = Some (Call i o)
  | T_ret i => exists r, e = Some (Objects.Ret i r) /\ pcs s !! i = Some (Done r)
  | T_run _ _ => e = None
  end.
Proof.
  destruct x as [i o|i|i junk]; cbn; destruct (pcs s !! i) as [c|] eqn:Hi; cbn [mbind option_bind]; try done.
  - destruct c; try done. case_decide; [|done]. by intros [= <- <-].
  - destruct c; try done. intros [= <- <-]. eauto.
  - destruct (forallb _ _); [|done]. destruct (ws_step _ _ _ _) as [[q c']|]; [|done]. by intros [= <- <-].
Qed.

Lemma thread_turn_step ch t w w' : thread_turn ch t w = Some w' -> wstep mark_queue marker w w'.
Proof.
  destruct w as [s os]. unfold thread_turn. cbn [threads objs]. destruct (locs s !! t) as [l|] eqn:Hl; [|done]. cbn [mbind option_bind].
  destruct (waits t l) as [[q k]|] eqn:Hw.
  - destruct (os !! q) as [c|] eqn:Hq; [|done]. cbn [mbind option_bind]. destruct (pcs c !! t) as [p|] eqn:Hp; [|done]. cbn [mbind option_bind].
    assert (('(e, os') ← queue_turn {| threads := s; objs := os |} q (T_run t []); match e with None => Some (mk s os') | Some _ => None end) = Some w' ->
      wstep mark_queue marker {| threads := s; objs := os |} w') as Hint.
    { destruct (queue_turn _ q (T_run t [])) as [[e os']|] eqn:E; [|done]. cbn [mbind option_bind].
      destruct (queue_turn_trans _ _ _ _ _ E) as (c1 & c' & Hc & -> & Ht). destruct e; [done|]. intros [= <-]. by eapply internal_step. }
    destruct p as [| | | | | | | | | | | | | | | | | | |r]; try exact Hint.
    destruct (ret_of im reset frames l r) as [l'|] eqn:Hr; [|done]. cbn [mbind option_bind].
    destruct (queue_turn _ q (T_ret t)) as [[e os']|] eqn:E; [|done]. cbn [mbind option_bind]. intros [= <-].
    pose proof E as E'. unfold queue_turn in E'. cbn [objs] in E'. rewrite Hq in E'. cbn [mbind option_bind] in E'.
    destruct (turn_step _ _ c (T_ret t)) as [[e1 c1]|] eqn:Et; [|done]. cbn in E'. simplify_eq. destruct (turn_event _ _ _ _ _ _ Et) as (r' & -> & Hp').
    simplify_eq. eapply use_step; [exact Hq| |by eapply turn_trans]. by eapply mark_ret.
  - destruct (call_of t l) as [[[q o] l']|] eqn:Hc.
    + destruct (queue_turn _ q (T_call t o)) as [[e os']|] eqn:E; [|done]. cbn [mbind option_bind]. intros [= <-].
      destruct (queue_turn_trans _ _ _ _ _ E) as (c & c' & Hq & -> & Ht). cbn [objs] in Hq.
      unfold queue_turn in E. cbn [objs] in E. rewrite Hq in E. cbn [mbind option_bind] in E.
      destruct (turn_step _ _ c (T_call t o)) as [[e1 c1]|] eqn:Et; [|done]. cbn in E. pose proof (turn_event _ _ _ _ _ _ Et) as He. cbn in He. simplify_eq.
      eapply use_step; [exact Hq| |exact Ht]. by eapply mark_call.
    + destruct (own_step _ _ _ _ _ _ ch t s) as [s'|] eqn:E; [|done]. cbn. intros [= <-]. apply Objects.own_step. by exists ch, t.
Qed.

Lemma drive_run l w : rtc (wstep mark_queue marker) w (drive l w).
Proof.
  revert w. induction l as [|[ch t] l IH]; intros w; [apply rtc_refl|]. cbn [drive]. destruct (thread_turn ch t w) as [w'|] eqn:E; [|by apply IH].
  eapply rtc_l; [by eapply thread_turn_step|]. apply IH.
Qed.
End run.

(** ** A small collection

    Thread 0 starts it, thread 1 is the one collector; the vector at 256
    (GcScanMain.v) is in the collector's queue of pointers. *)
Definition demo_queue (chunks : bool) (l : list elt) : ws_state :=
  {| queue := {| top := 0; bottom := Z.of_nat (length l); array := 0;
                 arrays := [{| buffer := l ++ replicate (4 - length l) (zero (elt_words chunks)); capacity := 4; mask := 3 |}] |};
     pcs := [Idle; Idle] |}.
Definition demo_queues : list ws_state := [demo_queue false []; demo_queue true []; demo_queue false [[256]]; demo_queue true []].
Definition demo_state : mark_state :=
  {| header o := default 0 (demo_headers !! o); gc_n_threads_marking := 0; gc_initiator_tid := -1; gc_queue_observer_lock := None;
     locs := [L_store_tid; L_wait]; noted := []; reclaim_set := [] |}.
(** The two threads in turn; the collector joins when it finds work. *)
Definition demo_choice (n : Z) : choice := {| random_chunk := [1; 1; 1; 1]%nat; random_ptr := [1; 1; 1; 1]%nat; work := n; may_sweep := false |}.
Definition demo_schedule (n : nat) (work : Z) : list (choice * nat) := flat_map (fun _ => [(demo_choice work, 0%nat); (demo_choice work, 1%nat)]) (seq 0 n).
Definition demo_start := mk demo_image false 1 1 1 0 demo_state demo_queues.
Definition demo_end := drive demo_image false 1 1 1 0 (demo_schedule 60 16 ++ demo_schedule 80 0) demo_start.
