(* ===== verification/GcMarkMain.v ===== *)
(** * Marking: everything reachable is marked when no thread marks *)
From stdpp Require Import relations gmap.
From S2P Require Import Prelude Objects WsQueue WsQueueInv WsQueueSim GcProg GcScan GcLogic GcChildren GcScanMain.
From S2P Require Import GcScanFacts GcScanRoutines GcMark GcMarkProtocol GcMarkTri GcMarkRun.

(** ** Where marking starts *)

Section ready.
Context (im : image) (frames first nmark init : nat) (foreign : Z -> Z -> Prop).

(** The headers' bits other than the mark bits, when marking starts. *)
Definition type_bits (s : mark_state) (o : Z) : Z := Z.land (header s o) (2 ^ 64 - 1 - 3).

(** What the queues refer to, and what that refers to. *)
Definition root (os : list deque) (o : Z) : Prop := queued os o \/ owed im os o.
Definition reachable (s : mark_state) (os : list deque) (o : Z) : Prop :=
  exists r, root os r /\ rtc (child im frames (type_bits s) foreign) r o.
Definition reachable_buffer (s : mark_state) (os : list deque) (b : Z) : Prop := exists o, reachable s os o /\ buffer im (type_bits s) o b.

(** An element of a queue: an object, tagged or not, or a chunk. *)
Definition element_ok (chunks : bool) (e : elt) : Prop :=
  if chunks then exists c, e = chunk_to_words c /\ chunk_ok im c else exists x, e = [x] /\ x <> 0.

(** The thread that started the collection is about to mark, the collectors are
    waiting or on their way to the lock; the queues are at rest, with their
    objects marked; marked objects that are not queued refer to marked objects
    only, which the write barriers and the remembered sets see to. *)
Record mark_ready (s : mark_state) (os : list deque) : Prop := {
  r_n : gc_n_threads_marking s = 0;
  r_init : locs s !! init = Some L_store_tid;
  r_others t l : t <> init -> locs s !! t = Some l -> (t ∈ collectors first nmark /\ (l = L_wait \/ l = L_lock)) \/ l = L_other;
  r_threads q d : os !! q = Some d -> (length (apcs d) <= length (locs s))%nat /\ Forall (fun a => a = A_idle) (apcs d);
  r_elements q d : os !! q = Some d -> Forall (element_ok (holds_chunks q)) (items d);
  r_owners q d : os !! q = Some d -> items d <> [] -> queue_owner q ∈ collectors first nmark \/ queue_owner q = init;
  r_headers o : in_range 64 (header s o);
  r_heap o : reachable s os o -> o <> 0 /\ item_obj o = o /\ object_ok im frames (type_bits s) o;
  r_buffers o : reachable_buffer s os o -> ~ reachable s os o;
  r_marked o : queued os o -> marked s o;
  r_old o : reachable s os o -> marked s o -> queued os o \/ forall v, child im frames (type_bits s) foreign o v -> marked s v \/ owed im os v;
}.
End ready.

Section main.
Context (im : image) (reset : bool) (frames first nmark init : nat) (foreign : Z -> Z -> Prop).
Abbreviation marker := (marker im reset frames first nmark init).
Abbreviation ready := (mark_ready im frames first nmark init foreign).
Context (s0 : mark_state) (os0 : list deque).
Hypothesis R : ready s0 os0.
Hypothesis Hcb : callbacks_ok im (type_bits s0) foreign.
Abbreviation tyof := (type_bits s0).
Abbreviation reach := (reachable im frames foreign s0 os0).
Abbreviation Buf := (reachable_buffer im frames foreign s0 os0).
Abbreviation El := (El im reach).
Abbreviation flow := (flow im reset frames first nmark init El).
Abbreviation tri := (tri im frames tyof foreign reach Buf (owed im os0) (header s0)).

Lemma reach_child o v : reach o -> child im frames tyof foreign o v -> reach v.
Proof. intros (r & Hr & Hc) Hv. exists r. split; [done|]. by eapply rtc_r. Qed.

Lemma reach_buf o b : reach o -> buffer im tyof o b -> Buf b.
Proof. intros. by exists o. Qed.

Lemma El_work_ b e : El b e -> is_Some (work_of im reset frames b e).
Proof. exact (El_work im reset frames tyof reach (r_heap _ _ _ _ _ _ _ _ R) b e). Qed.

Lemma has_items d e : Forall (fun a => a = A_idle) (apcs d) -> has d e -> e ∈ items d.
Proof. intros H [?|(t & a & Ha & He)]; [done|]. rewrite Forall_lookup in H. rewrite (H _ _ Ha) in He. by apply not_elem_of_nil in He. Qed.

Lemma element_El q d e : os0 !! q = Some d -> e ∈ items d -> El (holds_chunks q) e.
Proof.
  intros Hq He. pose proof (r_elements _ _ _ _ _ _ _ _ R _ _ Hq) as H. rewrite Forall_forall in H. specialize (H _ He).
  unfold GcMarkTri.El. unfold element_ok in H. destruct (holds_chunks q) eqn:Hk.
  - destruct H as (c & -> & Hc). exists c. split; [done|]. split; [done|]. intros v Hv. exists v. split; [|apply rtc_refl]. right.
    eexists q, d, c. split_and!; try done. by left.
  - destruct H as (x & -> & Hx). exists x. split_and!; [done..|]. exists (item_obj x). split; [|apply rtc_refl]. left.
    eexists q, d, x. split_and!; try done. by left.
Qed.

Lemma ready_protocol : protocol first nmark init s0.
Proof.
  destruct R as [Hn Hi Ho _ _ _ _ _ _ _ _].
  assert (forall t l, locs s0 !! t = Some l -> counted l = false /\ inside l = false) as Hc.
  { intros t l Hl. destruct (decide (t = init)) as [->|Hne]; [by simplify_eq|]. by destruct (Ho _ _ Hne Hl) as [(_ & [->| ->])| ->]. }
  assert (count (locs s0) = 0) as H0 by (apply count_none; intros t l Hl; by eapply Hc).
  split; try done.
  - by rewrite H0.
  - eauto.
  - intros t l Hl. destruct (decide (t = init)) as [->|Hne]; [by left|]. right. by destruct (Ho _ _ Hne Hl) as [(? & [->| ->])| ->]; [left|left|right].
  - intros t l Hl H. by rewrite (proj2 (Hc _ _ Hl)) in H.
  - intros t l l' _ _ Hl'. destruct (joining l') eqn:E; [|done]. pose proof (proj2 (Hc _ _ Hl')). by destruct l'.
  - intros l Hl Hne. by simplify_eq.
  - intros t mqi m Hl. by pose proof (proj1 (Hc _ _ Hl)).
Qed.

Lemma ready_flow : flow s0 os0.
Proof.
  split.
  - apply ready_protocol.
  - intros q d t a Hq Ha. destruct (r_threads _ _ _ _ _ _ _ _ R _ _ Hq) as [Hlen Hidle].
    destruct (lookup_lt_is_Some_2 (locs s0) t) as [l Hl]; [apply lookup_lt_Some in Ha; lia|]. exists l. split; [done|].
    rewrite Forall_lookup in Hidle. rewrite (Hidle _ _ Ha). unfold at_queue. destruct (waits t l) as [[q' k]|] eqn:Ew; [|done].
    destruct (waits_inv _ _ _ _ Ew) as (mqi & m & -> & _). destruct (decide (t = init)) as [->|Hne].
    + pose proof (r_init _ _ _ _ _ _ _ _ R). congruence.
    + by destruct (r_others _ _ _ _ _ _ _ _ R _ _ Hne Hl) as [(_ & [?|?])|?].
  - intros q d Hq. apply Forall_forall. intros e He. by eapply element_El.
  - intros q d t a Hq Ha. destruct (r_threads _ _ _ _ _ _ _ _ R _ _ Hq) as [_ Hidle]. rewrite Forall_lookup in Hidle. by rewrite (Hidle _ _ Ha).
  - intros q d Hq. by apply (r_owners _ _ _ _ _ _ _ _ R).
  - intros li q d Hl. rewrite (r_init _ _ _ _ _ _ _ _ R) in Hl. by simplify_eq.
Qed.

Lemma ready_tri : tri (fun _ => None) s0 os0.
Proof.
  assert (forall t l, locs s0 !! t = Some l -> prog_of l = None) as Hp.
  { intros t l Hl. destruct (decide (t = init)) as [->|Hne].
    - rewrite (r_init _ _ _ _ _ _ _ _ R) in Hl. by simplify_eq.
    - by destruct (r_others _ _ _ _ _ _ _ _ R _ _ Hne Hl) as [(_ & [->| ->])| ->]. }
  split; try done.
  - intros o. split; [apply (r_headers _ _ _ _ _ _ _ _ R)|done].
  - intros t l Hl. unfold run_ok. by rewrite (Hp _ _ Hl).
  - intros o Hr Hm. destruct (r_old _ _ _ _ _ _ _ _ R o Hr Hm) as [?|Hb]; [by left; left|]. right. intros v Hv. by destruct (Hb v Hv) as [?|?]; [left|right; left].
  - intros v Hv. right. by left.
Qed.

(** ** Every run *)

Record sound (s : mark_state) (os : list deque) : Prop := {
  s_flow : flow s os;
  s_tri : exists held, tri held s os;
}.

Lemma ready_sound : sound s0 os0.
Proof. split; [apply ready_flow|eexists; apply ready_tri]. Qed.

Lemma sound_step (w w' : world (S := deque) marker) : sound (threads w) (objs w) -> wstep mark_deque marker w w' -> sound (threads w') (objs w').
Proof.
  pose proof (r_heap _ _ _ _ _ _ _ _ R) as Hheap. pose proof (r_buffers _ _ _ _ _ _ _ _ R) as Hbuf.
  intros H Hs. revert H. destruct Hs as [s s' os (c & t & E)|s s' os q d e d' Hq Hu Hd|s os q d d' Hq Hd]; cbn in *; intros [F (held & T)].
  - split; [by eapply flow_own|]. eapply tri_own; [exact Hcb|exact Hheap|exact reach_child|exact reach_buf|exact Hbuf|exact T|exact E].
  - split.
    + eapply flow_use; [done..|]. intros t x ->. inversion Hu as [t' o l l' s1 Hl Hc|]; subst. eapply tri_pushes; [exact Hheap|done..].
    + revert F T. destruct Hu as [t o l l' s1 Hl Hc|t r l l' k s1 Hl Hw Hr]; intros F T.
      * destruct (use_queue _ _ _ _ Hd) as (t1 & a & a' & Ha & -> & [(o' & [= <- <-] & -> & ->)|(? & ? & _)]); [|done]. by eapply tri_call.
      * destruct (use_queue _ _ _ _ Hd) as (t1 & a & a' & Ha & -> & [(? & ? & _)|(r' & [= <- <-] & -> & ->)]); [done|].
        eapply tri_ret; [exact Hcb|exact Hheap|exact reach_child|exact reach_buf|done..|]. by eapply (f_pending _ _ _ _ _ _ _ _ _ F).
  - split; [eapply flow_internal; [exact El_work_|done..]|]. exists held. eapply tri_internal; [exact Hcb|exact Hheap|exact reach_child|exact reach_buf|exact Hbuf|done..].
Qed.

Lemma sound_run (w w' : world (S := deque) marker) : sound (threads w) (objs w) -> rtc (wstep mark_deque marker) w w' -> sound (threads w') (objs w').
Proof. intros H Hr. induction Hr as [|w w1 w' Hs _ IH]; [done|]. apply IH. by eapply sound_step. Qed.

(** ** When no thread marks *)

Lemma idle_complete s os li : sound s os -> locs s !! init = Some li -> before li = false -> gc_n_threads_marking s = 0 ->
  (forall q d, os !! q = Some d -> items d = []) /\ forall o, reach o -> marked s o.
Proof.
  intros [F (held & T)] Hl Hb Hn.
  assert (forall q d, os !! q = Some d -> items d = [] /\ forall t a, apcs d !! t = Some a -> a = A_idle) as Hq by (intros; by eapply flow_idle).
  split; [intros q d H; by apply (Hq _ _ H)|].
  assert (forall d e q, os !! q = Some d -> ~ has d e) as Hhas.
  { intros d e q H. destruct (Hq _ _ H) as [Hi Ha]. intros [He|(t & a & Hta & He)]; [rewrite Hi in He|rewrite (Ha _ _ Hta) in He]; by apply not_elem_of_nil in He. }
  assert (forall v, ~ owed im os v) as Ho by (intros v (q & d & c & H & _ & Hh & _); by eapply Hhas).
  assert (forall t l, locs s !! t = Some l -> prog_of l = None) as Hp.
  { intros t l Htl. destruct (prog_of l) eqn:E; [|done]. assert (counted l = true) as Hc by (by destruct l).
    pose proof (count_lookup _ _ _ Htl Hc) as H. rewrite <- (p_n _ _ _ s (f_protocol _ _ _ _ _ _ _ _ _ F)) in H. lia. }
  assert (forall o, reach o -> marked s o -> forall v, child im frames tyof foreign o v -> marked s v) as Hstep.
  { intros o Hr Hm v Hv. destruct (t_black _ _ _ _ _ _ _ _ _ _ _ T o Hr Hm) as [[(q & d & x & H & _ & Hh & _)|(t & Ht)]|Hbk].
    - by destruct (Hhas _ _ _ H Hh).
    - destruct (t_held _ _ _ _ _ _ _ _ _ _ _ T _ _ Ht) as [_ [l Htl]]. pose proof (t_run _ _ _ _ _ _ _ _ _ _ _ T _ _ Htl) as Hrun.
      unfold run_ok in Hrun. rewrite (Hp _ _ Htl) in Hrun. congruence.
    - destruct (Hbk v Hv) as [?|[?|(t & l & p & Htl & Hpl & _)]]; [done|by edestruct Ho|]. by rewrite (Hp _ _ Htl) in Hpl. }
  assert (forall v, covered im tyof s os v -> marked s v) as Hcov.
  { intros v [?|[?|(t & l & p & Htl & Hpl & _)]]; [done|by edestruct Ho|]. by rewrite (Hp _ _ Htl) in Hpl. }
  intros o (r & Hr & Hro). assert (reach r) as Hrr by (exists r; split; [done|apply rtc_refl]). assert (marked s r) as Hm.
  { destruct Hr as [Hr|Hr]; [apply (t_kept _ _ _ _ _ _ _ _ _ _ _ T), (r_marked _ _ _ _ _ _ _ _ R _ Hr)|apply Hcov, (t_due _ _ _ _ _ _ _ _ _ _ _ T _ Hr)]. }
  clear Hr. revert Hrr Hm. induction Hro as [r|r x o Hx _ IH]; [done|]. intros Hrr Hm. apply IH.
  - by eapply reach_child.
  - by eapply Hstep.
Qed.
End main.

(** ** The queues in memory *)

(** A queue nobody uses, between collections. *)
Definition queue_at_rest (q : nat) (c : ws_state) : Prop :=
  core (elt_words (holds_chunks q)) (queue c) (bottom (queue c)) /\ Forall (fun p => p = Idle) (pcs c).
Definition deques (cs : list ws_state) : list deque := imap (fun q c => abs (queue_owner q) c) cs.

Definition queue_rel (q : nat) (c : ws_state) (d : deque) : Prop := inv (elt_words (holds_chunks q)) (queue_owner q) c /\ d = abs (queue_owner q) c.

Lemma rest_pc c i p : Forall (fun p => p = Idle) (pcs c) -> pcs c !! i = Some p -> p = Idle.
Proof. rewrite Forall_lookup. eauto. Qed.

Lemma rest_inv q c : queue_at_rest q c -> inv (elt_words (holds_chunks q)) (queue_owner q) c.
Proof.
  intros [Hc Hp]. assert (lbottom (queue_owner q) c = bottom (queue c)) as Hl.
  { unfold lbottom, owner_pc. destruct (pcs c !! queue_owner q) as [p|] eqn:E; [|done]. by rewrite (rest_pc _ _ _ Hp E). }
  split; [by rewrite Hl|..]; intros i p Hi; rewrite (rest_pc _ _ _ Hp Hi); done.
Qed.

Lemma queue_refines q : simulates (C := {| trans := mark_queue q |}) (A := {| trans := mark_deque q |}) (queue_rel q).
Proof. exact (ws_refines (elt_words (holds_chunks q)) (queue_owner q)). Qed.

Lemma related_start (K : client ws_op ws_res) (s : cstate K) cs : (forall q c, cs !! q = Some c -> queue_at_rest q c) ->
  related (S := ws_state) (S' := deque) K queue_rel {| threads := s; objs := cs |} {| threads := s; objs := deques cs |}.
Proof.
  intros H. split_and!; [done|cbn; unfold deques; by rewrite length_imap|]. cbn. intros q c d Hc Hd. unfold deques in Hd. rewrite list_lookup_imap, Hc in Hd. cbn in Hd. simplify_eq.
  split; [|done]. by apply rest_inv, H.
Qed.

(** An empty deque at rest is a queue whose counters are equal. *)
Lemma empty_queue q c : inv (elt_words (holds_chunks q)) (queue_owner q) c -> items (abs (queue_owner q) c) = [] ->
  (forall t a, apcs (abs (queue_owner q) c) !! t = Some a -> a = A_idle) -> bottom (queue c) = top (queue c).
Proof.
  intros I Hi Ha. assert (lbottom (queue_owner q) c = bottom (queue c)) as Hl.
  { unfold lbottom, owner_pc. destruct (pcs c !! queue_owner q) as [p|] eqn:E; [|done]. cbn.
    assert (abs_pc (queue c) p = A_idle) as Hp. { apply (Ha (queue_owner q)). cbn. rewrite list_lookup_fmap. by rewrite E. }
    destruct p; cbn in *; try done. by destruct (_ =? _). }
  pose proof (core_range _ _ _ (inv_core _ _ _ I)) as Hr. rewrite Hl in Hr. cbn in Hi. rewrite Hl in Hi. unfold window in Hi.
  apply fmap_nil_inv in Hi. apply (f_equal length) in Hi. rewrite length_seqZ in Hi. cbn in Hi. lia.
Qed.

Section run.
Context (im : image) (reset : bool) (frames first nmark init : nat) (foreign : Z -> Z -> Prop).
Abbreviation marker := (marker im reset frames first nmark init).
Context (s0 : mark_state) (cs : list ws_state) (w : world (S := ws_state) marker).
Hypothesis Hrest : forall q c, cs !! q = Some c -> queue_at_rest q c.
Hypothesis R : mark_ready im frames first nmark init foreign s0 (deques cs).
Hypothesis Hcb : callbacks_ok im (type_bits s0) foreign.
Hypothesis Hrun : rtc (wstep mark_queue marker) {| threads := (s0 : cstate marker); objs := cs |} w.

(** Every run over the queues in memory is one over deques. *)
Lemma run_sound : exists os, sound im reset frames first nmark init foreign s0 (deques cs) (threads w) os /\ length (objs w) = length os /\
  forall q c d, objs w !! q = Some c -> os !! q = Some d -> queue_rel q c d.
Proof.
  destruct (simulates_client mark_queue mark_deque marker queue_rel queue_refines _ _ _ (related_start marker s0 cs Hrest) Hrun) as ([s os] & Hv & Ht & Hl & Hq).
  exists os. split; [|done]. cbn in Ht. rewrite Ht. refine (sound_run _ _ _ _ _ _ _ _ _ R Hcb {| threads := (s0 : cstate marker); objs := deques cs |} {| threads := s; objs := os |} _ Hv).
  by apply ready_sound.
Qed.
End run.

(** C1: Parallel marking: whenever no thread marks, after the thread that started
    the collection has entered the marking loop, everything that the queues
    referred to at the start, and all that it refers to, is marked, and the
    queues are empty. Whatever the interleaving of the collector threads and of
    their accesses to headers and queues; in particular when [gc_should_mark]
    observes that [gc_n_threads_marking] is zero. *)
Theorem gc_mark_loop_complete (im : image) (reset : bool) (frames first nmark init : nat) (foreign : Z -> Z -> Prop)
    (s0 : mark_state) (cs : list ws_state) (w : world (S := ws_state) (marker im reset frames first nmark init)) (l : loc) :
  (forall q c, cs !! q = Some c -> queue_at_rest q c) ->
  mark_ready im frames first nmark init foreign s0 (deques cs) ->
  callbacks_ok im (type_bits s0) foreign ->
  rtc (wstep mark_queue (marker im reset frames first nmark init)) {| threads := (s0 : cstate (marker im reset frames first nmark init)); objs := cs |} w ->
  locs (threads w) !! init = Some l -> l <> L_store_tid -> l <> L_enter -> gc_n_threads_marking (threads w) = 0 ->
  (forall q c, objs w !! q = Some c -> bottom (queue c) = top (queue c)) /\
  forall o, reachable im frames foreign s0 (deques cs) o -> gc_marked (header (threads w) o) = true.
Proof.
  intros Hrest R Hcb Hrun Hl H1 H2 Hn. destruct (run_sound im reset frames first nmark init foreign s0 cs w Hrest R Hcb Hrun) as (os & S & Hlen & Hq).
  assert (before l = false) as Hb by (by destruct l).
  destruct (idle_complete _ _ _ _ _ _ _ _ _ R _ _ _ S Hl Hb Hn) as [Hi Hm]. split; [|exact Hm].
  intros q c Hc. destruct (lookup_lt_is_Some_2 os q) as [d Hd]; [rewrite <- Hlen; by eapply lookup_lt_Some|].
  destruct (Hq _ _ _ Hc Hd) as [I ->]. destruct (flow_idle _ _ _ _ _ _ _ _ _ _ _ _ (s_flow _ _ _ _ _ _ _ _ _ _ _ S) Hl Hb Hn Hd) as [_ Ha].
  by apply (empty_queue q c I); [apply (Hi _ _ Hd)|].
Qed.

(** C3: Parallel marking does no harm, in any interleaving: only objects that the
    queues referred to at the start, or that those refer to, and the buffers of
    tasks among them, get new headers, which keep the type; no marking routine
    aborts; [gc_initiator_tid] is set whenever [gc_should_mark] asserts it; and
    once the thread that started the collection leaves [gc_mark_loop], no thread
    marks, which [gc_mark_loop_barrier] asserts. *)
Theorem gc_mark_loop_safe (im : image) (reset : bool) (frames first nmark init : nat) (foreign : Z -> Z -> Prop)
    (s0 : mark_state) (cs : list ws_state) (w : world (S := ws_state) (marker im reset frames first nmark init)) :
  (forall q c, cs !! q = Some c -> queue_at_rest q c) ->
  mark_ready im frames first nmark init foreign s0 (deques cs) ->
  callbacks_ok im (type_bits s0) foreign ->
  rtc (wstep mark_queue (marker im reset frames first nmark init)) {| threads := (s0 : cstate (marker im reset frames first nmark init)); objs := cs |} w ->
  (forall o, type_bits (threads w) o = type_bits s0 o) /\
  (forall o, header (threads w) o <> header s0 o ->
    reachable im frames foreign s0 (deques cs) o \/ reachable_buffer im frames foreign s0 (deques cs) o) /\
  (forall t l, locs (threads w) !! t = Some l ->
    match l with
    | L_mark _ (M_run p) => p <> Abort
    | L_load_tid _ => gc_initiator_tid (threads w) <> -1
    | L_wait | L_out => t = init -> gc_n_threads_marking (threads w) = 0 /\ forall t' l', locs (threads w) !! t' = Some l' -> counted l' = false
    | _ => True
    end).
Proof.
  intros Hrest R Hcb Hrun. destruct (run_sound im reset frames first nmark init foreign s0 cs w Hrest R Hcb Hrun) as (os & [F (held & T)] & _).
  pose proof (f_protocol _ _ _ _ _ _ _ _ _ F) as P. split_and!.
  - intros o. apply (t_hdr _ _ _ _ _ _ _ _ _ _ _ T o).
  - exact (t_exact _ _ _ _ _ _ _ _ _ _ _ T).
  - intros t l Hl. assert (forall l, locs (threads w) !! init = Some l -> after l = true -> gc_n_threads_marking (threads w) = 0 /\
      forall t' l', locs (threads w) !! t' = Some l' -> counted l' = false) as Hafter.
    { intros li Hi Ha. pose proof (p_after _ _ _ _ P _ Hi Ha) as Hz. split; [by rewrite (p_n _ _ _ _ P)|].
      intros t' l' Hl'. destruct (counted l') eqn:E; [|done]. pose proof (count_lookup _ _ _ Hl' E). lia. }
    destruct l as [| | |mqi m| | | |n|n| |b| |]; try done; try (by intros ->; apply (Hafter _ Hl)).
    + destruct m as [| | |p| | | |]; try done. pose proof (t_run _ _ _ _ _ _ _ _ _ _ _ T _ _ Hl) as Hs. by intros ->.
    + destruct (p_init _ _ _ _ P) as (li & Hi & _). rewrite (p_tid _ _ _ _ P _ Hi); [lia|..]; intros ->.
      * discriminate (p_joining _ _ _ _ P _ _ _ Hi (or_introl eq_refl) Hl).
      * discriminate (p_joining _ _ _ _ P _ _ _ Hi (or_intror eq_refl) Hl).
Qed.

(** ** The small collection *)

Lemma demo_rest q c : demo_queues !! q = Some c -> queue_at_rest q c.
Proof.
  intros Hq. repeat (destruct q as [|q]; [injection Hq as <-; split; [|by repeat constructor];
    (split; [by repeat (constructor; try done); exists 2|cbn; lia|eexists; split; [reflexivity|cbn; lia]])|]). done.
Qed.

Abbreviation demo_reachable := (reachable demo_image 1 (fun _ _ => False) demo_state (deques demo_queues)).

Lemma demo_child r v : r ∈ [256; 512; 768] -> child demo_image 1 (type_bits demo_state) (fun _ _ => False) r v -> r = 256 /\ v ∈ [512; 768].
Proof.
  intros Hr Hc. apply elem_of_cons in Hr as [->|Hr].
  - split; [done|]. change (target demo_image Boxed 1 264 288 v) in Hc. apply boxed_target in Hc as (Hv & i & Hi & Hlt & ->).
    assert (i = 0 \/ i = 1 \/ i = 2) as [->|[->| ->]] by lia; vm_compute; repeat constructor.
  - exfalso. apply elem_of_cons in Hr as [->|Hr]; [by change False in Hc|]. apply list_elem_of_singleton in Hr as ->. by change False in Hc.
Qed.

Lemma demo_queued o : queued (deques demo_queues) o -> o = 256.
Proof.
  intros (q & d & x & Hq & Hk & [He|(t & a & Ha & He)] & _ & <-).
  - repeat (destruct q as [|q]; [injection Hq as <-; vm_compute in He; first [by apply not_elem_of_nil in He|apply list_elem_of_singleton in He; by injection He as ->]|]). done.
  - repeat (destruct q as [|q]; [injection Hq as <-; cbn in Ha; destruct t as [|[|t]]; cbn in Ha; try done; injection Ha as <-; by apply not_elem_of_nil in He|]). done.
Qed.

Lemma demo_owed o : ~ owed demo_image (deques demo_queues) o.
Proof.
  intros (q & d & c & Hq & Hk & [He|(t & a & Ha & He)] & _).
  - repeat (destruct q as [|q]; [injection Hq as <-; vm_compute in He; first [by apply not_elem_of_nil in He|by apply list_elem_of_singleton in He]|]). done.
  - repeat (destruct q as [|q]; [injection Hq as <-; cbn in Ha; destruct t as [|[|t]]; cbn in Ha; try done; injection Ha as <-; by apply not_elem_of_nil in He|]). done.
Qed.

Lemma demo_reach o : demo_reachable o -> o ∈ [256; 512; 768].
Proof.
  intros (r & [Hr|Hr] & Hc); [|by apply demo_owed in Hr]. apply demo_queued in Hr as ->.
  generalize (list_elem_of_here 256 [512; 768]). revert Hc. generalize 256 at 1 2. intros r Hc. induction Hc as [r|r x o Hx _ IH]; [done|]. intros Hr. apply IH.
  destruct (demo_child _ _ Hr Hx) as [_ H]. by right.
Qed.

Lemma demo_header_range o : in_range 64 (header demo_state o).
Proof.
  unfold demo_state, header. destruct (demo_headers !! o) as [h|] eqn:E; [|by split]. unfold demo_headers in E.
  apply lookup_insert_Some in E as [[<- <-]|[_ E]]; [by split|]. apply lookup_insert_Some in E as [[<- <-]|[_ E]]; [by split|].
  apply lookup_singleton_Some in E as [<- <-]. by split.
Qed.

Lemma demo_ready : mark_ready demo_image 1 1 1 0 (fun _ _ => False) demo_state (deques demo_queues).
Proof.
  split; try done.
  - intros [|[|t]] l Ht Hl; cbn in Hl; simplify_eq; try done. left. split; [by left|by left].
  - intros q d Hq. repeat (destruct q as [|q]; [injection Hq as <-; by repeat constructor|]). done.
  - intros q d Hq. repeat (destruct q as [|q]; [injection Hq as <-; repeat constructor; by exists 256|]). done.
  - intros q d Hq Hne. repeat (destruct q as [|q]; [injection Hq as <-; first [by destruct Hne|by left; left|by right]|]). done.
  - apply demo_header_range.
  - intros o Ho%demo_reach. repeat (apply elem_of_cons in Ho as [->|Ho]); [..|by apply not_elem_of_nil in Ho]; (split_and!; [done|done|vm_compute; done]).
  - intros b (o & Ho%demo_reach & Hb & _) _. repeat (apply elem_of_cons in Ho as [->|Ho]); [..|by apply not_elem_of_nil in Ho]; by vm_compute in Hb.
  - by intros o ->%demo_queued.
  - intros o Ho%demo_reach Hm. repeat (apply elem_of_cons in Ho as [->|Ho]); [..|by apply not_elem_of_nil in Ho].
    + left. exists 2%nat, (abs 1 (demo_queue false [[256]])), 256. split_and!; try done. left. vm_compute. by left.
    + by vm_compute in Hm.
    + right. intros v Hv. destruct (demo_child 768 v) as [? _]; [by right; right; left|done|done].
Qed.

Lemma gc_mark_loop_complete_witness :
  gc_n_threads_marking (threads demo_end) = 0 /\ (forall q c, objs demo_end !! q = Some c -> bottom (queue c) = top (queue c)) /\
  forall o, demo_reachable o -> gc_marked (header (threads demo_end) o) = true.
Proof.
  split; [vm_compute; reflexivity|].
  apply (gc_mark_loop_complete demo_image false 1 1 1 0 (fun _ _ => False) demo_state demo_queues demo_end L_out).
  - exact demo_rest.
  - exact demo_ready.
  - apply demo_callbacks.
  - apply drive_run.
  - vm_compute. reflexivity.
  - discriminate.
  - discriminate.
  - vm_compute. reflexivity.
Defined.

Lemma gc_mark_loop_safe_witness :
  (forall o, type_bits (threads demo_end) o = type_bits demo_state o) /\
  forall o, header (threads demo_end) o <> header demo_state o -> demo_reachable o \/ reachable_buffer demo_image 1 (fun _ _ => False) demo_state (deques demo_queues) o.
Proof.
  assert (rtc (wstep mark_queue (marker demo_image false 1 1 1 0)) demo_start demo_end) as Hr by apply drive_run.
  pose proof (gc_mark_loop_safe demo_image false 1 1 1 0 (fun _ _ => False) demo_state demo_queues demo_end demo_rest demo_ready (demo_callbacks) Hr) as (H1 & H2 & _).
  split; [exact H1|exact H2].
Defined.
