(* ===== verification/Layout.v ===== *)
(** * Layouts of data types: their encoding and the cache (datatype.c, julia.h)

    A [jl_datatype_layout_t] is the list of its bytes: a header of 20 bytes,
    the descriptors of the fields, and the offsets of the pointers, both in
    the width that [fielddesc_type] names. Layouts are interned: equal ones have
    one address. A read outside the bytes and a failed assertion are [None]. *)
From stdpp Require Import gmap.
From S2P Require Import Prelude Htable.

(** [rd l off n]: the [n]-byte number at byte [off]. *)
Definition rd (l : list Z) (off : Z) (n : nat) : option Z :=
  if (0 <=? off) && (off + Z.of_nat n <=? Z.of_nat (length l)) then Some (val 8 (take n (drop (Z.to_nat off) l))) else None.

(** ** The struct (julia.h) *)

Definition l_size (l : list Z) := rd l 0 4.
Definition l_nfields (l : list Z) := rd l 4 4.
Definition l_npointers (l : list Z) := rd l 8 4.
Definition l_first_ptr (l : list Z) := x ← rd l 12 4; Some (sw 32 x).
Definition l_alignment (l : list Z) := rd l 16 2.
Definition l_flags (l : list Z) := rd l 18 2.
Definition flag_haspadding (flags : Z) : bool := Z.testbit flags 0.
Definition flag_fielddesc_type (flags : Z) : Z := Z.land (Z.shiftr flags 1) 3.
Definition flag_isbitsegal (flags : Z) : bool := Z.testbit flags 7.
Definition flag_unused_bits (flags : Z) : Z := Z.land (Z.shiftr flags 8) 7.

Definition JL_FIELDDESC_8 := 0.
Definition JL_FIELDDESC_16 := 1.
Definition JL_FIELDDESC_32 := 2.
Definition JL_FIELDDESC_FOREIGN := 3.

Definition jl_fielddesc_size (t : Z) : option Z :=
  if t =? JL_FIELDDESC_8 then Some 2 else if t =? JL_FIELDDESC_16 then Some 4 else if t =? JL_FIELDDESC_32 then Some 8 else None.
Definition jl_fielddesc_ptr_size (t : Z) : option Z :=
  if t =? JL_FIELDDESC_8 then Some 1 else if t =? JL_FIELDDESC_16 then Some 2 else if t =? JL_FIELDDESC_32 then Some 4 else None.
Definition sizeof_layout : Z := 20.
Definition jl_dt_layout_fields : Z := sizeof_layout.
Definition jl_dt_layout_ptrs (l : list Z) : option Z :=
  flags ← l_flags l; sz ← jl_fielddesc_size (flag_fielddesc_type flags); n ← l_nfields l;
  Some (jl_dt_layout_fields + sz * n).
Definition jl_is_layout_opaque (l : list Z) : option bool :=
  nf ← l_nfields l; np ← l_npointers l; Some ((nf =? 0) && (0 <? np)).

(** The bit fields of a descriptor: [isptr], then [size], then [offset]. *)
Definition jl_field_offset (l : list Z) (i : Z) : option Z :=
  nf ← l_nfields l; flags ← l_flags l;
  if negb ((0 <=? i) && (i <? nf)) then None else
  if flag_fielddesc_type flags =? JL_FIELDDESC_8 then rd l (jl_dt_layout_fields + 2 * i + 1) 1
  else if flag_fielddesc_type flags =? JL_FIELDDESC_16 then rd l (jl_dt_layout_fields + 4 * i + 2) 2
  else if flag_fielddesc_type flags =? JL_FIELDDESC_32 then rd l (jl_dt_layout_fields + 8 * i + 4) 4 else None.
Definition jl_field_size (l : list Z) (i : Z) : option Z :=
  nf ← l_nfields l; flags ← l_flags l;
  if negb ((0 <=? i) && (i <? nf)) then None else
  if flag_fielddesc_type flags =? JL_FIELDDESC_8 then x ← rd l (jl_dt_layout_fields + 2 * i) 1; Some (Z.shiftr x 1)
  else if flag_fielddesc_type flags =? JL_FIELDDESC_16 then x ← rd l (jl_dt_layout_fields + 4 * i) 2; Some (Z.shiftr x 1)
  else if flag_fielddesc_type flags =? JL_FIELDDESC_32 then x ← rd l (jl_dt_layout_fields + 8 * i) 4; Some (Z.shiftr x 1) else None.
Definition jl_field_isptr (l : list Z) (i : Z) : option bool :=
  nf ← l_nfields l; flags ← l_flags l;
  if negb ((0 <=? i) && (i <? nf)) then None else
  sz ← jl_fielddesc_size (flag_fielddesc_type flags);
  x ← rd l (jl_dt_layout_fields + sz * i) 1; Some (Z.testbit x 0).
Definition jl_ptr_offset (l : list Z) (i : Z) : option Z :=
  np ← l_npointers l; flags ← l_flags l; ptrs ← jl_dt_layout_ptrs l;
  if negb ((0 <=? i) && (i <? np)) then None else
  if flag_fielddesc_type flags =? JL_FIELDDESC_8 then rd l (ptrs + i) 1
  else if flag_fielddesc_type flags =? JL_FIELDDESC_16 then rd l (ptrs + 2 * i) 2
  else if flag_fielddesc_type flags =? JL_FIELDDESC_32 then rd l (ptrs + 4 * i) 4 else None.

(** ** Building a layout: [jl_get_layout] up to the cache *)

Record jl_fielddesc32_t := { isptr : bool; fsize : Z; offset : Z }.

(** The stores into the bit fields truncate. *)
Definition desc_bytes (t : Z) (d : jl_fielddesc32_t) : list Z :=
  if t =? JL_FIELDDESC_8 then [b2z (isptr d) + 2 * uw 7 (fsize d); u8 (offset d)]
  else if t =? JL_FIELDDESC_16 then digits 8 2 (b2z (isptr d) + 2 * uw 15 (fsize d)) ++ digits 8 2 (u16 (offset d))
  else digits 8 4 (b2z (isptr d) + 2 * uw 31 (fsize d)) ++ digits 8 4 (u32 (offset d)).
Definition ptr_bytes (t : Z) (p : Z) : list Z :=
  if t =? JL_FIELDDESC_8 then digits 8 1 p else if t =? JL_FIELDDESC_16 then digits 8 2 p else digits 8 4 p.

Definition max_size_of (desc : list jl_fielddesc32_t) : Z := foldl (fun m d => if m <? fsize d then fsize d else m) 0 desc.
Definition max_offset_of (desc : list jl_fielddesc32_t) (pointers : list Z) : Z :=
  let m := match last desc with None => 0 | Some d => offset d end in
  match last pointers with Some p => if m <? p then p else m | None => m end.

(** The narrowest descriptors that hold the largest size and offset. *)
Definition fielddesc_type_for (max_size max_offset : Z) : option Z :=
  if (uw 7 max_size =? max_size) && (u8 max_offset =? max_offset) then Some JL_FIELDDESC_8
  else if (uw 15 max_size =? max_size) && (u16 max_offset =? max_offset) then Some JL_FIELDDESC_16
  else if (uw 31 max_size =? max_size) && (u32 max_offset =? max_offset) then Some JL_FIELDDESC_32
  else None.

Definition layout_flags (haspadding isbitsegal : bool) (t arrayelem unused_bits : Z) : Z :=
  b2z haspadding + Z.shiftl t 1 + Z.shiftl (Z.land arrayelem 15) 3 + Z.shiftl (b2z isbitsegal) 7 + Z.shiftl (uw 3 unused_bits) 8.

(** [pointers] has [npointers] elements. *)
Definition make_layout (sz nfields npointers alignment : Z) (haspadding isbitsegal : bool) (arrayelem unused_bits : Z)
  (desc : list jl_fielddesc32_t) (pointers : list Z) : option (list Z) :=
  if alignment =? 0 then None else
  t ← fielddesc_type_for (max_size_of desc) (max_offset_of desc pointers);
  let first_ptr := match pointers with [] => -1 | p :: _ => sw 32 p end in
  Some (digits 8 4 sz ++ digits 8 4 nfields ++ digits 8 4 npointers ++ digits 8 4 first_ptr ++ digits 8 2 alignment ++
        digits 8 2 (layout_flags haspadding isbitsegal t arrayelem unused_bits) ++
        flat_map (desc_bytes t) desc ++ (if first_ptr <? 0 then [] else flat_map (ptr_bytes t) pointers)).

(** ** The cache *)

(** [char] is signed. *)
Fixpoint _hash_djb2 (hash : Z) (mem : list Z) : Z :=
  match mem with [] => hash | c :: mem => _hash_djb2 (u32 (u32 (u32 (Z.shiftl hash 5) + hash) + sw 8 c)) mem end.

(** The bytes that the hash and the comparison read: header, fields, pointers. *)
Definition layout_parts (l : list Z) : option (list Z * list Z * list Z) :=
  flags ← l_flags l; nf ← l_nfields l; np ← l_npointers l; fp ← l_first_ptr l; ptrs ← jl_dt_layout_ptrs l;
  fsz ← jl_fielddesc_size (flag_fielddesc_type flags); psz ← jl_fielddesc_ptr_size (flag_fielddesc_type flags);
  Some (take (Z.to_nat sizeof_layout) l, take (Z.to_nat (nf * fsz)) (drop (Z.to_nat jl_dt_layout_fields) l),
        take (Z.to_nat (if fp <? 0 then 0 else np * psz)) (drop (Z.to_nat ptrs) l)).

Section Cache.
(** The memory that holds layouts. *)
Context (lmem : gmap Z (list Z)).

Definition layout_at (a : Z) : list Z := default [] (lmem !! a).

Definition _hash_layout_djb2 (a : Z) : Z :=
  match layout_parts (layout_at a) with
  | Some (own, fields, pointers) => _hash_djb2 (_hash_djb2 (_hash_djb2 5381 own) fields) pointers
  | None => 0
  end.
Definition layout_eq (a1 a2 : Z) : bool :=
  match layout_parts (layout_at a1), layout_parts (layout_at a2) with
  | Some (o1, f1, p1), Some (o2, f2, p2) => bool_decide (o1 = o2) && bool_decide (f1 = f2) && bool_decide (p1 = p2)
  | None, None => true
  | _, _ => false
  end.
Definition layoutcache_get_r (h : htable_t) (key : Z) : option Z := get_r _hash_layout_djb2 layout_eq h key.
Definition layoutcache_put_r (h : htable_t) (key val : Z) : option htable_t := put_r _hash_layout_djb2 layout_eq id h key val.
End Cache.
