(* ===== verification/LayoutFacts.v ===== *)
(** * Layouts: what is written is read back *)
From stdpp Require Import gmap.
From S2P Require Import Prelude Htable Layout.

(** ** Reading *)

Lemma rd_at (a b : list Z) n off m x : (off = Z.of_nat (length a))%Z -> m = length b -> (n <= m)%nat ->
  val 8 (take n b) = x -> forall c, rd (a ++ b ++ c) off n = Some x.
Proof.
  intros -> -> Hn Hx c. unfold rd. rewrite !length_app.
  destruct (Z.leb_spec 0 (Z.of_nat (length a))); [|lia]. destruct (Z.leb_spec (Z.of_nat (length a) + Z.of_nat n) (Z.of_nat (length a + (length b + length c)))); [|lia].
  cbn [andb]. rewrite Nat2Z.id, drop_app_length, take_app_le by done. by rewrite Hx.
Qed.

Lemma rd_digits (a c : list Z) off n x : off = Z.of_nat (length a) -> rd (a ++ digits 8 n x ++ c) off n = Some (uw (8 * Z.of_nat n) x).
Proof.
  intros E. apply (rd_at a _ n _ n); [done|by rewrite digits_length|lia|]. rewrite take_ge by (rewrite digits_length; lia). by apply val_digits.
Qed.

(** Chunks of one length. *)
Lemma drop_chunks {A} (f : A -> list Z) k l i x : (forall y, length (f y) = k) -> l !! i = Some x ->
  flat_map f l = flat_map f (take i l) ++ f x ++ flat_map f (drop (S i) l) /\ length (flat_map f (take i l)) = (k * i)%nat.
Proof.
  intros Hk Hi. split.
  - rewrite <- (take_drop_middle l i x Hi) at 1. by rewrite flat_map_app.
  - apply lookup_lt_Some in Hi. revert i Hi. induction l as [|y l IH]; intros [|i] Hi; simpl in *; try lia.
    rewrite length_app, Hk, IH by lia. lia.
Qed.
Lemma length_chunks {A} (f : A -> list Z) k l : (forall y, length (f y) = k) -> length (flat_map f l) = (k * length l)%nat.
Proof. intros Hk. induction l as [|y l IH]; simpl; [lia|]. rewrite length_app, Hk, IH. lia. Qed.

(** ** Descriptors *)

Definition fd_size (t : Z) : nat := if t =? JL_FIELDDESC_8 then 2 else if t =? JL_FIELDDESC_16 then 4 else 8.
Definition fd_ptr_size (t : Z) : nat := if t =? JL_FIELDDESC_8 then 1 else if t =? JL_FIELDDESC_16 then 2 else 4.
Definition valid_fd (t : Z) : Prop := t = JL_FIELDDESC_8 \/ t = JL_FIELDDESC_16 \/ t = JL_FIELDDESC_32.

Lemma desc_bytes_length t d : length (desc_bytes t d) = fd_size t.
Proof. unfold desc_bytes, fd_size. repeat case_match; rewrite ?length_app, ?digits_length; done. Qed.
Lemma ptr_bytes_length t p : length (ptr_bytes t p) = fd_ptr_size t.
Proof. unfold ptr_bytes, fd_ptr_size. repeat case_match; by rewrite ?digits_length. Qed.
Lemma fd_size_eq t : valid_fd t -> jl_fielddesc_size t = Some (Z.of_nat (fd_size t)).
Proof. by intros [->|[->| ->]]. Qed.
Lemma fd_ptr_size_eq t : valid_fd t -> jl_fielddesc_ptr_size t = Some (Z.of_nat (fd_ptr_size t)).
Proof. by intros [->|[->| ->]]. Qed.

(** The widths of [size] and [offset]. *)
Definition size_bits (t : Z) : Z := if t =? JL_FIELDDESC_8 then 7 else if t =? JL_FIELDDESC_16 then 15 else 31.
Definition offset_bits (t : Z) : Z := if t =? JL_FIELDDESC_8 then 8 else if t =? JL_FIELDDESC_16 then 16 else 32.
Definition desc_fits (t : Z) (d : jl_fielddesc32_t) : Prop := in_range (size_bits t) (fsize d) /\ in_range (offset_bits t) (offset d).
Definition ptr_fits (t : Z) (p : Z) : Prop := in_range (offset_bits t) p.

Lemma fielddesc_type_for_spec s o t : 0 <= s -> 0 <= o -> fielddesc_type_for s o = Some t ->
  valid_fd t /\ in_range (size_bits t) s /\ in_range (offset_bits t) o.
Proof.
  intros Hs Ho. unfold fielddesc_type_for.
  assert (forall w x, 0 <= w -> 0 <= x -> uw w x = x -> in_range w x) as Hr by (intros w x Hw Hx <-; by apply uw_range).
  repeat case_match; intros [= <-]; match goal with H : _ && _ = true |- _ => apply andb_true_iff in H as [H1%Z.eqb_eq H2%Z.eqb_eq] end;
    (split; [unfold valid_fd; tauto|]; split; apply Hr; done || lia).
Qed.
(** And no narrower one does. *)
Lemma fielddesc_type_for_least s o t t' : fielddesc_type_for s o = Some t -> valid_fd t' -> in_range (size_bits t') s -> in_range (offset_bits t') o -> t <= t'.
Proof.
  unfold fielddesc_type_for, size_bits, offset_bits, JL_FIELDDESC_8, JL_FIELDDESC_16, JL_FIELDDESC_32. intros E [-> |[-> | ->]] Hs Ho.
  - change (in_range 7 s) in Hs. change (in_range 8 o) in Ho. rewrite (uw_small 7 s), (uw_small 8 o), !Z.eqb_refl in E by done. injection E as <-. done.
  - change (in_range 15 s) in Hs. change (in_range 16 o) in Ho. rewrite (uw_small 15 s), (uw_small 16 o), !Z.eqb_refl in E by done.
    destruct (_ && _); injection E as <-; done.
  - repeat case_match; try done; by injection E as <-.
Qed.
Lemma fielddesc_type_for_total s o : in_range 31 s -> in_range 32 o -> exists t, fielddesc_type_for s o = Some t.
Proof.
  intros Hs Ho. unfold fielddesc_type_for. rewrite !(uw_small 31 s), !(uw_small 32 o), !Z.eqb_refl by done. cbn [andb]. repeat case_match; eauto.
Qed.

Lemma shiftr_isptr b n : 0 <= n -> Z.shiftr (b2z b + 2 * n) 1 = n.
Proof.
  intros Hn. rewrite Z.shiftr_div_pow2 by lia. change (2 ^ 1) with 2. rewrite Z.mul_comm, Z.div_add by lia. by destruct b.
Qed.

Lemma desc_word_range w b n : 0 < w -> in_range w n -> in_range (w + 1) (b2z b + 2 * n).
Proof. intros Hw [H1 H2]. unfold in_range. rewrite Z.pow_add_r by lia. change (2 ^ 1) with 2. destruct b; cbn; lia. Qed.

Lemma testbit0_isptr b n : Z.testbit (b2z b + 2 * n) 0 = b.
Proof. rewrite Z.bit0_odd, Z.odd_add_mul_2. by destruct b. Qed.

Section Encoded.
Context (t sz nfields npointers first_ptr alignment flags : Z) (desc : list jl_fielddesc32_t) (pointers : list Z).
Context (Ht : valid_fd t).
Context (Hsz : in_range 32 sz) (Hnf : nfields = Z.of_nat (length desc)) (Hnf32 : in_range 32 nfields) (Hnp : in_range 32 npointers).
Context (Hal : in_range 16 alignment) (Hfl : in_range 16 flags) (Hfd : flag_fielddesc_type flags = t).
Context (Hdesc : Forall (desc_fits t) desc) (Hptrs : Forall (ptr_fits t) pointers).

Definition header : list Z := digits 8 4 sz ++ digits 8 4 nfields ++ digits 8 4 npointers ++ digits 8 4 first_ptr ++ digits 8 2 alignment ++ digits 8 2 flags.
Definition encoded : list Z := header ++ flat_map (desc_bytes t) desc ++ flat_map (ptr_bytes t) pointers.

Lemma header_length : length header = 20%nat.
Proof using. unfold header. by rewrite !length_app, !digits_length. Qed.

(** A number of the header, after the bytes [a]. *)
Lemma rd_header a n x off c : header = a ++ digits 8 n x ++ c -> off = Z.of_nat (length a) -> rd encoded off n = Some (uw (8 * Z.of_nat n) x).
Proof using. intros E Ho. unfold encoded. rewrite E, <- !app_assoc. by apply rd_digits. Qed.

Ltac solve_header := first [unfold header; rewrite <- ?app_assoc; reflexivity | rewrite ?length_app, ?digits_length; reflexivity].

Lemma enc_size : l_size encoded = Some sz.
Proof using Hsz. unfold l_size. erewrite (rd_header [] 4 sz) by solve_header. by rewrite uw_small. Qed.
Lemma enc_nfields : l_nfields encoded = Some nfields.
Proof using Hnf32. unfold l_nfields. erewrite (rd_header (digits 8 4 sz) 4 nfields) by solve_header. by rewrite uw_small. Qed.
Lemma enc_npointers : l_npointers encoded = Some npointers.
Proof using Hnp. unfold l_npointers. erewrite (rd_header (digits 8 4 sz ++ digits 8 4 nfields) 4 npointers) by solve_header. by rewrite uw_small. Qed.
Lemma enc_first_ptr : l_first_ptr encoded = Some (sw 32 first_ptr).
Proof using.
  unfold l_first_ptr. erewrite (rd_header (digits 8 4 sz ++ digits 8 4 nfields ++ digits 8 4 npointers) 4 first_ptr) by solve_header.
  cbn [mbind option_bind]. f_equal. apply (sw_uw 32).
Qed.
Lemma enc_alignment : l_alignment encoded = Some alignment.
Proof using Hal.
  unfold l_alignment. erewrite (rd_header (digits 8 4 sz ++ digits 8 4 nfields ++ digits 8 4 npointers ++ digits 8 4 first_ptr) 2 alignment) by solve_header.
  by rewrite uw_small.
Qed.
Lemma enc_flags : l_flags encoded = Some flags.
Proof using Hfl.
  unfold l_flags. erewrite (rd_header (digits 8 4 sz ++ digits 8 4 nfields ++ digits 8 4 npointers ++ digits 8 4 first_ptr ++ digits 8 2 alignment) 2 flags _ []).
  - by rewrite uw_small.
  - unfold header. rewrite <- ?app_assoc. by rewrite app_nil_r.
  - by rewrite ?length_app, ?digits_length.
Qed.
Lemma enc_ptrs : jl_dt_layout_ptrs encoded = Some (20 + Z.of_nat (fd_size t * length desc)).
Proof using Ht Hnf Hnf32 Hfl Hfd.
  unfold jl_dt_layout_ptrs. rewrite enc_flags, enc_nfields. cbn [mbind option_bind]. rewrite Hfd, fd_size_eq by done. cbn [mbind option_bind].
  unfold jl_dt_layout_fields, sizeof_layout. f_equal. lia.
Qed.

(** A part of a descriptor: [n] bytes from its byte [k] on. *)
Lemma rd_desc i d k n x : desc !! i = Some d -> (k + n <= fd_size t)%nat -> val 8 (take n (drop k (desc_bytes t d))) = x ->
  rd encoded (20 + Z.of_nat (fd_size t) * Z.of_nat i + Z.of_nat k) n = Some x.
Proof using.
  intros Hi Hk Hx. destruct (drop_chunks (desc_bytes t) (fd_size t) desc i d (desc_bytes_length t) Hi) as [E El]. unfold encoded. rewrite E.
  rewrite <- (take_drop k (desc_bytes t d)), <- !app_assoc. rewrite (app_assoc header), (app_assoc (header ++ _)).
  eapply rd_at; [|reflexivity| |exact Hx].
  - rewrite !length_app, header_length, El, length_take_le by (rewrite desc_bytes_length; lia). lia.
  - rewrite length_drop, desc_bytes_length. lia.
Qed.

Lemma enc_field_offset i d : desc !! i = Some d -> jl_field_offset encoded (Z.of_nat i) = Some (offset d).
Proof using Ht Hnf Hnf32 Hfl Hfd Hdesc.
  intros Hi. pose proof (lookup_lt_Some _ _ _ Hi). pose proof (Forall_lookup_1 _ _ _ _ Hdesc Hi) as [Hs Ho]. unfold jl_field_offset.
  rewrite enc_nfields, enc_flags. cbn [mbind option_bind]. rewrite Hfd.
  destruct (Z.leb_spec 0 (Z.of_nat i)); [|lia]. destruct (Z.ltb_spec (Z.of_nat i) nfields); [|lia]. cbn [andb negb].
  unfold jl_dt_layout_fields, sizeof_layout. destruct Ht as [Et|[Et|Et]]; rewrite Et in Hs, Ho; rewrite Et;
    unfold JL_FIELDDESC_8, JL_FIELDDESC_16, JL_FIELDDESC_32; cbn [Z.eqb Pos.eqb].
  - pose proof (rd_desc i d 1 1 (offset d) Hi) as H'. rewrite Et in H'. apply H'; [cbn; lia|].
    change (u8 (offset d) + 2 ^ 8 * 0 = offset d). rewrite uw_small by done. lia.
  - pose proof (rd_desc i d 2 2 (offset d) Hi) as H'. rewrite Et in H'. apply H'; [cbn; lia|].
    unfold desc_bytes. cbn [Z.eqb Pos.eqb JL_FIELDDESC_8 JL_FIELDDESC_16]. rewrite drop_app_length' by (by rewrite digits_length).
    rewrite take_ge by (by rewrite digits_length). rewrite val_digits by lia. rewrite uw_uw. by apply uw_small.
  - pose proof (rd_desc i d 4 4 (offset d) Hi) as H'. rewrite Et in H'. apply H'; [cbn; lia|].
    unfold desc_bytes. cbn [Z.eqb Pos.eqb JL_FIELDDESC_8 JL_FIELDDESC_16 JL_FIELDDESC_32]. rewrite drop_app_length' by (by rewrite digits_length).
    rewrite take_ge by (by rewrite digits_length). rewrite val_digits by lia. rewrite uw_uw. by apply uw_small.
Qed.

Lemma enc_field_size i d : desc !! i = Some d -> jl_field_size encoded (Z.of_nat i) = Some (fsize d).
Proof using Ht Hnf Hnf32 Hfl Hfd Hdesc.
  intros Hi. pose proof (lookup_lt_Some _ _ _ Hi). pose proof (Forall_lookup_1 _ _ _ _ Hdesc Hi) as [Hs Ho]. unfold jl_field_size.
  rewrite enc_nfields, enc_flags. cbn [mbind option_bind]. rewrite Hfd.
  destruct (Z.leb_spec 0 (Z.of_nat i)); [|lia]. destruct (Z.ltb_spec (Z.of_nat i) nfields); [|lia]. cbn [andb negb].
  unfold jl_dt_layout_fields, sizeof_layout. rewrite <- (shiftr_isptr (isptr d) (fsize d)) by apply Hs.
  destruct Ht as [Et|[Et|Et]]; rewrite Et in Hs, Ho; rewrite Et; unfold JL_FIELDDESC_8, JL_FIELDDESC_16, JL_FIELDDESC_32; cbn [Z.eqb Pos.eqb];
    [pose proof (rd_desc i d 0 1 (b2z (isptr d) + 2 * fsize d) Hi) as H'; rewrite Et in H'; change (Z.of_nat (fd_size _)) with 2 in H'
    |pose proof (rd_desc i d 0 2 (b2z (isptr d) + 2 * fsize d) Hi) as H'; rewrite Et in H'; change (Z.of_nat (fd_size _)) with 4 in H'
    |pose proof (rd_desc i d 0 4 (b2z (isptr d) + 2 * fsize d) Hi) as H'; rewrite Et in H'; change (Z.of_nat (fd_size _)) with 8 in H'];
    rewrite Z.add_0_r in H'; rewrite drop_0 in H'; (rewrite H'; [done|cbn; lia|]).
  - change (b2z (isptr d) + 2 * uw 7 (fsize d) + 2 ^ 8 * 0 = b2z (isptr d) + 2 * fsize d). rewrite uw_small by done. lia.
  - unfold desc_bytes. cbn [Z.eqb Pos.eqb JL_FIELDDESC_8 JL_FIELDDESC_16]. rewrite take_app_length' by (by rewrite digits_length).
    rewrite val_digits, (uw_small 15) by (lia || done). apply (uw_small 16), (desc_word_range 15); [lia|done].
  - unfold desc_bytes. cbn [Z.eqb Pos.eqb JL_FIELDDESC_8 JL_FIELDDESC_16 JL_FIELDDESC_32]. rewrite take_app_length' by (by rewrite digits_length).
    rewrite val_digits, (uw_small 31) by (lia || done). apply (uw_small 32), (desc_word_range 31); [lia|done].
Qed.

Lemma enc_field_isptr i d : desc !! i = Some d -> jl_field_isptr encoded (Z.of_nat i) = Some (isptr d).
Proof using Ht Hnf Hnf32 Hfl Hfd.
  intros Hi. pose proof (lookup_lt_Some _ _ _ Hi). unfold jl_field_isptr.
  rewrite enc_nfields, enc_flags. cbn [mbind option_bind]. rewrite Hfd.
  destruct (Z.leb_spec 0 (Z.of_nat i)); [|lia]. destruct (Z.ltb_spec (Z.of_nat i) nfields); [|lia]. cbn [andb negb].
  rewrite fd_size_eq by done. cbn [mbind option_bind]. unfold jl_dt_layout_fields, sizeof_layout.
  pose proof (rd_desc i d 0 1 (val 8 (take 1 (desc_bytes t d))) Hi) as H'. rewrite Z.add_0_r, drop_0 in H'. rewrite H'; [|unfold fd_size; repeat case_match; lia|done].
  cbn [mbind option_bind]. f_equal. destruct Ht as [Et|[Et|Et]]; rewrite Et.
  - change (Z.testbit (b2z (isptr d) + 2 * uw 7 (fsize d) + 2 ^ 8 * 0) 0 = isptr d). rewrite Z.mul_0_r, Z.add_0_r. apply testbit0_isptr.
  - unfold desc_bytes. cbn [Z.eqb Pos.eqb JL_FIELDDESC_8 JL_FIELDDESC_16]. rewrite take_app_le by (rewrite digits_length; lia).
    rewrite take_digits, val_digits by lia. rewrite testbit_uw by lia. apply testbit0_isptr.
  - unfold desc_bytes. cbn [Z.eqb Pos.eqb JL_FIELDDESC_8 JL_FIELDDESC_16 JL_FIELDDESC_32]. rewrite take_app_le by (rewrite digits_length; lia).
    rewrite take_digits, val_digits by lia. rewrite testbit_uw by lia. apply testbit0_isptr.
Qed.

Lemma rd_ptr i p : pointers !! i = Some p ->
  rd encoded (20 + Z.of_nat (fd_size t * length desc) + Z.of_nat (fd_ptr_size t) * Z.of_nat i) (fd_ptr_size t) = Some (val 8 (ptr_bytes t p)).
Proof using.
  intros Hi. destruct (drop_chunks (ptr_bytes t) (fd_ptr_size t) pointers i p (ptr_bytes_length t) Hi) as [E El]. unfold encoded. rewrite E.
  rewrite (app_assoc header), (app_assoc (header ++ _)).
  eapply rd_at; [|reflexivity| |by rewrite take_ge by (by rewrite ptr_bytes_length)].
  - rewrite !length_app, header_length, El, (length_chunks _ (fd_size t)) by apply desc_bytes_length. lia.
  - by rewrite ptr_bytes_length.
Qed.

Lemma enc_ptr_offset i p : npointers = Z.of_nat (length pointers) -> pointers !! i = Some p -> jl_ptr_offset encoded (Z.of_nat i) = Some p.
Proof using Ht Hnf Hnf32 Hfl Hfd Hptrs Hnp.
  intros En Hi. pose proof (lookup_lt_Some _ _ _ Hi). pose proof (Forall_lookup_1 _ _ _ _ Hptrs Hi) as Hp. unfold jl_ptr_offset.
  rewrite enc_npointers, enc_flags. cbn [mbind option_bind]. rewrite enc_ptrs. cbn [mbind option_bind]. rewrite Hfd.
  destruct (Z.leb_spec 0 (Z.of_nat i)); [|lia]. destruct (Z.ltb_spec (Z.of_nat i) npointers); [|lia]. cbn [andb negb].
  pose proof (rd_ptr i p Hi) as H'. unfold ptr_fits in Hp.
  destruct Ht as [Et|[Et|Et]]; rewrite Et in H', Hp; rewrite Et; unfold JL_FIELDDESC_8, JL_FIELDDESC_16, JL_FIELDDESC_32; cbn [Z.eqb Pos.eqb];
    cbn [fd_ptr_size Z.eqb Pos.eqb JL_FIELDDESC_8 JL_FIELDDESC_16 JL_FIELDDESC_32] in H'.
  - replace (Z.of_nat 1 * Z.of_nat i) with (Z.of_nat i) in H' by lia. etransitivity; [exact H'|]. f_equal.
    change (val 8 (digits 8 1 p) = p). rewrite val_digits by lia. by apply (uw_small 8).
  - etransitivity; [exact H'|]. f_equal.
    change (val 8 (digits 8 2 p) = p). rewrite val_digits by lia. by apply (uw_small 16).
  - etransitivity; [exact H'|]. f_equal.
    change (val 8 (digits 8 4 p) = p). rewrite val_digits by lia. by apply (uw_small 32).
Qed.
End Encoded.

(** ** What a layout says

    The contents of a layout, and that its bytes say so. *)
Record view := {
  v_size : Z; v_align : Z; v_haspadding : bool; v_isbitsegal : bool; v_fd : Z; v_arrayelem : Z; v_unused : Z;
  v_desc : list jl_fielddesc32_t; v_npointers : Z; v_first : Z; v_ptrs : list Z;
}.

Definition v_flags (v : view) : Z := layout_flags (v_haspadding v) (v_isbitsegal v) (v_fd v) (v_arrayelem v) (v_unused v).

(** The first pointer is also in the table; -1 when there is no table. *)
Definition first_ok (v : view) : Prop :=
  match v_ptrs v with [] => v_first v = -1 | p :: _ => v_first v = p /\ 0 <= p < 2 ^ 31 /\ v_npointers v = Z.of_nat (length (v_ptrs v)) end.

Record encodable (v : view) : Prop := {
  e_fd : valid_fd (v_fd v);
  e_size : in_range 32 (v_size v);
  e_align : in_range 16 (v_align v);
  e_nfields : in_range 32 (Z.of_nat (length (v_desc v)));
  e_npointers : in_range 32 (v_npointers v);
  e_first : first_ok v;
  e_elem : in_range 4 (v_arrayelem v);
  e_unused : in_range 3 (v_unused v);
  e_desc : Forall (desc_fits (v_fd v)) (v_desc v);
  e_ptrs : Forall (ptr_fits (v_fd v)) (v_ptrs v);
}.

Definition encode (v : view) : list Z :=
  encoded (v_fd v) (v_size v) (Z.of_nat (length (v_desc v))) (v_npointers v) (v_first v) (v_align v) (v_flags v) (v_desc v) (v_ptrs v).

Record decodes (l : list Z) (v : view) : Prop := {
  d_size : l_size l = Some (v_size v);
  d_nfields : l_nfields l = Some (Z.of_nat (length (v_desc v)));
  d_npointers : l_npointers l = Some (v_npointers v);
  d_first : l_first_ptr l = Some (v_first v);
  d_align : l_alignment l = Some (v_align v);
  d_flags : l_flags l = Some (v_flags v);
  d_ptrs : jl_dt_layout_ptrs l = Some (20 + Z.of_nat (fd_size (v_fd v) * length (v_desc v)));
  d_offset i d : v_desc v !! i = Some d -> jl_field_offset l (Z.of_nat i) = Some (offset d);
  d_fsize i d : v_desc v !! i = Some d -> jl_field_size l (Z.of_nat i) = Some (fsize d);
  d_isptr i d : v_desc v !! i = Some d -> jl_field_isptr l (Z.of_nat i) = Some (isptr d);
  d_ptr i p : v_ptrs v !! i = Some p -> jl_ptr_offset l (Z.of_nat i) = Some p;
}.

(** The flags of 16 bits, bit by bit. *)
Lemma flags_spec hp be t el un : valid_fd t -> in_range 4 el -> in_range 3 un ->
  let f := layout_flags hp be t el un in
  in_range 16 f /\ flag_haspadding f = hp /\ flag_fielddesc_type f = t /\ flag_isbitsegal f = be /\ flag_unused_bits f = un /\
  Z.testbit f 3 = Z.testbit el 0 /\ Z.testbit f 4 = Z.testbit el 1.
Proof.
  intros Ht He Hu f.
  assert (forall hp be t el un, t ∈ [0; 1; 2] -> el ∈ map Z.of_nat (seq 0 16) -> un ∈ map Z.of_nat (seq 0 8) ->
    let f := layout_flags hp be t el un in
    (0 <=? f) && (f <? 65536) && eqb (flag_haspadding f) hp && (flag_fielddesc_type f =? t) && eqb (flag_isbitsegal f) be && (flag_unused_bits f =? un) &&
    eqb (Z.testbit f 3) (Z.testbit el 0) && eqb (Z.testbit f 4) (Z.testbit el 1) = true) as Hall.
  { clear. intros hp be t el un. rewrite !list_elem_of_In. intros Ht He Hu.
    assert (forallb (fun hp => forallb (fun be => forallb (fun t => forallb (fun el => forallb (fun un =>
      let f := layout_flags hp be t el un in
      (0 <=? f) && (f <? 65536) && eqb (flag_haspadding f) hp && (flag_fielddesc_type f =? t) && eqb (flag_isbitsegal f) be && (flag_unused_bits f =? un) &&
      eqb (Z.testbit f 3) (Z.testbit el 0) && eqb (Z.testbit f 4) (Z.testbit el 1))
      (map Z.of_nat (seq 0 8))) (map Z.of_nat (seq 0 16))) [0; 1; 2]) [true; false]) [true; false] = true) as Hc by (vm_compute; reflexivity).
    rewrite forallb_forall in Hc. specialize (Hc hp ltac:(destruct hp; simpl; auto)). rewrite forallb_forall in Hc.
    specialize (Hc be ltac:(destruct be; simpl; auto)). rewrite forallb_forall in Hc. specialize (Hc t Ht). rewrite forallb_forall in Hc.
    specialize (Hc el He). rewrite forallb_forall in Hc. exact (Hc un Hu). }
  assert (forall x (n : nat), in_range (Z.log2 (Z.of_nat n)) x -> 2 ^ Z.log2 (Z.of_nat n) = Z.of_nat n -> x ∈ map Z.of_nat (seq 0 n)) as Hin.
  { intros x n [H1 H2] E. rewrite E in H2. apply list_elem_of_In, in_map_iff. exists (Z.to_nat x). split; [lia|]. apply in_seq. lia. }
  specialize (Hall hp be t el un). fold f in Hall. cbv zeta in Hall.
  rewrite !andb_true_iff, !Z.eqb_eq, !eqb_true_iff in Hall. destruct Hall as [[[[[[[H1%Z.leb_le H2%Z.ltb_lt] H3] H4] H5] H6] H7] H8].
  - destruct Ht as [->|[->| ->]]; set_solver.
  - by apply (Hin el 16%nat).
  - by apply (Hin un 8%nat).
  - split_and!; try done.
Qed.

Lemma encode_decodes v : encodable v -> decodes (encode v) v.
Proof.
  intros [Hfd Hsz Hal Hnf Hnp Hfp Hel Hun Hd Hp].
  destruct (flags_spec (v_haspadding v) (v_isbitsegal v) (v_fd v) (v_arrayelem v) (v_unused v) Hfd Hel Hun) as (F1 & _ & F2 & _).
  fold (v_flags v) in F1, F2.
  assert (sw 32 (v_first v) = v_first v) as Es.
  { apply sw_small; [lia|]. unfold first_ok in Hfp. destruct (v_ptrs v); [rewrite Hfp; cbn; lia|]. destruct Hfp as (-> & ? & _). change (2 ^ (32 - 1)) with (2 ^ 31). lia. }
  split; unfold encode.
  - by apply enc_size.
  - by apply enc_nfields.
  - by apply enc_npointers.
  - by rewrite enc_first_ptr, Es.
  - by apply enc_alignment.
  - by apply enc_flags.
  - by apply enc_ptrs.
  - intros i d Hi. by apply enc_field_offset.
  - intros i d Hi. by apply enc_field_size.
  - intros i d Hi. by apply enc_field_isptr.
  - intros i p Hi. apply enc_ptr_offset; try done. unfold first_ok in Hfp. destruct (v_ptrs v); [done|apply Hfp].
Qed.
