(* ===== verification/Datatype.v ===== *)
(** * Field offsets and layouts of data types (datatype.c)

    The data types are a heap: types refer to each other by index. A layout is
    computed when it is first asked for, and stored in the type, so that the
    functions below pass the world along. [None] is a failed assertion, an
    access outside an array or a recursion deeper than the fuel; [Throw] is a
    Julia error. *)
From stdpp Require Import gmap.
From S2P Require Import Prelude Htable Layout.

(** ** Types *)

Inductive jl_value_t :=
| Datatype (d : nat)
| Uniontype (a b : jl_value_t)
| Unionall (body : jl_value_t)
| TypeEq (T : jl_value_t)
| TypeEgal (T : jl_value_t)
| Bottom
| Typevar (v : nat)
| Vararg (T : jl_value_t)
| Symbol (s : nat)
| Addrspace (n : Z)       (* a Core.AddrSpace{Core} *)
| Value (n : nat).        (* any other value, which is no type *)
#[global] Instance jl_value_eq_dec : EqDecision jl_value_t.
Proof. solve_decision. Defined.

(** The type names the code compares with. *)
Inductive typename_id := jl_genericmemory_typename | jl_tuple_typename | jl_vecelement_typename | Other_typename (n : nat).
#[global] Instance typename_id_eq_dec : EqDecision typename_id.
Proof. solve_decision. Defined.

(** A type name; [wrapper] is the data type inside the wrapper's [where]s. *)
Record jl_typename_t := {
  tn_id : typename_id; wrapper : option nat; mutabl : bool; mayinlinealloc : bool;
  n_uninitialized : Z; atomicfields : option (list Z); constfields : option (list Z);
}.

(** [layout] is the address of the layout, 0 for NULL; [instance] tells whether
    there is one. *)
Record jl_datatype_t := {
  name : jl_typename_t; parameters : list jl_value_t; types : option (list jl_value_t);
  layout : Z; instance : bool; isconcretetype : bool; isprimitivetype : bool;
  isbitstype : bool; zeroinit : bool; has_concrete_subtype : bool; ismutationfree : bool; isidentityfree : bool;
}.

Record world := {
  dts : list jl_datatype_t;
  lmem : gmap Z (list Z);            (* the layouts, by address *)
  lnext : Z;                         (* where the next one is allocated *)
  layoutcache : htable_t; layoutcache_initialized : bool;
}.

(** The types that the code compares with, and two questions that other files
    answer about types that are not concrete (jltypes.c). *)
Record type_env := {
  jl_any_type : nat; jl_symbol_type : nat; jl_bool_type : nat; jl_string_type : nat;
  jl_simplevector_type : nat; jl_module_type : nat; jl_typeofbottom_type : nat; jl_kinds : list nat;
  jl_atomic_sym : nat; jl_not_atomic_sym : nat;
  fixed_layout_abstract : nat -> bool;
  jl_has_free_typevars : nat -> bool;
}.

(** ** The state and error monad *)

Inductive res (A : Type) := Ok (a : A) (w : world) | Throw (w : world).
Arguments Ok {A} a w.
Arguments Throw {A} w.
Definition M (A : Type) : Type := world -> option (res A).
Definition ret {A} (a : A) : M A := fun w => Some (Ok a w).
Definition bind {A B} (m : M A) (k : A -> M B) : M B := fun w =>
  match m w with Some (Ok a w) => k a w | Some (Throw w) => Some (Throw w) | None => None end.
Definition throw {A} : M A := fun w => Some (Throw w).
Definition assert_ (b : bool) : M unit := fun w => if b then Some (Ok tt w) else None.
Definition lift {A} (o : option A) : M A := fun w => match o with Some a => Some (Ok a w) | None => None end.
Declare Scope layout_scope.
Delimit Scope layout_scope with layout.
Notation "'let!' x := m 'in' k" := (bind m (fun x => k))
  (at level 200, x pattern, m at level 100, k at level 200, right associativity) : layout_scope.
#[local] Open Scope layout_scope.

Definition dt_at (d : nat) : M jl_datatype_t := fun w => t ← dts w !! d; Some (Ok t w).
Definition set_dts (f : list jl_datatype_t -> list jl_datatype_t) (w : world) : world :=
  {| dts := f (dts w); lmem := lmem w; lnext := lnext w; layoutcache := layoutcache w; layoutcache_initialized := layoutcache_initialized w |}.
Definition update (d : nat) (f : jl_datatype_t -> jl_datatype_t) : M unit := fun w => t ← dts w !! d; Some (Ok tt (set_dts (insert d (f t)) w)).
(** The bytes of a layout. *)
Definition layout_bytes (a : Z) : M (list Z) := fun w => l ← lmem w !! a; Some (Ok l w).

Definition set_layout (a : Z) (t : jl_datatype_t) : jl_datatype_t :=
  {| name := name t; parameters := parameters t; types := types t; layout := a; instance := instance t; isconcretetype := isconcretetype t;
     isprimitivetype := isprimitivetype t; isbitstype := isbitstype t; zeroinit := zeroinit t; has_concrete_subtype := has_concrete_subtype t;
     ismutationfree := ismutationfree t; isidentityfree := isidentityfree t |}.
Definition set_instance (t : jl_datatype_t) : jl_datatype_t :=
  {| name := name t; parameters := parameters t; types := types t; layout := layout t; instance := true; isconcretetype := isconcretetype t;
     isprimitivetype := isprimitivetype t; isbitstype := isbitstype t; zeroinit := zeroinit t; has_concrete_subtype := has_concrete_subtype t;
     ismutationfree := ismutationfree t; isidentityfree := isidentityfree t |}.
Definition set_zeroinit (b : bool) (t : jl_datatype_t) : jl_datatype_t :=
  {| name := name t; parameters := parameters t; types := types t; layout := layout t; instance := instance t; isconcretetype := isconcretetype t;
     isprimitivetype := isprimitivetype t; isbitstype := isbitstype t; zeroinit := b; has_concrete_subtype := has_concrete_subtype t;
     ismutationfree := ismutationfree t; isidentityfree := isidentityfree t |}.
Definition set_has_concrete_subtype (b : bool) (t : jl_datatype_t) : jl_datatype_t :=
  {| name := name t; parameters := parameters t; types := types t; layout := layout t; instance := instance t; isconcretetype := isconcretetype t;
     isprimitivetype := isprimitivetype t; isbitstype := isbitstype t; zeroinit := zeroinit t; has_concrete_subtype := b;
     ismutationfree := ismutationfree t; isidentityfree := isidentityfree t |}.
Definition set_isbitstype (b : bool) (t : jl_datatype_t) : jl_datatype_t :=
  {| name := name t; parameters := parameters t; types := types t; layout := layout t; instance := instance t; isconcretetype := isconcretetype t;
     isprimitivetype := isprimitivetype t; isbitstype := b; zeroinit := zeroinit t; has_concrete_subtype := has_concrete_subtype t;
     ismutationfree := ismutationfree t; isidentityfree := isidentityfree t |}.
Definition set_free (mutationfree identityfree : bool) (t : jl_datatype_t) : jl_datatype_t :=
  {| name := name t; parameters := parameters t; types := types t; layout := layout t; instance := instance t; isconcretetype := isconcretetype t;
     isprimitivetype := isprimitivetype t; isbitstype := isbitstype t; zeroinit := zeroinit t; has_concrete_subtype := has_concrete_subtype t;
     ismutationfree := mutationfree; isidentityfree := identityfree |}.

(** * Layouts: the cache and the static ones *)

Definition LLT_ALIGN (x sz : Z) : Z := Z.land (u64 (x + sz - 1)) (u64 (Z.lnot (sz - 1))).
Definition MAX_ALIGN : Z := 16.
Definition MAX_ATOMIC_SIZE : Z := 16.
Definition JL_SMALL_BYTE_ALIGNMENT : Z := 16.
Definition sizeof_mutex : Z := 16.
Definition sizeof_ptr : Z := 8.

(** A fresh address for a layout that is not in the cache; a temporary one is
    dropped when the layout is. *)
Definition jl_get_layout (sz nfields npointers alignment : Z) (haspadding isbitsegal : bool) (arrayelem unused_bits : Z)
  (desc : list jl_fielddesc32_t) (pointers : list Z) : M Z :=
  let! l := lift (make_layout (u32 sz) (u32 nfields) (u32 npointers) (u32 alignment) haspadding isbitsegal arrayelem unused_bits desc pointers) in
  fun w =>
    let cache := if layoutcache_initialized w then layoutcache w else htable_new 4096 in
    let flddesc := lnext w in
    let mem := <[flddesc := l]> (lmem w) in
    ret_ ← layoutcache_get_r mem cache flddesc;
    if ret_ =? HT_NOTFOUND then
      cache ← layoutcache_put_r mem cache flddesc flddesc;
      Some (Ok flddesc {| dts := dts w; lmem := mem; lnext := flddesc + 16 * (Z.of_nat (length l) / 16 + 1); layoutcache := cache; layoutcache_initialized := true |})
    else Some (Ok ret_ {| dts := dts w; lmem := lmem w; lnext := lnext w; layoutcache := cache; layoutcache_initialized := true |}).

(** The static layouts of datatype.c, at addresses of their own. *)
Definition static_layout (npointers alignment : Z) (isbitsegal : bool) : list Z :=
  digits 8 4 0 ++ digits 8 4 0 ++ digits 8 4 npointers ++ digits 8 4 (-1) ++ digits 8 2 alignment ++ digits 8 2 (layout_flags false isbitsegal 0 0 0).
Definition opaque_byte_layout : Z := 16.
Definition opaque_ptr_layout : Z := 48.
Definition singleton_layout : Z := 80.
Definition memory_opaque_ptr_layout : Z := 112.
Definition static_layouts : gmap Z (list Z) :=
  <[opaque_byte_layout := static_layout 1 1 true]> (<[opaque_ptr_layout := static_layout 1 8 true]>
  (<[singleton_layout := static_layout 0 1 true]> (<[memory_opaque_ptr_layout := static_layout 1 8 false]> ∅))).

(** ** Questions about types (julia.h, datatype.c) *)

Section Types.
Context (env : type_env).

Definition jl_is_datatype (t : jl_value_t) : bool := match t with Datatype _ => true | _ => false end.
Definition jl_is_uniontype (t : jl_value_t) : bool := match t with Uniontype _ _ => true | _ => false end.
Definition jl_is_type (t : jl_value_t) : bool :=
  match t with Datatype _ | Uniontype _ _ | Unionall _ | TypeEq _ | TypeEgal _ | Bottom => true | _ => false end.
Fixpoint jl_unwrap_unionall (t : jl_value_t) : jl_value_t := match t with Unionall b => jl_unwrap_unionall b | t => t end.
Definition normalize_typeofbottom_layout_alias (t : jl_value_t) : jl_value_t :=
  match t with TypeEq Bottom => Datatype (jl_typeofbottom_type env) | t => t end.

(** The layout of the type, or of its wrapper when it has none of its own. *)
Definition jl_datatype_layout (d : nat) : M (list Z) :=
  let! t := dt_at d in
  let wrap := (let! wd := lift (wrapper (name t)) in let! wt := dt_at wd in layout_bytes (layout wt)) in
  if layout t =? 0 then wrap else
  let! l := layout_bytes (layout t) in
  let! o := lift (jl_is_layout_opaque l) in
  if o : bool then wrap else ret l.
Definition jl_datatype_size (d : nat) : M Z := let! l := jl_datatype_layout d in lift (l_size l).
Definition jl_datatype_align (d : nat) : M Z := let! l := jl_datatype_layout d in lift (l_alignment l).
Definition jl_datatype_nfields (d : nat) : M Z := let! l := jl_datatype_layout d in lift (l_nfields l).
Definition jl_datatype_nbits (d : nat) : M Z :=
  let! l := jl_datatype_layout d in let! s := lift (l_size l) in let! f := lift (l_flags l) in ret (u32 (s * 8 - flag_unused_bits f)).

Definition field_bit (fields : option (list Z)) (i : nat) : M bool :=
  match fields with
  | None => ret false
  | Some ws => let! x := lift (ws !! (i / 32)%nat) in ret (Z.testbit x (Z.of_nat (i mod 32)))
  end.
Definition jl_field_isatomic (t : jl_datatype_t) (i : nat) : M bool := field_bit (atomicfields (name t)) i.
Definition jl_field_isconst (t : jl_datatype_t) (i : nat) : M bool :=
  if negb (mutabl (name t)) then ret true else field_bit (constfields (name t)) i.

Definition jl_is_datatype_singleton (d : nat) : M bool :=
  let! t := dt_at d in
  if negb (instance t) then ret false else
  let! l := layout_bytes (layout t) in let! s := lift (l_size l) in let! np := lift (l_npointers l) in
  ret ((s =? 0) && (np =? 0)).

Definition jl_isbits (t : jl_value_t) : M bool :=
  match t with Datatype d => let! t := dt_at d in ret (isbitstype t) | _ => ret false end.

(** [||] and [&&] in the order of the code. *)
Definition or_ (a b : M bool) : M bool := let! x := a in if x : bool then ret true else b.
Definition and_ (a b : M bool) : M bool := let! x := a in if x : bool then b else ret false.

Fixpoint jl_pointer_egal (t : jl_value_t) : M bool :=
  if decide (t = Datatype (jl_any_type env)) then ret false else
  if decide (t = Datatype (jl_symbol_type env)) then ret true else
  if decide (t = Datatype (jl_bool_type env)) then ret true else
  or_ (match jl_unwrap_unionall t with
       | Datatype d => let! u := dt_at d in
           ret (mutabl (name u) && negb (bool_decide (t = Datatype (jl_string_type env))) &&
                negb (bool_decide (t = Datatype (jl_simplevector_type env))) &&
                negb (match t with Datatype d => bool_decide (d ∈ jl_kinds env) | _ => false end))
       | _ => ret false
       end)
  (or_ (match t with
        | Datatype d => jl_is_datatype_singleton d
        | TypeEq Bottom | TypeEgal Bottom => ret true
        | _ => ret false
        end)
  (or_ (match t with
        | TypeEgal (Datatype d) =>
            if decide (d = jl_typeofbottom_type env) then ret false
            else let! u := dt_at d in ret (isconcretetype u || (length (parameters u) =? 0)%nat)
        | _ => ret false
        end)
       (match t with Uniontype a b => and_ (jl_pointer_egal a) (jl_pointer_egal b) | _ => ret false end))).

Fixpoint is_type_mutationfree (t : jl_value_t) : M bool :=
  match t with
  | Unionall b => is_type_mutationfree b
  | Uniontype a b => and_ (is_type_mutationfree a) (is_type_mutationfree b)
  | Datatype d => let! t := dt_at d in ret (ismutationfree t)
  | TypeEq Bottom => let! t := dt_at (jl_typeofbottom_type env) in ret (ismutationfree t)
  | _ => ret false
  end.
Fixpoint is_type_identityfree (t : jl_value_t) : M bool :=
  match t with
  | Unionall b => is_type_identityfree b
  | Uniontype a b => and_ (is_type_identityfree a) (is_type_identityfree b)
  | Datatype d => let! t := dt_at d in ret (isidentityfree t)
  | TypeEq Bottom => let! t := dt_at (jl_typeofbottom_type env) in ret (isidentityfree t)
  | _ => ret false
  end.

(** Whether a type that is not concrete has a fixed layout otherwise needs its
    field types to be instantiated (jltypes.c). *)
Definition jl_has_fixed_layout (d : nat) : M bool :=
  let! t := dt_at d in
  if isconcretetype t && (match types t with Some _ => true | None => false end) then ret true
  else if decide (tn_id (name t) = jl_genericmemory_typename) then ret false
  else if negb (layout t =? 0) then ret true
  else ret (fixed_layout_abstract env d).

Definition jl_is_datatype_make_singleton (d : nat) : M bool :=
  let! t := dt_at d in
  if (layout t =? 0) || negb (isconcretetype t) then ret false else
  let! s := jl_datatype_size d in
  let! l := layout_bytes (layout t) in let! np := lift (l_npointers l) in
  ret ((s =? 0) && (np =? 0) && negb (mutabl (name t))).
Definition jl_maybe_allocate_singleton_instance (d : nat) : M unit :=
  let! t := dt_at d in
  if instance t then ret tt else
  let! b := jl_is_datatype_make_singleton d in
  if b : bool then update d set_instance else ret tt.

Definition jl_special_vector_alignment (nfields : Z) (t : jl_value_t) : M Z :=
  match t with
  | Datatype d =>
      let! dt := dt_at d in
      if negb (bool_decide (tn_id (name dt) = jl_vecelement_typename)) then ret 0 else
      let! nf := jl_datatype_nfields d in
      let! _ := assert_ (nf =? 1) in
      let! ty := lift (ts ← types dt; ts !! 0%nat) in
      match ty with
      | Datatype e =>
          let! et := dt_at e in
          if negb (isprimitivetype et) then ret 0 else
          let! elsz := jl_datatype_size e in
          if negb (next_power_of_two elsz =? elsz) then ret 0 else
          let! nb := jl_datatype_nbits e in
          if negb (nb =? elsz * 8) then ret 0 else
          ret (next_power_of_two (u32 (nfields * elsz)))
      | _ => ret 0
      end
  | _ => ret 0
  end.
End Types.

(** ** Inline allocation *)

Section Inline.
Context (env : type_env).
(** The recursive call. *)
Context (jl_struct_try_layout : nat -> M bool).

Definition jl_datatype_isinlinealloc (d : nat) (pointerfree : bool) : M bool :=
  let! ty := dt_at d in
  if negb (mayinlinealloc (name ty)) then ret false else
  let! ok := jl_struct_try_layout d in
  if negb ok then ret false else
  let! ty := dt_at d in
  let! l := layout_bytes (layout ty) in
  let! np := lift (l_npointers l) in
  if 0 <? np then
    if pointerfree then ret false
    else if negb (n_uninitialized (name ty) =? 0) then ret false
    else let! f := lift (l_flags l) in
         let t := flag_fielddesc_type f in
         ret ((t =? JL_FIELDDESC_8) || (t =? JL_FIELDDESC_16))
  else ret true.

(** The count, with [*nbytes] and [*align] after the call. *)
Fixpoint union_isinlinable (ty : jl_value_t) (pointerfree : bool) (nbytes align : Z) (asfield : bool) : M (Z * Z * Z) :=
  match ty with
  | Uniontype a b =>
      let! (na, nbytes, align) := union_isinlinable a true nbytes align asfield in
      if na =? 0 then ret (0, nbytes, align) else
      let! (nb, nbytes, align) := union_isinlinable b true nbytes align asfield in
      if nb =? 0 then ret (0, nbytes, align) else ret (u32 (na + nb), nbytes, align)
  | _ =>
  match normalize_typeofbottom_layout_alias env ty with
  | Datatype d =>
      let! ok := jl_datatype_isinlinealloc d pointerfree in
      if negb ok then ret (0, nbytes, align) else
      let! sz := jl_datatype_size d in
      let! al := jl_datatype_align d in
      let! t := dt_at d in
      let sz := if asfield && isprimitivetype t then LLT_ALIGN sz al else sz in
      ret (1, if nbytes <? sz then sz else nbytes, if align <? al then al else align)
  | _ => ret (0, nbytes, align)
  end
  end.

Definition jl_uniontype_size (ty : jl_value_t) (sz : Z) : M (bool * Z) :=
  let! (n, sz, _) := union_isinlinable ty false sz 0 false in ret (negb (n =? 0), sz).

Definition jl_islayout_inline (eltype : jl_value_t) (fsz al : Z) : M (Z * Z * Z) :=
  let! (countbits, fsz, al) := union_isinlinable eltype false fsz al true in
  ret (if (0 <? countbits) && (countbits <? 127) then countbits else 0, fsz, al).
Definition jl_stored_inline (eltype : jl_value_t) : M bool :=
  let! (n, _, _) := jl_islayout_inline eltype 0 0 in ret (negb (n =? 0)).

(** ** Memories *)

(** The pointer offsets of the element type. *)
Fixpoint ptr_offsets (l : list Z) (js : list nat) : M (list Z) :=
  match js with
  | [] => ret []
  | j :: js => let! p := lift (jl_ptr_offset l (Z.of_nat j)) in let! ps := ptr_offsets l js in ret (p :: ps)
  end.

Definition memory_addrspace0 (v : jl_value_t) : bool := match v with Addrspace n => n =? 0 | _ => false end.

(** The middle of [jl_get_genericmemory_layout]: the size, the alignment,
    [zeroinit], the pointers and the lock of the elements. *)
Definition elem_part (eltype : jl_value_t) (isunboxed isunion isatomic : bool) (elsz al : Z) : M (Z * Z * bool * option (list Z) * bool) :=
  if isunboxed then
    let elsz := LLT_ALIGN elsz al in
    let needlock := isatomic && (MAX_ATOMIC_SIZE <? elsz) in
    let '(al, elsz) := if isatomic && negb needlock && (0 <? elsz) then (next_power_of_two (u32 elsz), next_power_of_two (u32 elsz)) else (al, elsz) in
    let! (zi, pointers) :=
      if isunion then ret (true, None)
      else match eltype with
        | Datatype d =>
            let! e := dt_at d in
            let! l := layout_bytes (layout e) in
            let! fp := lift (l_first_ptr l) in
            if 0 <=? fp then
              let! np := lift (l_npointers l) in
              let! f := lift (l_flags l) in
              let! _ := assert_ (negb (flag_fielddesc_type f =? JL_FIELDDESC_FOREIGN)) in
              let! ps := ptr_offsets l (seq 0 (Z.to_nat np)) in
              ret (zeroinit e, Some ps)
            else ret (zeroinit e, None)
        | _ => lift None
        end in
    if needlock then
      let! _ := assert_ (al <=? JL_SMALL_BYTE_ALIGNMENT) in
      let lock_offset := LLT_ALIGN sizeof_mutex JL_SMALL_BYTE_ALIGNMENT in
      let elsz := u64 (elsz + lock_offset) in
      let '(al, elsz) := if al <? sizeof_ptr then (sizeof_ptr, LLT_ALIGN elsz sizeof_ptr) else (al, elsz) in
      ret (elsz, al, true, fmap (M := option) (map (fun p => u32 (p + lock_offset / sizeof_ptr))) pointers, needlock)
    else ret (elsz, al, zi, pointers, needlock)
  else ret (sizeof_ptr, sizeof_ptr, true, None, false).

Definition jl_get_genericmemory_layout (st : nat) : M unit :=
  let! t := dt_at st in
  let! kind := lift (parameters t !! 0%nat) in
  let! eltype := lift (parameters t !! 1%nat) in
  let eltype := normalize_typeofbottom_layout_alias env eltype in
  let! addrspace := lift (parameters t !! 2%nat) in
  if negb (isconcretetype t) then ret tt else
  if negb (jl_is_type eltype) then
    let! _ := update st (set_layout memory_opaque_ptr_layout) in update st (set_has_concrete_subtype false)
  else
  let isatomic := bool_decide (kind = Symbol (jl_atomic_sym env)) in
  let! (n, elsz, al) := jl_islayout_inline eltype 0 1 in
  let isunboxed := negb (n =? 0) && (negb isatomic || jl_is_datatype eltype) in
  let isunion := isunboxed && jl_is_uniontype eltype in
  let! (elsz, al, zi, pointers, needlock) := elem_part eltype isunboxed isunion isatomic elsz al in
  let arrayelem := b2z (negb isunboxed) + 2 * b2z isunion + (if isatomic then 4 + 8 * b2z needlock else 0) in
  let! t := dt_at st in
  let! _ := assert_ (layout t =? 0) in
  (* without pointers, npointers is 1 and first_ptr -1 *)
  let pointers := match pointers with Some ps => ps | None => [u32 (-1)] end in
  let! a := jl_get_layout elsz 0 (Z.of_nat (length pointers)) al true false arrayelem 0 [] pointers in
  let! _ := update st (set_layout a) in
  let! _ := update st (set_zeroinit zi) in
  if memory_addrspace0 addrspace && (bool_decide (kind = Symbol (jl_not_atomic_sym env)) || isatomic) then
    let! t := dt_at st in
    let! _ := assert_ (negb (instance t)) in
    update st set_instance
  else ret tt.

(** ** Structs *)

Record loop_state := {
  sz : Z; alignm : Z; zeroinit_ : bool; haspadding : bool; isbitsegal : bool; homogeneous : bool; needlock : bool;
  npointers : Z; desc : list jl_fielddesc32_t;
}.

Definition max_offset : Z := 2 ^ 32 - 1.
Definition max_size : Z := Z.shiftr max_offset 1.

(** The size, alignment and pointers of a field that is stored inline, or of a
    pointer; whether it needs zeroing, has padding and compares by bits. *)
Definition field_kind (st : jl_datatype_t) (nfields i : nat) (fld : jl_value_t) (isatomic : bool) (s : loop_state) :
  M (bool * Z * Z * loop_state) :=
  let layout_fld := normalize_typeofbottom_layout_alias env fld in
  let! (n, fsz, al) := jl_islayout_inline fld 0 1 in
  if negb (n =? 0) && (negb isatomic || jl_is_datatype layout_fld) then
    if max_size <? fsz then throw else
    if jl_is_uniontype fld then
      ret (false, u64 (fsz + 1), al,
        {| sz := sz s; alignm := alignm s; zeroinit_ := true; haspadding := haspadding s; isbitsegal := false;
           homogeneous := homogeneous s; needlock := needlock s; npointers := npointers s; desc := desc s |})
    else match layout_fld with
      | Datatype d =>
          let! dsz := jl_datatype_size d in
          let pad := dsz <? fsz in
          let! e := dt_at d in
          let! l := layout_bytes (layout e) in
          let! np := lift (l_npointers l) in
          let! f := lift (l_flags l) in
          let undef := (Z.of_nat nfields - n_uninitialized (name st) <=? Z.of_nat i) && negb (np =? 0) && negb (np * sizeof_ptr =? fsz) in
          ret (false, fsz, al,
            {| sz := sz s; alignm := alignm s; zeroinit_ := zeroinit_ s || zeroinit e;
               haspadding := haspadding s || pad || flag_haspadding f;
               isbitsegal := isbitsegal s && negb pad && flag_isbitsegal f && negb undef;
               homogeneous := homogeneous s; needlock := needlock s; npointers := u32 (npointers s + np); desc := desc s |})
      | _ => lift None
      end
  else
    let! pe := jl_pointer_egal env fld in
    ret (true, sizeof_ptr, if MAX_ALIGN <? sizeof_ptr then MAX_ALIGN else sizeof_ptr,
      {| sz := sz s; alignm := alignm s; zeroinit_ := true; haspadding := haspadding s; isbitsegal := isbitsegal s && pe;
         homogeneous := homogeneous s; needlock := needlock s; npointers := u32 (npointers s + 1); desc := desc s |}).

(** One round of the loop over the fields. *)
Definition field_step (st : jl_datatype_t) (nfields i : nat) (firstty fld : jl_value_t) (s : loop_state) : M loop_state :=
  let! isatomic := jl_field_isatomic st i in
  let! (ptr, fsz, al, s) := field_kind st nfields i fld isatomic s in
  let needlock := needlock s || (isatomic && (MAX_ATOMIC_SIZE <? fsz)) in
  let '(al, fsz) := if isatomic && (fsz <=? MAX_ATOMIC_SIZE) then (next_power_of_two (u32 fsz), next_power_of_two (u32 fsz)) else (al, fsz) in
  let '(sz_, pad, alignm_) :=
    if negb (al =? 0) then
      let alsz := LLT_ALIGN (sz s) al in
      (alsz, negb (alsz =? sz s), if alignm s <? al then al else alignm s)
    else (sz s, false, alignm s) in
  if u64 (max_offset - sz_) <? fsz then throw else
  ret {| sz := u64 (sz_ + fsz); alignm := alignm_; zeroinit_ := zeroinit_ s; haspadding := haspadding s || pad; isbitsegal := isbitsegal s;
         homogeneous := homogeneous s && bool_decide (firstty = fld); needlock := needlock; npointers := npointers s;
         desc := desc s ++ [{| isptr := ptr; fsize := uw 31 fsz; offset := u32 sz_ |}] |}.

Fixpoint fields_loop (st : jl_datatype_t) (nfields i : nat) (firstty : jl_value_t) (flds : list jl_value_t) (s : loop_state) : M loop_state :=
  match flds with
  | [] => ret s
  | fld :: flds => let! s := field_step st nfields i firstty fld s in fields_loop st nfields (S i) firstty flds s
  end.

(** The pointers of the fields, in order. *)
Fixpoint fields_pointers (flds : list jl_value_t) (desc : list jl_fielddesc32_t) : M (list Z) :=
  match flds, desc with
  | fld :: flds, d :: desc =>
      let off := offset d / sizeof_ptr in
      let! ps :=
        if isptr d then ret [off]
        else match normalize_typeofbottom_layout_alias env fld with
          | Datatype e =>
              let! t := dt_at e in
              let! l := layout_bytes (layout t) in
              let! np := lift (l_npointers l) in
              let! js := ptr_offsets l (seq 0 (Z.to_nat (sw 32 np))) in
              ret (map (fun p => u32 (off + p)) js)
          | _ => ret []
          end in
      let! qs := fields_pointers flds desc in
      ret (ps ++ qs)
  | _, _ => ret []
  end.

(** The layout of a struct with fields, and its [zeroinit]. *)
Definition compute_layout (d : nat) (st : jl_datatype_t) (flds : list jl_value_t) : M unit :=
  let nfields := length flds in
  let! firstty := lift (flds !! 0%nat) in
  let! s := fields_loop st nfields 0 firstty flds
    {| sz := 0; alignm := 1; zeroinit_ := false; haspadding := false; isbitsegal := true; homogeneous := true; needlock := false; npointers := 0; desc := [] |} in
  let! (sz_, haspadding_, desc_) :=
    if needlock s then
      let off := LLT_ALIGN sizeof_mutex (alignm s) in
      if u64 (max_offset - sz s) <? off then throw else
      ret (u64 (sz s + off), true, map (fun f => {| isptr := isptr f; fsize := fsize f; offset := u32 (offset f + off) |}) (desc s))
    else ret (sz s, haspadding s, desc s) in
  let! alignm_ :=
    if homogeneous s && bool_decide (tn_id (name st) = jl_tuple_typename) then
      let! al := jl_special_vector_alignment (Z.of_nat nfields) firstty in
      let! _ := assert_ (al mod alignm s =? 0) in
      ret (if alignm s <? al then al else alignm s)
    else ret (alignm s) in
  let '(sz_, haspadding_) := if sz_ <? LLT_ALIGN sz_ alignm_ then (LLT_ALIGN sz_ alignm_, true) else (sz_, haspadding_) in
  let! pointers := fields_pointers flds desc_ in
  let! _ := assert_ (Z.of_nat (length pointers) =? npointers s) in
  let! a := jl_get_layout sz_ (Z.of_nat nfields) (npointers s) alignm_ haspadding_ (isbitsegal s) 0 0 desc_ pointers in
  let! _ := update d (set_layout a) in
  update d (set_zeroinit (zeroinit_ s)).

(** The loop that decides [has_concrete_subtype]. *)
Fixpoint concrete_subtype_loop (d : nat) (flds : list jl_value_t) : M unit :=
  match flds with
  | [] => ret tt
  | fld :: flds =>
      let! t := dt_at d in
      if negb (has_concrete_subtype t) then ret tt else
      let! b := match fld with
        | Bottom => ret false
        | Datatype e => let! u := dt_at e in ret (has_concrete_subtype u)
        | _ => ret true
        end in
      let! _ := update d (set_has_concrete_subtype b) in concrete_subtype_loop d flds
  end.

(** The loop that decides [isbitstype], [ismutationfree] and [isidentityfree]. *)
Fixpoint properties_loop (st : jl_datatype_t) (i : nat) (flds : list jl_value_t) (isbits mutfree idfree : bool) : M (bool * bool * bool) :=
  match flds with
  | [] => ret (isbits, mutfree, idfree)
  | fld :: flds =>
      if negb (isbits || idfree || mutfree) then ret (isbits, mutfree, idfree) else
      let! _ := match fld with
        | Datatype e =>
            if isbits then
              let! t := dt_at e in
              if (layout t =? 0) && mayinlinealloc (name t) then let! _ := jl_struct_try_layout e in ret tt else ret tt
            else ret tt
        | _ => ret tt
        end in
      let! b := jl_isbits fld in
      let! c := (if mutabl (name st) then jl_field_isconst st i else ret true) in
      let! m := (if c : bool then is_type_mutationfree env fld else ret false) in
      let! f := is_type_identityfree env fld in
      properties_loop st (S i) flds (isbits && b) (mutfree && m) (idfree && f)
  end.

Definition jl_compute_field_offsets (d : nat) : M unit :=
  let! st := dt_at d in
  match wrapper (name st) with
  | None => ret tt
  | Some w =>
      let! _ := (if bool_decide (d = w) && negb (layout st =? 0)
                 then update d (fun t => set_has_concrete_subtype true (set_zeroinit false (set_layout 0 t))) else ret tt) in
      if decide (tn_id (name st) = jl_genericmemory_typename) then jl_get_genericmemory_layout d else
      let isbits := isconcretetype st && mayinlinealloc (name st) in
      let! wt := dt_at w in
      let! wopaque := (if layout wt =? 0 then ret false else let! l := layout_bytes (layout wt) in lift (jl_is_layout_opaque l)) in
      let mutfree := (layout wt =? 0) || negb wopaque in
      let idfree := negb (mutabl (name st)) in
      if negb (layout wt =? 0) then
        let! _ := update d (fun t => set_has_concrete_subtype (has_concrete_subtype wt) (set_zeroinit (zeroinit wt) (set_layout (layout wt) t))) in
        if negb wopaque then
          let! l := layout_bytes (layout wt) in
          let! np := lift (l_npointers l) in
          let! _ := update d (set_isbitstype (isbits && (np =? 0))) in
          jl_maybe_allocate_singleton_instance d
        else ret tt
      else
      let! flds := lift (types st) in
      let! _ := assert_ (match types wt with Some _ => true | None => false end) in
      let nfields := length flds in
      let! _ := assert_ (n_uninitialized (name st) <=? Z.of_nat nfields) in
      if (nfields =? 0)%nat && (bool_decide (d = jl_symbol_type env) || bool_decide (d = jl_string_type env)) then
        update d (set_layout opaque_byte_layout)
      else if (nfields =? 0)%nat && (bool_decide (d = jl_simplevector_type env) || bool_decide (d = jl_module_type env)) then
        update d (set_layout opaque_ptr_layout)
      else
      let! go_on :=
        if (nfields =? 0)%nat then let! _ := update d (set_layout singleton_layout) in ret true
        else
          let! _ := concrete_subtype_loop d (take (Z.to_nat (Z.of_nat nfields - n_uninitialized (name st))) flds) in
          if isconcretetype st then ret true else
          let! fixed := jl_has_fixed_layout env d in
          if negb fixed && jl_has_free_typevars env d then let! _ := assert_ (bool_decide (d = w)) in ret false else ret true in
      if negb go_on then ret tt else
      let! (isbits, mutfree, idfree) := properties_loop st 0 flds isbits mutfree idfree in
      let! t := dt_at d in
      let! _ := (if layout t =? 0 then compute_layout d st flds else ret tt) in
      let! t := dt_at d in
      let! l := layout_bytes (layout t) in
      let! np := lift (l_npointers l) in
      let! _ := assert_ (negb isbits || (np =? 0)) in
      let! _ := update d (set_isbitstype isbits) in
      let! _ := update d (set_free mutfree idfree) in
      jl_maybe_allocate_singleton_instance d
  end.
End Inline.

(** Whether the layout could be computed. *)
Fixpoint jl_struct_try_layout (env : type_env) (fuel : nat) (d : nat) : M bool :=
  match fuel with
  | O => lift None
  | S fuel =>
      let! t := dt_at d in
      if negb (layout t =? 0) || bool_decide (tn_id (name t) = jl_genericmemory_typename) then ret true else
      let! fixed := jl_has_fixed_layout env d in
      if negb fixed then ret false else
      let! _ := jl_compute_field_offsets env (jl_struct_try_layout env fuel) d in
      let! t := dt_at d in
      let! _ := assert_ (negb (layout t =? 0)) in
      ret true
  end.

(** The layout part of [jl_new_primitivetype], for a type that exists. *)
Definition jl_new_primitivetype (d : nat) (nbits : Z) : M unit :=
  let nbytes := u32 (u64 (nbits + 7) / 8) in
  let unused_bits := u8 (nbytes * 8 - nbits) in
  let alignm := next_power_of_two nbytes in
  let alignm := if MAX_ALIGN <? alignm then MAX_ALIGN else alignm in
  let! t := dt_at d in
  let! _ := update d (fun t =>
    {| name := name t; parameters := parameters t; types := types t; layout := layout t; instance := instance t; isconcretetype := isconcretetype t;
       isprimitivetype := true; isbitstype := (length (parameters t) =? 0)%nat; zeroinit := zeroinit t; has_concrete_subtype := has_concrete_subtype t;
       ismutationfree := true; isidentityfree := true |}) in
  let! a := jl_get_layout nbytes 0 0 alignm (negb (unused_bits =? 0)) true 0 unused_bits [] [] in
  update d (fun t =>
    {| name := name t; parameters := parameters t; types := types t; layout := a; instance := false; isconcretetype := isconcretetype t;
       isprimitivetype := isprimitivetype t; isbitstype := isbitstype t; zeroinit := zeroinit t; has_concrete_subtype := has_concrete_subtype t;
       ismutationfree := ismutationfree t; isidentityfree := isidentityfree t |}).
