(* ===== verification/LayoutWorld.v ===== *)
(** * Layouts: worlds, what holds of them and how they grow *)
From stdpp Require Import gmap.
From Stdlib Require Import Sorting.Sorted.
From S2P Require Import Prelude Probe Htable HtableFacts Layout LayoutFacts Datatype.


(** * Layouts: the narrowest descriptors, and interning *)

(** ** Choosing the descriptors *)

Lemma foldl_max_ge l m : m <= foldl (fun m d => if m <? fsize d then fsize d else m) m l /\
  Forall (fun d => fsize d <= foldl (fun m d => if m <? fsize d then fsize d else m) m l) l.
Proof.
  revert m. induction l as [|d l IH]; intros m; [split; [done|constructor]|]. cbn [foldl].
  destruct (IH (if m <? fsize d then fsize d else m)) as [H1 H2]. destruct (Z.ltb_spec m (fsize d)).
  - split; [lia|]. by constructor.
  - split; [lia|]. constructor; [lia|done].
Qed.
Lemma foldl_max_range l m w : 0 <= w -> in_range w m -> Forall (fun d => in_range w (fsize d)) l -> in_range w (foldl (fun m d => if m <? fsize d then fsize d else m) m l).
Proof.
  intros Hw Hm Hl. revert m Hm. induction Hl as [|d l Hd _ IH]; intros m Hm; [done|]. cbn [foldl]. apply IH. by destruct (m <? fsize d).
Qed.

(** The last offset and the last pointer are the largest. *)
Definition last_max (desc : list jl_fielddesc32_t) (pointers : list Z) : Prop :=
  (forall d, last desc = Some d -> Forall (fun e => offset e <= offset d) desc) /\ (forall p, last pointers = Some p -> Forall (fun q => q <= p) pointers).

Lemma max_offset_spec desc pointers w : 0 <= w -> Forall (fun d => in_range w (offset d)) desc -> Forall (in_range w) pointers -> last_max desc pointers ->
  let m := max_offset_of desc pointers in
  in_range w m /\ Forall (fun d => offset d <= m) desc /\ Forall (fun p => p <= m) pointers.
Proof.
  intros Hw Hd Hp [Hl1 Hl2]. unfold max_offset_of. cbv zeta. set (m := match last desc with None => 0 | Some d => offset d end).
  assert (in_range w m /\ Forall (fun d => offset d <= m) desc) as [H1 H2].
  { unfold m. destruct (last desc) as [d|] eqn:E.
    - split; [|by apply Hl1]. apply last_Some_elem_of in E. rewrite Forall_forall in Hd. by apply Hd.
    - apply last_None in E as ->. split; [by apply in_range_0|constructor]. }
  destruct (last pointers) as [p|] eqn:E.
  - specialize (Hl2 p eq_refl). apply last_Some_elem_of in E. rewrite Forall_forall in Hp. specialize (Hp p E).
    destruct (Z.ltb_spec m p).
    + split_and!; [done| |done]. eapply Forall_impl; [exact H2|]. cbv beta. lia.
    + split_and!; [done..|]. eapply Forall_impl; [exact Hl2|]. cbv beta. lia.
  - apply last_None in E as ->. split_and!; [done..|constructor].
Qed.

(** The largest size and offset are there, unless there are none. *)
Lemma foldl_max_attained l m : let r := foldl (fun m d => if m <? fsize d then fsize d else m) m l in r = m \/ exists d, d ∈ l /\ fsize d = r.
Proof.
  cbv zeta. revert m. induction l as [|d l IH]; intros m; [by left|]. cbn [foldl].
  destruct (IH (if m <? fsize d then fsize d else m)) as [E|(e & He & E)]; [|right; exists e; split; [by right|done]].
  rewrite E. destruct (m <? fsize d); [right; exists d; split; [by left|done]|by left].
Qed.
Lemma max_offset_attained desc pointers : let m := max_offset_of desc pointers in m = 0 \/ (exists d, d ∈ desc /\ offset d = m) \/ m ∈ pointers.
Proof.
  unfold max_offset_of. cbv zeta. set (m := match last desc with None => 0 | Some d => offset d end).
  assert (m = 0 \/ exists d, d ∈ desc /\ offset d = m) as Hm.
  { unfold m. destruct (last desc) as [d|] eqn:E; [|by left]. right. exists d. split; [by apply last_Some_elem_of|done]. }
  destruct (last pointers) as [p|] eqn:E; [|tauto]. destruct (m <? p); [|tauto]. right; right. by apply last_Some_elem_of.
Qed.

(** The descriptors chosen are the narrowest that hold all. *)
Definition holds_all (desc : list jl_fielddesc32_t) (pointers : list Z) (t : Z) : Prop :=
  valid_fd t /\ Forall (desc_fits t) desc /\ Forall (ptr_fits t) pointers.
Lemma narrowest_descriptors desc pointers t : Forall (fun d => in_range 31 (fsize d) /\ in_range 32 (offset d)) desc -> Forall (in_range 32) pointers ->
  last_max desc pointers -> fielddesc_type_for (max_size_of desc) (max_offset_of desc pointers) = Some t ->
  holds_all desc pointers t /\ forall t', holds_all desc pointers t' -> t <= t'.
Proof.
  intros Hd Hp Hlm Et. pose proof (Forall_impl _ _ _ Hd (fun d H => proj1 H)) as Hd1. pose proof (Forall_impl _ _ _ Hd (fun d H => proj2 H)) as Hd2.
  destruct (max_offset_spec desc pointers 32 ltac:(lia) Hd2 Hp Hlm) as ([Ho _] & Ho1 & Ho2).
  assert (in_range 31 (max_size_of desc)) as [Hs _] by (apply foldl_max_range; [lia|by apply in_range_0|done]). destruct (foldl_max_ge desc 0) as [_ Hs1]. fold (max_size_of desc) in Hs1.
  split.
  - destruct (fielddesc_type_for_spec _ _ _ Hs Ho Et) as (Ht & [_ Hts] & [_ Hto]). unfold holds_all. rewrite !Forall_forall in *. split; [done|]. split.
    + intros d Hin. specialize (Hd d Hin). specialize (Hs1 d Hin). specialize (Ho1 d Hin). cbv beta in *. unfold desc_fits, in_range in *. lia.
    + intros p Hin. specialize (Hp p Hin). specialize (Ho2 p Hin). cbv beta in *. unfold ptr_fits, in_range in *. lia.
  - intros t' (Ht' & Hf1 & Hf2). rewrite !Forall_forall in *. apply (fielddesc_type_for_least _ _ _ _ Et Ht').
    + destruct (foldl_max_attained desc 0) as [E|(d & Hin & E)]; fold (max_size_of desc) in E; [rewrite E; apply in_range_0; by destruct Ht' as [->|[->| ->]]|].
      rewrite <- E. by apply Hf1.
    + destruct (max_offset_attained desc pointers) as [E|[(d & Hin & E)|Hin]]; [rewrite E; apply in_range_0; by destruct Ht' as [->|[->| ->]]|rewrite <- E; by apply Hf1|by apply Hf2].
Qed.

(** The pointers of [jl_get_layout]: none, or the table, or the one word of a
    memory without pointers. *)
Definition pointers_ok (npointers : Z) (pointers : list Z) : Prop :=
  pointers = [2 ^ 32 - 1] \/ match pointers with [] => True | p :: _ => p < 2 ^ 31 /\ npointers = Z.of_nat (length pointers) end.
Definition table_of (pointers : list Z) : list Z := if decide (pointers = [2 ^ 32 - 1]) then [] else pointers.

Definition view_of (sz npointers alignment : Z) (hp be : bool) (el un : Z) (desc : list jl_fielddesc32_t) (pointers : list Z) (t : Z) : view :=
  {| v_size := sz; v_align := alignment; v_haspadding := hp; v_isbitsegal := be; v_fd := t; v_arrayelem := el; v_unused := un; v_desc := desc;
     v_npointers := npointers; v_first := match table_of pointers with [] => -1 | p :: _ => p end; v_ptrs := table_of pointers |}.

Lemma make_layout_spec sz nfields npointers alignment hp be el un desc pointers :
  in_range 32 sz -> nfields = Z.of_nat (length desc) -> in_range 32 nfields -> in_range 32 npointers -> 0 < alignment < 2 ^ 16 ->
  in_range 4 el -> in_range 3 un ->
  Forall (fun d => in_range 31 (fsize d) /\ in_range 32 (offset d)) desc -> Forall (in_range 32) pointers -> last_max desc pointers ->
  pointers_ok npointers pointers ->
  exists t, fielddesc_type_for (max_size_of desc) (max_offset_of desc pointers) = Some t /\
    let v := view_of sz npointers alignment hp be el un desc pointers t in
    make_layout sz nfields npointers alignment hp be el un desc pointers = Some (encode v) /\ encodable v.
Proof.
  intros Hsz -> Hnf Hnp Hal Hel Hun Hd Hp Hlm Hpo.
  pose proof (Forall_impl _ _ _ Hd (fun d H => proj1 H)) as Hd1. pose proof (Forall_impl _ _ _ Hd (fun d H => proj2 H)) as Hd2.
  destruct (max_offset_spec desc pointers 32 ltac:(lia) Hd2 Hp Hlm) as (Ho & Ho1 & Ho2).
  assert (in_range 31 (max_size_of desc)) as Hs by (apply foldl_max_range; [lia|by apply in_range_0|done]).
  destruct (foldl_max_ge desc 0) as [_ Hs1]. fold (max_size_of desc) in Hs1.
  destruct (fielddesc_type_for_total _ _ Hs Ho) as [t Et]. exists t. split; [done|]. cbv zeta.
  destruct (fielddesc_type_for_spec _ _ _ (proj1 Hs) (proj1 Ho) Et) as (Ht & Hts & Hto).
  assert (match pointers with [] => -1 | p :: _ => sw 32 p end = v_first (view_of sz npointers alignment hp be el un desc pointers t) /\
          (forall p ps, table_of pointers = p :: ps -> 0 <= p < 2 ^ 31)) as [Efp Hfp].
  { unfold view_of, table_of. cbn [v_first]. destruct (decide (pointers = _)) as [->|Hne]; [split; [reflexivity|done]|].
    destruct pointers as [|p ps]; [split; done|]. destruct Hpo as [?|[Hp31 _]]; [done|]. apply Forall_cons in Hp as [[Hp0 _] _].
    split; [apply sw_small; [lia|]; change (2 ^ (32 - 1)) with (2 ^ 31); lia|]. intros ? ? [= -> ->]. lia. }
  unfold make_layout. destruct (Z.eqb_spec alignment 0); [lia|]. rewrite Et. cbn [mbind option_bind]. rewrite Efp. split.
  - f_equal. unfold encode, encoded, header, v_flags, view_of. cbn [v_size v_desc v_npointers v_first v_align v_flags v_haspadding v_isbitsegal v_fd v_arrayelem v_unused v_ptrs].
    rewrite <- !app_assoc. do 5 f_equal.
    f_equal. f_equal. unfold table_of in *. destruct (decide (pointers = [2 ^ 32 - 1])) as [->|Hne]; [done|].
    destruct pointers as [|p ps]; [done|]. destruct (Z.ltb_spec p 0); [|done]. specialize (Hfp p ps eq_refl). lia.
  - unfold view_of. split; cbn [v_size v_desc v_npointers v_first v_align v_flags v_haspadding v_isbitsegal v_fd v_arrayelem v_unused v_ptrs]; try done.
    + unfold in_range. lia.
    + unfold first_ok. cbn [v_ptrs v_first v_npointers]. destruct (table_of pointers) as [|p ps] eqn:E; [done|]. split; [done|]. split; [by apply (Hfp p ps)|].
      unfold table_of in E. destruct (decide _); [done|]. subst pointers. destruct Hpo as [?|[_ ?]]; [done|done].
    + rewrite Forall_forall in *. intros d Hin. specialize (Hd d Hin). specialize (Hs1 d Hin). specialize (Ho1 d Hin). cbv beta in *.
      unfold desc_fits, in_range in *. lia.
    + unfold table_of. destruct (decide _); [constructor|]. rewrite Forall_forall in *. intros p Hin. specialize (Hp p Hin). specialize (Ho2 p Hin). cbv beta in *.
      unfold ptr_fits, in_range in *. lia.
Qed.

(** ** The cache *)

Lemma layout_eq_parts mem a b : layout_eq mem a b = true <-> layout_parts (layout_at mem a) = layout_parts (layout_at mem b).
Proof.
  unfold layout_eq. destruct (layout_parts (layout_at mem a)) as [[[o1 f1] p1]|], (layout_parts (layout_at mem b)) as [[[o2 f2] p2]|]; try done.
  rewrite !andb_true_iff, !bool_decide_eq_true. split; [intros [[-> ->] ->]; done|intros [= -> -> ->]; done].
Qed.

#[export] Instance layout_keys mem : HashKeys (_hash_layout_djb2 mem) (layout_eq mem).
Proof.
  split; intros; rewrite ?layout_eq_parts in *; try congruence. unfold _hash_layout_djb2. match goal with H : layout_parts _ = _ |- _ => by rewrite H end.
Qed.

(** Encoded layouts are compared by their bytes. *)
Lemma parts_encode v : encodable v -> exists o f p, layout_parts (encode v) = Some (o, f, p) /\ o ++ f ++ p = encode v.
Proof.
  intros He. pose proof (encode_decodes v He) as Hd. unfold layout_parts.
  destruct (flags_spec (v_haspadding v) (v_isbitsegal v) (v_fd v) (v_arrayelem v) (v_unused v)) as (_ & _ & F2 & _); [apply He..|]. fold (v_flags v) in F2.
  rewrite (d_flags _ _ Hd), (d_nfields _ _ Hd), (d_npointers _ _ Hd), (d_first _ _ Hd). cbn [mbind option_bind]. rewrite (d_ptrs _ _ Hd).
  cbn [mbind option_bind]. rewrite F2, fd_size_eq, fd_ptr_size_eq by apply He. cbn [mbind option_bind]. do 3 eexists. split; [done|].
  pose proof (header_length (v_size v) (Z.of_nat (length (v_desc v))) (v_npointers v) (v_first v) (v_align v) (v_flags v)) as Hh.
  unfold encode, encoded in *. set (hd := header _ _ _ _ _ _) in *. set (fs := flat_map (desc_bytes _) _) in *. set (ps := flat_map (ptr_bytes _) _) in *.
  unfold sizeof_layout, jl_dt_layout_fields, sizeof_layout. change (Z.to_nat 20) with 20%nat.
  assert (length fs = (fd_size (v_fd v) * length (v_desc v))%nat) as Hfs by (apply length_chunks, desc_bytes_length).
  assert (length ps = (fd_ptr_size (v_fd v) * length (v_ptrs v))%nat) as Hps by (apply length_chunks, ptr_bytes_length).
  rewrite take_app_length' by done. f_equal. rewrite drop_app_length' by done. rewrite take_app_length' by lia. f_equal.
  replace (Z.to_nat (20 + Z.of_nat (fd_size (v_fd v) * length (v_desc v)))) with (length (hd ++ fs)) by (rewrite length_app; lia).
  rewrite app_assoc, drop_app_length. apply take_ge. rewrite Hps. pose proof (e_first _ He) as Hf. unfold first_ok in Hf.
  destruct (v_ptrs v) as [|p l]; [cbn; lia|]. destruct Hf as (-> & ? & ->). destruct (Z.ltb_spec p 0); [lia|]. lia.
Qed.

Definition layout_in (mem : gmap Z (list Z)) (a : Z) (v : view) : Prop := mem !! a = Some (encode v) /\ encodable v.

Lemma layout_eq_bytes mem a b v u : layout_in mem a v -> layout_in mem b u -> layout_eq mem a b = true <-> encode v = encode u.
Proof.
  intros [Ha Hv] [Hb Hu]. rewrite layout_eq_parts. unfold layout_at. rewrite Ha, Hb. cbn [from_option id].
  split; [|by intros ->]. destruct (parts_encode v Hv) as (o1 & f1 & p1 & -> & <-), (parts_encode u Hu) as (o2 & f2 & p2 & -> & <-).
  by intros [= -> -> ->].
Qed.

(** The cache holds the addresses of its layouts, each under itself; [n] bounds
    their number. *)
Record cache_ok (w : world) (n : Z) : Prop := {
  c_static a l : static_layouts !! a = Some l -> lmem w !! a = Some l;
  c_next : 144 <= lnext w;
  c_fresh a l : lmem w !! a = Some l -> 1 < a < lnext w /\ exists v, layout_in (lmem w) a v;
  c_count : 0 <= n;
  c_table : layoutcache_initialized w = true ->
    exists ps, ht_wf (HFUNC := _hash_layout_djb2 (lmem w)) (EQFUNC := layout_eq (lmem w)) (layoutcache w) ps /\
      clean ps /\ Z.of_nat (length (entries ps)) <= n /\
      (forall p, p ∈ entries ps -> p.1 = p.2 /\ exists v, layout_in (lmem w) p.1 v);
}.

(** The invariant of a table depends on the hash and the comparison of its keys
    only. *)
Lemma ht_wf_ext (H1 H2 : Z -> Z) (E1 E2 : Z -> Z -> bool) h ps :
  (forall p, p ∈ ps -> used p -> H1 p.1 = H2 p.1) -> (forall p q, p ∈ ps -> q ∈ ps -> used p -> used q -> E1 p.1 q.1 = E2 p.1 q.1) ->
  ht_wf (HFUNC := H1) (EQFUNC := E1) h ps -> ht_wf (HFUNC := H2) (EQFUNC := E2) h ps.
Proof.
  intros HH HE [W1 W2 W3 W4 [T1 T2 T3 T4]]. split; [done..|]. split; [done|done| |].
  - intros i j p Hi Hu (q & Hj & Hq & E). apply (T3 i j p Hi Hu). exists q. split_and!; [done..|].
    rewrite HE; [done|by eapply list_elem_of_lookup_2..|done|done].
  - intros i p Hi Hu. destruct (T4 i p Hi Hu) as (pre & post & E & Hpre). exists pre, post. split; [|done].
    unfold path in *. rewrite <- HH; [done|by eapply list_elem_of_lookup_2|done].
Qed.

Lemma used_entry ps p : clean ps -> p ∈ ps -> used p -> p ∈ entries ps.
Proof.
  intros Hc Hin Hu. unfold entries. apply list_elem_of_filter. split; [|done]. unfold clean in Hc. rewrite Forall_forall in Hc. by apply (Hc p).
Qed.

(** An address in the cache: looking it up gives it back. *)
Definition interned (w : world) (a : Z) : Prop := layoutcache_initialized w = true /\ layoutcache_get_r (lmem w) (layoutcache w) a = Some a.

(** What a change of the world keeps. *)
Record lmem_ext (w w' : world) : Prop := {
  x_mem : lmem w ⊆ lmem w';
  x_interned a : is_Some (lmem w !! a) -> interned w a -> interned w' a;
}.
#[export] Instance lmem_ext_refl : Reflexive lmem_ext.
Proof. intros w. split; [done|]. done. Qed.
#[export] Instance lmem_ext_trans : Transitive lmem_ext.
Proof.
  intros w1 w2 w3 [H1 H2] [H3 H4]. split; [by etrans|]. intros a Ha Hi. apply H4; [|by apply H2]. destruct Ha as [l Hl]. exists l. by apply (lookup_weaken (lmem w1)).
Qed.

Lemma layout_in_weaken m m' a v : m ⊆ m' -> layout_in m a v -> layout_in m' a v.
Proof. intros Hs [H1 H2]. split; [|done]. by apply (lookup_weaken m). Qed.

Lemma layout_eq_weaken m m' a b v u : m ⊆ m' -> layout_in m a v -> layout_in m b u -> layout_eq m a b = layout_eq m' a b.
Proof.
  intros Hs Ha Hb. apply eq_true_iff_eq. rewrite !layout_eq_parts. unfold layout_at.
  destruct Ha as [Ha _], Hb as [Hb _]. by rewrite Ha, Hb, (lookup_weaken _ _ _ _ Ha Hs), (lookup_weaken _ _ _ _ Hb Hs).
Qed.
Lemma layout_hash_weaken m m' a v : m ⊆ m' -> layout_in m a v -> _hash_layout_djb2 m a = _hash_layout_djb2 m' a.
Proof. intros Hs [Ha _]. unfold _hash_layout_djb2, layout_at. by rewrite Ha, (lookup_weaken _ _ _ _ Ha Hs). Qed.

Section Table.
Context (w : world) (mem' : gmap Z (list Z)) (Hs : lmem w ⊆ mem') (h : htable_t) (ps : list (Z * Z)).
Context (Hwf : ht_wf (HFUNC := _hash_layout_djb2 (lmem w)) (EQFUNC := layout_eq (lmem w)) h ps) (Hc : clean ps).
Context (He : forall p, p ∈ entries ps -> p.1 = p.2 /\ exists v, layout_in (lmem w) p.1 v).

Lemma weaken_table : ht_wf (HFUNC := _hash_layout_djb2 mem') (EQFUNC := layout_eq mem') h ps.
Proof using Hs Hwf Hc He.
  apply (ht_wf_ext (_hash_layout_djb2 (lmem w)) _ (layout_eq (lmem w)) _ h ps); [| |done].
  - intros p Hin Hu. destruct (He p) as (_ & v & Hv); [apply used_entry; auto|]. by apply (layout_hash_weaken _ _ _ v).
  - intros p q Hp Hq Hu Hu'. destruct (He p) as (_ & v & Hv); [apply used_entry; auto|]. destruct (He q) as (_ & u & Hv'); [apply used_entry; auto|].
    by apply (layout_eq_weaken _ _ _ _ v u).
Qed.

Lemma assoc_weaken a v : layout_in (lmem w) a v -> assoc (EQFUNC := layout_eq mem') (entries ps) a = assoc (EQFUNC := layout_eq (lmem w)) (entries ps) a.
Proof using Hs He.
  intros Ha. revert He. generalize (entries ps) as es. induction es as [|p es IH]; intros He'; [done|]. cbn [assoc].
  destruct (He' p ltac:(by left)) as (_ & u & Hu). rewrite (layout_eq_weaken (lmem w) mem' a p.1 v u) by done.
  rewrite IH; [done|]. intros q Hq. apply He'. by right.
Qed.
End Table.

Lemma empty_layoutcache mem : exists ps, ht_wf (HFUNC := _hash_layout_djb2 mem) (EQFUNC := layout_eq mem) (htable_new 4096) ps /\ clean ps /\ entries ps = [].
Proof.
  destruct (new_table_wf (HFUNC := _hash_layout_djb2 mem) (EQFUNC := layout_eq mem) 13 ltac:(lia)) as (H1 & H2 & H3 & H4).
  eexists. split; [|by split]. exact H1.
Qed.

Lemma jl_get_layout_spec w n sz nfields npointers alignment hp be el un desc pointers : cache_ok w n -> n + 1 < 2 ^ 31 ->
  in_range 32 sz -> nfields = Z.of_nat (length desc) -> in_range 32 nfields -> in_range 32 npointers -> 0 < alignment < 2 ^ 16 ->
  in_range 4 el -> in_range 3 un ->
  Forall (fun d => in_range 31 (fsize d) /\ in_range 32 (offset d)) desc -> Forall (in_range 32) pointers -> last_max desc pointers ->
  pointers_ok npointers pointers ->
  exists t a w', let v := view_of sz npointers alignment hp be el un desc pointers t in
    fielddesc_type_for (max_size_of desc) (max_offset_of desc pointers) = Some t /\
    jl_get_layout sz nfields npointers alignment hp be el un desc pointers w = Some (Ok a w') /\
    layout_in (lmem w') a v /\ a <> 0 /\ interned w' a /\ dts w' = dts w /\ lmem_ext w w' /\ cache_ok w' (n + 1).
Proof.
  intros Hok Hn Hsz Hnf Hnf32 Hnp Hal Hel Hun Hd Hp Hlm Hpo.
  destruct (make_layout_spec sz nfields npointers alignment hp be el un desc pointers Hsz Hnf Hnf32 Hnp Hal Hel Hun Hd Hp Hlm Hpo) as (t & Et & Em & Hv).
  set (v := view_of _ _ _ _ _ _ _ _ _ t) in *. exists t.
  unfold jl_get_layout. rewrite !uw_small by (done || (unfold in_range; lia)). rewrite Em. unfold bind, lift.
  set (cache := if layoutcache_initialized w then layoutcache w else htable_new 4096). set (a := lnext w). set (mem := <[a := encode v]> (lmem w)).
  assert (lmem w !! a = None) as Hfr.
  { destruct (lmem w !! a) eqn:E; [|done]. destruct (c_fresh _ _ Hok _ _ E). lia. }
  assert (lmem w ⊆ mem) as Hsub by (by apply insert_subseteq).
  pose proof (c_next _ _ Hok). pose proof (c_count _ _ Hok). pose proof (Z.div_pos (Z.of_nat (length (encode v))) 16 ltac:(lia) ltac:(lia)).
  assert (exists ps, ht_wf (HFUNC := _hash_layout_djb2 (lmem w)) (EQFUNC := layout_eq (lmem w)) cache ps /\ clean ps /\ Z.of_nat (length (entries ps)) <= n /\
    (forall p, p ∈ entries ps -> p.1 = p.2 /\ exists v, layout_in (lmem w) p.1 v)) as (ps & Hwf & Hc & Hps & He).
  { unfold cache. destruct (layoutcache_initialized w) eqn:Ei; [by apply Hok|]. destruct (empty_layoutcache (lmem w)) as (ps & ? & ? & E).
    exists ps. rewrite E. split_and!; [done|done|cbn; lia|]. intros p Hp'. by apply elem_of_nil in Hp'. }
  pose proof (weaken_table w mem Hsub cache ps Hwf Hc He) as Hwf'. unfold layoutcache_get_r. rewrite (ht_get_spec cache ps a Hwf'). cbn [mbind option_bind].
  assert (layout_in mem a v) as Hav by (split; [apply lookup_insert_eq|done]).
  assert (forall b, is_Some (lmem w !! b) -> interned w b -> cache = layoutcache w /\ assoc (EQFUNC := layout_eq (lmem w)) (entries ps) b = b) as Hint.
  { intros b Hb [Ei Eb]. unfold cache in *. rewrite Ei in *. split; [done|]. unfold layoutcache_get_r in Eb. rewrite (ht_get_spec _ ps b Hwf) in Eb. by injection Eb. }
  destruct (Z.eqb_spec (assoc (EQFUNC := layout_eq mem) (entries ps) a) HT_NOTFOUND) as [Ea|Ea].
  - destruct (put_new_spec (HFUNC := _hash_layout_djb2 mem) (EQFUNC := layout_eq mem) (KEYALLOC := id) cache ps a a) as (h' & ps' & Ep & Hwf2 & Hc2 & Ees);
      [done|done|unfold HT_NOTFOUND; lia|unfold HT_NOTFOUND; lia|unfold bounded; lia|done|].
    unfold layoutcache_put_r. rewrite Ep. cbn [mbind option_bind]. exists a. eexists. split; [done|]. split; [done|]. cbn [lmem dts layoutcache lnext].
    split; [done|]. split; [lia|].
    assert (forall b, assoc (EQFUNC := layout_eq mem) (entries ps') b = if layout_eq mem b a then a else assoc (EQFUNC := layout_eq mem) (entries ps) b) as Has.
    { intros b. rewrite (assoc_perm (HFUNC := _hash_layout_djb2 mem) _ _ b Ees) by (apply wf_distinct, Hwf2). done. }
    split.
    { split; [done|]. cbn [lmem layoutcache]. unfold layoutcache_get_r. rewrite (ht_get_spec h' ps' a Hwf2), Has. f_equal.
      by rewrite (key_eq_refl (HFUNC := _hash_layout_djb2 mem)). }
    split; [done|]. split.
    + split; [done|]. intros b Hb Hi. destruct (Hint b Hb Hi) as [Ec Eb]. destruct Hb as [lb Hb].
      split; [done|]. cbn [lmem layoutcache]. unfold layoutcache_get_r. rewrite (ht_get_spec h' ps' b Hwf2), Has. f_equal.
      destruct (c_fresh _ _ Hok _ _ Hb) as [Hb1 (u & Hbu)].
      destruct (layout_eq mem b a) eqn:E; [|by rewrite (assoc_weaken w mem Hsub ps He b u)].
      exfalso. rewrite <- (assoc_congr (HFUNC := _hash_layout_djb2 mem) _ b a), (assoc_weaken w mem Hsub ps He b u), Eb in Ea by (done || apply wf_distinct, Hwf').
      unfold HT_NOTFOUND in Ea. lia.
    + split; cbn [lmem lnext layoutcache layoutcache_initialized].
      * intros b l Hb. apply (lookup_weaken (lmem w)); [by apply Hok|done].
      * lia.
      * intros b l. unfold mem. rewrite lookup_insert_Some. intros [[<- <-]|[Hne Hb]]; [split; [lia|by exists v]|].
        destruct (c_fresh _ _ Hok _ _ Hb) as [? (u & ?)]. split; [lia|]. exists u. by apply (layout_in_weaken (lmem w)).
      * lia.
      * intros _. exists ps'. split_and!; [done|done|rewrite Ees; cbn [length]; lia|]. intros p. rewrite Ees, elem_of_cons. intros [->|Hp']; [split; [done|by exists v]|].
        destruct (He p Hp') as (? & u & ?). split; [done|]. exists u. by apply (layout_in_weaken (lmem w)).
  - destruct (assoc_cases (EQFUNC := layout_eq mem) (entries ps) a) as [Habs|(p & Hp' & Ep)]; [by rewrite assoc_absent in Ea|].
    rewrite (assoc_In (HFUNC := _hash_layout_djb2 mem) (entries ps) p a) by (done || apply wf_distinct, Hwf').
    destruct (He p Hp') as (E12 & u & Hu). rewrite <- E12.
    apply (layout_eq_bytes mem a p.1 v u Hav) in Ep; [|by apply (layout_in_weaken (lmem w))]. destruct Hu as [Hu Hu2].
    destruct (c_fresh _ _ Hok _ _ Hu) as [? _].
    exists p.1. eexists. split; [done|]. split; [done|]. cbn [lmem dts layoutcache lnext].
    split; [split; [cbn [lmem]; rewrite Hu; f_equal; symmetry; exact Ep|done]|]. split; [lia|]. split.
    { split; [done|]. cbn [lmem layoutcache]. unfold layoutcache_get_r. rewrite (ht_get_spec cache ps p.1 Hwf). f_equal.
      rewrite (assoc_In (HFUNC := _hash_layout_djb2 (lmem w)) (entries ps) p p.1); [done|apply wf_distinct, Hwf|done|apply (key_eq_refl (HFUNC := _hash_layout_djb2 (lmem w)))]. }
    split; [done|]. split.
    + split; [done|]. intros b Hb Hi. destruct (Hint b Hb Hi) as [Ec Eb]. split; [done|]. cbn [lmem layoutcache]. unfold layoutcache_get_r.
      by rewrite (ht_get_spec cache ps b Hwf), Eb.
    + split; cbn [lmem lnext layoutcache layoutcache_initialized]; [apply Hok|apply Hok|apply Hok|lia|].
      intros _. exists ps. split_and!; [done|done|lia|done].
Qed.

(** * Layouts: worlds, what holds of them and how they grow *)

#[local] Open Scope layout_scope.

(** ** Rounding *)

Definition round_up (x a : Z) : Z := (x + a - 1) / a * a.

Lemma round_up_spec x a : 0 < a -> x <= round_up x a < x + a /\ (a | round_up x a).
Proof.
  intros Ha. unfold round_up. pose proof (Z.div_mod (x + a - 1) a ltac:(lia)). pose proof (Z.mod_pos_bound (x + a - 1) a Ha).
  split; [nia|]. eexists. reflexivity.
Qed.
Lemma round_up_id x a : 0 < a -> (a | x) -> round_up x a = x.
Proof.
  intros Ha [q ->]. unfold round_up. replace (q * a + a - 1) with (a - 1 + q * a) by lia. rewrite Z.div_add, Z.div_small by lia. lia.
Qed.

Definition pow2 (a : Z) : Prop := exists k, 0 <= k <= 15 /\ a = 2 ^ k.
Lemma pow2_bound a : pow2 a -> 1 <= a < 2 ^ 16.
Proof. intros (k & Hk & ->). pose proof (pow2_ge1 k ltac:(lia)). split; [done|]. apply Z.pow_lt_mono_r; lia. Qed.
Lemma pow2_divide a b : pow2 a -> pow2 b -> a <= b -> (a | b).
Proof.
  intros (j & Hj & ->) (k & Hk & ->) Hle. apply Z.pow_le_mono_r_iff in Hle; [|lia..]. exists (2 ^ (k - j)). rewrite <- Z.pow_add_r by lia. f_equal. lia.
Qed.
Lemma pow2_max a b : pow2 a -> pow2 b -> pow2 (Z.max a b).
Proof. intros Ha Hb. by destruct (Z.max_spec a b) as [[_ ->]|[_ ->]]. Qed.

Lemma LLT_ALIGN_eq x a : pow2 a -> 0 <= x < 2 ^ 63 -> LLT_ALIGN x a = round_up x a.
Proof.
  intros (k & Hk & ->) Hx. pose proof (pow2_pos k ltac:(lia)). pose proof (Z.pow_lt_mono_r 2 k 16 ltac:(lia) ltac:(lia) ltac:(lia)).
  unfold LLT_ALIGN, round_up. change (2 ^ 63) with 9223372036854775808 in Hx. change (2 ^ 16) with 65536 in *.
  rewrite (uw_small 64 (x + 2 ^ k - 1)) by (unfold in_range; change (2 ^ 64) with 18446744073709551616; lia).
  assert (Z.land (x + 2 ^ k - 1) (u64 (Z.lnot (2 ^ k - 1))) = Z.ldiff (x + 2 ^ k - 1) (Z.ones k)) as ->.
  { apply Z.bits_inj'. intros i Hi. rewrite Z.land_spec, Z.ldiff_spec, testbit_uw, Z.lnot_spec, Z.testbit_ones_nonneg by lia.
    replace (2 ^ k - 1) with (Z.ones k) by (rewrite Z.ones_equiv; lia). rewrite Z.testbit_ones_nonneg by lia.
    destruct (Z.ltb_spec i 64); [done|].
    by rewrite (testbit_high 64 (x + 2 ^ k - 1)) by (try (unfold in_range; change (2 ^ 64) with 18446744073709551616); lia). }
  rewrite Z.ldiff_ones_r, Z.shiftl_mul_pow2, Z.shiftr_div_pow2 by lia. done.
Qed.

(** ** Good layouts

    The layout of a struct or of bits: what the collector and the code that
    allocates rely on. *)
Record good (v : view) : Prop := {
  g_align : pow2 (v_align v);
  g_npointers : v_npointers v = Z.of_nat (length (v_ptrs v));
  g_sorted : StronglySorted Z.lt (v_ptrs v);
  g_inside : Forall (fun p => 0 <= p /\ 8 * p + 8 <= v_size v) (v_ptrs v);
  g_words : v_ptrs v <> [] -> (8 | v_align v);
  g_elem : v_arrayelem v = 0;
  g_narrow : v_ptrs v <> [] -> v_fd v <> JL_FIELDDESC_32 -> v_size v < 2 ^ 17;
}.

Definition opaque (v : view) : Prop := v_desc v = [] /\ 0 < v_npointers v.
Lemma is_layout_opaque_spec l v : decodes l v -> exists b, jl_is_layout_opaque l = Some b /\ (b = true <-> opaque v).
Proof.
  intros Hd. unfold jl_is_layout_opaque. rewrite (d_nfields _ _ Hd), (d_npointers _ _ Hd). cbn [mbind option_bind]. eexists. split; [done|].
  rewrite andb_true_iff, Z.eqb_eq, Z.ltb_lt. unfold opaque. destruct (v_desc v); cbn [length]; split; intros [? ?]; split; done || lia.
Qed.

(** ** The static part of a world *)

Record sig := { s_name : jl_typename_t; s_parameters : list jl_value_t; s_types : option (list jl_value_t); s_concrete : bool; s_primitive : bool }.
Definition sig_of (t : jl_datatype_t) : sig :=
  {| s_name := name t; s_parameters := parameters t; s_types := types t; s_concrete := isconcretetype t; s_primitive := isprimitivetype t |}.
Definition sigs (w : world) : list sig := map sig_of (dts w).

(** The data types in a type. *)
Fixpoint datatypes (t : jl_value_t) : list nat :=
  match t with
  | Datatype d => [d]
  | Uniontype a b => datatypes a ++ datatypes b
  | Unionall b | TypeEq b | TypeEgal b | Vararg b => datatypes b
  | _ => []
  end.

Section World.
Context (env : type_env).

(** The types a field may store inline: the members of a union, or the type. *)
Fixpoint leaves (t : jl_value_t) : list nat :=
  match t with
  | Uniontype a b => leaves a ++ leaves b
  | t => match normalize_typeofbottom_layout_alias env t with Datatype d => [d] | _ => [] end
  end.
Fixpoint nleaves (t : jl_value_t) : Z := match t with Uniontype a b => nleaves a + nleaves b | _ => 1 end.

(** Bounds on the types of a program: an order in which inline fields nest, and
    the size and alignment that each type stays below. *)
Record bounds := { rank : nat -> nat; size_bound : nat -> Z; align_bound : nat -> Z }.
Context (B : bounds).

Definition max_over (f : nat -> Z) (l : list nat) : Z := foldr (fun d m => Z.max (f d) m) 16 l.
Definition field_cost (fld : jl_value_t) : Z := max_over (size_bound B) (leaves fld) + 1 + max_over (align_bound B) (leaves fld).
Definition fields_cost (flds : list jl_value_t) : Z := foldr (fun fld m => field_cost fld + m) 0 flds.

Definition inlinable (sg : list sig) (e : nat) : Prop := exists s, sg !! e = Some s /\ mayinlinealloc (s_name s) = true.
Definition is_vector (sg : list sig) (s : sig) : Prop :=
  tn_id (s_name s) = jl_tuple_typename /\ exists e es, head (default [] (s_types s)) = Some (Datatype e) /\ sg !! e = Some es /\ tn_id (s_name es) = jl_vecelement_typename.

(** A type whose layout may be computed. *)
Definition fixed (sg : list sig) (d : nat) : Prop :=
  exists s, sg !! d = Some s /\ tn_id (s_name s) <> jl_genericmemory_typename /\ ((s_concrete s = true /\ is_Some (s_types s)) \/ fixed_layout_abstract env d = true).

(** Or a memory, whose layout is its element type's. *)
Definition determined (sg : list sig) (d : nat) : Prop :=
  fixed sg d \/ exists s, sg !! d = Some s /\ tn_id (s_name s) = jl_genericmemory_typename.

(** What is assumed of each type. *)
Record sig_ok (sg : list sig) (d : nat) (s : sig) : Prop := {
  so_wrapper wd : wrapper (s_name s) = Some wd -> exists ws, sg !! wd = Some ws /\ s_name ws = s_name s /\
    size_bound B wd <= size_bound B d /\ align_bound B wd <= align_bound B d /\ (is_Some (s_types ws));
  so_fixed : fixed sg d -> is_Some (wrapper (s_name s)) /\ is_Some (s_types s);
  so_memory : tn_id (s_name s) = jl_genericmemory_typename -> mayinlinealloc (s_name s) = false;
  so_builtin : d ∈ [jl_symbol_type env; jl_string_type env; jl_simplevector_type env; jl_module_type env] -> mayinlinealloc (s_name s) = false;
  so_closed flds fld : s_types s = Some flds -> fld ∈ flds -> Forall (fun e => (e < length sg)%nat) (datatypes fld ++ leaves fld);
  so_nleaves flds fld : s_types s = Some flds -> fld ∈ flds -> nleaves fld < 2 ^ 32;
  so_uninit flds : s_types s = Some flds -> 0 <= n_uninitialized (s_name s) <= Z.of_nat (length flds);
  so_atomic flds ws : s_types s = Some flds -> atomicfields (s_name s) = Some ws -> (length flds <= 32 * length ws)%nat;
  so_const flds ws : s_types s = Some flds -> constfields (s_name s) = Some ws -> (length flds <= 32 * length ws)%nat;
  so_rank flds fld e : s_types s = Some flds -> fld ∈ flds -> e ∈ leaves fld -> inlinable sg e -> (rank B e < rank B d)%nat;
  so_align : 16 <= align_bound B d < 2 ^ 16;
  so_size : 0 <= size_bound B d < 2 ^ 31;
  so_fields flds : s_types s = Some flds -> fields_cost flds + 16 + 2 * align_bound B d <= size_bound B d /\
    Forall (fun fld => Forall (fun e => align_bound B e <= align_bound B d) (leaves fld)) flds;
  so_vector : ~ is_vector sg s;
  so_bottom : (jl_typeofbottom_type env < length sg)%nat;
}.

(** ** The invariant of a world *)

Definition unlaid (t : jl_datatype_t) : Prop := layout t = 0.
#[global] Instance unlaid_dec t : Decision (unlaid t) := ltac:(unfold unlaid; apply _).

Record layout_ok (w : world) (d : nat) (t : jl_datatype_t) (v : view) : Prop := {
  lo_in : layout_in (lmem w) (layout t) v;
  lo_plain : mayinlinealloc (name t) = true -> ~ opaque v;
  lo_good : ~ opaque v -> good v;
  lo_zeroinit : ~ opaque v -> v_ptrs v <> [] -> zeroinit t = true;
  lo_size : ~ opaque v -> round_up (v_size v) (v_align v) <= size_bound B d;
  lo_align : ~ opaque v -> v_align v <= align_bound B d;
}.

Record world_ok (w : world) (n : Z) : Prop := {
  wo_cache : cache_ok w n;
  wo_room : n + Z.of_nat (length (filter unlaid (dts w))) < 2 ^ 31 - 1;
  wo_sigs d s : sigs w !! d = Some s -> sig_ok (sigs w) d s;
  wo_layout d t : dts w !! d = Some t -> layout t <> 0 -> exists v, layout_ok w d t v;
  wo_instance d t : dts w !! d = Some t -> instance t = true -> layout t <> 0;
  wo_isbits d t : dts w !! d = Some t -> isbitstype t = true -> layout t <> 0 /\ mayinlinealloc (name t) = true /\ exists v, layout_ok w d t v /\ v_ptrs v = [];
}.

(** ** Growth: layouts are added, none changes. *)
Record ext (w w' : world) : Prop := {
  ex_mem : lmem_ext w w';
  ex_sigs : sigs w' = sigs w;
  ex_kept d t : dts w !! d = Some t -> layout t <> 0 -> exists t', dts w' !! d = Some t' /\ layout t' = layout t /\ zeroinit t' = zeroinit t;
  ex_new d t' : dts w' !! d = Some t' -> layout t' <> 0 -> (exists t, dts w !! d = Some t /\ layout t <> 0) \/ determined (sigs w) d;
}.

#[export] Instance ext_refl : Reflexive ext.
Proof. intros w. split; [reflexivity|done| |]; [intros d t Ht _; by exists t|intros d t Ht Hl; left; by exists t]. Qed.
#[export] Instance ext_trans : Transitive ext.
Proof.
  intros w1 w2 w3 [A1 A2 A3 A4] [C1 C2 C3 C4]. split; [by etrans|by rewrite C2| |].
  - intros d t Ht Hl. destruct (A3 d t Ht Hl) as (t2 & Ht2 & E2 & Z2). destruct (C3 d t2 Ht2 ltac:(congruence)) as (t3 & ? & ? & ?). exists t3. split_and!; [done|congruence..].
  - intros d t3 Ht3 Hl. destruct (C4 d t3 Ht3 Hl) as [(t2 & Ht2 & Hl2)|Hf]; [by apply (A4 d t2)|right; by rewrite <- A2].
Qed.

Lemma sigs_lookup w d t : dts w !! d = Some t -> sigs w !! d = Some (sig_of t).
Proof. intros E. unfold sigs. rewrite list_lookup_fmap. by rewrite E. Qed.
Lemma sigs_lookup_inv w d s : sigs w !! d = Some s -> exists t, dts w !! d = Some t /\ s = sig_of t.
Proof. unfold sigs. intros (t & E & ->)%list_lookup_fmap_Some. by exists t. Qed.
Lemma ext_dt w w' d t : ext w w' -> dts w !! d = Some t -> exists t', dts w' !! d = Some t' /\ sig_of t' = sig_of t.
Proof. intros Hx Ht. apply sigs_lookup in Ht. rewrite <- (ex_sigs _ _ Hx) in Ht. apply sigs_lookup_inv in Ht as (t' & ? & ?). by exists t'. Qed.
Lemma sigs_length w : length (sigs w) = length (dts w).
Proof. apply length_map. Qed.
End World.

(** * Layouts: which types are stored inline, and with what size *)

#[local] Open Scope layout_scope.

(** ** Total correctness

    [wp m w Q]: from [w], [m] ends without an error, and [Q] holds of its result
    and the new world. *)
Definition wp {A} (m : M A) (w : world) (Q : A -> world -> Prop) : Prop := exists a w', m w = Some (Ok a w') /\ Q a w'.

Lemma wp_ret {A} (a : A) w (Q : A -> world -> Prop) : Q a w -> wp (ret a) w Q.
Proof. intros H. by exists a, w. Qed.
Lemma wp_bind {A B} (m : M A) (k : A -> M B) w Q : wp m w (fun a w' => wp (k a) w' Q) -> wp (bind m k) w Q.
Proof. intros (a & w1 & E & b & w2 & E2 & H). exists b, w2. split; [|done]. unfold bind. by rewrite E. Qed.
Lemma wp_bind_inv {A B} (m : M A) (k : A -> M B) w Q : wp (bind m k) w Q -> wp m w (fun a w' => wp (k a) w' Q).
Proof. intros (b & w2 & E & H). unfold bind in E. destruct (m w) as [[a w1|w1]|] eqn:Em; try done. exists a, w1. split; [done|]. by exists b, w2. Qed.
Lemma wp_mono {A} (m : M A) w (P Q : A -> world -> Prop) : wp m w P -> (forall a w', P a w' -> Q a w') -> wp m w Q.
Proof. intros (a & w' & E & H) HPQ. exists a, w'. split; [done|]. by apply HPQ. Qed.
Lemma wp_lift {A} (o : option A) a w (Q : A -> world -> Prop) : o = Some a -> Q a w -> wp (lift o) w Q.
Proof. intros -> H. by exists a, w. Qed.
Lemma wp_assert b w (Q : unit -> world -> Prop) : b = true -> Q tt w -> wp (assert_ b) w Q.
Proof. intros -> H. by exists tt, w. Qed.
Lemma wp_dt_at d t w (Q : jl_datatype_t -> world -> Prop) : dts w !! d = Some t -> Q t w -> wp (dt_at d) w Q.
Proof. intros E H. exists t, w. unfold dt_at. by rewrite E. Qed.
Lemma wp_layout_bytes a l w (Q : list Z -> world -> Prop) : lmem w !! a = Some l -> Q l w -> wp (layout_bytes a) w Q.
Proof. intros E H. exists l, w. unfold layout_bytes. by rewrite E. Qed.
Lemma wp_update d f t w (Q : unit -> world -> Prop) : dts w !! d = Some t -> Q tt (set_dts (insert d (f t)) w) -> wp (update d f) w Q.
Proof. intros E H. exists tt. eexists. unfold update. rewrite E. by split. Qed.
(** A computation that only reads. *)
Definition pure_wp {A} (m : M A) (w : world) (Q : A -> Prop) : Prop := wp m w (fun a w' => w' = w /\ Q a).
Lemma pure_wp_wp {A} (m : M A) w (P : A -> Prop) (Q : A -> world -> Prop) : pure_wp m w P -> (forall a, P a -> Q a w) -> wp m w Q.
Proof. intros H HQ. apply (wp_mono _ _ _ _ H). intros a w' [-> Ha]. by apply HQ. Qed.

(** [wp_step] takes one step of a computation. *)
Ltac wp_step :=
  lazymatch goal with
  | |- wp (bind _ _) _ _ => apply wp_bind
  | |- wp (ret _) _ _ => apply wp_ret
  | |- wp (dt_at _) _ _ => eapply wp_dt_at; [eassumption|]
  | |- wp (lift _) _ _ => eapply wp_lift; [eassumption|]
  | |- wp (layout_bytes _) _ _ => eapply wp_layout_bytes; [eassumption|]
  | |- wp (update _ _) _ _ => eapply wp_update; [eassumption|]
  end.
Ltac wp := repeat (wp_step; cbv beta iota).

Section Inline.
(** [I]: what else the recursive calls keep. *)
Context (env : type_env) (B : bounds) (I : world -> Prop).
Definition wok (w : world) : Prop := exists n, world_ok env B w n.
Definition ok (w : world) : Prop := wok w /\ I w.
#[local] Abbreviation ext := (ext env).

Lemma ok_sig w d t : ok w -> dts w !! d = Some t -> sig_ok env B (sigs w) d (sig_of t).
Proof. intros [[n Hok] _] Ht. by apply (wo_sigs _ _ _ _ Hok), sigs_lookup. Qed.
Lemma ok_layout w d t : ok w -> dts w !! d = Some t -> layout t <> 0 -> exists v, layout_ok B w d t v.
Proof. intros [[n Hok] _]. apply (wo_layout _ _ _ _ Hok). Qed.

Lemma layout_ok_ext w w' d t v : ext w w' -> dts w !! d = Some t -> layout t <> 0 -> layout_ok B w d t v ->
  exists t', dts w' !! d = Some t' /\ sig_of t' = sig_of t /\ layout t' <> 0 /\ layout_ok B w' d t' v.
Proof.
  intros Hx Ht Hl [H1 H2 H3 H4 H5 H6]. destruct (ext_dt env _ _ _ _ Hx Ht) as (t1 & Ht1 & Es). destruct (ex_kept _ _ _ Hx d t Ht Hl) as (t2 & Ht2 & El & Ez).
  rewrite Ht1 in Ht2. injection Ht2 as <-. exists t1. split; [done|]. split; [done|]. split; [congruence|].
  assert (name t1 = name t) as En by (by injection Es). split; rewrite ?En, ?El, ?Ez; try done.
  apply (layout_in_weaken (lmem w)); [apply Hx|done].
Qed.

(** Bytes determine a layout's numbers. *)
Lemma layout_in_decodes m a v : layout_in m a v -> m !! a = Some (encode v) /\ decodes (encode v) v.
Proof. intros [H1 H2]. split; [done|]. by apply encode_decodes. Qed.
Lemma layout_in_unique m a u v : layout_in m a u -> layout_in m a v ->
  v_size u = v_size v /\ v_align u = v_align v /\ v_npointers u = v_npointers v /\ v_fd u = v_fd v /\ length (v_desc u) = length (v_desc v).
Proof.
  intros [H1 H2] [H3 H4]. assert (encode u = encode v) as E by congruence. pose proof (encode_decodes u H2) as D1. pose proof (encode_decodes v H4) as D2. rewrite <- E in D2.
  destruct D1 as [a1 a2 a3 _ a4 a5 _ _ _ _ _], D2 as [b1 b2 b3 _ b4 b5 _ _ _ _ _]. rewrite a1 in b1. rewrite a2 in b2. rewrite a3 in b3. rewrite a4 in b4. rewrite a5 in b5.
  injection b1 as ?. injection b2 as ?. injection b3 as ?. injection b4 as ?. injection b5 as b5. split_and!; [done..| |lia].
  destruct (flags_spec (v_haspadding u) (v_isbitsegal u) (v_fd u) (v_arrayelem u) (v_unused u)) as (_ & _ & F1 & _); [apply H2..|].
  destruct (flags_spec (v_haspadding v) (v_isbitsegal v) (v_fd v) (v_arrayelem v) (v_unused v)) as (_ & _ & F2 & _); [apply H4..|].
  rewrite <- F1, <- F2. fold (v_flags u) (v_flags v). by rewrite b5.
Qed.

(** ** Inline data types *)

Definition laid (w : world) (e : nat) : Prop := exists t, dts w !! e = Some t /\ layout t <> 0.

(** [e] is stored inline, with the layout [v]; [pf]: only without pointers. *)
Definition inl (w : world) (e : nat) (pf : bool) (v : view) : Prop := exists t, dts w !! e = Some t /\ mayinlinealloc (name t) = true /\ layout t <> 0 /\
  layout_ok B w e t v /\ (v_ptrs v = [] \/ (pf = false /\ n_uninitialized (name t) = 0 /\ (v_fd v = JL_FIELDDESC_8 \/ v_fd v = JL_FIELDDESC_16))).
(** It is not, now or later. *)
Definition never (w : world) (e : nat) (pf : bool) : Prop := forall w' v, ext w w' -> wok w' -> ~ inl w' e pf v.

Lemma inl_good w e pf v : inl w e pf v -> good v /\ encodable v.
Proof. intros (t & Ht & Hm & Hl & Hv & _). split; [|apply Hv]. apply Hv. by apply Hv. Qed.
Lemma inl_ext w w' e pf v : ext w w' -> inl w e pf v -> inl w' e pf v.
Proof.
  intros Hx (t & Ht & Hm & Hl & Hv & Hp). destruct (layout_ok_ext _ _ _ _ _ Hx Ht Hl Hv) as (t' & Ht' & Es & Hl' & Hv').
  assert (name t' = name t) as En by (by injection Es). exists t'. rewrite En. by split_and!.
Qed.
Lemma never_ext w w' e pf : ext w w' -> never w e pf -> never w' e pf.
Proof. intros Hx Hn w2 v Hx2. apply Hn. by etrans. Qed.

(** What the recursive call promises of a type of smaller rank. *)
Definition try_ok (try : nat -> M bool) (k : nat) : Prop := forall e w, ok w -> (e < length (dts w))%nat -> (rank B e < k)%nat ->
  wp (try e) w (fun b w' => ok w' /\ ext w w' /\
    (if b : bool then laid w' e \/ (exists t, dts w' !! e = Some t /\ tn_id (name t) = jl_genericmemory_typename)
     else (forall t, dts w' !! e = Some t -> layout t = 0) /\ ~ fixed env (sigs w') e)).

Context (try : nat -> M bool) (k : nat) (Htry : try_ok try k).

Lemma not_mayinline_never w e pf t : dts w !! e = Some t -> mayinlinealloc (name t) = false -> never w e pf.
Proof using.
  intros Ht Hm w' v Hx Hok (t' & Ht' & Hm' & _). destruct (ext_dt env _ _ _ _ Hx Ht) as (t2 & Ht2 & Es). assert (name t2 = name t) by (by injection Es). congruence.
Qed.

Lemma isinlinealloc_spec e pf w : ok w -> (e < length (dts w))%nat -> (inlinable (sigs w) e -> rank B e < k)%nat ->
  wp (jl_datatype_isinlinealloc try e pf) w (fun b w' => ok w' /\ ext w w' /\ (if b : bool then exists v, inl w' e pf v else never w' e pf)).
Proof using Htry.
  intros Hok He Hk. destruct (lookup_lt_is_Some_2 _ _ He) as [t Ht]. unfold jl_datatype_isinlinealloc. wp.
  destruct (mayinlinealloc (name t)) eqn:Em; cbn [negb]; [|wp; split_and!; [done|reflexivity|by apply (not_mayinline_never _ _ _ t)]].
  apply wp_bind. eapply wp_mono; [apply Htry; [done|done|]|].
  { apply Hk. exists (sig_of t). split; [by apply sigs_lookup|done]. }
  intros b w1 (Hok1 & Hx1 & Hb). destruct (ext_dt env _ _ _ _ Hx1 Ht) as (t1 & Ht1 & Es). assert (name t1 = name t) as En by (by injection Es).
  pose proof (ok_sig w1 e t1 Hok1 Ht1) as Hs1. destruct b; cbn [negb].
  2:{ wp. split_and!; [done|done|]. destruct Hb as [H0 Hnf]. intros w2 v Hx2 Hok2 (t2 & Ht2 & _ & Hl2 & _).
      destruct (ex_new _ _ _ Hx2 e t2 Ht2 Hl2) as [(t3 & Ht3 & Hl3)|[Hf|(s & Hsg & Hmem)]]; [by apply Hl3, H0|done|].
      rewrite (sigs_lookup _ _ _ Ht1) in Hsg. injection Hsg as <-. pose proof (so_memory _ _ _ _ _ Hs1 Hmem) as Hf. cbn in Hf. congruence. }
  assert (layout t1 <> 0) as Hl1.
  { destruct Hb as [(t2 & Ht2 & ?)|(t2 & Ht2 & Hm)]; [by simplify_eq|]. simplify_eq.
    pose proof (so_memory _ _ _ _ _ Hs1 Hm) as Hf. cbn in Hf. congruence. }
  destruct (ok_layout w1 e t1 Hok1 Ht1 Hl1) as [v Hv]. destruct (layout_in_decodes _ _ _ (lo_in _ _ _ _ _ Hv)) as [El Hd].
  assert (~ opaque v) as Ho by (apply Hv; congruence). pose proof (lo_good _ _ _ _ _ Hv Ho) as Hg.
  wp. eapply wp_lift; [apply Hd|]. cbv beta. rewrite (g_npointers v Hg).
  assert (forall b : bool, (b = true -> v_ptrs v = [] \/ (pf = false /\ n_uninitialized (name t1) = 0 /\ (v_fd v = JL_FIELDDESC_8 \/ v_fd v = JL_FIELDDESC_16))) ->
    (b = false -> v_ptrs v <> [] /\ ~ (pf = false /\ n_uninitialized (name t1) = 0 /\ (v_fd v = JL_FIELDDESC_8 \/ v_fd v = JL_FIELDDESC_16))) ->
    ok w1 /\ ext w w1 /\ (if b then exists v, inl w1 e pf v else never w1 e pf)) as Hend.
  { intros b H1 H2. split_and!; [done..|]. destruct b.
    - exists v, t1. split_and!; [done|congruence|done|done|by apply H1].
    - destruct (H2 eq_refl) as [Hp Hc]. intros w2 v' Hx2 Hok2 (t2 & Ht2 & Hm2 & Hl2 & Hv2 & Hc2).
      destruct (layout_ok_ext _ _ _ _ _ Hx2 Ht1 Hl1 Hv) as (t3 & Ht3 & Es3 & Hl3 & Hv3). rewrite Ht2 in Ht3. injection Ht3 as <-.
      assert (name t2 = name t1) as En2 by (by injection Es3).
      destruct (layout_in_unique _ _ _ _ (lo_in _ _ _ _ _ Hv2) (lo_in _ _ _ _ _ Hv3)) as (_ & _ & Enp & Efd & _).
      assert (good v') as Hg' by (apply Hv2; by apply Hv2). rewrite (g_npointers _ Hg), (g_npointers _ Hg') in Enp. rewrite En2, Efd in Hc2. destruct Hc2 as [E|Hc2]; [|done].
      rewrite E in Enp. destruct (v_ptrs v); [done|cbn in Enp; lia]. }
  destruct (Z.ltb_spec 0 (Z.of_nat (length (v_ptrs v)))) as [Hp|Hp].
  - assert (v_ptrs v <> []) as Hne by (intros E; rewrite E in Hp; cbn in Hp; lia).
    destruct pf; [wp; apply (Hend false); [done|split; [done|by intros [? _]]]|].
    destruct (Z.eqb_spec (n_uninitialized (name t1)) 0) as [Eu|Eu]; cbn [negb]; [|wp; apply (Hend false); [done|split; [done|by intros (_ & ? & _)]]].
    wp. eapply wp_lift; [apply Hd|]. cbv beta.
    destruct (flags_spec (v_haspadding v) (v_isbitsegal v) (v_fd v) (v_arrayelem v) (v_unused v)) as (_ & _ & F & _); [apply Hv..|]. fold (v_flags v) in F. rewrite F.
    wp. apply (Hend ((v_fd v =? JL_FIELDDESC_8) || (v_fd v =? JL_FIELDDESC_16))).
    + rewrite orb_true_iff, !Z.eqb_eq. tauto.
    + rewrite orb_false_iff, !Z.eqb_neq. intros [? ?]. split; [done|]. tauto.
  - wp. apply (Hend true); [|done]. intros _. left. destruct (v_ptrs v); [done|cbn in Hp; lia].
Qed.

(** ** Inline types: unions of data types without pointers, or a data type *)

(** [n] members, the size and the alignment. *)
Fixpoint inline_ty (w : world) (ty : jl_value_t) (pf : bool) (n s a : Z) : Prop :=
  match ty with
  | Uniontype x y => exists n1 s1 a1 n2 s2 a2, inline_ty w x true n1 s1 a1 /\ inline_ty w y true n2 s2 a2 /\ n = n1 + n2 /\ s = Z.max s1 s2 /\ a = Z.max a1 a2
  | _ => match normalize_typeofbottom_layout_alias env ty with
    | Datatype e => exists t v, dts w !! e = Some t /\ inl w e pf v /\ n = 1 /\ a = v_align v /\
        s = if isprimitivetype t then round_up (v_size v) (v_align v) else v_size v
    | _ => False
    end
  end.
Definition never_ty (w : world) (ty : jl_value_t) (pf : bool) : Prop := forall w' n s a, ext w w' -> wok w' -> ~ inline_ty w' ty pf n s a.

Lemma inline_ty_ext w w' ty pf n s a : ext w w' -> inline_ty w ty pf n s a -> inline_ty w' ty pf n s a.
Proof using.
  intros Hx. revert pf n s a. induction ty as [d|x IHx y IHy|x0 IH0|x0 IH0|x0 IH0| |i0|x0 IH0|i0|i0|i0]; intros pf n s a; try (intros H; exact H);
    try (cbn [inline_ty]; intros (n1 & s1 & a1 & n2 & s2 & a2 & H1 & H2 & H3); exists n1, s1, a1, n2, s2, a2; split_and!; [by apply IHx|by apply IHy|apply H3..]);
    cbn [inline_ty]; destruct (normalize_typeofbottom_layout_alias env _) as [e| | | | | | | | | |]; try done;
    intros (t & v & Ht & Hi & -> & -> & ->); destruct (ext_dt env _ _ _ _ Hx Ht) as (t' & Ht' & Es); exists t', v;
    (assert (isprimitivetype t' = isprimitivetype t) as -> by (by injection Es)); split_and!; try done; by apply (inl_ext w).
Qed.
Lemma never_ty_ext w w' ty pf : ext w w' -> never_ty w ty pf -> never_ty w' ty pf.
Proof using. intros Hx Hn w2 n s a Hx2. apply Hn. by etrans. Qed.

(** What bounds the size and alignment of an inline type. *)
Lemma max_over_ge f l : 16 <= max_over f l /\ Forall (fun e => f e <= max_over f l) l.
Proof using. induction l as [|e l [IH1 IH2]]; [split; [done|constructor]|]. cbn [max_over foldr]. fold (max_over f l). split; [lia|]. constructor; [lia|]. eapply Forall_impl; [exact IH2|]. cbv beta. lia. Qed.

Lemma max_over_app f l1 l2 : max_over f (l1 ++ l2) = Z.max (max_over f l1) (max_over f l2).
Proof using.
  induction l1 as [|e l1 IH]; [destruct (max_over_ge f l2); cbn [app]; change (max_over f []) with 16; lia|].
  cbn [app max_over foldr]. fold (max_over f l1) (max_over f (l1 ++ l2)). lia.
Qed.

Lemma round_up_ge x a : 0 < a -> x <= round_up x a.
Proof using. intros Ha. by destruct (round_up_spec x a Ha) as [[? _] _]. Qed.

Lemma inline_ty_bounds w ty pf n s a : inline_ty w ty pf n s a ->
  1 <= n <= nleaves ty /\ pow2 a /\ 0 <= s <= max_over (size_bound B) (leaves env ty) /\
  (exists e, e ∈ leaves env ty /\ a <= align_bound B e) /\ a <= max_over (align_bound B) (leaves env ty).
Proof using.
  revert pf n s a. assert (forall e w pf v t, dts w !! e = Some t -> inl w e pf v -> pow2 (v_align v) /\ 0 <= v_size v <= size_bound B e /\
    0 <= round_up (v_size v) (v_align v) <= size_bound B e /\ v_align v <= align_bound B e) as Hleaf.
  { intros e w0 pf v t Ht (t' & Ht' & Hm & Hl & Hv & _). assert (~ opaque v) as Ho by (by apply Hv). pose proof (lo_good _ _ _ _ _ Hv Ho) as Hg.
    pose proof (e_size _ (proj2 (lo_in _ _ _ _ _ Hv))) as [Hs0 _]. pose proof (pow2_bound _ (g_align _ Hg)). pose proof (round_up_ge (v_size v) (v_align v) ltac:(lia)).
    pose proof (lo_size _ _ _ _ _ Hv Ho). pose proof (lo_align _ _ _ _ _ Hv Ho). split_and!; try lia. apply Hg. }
  assert (forall e (b : bool) w pf v t s, dts w !! e = Some t -> inl w e pf v -> s = (if b then round_up (v_size v) (v_align v) else v_size v) ->
    pow2 (v_align v) /\ 0 <= s <= max_over (size_bound B) [e] /\ (exists e', e' ∈ [e] /\ v_align v <= align_bound B e') /\ v_align v <= max_over (align_bound B) [e]) as Hl1.
  { intros e b w0 pf v t s Ht Hi ->. destruct (Hleaf e w0 pf v t Ht Hi) as (H1 & H2 & H3 & H4). cbn [max_over foldr]. split_and!; [done|destruct b; lia|destruct b; lia| |lia].
    exists e. split; [by left|done]. }
  induction ty as [d|x IHx y IHy|x0 IH0|x0 IH0|x0 IH0| |i0|x0 IH0|i0|i0|i0]; intros pf n s a; cbn [inline_ty leaves nleaves];
    try (destruct (normalize_typeofbottom_layout_alias env _) as [e| | | | | | | | | |]; try done; intros (t & v & Ht & Hi & -> & -> & Es); split; [lia|];
      by apply (Hl1 _ (isprimitivetype t) w pf v t)).
  intros (n1 & s1 & a1 & n2 & s2 & a2 & H1 & H2 & -> & -> & ->). destruct (IHx _ _ _ _ H1) as (A1 & A2 & A3 & (e1 & A4 & A5) & A6), (IHy _ _ _ _ H2) as (C1 & C2 & C3 & (e2 & C4 & C5) & C6).
  rewrite !max_over_app. split_and!; try lia; [by apply pow2_max|].
  destruct (Z.max_spec a1 a2) as [[_ ->]|[_ ->]]; [exists e2|exists e1]; rewrite elem_of_app; auto.
Qed.

(** The types of a field may be asked for. *)
Definition askable (w : world) (ty : jl_value_t) : Prop :=
  Forall (fun e => (e < length (dts w))%nat /\ (inlinable (sigs w) e -> (rank B e < k)%nat)) (leaves env ty) /\
  max_over (size_bound B) (leaves env ty) < 2 ^ 31.
Lemma askable_ext w w' ty : ext w w' -> askable w ty -> askable w' ty.
Proof using.
  intros Hx [H1 H2]. split; [|done]. rewrite (ex_sigs _ _ _ Hx). rewrite <- (sigs_length w'), (ex_sigs _ _ _ Hx), sigs_length. done.
Qed.
Lemma askable_union w x y : askable w (Uniontype x y) -> askable w x /\ askable w y.
Proof using.
  intros [H1 H2]. cbn [leaves] in *. apply Forall_app in H1 as [H1 H3].
  rewrite max_over_app in H2. split; (split; [done|lia]).
Qed.

Lemma datatype_layout_spec w e t v : ok w -> dts w !! e = Some t -> layout t <> 0 -> layout_ok B w e t v -> ~ opaque v ->
  forall Q : list Z -> world -> Prop, Q (encode v) w -> wp (jl_datatype_layout e) w Q.
Proof using.
  intros Hok Ht Hl Hv Ho Q HQ. unfold jl_datatype_layout. wp. destruct (Z.eqb_spec (layout t) 0); [done|]. wp.
  destruct (layout_in_decodes _ _ _ (lo_in _ _ _ _ _ Hv)) as [El Hd]. eapply wp_layout_bytes; [exact El|]. wp.
  destruct (is_layout_opaque_spec _ _ Hd) as (b & Eb & Hb). eapply wp_lift; [exact Eb|]. destruct b; [by destruct Ho; apply Hb|]. wp. done.
Qed.

Lemma LLT_ALIGN_size w e pf v : inl w e pf v -> LLT_ALIGN (v_size v) (v_align v) = round_up (v_size v) (v_align v).
Proof using.
  intros Hi. destruct (inl_good _ _ _ _ Hi) as [Hg He]. pose proof (e_size _ He) as [? ?]. change (2 ^ 32) with 4294967296 in *.
  apply LLT_ALIGN_eq; [apply Hg|]. change (2 ^ 63) with 9223372036854775808. lia.
Qed.

Lemma union_isinlinable_spec ty : forall pf nbytes align w, ok w -> askable w ty -> nleaves ty < 2 ^ 32 ->
  wp (union_isinlinable env try ty pf nbytes align true) w (fun r w' => ok w' /\ ext w w' /\
    ((exists n s a, inline_ty w' ty pf n s a /\ r = (n, Z.max nbytes s, Z.max align a)) \/ (r.1.1 = 0 /\ never_ty w' ty pf))).
Proof using Htry.
  assert (forall ty pf nbytes align w, (forall x y, ty <> Uniontype x y) -> ok w -> askable w ty ->
    wp (match normalize_typeofbottom_layout_alias env ty with
        | Datatype d =>
            let! ok := jl_datatype_isinlinealloc try d pf in
            if negb ok then ret (0, nbytes, align) else
            let! sz := jl_datatype_size d in let! al := jl_datatype_align d in let! t := dt_at d in
            let sz := if true && isprimitivetype t then LLT_ALIGN sz al else sz in
            ret (1, if nbytes <? sz then sz else nbytes, if align <? al then al else align)
        | _ => ret (0, nbytes, align)
        end) w (fun r w' => ok w' /\ ext w w' /\
    ((exists n s a, inline_ty w' ty pf n s a /\ r = (n, Z.max nbytes s, Z.max align a)) \/ (r.1.1 = 0 /\ never_ty w' ty pf)))) as Hleaf.
  { intros ty' pf nbytes align w Hnu Hok Hask. destruct Hask as [Hask Hsz].
    assert ((exists e, normalize_typeofbottom_layout_alias env ty' = Datatype e /\ leaves env ty' = [e]) \/ (forall e, normalize_typeofbottom_layout_alias env ty' <> Datatype e)) as Hc.
    { destruct (normalize_typeofbottom_layout_alias env ty') as [e| | | | | | | | | |] eqn:E; [left; exists e|right; done..]. split; [done|].
      destruct ty'; try (by specialize (Hnu ty'1 ty'2)); unfold leaves; by rewrite E. }
    assert (forall w' n s a, inline_ty w' ty' pf n s a = match normalize_typeofbottom_layout_alias env ty' with
      | Datatype e => exists t v, dts w' !! e = Some t /\ inl w' e pf v /\ n = 1 /\ a = v_align v /\
        s = if isprimitivetype t then round_up (v_size v) (v_align v) else v_size v
      | _ => False end) as Heq by (intros; destruct ty'; try done; by specialize (Hnu ty'1 ty'2)).
    destruct Hc as [(e & En & El)|Hne].
    2:{ destruct (normalize_typeofbottom_layout_alias env ty') as [e| | | | | | | | | |]; [by destruct (Hne e)|..]; wp;
        (split; [done|]; split; [reflexivity|]; right; split; [done|]; intros ? ? ? ? _ _; rewrite Heq; by intros []). }
    rewrite En. rewrite El in Hask. apply Forall_singleton in Hask as [He Hk]. apply wp_bind. eapply wp_mono; [by apply isinlinealloc_spec|].
    intros b w1 (Hok1 & Hx1 & Hb). destruct b; cbn [negb].
    2:{ wp. split; [done|]. split; [done|]. right. split; [done|]. intros w2 n s a Hx2 Hok2. rewrite Heq, En. intros (t & v & _ & Hi & _).
        by apply (Hb w2 v). }
    destruct Hb as [v Hi]. pose proof Hi as (t & Ht & Hm & Hl & Hv & Hp). assert (~ opaque v) as Ho by (by apply Hv).
    destruct (inl_good _ _ _ _ Hi) as [Hg Henc]. pose proof (encode_decodes v Henc) as Hd.
    unfold jl_datatype_size, jl_datatype_align. wp. apply (datatype_layout_spec w1 e t v); [done..|]. wp. eapply wp_lift; [apply Hd|]. wp.
    apply (datatype_layout_spec w1 e t v); [done..|]. wp. eapply wp_lift; [apply Hd|]. wp. split; [done|]. split; [done|]. left.
    rewrite (LLT_ALIGN_size w1 e pf v Hi). cbn [andb]. exists 1, (if isprimitivetype t then round_up (v_size v) (v_align v) else v_size v), (v_align v). rewrite Heq, En. split.
    - exists t, v. by split_and!.
    - f_equal; [f_equal|]; zcases; lia. }
  induction ty as [d|x IHx y IHy|x0 IH0|x0 IH0|x0 IH0| |i0|x0 IH0|i0|i0|i0]; intros pf nbytes align w Hok Hask Hn; try (apply Hleaf; done).
  cbn [union_isinlinable nleaves] in *. destruct (askable_union _ _ _ Hask) as [Hax Hay].
  assert (forall ty, 1 <= nleaves ty) as Hnl by (clear; induction ty; cbn; lia). pose proof (Hnl x). pose proof (Hnl y).
  apply wp_bind. eapply wp_mono; [apply IHx; [done|done|lia]|]. intros [[na nb1] al1] w1 (Hok1 & Hx1 & [(n1 & s1 & a1 & H1 & [= -> -> ->])|[E0 Hnev]]).
  2:{ cbn in E0. subst na. wp. cbn [Z.eqb]. wp. split; [done|]. split; [done|]. right. split; [done|]. intros w2 n9 s9 a9 Hx2 Hok2 (n1 & s1 & a1 & _ & _ & _ & H1 & _).
      by apply (Hnev w2 n1 s1 a1). }
  destruct (inline_ty_bounds _ _ _ _ _ _ H1) as (Hn1 & _). destruct (Z.eqb_spec n1 0); [lia|].
  apply wp_bind. eapply wp_mono; [apply IHy; [done|by apply (askable_ext w)|lia]|]. intros [[nb nb2] al2] w2 (Hok2 & Hx2 & [(n2 & s2 & a2 & H2 & [= -> -> ->])|[E0 Hnev]]).
  2:{ cbn in E0. subst nb. wp. cbn [Z.eqb]. wp. split; [done|]. split; [by etrans|]. right. split; [done|]. intros w3 n9 s9 a9 Hx3 Hok3 (_ & _ & _ & n2 & s2 & a2 & _ & H2 & _).
      by apply (Hnev w3 n2 s2 a2). }
  destruct (inline_ty_bounds _ _ _ _ _ _ H2) as (Hn2 & _). destruct (Z.eqb_spec n2 0); [lia|]. wp. split; [done|]. split; [by etrans|]. left.
  exists (n1 + n2), (Z.max s1 s2), (Z.max a1 a2). split.
  - exists n1, s1, a1, n2, s2, a2. split_and!; try done. by apply (inline_ty_ext w1).
  - rewrite uw_small by (unfold in_range; lia). f_equal; [f_equal|]; lia.
Qed.

(** A type stored inline in a field: its size and alignment. *)
Definition inline_field (w : world) (ty : jl_value_t) (s a : Z) : Prop := exists n, inline_ty w ty false n s a /\ n < 127.
Definition boxed_field (w : world) (ty : jl_value_t) : Prop := forall w' s a, ext w w' -> wok w' -> ~ inline_field w' ty s a.

(** Bytes determine the count, size and alignment. *)
Lemma inline_ty_unique w ty pf n s a n' s' a' : inline_ty w ty pf n s a -> inline_ty w ty pf n' s' a' -> n = n' /\ s = s' /\ a = a'.
Proof using.
  revert pf n s a n' s' a'. assert (forall e pf v v', inl w e pf v -> inl w e pf v' -> v_size v = v_size v' /\ v_align v = v_align v') as Hl.
  { intros e pf v v' (t & Ht & _ & _ & Hv & _) (t' & Ht' & _ & _ & Hv' & _). simplify_eq.
    destruct (layout_in_unique _ _ _ _ (lo_in _ _ _ _ _ Hv) (lo_in _ _ _ _ _ Hv')) as (? & ? & _). done. }
  induction ty as [d|x IHx y IHy|x0 IH0|x0 IH0|x0 IH0| |i0|x0 IH0|i0|i0|i0]; intros pf n s a n' s' a'; cbn [inline_ty];
    try (destruct (normalize_typeofbottom_layout_alias env _) as [e| | | | | | | | | |]; try done;
      intros (t & v & Ht & Hi & -> & -> & ->) (t' & v' & Ht' & Hi' & -> & -> & ->); simplify_eq; destruct (Hl _ _ _ _ Hi Hi') as [-> ->]; done).
  intros (n1 & s1 & a1 & n2 & s2 & a2 & H1 & H2 & -> & -> & ->) (n1' & s1' & a1' & n2' & s2' & a2' & H1' & H2' & -> & -> & ->).
  destruct (IHx _ _ _ _ _ _ _ H1 H1') as (-> & -> & ->), (IHy _ _ _ _ _ _ _ H2 H2') as (-> & -> & ->). done.
Qed.

Lemma islayout_inline_spec ty w : ok w -> askable w ty -> nleaves ty < 2 ^ 32 ->
  wp (jl_islayout_inline env try ty 0 1) w (fun r w' => ok w' /\ ext w w' /\
    ((exists n s a, n <> 0 /\ inline_field w' ty s a /\ r = (n, s, a)) \/ (r.1.1 = 0 /\ boxed_field w' ty))).
Proof using Htry.
  intros Hok Hask Hn. unfold jl_islayout_inline. apply wp_bind. eapply wp_mono; [by apply union_isinlinable_spec|].
  intros [[n s] a] w1 (Hok1 & Hx1 & [(n1 & s1 & a1 & H1 & [= -> -> ->])|[E0 Hnev]]); wp; (split; [done|]; split; [done|]).
  - destruct (inline_ty_bounds _ _ _ _ _ _ H1) as ([Hn1 Hn2] & Ha & Hs & _). pose proof (pow2_bound _ Ha). destruct (Z.ltb_spec 0 n1); [|lia]. cbn [andb].
    destruct (Z.ltb_spec n1 127).
    + left. exists n1, s1, a1. split_and!; [lia|by exists n1|f_equal; [f_equal|]; lia].
    + right. split; [done|]. intros w2 s2 a2 Hx2 Hok2 (n2 & Hi2 & Hlt). destruct (inline_ty_unique _ _ _ _ _ _ _ _ _ (inline_ty_ext _ _ _ _ _ _ _ Hx2 H1) Hi2). lia.
  - right. cbn in E0. subst n. split; [done|]. intros w2 s2 a2 Hx2 Hok2 (n2 & H2 & Hlt). by apply (Hnev w2 n2 s2 a2).
Qed.
End Inline.
