(* ===== verification/LayoutFields.v ===== *)
(** * Layouts: placing the fields of a struct *)
From stdpp Require Import gmap.
From Stdlib Require Import Sorting.Sorted.
From S2P Require Import Prelude Probe Htable HtableFacts Layout LayoutFacts Datatype LayoutWorld.

(** * Layouts: placing the fields of a struct *)

#[local] Open Scope layout_scope.

(** ** Placement *)

(** What the placement of a field depends on; [f_lock]: it needs the
    lock; [f_pad]: its bytes have padding. *)
Record finfo := { f_ptr : bool; f_size : Z; f_align : Z; f_ptrs : list Z; f_lock : bool; f_pad : bool }.

Definition align_to (sz a : Z) : Z := if a =? 0 then sz else round_up sz a.
Fixpoint place (sz : Z) (fs : list finfo) : list Z :=
  match fs with [] => [] | f :: fs => align_to sz (f_align f) :: place (align_to sz (f_align f) + f_size f) fs end.
Fixpoint place_end (sz : Z) (fs : list finfo) : Z :=
  match fs with [] => sz | f :: fs => place_end (align_to sz (f_align f) + f_size f) fs end.
Fixpoint no_gaps (sz : Z) (fs : list finfo) : Prop :=
  match fs with [] => True | f :: fs => align_to sz (f_align f) = sz /\ no_gaps (sz + f_size f) fs end.
Definition max_align (fs : list finfo) : Z := foldr (fun f m => Z.max (f_align f) m) 1 fs.
Definition descs (base : Z) (fs : list finfo) : list jl_fielddesc32_t :=
  zip_with (fun f o => {| isptr := f_ptr f; fsize := f_size f; offset := o + base |}) fs (place 0 fs).
Fixpoint ptrs_from (base sz : Z) (fs : list finfo) : list Z :=
  match fs with
  | [] => []
  | f :: fs => map (fun p => (align_to sz (f_align f) + base) / 8 + p) (f_ptrs f) ++ ptrs_from base (align_to sz (f_align f) + f_size f) fs
  end.
Definition all_ptrs (base : Z) (fs : list finfo) : list Z := ptrs_from base 0 fs.

Lemma place_app sz fs gs : place sz (fs ++ gs) = place sz fs ++ place (place_end sz fs) gs.
Proof. revert sz. induction fs as [|f fs IH]; intros sz; [done|]. cbn [app place place_end]. by rewrite IH. Qed.
Lemma place_end_app sz fs gs : place_end sz (fs ++ gs) = place_end (place_end sz fs) gs.
Proof. revert sz. induction fs as [|f fs IH]; intros sz; [done|]. cbn [app place_end]. by rewrite IH. Qed.
Lemma no_gaps_app sz fs gs : no_gaps sz (fs ++ gs) <-> no_gaps sz fs /\ no_gaps (place_end sz fs) gs.
Proof.
  revert sz. induction fs as [|f fs IH]; intros sz; [cbn; tauto|]. cbn [app no_gaps place_end]. rewrite IH.
  split; [intros (E & ? & ?); rewrite E; tauto|intros ((E & ?) & ?); rewrite E in *; tauto].
Qed.
Lemma place_length sz fs : length (place sz fs) = length fs.
Proof. revert sz. induction fs as [|f fs IH]; intros sz; [done|]. cbn [place length]. by rewrite IH. Qed.
Lemma max_align_app fs gs : max_align (fs ++ gs) = Z.max (max_align fs) (max_align gs).
Proof.
  assert (forall fs, 1 <= max_align fs) as H1 by (clear; induction fs; cbn [max_align foldr]; [done|]; fold (max_align fs); lia).
  induction fs as [|f fs IH]; [cbn [app]; specialize (H1 gs); change (max_align []) with 1; lia|].
  cbn [app max_align foldr]. fold (max_align (fs ++ gs)) (max_align fs). lia.
Qed.
Lemma descs_app base fs g : descs base (fs ++ [g]) = descs base fs ++ [{| isptr := f_ptr g; fsize := f_size g; offset := align_to (place_end 0 fs) (f_align g) + base |}].
Proof. unfold descs. rewrite place_app, zip_with_app by (by rewrite place_length). done. Qed.

(** A field as the placement expects it. *)
Record finfo_ok (f : finfo) : Prop := {
  fo_align : f_align f = 0 \/ pow2 (f_align f);
  fo_size : 0 <= f_size f < 2 ^ 31;
  fo_sorted : StronglySorted Z.lt (f_ptrs f);
  fo_inside : Forall (fun p => 0 <= p /\ 8 * p + 8 <= f_size f) (f_ptrs f);
  fo_words : f_ptrs f <> [] -> (8 | f_align f) /\ f_align f <> 0;
}.

Lemma align_to_ge sz f : finfo_ok f -> sz <= align_to sz (f_align f).
Proof.
  intros Hf. unfold align_to. destruct (Z.eqb_spec (f_align f) 0); [lia|]. destruct (fo_align _ Hf) as [?|Hp]; [done|].
  pose proof (pow2_bound _ Hp). apply round_up_spec. lia.
Qed.
Lemma place_end_ge sz fs : Forall finfo_ok fs -> sz <= place_end sz fs.
Proof.
  intros Hf. revert sz. induction Hf as [|f fs Hf _ IH]; intros sz; [done|]. cbn [place_end]. pose proof (align_to_ge sz f Hf). pose proof (fo_size _ Hf).
  specialize (IH (align_to sz (f_align f) + f_size f)). lia.
Qed.

(** Fields lie one after the other, each aligned, before the end. *)
Lemma place_lookup sz fs i f o : Forall finfo_ok fs -> fs !! i = Some f -> place sz fs !! i = Some o ->
  sz <= o /\ (f_align f = 0 \/ (f_align f | o)) /\ o + f_size f <= place_end sz fs.
Proof.
  intros Hf. revert sz i. induction Hf as [|g fs Hg Hfs IH]; intros sz [|i] Hi Ho; [done..| |]; cbn [place lookup list_lookup place_end] in *.
  - injection Hi as ->. injection Ho as <-. pose proof (align_to_ge sz f Hg). split; [done|]. split; [|by apply place_end_ge].
    unfold align_to. destruct (Z.eqb_spec (f_align f) 0); [by left|right]. destruct (fo_align _ Hg) as [?|Hp]; [done|].
    pose proof (pow2_bound _ Hp). apply round_up_spec. lia.
  - destruct (IH _ i Hi Ho) as (H1 & H2 & H3). pose proof (align_to_ge sz g Hg). pose proof (fo_size _ Hg). split_and!; [lia|done..].
Qed.
Lemma place_ordered sz fs i j f o o' : Forall finfo_ok fs -> (i < j)%nat -> fs !! i = Some f -> place sz fs !! i = Some o -> place sz fs !! j = Some o' -> o + f_size f <= o'.
Proof.
  intros Hf. revert sz i j. induction Hf as [|g fs Hg Hfs IH]; intros sz i [|j] Hij Hi Ho Ho'; [done..|lia|]; destruct i as [|i]; cbn [place lookup list_lookup] in *.
  - injection Hi as ->. injection Ho as <-. destruct (lookup_lt_is_Some_2 fs j) as [h Eh]; [rewrite <- (place_length (align_to sz (f_align f) + f_size f)); by eapply lookup_lt_Some|].
    by destruct (place_lookup _ _ _ _ _ Hfs Eh Ho').
  - apply (IH (align_to sz (f_align g) + f_size g) i j); [lia|done..].
Qed.

Lemma descs_lookup base fs i d : descs base fs !! i = Some d -> exists f o, fs !! i = Some f /\ place 0 fs !! i = Some o /\
  d = {| isptr := f_ptr f; fsize := f_size f; offset := o + base |}.
Proof. unfold descs. rewrite lookup_zip_with_Some. intros (f & o & -> & Hf & Ho). by exists f, o. Qed.

(** ** Pointers in order *)

Lemma StronglySorted_app (l1 l2 : list Z) : StronglySorted Z.lt l1 -> StronglySorted Z.lt l2 -> (forall x y, x ∈ l1 -> y ∈ l2 -> x < y) -> StronglySorted Z.lt (l1 ++ l2).
Proof.
  intros H1 H2 H12. induction H1 as [|x l1 H1 IH Hx]; [done|]. cbn [app]. constructor.
  - apply IH. intros y z Hy. apply H12. by right.
  - apply List.Forall_app. split; [done|]. apply List.Forall_forall. intros y Hy. apply H12; [by left|by apply list_elem_of_In].
Qed.
Lemma sorted_map_lt (f : Z -> Z) l : (forall x y, x < y -> f x < f y) -> StronglySorted Z.lt l -> StronglySorted Z.lt (map f l).
Proof.
  intros Hf. induction 1 as [|x l H IH Hx]; [constructor|]. cbn [map]. constructor; [done|]. apply List.Forall_map. eapply List.Forall_impl; [|exact Hx]. auto.
Qed.

(** The pointers of the fields from offset [sz] on: sorted, inside, distinct. *)
Lemma ptrs_from_spec base sz fs : Forall finfo_ok fs -> 0 <= sz -> 0 <= base -> (Exists (fun f => f_ptrs f <> []) fs -> (8 | base)) ->
  StronglySorted Z.lt (ptrs_from base sz fs) /\ Forall (fun p => sz + base <= 8 * p /\ 8 * p + 8 <= place_end sz fs + base) (ptrs_from base sz fs).
Proof.
  intros Hf. revert sz. induction Hf as [|f fs Hf Hfs IH]; intros sz Hsz Hb Hd; cbn [ptrs_from place_end].
  { split; constructor. }
  pose proof (align_to_ge sz f Hf). pose proof (fo_size _ Hf). set (o := align_to sz (f_align f)) in *.
  destruct (IH (o + f_size f)) as [IH1 IH2]; [lia|done|intros He; apply Hd; by right|].
  set (ps := ptrs_from _ _ _) in *. pose proof (place_end_ge (o + f_size f) fs Hfs).
  assert (Forall (fun p => sz + base <= 8 * p /\ 8 * p + 8 <= o + f_size f + base) (map (fun p => (o + base) / 8 + p) (f_ptrs f))) as Hin.
  { destruct (f_ptrs f) as [|p0 ps0] eqn:Ep; [constructor|]. rewrite <- Ep. destruct (fo_words _ Hf) as [H8 Hne]; [by rewrite Ep|].
    assert ((8 | o + base)) as [q Eq].
    { apply Z.divide_add_r; [|apply Hd; left; by rewrite Ep]. unfold o, align_to. destruct (Z.eqb_spec (f_align f) 0); [done|].
      destruct (fo_align _ Hf) as [?|Hp]; [done|]. pose proof (pow2_bound _ Hp). etrans; [exact H8|]. apply round_up_spec. lia. }
    rewrite Eq, Z.div_mul by lia. apply Forall_fmap. eapply Forall_impl; [apply Hf|]. cbv beta. intros p Hp. cbn. lia. }
  split.
  - apply StronglySorted_app; [apply sorted_map_lt; [lia|apply Hf]|done|]. intros x y Hx Hy.
    rewrite Forall_forall in Hin, IH2. specialize (Hin x Hx). specialize (IH2 y Hy). cbv beta in *. lia.
  - apply Forall_app. split; [eapply Forall_impl; [exact Hin|]|eapply Forall_impl; [exact IH2|]]; cbv beta; lia.
Qed.

(** * Layouts: questions about types that only read the world *)

#[local] Open Scope layout_scope.

(** [m] ends without an error, and leaves the world as it is. *)
Definition reads {A} (m : M A) (w : world) : Prop := exists a, m w = Some (Ok a w).

Lemma reads_wp {A} (m : M A) w (Q : A -> world -> Prop) : reads m w -> (forall a, Q a w) -> wp m w Q.
Proof. intros [a E] HQ. exists a, w. split; [done|apply HQ]. Qed.
Lemma reads_ret {A} (a : A) w : reads (ret a) w.
Proof. by exists a. Qed.
Lemma reads_bind {A B} (m : M A) (k : A -> M B) w : reads m w -> (forall a, m w = Some (Ok a w) -> reads (k a) w) -> reads (bind m k) w.
Proof. intros [a E] Hk. destruct (Hk a E) as [b E2]. exists b. unfold bind. by rewrite E. Qed.
Lemma reads_dt {A} d t (k : jl_datatype_t -> M A) w : dts w !! d = Some t -> reads (k t) w -> reads (bind (dt_at d) k) w.
Proof. intros Ht [a E]. exists a. unfold bind, dt_at. by rewrite Ht. Qed.
Lemma reads_or a b w : reads a w -> reads b w -> reads (or_ a b) w.
Proof. intros Ha Hb. apply reads_bind; [done|]. intros [] _; [apply reads_ret|done]. Qed.
Lemma reads_and a b w : reads a w -> reads b w -> reads (and_ a b) w.
Proof. intros Ha Hb. apply reads_bind; [done|]. intros [] _; [done|apply reads_ret]. Qed.
#[export] Hint Resolve reads_ret reads_or reads_and : reads.

(** [d] exists. *)
Definition there (w : world) (d : nat) : Prop := (d < length (dts w))%nat.
Lemma reads_there {A} d (k : jl_datatype_t -> M A) w : there w d -> (forall t, dts w !! d = Some t -> reads (k t) w) -> reads (bind (dt_at d) k) w.
Proof. intros Hd Hk. destruct (lookup_lt_is_Some_2 _ _ Hd) as [t Ht]. eapply reads_dt; [exact Ht|by apply Hk]. Qed.

Lemma field_bit_reads fields i w n : (i < n)%nat -> (forall ws, fields = Some ws -> (n <= 32 * length ws)%nat) -> reads (field_bit fields i) w.
Proof.
  intros Hi Hb. unfold field_bit. destruct fields as [ws|]; [|apply reads_ret]. specialize (Hb ws eq_refl).
  destruct (lookup_lt_is_Some_2 ws (i / 32)%nat) as [x Ex]; [apply Nat.Div0.div_lt_upper_bound; lia|].
  exists (Z.testbit x (Z.of_nat (i mod 32))). unfold bind, lift, ret. by rewrite Ex.
Qed.

Section Reads.
Context (env : type_env) (B : bounds) (w : world) (Hok : wok env B w).

Lemma singleton_reads d : there w d -> reads (jl_is_datatype_singleton d) w.
Proof using Hok.
  intros Hd. unfold jl_is_datatype_singleton. apply reads_there; [done|]. intros t Ht. destruct (instance t) eqn:Ei; cbn [negb]; [|apply reads_ret].
  destruct Hok as [n Hn]. pose proof (wo_instance _ _ _ _ Hn d t Ht Ei) as Hl. destruct (wo_layout _ _ _ _ Hn d t Ht Hl) as [v Hv].
  destruct (layout_in_decodes _ _ _ (lo_in _ _ _ _ _ Hv)) as [El Hdec].
  eexists. unfold bind, layout_bytes, lift, ret. rewrite El. cbn [mbind option_bind]. rewrite (d_size _ _ Hdec), (d_npointers _ _ Hdec). reflexivity.
Qed.

Lemma unwrap_datatypes t d : jl_unwrap_unionall t = Datatype d -> d ∈ datatypes t.
Proof using. induction t; cbn; intros E; simplify_eq; [by left|auto]. Qed.

Lemma pointer_egal_reads fld : Forall (there w) (datatypes fld) -> reads (jl_pointer_egal env fld) w.
Proof using Hok.
  assert (forall t (a b c : bool), Forall (there w) (datatypes t) -> reads (match jl_unwrap_unionall t with
    | Datatype d => let! u := dt_at d in ret (mutabl (name u) && a && b && c)
    | _ => ret false end) w) as Hu.
  { intros t a b c Ht. destruct (jl_unwrap_unionall t) as [d| | | | | | | | | |] eqn:E; try apply reads_ret.
    apply unwrap_datatypes in E. rewrite Forall_forall in Ht. apply reads_there; [by apply Ht|]. intros. apply reads_ret. }
  assert (forall fld (c : M bool), reads c w -> reads (if decide (fld = Datatype (jl_any_type env)) then ret false else
    if decide (fld = Datatype (jl_symbol_type env)) then ret true else if decide (fld = Datatype (jl_bool_type env)) then ret true else c) w) as Hdec
    by (intros; repeat (destruct (decide _); [apply reads_ret|]); done).
  intros Hc. induction fld as [d|a IHa b IHb|x0 IH0|x0 IH0|x0 IH0| |i0|x0 IH0|i0|i0|i0]; apply Hdec; cbn [datatypes] in Hc;
    (apply reads_or; [|apply reads_or; [|apply reads_or]]); try apply reads_ret.
  - by apply Hu.
  - apply Forall_cons in Hc as [Hc _]. by apply singleton_reads.
  - apply Forall_app in Hc as [Hc1 Hc2]. apply reads_and; auto.
  - by apply (Hu (Unionall x0)).
  - destruct x0; apply reads_ret.
  - destruct x0; apply reads_ret.
  - destruct x0 as [d| | | | | | | | | |]; try apply reads_ret. destruct (decide _); [apply reads_ret|].
    apply Forall_cons in Hc as [Hc _]. apply reads_there; [done|]. intros. apply reads_ret.
Qed.

Lemma type_mutationfree_reads fld : there w (jl_typeofbottom_type env) -> Forall (there w) (datatypes fld) -> reads (is_type_mutationfree env fld) w.
Proof using.
  intros Hb Hc. induction fld as [d|a IHa b IHb|x0 IH0|x0 IH0|x0 IH0| |i0|x0 IH0|i0|i0|i0]; cbn [is_type_mutationfree datatypes] in *; try apply reads_ret; auto.
  - apply Forall_cons in Hc as [Hc _]. apply reads_there; [done|]. intros. apply reads_ret.
  - apply Forall_app in Hc as [Hc1 Hc2]. apply reads_and; auto.
  - destruct x0; try apply reads_ret. apply reads_there; [done|]. intros. apply reads_ret.
Qed.
Lemma type_identityfree_reads fld : there w (jl_typeofbottom_type env) -> Forall (there w) (datatypes fld) -> reads (is_type_identityfree env fld) w.
Proof using.
  intros Hb Hc. induction fld as [d|a IHa b IHb|x0 IH0|x0 IH0|x0 IH0| |i0|x0 IH0|i0|i0|i0]; cbn [is_type_identityfree datatypes] in *; try apply reads_ret; auto.
  - apply Forall_cons in Hc as [Hc _]. apply reads_there; [done|]. intros. apply reads_ret.
  - apply Forall_app in Hc as [Hc1 Hc2]. apply reads_and; auto.
  - destruct x0; try apply reads_ret. apply reads_there; [done|]. intros. apply reads_ret.
Qed.
End Reads.

(** * Layouts: how each field of a struct is stored *)

#[local] Open Scope layout_scope.

(** ** Atomic fields are widened to a power of two *)

Lemma next_power_of_two_small x : 0 <= x <= 16 -> (x = 0 /\ next_power_of_two x = 0) \/
  (0 < x /\ pow2 (next_power_of_two x) /\ x <= next_power_of_two x <= 16 /\ (8 <= x -> (8 | next_power_of_two x))).
Proof.
  intros Hx. assert (x = 0 \/ x = 1 \/ x = 2 \/ (3 <= x <= 4) \/ (5 <= x <= 8) \/ (9 <= x <= 16)) as Hc by lia.
  assert (forall k, 0 <= k <= 4 -> pow2 (2 ^ k)) as Hp by (intros k Hk; exists k; split; [lia|done]).
  destruct Hc as [->|[->|[->|Hc]]]; [by left|right..].
  - split_and!; [done|by apply (Hp 0)|done|done|done].
  - split_and!; [done|by apply (Hp 1)|done|done|done].
  - assert (next_power_of_two x = 4 \/ next_power_of_two x = 8 \/ next_power_of_two x = 16) as H.
    { destruct Hc as [Hc|[Hc|Hc]]; [left; assert (x = 3 \/ x = 4) as H by lia|right; left; assert (x = 5 \/ x = 6 \/ x = 7 \/ x = 8) as H by lia|
        right; right; assert (x = 9 \/ x = 10 \/ x = 11 \/ x = 12 \/ x = 13 \/ x = 14 \/ x = 15 \/ x = 16) as H by lia];
        repeat (destruct H as [->|H]; [reflexivity|]); subst; reflexivity. }
    assert (x <= next_power_of_two x /\ (8 <= x -> 8 <= next_power_of_two x)) as [H1 H2].
    { destruct Hc as [Hc|[Hc|Hc]]; [assert (x = 3 \/ x = 4) as H0 by lia|assert (x = 5 \/ x = 6 \/ x = 7 \/ x = 8) as H0 by lia|
        assert (x = 9 \/ x = 10 \/ x = 11 \/ x = 12 \/ x = 13 \/ x = 14 \/ x = 15 \/ x = 16) as H0 by lia];
        repeat (destruct H0 as [->|H0]; [by split|]); subst; by split. }
    split; [lia|]. destruct H as [E|[E|E]]; rewrite E in *; (split_and!; [by (apply (Hp 2) || apply (Hp 3) || apply (Hp 4))|lia|lia|]).
    + lia.
    + intros _. by exists 1.
    + intros _. by exists 2.
Qed.

Definition finish (atomic ptr : bool) (fsz al : Z) (ptrs : list Z) (pad : bool) : finfo :=
  {| f_ptr := ptr; f_size := if atomic && (fsz <=? MAX_ATOMIC_SIZE) then next_power_of_two fsz else fsz;
     f_align := if atomic && (fsz <=? MAX_ATOMIC_SIZE) then next_power_of_two fsz else al; f_ptrs := ptrs;
     f_lock := atomic && (MAX_ATOMIC_SIZE <? fsz); f_pad := pad |}.

Section Kind.
Context (env : type_env) (B : bounds).
#[local] Abbreviation ext := (ext env).

(** How a field is stored: a union of bits with its selector byte, an inline
    data type, or a pointer. *)
Inductive content (w : world) (atomic : bool) (fld : jl_value_t) : bool -> Z -> Z -> list Z -> bool -> Prop :=
| c_union s a : jl_is_uniontype fld = true -> atomic = false -> inline_field env B w fld s a -> content w atomic fld false (s + 1) a [] false
| c_data e t v s : normalize_typeofbottom_layout_alias env fld = Datatype e -> dts w !! e = Some t -> inl B w e false v ->
    s = (if isprimitivetype t then round_up (v_size v) (v_align v) else v_size v) ->
    content w atomic fld false s (v_align v) (v_ptrs v) (v_haspadding v || (v_size v <? s))
| c_boxed : boxed_field env B w fld \/ (atomic = true /\ jl_is_uniontype fld = true) -> content w atomic fld true 8 8 [0] false.

Definition field_info (w : world) (atomic : bool) (fld : jl_value_t) (fi : finfo) : Prop :=
  exists ptr fsz al ptrs pad, content w atomic fld ptr fsz al ptrs pad /\ fi = finish atomic ptr fsz al ptrs pad.

Lemma content_ext w w' atomic fld ptr fsz al ptrs pad : ext w w' -> content w atomic fld ptr fsz al ptrs pad -> content w' atomic fld ptr fsz al ptrs pad.
Proof using.
  intros Hx. destruct 1 as [s a Hu Ha (n & Hi & Hn)|e t v s En Ht Hi Es|Hb].
  - apply c_union; [done..|]. exists n. split; [by apply (inline_ty_ext env B w)|done].
  - destruct (ext_dt env _ _ _ _ Hx Ht) as (t' & Ht' & Et). assert (isprimitivetype t' = isprimitivetype t) as Ep by (by injection Et).
    apply (c_data w' atomic fld e t' v s); [done|done|by apply (inl_ext env B w)|by rewrite Ep].
  - apply c_boxed. destruct Hb as [Hb|Hb]; [left|by right]. intros w2 s a Hx2. apply Hb. by etrans.
Qed.
Lemma field_info_ext w w' atomic fld fi : ext w w' -> field_info w atomic fld fi -> field_info w' atomic fld fi.
Proof using. intros Hx (ptr & fsz & al & ptrs & pad & Hc & E). do 5 eexists. split; [by eapply content_ext|done]. Qed.

(** ** Bounds of a field *)

Lemma sorted_count l s : StronglySorted Z.lt l -> Forall (fun p => 0 <= p /\ 8 * p + 8 <= s) l -> 0 <= s -> 8 * Z.of_nat (length l) <= s.
Proof using.
  intros Hs Hf H0. enough (forall lo, Forall (fun p => lo <= p /\ 8 * p + 8 <= s) l -> 8 * lo <= s -> 8 * (lo + Z.of_nat (length l)) <= s) as H by (specialize (H 0 Hf); lia).
  clear Hf. induction Hs as [|p l Hs IH Hp]; intros lo Hf Hlo; [cbn; lia|]. apply Forall_cons in Hf as [[Hl He] Hf]. cbn [length].
  specialize (IH (p + 1)). rewrite List.Forall_forall in Hp. rewrite Forall_forall in Hf.
  assert (8 * (p + 1 + Z.of_nat (length l)) <= s); [|lia]. apply IH; [|lia].
  apply Forall_forall. intros q Hq. specialize (Hp q ltac:(by apply list_elem_of_In)). specialize (Hf q Hq). cbv beta in *. lia.
Qed.

Lemma content_bounds w atomic fld ptr fsz al ptrs pad : content w atomic fld ptr fsz al ptrs pad ->
  pow2 al /\ 0 <= fsz /\ fsz <= max_over (size_bound B) (leaves env fld) + 1 /\ al <= max_over (align_bound B) (leaves env fld) /\
  (al <= 16 \/ exists e, e ∈ leaves env fld /\ al <= align_bound B e) /\
  StronglySorted Z.lt ptrs /\ Forall (fun p => 0 <= p /\ 8 * p + 8 <= fsz) ptrs /\ (ptrs <> [] -> (8 | al)).
Proof using.
  assert (pow2 8) as H8 by (exists 3; split; [lia|done]).
  pose proof (max_over_ge (size_bound B) (leaves env fld)) as [Hs16 _]. pose proof (max_over_ge (align_bound B) (leaves env fld)) as [Ha16 _].
  destruct 1 as [s a Hu Ha (n & Hi & Hn)|e t v s En Ht Hi ->|Hb].
  - destruct (inline_ty_bounds env B _ _ _ _ _ _ Hi) as (_ & Hp & Hs & (e & He1 & He2) & Ha2). split_and!; try done; try lia; [right; by exists e|constructor].
  - assert (inline_ty env B w fld false 1 (if isprimitivetype t then round_up (v_size v) (v_align v) else v_size v) (v_align v)) as Hty.
    { destruct fld; try done; cbn [inline_ty]; rewrite En; by exists t, v. }
    destruct (inline_ty_bounds env B _ _ _ _ _ _ Hty) as (_ & Hp & Hs & (e' & He1 & He2) & Ha2). destruct (inl_good B _ _ _ _ Hi) as [Hg Henc].
    pose proof (pow2_bound _ Hp). pose proof (round_up_ge (v_size v) (v_align v) ltac:(lia)).
    split_and!; try done; try lia; [right; by exists e'|apply Hg| |apply Hg].
    eapply Forall_impl; [apply Hg|]. cbv beta. intros p Hpp. destruct (isprimitivetype t); lia.
  - split_and!; try done; try lia.
    + repeat constructor.
    + apply Forall_singleton. lia.
Qed.

Lemma field_info_bounds w atomic fld fi : field_info w atomic fld fi -> max_over (size_bound B) (leaves env fld) < 2 ^ 31 - 1 ->
  finfo_ok fi /\ f_size fi + f_align fi <= field_cost env B fld /\ 0 <= f_align fi /\
  (f_align fi <= 16 \/ exists e, e ∈ leaves env fld /\ f_align fi <= align_bound B e).
Proof using.
  intros (ptr & fsz & al & ptrs & pad & Hc & ->) Hlt. destruct (content_bounds _ _ _ _ _ _ _ _ Hc) as (Hp & H0 & Hs & Ha & He & Hsort & Hin & H8).
  pose proof (max_over_ge (size_bound B) (leaves env fld)) as [Hs16 _]. pose proof (max_over_ge (align_bound B) (leaves env fld)) as [Ha16 _].
  pose proof (pow2_bound _ Hp). change (2 ^ 31) with 2147483648 in *. unfold field_cost, finish, MAX_ATOMIC_SIZE.
  destruct (atomic && (fsz <=? 16)) eqn:E.
  - apply andb_true_iff in E as [-> Hle%Z.leb_le]. cbn [f_ptr f_size f_align f_ptrs f_lock f_pad].
    destruct (next_power_of_two_small fsz ltac:(lia)) as [[-> E]|(Hpos & Hpw & Hle2 & Hd8)].
    + rewrite E. split; [|split_and!; [lia..|by left; lia]]. split; cbn [f_ptr f_size f_align f_ptrs f_lock f_pad]; try done; [by left|].
      destruct ptrs as [|p ps]; [done|]. apply Forall_cons in Hin as [? _]. lia.
    + pose proof (pow2_bound _ Hpw). split; [|split_and!; [lia..|by left; lia]]. split; cbn [f_ptr f_size f_align f_ptrs f_lock f_pad]; [by right|change (2 ^ 31) with 2147483648; lia|done| |].
      * eapply Forall_impl; [exact Hin|]. cbv beta. lia.
      * destruct ptrs as [|p ps]; [done|]. apply Forall_cons in Hin as [? _]. intros _. split; [apply Hd8; lia|lia].
  - cbn [f_ptr f_size f_align f_ptrs f_lock f_pad]. split; [|split_and!; [lia..|done]].
    split; cbn [f_ptr f_size f_align f_ptrs f_lock f_pad]; [by right|change (2 ^ 31) with 2147483648; lia|done|done|].
    intros Hne. split; [by apply H8|lia].
Qed.
End Kind.
