(* ===== verification/LayoutStruct.v ===== *)
(** * Layouts: all fields of a struct, their pointers and the lock *)
From stdpp Require Import gmap.
From Stdlib Require Import Sorting.Sorted.
From S2P Require Import Prelude Probe Layout LayoutFacts Datatype LayoutWorld LayoutFields.

(** * Layouts: the loop over the fields of a struct *)

#[local] Open Scope layout_scope.

Section Step.
Context (env : type_env) (B : bounds) (I : world -> Prop) (try : nat -> M bool) (k : nat) (Htry : try_ok env B I try k).
#[local] Abbreviation ext := (ext env).
#[local] Abbreviation ok := (ok env B I).

(** A field that may be asked for. *)
Record field_fine (w : world) (fld : jl_value_t) : Prop := {
  ff_askable : askable env B k w fld;
  ff_leaves : nleaves fld < 2 ^ 32;
  ff_there : Forall (there w) (datatypes fld);
  ff_size : max_over (size_bound B) (leaves env fld) < 2 ^ 31 - 1;
}.
Lemma there_ext w w' d : ext w w' -> there w d -> there w' d.
Proof using. intros Hx. unfold there. by rewrite <- !sigs_length, (ex_sigs _ _ _ Hx). Qed.
Lemma field_fine_ext w w' fld : ext w w' -> field_fine w fld -> field_fine w' fld.
Proof using.
  intros Hx [H1 H2 H3 H4]. split; [by apply (askable_ext env B _ w)|done| |done]. eapply Forall_impl; [exact H3|]. intros d. by apply there_ext.
Qed.

(** A leaf that is stored inline. *)
Lemma inline_leaf w fld s a : jl_is_uniontype fld = false -> inline_field env B w fld s a ->
  exists e t v, normalize_typeofbottom_layout_alias env fld = Datatype e /\ dts w !! e = Some t /\ inl B w e false v /\ a = v_align v /\
    s = if isprimitivetype t then round_up (v_size v) (v_align v) else v_size v.
Proof using.
  intros Hu (n & Hi & _). destruct fld; try done; cbn [inline_ty] in Hi; destruct (normalize_typeofbottom_layout_alias env _) as [e| | | | | | | | | |]; try done;
    destruct Hi as (t & v & Ht & Hi & _ & Ha & Hs); by exists e, t, v.
Qed.

(** What the loop keeps in its state besides the placement. *)
Record grown (s s' : loop_state) (np : Z) (ptr pad : bool) : Prop := {
  gr_sz : sz s' = sz s;
  gr_alignm : alignm s' = alignm s;
  gr_zeroinit : zeroinit_ s = true \/ ptr = true -> zeroinit_ s' = true;
  gr_padding : haspadding s' = haspadding s || pad;
  gr_needlock : needlock s' = needlock s;
  gr_npointers : npointers s' = npointers s + np;
  gr_desc : desc s' = desc s;
  gr_bits : isbitsegal s' = true -> isbitsegal s = true;
}.

Lemma field_kind_spec st nf i fld atomic s w : ok w -> field_fine w fld -> 0 <= npointers s < 2 ^ 31 ->
  wp (field_kind env try st nf i fld atomic s) w (fun r w' => ok w' /\ ext w w' /\
    let '(ptr, fsz, al, s') := r in exists ptrs pad, content env B w' atomic fld ptr fsz al ptrs pad /\
      grown s s' (Z.of_nat (length ptrs)) (negb (bool_decide (ptrs = []))) pad).
Proof using Htry.
  intros Hok [Hask Hleaves Hth Hlt] Hnp. unfold field_kind. apply wp_bind. eapply wp_mono; [by apply (islayout_inline_spec env B I try k Htry fld w)|].
  intros [[n fsz] al] w1 (Hok1 & Hx1 & Hc). assert (Forall (there w1) (datatypes fld)) as Hth1 by (eapply Forall_impl; [exact Hth|]; intros d; by apply there_ext).
  change (2 ^ 31) with 2147483648 in *.
  set (cond := negb (n =? 0) && (negb atomic || jl_is_datatype (normalize_typeofbottom_layout_alias env fld))). destruct cond eqn:Ec; unfold cond in Ec; clear cond.
  - apply andb_true_iff in Ec as [Hn Hat]. apply negb_true_iff, Z.eqb_neq in Hn. destruct Hc as [(n' & s' & a' & _ & Hi & [= -> -> ->])|[H0 _]]; [|by destruct Hn].
    destruct (jl_is_uniontype fld) eqn:Eu.
    + assert (atomic = false) as Ea by (destruct fld; try done; cbn in Hat; by destruct atomic).
      pose proof (c_union env B w1 atomic fld s' a' Eu Ea Hi) as Hcont. destruct (content_bounds _ _ _ _ _ _ _ _ _ _ Hcont) as (_ & _ & Hs & _).
      destruct Hi as (m & Hi & _). destruct (inline_ty_bounds env B _ _ _ _ _ _ Hi) as (_ & _ & Hs0 & _).
      destruct (Z.ltb_spec max_size s') as [H|_]; [change max_size with 2147483647 in H; lia|]. wp. split; [done|]. split; [done|].
      rewrite uw_small by (unfold in_range; change (2 ^ 64) with 18446744073709551616; lia). exists [], false. split; [done|].
      split; cbn; try done; try lia. by rewrite orb_false_r.
    + destruct (inline_leaf w1 fld s' a' Eu Hi) as (e & t & v & En & Ht & Hinl & -> & Es).
      pose proof (c_data env B w1 atomic fld e t v s' En Ht Hinl Es) as Hcont. destruct (content_bounds _ _ _ _ _ _ _ _ _ _ Hcont) as (_ & Hs0 & Hs & _ & _ & Hsort & Hin & _).
      pose proof (sorted_count _ _ Hsort Hin Hs0) as Hcnt.
      destruct (Z.ltb_spec max_size s') as [H|_]; [change max_size with 2147483647 in H; lia|]. rewrite En.
      destruct (inl_good _ _ _ _ _ Hinl) as [Hg Henc]. pose proof (encode_decodes v Henc) as Hd. pose proof Hinl as (t' & Ht' & Hm & Hl & Hv & _). simplify_eq.
      assert (~ opaque v) as Ho by (by apply Hv). destruct (layout_in_decodes _ _ _ (lo_in _ _ _ _ _ Hv)) as [El _].
      unfold jl_datatype_size. wp. apply (datatype_layout_spec env B I w1 e t v); [done..|]. wp. eapply wp_lift; [apply Hd|]. wp.
      eapply wp_lift; [apply Hd|]. wp. eapply wp_lift; [apply Hd|]. wp. split; [done|]. split; [done|].
      destruct (flags_spec (v_haspadding v) (v_isbitsegal v) (v_fd v) (v_arrayelem v) (v_unused v)) as (_ & F1 & _ & F3 & _); [apply Henc..|]. fold (v_flags v) in F1, F3.
      rewrite F1, F3, (g_npointers _ Hg). eexists _, _. split; [exact Hcont|]. rewrite uw_small by (unfold in_range; change (2 ^ 32) with 4294967296; lia).
      split; cbn; try done.
      * intros [->|Hp]; [done|]. apply orb_true_iff. right. apply negb_true_iff, bool_decide_eq_false in Hp. by apply (lo_zeroinit _ _ _ _ _ Hv).
      * rewrite <- orb_assoc. f_equal. apply orb_comm.
      * rewrite !andb_true_iff. tauto.
  - apply wp_bind. apply reads_wp; [apply (pointer_egal_reads env B); [apply Hok1|done]|]. intros pe. wp. split; [done|]. split; [done|].
    exists [0], false. split.
    + change (content env B w1 atomic fld true 8 8 [0] false). apply c_boxed. destruct Hc as [(n' & s' & a' & Hn' & Hi & [= -> -> ->])|[_ Hb]]; [|by left]. right.
      apply andb_false_iff in Ec as [Ec%negb_false_iff%Z.eqb_eq|Ec]; [done|]. apply orb_false_iff in Ec as [Ea%negb_false_iff Ed]. split; [done|].
      destruct (jl_is_uniontype fld) eqn:Eu; [done|]. destruct (inline_leaf w1 fld s' a' Eu Hi) as (e & t & v & En & _). by rewrite En in Ed.
    + split; cbn; try done.
      * by rewrite orb_false_r.
      * apply uw_small. unfold in_range. change (2 ^ 32) with 4294967296. lia.
      * by intros [??]%andb_true_iff.
Qed.

(** ** One round *)

Definition nptrs (fs : list finfo) : Z := foldr (fun f m => Z.of_nat (length (f_ptrs f)) + m) 0 fs.
Record progress (fs : list finfo) (s : loop_state) : Prop := {
  pr_sz : sz s = place_end 0 fs;
  pr_alignm : alignm s = max_align fs;
  pr_zeroinit : Exists (fun f => f_ptrs f <> []) fs -> zeroinit_ s = true;
  pr_padding : haspadding s = false -> no_gaps 0 fs /\ Forall (fun f => f_pad f = false) fs;
  pr_needlock : needlock s = existsb f_lock fs;
  pr_npointers : npointers s = nptrs fs;
  pr_desc : desc s = descs 0 fs;
}.

Lemma nptrs_app fs gs : nptrs (fs ++ gs) = nptrs fs + nptrs gs.
Proof using. induction fs as [|f fs IH]; [done|]. cbn [app nptrs foldr]. fold (nptrs fs) (nptrs (fs ++ gs)). lia. Qed.
Lemma max_align_ge fs : 1 <= max_align fs.
Proof using. induction fs as [|f fs IH]; cbn [max_align foldr]; [done|]. fold (max_align fs). lia. Qed.
Lemma nptrs_place_end sz0 fs : Forall finfo_ok fs -> 8 * nptrs fs <= place_end sz0 fs - sz0 /\ 0 <= nptrs fs.
Proof using.
  intros Hf. revert sz0. induction Hf as [|f fs Hf _ IH]; intros sz0; [cbn; lia|]. cbn [nptrs foldr place_end]. fold (nptrs fs).
  destruct (IH (align_to sz0 (f_align f) + f_size f)). pose proof (align_to_ge sz0 f Hf). pose proof (fo_size _ Hf).
  pose proof (sorted_count _ _ (fo_sorted _ Hf) (fo_inside _ Hf) ltac:(lia)). lia.
Qed.
Lemma align_to_lt sz0 f : finfo_ok f -> align_to sz0 (f_align f) <= sz0 + f_align f.
Proof using.
  intros Hf. unfold align_to. destruct (Z.eqb_spec (f_align f) 0) as [->|Hne]; [lia|]. destruct (fo_align _ Hf) as [?|Hp]; [done|].
  pose proof (pow2_bound _ Hp). pose proof (round_up_spec sz0 (f_align f) ltac:(lia)). lia.
Qed.

Definition field_bit_at (fields : option (list Z)) (i : nat) : bool :=
  match fields with None => false | Some ws => match ws !! (i / 32)%nat with Some x => Z.testbit x (Z.of_nat (i mod 32)) | None => false end end.
Definition isatomic_at (st : jl_datatype_t) (i : nat) : bool := field_bit_at (atomicfields (name st)) i.
Lemma field_bit_eq fields i n w (Q : bool -> world -> Prop) : (i < n)%nat -> (forall ws, fields = Some ws -> (n <= 32 * length ws)%nat) ->
  Q (field_bit_at fields i) w -> wp (field_bit fields i) w Q.
Proof using.
  intros Hi Hb HQ. unfold field_bit, field_bit_at in *. destruct fields as [ws|]; [|by wp]. specialize (Hb ws eq_refl).
  destruct (lookup_lt_is_Some_2 ws (i / 32)%nat) as [x Ex]; [apply Nat.Div0.div_lt_upper_bound; lia|]. rewrite Ex in HQ. by wp.
Qed.

Lemma field_step_spec st nf i firstty fld fs s w : ok w -> field_fine w fld -> Forall finfo_ok fs -> progress fs s ->
  place_end 0 fs + field_cost env B fld < 2 ^ 31 -> (i < nf)%nat -> (forall ws, atomicfields (name st) = Some ws -> (nf <= 32 * length ws)%nat) ->
  wp (field_step env try st nf i firstty fld s) w (fun s' w' => ok w' /\ ext w w' /\
    exists f, field_info env B w' (isatomic_at st i) fld f /\ finfo_ok f /\ f_size f + f_align f <= field_cost env B fld /\ progress (fs ++ [f]) s').
Proof using Htry.
  intros Hok Hff Hfs Hpr Hb Hi Hat. change (2 ^ 31) with 2147483648 in *. pose proof (place_end_ge 0 fs Hfs) as Hpe. destruct (nptrs_place_end 0 fs Hfs) as [Hn1 Hn2].
  assert (0 <= field_cost env B fld) as Hfc.
  { unfold field_cost. destruct (max_over_ge (size_bound B) (leaves env fld)) as [? _], (max_over_ge (align_bound B) (leaves env fld)) as [? _]. lia. }
  unfold field_step. apply wp_bind. apply (field_bit_eq _ i nf); [done|done|]. fold (isatomic_at st i). set (atomic := isatomic_at st i).
  apply wp_bind. eapply wp_mono; [apply field_kind_spec; [done|done|rewrite (pr_npointers _ _ Hpr); change (2 ^ 31) with 2147483648; lia]|].
  intros [[[ptr fsz] al] s1] w1 (Hok1 & Hx1 & ptrs & pad & Hc & Hg). set (f := finish atomic ptr fsz al ptrs pad).
  assert (field_info env B w1 atomic fld f) as Hfi by (by exists ptr, fsz, al, ptrs, pad).
  destruct (field_info_bounds env B _ _ _ _ Hfi (ff_size _ _ Hff)) as (Hfok & Hcost & Hal0 & _).
  destruct (content_bounds _ _ _ _ _ _ _ _ _ _ Hc) as (_ & Hfsz & _).
  assert ((if atomic && (fsz <=? MAX_ATOMIC_SIZE) then (next_power_of_two (u32 fsz), next_power_of_two (u32 fsz)) else (al, fsz)) = (f_align f, f_size f)) as ->.
  { unfold f, finish, MAX_ATOMIC_SIZE. cbn [f_align f_size]. destruct atomic; cbn [andb]; [|done]. destruct (Z.leb_spec fsz 16); [|done].
    by rewrite (uw_small 32) by (unfold in_range; change (2 ^ 32) with 4294967296; lia). }
  pose proof (align_to_ge (place_end 0 fs) f Hfok) as Hage. pose proof (align_to_lt (place_end 0 fs) f Hfok) as Halt. pose proof (fo_size _ Hfok) as [Hfs0 _].
  pose proof (max_align_ge fs). rewrite (gr_sz _ _ _ _ _ Hg), (gr_alignm _ _ _ _ _ Hg), (pr_sz _ _ Hpr), (pr_alignm _ _ Hpr).
  assert ((if negb (f_align f =? 0) then (LLT_ALIGN (place_end 0 fs) (f_align f), negb (LLT_ALIGN (place_end 0 fs) (f_align f) =? place_end 0 fs),
      if max_align fs <? f_align f then f_align f else max_align fs) else (place_end 0 fs, false, max_align fs)) =
    (align_to (place_end 0 fs) (f_align f), negb (align_to (place_end 0 fs) (f_align f) =? place_end 0 fs), Z.max (max_align fs) (f_align f))) as ->.
  { unfold align_to. destruct (Z.eqb_spec (f_align f) 0) as [E|Hne]; cbn [negb].
    - rewrite Z.eqb_refl. cbn [negb]. f_equal. lia.
    - destruct (fo_align _ Hfok) as [?|Hp]; [done|]. rewrite LLT_ALIGN_eq by (done || change (2 ^ 63) with 9223372036854775808; lia). f_equal.
      destruct (Z.ltb_spec (max_align fs) (f_align f)); lia. }
  set (o := align_to (place_end 0 fs) (f_align f)) in *.
  rewrite (uw_small 64 (max_offset - o)) by (unfold in_range, max_offset; change (2 ^ 64) with 18446744073709551616; change (2 ^ 32) with 4294967296; lia).
  destruct (Z.ltb_spec (max_offset - o) (f_size f)) as [Hlt|_]; [unfold max_offset in Hlt; change (2 ^ 32) with 4294967296 in Hlt; lia|].
  wp. split; [done|]. split; [done|]. exists f. split; [done|]. split; [done|]. split; [done|].
  rewrite !uw_small by (unfold in_range; change (2 ^ 64) with 18446744073709551616; change (2 ^ 32) with 4294967296; change (2 ^ 31) with 2147483648; lia).
  split; cbn [sz alignm zeroinit_ haspadding needlock npointers desc].
  - by rewrite place_end_app.
  - rewrite max_align_app. cbn [max_align foldr]. lia.
  - rewrite Exists_app, Exists_cons, Exists_nil. intros [He|[He|[]]]; apply (gr_zeroinit _ _ _ _ _ Hg).
    + left. by apply (pr_zeroinit _ _ Hpr).
    + right. by apply negb_true_iff, bool_decide_eq_false.
  - rewrite orb_false_iff, (gr_padding _ _ _ _ _ Hg), orb_false_iff. intros [[Hp1 Hp2] Hp3%negb_false_iff%Z.eqb_eq]. destruct (pr_padding _ _ Hpr Hp1) as [Hng Hall].
    rewrite no_gaps_app, Forall_app, Forall_singleton. split; [split; [done|]; cbn [no_gaps]; by split|split; done].
  - rewrite (gr_needlock _ _ _ _ _ Hg), (pr_needlock _ _ Hpr), existsb_app. cbn [existsb f_lock f finish]. by rewrite orb_false_r.
  - rewrite (gr_npointers _ _ _ _ _ Hg), (pr_npointers _ _ Hpr), nptrs_app. cbn [nptrs foldr f f_ptrs finish]. lia.
  - rewrite (gr_desc _ _ _ _ _ Hg), (pr_desc _ _ Hpr), descs_app. by rewrite Z.add_0_r.
Qed.
End Step.

(** * Layouts: all fields of a struct, their pointers and the lock *)

#[local] Open Scope layout_scope.

(** ** The alignment of a struct *)

Lemma max_align_pow2 fs : Forall finfo_ok fs -> pow2 (max_align fs).
Proof.
  induction 1 as [|f fs Hf _ IH]; [exists 0; split; [lia|done]|]. cbn [max_align foldr]. fold (max_align fs).
  destruct (fo_align _ Hf) as [->|Hp]; [|by apply pow2_max]. pose proof (max_align_ge fs). by rewrite Z.max_r by lia.
Qed.
Lemma max_align_divide fs f : Forall finfo_ok fs -> f ∈ fs -> f_align f <> 0 -> (f_align f | max_align fs).
Proof.
  intros Hf Hin Hne. apply pow2_divide; [|by apply max_align_pow2|].
  - rewrite Forall_forall in Hf. by destruct (fo_align _ (Hf f Hin)).
  - clear Hf. induction Hin as [f l|f g l Hin IH]; cbn [max_align foldr]; fold (max_align l); [lia|]. specialize (IH Hne). lia.
Qed.
Lemma max_align_words fs : Forall finfo_ok fs -> Exists (fun f => f_ptrs f <> []) fs -> (8 | max_align fs).
Proof.
  intros Hf (f & Hin & Hp)%Exists_exists. pose proof Hf as Hf'. rewrite Forall_forall in Hf'. destruct (fo_words _ (Hf' f Hin) Hp) as [H8 Hne]. etrans; [exact H8|by apply max_align_divide].
Qed.
Lemma ptrs_from_nil base sz fs : ptrs_from base sz fs <> [] -> Exists (fun f => f_ptrs f <> []) fs.
Proof.
  revert sz. induction fs as [|f fs IH]; intros sz; [done|]. cbn [ptrs_from]. destruct (f_ptrs f) eqn:E; [|left; by rewrite E].
  intros H. right. by apply (IH (align_to sz (f_align f) + f_size f)).
Qed.
Lemma ptrs_from_length base sz fs : Z.of_nat (length (ptrs_from base sz fs)) = nptrs fs.
Proof. revert sz. induction fs as [|f fs IH]; intros sz; [done|]. cbn [ptrs_from nptrs foldr]. fold (nptrs fs). rewrite length_app, length_map, Nat2Z.inj_add, IH. done. Qed.

(** The lock of [base] bytes before the fields. *)
Definition base_of (fs : list finfo) : Z := if existsb f_lock fs then round_up sizeof_mutex (max_align fs) else 0.
Lemma base_of_spec fs : Forall finfo_ok fs -> 0 <= base_of fs < 16 + max_align fs /\ (max_align fs | base_of fs).
Proof.
  intros Hf. unfold base_of. pose proof (max_align_ge fs). destruct (existsb f_lock fs).
  - pose proof (round_up_spec sizeof_mutex (max_align fs) ltac:(lia)) as [? ?]. change sizeof_mutex with 16 in *. split; [lia|done].
  - split; [lia|apply Z.divide_0_r].
Qed.
Definition struct_end (fs : list finfo) : Z := place_end 0 fs + base_of fs.

(** The offsets that [jl_get_layout] takes for the largest are. *)
Lemma sorted_last l p : StronglySorted Z.lt l -> last l = Some p -> Forall (fun q => q <= p) l.
Proof.
  induction 1 as [|x l Hs IH Hx]; intros Hl; [constructor|]. destruct l as [|y l]; [injection Hl as ->; apply Forall_singleton; lia|].
  rewrite last_cons_cons in Hl. specialize (IH Hl). constructor; [|done]. apply last_Some_elem_of in Hl. rewrite List.Forall_forall in Hx.
  specialize (Hx p ltac:(by apply list_elem_of_In)). lia.
Qed.
Lemma descs_length base fs : length (descs base fs) = length fs.
Proof. unfold descs. rewrite length_zip_with, place_length. lia. Qed.
Lemma descs_last base fs d : Forall finfo_ok fs -> last (descs base fs) = Some d -> Forall (fun e => offset e <= offset d) (descs base fs).
Proof.
  intros Hf Hl. rewrite last_lookup, descs_length in Hl. destruct (descs_lookup _ _ _ _ Hl) as (f & o & Hi & Ho & ->). cbn [offset].
  apply Forall_lookup. intros i e He. destruct (descs_lookup _ _ _ _ He) as (f' & o' & Hi' & Ho' & ->). cbn [offset].
  apply lookup_lt_Some in Hi' as Hlt. destruct (decide (i = pred (length fs))) as [->|Hne]; [rewrite Ho in Ho'; injection Ho' as ->; lia|].
  pose proof (place_ordered 0 fs i (pred (length fs)) f' o' o Hf ltac:(lia) Hi' Ho' Ho). rewrite Forall_forall in Hf.
  pose proof (fo_size _ (Hf f' ltac:(by eapply list_elem_of_lookup_2))). lia.
Qed.

Section Struct.
Context (env : type_env) (B : bounds) (I : world -> Prop) (try : nat -> M bool) (k : nat) (Htry : try_ok env B I try k).
#[local] Abbreviation ext := (ext env).
#[local] Abbreviation ok := (ok env B I).

(** ** The loop *)

(** How each field is stored, from field [i] on. *)
Fixpoint infos (w : world) (st : jl_datatype_t) (i : nat) (flds : list jl_value_t) (fs : list finfo) : Prop :=
  match flds, fs with
  | [], [] => True
  | fld :: flds, f :: fs => field_info env B w (isatomic_at st i) fld f /\ infos w st (S i) flds fs
  | _, _ => False
  end.
Lemma infos_ext w w' st i flds fs : ext w w' -> infos w st i flds fs -> infos w' st i flds fs.
Proof using.
  intros Hx. revert i fs. induction flds as [|fld flds IH]; intros i [|f fs]; cbn [infos]; try done. intros [H1 H2]. split; [by apply (field_info_ext env B w)|by apply IH].
Qed.
Lemma infos_length w st i flds fs : infos w st i flds fs -> length flds = length fs.
Proof using. revert i fs. induction flds as [|fld flds IH]; intros i [|f fs]; cbn [infos]; try done. intros [_ H]. cbn [length]. f_equal. by apply (IH (S i)). Qed.

Lemma infos_bounds w st i flds fs : infos w st i flds fs -> Forall (fun fld => max_over (size_bound B) (leaves env fld) < 2 ^ 31 - 1) flds ->
  Forall finfo_ok fs /\ (forall sz, place_end sz fs <= sz + fields_cost env B flds) /\
  (forall A, 16 <= A -> Forall (fun fld => Forall (fun e => align_bound B e <= A) (leaves env fld)) flds -> max_align fs <= A).
Proof using.
  revert i fs. induction flds as [|fld flds IH]; intros i [|f fs]; cbn [infos]; try done.
  { intros _ _. split; [constructor|]. split; [cbn; lia|]. intros A HA _. cbn. lia. }
  intros [Hf Hr] [Hb Hbs]%Forall_cons. destruct (field_info_bounds env B _ _ _ _ Hf Hb) as (Hok & Hc & Ha0 & Ha). destruct (IH _ _ Hr Hbs) as (IH1 & IH2 & IH3).
  split; [by constructor|]. split.
  - intros sz0. cbn [place_end fields_cost foldr]. fold (fields_cost env B flds). specialize (IH2 (align_to sz0 (f_align f) + f_size f)). pose proof (align_to_lt sz0 f Hok). lia.
  - intros A HA [HAf HAs]%Forall_cons. cbn [max_align foldr]. fold (max_align fs). specialize (IH3 A HA HAs).
    destruct Ha as [?|(e & He1 & He2)]; [lia|]. rewrite Forall_forall in HAf. specialize (HAf e He1). cbv beta in HAf. lia.
Qed.

Lemma field_cost_ge fld : 33 <= field_cost env B fld.
Proof using.
  unfold field_cost. destruct (max_over_ge (size_bound B) (leaves env fld)) as [? _], (max_over_ge (align_bound B) (leaves env fld)) as [? _]. lia.
Qed.
Lemma fields_cost_ge flds : 33 * Z.of_nat (length flds) <= fields_cost env B flds.
Proof using. induction flds as [|fld flds IH]; [done|]. cbn [fields_cost foldr length]. fold (fields_cost env B flds). pose proof (field_cost_ge fld). lia. Qed.

Lemma fields_loop_spec st nf firstty flds i fs s w : ok w -> Forall (field_fine env B k w) flds -> Forall finfo_ok fs -> progress fs s ->
  place_end 0 fs + fields_cost env B flds < 2 ^ 31 -> (i + length flds = nf)%nat -> (forall ws, atomicfields (name st) = Some ws -> (nf <= 32 * length ws)%nat) ->
  wp (fields_loop env try st nf i firstty flds s) w (fun s' w' => ok w' /\ ext w w' /\ exists gs, infos w' st i flds gs /\ progress (fs ++ gs) s').
Proof using Htry.
  intros Hok Hff Hfs Hpr Hb Hi Hat. revert i fs s w Hok Hff Hfs Hpr Hb Hi. induction flds as [|fld flds IH]; intros i fs s w Hok Hff Hfs Hpr Hb Hi; cbn [fields_loop].
  { wp. split; [done|]. split; [reflexivity|]. exists []. by rewrite app_nil_r. }
  apply Forall_cons in Hff as [Hff Hffs]. cbn [fields_cost foldr length] in *. fold (fields_cost env B flds) in Hb. pose proof (fields_cost_ge flds).
  apply wp_bind. eapply wp_mono; [eapply (field_step_spec env B I try k Htry st nf i firstty fld fs s w); try done; lia|].
  intros s1 w1 (Hok1 & Hx1 & f & Hf & Hfok & Hc & Hpr1). pose proof (align_to_lt (place_end 0 fs) f Hfok).
  eapply wp_mono; [apply (IH (S i) (fs ++ [f]) s1 w1); [done| | |done| |lia]|].
  - eapply Forall_impl; [exact Hffs|]. intros g. by apply field_fine_ext.
  - apply Forall_app. split; [done|]. by apply Forall_singleton.
  - rewrite place_end_app. cbn [place_end]. lia.
  - intros s2 w2 (Hok2 & Hx2 & gs & Hgs & Hpr2). split; [done|]. split; [by etrans|]. exists (f :: gs). split.
    + cbn [infos]. split; [by apply (field_info_ext env B w1)|done].
    + by rewrite <- app_assoc in Hpr2.
Qed.

(** ** The pointers *)

Lemma ptr_offsets_spec l v w pre ps (Q : list Z -> world -> Prop) : decodes l v -> v_ptrs v = pre ++ ps -> Q ps w -> wp (ptr_offsets l (seq (length pre) (length ps))) w Q.
Proof using.
  intros Hd. revert pre Q. induction ps as [|p ps IH]; intros pre Q E HQ; cbn [length seq ptr_offsets]; [by wp|].
  apply wp_bind. eapply wp_lift.
  { apply (d_ptr _ _ Hd _ p). rewrite E, lookup_app_r by lia. by rewrite Nat.sub_diag. }
  apply wp_bind. replace (S (length pre)) with (length (pre ++ [p])) by (rewrite length_app; cbn; lia). apply IH; [by rewrite <- app_assoc|]. by wp.
Qed.

Lemma fields_pointers_spec st base w i flds fs sz (Q : list Z -> world -> Prop) : infos w st i flds fs -> Forall finfo_ok fs -> 0 <= sz -> 0 <= base ->
  place_end sz fs + base < 2 ^ 31 -> Q (ptrs_from base sz fs) w ->
  wp (fields_pointers env flds (zip_with (fun f o => {| isptr := f_ptr f; fsize := f_size f; offset := o + base |}) fs (place sz fs))) w Q.
Proof using.
  change (2 ^ 31) with 2147483648. intros Hi Hf Hsz Hb Hlt. revert i fs sz Q Hi Hf Hsz Hlt. induction flds as [|fld flds IH]; intros i [|f fs] sz0 Q Hi Hf Hsz Hlt HQ; cbn [infos] in Hi; try done.
  { cbn. by wp. }
  destruct Hi as [Hfi Hi]. apply Forall_cons in Hf as [Hf Hfs]. cbn [place zip_with fields_pointers ptrs_from place_end isptr offset] in *.
  set (o := align_to sz0 (f_align f)) in *. pose proof (align_to_ge sz0 f Hf) as Hge. fold o in Hge. pose proof (fo_size _ Hf) as [Hfs0 _].
  pose proof (place_end_ge (o + f_size f) fs Hfs) as Hpe. apply wp_bind.
  assert (forall Q' : list Z -> world -> Prop, Q' (map (fun p => (o + base) / 8 + p) (f_ptrs f)) w ->
    wp (if f_ptr f then ret [(o + base) / sizeof_ptr] else
        match normalize_typeofbottom_layout_alias env fld with
        | Datatype e => let! t := dt_at e in let! l := layout_bytes (layout t) in let! np := lift (l_npointers l) in
            let! js := ptr_offsets l (seq 0 (Z.to_nat (sw 32 np))) in ret (map (fun p => u32 ((o + base) / sizeof_ptr + p)) js)
        | _ => ret []
        end) w Q') as Hone.
  { intros Q' HQ'. destruct Hfi as (ptr & fsz & al & ptrs & pad & Hc & ->). cbn [finish f_ptr f_ptrs] in *.
    pose proof (Z.div_pos (o + base) 8 ltac:(lia) ltac:(lia)). pose proof (Z.div_le_upper_bound (o + base) 8 (o + base) ltac:(lia) ltac:(lia)).
    destruct Hc as [s a Hu Ha Hin|e t v s En Ht Hinl Es|Hbx].
    - destruct fld; try done. cbn [normalize_typeofbottom_layout_alias]. by wp.
    - rewrite En. destruct (inl_good B _ _ _ _ Hinl) as [Hg Henc]. pose proof (encode_decodes v Henc) as Hd. destruct Hinl as (t' & Ht' & _ & Hl & Hv & _). simplify_eq.
      destruct (layout_in_decodes _ _ _ (lo_in _ _ _ _ _ Hv)) as [El _]. pose proof (e_size _ Henc) as [Hv0 Hv1]. change (2 ^ 32) with 4294967296 in *.
      pose proof (sorted_count _ _ (g_sorted _ Hg) (g_inside _ Hg) Hv0) as Hcnt.
      wp. eapply wp_lift; [apply Hd|]. wp. rewrite (g_npointers _ Hg), sw_small by (change (2 ^ (32 - 1)) with 2147483648; lia).
      rewrite Nat2Z.id. apply (ptr_offsets_spec (encode v) v w [] (v_ptrs v)); [done|done|]. wp.
      assert (map (fun p => u32 ((o + base) / sizeof_ptr + p)) (v_ptrs v) = map (fun p => (o + base) / 8 + p) (v_ptrs v)) as ->; [|done].
      apply map_ext_in. intros p Hp. pose proof (fo_inside _ Hf) as Hin. cbn [f_ptrs f_size] in Hin. rewrite Forall_forall in Hin.
      specialize (Hin p ltac:(by apply list_elem_of_In)). cbv beta in Hin. change sizeof_ptr with 8. apply uw_small. unfold in_range. change (2 ^ 32) with 4294967296. lia.
    - wp. cbn [map] in HQ'. by rewrite Z.add_0_r in HQ'. }
  apply Hone. apply wp_bind. apply (IH (S i) fs (o + f_size f)); [done|done|lia|lia|]. by wp.
Qed.

(** ** The layout *)

(** The layout [v] stores the fields [fs], and instances are zeroed when it has
    pointers. *)
Record struct_view (fs : list finfo) (v : view) (z : bool) : Prop := {
  sv_align : v_align v = max_align fs;
  sv_size : v_size v = round_up (struct_end fs) (max_align fs);
  sv_desc : v_desc v = descs (base_of fs) fs;
  sv_ptrs : v_ptrs v = all_ptrs (base_of fs) fs;
  sv_npointers : v_npointers v = nptrs fs;
  sv_elem : v_arrayelem v = 0;
  sv_padding : v_haspadding v = false -> no_gaps 0 fs /\ Forall (fun f => f_pad f = false) fs /\ existsb f_lock fs = false /\ v_size v = place_end 0 fs;
  sv_zeroinit : v_ptrs v <> [] -> z = true;
}.

Lemma struct_ptrs fs : Forall finfo_ok fs -> StronglySorted Z.lt (all_ptrs (base_of fs) fs) /\
  Forall (fun p => 0 <= p /\ 8 * p + 8 <= struct_end fs) (all_ptrs (base_of fs) fs) /\ (all_ptrs (base_of fs) fs <> [] -> (8 | max_align fs)).
Proof using.
  intros Hf. destruct (base_of_spec fs Hf) as [[Hb0 Hb1] Hb2].
  destruct (ptrs_from_spec (base_of fs) 0 fs Hf ltac:(lia) Hb0) as [H1 H2].
  { intros He. etrans; [by apply max_align_words|done]. }
  split; [done|]. split.
  - eapply Forall_impl; [exact H2|]. unfold struct_end. cbv beta. intros p. lia.
  - intros Hne. by apply max_align_words; [|eapply ptrs_from_nil].
Qed.
Lemma align_lt16 fs : Forall finfo_ok fs -> max_align fs <= 2 ^ 15.
Proof using. intros Hf. destruct (max_align_pow2 fs Hf) as (j & Hj & ->). apply Z.pow_le_mono_r; lia. Qed.
(** The last field ends the struct. *)
Lemma place_end_last sz fs f o : last fs = Some f -> last (place sz fs) = Some o -> place_end sz fs = o + f_size f.
Proof using.
  revert sz. induction fs as [|g fs IH]; intros sz0; [done|]. destruct fs as [|h fs]; [cbn; by intros [= ->] [= ->]|].
  intros Hf Ho. cbn [place_end]. cbn [place] in Ho. rewrite last_cons_cons in Hf. rewrite last_cons_cons in Ho. by apply IH.
Qed.
Lemma narrow_size fs v z : Forall finfo_ok fs -> struct_view fs v z -> encodable v -> v_ptrs v <> [] -> v_fd v <> JL_FIELDDESC_32 -> v_size v < 2 ^ 17.
Proof using.
  intros Hf Hv Henc Hne Hfd. destruct (last fs) as [f|] eqn:El; [|apply last_None in El as ->; by rewrite (sv_ptrs _ _ _ Hv) in Hne].
  assert (exists o, last (place 0 fs) = Some o) as [o Eo].
  { destruct (last (place 0 fs)) eqn:E; [by eexists|]. apply last_None in E. apply (f_equal length) in E. rewrite place_length in E. by destruct fs. }
  assert (In {| isptr := f_ptr f; fsize := f_size f; offset := o + base_of fs |} (v_desc v)) as Hin.
  { rewrite (sv_desc _ _ _ Hv). apply list_elem_of_In. apply (list_elem_of_lookup_2 _ (pred (length fs))). unfold descs. apply lookup_zip_with_Some. exists f, o.
    rewrite last_lookup in El. rewrite last_lookup, place_length in Eo. done. }
  pose proof (e_desc _ Henc) as Hd. rewrite Forall_forall in Hd. destruct (Hd _ ltac:(by apply list_elem_of_In)) as [[_ Hs] [_ Ho]]. cbn [fsize offset] in Hs, Ho.
  pose proof (pow2_bound _ (max_align_pow2 fs Hf)) as [? Ha]. pose proof (round_up_spec (struct_end fs) (max_align fs) ltac:(lia)) as [[_ Hru] _].
  rewrite (sv_size _ _ _ Hv). unfold struct_end in *. rewrite (place_end_last 0 fs f o El Eo) in *.
  assert (2 ^ size_bits (v_fd v) <= 2 ^ 15 /\ 2 ^ offset_bits (v_fd v) <= 2 ^ 16) as [? ?] by (by destruct (e_fd _ Henc) as [->|[->|?]]).
  pose proof (align_lt16 fs Hf).
  change (2 ^ 15) with 32768 in *. change (2 ^ 16) with 65536 in *. change (2 ^ 17) with 131072. lia.
Qed.
Lemma struct_view_good fs v z : Forall finfo_ok fs -> struct_view fs v z -> encodable v -> good v.
Proof using.
  intros Hf Hv Henc. destruct (struct_ptrs fs Hf) as (H1 & H2 & H3). pose proof (max_align_ge fs). pose proof (round_up_spec (struct_end fs) (max_align fs) ltac:(lia)) as [? _].
  split; rewrite ?(sv_align _ _ _ Hv), ?(sv_ptrs _ _ _ Hv), ?(sv_npointers _ _ _ Hv), ?(sv_size _ _ _ Hv); [by apply max_align_pow2| |done| |done|apply Hv|].
  - symmetry. apply ptrs_from_length.
  - eapply Forall_impl; [exact H2|]. cbv beta. lia.
  - intros Hne Hfd. rewrite <- (sv_size _ _ _ Hv). apply (narrow_size fs v z); try done. by rewrite (sv_ptrs _ _ _ Hv).
Qed.

Lemma descs_shift fs off : Forall finfo_ok fs -> 0 <= off -> place_end 0 fs + off < 2 ^ 31 ->
  map (fun f => {| isptr := isptr f; fsize := fsize f; offset := u32 (offset f + off) |}) (descs 0 fs) = descs off fs.
Proof using.
  intros Hf Hoff Hlt. change (2 ^ 31) with 2147483648 in *. apply list_eq. intros i. rewrite list_lookup_fmap. unfold descs. rewrite !lookup_zip_with.
  destruct (fs !! i) as [f|] eqn:Ef; [|done]. cbn [mbind option_bind]. destruct (place 0 fs !! i) as [o|] eqn:Eo; [|done]. cbn. f_equal. f_equal.
  destruct (place_lookup 0 fs i f o Hf Ef Eo) as (H0 & _ & H1). rewrite Forall_forall in Hf. pose proof (fo_size _ (Hf f ltac:(by eapply list_elem_of_lookup_2))).
  rewrite Z.add_0_r. apply uw_small. unfold in_range. change (2 ^ 32) with 4294967296. lia.
Qed.

Lemma vector_alignment_0 w sg s nf firstty flds : ~ is_vector sg s -> tn_id (s_name s) = jl_tuple_typename -> s_types s = Some (firstty :: flds) ->
  sg = sigs w -> Forall (there w) (datatypes firstty) -> forall Q : Z -> world -> Prop, Q 0 w -> wp (jl_special_vector_alignment nf firstty) w Q.
Proof using.
  intros Hnv Ht Hty -> Hth Q HQ. destruct firstty as [e| | | | | | | | | |]; cbn [jl_special_vector_alignment]; try by wp.
  apply Forall_cons in Hth as [He _]. destruct (lookup_lt_is_Some_2 _ _ He) as [et Het]. wp.
  destruct (decide (tn_id (name et) = jl_vecelement_typename)) as [E|E].
  - destruct Hnv. split; [done|]. exists e, (sig_of et). rewrite Hty. split; [done|]. split; [by apply sigs_lookup|done].
  - rewrite bool_decide_eq_false_2 by done. cbn [negb]. by wp.
Qed.
End Struct.
