(* ===== verification/LayoutMain.v ===== *)
(** * Layouts: computing the layout of a type and of the types it needs *)
From stdpp Require Import gmap.
From Stdlib Require Import Sorting.Sorted.
From S2P Require Import Prelude Probe Layout LayoutFacts Datatype LayoutWorld LayoutFields LayoutStruct.

(** * Layouts: computing the layout of a struct *)

#[local] Open Scope layout_scope.

Section Compute.
Context (env : type_env) (B : bounds) (I : world -> Prop) (try : nat -> M bool) (k : nat) (Htry : try_ok env B I try k).
#[local] Abbreviation ext := (ext env).
#[local] Abbreviation ok := (ok env B I).

(** The fields of a struct of which the layout can be computed. *)
Record fields_fine (w : world) (d : nat) (st : jl_datatype_t) (flds : list jl_value_t) : Prop := {
  fs_types : types st = Some flds;
  fs_some : flds <> [];
  fs_fine : Forall (field_fine env B k w) flds;
  fs_cost : fields_cost env B flds + 16 + 2 * align_bound B d <= size_bound B d < 2 ^ 31;
  fs_align : 16 <= align_bound B d < 2 ^ 16;
  fs_aligns : Forall (fun fld => Forall (fun e => align_bound B e <= align_bound B d) (leaves env fld)) flds;
  fs_atomic ws : atomicfields (name st) = Some ws -> (length flds <= 32 * length ws)%nat;
  fs_vector : ~ is_vector (sigs w) (sig_of st);
}.

(** The world after the layout [v] was made for [d] in [w2]. *)
Record made (w2 w3 : world) (n : Z) (a : Z) (v : view) : Prop := {
  md_world : world_ok env B w2 n;
  md_dts : dts w3 = dts w2;
  md_mem : lmem_ext w2 w3;
  md_cache : cache_ok w3 (n + 1);
  md_in : layout_in (lmem w3) a v;
  md_nonnull : a <> 0;
  md_interned : interned w3 a;
}.

Lemma jl_get_layout_wp w n sz nfields npointers alignment hp be el un desc pointers (Q : Z -> world -> Prop) : world_ok env B w n -> n + 1 < 2 ^ 31 ->
  in_range 32 sz -> nfields = Z.of_nat (length desc) -> in_range 32 nfields -> in_range 32 npointers -> 0 < alignment < 2 ^ 16 ->
  in_range 4 el -> in_range 3 un ->
  Forall (fun d => in_range 31 (fsize d) /\ in_range 32 (offset d)) desc -> Forall (in_range 32) pointers -> last_max desc pointers ->
  pointers_ok npointers pointers ->
  (forall t a w3, fielddesc_type_for (max_size_of desc) (max_offset_of desc pointers) = Some t -> made w w3 n a (view_of sz npointers alignment hp be el un desc pointers t) -> Q a w3) ->
  wp (jl_get_layout sz nfields npointers alignment hp be el un desc pointers) w Q.
Proof using.
  intros Hw Hn H1 H2 H3 H4 H5 H6 H7 H8 H9 H10 H11 HQ.
  destruct (jl_get_layout_spec w n sz nfields npointers alignment hp be el un desc pointers (wo_cache _ _ _ _ Hw) Hn H1 H2 H3 H4 H5 H6 H7 H8 H9 H10 H11)
    as (t & a & w3 & Et & E & Hin & Ha & Hint & Hdts & Hmem & Hc).
  exists a, w3. split; [done|]. by apply (HQ t).
Qed.

(** The lock goes before the fields. *)
Lemma lock_spec fs s w2 (Q : Z * bool * list jl_fielddesc32_t -> world -> Prop) : Forall finfo_ok fs -> progress fs s -> place_end 0 fs + 16 + max_align fs < 2 ^ 31 ->
  (forall hp, (hp = false -> haspadding s = false /\ existsb f_lock fs = false) -> Q (struct_end fs, hp, descs (base_of fs) fs) w2) ->
  wp (if needlock s then
        let off := LLT_ALIGN sizeof_mutex (alignm s) in
        if u64 (max_offset - sz s) <? off then throw else
        ret (u64 (sz s + off), true, map (fun f => {| isptr := isptr f; fsize := fsize f; offset := u32 (offset f + off) |}) (desc s))
      else ret (sz s, haspadding s, desc s)) w2 Q.
Proof using.
  change (2 ^ 31) with 2147483648. intros Hfs Hpr Hlt HQ. pose proof (place_end_ge 0 fs Hfs). pose proof (max_align_pow2 fs Hfs) as Hpw.
  pose proof (pow2_bound _ Hpw) as [_ Hb]. change (2 ^ 16) with 65536 in Hb. destruct (base_of_spec fs Hfs) as [[Hb0 Hb1] _].
  rewrite (pr_needlock _ _ Hpr), (pr_sz _ _ Hpr), (pr_alignm _ _ Hpr), (pr_desc _ _ Hpr). unfold struct_end, base_of in *. destruct (existsb f_lock fs) eqn:El.
  - cbv zeta. rewrite LLT_ALIGN_eq by (done || (split; done)). set (off := round_up sizeof_mutex (max_align fs)) in *.
    rewrite (uw_small 64 (max_offset - _)) by (unfold in_range, max_offset; change (2 ^ 64) with 18446744073709551616; change (2 ^ 32) with 4294967296; lia).
    destruct (Z.ltb_spec (max_offset - place_end 0 fs) off) as [Hlt'|_]; [unfold max_offset in Hlt'; change (2 ^ 32) with 4294967296 in Hlt'; lia|].
    wp. rewrite descs_shift by (done || change (2 ^ 31) with 2147483648; lia). rewrite uw_small by (unfold in_range; change (2 ^ 64) with 18446744073709551616; lia). by apply HQ.
  - wp. rewrite <- (Z.add_0_r (place_end 0 fs)). by apply HQ.
Qed.

(** Tuples that are no vectors keep their alignment. *)
Lemma vector_spec w2 d st flds firstty flds' (h : bool) al (Q : Z -> world -> Prop) : fields_fine w2 d st flds -> flds = firstty :: flds' -> 0 < al -> Q al w2 ->
  wp (if h && bool_decide (tn_id (name st) = jl_tuple_typename) then
        let! a := jl_special_vector_alignment (Z.of_nat (length flds)) firstty in
        let! _ := assert_ (a mod al =? 0) in ret (if al <? a then a else al) else ret al) w2 Q.
Proof using.
  intros Hff Efl Hal HQ. destruct (h && _) eqn:Eh; [|by wp]. apply andb_true_iff in Eh as [_ Et%bool_decide_eq_true]. apply wp_bind.
  eapply (vector_alignment_0 w2 (sigs w2) (sig_of st) _ firstty flds'); [|done| |done| |].
  - apply Hff.
  - cbn [sig_of s_types]. rewrite (fs_types _ _ _ _ Hff). by rewrite Efl.
  - pose proof (fs_fine _ _ _ _ Hff) as Hfine. rewrite Efl in Hfine. apply Forall_cons in Hfine as [Hf1 _]. apply Hf1.
  - apply wp_bind, wp_assert; [by rewrite Z.mod_0_l by lia|]. wp. destruct (Z.ltb_spec al 0); [lia|done].
Qed.
Lemma fields_fine_ext w1 w2 d st flds : ext w1 w2 -> fields_fine w1 d st flds -> fields_fine w2 d st flds.
Proof using.
  intros Hx [H1 H2 H3 H4 H5 H6 H7 H8]. split; try done; [|by rewrite (ex_sigs _ _ _ Hx)]. eapply Forall_impl; [exact H3|]. intros fld. by apply field_fine_ext.
Qed.

Lemma compute_layout_spec w d t st flds (Q : unit -> world -> Prop) : ok w -> (forall w', I w' -> dts w' !! d = Some t) -> layout t = 0 -> fields_fine w d st flds ->
  (forall w2 w3 n a v z fs, ok w2 -> ext w w2 -> infos env B w2 st 0 flds fs -> Forall finfo_ok fs -> struct_view fs v z ->
     v_align v <= align_bound B d -> v_size v <= size_bound B d -> made w2 w3 n a v ->
     Q tt (set_dts (insert d (set_zeroinit z (set_layout a t))) w3)) ->
  wp (compute_layout env try d st flds) w Q.
Proof using Htry.
  intros Hok Hd Hl0 Hff HQ. pose proof (fs_cost _ _ _ _ Hff) as [Hcost Hsb]. pose proof (fs_align _ _ _ _ Hff) as [Ha16 Hab].
  change (2 ^ 31) with 2147483648 in *. change (2 ^ 16) with 65536 in *. pose proof (fields_cost_ge env B flds) as Hcl.
  destruct flds as [|firstty flds'] eqn:Efl; [by destruct (fs_some _ _ _ _ Hff)|]. rewrite <- Efl in *.
  unfold compute_layout. apply wp_bind. apply (wp_lift _ firstty); [by rewrite Efl|]. apply wp_bind.
  eapply wp_mono; [eapply (fields_loop_spec env B I try k Htry st (length flds) firstty flds 0 [] _ w Hok (fs_fine _ _ _ _ Hff))|].
  { constructor. }
  { split; try done. intros H. by apply Exists_nil in H. }
  { cbn [place_end]. change (2 ^ 31) with 2147483648. lia. }
  { done. }
  { apply (fs_atomic _ _ _ _ Hff). }
  intros s w2 (Hok2 & Hx2 & fs & Hinf & Hpr). rewrite app_nil_l in Hpr.
  destruct (infos_bounds env B w2 st 0 flds fs Hinf) as (Hfs & Hpe & Hma).
  { eapply Forall_impl; [apply Hff|]. intros fld H. apply H. }
  specialize (Hpe 0). specialize (Hma (align_bound B d) Ha16 (fs_aligns _ _ _ _ Hff)). pose proof (place_end_ge 0 fs Hfs) as Hpe0.
  pose proof (max_align_pow2 fs Hfs) as Hpw. pose proof (max_align_ge fs). destruct (base_of_spec fs Hfs) as [[Hb0 Hb1] Hbd].
  apply wp_bind.
  apply (lock_spec fs); [done|done|change (2 ^ 31) with 2147483648; lia|]. intros hp Hhp. apply wp_bind. rewrite (pr_alignm _ _ Hpr).
  apply (vector_spec w2 d st flds firstty flds'); [by apply (fields_fine_ext w)|done|lia|]. pose proof (round_up_spec (struct_end fs) (max_align fs) ltac:(lia)) as [Hru Hrud].
  assert (struct_end fs + max_align fs <= size_bound B d) as Hse by (unfold struct_end; lia). assert (0 <= struct_end fs) as Hse0 by (unfold struct_end; lia).
  assert (place_end 0 fs <= struct_end fs) as Hpse by (unfold struct_end; lia).
  rewrite (LLT_ALIGN_eq (struct_end fs) (max_align fs)) by (done || change (2 ^ 63) with 9223372036854775808; lia).
  set (total := round_up (struct_end fs) (max_align fs)) in *.
  assert (exists hp', (if struct_end fs <? total then (total, true) else (struct_end fs, hp)) = (total, hp') /\
    (hp' = false -> hp = false /\ total = struct_end fs)) as (hp' & -> & Hhp').
  { destruct (Z.ltb_spec (struct_end fs) total); [by exists true|]. exists hp. split; [f_equal; lia|]. intros ->. split; [done|lia]. }
  apply wp_bind. eapply (fields_pointers_spec env B st (base_of fs) w2 0 flds fs 0); [done|done|lia|lia|change (2 ^ 31) with 2147483648; unfold struct_end in *; lia|].
  fold (all_ptrs (base_of fs) fs). destruct (struct_ptrs fs Hfs) as (Hp1 & Hp2 & Hp3). apply wp_bind, wp_assert.
  { rewrite (pr_npointers _ _ Hpr). apply Z.eqb_eq, ptrs_from_length. }
  rewrite (pr_npointers _ _ Hpr). destruct Hok2 as [[n2 Hw2] HI2]. pose proof (wo_room _ _ _ _ Hw2) as Hroom.
  pose proof (nptrs_place_end 0 fs Hfs) as [Hnp1 Hnp2]. apply wp_bind.
  eapply (jl_get_layout_wp w2 n2); [done|lia| | | | |lia|done|done| | | | |].
  { unfold in_range. change (2 ^ 32) with 4294967296. lia. }
  { rewrite descs_length. f_equal. by apply (infos_length env B w2 st 0). }
  { unfold in_range. change (2 ^ 32) with 4294967296. lia. }
  { unfold in_range. change (2 ^ 32) with 4294967296. lia. }
  { apply Forall_lookup. intros i de Hde. destruct (descs_lookup _ _ _ _ Hde) as (f & o & Hf & Ho & ->). cbn [fsize offset].
    destruct (place_lookup 0 fs i f o Hfs Hf Ho) as (Ho0 & _ & Ho1). rewrite Forall_forall in Hfs. pose proof (fo_size _ (Hfs f ltac:(by eapply list_elem_of_lookup_2))).
    unfold in_range, struct_end in *. change (2 ^ 31) with 2147483648. change (2 ^ 32) with 4294967296. lia. }
  { eapply Forall_impl; [exact Hp2|]. unfold in_range. change (2 ^ 32) with 4294967296. cbv beta. intros. lia. }
  { split; [intros de Hde; by apply descs_last|]. intros p Hp. by apply sorted_last. }
  { right. destruct (all_ptrs (base_of fs) fs) as [|p ps] eqn:Ep; [done|]. apply Forall_cons in Hp2 as [? _]. split; [change (2 ^ 31) with 2147483648; lia|].
    rewrite <- Ep. symmetry. apply ptrs_from_length. }
  intros ft a w3 _ Hmade. assert (dts w3 !! d = Some t) as Ht3 by (rewrite (md_dts _ _ _ _ _ Hmade); by apply Hd).
  wp. eapply wp_update; [cbn [dts set_dts]; apply list_lookup_insert_eq; by eapply lookup_lt_Some|].
  match goal with |- Q tt ?x => assert (x = set_dts (insert d (set_zeroinit (zeroinit_ s) (set_layout a t))) w3) as -> end.
  { unfold set_dts. cbn [dts lmem lnext layoutcache layoutcache_initialized]. by rewrite list_insert_insert_eq. }
  eapply (HQ w2 w3 n2 a _ _ fs); [|done|done|done| | | |exact Hmade]; [split; [by exists n2|done]| |cbn [view_of v_align]; lia|cbn [view_of v_size]; lia].
  assert (table_of (all_ptrs (base_of fs) fs) = all_ptrs (base_of fs) fs) as Etab.
  { unfold table_of. destruct (decide _) as [E|]; [|done]. rewrite E in Hp2. apply Forall_cons in Hp2 as [Hp2 _]. change (2 ^ 32) with 4294967296 in Hp2. lia. }
  split; cbn [view_of v_align v_size v_desc v_ptrs v_npointers v_arrayelem v_haspadding]; try done.
  - intros [->Hts]%Hhp'. destruct (Hhp eq_refl) as [Hhs Hnl]. destruct (pr_padding _ _ Hpr Hhs) as [Hg1 Hg2]. split_and!; [done..|].
    rewrite Hts. unfold struct_end, base_of. rewrite Hnl. lia.
  - rewrite Etab. intros Hne. apply (pr_zeroinit _ _ Hpr). by eapply ptrs_from_nil.
Qed.
End Compute.

(** * Layouts: updating a type in a world *)

#[local] Open Scope layout_scope.

Lemma filter_length_insert {A} (P : A -> Prop) `{!forall x, Decision (P x)} l i x y : l !! i = Some x ->
  (length (filter P (<[i := y]> l)) + (if decide (P x) then 1 else 0) = length (filter P l) + (if decide (P y) then 1 else 0))%nat.
Proof.
  intros Hi. rewrite <- (take_drop_middle l i x Hi) at 2. rewrite insert_take_drop by (by eapply lookup_lt_Some). rewrite !filter_app, !filter_cons, !length_app.
  repeat destruct (decide _); cbn [length]; lia.
Qed.

Section Update.
Context (env : type_env) (B : bounds).
#[local] Abbreviation ext := (ext env).

Lemma set_dts_twice d t1 t2 w : set_dts (insert d t2) (set_dts (insert d t1) w) = set_dts (insert d t2) w.
Proof using. unfold set_dts. cbn [dts lmem lnext layoutcache layoutcache_initialized]. by rewrite list_insert_insert_eq. Qed.
Lemma set_dts_lookup d t t' w : dts w !! d = Some t -> dts (set_dts (insert d t') w) !! d = Some t'.
Proof using. intros H. cbn [dts set_dts]. apply list_lookup_insert_eq. by eapply lookup_lt_Some. Qed.
Lemma set_dts_lookup_ne d e t' w : d <> e -> dts (set_dts (insert d t') w) !! e = dts w !! e.
Proof using. intros H. cbn [dts set_dts]. by apply list_lookup_insert_ne. Qed.
Lemma set_dts_sigs d t t' w : dts w !! d = Some t -> sig_of t' = sig_of t -> sigs (set_dts (insert d t') w) = sigs w.
Proof using.
  intros H E. unfold sigs. cbn [dts set_dts]. rewrite list_fmap_insert, E. apply list_insert_id. rewrite list_lookup_fmap. by rewrite H.
Qed.

Lemma cache_ok_same w w' n n' : lmem w' = lmem w -> lnext w' = lnext w -> layoutcache w' = layoutcache w -> layoutcache_initialized w' = layoutcache_initialized w ->
  n <= n' -> cache_ok w n -> cache_ok w' n'.
Proof using.
  intros E1 E2 E3 E4 Hn [H1 H2 H3 H4 H5]. split; rewrite ?E1, ?E2, ?E3, ?E4; try done; [lia|]. intros Hi. destruct (H5 Hi) as (ps & ? & ? & ? & ?).
  exists ps. split_and!; [done|done|lia|done].
Qed.
Lemma lmem_ext_same w w' w3 : lmem w' = lmem w3 -> layoutcache w' = layoutcache w3 -> layoutcache_initialized w' = layoutcache_initialized w3 ->
  lmem_ext w w3 -> lmem_ext w w'.
Proof using.
  intros E1 E2 E3 [H1 H2]. split; [by rewrite E1|]. intros a Ha Hi. destruct (H2 a Ha Hi) as [H3 H4]. split; [by rewrite E3|by rewrite E1, E2].
Qed.

Lemma layout_ok_mem w w' d t v : lmem w ⊆ lmem w' -> layout_ok B w d t v -> layout_ok B w' d t v.
Proof using. intros Hs [H1 H2 H3 H4 H5 H6]. split; try done. by apply (layout_in_weaken (lmem w)). Qed.

(** A change of what is not about the layout. *)
Lemma touch w n d t t' : world_ok env B w n -> dts w !! d = Some t -> sig_of t' = sig_of t -> layout t' = layout t -> zeroinit t' = zeroinit t ->
  (instance t' = true -> layout t <> 0) ->
  (isbitstype t' = true -> layout t <> 0 /\ mayinlinealloc (name t) = true /\ exists v, layout_ok B w d t v /\ v_ptrs v = []) ->
  world_ok env B (set_dts (insert d t') w) n /\ ext w (set_dts (insert d t') w).
Proof using.
  intros Hw Ht Es El Ez Hi Hb. pose proof (set_dts_sigs d t t' w Ht Es) as Esg. assert (name t' = name t) as En by (by injection Es).
  assert (forall v, layout_ok B w d t v -> layout_ok B (set_dts (insert d t') w) d t' v) as Hlo.
  { intros v [H1 H2 H3 H4 H5 H6]. split; rewrite ?El, ?En, ?Ez; done. }
  assert (forall e te v, layout_ok B w e te v -> layout_ok B (set_dts (insert d t') w) e te v) as Hlo' by (intros e te v [H1 H2 H3 H4 H5 H6]; by split).
  assert (forall e te, dts (set_dts (insert d t') w) !! e = Some te -> (e = d /\ te = t') \/ (e <> d /\ dts w !! e = Some te)) as Hcase.
  { intros e te. destruct (decide (e = d)) as [->|Hne]; [rewrite (set_dts_lookup d t t' w Ht); intros [= <-]; by left|]. rewrite set_dts_lookup_ne by done. by right. }
  split.
  - split.
    + by apply (cache_ok_same w _ n n); [..|apply Hw].
    + pose proof (wo_room _ _ _ _ Hw) as Hr. pose proof (filter_length_insert unlaid (dts w) d t t' Ht) as Hf. 
      cbn [dts set_dts]. destruct (decide (unlaid t)), (decide (unlaid t')); unfold unlaid in *; lia.
    + intros e s. rewrite Esg. apply Hw.
    + intros e te He Hl. destruct (Hcase e te He) as [[-> ->]|[_ He']].
      * destruct (wo_layout _ _ _ _ Hw d t Ht ltac:(congruence)) as [v Hv]. exists v. by apply Hlo.
      * destruct (wo_layout _ _ _ _ Hw e te He' Hl) as [v Hv]. exists v. by apply Hlo'.
    + intros e te He Hinst. destruct (Hcase e te He) as [[-> ->]|[_ He']]; [rewrite El; by apply Hi|by apply (wo_instance _ _ _ _ Hw e te)].
    + intros e te He Hbits. destruct (Hcase e te He) as [[-> ->]|[_ He']].
      * destruct (Hb Hbits) as (H1 & H2 & v & H3 & H4). rewrite El, En. split_and!; [done..|]. exists v. split; [by apply Hlo|done].
      * destruct (wo_isbits _ _ _ _ Hw e te He' Hbits) as (H1 & H2 & v & H3 & H4). split_and!; [done..|]. exists v. split; [by apply Hlo'|done].
  - split.
    + by apply (lmem_ext_same w _ w).
    + done.
    + intros e te He Hl. destruct (decide (d = e)) as [->|Hne].
      * rewrite Ht in He. injection He as <-. exists t'. split; [by apply (set_dts_lookup _ t)|done].
      * exists te. rewrite set_dts_lookup_ne by done. done.
    + intros e te He Hl. left. destruct (Hcase e te He) as [[-> ->]|[_ He']]; [exists t; split; [done|congruence]|by exists te].
Qed.

(** A layout for a type that had none. *)
Lemma lay w w3 n d t t' v : world_ok env B w n -> dts w3 = dts w -> lmem_ext w w3 -> cache_ok w3 (n + 1) ->
  dts w !! d = Some t -> layout t = 0 -> sig_of t' = sig_of t -> layout t' <> 0 -> layout_ok B w3 d t' v -> determined env (sigs w) d ->
  instance t' = instance t -> isbitstype t' = isbitstype t ->
  world_ok env B (set_dts (insert d t') w3) (n + 1) /\ ext w (set_dts (insert d t') w3).
Proof using.
  intros Hw Ed Hm Hc Ht Hl0 Es Hl Hlo Hfx Ei Eb. assert (dts w3 !! d = Some t) as Ht3 by (by rewrite Ed).
  assert (sigs w3 = sigs w) as Es3 by (unfold sigs; by rewrite Ed). pose proof (set_dts_sigs d t t' w3 Ht3 Es) as Esg. rewrite Es3 in Esg.
  assert (forall e te v, layout_ok B w e te v -> layout_ok B (set_dts (insert d t') w3) e te v) as Hlo' by (intros e te u Hu; apply (layout_ok_mem w); [apply Hm|done]).
  assert (forall e te, dts (set_dts (insert d t') w3) !! e = Some te -> (e = d /\ te = t') \/ (e <> d /\ dts w !! e = Some te)) as Hcase.
  { intros e te. destruct (decide (e = d)) as [->|Hne]; [rewrite (set_dts_lookup d t t' w3 Ht3); intros [= <-]; by left|]. rewrite set_dts_lookup_ne, Ed by done. by right. }
  split.
  - split.
    + by apply (cache_ok_same w3 _ (n + 1)).
    + pose proof (wo_room _ _ _ _ Hw) as Hr. pose proof (filter_length_insert unlaid (dts w3) d t t' Ht3) as Hf. rewrite Ed in Hf.
      cbn [dts set_dts]. rewrite Ed. destruct (decide (unlaid t)), (decide (unlaid t')); unfold unlaid in *; lia.
    + intros e s. rewrite Esg. apply Hw.
    + intros e te He Hle. destruct (Hcase e te He) as [[-> ->]|[_ He']]; [exists v; by apply (layout_ok_mem w3)|].
      destruct (wo_layout _ _ _ _ Hw e te He' Hle) as [u Hu]. exists u. by apply Hlo'.
    + intros e te He Hinst. destruct (Hcase e te He) as [[-> ->]|[_ He']]; [done|by apply (wo_instance _ _ _ _ Hw e te)].
    + intros e te He Hbits. destruct (Hcase e te He) as [[-> ->]|[_ He']].
      * rewrite Eb in Hbits. by destruct (wo_isbits _ _ _ _ Hw d t Ht Hbits).
      * destruct (wo_isbits _ _ _ _ Hw e te He' Hbits) as (H1 & H2 & u & H3 & H4). split_and!; [done..|]. exists u. split; [by apply Hlo'|done].
  - split.
    + by apply (lmem_ext_same w _ w3).
    + done.
    + intros e te He Hle. assert (d <> e) as Hne by congruence. exists te. rewrite set_dts_lookup_ne, Ed by done. done.
    + intros e te He Hle. destruct (Hcase e te He) as [[-> ->]|[_ He']]; [by right|left; by exists te].
Qed.
End Update.

(** * Layouts: computing the layout of a type and of the types it needs *)

#[local] Open Scope layout_scope.

(** ** The static layouts *)

Definition static_view (npointers alignment : Z) (be : bool) : view :=
  {| v_size := 0; v_align := alignment; v_haspadding := false; v_isbitsegal := be; v_fd := 0; v_arrayelem := 0; v_unused := 0; v_desc := [];
     v_npointers := npointers; v_first := -1; v_ptrs := [] |}.
Lemma static_view_in w n a np al be : cache_ok w n -> in_range 32 np -> in_range 16 al -> static_layouts !! a = Some (static_layout np al be) ->
  layout_in (lmem w) a (static_view np al be).
Proof.
  intros Hc Hnp Hal Ha. split.
  - by rewrite (c_static _ _ Hc _ _ Ha).
  - split; cbn; try done. by left.
Qed.

Section Main.
Context (env : type_env) (B : bounds).
#[local] Abbreviation ext := (ext env).
Definition anything (w : world) : Prop := True.

(** ** Singletons *)

Lemma singleton_spec w n d t v : world_ok env B w n -> dts w !! d = Some t -> layout t <> 0 -> layout_ok B w d t v -> ~ opaque v ->
  wp (jl_maybe_allocate_singleton_instance d) w (fun _ w' => w' = w \/ w' = set_dts (insert d (set_instance t)) w).
Proof using.
  intros Hw Ht Hl Hv Ho. unfold jl_maybe_allocate_singleton_instance. wp. destruct (instance t); [wp; by left|].
  unfold jl_is_datatype_make_singleton. wp. destruct (_ || _); [wp; by left|]. wp. unfold jl_datatype_size. wp.
  assert (ok env B anything w) as Hok by (by split; [exists n|]).
  apply (datatype_layout_spec env B anything w d t v); [done..|]. destruct (layout_in_decodes _ _ _ (lo_in _ _ _ _ _ Hv)) as [El Hd].
  wp. eapply wp_lift; [apply Hd|]. wp. eapply wp_lift; [apply Hd|]. wp. destruct (_ && _); wp; [by right|by left].
Qed.

(** A type's record after its layout was set. *)
Definition finished (w : world) (d : nat) (v : view) (a : Z) (z : bool) : Prop :=
  exists t, dts w !! d = Some t /\ layout t = a /\ zeroinit t = z /\ layout_ok B w d t v.

(** The last steps: [isbitstype], [ismutationfree], [isidentityfree], which give
    the record [t2], and the instance. *)
Lemma finish_spec w n d t t2 v (Q : unit -> world -> Prop) : world_ok env B w n -> dts w !! d = Some t -> layout t <> 0 -> layout_ok B w d t v -> ~ opaque v ->
  sig_of t2 = sig_of t -> layout t2 = layout t -> zeroinit t2 = zeroinit t -> instance t2 = instance t ->
  (isbitstype t2 = true -> mayinlinealloc (name t) = true /\ v_ptrs v = []) ->
  (forall w' n', world_ok env B w' n' -> ext w w' -> finished w' d v (layout t) (zeroinit t) -> (forall e, e <> d -> dts w' !! e = dts w !! e) -> Q tt w') ->
  wp (jl_maybe_allocate_singleton_instance d) (set_dts (insert d t2) w) Q.
Proof using.
  intros Hw Ht Hl Hv Ho Es El Ez Ei Hb HQ. assert (name t2 = name t) as En by (by injection Es).
  destruct (touch env B w n d t t2 Hw Ht Es El Ez) as [Hw2 Hx2].
  { rewrite Ei. apply (wo_instance _ _ _ _ Hw d t Ht). }
  { intros Hbits. destruct (Hb Hbits). split_and!; [done..|]. by exists v. }
  set (w2 := set_dts (insert d t2) w) in *. assert (dts w2 !! d = Some t2) as Ht2 by (by apply (set_dts_lookup d t)).
  assert (forall w' t', lmem w' = lmem w -> sig_of t' = sig_of t -> layout t' = layout t -> zeroinit t' = zeroinit t -> layout_ok B w' d t' v) as Hlo.
  { intros w' t' Em Es' El' Ez'. assert (name t' = name t) as En' by (by injection Es'). destruct Hv as [H1 H2 H3 H4 H5 H6]. split; rewrite ?Em, ?En', ?El', ?Ez'; done. }
  eapply wp_mono; [apply (singleton_spec w2 n d t2 v); [done|done|congruence|by apply Hlo|done]|]. intros [] w' [->| ->].
  - apply (HQ w2 n); [done|done| |].
    + exists t2. split_and!; [done..|by apply Hlo].
    + intros e He. by apply set_dts_lookup_ne.
  - destruct (touch env B w2 n d t2 (set_instance t2) Hw2 Ht2) as [Hw3 Hx3]; [done..|congruence|apply (wo_isbits _ _ _ _ Hw2 d t2 Ht2)|].
    apply (HQ _ n); [done|by etrans| |].
    + exists (set_instance t2). split; [by apply (set_dts_lookup d t2)|]. split_and!; [done..|by apply Hlo].
    + intros e He. rewrite set_dts_lookup_ne by done. by apply set_dts_lookup_ne.
Qed.

(** ** The loop over [has_concrete_subtype] *)

Lemma set_concrete_twice t a b : set_has_concrete_subtype a (set_has_concrete_subtype b t) = set_has_concrete_subtype a t.
Proof using. done. Qed.
Lemma concrete_subtype_spec w d t flds (Q : unit -> world -> Prop) : dts w !! d = Some t -> Forall (fun fld => Forall (there w) (datatypes fld)) flds ->
  (forall b, Q tt (set_dts (insert d (set_has_concrete_subtype b t)) w)) -> wp (concrete_subtype_loop d flds) w Q.
Proof using.
  intros Ht Hf HQ. assert (set_dts (insert d (set_has_concrete_subtype (has_concrete_subtype t) t)) w = w) as E0.
  { unfold set_dts. rewrite list_insert_id by (rewrite Ht; f_equal; by destruct t). by destruct w. }
  rewrite <- E0. generalize (has_concrete_subtype t) as b. clear E0. induction Hf as [|fld flds Hfld Hflds IH]; intros b; cbn [concrete_subtype_loop]; [by wp|].
  apply wp_bind. eapply wp_dt_at; [by apply (set_dts_lookup d t)|]. cbn [has_concrete_subtype set_has_concrete_subtype]. destruct (negb b); [by wp|].
  apply wp_bind.
  assert (forall Q' : bool -> world -> Prop, (forall b', Q' b' (set_dts (insert d (set_has_concrete_subtype b t)) w)) ->
    wp (match fld with Bottom => ret false | Datatype e => let! u := dt_at e in ret (has_concrete_subtype u) | _ => ret true end)
       (set_dts (insert d (set_has_concrete_subtype b t)) w) Q') as Hone.
  { intros Q' HQ'. destruct fld as [e| | | | | | | | | |]; try by wp. apply Forall_cons in Hfld as [He _]. unfold there in He.
    destruct (lookup_lt_is_Some_2 (dts (set_dts (insert d (set_has_concrete_subtype b t)) w)) e) as [u Hu]; [cbn [dts set_dts]; by rewrite length_insert|]. by wp. }
  apply Hone. intros b'. apply wp_bind. eapply wp_update; [by apply (set_dts_lookup d t)|]. rewrite set_dts_twice, set_concrete_twice. apply IH.
Qed.

(** ** The loop over the properties of the fields *)

(** A field of bits, whose layout is known. *)
Definition bits_field (w : world) (fld : jl_value_t) : Prop := exists e v, fld = Datatype e /\ inl B w e false v /\ v_ptrs v = [].
Lemma bits_field_ext w w' fld : ext w w' -> bits_field w fld -> bits_field w' fld.
Proof using. intros Hx (e & v & E & Hi & Hp). exists e, v. split_and!; [done|by apply (inl_ext env B w)|done]. Qed.

Lemma properties_spec I try k st i flds a b c w : try_ok env B I try k -> ok env B I w -> Forall (field_fine env B k w) flds -> there w (jl_typeofbottom_type env) ->
  (forall ws, constfields (name st) = Some ws -> (i + length flds <= 32 * length ws)%nat) ->
  wp (properties_loop env try st i flds a b c) w (fun r w' => ok env B I w' /\ ext w w' /\ (r.1.1 = true -> a = true /\ Forall (bits_field w') flds)).
Proof using.
  intros Htry Hok Hff Hbot Hc. revert i a b c w Hok Hff Hbot Hc. induction flds as [|fld flds IH]; intros i a b c w Hok Hff Hbot Hc; cbn [properties_loop].
  { wp. split; [done|]. split; [reflexivity|]. cbn. by intros ->. }
  destruct (negb (a || c || b)) eqn:Eabc.
  { wp. split; [done|]. split; [reflexivity|]. cbn. intros ->. done. }
  apply Forall_cons in Hff as [Hf Hffs]. apply wp_bind.
  assert (wp (match fld with
      | Datatype e => if a then let! t := dt_at e in
          if (layout t =? 0) && mayinlinealloc (name t) then let! _ := try e in ret tt else ret tt else ret tt
      | _ => ret tt end) w (fun _ w' => ok env B I w' /\ ext w w')) as Hone.
  { destruct fld as [e| | | | | | | | | |]; try by (wp; split; [done|reflexivity]). destruct a; [|by (wp; split; [done|reflexivity])].
    destruct (ff_askable _ _ _ _ _ Hf) as [Hask _]. apply Forall_cons in Hask as [[He Hr] _]. destruct (lookup_lt_is_Some_2 _ _ He) as [t Ht]. wp.
    destruct (layout t =? 0); cbn [andb]; [|by (wp; split; [done|reflexivity])].
    destruct (mayinlinealloc (name t)) eqn:Em; [|by (wp; split; [done|reflexivity])]. apply wp_bind. eapply wp_mono; [apply Htry; [done|done|]|].
    - apply Hr. exists (sig_of t). split; [by apply sigs_lookup|done].
    - intros ? w1 (H1 & H2 & _). wp. done. }
  eapply wp_mono; [exact Hone|]. intros [] w1 [Hok1 Hx1]. apply (field_fine_ext env B k w w1) in Hf; [|done].
  assert (there w1 (jl_typeofbottom_type env)) as Hbot1 by (by apply (there_ext env w)). pose proof (ff_there _ _ _ _ _ Hf) as Hth. apply wp_bind.
  assert (wp (jl_isbits fld) w1 (fun b' w' => w' = w1 /\ (b' = true -> bits_field w1 fld))) as Hbits.
  { unfold jl_isbits. destruct fld as [e| | | | | | | | | |]; try by (wp; split). apply Forall_cons in Hth as [He _]. destruct (lookup_lt_is_Some_2 _ _ He) as [t Ht]. wp. split; [done|].
    intros Eb. destruct Hok1 as [[n1 Hw1] _]. destruct (wo_isbits _ _ _ _ Hw1 e t Ht Eb) as (Hl & Hm & v & Hv & Hp). exists e, v. split_and!; [done| |done].
    exists t. split_and!; [done..|by left]. }
  eapply wp_mono; [exact Hbits|]. intros bits w1' [-> Hb]. apply wp_bind.
  assert (reads (if mutabl (name st) then jl_field_isconst st i else ret true) w1) as Hconst.
  { destruct (mutabl (name st)) eqn:Em; [|apply reads_ret]. unfold jl_field_isconst. rewrite Em. cbn [negb].
    apply (field_bit_reads _ _ _ (i + length (fld :: flds))); [cbn [length]; lia|done]. }
  apply reads_wp; [done|]. intros cst. apply wp_bind. apply reads_wp.
  { destruct cst; [by apply type_mutationfree_reads|apply reads_ret]. }
  intros m. apply wp_bind. apply reads_wp; [by apply type_identityfree_reads|]. intros f.
  eapply wp_mono; [apply (IH (S i) (a && bits) (b && m) (c && f) w1 Hok1)|].
  - eapply Forall_impl; [exact Hffs|]. intros g. by apply field_fine_ext.
  - done.
  - intros ws Hws. specialize (Hc ws Hws). cbn [length] in Hc. lia.
  - intros r w2 (Hok2 & Hx2 & Hr). split; [done|]. split; [by etrans|]. intros E. destruct (Hr E) as [[-> ->]%andb_true_iff Hall]. split; [done|].
    constructor; [|done]. apply (bits_field_ext w1); auto.
Qed.

(** The fields of bits have no pointers. *)
Lemma bits_no_ptrs w st i flds fs : wok env B w -> Forall (bits_field w) flds -> infos env B w st i flds fs -> Forall (fun f => f_ptrs f = []) fs.
Proof using.
  intros Hok Hb. revert i fs. induction Hb as [|fld flds (e & v & -> & Hinl & Hp) _ IH]; intros i [|f fs]; cbn [infos]; try done.
  intros [(ptr & fsz & al & ptrs & pad & Hc & ->) Hr]. constructor; [|by apply (IH (S i))]. cbn [f_ptrs finish].
  destruct Hc as [s a Hu Ha Hin|e' t v' s En Ht Hi Es|[Hbx|[_ ?]]]; [done| | |done].
  - cbn in En. injection En as <-. destruct (inl_good B _ _ _ _ Hi) as [Hg _], (inl_good B _ _ _ _ Hinl) as [Hg0 _].
    destruct Hi as (t1 & Ht1 & _ & _ & Hv1 & _), Hinl as (t2 & Ht2 & _ & _ & Hv2 & _). simplify_eq.
    destruct (layout_in_unique _ _ _ _ (lo_in _ _ _ _ _ Hv1) (lo_in _ _ _ _ _ Hv2)) as (_ & _ & E & _).
    rewrite (g_npointers _ Hg), (g_npointers _ Hg0), Hp in E. destruct (v_ptrs v'); [done|cbn in E; lia].
  - pose proof Hinl as (t & Ht & _). exfalso. apply (Hbx w (if isprimitivetype t then round_up (v_size v) (v_align v) else v_size v) (v_align v)); [reflexivity|done|].
    exists 1. split; [|lia]. cbn [inline_ty normalize_typeofbottom_layout_alias]. by exists t, v.
Qed.
Lemma no_ptrs_from base sz fs : Forall (fun f => f_ptrs f = []) fs -> ptrs_from base sz fs = [].
Proof using. intros Hf. revert sz. induction Hf as [|f fs E _ IH]; intros sz0; [done|]. cbn [ptrs_from]. rewrite E. apply IH. Qed.
End Main.
