(* ===== verification/LayoutCorrect.v ===== *)
(** * Layouts: the layout of every type can be computed, and is right *)
From stdpp Require Import gmap.
From Stdlib Require Import Sorting.Sorted.
From S2P Require Import Prelude Probe Layout LayoutFacts Datatype LayoutWorld LayoutFields LayoutStruct LayoutMain.

(** * Layouts: [jl_compute_field_offsets], case by case *)

#[local] Open Scope layout_scope.

(** The types from rank [k] on are as they were. *)
Definition frozen (B : bounds) (k : nat) (w0 w : world) : Prop := forall e, (k <= rank B e)%nat -> dts w !! e = dts w0 !! e.

(** The four types that are blobs to the collector. *)
Definition builtins (env : type_env) : list nat := [jl_symbol_type env; jl_string_type env; jl_simplevector_type env; jl_module_type env].

Section Types.
Context (env : type_env) (B : bounds) (w : world) (n : Z) (d : nat) (st : jl_datatype_t).
Context (Hw : world_ok env B w n) (Hst : dts w !! d = Some st) (Hl0 : layout st = 0) (Hfx : fixed env (sigs w) d).
#[local] Abbreviation ext := (ext env).

(** What was made of [d] in [w']: the layout of its wrapper, which is [wt], an
    opaque one, or the layout of its fields. *)
Definition laid_out (w' : world) (wt t' : jl_datatype_t) (v : view) : Prop :=
  if decide (layout wt = 0) then
    if decide (types st = Some [] /\ d ∈ builtins env) then opaque v
    else exists flds fs, types st = Some flds /\ infos env B w' st 0 flds fs /\ Forall finfo_ok fs /\ struct_view fs v (zeroinit t') /\
         (flds <> [] -> interned w' (layout t'))
  else layout t' = layout wt /\ zeroinit t' = zeroinit wt.
Record computed (w' : world) : Prop := {
  cp_ok : wok env B w';
  cp_ext : ext w w';
  cp_same e : (rank B d <= rank B e)%nat -> e <> d -> dts w' !! e = dts w !! e;
  cp_layout wd wt : wrapper (name st) = Some wd -> dts w !! wd = Some wt ->
    exists t' v, dts w' !! d = Some t' /\ layout t' <> 0 /\ layout_ok B w' d t' v /\ laid_out w' wt t' v;
}.

(** What is known of [d] before. *)
Lemma no_instance : instance st = false.
Proof using Hw Hst Hl0. destruct (instance st) eqn:E; [|done]. by destruct (wo_instance _ _ _ _ Hw d st Hst E). Qed.
Lemma no_bits : isbitstype st = false.
Proof using Hw Hst Hl0. destruct (isbitstype st) eqn:E; [|done]. by destruct (wo_isbits _ _ _ _ Hw d st Hst E). Qed.
Lemma st_sig : sig_ok env B (sigs w) d (sig_of st).
Proof using Hw Hst. apply Hw. by apply sigs_lookup. Qed.

(** The wrapper has a layout. *)
Lemma wrapper_case wd wt (Q : unit -> world -> Prop) : wrapper (name st) = Some wd -> dts w !! wd = Some wt -> layout wt <> 0 ->
  (forall w', computed w' -> Q tt w') ->
  wp (let! wopaque := (if layout wt =? 0 then ret false else let! l := layout_bytes (layout wt) in lift (jl_is_layout_opaque l)) in
      let! _ := update d (fun t => set_has_concrete_subtype (has_concrete_subtype wt) (set_zeroinit (zeroinit wt) (set_layout (layout wt) t))) in
      if negb wopaque then
        let! l := layout_bytes (layout wt) in
        let! np := lift (l_npointers l) in
        let! _ := update d (set_isbitstype ((isconcretetype st && mayinlinealloc (name st)) && (np =? 0))) in
        jl_maybe_allocate_singleton_instance d
      else ret tt) w Q.
Proof using Hw Hst Hl0 Hfx.
  intros Hwd Hwt Hlw HQ. destruct (wo_layout _ _ _ _ Hw wd wt Hwt Hlw) as [v Hv]. destruct (layout_in_decodes _ _ _ (lo_in _ _ _ _ _ Hv)) as [El Hd].
  destruct (is_layout_opaque_spec _ _ Hd) as (wo & Ewo & Hwo). apply wp_bind. destruct (Z.eqb_spec (layout wt) 0); [done|]. wp.
  set (t1 := set_has_concrete_subtype _ _).
  destruct (so_wrapper _ _ _ _ _ st_sig wd Hwd) as (ws & Hws & En & Hsb & Hab & _). rewrite (sigs_lookup _ _ _ Hwt) in Hws. injection Hws as <-. cbn [sig_of s_name] in En.
  assert (layout_ok B w d t1 v) as Hv1.
  { destruct Hv as [H1 H2 H3 H4 H5 H6]. split; cbn [t1 set_has_concrete_subtype set_zeroinit set_layout layout zeroinit name]; try done.
    - by rewrite <- En.
    - intros Ho. specialize (H5 Ho). lia.
    - intros Ho. specialize (H6 Ho). lia. }
  destruct (lay env B w w n d st t1 v Hw) as [Hw1 Hx1]; try done; [by apply (cache_ok_same w w n (n + 1)); [..|lia|apply Hw]|by left|].
  set (w1 := set_dts (insert d t1) w) in *. assert (dts w1 !! d = Some t1) as Ht1 by (by apply (set_dts_lookup d st)).
  assert (forall w' t', ext w w' -> dts w' !! d = Some t' -> layout t' = layout wt -> zeroinit t' = zeroinit wt -> wok env B w' -> layout_ok B w' d t' v ->
    (forall e, e <> d -> dts w' !! e = dts w !! e) -> computed w') as Hcomp.
  { intros w' t' Hx Ht' El' Ez' Hok' Hv' Hsame. split; [done|done|by intros; apply Hsame|]. intros wd' wt' Hwd' Hwt'. rewrite Hwd in Hwd'. injection Hwd' as <-. rewrite Hwt in Hwt'. injection Hwt' as <-.
    exists t', v. split_and!; [done|congruence|done|]. unfold laid_out. by destruct (decide (layout wt = 0)). }
  destruct wo; cbn [negb].
  - wp. apply HQ. apply (Hcomp w1 t1); try done.
    + by exists (n + 1).
    + by apply (layout_ok_mem B w).
    + intros e He. by apply set_dts_lookup_ne.
  - assert (~ opaque v) as Ho by (intros H; apply Hwo in H; done). pose proof (lo_good _ _ _ _ _ Hv Ho) as Hg.
    wp. eapply wp_lift; [apply Hd|]. apply wp_bind. eapply wp_update; [exact Ht1|].
    apply (finish_spec env B w1 (n + 1) d t1 _ v); try done; [by apply (layout_ok_mem B w)| |].
    + cbn [set_isbitstype isbitstype]. rewrite !andb_true_iff, Z.eqb_eq, (g_npointers _ Hg). intros [[_ Hm] Hnp]. split; [done|]. destruct (v_ptrs v); [done|cbn in Hnp; lia].
    + intros w' n' Hw' Hx' (t' & Ht' & El' & Ez' & Hv') Hsame. apply HQ. apply (Hcomp w' t'); try done; [by etrans|by exists n'|].
      intros e He. rewrite Hsame by done. by apply set_dts_lookup_ne.
Qed.

(** A static layout is given. *)
Lemma static_case a np al be : static_layouts !! a = Some (static_layout np al be) -> in_range 32 np -> in_range 16 al -> a <> 0 ->
  (mayinlinealloc (name st) = true -> np = 0) -> (np = 0 -> al = 1) -> 0 <= np ->
  world_ok env B (set_dts (insert d (set_layout a st)) w) (n + 1) /\ ext w (set_dts (insert d (set_layout a st)) w) /\
  layout_ok B (set_dts (insert d (set_layout a st)) w) d (set_layout a st) (static_view np al be).
Proof using Hw Hst Hl0 Hfx.
  intros Ha Hnp Hal Hne Hm H0 Hpos. pose proof (static_view_in w n a np al be (wo_cache _ _ _ _ Hw) Hnp Hal Ha) as Hin.
  assert (opaque (static_view np al be) <-> 0 < np) as Hop by (unfold opaque; cbn; tauto).
  assert (layout_ok B w d (set_layout a st) (static_view np al be)) as Hv.
  { pose proof (so_align _ _ _ _ _ st_sig). pose proof (so_size _ _ _ _ _ st_sig).
    split; cbn [set_layout layout name zeroinit static_view v_ptrs v_size v_align]; rewrite ?Hop; try done.
    - intros Hmay. rewrite (Hm Hmay). lia.
    - intros Hn. rewrite H0 by lia. assert (np = 0) as -> by lia. split; cbn; try done; [by exists 0|constructor].
    - intros Hn. rewrite H0 by lia. change (round_up 0 1) with 0. lia.
    - intros Hn. rewrite H0 by lia. lia. }
  destruct (lay env B w w n d st (set_layout a st) (static_view np al be) Hw) as [H1 H2]; try done; [by apply (cache_ok_same w w n (n + 1)); [..|lia|apply Hw]|by left|].
  split_and!; [done|done|]. by apply (layout_ok_mem B w).
Qed.

(** A type that is a blob to the collector. *)
Lemma blob_case a np al be wd wt (Q : unit -> world -> Prop) : static_layouts !! a = Some (static_layout np al be) -> in_range 32 np -> in_range 16 al -> a <> 0 ->
  0 < np -> types st = Some [] -> d ∈ builtins env -> wrapper (name st) = Some wd -> dts w !! wd = Some wt -> layout wt = 0 ->
  (forall w', computed w' -> Q tt w') -> wp (update d (set_layout a)) w Q.
Proof using Hw Hst Hl0 Hfx.
  intros Ha Hnp Hal Hne Hpos Hty Hin Hwd Hwt Hlw HQ. eapply wp_update; [exact Hst|]. apply HQ.
  pose proof (so_builtin _ _ _ _ _ st_sig Hin) as Hmay. cbn [sig_of s_name] in Hmay.
  destruct (static_case a np al be Ha Hnp Hal Hne) as (H1 & H2 & H3); [by rewrite Hmay|lia|lia|]. split; [by exists (n + 1)|done| |].
  - intros e _ Hned. by apply set_dts_lookup_ne.
  - intros wd' wt' Hwd' Hwt'. rewrite Hwd in Hwd'. injection Hwd' as <-. rewrite Hwt in Hwt'. injection Hwt' as <-.
    exists (set_layout a st), (static_view np al be). split; [by apply (set_dts_lookup d st)|]. split_and!; [done..|]. unfold laid_out. destruct (decide (layout wt = 0)); [|done].
    destruct (decide _) as [_|H]; [by split|by destruct H].
Qed.

(** The end: [isbitstype], [ismutationfree], [isidentityfree] and the instance. *)
Lemma final_case w3 n3 t3 v isbits mf idf wd wt (Q : unit -> world -> Prop) : world_ok env B w3 n3 -> ext w w3 -> dts w3 !! d = Some t3 -> layout t3 <> 0 ->
  sig_of t3 = sig_of st -> layout_ok B w3 d t3 v -> ~ opaque v -> (isbits = true -> mayinlinealloc (name st) = true /\ v_ptrs v = []) ->
  (forall e, (rank B d <= rank B e)%nat -> e <> d -> dts w3 !! e = dts w !! e) -> wrapper (name st) = Some wd -> dts w !! wd = Some wt ->
  (forall w' t', ext w3 w' -> dts w' !! d = Some t' -> layout t' = layout t3 -> zeroinit t' = zeroinit t3 -> laid_out w' wt t' v) ->
  (forall w', computed w' -> Q tt w') ->
  wp (let! t := dt_at d in
      let! l := layout_bytes (layout t) in
      let! np := lift (l_npointers l) in
      let! _ := assert_ (negb isbits || (np =? 0)) in
      let! _ := update d (set_isbitstype isbits) in
      let! _ := update d (set_free mf idf) in
      jl_maybe_allocate_singleton_instance d) w3 Q.
Proof using.
  intros Hw3 Hx3 Ht3 Hl3 Es3 Hv Ho Hb Hsame Hwd Hwt Hlaid HQ. destruct (layout_in_decodes _ _ _ (lo_in _ _ _ _ _ Hv)) as [El Hd]. pose proof (lo_good _ _ _ _ _ Hv Ho) as Hg.
  assert (name t3 = name st) as En by (by injection Es3). wp. eapply wp_lift; [apply Hd|]. apply wp_bind, wp_assert.
  { rewrite (g_npointers _ Hg). destruct isbits; [|done]. destruct (Hb eq_refl) as [_ ->]. done. }
  apply wp_bind. eapply wp_update; [exact Ht3|]. apply wp_bind. eapply wp_update; [by apply (set_dts_lookup d t3)|]. rewrite set_dts_twice.
  apply (finish_spec env B w3 n3 d t3 _ v); try done; [by rewrite En|].
  intros w' n' Hw' Hx' (t' & Ht' & El' & Ez' & Hv') Hsame'. apply HQ. split.
  - by exists n'.
  - by etrans.
  - intros e He Hne. rewrite Hsame' by done. by apply Hsame.
  - intros wd' wt' Hwd' Hwt'. rewrite Hwd in Hwd'. injection Hwd' as <-. rewrite Hwt in Hwt'. injection Hwt' as <-.
    exists t', v. split_and!; [done|congruence|done|]. by apply Hlaid.
Qed.

(** ** The fields may be asked for. *)
Lemma fields_fine_of w' flds : sigs w' = sigs w -> types st = Some flds -> flds <> [] -> fields_fine env B (rank B d) w' d st flds.
Proof using Hw Hst.
  intros Es Hty Hne. pose proof st_sig as Hs. pose proof (so_fields _ _ _ _ _ Hs flds Hty) as [Hcost Hal]. pose proof (so_size _ _ _ _ _ Hs). pose proof (so_align _ _ _ _ _ Hs).
  assert (length (dts w') = length (sigs w)) as El by (by rewrite <- sigs_length, Es).
  split; try done.
  - apply Forall_forall. intros fld Hin. pose proof (so_closed _ _ _ _ _ Hs flds fld Hty Hin) as [Hc1 Hc2]%Forall_app.
    assert (field_cost env B fld <= fields_cost env B flds) as Hle.
    { clear -Hin. induction Hin as [fld flds|fld g flds Hin IH]; cbn [fields_cost foldr]; fold (fields_cost env B flds).
      - pose proof (fields_cost_ge env B flds). lia.
      - pose proof (field_cost_ge env B g). lia. }
    unfold field_cost in Hle. destruct (max_over_ge (align_bound B) (leaves env fld)) as [? _].
    split; [split| | |].
    + rewrite Es, El. rewrite Forall_forall in Hc2 |- *. intros e He. split; [by apply Hc2|]. intros Hi. by apply (so_rank _ _ _ _ _ Hs flds fld e).
    + lia.
    + by apply (so_nleaves _ _ _ _ _ Hs flds).
    + unfold there. rewrite El. done.
    + lia.
  - lia.
  - intros ws. by apply (so_atomic _ _ _ _ _ Hs).
  - rewrite Es. apply Hs.
Qed.

Lemma fixed_spec w1 t1 : dts w1 !! d = Some t1 -> sig_of t1 = sig_of st -> layout t1 = 0 ->
  wp (jl_has_fixed_layout env d) w1 (fun b w' => b = true /\ w' = w1).
Proof using Hst Hfx.
  intros Ht1 Es Hl. destruct Hfx as (s & Hs & Hm & Hc). rewrite (sigs_lookup _ _ _ Hst) in Hs. injection Hs as <-. rewrite <- Es in *.
  unfold jl_has_fixed_layout. wp. cbn [sig_of s_name s_concrete s_types] in *. rewrite Hl. cbn [Z.eqb negb]. destruct Hc as [[-> [flds ->]]|Ha]; [cbn [andb]; by wp|].
  destruct (isconcretetype t1 && _); [by wp|]. destruct (decide _); [done|]. by wp.
Qed.

Context (try : nat -> M bool) (Htry : forall w0, try_ok env B (frozen B (rank B d) w0) try (rank B d)).

(** Fields: the loops over them and their layout. *)
Lemma struct_case w1 t1 wd wt flds isbits mf idf (Q : unit -> world -> Prop) : world_ok env B w1 n -> ext w w1 -> dts w1 !! d = Some t1 -> sig_of t1 = sig_of st -> layout t1 = 0 ->
  instance t1 = false -> isbitstype t1 = false ->
  (forall e, e <> d -> dts w1 !! e = dts w !! e) -> wrapper (name st) = Some wd -> dts w !! wd = Some wt -> layout wt = 0 -> types st = Some flds -> flds <> [] ->
  (isbits = true -> mayinlinealloc (name st) = true) -> (forall w', computed w' -> Q tt w') ->
  wp (let! (isbits, mutfree, idfree) := properties_loop env try st 0 flds isbits mf idf in
      let! t := dt_at d in
      let! _ := (if layout t =? 0 then compute_layout env try d st flds else ret tt) in
      let! t := dt_at d in
      let! l := layout_bytes (layout t) in
      let! np := lift (l_npointers l) in
      let! _ := assert_ (negb isbits || (np =? 0)) in
      let! _ := update d (set_isbitstype isbits) in
      let! _ := update d (set_free mutfree idfree) in
      jl_maybe_allocate_singleton_instance d) w1 Q.
Proof using Hw Hst Hl0 Hfx Htry.
  intros Hw1 Hx1 Ht1 Es1 Hl1 Hi1 Hb1 Hsame Hwd Hwt Hlw Hty Hne Hib HQ.
  pose proof st_sig as Hsig. set (I := frozen B (rank B d) w1). assert (forall w', I w' -> dts w' !! d = Some t1) as HI by (intros w' H; by rewrite H).
  assert (ok env B I w1) as Hok1 by (split; [by exists n|done]). pose proof (ex_sigs _ _ _ Hx1) as Esg1.
  pose proof (fields_fine_of w1 flds Esg1 Hty Hne) as Hff1. apply wp_bind.
  eapply wp_mono; [eapply (properties_spec env B I try (rank B d)); [apply Htry|done|apply Hff1| |]|].
  { unfold there. rewrite <- sigs_length, Esg1. apply Hsig. }
  { intros ws. by apply (so_const _ _ _ _ _ Hsig). }
  intros [[ib mf'] idf'] w2 (Hok2 & Hx2 & Hbits). cbn [fst] in Hbits. assert (sigs w2 = sigs w) as Esg2 by (rewrite (ex_sigs _ _ _ Hx2); done).
  assert (dts w2 !! d = Some t1) as Ht2 by (apply HI, Hok2). wp. rewrite Hl1. cbn [Z.eqb].
  apply (compute_layout_spec env B I try (rank B d) (Htry w1) w2 d t1 st flds); [done|done|done|by apply fields_fine_of|].
  intros w2' w3 n' a v z fs Hok2' Hx2' Hinf Hfs Hv Hal Hsz Hmade. set (t3 := set_zeroinit z (set_layout a t1)). set (w4 := set_dts (insert d t3) w3).
  assert (dts w2' !! d = Some t1) as Ht2' by (apply HI, Hok2'). assert (sigs w2' = sigs w) as Esg2' by (rewrite (ex_sigs _ _ _ Hx2'); done).
  assert (~ opaque v) as Ho.
  { intros [H _]. rewrite (sv_desc _ _ _ Hv) in H. apply (f_equal length) in H. rewrite descs_length, <- (infos_length env B _ _ _ _ _ Hinf) in H. by destruct flds. }
  pose proof (struct_view_good fs v z Hfs Hv (proj2 (md_in _ _ _ _ _ _ _ Hmade))) as Hg. assert (sig_of t3 = sig_of t1) as Es3 by done.
  assert (layout_ok B w3 d t3 v) as Hlo.
  { split; try done; cbn [t3 set_zeroinit set_layout layout zeroinit].
    - apply Hmade.
    - intros _. apply Hv.
    - intros _. rewrite round_up_id; [done|pose proof (pow2_bound _ (g_align _ Hg)); lia|]. rewrite (sv_size _ _ _ Hv), (sv_align _ _ _ Hv).
      pose proof (max_align_ge fs). by destruct (round_up_spec (struct_end fs) (max_align fs) ltac:(lia)). }
  destruct (lay env B w2' w3 n' d t1 t3 v) as [Hw4 Hx4]; try done; try apply Hmade; [left; by rewrite Esg2'|]. fold w4 in Hw4, Hx4.
  assert (dts w4 !! d = Some t3) as Ht4 by (apply (set_dts_lookup d t1); by rewrite (md_dts _ _ _ _ _ _ _ Hmade)).
  apply (final_case w4 (n' + 1) t3 v ib mf' idf' wd wt); try done.
  - etrans; [exact Hx1|]. etrans; [exact Hx2|]. by etrans.
  - apply Hmade.
  - apply (layout_ok_mem B w3); [done|done].
  - intros ->. destruct (Hbits eq_refl) as [Hib' Hall]. split; [by apply Hib|]. rewrite (sv_ptrs _ _ _ Hv). apply no_ptrs_from.
    apply (bits_no_ptrs env B w2' st 0 flds fs); [apply Hok2'| |done]. eapply Forall_impl; [exact Hall|]. intros fld. by apply (bits_field_ext env B w2).
  - intros e He Hned. unfold w4. rewrite set_dts_lookup_ne, (md_dts _ _ _ _ _ _ _ Hmade) by done. destruct Hok2' as [_ HI2]. rewrite HI2 by done. by apply Hsame.
  - intros w' t' Hx' Ht' El Ez. unfold laid_out. destruct (decide (layout wt = 0)); [|done]. destruct (decide _) as [[E _]|_]; [rewrite Hty in E; by injection E|].
    exists flds, fs. split_and!; [done| |done| |].
    + apply (infos_ext env B w2'); [by etrans|done].
    + by rewrite Ez.
    + intros _. rewrite El. destruct Hx' as [[_ Hint] _ _ _]. apply Hint; [|exact (md_interned _ _ _ _ _ _ _ Hmade)]. destruct (md_in _ _ _ _ _ _ _ Hmade) as [Hin _]. cbn. by exists (encode v).
Qed.
End Types.

(** * Layouts: the layout of every type can be computed, and is right *)

#[local] Open Scope layout_scope.

Section Correct.
Context (env : type_env) (B : bounds).
#[local] Abbreviation ext := (ext env).

(** ** One type, given the recursive calls *)

Lemma compute_field_offsets_spec try w n d st (Q : unit -> world -> Prop) : world_ok env B w n -> dts w !! d = Some st -> layout st = 0 -> fixed env (sigs w) d ->
  (forall w0, try_ok env B (frozen B (rank B d) w0) try (rank B d)) ->
  (forall w', computed env B w d st w' -> Q tt w') -> wp (jl_compute_field_offsets env try d) w Q.
Proof using.
  intros Hw Hst Hl0 Hfx Htry HQ. pose proof (st_sig env B w n d st Hw Hst) as Hsig. pose proof (no_instance env B w n d st Hw Hst Hl0) as Hni. pose proof (no_bits env B w n d st Hw Hst Hl0) as Hnb.
  destruct (so_fixed _ _ _ _ _ Hsig Hfx) as [[wd Hwd] [flds Hty]]. cbn [sig_of s_name s_types] in Hwd, Hty.
  destruct (so_wrapper _ _ _ _ _ Hsig wd Hwd) as (ws & Hws & En & _ & _ & Htw). destruct (sigs_lookup_inv _ _ _ Hws) as (wt & Hwt & ->). cbn [sig_of s_name s_types] in En, Htw.
  assert (tn_id (name st) <> jl_genericmemory_typename) as Hnm.
  { destruct Hfx as (s & Hs & Hm & _). rewrite (sigs_lookup _ _ _ Hst) in Hs. by injection Hs as <-. }
  unfold jl_compute_field_offsets. wp. rewrite Hwd, Hl0. cbn [Z.eqb negb]. rewrite andb_false_r. wp. destruct (decide _); [done|]. wp.
  destruct (Z.eqb_spec (layout wt) 0) as [Hlw|Hlw]; cbn [negb orb].
  2:{ pose proof (wrapper_case env B w n d st Hw Hst Hl0 Hfx wd wt Q Hwd Hwt Hlw HQ) as H. destruct (Z.eqb_spec (layout wt) 0); [done|]. exact (wp_bind_inv _ _ _ _ H). }
  wp. apply wp_assert; [by destruct Htw as [? ->]|]. apply wp_bind, wp_assert.
  { pose proof (so_uninit _ _ _ _ _ Hsig flds Hty) as H. cbn [sig_of s_name] in H. apply Z.leb_le. lia. }
  destruct (Nat.eqb_spec (length flds) 0) as [Hlen|Hlen]; cbn [andb].
  - destruct flds as [|]; [|done].
    destruct (bool_decide (d = jl_symbol_type env) || bool_decide (d = jl_string_type env)) eqn:E1.
    { apply (blob_case env B w n d st Hw Hst Hl0 Hfx opaque_byte_layout 1 1 true wd wt); try done. apply orb_true_iff in E1 as [H%bool_decide_eq_true|H%bool_decide_eq_true]; unfold builtins; set_solver. }
    destruct (bool_decide (d = jl_simplevector_type env) || bool_decide (d = jl_module_type env)) eqn:E2.
    { apply (blob_case env B w n d st Hw Hst Hl0 Hfx opaque_ptr_layout 1 8 true wd wt); try done. apply orb_true_iff in E2 as [H%bool_decide_eq_true|H%bool_decide_eq_true]; unfold builtins; set_solver. }
    wp. cbn [negb properties_loop]. wp. eapply wp_dt_at; [by apply (set_dts_lookup d st)|]. cbn [layout set_layout]. change (singleton_layout =? 0) with false. cbv iota. apply wp_bind, wp_ret. cbv beta.
    destruct (static_case env B w n d st Hw Hst Hl0 Hfx singleton_layout 0 1 true) as (H1 & H2 & H3); [done..|].
    apply (final_case env B w d st _ (n + 1) (set_layout singleton_layout st) (static_view 0 1 true) _ _ _ wd wt); try done.
    + by apply (set_dts_lookup d st).
    + intros [_ H]. cbn in H. lia.
    + intros [_ Hm]%andb_true_iff. by split.
    + intros e _ Hned. by apply set_dts_lookup_ne.
    + intros w' t' Hx' Ht' El Ez. unfold laid_out. destruct (decide (layout wt = 0)); [|done]. destruct (decide _) as [[_ Hin]|_].
      { exfalso. apply orb_false_iff in E1 as [?%bool_decide_eq_false ?%bool_decide_eq_false], E2 as [?%bool_decide_eq_false ?%bool_decide_eq_false]. unfold builtins in Hin. set_solver. }
      exists [], []. split_and!; [done..|constructor| |done]. split; cbn; done.
  - assert (flds <> []) as Hne by (intros ->; done). wp.
    pose proof (fields_fine_of env B w n d st Hw Hst w flds ltac:(done) Hty Hne) as Hff.
    apply (concrete_subtype_spec w d st); [done| |].
    { apply Forall_take. eapply Forall_impl; [apply Hff|]. intros fld H. apply H. }
    intros b. set (t1 := set_has_concrete_subtype b st). set (w1 := set_dts (insert d t1) w).
    destruct (touch env B w n d st t1 Hw Hst) as [Hw1 Hx1]; [done..|cbn; rewrite Hni; done|cbn; rewrite Hnb; done|]. fold w1 in Hw1, Hx1.
    assert (dts w1 !! d = Some t1) as Ht1 by (by apply (set_dts_lookup d st)).
    assert (forall Q' : bool -> world -> Prop, Q' true w1 -> wp (if isconcretetype st then ret true else
      let! fixed := jl_has_fixed_layout env d in
      if negb fixed && jl_has_free_typevars env d then let! _ := assert_ (bool_decide (d = wd)) in ret false else ret true) w1 Q') as Hgo.
    { intros Q' HQ'. destruct (isconcretetype st); [by wp|]. apply wp_bind. eapply wp_mono; [by apply (fixed_spec env w d st Hst Hfx w1 t1)|]. intros fx w1' [-> ->]. cbn [negb andb]. by wp. }
    apply Hgo. cbn [negb].
    apply (struct_case env B w n d st Hw Hst Hl0 Hfx try Htry w1 t1 wd wt flds); try done.
    + intros e Hned. by apply set_dts_lookup_ne.
    + by intros [_ ?]%andb_true_iff.
Qed.

(** ** Every type, by the order in which inline fields nest *)

Definition closed (k : nat) (I : world -> Prop) : Prop := forall w w', I w -> (forall e, (k <= rank B e)%nat -> dts w' !! e = dts w !! e) -> I w'.

Lemma computed_laid w n d st w' : world_ok env B w n -> dts w !! d = Some st -> fixed env (sigs w) d -> computed env B w d st w' ->
  exists t', dts w' !! d = Some t' /\ layout t' <> 0.
Proof using.
  intros Hw Hst Hfx Hc. pose proof (st_sig env B w n d st Hw Hst) as Hsig. destruct (so_fixed _ _ _ _ _ Hsig Hfx) as [[wd Hwd] _].
  destruct (so_wrapper _ _ _ _ _ Hsig wd Hwd) as (ws & Hws & _). destruct (sigs_lookup_inv _ _ _ Hws) as (wt & Hwt & _).
  destruct (cp_layout _ _ _ _ _ _ Hc wd wt Hwd Hwt) as (t' & v & Ht' & Hl & _). by exists t'.
Qed.

Lemma try_layout_ok fuel : forall k I, (k <= fuel)%nat -> closed k I -> try_ok env B I (jl_struct_try_layout env fuel) k.
Proof using.
  induction fuel as [|fuel IH]; intros k I Hk Hcl e w [[n Hw] HI] He Hr; [lia|]. destruct (lookup_lt_is_Some_2 _ _ He) as [t Ht]. cbn [jl_struct_try_layout]. wp.
  destruct (negb (layout t =? 0) || bool_decide (tn_id (name t) = jl_genericmemory_typename)) eqn:E.
  { wp. split; [split; [by exists n|done]|]. split; [reflexivity|]. apply orb_true_iff in E as [H%negb_true_iff%Z.eqb_neq|H%bool_decide_eq_true]; [left|right]; by exists t. }
  apply orb_false_iff in E as [Hl%negb_false_iff%Z.eqb_eq Hm%bool_decide_eq_false]. apply wp_bind.
  assert (wp (jl_has_fixed_layout env e) w (fun b w' => w' = w /\ (b = true <-> fixed env (sigs w) e))) as Hfixed.
  { unfold jl_has_fixed_layout. wp. rewrite Hl. cbn [Z.eqb negb].
    assert (fixed env (sigs w) e <-> (isconcretetype t = true /\ is_Some (types t)) \/ fixed_layout_abstract env e = true) as Hiff.
    { unfold fixed. split; [intros (s & Hs & _ & Hc); rewrite (sigs_lookup _ _ _ Ht) in Hs; by injection Hs as <-|].
      intros Hc. exists (sig_of t). split; [by apply sigs_lookup|done]. }
    destruct (isconcretetype t), (types t) as [ts|]; cbn [andb]; try (destruct (decide _); [done|]); wp; (split; [done|]); rewrite Hiff;
      (split; [intros H; auto|intros [[? [? ?]]|?]; done]). all: left; split; [done|by exists ts]. }
  eapply wp_mono; [exact Hfixed|]. intros b w1 [-> Hb]. destruct b; cbn [negb].
  - apply wp_bind. assert (fixed env (sigs w) e) as Hfx by (by apply Hb).
    eapply (compute_field_offsets_spec (jl_struct_try_layout env fuel) w n e t); [done|done|done|done| |].
    { intros w0. apply IH; [lia|]. intros wa wb Ha Hab e' He'. rewrite Hab by done. by apply Ha. }
    intros w' Hc. destruct (computed_laid w n e t w' Hw Ht Hfx Hc) as (t' & Ht' & Hl'). wp. apply wp_assert; [by apply negb_true_iff, Z.eqb_neq|]. wp.
    split; [split; [apply Hc|]|]. { apply (Hcl w); [done|]. intros e' He'. apply (cp_same _ _ _ _ _ _ Hc); [lia|]. intros ->. lia. }
    split; [apply Hc|]. left. by exists t'.
  - wp. split; [split; [by exists n|done]|]. split; [reflexivity|]. split; [intros t' Ht'; congruence|]. intros Hfx. by apply Hb in Hfx.
Qed.

Lemma compute_ok fuel w n d st : world_ok env B w n -> dts w !! d = Some st -> layout st = 0 -> fixed env (sigs w) d -> (rank B d <= fuel)%nat ->
  exists w', jl_compute_field_offsets env (jl_struct_try_layout env fuel) d w = Some (Ok tt w') /\ computed env B w d st w'.
Proof using.
  intros Hw Hst Hl Hfx Hf. destruct (compute_field_offsets_spec (jl_struct_try_layout env fuel) w n d st (fun _ w' => computed env B w d st w') Hw Hst Hl Hfx) as ([] & w' & E & Hc).
  - intros w0. apply try_layout_ok; [done|]. intros wa wb Ha Hab e' He'. rewrite Hab by done. by apply Ha.
  - done.
  - by exists w'.
Qed.

(** ** A wrapper with free type variables keeps no layout *)

Definition free_wrapper (d : nat) (st : jl_datatype_t) : Prop :=
  wrapper (name st) = Some d /\ tn_id (name st) <> jl_genericmemory_typename /\ isconcretetype st = false /\ fixed_layout_abstract env d = false /\
  jl_has_free_typevars env d = true /\ exists flds, types st = Some flds /\ flds <> [].

Lemma free_wrapper_spec try w n d st : world_ok env B w n -> dts w !! d = Some st -> layout st = 0 -> free_wrapper d st ->
  exists w' t, jl_compute_field_offsets env try d w = Some (Ok tt w') /\ wok env B w' /\ ext w w' /\ dts w' !! d = Some t /\ layout t = 0.
Proof using.
  intros Hw Hst Hl0 (Hwd & Hnm & Hnc & Hfa & Hfree & flds & Hty & Hne). pose proof (st_sig env B w n d st Hw Hst) as Hsig.
  enough (wp (jl_compute_field_offsets env try d) w (fun _ w' => exists t, wok env B w' /\ ext w w' /\ dts w' !! d = Some t /\ layout t = 0)) as ([] & w' & E & t & H).
  { by exists w', t. }
  unfold jl_compute_field_offsets. wp. rewrite Hwd, Hl0. cbn [Z.eqb negb]. rewrite andb_false_r. wp. destruct (decide _); [done|]. wp. rewrite Hl0. cbn [Z.eqb negb]. wp.
  apply wp_assert; [by rewrite Hty|]. apply wp_bind, wp_assert.
  { pose proof (so_uninit _ _ _ _ _ Hsig flds Hty) as H. cbn [sig_of s_name] in H. apply Z.leb_le. lia. }
  destruct (Nat.eqb_spec (length flds) 0) as [Hlen|Hlen]; [by destruct flds|]. cbn [andb]. wp.
  apply (concrete_subtype_spec w d st); [done| |].
  { pose proof (fields_fine_of env B w n d st Hw Hst w flds ltac:(done) Hty Hne) as Hff. apply Forall_take. eapply Forall_impl; [apply Hff|]. intros fld H. apply H. }
  intros b. set (t1 := set_has_concrete_subtype b st). rewrite Hnc. wp.
  destruct (touch env B w n d st t1 Hw Hst) as [Hw1 Hx1]; [done..|by apply (wo_instance _ _ _ _ Hw d st)| |].
  { cbn [t1 set_has_concrete_subtype isbitstype]. by rewrite (no_bits env B w n d st Hw Hst Hl0). }
  unfold jl_has_fixed_layout. wp. eapply wp_dt_at; [by apply (set_dts_lookup d st)|]. cbn [t1 set_has_concrete_subtype isconcretetype name layout]. rewrite Hnc, Hl0. cbn [andb Z.eqb negb].
  destruct (decide _); [done|]. wp. rewrite Hfa, Hfree. cbn [negb andb]. apply wp_bind, wp_assert; [by apply bool_decide_eq_true|]. wp. cbn [negb]. wp.
  exists t1. split; [by exists n|]. split; [done|]. split; [by apply (set_dts_lookup d st)|done].
Qed.
End Correct.

(** * Layouts: what the bytes of a struct's layout say, and the theorems *)

#[local] Open Scope layout_scope.

Section Spec.
Context (env : type_env) (B : bounds).

(** Field [i] is stored as [f] says, at [off]. *)
Record field_at (w : world) (st : jl_datatype_t) (l : list Z) (i : nat) (fld : jl_value_t) (f : finfo) (off : Z) : Prop := {
  fa_info : field_info env B w (isatomic_at st i) fld f;
  fa_offset : jl_field_offset l (Z.of_nat i) = Some off;
  fa_size : jl_field_size l (Z.of_nat i) = Some (f_size f);
  fa_isptr : jl_field_isptr l (Z.of_nat i) = Some (f_ptr f);
  fa_aligned : f_align f = 0 \/ (f_align f | off);
}.

(** The bytes [l] are a layout of the fields [flds], with [size] and [align]:
    fields lie in order, apart, aligned and inside; the pointer table is sorted
    and has the pointers of the fields and no others; [zi] is set if there are
    any; and without [haspadding] every byte belongs to a field. *)
Record struct_layout (w : world) (st : jl_datatype_t) (flds : list jl_value_t) (zi : bool) (l : list Z) (size align : Z) (ptrs : list Z) : Prop := {
  sl_size : l_size l = Some size;
  sl_align : l_alignment l = Some align;
  sl_nfields : l_nfields l = Some (Z.of_nat (length flds));
  sl_npointers : l_npointers l = Some (Z.of_nat (length ptrs));
  sl_first : l_first_ptr l = Some (match ptrs with [] => -1 | p :: _ => p end);
  sl_opaque : jl_is_layout_opaque l = Some false;
  sl_power : pow2 align;
  sl_multiple : (align | size);
  sl_fields i fld : flds !! i = Some fld -> exists f off, field_at w st l i fld f off /\ 0 <= off /\ off + f_size f <= size;
  sl_order i j offi szi offj : i < j -> jl_field_offset l i = Some offi -> jl_field_size l i = Some szi -> jl_field_offset l j = Some offj -> offi + szi <= offj;
  sl_table i p : ptrs !! i = Some p -> jl_ptr_offset l (Z.of_nat i) = Some p;
  sl_sorted : StronglySorted Z.lt ptrs;
  sl_pointers p : p ∈ ptrs <-> exists i fld f off q, flds !! i = Some fld /\ field_at w st l i fld f off /\ q ∈ f_ptrs f /\ 8 * p = off + 8 * q;
  sl_zeroinit : ptrs <> [] -> zi = true;
  sl_padding : exists flags, l_flags l = Some flags /\ (flag_haspadding flags = false ->
    forall x, 0 <= x < size -> exists i fld f off, flds !! i = Some fld /\ field_at w st l i fld f off /\ off <= x < off + f_size f /\ f_pad f = false);
}.

(** How a field is stored is determined by its type. *)
Lemma layout_in_unique_ptrs m a u v : good u -> good v -> layout_in m a u -> layout_in m a v -> v_ptrs u = v_ptrs v /\ v_haspadding u = v_haspadding v.
Proof using.
  intros Gu Gv [H1 H2] [H3 H4]. assert (encode u = encode v) as E by congruence. pose proof (encode_decodes u H2) as D1. pose proof (encode_decodes v H4) as D2. rewrite <- E in D2.
  assert (length (v_ptrs u) = length (v_ptrs v)) as El.
  { pose proof (d_npointers _ _ D1) as N1. pose proof (d_npointers _ _ D2) as N2. rewrite N1 in N2. injection N2 as N2. rewrite (g_npointers _ Gu), (g_npointers _ Gv) in N2. lia. }
  split.
  - apply list_eq. intros i. destruct (v_ptrs u !! i) as [p|] eqn:Eu, (v_ptrs v !! i) as [q|] eqn:Ev; try done.
    + pose proof (d_ptr _ _ D1 _ _ Eu) as P1. pose proof (d_ptr _ _ D2 _ _ Ev) as P2. congruence.
    + apply lookup_lt_Some in Eu. apply lookup_ge_None in Ev. lia.
    + apply lookup_lt_Some in Ev. apply lookup_ge_None in Eu. lia.
  - destruct (flags_spec (v_haspadding u) (v_isbitsegal u) (v_fd u) (v_arrayelem u) (v_unused u)) as (_ & F1 & _); [apply H2..|].
    destruct (flags_spec (v_haspadding v) (v_isbitsegal v) (v_fd v) (v_arrayelem v) (v_unused v)) as (_ & F2 & _); [apply H4..|].
    rewrite <- F1, <- F2. fold (v_flags u) (v_flags v). pose proof (d_flags _ _ D1) as L1. pose proof (d_flags _ _ D2) as L2. congruence.
Qed.

Lemma data_inline w fld e t v : normalize_typeofbottom_layout_alias env fld = Datatype e -> dts w !! e = Some t -> inl B w e false v ->
  jl_is_uniontype fld = false /\ inline_field env B w fld (if isprimitivetype t then round_up (v_size v) (v_align v) else v_size v) (v_align v).
Proof using.
  intros En Ht Hv. split; [by destruct fld|]. exists 1. split; [|lia]. destruct fld; try done; cbn [inline_ty]; rewrite En; by exists t, v.
Qed.
Lemma field_info_unique w b fld f g : wok env B w -> field_info env B w b fld f -> field_info env B w b fld g -> f = g.
Proof using.
  intros Hok (p1 & z1 & a1 & q1 & d1 & H1 & ->) (p2 & z2 & a2 & q2 & d2 & H2 & ->).
  enough (p1 = p2 /\ z1 = z2 /\ a1 = a2 /\ q1 = q2 /\ d1 = d2) as (-> & -> & -> & -> & ->) by done.
  assert (forall s a, boxed_field env B w fld \/ (b = true /\ jl_is_uniontype fld = true) -> inline_field env B w fld s a -> b = false \/ jl_is_uniontype fld = false -> False) as Hboxed.
  { intros s a [Hb|[-> Hu]] Hi [?|?]; try congruence; by apply (Hb w s a ltac:(reflexivity) Hok). }
  destruct H1 as [s1 a1 U1 A1 I1|e1 t1 v1 s1 N1 T1 I1 E1|B1], H2 as [s2 a2 U2 A2 I2|e2 t2 v2 s2 N2 T2 I2 E2|B2]; try done;
    try (destruct (data_inline w fld _ _ _ N1 T1 I1) as [U1 J1]); try (destruct (data_inline w fld _ _ _ N2 T2 I2) as [U2 J2]); try congruence;
    try (exfalso; by eapply Hboxed; [| |by (left + right)]).
  - destruct I1 as (n1 & I1 & _), I2 as (n2 & I2 & _). destruct (inline_ty_unique env B _ _ _ _ _ _ _ _ _ I1 I2) as (_ & -> & ->). done.
  - rewrite N1 in N2. injection N2 as <-. rewrite T1 in T2. injection T2 as <-. destruct (inl_good B _ _ _ _ I1) as [G1 _], (inl_good B _ _ _ _ I2) as [G2 _].
    destruct I1 as (t & T & _ & _ & V1 & _), I2 as (t' & T' & _ & _ & V2 & _). rewrite T1 in T, T'. injection T as <-. injection T' as <-.
    destruct (layout_in_unique _ _ _ _ (lo_in _ _ _ _ _ V1) (lo_in _ _ _ _ _ V2)) as (Es & Ea & _).
    destruct (layout_in_unique_ptrs _ _ _ _ G1 G2 (lo_in _ _ _ _ _ V1) (lo_in _ _ _ _ _ V2)) as (Ep & Eh). subst s1 s2. rewrite Es, Ea, Ep, Eh. done.
Qed.

Lemma infos_lookup w st i0 flds fs i fld : infos env B w st i0 flds fs -> flds !! i = Some fld -> exists f, fs !! i = Some f /\ field_info env B w (isatomic_at st (i0 + i)) fld f.
Proof using.
  revert i0 fs i. induction flds as [|x flds IH]; intros i0 [|f fs] [|i]; cbn [infos]; try done; intros [H1 H2] Hi; cbn [lookup list_lookup] in *.
  - injection Hi as <-. exists f. by rewrite Nat.add_0_r.
  - destruct (IH (S i0) fs i H2 Hi) as (g & Hg & Hf). exists g. split; [done|]. by replace (i0 + S i)%nat with (S i0 + i)%nat by lia.
Qed.

Lemma ptrs_from_elem base sz fs p : p ∈ ptrs_from base sz fs <-> exists i f o q, fs !! i = Some f /\ place sz fs !! i = Some o /\ q ∈ f_ptrs f /\ p = (o + base) / 8 + q.
Proof using.
  revert sz. induction fs as [|f fs IH]; intros sz0; cbn [ptrs_from place].
  { split; [by intros ?%elem_of_nil|by intros (i & f & o & q & H & _)]. }
  rewrite elem_of_app, list_elem_of_fmap, IH. split.
  - intros [(q & -> & Hq)|(i & g & o & q & H)]; [by exists 0%nat, f, (align_to sz0 (f_align f)), q|by exists (S i), g, o, q].
  - intros ([|i] & g & o & q & Hg & Ho & Hq & ->); cbn [lookup list_lookup] in *; [left|right].
    + injection Hg as ->. injection Ho as <-. by exists q.
    + by exists i, g, o, q.
Qed.

Lemma no_gaps_cover sz fs x : no_gaps sz fs -> sz <= x < place_end sz fs -> exists i f o, fs !! i = Some f /\ place sz fs !! i = Some o /\ o <= x < o + f_size f.
Proof using.
  revert sz. induction fs as [|f fs IH]; intros sz0; cbn [no_gaps place place_end]; [lia|]. intros [E Hg] Hx. rewrite E in *.
  destruct (Z.ltb_spec x (sz0 + f_size f)); [exists 0%nat, f, sz0; split_and!; [done|done|lia|lia]|].
  destruct (IH (sz0 + f_size f) Hg ltac:(lia)) as (i & g & o & H1 & H2 & H3). by exists (S i), g, o.
Qed.
Lemma place_is_Some sz fs i f : fs !! i = Some f -> exists o, place sz fs !! i = Some o.
Proof using. intros H. apply lookup_lt_is_Some_2. rewrite place_length. by eapply lookup_lt_Some. Qed.

(** The offset of a field with pointers is a whole number of words. *)
Lemma word_offset fs i f o q : Forall finfo_ok fs -> fs !! i = Some f -> place 0 fs !! i = Some o -> q ∈ f_ptrs f -> (8 | o + base_of fs).
Proof using.
  intros Hfs Hf Ho Hq. assert (f ∈ fs) as Hin by (by eapply list_elem_of_lookup_2). assert (f_ptrs f <> []) as Hne by (intros E; rewrite E in Hq; by apply elem_of_nil in Hq).
  destruct (place_lookup 0 fs i f o Hfs Hf Ho) as (_ & Ha & _). pose proof Hfs as Hfs'. rewrite Forall_forall in Hfs'. destruct (fo_words _ (Hfs' f Hin) Hne) as [H8 Hnz].
  apply Z.divide_add_r.
  - destruct Ha as [?|Ha]; [done|]. by etrans.
  - etrans; [apply (max_align_words fs Hfs); apply Exists_exists; by exists f|by apply base_of_spec].
Qed.

Lemma struct_layout_of w st flds fs v z : wok env B w -> infos env B w st 0 flds fs -> Forall finfo_ok fs -> struct_view fs v z -> encodable v -> ~ opaque v ->
  struct_layout w st flds z (encode v) (v_size v) (v_align v) (v_ptrs v).
Proof using.
  intros Hok Hinf Hfs Hv Henc Ho. pose proof (encode_decodes v Henc) as Hd. pose proof (struct_view_good fs v z Hfs Hv Henc) as Hg.
  pose proof (infos_length env B _ _ _ _ _ Hinf) as Hlen. destruct (base_of_spec fs Hfs) as [[Hb0 _] Hbd]. pose proof (max_align_ge fs).
  pose proof (round_up_spec (struct_end fs) (max_align fs) ltac:(lia)) as [[Hru _] Hrd].
  assert (forall i f o, fs !! i = Some f -> place 0 fs !! i = Some o -> v_desc v !! i = Some {| isptr := f_ptr f; fsize := f_size f; offset := o + base_of fs |}) as Hdesc.
  { intros i f o Hf Ho'. rewrite (sv_desc _ _ _ Hv). unfold descs. apply lookup_zip_with_Some. by exists f, o. }
  assert (forall i f o, fs !! i = Some f -> place 0 fs !! i = Some o -> 0 <= o + base_of fs /\ o + base_of fs + f_size f <= v_size v /\ (f_align f = 0 \/ (f_align f | o + base_of fs))) as Hplace.
  { intros i f o Hf Ho'. destruct (place_lookup 0 fs i f o Hfs Hf Ho') as (H1 & H2 & H3). rewrite (sv_size _ _ _ Hv). unfold struct_end in *. split_and!; [lia|lia|].
    destruct (decide (f_align f = 0)) as [?|Hne]; [by left|right]. destruct H2 as [?|H2]; [done|]. apply Z.divide_add_r; [done|]. etrans; [|exact Hbd].
    apply max_align_divide; [done|by eapply list_elem_of_lookup_2|done]. }
  assert (forall i fld f o, flds !! i = Some fld -> fs !! i = Some f -> place 0 fs !! i = Some o -> field_at w st (encode v) i fld f (o + base_of fs)) as Hat.
  { intros i fld f o Hi Hf Ho'. destruct (infos_lookup _ _ _ _ _ _ _ Hinf Hi) as (f' & Hf' & Hfi). rewrite Hf in Hf'. injection Hf' as <-. specialize (Hdesc i f o Hf Ho').
    split; [done|by apply (d_offset _ _ Hd _ _ Hdesc)|by apply (d_fsize _ _ Hd _ _ Hdesc)|by apply (d_isptr _ _ Hd _ _ Hdesc)|by apply (Hplace i)]. }
  assert (length (v_desc v) = length fs) as Eln by (rewrite (sv_desc _ _ _ Hv); apply descs_length).
  assert (forall i off, jl_field_offset (encode v) i = Some off -> exists j f o, i = Z.of_nat j /\ fs !! j = Some f /\ place 0 fs !! j = Some o /\ off = o + base_of fs) as Hinv.
  { intros i off E. assert (0 <= i < Z.of_nat (length (v_desc v))) as Hi.
    { unfold jl_field_offset in E. rewrite (d_nfields _ _ Hd), (d_flags _ _ Hd) in E. cbn [mbind option_bind] in E. destruct (Z.leb_spec 0 i), (Z.ltb_spec i (Z.of_nat (length (v_desc v)))); try done. }
    destruct (lookup_lt_is_Some_2 fs (Z.to_nat i)) as [f Hf]; [lia|]. destruct (place_is_Some 0 fs _ f Hf) as [o Ho'].
    exists (Z.to_nat i), f, o. split; [lia|]. split; [done|]. split; [done|]. pose proof (d_offset _ _ Hd _ _ (Hdesc _ f o Hf Ho')) as E1. rewrite Z2Nat.id in E1 by lia. cbn [offset] in E1. congruence. }
  split.
  - apply Hd.
  - apply Hd.
  - rewrite (d_nfields _ _ Hd), (sv_desc _ _ _ Hv), descs_length. by rewrite Hlen.
  - rewrite (d_npointers _ _ Hd), (g_npointers _ Hg). done.
  - rewrite (d_first _ _ Hd). pose proof (e_first _ Henc) as Hf. unfold first_ok in Hf. destruct (v_ptrs v); [by rewrite Hf|]. by destruct Hf as [-> _].
  - destruct (is_layout_opaque_spec _ _ Hd) as ([] & -> & Hb); [|done]. by destruct Ho; apply Hb.
  - apply Hg.
  - by rewrite (sv_size _ _ _ Hv), (sv_align _ _ _ Hv).
  - intros i fld Hi. destruct (infos_lookup _ _ _ _ _ _ _ Hinf Hi) as (f & Hf & _). destruct (place_is_Some 0 fs i f Hf) as [o Ho'].
    exists f, (o + base_of fs). split; [by apply Hat|]. destruct (Hplace i f o Hf Ho') as (? & ? & _). done.
  - intros i j offi szi offj Hij Hi Hsz Hj. destruct (Hinv _ _ Hi) as (i' & f & o & -> & Hf & Ho1 & ->). destruct (Hinv _ _ Hj) as (j' & f' & o' & -> & Hf' & Ho2 & ->).
    rewrite (d_fsize _ _ Hd _ _ (Hdesc _ f o Hf Ho1)) in Hsz. injection Hsz as <-. cbn [fsize]. pose proof (place_ordered 0 fs i' j' f o o' Hfs ltac:(lia) Hf Ho1 Ho2). lia.
  - intros i p Hp. by apply (d_ptr _ _ Hd).
  - apply Hg.
  - intros p. rewrite (sv_ptrs _ _ _ Hv). unfold all_ptrs. rewrite ptrs_from_elem. split.
    + intros (i & f & o & q & Hf & Ho' & Hq & ->). destruct (lookup_lt_is_Some_2 flds i) as [fld Hi]; [rewrite Hlen; by eapply lookup_lt_Some|].
      exists i, fld, f, (o + base_of fs), q. split_and!; [done|by apply Hat|done|]. destruct (word_offset fs i f o q Hfs Hf Ho' Hq) as [k ->]. rewrite Z.div_mul by lia. lia.
    + intros (i & fld & g & off & q & Hi & Hfa & Hq & Hp). destruct (Hinv _ _ (fa_offset _ _ _ _ _ _ _ Hfa)) as (i' & f & o & ->%Nat2Z.inj & Hf & Ho' & ->).
      destruct (infos_lookup _ _ _ _ _ _ _ Hinf Hi) as (f' & Hf' & Hfi). rewrite Hf in Hf'. injection Hf' as <-.
      rewrite (field_info_unique w _ fld g f Hok (fa_info _ _ _ _ _ _ _ Hfa) Hfi) in Hq.
      exists i', f, o, q. split_and!; [done|done|done|]. destruct (word_offset fs i' f o q Hfs Hf Ho' Hq) as [k E]. rewrite E in *. rewrite Z.div_mul by lia. lia.
  - apply Hv.
  - exists (v_flags v). split; [apply Hd|]. destruct (flags_spec (v_haspadding v) (v_isbitsegal v) (v_fd v) (v_arrayelem v) (v_unused v)) as (_ & F & _); [apply Henc..|].
    fold (v_flags v) in F. rewrite F. intros Hp. destruct (sv_padding _ _ _ Hv Hp) as (Hg1 & Hg2 & Hg3 & Hg4). intros x Hx. rewrite Hg4 in Hx.
    destruct (no_gaps_cover 0 fs x Hg1 Hx) as (i & f & o & Hf & Ho' & Hx'). destruct (lookup_lt_is_Some_2 flds i) as [fld Hi]; [rewrite Hlen; by eapply lookup_lt_Some|].
    assert (base_of fs = 0) as Eb by (unfold base_of; by rewrite Hg3).
    exists i, fld, f, (o + base_of fs). split_and!; [done|by apply Hat|lia|lia|]. rewrite Forall_forall in Hg2. apply Hg2. by eapply list_elem_of_lookup_2.
Qed.
End Spec.
