(* ===== verification/LayoutMemory.v ===== *)
(** * Layouts: memories *)
From stdpp Require Import gmap.
From Stdlib Require Import Sorting.Sorted.
From S2P Require Import Prelude Probe Layout LayoutFacts Datatype LayoutWorld LayoutFields LayoutStruct LayoutMain LayoutCorrect.
#[local] Open Scope layout_scope.

(** ** The shape of an element: of [e] bytes with alignment [a] *)

Definition elem_locked (atomic : bool) (e : Z) : bool := atomic && (MAX_ATOMIC_SIZE <? e).
Definition elem_size (atomic : bool) (e a : Z) : Z :=
  if elem_locked atomic e then if a <? 8 then round_up (e + 16) 8 else e + 16
  else if atomic && (0 <? e) then next_power_of_two e else e.
Definition elem_align (atomic : bool) (e a : Z) : Z :=
  if elem_locked atomic e then Z.max a 8 else if atomic && (0 <? e) then next_power_of_two e else a.
Definition elem_shift (atomic : bool) (e : Z) : Z := if elem_locked atomic e then 2 else 0.

Lemma elem_bounds atomic e a : 0 <= e -> pow2 a -> e + 8 * elem_shift atomic e <= elem_size atomic e a <= e + 32 /\ 0 < elem_align atomic e a < 2 ^ 16.
Proof.
  intros He Ha. pose proof (pow2_bound _ Ha). change (2 ^ 16) with 65536 in *. unfold elem_size, elem_align, elem_shift, elem_locked, MAX_ATOMIC_SIZE.
  destruct atomic; cbn [andb]; [|lia]. destruct (Z.ltb_spec 16 e).
  - split; [|lia]. destruct (a <? 8); [|lia]. pose proof (round_up_spec (e + 16) 8 ltac:(lia)) as [? _]. lia.
  - destruct (Z.ltb_spec 0 e); [|lia]. destruct (next_power_of_two_small e ltac:(lia)) as [[? _]|(_ & Hp & Hle & _)]; [lia|]. pose proof (pow2_bound _ Hp). lia.
Qed.

Section Memory.
Context (env : type_env) (B : bounds).
#[local] Abbreviation ext := (ext env).

(** The pointers of an element that is a data type; a union has none. *)
Inductive elem_ptrs (w : world) (eltype : jl_value_t) : list Z -> Prop :=
| ep_union : jl_is_uniontype eltype = true -> elem_ptrs w eltype []
| ep_data e t v : eltype = Datatype e -> dts w !! e = Some t -> inl B w e false v -> elem_ptrs w eltype (v_ptrs v).

(** The bytes [l] are the layout of a memory with elements of [eltype]: stored
    inline, at a multiple of their alignment, widened or with a lock before them
    when atomic; or as pointers. *)
Record memory_layout (w : world) (eltype : jl_value_t) (atomic : bool) (l : list Z) : Prop := {
  ml_nfields : l_nfields l = Some 0;
  ml_flags : exists f, l_flags l = Some f /\
    if Z.testbit f 3 then
      (boxed_field env B w eltype \/ (atomic = true /\ jl_is_datatype eltype = false)) /\
      l_size l = Some 8 /\ l_alignment l = Some 8 /\ l_npointers l = Some 1 /\ l_first_ptr l = Some (-1)
    else exists s a ptrs, inline_field env B w eltype s a /\ (atomic = true -> jl_is_datatype eltype = true) /\ elem_ptrs w eltype ptrs /\
      Z.testbit f 4 = jl_is_uniontype eltype /\
      l_size l = Some (elem_size atomic (round_up s a) a) /\ l_alignment l = Some (elem_align atomic (round_up s a) a) /\
      match ptrs with
      | [] => l_npointers l = Some 1 /\ l_first_ptr l = Some (-1)
      | p :: _ => l_npointers l = Some (Z.of_nat (length ptrs)) /\ l_first_ptr l = Some (p + elem_shift atomic (round_up s a)) /\
          (flag_fielddesc_type f = JL_FIELDDESC_8 \/ flag_fielddesc_type f = JL_FIELDDESC_16) /\
          elem_size atomic (round_up s a) a < 2 ^ 18 /\
          forall i q, ptrs !! i = Some q -> jl_ptr_offset l (Z.of_nat i) = Some (q + elem_shift atomic (round_up s a)) /\
            8 * (q + elem_shift atomic (round_up s a)) + 8 <= elem_size atomic (round_up s a) a
      end;
}.

(** A memory type whose layout is asked for. *)
Record memory_type (w : world) (d : nat) (st : jl_datatype_t) (kind eltype addrspace : jl_value_t) : Prop := {
  mt_name : tn_id (name st) = jl_genericmemory_typename;
  mt_parameters : parameters st = [kind; eltype; addrspace];
  mt_concrete : isconcretetype st = true;
  mt_layout : layout st = 0;
  mt_type : jl_is_type (normalize_typeofbottom_layout_alias env eltype) = true;
  mt_askable : askable env B (rank B d) w (normalize_typeofbottom_layout_alias env eltype);
  mt_leaves : nleaves (normalize_typeofbottom_layout_alias env eltype) < 2 ^ 32;
  mt_align : kind = Symbol (jl_atomic_sym env) -> max_over (align_bound B) (leaves env (normalize_typeofbottom_layout_alias env eltype)) <= 16;
}.

Lemma memory_layout_ok w w3 n d t a v : world_ok env B w n -> made env B w w3 n a v -> dts w !! d = Some t -> tn_id (name t) = jl_genericmemory_typename -> opaque v ->
  forall z, layout_ok B w3 d (set_zeroinit z (set_layout a t)) v.
Proof using.
  intros Hw Hm Ht Hmem Ho z. pose proof (so_memory _ _ _ _ _ (wo_sigs _ _ _ _ Hw d _ (sigs_lookup _ _ _ Ht)) Hmem) as Hmay. cbn [sig_of s_name] in Hmay.
  split; try done; [apply Hm|]. cbn [set_zeroinit set_layout name]. congruence.
Qed.

Definition if_any (ps : list Z) : option (list Z) := match ps with [] => None | _ => Some ps end.

(** The pointers of an inline data type. *)
Lemma data_pointers w e t v (Q : bool * option (list Z) -> world -> Prop) : dts w !! e = Some t -> inl B w e false v ->
  Q (zeroinit t, if_any (v_ptrs v)) w ->
  wp (let! e := dt_at e in
      let! l := layout_bytes (layout e) in
      let! fp := lift (l_first_ptr l) in
      if 0 <=? fp then
        let! np := lift (l_npointers l) in
        let! f := lift (l_flags l) in
        let! _ := assert_ (negb (flag_fielddesc_type f =? JL_FIELDDESC_FOREIGN)) in
        let! ps := ptr_offsets l (seq 0 (Z.to_nat np)) in
        ret (zeroinit e, Some ps)
      else ret (zeroinit e, None)) w Q.
Proof using.
  intros Ht Hi HQ. destruct (inl_good B _ _ _ _ Hi) as [Hg Henc]. pose proof (encode_decodes v Henc) as Hd. destruct Hi as (t' & Ht' & _ & Hl & Hv & _). rewrite Ht in Ht'. injection Ht' as <-.
  destruct (layout_in_decodes _ _ _ (lo_in _ _ _ _ _ Hv)) as [El _]. wp. eapply wp_lift; [apply Hd|]. cbv beta.
  pose proof (e_first _ Henc) as Hf. unfold first_ok in Hf. unfold if_any in HQ. destruct (v_ptrs v) as [|p ps] eqn:Ep.
  { rewrite Hf. change (0 <=? -1) with false. cbv iota. by wp. }
  destruct Hf as (-> & [Hp0 _] & Hnp). destruct (Z.leb_spec 0 p); [|lia]. wp. eapply wp_lift; [apply Hd|]. wp. eapply wp_lift; [apply Hd|]. apply wp_bind, wp_assert.
  { destruct (flags_spec (v_haspadding v) (v_isbitsegal v) (v_fd v) (v_arrayelem v) (v_unused v)) as (_ & _ & F & _); [apply Henc..|]. fold (v_flags v) in F. rewrite F.
    by destruct (e_fd _ Henc) as [->|[->| ->]]. }
  apply wp_bind. rewrite Hnp, Nat2Z.id. apply (ptr_offsets_spec (encode v) v w [] (p :: ps)); [done|by rewrite Ep|]. wp. done.
Qed.

Definition shifted (sh : Z) (ptrs : list Z) : option (list Z) := match ptrs with [] => None | _ => Some (map (fun p => p + sh) ptrs) end.

(** Elements with pointers have 8- or 16-bit descriptors, and are small. *)
Lemma elem_ptrs_spec w eltype ptrs s a : normalize_typeofbottom_layout_alias env eltype = eltype -> elem_ptrs w eltype ptrs -> inline_field env B w eltype s a ->
  StronglySorted Z.lt ptrs /\ Forall (fun p => 0 <= p /\ 8 * p + 8 <= s) ptrs /\ (ptrs <> [] -> s < 2 ^ 17 + a).
Proof using.
  intros Hnorm Hp Hi. destruct Hp as [Hu|e t v -> Ht Hv]; [split_and!; [constructor|constructor|done]|].
  destruct (inline_leaf env B w (Datatype e) s a eq_refl Hi) as (e' & t' & v' & En & Ht' & Hv' & -> & ->). rewrite Hnorm in En. injection En as <-. rewrite Ht in Ht'. injection Ht' as <-.
  destruct (inl_good B _ _ _ _ Hv) as [Hg Henc], (inl_good B _ _ _ _ Hv') as [Hg' _].
  assert (v_size v' = v_size v /\ v_align v' = v_align v) as [Es Ea].
  { destruct Hv as (t1 & T1 & _ & _ & V1 & _), Hv' as (t2 & T2 & _ & _ & V2 & _). rewrite Ht in T1, T2. injection T1 as <-. injection T2 as <-.
    by destruct (layout_in_unique _ _ _ _ (lo_in _ _ _ _ _ V2) (lo_in _ _ _ _ _ V1)) as (? & ? & _). }
  rewrite Es, Ea. pose proof (pow2_bound _ (g_align _ Hg)) as [? _]. pose proof (round_up_spec (v_size v) (v_align v) ltac:(lia)) as [? _].
  split; [apply Hg|]. split.
  - eapply Forall_impl; [apply Hg|]. cbv beta. intros p. destruct (isprimitivetype t); lia.
  - intros Hne. assert (v_size v < 2 ^ 17); [|destruct (isprimitivetype t); lia]. apply (g_narrow _ Hg Hne).
    destruct Hv as (t1 & _ & _ & _ & _ & [?|(_ & _ & [->| ->])]); done.
Qed.

Lemma elem_part_spec w eltype atomic s a (Q : Z * Z * bool * option (list Z) * bool -> world -> Prop) : normalize_typeofbottom_layout_alias env eltype = eltype ->
  inline_field env B w eltype s a -> (atomic = true -> jl_is_datatype eltype = true) -> 0 <= s < 2 ^ 31 -> pow2 a -> (atomic = true -> a <= 16) ->
  (forall zi ptrs, elem_ptrs w eltype ptrs ->
     Q (elem_size atomic (round_up s a) a, elem_align atomic (round_up s a) a, zi, shifted (elem_shift atomic (round_up s a)) ptrs, elem_locked atomic (round_up s a)) w) ->
  wp (elem_part eltype true (jl_is_uniontype eltype) atomic s a) w Q.
Proof using.
  intros Hnorm Hi Hat Hs Ha Ha16 HQ. pose proof (pow2_bound _ Ha) as [? ?]. change (2 ^ 31) with 2147483648 in *. change (2 ^ 16) with 65536 in *.
  pose proof (round_up_spec s a ltac:(lia)) as [Hru _]. unfold elem_part. cbv zeta. rewrite (LLT_ALIGN_eq s a) by (done || change (2 ^ 63) with 9223372036854775808; lia).
  set (e := round_up s a) in *. fold (elem_locked atomic e).
  assert ((if atomic && negb (elem_locked atomic e) && (0 <? e) then (next_power_of_two (u32 e), next_power_of_two (u32 e)) else (a, e)) =
    (if elem_locked atomic e then a else elem_align atomic e a, if elem_locked atomic e then e else elem_size atomic e a)) as ->.
  { rewrite uw_small by (unfold in_range; change (2 ^ 32) with 4294967296; lia). unfold elem_align, elem_size. destruct (elem_locked atomic e) eqn:El; cbn [negb]; [by rewrite andb_false_r|].
    rewrite andb_true_r. by destruct (atomic && (0 <? e)). }
  apply wp_bind.
  assert (forall Q' : bool * option (list Z) -> world -> Prop, (forall zi ptrs, elem_ptrs w eltype ptrs -> Q' (zi, if_any ptrs) w) ->
    wp (if jl_is_uniontype eltype then ret (true, None)
      else match eltype with
        | Datatype d =>
            let! e := dt_at d in
            let! l := layout_bytes (layout e) in
            let! fp := lift (l_first_ptr l) in
            if 0 <=? fp then
              let! np := lift (l_npointers l) in
              let! f := lift (l_flags l) in
              let! _ := assert_ (negb (flag_fielddesc_type f =? JL_FIELDDESC_FOREIGN)) in
              let! ps := ptr_offsets l (seq 0 (Z.to_nat np)) in
              ret (zeroinit e, Some ps)
            else ret (zeroinit e, None)
        | _ => lift None
        end) w Q') as Hptrs.
  { intros Q' HQ'. destruct (jl_is_uniontype eltype) eqn:Eu; [wp; apply (HQ' true []); by constructor|].
    destruct (inline_leaf env B w eltype s a Eu Hi) as (d & t & v & En & Ht & Hv & _). rewrite Hnorm in En. subst eltype.
    apply (data_pointers w d t v); [done|done|]. by apply (HQ' (zeroinit t) (v_ptrs v)), (ep_data w _ d t v). }
  apply Hptrs. intros zi ptrs Hp. specialize (fun zi => HQ zi ptrs Hp). destruct (elem_ptrs_spec w eltype ptrs s a Hnorm Hp Hi) as (_ & Hin & _).
  unfold elem_shift in HQ. destruct (elem_locked atomic e) eqn:El.
  - assert (atomic = true) as Eat by (unfold elem_locked in El; by destruct atomic). specialize (Ha16 Eat). apply wp_bind, wp_assert; [apply Z.leb_le; change JL_SMALL_BYTE_ALIGNMENT with 16; lia|].
    change (LLT_ALIGN sizeof_mutex JL_SMALL_BYTE_ALIGNMENT) with 16. change (16 / sizeof_ptr) with 2. change sizeof_ptr with 8.
    rewrite uw_small by (unfold in_range; change (2 ^ 64) with 18446744073709551616; lia).
    assert (fmap (M := option) (map (fun p => u32 (p + 2))) (if_any ptrs) = shifted 2 ptrs) as ->.
    { unfold shifted, if_any. destruct ptrs as [|p ps]; [done|]. cbn [fmap option_fmap option_map]. f_equal. apply map_ext_in. intros q Hq. apply uw_small.
      rewrite Forall_forall in Hin. specialize (Hin q ltac:(by apply list_elem_of_In)). cbv beta in Hin. unfold in_range. change (2 ^ 32) with 4294967296. lia. }
    assert ((if a <? 8 then (8, LLT_ALIGN (e + 16) 8) else (a, e + 16)) = (elem_align atomic e a, elem_size atomic e a)) as ->.
    { unfold elem_align, elem_size. rewrite El. rewrite LLT_ALIGN_eq by ((exists 3; split; [lia|done]) || change (2 ^ 63) with 9223372036854775808; lia).
      destruct (Z.ltb_spec a 8); f_equal; lia. }
    wp. apply HQ.
  - wp. assert ((if_any ptrs) = shifted 0 ptrs) as ->; [|apply HQ].
    unfold shifted, if_any. destruct ptrs as [|p ps]; [done|]. f_equal. rewrite <- (map_id (p :: ps)) at 1. apply map_ext. intros. lia.
Qed.

Lemma sorted_last_max l : StronglySorted Z.lt l -> last_max [] l.
Proof using. intros Hs. split; [done|]. intros p Hp. by apply sorted_last. Qed.
Lemma shifted_sorted sh ptrs : StronglySorted Z.lt ptrs -> StronglySorted Z.lt (map (fun p => p + sh) ptrs).
Proof using. intros H. apply sorted_map_lt; [lia|done]. Qed.

(** The end of the function: the layout and the instance. *)
Definition pointers_fine (ps : list Z) : Prop := ps = [2 ^ 32 - 1] \/ (ps <> [] /\ StronglySorted Z.lt ps /\ Forall (fun p => 0 <= p < 2 ^ 31) ps).
Lemma memory_tail w1 n1 d st sz al el zi ps (b : bool) (Q : unit -> world -> Prop) : world_ok env B w1 n1 -> dts w1 !! d = Some st -> tn_id (name st) = jl_genericmemory_typename ->
  layout st = 0 -> in_range 32 sz -> 0 < al < 2 ^ 16 -> in_range 4 el -> pointers_fine ps -> Z.of_nat (length ps) < 2 ^ 32 ->
  (forall w' t ft, fielddesc_type_for 0 (max_offset_of [] ps) = Some ft -> wok env B w' -> ext w1 w' -> dts w' !! d = Some t ->
     layout_in (lmem w') (layout t) (view_of sz (Z.of_nat (length ps)) al true false el 0 [] ps ft) -> Q tt w') ->
  wp (let! t := dt_at d in
      let! _ := assert_ (layout t =? 0) in
      let! a := jl_get_layout sz 0 (Z.of_nat (length ps)) al true false el 0 [] ps in
      let! _ := update d (set_layout a) in
      let! _ := update d (set_zeroinit zi) in
      if b then let! t := dt_at d in let! _ := assert_ (negb (instance t)) in update d set_instance else ret tt) w1 Q.
Proof using.
  intros Hw1 Hst Hnm Hl0 Hsz Hal Hel Hps Hlen HQ. pose proof (no_instance env B w1 n1 d st Hw1 Hst Hl0) as Hni. pose proof (no_bits env B w1 n1 d st Hw1 Hst Hl0) as Hnb.
  wp. rewrite Hl0. apply wp_assert; [done|]. apply wp_bind. pose proof (wo_room _ _ _ _ Hw1) as Hroom.
  assert (ps <> []) as Hne by (by destruct Hps as [->|[? _]]).
  eapply (jl_get_layout_wp env B w1 n1); [done|lia|done|done|done|split; [lia|done]|done|done|done|constructor| | | |].
  { destruct Hps as [->|(_ & _ & H)]; [by apply Forall_singleton|]. eapply Forall_impl; [exact H|]. unfold in_range. change (2 ^ 31) with 2147483648. change (2 ^ 32) with 4294967296. cbv beta. lia. }
  { destruct Hps as [->|(_ & H & _)]; [|by apply sorted_last_max]. split; [done|]. intros p [= <-]. by apply Forall_singleton. }
  { destruct Hps as [->|(_ & _ & H)]; [by left|right]. destruct ps as [|p ps']; [done|]. apply Forall_cons in H as [[_ ?] _]. done. }
  intros ft a w3 Eft Hmade. set (v := view_of _ _ _ _ _ _ _ _ _ ft) in *.
  assert (opaque v) as Ho by (split; [done|]; cbn; destruct ps; [done|cbn; lia]).
  set (t1 := set_zeroinit zi (set_layout a st)). assert (dts w3 !! d = Some st) as Hst3 by (by rewrite (md_dts _ _ _ _ _ _ _ Hmade)).
  destruct (lay env B w1 w3 n1 d st t1 v Hw1) as [Hw4 Hx4]; try done; try apply Hmade.
  { by apply (memory_layout_ok w1 w3 n1). }
  { right. exists (sig_of st). split; [by apply sigs_lookup|done]. }
  wp. eapply wp_update; [by apply (set_dts_lookup d st)|]. rewrite set_dts_twice. fold t1. set (w4 := set_dts (insert d t1) w3) in *.
  assert (dts w4 !! d = Some t1) as Ht4 by (by apply (set_dts_lookup d st)).
  destruct b; wp; [|apply (HQ w4 t1 ft); [done|by exists (n1 + 1)|done|done|apply Hmade]].
  apply wp_assert; [cbn; by rewrite Hni|]. eapply wp_update; [exact Ht4|].
  destruct (touch env B w4 (n1 + 1) d t1 (set_instance t1) Hw4 Ht4) as [Hw5 Hx5]; [done..|intros _; apply Hmade|cbn; by rewrite Hnb|].
  apply (HQ _ (set_instance t1) ft); [done|by exists (n1 + 1)|by etrans|by apply (set_dts_lookup d t1)|apply Hmade].
Qed.

Lemma inline_field_bounds w fld s a : inline_field env B w fld s a ->
  0 <= s /\ s <= max_over (size_bound B) (leaves env fld) /\ pow2 a /\ a <= max_over (align_bound B) (leaves env fld).
Proof using. intros (n & Hi & _). destruct (inline_ty_bounds env B _ _ _ _ _ _ Hi) as (_ & ? & [? ?] & _ & ?). done. Qed.
Lemma elem_ptrs_ext w w' eltype ptrs : ext w w' -> elem_ptrs w eltype ptrs -> elem_ptrs w' eltype ptrs.
Proof using.
  intros Hx [Hu|e t v -> Ht Hv]; [by constructor|]. destruct (ext_dt env _ _ _ _ Hx Ht) as (t' & Ht' & _). apply (ep_data w' _ e t'); [done|done|by apply (inl_ext env B w)].
Qed.

(** What the layouts that are made say. *)
Lemma boxed_memory w m a atomic eltype el ft : fielddesc_type_for 0 (max_offset_of [] [2 ^ 32 - 1]) = Some ft -> Z.testbit el 0 = true ->
  layout_in m a (view_of 8 1 8 true false el 0 [] [2 ^ 32 - 1] ft) -> boxed_field env B w eltype \/ (atomic = true /\ jl_is_datatype eltype = false) ->
  memory_layout w eltype atomic (encode (view_of 8 1 8 true false el 0 [] [2 ^ 32 - 1] ft)).
Proof using.
  intros _ Hel [_ Henc] Hb. set (v := view_of _ _ _ _ _ _ _ _ _ _) in *. pose proof (encode_decodes v Henc) as Hd. split; [apply Hd|]. exists (v_flags v). split; [apply Hd|].
  destruct (flags_spec (v_haspadding v) (v_isbitsegal v) (v_fd v) (v_arrayelem v) (v_unused v)) as (_ & _ & _ & _ & _ & F3 & _); [apply Henc..|]. fold (v_flags v) in F3.
  rewrite F3. change (v_arrayelem v) with el. rewrite Hel. split_and!; [done|apply Hd..].
Qed.
Lemma inline_memory w m addr atomic eltype el ft s a ptrs : normalize_typeofbottom_layout_alias env eltype = eltype -> inline_field env B w eltype s a -> 0 <= s -> pow2 a -> (atomic = true -> jl_is_datatype eltype = true) ->
  elem_ptrs w eltype ptrs -> let e := round_up s a in let ps := default [2 ^ 32 - 1] (shifted (elem_shift atomic e) ptrs) in
  fielddesc_type_for 0 (max_offset_of [] ps) = Some ft -> Z.testbit el 0 = false -> Z.testbit el 1 = jl_is_uniontype eltype ->
  let v := view_of (elem_size atomic e a) (Z.of_nat (length ps)) (elem_align atomic e a) true false el 0 [] ps ft in
  layout_in m addr v -> memory_layout w eltype atomic (encode v).
Proof using.
  intros Hnorm Hi Hs Ha Hat Hp e ps Hft Hel0 Hel1 v [_ Henc]. pose proof (encode_decodes v Henc) as Hd. split; [apply Hd|]. exists (v_flags v). split; [apply Hd|].
  destruct (flags_spec (v_haspadding v) (v_isbitsegal v) (v_fd v) (v_arrayelem v) (v_unused v)) as (_ & _ & F1 & _ & _ & F3 & F4); [apply Henc..|]. fold (v_flags v) in F1, F3, F4.
  rewrite F3. change (v_arrayelem v) with el in *. rewrite Hel0. exists s, a, ptrs. rewrite F4.
  split; [done|]. split; [done|]. split; [done|]. split; [done|]. split; [apply Hd|]. split; [apply Hd|].
  destruct (elem_ptrs_spec w eltype ptrs s a Hnorm Hp Hi) as (Hsort & Hin & Hsm). pose proof (pow2_bound _ Ha) as [? _]. pose proof (round_up_spec s a ltac:(lia)) as [Hru _].
  fold e in Hru |- *. destruct (elem_bounds atomic e a ltac:(lia) Ha) as [[Hsh Hsz] _]. set (sh := elem_shift atomic e) in *.
  destruct ptrs as [|p l] eqn:Ep; [split; [apply (d_npointers _ _ Hd)|apply (d_first _ _ Hd)]|]. rewrite <- Ep in *.
  assert (ptrs <> []) as Hne by (by rewrite Ep). specialize (Hsm Hne). pose proof (pow2_bound _ Ha) as [_ Ha2]. change (2 ^ 17) with 131072 in *.
  assert (a <= 2 ^ 15) as Ha3 by (destruct Ha as (j & Hj & ->); apply Z.pow_le_mono_r; lia). change (2 ^ 15) with 32768 in *.
  assert (e + 32 < 2 ^ 18) as Hlt by (change (2 ^ 18) with 262144; lia). change (2 ^ 18) with 262144 in *.
  assert (ps = map (fun p => p + sh) ptrs) as Eps by (unfold ps, shifted; by rewrite Ep).
  assert (Forall (fun q => 0 <= q /\ 8 * q + 8 <= elem_size atomic e a) ps) as Hps.
  { rewrite Eps. apply Forall_fmap. eapply Forall_impl; [exact Hin|]. cbv beta. intros q Hq. cbn. unfold sh, elem_shift in *. destruct (elem_locked atomic e); lia. }
  assert (v_ptrs v = ps) as Evp.
  { cbn [v view_of v_ptrs]. unfold table_of. destruct (decide (ps = [2 ^ 32 - 1])) as [E|]; [|done]. rewrite E in Hps. apply Forall_cons in Hps as [Hps _]. change (2 ^ 32) with 4294967296 in Hps. lia. }
  split; [rewrite (d_npointers _ _ Hd); cbn [v view_of v_npointers]; by rewrite Eps, length_map|].
  split. { rewrite (d_first _ _ Hd). f_equal. pose proof (e_first _ Henc) as Hf. unfold first_ok in Hf. rewrite Evp, Eps, Ep in Hf. cbn [map] in Hf. by destruct Hf as [-> _]. }
  split.
  { rewrite F1. change (v_fd v) with ft. revert Hft. unfold max_offset_of. cbn [last].
    destruct (last ps) as [q|] eqn:El; [|apply last_None in El; by rewrite Eps, Ep in El].
    apply last_Some_elem_of in El. rewrite Forall_forall in Hps. specialize (Hps q El). cbv beta in Hps.
    assert (in_range 16 (if 0 <? q then q else 0)) as Hr by (unfold in_range; change (2 ^ 16) with 65536; destruct (0 <? q); lia).
    unfold fielddesc_type_for. set (q' := if 0 <? q then q else 0) in *. rewrite (uw_small 16 _ Hr), (Z.eqb_refl q'). change (uw 7 0 =? 0) with true. change (uw 15 0 =? 0) with true. cbn [andb].
    destruct (u8 _ =? _); intros E; injection E as E; rewrite <- E; [by left|by right]. }
  split; [lia|]. intros i q Hq. assert (ps !! i = Some (q + sh)) as Hpi by (rewrite Eps; by apply map_lookup_Some_2 || (rewrite list_lookup_fmap, Hq; done)).
  split; [apply (d_ptr _ _ Hd); by rewrite Evp|]. rewrite Forall_forall in Hps. apply (Hps (q + sh)). by eapply list_elem_of_lookup_2.
Qed.

Lemma elem_flags boxed union atomic locked : let el := b2z boxed + 2 * b2z union + (if atomic : bool then 4 + 8 * b2z locked else 0) in
  in_range 4 el /\ Z.testbit el 0 = boxed /\ Z.testbit el 1 = union.
Proof using. by destruct boxed, union, atomic, locked. Qed.

(** ** The theorem of the function *)

Lemma genericmemory_spec try w n d st kind eltype addrspace (Q : unit -> world -> Prop) : world_ok env B w n -> dts w !! d = Some st -> memory_type w d st kind eltype addrspace ->
  (forall w0, try_ok env B (frozen B (rank B d) w0) try (rank B d)) ->
  (forall w' t l, wok env B w' -> ext w w' -> dts w' !! d = Some t -> lmem w' !! layout t = Some l ->
     memory_layout w' (normalize_typeofbottom_layout_alias env eltype) (bool_decide (kind = Symbol (jl_atomic_sym env))) l -> Q tt w') ->
  wp (jl_get_genericmemory_layout env try d) w Q.
Proof using.
  intros Hw Hst [Hnm Hpar Hcon Hl0 Hty Hask Hlv Hal] Htry HQ. pose proof (no_instance env B w n d st Hw Hst Hl0) as Hni. pose proof (no_bits env B w n d st Hw Hst Hl0) as Hnb.
  unfold jl_get_genericmemory_layout. wp. rewrite Hpar. eapply wp_lift; [done|]. wp. eapply wp_lift; [done|]. wp. eapply wp_lift; [done|].
  set (elt := normalize_typeofbottom_layout_alias env eltype) in *. set (atomic := bool_decide (kind = Symbol (jl_atomic_sym env))) in *.
  assert (normalize_typeofbottom_layout_alias env elt = elt) as Hnorm by (unfold elt; by destruct eltype as [| | |[]| | | | | | |]).
  rewrite Hcon, Hty. cbn [negb]. apply wp_bind. set (I := frozen B (rank B d) w).
  eapply wp_mono; [apply (islayout_inline_spec env B I try (rank B d) (Htry w)); [by split; [exists n|]|done|done]|].
  intros [[c elsz] al] w1 ([[n1 Hw1] HI1] & Hx1 & Hc). assert (dts w1 !! d = Some st) as Hst1 by (by rewrite (HI1 d)).
  pose proof (wo_room _ _ _ _ Hw1) as _.
  destruct (negb (c =? 0) && (negb atomic || jl_is_datatype elt)) eqn:Ec; cbn [andb negb].
  - apply andb_true_iff in Ec as [Hn%negb_true_iff%Z.eqb_neq Hat]. destruct Hc as [(c' & s & a & _ & Hi & [= -> -> ->])|[H0 _]]; [|by destruct Hn].
    assert (atomic = true -> jl_is_datatype elt = true) as Hat' by (intros E; by rewrite E in Hat). destruct (inline_field_bounds w1 elt s a Hi) as (Hs0 & Hs1 & Ha & Ha1).
    destruct Hask as [_ Hmax]. apply wp_bind. apply elem_part_spec; [done|done|done|lia|done|intros E; apply bool_decide_eq_true in E; specialize (Hal E); lia|].
    intros zi ptrs Hp. cbv beta iota. set (e := round_up s a). set (el := b2z false + 2 * b2z (jl_is_uniontype elt) + _).
    set (ps := default [2 ^ 32 - 1] (shifted (elem_shift atomic e) ptrs)).
    assert (match shifted (elem_shift atomic e) ptrs with Some ps => ps | None => [u32 (-1)] end = ps) as -> by (unfold ps; by destruct (shifted _ _)).
    destruct (elem_ptrs_spec w1 elt ptrs s a Hnorm Hp Hi) as (Hsort & Hin & _). pose proof (pow2_bound _ Ha) as [? ?]. pose proof (round_up_spec s a ltac:(lia)) as [Hru _]. fold e in Hru.
    destruct (elem_bounds atomic e a ltac:(lia) Ha) as [[Hsz1 Hsz2] Hea]. change (2 ^ 31) with 2147483648 in *. change (2 ^ 16) with 65536 in *.
    destruct (elem_flags false (jl_is_uniontype elt) atomic (elem_locked atomic e)) as (Hel1 & Hel2 & Hel3). fold el in Hel1, Hel2, Hel3.
    assert (0 <= elem_shift atomic e <= 2) as Hshift by (unfold elem_shift; destruct (elem_locked atomic e); lia).
    apply (memory_tail w1 n1 d st _ _ _ zi ps _ Q Hw1 Hst1 Hnm Hl0); [unfold in_range; change (2 ^ 32) with 4294967296; lia|done|done| | |].
    + unfold ps, shifted. destruct ptrs as [|p l] eqn:Ep; [by left|right]. rewrite <- Ep in *. cbn [default from_option id]. split; [by rewrite Ep|]. split; [by apply shifted_sorted|].
      apply Forall_fmap. eapply Forall_impl; [exact Hin|]. cbv beta. intros q Hq.
      cbn -[elem_shift Z.pow]. change (2 ^ 31) with 2147483648. lia.
    + pose proof (sorted_count _ _ Hsort Hin Hs0). unfold ps, shifted. change (2 ^ 32) with 4294967296. destruct ptrs; [done|]. cbn [default from_option id]. rewrite length_map. lia.
    + intros w' t ft Hft Hok' Hx' Ht' Hin'. apply (HQ w' t (encode (view_of (elem_size atomic e a) (Z.of_nat (length ps)) (elem_align atomic e a) true false el 0 [] ps ft)));
        [done|by etrans|done|apply Hin'|]. eapply (inline_memory w' _ _ atomic elt el ft s a ptrs); try done; [|by apply (elem_ptrs_ext w1)].
      destruct Hi as (c & Hi & Hc). exists c. split; [by apply (inline_ty_ext env B w1)|done].
  - cbn [elem_part]. apply wp_bind, wp_ret. cbv beta iota. change sizeof_ptr with 8. set (el := b2z true + 2 * b2z false + _). change [u32 (-1)] with [2 ^ 32 - 1].
    destruct (elem_flags true false atomic false) as (Hel1 & Hel2 & _). fold el in Hel1, Hel2.
    apply (memory_tail w1 n1 d st 8 8 el true [2 ^ 32 - 1] _ Q Hw1 Hst1 Hnm Hl0); [done|done|done|by left|done|].
    intros w' t ft Hft Hok' Hx' Ht' Hin'. apply (HQ w' t (encode (view_of 8 1 8 true false el 0 [] [2 ^ 32 - 1] ft))); [done|by etrans|done|apply Hin'|].
    apply (boxed_memory w' _ _ atomic elt el ft Hft Hel2 Hin'). destruct Hc as [(c' & s & a & Hc' & Hi & [= -> -> ->])|[_ Hb]]; [right|left].
    + apply andb_false_iff in Ec as [Ec%negb_false_iff%Z.eqb_eq|Ec]; [done|]. apply orb_false_iff in Ec as [Ea%negb_false_iff Ed]. done.
    + intros w2 s2 a2 Hx2. apply Hb. by etrans.
Qed.
End Memory.
