(* ===== verification/LayoutTheorems.v ===== *)
(** * Layouts: the theorems *)
From stdpp Require Import gmap.
From Stdlib Require Import Sorting.Sorted.
From S2P Require GcScan GcChildren.
From S2P Require Import Prelude Probe Htable HtableFacts Layout LayoutFacts Datatype LayoutWorld LayoutFields LayoutStruct LayoutMain LayoutCorrect LayoutMemory.
#[local] Open Scope layout_scope.

(** ** A program: pointers, singletons, and a struct with both *)

Definition example_name (id : typename_id) (n : nat) (may : bool) : jl_typename_t :=
  {| tn_id := id; wrapper := Some n; mutabl := false; mayinlinealloc := may; n_uninitialized := 0; atomicfields := None; constfields := None |}.
Definition example_record (id : typename_id) (params : list jl_value_t) (n : nat) (may concrete : bool) (flds : list jl_value_t) : jl_datatype_t :=
  {| name := example_name id n may; parameters := params; types := Some flds; layout := 0; instance := false; isconcretetype := concrete; isprimitivetype := false;
     isbitstype := false; zeroinit := false; has_concrete_subtype := true; ismutationfree := may; isidentityfree := may |}.
Definition example_type (n : nat) (may : bool) (flds : list jl_value_t) : jl_datatype_t := example_record (Other_typename n) [] n may may flds.
Definition example_env : type_env :=
  {| jl_any_type := 0; jl_symbol_type := 1; jl_bool_type := 6; jl_string_type := 2; jl_simplevector_type := 3; jl_module_type := 4; jl_typeofbottom_type := 5;
     jl_kinds := []; jl_atomic_sym := 0; jl_not_atomic_sym := 1; fixed_layout_abstract := fun _ => false; jl_has_free_typevars := fun _ => false |}.
(** [struct P x end], [struct E end], [struct F end] and
    [struct S p::P; u::Union{E,F}; y; q::P end], and a memory of [S]. *)
Definition example_types : list jl_datatype_t :=
  map (fun n => example_type n false []) (seq 0 7) ++
  [example_type 7 true [Datatype 0]; example_type 8 true []; example_type 9 true [];
   example_type 10 true [Datatype 7; Uniontype (Datatype 8) (Datatype 9); Datatype 0; Datatype 7];
   example_record jl_genericmemory_typename [Symbol 1; Datatype 10; Addrspace 0] 11 false true []].
Definition example_world : world :=
  {| dts := example_types; lmem := static_layouts; lnext := 144; layoutcache := htable_new 4096; layoutcache_initialized := false |}.
Definition example_bounds : bounds :=
  {| rank := fun d => if (d =? 11)%nat then 3%nat else if (d =? 10)%nat then 2%nat else if (d =? 7)%nat then 1%nat else 0%nat;
     size_bound := fun d => if (d =? 10)%nat then 4096 else if (d =? 7)%nat then 1024 else 512; align_bound := fun _ => 16 |}.

Lemma example_sig id params n may concrete flds : sigs example_world !! n = Some (sig_of (example_record id params n may concrete flds)) ->
  id <> jl_tuple_typename -> (id = jl_genericmemory_typename -> may = false) -> (may = true -> (6 < n)%nat) -> 512 <= size_bound example_bounds n <= 4096 ->
  fields_cost example_env example_bounds flds + 48 <= size_bound example_bounds n ->
  Forall (fun fld => nleaves fld < 2 ^ 32 /\ Forall (fun e => (e < 12)%nat) (datatypes fld ++ leaves example_env fld) /\
    Forall (fun e => (rank example_bounds e < rank example_bounds n)%nat) (leaves example_env fld)) flds ->
  sig_ok example_env example_bounds (sigs example_world) n (sig_of (example_record id params n may concrete flds)).
Proof.
  intros Hn Htup Hmem Hmay Hsz Hcost Hf. rewrite Forall_forall in Hf. change (2 ^ 31) with 2147483648 in *.
  assert (length (sigs example_world) = 12%nat) as El by done.
  split; cbn [sig_of example_record example_name name types s_name s_types wrapper tn_id mayinlinealloc n_uninitialized atomicfields constfields]; try done.
  - intros wd [= <-]. exists (sig_of (example_record id params n may concrete flds)). split_and!; try done; lia.
  - intros Hin. destruct may; [|done]. specialize (Hmay eq_refl). cbn in Hin. exfalso. rewrite !elem_of_cons in Hin. destruct Hin as [?|[?|[?|[?|H]]]]; [lia..|by apply elem_of_nil in H].
  - intros fs fld [= <-] Hin. rewrite El. by apply Hf.
  - intros fs fld [= <-] Hin. by apply Hf.
  - intros fs [= <-]. lia.
  - intros fs fld e [= <-] Hin He _. destruct (Hf fld Hin) as (_ & _ & H). rewrite Forall_forall in H. by apply H.
  - change (2 ^ 31) with 2147483648. lia.
  - intros fs [= <-]. split; [cbn [align_bound example_bounds]; lia|]. apply Forall_forall. intros fld _. apply Forall_forall. done.
  - by intros [H _].
  - rewrite El. cbn. lia.
Qed.

Lemma example_ok : world_ok example_env example_bounds example_world 0.
Proof.
  split.
  - split; [done|done| |done|done].
    assert (forall np al be, in_range 32 np -> in_range 16 al -> static_layout np al be = encode (static_view np al be) /\ encodable (static_view np al be)) as Hsv.
    { intros np al be Hnp Hal. split; [done|]. split; cbn; try done. by left. }
    intros a l. cbn [lmem example_world]. unfold static_layouts. rewrite !lookup_insert_Some. unfold opaque_byte_layout, opaque_ptr_layout, singleton_layout, memory_opaque_ptr_layout.
    intros Hl. assert (exists np al be, l = static_layout np al be /\ in_range 32 np /\ in_range 16 al /\ (a = 16 \/ a = 48 \/ a = 80 \/ a = 112)) as (np & al & be & -> & Hnp & Hal & Ha).
    { destruct Hl as [[<- <-]|[_ [[<- <-]|[_ [[<- <-]|[_ [[<- <-]|[_ Hl]]]]]]]]; [| | | |by rewrite lookup_empty in Hl]; do 3 eexists; (split; [reflexivity|]); unfold in_range; change (2 ^ 32) with 4294967296; change (2 ^ 16) with 65536; lia. }
    destruct (Hsv np al be Hnp Hal) as [Ev Hv]. split; [cbn [lnext example_world]; lia|]. exists (static_view np al be). split; [|done]. rewrite <- Ev.
    cbn [lmem]. unfold static_layouts. rewrite !lookup_insert_Some. exact Hl.
  - done.
  - intros d s Hs. destruct d as [|[|[|[|[|[|[|[|[|[|[|[|d]]]]]]]]]]]]; try done; injection Hs as <-.
    all: apply example_sig; [done|done|done|cbn; lia|done|vm_compute; done|repeat constructor; cbn; lia].
  - intros d t Ht Hl. by destruct d as [|[|[|[|[|[|[|[|[|[|[|[|d]]]]]]]]]]]]; try done; injection Ht as <-.
  - intros d t Ht Hl. by destruct d as [|[|[|[|[|[|[|[|[|[|[|[|d]]]]]]]]]]]]; try done; injection Ht as <-.
  - intros d t Ht Hl. by destruct d as [|[|[|[|[|[|[|[|[|[|[|[|d]]]]]]]]]]]]; try done; injection Ht as <-.
Qed.

(** The layout of [S], computed. *)
Example example_layout : exists w l, jl_compute_field_offsets example_env (jl_struct_try_layout example_env 3) 10 example_world = Some (Ok tt w) /\
  (t ← dts w !! 10%nat; lmem w !! layout t) = Some l /\
  l_size l = Some 32 /\ l_alignment l = Some 8 /\ map (jl_field_offset l) [0; 1; 2; 3] = map Some [0; 8; 16; 24] /\ map (jl_field_size l) [0; 1; 2; 3] = map Some [8; 1; 8; 8] /\
  map (jl_ptr_offset l) [0; 1; 2; 3] = [Some 0; Some 2; Some 3; None].
Proof. eexists _, _. split; [vm_compute; reflexivity|]. split; [vm_compute; reflexivity|]. vm_compute. done. Qed.

(** ** Theorems *)

(** The layout that [t], which was [st], has in [w']: that of its wrapper [wt],
    if that has one; an opaque one, if the type is one of the blobs of the
    collector; and otherwise the layout of its fields, at the one address of its
    contents. *)
Definition layout_given (env : type_env) (B : bounds) (w' : world) (d : nat) (st wt t : jl_datatype_t) : Prop :=
  exists l, lmem w' !! layout t = Some l /\
    if decide (layout wt = 0) then
      if decide (types st = Some [] /\ d ∈ builtins env) then jl_is_layout_opaque l = Some true
      else exists flds size align ptrs, types st = Some flds /\ struct_layout env B w' st flds (zeroinit t) l size align ptrs /\ (flds <> [] -> interned w' (layout t))
    else layout t = layout wt /\ zeroinit t = zeroinit wt.

Lemma laid_out_given env B (w w' : world) d st wt t v : wok env B w' -> layout_ok B w' d t v -> laid_out env B d st w' wt t v -> layout_given env B w' d st wt t.
Proof.
  intros Hok Hv Hlo. destruct (layout_in_decodes _ _ _ (lo_in _ _ _ _ _ Hv)) as [El Hd]. exists (encode v). split; [done|]. unfold laid_out in Hlo.
  destruct (decide (layout wt = 0)); [|done]. destruct (decide _) as [|_].
  { destruct (is_layout_opaque_spec _ _ Hd) as (b & -> & Hb). f_equal. by apply Hb. }
  destruct Hlo as (flds & fs & Hty & Hinf & Hfs & Hsv & Hint). exists flds, (v_size v), (v_align v), (v_ptrs v). split; [done|]. split; [|done].
  apply (struct_layout_of env B w' st flds fs); [done|done|done|done|apply Hv|].
  intros [Hd0 Hnp]. rewrite (sv_npointers _ _ _ Hsv) in Hnp. rewrite (sv_desc _ _ _ Hsv) in Hd0. apply (f_equal length) in Hd0. rewrite descs_length in Hd0. by destruct fs.
Qed.

(** C4: The layout of a type can be computed, and is right. In a [world_ok]
    world (sizes below 2^31, alignments below 2^16, no tuples of [VecElement]),
    [jl_compute_field_offsets] of a type without a layout ends without an error
    or a failed assertion, recursive calls included. A wrapper with free type
    variables keeps none. A type with a fixed layout gets its wrapper's, if the
    wrapper has one; [Symbol], [String], [SimpleVector] and [Module] get opaque
    ones; every other one gets a layout whose bytes say, through julia.h's
    accessors: fields lie in order, apart, aligned and inside; the size is a
    multiple of the alignment; a field is inline or a pointer as its type
    demands; the pointer table is sorted and lists the pointers of the fields and
    nothing else; instances are zeroed if there are pointers; without
    [haspadding] every byte belongs to a field without padding. No layout that a
    type had changes, and the layout is the one address of its contents. *)
Theorem compute_field_offsets_layout env B w n d st wd wt fuel : world_ok env B w n -> dts w !! d = Some st -> layout st = 0 ->
  fixed env (sigs w) d \/ free_wrapper env d st -> (rank B d <= fuel)%nat -> wrapper (name st) = Some wd -> dts w !! wd = Some wt ->
  exists w' t, jl_compute_field_offsets env (jl_struct_try_layout env fuel) d w = Some (Ok tt w') /\ wok env B w' /\ ext env w w' /\ dts w' !! d = Some t /\
    (fixed env (sigs w) d -> layout t <> 0 /\ layout_given env B w' d st wt t) /\ (free_wrapper env d st -> layout t = 0).
Proof.
  intros Hw Hst Hl Hcase Hf Hwd Hwt. assert (fixed env (sigs w) d -> ~ free_wrapper env d st) as Hnot.
  { intros (s & Hs & _ & Hfx) (_ & _ & Hnc & Hfa & _). rewrite (sigs_lookup _ _ _ Hst) in Hs. injection Hs as <-. cbn in Hfx. destruct Hfx as [[? _]|?]; congruence. }
  destruct Hcase as [Hfx|Hfree].
  - destruct (compute_ok env B fuel w n d st Hw Hst Hl Hfx Hf) as (w' & E & Hc). destruct (cp_layout _ _ _ _ _ _ Hc wd wt Hwd Hwt) as (t & v & Ht & Hlt & Hv & Hlo).
    exists w', t. split_and!; [done|apply Hc|apply Hc|done| |]; [|by intros ?%Hnot]. intros _. split; [done|]. apply (laid_out_given env B w w' d st wt t v); [apply Hc|done|done].
  - destruct (free_wrapper_spec env B (jl_struct_try_layout env fuel) w n d st Hw Hst Hl Hfree) as (w' & t & E & Hok & Hx & Ht & Hlt).
    exists w', t. split_and!; [done..| |done]. by intros ?%Hnot.
Qed.
Lemma compute_field_offsets_layout_witness :
  exists w' t, jl_compute_field_offsets example_env (jl_struct_try_layout example_env 2) 10 example_world = Some (Ok tt w') /\ wok example_env example_bounds w' /\
    ext example_env example_world w' /\ dts w' !! 10%nat = Some t /\
    (fixed example_env (sigs example_world) 10 -> layout t <> 0 /\ layout_given example_env example_bounds w' 10
      (example_type 10 true [Datatype 7; Uniontype (Datatype 8) (Datatype 9); Datatype 0; Datatype 7])
      (example_type 10 true [Datatype 7; Uniontype (Datatype 8) (Datatype 9); Datatype 0; Datatype 7]) t) /\
    (free_wrapper example_env 10 (example_type 10 true [Datatype 7; Uniontype (Datatype 8) (Datatype 9); Datatype 0; Datatype 7]) -> layout t = 0).
Proof.
  apply (compute_field_offsets_layout example_env example_bounds example_world 0 10 _ 10); [apply example_ok|done|done| |done|done|done].
  left. eexists. split; [done|]. split; [done|]. left. split; [done|by eexists].
Defined.

(** A wrapper [struct S{T} x::T; y end]: its run leaves it without a layout. *)
Example example_free : let env := {| jl_any_type := 0; jl_symbol_type := 1; jl_bool_type := 6; jl_string_type := 2; jl_simplevector_type := 3; jl_module_type := 4;
    jl_typeofbottom_type := 5; jl_kinds := []; jl_atomic_sym := 0; jl_not_atomic_sym := 1; fixed_layout_abstract := fun _ => false; jl_has_free_typevars := fun d => (d =? 10)%nat |} in
  let st := example_record (Other_typename 10) [Typevar 0] 10 true false [Typevar 0; Datatype 0] in free_wrapper env 10 st /\
  (r ← jl_compute_field_offsets env (jl_struct_try_layout env 3) 10 (set_dts (insert 10%nat st) example_world);
   match r with Ok _ w' => dts w' !! 10%nat | _ => None end) = Some (set_has_concrete_subtype true st).
Proof. split; [|vm_compute; reflexivity]. repeat split; try done. by eexists. Qed.

(** C20: [jl_struct_try_layout] ends on every type, however its fields nest: with
    fuel above the rank of the type it returns, the invariant of the world holds
    again and no layout has changed; if it says yes the type has a layout (a
    memory's is computed elsewhere), and if it says no it has none, and its
    fields do not determine one. *)
Theorem struct_try_layout_total env B w n d fuel : world_ok env B w n -> (d < length (dts w))%nat -> (rank B d < fuel)%nat ->
  exists b w', jl_struct_try_layout env fuel d w = Some (Ok b w') /\ wok env B w' /\ ext env w w' /\
    (if b then laid w' d \/ exists t, dts w' !! d = Some t /\ tn_id (name t) = jl_genericmemory_typename
     else (forall t, dts w' !! d = Some t -> layout t = 0) /\ ~ fixed env (sigs w') d).
Proof.
  intros Hw Hd Hf. destruct (try_layout_ok env B fuel fuel anything ltac:(done) ltac:(done) d w) as (b & w' & E & [Hok _] & Hx & Hb); [by split; [exists n|]|done|done|].
  exists b, w'. split_and!; done.
Qed.
Lemma struct_try_layout_total_witness : exists b w', jl_struct_try_layout example_env 3 10 example_world = Some (Ok b w') /\ wok example_env example_bounds w' /\ ext example_env example_world w' /\
    (if b then laid w' 10 \/ exists t, dts w' !! 10%nat = Some t /\ tn_id (name t) = jl_genericmemory_typename
     else (forall t, dts w' !! 10%nat = Some t -> layout t = 0) /\ ~ fixed example_env (sigs w') 10).
Proof. apply (struct_try_layout_total example_env example_bounds example_world 0); [apply example_ok|cbn; lia|cbn; lia]. Defined.

(** Layouts in the cache with the same contents have the same address. *)
Lemma interned_unique w n a b v u : cache_ok w n -> interned w a -> interned w b -> layout_in (lmem w) a v -> layout_in (lmem w) b u -> encode v = encode u -> a = b.
Proof.
  intros Hc [Hi Ha] [_ Hb] Hav Hbu E. destruct (c_table _ _ Hc Hi) as (ps & Hwf & _). unfold layoutcache_get_r in *.
  rewrite (ht_get_spec _ ps a Hwf) in Ha. rewrite (ht_get_spec _ ps b Hwf) in Hb. injection Ha as Ha. injection Hb as Hb. rewrite <- Ha, <- Hb.
  apply (assoc_congr (HFUNC := _hash_layout_djb2 (lmem w))); [by apply wf_distinct, Hwf|]. by apply (layout_eq_bytes _ _ _ v u).
Qed.

(** The arguments of [jl_get_layout]. *)
Record layout_args := {
  a_size : Z; a_npointers : Z; a_align : Z; a_haspadding : bool; a_isbitsegal : bool; a_elem : Z; a_unused : Z;
  a_desc : list jl_fielddesc32_t; a_pointers : list Z;
}.
Definition get_layout (x : layout_args) : M Z :=
  jl_get_layout (a_size x) (Z.of_nat (length (a_desc x))) (a_npointers x) (a_align x) (a_haspadding x) (a_isbitsegal x) (a_elem x) (a_unused x) (a_desc x) (a_pointers x).
(** They fit their types, offsets ascend, and [pointers] is the table of
    [npointers] offsets, or the mark -1 of a layout without one. *)
Record args_ok (x : layout_args) : Prop := {
  ao_size : in_range 32 (a_size x);
  ao_nfields : in_range 32 (Z.of_nat (length (a_desc x)));
  ao_npointers : in_range 32 (a_npointers x);
  ao_align : 0 < a_align x < 2 ^ 16;
  ao_elem : in_range 4 (a_elem x);
  ao_unused : in_range 3 (a_unused x);
  ao_desc : Forall (fun d => in_range 31 (fsize d) /\ in_range 32 (offset d)) (a_desc x);
  ao_pointers : Forall (in_range 32) (a_pointers x);
  ao_last : last_max (a_desc x) (a_pointers x);
  ao_table : pointers_ok (a_npointers x) (a_pointers x);
  ao_count : Z.of_nat (length (a_pointers x)) = a_npointers x;
}.
(** The accessors give the arguments back. *)
Record reads_back (x : layout_args) (l : list Z) : Prop := {
  rb_size : l_size l = Some (a_size x);
  rb_nfields : l_nfields l = Some (Z.of_nat (length (a_desc x)));
  rb_npointers : l_npointers l = Some (a_npointers x);
  rb_align : l_alignment l = Some (a_align x);
  rb_first : l_first_ptr l = Some (match a_pointers x with [] => -1 | p :: _ => sw 32 p end);
  rb_flags : exists f, l_flags l = Some f /\ flag_haspadding f = a_haspadding x /\ flag_isbitsegal f = a_isbitsegal x /\ flag_unused_bits f = a_unused x /\
    Z.testbit f 3 = Z.testbit (a_elem x) 0 /\ Z.testbit f 4 = Z.testbit (a_elem x) 1;
  rb_offset i d : a_desc x !! i = Some d -> jl_field_offset l (Z.of_nat i) = Some (offset d);
  rb_fsize i d : a_desc x !! i = Some d -> jl_field_size l (Z.of_nat i) = Some (fsize d);
  rb_isptr i d : a_desc x !! i = Some d -> jl_field_isptr l (Z.of_nat i) = Some (isptr d);
  rb_pointer i p : a_pointers x <> [2 ^ 32 - 1] -> a_pointers x !! i = Some p -> jl_ptr_offset l (Z.of_nat i) = Some p;
}.

Lemma get_layout_spec w n x : cache_ok w n -> n + 1 < 2 ^ 31 -> args_ok x ->
  exists a w' v, get_layout x w = Some (Ok a w') /\ layout_in (lmem w') a v /\ reads_back x (encode v) /\ interned w' a /\ lmem_ext w w' /\ cache_ok w' (n + 1) /\
    exists t, fielddesc_type_for (max_size_of (a_desc x)) (max_offset_of (a_desc x) (a_pointers x)) = Some t /\
    v = view_of (a_size x) (a_npointers x) (a_align x) (a_haspadding x) (a_isbitsegal x) (a_elem x) (a_unused x) (a_desc x) (a_pointers x) t.
Proof.
  intros Hc Hn [H1 H2 H3 H4 H5 H6 H7 H8 H9 H10 _].
  destruct (jl_get_layout_spec w n (a_size x) _ (a_npointers x) (a_align x) (a_haspadding x) (a_isbitsegal x) (a_elem x) (a_unused x) (a_desc x) (a_pointers x) Hc Hn H1 eq_refl H2 H3 H4 H5 H6 H7 H8 H9 H10)
    as (t & a & w' & Et & E & Hin & _ & Hint & _ & Hm & Hc').
  set (v := view_of _ _ _ _ _ _ _ _ _ t) in *. exists a, w', v. split; [done|]. split; [done|]. split; [|split_and!; [done..|by exists t]].
  destruct Hin as [_ Hv]. pose proof (encode_decodes v Hv) as Hd. split; try apply Hd.
  - rewrite (d_first _ _ Hd). f_equal. cbn [v view_of v_first]. unfold table_of. destruct (decide _) as [->|Hne]; [done|].
    destruct (a_pointers x) as [|p ps] eqn:Ep; [done|]. destruct H10 as [?|[Hp _]]; [done|]. apply Forall_cons in H8 as [[Hp0 _] _]. symmetry. apply sw_small; [lia|].
    change (2 ^ (32 - 1)) with (2 ^ 31). change (2 ^ 31) with 2147483648 in *. lia.
  - exists (v_flags v). split; [apply Hd|]. destruct (flags_spec (v_haspadding v) (v_isbitsegal v) (v_fd v) (v_arrayelem v) (v_unused v)) as (_ & F1 & _ & F2 & F3 & F4 & F5); [apply Hv..|].
    by split_and!.
  - intros i p Hne Hp. apply (d_ptr _ _ Hd). cbn [v view_of v_ptrs]. unfold table_of. by destruct (decide _).
Qed.

(** The layout [l] has descriptors of a width that holds the sizes and offsets
    of the fields and the pointers (a mark counts as 2^32 - 1), and no narrower
    ones do. *)
Definition narrowest (x : layout_args) (l : list Z) : Prop :=
  exists f, l_flags l = Some f /\ holds_all (a_desc x) (a_pointers x) (flag_fielddesc_type f) /\
    forall t, holds_all (a_desc x) (a_pointers x) t -> flag_fielddesc_type f <= t.


Definition example_args : layout_args :=
  {| a_size := 32; a_npointers := 3; a_align := 8; a_haspadding := true; a_isbitsegal := false; a_elem := 0; a_unused := 0;
     a_desc := [{| isptr := false; fsize := 8; offset := 0 |}; {| isptr := false; fsize := 1; offset := 8 |};
                {| isptr := true; fsize := 8; offset := 16 |}; {| isptr := false; fsize := 8; offset := 24 |}];
     a_pointers := [0; 2; 3] |}.

(** ** Memories, and what the collector relies on *)

(** The collector's memory has the bytes [l] at [a]. *)
Definition holds (im : GcScan.image) (a : Z) (l : list Z) : Prop := forall i x, l !! i = Some x -> u8 (GcScan.mem im (a + Z.of_nat i)) = x.

Lemma holds_rd im a l off n x : holds im a l -> rd l off n = Some x -> GcScan.ld im n (a + off) = x.
Proof.
  intros Hh. unfold rd. destruct (_ && _) eqn:E; [|done]. apply andb_true_iff in E as [H1%Z.leb_le H2%Z.leb_le]. intros [= <-]. unfold GcScan.ld. f_equal.
  apply list_eq. intros i. rewrite list_lookup_fmap. destruct (decide (i < n)%nat) as [Hi|Hi].
  - rewrite lookup_seq_lt by done. cbn [fmap option_fmap option_map]. rewrite lookup_take_lt, lookup_drop by done.
    destruct (lookup_lt_is_Some_2 l (Z.to_nat off + i)) as [y Hy]; [lia|]. rewrite Hy. f_equal. rewrite <- (Hh _ _ Hy). f_equal. f_equal. lia.
  - rewrite (proj2 (lookup_ge_None _ _)) by (rewrite length_seq; lia). rewrite lookup_take_ge by lia. done.
Qed.

(** C9: Memories get layouts that the collector can scan. The layout that
    [jl_get_genericmemory_layout] gives a memory type stores elements inline or
    as pointers as their type demands, at the size and alignment that atomics and
    locks ask for, and lists the pointers of an element behind its lock; no
    layout of another type changes. And the scanner of the collector may rely on
    it: in a collector's memory that holds these bytes, [memory_type_ok] holds,
    so that the steps of the scanner fit the 16 bits of a chunk and the
    descriptors have a width the scanner knows. *)
Theorem memory_layout_scannable env B w n d st kind eltype addrspace fuel : world_ok env B w n -> dts w !! d = Some st -> memory_type env B w d st kind eltype addrspace ->
  (rank B d <= fuel)%nat ->
  exists w' t l, jl_get_genericmemory_layout env (jl_struct_try_layout env fuel) d w = Some (Ok tt w') /\ wok env B w' /\ ext env w w' /\
    dts w' !! d = Some t /\ lmem w' !! layout t = Some l /\
    memory_layout env B w' (normalize_typeofbottom_layout_alias env eltype) (bool_decide (kind = Symbol (jl_atomic_sym env))) l /\
    forall im vt, holds im (GcScan.dt_layout im vt) l -> GcChildren.memory_type_ok im vt.
Proof.
  intros Hw Hst Hmt Hf.
  destruct (genericmemory_spec env B (jl_struct_try_layout env fuel) w n d st kind eltype addrspace (fun _ w' => exists t l, wok env B w' /\ ext env w w' /\ dts w' !! d = Some t /\
    lmem w' !! layout t = Some l /\ memory_layout env B w' (normalize_typeofbottom_layout_alias env eltype) (bool_decide (kind = Symbol (jl_atomic_sym env))) l) Hw Hst Hmt)
    as ([] & w' & E & t & l & H1 & H2 & H3 & H4 & H5).
  - intros w0. apply try_layout_ok; [done|]. intros wa wb Ha Hab e' He'. rewrite Hab by done. by apply Ha.
  - intros w' t l H1 H2 H3 H4 H5. by exists t, l.
  - exists w', t, l. split_and!; [done..|]. intros im vt Hh. destruct H5 as [_ (f & Hfl & Hf5)]. unfold GcChildren.memory_type_ok.
    pose proof (holds_rd im _ l 18 2 f Hh Hfl) as Ef. unfold GcScan.ly_isboxed, GcScan.ly_flags, GcScan.ly_first_ptr, GcScan.ly_size, GcScan.ly_npointers, GcScan.ly_fielddesc_type, GcScan.ly_flags.
    rewrite Ef. intros Hbox Hfp. rewrite Hbox in Hf5. destruct Hf5 as (s & a & ptrs & _ & _ & _ & _ & Hsz & _ & Hp).
    pose proof (holds_rd im _ l 0 4 _ Hh Hsz) as Es. rewrite Z.add_0_r in Es. rewrite Es.
    assert (forall fp, l_first_ptr l = Some fp -> sw 32 (GcScan.ld im 4 (GcScan.dt_layout im vt + 12)) = fp) as Hfirst.
    { intros fp. unfold l_first_ptr. destruct (rd l 12 4) as [x|] eqn:Ex; [|done]. intros [= <-]. by rewrite (holds_rd im _ l 12 4 x Hh Ex). }
    destruct ptrs as [|p ps]; [destruct Hp as [_ Hp]; rewrite (Hfirst _ Hp) in Hfp; lia|]. destruct Hp as (Hnp & Hp1 & Hfd & Hlt & Hq).
    rewrite (Hfirst _ Hp1) in Hfp. destruct (Hq 0%nat p eq_refl) as [_ Hin]. change (2 ^ 18) with 262144 in Hlt. change (2 ^ 16) with 65536.
    rewrite (holds_rd im _ l 8 4 _ Hh Hnp). split; [|intros _; split; [lia|exact Hfd]].
    split; [apply Z.div_str_pos; lia|apply Z.div_lt_upper_bound; lia].
Qed.

Lemma memory_layout_scannable_witness :
  exists w' t l, jl_get_genericmemory_layout example_env (jl_struct_try_layout example_env 3) 11 example_world = Some (Ok tt w') /\ wok example_env example_bounds w' /\ ext example_env example_world w' /\
    dts w' !! 11%nat = Some t /\ lmem w' !! layout t = Some l /\
    memory_layout example_env example_bounds w' (normalize_typeofbottom_layout_alias example_env (Datatype 10)) (bool_decide (Symbol 1 = Symbol (jl_atomic_sym example_env))) l /\
    forall im vt, holds im (GcScan.dt_layout im vt) l -> GcChildren.memory_type_ok im vt.
Proof.
  eapply (memory_layout_scannable example_env example_bounds example_world 0 11 _ (Symbol 1) (Datatype 10) (Addrspace 0)); [apply example_ok|done| |done].
  split; try done. split; [|done]. apply Forall_singleton. split; [cbn; lia|]. intros _. cbn. lia.
Defined.

(** ** Where sizes do not fit 32 bits *)

(** The size and alignment of a field, which an atomic field rounds up, and where
    it starts behind [sz] bytes. *)
Definition field_extent (isatomic : bool) (fsz al : Z) : Z * Z :=
  if isatomic && (fsz <=? MAX_ATOMIC_SIZE) then (next_power_of_two (u32 fsz), next_power_of_two (u32 fsz)) else (fsz, al).
Definition field_start (sz al : Z) : Z := if al =? 0 then sz else round_up sz al.

Lemma field_extent_spec isatomic fsz al : 0 <= fsz < 2 ^ 62 -> al = 0 \/ pow2 al ->
  0 <= (field_extent isatomic fsz al).1 < 2 ^ 62 /\ ((field_extent isatomic fsz al).2 = 0 \/ pow2 (field_extent isatomic fsz al).2).
Proof.
  intros Hf Ha. unfold field_extent. destruct (isatomic && (fsz <=? MAX_ATOMIC_SIZE)) eqn:E; [|done]. apply andb_true_iff in E as [_ E%Z.leb_le]. unfold MAX_ATOMIC_SIZE in E.
  rewrite (uw_small 32 fsz) by (unfold in_range; change (2 ^ 32) with 4294967296; lia). destruct (decide (fsz = 0)) as [->|Hne]; [split; [vm_compute; done|left; vm_compute; done]|].
  destruct (next_power_of_two_spec fsz) as (k & Hk & -> & Hk2); [change (2 ^ 31) with 2147483648; lia|].
  assert (k < 5) as Hk5 by (apply (Z.pow_lt_mono_r_iff 2); [lia..|change (2 ^ 5) with 32; lia]). cbn [fst snd]. split; [change (2 ^ 62) with 4611686018427387904; lia|].
  right. exists k. split; [lia|done].
Qed.

(** C39: The check of a field against 32-bit offsets, and the case it misses. A
    field of which kind, size and alignment are known starts at the end of the
    fields before it, rounded up to its alignment; an error is thrown exactly if
    it starts below 2^32 and ends beyond 2^32 - 1. If it ends before, it is
    recorded at its start. But if rounding up takes the start to 2^32 or more,
    the difference [max_offset - sz] wraps, nothing is thrown, and the field is
    recorded at its start less 2^32, where other fields are. *)
Theorem field_step_overflow env try st nfields i firstty fld s w isatomic ptr fsz al s1 w1 : jl_field_isatomic st i w = Some (Ok isatomic w) ->
  field_kind env try st nfields i fld isatomic s w = Some (Ok (ptr, fsz, al, s1) w1) -> 0 <= sz s1 < 2 ^ 62 -> 0 <= fsz < 2 ^ 62 -> al = 0 \/ pow2 al ->
  let size := (field_extent isatomic fsz al).1 in
  let start := field_start (sz s1) (field_extent isatomic fsz al).2 in
  if decide (start < 2 ^ 32 <= start + size) then field_step env try st nfields i firstty fld s w = Some (Throw w1)
  else exists s2, field_step env try st nfields i firstty fld s w = Some (Ok s2 w1) /\ sz s2 = start + size /\
    desc s2 = desc s1 ++ [{| isptr := ptr; fsize := uw 31 size; offset := start mod 2 ^ 32 |}].
Proof.
  intros Hat Hk Hsz Hfsz Hal size start. destruct (field_extent_spec isatomic fsz al Hfsz Hal) as [Hsize Hal']. fold size in Hsize.
  change (2 ^ 62) with 4611686018427387904 in *. change (2 ^ 32) with 4294967296.
  assert (sz s1 <= start < sz s1 + 2 ^ 16 /\ (if negb ((field_extent isatomic fsz al).2 =? 0) then LLT_ALIGN (sz s1) (field_extent isatomic fsz al).2 else sz s1) = start) as [Hst Es].
  { unfold start, field_start. destruct Hal' as [->|Hp]; [cbn [Z.eqb negb]; change (2 ^ 16) with 65536; split; [lia|done]|]. pose proof (pow2_bound _ Hp) as Hb.
    destruct (round_up_spec (sz s1) (field_extent isatomic fsz al).2 ltac:(lia)) as [Hr _]. destruct (Z.eqb_spec (field_extent isatomic fsz al).2 0); [lia|]. cbn [negb].
    split; [lia|]. apply LLT_ALIGN_eq; [done|]. change (2 ^ 63) with 9223372036854775808. lia. }
  change (2 ^ 16) with 65536 in Hst.
  assert ((u64 (max_offset - start) <? size) = bool_decide (start < 4294967296 <= start + size)) as Echk.
  { unfold max_offset. change (2 ^ 32 - 1) with 4294967295. destruct (Z.le_gt_cases 4294967296 start).
    - rewrite bool_decide_false by lia. replace (4294967295 - start) with (4294967295 - start + 18446744073709551616 - 1 * 2 ^ 64) by lia. apply Z.ltb_ge.
      unfold uw. rewrite <- Zminus_mod_idemp_r, Z.mod_mul, Z.sub_0_r, Z.mod_small; change (2 ^ 64) with 18446744073709551616; lia.
    - rewrite uw_small by (unfold in_range; change (2 ^ 64) with 18446744073709551616; lia). destruct (Z.ltb_spec (4294967295 - start) size); case_bool_decide; done || lia. }
  unfold field_step, bind. rewrite Hat, Hk.
  assert ((if isatomic && (fsz <=? MAX_ATOMIC_SIZE) then (next_power_of_two (u32 fsz), next_power_of_two (u32 fsz)) else (al, fsz)) =
          ((field_extent isatomic fsz al).2, size)) as -> by (unfold size, field_extent; by destruct (isatomic && _)).
  destruct (negb _); cbv zeta; rewrite Es, Echk; (destruct (decide _) as [H|H]; [rewrite bool_decide_true by done; reflexivity|]; rewrite bool_decide_false by done;
    eexists; split; [reflexivity|]; cbn [sz desc]; split; [|reflexivity]; apply uw_small; unfold in_range; change (2 ^ 64) with 18446744073709551616; lia).
Qed.
(** A pointer behind 2^32 - 4 bytes. *)
Lemma field_step_overflow_witness :
  let s := {| sz := 2 ^ 32 - 4; alignm := 1; zeroinit_ := false; haspadding := false; isbitsegal := true; homogeneous := true; needlock := false; npointers := 0; desc := [] |} in
  exists s2, field_step example_env (jl_struct_try_layout example_env 3) (example_type 10 true [Datatype 0]) 1 0 (Datatype 0) (Datatype 0) s example_world = Some (Ok s2 example_world) /\ sz s2 = 2 ^ 32 + 8 /\
    desc s2 = [{| isptr := true; fsize := 8; offset := 0 |}].
Proof.
  cbv zeta.
  apply (field_step_overflow example_env (jl_struct_try_layout example_env 3) (example_type 10 true [Datatype 0]) 1 0 (Datatype 0) (Datatype 0) _ example_world false true 8 8
    {| sz := 2 ^ 32 - 4; alignm := 1; zeroinit_ := true; haspadding := false; isbitsegal := false; homogeneous := true; needlock := false; npointers := 1; desc := [] |} example_world);
    [done|vm_compute; reflexivity|done|done|right; by exists 3].
Defined.

(** Primitive types of [2^31 - 16], 1 and 16 bytes. *)
Definition big_types : list jl_datatype_t :=
  map (fun n => example_type n false []) (seq 0 7) ++
  map (fun n => example_type n true []) [7; 8; 9]%nat ++
  [example_type 10 true (Datatype 7 :: Datatype 7 :: replicate 17 (Datatype 8) ++ [Datatype 9])].
Definition big_world : M unit := fun w =>
  (let! _ := jl_new_primitivetype 7 ((2 ^ 31 - 16) * 8) in let! _ := jl_new_primitivetype 8 8 in let! _ := jl_new_primitivetype 9 128 in
   jl_compute_field_offsets example_env (jl_struct_try_layout example_env 3) 10) (set_dts (fun _ => big_types) w).

(** So the struct with two primitive fields of 2^31 - 16 bytes, 17 of one byte
    and one of 16 bytes, which needs 2^32 + 16 bytes, gets a layout of 16 bytes
    with its last field over the first and the second at 2147483632.
    ([jl_new_primitivetype] itself does not limit sizes; its caller does, for
    primitive types only.) *)
Example struct_size_wraps : exists w' t l, big_world example_world = Some (Ok tt w') /\ dts w' !! 10%nat = Some t /\ lmem w' !! layout t = Some l /\
  l_size l = Some 16 /\ jl_field_offset l 0 = Some 0 /\ jl_field_size l 0 = Some (2 ^ 31 - 16) /\ jl_field_offset l 1 = Some (2 ^ 31 - 16) /\
  jl_field_offset l 19 = Some 0 /\ jl_field_size l 19 = Some 16.
Proof. do 3 eexists. split; [vm_compute; reflexivity|]. split; [vm_compute; reflexivity|]. split; [vm_compute; reflexivity|]. vm_compute. done. Qed.
