(* ===== verification/Egal.v ===== *)
(** * Egality and object identity (builtins.c, julia.h)

    Objects are bytes in memory behind a header that holds their type. Only
    immutable contents matter here, so that the memory is constant. [None] is a
    failed assertion, an access that the type of an object does not allow, an
    [abort] or a recursion deeper than the fuel. *)
From S2P Require Import Prelude Hashing Layout.

Record heap := {
  mem : Z -> Z;                   (* the bytes *)
  small_typeof : Z -> Z;          (* jl_small_typeof, by tag *)
  jl_tuple_typename : Z;
  jl_typename_type : Z;
  jl_any_type : Z;
  jl_nothing : Z;
  union_fuel : nat;               (* bounds the nesting of unions *)
}.

(** ** Tags (julia.h) *)

Definition jl_typeofbottom_tag := 1.
Definition jl_unionall_tag := 2.
Definition jl_uniontype_tag := 3.
Definition jl_typeeq_tag := 4.
Definition jl_typeegal_tag := 5.
Definition jl_datatype_tag := 6.
Definition jl_tvar_tag := 7.
Definition jl_vararg_tag := 8.
Definition jl_gotoifnot_tag := 9.
Definition jl_quotenode_tag := 17.
Definition jl_symbol_tag := 18.
Definition jl_module_tag := 19.
Definition jl_simplevector_tag := 20.
Definition jl_string_tag := 21.
Definition jl_task_tag := 22.
Definition jl_cancel_source_tag := 23.
Definition jl_wait_entry_tag := 24.
Definition jl_bool_tag := 25.
Definition jl_nothing_tag := 26.
Definition jl_char_tag := 27.
Definition jl_int16_tag := 28.
Definition jl_int32_tag := 29.
Definition jl_int64_tag := 30.
Definition jl_int8_tag := 31.
Definition jl_uint16_tag := 32.
Definition jl_uint32_tag := 33.
Definition jl_uint64_tag := 34.
Definition jl_uint8_tag := 35.
Definition jl_addrspacecore_tag := 36.
Definition jl_intrinsic_tag := 37.
Definition jl_argument_tag := 38.
Definition jl_slotnumber_tag := 39.
Definition jl_ssavalue_tag := 40.
Definition jl_gotonode_tag := 41.
Definition jl_max_tags := 64.

(** ** The results of comparisons *)

(** [f i] for [n] numbers from [i] on, until one is false. *)
Fixpoint all_from (f : Z -> option bool) (n : nat) (i : Z) : option bool :=
  match n with
  | O => Some true
  | S n => r ← f i; if r : bool then all_from f n (i + 1) else Some false
  end.
Definition and_then (a b : option bool) : option bool := r ← a; if r : bool then b else Some false.

Section Egal.
Context (h : heap).

(** ** Memory *)

Definition bytes (a : Z) (n : nat) : list Z := map (fun i => u8 (mem h (a + Z.of_nat i))) (seq 0 n).
Definition ld (n : nat) (a : Z) : Z := val 8 (bytes a n).
Definition ldp (a : Z) : Z := ld 8 a.

Definition header (v : Z) : Z := ldp (v - 8).
Definition jl_typetagof (v : Z) : Z := Z.land (header v) (2 ^ 64 - 16).
Definition jl_to_typeof (t : Z) : Z := if t <? Z.shiftl jl_max_tags 4 then small_typeof h (Z.shiftr t 4) else t.
Definition jl_typeof (v : Z) : Z := jl_to_typeof (jl_typetagof v).
Definition is_tag (tag v : Z) : bool := jl_typetagof v =? Z.shiftl tag 4.

Definition jl_svec_len (v : Z) : Z := ldp v.
Definition jl_svecref (v i : Z) : option Z :=
  if is_tag jl_simplevector_tag v && (0 <=? i) && (i <? jl_svec_len v) then Some (ldp (v + 8 + 8 * i)) else None.
Definition jl_string_len (v : Z) : Z := ldp v.
Definition jl_string_data (v : Z) : Z := v + 8.

(** [jl_datatype_t] and [jl_typename_t]. *)
Definition dt_name (dt : Z) : Z := ldp dt.
Definition dt_parameters (dt : Z) : Z := ldp (dt + 16).
Definition dt_types (dt : Z) : Z := ldp (dt + 24).
Definition dt_layout (dt : Z) : Z := ldp (dt + 40).
Definition dt_hash (dt : Z) : Z := ld 4 (dt + 48).
Definition dt_isconcretetype (dt : Z) : bool := Z.testbit (ld 2 (dt + 52)) 1.
Definition tn_hash (tn : Z) : Z := ldp (tn + 88).
Definition tn_abstract (tn : Z) : bool := Z.testbit (ld 1 (tn + 104)) 0.
Definition tn_mutabl (tn : Z) : bool := Z.testbit (ld 1 (tn + 104)) 1.
Definition jl_nparams (dt : Z) : Z := jl_svec_len (dt_parameters dt).
Definition jl_tparam (dt i : Z) : option Z := jl_svecref (dt_parameters dt) i.

Definition uniontype_a (v : Z) : Z := ldp v.
Definition uniontype_b (v : Z) : Z := ldp (v + 8).
Definition typeeq_T (v : Z) : Z := ldp v.
Definition unionall_var (v : Z) : Z := ldp v.
Definition unionall_body (v : Z) : Z := ldp (v + 8).
Definition tvar_name (v : Z) : Z := ldp v.
Definition tvar_lb (v : Z) : Z := ldp (v + 8).
Definition tvar_ub (v : Z) : Z := ldp (v + 16).
Definition vararg_T (v : Z) : Z := ldp v.
Definition vararg_N (v : Z) : Z := ldp (v + 8).
Definition sym_hash (v : Z) : Z := ldp (v + 16).
Definition module_hash (v : Z) : Z := ldp (v + 384).

(** The bytes of a layout: header, field descriptors, pointer table. *)
Definition layout_at (ly : Z) : option (list Z) :=
  let hd := bytes ly 20 in
  nf ← l_nfields hd; np ← l_npointers hd; fp ← l_first_ptr hd; flags ← l_flags hd;
  fsz ← jl_fielddesc_size (flag_fielddesc_type flags); psz ← jl_fielddesc_ptr_size (flag_fielddesc_type flags);
  Some (bytes ly (Z.to_nat (20 + nf * fsz + (if fp <? 0 then 0 else np * psz)))).

(** [dt->layout], for a pointer that should be a data type. *)
Definition own_layout (dt : Z) : option (list Z) :=
  if is_tag jl_datatype_tag dt && negb (dt_layout dt =? 0) then layout_at (dt_layout dt) else None.
(** Objects that are compared by content have a type with a layout of its own,
    so that the layout of the wrapper is never asked for. *)
Definition jl_datatype_layout (dt : Z) : option (list Z) :=
  l ← own_layout dt; o ← jl_is_layout_opaque l; if o : bool then None else Some l.
Definition jl_datatype_size (dt : Z) : option Z := l ← jl_datatype_layout dt; l_size l.
Definition jl_datatype_nfields (dt : Z) : option Z := l ← jl_datatype_layout dt; l_nfields l.
Definition jl_datatype_unusedbits (dt : Z) : option Z := l ← jl_datatype_layout dt; f ← l_flags l; Some (flag_unused_bits f).
Definition jl_field_type_concrete (dt i : Z) : option Z := if dt_types dt =? 0 then None else jl_svecref (dt_types dt) i.
Definition layout_bits (dt : Z) : option (bool * bool) := l ← own_layout dt; f ← l_flags l; Some (flag_haspadding f, flag_isbitsegal f).

Definition jl_is_uniontype (v : Z) : bool := is_tag jl_uniontype_tag v.
(** The component and what is left of [*pi]; 0 is NULL. *)
Fixpoint nth_union_component (fuel : nat) (v pi : Z) : option (Z * Z) :=
  match fuel with
  | O => None
  | S fuel =>
      if jl_is_uniontype v then
        '(a, pi) ← nth_union_component fuel (uniontype_a v) pi;
        if negb (a =? 0) then Some (a, pi) else nth_union_component fuel (uniontype_b v) pi
      else if pi =? 0 then Some (v, pi) else Some (0, pi - 1)
  end.
Definition jl_nth_union_component (v i : Z) : option Z := r ← nth_union_component (union_fuel h) v i; Some (fst r).

(** ** Egality *)

(** [sz] is an [int]. *)
Definition bits_equal (a b sz : Z) : option bool :=
  if sz <? 2 ^ 31 then Some (bool_decide (bytes a (Z.to_nat sz) = bytes b (Z.to_nat sz))) else None.

Definition last_byte_mask (dt : Z) : option Z := u ← jl_datatype_unusedbits dt; Some (u8 (Z.shiftr 0xff u)).
Definition primitive_bits_equal (a b dt : Z) : option bool :=
  sz ← jl_datatype_size dt;
  if sz =? 0 then Some true else
  and_then (if sz <=? 1 then Some true else bits_equal a b (sz - 1))
           (m ← last_byte_mask dt; Some (Z.land (Z.lxor (ld 1 (a + (sz - 1))) (ld 1 (b + (sz - 1)))) m =? 0)).

Section Rec.
(** The recursive calls. *)
Context (jl_egal : Z -> Z -> option bool) (compare_fields_rec : Z -> Z -> Z -> option bool)
  (egal_types_rec : Z -> Z -> list (Z * Z) -> bool -> option bool).

Definition compare_svec (a b : Z) : option bool :=
  let l := jl_svec_len a in
  if negb (l =? jl_svec_len b) then Some false else
  all_from (fun i => x ← jl_svecref a i; y ← jl_svecref b i; jl_egal x y) (Z.to_nat l) 0.

(** The bits of an inline field of type [ft]. *)
Definition compare_inline (ao bo ft : Z) : option bool :=
  '(haspadding, isbitsegal) ← layout_bits ft;
  if negb haspadding && isbitsegal then l ← own_layout ft; sz ← l_size l; bits_equal ao bo sz
  else nf ← jl_datatype_nfields ft; if nf =? 0 then primitive_bits_equal ao bo ft else compare_fields_rec ao bo ft.

(** One round of the loop over the fields. *)
Definition compare_field (a b dt : Z) (f : Z) : option bool :=
  ly ← jl_datatype_layout dt; offs ← jl_field_offset ly f; p ← jl_field_isptr ly f;
  if p : bool then Some true else
  let ao := a + offs in let bo := b + offs in
  ft ← jl_field_type_concrete dt f;
  if jl_is_uniontype ft then
    sz ← jl_field_size ly f;
    let idx := u32 (sz - 1) in
    let asel := ld 1 (ao + idx) in let bsel := ld 1 (bo + idx) in
    if negb (asel =? bsel) then Some false else
    ft ← jl_nth_union_component ft asel; compare_inline ao bo ft
  else
    l ← own_layout ft; idx ← l_first_ptr l;
    if 0 <=? idx then
      let ptra := ldp (ao + 8 * idx) in let ptrb := ldp (bo + 8 * idx) in
      if negb (Bool.eqb (ptra =? 0) (ptrb =? 0)) then Some false
      else if ptra =? 0 then Some true
      else compare_inline ao bo ft
    else compare_inline ao bo ft.

(** One round of the loop over the pointers. *)
Definition compare_pointer (a b dt : Z) (p : Z) : option bool :=
  l ← own_layout dt; offs ← jl_ptr_offset l p;
  let af := ldp (a + 8 * offs) in let bf := ldp (b + 8 * offs) in
  if af =? bf then Some true else
  if (af =? 0) || (bf =? 0) then Some false else jl_egal af bf.

Definition compare_fields (a b dt : Z) : option bool :=
  nf ← jl_datatype_nfields dt; l ← own_layout dt; npointers ← l_npointers l;
  and_then (all_from (compare_field a b dt) (Z.to_nat nf) 0) (all_from (compare_pointer a b dt) (Z.to_nat npointers) 0).

Definition jl_egal__bits (a b dt : Z) : option bool :=
  sz ← jl_datatype_size dt;
  if sz =? 0 then Some true else
  nf ← jl_datatype_nfields dt; '(haspadding, isbitsegal) ← layout_bits dt;
  if nf =? 0 then (if haspadding : bool then primitive_bits_equal a b dt else bits_equal a b sz)
  else if negb haspadding && isbitsegal then bits_equal a b sz
  else compare_fields a b dt.

(** Data types are compared as values. *)
Definition egal_datatypes (a b : Z) : option bool :=
  if negb (dt_name a =? dt_name b) then Some false else
  if negb (dt_name a =? jl_tuple_typename h) && (dt_isconcretetype a || dt_isconcretetype b) then Some false else
  compare_svec (dt_parameters a) (dt_parameters b).

(** The switch over the tags. *)
Definition jl_egal__bitstag (a b dtag : Z) : option bool :=
  if dtag <? Z.shiftl jl_max_tags 4 then
    let t := Z.shiftr dtag 4 in
    if bool_decide (t ∈ [jl_int8_tag; jl_uint8_tag; jl_addrspacecore_tag]) then Some (ld 1 a =? ld 1 b) else
    if bool_decide (t ∈ [jl_int16_tag; jl_uint16_tag]) then Some (ld 2 a =? ld 2 b) else
    if bool_decide (t ∈ [jl_int32_tag; jl_uint32_tag; jl_char_tag; jl_intrinsic_tag]) then Some (ld 4 a =? ld 4 b) else
    if bool_decide (t ∈ [jl_int64_tag; jl_uint64_tag; jl_ssavalue_tag; jl_slotnumber_tag; jl_argument_tag; jl_gotonode_tag]) then Some (ld 8 a =? ld 8 b) else
    if ((jl_gotoifnot_tag <=? t) && (t <=? jl_quotenode_tag)) || (t =? jl_uniontype_tag) || (t =? jl_vararg_tag) then compare_fields a b (small_typeof h t) else
    if bool_decide (t ∈ [jl_unionall_tag; jl_typeeq_tag; jl_typeegal_tag]) then egal_types_rec a b [] true else
    if bool_decide (t ∈ [jl_task_tag; jl_tvar_tag; jl_symbol_tag; jl_module_tag; jl_bool_tag; jl_nothing_tag; jl_cancel_source_tag; jl_wait_entry_tag]) then Some false else
    if t =? jl_simplevector_tag then compare_svec a b else
    if t =? jl_string_tag then
      let l := jl_string_len a in
      if negb (jl_string_len b =? l) then Some false
      else Some (bool_decide (bytes (jl_string_data a) (Z.to_nat l) = bytes (jl_string_data b) (Z.to_nat l)))
    else
    if t =? jl_datatype_tag then egal_datatypes a b else None
  else jl_egal__bits a b dtag.

Definition jl_egal__unboxed_ (a b dtag : Z) : option bool :=
  if dtag <? Z.shiftl jl_max_tags 4 then
    if (dtag =? Z.shiftl jl_symbol_tag 4) || (dtag =? Z.shiftl jl_bool_tag 4) || (dtag =? Z.shiftl jl_nothing_tag 4) then Some false
    else jl_egal__bitstag a b dtag
  else if tn_mutabl (dt_name dtag) then Some false
  else jl_egal__bitstag a b dtag.

Definition jl_egal_ (a b : Z) : option bool :=
  if a =? b then Some true else
  let dtag := jl_typetagof a in
  if negb (dtag =? jl_typetagof b) then Some false else jl_egal__unboxed_ a b dtag.

Fixpoint env_lookup (env : list (Z * Z)) (v : Z) : option Z :=
  match env with [] => None | (var, val) :: env => if var =? v then Some val else env_lookup env v end.

(** [env] pairs the variables bound around [a] with those bound around [b], the
    innermost first. *)
Definition egal_types (a b : Z) (env : list (Z * Z)) (tvar_names : bool) : option bool :=
  if a =? b then Some true else
  let dtag := jl_typetagof a in
  if negb (dtag =? jl_typetagof b) then Some false else
  let tagged tag := dtag =? Z.shiftl tag 4 in
  if tagged jl_datatype_tag then
    if negb (dt_name a =? dt_name b) then Some false else
    let l := jl_nparams a in
    if negb (jl_nparams b =? l) then Some false else
    all_from (fun i => x ← jl_tparam a i; y ← jl_tparam b i; egal_types_rec x y env tvar_names) (Z.to_nat l) 0
  else if tagged jl_tvar_tag then
    Some (match env_lookup env a with Some v => v =? b | None => false end)
  else if tagged jl_unionall_tag then
    let va := unionall_var a in let vb := unionall_var b in
    if tvar_names && negb (tvar_name va =? tvar_name vb) then Some false else
    and_then (and_then (egal_types_rec (tvar_lb va) (tvar_lb vb) env tvar_names) (egal_types_rec (tvar_ub va) (tvar_ub vb) env tvar_names))
             (egal_types_rec (unionall_body a) (unionall_body b) ((va, vb) :: env) tvar_names)
  else if tagged jl_uniontype_tag then
    and_then (egal_types_rec (uniontype_a a) (uniontype_a b) env tvar_names) (egal_types_rec (uniontype_b a) (uniontype_b b) env tvar_names)
  else if tagged jl_typeegal_tag then egal_types_rec (typeeq_T a) (typeeq_T b) env true
  else if tagged jl_typeeq_tag then egal_types_rec (typeeq_T a) (typeeq_T b) env tvar_names
  else if tagged jl_vararg_tag then
    let T v := if vararg_T v =? 0 then jl_any_type h else vararg_T v in
    and_then (egal_types_rec (T a) (T b) env tvar_names)
      (if negb (vararg_N a =? 0) && negb (vararg_N b =? 0) then egal_types_rec (vararg_N a) (vararg_N b) env tvar_names
       else Some ((vararg_N a =? 0) && (vararg_N b =? 0)))
  else if tagged jl_symbol_tag || tagged jl_module_tag || negb (tn_mutabl (dt_name (jl_typeof a))) then jl_egal__bitstag a b dtag
  else None.
End Rec.

(** The functions call each other; each call takes one unit of fuel. *)
Inductive egal_call :=
| C_egal (a b : Z)
| C_fields (a b dt : Z)
| C_types (a b : Z) (env : list (Z * Z)) (tvar_names : bool).
Fixpoint run_egal (fuel : nat) (c : egal_call) : option bool :=
  match fuel with
  | O => None
  | S fuel =>
      let egal a b := run_egal fuel (C_egal a b) in
      let fields a b dt := run_egal fuel (C_fields a b dt) in
      let types a b env names := run_egal fuel (C_types a b env names) in
      match c with
      | C_egal a b => jl_egal_ egal fields types a b
      | C_fields a b dt => compare_fields egal fields a b dt
      | C_types a b env names => egal_types egal fields types a b env names
      end
  end.
Definition jl_egal (fuel : nat) (a b : Z) : option bool := run_egal fuel (C_egal a b).
Definition jl_types_struct_equiv (fuel : nat) (a b : Z) : option bool := run_egal fuel (C_types a b [] false).

(** ** Object ids *)

Definition bits_hash (b : list Z) (sz : Z) : option Z :=
  if sz =? 1 then Some (int32hash (u32 (sw 8 (val 8 b))))
  else if sz =? 2 then Some (int32hash (u32 (sw 16 (val 8 b))))
  else if sz =? 4 then Some (int32hash (val 8 b))
  else if sz =? 8 then Some (int64hash (val 8 b))
  else memhash b sz.

(** The bytes with the unused bits of the last one cleared. *)
Definition mask_last (b : list Z) (m : Z) : list Z := alter (fun x => Z.land x m) (length b - 1)%nat b.

Section Id.
Context (jl_object_id : Z -> option Z) (type_object_id_rec : Z -> list Z -> option Z) (immut_id_rec : Z -> Z -> Z -> option Z).

Fixpoint hash_elems (v : Z) (n : nat) (i hash : Z) : option Z :=
  match n with
  | O => Some hash
  | S n => x ← jl_svecref v i; u ← (if x =? 0 then Some 0 else jl_object_id x); hash_elems v n (i + 1) (bitmix hash u)
  end.
Definition hash_svec (v : Z) : option Z := hash_elems v (Z.to_nat (jl_svec_len v)) 0 0.

Fixpoint var_index (env : list Z) (v i : Z) : option Z :=
  match env with [] => None | x :: env => if x =? v then Some i else var_index env v (i + 1) end.
(** The id of an object by its address, or the one saved with it in an image. *)
Definition address_id (v : Z) : Z := if Z.testbit (header v) 2 then ldp (v - 16) else int64hash v.

Fixpoint hash_params (v : Z) (env : list Z) (n : nat) (i hash : Z) : option Z :=
  match n with
  | O => Some hash
  | S n => p ← jl_tparam v i; u ← type_object_id_rec p env; hash_params v env n (i + 1) (bitmix hash u)
  end.

Definition type_object_id_ (v : Z) (env : list Z) : option Z :=
  if v =? 0 then Some 0 else
  let tv := jl_typeof v in
  let tagged tag := tv =? small_typeof h tag in
  if tagged jl_tvar_tag then
    Some (match var_index env v 0 with Some i => u64 (sw 32 (u32 (Z.shiftl i 8 + 42))) | None => address_id v end)
  else if tagged jl_uniontype_tag then
    u ← jl_object_id tv; a ← type_object_id_rec (uniontype_a v) env; b ← type_object_id_rec (uniontype_b v) env;
    Some (bitmix (bitmix u a) b)
  else if tagged jl_typeeq_tag || tagged jl_typeegal_tag then
    u ← jl_object_id tv; t ← type_object_id_rec (typeeq_T v) env; Some (bitmix u t)
  else if tagged jl_unionall_tag then
    let var := unionall_var v in
    lb ← type_object_id_rec (tvar_lb var) env; ub ← type_object_id_rec (tvar_ub var) env;
    b ← type_object_id_rec (unionall_body v) (var :: env);
    Some (bitmix (bitmix (bitmix (sym_hash (tvar_name var)) lb) ub) b)
  else if tagged jl_datatype_tag then
    if dt_isconcretetype v then Some (dt_hash v) else
    hash_params v env (Z.to_nat (jl_nparams v)) 0 (u64 (Z.lnot (tn_hash (dt_name v))))
  else if tagged jl_vararg_tag then
    let t := if vararg_T v =? 0 then jl_any_type h else vararg_T v in
    let n := if vararg_N v =? 0 then jl_nothing h else vararg_N v in
    a ← type_object_id_rec t env; b ← type_object_id_rec n env; Some (bitmix a b)
  else if tagged jl_symbol_tag then Some (sym_hash v)
  else if tagged jl_module_tag then Some (module_hash v)
  else if tn_mutabl (dt_name tv) then None
  else immut_id_rec tv v (dt_hash tv).

(** The id of the field [f] of an object of type [dt]. *)
Definition field_id (dt v f : Z) : option Z :=
  ly ← jl_datatype_layout dt; offs ← jl_field_offset ly f; p ← jl_field_isptr ly f;
  let vo := v + offs in
  if p : bool then (let x := ldp vo in if x =? 0 then Some 0 else jl_object_id x) else
  ft ← jl_field_type_concrete dt f;
  ft ← (if jl_is_uniontype ft then sz ← jl_field_size ly f; jl_nth_union_component ft (ld 1 (vo + u32 (sz - 1))) else Some ft);
  if tn_abstract (dt_name ft) || tn_mutabl (dt_name ft) then None else
  l ← own_layout ft; first_ptr ← l_first_ptr l;
  if (0 <=? first_ptr) && (ldp (vo + 8 * first_ptr) =? 0) then Some 0 else immut_id_rec ft vo 0.
Fixpoint hash_fields (dt v : Z) (n : nat) (f hash : Z) : option Z :=
  match n with
  | O => Some hash
  | S n => u ← field_id dt v f; hash_fields dt v n (f + 1) (bitmix hash u)
  end.

Definition immut_id_ (dt v hash : Z) : option Z :=
  sz ← jl_datatype_size dt;
  if sz =? 0 then Some (u64 (Z.lnot hash)) else
  nf ← jl_datatype_nfields dt; '(haspadding, isbitsegal) ← layout_bits dt; l ← own_layout dt; np ← l_npointers l;
  if (nf =? 0) || (negb haspadding && isbitsegal && (np =? 0)) then
    let buf := bytes v (Z.to_nat sz) in
    x ← (if (nf =? 0) && haspadding then m ← last_byte_mask dt; bits_hash (mask_last buf m) sz else bits_hash buf sz);
    Some (Z.lxor x hash)
  else if dt =? small_typeof h jl_unionall_tag then type_object_id_rec v []
  else hash_fields dt v (Z.to_nat nf) 0 hash.

Definition jl_object_id__cold (tv v : Z) : option Z :=
  let dt := jl_to_typeof tv in
  if tn_mutabl (dt_name dt) then
    if dt =? small_typeof h jl_string_tag then
      memhash_seed (bytes (jl_string_data v) (Z.to_nat (jl_string_len v))) (jl_string_len v) 0xedc3b677
    else if dt =? small_typeof h jl_simplevector_tag then hash_svec v
    else if dt =? small_typeof h jl_datatype_tag then
      u ← hash_svec (dt_parameters v); Some (bitmix (u64 (Z.lnot (tn_hash (dt_name v)))) u)
    else if dt =? small_typeof h jl_module_tag then Some (module_hash v)
    else Some (address_id v)
  else immut_id_rec dt v (dt_hash dt).

Definition jl_object_id_ (tv v : Z) : option Z :=
  if tv =? Z.shiftl jl_symbol_tag 4 then Some (sym_hash v)
  else if (tv =? Z.shiftl jl_datatype_tag 4) && negb (dt_hash v =? 0) then Some (dt_hash v)
  else if tv =? jl_typename_type h then Some (tn_hash v)
  else jl_object_id__cold tv v.
End Id.

Inductive id_call :=
| I_object (v : Z)
| I_type (v : Z) (env : list Z)
| I_immut (dt v hash : Z).
Fixpoint run_id (fuel : nat) (c : id_call) : option Z :=
  match fuel with
  | O => None
  | S fuel =>
      let obj v := run_id fuel (I_object v) in
      let type v env := run_id fuel (I_type v env) in
      let immut dt v hash := run_id fuel (I_immut dt v hash) in
      match c with
      | I_object v => jl_object_id_ obj immut (jl_typetagof v) v
      | I_type v env => type_object_id_ obj type immut v env
      | I_immut dt v hash => immut_id_ obj type immut dt v hash
      end
  end.
Definition jl_object_id (fuel : nat) (v : Z) : option Z := run_id fuel (I_object v).
End Egal.
