(* ===== verification/EgalFacts.v ===== *)
(** * Egality: objects denote values, and [jl_egal] compares them

    [value_of] gives the value of an object: bits without padding, the values of
    the fields and pointers, the parameters of a data type, or, for a mutable
    object, its address. It is defined for one object at a time. NULL and [where]
    types have no value here; [EgalCorrect] shows what happens to the latter. *)
From S2P Require Import Prelude Hashing Layout Egal.

(** ** Values *)

Inductive label :=
| Identity (a : Z)       (* an object that is only equal to itself *)
| Typed (tag : Z)        (* an object with its type *)
| Bits (l : list Z)
| Fields | List | Undef | Null | Boxed
| Selected (sel : Z)     (* the component of a union *)
| Name (tn : Z).
Inductive value := Node (l : label) (vs : list value).

(** [f i] for [n] numbers from [i] on. *)
Fixpoint elems_from (f : Z -> option value) (n : nat) (i : Z) : option (list value) :=
  match n with O => Some [] | S n => x ← f i; xs ← elems_from f n (i + 1); Some (x :: xs) end.

Section Value.
Context (h : heap).

Definition bits_value (a sz : Z) : option value := if sz <? 2 ^ 31 then Some (Node (Bits (bytes h a (Z.to_nat sz))) []) else None.
Definition primitive_value (a dt : Z) : option value :=
  sz ← jl_datatype_size h dt;
  if sz =? 0 then Some (Node (Bits []) []) else
  m ← last_byte_mask h dt;
  if sz <? 2 ^ 31 then Some (Node (Bits (bytes h a (Z.to_nat (sz - 1)) ++ [Z.land (ld h 1 (a + (sz - 1))) m])) []) else None.

Section Rec.
Context (obj_rec : Z -> option value) (fields_rec : Z -> Z -> option value) (type_rec : Z -> option value).

Definition svec_value (v : Z) : option (list value) :=
  elems_from (fun i => x ← jl_svecref h v i; obj_rec x) (Z.to_nat (jl_svec_len h v)) 0.
Definition inline_value (ao ft : Z) : option value :=
  '(haspadding, isbitsegal) ← layout_bits h ft;
  if negb haspadding && isbitsegal then l ← own_layout h ft; sz ← l_size l; bits_value ao sz
  else nf ← jl_datatype_nfields h ft; if nf =? 0 then primitive_value ao ft else fields_rec ao ft.
Definition field_value (a dt f : Z) : option value :=
  ly ← jl_datatype_layout h dt; offs ← jl_field_offset ly f; p ← jl_field_isptr ly f;
  if p : bool then Some (Node Boxed []) else
  let ao := a + offs in
  ft ← jl_field_type_concrete h dt f;
  if jl_is_uniontype h ft then
    sz ← jl_field_size ly f;
    let sel := ld h 1 (ao + u32 (sz - 1)) in
    ft ← jl_nth_union_component h ft sel; v ← inline_value ao ft; Some (Node (Selected sel) [v])
  else
    l ← own_layout h ft; idx ← l_first_ptr l;
    if (0 <=? idx) && (ldp h (ao + 8 * idx) =? 0) then Some (Node Undef []) else inline_value ao ft.
Definition pointer_value (a dt p : Z) : option value :=
  l ← own_layout h dt; offs ← jl_ptr_offset l p;
  let x := ldp h (a + 8 * offs) in if x =? 0 then Some (Node Null []) else obj_rec x.
Definition fields_value (a dt : Z) : option value :=
  nf ← jl_datatype_nfields h dt; l ← own_layout h dt; np ← l_npointers l;
  fs ← elems_from (field_value a dt) (Z.to_nat nf) 0; ps ← elems_from (pointer_value a dt) (Z.to_nat np) 0;
  Some (Node Fields [Node List fs; Node List ps]).
Definition struct_value (a dt : Z) : option value :=
  sz ← jl_datatype_size h dt;
  if sz =? 0 then Some (Node (Bits []) []) else
  nf ← jl_datatype_nfields h dt; '(haspadding, isbitsegal) ← layout_bits h dt;
  if nf =? 0 then (if haspadding : bool then primitive_value a dt else bits_value a sz)
  else if negb haspadding && isbitsegal then bits_value a sz else fields_value a dt.

Definition word_tags : list Z := [jl_int64_tag; jl_uint64_tag; jl_ssavalue_tag; jl_slotnumber_tag; jl_argument_tag; jl_gotonode_tag].
Definition node_tag (t : Z) : bool := ((jl_gotoifnot_tag <=? t) && (t <=? jl_quotenode_tag)) || (t =? jl_uniontype_tag) || (t =? jl_vararg_tag).

(** What an object holds besides its type. *)
Definition content_value (a : Z) : option value :=
  let dtag := jl_typetagof h a in
  if dtag <? Z.shiftl jl_max_tags 4 then
    let t := Z.shiftr dtag 4 in
    if bool_decide (t ∈ [jl_int8_tag; jl_uint8_tag; jl_addrspacecore_tag]) then Some (Node (Bits (bytes h a 1)) []) else
    if bool_decide (t ∈ [jl_int16_tag; jl_uint16_tag]) then Some (Node (Bits (bytes h a 2)) []) else
    if bool_decide (t ∈ [jl_int32_tag; jl_uint32_tag; jl_char_tag; jl_intrinsic_tag]) then Some (Node (Bits (bytes h a 4)) []) else
    if bool_decide (t ∈ word_tags) then Some (Node (Bits (bytes h a 8)) []) else
    if node_tag t then fields_value a (small_typeof h t) else
    if bool_decide (t ∈ [jl_unionall_tag; jl_typeeq_tag; jl_typeegal_tag]) then type_rec a else
    if bool_decide (t ∈ [jl_task_tag; jl_tvar_tag; jl_symbol_tag; jl_module_tag; jl_bool_tag; jl_nothing_tag; jl_cancel_source_tag; jl_wait_entry_tag]) then Some (Node (Identity a) []) else
    if t =? jl_simplevector_tag then l ← svec_value a; Some (Node List l) else
    if t =? jl_string_tag then Some (Node (Bits (bytes h (jl_string_data a) (Z.to_nat (jl_string_len h a)))) []) else
    if t =? jl_datatype_tag then
      if negb (dt_name h a =? jl_tuple_typename h) && dt_isconcretetype h a then Some (Node (Identity a) []) else
      l ← svec_value (dt_parameters h a); Some (Node (Name (dt_name h a)) l)
    else None
  else struct_value a dtag.
Definition obj_value (a : Z) : option value :=
  if a =? 0 then None else
  let dtag := jl_typetagof h a in
  v ← (if negb (dtag <? Z.shiftl jl_max_tags 4) && tn_mutabl h (dt_name h dtag) then Some (Node (Identity a) []) else content_value a);
  Some (Node (Typed dtag) [v]).

(** An object as a type, or as a parameter inside a type. *)
Definition type_value (a : Z) : option value :=
  if a =? 0 then None else
  let dtag := jl_typetagof h a in
  let tagged tag := dtag =? Z.shiftl tag 4 in
  v ← (if tagged jl_datatype_tag then
         l ← elems_from (fun i => x ← jl_tparam h a i; type_rec x) (Z.to_nat (jl_nparams h a)) 0; Some (Node (Name (dt_name h a)) l)
       else if tagged jl_tvar_tag then Some (Node (Identity a) [])
       else if tagged jl_unionall_tag then None
       else if tagged jl_uniontype_tag then x ← type_rec (uniontype_a h a); y ← type_rec (uniontype_b h a); Some (Node List [x; y])
       else if tagged jl_typeegal_tag || tagged jl_typeeq_tag then x ← type_rec (typeeq_T h a); Some (Node List [x])
       else if tagged jl_vararg_tag then
         x ← type_rec (if vararg_T h a =? 0 then jl_any_type h else vararg_T h a);
         y ← (if vararg_N h a =? 0 then Some (Node Null []) else type_rec (vararg_N h a)); Some (Node List [x; y])
       else if tagged jl_symbol_tag || tagged jl_module_tag || negb (tn_mutabl h (dt_name h (jl_typeof h a))) then content_value a
       else None);
  Some (Node (Typed dtag) [v]).
End Rec.

Inductive value_call := V_obj (a : Z) | V_fields (a dt : Z) | V_type (a : Z).
Fixpoint run_value (fuel : nat) (c : value_call) : option value :=
  match fuel with
  | O => None
  | S fuel =>
      let obj a := run_value fuel (V_obj a) in
      let fields a dt := run_value fuel (V_fields a dt) in
      let type a := run_value fuel (V_type a) in
      match c with
      | V_obj a => obj_value obj fields type a
      | V_fields a dt => fields_value obj fields a dt
      | V_type a => type_value obj fields type a
      end
  end.
Definition value_of (fuel : nat) (a : Z) : option value := run_value fuel (V_obj a).
End Value.

(** ** Decisions *)

(** [r] is an answer, and says whether [P]. *)
Definition decides (r : option bool) (P : Prop) : Prop := exists b : bool, r = Some b /\ (b = true <-> P).

Lemma decides_iff r P Q : decides r P -> (P <-> Q) -> decides r Q.
Proof. intros (b & -> & Hb) H. exists b. split; [done|]. by rewrite Hb. Qed.
#[export] Instance decides_proper : Proper (eq ==> iff ==> iff) decides.
Proof. intros r ? <- P Q H. split; intros Hr; (eapply decides_iff; [exact Hr|tauto]). Qed.
Lemma decides_true P : P -> decides (Some true) P.
Proof. by exists true. Qed.
Lemma decides_false P : ~ P -> decides (Some false) P.
Proof. by exists false. Qed.
Lemma decides_eqb a b : decides (Some (a =? b)) (a = b).
Proof. exists (a =? b). split; [done|apply Z.eqb_eq]. Qed.
Lemma decides_bool (P : Prop) `{Decision P} : decides (Some (bool_decide P)) P.
Proof. exists (bool_decide P). split; [done|apply bool_decide_eq_true]. Qed.
Lemma decides_and a b P Q : decides a P -> (P -> decides b Q) -> decides (and_then a b) (P /\ Q).
Proof.
  intros (x & -> & Hx) Hb. destruct x; [|exists false; split; [done|]; split; [done|]; intros [HP _]; by apply Hx].
  destruct Hb as (y & -> & Hy); [by apply Hx|]. exists y. split; [done|]. rewrite Hy. split; [by split; [apply Hx|]|by intros [_ ?]].
Qed.
Lemma decides_all c f g n i xs ys : (forall i x y, f i = Some x -> g i = Some y -> decides (c i) (x = y)) ->
  elems_from f n i = Some xs -> elems_from g n i = Some ys -> decides (all_from c n i) (xs = ys).
Proof.
  intros Hc. revert i xs ys. induction n as [|n IH]; intros i xs ys; cbn [elems_from all_from]; [intros [= <-] [= <-]; by apply decides_true|].
  destruct (f i) as [x|] eqn:Ef; [|done]. destruct (g i) as [y|] eqn:Eg; [|done]. cbn [mbind option_bind].
  destruct (elems_from f n (i + 1)) as [xs'|] eqn:Efs; [|done]. destruct (elems_from g n (i + 1)) as [ys'|] eqn:Egs; [|done]. intros [= <-] [= <-].
  eapply decides_iff; [apply (decides_and (c i) (all_from c n (i + 1)) (x = y) (xs' = ys')); [by apply Hc|intros _; by eapply IH]|].
  split; [by intros [-> ->]|by intros [= -> ->]].
Qed.

Lemma elems_from_length f n i xs : elems_from f n i = Some xs -> length xs = n.
Proof.
  revert i xs. induction n as [|n IH]; intros i xs; cbn [elems_from]; [by intros [= <-]|].
  destruct (f i); [|done]. cbn [mbind option_bind]. destruct (elems_from f n (i + 1)) eqn:E; [|done]. intros [= <-]. cbn. by erewrite IH.
Qed.

Section Decide.
Context (h : heap).

Lemma bytes_words a n : words 8 (bytes h a n).
Proof. apply List.Forall_map, Forall_true. intros i. by apply uw_range. Qed.
Lemma bytes_length a n : length (bytes h a n) = n.
Proof. unfold bytes. by rewrite length_map, length_seq. Qed.
Lemma ld_bytes a b n : ld h n a = ld h n b <-> bytes h a n = bytes h b n.
Proof.
  unfold ld. split; [|by intros ->]. intros E. apply (val_inj 8); [done|apply bytes_words..| |done]. by rewrite !bytes_length.
Qed.
Lemma ld_range a n : in_range (8 * Z.of_nat n) (ld h n a).
Proof. unfold ld, in_range. pose proof (val_range 8 (bytes h a n) ltac:(lia) (bytes_words a n)) as H. by rewrite bytes_length in H. Qed.
Lemma ldp_nonneg a : 0 <= ldp h a.
Proof. apply (ld_range a 8). Qed.

Lemma decides_ld a b n : decides (Some (ld h n a =? ld h n b)) (Node (Bits (bytes h a n)) [] = Node (Bits (bytes h b n)) []).
Proof. eapply decides_iff; [apply decides_eqb|]. rewrite ld_bytes. split; [by intros ->|by intros [= ->]]. Qed.

Lemma decides_bits a b sz v u : bits_value h a sz = Some v -> bits_value h b sz = Some u -> decides (bits_equal h a b sz) (v = u).
Proof.
  unfold bits_value, bits_equal. destruct (_ <? _); [|done]. intros [= <-] [= <-].
  eapply decides_iff; [apply decides_bool|]. split; [by intros ->|by intros [= ->]].
Qed.

Lemma mask_xor x y m : Z.land (Z.lxor x y) m = 0 <-> Z.land x m = Z.land y m.
Proof.
  rewrite <- (Z.lxor_eq_0_iff (Z.land x m)). enough (Z.land (Z.lxor x y) m = Z.lxor (Z.land x m) (Z.land y m)) as -> by done.
  apply Z.bits_inj'. intros i _. rewrite !Z.land_spec, !Z.lxor_spec, !Z.land_spec. destruct (Z.testbit x i), (Z.testbit y i), (Z.testbit m i); reflexivity.
Qed.

Lemma decides_primitive a b dt v u : primitive_value h a dt = Some v -> primitive_value h b dt = Some u -> decides (primitive_bits_equal h a b dt) (v = u).
Proof.
  unfold primitive_value, primitive_bits_equal. destruct (jl_datatype_size h dt) as [sz|]; [|done]. cbn [mbind option_bind].
  destruct (sz =? 0) eqn:E0; [intros [= <-] [= <-]; by apply decides_true|]. destruct (last_byte_mask h dt) as [m|]; [|done]. cbn [mbind option_bind].
  destruct (sz <? 2 ^ 31) eqn:E31; [|done]. intros [= <-] [= <-]. apply Z.ltb_lt in E31.
  eapply decides_iff; [apply (decides_and _ _ (bytes h a (Z.to_nat (sz - 1)) = bytes h b (Z.to_nat (sz - 1))) (Z.land (ld h 1 (a + (sz - 1))) m = Z.land (ld h 1 (b + (sz - 1))) m))|].
  - destruct (sz <=? 1) eqn:E1; [apply Z.leb_le in E1; apply decides_true; by rewrite (Z2Nat.nonpos (sz - 1)) by lia|].
    unfold bits_equal. rewrite (proj2 (Z.ltb_lt _ _)) by lia. apply decides_bool.
  - intros _. eapply decides_iff; [apply decides_eqb|apply mask_xor].
  - split; [by intros [-> ->]|]. intros [= E]. by apply app_inj_2 in E as [? [= ?]].
Qed.
End Decide.

(** ** One step of the calls *)

Ltac bind_some :=
  repeat (match goal with
  | |- (?o ≫= _) = Some _ -> _ => let E := fresh "E" in destruct o eqn:E; [|done]; cbn [mbind option_bind]
  | |- Some _ = Some _ -> _ => intros [= <-]
  end).

Section Step.
Context (h : heap) (egal : Z -> Z -> option bool) (fields : Z -> Z -> Z -> option bool) (types : Z -> Z -> list (Z * Z) -> bool -> option bool).
Context (vobj : Z -> option value) (vfields : Z -> Z -> option value) (vtype : Z -> option value).
Context (Hobj : forall a b v u, vobj a = Some v -> vobj b = Some u -> decides (egal a b) (v = u)).
Context (Hfields : forall a b dt v u, vfields a dt = Some v -> vfields b dt = Some u -> decides (fields a b dt) (v = u)).
Context (Htype : forall a b names v u, vtype a = Some v -> vtype b = Some u -> decides (types a b [] names) (v = u)).

Lemma decides_elems (la lb : Z) c f g xs ys : (forall i x y, f i = Some x -> g i = Some y -> decides (c i) (x = y)) -> 0 <= la -> 0 <= lb ->
  elems_from f (Z.to_nat la) 0 = Some xs -> elems_from g (Z.to_nat lb) 0 = Some ys ->
  decides (if negb (la =? lb) then Some false else all_from c (Z.to_nat la) 0) (xs = ys).
Proof using.
  intros Hc H1 H2 Hx Hy. destruct (Z.eqb_spec la lb) as [->|Hne]; [by eapply decides_all|]. apply decides_false. intros ->.
  apply elems_from_length in Hx, Hy. lia.
Qed.

Lemma decides_svec a b xs ys : svec_value h vobj a = Some xs -> svec_value h vobj b = Some ys -> decides (compare_svec h egal a b) (xs = ys).
Proof using Hobj.
  intros Hx Hy. unfold compare_svec. eapply decides_elems; [|apply ldp_nonneg..|exact Hx|exact Hy].
  cbn beta. intros i x y. bind_some. intros Hvx. bind_some. intros Hvy. by eapply Hobj.
Qed.

Lemma decides_inline a b ft v u : inline_value h vfields a ft = Some v -> inline_value h vfields b ft = Some u -> decides (compare_inline h fields a b ft) (v = u).
Proof using Hfields.
  unfold inline_value, compare_inline. destruct (layout_bits h ft) as [[hp be]|]; [|done]. cbn [mbind option_bind]. destruct (negb hp && be).
  - destruct (own_layout h ft) as [l|]; [|done]. cbn [mbind option_bind]. destruct (l_size l) as [sz|]; [|done]. cbn [mbind option_bind]. apply decides_bits.
  - destruct (jl_datatype_nfields h ft) as [nf|]; [|done]. cbn [mbind option_bind]. destruct (nf =? 0); [apply decides_primitive|apply Hfields].
Qed.

Lemma inline_label a ft v : (forall v, vfields a ft = Some v -> exists vs, v = Node Fields vs) -> inline_value h vfields a ft = Some v -> v <> Node Undef [].
Proof using.
  intros Hf. unfold inline_value. bind_some. destruct p as [hp be]. destruct (negb hp && be).
  - bind_some. unfold bits_value. destruct (_ <? _); [|done]. by intros [= <-].
  - bind_some. destruct (_ =? 0).
    + unfold primitive_value. bind_some. destruct (_ =? 0); [by intros [= <-]|]. bind_some. destruct (_ <? _); [|done]. by intros [= <-].
    + intros Hv. by destruct (Hf _ Hv) as [vs ->].
Qed.

Context (Hlabel : forall a dt v, vfields a dt = Some v -> exists vs, v = Node Fields vs).

Lemma decides_field a b dt f v u : field_value h vfields a dt f = Some v -> field_value h vfields b dt f = Some u ->
  decides (compare_field h fields a b dt f) (v = u).
Proof using Hfields Hlabel.
  unfold field_value, compare_field. destruct (jl_datatype_layout h dt) as [ly|]; [|done]. cbn [mbind option_bind].
  destruct (jl_field_offset ly f) as [offs|]; [|done]. cbn [mbind option_bind]. destruct (jl_field_isptr ly f) as [p|]; [|done]. cbn [mbind option_bind].
  destruct p; [intros [= <-] [= <-]; by apply decides_true|]. destruct (jl_field_type_concrete h dt f) as [ft|]; [|done]. cbn [mbind option_bind].
  generalize (jl_nth_union_component h ft). intros nth. destruct (jl_is_uniontype h ft).
  - destruct (jl_field_size ly f) as [sz|]; [|done]. cbn [mbind option_bind].
    destruct (Z.eqb_spec (ld h 1 (a + offs + u32 (sz - 1))) (ld h 1 (b + offs + u32 (sz - 1)))) as [->|Hne]; cbn [negb].
    + destruct (nth _) as [c|]; [|done]. cbn [mbind option_bind]. bind_some.
      eapply decides_iff; [by eapply decides_inline|]. split; [by intros ->|by intros [= ->]].
    + bind_some. apply decides_false. by intros [= ?].
  - destruct (own_layout h ft) as [l|]; [|done]. cbn [mbind option_bind]. destruct (l_first_ptr l) as [idx|]; [|done]. cbn [mbind option_bind].
    destruct (0 <=? idx); cbn [andb]; [|apply decides_inline].
    destruct (ldp h (a + offs + 8 * idx) =? 0), (ldp h (b + offs + 8 * idx) =? 0); cbn [Bool.eqb negb].
    + intros [= <-] [= <-]. by apply decides_true.
    + intros [= <-] Hu. apply decides_false. intros <-. exact (inline_label _ _ _ (fun v => Hlabel _ _ v) Hu eq_refl).
    + intros Hv [= <-]. apply decides_false. intros ->. exact (inline_label _ _ _ (fun v => Hlabel _ _ v) Hv eq_refl).
    + apply decides_inline.
Qed.

Context (Htyped : forall a v, vobj a = Some v -> v <> Node Null []) (Hnull : forall a v, vtype a = Some v -> v <> Node Null []).

Lemma decides_pointer a b dt p v u : pointer_value h vobj a dt p = Some v -> pointer_value h vobj b dt p = Some u ->
  decides (compare_pointer h egal a b dt p) (v = u).
Proof using Hobj Htyped.
  unfold pointer_value, compare_pointer. destruct (own_layout h dt) as [l|]; [|done]. cbn [mbind option_bind].
  destruct (jl_ptr_offset l p) as [offs|]; [|done]. cbn [mbind option_bind].
  destruct (Z.eqb_spec (ldp h (a + 8 * offs)) (ldp h (b + 8 * offs))) as [->|Hne]; [intros -> [= ->]; by apply decides_true|].
  destruct (Z.eqb_spec (ldp h (a + 8 * offs)) 0) as [Ea|Ea], (Z.eqb_spec (ldp h (b + 8 * offs)) 0) as [Eb|Eb]; cbn [orb]; [congruence|..|by apply Hobj].
  - intros [= <-] Hu. apply decides_false. intros <-. exact (Htyped _ _ Hu eq_refl).
  - intros Hv [= <-]. apply decides_false. intros ->. exact (Htyped _ _ Hv eq_refl).
Qed.

Lemma decides_fields a b dt v u : fields_value h vobj vfields a dt = Some v -> fields_value h vobj vfields b dt = Some u ->
  decides (compare_fields h egal fields a b dt) (v = u).
Proof using Hobj Hfields Hlabel Htyped.
  unfold fields_value, compare_fields. destruct (jl_datatype_nfields h dt) as [nf|]; [|done]. cbn [mbind option_bind].
  destruct (own_layout h dt) as [l|]; [|done]. cbn [mbind option_bind]. destruct (l_npointers l) as [np|]; [|done]. cbn [mbind option_bind].
  bind_some.
  eapply decides_iff; [apply decides_and|].
  - exact (decides_all _ _ _ _ _ _ _ (decides_field a b dt) E E1).
  - intros _. exact (decides_all _ _ _ _ _ _ _ (decides_pointer a b dt) E0 E2).
  - split; [by intros [-> ->]|by intros [= -> ->]].
Qed.

Lemma decides_struct a b dt v u : struct_value h vobj vfields a dt = Some v -> struct_value h vobj vfields b dt = Some u ->
  decides (jl_egal__bits h egal fields a b dt) (v = u).
Proof using Hobj Hfields Hlabel Htyped.
  unfold struct_value, jl_egal__bits. destruct (jl_datatype_size h dt) as [sz|]; [|done]. cbn [mbind option_bind].
  destruct (sz =? 0); [intros [= <-] [= <-]; by apply decides_true|]. destruct (jl_datatype_nfields h dt) as [nf|]; [|done]. cbn [mbind option_bind].
  destruct (layout_bits h dt) as [[hp be]|]; [|done]. cbn [mbind option_bind]. destruct (nf =? 0); [destruct hp; [apply decides_primitive|apply decides_bits]|].
  destruct (negb hp && be); [apply decides_bits|apply decides_fields].
Qed.

Lemma node_eq l xs ys : Node l xs = Node l ys <-> xs = ys.
Proof using. split; [by intros [= ->]|by intros ->]. Qed.
Lemma identity_ne a b : a <> b -> ~ Node (Identity a) [] = Node (Identity b) [].
Proof using. intros H [= ?]. done. Qed.

Lemma decides_datatypes a b v u : a <> b ->
  (if negb (dt_name h a =? jl_tuple_typename h) && dt_isconcretetype h a then Some (Node (Identity a) []) else
   l ← svec_value h vobj (dt_parameters h a); Some (Node (Name (dt_name h a)) l)) = Some v ->
  (if negb (dt_name h b =? jl_tuple_typename h) && dt_isconcretetype h b then Some (Node (Identity b) []) else
   l ← svec_value h vobj (dt_parameters h b); Some (Node (Name (dt_name h b)) l)) = Some u ->
  decides (egal_datatypes h egal a b) (v = u).
Proof using Hobj.
  intros Hne. unfold egal_datatypes. destruct (Z.eqb_spec (dt_name h a) (dt_name h b)) as [->|Hn]; cbn [negb].
  - destruct (negb _); cbn [andb]; [destruct (dt_isconcretetype h a), (dt_isconcretetype h b); cbn [orb]|].
    1-3: bind_some; apply decides_false; first [by apply identity_ne|by intros [=]].
    all: bind_some; eapply decides_iff; [by apply decides_svec|by rewrite node_eq].
  - destruct (_ && _), (_ && _); bind_some; apply decides_false; first [by apply identity_ne|by intros [=]].
Qed.

Lemma decides_string a b : let l := jl_string_len h a in
  decides (if negb (jl_string_len h b =? l) then Some false
           else Some (bool_decide (bytes h (jl_string_data a) (Z.to_nat l) = bytes h (jl_string_data b) (Z.to_nat l))))
    (Node (Bits (bytes h (jl_string_data a) (Z.to_nat l))) [] = Node (Bits (bytes h (jl_string_data b) (Z.to_nat (jl_string_len h b)))) []).
Proof using.
  cbv zeta. destruct (Z.eqb_spec (jl_string_len h b) (jl_string_len h a)) as [->|Hne]; cbn [negb].
  - eapply decides_iff; [apply decides_bool|]. split; [by intros ->|by intros [= ->]].
  - apply decides_false. intros [= E]. apply (f_equal length) in E. rewrite !bytes_length in E. apply Hne.
    pose proof (ldp_nonneg h a). pose proof (ldp_nonneg h b). unfold jl_string_len in *. lia.
Qed.

Lemma decides_content a b v u : a <> b -> jl_typetagof h a = jl_typetagof h b ->
  content_value h vobj vfields vtype a = Some v -> content_value h vobj vfields vtype b = Some u ->
  decides (jl_egal__bitstag h egal fields types a b (jl_typetagof h a)) (v = u).
Proof using Hobj Hfields Htype Hlabel Htyped.
  intros Hne Et. unfold content_value, jl_egal__bitstag, word_tags, node_tag. rewrite <- Et. destruct (_ <? _); [|apply decides_struct].
  set (t := Z.shiftr _ 4). do 4 (destruct (bool_decide _); [intros [= <-] [= <-]; apply decides_ld|]).
  destruct (_ || _); [apply decides_fields|]. destruct (bool_decide _); [apply Htype|].
  destruct (bool_decide _); [intros [= <-] [= <-]; apply decides_false; by apply identity_ne|].
  destruct (t =? _); [bind_some; eapply decides_iff; [by apply decides_svec|by rewrite node_eq]|].
  destruct (t =? _); [intros [= <-] [= <-]; apply decides_string|]. destruct (t =? _); [by apply decides_datatypes|done].
Qed.

Lemma decides_typed d v u r : decides r (v = u) -> decides r (Node (Typed d) [v] = Node (Typed d) [u]).
Proof using. intros H. eapply decides_iff; [exact H|]. rewrite node_eq. split; congruence. Qed.

Lemma unboxed_small a b dtag : dtag < 1024 -> jl_egal__unboxed_ h egal fields types a b dtag = jl_egal__bitstag h egal fields types a b dtag.
Proof using.
  intros Hd. unfold jl_egal__unboxed_. change (Z.shiftl jl_max_tags 4) with 1024. rewrite (proj2 (Z.ltb_lt _ _) Hd).
  destruct (_ || _) eqn:E; [|done]. apply orb_true_iff in E as [[E|E]%orb_true_iff|E]; apply Z.eqb_eq in E as ->; reflexivity.
Qed.

Lemma decides_obj a b v u : obj_value h vobj vfields vtype a = Some v -> obj_value h vobj vfields vtype b = Some u ->
  decides (jl_egal_ h egal fields types a b) (v = u).
Proof using Hobj Hfields Htype Hlabel Htyped.
  unfold jl_egal_. destruct (Z.eqb_spec a b) as [->|Hne]; [intros -> [= ->]; by apply decides_true|]. unfold obj_value. destruct (a =? 0); [done|]. destruct (b =? 0); [by bind_some|].
  destruct (Z.eqb_spec (jl_typetagof h a) (jl_typetagof h b)) as [Et|Ht]; cbn [negb]; [rewrite <- Et|bind_some; apply decides_false; by intros [= ? _]].
  change (Z.shiftl jl_max_tags 4) with 1024. destruct (Z.ltb_spec (jl_typetagof h a) 1024) as [Hd|Hd]; cbn [negb andb].
  - bind_some. rewrite unboxed_small by done. by apply decides_typed, decides_content.
  - unfold jl_egal__unboxed_. change (Z.shiftl jl_max_tags 4) with 1024. rewrite (proj2 (Z.ltb_ge _ _) Hd).
    destruct (tn_mutabl h _); [cbn [mbind option_bind]; bind_some; apply decides_false; by intros [= ?]|]. bind_some. by apply decides_typed, decides_content.
Qed.

Lemma typed_some d o w : (v ← o; Some (Node (Typed d) [v])) = Some w -> exists v, o = Some v /\ w = Node (Typed d) [v].
Proof using. destruct o as [v|]; [|done]. intros [= <-]. by exists v. Qed.

Lemma decides_pair a b names v1 u1 v2 u2 (r : option bool) : vtype a = Some v1 -> vtype b = Some u1 -> decides r (v2 = u2) ->
  decides (and_then (types a b [] names) r) (Node List [v1; v2] = Node List [u1; u2]).
Proof using Htype.
  intros H1 H2 Hr. rewrite node_eq. eapply decides_iff; [apply decides_and; [by eapply Htype|by intros _]|]. split; [by intros [-> ->]|by intros [= -> ->]].
Qed.

Lemma decides_type a b names v u : type_value h vobj vfields vtype a = Some v -> type_value h vobj vfields vtype b = Some u ->
  decides (egal_types h egal fields types a b [] names) (v = u).
Proof using Hobj Hfields Htype Hlabel Htyped Hnull.
  unfold egal_types. destruct (Z.eqb_spec a b) as [->|Hne]; [intros -> [= ->]; by apply decides_true|]. unfold type_value. destruct (a =? 0); [done|]. destruct (b =? 0); [done|].
  intros (v' & Hv & ->)%typed_some (u' & Hu & ->)%typed_some.
  destruct (Z.eqb_spec (jl_typetagof h a) (jl_typetagof h b)) as [Et|Ht]; cbn [negb]; [|apply decides_false; by intros [= ? _]].
  rewrite <- Et in *. apply decides_typed. revert v' u' Hv Hu. set (d := jl_typetagof h a). intros v u. destruct (d =? _).
  { bind_some. destruct (Z.eqb_spec (dt_name h a) (dt_name h b)) as [->|Hn]; cbn [negb]; [|apply decides_false; by intros [= ? _]].
    rewrite node_eq, (Z.eqb_sym (jl_nparams h b)). eapply decides_elems; [|apply ldp_nonneg..|exact E|exact E0].
    cbn beta. intros i x y. bind_some. intros Hvx. bind_some. intros Hvy. by eapply Htype. }
  destruct (d =? _); [bind_some; cbn [env_lookup]; apply decides_false; by apply identity_ne|]. destruct (d =? _); [done|].
  destruct (d =? _); [bind_some; eapply decides_pair; [done..|by eapply Htype]|].
  assert (forall v u ns, (x ← vtype (typeeq_T h a); Some (Node List [x])) = Some v -> (x ← vtype (typeeq_T h b); Some (Node List [x])) = Some u ->
    decides (types (typeeq_T h a) (typeeq_T h b) [] ns) (v = u)) as HT.
  { intros ? ? ns. bind_some. rewrite node_eq. eapply decides_iff; [by eapply Htype|]. split; [by intros ->|by intros [= ->]]. }
  destruct (d =? _); cbn [orb]; [apply HT|]. destruct (d =? _); [apply HT|].
  destruct (d =? _).
  { bind_some. eapply decides_pair; [done..|]. match goal with H : (if vararg_N h a =? 0 then _ else _) = _, K : (if vararg_N h b =? 0 then _ else _) = _ |- _ => revert H K end.
    destruct (vararg_N h a =? 0), (vararg_N h b =? 0); cbn [negb andb]; [| | |apply Htype].
    - intros [= <-] [= <-]. by apply decides_true.
    - intros [= <-] H. apply decides_false. intros <-. by eapply Hnull.
    - intros H [= <-]. apply decides_false. intros ->. by eapply Hnull. }
  assert (jl_typeof h b = jl_typeof h a) as -> by (unfold jl_typeof; by rewrite Et). destruct (_ || _); [|done]. intros Hv Hu. by apply decides_content.
Qed.
End Step.

Lemma run_label h n a dt v : run_value h n (V_fields a dt) = Some v -> exists vs, v = Node Fields vs.
Proof. destruct n; [done|]. cbn [run_value]. unfold fields_value. bind_some. by eexists. Qed.
Lemma run_obj_label h n a v : run_value h n (V_obj a) = Some v -> v <> Node Null [].
Proof. destruct n; [done|]. cbn [run_value]. unfold obj_value. destruct (_ =? _); [done|]. by intros (? & _ & ->)%typed_some. Qed.
Lemma run_type_label h n a v : run_value h n (V_type a) = Some v -> v <> Node Null [].
Proof. destruct n; [done|]. cbn [run_value]. unfold type_value. destruct (_ =? _); [done|]. by intros (? & _ & ->)%typed_some. Qed.

(** The three functions compare the values of objects, of the fields of an
    object, and of types. *)
Lemma run_decides h n :
  (forall a b v u, run_value h n (V_obj a) = Some v -> run_value h n (V_obj b) = Some u -> decides (run_egal h n (C_egal a b)) (v = u)) /\
  (forall a b dt v u, run_value h n (V_fields a dt) = Some v -> run_value h n (V_fields b dt) = Some u -> decides (run_egal h n (C_fields a b dt)) (v = u)) /\
  (forall a b names v u, run_value h n (V_type a) = Some v -> run_value h n (V_type b) = Some u -> decides (run_egal h n (C_types a b [] names)) (v = u)).
Proof.
  induction n as [|n (IH1 & IH2 & IH3)]; [done|]. cbn [run_value run_egal]. split_and!; intros *.
  - by apply decides_obj; [apply IH1|apply IH2|apply IH3|apply run_label|apply run_obj_label].
  - by apply decides_fields; [apply IH1|apply IH2|apply run_label|apply run_obj_label].
  - by apply decides_type; [apply IH1|apply IH2|apply IH3|apply run_label|apply run_obj_label|apply run_type_label].
Qed.

(** ** More fuel gives the same value *)

Definition extends {A} (f g : A -> option value) : Prop := forall x v, f x = Some v -> g x = Some v.
Lemma bind_mono {A B} (o o' : option A) (k k' : A -> option B) w : (forall x, o = Some x -> o' = Some x) -> (forall x, k x = Some w -> k' x = Some w) ->
  o ≫= k = Some w -> o' ≫= k' = Some w.
Proof. intros Ho Hk. destruct o as [x|]; [|done]. rewrite (Ho x eq_refl). apply Hk. Qed.
Lemma elems_mono f g n i xs : extends f g -> elems_from f n i = Some xs -> elems_from g n i = Some xs.
Proof.
  intros H. revert i xs. induction n as [|n IH]; intros i xs; cbn [elems_from]; [done|]. apply bind_mono; [apply H|]. intros x. by apply bind_mono; [apply IH|].
Qed.

(** Goals [f.. = Some v -> g.. = Some v] where [g] extends [f]. *)
Ltac mono :=
  repeat match goal with
  | |- ?x = Some _ -> ?x = Some _ => done
  | |- (_ ≫= _) = Some _ -> (_ ≫= _) = Some _ => apply bind_mono; intros ?
  | |- context [match ?p with pair _ _ => _ end] => destruct p
  | |- elems_from _ _ _ = Some _ -> elems_from _ _ _ = Some _ => apply elems_mono; intros ? ?
  | |- (if ?b then _ else _) = Some _ -> (if ?b then _ else _) = Some _ => destruct b
  | H : extends ?f ?g |- ?f _ = Some _ -> ?g _ = Some _ => apply H
  end.

Section Mono.
Context (h : heap) (obj obj' : Z -> option value) (fields fields' : Z -> Z -> option value) (type type' : Z -> option value).
Context (Ho : extends obj obj') (Hf : forall a dt v, fields a dt = Some v -> fields' a dt = Some v) (Ht : extends type type').

Lemma inline_mono a ft v : inline_value h fields a ft = Some v -> inline_value h fields' a ft = Some v.
Proof using Hf. unfold inline_value. mono; apply Hf. Qed.
Lemma fields_mono a dt v : fields_value h obj fields a dt = Some v -> fields_value h obj' fields' a dt = Some v.
Proof using Hf Ho.
  unfold fields_value, field_value, pointer_value. mono; apply inline_mono.
Qed.
Lemma svec_mono a l : svec_value h obj a = Some l -> svec_value h obj' a = Some l.
Proof using Ho. unfold svec_value. mono. Qed.
Lemma content_mono a v : content_value h obj fields type a = Some v -> content_value h obj' fields' type' a = Some v.
Proof using Hf Ho Ht.
  unfold content_value, struct_value. cbv zeta. mono; first [apply fields_mono|apply svec_mono].
Qed.
Lemma obj_mono a v : obj_value h obj fields type a = Some v -> obj_value h obj' fields' type' a = Some v.
Proof using Hf Ho Ht. unfold obj_value. cbv zeta. mono; by apply content_mono. Qed.
Lemma type_mono a v : type_value h obj fields type a = Some v -> type_value h obj' fields' type' a = Some v.
Proof using Hf Ho Ht. unfold type_value. cbv zeta. mono; by apply content_mono. Qed.
End Mono.

Lemma run_value_mono h n m c v : (n <= m)%nat -> run_value h n c = Some v -> run_value h m c = Some v.
Proof.
  revert m c v. induction n as [|n IH]; intros m c v Hm; [done|]. destruct m as [|m]; [lia|]. cbn [run_value].
  destruct c; [apply obj_mono|apply fields_mono|apply type_mono]; unfold extends; intros *; apply IH; lia.
Qed.
