(* ===== verification/EgalCorrect.v ===== *)
(** * Egality: an equivalence that object ids respect *)
From stdpp Require Import sets.
From S2P Require ObjectId.
From S2P Require Import Prelude Hashing Layout Egal EgalFacts.

(** ** What the runtime keeps true of types *)

Section Heap.
Context (h : heap).

(** A component of an inline union, or the type of an inline field, at [offs]. *)
Definition inline_ok (offs sz ft : Z) (component : bool) : Prop :=
  ft <> small_typeof h jl_unionall_tag /\
  forall l, own_layout h ft = Some l ->
    (forall s, l_size l = Some s -> 0 <= s /\ offs + s <= sz) /\
    (forall p, l_first_ptr l = Some p -> if component then p < 0 else 0 <= p -> offs + 8 * p + 8 <= sz).
(** The layout [l] of [dt], of size [sz]: fields are inside, pointers are in the
    pointer table, and only padding hides bits. *)
Record type_ok (dt : Z) (l : list Z) (sz : Z) : Prop := {
  tk_unused flags : l_flags l = Some flags -> flag_haspadding flags = false -> flag_unused_bits flags = 0;
  tk_pointers f offs : 0 <= f -> jl_field_offset l f = Some offs -> jl_field_isptr l f = Some true ->
    0 <= offs /\ offs + 8 <= sz /\ exists np p, l_npointers l = Some np /\ 0 <= p < np /\ jl_ptr_offset l p = Some (offs / 8) /\ 8 * (offs / 8) = offs;
  tk_inline f offs ft : 0 <= f -> jl_field_offset l f = Some offs -> jl_field_isptr l f = Some false -> jl_field_type_concrete h dt f = Some ft ->
    0 <= offs /\
    if jl_is_uniontype h ft then
      (forall s, jl_field_size l f = Some s -> offs + u32 (s - 1) < sz) /\
      (forall sel c, jl_nth_union_component h ft sel = Some c -> inline_ok offs sz c true)
    else inline_ok offs sz ft false;
}.

(** A kind of type objects with [k] pointers. *)
Definition kind_layout (dt k : Z) : Prop :=
  exists l flags, own_layout h dt = Some l /\ jl_datatype_layout h dt = Some l /\ l_size l = Some (8 * k) /\ l_nfields l = Some k /\ l_npointers l = Some k /\
    l_flags l = Some flags /\ forall i, 0 <= i < k -> jl_field_offset l i = Some (8 * i) /\ jl_field_isptr l i = Some true.

(** The small types, by tag: the width of those that are compared as bits, and
    which are mutable. *)
Definition width (t : Z) : option Z :=
  if bool_decide (t ∈ [jl_int8_tag; jl_uint8_tag; jl_addrspacecore_tag]) then Some 1 else
  if bool_decide (t ∈ [jl_int16_tag; jl_uint16_tag]) then Some 2 else
  if bool_decide (t ∈ [jl_int32_tag; jl_uint32_tag; jl_char_tag; jl_intrinsic_tag]) then Some 4 else
  if bool_decide (t ∈ word_tags) then Some 8 else None.
Definition small_mutabl (t : Z) : bool := tn_mutabl h (dt_name h (small_typeof h t)).

Record heap_ok : Prop := {
  ho_type dt l sz : jl_datatype_layout h dt = Some l -> l_size l = Some sz -> type_ok dt l sz;
  ho_width t w : width t = Some w -> small_mutabl t = false /\ small_typeof h t <> small_typeof h jl_unionall_tag /\
    forall sz, jl_datatype_size h (small_typeof h t) = Some sz -> 0 <= sz <= w;
  ho_node t : node_tag t = true -> small_mutabl t = false /\ small_typeof h t <> small_typeof h jl_unionall_tag /\
    (forall l, own_layout h (small_typeof h t) = Some l -> l_npointers l <> Some 0) /\ jl_datatype_nfields h (small_typeof h t) <> Some 0;
  ho_mutabl : small_mutabl jl_string_tag = true /\ small_mutabl jl_simplevector_tag = true /\ small_mutabl jl_datatype_tag = true /\
    NoDup [small_typeof h jl_string_tag; small_typeof h jl_simplevector_tag; small_typeof h jl_datatype_tag];
  ho_kinds : kind_layout (small_typeof h jl_uniontype_tag) 2 /\ kind_layout (small_typeof h jl_typeeq_tag) 1 /\ kind_layout (small_typeof h jl_typeegal_tag) 1 /\
    kind_layout (small_typeof h jl_vararg_tag) 2;
  ho_kinds_distinct t : t = jl_typeeq_tag \/ t = jl_typeegal_tag -> small_mutabl t = false /\ small_typeof h t <> small_typeof h jl_unionall_tag;
  ho_typename : 1024 <= jl_typename_type h /\ tn_mutabl h (dt_name h (jl_typename_type h)) = true;
  ho_tag v : jl_typetagof h v <> small_typeof h jl_unionall_tag;
  (* [Type], [Union] and [Vararg] are about types *)
  ho_typeeq v : is_tag h jl_typeeq_tag v = true \/ is_tag h jl_typeegal_tag v = true -> is_tag h jl_vararg_tag (typeeq_T h v) = false;
  ho_union v : is_tag h jl_uniontype_tag v = true -> is_tag h jl_vararg_tag (uniontype_a h v) = false /\ is_tag h jl_vararg_tag (uniontype_b h v) = false;
  ho_vararg v : is_tag h jl_vararg_tag v = true -> is_tag h jl_vararg_tag (vararg_T h v) = false /\ (vararg_N h v <> 0 -> is_tag h jl_vararg_tag (vararg_N h v) = false);
  (* data types of one value have one hash, which may be 0 (typekey_hash in jltypes.c computes it from the name and the parameters) *)
  ho_hash n a b v : is_tag h jl_datatype_tag a = true -> value_of h n a = Some v -> value_of h n b = Some v -> dt_hash h a = dt_hash h b;
  ho_type_hash n a b v : is_tag h jl_datatype_tag a = true -> run_value h n (V_type a) = Some v -> run_value h n (V_type b) = Some v -> dt_hash h a = dt_hash h b;
  (* and where it is 0, so that the id comes from the parameters, no [Vararg] is without an element type *)
  ho_hashless a i x : is_tag h jl_datatype_tag a = true -> dt_hash h a = 0 -> jl_tparam h a i = Some x -> is_tag h jl_vararg_tag x = true -> vararg_T h x <> 0;
}.
End Heap.

(** ** Reads of equal bytes *)

Section Bytes.
Context (h : heap).

Lemma bytes_sub a sz off k : 0 <= off -> off + Z.of_nat k <= sz -> bytes h (a + off) k = take k (drop (Z.to_nat off) (bytes h a (Z.to_nat sz))).
Proof.
  intros H1 H2. apply list_eq. intros i. unfold bytes. destruct (decide (i < k)%nat) as [Hi|Hi].
  - rewrite lookup_take_lt, lookup_drop, !list_lookup_fmap, !lookup_seq_lt by lia. cbn [fmap option_fmap option_map]. do 3 f_equal. lia.
  - rewrite lookup_take_ge by lia. apply lookup_ge_None. rewrite length_map, length_seq. lia.
Qed.
Lemma bytes_eq_sub a b sz off k : bytes h a (Z.to_nat sz) = bytes h b (Z.to_nat sz) -> 0 <= off -> off + Z.of_nat k <= sz -> bytes h (a + off) k = bytes h (b + off) k.
Proof. intros E H1 H2. by rewrite !(bytes_sub _ sz), E. Qed.
Lemma ld_eq_sub a b sz off k : bytes h a (Z.to_nat sz) = bytes h b (Z.to_nat sz) -> 0 <= off -> off + Z.of_nat k <= sz -> ld h k (a + off) = ld h k (b + off).
Proof. intros. unfold ld. f_equal. by eapply bytes_eq_sub. Qed.

Lemma bytes_snoc a k : bytes h a (S k) = bytes h a k ++ [ld h 1 (a + Z.of_nat k)].
Proof.
  unfold bytes, ld. rewrite seq_S, map_app. cbn [map seq val Nat.add]. do 2 f_equal. unfold bytes. cbn [map seq val]. rewrite Z.mul_0_r, Z.add_0_r. by rewrite Z.add_0_r.
Qed.
Lemma mask_last_bytes a sz m : 0 < sz -> mask_last (bytes h a (Z.to_nat sz)) m = bytes h a (Z.to_nat (sz - 1)) ++ [Z.land (ld h 1 (a + (sz - 1))) m].
Proof.
  intros Hs. replace (Z.to_nat sz) with (S (Z.to_nat (sz - 1))) by lia. rewrite bytes_snoc, Z2Nat.id by lia. unfold mask_last.
  rewrite length_app, bytes_length, Nat.add_sub, alter_app_r_alt by (by rewrite bytes_length). rewrite bytes_length, Nat.sub_diag. done.
Qed.
End Bytes.

(** ** Ids *)

Ltac opt o E := destruct o eqn:E; [|done]; cbn [mbind option_bind].

Section Id.
Context (h : heap) (Hh : heap_ok h).

Lemma layout_own dt l : jl_datatype_layout h dt = Some l -> own_layout h dt = Some l.
Proof using. unfold jl_datatype_layout. destruct (own_layout h dt) as [k|]; [|done]. cbn. destruct (jl_is_layout_opaque k) as [[]|]; [done|by intros [= ->]|done]. Qed.
Lemma size_layout dt sz : jl_datatype_size h dt = Some sz -> exists l, jl_datatype_layout h dt = Some l /\ l_size l = Some sz.
Proof using. unfold jl_datatype_size. destruct (jl_datatype_layout h dt) as [l|]; [|done]. intros E. by exists l. Qed.

Lemma hash_fields_ext obj imm dt a b n f hash : 0 <= f -> (forall g, f <= g < f + Z.of_nat n -> field_id h obj imm dt a g = field_id h obj imm dt b g) ->
  hash_fields h obj imm dt a n f hash = hash_fields h obj imm dt b n f hash.
Proof using.
  revert f hash. induction n as [|n IH]; intros f hash Hf H; [done|]. cbn [hash_fields]. rewrite (H f) by lia.
  destruct (field_id h obj imm dt b f) as [u|]; [|done]. cbn [mbind option_bind]. apply IH; [lia|]. intros g Hg. apply H. lia.
Qed.

(** The id of a field, from what its type determines and the ids of its parts. *)
Lemma field_id_eq (obj : Z -> option Z) imm dt l sz a b f : jl_datatype_layout h dt = Some l -> l_size l = Some sz -> 0 <= f ->
  (forall offs, jl_field_offset l f = Some offs -> jl_field_isptr l f = Some true ->
     (ldp h (a + offs) = 0 <-> ldp h (b + offs) = 0) /\ (ldp h (a + offs) <> 0 -> obj (ldp h (a + offs)) = obj (ldp h (b + offs)))) ->
  (forall offs ft, jl_field_offset l f = Some offs -> jl_field_isptr l f = Some false -> jl_field_type_concrete h dt f = Some ft ->
     if jl_is_uniontype h ft then
       forall s, jl_field_size l f = Some s -> ld h 1 (a + offs + u32 (s - 1)) = ld h 1 (b + offs + u32 (s - 1)) /\
         forall c, jl_nth_union_component h ft (ld h 1 (b + offs + u32 (s - 1))) = Some c -> imm c (a + offs) 0 = imm c (b + offs) 0
     else forall k p, own_layout h ft = Some k -> l_first_ptr k = Some p -> 0 <= p /\ ldp h (a + offs + 8 * p) = 0 /\ ldp h (b + offs + 8 * p) = 0 \/
       (0 <= p -> (ldp h (a + offs + 8 * p) = 0 <-> ldp h (b + offs + 8 * p) = 0)) /\ imm ft (a + offs) 0 = imm ft (b + offs) 0) ->
  field_id h obj imm dt a f = field_id h obj imm dt b f.
Proof using Hh.
  intros El Es Hf Hp Hi. unfold field_id. rewrite El. cbn [mbind option_bind]. opt (jl_field_offset l f) Eo. rename z into offs. opt (jl_field_isptr l f) Ep. destruct b0.
  - destruct (Hp offs) as [H0 Hn]; [done..|]. destruct (Z.eqb_spec (ldp h (a + offs)) 0) as [Ea|Ea], (Z.eqb_spec (ldp h (b + offs)) 0) as [Eb|Eb]; tauto.
  - opt (jl_field_type_concrete h dt f) Et. rename z into ft. specialize (Hi offs ft eq_refl eq_refl eq_refl).
    pose proof (tk_inline _ _ _ _ (ho_type h Hh dt l sz El Es) f offs ft Hf Eo Ep Et) as [_ Ht]. destruct (jl_is_uniontype h ft).
    + opt (jl_field_size l f) Es'. rename z into s. destruct (Hi s eq_refl) as [-> Hc]. destruct Ht as [_ Ht].
      destruct (jl_nth_union_component h ft _) as [c|] eqn:Ec; [|done]. cbn [mbind option_bind]. destruct (_ || _); [done|]. opt (own_layout h c) Ek. opt (l_first_ptr l0) Ei.
      destruct (Ht _ c Ec) as [_ Hk]. destruct (Hk _ Ek) as [_ Hneg]. specialize (Hneg _ Ei). cbn in Hneg.
      rewrite (proj2 (Z.leb_gt _ _)) by done. cbn [andb]. by apply Hc.
    + cbn [mbind option_bind]. destruct (_ || _); [done|]. opt (own_layout h ft) Ek. opt (l_first_ptr l0) Ei. destruct (Hi _ _ eq_refl Ei) as [(H0 & H1 & H2)|[H1 H2]].
      * rewrite (proj2 (Z.leb_le _ _) H0), H1, H2. done.
      * destruct (Z.leb_spec 0 z); cbn [andb]; [|done].
        destruct (Z.eqb_spec (ldp h (a + offs + 8 * z)) 0), (Z.eqb_spec (ldp h (b + offs + 8 * z)) 0); try done; tauto.
Qed.

(** Equal bytes have equal ids. *)
Lemma immut_bits_same m dt a b hash : dt <> small_typeof h jl_unionall_tag ->
  (forall sz, jl_datatype_size h dt = Some sz -> bytes h a (Z.to_nat sz) = bytes h b (Z.to_nat sz)) ->
  run_id h m (I_immut dt a hash) = run_id h m (I_immut dt b hash).
Proof using Hh.
  revert dt a b hash. induction m as [|m IH]; intros dt a b hash Hu Hb; [done|]. cbn [run_id]. unfold immut_id_.
  opt (jl_datatype_size h dt) Es. rename z into sz. specialize (Hb sz eq_refl). destruct (size_layout _ _ Es) as (l & El & Els).
  destruct (sz =? 0); [done|]. opt (jl_datatype_nfields h dt) En. rename z into nf. opt (layout_bits h dt) Eb. destruct p as [hp be]. opt (own_layout h dt) Eo. opt (l_npointers l0) Ep.
  rewrite Hb. destruct (_ || _); [done|]. rewrite (proj2 (Z.eqb_neq _ _) Hu). pose proof (ho_type h Hh dt l sz El Els) as Ht.
  apply hash_fields_ext; [done|]. intros g Hg. apply (field_id_eq _ _ dt l sz); [done|done|lia|..].
  - intros offs Ho Hp. destruct (tk_pointers _ _ _ _ Ht g offs) as (H1 & H2 & _); [lia|done..|]. by rewrite (ld_eq_sub h a b sz offs 8 Hb H1 H2 : ldp h (a + offs) = ldp h (b + offs)).
  - intros offs ft Ho Hp Hft. destruct (tk_inline _ _ _ _ Ht g offs ft) as [H1 H2]; [lia|done..|]. destruct (jl_is_uniontype h ft).
    + intros s Hs. destruct H2 as [H2 H3]. specialize (H2 s Hs). pose proof (uw_range 32 (s - 1) ltac:(lia)) as [H4 _].
      rewrite <- !Z.add_assoc. split; [apply (ld_eq_sub h a b sz); [done|lia|lia]|]. intros c Hc. destruct (H3 _ c Hc) as [H5 H6]. apply IH; [done|].
      intros sz' Hsz'. destruct (size_layout _ _ Hsz') as (k & Hk & Hk'). destruct (H6 k) as [H7 _]; [by apply layout_own|]. specialize (H7 _ Hk'). apply (bytes_eq_sub h a b sz); [done|done|lia].
    + intros k p Hk Hfp. right. destruct H2 as [H5 H6]. destruct (H6 k Hk) as [H7 H8]. specialize (H8 p Hfp). cbn in H8. split.
      * intros Hp0. rewrite <- !Z.add_assoc. by rewrite (ld_eq_sub h a b sz (offs + 8 * p) 8 Hb ltac:(lia) ltac:(specialize (H8 Hp0); lia) : ldp h (a + (offs + 8 * p)) = ldp h (b + (offs + 8 * p))).
      * apply IH; [done|]. intros sz' Hsz'. destruct (size_layout _ _ Hsz') as (k' & Hk' & Hk''). apply layout_own in Hk'. rewrite Hk in Hk'. injection Hk' as <-.
        specialize (H7 _ Hk''). apply (bytes_eq_sub h a b sz); [done|done|lia].
Qed.

Lemma elems_same f g n i xs : elems_from f n i = Some xs -> elems_from g n i = Some xs -> forall j, i <= j < i + Z.of_nat n -> exists x, f j = Some x /\ g j = Some x.
Proof using.
  revert i xs. induction n as [|n IH]; intros i xs; [lia|]. cbn [elems_from]. opt (f i) E1. opt (elems_from f n (i + 1)) E2. intros [= <-].
  opt (g i) E3. opt (elems_from g n (i + 1)) E4. intros [= -> ->] j Hj. destruct (decide (j = i)) as [->|]; [by exists v|].
  eapply IH; [done..|lia].
Qed.

(** The id of an object of type [dt] is not taken from its bytes. *)
Definition not_bits (dt : Z) : Prop :=
  jl_datatype_nfields h dt <> Some 0 /\
  forall hp be l np, layout_bits h dt = Some (hp, be) -> own_layout h dt = Some l -> l_npointers l = Some np -> negb hp && be && (np =? 0) = false.

(** Parts of types that have one value, or are both left out. *)
Definition same_part (n : nat) (x y : Z) : Prop :=
  (x = 0 /\ y = 0) \/ (is_tag h jl_vararg_tag x = false /\ exists v, run_value h n (V_type x) = Some v /\ run_value h n (V_type y) = Some v).

Record same (m : nat) : Prop := {
  s_obj n a b v : run_value h n (V_obj a) = Some v -> run_value h n (V_obj b) = Some v -> run_id h m (I_object a) = run_id h m (I_object b);
  s_type n a b v : run_value h n (V_type a) = Some v -> run_value h n (V_type b) = Some v -> is_tag h jl_vararg_tag a = false ->
    run_id h m (I_object a) = run_id h m (I_object b);
  s_inline n a b ft hash v : ft <> small_typeof h jl_unionall_tag ->
    inline_value h (fun a dt => run_value h n (V_fields a dt)) a ft = Some v -> inline_value h (fun a dt => run_value h n (V_fields a dt)) b ft = Some v ->
    run_id h m (I_immut ft a hash) = run_id h m (I_immut ft b hash);
  s_fields n a b dt hash v : dt <> small_typeof h jl_unionall_tag -> not_bits dt ->
    run_value h n (V_fields a dt) = Some v -> run_value h n (V_fields b dt) = Some v -> run_id h m (I_immut dt a hash) = run_id h m (I_immut dt b hash);
  s_vararg n a b v : run_value h n (V_type a) = Some v -> run_value h n (V_type b) = Some v -> is_tag h jl_vararg_tag a = true -> vararg_T h a <> 0 -> vararg_T h b <> 0 ->
    run_id h m (I_object a) = run_id h m (I_object b);
  s_kind n a b k dt hash : dt <> small_typeof h jl_unionall_tag -> kind_layout h dt k -> 0 < k -> (forall i, 0 <= i < k -> same_part n (ldp h (a + 8 * i)) (ldp h (b + 8 * i))) ->
    run_id h m (I_immut dt a hash) = run_id h m (I_immut dt b hash);
}.

Lemma obj_nonzero n a v : run_value h n (V_obj a) = Some v -> a <> 0.
Proof using. destruct n; [done|]. cbn [run_value]. unfold obj_value. by destruct (Z.eqb_spec a 0). Qed.
Lemma type_nonzero n a v : run_value h n (V_type a) = Some v -> a <> 0.
Proof using. destruct n; [done|]. cbn [run_value]. unfold type_value. by destruct (Z.eqb_spec a 0). Qed.

Lemma immut_fields_eq m dt a b hash : dt <> small_typeof h jl_unionall_tag -> not_bits dt ->
  (forall l sz nf g, jl_datatype_layout h dt = Some l -> l_size l = Some sz -> l_nfields l = Some nf -> 0 <= g < nf ->
     field_id h (fun v => run_id h m (I_object v)) (fun dt v hash => run_id h m (I_immut dt v hash)) dt a g =
     field_id h (fun v => run_id h m (I_object v)) (fun dt v hash => run_id h m (I_immut dt v hash)) dt b g) ->
  run_id h (S m) (I_immut dt a hash) = run_id h (S m) (I_immut dt b hash).
Proof using.
  intros Hu [Hnf Hnb] Hf. cbn [run_id]. unfold immut_id_. opt (jl_datatype_size h dt) Es. destruct (size_layout _ _ Es) as (l & El & Els). destruct (_ =? 0); [done|].
  opt (jl_datatype_nfields h dt) En. rename z0 into nf. opt (layout_bits h dt) Eb. destruct p as [hp be]. opt (own_layout h dt) Eo. opt (l_npointers l0) Ep.
  rewrite (Hnb _ _ _ _ eq_refl eq_refl Ep), orb_false_r. destruct (Z.eqb_spec nf 0) as [->|Hne]; [done|]. rewrite (proj2 (Z.eqb_neq _ _) Hu).
  apply hash_fields_ext; [done|]. intros g Hg. unfold jl_datatype_nfields in En. rewrite El in En. eapply Hf; [done..|lia].
Qed.

Lemma union_same m : same m -> forall n a b u (nth : Z -> option Z) x,
  (c ← nth (ld h 1 (a + u)); v ← inline_value h (fun a dt => run_value h n (V_fields a dt)) a c; Some (Node (Selected (ld h 1 (a + u))) [v])) = Some x ->
  (c ← nth (ld h 1 (b + u)); v ← inline_value h (fun a dt => run_value h n (V_fields a dt)) b c; Some (Node (Selected (ld h 1 (b + u))) [v])) = Some x ->
  (forall sel c, nth sel = Some c -> c <> small_typeof h jl_unionall_tag) ->
  ld h 1 (a + u) = ld h 1 (b + u) /\ forall c, nth (ld h 1 (b + u)) = Some c -> run_id h m (I_immut c a 0) = run_id h m (I_immut c b 0).
Proof using.
  intros Hm n a b u nth x. destruct (nth (ld h 1 (a + u))) as [c|] eqn:Ec; [|done]. cbn [mbind option_bind].
  opt (inline_value h (fun a dt => run_value h n (V_fields a dt)) a c) Ei. intros [= <-]. destruct (nth (ld h 1 (b + u))) as [c'|] eqn:Ec'; [|done]. cbn [mbind option_bind].
  opt (inline_value h (fun a dt => run_value h n (V_fields a dt)) b c') Ei'. intros [= E ->] Hu. rewrite E, Ec in Ec'. injection Ec' as <-.
  split; [done|]. intros ? [= <-]. eapply (s_inline m Hm); [by eapply Hu|done|done].
Qed.

Lemma fields_step m : same m -> forall n a b dt hash v, dt <> small_typeof h jl_unionall_tag -> not_bits dt ->
  run_value h n (V_fields a dt) = Some v -> run_value h n (V_fields b dt) = Some v -> run_id h (S m) (I_immut dt a hash) = run_id h (S m) (I_immut dt b hash).
Proof using Hh.
  intros Hm n a b dt hash v Hu Hnb Ha Hb. destruct n as [|n]; [done|]. apply immut_fields_eq; [done|done|]. intros l sz nf g El Es En Hg.
  pose proof (ho_type h Hh dt l sz El Es) as Ht. pose proof (layout_own _ _ El) as Eo. revert Ha Hb. cbn [run_value]. unfold fields_value, jl_datatype_nfields.
  rewrite El, Eo. cbn [mbind option_bind]. rewrite En. cbn [mbind option_bind]. opt (l_npointers l) Ep. rename z into np.
  opt (elems_from (field_value h (fun a dt => run_value h n (V_fields a dt)) a dt) (Z.to_nat nf) 0) Ea. rename l0 into fs.
  opt (elems_from (pointer_value h (fun a => run_value h n (V_obj a)) a dt) (Z.to_nat np) 0) Epa. rename l0 into ps. intros [= <-].
  opt (elems_from (field_value h (fun a dt => run_value h n (V_fields a dt)) b dt) (Z.to_nat nf) 0) Eb.
  opt (elems_from (pointer_value h (fun a => run_value h n (V_obj a)) b dt) (Z.to_nat np) 0) Epb. intros [= -> ->].
  apply (field_id_eq _ _ dt l sz); [done|done|lia|..].
  - intros offs Ho Hp. destruct (tk_pointers _ _ _ _ Ht g offs) as (_ & _ & np' & p & Hnp' & Hp1 & Hp2 & Hp3); [lia|done..|]. rewrite Ep in Hnp'. injection Hnp' as <-.
    destruct (elems_same _ _ _ _ _ Epa Epb p) as (x & Hx1 & Hx2); [lia|]. revert Hx1 Hx2. unfold pointer_value. rewrite Eo. cbn [mbind option_bind]. rewrite Hp2. cbn [mbind option_bind]. rewrite Hp3.
    destruct (Z.eqb_spec (ldp h (a + offs)) 0) as [E1|E1], (Z.eqb_spec (ldp h (b + offs)) 0) as [E2|E2]; [done| | |].
    + intros [= <-] H. by apply run_obj_label in H.
    + intros H [= <-]. by apply run_obj_label in H.
    + intros H1 H2. split; [done|]. intros _. by eapply (s_obj m Hm).
  - intros offs ft Ho Hp Hft. destruct (elems_same _ _ _ _ _ Ea Eb g) as (x & Hx1 & Hx2); [lia|]. revert Hx1 Hx2. unfold field_value. rewrite El. cbn [mbind option_bind].
    rewrite Ho. cbn [mbind option_bind]. rewrite Hp. cbn [mbind option_bind]. rewrite Hft. cbn [mbind option_bind].
    destruct (tk_inline _ _ _ _ Ht g offs ft) as [_ Hi]; [lia|done..|]. destruct (jl_is_uniontype h ft).
    + destruct Hi as [_ Hi]. destruct (jl_field_size l g) as [s|]; [|done]. cbn [mbind option_bind]. intros Hx1 Hx2 s' [= <-].
      apply (union_same m Hm n _ _ _ (jl_nth_union_component h ft) x Hx1 Hx2). intros sel c Hc. by eapply Hi.
    + intros Hx1 Hx2 k p Hk Hfp. revert Hx1 Hx2. rewrite Hk. cbn [mbind option_bind]. rewrite Hfp. cbn [mbind option_bind].
      assert (forall a, inline_value h (fun a dt => run_value h n (V_fields a dt)) a ft = Some (Node Undef []) -> False) as Hl.
      { intros a' H. refine (inline_label h (fun a dt => run_value h n (V_fields a dt)) a' ft _ _ H eq_refl). intros v Hv. by eapply run_label. }
      destruct (Z.leb_spec 0 p) as [Hp0|Hp0]; cbn [andb].
      * destruct (Z.eqb_spec (ldp h (a + offs + 8 * p)) 0) as [E1|E1], (Z.eqb_spec (ldp h (b + offs + 8 * p)) 0) as [E2|E2]; [by left| | |].
        -- intros [= <-] H. by apply Hl in H.
        -- intros H [= <-]. by apply Hl in H.
        -- intros H1 H2. right. split; [done|]. eapply (s_inline m Hm); [apply Hi|done|done].
      * intros H1 H2. right. split; [lia|]. eapply (s_inline m Hm); [apply Hi|done|done].
Qed.

Lemma primitive_step m dt a b hash v : dt <> small_typeof h jl_unionall_tag -> jl_datatype_nfields h dt = Some 0 ->
  primitive_value h a dt = Some v -> primitive_value h b dt = Some v -> run_id h m (I_immut dt a hash) = run_id h m (I_immut dt b hash).
Proof using Hh.
  intros Hu Hnf. unfold primitive_value. opt (jl_datatype_size h dt) Es. rename z into sz. destruct (size_layout _ _ Es) as (l & El & Els).
  destruct (Z.eqb_spec sz 0) as [->|H0]; [intros _ _; apply immut_bits_same; [done|]; intros sz; rewrite Es; by intros [= <-]|].
  opt (last_byte_mask h dt) Em. rename z into k. destruct (sz <? 2 ^ 31); [|done]. intros [= <-] [= E]. apply app_inj_2 in E as [E1 [= E2]]; [|done]. destruct m as [|m]; [done|].
  cbn [run_id]. unfold immut_id_. rewrite Es, Hnf. cbn [mbind option_bind]. destruct (sz =? 0); [done|]. opt (layout_bits h dt) Eb. destruct p as [hp be].
  opt (own_layout h dt) Eo. opt (l_npointers l0) Ep. cbn [orb andb Z.eqb]. rewrite Em. cbn [mbind option_bind].
  destruct (Z.le_gt_cases sz 0) as [Hn|Hn]; [by replace (Z.to_nat sz) with 0%nat by lia|]. destruct hp; [by rewrite !mask_last_bytes, E1, E2 by lia|].
  replace (Z.to_nat sz) with (S (Z.to_nat (sz - 1))) by lia. rewrite !bytes_snoc, !Z2Nat.id by lia. rewrite E1. do 3 f_equal.
  revert Em Eb. unfold last_byte_mask, jl_datatype_unusedbits, layout_bits. rewrite El, (layout_own _ _ El). cbn [mbind option_bind].
  destruct (l_flags l) as [fl|] eqn:Ef; [|done]. cbn [mbind option_bind]. intros [= <-] [= Ehp _].
  rewrite (tk_unused _ _ _ _ (ho_type h Hh dt l sz El Els) fl Ef Ehp) in E2. change (u8 (Z.shiftr 255 0)) with (2 ^ 8 - 1) in E2.
  rewrite !land_mod in E2 by lia. pose proof (ld_range h (a + (sz - 1)) 1). pose proof (ld_range h (b + (sz - 1)) 1). unfold in_range in *.
  rewrite !Z.mod_small in E2 by done. by rewrite E2.
Qed.

Lemma inline_step m : (forall n a b dt hash v, dt <> small_typeof h jl_unionall_tag -> not_bits dt ->
    run_value h n (V_fields a dt) = Some v -> run_value h n (V_fields b dt) = Some v -> run_id h m (I_immut dt a hash) = run_id h m (I_immut dt b hash)) ->
  forall n a b ft hash v, ft <> small_typeof h jl_unionall_tag ->
    inline_value h (fun a dt => run_value h n (V_fields a dt)) a ft = Some v -> inline_value h (fun a dt => run_value h n (V_fields a dt)) b ft = Some v ->
    run_id h m (I_immut ft a hash) = run_id h m (I_immut ft b hash).
Proof using Hh.
  intros Hf n a b ft hash v Hu. unfold inline_value. destruct (layout_bits h ft) as [[hp be]|] eqn:Eb; [|done]. cbn [mbind option_bind]. destruct (negb hp && be) eqn:Ehb.
  - destruct (own_layout h ft) as [l|] eqn:El; [|done]. cbn [mbind option_bind]. destruct (l_size l) as [s|] eqn:Es; [|done]. cbn [mbind option_bind].
    unfold bits_value. destruct (_ <? _); [|done]. intros [= <-] [= E]. apply immut_bits_same; [done|]. intros sz Hsz.
    destruct (size_layout _ _ Hsz) as (k & Hk & Hks). apply layout_own in Hk. congruence.
  - destruct (jl_datatype_nfields h ft) as [nf|] eqn:En; [|done]. cbn [mbind option_bind]. destruct (Z.eqb_spec nf 0) as [->|Hne].
    + intros Ha Hb. by eapply primitive_step.
    + intros Ha Hb. eapply Hf; [done| |done|done]. split; [congruence|]. intros hp' be' l np E _ _. rewrite Eb in E. injection E as <- <-. by rewrite Ehb.
Qed.

Lemma kind_step m : same m -> forall n a b k dt hash, dt <> small_typeof h jl_unionall_tag -> kind_layout h dt k -> 0 < k ->
    (forall i, 0 <= i < k -> same_part n (ldp h (a + 8 * i)) (ldp h (b + 8 * i))) -> run_id h (S m) (I_immut dt a hash) = run_id h (S m) (I_immut dt b hash).
Proof using Hh.
  intros Hm n a b k dt hash Hu (l & fl & Eo & El & Es & En & Ep & Ef & Hfl) Hk Hi. apply immut_fields_eq; [done| |].
  - unfold not_bits, jl_datatype_nfields. rewrite El. cbn [mbind option_bind]. rewrite En, Eo. split; [intros [= E]; lia|].
    intros hp be ? np _ [= <-]. rewrite Ep. intros [= <-]. rewrite (proj2 (Z.eqb_neq k 0)) by lia. apply andb_false_r.
  - intros l' sz nf g El' Es' En' Hg. rewrite El in El'. injection El' as <-. rewrite En in En'. injection En' as <-. destruct (Hfl g Hg) as [Ho Hp].
    apply (field_id_eq _ _ dt l sz); [done|done|lia|..]; [|intros offs ft _ Hp'; congruence].
    intros offs Ho' _. rewrite Ho in Ho'. injection Ho' as <-. destruct (Hi g Hg) as [[H1 H2]|(Hv & v & H1 & H2)]; [tauto|].
    pose proof (type_nonzero _ _ _ H1). pose proof (type_nonzero _ _ _ H2). split; [tauto|]. intros _. by eapply (s_type m Hm).
Qed.

Lemma typetag_shift v : jl_typetagof h v = Z.shiftl (Z.shiftr (jl_typetagof h v) 4) 4.
Proof using.
  unfold jl_typetagof. pose proof (ld_range h (v - 8) 8) as Hr. apply Z.bits_inj'. intros i Hi. rewrite Z.shiftl_spec by lia.
  destruct (Z.ltb_spec i 4) as [H4|H4].
  - rewrite (Z.testbit_neg_r _ (i - 4)) by lia. rewrite Z.land_spec. replace (Z.testbit (2 ^ 64 - 16) i) with false; [by rewrite andb_false_r|].
    assert (i = 0 \/ i = 1 \/ i = 2 \/ i = 3) as [->|[->|[->| ->]]] by lia; reflexivity.
  - rewrite Z.shiftr_spec by lia. f_equal. lia.
Qed.
Lemma typetag_nonneg v : 0 <= jl_typetagof h v.
Proof using. unfold jl_typetagof. apply Z.land_nonneg. left. apply (ldp_nonneg h (v - 8)). Qed.

(** The tag [t] of an object of a small type. *)
Lemma small_tag v : jl_typetagof h v < 1024 -> exists t, jl_typetagof h v = Z.shiftl t 4 /\ 0 <= t < 64 /\ Z.shiftr (jl_typetagof h v) 4 = t.
Proof using.
  intros Hv. exists (Z.shiftr (jl_typetagof h v) 4). split; [apply typetag_shift|]. split; [|done]. pose proof (typetag_nonneg v).
  rewrite Z.shiftr_div_pow2 by lia. change (2 ^ 4) with 16. split; [apply Z.div_pos; lia|apply Z.div_lt_upper_bound; lia].
Qed.

(** The id of an object that [jl_object_id_] has no shortcut for. *)
Lemma id_cold m v t : jl_typetagof h v = Z.shiftl t 4 -> 0 <= t < 64 -> t <> jl_symbol_tag -> (t = jl_datatype_tag -> dt_hash h v = 0) ->
  run_id h (S m) (I_object v) = jl_object_id__cold h (fun v => run_id h m (I_object v)) (fun dt v hash => run_id h m (I_immut dt v hash)) (Z.shiftl t 4) v.
Proof using Hh.
  intros Et Ht Hs Hd. cbn [run_id]. unfold jl_object_id_. rewrite Et. rewrite !Z.shiftl_mul_pow2 by lia. change (2 ^ 4) with 16.
  destruct (Z.eqb_spec (t * 16) (jl_symbol_tag * 16)); [unfold jl_symbol_tag in *; lia|]. destruct (ho_typename h Hh) as [Htn _].
  destruct (Z.eqb_spec (t * 16) (jl_datatype_tag * 16)) as [E|]; cbn [andb].
  - rewrite Hd by (unfold jl_datatype_tag in *; lia). cbn [Z.eqb negb]. rewrite (proj2 (Z.eqb_neq _ _)) by lia. done.
  - rewrite (proj2 (Z.eqb_neq _ _)) by lia. done.
Qed.
Lemma small_type t : 0 <= t < 64 -> jl_to_typeof h (Z.shiftl t 4) = small_typeof h t.
Proof using.
  intros Ht. unfold jl_to_typeof. rewrite Z.shiftr_shiftl_l, Z.shiftl_0_r by lia. rewrite !Z.shiftl_mul_pow2 by lia. change (jl_max_tags * 2 ^ 4) with 1024. change (2 ^ 4) with 16.
  by rewrite (proj2 (Z.ltb_lt _ _)) by lia.
Qed.
(** An immutable object of a small type. *)
Lemma id_immut m v t : jl_typetagof h v = Z.shiftl t 4 -> 0 <= t < 64 -> t <> jl_symbol_tag -> t <> jl_datatype_tag -> small_mutabl h t = false ->
  run_id h (S m) (I_object v) = run_id h m (I_immut (small_typeof h t) v (dt_hash h (small_typeof h t))).
Proof using Hh.
  intros Et Ht Hs Hd Hm. rewrite (id_cold m v t) by done. unfold jl_object_id__cold. rewrite small_type by done. unfold small_mutabl in Hm. by rewrite Hm.
Qed.

(** The elements of two vectors, by a valuation [f] that ids respect. *)
Lemma hash_elems_eq m (f : Z -> option value) a b k i hash l :
  (forall j x y v, jl_svecref h a j = Some x -> jl_svecref h b j = Some y -> f x = Some v -> f y = Some v -> x <> 0 /\ y <> 0 /\ run_id h m (I_object x) = run_id h m (I_object y)) ->
  elems_from (fun i => x ← jl_svecref h a i; f x) k i = Some l -> elems_from (fun i => x ← jl_svecref h b i; f x) k i = Some l ->
  hash_elems h (fun v => run_id h m (I_object v)) a k i hash = hash_elems h (fun v => run_id h m (I_object v)) b k i hash.
Proof using.
  intros Hf. revert i hash l. induction k as [|k IH]; intros i hash l; [done|]. cbn [elems_from hash_elems].
  opt (jl_svecref h a i) Ea. rename z into x. opt (f x) Ex. opt (elems_from (fun i => x ← jl_svecref h a i; f x) k (i + 1)) El. intros [= <-].
  opt (jl_svecref h b i) Eb. rename z into y. opt (f y) Ey. opt (elems_from (fun i => x ← jl_svecref h b i; f x) k (i + 1)) El'. intros [= -> ->].
  destruct (Hf i x y v Ea Eb Ex Ey) as (H1 & H2 & ->). rewrite (proj2 (Z.eqb_neq _ _) H1), (proj2 (Z.eqb_neq _ _) H2).
  destruct (run_id h m (I_object y)); [|done]. cbn [mbind option_bind]. by eapply IH.
Qed.
Lemma hash_svec_gen m (f : Z -> option value) a b l :
  (forall j x y v, jl_svecref h a j = Some x -> jl_svecref h b j = Some y -> f x = Some v -> f y = Some v -> x <> 0 /\ y <> 0 /\ run_id h m (I_object x) = run_id h m (I_object y)) ->
  elems_from (fun i => x ← jl_svecref h a i; f x) (Z.to_nat (jl_svec_len h a)) 0 = Some l -> elems_from (fun i => x ← jl_svecref h b i; f x) (Z.to_nat (jl_svec_len h b)) 0 = Some l ->
  hash_svec h (fun v => run_id h m (I_object v)) a = hash_svec h (fun v => run_id h m (I_object v)) b.
Proof using.
  intros Hf Ha Hb. unfold hash_svec. assert (Z.to_nat (jl_svec_len h a) = Z.to_nat (jl_svec_len h b)) as E by (apply elems_from_length in Ha, Hb; lia).
  rewrite <- E in *. by eapply hash_elems_eq.
Qed.
Lemma hash_svec_eq m n a b l : same m -> svec_value h (fun v => run_value h n (V_obj v)) a = Some l -> svec_value h (fun v => run_value h n (V_obj v)) b = Some l ->
  hash_svec h (fun v => run_id h m (I_object v)) a = hash_svec h (fun v => run_id h m (I_object v)) b.
Proof using.
  intros Hm. apply hash_svec_gen. intros j x y v _ _ Hx Hy. split; [by eapply obj_nonzero|]. split; [by eapply obj_nonzero|by eapply (s_obj m Hm)].
Qed.

(** Objects with the same type and contents have the same id. *)
Lemma struct_step m : same m -> forall n a b dt hash v, dt <> small_typeof h jl_unionall_tag ->
  struct_value h (fun v => run_value h n (V_obj v)) (fun a dt => run_value h n (V_fields a dt)) a dt = Some v ->
  struct_value h (fun v => run_value h n (V_obj v)) (fun a dt => run_value h n (V_fields a dt)) b dt = Some v ->
  run_id h m (I_immut dt a hash) = run_id h m (I_immut dt b hash).
Proof using Hh.
  intros Hm n a b dt hash v Hu. unfold struct_value. opt (jl_datatype_size h dt) Es. rename z into sz.
  assert (bytes h a (Z.to_nat sz) = bytes h b (Z.to_nat sz) -> run_id h m (I_immut dt a hash) = run_id h m (I_immut dt b hash)) as Hbits.
  { intros E. apply immut_bits_same; [done|]. rewrite Es. by intros ? [= <-]. }
  assert (bits_value h a sz = Some v -> bits_value h b sz = Some v -> run_id h m (I_immut dt a hash) = run_id h m (I_immut dt b hash)) as Hbv.
  { unfold bits_value. destruct (_ <? _); [|done]. intros [= <-] [= E]. by apply Hbits. }
  destruct (Z.eqb_spec sz 0) as [->|Hs]; [intros _ _; by apply Hbits|]. opt (jl_datatype_nfields h dt) En. rename z into nf. opt (layout_bits h dt) Eb. destruct p as [hp be].
  destruct (Z.eqb_spec nf 0) as [->|Hne]; [destruct hp; [by apply primitive_step|done]|]. destruct (negb hp && be) eqn:Ehb; [done|]. intros Ha Hb.
  apply (s_fields m Hm (S n) a b dt hash v); [done| |done|done]. split; [congruence|]. intros hp' be' l np E _ _. rewrite Eb in E. injection E as <- <-. by rewrite Ehb.
Qed.

Lemma id_hash m v : jl_typetagof h v = Z.shiftl jl_datatype_tag 4 -> dt_hash h v <> 0 -> run_id h (S m) (I_object v) = Some (dt_hash h v).
Proof using. intros E H. cbn [run_id]. unfold jl_object_id_. rewrite E. change (Z.shiftl jl_datatype_tag 4 =? Z.shiftl jl_symbol_tag 4) with false. by rewrite Z.eqb_refl, (proj2 (Z.eqb_neq _ _) H). Qed.

(** The ids of the mutable objects that are compared by content. *)
Lemma small_mutable m : let obj v := run_id h m (I_object v) in let cold t := jl_object_id__cold h obj (fun dt v hash => run_id h m (I_immut dt v hash)) (Z.shiftl t 4) in
  (forall v, cold jl_string_tag v = memhash_seed (bytes h (jl_string_data v) (Z.to_nat (jl_string_len h v))) (jl_string_len h v) 0xedc3b677) /\
  (forall v, cold jl_simplevector_tag v = hash_svec h obj v) /\
  (forall v, cold jl_datatype_tag v = u ← hash_svec h obj (dt_parameters h v); Some (bitmix (u64 (Z.lnot (tn_hash h (dt_name h v)))) u)).
Proof using Hh.
  cbv zeta. destruct (ho_mutabl h Hh) as (H1 & H2 & H3 & Hd). unfold small_mutabl in *. apply NoDup_cons in Hd as [Hd1 Hd]. apply NoDup_cons in Hd as [Hd2 _].
  unfold jl_object_id__cold. rewrite !small_type by (unfold jl_string_tag, jl_simplevector_tag, jl_datatype_tag; lia). rewrite H1, H2, H3, !Z.eqb_refl.
  split_and!; intros v; [done|..].
  - rewrite (proj2 (Z.eqb_neq _ _)) by set_solver. done.
  - rewrite (proj2 (Z.eqb_neq _ (small_typeof h jl_string_tag))) by set_solver. rewrite (proj2 (Z.eqb_neq _ (small_typeof h jl_simplevector_tag))) by set_solver. done.
Qed.

Lemma type_tags a t n v : jl_typetagof h a = Z.shiftl t 4 -> t = jl_typeeq_tag \/ t = jl_typeegal_tag -> run_value h (S n) (V_type a) = Some v ->
  exists x, run_value h n (V_type (typeeq_T h a)) = Some x /\ v = Node (Typed (Z.shiftl t 4)) [Node List [x]].
Proof using.
  intros Et Ht. cbn [run_value]. unfold type_value. destruct (a =? 0); [done|]. rewrite Et. intros (w & Hw & ->)%typed_some. revert Hw.
  destruct Ht as [-> | ->]; cbn -[run_value typeeq_T]; opt (run_value h n (V_type (typeeq_T h a))) E; intros [= <-]; by eexists.
Qed.

Lemma typeeq_step m : same m -> forall n a b v t, run_value h n (V_type a) = Some v -> run_value h n (V_type b) = Some v ->
  jl_typetagof h a = Z.shiftl t 4 -> jl_typetagof h b = Z.shiftl t 4 -> t = jl_unionall_tag \/ t = jl_typeeq_tag \/ t = jl_typeegal_tag ->
  run_id h (S m) (I_object a) = run_id h (S m) (I_object b).
Proof using Hh.
  intros Hm n a b v t Ha Hb Ea Eb [->|Ht]; (destruct n as [|n]; [done|]).
  - revert Ha. cbn [run_value]. unfold type_value. destruct (a =? 0); [done|]. rewrite Ea. done.
  - destruct (type_tags _ _ _ _ Ea Ht Ha) as (x & Hx & ->). destruct (type_tags _ _ _ _ Eb Ht Hb) as (y & Hy & [= ->]). destruct (ho_kinds_distinct h Hh t Ht) as [Hi Hu].
    destruct (ho_kinds h Hh) as (_ & Hk1 & Hk2 & _).
    assert (t <> jl_symbol_tag /\ t <> jl_datatype_tag /\ 0 <= t < 64) as (H1 & H2 & H3) by (destruct Ht as [-> | ->]; done).
    rewrite (id_immut m a t), (id_immut m b t) by done. apply (s_kind m Hm n a b 1); [done|by destruct Ht as [-> | ->]|done|]. intros i Hi0. replace i with 0 by lia.
    rewrite Z.mul_0_r, !Z.add_0_r. right. split; [|by exists y]. apply (ho_typeeq h Hh). unfold is_tag. rewrite Ea. destruct Ht as [-> | ->]; [by left|by right].
Qed.

Lemma content_step m : same m -> forall n a b v, a <> 0 -> b <> 0 -> jl_typetagof h a = jl_typetagof h b ->
  (1024 <= jl_typetagof h a -> tn_mutabl h (dt_name h (jl_typetagof h a)) = false) ->
  content_value h (fun v => run_value h n (V_obj v)) (fun a dt => run_value h n (V_fields a dt)) (fun a => run_value h n (V_type a)) a = Some v ->
  content_value h (fun v => run_value h n (V_obj v)) (fun a dt => run_value h n (V_fields a dt)) (fun a => run_value h n (V_type a)) b = Some v ->
  run_id h (S m) (I_object a) = run_id h (S m) (I_object b).
Proof using Hh.
  intros Hm n a b v Ha0 Hb0 Et Hmut Ha Hb. destruct (Z.lt_ge_cases (jl_typetagof h a) 1024) as [Hd|Hd].
  - destruct (small_tag a Hd) as (t & Eta & Ht & Esh). pose proof Et as Etb. rewrite Eta in Etb. symmetry in Etb.
    assert (is_tag h jl_datatype_tag a = (t =? jl_datatype_tag)) as Eis.
    { unfold is_tag. rewrite Eta, !Z.shiftl_mul_pow2 by lia. destruct (Z.eqb_spec t jl_datatype_tag) as [->|]; [apply Z.eqb_refl|apply Z.eqb_neq; lia]. }
    assert (forall a v, a <> 0 -> jl_typetagof h a = Z.shiftl t 4 -> content_value h (fun v => run_value h n (V_obj v)) (fun a dt => run_value h n (V_fields a dt)) (fun a => run_value h n (V_type a)) a = Some v ->
      value_of h (S n) a = Some (Node (Typed (Z.shiftl t 4)) [v])) as Hval.
    { intros a' v' Hne Hta Hc. unfold value_of. cbn [run_value]. unfold obj_value. rewrite (proj2 (Z.eqb_neq _ _) Hne), Hta, <- Eta.
      change (Z.shiftl jl_max_tags 4) with 1024. rewrite (proj2 (Z.ltb_lt _ _) Hd). cbn [negb andb]. by rewrite Hc. }
    pose proof (Hval a v Ha0 Eta Ha) as Hva. pose proof (Hval b v Hb0 Etb Hb) as Hvb. clear Hval.
    assert (t = jl_datatype_tag -> dt_hash h a = dt_hash h b) as Hhash.
    { intros ->. eapply (ho_hash h Hh (S n)); [by rewrite Eis|done|done]. }
    clear Hva Hvb. revert Ha Hb. unfold content_value. rewrite <- Et, Esh, Eta. change (Z.shiftl jl_max_tags 4) with 1024.
    rewrite Eta in Hd. rewrite (proj2 (Z.ltb_lt _ _) Hd).
    assert (forall w, width t = Some w -> bytes h a (Z.to_nat w) = bytes h b (Z.to_nat w) -> run_id h (S m) (I_object a) = run_id h (S m) (I_object b)) as Hw.
    { intros w Hw E. destruct (ho_width h Hh t w Hw) as (Hi & Hu & Hsz). assert (t <> jl_symbol_tag /\ t <> jl_datatype_tag) as [H1 H2] by (split; intros ->; done).
      rewrite (id_immut m a t), (id_immut m b t) by done. apply immut_bits_same; [done|]. intros sz Hs. specialize (Hsz sz Hs).
      rewrite <- (Z.add_0_r a), <- (Z.add_0_r b). apply (bytes_eq_sub h a b w); [done|done|lia]. }
    assert (forall w, width t = Some w -> Some (Node (Bits (bytes h a (Z.to_nat w))) []) = Some v -> Some (Node (Bits (bytes h b (Z.to_nat w))) []) = Some v ->
      run_id h (S m) (I_object a) = run_id h (S m) (I_object b)) as Hw'.
    { intros w Ew [= <-] [= E]. by apply (Hw w). }
    unfold width in Hw'. destruct (bool_decide (t ∈ [jl_int8_tag; _; _])); [by apply (Hw' 1)|]. destruct (bool_decide (t ∈ [jl_int16_tag; _])); [by apply (Hw' 2)|].
    destruct (bool_decide (t ∈ [jl_int32_tag; _; _; _])); [by apply (Hw' 4)|]. destruct (bool_decide (t ∈ word_tags)); [by apply (Hw' 8)|]. clear Hw Hw'.
    destruct (node_tag t) eqn:Enode.
    { intros Ha Hb. destruct (ho_node h Hh t Enode) as (Hi & Hu & Hnp & Hnf). assert (t <> jl_symbol_tag /\ t <> jl_datatype_tag) as [H1 H2] by (split; intros ->; done).
      rewrite (id_immut m a t), (id_immut m b t) by done. apply (s_fields m Hm (S n) a b _ _ v); [done| |done|done]. split; [done|].
      intros hp be l np _ Hl Hnp'. destruct (Z.eqb_spec np 0) as [->|]; [by destruct (Hnp l Hl)|apply andb_false_r]. }
    destruct (bool_decide (t ∈ [jl_unionall_tag; _; _])) eqn:Etype.
    { apply bool_decide_eq_true in Etype. intros Ha Hb. apply (typeeq_step m Hm n a b v t Ha Hb Eta Etb). set_solver. }
    destruct (bool_decide (t ∈ [jl_task_tag; _; _; _; _; _; _; _])); [by intros [= <-] [= ->]|].
    destruct (Z.eqb_spec t jl_simplevector_tag) as [->|_].
    { opt (svec_value h (fun v => run_value h n (V_obj v)) a) Ea. intros [= <-]. opt (svec_value h (fun v => run_value h n (V_obj v)) b) Eb. intros [= ->].
      rewrite (id_cold m a _ Eta), (id_cold m b _ Etb) by done. destruct (small_mutable m) as (_ & H & _). rewrite !H. by eapply hash_svec_eq. }
    destruct (Z.eqb_spec t jl_string_tag) as [->|_].
    { intros [= <-] [= E]. rewrite (id_cold m a _ Eta), (id_cold m b _ Etb) by done. destruct (small_mutable m) as (H & _). rewrite !H.
      assert (jl_string_len h a = jl_string_len h b) as El.
      { apply (f_equal length) in E. rewrite !bytes_length in E. pose proof (ldp_nonneg h a). pose proof (ldp_nonneg h b). unfold jl_string_len in *. lia. }
      rewrite El in *. by rewrite E. }
    destruct (Z.eqb_spec t jl_datatype_tag) as [->|_]; [|done]. specialize (Hhash eq_refl).
    destruct (_ && _), (_ && _); [by intros [= <-] [= ->]|by bind_some|by bind_some|]. opt (svec_value h (fun v => run_value h n (V_obj v)) (dt_parameters h a)) Ea. intros [= <-].
    opt (svec_value h (fun v => run_value h n (V_obj v)) (dt_parameters h b)) Eb. intros [= En ->].
    destruct (Z.eq_dec (dt_hash h a) 0) as [E0|E0]; [|rewrite (id_hash m a), (id_hash m b), Hhash by congruence; done].
    rewrite (id_cold m a _ Eta), (id_cold m b _ Etb) by (done || intros _; congruence). destruct (small_mutable m) as (_ & _ & H). rewrite !H, En.
    by erewrite hash_svec_eq.
  - assert (forall x, jl_typetagof h x = jl_typetagof h a -> run_id h (S m) (I_object x) = run_id h m (I_immut (jl_typetagof h a) x (dt_hash h (jl_typetagof h a)))) as Hid.
    { intros x Ex. cbn [run_id]. unfold jl_object_id_. rewrite Ex. rewrite (proj2 (Z.eqb_neq _ _)) by (change (Z.shiftl jl_symbol_tag 4) with 288; lia).
      rewrite (proj2 (Z.eqb_neq (jl_typetagof h a) (Z.shiftl jl_datatype_tag 4))) by (change (Z.shiftl jl_datatype_tag 4) with 96; lia). cbn [andb].
      destruct (Z.eqb_spec (jl_typetagof h a) (jl_typename_type h)) as [E|]; [destruct (ho_typename h Hh) as [_ Htn]; rewrite <- E, Hmut in Htn by lia; done|].
      unfold jl_object_id__cold, jl_to_typeof. change (Z.shiftl jl_max_tags 4) with 1024. rewrite (proj2 (Z.ltb_ge _ _) Hd). by rewrite Hmut. }
    rewrite (Hid a eq_refl), (Hid b (eq_sym Et)). revert Ha Hb. unfold content_value. rewrite <- Et. change (Z.shiftl jl_max_tags 4) with 1024. rewrite (proj2 (Z.ltb_ge _ _) Hd).
    apply struct_step; [done|]. apply (ho_tag h Hh).
Qed.

Lemma obj_step m : same m -> forall n a b v, run_value h n (V_obj a) = Some v -> run_value h n (V_obj b) = Some v ->
  run_id h (S m) (I_object a) = run_id h (S m) (I_object b).
Proof using Hh.
  intros Hm n a b v Ha Hb. pose proof (obj_nonzero _ _ _ Ha) as Ha0. pose proof (obj_nonzero _ _ _ Hb) as Hb0. destruct n as [|n]; [done|].
  revert Ha Hb. cbn [run_value]. unfold obj_value. rewrite (proj2 (Z.eqb_neq a 0)), (proj2 (Z.eqb_neq b 0)) by done. intros (va & Hva & ->)%typed_some (vb & Hvb & [= Et ->])%typed_some.
  revert Hva Hvb. rewrite <- Et. change (Z.shiftl jl_max_tags 4) with 1024. destruct (negb _ && _) eqn:Em; [by intros [= <-] [= ->]|].
  apply content_step; [done..| |]; [|]. { done. } intros Hd. rewrite (proj2 (Z.ltb_ge _ _) Hd) in Em. exact Em.
Qed.

(** The tag of a type is part of its value. *)
Lemma type_tag_eq n a b v : run_value h n (V_type a) = Some v -> run_value h n (V_type b) = Some v -> jl_typetagof h a = jl_typetagof h b.
Proof using.
  intros Ha Hb. pose proof (type_nonzero _ _ _ Ha). pose proof (type_nonzero _ _ _ Hb). destruct n as [|n]; [done|]. revert Ha Hb. cbn [run_value]. unfold type_value.
  rewrite (proj2 (Z.eqb_neq a 0)), (proj2 (Z.eqb_neq b 0)) by done. by intros (va & _ & ->)%typed_some (vb & _ & [= Et _])%typed_some.
Qed.

(** The parameters of two data types without a hash. *)
Lemma params_same m : same m -> forall n a b j x y v, is_tag h jl_datatype_tag a = true -> is_tag h jl_datatype_tag b = true -> dt_hash h a = 0 -> dt_hash h b = 0 ->
  jl_tparam h a j = Some x -> jl_tparam h b j = Some y -> run_value h n (V_type x) = Some v -> run_value h n (V_type y) = Some v ->
  run_id h m (I_object x) = run_id h m (I_object y).
Proof using Hh.
  intros Hm n a b j x y v Ha Hb Ea Eb Hx Hy Hxv Hyv. destruct (is_tag h jl_vararg_tag x) eqn:Etag; [|by eapply (s_type m Hm)].
  assert (is_tag h jl_vararg_tag y = true) as Etag' by (unfold is_tag in *; by rewrite <- (type_tag_eq n x y v)).
  eapply (s_vararg m Hm); [done..|by eapply (ho_hashless h Hh a)|by eapply (ho_hashless h Hh b)].
Qed.

Lemma vararg_step m : same m -> forall n a b v, run_value h n (V_type a) = Some v -> run_value h n (V_type b) = Some v ->
  is_tag h jl_vararg_tag a = true -> vararg_T h a <> 0 -> vararg_T h b <> 0 -> run_id h (S m) (I_object a) = run_id h (S m) (I_object b).
Proof using Hh.
  intros Hm n a b v Ha Hb Hva HTa HTb. pose proof (type_tag_eq n a b v Ha Hb) as Et. pose proof (type_nonzero _ _ _ Ha). pose proof (type_nonzero _ _ _ Hb).
  destruct (ho_vararg h Hh a Hva) as [HT HN]. unfold is_tag in Hva. apply Z.eqb_eq in Hva. rewrite Hva in Et. symmetry in Et.
  destruct (ho_node h Hh jl_vararg_tag eq_refl) as (Hi & Hu & _). destruct (ho_kinds h Hh) as (_ & _ & _ & Hk).
  rewrite (id_immut m a jl_vararg_tag), (id_immut m b jl_vararg_tag) by done. destruct n as [|n]; [done|].
  revert Ha Hb. cbn [run_value]. unfold type_value. rewrite (proj2 (Z.eqb_neq a 0)), (proj2 (Z.eqb_neq b 0)), Hva, Et by done.
  intros (va & Ha & ->)%typed_some (vb & Hb & [= ->])%typed_some. revert Ha Hb. cbn -[run_value vararg_T vararg_N].
  rewrite (proj2 (Z.eqb_neq _ _) HTa), (proj2 (Z.eqb_neq _ _) HTb).
  opt (run_value h n (V_type (vararg_T h a))) E1. opt (if vararg_N h a =? 0 then Some (Node Null []) else run_value h n (V_type (vararg_N h a))) E2. intros [= <-].
  opt (run_value h n (V_type (vararg_T h b))) E3. opt (if vararg_N h b =? 0 then Some (Node Null []) else run_value h n (V_type (vararg_N h b))) E4. intros [= -> ->].
  apply (s_kind m Hm n a b 2); [done..|]. intros i Hi0. assert (i = 0 \/ i = 1) as [-> | ->] by lia.
  - rewrite Z.mul_0_r, !Z.add_0_r. right. split; [done|]. by eexists.
  - change (8 * 1) with 8. fold (vararg_N h a) (vararg_N h b). destruct (Z.eqb_spec (vararg_N h a) 0) as [Na|Na], (Z.eqb_spec (vararg_N h b) 0) as [Nb|Nb]; [by left| | |].
    + injection E2 as <-. by apply run_type_label in E4.
    + injection E4 as <-. by apply run_type_label in E2.
    + right. split; [by apply HN|]. by eexists.
Qed.

Lemma type_step m : same m -> forall n a b v, run_value h n (V_type a) = Some v -> run_value h n (V_type b) = Some v -> is_tag h jl_vararg_tag a = false ->
  run_id h (S m) (I_object a) = run_id h (S m) (I_object b).
Proof using Hh.
  intros Hm n a b v Ha Hb Hva. pose proof (type_nonzero _ _ _ Ha) as Ha0. pose proof (type_nonzero _ _ _ Hb) as Hb0.
  pose proof (ho_type_hash h Hh n a b v) as Hhash. pose proof (typeeq_step m Hm n a b v) as Heq. destruct n as [|n]; [done|].
  assert (jl_typetagof h a = jl_typetagof h b) as Et.
  { revert Ha Hb. cbn [run_value]. unfold type_value. rewrite (proj2 (Z.eqb_neq a 0)), (proj2 (Z.eqb_neq b 0)) by done. by intros (va & _ & ->)%typed_some (vb & _ & [= Et _])%typed_some. }
  specialize (fun t => Heq t Ha Hb). specialize (fun H => Hhash H Ha Hb). unfold is_tag in Hva, Hhash. revert Ha Hb. cbn [run_value]. unfold type_value.
  rewrite (proj2 (Z.eqb_neq a 0)), (proj2 (Z.eqb_neq b 0)) by done. intros (va & Ha & ->)%typed_some (vb & Hb & [= _ ->])%typed_some. revert Ha Hb. rewrite <- Et.
  destruct (Z.eqb_spec (jl_typetagof h a) (Z.shiftl jl_datatype_tag 4)) as [Ed|_].
  { specialize (Hhash eq_refl). rewrite Et in Ed. pose proof Ed as Edb. rewrite <- Et in Ed. destruct (Z.eq_dec (dt_hash h a) 0) as [E0|E0].
    2:{ intros _ _. by rewrite (id_hash m a), (id_hash m b), Hhash by congruence. }
    rewrite (id_cold m a _ Ed), (id_cold m b _ Edb) by (done || intros _; congruence). destruct (small_mutable m) as (_ & _ & ->). destruct (small_mutable m) as (_ & _ & ->).
    opt (elems_from (fun i => x ← jl_tparam h a i; run_value h n (V_type x)) (Z.to_nat (jl_nparams h a)) 0) Ea. intros [= <-].
    opt (elems_from (fun i => x ← jl_tparam h b i; run_value h n (V_type x)) (Z.to_nat (jl_nparams h b)) 0) Eb. intros [= En ->]. rewrite En.
    erewrite (hash_svec_gen m (fun x => run_value h n (V_type x))); [done| |exact Ea|exact Eb]. intros j x y v Hx Hy Hxv Hyv.
    split; [by eapply type_nonzero|]. split; [by eapply type_nonzero|].
    apply (params_same m Hm n a b j x y v); [by apply Z.eqb_eq|by apply Z.eqb_eq|done|congruence|done..]. }
  destruct (Z.eqb_spec (jl_typetagof h a) (Z.shiftl jl_tvar_tag 4)); [by intros [= <-] [= ->]|].
  destruct (jl_typetagof h a =? Z.shiftl jl_unionall_tag 4); [done|].
  destruct (Z.eqb_spec (jl_typetagof h a) (Z.shiftl jl_uniontype_tag 4)) as [Eu|_].
  { opt (run_value h n (V_type (uniontype_a h a))) E1. opt (run_value h n (V_type (uniontype_b h a))) E2. intros [= <-].
    opt (run_value h n (V_type (uniontype_a h b))) E3. opt (run_value h n (V_type (uniontype_b h b))) E4. intros [= -> ->].
    destruct (ho_node h Hh jl_uniontype_tag eq_refl) as (Hi & Hu & _). destruct (ho_kinds h Hh) as (Hk & _). destruct (ho_union h Hh a) as [H1 H2]; [unfold is_tag; by rewrite Eu, Z.eqb_refl|].
    rewrite (id_immut m a jl_uniontype_tag), (id_immut m b jl_uniontype_tag) by (done || congruence). apply (s_kind m Hm n a b 2); [done..|]. intros i Hi0. right.
    assert (i = 0 \/ i = 1) as [-> | ->] by lia; [rewrite Z.mul_0_r, !Z.add_0_r|]; (split; [done|]); by eexists. }
  destruct (Z.eqb_spec (jl_typetagof h a) (Z.shiftl jl_typeegal_tag 4)) as [E|_]; cbn [orb]; [intros _ _; apply (Heq _ E); [congruence|tauto]|].
  destruct (Z.eqb_spec (jl_typetagof h a) (Z.shiftl jl_typeeq_tag 4)) as [E|_]; cbn [orb]; [intros _ _; apply (Heq _ E); [congruence|tauto]|].
  rewrite Hva. assert (jl_typeof h b = jl_typeof h a) as -> by (unfold jl_typeof; by rewrite Et). destruct (_ || _) eqn:Em; [|done].
  apply content_step; [done..|]. intros Hd. unfold jl_typeof, jl_to_typeof in Em. change (Z.shiftl jl_max_tags 4) with 1024 in Em. rewrite (proj2 (Z.ltb_ge _ _) Hd) in Em.
  rewrite !(proj2 (Z.eqb_neq (jl_typetagof h a) _)) in Em by (change (Z.shiftl jl_symbol_tag 4) with 288; change (Z.shiftl jl_module_tag 4) with 304; lia).
  cbn [orb] in Em. by apply negb_true_iff in Em.
Qed.

Lemma all_same m : same m.
Proof using Hh.
  induction m as [|m IH]; [by split|]. split.
  - by apply obj_step.
  - by apply type_step.
  - apply inline_step. by apply fields_step.
  - by apply fields_step.
  - by apply vararg_step.
  - by apply kind_step.
Qed.
End Id.
