(* ===== verification/EgalTheorems.v ===== *)
(** * Egality: the theorems *)
From stdpp Require Import gmap.
From S2P Require Import Prelude Hashing Layout Egal EgalFacts EgalCorrect.
From S2P Require ObjectId.

(** ** Concrete memories *)

(** A memory from its non-zero words. *)
Definition mem_of (ws : list (Z * Z)) : Z -> Z :=
  let m : gmap Z Z := list_to_map ws in fun a => match m !! (8 * (a / 8)) with Some w => Z.land (Z.shiftr w (8 * (a mod 8))) 255 | None => 0 end.
Definition addresses (ws : list (Z * Z)) : list Z := flat_map (fun p => map (fun i => p.1 + Z.of_nat i) (seq 0 8)) ws.

Lemma mem_of_address ws a : mem_of ws a <> 0 -> a ∈ addresses ws.
Proof.
  unfold mem_of. destruct (list_to_map ws !! (8 * (a / 8))) as [w|] eqn:E; [|done]. intros _. apply elem_of_list_to_map_2 in E.
  apply list_elem_of_In, in_flat_map. eexists. split; [by apply list_elem_of_In|]. cbn [fst]. apply in_map_iff. exists (Z.to_nat (a mod 8)).
  pose proof (Z.mod_pos_bound a 8 ltac:(lia)) as Hm. pose proof (Z.div_mod a 8 ltac:(lia)). split; [lia|]. apply in_seq. lia.
Qed.

(** The objects of a memory whose tag is [t]. *)
Definition tagged_with (h : heap) (ws : list (Z * Z)) (t : Z) : list Z := map (fun a => a + 8) (List.filter (fun a => ldp h a / 16 =? t) (addresses ws)).
Lemma tagged_spec h ws t v : mem h = mem_of ws -> 0 < t < 16 -> is_tag h t v = true -> v ∈ tagged_with h ws t.
Proof.
  intros Hmem Ht Hv. unfold is_tag, jl_typetagof, header in Hv. apply Z.eqb_eq in Hv. set (x := ldp h (v - 8)) in *.
  pose proof (ldp_nonneg h (v - 8) : 0 <= x) as H0. assert (x / 16 = t) as Hx.
  { change 16 with (2 ^ 4). rewrite <- (Z.shiftr_div_pow2 x 4) by lia. assert (Z.shiftr (Z.land x (2 ^ 64 - 16)) 4 = t) as <- by (rewrite Hv, Z.shiftr_shiftl_l, Z.shiftl_0_r by lia; done).
    rewrite Z.shiftr_land. symmetry. change (Z.shiftr (2 ^ 64 - 16) 4) with (2 ^ 60 - 1). rewrite land_mod by lia. apply Z.mod_small.
    rewrite Z.shiftr_div_pow2 by lia. pose proof (ld_range h (v - 8) 8) as [_ Hr]. change (ld h 8 (v - 8)) with x in Hr. change (8 * Z.of_nat 8) with 64 in Hr.
    split; [apply Z.div_pos; lia|apply Z.div_lt_upper_bound; [lia|]]. change (2 ^ 4 * 2 ^ 60) with (2 ^ 64). lia. }
  apply list_elem_of_In. unfold tagged_with. apply in_map_iff. exists (v - 8). split; [lia|]. apply filter_In. split; [|by apply Z.eqb_eq].
  apply list_elem_of_In, mem_of_address. rewrite <- Hmem. intros E. assert (x mod 256 = 0) as Hz.
  { unfold x, ldp, ld, bytes. cbn [seq map val]. rewrite Z.add_0_r, E. change (u8 0) with 0. change (2 ^ 8) with 256. rewrite Z.add_0_l, Z.mul_comm. apply Z.mod_mul. lia. }
  Z.to_euclidean_division_equations. lia.
Qed.

(** Data types share two type names. *)
Definition immutable_name : Z := 0x1000.
Definition mutable_name : Z := 0x1080.
Definition type_words (a name types layout : Z) : list (Z * Z) :=
  [(a - 8, 96); (a, name); (a + 24, types); (a + 40, layout); (a + 48, 5 + 2 * 2 ^ 32)].
Definition layout_words (a size nfields npointers first_ptr align flags rest : Z) : list (Z * Z) :=
  [(a, size + nfields * 2 ^ 32); (a + 8, npointers + u32 first_ptr * 2 ^ 32); (a + 16, align + flags * 2 ^ 16 + u32 rest * 2 ^ 32); (a + 24, Z.shiftr rest 32)].
(** [Int8], [struct S; x::Int8; s::String end], and two instances of [S] that
    differ in their padding and in the address of the string. *)
Definition example_words : list (Z * Z) :=
  [(mutable_name + 104, 2)] ++
  type_words 0x1100 immutable_name 0 0x1580 ++ type_words 0x1180 immutable_name 0 0x1600 ++ type_words 0x1200 immutable_name 0 0x1600 ++
  type_words 0x1280 immutable_name 0 0x1680 ++ type_words 0x1300 immutable_name 0x1780 0x1700 ++
  type_words 0x1380 mutable_name 0 0 ++ type_words 0x1400 mutable_name 0 0 ++ type_words 0x1480 mutable_name 0 0 ++ type_words 0x1500 mutable_name 0 0 ++
  type_words 0x1540 immutable_name 0 0x1580 ++
  layout_words 0x1580 16 2 2 0 8 0 0x010008110011 ++ layout_words 0x1600 8 1 1 0 8 0 0x000011 ++
  layout_words 0x1680 1 0 0 (-1) 1 128 0 ++ layout_words 0x1700 16 2 1 1 8 1 0x0108110002 ++
  [(0x1778, 320); (0x1780, 2); (0x1788, 0x1280); (0x1790, 0x1380);
   (0x1ff8, 0x1300); (0x2000, 0xaa07); (0x2008, 0x2100); (0x2078, 0x1300); (0x2080, 0xbb07); (0x2088, 0x2180);
   (0x20f8, 336); (0x2100, 2); (0x2108, 0x0a09); (0x2178, 336); (0x2180, 2); (0x2188, 0x0a09)].
Definition example_heap : heap :=
  {| mem := mem_of example_words;
     small_typeof := fun t => default 0 ((list_to_map [(2, 7); (3, 0x1100); (4, 0x1180); (5, 0x1200); (6, 0x1480); (8, 0x1540); (20, 0x1400); (21, 0x1380); (31, 0x1280)] : gmap Z Z) !! t);
     jl_tuple_typename := 1; jl_typename_type := 0x1500; jl_any_type := 2; jl_nothing := 3; union_fuel := 8 |}.

Example example_egal : value_of example_heap 4 0x2000 = value_of example_heap 4 0x2080 /\ is_Some (value_of example_heap 4 0x2000) /\
  jl_egal example_heap 4 0x2000 0x2080 = Some true /\ jl_object_id example_heap 4 0x2000 = jl_object_id example_heap 4 0x2080 /\ is_Some (jl_object_id example_heap 4 0x2000).
Proof. split; [vm_compute; reflexivity|]. split; [eexists; vm_compute; reflexivity|]. split; [vm_compute; reflexivity|]. split; [vm_compute; reflexivity|eexists; vm_compute; reflexivity]. Qed.

(** *** The example satisfies [heap_ok] *)

Definition example_types : list Z := [0x1100; 0x1180; 0x1200; 0x1280; 0x1300; 0x1380; 0x1400; 0x1480; 0x1500; 0x1540].
Lemma example_datatypes v : is_tag example_heap jl_datatype_tag v = true -> v ∈ example_types.
Proof.
  intros H. apply (tagged_spec _ example_words) in H; [|done|done].
  assert (tagged_with example_heap example_words jl_datatype_tag = example_types) as E by (vm_compute; reflexivity). by rewrite E in H.
Qed.
Lemma example_none t v : t = jl_typeeq_tag \/ t = jl_typeegal_tag \/ t = jl_uniontype_tag -> is_tag example_heap t v = true -> False.
Proof.
  intros Ht H. apply (tagged_spec _ example_words) in H; [|done|by destruct Ht as [->|[->| ->]]].
  assert (tagged_with example_heap example_words t = []) as E by (destruct Ht as [->|[->| ->]]; vm_compute; reflexivity). rewrite E in H. by apply elem_of_nil in H.
Qed.
(** No object has the tag of [Vararg], only two bytes inside a layout. *)
Lemma example_vararg v : is_tag example_heap jl_vararg_tag v = true -> v = 0x169a.
Proof.
  intros H. apply (tagged_spec _ example_words) in H; [|done|done].
  assert (tagged_with example_heap example_words jl_vararg_tag = [0x169a]) as E by (vm_compute; reflexivity). rewrite E in H. by apply list_elem_of_singleton in H.
Qed.
Lemma example_hash v : is_tag example_heap jl_datatype_tag v = true -> dt_hash example_heap v = 5.
Proof.
  intros H. apply example_datatypes in H. assert (Forall (fun v => dt_hash example_heap v = 5) example_types) as Hf by (repeat constructor; vm_compute; reflexivity).
  rewrite Forall_forall in Hf. by apply Hf.
Qed.

Lemma field_lt l f nf offs : l_nfields l = Some nf -> jl_field_offset l f = Some offs -> f < nf.
Proof.
  unfold jl_field_offset. intros ->. cbn [mbind option_bind]. destruct (l_flags l); [|done]. cbn [mbind option_bind].
  destruct (negb _) eqn:E; [done|]. intros _. apply negb_false_iff, andb_true_iff in E as [_ E]. by apply Z.ltb_lt in E.
Qed.

Lemma example_type_ok dt l sz : jl_datatype_layout example_heap dt = Some l -> l_size l = Some sz -> type_ok example_heap dt l sz.
Proof.
  intros El Es. assert (dt ∈ example_types) as Hdt.
  { apply example_datatypes. unfold jl_datatype_layout, own_layout in El. by destruct (is_tag example_heap jl_datatype_tag dt). }
  revert El Es. unfold example_types in Hdt. rewrite !elem_of_cons in Hdt.
  assert (forall nf, l_nfields l = Some nf -> nf <= 2 -> forall f offs, 0 <= f -> jl_field_offset l f = Some offs -> (f = 0 \/ f = 1) /\ f < nf) as Hf.
  { intros nf Hnf H2 f offs H0 Ho. pose proof (field_lt _ _ _ _ Hnf Ho). lia. }
  destruct Hdt as [->|[->|[->|[->|[->|[->|[->|[->|[->|[->|H]]]]]]]]]]; [..|by apply elem_of_nil in H].
  all: try (intros El; vm_compute in El; discriminate El).
  all: intros El; vm_compute in El; injection El as <-; intros Es; vm_compute in Es; injection Es as <-.
  all: specialize (Hf _ ltac:(vm_compute; reflexivity) ltac:(lia)).
  all: split; [intros flags E; vm_compute in E; injection E as <-; vm_compute; done| |].
  all: match goal with |- forall f offs ft : Z, _ => intros f offs ft | |- _ => intros f offs end; intros H0 Ho; destruct (Hf f offs H0 Ho) as [[-> | ->] Hlt]; vm_compute in Hlt; try discriminate Hlt.
  all: vm_compute in Ho; injection Ho as <-; intros Hp; vm_compute in Hp; try discriminate Hp.
  all: first [intros Hft; vm_compute in Hft; injection Hft as <-
             |split; [lia|]; split; [lia|]; eexists; first [exists 0; split; [vm_compute; reflexivity|]; split; [lia|split; [vm_compute; reflexivity|reflexivity]]
                |exists 1; split; [vm_compute; reflexivity|]; split; [lia|split; [vm_compute; reflexivity|reflexivity]]]].
  split; [lia|]. change (jl_is_uniontype example_heap 4736) with false. cbn [jl_is_uniontype]. split; [done|].
  intros k Hk. vm_compute in Hk. injection Hk as <-. split; intros ? E; vm_compute in E; injection E as <-; lia.
Qed.

Lemma example_small t : small_typeof example_heap t = 0 \/ t ∈ [2; 3; 4; 5; 6; 8; 20; 21; 31].
Proof.
  destruct (decide (t ∈ [2; 3; 4; 5; 6; 8; 20; 21; 31])) as [H|H]; [by right|left]. cbn [small_typeof example_heap].
  rewrite not_elem_of_list_to_map_1; [done|exact H].
Qed.
Lemma example_zero : dt_name example_heap 0 = 0 /\ tn_mutabl example_heap 0 = false /\ own_layout example_heap 0 = None /\ jl_datatype_nfields example_heap 0 = None /\ jl_datatype_size example_heap 0 = None.
Proof. split_and!; vm_compute; reflexivity. Qed.

Lemma example_heap_ok : heap_ok example_heap.
Proof.
  destruct example_zero as (Z1 & Z2 & Z3 & Z4 & Z5). split.
  - apply example_type_ok.
  - intros t w Hw. unfold small_mutabl. destruct (example_small t) as [->|Ht].
    + rewrite Z1, Z2, Z5. done.
    + rewrite !elem_of_cons in Ht. destruct Ht as [->|[->|[->|[->|[->|[->|[->|[->|[->|H]]]]]]]]]; [discriminate Hw..| |by apply elem_of_nil in H].
      injection Hw as <-. split; [vm_compute; reflexivity|]. split; [done|]. intros sz Hs. vm_compute in Hs. injection Hs as <-. lia.
  - intros t Hn. unfold small_mutabl. destruct (example_small t) as [->|Ht].
    + rewrite Z1, Z2, Z3, Z4. done.
    + rewrite !elem_of_cons in Ht. destruct Ht as [->|[->|[->|[->|[->|[->|[->|[->|[->|H]]]]]]]]]; try discriminate Hn; [| |by apply elem_of_nil in H].
      all: (split; [vm_compute; reflexivity|]; split; [done|]; split; [|intros Hs; vm_compute in Hs; discriminate Hs];
        intros l Hl; vm_compute in Hl; injection Hl as <-; intros E; vm_compute in E; discriminate E).
  - split_and!; [vm_compute; reflexivity..|]. apply (bool_decide_eq_true_1 _). vm_compute. reflexivity.
  - split_and!.
    all: do 2 eexists; split; [vm_compute; reflexivity|]; do 5 (split; [vm_compute; reflexivity|]).
    all: intros i Hi; assert (i = 0 \/ i = 1) as [-> | ->] by lia; try lia; split; vm_compute; reflexivity.
  - intros t [-> | ->]; (split; [vm_compute; reflexivity|done]).
  - split; [cbn; lia|vm_compute; reflexivity].
  - intros v E. cbn in E. pose proof (f_equal (fun x => Z.testbit x 0) E) as E0. unfold jl_typetagof in E0. rewrite Z.land_spec in E0.
    change (Z.testbit (2 ^ 64 - 16) 0) with false in E0. rewrite andb_false_r in E0. done.
  - intros v [H|H]; exfalso; (eapply example_none; [|exact H]); tauto.
  - intros v H. exfalso. eapply example_none; [|exact H]. tauto.
  - intros v ->%example_vararg. split; [vm_compute; reflexivity|]. intros _. vm_compute. reflexivity.
  - intros n a b v Ha Hva Hvb. rewrite !example_hash; [done| |done].
    destruct n as [|n]; [done|]. revert Hva Hvb. unfold value_of. cbn [run_value]. unfold obj_value. destruct (a =? 0); [done|]. destruct (b =? 0); [by intros ?|].
    intros (x & _ & ->)%typed_some (y & _ & [= E _])%typed_some. unfold is_tag. rewrite <- E. exact Ha.
  - intros n a b v Ha Hva Hvb. assert (is_tag example_heap jl_datatype_tag b = true) as Hb.
    { destruct n as [|n]; [done|]. revert Hva Hvb. cbn [run_value]. unfold type_value. destruct (a =? 0); [done|]. destruct (b =? 0); [by intros ?|].
      intros (x & _ & ->)%typed_some (y & _ & [= E _])%typed_some. unfold is_tag. rewrite <- E. exact Ha. }
    by rewrite !example_hash.
  - intros a i x Ha E. by rewrite example_hash in E.
Qed.

(** ** Theorems *)

(** C6: [jl_egal] compares values. When two objects denote values ([value_of]:
    bits without padding, fields, elements, parameters of types, and the address
    of a mutable object), [jl_egal] of them returns, whatever more fuel it is
    given, without a failed assertion, and it returns 1 if and only if the values
    are the same: padding, the address of an immutable object, and the order and
    shortcuts of the comparison do not matter. *)
Theorem jl_egal_correct h n m k a b v u : value_of h n a = Some v -> value_of h m b = Some u -> (n <= k)%nat -> (m <= k)%nat ->
  exists r, jl_egal h k a b = Some r /\ (r = true <-> v = u).
Proof.
  intros Ha Hb Hn Hm. apply (run_value_mono h n k) in Ha; [|done]. apply (run_value_mono h m k) in Hb; [|done].
  exact (proj1 (run_decides h k) a b v u Ha Hb).
Qed.
Lemma jl_egal_correct_witness : exists v, value_of example_heap 3 0x2000 = Some v /\ exists r, jl_egal example_heap 5 0x2000 0x2080 = Some r /\ (r = true <-> v = v).
Proof.
  destruct (value_of example_heap 3 0x2000) as [v|] eqn:E; [|vm_compute in E; discriminate E].
  exists v. split; [reflexivity|]. apply (jl_egal_correct example_heap 3 4 5 0x2000 0x2080 v v); [exact E| |lia|lia].
  transitivity (value_of example_heap 3 0x2000); [vm_compute; reflexivity|exact E].
Defined.

(** C7: Objects with the same value have the same id. In a memory whose types
    are in order ([heap_ok]: layouts keep fields and pointers inside and name
    their padding, as [LayoutTheorems] proves of those that are computed; data
    types of one value have one hash, which may be 0; and no data type with hash
    0 has a parameter [Vararg] without an element type, for which the property
    fails, see [vararg_ids_differ]), objects that denote one value, so that
    [jl_egal] holds of them, have one [jl_object_id], although the id is computed
    along other paths than the comparison: bits at once where there is no
    padding, field by field otherwise, and from the hash of a data type or, where
    that is 0, from its parameters. *)
Theorem jl_object_id_correct h n m k a b v : heap_ok h -> value_of h n a = Some v -> value_of h m b = Some v -> jl_object_id h k a = jl_object_id h k b.
Proof.
  intros Hh Ha Hb. apply (run_value_mono h n (n + m)) in Ha; [|lia]. apply (run_value_mono h m (n + m)) in Hb; [|lia].
  exact (s_obj h k (all_same h Hh k) _ _ _ _ Ha Hb).
Qed.
Lemma jl_object_id_correct_witness : is_Some (jl_object_id example_heap 4 0x2000) /\ jl_object_id example_heap 4 0x2000 = jl_object_id example_heap 4 0x2080.
Proof.
  split; [eexists; vm_compute; reflexivity|]. destruct (value_of example_heap 3 0x2000) as [v|] eqn:E; [|vm_compute in E; discriminate E].
  apply (jl_object_id_correct example_heap 3 4 4 0x2000 0x2080 v); [exact example_heap_ok|exact E|].
  transitivity (value_of example_heap 3 0x2000); [vm_compute; reflexivity|exact E].
Defined.

(** ** The interface of the tables *)

Section Instance.
Context (h : heap) (Hh : heap_ok h) (N : nat).

(** The objects whose value is found with fuel [N]. *)
Definition object : Type := { a : Z | is_Some (value_of h N a) }.
Definition object_egal (x y : object) : bool := default false (jl_egal h N (`x) (`y)).
Lemma object_egal_spec x y : object_egal x y = true <-> value_of h N (`x) = value_of h N (`y).
Proof using.
  destruct x as [a [v Ha]], y as [b [u Hb]]. unfold object_egal. cbn [proj1_sig].
  destruct (proj1 (run_decides h N) a b v u Ha Hb) as (r & Er & Hr). unfold jl_egal. rewrite Er. cbn [default]. rewrite Ha, Hb, Hr. split; congruence.
Qed.

(** Runtime objects are keys of [IdSet] and [IdDict]. *)
#[refine] Definition object_id_instance : ObjectId.ObjectId object :=
  {| ObjectId.jl_egal := object_egal; ObjectId.jl_object_id x := default 0 (jl_object_id h N (`x)) |}.
Proof using Hh.
  - intros x. by apply object_egal_spec.
  - intros x y. rewrite !object_egal_spec. congruence.
  - intros x y z. rewrite !object_egal_spec. congruence.
  - intros x y Hxy%object_egal_spec. destruct x as [a [v Ha]], y as [b [u Hb]]. cbn [proj1_sig] in *. f_equal.
    apply (s_obj h N (all_same h Hh N) N a b v Ha). unfold value_of in *. congruence.
Defined.
End Instance.

(** ** Types with [where] *)

Definition symbol_words (a hash : Z) : list (Z * Z) := [(a - 8, 288); (a + 16, hash)].
Definition tvar_words (a name lb ub : Z) : list (Z * Z) := [(a - 8, 112); (a, name); (a + 8, lb); (a + 16, ub)].
Definition unionall_words (a var body : Z) : list (Z * Z) := [(a - 8, 32); (a, var); (a + 8, body)].
Definition svec_words (a : Z) (l : list Z) : list (Z * Z) := (a - 8, 320) :: (a, Z.of_nat (length l)) :: imap (fun i x => (a + 8 + 8 * Z.of_nat i, x)) l.
Definition datatype_words (a name params : Z) : list (Z * Z) := [(a - 8, 96); (a, name); (a + 16, params)].
(** Variables T1, T2, U1 and U2, all named [T]; [P{T1,T2}] and [P{U1,U2}]; and
    the types [P{T1,T2} where T2 where T1], [P{T1,T2} where T1 where T2], on the
    same object [P{T1,T2}], and [P{U1,U2} where U2 where U1]. *)
Definition where_words : list (Z * Z) :=
  type_words 0x1100 immutable_name 0 0x1580 ++ layout_words 0x1580 16 2 2 0 8 0 0x010008110011 ++
  type_words 0x1180 immutable_name 0 0x1600 ++ layout_words 0x1600 0 0 0 (-1) 1 128 0 ++
  symbol_words 0x2000 77 ++ [(0x21f8, 16); (0x2400 + 88, 9); (0x2500 + 88, 5)] ++ svec_words 0x2480 [] ++ datatype_words 0x2280 0x2400 0x2480 ++
  tvar_words 0x2100 0x2000 0x2200 0x2280 ++ tvar_words 0x2180 0x2000 0x2200 0x2280 ++ tvar_words 0x2300 0x2000 0x2200 0x2280 ++ tvar_words 0x2380 0x2000 0x2200 0x2280 ++
  svec_words 0x2580 [0x2100; 0x2180] ++ datatype_words 0x2600 0x2500 0x2580 ++ svec_words 0x2680 [0x2300; 0x2380] ++ datatype_words 0x2700 0x2500 0x2680 ++
  unionall_words 0x2780 0x2180 0x2600 ++ unionall_words 0x2800 0x2100 0x2780 ++
  unionall_words 0x2880 0x2100 0x2600 ++ unionall_words 0x2900 0x2180 0x2880 ++
  unionall_words 0x2980 0x2380 0x2700 ++ unionall_words 0x2a00 0x2300 0x2980.
Definition where_heap : heap :=
  {| mem := mem_of where_words; small_typeof := fun t => if t =? 2 then 0x1100 else if t =? 1 then 0x1180 else 100 + t;
     jl_tuple_typename := 1; jl_typename_type := 0x1500; jl_any_type := 0x2280; jl_nothing := 3; union_fuel := 8 |}.

(** [a] is the type [t] with the variables [vs] bound around it, the outermost
    first; and variables that [egal_types] takes for another's counterpart. *)
Inductive binds (h : heap) : Z -> list Z -> Z -> Prop :=
| binds_nil t : binds h t [] t
| binds_cons a vs t : is_tag h jl_unionall_tag a = true -> binds h (unionall_body h a) vs t -> binds h a (unionall_var h a :: vs) t.
Definition counterparts (h : heap) (v w : Z) : Prop := tvar_name h v = tvar_name h w /\ tvar_lb h v = tvar_lb h w /\ tvar_ub h v = tvar_ub h w.

Section Where.
Context (h : heap).

Lemma binds_unique a vs ws s t : binds h a vs s -> binds h a ws t -> length vs = length ws -> s = t.
Proof using.
  intros H. revert ws. induction H as [|a vs s _ _ IH]; intros [|w ws]; try done; inversion 1; subst; [done|]. intros [= E]. by eapply IH.
Qed.
Lemma run_types n a b env names : run_egal h (S n) (C_types a b env names) =
  egal_types h (fun a b => run_egal h n (C_egal a b)) (fun a b dt => run_egal h n (C_fields a b dt)) (fun a b env names => run_egal h n (C_types a b env names)) a b env names.
Proof using. reflexivity. Qed.
Lemma run_objects n a b : run_egal h (S n) (C_egal a b) =
  jl_egal_ h (fun a b => run_egal h n (C_egal a b)) (fun a b dt => run_egal h n (C_fields a b dt)) (fun a b env names => run_egal h n (C_types a b env names)) a b.
Proof using. reflexivity. Qed.
Lemma types_same k a env names : run_egal h (S k) (C_types a a env names) = Some true.
Proof using. rewrite run_types. unfold egal_types. by rewrite Z.eqb_refl. Qed.

Lemma unionall_types k a b env names : a <> b -> is_tag h jl_unionall_tag a = true -> is_tag h jl_unionall_tag b = true ->
  counterparts h (unionall_var h a) (unionall_var h b) ->
  run_egal h (S (S k)) (C_types a b env names) = run_egal h (S k) (C_types (unionall_body h a) (unionall_body h b) ((unionall_var h a, unionall_var h b) :: env) names).
Proof using.
  intros Hne Ha Hb (Hn & Hlb & Hub). unfold is_tag in Ha, Hb. apply Z.eqb_eq in Ha, Hb. rewrite (run_types (S k)).
  unfold egal_types. rewrite (proj2 (Z.eqb_neq _ _) Hne), Ha, Hb, Z.eqb_refl. cbn [negb]. change (Z.shiftl jl_unionall_tag 4 =? Z.shiftl jl_datatype_tag 4) with false.
  change (Z.shiftl jl_unionall_tag 4 =? Z.shiftl jl_tvar_tag 4) with false. rewrite Hn, Hlb, Hub, !types_same, Z.eqb_refl. cbn [negb]. rewrite andb_false_r. done.
Qed.

(** Under binders of counterparts, types compare as their bodies do with the
    variables paired; one body object is equal to itself. *)
Lemma binds_types k a b vs ws s t env names : binds h a vs s -> binds h b ws t -> Forall2 (counterparts h) vs ws ->
  run_egal h (length vs + S k) (C_types a b env names) = if s =? t then Some true else run_egal h (S k) (C_types s t (rev (zip vs ws) ++ env) names).
Proof using.
  intros Ha Hb Hvs. revert a b env Ha Hb. induction Hvs as [|v w vs ws Hvw Hvs IH]; intros a b env Ha Hb; inversion Ha; inversion Hb; subst.
  - destruct (Z.eqb_spec s t) as [->|]; [apply types_same|done].
  - cbn [length Nat.add zip_with rev]. rewrite Nat.add_succ_r. destruct (decide (a = b)) as [->|Hne].
    + rewrite types_same. rewrite (binds_unique b _ _ s t Ha Hb), Z.eqb_refl; [done|]. cbn [length]. by rewrite (Forall2_length _ _ _ Hvs).
    + rewrite unionall_types, <- Nat.add_succ_r by done. erewrite IH by done. by rewrite <- app_assoc.
Qed.

Lemma egal_unionall k a b : is_tag h jl_unionall_tag a = true -> is_tag h jl_unionall_tag b = true ->
  jl_egal h (S (S k)) a b = run_egal h (S k) (C_types a b [] true).
Proof using.
  intros Ha Hb. unfold is_tag in Ha, Hb. apply Z.eqb_eq in Ha, Hb. unfold jl_egal. rewrite run_objects. unfold jl_egal_.
  destruct (Z.eqb_spec a b) as [->|]; [by rewrite types_same|]. rewrite Ha, Hb, Z.eqb_refl. reflexivity.
Qed.
End Where.

(** C40: What [===] makes of types with [where]. [egal_types] takes two pointers
    that are equal for equal types before it asks how the variables in them are
    bound. So types [a] and [b] that bind counterparts (variables of one name and
    the same bounds) around one body object are [===], whichever of the variables
    the body has; but with a type [c] around another body object each is compared
    by its body under the pairing of its own variables with those of [c]. Where
    the two pairings differ, [===] is not transitive ([where_not_transitive]). *)
Theorem egal_types_shared_body h k a b c vs ws us s t : binds h a vs s -> binds h b ws s -> binds h c us t -> vs <> [] ->
  Forall2 (counterparts h) vs ws -> Forall2 (counterparts h) vs us -> s <> t ->
  jl_egal h (S (length vs + S k)) a b = Some true /\
  jl_egal h (S (length vs + S k)) a c = run_egal h (S k) (C_types s t (rev (zip vs us)) true) /\
  jl_egal h (S (length vs + S k)) b c = run_egal h (S k) (C_types s t (rev (zip ws us)) true).
Proof.
  intros Ha Hb Hc Hne Hw Hu Hst. assert (Forall2 (counterparts h) ws us) as Hwu.
  { clear -Hw Hu. revert us Hu. induction Hw as [|v w vs ws (E1 & E2 & E3) _ IH]; intros us; inversion 1 as [|? ? ? ? (F1 & F2 & F3)]; subst; constructor; [|by apply IH]. split_and!; congruence. }
  assert (forall x xs y, binds h x xs y -> xs <> [] -> is_tag h jl_unionall_tag x = true) as Htag by (by intros x xs y []).
  pose proof (Forall2_length _ _ _ Hw). pose proof (Forall2_length _ _ _ Hu). assert (ws <> [] /\ us <> []) as [Hne1 Hne2] by (destruct vs, ws, us; done).
  rewrite !(Nat.add_succ_r (length vs)), !egal_unionall, <- !Nat.add_succ_r by (by eapply Htag).
  rewrite (binds_types h k a b vs ws s s), (binds_types h k a c vs us s t), !Z.eqb_refl, (proj2 (Z.eqb_neq _ _) Hst), app_nil_r by done.
  replace (length vs) with (length ws) by done. rewrite (binds_types h k b c ws us s t), (proj2 (Z.eqb_neq _ _) Hst), app_nil_r by done. done.
Qed.
Lemma where_binds a v w s : is_tag where_heap jl_unionall_tag a = true -> unionall_var where_heap a = v -> is_tag where_heap jl_unionall_tag (unionall_body where_heap a) = true ->
  unionall_var where_heap (unionall_body where_heap a) = w -> unionall_body where_heap (unionall_body where_heap a) = s -> binds where_heap a [v; w] s.
Proof. intros H1 <- H2 <- <-. constructor; [done|]. constructor; [done|constructor]. Qed.
(** The first parameter is the outer variable of the first and of the third type,
    and the inner one of the second. *)
Lemma egal_types_shared_body_witness :
  jl_egal where_heap 8 0x2800 0x2900 = Some true /\ jl_egal where_heap 8 0x2800 0x2a00 = Some true /\ jl_egal where_heap 8 0x2900 0x2a00 = Some false.
Proof.
  destruct (egal_types_shared_body where_heap 4 0x2800 0x2900 0x2a00 [0x2100; 0x2180] [0x2180; 0x2100] [0x2300; 0x2380] 0x2600 0x2700) as (H1 & H2 & H3);
    [apply where_binds; vm_compute; reflexivity..|done|repeat constructor|repeat constructor|done|].
  split; [exact H1|]. split; [etransitivity; [exact H2|vm_compute; reflexivity]|etransitivity; [exact H3|vm_compute; reflexivity]].
Defined.

(** So [P{T1,T2} where T2 where T1], whose first parameter is the outer variable,
    is [===] to [P{T1,T2} where T1 where T2], which is another type and has
    another id, and to a copy of itself with fresh variables, which is not [===]
    to the second. *)
Lemma where_not_transitive : let a := 0x2800 in let b := 0x2900 in let c := 0x2a00 in
  jl_egal where_heap 8 a b = Some true /\ jl_egal where_heap 8 a c = Some true /\ jl_egal where_heap 8 b c = Some false /\
  exists i j, jl_object_id where_heap 16 a = Some i /\ jl_object_id where_heap 16 b = Some j /\ jl_object_id where_heap 16 c = Some i /\ i <> j.
Proof.
  split; [vm_compute; reflexivity|]. split; [vm_compute; reflexivity|]. split; [vm_compute; reflexivity|].
  do 2 eexists. split; [vm_compute; reflexivity|]. split; [vm_compute; reflexivity|]. split; [vm_compute; reflexivity|done].
Qed.

(** ** Types with [Vararg] and without a hash *)

(** [U = Union{Int8, String}]; [t1 = Tuple{U, Vararg}] and
    [t2 = Tuple{U, Vararg{Any}}], without a hash; and [Type{t1}], [Type{t2}]. *)
Definition vararg_words : list (Z * Z) :=
  example_words ++ [(0x1900 + 88, 0x1234)] ++ type_words 0x2480 mutable_name 0 0 ++
  [(0x24f8, 48); (0x2500, 0x1280); (0x2508, 0x1380); (0x2538, 128); (0x2578, 128); (0x2580, 0x2480)] ++
  svec_words 0x25c8 [0x2500; 0x2540] ++ svec_words 0x2608 [0x2500; 0x2580] ++ datatype_words 0x2680 0x1900 0x25c8 ++ datatype_words 0x2700 0x1900 0x2608 ++
  [(0x2778, 64); (0x2780, 0x2680); (0x27b8, 64); (0x27c0, 0x2700)].
Definition vararg_heap : heap :=
  {| mem := mem_of vararg_words; small_typeof := small_typeof example_heap; jl_tuple_typename := 0x1900; jl_typename_type := 0x1500; jl_any_type := 0x2480; jl_nothing := 3; union_fuel := 8 |}.

(** [egal_types] reads a missing element type as [Any], but the ids of these
    types come from the fields of the [Vararg]s: one value, and two ids. *)
Lemma vararg_ids_differ : dt_hash vararg_heap 0x2680 = 0 /\ dt_hash vararg_heap 0x2700 = 0 /\
  (exists v, value_of vararg_heap 8 0x2780 = Some v /\ value_of vararg_heap 8 0x27c0 = Some v) /\ jl_egal vararg_heap 8 0x2780 0x27c0 = Some true /\
  exists i j, jl_object_id vararg_heap 8 0x2780 = Some i /\ jl_object_id vararg_heap 8 0x27c0 = Some j /\ i <> j.
Proof.
  split; [vm_compute; reflexivity|]. split; [vm_compute; reflexivity|]. split; [eexists; split; vm_compute; reflexivity|]. split; [vm_compute; reflexivity|].
  do 2 eexists. split; [vm_compute; reflexivity|]. split; [vm_compute; reflexivity|done].
Qed.
